(* ===== verification/_CoqProject ===== *)
-Q . S2P
Prelude.v
RustStr.v
Bytes.v
RustText.v
Sdk.v
PayError.v
Envelope.v
Amount.v
Event.v
Mmr.v
MmrTheory.v
Store.v
Hoare.v
Journal.v
AuditLog.v
Retry.v
Compliance.v
Http.v
Jsonl.v
X402.v
Settle.v
F64.v
Executor.v
Steps.v
ExecutorProps.v
PassProps.v
RunOnce.v
Reconcile.v
StateErr.v
ChanError.v
ReplayWindow.v
ChanWire.v
ChanKeys.v
ChanSession.v
NetWire.v
HandshakeReplay.v
Relay.v
NetAuth.v
RelayServer.v
HashChain.v
Attest.v
Trust.v
VcsMerge.v
VcsIgnore.v
VcsMmr.v
VcsObject.v
VcsTree.v
VcsStream.v
VcsStore.v
WalletCore.v
Wallet.v
WalletProps.v
RunWallet.v
LocalRail.v
Delegation.v
C2pa.v
Provenance.v
Stamp.v
ProvVerify.v
ProvProps.v
ProvAnchor.v
License.v
StampProps.v
PassOcra.v
PassGen.v
PassVault.v
PassSession.v
PassCmd.v
PassCmdProps.v
CanaryMerkle.v
CanaryTree.v
Canary.v
CanaryProps.v
Crawler.v
CrawlRun.v
Secrets.v
SecretsCmd.v
SecretsProps.v
Seal.v
ShardFiles.v
