(* ===== verification/Prelude.v ===== *)
(** * Verification of origin-tools

    ** The program

    origin-tools is a Rust workspace of tools that share one identity, one
    binary envelope and one cryptographic SDK.  The parts verified here:

    - [origin-payments]: a checkout is an event made of orders.  The executor
      ([executor.rs], [run_once]) takes the orders that are ready, marks them
      [EXECUTING] in the order log, checks policy and compliance, pays them on
      one of four rails (native wallet, x402 over HTTP, card, ACH), posts the
      double-entry journal ([journal.rs]), marks them settled, and records an
      audit entry ([audit.rs]); failures are retried with backoff
      ([retry.rs]) or dead-lettered.  Deferred x402 authorizations are rolled
      into batches ([settle.rs]); reconciliation ([reconcile.rs]) compares the
      settled orders with the settlement files of a payment provider.  All
      state is in append-only JSON-lines files ([store.rs]).
    - [origin-wallet]: accounts, a spend policy with day and month buckets, a
      history in a mountain range, one encrypted file; its offline rail
      ([native_rail.rs]) is the one the executor calls for native orders.
    - [origin-proof]: a Merkle mountain range ([mmr.rs]) with membership
      proofs; payments, wallet and version control keep their logs in it.
    - [origin-common]: the ORGN envelope, the encrypted binary container of
      every tool ([envelope.rs], [tier_ext.rs]).
    - [origin-channel]: a two-party encrypted channel: a three-message
      handshake, a symmetric ratchet, a replay window, usage limits.
    - [origin-network]: peers reach each other through a relay; handshakes are
      the channel's, identities are bound by signed AUTH claims, and the relay
      forwards frames between paired peers or queues them in inboxes.
    - [origin-attest]: claims, endorsements and revocations in hash chains, a
      registry, cookies, and the trust graph over the endorsements.
    - [origin-identity]: capability sets and delegation chains.
    - [origin-vcs]: a content-addressed encrypted object store, streamed
      blobs, a commit log, ignore rules, the three-way merge and garbage
      collection.

    - [origin-provenance]: signed edit histories of files ([opm.rs]) and their
      verifier, head anchors, stamps, watermarks, directory manifests, license
      tokens and a reader of C2PA annotations.
    - [origin-pass]: a password vault in one encrypted file, one-time codes,
      OCRA challenge-response with a replay ledger, password generation.
    - [origin-canary]: marks a source tree with tokens by six embedding
      strategies, commits to them with a signed Merkle root, and assembles
      evidence from a suspect tree.
    - [origin-crawler]: a polite breadth-first crawler: workers share a
      frontier, a page budget and robots rules, and store pages with sidecars.
    - [origin-secrets]: a vault whose master seed is split into threshold
      shares, with revocation, expiry, recovery and an audit log.
    - [origin-seal]: files sealed under a passphrase or the identity, in one
      piece or as a stream of chunks; detached signatures; hashes.
    - [origin-shard]: a file as a directory of Reed-Solomon shards.

    ** Files

    Foundations: this file (results, machine integers, tactics), [RustStr.v]
    (the string functions of the standard library the code calls),
    [Bytes.v] (byte encodings), [RustText.v] (UTF-8, lines, searching, paths), [Sdk.v] (the cryptographic SDK, hex and JSON
    as a class of operations, with the laws used as separate classes and a
    concrete instance), [StateErr.v] (a state and error monad that keeps the
    state on error), [HashChain.v] (one theory of hash-linked logs).

    Shared formats: [Envelope.v]; [Mmr.v] (code), [MmrTheory.v] (the
    specification: forests of perfect trees, the simulation and its
    consequences).

    Payments: [PayError.v], [Amount.v] (decimal amounts of [journal.rs]),
    [Jsonl.v] (the files of [store.rs] as bytes), [Event.v]
    ([event.rs], [rails.rs], signatures of [identity.rs]).  [Store.v] is the
    state ([PaymentStore], one field per file, the wallet file and the
    requests sent) and the monad
    [M A := State -> nat -> result exn A * (State * nat)].  The number is a
    tick: clock readings, fresh ids, random bytes and I/O faults are functions
    of it in the class [Env], and every use advances it, so a theorem over all
    environments covers every clock, every id and every schedule of faults.
    Errors ([?] in the code) and panics are the two constructors of [exn].
    [Hoare.v] has triples for it whose postconditions speak of failures too.
    [Journal.v]; [AuditLog.v]; [Retry.v]; [Compliance.v];
    [Http.v] (the HTTP/1.1 client of [x402.rs] over a transport given by the
    class [Net]); [X402.v] (the protocol part of [x402.rs], [card.rs] and the
    facilitator lookup of [vault.rs], over the serde codecs in the class
    [Codec]); [Settle.v]; [F64.v] (the one floating-point computation of the
    executor); [Executor.v], whose rails are programs in [SM], the store monad
    with the order and the wallet at hand and [SettleOutcome] as error; the
    native rail is the class [NativeRail].  [Reconcile.v].  [Steps.v] gives the writes a pass may make as an
    inductive step relation, each with its guard, and proves by induction on
    step sequences what they preserve; [ExecutorProps.v] and [PassProps.v]
    show that every operation of the executor only takes such steps;
    [RunOnce.v] draws the conclusions.

    Wallet: [WalletCore.v] ([address.rs], [account.rs], [transaction.rs]),
    [Wallet.v] ([wallet.rs], [native_rail.rs]), [WalletProps.v].
    [RunWallet.v] relates the wallet file to the native calls of a pass for
    any [NativeRail]; [LocalRail.v] instantiates the class with the wallet's
    own rail and composes both.

    Channel: [ChanError.v], [ChanWire.v] ([codec.rs], [message.rs],
    [negotiation.rs]), [ReplayWindow.v] ([replay.rs]), [ChanKeys.v]
    ([nonce_tracker.rs], [usage_limit.rs], [ratchet.rs], [dh.rs]),
    [ChanSession.v] ([handshake.rs], [session.rs], the demo of
    [commands.rs]).

    Network: [NetWire.v] ([wire.rs], [address.rs], [error.rs]),
    [HandshakeReplay.v] ([replay.rs]), [NetAuth.v] ([identity.rs], parts of
    [session.rs] and [transport.rs]), [Relay.v] ([relay.rs]),
    [RelayServer.v] ([relay_server.rs]: connection
    tasks as steps that interleave).

    Attest: [Attest.v] ([types.rs], [revocation.rs],
    [registry.rs], [audit.rs], [cookie.rs]); [Trust.v]
    ([trust.rs]).  Identity: [Delegation.v]
    ([capabilities.rs], [delegation.rs]).

    Version control: [VcsMerge.v] ([textmerge.rs]),
    [VcsIgnore.v] ([ignore.rs]), [VcsMmr.v] ([mmr.rs]), [VcsObject.v]
    ([object.rs]), [VcsStream.v] ([stream.rs]), [VcsTree.v] and
    [VcsStore.v] ([store.rs] and parts of [commands.rs]).

    Provenance: [C2pa.v] ([c2pa.rs]), [Provenance.v] ([encoding.rs],
    [identity.rs], [opm.rs]), [Stamp.v] ([stamp.rs], [watermark.rs],
    [manifest.rs]), [ProvVerify.v] ([verify.rs]), [License.v]
    ([license.rs]).  [ProvProps.v] gives the invariant of accepted and of
    authored manifests, [ProvAnchor.v] head anchors and crashes,
    [StampProps.v] watermarks and directories.

    Password manager: [PassVault.v] ([vault.rs]),
    [PassOcra.v] ([ocra_suite.rs], [ledger.rs]), [PassGen.v]
    ([generate.rs]), [PassSession.v] ([session.rs]), [PassCmd.v],
    [PassCmdProps.v] ([commands.rs]).

    Canary: [CanaryMerkle.v] ([merkle.rs]), [CanaryTree.v] ([embed.rs],
    [strategies/]), [Canary.v] ([verify.rs], [commitment.rs],
    [fingerprint.rs], [evidence.rs]), [CanaryProps.v].

    Crawler: [Crawler.v] ([frontier.rs], [robots.rs], [sitemap.rs],
    [parser.rs]), [CrawlRun.v] ([crawler.rs], [sidecar.rs]: workers as steps
    that interleave at every lock and await).

    Threshold secrets: [Secrets.v] ([crypto.rs], [vault_handle.rs],
    [share_io.rs] and the data), [SecretsCmd.v] ([commands/]) over a disk on
    which any effect may fail, [SecretsProps.v].

    Sealed files: [Seal.v] ([api.rs], [commands.rs] of origin-seal).  Shards:
    [ShardFiles.v] ([api.rs], [commands.rs] of origin-shard).

    ** What is proved

    - A pass ([RunOnce.v]), for every fault schedule: the order log
      only grows by legal transitions, settled orders are final, both hash
      chains stay valid, a request is sent only for an order already logged as
      [EXECUTING] and only if policy and compliance let it through, a receipt
      settles once.  Without faults, journal and order log agree exactly.
      With the offline rail, the wallet is debited by exactly the payments
      made, within the caps of its spend policy.
    - Journal: balance, chaining and effect of batches on every branch, FX
      conversion, per-currency nets, tamper evidence of the head hash.
    - Amounts: the accepted grammar and value, and printing round trips.
    - Audit stream: recording preserves verifiability; the head binds the log.
    - MMR: the flat layout refines the abstract forest; proofs are complete
      and binding; the two verifiers agree.
    - Envelope: round trips, canonicity, authenticated header.
    - x402: authorizations are bound to their URL; HTTP framing is
      independent of chunking.
    - Deferred batches lose no commitment; reconciliation reports exactly the
      differences; settlement files are accepted only with their stamp.
    - Retry: bounds of the backoff.  Files: the JSON-lines format is a list.
    - Wallet: the spend policy over sequences of payments, receipts provable
      in the history, the file round trip, shard recovery, signatures.
    - Channel: the handshake agrees; over any interleaving both sides decrypt
      exactly what the other sent, in order; the bitmap replay window refines
      the set of accepted numbers; budgets and nonces are bounded; framing.
    - Network: relay invariants under every interleaving, inbox as a bounded
      queue with expiry, who is let in, where data may go, replay tracking.
    - Attest: chains verify, registry effects on every branch, cookie
      lifetime; the trust path is shortest.  Identity: which chains verify.
    - Version control: the merge on disjoint edits, its symmetry, glob
      matching against a declarative relation, stream round trip and
      truncation, addresses, reachability and garbage collection.
    - Provenance: what an accepted manifest binds, that authored manifests
      verify, what a head anchor detects, when the verifier crashes; watermark
      round trip, classification of a directory, license tokens, the calendar.
    - Password manager: round trip of the vault file and its limit, change of
      passphrase; the suites the parser accepts; the replay ledger as a
      window over the history; generation ends and is without bias; a token
      file is a session; the commands on their three files are a machine on a
      map, a session and a history; QR codes read back.
    - Canary: what is embedded is found again, nothing of the source is lost,
      the evidence of a release is sound; Merkle proofs are complete and bind.
    - Crawler: limits, deduplication and politeness under every interleaving;
      a run that ends has drained its queue; a panic stops it from ending.
    - Threshold secrets: the vault file survives every sequence of commands
      and faults; shares give the seed back, and only shares signed under it
      do; timestamps and expiries agree until 2101; a forged share passes the
      check without a vault.
    - Sealed files: what is sealed opens again, however it is read; a stream
      may be cut unnoticed; streams of no data and under the identity do not
      open.  Shards: a directory with enough shards gives the file back.
    - Departures of the code from its documentation are theorems too
      ([Module Runs] of [RunOnce.v] and single theorems next to their component).

    ** Conventions

    Machine integers are [Z] with the wrap-around of the release profile
    written out ([wrap_u64], [wrap_i128], ...).  Panics ([expect], indexing,
    [clamp]) are [None] in pure code, [Panic] in the payments monad and a
    constructor of the error type elsewhere.  Hypotheses
    about code outside the repository are classes ([HexOk], [HashOk],
    [JsonOk], [SigOk], [AeadOk], [CodecOk], [ChanCryptoOk], [WalletOk], ...),
    each with an instance; hash binding is stated as "equal, or a collision is exhibited".
    Loops are structural on the lists they scan, or take fuel computed from
    their argument and are proved never to use it up: the digit printer
    ([RustStr.v]), the trust search ([Trust.v]), the walks over objects
    ([VcsStore.v]), the glob matcher ([VcsIgnore.v]), the years of a
    timestamp ([Secrets.v]), the chunks of a stream ([Seal.v]).

    ** Not modelled

    The serde derives and the TOML and JSON texts of files (records are typed;
    [Jsonl.v] treats the line files); TLS, sockets and the async runtime; the
    range limits of chrono (instants are unbounded integers); [sign_event],
    [encrypt_event] and [decrypt_event]; the exports of a reconciliation run;
    the floating-point trust scores; [main.rs], [cli.rs] and the
    command functions that parse arguments and print; origin-seed and
    origin-stealth, which wrap the SDK.

    ** Plan

    Left for later: status, webhooks and custody of payments; bundles and
    remotes of origin-vcs; the network gate; the command lines of identity,
    provenance and canary; archive and entropy. *)


From Stdlib Require Export ZArith Lia.
From Stdlib Require Import Ascii String.
From stdpp Require Export base list strings gmap sorting.

#[global] Open Scope Z_scope.

(** ** Results: Rust's [Result<A, E>] *)

Inductive result (E A : Type) : Type :=
| Ok (a : A)
| Err (e : E).
Arguments Ok {E A} a.
Arguments Err {E A} e.

#[global] Instance result_mret {E} : MRet (result E) := fun A a => Ok a.
#[global] Instance result_mbind {E} : MBind (result E) :=
  fun A B f r => match r with Ok a => f a | Err e => Err e end.

(** Rust's [.map_err(f)]. *)
Definition map_err {E F A : Type} (f : E -> F) (r : result E A) : result F A :=
  match r with Ok a => Ok a | Err e => Err (f e) end.

(** Rust's [.ok()]. *)
Definition ok {E A : Type} (r : result E A) : option A :=
  match r with Ok a => Some a | Err _ => None end.

Definition is_ok {E A : Type} (r : result E A) : bool :=
  match r with Ok _ => true | Err _ => false end.

Lemma map_err_Ok {E F A : Type} (f : E -> F) (r : result E A) (a : A) : map_err f r = Ok a -> r = Ok a.
Proof. destruct r; cbn; congruence. Qed.

#[global] Instance result_eq_dec {E A : Type} `{EqDecision E, EqDecision A} : EqDecision (result E A).
Proof. solve_decision. Defined.

Lemma result_bind_Ok {E A B : Type} (f : A -> result E B) (r : result E A) (b : B) :
  r ≫= f = Ok b <-> exists a, r = Ok a /\ f a = Ok b.
Proof. destruct r; simpl; split; [eauto| |done|]; intros (?&?&?); by simplify_eq. Qed.

(** ** Machine integers

    A [w]-bit integer is a [Z] in its range; arithmetic that can leave the
    range is written with the wrap-around of the release profile. *)

Definition i128_max : Z := 2 ^ 127 - 1.
Definition i128_min : Z := - 2 ^ 127.
Definition u64_max : Z := 2 ^ 64 - 1.
Definition i64_max : Z := 2 ^ 63 - 1.
Definition u32_max : Z := 2 ^ 32 - 1.

Definition wrap_u (w : Z) (x : Z) : Z := x mod 2 ^ w.
Definition wrap_s (w : Z) (x : Z) : Z := (x + 2 ^ (w - 1)) mod 2 ^ w - 2 ^ (w - 1).

Definition wrap_i128 : Z -> Z := wrap_s 128.
Definition wrap_i64 : Z -> Z := wrap_s 64.
Definition wrap_u64 : Z -> Z := wrap_u 64.
Definition wrap_u32 : Z -> Z := wrap_u 32.

Definition in_i128 (x : Z) : Prop := i128_min <= x <= i128_max.
Definition in_i64 (x : Z) : Prop := - 2 ^ 63 <= x <= i64_max.
Definition in_u64 (x : Z) : Prop := 0 <= x <= u64_max.
Definition in_u32 (x : Z) : Prop := 0 <= x <= u32_max.

Lemma wrap_s_small (w x : Z) :
  1 <= w -> - 2 ^ (w - 1) <= x < 2 ^ (w - 1) -> wrap_s w x = x.
Proof.
  intros Hw Hx. unfold wrap_s.
  assert (2 ^ w = 2 * 2 ^ (w - 1)) as E
    by (rewrite <- Z.pow_succ_r by lia; f_equal; lia).
  rewrite Z.mod_small by lia. lia.
Qed.

Lemma wrap_s_range (w x : Z) :
  1 <= w -> - 2 ^ (w - 1) <= wrap_s w x < 2 ^ (w - 1).
Proof.
  intros Hw. unfold wrap_s.
  assert (2 ^ w = 2 * 2 ^ (w - 1)) as E
    by (rewrite <- Z.pow_succ_r by lia; f_equal; lia).
  pose proof (Z.mod_pos_bound (x + 2 ^ (w - 1)) (2 ^ w) ltac:(lia)). lia.
Qed.

Lemma wrap_s_mod (w x : Z) : 1 <= w -> wrap_s w x mod 2 ^ w = x mod 2 ^ w.
Proof.
  intros Hw. unfold wrap_s.
  rewrite Zminus_mod_idemp_l. f_equal. lia.
Qed.

Lemma wrap_s_eqm (w x y : Z) :
  1 <= w -> x mod 2 ^ w = y mod 2 ^ w -> wrap_s w x = wrap_s w y.
Proof.
  intros Hw E. unfold wrap_s. f_equal.
  rewrite <- (Zplus_mod_idemp_l x), <- (Zplus_mod_idemp_l y). by rewrite E.
Qed.

Lemma wrap_i128_id (x : Z) : in_i128 x -> wrap_i128 x = x.
Proof. intros Hx. apply wrap_s_small; [lia|]. unfold in_i128, i128_min, i128_max in Hx. lia. Qed.

Lemma wrap_i128_range (x : Z) : in_i128 (wrap_i128 x).
Proof. pose proof (wrap_s_range 128 x ltac:(lia)). unfold in_i128, i128_min, i128_max, wrap_i128. lia. Qed.

Lemma wrap_i64_id (x : Z) : in_i64 x -> wrap_i64 x = x.
Proof. intros Hx. apply wrap_s_small; [lia|]. unfold in_i64, i64_max in Hx. lia. Qed.

Lemma wrap_u64_id (x : Z) : in_u64 x -> wrap_u64 x = x.
Proof. intros Hx. apply Z.mod_small. unfold in_u64, u64_max in Hx. lia. Qed.

Lemma wrap_u64_range (x : Z) : in_u64 (wrap_u64 x).
Proof. pose proof (Z.mod_pos_bound x (2 ^ 64) eq_refl). unfold in_u64, u64_max, wrap_u64, wrap_u. lia. Qed.

(** Rust's [saturating_mul], [saturating_pow] on [u64] and [saturating_sub]
    on unsigned values. *)
Definition sat_mul_u64 (a b : Z) : Z := Z.min (a * b) u64_max.
Fixpoint sat_pow_u64 (a : Z) (n : nat) : Z :=
  match n with O => 1 | S n' => sat_mul_u64 (sat_pow_u64 a n') a end.
Definition sat_sub_u (a b : Z) : Z := Z.max 0 (a - b).

(** ** Generic list lemmas *)

Definition list_sum (l : list Z) : Z := foldr Z.add 0 l.

Lemma list_sum_app (l k : list Z) : list_sum (l ++ k) = list_sum l + list_sum k.
Proof. induction l as [|x l IH]; simpl; [done|]. fold (list_sum (l ++ k)). fold (list_sum l). lia. Qed.

Lemma last_app_cons {A : Type} (l k : list A) (x : A) :
  last (l ++ x :: k) = last (x :: k).
Proof. rewrite last_app. destruct (last (x :: k)) eqn:E; [done|]. by apply last_None in E. Qed.

Lemma filter_app_nil {A : Type} (P : A -> Prop) `{forall x, Decision (P x)} (l k : list A) :
  Forall (fun x => ~ P x) k -> filter P (l ++ k) = filter P l.
Proof.
  intros Hk. rewrite filter_app.
  assert (filter P k = []) as ->; [|by rewrite app_nil_r].
  induction Hk as [|x k Hx Hk IH]; [done|]. by rewrite filter_cons_False.
Qed.

Lemma Forall_sublist {A : Type} (P : A -> Prop) (l k : list A) : l `sublist_of` k -> Forall P k -> Forall P l.
Proof. rewrite !Forall_forall. intros Hl Hk x Hx. apply Hk. by eapply elem_of_sublist. Qed.

Lemma sublist_map {A B : Type} (f : A -> B) (l k : list A) : l `sublist_of` k -> map f l `sublist_of` map f k.
Proof. induction 1; cbn; by constructor. Qed.

(** ** Automation *)

Create HintDb origin.
Create Rewrite HintDb origin.
#[export] Hint Resolve wrap_i128_range wrap_u64_range : origin.

(** Case analysis on the tests a definition branches on, in hypotheses and
    goals, keeping the equations and closing contradictory branches. *)
Ltac branch :=
  repeat (case_match || case_decide); simplify_eq/=; try done.

(** Inversion of a successful computation in the result monad. *)
Ltac inv_ok H :=
  repeat first
    [ apply result_bind_Ok in H as (? & ? & H)
    | progress simplify_eq/= ].
