(* ===== verification/RustStr.v ===== *)
(** * Rust strings

    A [&str] is its UTF-8 byte sequence, a [string]; the operations work on
    the list of its bytes.  [trim] and [split_whitespace] follow Unicode's
    White_Space property through the UTF-8 encodings of its characters.
    Decimal printing ([{}] of an unsigned integer, [{:02}]) and parsing
    ([str::parse] on digits) are inverse to each other. *)

From Stdlib Require Import Ascii String.
From S2P Require Import Prelude.

Abbreviation chars := list_ascii_of_string.
Abbreviation of_chars := string_of_list_ascii.
Definition code (a : ascii) : Z := Z.of_N (N_of_ascii a).

Lemma chars_of_chars (l : list ascii) : chars (of_chars l) = l.
Proof. apply list_ascii_of_string_of_list_ascii. Qed.

Lemma of_chars_chars (s : string) : of_chars (chars s) = s.
Proof. apply string_of_list_ascii_of_string. Qed.

Lemma chars_inj (s t : string) : chars s = chars t -> s = t.
Proof. intros E. by rewrite <- (of_chars_chars s), <- (of_chars_chars t), E. Qed.

Lemma chars_app (s t : string) : chars (s +:+ t) = chars s ++ chars t.
Proof. induction s as [|a s IH]; [done|]. change (a :: chars (s +:+ t) = a :: chars s ++ chars t). by rewrite IH. Qed.

(** ** White space *)

Definition is_ws1 (a : ascii) : bool :=
  ((9 <=? code a) && (code a <=? 13)) || (code a =? 32).
Definition is_ws2 (a b : ascii) : bool :=
  (code a =? 194) && ((code b =? 133) || (code b =? 160)).
Definition is_ws3 (a b c : ascii) : bool :=
  ((code a =? 225) && (code b =? 154) && (code c =? 128))
  || ((code a =? 226) && (code b =? 128)
      && (((128 <=? code c) && (code c <=? 138)) || (code c =? 168) || (code c =? 169) || (code c =? 175)))
  || ((code a =? 226) && (code b =? 129) && (code c =? 159))
  || ((code a =? 227) && (code b =? 128) && (code c =? 128)).

(** Drops white-space characters from the front; with [back] the list is a
    reversed byte sequence, so an encoding is met last byte first. *)
Fixpoint drop_ws (back : bool) (l : list ascii) : list ascii :=
  match l with
  | [] => []
  | a :: l1 =>
      if is_ws1 a then drop_ws back l1
      else match l1 with
           | [] => l
           | b :: l2 =>
               if (if back then is_ws2 b a else is_ws2 a b) then drop_ws back l2
               else match l2 with
                    | [] => l
                    | c :: l3 =>
                        if (if back then is_ws3 c b a else is_ws3 a b c) then drop_ws back l3
                        else l
                    end
           end
  end.

Definition trim_chars (l : list ascii) : list ascii :=
  rev (drop_ws true (rev (drop_ws false l))).

(** [trim_end]. *)
Definition trim_end (l : list ascii) : list ascii := rev (drop_ws true (rev l)).

(** Rust's [str::trim]. *)
Definition trim (s : string) : string := of_chars (trim_chars (chars s)).

(** Rust's [str::split_whitespace]: the maximal runs between white space;
    [cur] is the current run, reversed. *)
Fixpoint words_go (cur : list ascii) (l : list ascii) : list (list ascii) :=
  let flush rest := match cur with [] => rest | _ => rev cur :: rest end in
  match l with
  | [] => flush []
  | a :: l1 =>
      if is_ws1 a then flush (words_go [] l1)
      else match l1 with
           | b :: l2 =>
               if is_ws2 a b then flush (words_go [] l2)
               else match l2 with
                    | c :: l3 =>
                        if is_ws3 a b c then flush (words_go [] l3)
                        else words_go (a :: cur) l1
                    | [] => words_go (a :: cur) l1
                    end
           | [] => words_go (a :: cur) l1
           end
  end.
Definition split_whitespace (s : string) : list (list ascii) := words_go [] (chars s).

(** ** Prefixes, suffixes and splitting *)

Fixpoint strip_prefix (p l : list ascii) : option (list ascii) :=
  match p, l with
  | [], _ => Some l
  | a :: p', b :: l' => if Ascii.eqb a b then strip_prefix p' l' else None
  | _ :: _, [] => None
  end.
Definition strip_suffix (p l : list ascii) : option (list ascii) :=
  option_map (@rev ascii) (strip_prefix (rev p) (rev l)).
Definition starts_with (p l : list ascii) : bool :=
  match strip_prefix p l with Some _ => true | None => false end.

Lemma strip_prefix_app (p l : list ascii) : strip_prefix p (p ++ l) = Some l.
Proof. induction p as [|a p IH]; simpl; [done|]. by rewrite Ascii.eqb_refl. Qed.

Lemma strip_prefix_Some (p l k : list ascii) : strip_prefix p l = Some k -> l = p ++ k.
Proof.
  revert l. induction p as [|a p IH]; intros l E; simpl in *; [by simplify_eq|].
  destruct l as [|b l]; [done|].
  destruct (Ascii.eqb_spec a b) as [->|]; [|done]. by rewrite (IH _ E).
Qed.

(** Rust's [split(c)]: always at least one part. *)
Fixpoint split_on (c : ascii) (l : list ascii) : list (list ascii) :=
  match l with
  | [] => [[]]
  | a :: l' =>
      if Ascii.eqb a c then [] :: split_on c l'
      else match split_on c l' with
           | p :: ps => (a :: p) :: ps
           | [] => [[a]]
           end
  end.

Lemma split_on_nil (c : ascii) (l : list ascii) :
  Forall (fun a => a <> c) l -> split_on c l = [l].
Proof.
  induction 1 as [|a l Ha Hl IH]; [done|]. simpl. rewrite IH.
  by destruct (Ascii.eqb_spec a c).
Qed.

Lemma split_on_sep (c : ascii) (l k : list ascii) :
  Forall (fun a => a <> c) l -> split_on c (l ++ c :: k) = l :: split_on c k.
Proof.
  induction 1 as [|a l Ha Hl IH]; simpl; [by rewrite Ascii.eqb_refl|].
  rewrite IH. by destruct (Ascii.eqb_spec a c).
Qed.

Lemma split_on_ne (c : ascii) (l : list ascii) : split_on c l <> [].
Proof. destruct l as [|a l]; simpl; [done|]. branch. Qed.

Lemma split_on_Forall (c : ascii) (l : list ascii) :
  Forall (Forall (fun a => a <> c)) (split_on c l).
Proof.
  induction l as [|a l IH]; simpl; [by repeat constructor|].
  destruct (Ascii.eqb_spec a c) as [->|Hne]; [by constructor|].
  destruct (split_on c l); [by repeat constructor|].
  inversion IH; subst. by repeat constructor.
Qed.

(** ** Decimal numbers *)

Definition is_digit (a : ascii) : bool := (48 <=? code a) && (code a <=? 57).
Definition digit_val (a : ascii) : Z := code a - 48.

(** The value of a digit string, most significant digit first. *)
Fixpoint digits_val_go (acc : Z) (l : list ascii) : Z :=
  match l with [] => acc | a :: l' => digits_val_go (acc * 10 + digit_val a) l' end.
Definition digits_val (l : list ascii) : Z := digits_val_go 0 l.

(** [parse::<T>()] of a non-empty digit string at a type with maximum [hi]. *)
Definition parse_digits (hi : Z) (l : list ascii) : option Z :=
  if digits_val l <=? hi then Some (digits_val l) else None.

(** [parse::<u64>()]: an optional leading [+], then at least one digit. *)
Definition parse_u64 (l : list ascii) : option Z :=
  let ds := match l with a :: l' => if code a =? 43 then l' else l | [] => [] end in
  match ds with
  | [] => None
  | _ => if forallb is_digit ds then parse_digits u64_max ds else None
  end.

(** [parse::<T>()] at an unsigned type with maximum [hi], at most 64 bits. *)
Definition parse_unsigned (hi : Z) (l : list ascii) : option Z :=
  match parse_u64 l with Some n => if n <=? hi then Some n else None | None => None end.

Definition digit_char (d : Z) : ascii := ascii_of_N (Z.to_N (48 + d)).

(** [{}] of a non-negative integer: fuel bounds the number of digits. *)
Fixpoint show_go (fuel : nat) (n : Z) (acc : list ascii) : list ascii :=
  match fuel with
  | O => acc
  | S f =>
      let acc' := digit_char (n mod 10) :: acc in
      if n <? 10 then acc' else show_go f (n / 10) acc'
  end.
Definition show_chars (n : Z) : list ascii := show_go (S (Z.to_nat (Z.log2 n))) n [].
Definition show_Z (n : Z) : string := of_chars (show_chars n).
(** A signed integer. *)
Definition show_i64 (z : Z) : string := if z <? 0 then "-" +:+ show_Z (- z) else show_Z z.

(** [{:02}] of an integer below 100. *)
Definition show2_chars (n : Z) : list ascii := [digit_char (n / 10); digit_char (n mod 10)].

Lemma code_digit_char (d : Z) : 0 <= d < 10 -> code (digit_char d) = 48 + d.
Proof.
  intros Hd. unfold code, digit_char. rewrite N_ascii_embedding by lia. lia.
Qed.

Lemma digit_char_is_digit (d : Z) : 0 <= d < 10 -> is_digit (digit_char d) = true.
Proof. intros Hd. unfold is_digit. rewrite code_digit_char by done. lia. Qed.

Lemma digit_char_val (d : Z) : 0 <= d < 10 -> digit_val (digit_char d) = d.
Proof. intros Hd. unfold digit_val. rewrite code_digit_char by done. lia. Qed.

Lemma digits_val_go_app (acc : Z) (l k : list ascii) :
  digits_val_go acc (l ++ k) = digits_val_go (digits_val_go acc l) k.
Proof. revert acc. induction l as [|a l IH]; intros acc; simpl; auto. Qed.

Lemma show_go_spec (fuel : nat) (n : Z) (acc : list ascii) :
  0 <= n < 10 ^ Z.of_nat fuel -> (0 < fuel)%nat ->
  exists ds, show_go fuel n acc = ds ++ acc /\ ds <> [] /\
    forallb is_digit ds = true /\ digits_val ds = n.
Proof.
  revert n acc. induction fuel as [|f IH]; intros n acc Hn Hf; [lia|]. simpl.
  pose proof (Z.mod_pos_bound n 10 ltac:(lia)) as Hm.
  destruct (n <? 10) eqn:E.
  - exists [digit_char (n mod 10)]. rewrite Z.mod_small by lia.
    repeat split; [done| |].
    + simpl. by rewrite digit_char_is_digit by lia.
    + cbn. by rewrite digit_char_val by lia.
  - assert (0 <= n / 10 < 10 ^ Z.of_nat f) as Hd.
    { rewrite Nat2Z.inj_succ, Z.pow_succ_r in Hn by lia.
      split; [apply Z.div_pos; lia|apply Z.div_lt_upper_bound; lia]. }
    assert (0 < f)%nat as Hf'.
    { destruct f; [|lia]. cbn in Hd. apply Z.ltb_ge in E.
      pose proof (Z.div_le_mono 10 n 10 ltac:(lia) E). rewrite Z.div_same in H by lia. lia. }
    destruct (IH (n / 10) (digit_char (n mod 10) :: acc) Hd Hf') as (ds & E1 & Hne & Hall & Hv).
    exists (ds ++ [digit_char (n mod 10)]). rewrite E1, <- app_assoc. simpl.
    repeat split; [by destruct ds| |].
    + rewrite forallb_app, Hall. simpl. by rewrite digit_char_is_digit by lia.
    + unfold digits_val in *. rewrite digits_val_go_app, Hv. cbn.
      rewrite digit_char_val by lia. pose proof (Z.div_mod n 10). lia.
Qed.

Lemma show_fuel_ok (n : Z) : 0 <= n -> n < 10 ^ Z.of_nat (S (Z.to_nat (Z.log2 n))).
Proof.
  intros Hn. destruct (Z.eq_dec n 0) as [->|]; [done|].
  pose proof (Z.log2_spec n ltac:(lia)) as [_ H]. pose proof (Z.log2_nonneg n).
  rewrite Nat2Z.inj_succ, Z2Nat.id by lia.
  eapply Z.lt_le_trans; [apply H|]. apply Z.pow_le_mono_l. lia.
Qed.

(** Printing gives a non-empty digit string that reads back as the number. *)
Lemma show_chars_spec (n : Z) :
  0 <= n -> show_chars n <> [] /\ forallb is_digit (show_chars n) = true /\
            digits_val (show_chars n) = n.
Proof.
  intros Hn.
  destruct (show_go_spec (S (Z.to_nat (Z.log2 n))) n [] ) as (ds & E & ?);
    [split; [done|by apply show_fuel_ok]|lia|].
  unfold show_chars. rewrite E, app_nil_r. tauto.
Qed.

Lemma show2_chars_spec (n : Z) :
  0 <= n < 100 -> forallb is_digit (show2_chars n) = true /\ digits_val (show2_chars n) = n.
Proof.
  intros Hn. assert (0 <= n / 10 < 10) by (split; [apply Z.div_pos; lia|apply Z.div_lt_upper_bound; lia]).
  pose proof (Z.mod_pos_bound n 10 ltac:(lia)). simpl.
  rewrite !digit_char_is_digit by lia. split; [done|].
  unfold digits_val. cbn. rewrite !digit_char_val by lia. pose proof (Z.div_mod n 10). lia.
Qed.

Lemma digits_val_nonneg (l : list ascii) (acc : Z) :
  forallb is_digit l = true -> 0 <= acc -> 0 <= digits_val_go acc l.
Proof.
  revert acc. induction l as [|a l IH]; intros acc Hl Ha; simpl in *; [done|].
  apply andb_true_iff in Hl as [Hd Hl]. apply IH; [done|].
  unfold is_digit, digit_val in *. lia.
Qed.

Lemma digits_val_bound (l : list ascii) (acc : Z) :
  forallb is_digit l = true -> 0 <= acc ->
  digits_val_go acc l < (acc + 1) * 10 ^ Z.of_nat (length l).
Proof.
  revert acc. induction l as [|a l IH]; intros acc Hl Ha; cbn [digits_val_go length forallb] in *; [lia|].
  apply andb_true_iff in Hl as [Hd Hl].
  assert (0 <= digit_val a <= 9) as Hv by (unfold is_digit, digit_val in *; lia).
  specialize (IH (acc * 10 + digit_val a) Hl ltac:(lia)).
  eapply Z.lt_le_trans; [apply IH|].
  rewrite Nat2Z.inj_succ, Z.pow_succ_r by lia. nia.
Qed.

(** Digits are not separators, signs or white space. *)
Lemma digit_not_char (l : list ascii) (c : ascii) :
  forallb is_digit l = true -> is_digit c = false -> Forall (fun a => a <> c) l.
Proof.
  intros Hl Hc. apply Forall_forall. intros a Ha ->.
  rewrite forallb_forall in Hl. apply list_elem_of_In in Ha. apply Hl in Ha. congruence.
Qed.

Lemma digit_not_ws (a : ascii) : is_digit a = true -> is_ws1 a = false.
Proof. unfold is_digit, is_ws1. lia. Qed.

(** [trim] leaves a string alone when its first and last bytes are below 128
    and not white space. *)
Definition plain (a : ascii) : Prop := code a < 128 /\ is_ws1 a = false.

Lemma drop_ws_plain (back : bool) (a : ascii) (l : list ascii) :
  plain a -> Forall (fun b => code b < 128) l -> drop_ws back (a :: l) = a :: l.
Proof.
  intros [Ha Hw] Hl. cbn. rewrite Hw.
  destruct l as [|b l]; [done|]. inversion Hl as [|? ? Hb Hl']; subst.
  assert ((if back then is_ws2 b a else is_ws2 a b) = false) as ->
    by (unfold is_ws2; destruct back; lia).
  destruct l as [|c l]; [done|]. inversion Hl' as [|? ? Hc _]; subst.
  assert ((if back then is_ws3 c b a else is_ws3 a b c) = false) as ->
    by (unfold is_ws3; destruct back; lia).
  done.
Qed.

Lemma trim_plain (l : list ascii) (a b : ascii) (m : list ascii) :
  l = a :: m -> last l = Some b -> Forall (fun c => code c < 128) l ->
  is_ws1 a = false -> is_ws1 b = false -> trim_chars l = l.
Proof.
  intros -> Hb Hall Ha Hwb. unfold trim_chars.
  pose proof Hall as Hall'. inversion Hall' as [|? ? Hca Hm]; subst.
  rewrite drop_ws_plain by done.
  destruct (rev (a :: m)) as [|c r] eqn:E.
  { apply (f_equal length) in E. rewrite length_rev in E. done. }
  assert (c = b) as ->.
  { apply last_Some in Hb as [k Hk]. rewrite Hk, rev_app_distr in E. by simplify_eq/=. }
  assert (Forall (fun c => code c < 128) (b :: r)) as Hr
    by (rewrite <- E; apply Forall_rev; done).
  inversion Hr; subst. rewrite drop_ws_plain by done.
  by rewrite <- E, rev_involutive.
Qed.

(** Printing and parsing an unsigned integer. *)
Lemma parse_unsigned_show (hi n : Z) : 0 <= n <= hi -> hi <= u64_max -> parse_unsigned hi (show_chars n) = Some n.
Proof.
  intros Hn Hhi. destruct (show_chars_spec n ltac:(lia)) as (Hne & Hd & Hv).
  unfold parse_unsigned, parse_u64. destruct (show_chars n) as [|a l] eqn:E; [done|].
  assert ((code a =? 43) = false) as Ha.
  { cbn in Hd. apply andb_true_iff in Hd as [Hd _]. unfold is_digit in Hd. lia. }
  rewrite Ha, Hd. unfold parse_digits. rewrite Hv.
  destruct (Z.leb_spec n u64_max); [|lia]. destruct (Z.leb_spec n hi); [done|lia].
Qed.
