(* ===== verification/Bytes.v ===== *)
(** * Bytes and fixed-width integers

    A [u8] is an [ascii], a byte slice a list of them; a string's [as_bytes]
    is the list of its bytes.  [be_bytes] and [le_bytes] are Rust's
    [to_be_bytes] and [to_le_bytes]. *)

From Stdlib Require Import Ascii String.
From S2P Require Import Prelude RustStr.

Abbreviation bytes := (list ascii).
Abbreviation as_bytes := list_ascii_of_string.

Definition byte_of (z : Z) : ascii := ascii_of_N (Z.to_N (z mod 256)).

Lemma code_range (a : ascii) : 0 <= code a < 256.
Proof. unfold code. pose proof (N_ascii_bounded a). lia. Qed.

Lemma code_byte_of (z : Z) : code (byte_of z) = z mod 256.
Proof.
  unfold code, byte_of. pose proof (Z.mod_pos_bound z 256 ltac:(lia)).
  rewrite N_ascii_embedding by lia. lia.
Qed.

Lemma byte_of_code (a : ascii) : byte_of (code a) = a.
Proof.
  unfold byte_of, code. pose proof (N_ascii_bounded a).
  rewrite Z.mod_small by lia. rewrite N2Z.id. apply ascii_N_embedding.
Qed.

Lemma code_inj (a b : ascii) : code a = code b -> a = b.
Proof. intros E. by rewrite <- (byte_of_code a), <- (byte_of_code b), E. Qed.

(** [n] bytes, least significant first. *)
Fixpoint le_bytes (n : nat) (z : Z) : bytes :=
  match n with O => [] | S n' => byte_of z :: le_bytes n' (z / 256) end.
Definition be_bytes (n : nat) (z : Z) : bytes := rev (le_bytes n z).

(** [from_le_bytes]. *)
Fixpoint le_val (l : bytes) : Z :=
  match l with [] => 0 | a :: l' => code a + 256 * le_val l' end.

Lemma le_bytes_length (n : nat) (z : Z) : length (le_bytes n z) = n.
Proof. revert z. induction n; intros z; simpl; auto. Qed.

Lemma be_bytes_length (n : nat) (z : Z) : length (be_bytes n z) = n.
Proof. unfold be_bytes. by rewrite length_rev, le_bytes_length. Qed.

#[export] Hint Rewrite le_bytes_length be_bytes_length : origin.

Lemma le_val_bytes (n : nat) (z : Z) : le_val (le_bytes n z) = z mod 256 ^ Z.of_nat n.
Proof.
  revert z. induction n as [|n IH]; intros z; [cbn; by rewrite Z.mod_1_r|].
  cbn [le_bytes le_val]. rewrite IH, code_byte_of, Nat2Z.inj_succ, Z.pow_succ_r by lia.
  rewrite Z.rem_mul_r by lia. done.
Qed.

Lemma le_bytes_inj (n : nat) (x y : Z) :
  0 <= x < 256 ^ Z.of_nat n -> 0 <= y < 256 ^ Z.of_nat n -> le_bytes n x = le_bytes n y -> x = y.
Proof.
  intros Hx Hy E. apply (f_equal le_val) in E. rewrite !le_val_bytes in E.
  by rewrite !Z.mod_small in E by done.
Qed.

Lemma be_bytes_inj (n : nat) (x y : Z) :
  0 <= x < 256 ^ Z.of_nat n -> 0 <= y < 256 ^ Z.of_nat n -> be_bytes n x = be_bytes n y -> x = y.
Proof.
  intros Hx Hy E. apply (le_bytes_inj n); [done..|].
  apply (f_equal (@rev ascii)) in E. unfold be_bytes in E. by rewrite !rev_involutive in E.
Qed.

(** Splitting equal concatenations of fixed-width fields. *)
Lemma app_inj_len {A : Type} (a b c d : list A) :
  length a = length c -> a ++ b = c ++ d -> a = c /\ b = d.
Proof. intros Hl E. by apply app_inj_1 in E. Qed.

(** [from_be_bytes]; both directions of the byte encodings. *)
Definition be_val (l : bytes) : Z := le_val (rev l).

Lemma le_bytes_val (l : bytes) : le_bytes (length l) (le_val l) = l.
Proof.
  induction l as [|a l IH]; [done|]. cbn [length le_bytes le_val]. pose proof (code_range a).
  f_equal.
  - apply code_inj. rewrite code_byte_of, Z.mul_comm, Z.mod_add, Z.mod_small; lia.
  - rewrite Z.mul_comm, Z.div_add, Z.div_small by lia. done.
Qed.

Lemma be_bytes_val (n : nat) (l : bytes) : length l = n -> be_bytes n (be_val l) = l.
Proof.
  intros <-. unfold be_bytes, be_val. rewrite <- (length_rev l), le_bytes_val. apply rev_involutive.
Qed.

Lemma le_val_range (l : bytes) : 0 <= le_val l < 256 ^ Z.of_nat (length l).
Proof.
  induction l as [|a l IH]; [done|]. cbn [le_val length]. pose proof (code_range a).
  rewrite Nat2Z.inj_succ, Z.pow_succ_r by lia. lia.
Qed.

Lemma be_val_range (l : bytes) : 0 <= be_val l < 256 ^ Z.of_nat (length l).
Proof. unfold be_val. rewrite <- (length_rev l). apply le_val_range. Qed.

Lemma be_val_bytes (n : nat) (z : Z) : 0 <= z < 256 ^ Z.of_nat n -> be_val (be_bytes n z) = z.
Proof.
  intros Hz. unfold be_val, be_bytes. rewrite rev_involutive, le_val_bytes. by apply Z.mod_small.
Qed.

(** [{:02x}] of a byte. *)
Definition hex_nibble (n : Z) : ascii := if n <? 10 then byte_of (48 + n) else byte_of (87 + n).
Definition fmt_02x (b : ascii) : string := of_chars [hex_nibble (code b / 16); hex_nibble (code b mod 16)].

(** Slices [&b[i..j]] in range. *)
Definition slice {A : Type} (i j : nat) (l : list A) : list A := take (j - i) (drop i l).

Lemma slice_length {A : Type} (i j : nat) (l : list A) :
  (i <= j <= length l)%nat -> length (slice i j l) = (j - i)%nat.
Proof. intros H. unfold slice. rewrite length_take, length_drop. lia. Qed.

Lemma slice_app {A : Type} (i : nat) (a b c : list A) :
  length a = i -> slice i (i + length b) (a ++ b ++ c) = b.
Proof.
  intros <-. unfold slice. rewrite drop_app_length.
  replace (length a + length b - length a)%nat with (length b) by lia. apply take_app_length.
Qed.

Lemma slice_cat {A : Type} (i j : nat) (l : list A) : (i <= j)%nat -> slice i j l ++ drop j l = drop i l.
Proof.
  intros H. unfold slice. rewrite <- (take_drop (j - i) (drop i l)) at 2. f_equal.
  rewrite drop_drop. f_equal. lia.
Qed.
