(* ===== verification/RustText.v ===== *)
(** * Strings, UTF-8 and paths of the Rust standard library

    The operations of [str], [String] and [Path] that more than one crate
    calls, on lists of bytes.  A path is the text the code holds; [parent] and
    [extension] follow [std::path] on paths without a trailing or doubled
    separator. *)

From Stdlib Require Import Ascii String.
From S2P Require Import Prelude RustStr Bytes.

(** ** Searching and splitting *)

(** [find(c)]: split at the first [c], [None] when absent; [c] stays with the tail. *)
Fixpoint find_split (c : ascii) (l : list ascii) : option (list ascii * list ascii) :=
  match l with
  | [] => None
  | a :: l' => if Ascii.eqb a c then Some ([], l)
               else match find_split c l' with Some (p, q) => Some (a :: p, q) | None => None end
  end.

(** [split_once(c)]. *)
Definition split_once (c : ascii) (l : list ascii) : option (list ascii * list ascii) :=
  match find_split c l with Some (p, _ :: q) => Some (p, q) | _ => None end.

(** [rsplit_once(c)]. *)
Definition rsplit_once (c : ascii) (l : list ascii) : option (list ascii * list ascii) :=
  match split_once c (rev l) with Some (p, q) => Some (rev q, rev p) | None => None end.

(** [trim_end_matches(c)]. *)
Fixpoint drop_char (c : ascii) (l : list ascii) : list ascii :=
  match l with a :: l' => if Ascii.eqb a c then drop_char c l' else l | [] => [] end.
Definition trim_end_matches (c : ascii) (s : string) : string :=
  of_chars (rev (drop_char c (rev (chars s)))).

Definition lower (a : ascii) : ascii :=
  if (65 <=? code a) && (code a <=? 90) then byte_of (code a + 32) else a.

Definition cr : ascii := byte_of 13.
Definition lf : ascii := byte_of 10.
Definition colon : ascii := ":"%char.
Definition slash : ascii := "/"%char.

(** [str::lines]: pieces ended by [\n], without a final [\r]; no piece after the last [\n]. *)
Definition strip_cr (l : list ascii) : list ascii :=
  match rev l with a :: r => if Ascii.eqb a cr then rev r else l | [] => [] end.
Definition lines (l : list ascii) : list (list ascii) :=
  let ps := split_on lf l in
  match rev ps with
  | [] :: r => map strip_cr (rev r)
  | a :: r => map strip_cr (rev r) ++ [a]
  | [] => []
  end.

(** [String::from_utf8_lossy]: every maximal invalid prefix becomes U+FFFD. *)
Definition fffd : bytes := [byte_of 239; byte_of 191; byte_of 189].
Definition between (lo hi : Z) (a : ascii) : bool := (lo <=? code a) && (code a <=? hi).
Definition cont : ascii -> bool := between 128 191.

(** The second byte a lead byte of a three- or four-byte sequence admits. *)
Definition second3 (a b : ascii) : bool :=
  if code a =? 224 then between 160 191 b
  else if code a =? 237 then between 128 159 b else cont b.
Definition second4 (a b : ascii) : bool :=
  if code a =? 240 then between 144 191 b
  else if code a =? 244 then between 128 143 b else cont b.

Fixpoint utf8_lossy (l : bytes) : bytes :=
  match l with
  | [] => []
  | a :: l1 =>
      if code a <? 128 then a :: utf8_lossy l1
      else if between 194 223 a then
        match l1 with
        | b :: l2 => if cont b then a :: b :: utf8_lossy l2 else fffd ++ utf8_lossy l1
        | [] => fffd
        end
      else if between 224 239 a then
        match l1 with
        | b :: l2 =>
            if second3 a b then
              match l2 with
              | c :: l3 => if cont c then a :: b :: c :: utf8_lossy l3 else fffd ++ utf8_lossy l2
              | [] => fffd
              end
            else fffd ++ utf8_lossy l1
        | [] => fffd
        end
      else if between 240 244 a then
        match l1 with
        | b :: l2 =>
            if second4 a b then
              match l2 with
              | c :: l3 =>
                  if cont c then
                    match l3 with
                    | d :: l4 => if cont d then a :: b :: c :: d :: utf8_lossy l4
                                 else fffd ++ utf8_lossy l3
                    | [] => fffd
                    end
                  else fffd ++ utf8_lossy l2
              | [] => fffd
              end
            else fffd ++ utf8_lossy l1
        | [] => fffd
        end
      else fffd ++ utf8_lossy l1
  end.

(** [str::from_utf8(b).ok()]. *)
Fixpoint utf8_valid (l : bytes) : bool :=
  match l with
  | [] => true
  | a :: l1 =>
      if code a <? 128 then utf8_valid l1
      else if between 194 223 a then match l1 with b :: l2 => cont b && utf8_valid l2 | [] => false end
      else if between 224 239 a then
        match l1 with b :: c :: l3 => second3 a b && cont c && utf8_valid l3 | _ => false end
      else if between 240 244 a then
        match l1 with b :: c :: d :: l4 => second4 a b && cont c && cont d && utf8_valid l4 | _ => false end
      else false
  end.
Definition from_utf8 (b : bytes) : option string := if utf8_valid b then Some (of_chars b) else None.

Lemma utf8_valid_app (l k : bytes) : utf8_valid l = true -> utf8_valid (l ++ k) = utf8_valid k.
Proof.
  remember (length l) as n eqn:En. revert l En.
  induction n as [n IH] using (well_founded_induction lt_wf). intros l -> Hl.
  destruct l as [|a l1]; [done|]. cbn [app utf8_valid] in *.
  destruct (code a <? 128); [by apply (IH (length l1)); cbn; [lia|..]|].
  destruct (between 194 223 a).
  { destruct l1 as [|b l2]; [done|]. cbn [app]. apply andb_prop in Hl as [-> Hl].
    by apply (IH (length l2)); cbn; [lia|..]. }
  destruct (between 224 239 a).
  { destruct l1 as [|b [|c l3]]; [done..|]. cbn [app]. apply andb_prop in Hl as [-> Hl].
    by apply (IH (length l3)); cbn; [lia|..]. }
  destruct (between 240 244 a); [|done].
  destruct l1 as [|b [|c [|d l4]]]; [done..|]. cbn [app]. apply andb_prop in Hl as [-> Hl].
  by apply (IH (length l4)); cbn; [lia|..].
Qed.

(** [is_char_boundary]: not before a continuation byte. *)
Definition is_char_boundary (line : bytes) (i : nat) : bool :=
  match line !! i with Some b => negb (cont b) | None => (i =? length line)%nat end.

(** [iter().position(p)]. *)
Fixpoint position {A : Type} (p : A -> bool) (l : list A) : option nat :=
  match l with [] => None | a :: l' => if p a then Some O else S <$> position p l' end.

(** [windows(n).position(|w| w == pat)] for a pattern of [n > 0] bytes. *)
Fixpoint find_window (pat l : bytes) : option nat :=
  if starts_with pat l then Some O
  else match l with [] => None | _ :: l' => S <$> find_window pat l' end.

Lemma elem_of_concat {A : Type} (x : A) (ls : list (list A)) : x ∈ concat ls <-> exists l, x ∈ l /\ l ∈ ls.
Proof.
  rewrite list_elem_of_In, in_concat. split; intros (l & H1 & H2); exists l; rewrite !list_elem_of_In in *; done.
Qed.

Lemma position_Some {A : Type} (p : A -> bool) (l : list A) (i : nat) :
  position p l = Some i -> exists a, l !! i = Some a /\ p a = true /\ forall j b, (j < i)%nat -> l !! j = Some b -> p b = false.
Proof.
  revert i. induction l as [|a l IH]; intros i E; cbn in E; [done|]. destruct (p a) eqn:Ep.
  - injection E as <-. exists a. repeat split; [done..|]. intros; lia.
  - apply fmap_Some in E as (j & E & ->). destruct (IH _ E) as (b & Hb & Hp & Hlt). exists b. repeat split; [done..|].
    intros [|k] c Hk Hc; [cbn in Hc; congruence|]. apply (Hlt k); [lia|done].
Qed.

Lemma position_lt {A : Type} (p : A -> bool) (l : list A) (i : nat) : position p l = Some i -> (i < length l)%nat.
Proof. intros E. apply position_Some in E as (a & Ha & _). by apply lookup_lt_Some in Ha. Qed.

Lemma starts_with_app (p l : bytes) : starts_with p (p ++ l) = true.
Proof. unfold starts_with. by rewrite strip_prefix_app. Qed.

Lemma find_window_here (pat l : bytes) : starts_with pat l = true -> find_window pat l = Some O.
Proof. intros E. destruct l; cbn [find_window]; by rewrite E. Qed.

Lemma find_window_app (pat l k : bytes) :
  (forall i, (i < length l)%nat -> starts_with pat (drop i (l ++ pat ++ k)) = false) ->
  find_window pat (l ++ pat ++ k) = Some (length l).
Proof.
  induction l as [|a l IH]; intros Hl.
  - apply find_window_here. exact (starts_with_app pat k).
  - pose proof (Hl O ltac:(cbn; lia)) as H0. cbn [drop app] in H0. cbn [app find_window length]. rewrite H0, IH; [done|].
    intros i Hi. apply (Hl (S i)). cbn. lia.
Qed.

Lemma position_exists {A : Type} (f : A -> bool) (l : list A) (x : A) : x ∈ l -> f x = true -> is_Some (position f l).
Proof.
  intros Hx Hf. induction Hx as [x l|x y l Hx IH]; cbn; [rewrite Hf; by eexists|].
  destruct (f y); [by eexists|]. apply fmap_is_Some. by apply IH.
Qed.

(** ** Text: substrings, lines and UTF-8 *)

Definition sub (s l : bytes) : Prop := exists a b, l = a ++ s ++ b.

Lemma sub_refl (s : bytes) : sub s s.
Proof. exists [], []. by rewrite app_nil_r. Qed.

Lemma sub_trans (s l k : bytes) : sub s l -> sub l k -> sub s k.
Proof. intros (a & b & ->) (c & d & ->). exists (c ++ a), (b ++ d). by rewrite !app_assoc. Qed.

Lemma sub_app_l (s l k : bytes) : sub s l -> sub s (l ++ k).
Proof. intros (a & b & ->). exists a, (b ++ k). by rewrite !app_assoc. Qed.

Lemma sub_app_r (s l k : bytes) : sub s k -> sub s (l ++ k).
Proof. intros (a & b & ->). exists (l ++ a), b. by rewrite !app_assoc. Qed.

#[local] Hint Resolve sub_refl sub_app_l sub_app_r : core.

Lemma starts_with_iff (p l : bytes) : starts_with p l = true <-> exists k, l = p ++ k.
Proof.
  unfold starts_with. split.
  - destruct (strip_prefix p l) as [k|] eqn:E; [|done]. intros _. exists k. by apply strip_prefix_Some.
  - intros [k ->]. by rewrite strip_prefix_app.
Qed.

Lemma find_window_sub (s l : bytes) : is_Some (find_window s l) <-> sub s l.
Proof.
  split.
  - induction l as [|a l IH]; cbn [find_window].
    + destruct (starts_with s []) eqn:E; [|by intros []]. intros _. apply starts_with_iff in E as [k E].
      exists [], k. done.
    + destruct (starts_with s (a :: l)) eqn:E.
      * intros _. apply starts_with_iff in E as [k E]. by exists [], k.
      * rewrite fmap_is_Some. intros Hs. destruct (IH Hs) as (b & c & ->). by exists (a :: b), c.
  - intros (a & b & ->). induction a as [|x a IH].
    + exists O. apply find_window_here. by apply starts_with_iff; exists b.
    + cbn [app find_window]. destruct (starts_with s (x :: a ++ s ++ b)); [by eexists|]. by apply fmap_is_Some.
Qed.

(** [str::contains] and [join] with a line feed. *)
Definition contains (p : string) (l : bytes) : bool := bool_decide (is_Some (find_window (chars p) l)).
Fixpoint join_lf (ls : list bytes) : bytes :=
  match ls with [] => [] | [l] => l | l :: ls' => l ++ lf :: join_lf ls' end.

Lemma contains_sub (p : string) (l : bytes) : contains p l = true <-> sub (chars p) l.
Proof. unfold contains. by rewrite bool_decide_eq_true, find_window_sub. Qed.

(** Text within one line. *)
Definition one_line (s : bytes) : Prop := s <> [] /\ Forall (fun a => a <> lf /\ a <> cr) s.

Lemma sub_sep (s l r : bytes) (c : ascii) :
  Forall (fun a => a <> c) s -> sub s (l ++ c :: r) -> sub s l \/ sub s r.
Proof.
  intros Hs (a & b & E). apply app_eq_app in E as (k & [[-> E]|[-> E]]).
  - apply app_eq_app in E as (m & [[-> E]|[-> E]]).
    + destruct m as [|x m]; [left; exists a, []; by rewrite !app_nil_r|].
      injection E as <- ->. rewrite !Forall_app in Hs. destruct Hs as (_ & Hs). by apply Forall_cons in Hs as [? _].
    + left. by exists a, m.
  - destruct k as [|x k]; cbn in E.
    + destruct s as [|y s]; [left; exists l, []; by rewrite app_nil_r|]. injection E as <- ->.
      by apply Forall_cons in Hs as [? _].
    + injection E as <- ->. right. by exists k, b.
Qed.

Lemma sub_nil (s : bytes) : sub s [] -> s = [].
Proof. intros (a & b & E). symmetry in E. apply app_nil in E as [_ E]. by apply app_nil in E as [-> _]. Qed.

Lemma strip_cr_cases (l : bytes) : strip_cr l = l \/ l = strip_cr l ++ [cr].
Proof.
  unfold strip_cr. destruct (rev l) as [|a r] eqn:E.
  - apply (f_equal (@rev ascii)) in E. rewrite rev_involutive in E. by left; subst.
  - destruct (Ascii.eqb_spec a cr) as [->|]; [|by left]. right.
    apply (f_equal (@rev ascii)) in E. by rewrite rev_involutive in E.
Qed.

Lemma strip_cr_sub (s l : bytes) : one_line s -> sub s l -> sub s (strip_cr l).
Proof.
  intros [Hne Hs] Hl. destruct (strip_cr_cases l) as [->|E]; [done|]. rewrite E in Hl.
  destruct (sub_sep s (strip_cr l) [] cr) as [|H]; [|done..|by apply sub_nil in H].
  apply (Forall_impl _ _ _ Hs). by intros a [].
Qed.

Lemma split_join_lf (c : bytes) : join_lf (split_on lf c) = c.
Proof.
  induction c as [|a c IH]; [done|]. cbn [split_on]. pose proof (split_on_ne lf c) as Hne.
  destruct (Ascii.eqb_spec a lf) as [->|_].
  - destruct (split_on lf c) as [|x xs]; [done|]. cbn [join_lf app] in *. by rewrite IH.
  - destruct (split_on lf c) as [|x [|y ys]]; [done|..]; cbn [join_lf app] in *; by rewrite <- IH.
Qed.

Lemma join_lf_sub (ls : list bytes) (l : bytes) : l ∈ ls -> sub l (join_lf ls).
Proof.
  induction ls as [|x ls IH]; intros Hl; [by apply elem_of_nil in Hl|].
  apply elem_of_cons in Hl as [->|Hl].
  - destruct ls; cbn; auto.
  - destruct ls as [|y ys]; [by apply elem_of_nil in Hl|]. cbn [join_lf]. apply sub_app_r.
    apply IH in Hl. destruct Hl as (a & b & E). exists (lf :: a), b. cbn. by rewrite <- E.
Qed.

Lemma join_lf_in (s : bytes) (ls : list bytes) : one_line s -> sub s (join_lf ls) -> exists l, l ∈ ls /\ sub s l.
Proof.
  intros [Hne Hs]. induction ls as [|x ls IH]; intros Hj; [by apply sub_nil in Hj|].
  destruct ls as [|y ys]; [exists x; split; [left|done]|]. cbn [join_lf] in Hj.
  apply sub_sep in Hj as [Hj|Hj]; [..|by apply (Forall_impl _ _ _ Hs); intros a []].
  - exists x. split; [left|done].
  - destruct (IH Hj) as (l & Hl & ?). exists l. split; [by right|done].
Qed.

(** The pieces of a text and its lines. *)
Lemma lines_cases (c : bytes) :
  exists ps l, split_on lf c = ps ++ [l] /\ lines c = map strip_cr ps ++ match l with [] => [] | _ => [l] end.
Proof.
  pose proof (split_on_ne lf c) as Hne. destruct (split_on lf c) as [|p0 ps0] eqn:E0; [done|].
  destruct (exists_last (l := p0 :: ps0)) as (ps & l & E); [done|]. exists ps, l. split; [done|].
  unfold lines. rewrite E0, E, rev_app_distr. cbn [rev app]. rewrite rev_involutive.
  destruct l; [by rewrite app_nil_r|done].
Qed.

(** A text within a line occurs in a file iff it occurs in one of its lines. *)
Lemma lines_sub (s c : bytes) : one_line s -> sub s c <-> exists l, l ∈ lines c /\ sub s l.
Proof.
  intros Hs. destruct (lines_cases c) as (ps & l & Es & ->). pose proof (split_join_lf c) as Hc. rewrite Es in Hc. split.
  - intros Hsub. rewrite <- Hc in Hsub. apply join_lf_in in Hsub as (x & Hx & Hsx); [|done].
    apply elem_of_app in Hx as [Hx|Hx].
    + exists (strip_cr x). split; [|by apply strip_cr_sub]. apply elem_of_app. left. by apply list_elem_of_fmap_2.
    + apply list_elem_of_singleton in Hx as ->. destruct l as [|a l]; [by apply sub_nil in Hsx; destruct Hs|].
      exists (a :: l). split; [|done]. apply elem_of_app. right. left.
  - intros (x & Hx & Hsx). rewrite <- Hc. apply elem_of_app in Hx as [Hx|Hx].
    + apply list_elem_of_fmap in Hx as (y & -> & Hy). apply (sub_trans s y); [|by apply join_lf_sub, elem_of_app; left].
      destruct (strip_cr_cases y) as [E|E]; rewrite E in *; [done|]. apply sub_app_l. congruence.
    + apply (sub_trans s l); [by destruct l; [apply elem_of_nil in Hx|apply list_elem_of_singleton in Hx as ->]|].
      apply join_lf_sub, elem_of_app. right. left.
Qed.

(** *** UTF-8 *)

Lemma utf8_split (l k : bytes) (c : ascii) :
  code c < 128 -> utf8_valid (l ++ c :: k) = true -> utf8_valid l = true /\ utf8_valid k = true.
Proof.
  intros Hc. remember (length l) as n eqn:En. revert l En.
  assert (forall lo hi, 128 <= lo -> between lo hi c = false) as Hb.
  { intros lo hi Hlo. unfold between. apply andb_false_iff. left. apply Z.leb_gt. lia. }
  assert (cont c = false) as Hcc by by apply Hb.
  assert (forall a, second3 a c = false) as H3 by (intros a; unfold second3; repeat case_match; by apply Hb).
  assert (forall a, second4 a c = false) as H4 by (intros a; unfold second4; repeat case_match; by apply Hb).
  induction n as [n IH] using (well_founded_induction lt_wf). intros l -> Hl.
  destruct l as [|a l]; cbn [app utf8_valid] in *.
  { destruct (Z.ltb_spec (code c) 128); [done|lia]. }
  destruct (code a <? 128); [apply (IH (length l)); [cbn; lia|done..]|].
  destruct (between 194 223 a).
  { destruct l as [|b l]; cbn [app] in Hl; [by rewrite Hcc in Hl|]. apply andb_prop in Hl as [-> Hl].
    by apply (IH (length l)); [cbn; lia|..]. }
  destruct (between 224 239 a).
  { destruct l as [|b [|d l]]; cbn [app] in Hl.
    - destruct k; [done|]. by rewrite H3 in Hl.
    - by rewrite Hcc, andb_false_r in Hl.
    - apply andb_prop in Hl as [-> Hl]. by apply (IH (length l)); [cbn; lia|..]. }
  destruct (between 240 244 a); [|done].
  destruct l as [|b [|d [|e l]]]; cbn [app] in Hl.
  - destruct k as [|? [|? ?]]; try done. by rewrite H4 in Hl.
  - destruct k as [|? ?]; try done. by rewrite Hcc, andb_false_r in Hl.
  - by rewrite Hcc, andb_false_r in Hl.
  - apply andb_prop in Hl as [-> Hl]. by apply (IH (length l)); [cbn; lia|..].
Qed.

Lemma utf8_valid_app2 (l k : bytes) : utf8_valid l = true -> utf8_valid k = true -> utf8_valid (l ++ k) = true.
Proof. intros Hl Hk. by rewrite utf8_valid_app. Qed.

Lemma utf8_ascii (l : bytes) : Forall (fun a => code a < 128) l -> utf8_valid l = true.
Proof. induction 1 as [|a l Ha Hl IH]; [done|]. cbn. by destruct (Z.ltb_spec (code a) 128); [|lia]. Qed.

Lemma utf8_lossy_valid (l : bytes) : utf8_valid l = true -> utf8_lossy l = l.
Proof.
  remember (length l) as n eqn:En. revert l En.
  induction n as [n IH] using (well_founded_induction lt_wf). intros l -> Hl.
  destruct l as [|a l]; [done|]. cbn [utf8_valid utf8_lossy] in *.
  destruct (code a <? 128); [f_equal; apply (IH (length l)); [cbn; lia|done..]|].
  destruct (between 194 223 a).
  { destruct l as [|b l]; [done|]. apply andb_prop in Hl as [-> Hl]. do 2 f_equal. apply (IH (length l)); [cbn; lia|done..]. }
  destruct (between 224 239 a).
  { destruct l as [|b [|d l]]; [done..|]. apply andb_prop in Hl as [Hl Hv]. apply andb_prop in Hl as [-> ->].
    do 3 f_equal. apply (IH (length l)); [cbn; lia|done..]. }
  destruct (between 240 244 a); [|done].
  destruct l as [|b [|d [|e l]]]; [done..|]. apply andb_prop in Hl as [Hl Hv]. apply andb_prop in Hl as [Hl ->].
  apply andb_prop in Hl as [-> ->]. do 4 f_equal. apply (IH (length l)); [cbn; lia|done..].
Qed.

Lemma join_lf_valid (ls : list bytes) : Forall (fun l => utf8_valid l = true) ls <-> utf8_valid (join_lf ls) = true.
Proof.
  induction ls as [|x ls IH]; [by split; [|constructor]|]. rewrite Forall_cons.
  destruct ls as [|y ys]; [cbn; split; [by intros []|by intros ?; split; [|constructor]]|].
  cbn [join_lf]. rewrite IH. split.
  - intros [Hx Hy]. rewrite utf8_valid_app by done. exact Hy.
  - intros Hv. by apply utf8_split in Hv.
Qed.

Lemma lines_valid (c : bytes) : utf8_valid c = true -> Forall (fun l => utf8_valid l = true) (lines c).
Proof.
  intros Hc. destruct (lines_cases c) as (ps & l & Es & ->). rewrite <- (split_join_lf c), Es, <- join_lf_valid in Hc.
  apply Forall_app in Hc as [Hp Hl]. apply Forall_app. split.
  - apply Forall_map. apply (Forall_impl _ _ _ Hp). intros x Hx. destruct (strip_cr_cases x) as [->|E]; [done|].
    rewrite E in Hx. by apply utf8_split in Hx as [? _].
  - by destruct l.
Qed.


(** ** Paths *)

Definition dot : ascii := "."%char.

(** The text up to and with the last separator. *)
Definition dir_prefix (p : string) : list ascii :=
  match rsplit_once slash (chars p) with Some (d, _) => d ++ [slash] | None => [] end.
(** [p.parent().join(name)]. *)
Definition sibling (p name : string) : string := of_chars (dir_prefix p ++ chars name).
Definition file_name (p : string) : list ascii :=
  match rsplit_once slash (chars p) with Some (_, n) => n | None => chars p end.
(** [extension]: what follows the last dot of the file name, unless that dot
    is its first character. *)
Definition extension (p : string) : option (list ascii) :=
  match rsplit_once dot (file_name p) with
  | Some ([], _) => None
  | Some (_, e) => Some e
  | None => None
  end.
