(* ===== verification/Sdk.v ===== *)
(** * Code outside the repository

    origin-crypto-sdk, serde_json and hex are not in the repository: their
    operations are the fields of these classes, and the development is
    parametric in them.  What a theorem relies on beyond the operations is
    stated by the law classes, which hold of the documented behaviour:
    hex decoding inverts hex encoding, and hashes are 32 bytes. *)

From Stdlib Require Import Ascii String.
From S2P Require Import Prelude RustStr Bytes.

(** ** JSON values, as [serde_json::json!] builds them *)

#[warnings="-register-all"]
Inductive json :=
| JNull
| JBool (b : bool)
| JNum (n : Z)
| JStr (s : string)
| JArr (l : list json)
| JObj (fields : list (string * json)).

(** Induction with the elements of arrays and objects. *)
Lemma json_nested_ind (P : json -> Prop) :
  P JNull -> (forall b, P (JBool b)) -> (forall n, P (JNum n)) -> (forall s, P (JStr s)) ->
  (forall l, Forall P l -> P (JArr l)) -> (forall l, Forall (fun kv => P kv.2) l -> P (JObj l)) ->
  forall j, P j.
Proof.
  intros Hn Hb Hm Hs Ha Ho. fix IH 1. intros [| | | |l|l]; [done|apply Hb|apply Hm|apply Hs|apply Ha|apply Ho].
  - induction l as [|j l IHl]; constructor; [apply IH|exact IHl].
  - induction l as [|[k j] l IHl]; constructor; [apply IH|exact IHl].
Qed.

(** [Vec<u8>] and [[u8; N]] serialise as arrays of numbers, [Option] as the
    value or [null]. *)
Definition json_bytes (b : bytes) : json := JArr (map (fun a => JNum (code a)) b).

Lemma code_map_inj (a b : bytes) : map (fun x => JNum (code x)) a = map (fun x => JNum (code x)) b -> a = b.
Proof.
  revert b. induction a as [|x a IH]; intros [|y b] E; cbn in E; simplify_eq; [done|].
  f_equal; [|by apply IH]. rewrite <- (byte_of_code x), <- (byte_of_code y). congruence.
Qed.

Lemma json_bytes_inj (a b : bytes) : json_bytes a = json_bytes b -> a = b.
Proof. intros [= E]. by apply code_map_inj. Qed.
Definition json_opt {A : Type} (f : A -> json) (o : option A) : json :=
  match o with Some a => f a | None => JNull end.

(** ** Operations *)

Class Sdk := {
  (** [origin_crypto_sdk::sha3_256], [origin_crypto_sdk::blake3::hash]. *)
  sha3_256 : bytes -> bytes;
  blake3 : bytes -> bytes;
  (** [hex::encode], [hex::decode]. *)
  hex_encode : bytes -> string;
  hex_decode : string -> result string bytes;
  (** [serde_json::to_vec]. *)
  json_to_vec : json -> option bytes;
  (** Hybrid signatures: [try_sign_hybrid], [HybridSig::encode],
      [HybridSig::decode], [HybridSig::verify] and the public keys. *)
  HybridSigningKeyBundle : Type;
  HybridSig : Type;
  try_sign_hybrid : HybridSigningKeyBundle -> bytes -> result string HybridSig;
  hybrid_encode : HybridSig -> result string bytes;
  hybrid_decode : bytes -> result string HybridSig;
  hybrid_verify : HybridSig -> bytes -> bytes -> bytes -> bool;
  ed25519_pk : HybridSigningKeyBundle -> bytes;
  falcon1024_pk : HybridSigningKeyBundle -> bytes
}.

(** ** Laws *)

Class HexOk `{Sdk} : Prop := {
  hex_roundtrip : forall b, hex_decode (hex_encode b) = Ok b
}.

(** [hex::encode] writes two lowercase digits per byte. *)
Definition is_hex_char (a : ascii) : bool := is_digit a || ((97 <=? code a) && (code a <=? 102)).
Class HexText `{Sdk} : Prop := {
  hex_text : forall b, Forall (fun a => is_hex_char a = true) (chars (hex_encode b));
  hex_text_len : forall b, length (chars (hex_encode b)) = (2 * length b)%nat
}.

Class HashOk `{Sdk} : Prop := {
  sha3_len : forall b, length (sha3_256 b) = 32%nat;
  blake3_len : forall b, length (blake3 b) = 32%nat
}.

(** Serialising a [serde_json::Value] succeeds and loses nothing. *)
Class JsonOk `{Sdk} : Prop := {
  json_total : forall j, is_Some (json_to_vec j);
  json_inj : forall j k, json_to_vec j = json_to_vec k -> j = k
}.

(** A collision of a hash function: what a forged chain must exhibit. *)
Definition collision (h : bytes -> bytes) : Prop := exists x y, x <> y /\ h x = h y.

(** [data] or a collision: from equal hashes, equal preimages or a collision. *)
Lemma hash_eq_or_collision (h : bytes -> bytes) (x y : bytes) :
  h x = h y -> x = y \/ collision h.
Proof. intros E. destruct (decide (x = y)); [by left|]. right. by exists x, y. Qed.

(** ** A concrete instance

    A toy instance to evaluate definitions on: the hash keeps a 32-byte
    prefix of its padded input, hex is the usual encoding, JSON is a
    tagged rendering and a signature is the signed bytes. *)

Module Toy.

Definition zero32 : bytes := replicate 32 (byte_of 0).
Definition hash (b : bytes) : bytes := take 32 (b ++ zero32).

Definition hex_digit (n : Z) : ascii := if n <? 10 then byte_of (48 + n) else byte_of (87 + n).
Definition hex_val (a : ascii) : option Z :=
  if is_digit a then Some (code a - 48)
  else if (97 <=? code a) && (code a <=? 102) then Some (code a - 87)
  else None.

Fixpoint hex_enc (b : bytes) : bytes :=
  match b with
  | [] => []
  | a :: b' => hex_digit (code a / 16) :: hex_digit (code a mod 16) :: hex_enc b'
  end.
Fixpoint hex_dec (l : bytes) : option bytes :=
  match l with
  | [] => Some []
  | x :: y :: l' =>
      match hex_val x, hex_val y, hex_dec l' with
      | Some h, Some d, Some r => Some (byte_of (h * 16 + d) :: r)
      | _, _, _ => None
      end
  | [_] => None
  end.

(** A prefix-free rendering: every element of a sequence is announced by a
    one byte and the end of the sequence by a zero byte. *)
Definition one : ascii := byte_of 1.
Definition zero : ascii := byte_of 0.
Fixpoint ser_chars (l : list ascii) : bytes :=
  match l with [] => [zero] | a :: l' => one :: a :: ser_chars l' end.
Fixpoint ser_pos (p : positive) : bytes :=
  match p with xH => [zero] | xO p' => one :: zero :: ser_pos p' | xI p' => one :: one :: ser_pos p' end.
Definition ser_Z (n : Z) : bytes :=
  match n with Z0 => [zero] | Zpos p => one :: zero :: ser_pos p | Zneg p => one :: one :: ser_pos p end.

Fixpoint ser (j : json) : bytes :=
  match j with
  | JNull => [byte_of 110]
  | JBool true => [byte_of 116]
  | JBool false => [byte_of 102]
  | JNum n => byte_of 35 :: ser_Z n
  | JStr s => byte_of 34 :: ser_chars (chars s)
  | JArr l => byte_of 91 :: (fix go (l : list json) : bytes :=
      match l with [] => [zero] | j :: l' => one :: ser j ++ go l' end) l
  | JObj l => byte_of 123 :: (fix go (l : list (string * json)) : bytes :=
      match l with [] => [zero] | (k, j) :: l' => one :: ser_chars (chars k) ++ ser j ++ go l' end) l
  end.

Definition sdk : Sdk := {|
  sha3_256 := hash; blake3 := hash;
  hex_encode b := of_chars (hex_enc b); 
  hex_decode s := match hex_dec (chars s) with Some b => Ok b | None => Err "bad hex" end;
  json_to_vec j := Some (ser j);
  HybridSigningKeyBundle := bytes; HybridSig := bytes;
  try_sign_hybrid _ m := Ok m; hybrid_encode s := Ok s; hybrid_decode b := Ok b;
  hybrid_verify s _ _ m := bool_decide (s = m);
  ed25519_pk b := b; falcon1024_pk b := b
|}.

Lemma hex_val_digit (n : Z) : 0 <= n < 16 -> hex_val (hex_digit n) = Some n.
Proof.
  intros Hn. assert (In n (map Z.of_nat (seq 0 16))) as Hin.
  { apply in_map_iff. exists (Z.to_nat n). split; [lia|]. apply in_seq. lia. }
  cbn in Hin. repeat (destruct Hin as [<-|Hin]; [by vm_compute|]). done.
Qed.

Lemma hex_dec_enc (b : bytes) : hex_dec (hex_enc b) = Some b.
Proof.
  induction b as [|a b IH]; [done|]. cbn [hex_enc hex_dec].
  pose proof (code_range a). pose proof (Z.mod_pos_bound (code a) 16 ltac:(lia)).
  assert (0 <= code a / 16 < 16) by (split; [apply Z.div_pos; lia|apply Z.div_lt_upper_bound; lia]).
  rewrite !hex_val_digit by done. rewrite IH. do 2 f_equal.
  replace (_ * 16 + _) with (code a) by (pose proof (Z.div_mod (code a) 16); lia).
  apply byte_of_code.
Qed.

#[global] Instance hex_ok : @HexOk sdk.
Proof. constructor. intros b. cbn. by rewrite chars_of_chars, hex_dec_enc. Qed.

Lemma hex_digit_char (n : Z) : 0 <= n < 16 -> is_hex_char (hex_digit n) = true.
Proof.
  intros Hn. unfold is_hex_char, is_digit, hex_digit.
  destruct (Z.ltb_spec n 10); rewrite code_byte_of, Z.mod_small by lia; lia.
Qed.

#[global] Instance hex_text_ok : @HexText sdk.
Proof.
  constructor; intros b; cbn; rewrite chars_of_chars.
  - induction b as [|a b IH]; cbn; [constructor|]. pose proof (code_range a).
    pose proof (Z.mod_pos_bound (code a) 16 ltac:(lia)).
    assert (0 <= code a / 16 < 16) by (split; [apply Z.div_pos; lia|apply Z.div_lt_upper_bound; lia]).
    do 2 (constructor; [by apply hex_digit_char|]). done.
  - induction b as [|a b IH]; cbn in *; [done|]. lia.
Qed.

#[global] Instance hash_ok : @HashOk sdk.
Proof.
  assert (forall b, length (hash b) = 32%nat) as E.
  { intros b. unfold hash. rewrite length_take, length_app. unfold zero32.
    rewrite length_replicate. lia. }
  by constructor.
Qed.

Lemma ser_chars_inj (l k r s : list ascii) :
  ser_chars l ++ r = ser_chars k ++ s -> l = k /\ r = s.
Proof.
  revert k. induction l as [|a l IH]; intros [|b k] E; cbn in E; simplify_eq; [done|].
  edestruct IH as [-> ->]; [eassumption|done].
Qed.

Lemma ser_pos_inj (p q : positive) (r s : bytes) : ser_pos p ++ r = ser_pos q ++ s -> p = q /\ r = s.
Proof.
  revert q. induction p as [p IH|p IH|]; intros [q|q|] E; cbn in E; simplify_eq;
    first [done | by edestruct IH as [-> ->]; [eassumption|]].
Qed.

Lemma ser_Z_inj (m n : Z) (r s : bytes) : ser_Z m ++ r = ser_Z n ++ s -> m = n /\ r = s.
Proof.
  destruct m, n; intros E; cbn in E; simplify_eq; try done;
    by edestruct ser_pos_inj as [-> ->]; [eassumption|].
Qed.

Lemma ser_inj (j k : json) (r s : bytes) : ser j ++ r = ser k ++ s -> j = k /\ r = s.
Proof.
  revert k r s. induction j as [|b|n|str|l IH|l IH] using json_nested_ind;
    intros k r s E; destruct k as [|b'|n'|str'|l'|l']; try destruct b; try destruct b'; cbn in E;
    try (by simplify_eq).
  - injection E as E. apply ser_Z_inj in E as [-> ->]. done.
  - injection E as E. apply ser_chars_inj in E as [E ->]. by rewrite (chars_inj _ _ E).
  - injection E as E. cut (l = l' /\ r = s); [by intros [-> ->]|]. revert l' E.
    induction IH as [|j l Hj Hl IHl]; intros [|j' l'] E; cbn in E; [by simplify_eq..|].
    injection E as E. rewrite <- !app_assoc in E. apply Hj in E as [-> E].
    apply IHl in E as [-> ->]. done.
  - injection E as E. cut (l = l' /\ r = s); [by intros [-> ->]|]. revert l' E.
    induction IH as [|[x j] l Hj Hl IHl]; intros [|[x' j'] l'] E; cbn in E; [by simplify_eq..|].
    injection E as E. rewrite <- !app_assoc in E. apply ser_chars_inj in E as [Ex E]. apply chars_inj in Ex as ->.
    rewrite <- ?app_assoc in E. apply Hj in E as [E' E]. cbn in E'. subst j'. apply IHl in E as [-> ->]. done.
Qed.

#[global] Instance json_ok : @JsonOk sdk.
Proof.
  split; [by eexists|]. intros j k E. cbn in E. injection E as E.
  apply (ser_inj j k [] []). by rewrite E.
Qed.

End Toy.
