(* ===== verification/PayError.v ===== *)
(** * Errors of the payment backend (origin-payments/src/error.rs)

    The error enum with its constructors, its display text (the [#[error]]
    attributes, which the executor turns into failure reasons), its exit codes
    and its machine-readable codes.  A [PathBuf] is its display string. *)

From Stdlib Require Import String.
From S2P Require Import Prelude RustStr.

Inductive Error :=
| OrderAlreadyExists (payment_order_id : string)
| OrderNotFound (payment_order_id : string)
| EventNotFound (event_id : string)
| StoreCorrupted (details : string)
| AlreadyInitialized (path : string)
| InvalidTransition (from to : string)
| IdentityNotFound
| SignatureFailed (details : string)
| Unsigned (payment_order_id : string)
| WalletError (details : string)
| TwofaNotConfigured
| TwofaInvalid
| TwofaRequired
| CustodyError (details : string)
| InvalidAmount (s : string)
| JournalNotBalanced (details : string)
| RailUnavailable (rail details : string)
| ReceiptVerificationFailed (details : string)
| RailNotConfigured (rail details : string)
| PolicyRefused (details : string)
| SettlementFileInvalid (path details : string)
| SettlementStampMismatch (path : string)
| IoError (details : string)
| CryptoError (details : string)
| NotImplemented (phase feature : string).

#[global] Instance Error_eq_dec : EqDecision Error.
Proof. solve_decision. Defined.

Definition dquote : string := String (Ascii.ascii_of_nat 34) EmptyString.

(** [Display]: the text of the [#[error(...)]] attributes. *)
Definition error_to_string (e : Error) : string :=
  match e with
  | OrderAlreadyExists id => "Order already exists (idempotent replay): " +:+ id
  | OrderNotFound id => "Order not found: " +:+ id
  | EventNotFound id => "Event not found: " +:+ id
  | StoreCorrupted d => "Store corrupted: " +:+ d
  | AlreadyInitialized p => "Payments root already initialized: " +:+ p
  | InvalidTransition f t => "Invalid order status transition: " +:+ f +:+ " -> " +:+ t
  | IdentityNotFound =>
      "No operator identity at ~/.origin/identity.seed — run origin-identity keygen first"
  | SignatureFailed d => "Signature failed: " +:+ d
  | Unsigned id => "Order is unsigned: " +:+ id
  | WalletError d => "Wallet error: " +:+ d
  | TwofaNotConfigured => "TOTP 2FA is not configured — run `admin-2fa init` first"
  | TwofaInvalid => "TOTP 2FA code invalid or expired"
  | TwofaRequired => "Operator 2FA required for this admin command (--totp <code>)"
  | CustodyError d => "Custody operation failed: " +:+ d
  | InvalidAmount s =>
      "Invalid amount: " +:+ s +:+ " (expected a decimal string, e.g. "
      +:+ dquote +:+ "3.15" +:+ dquote +:+ ", max 2 decimals)"
  | JournalNotBalanced d => "Journal batch not balanced (sum != 0): " +:+ d
  | RailUnavailable r d => "Rail unavailable: " +:+ r +:+ " — " +:+ d
  | ReceiptVerificationFailed d => "Receipt verification failed: " +:+ d
  | RailNotConfigured r d => "Rail not enabled/configured: " +:+ r +:+ " — " +:+ d
  | PolicyRefused d => "Policy refused: " +:+ d
  | SettlementFileInvalid p d => "Settlement file invalid: " +:+ p +:+ " — " +:+ d
  | SettlementStampMismatch p => "Settlement file provenance stamp mismatch: " +:+ p
  | IoError d => "I/O error: " +:+ d
  | CryptoError d => "Crypto error: " +:+ d
  | NotImplemented p f =>
      "Feature not yet implemented (design phase " +:+ p +:+ "): " +:+ f
  end.

(** CLI exit codes. *)
Definition exit_code (e : Error) : Z :=
  match e with
  | OrderAlreadyExists _ | AlreadyInitialized _ | IdentityNotFound
  | TwofaNotConfigured | TwofaInvalid | TwofaRequired => 2
  | OrderNotFound _ | EventNotFound _ | SettlementFileInvalid _ _ => 3
  | SettlementStampMismatch _ => 3
  | InvalidTransition _ _ | InvalidAmount _ | JournalNotBalanced _ | RailUnavailable _ _
  | ReceiptVerificationFailed _ | SignatureFailed _ | Unsigned _ | RailNotConfigured _ _
  | PolicyRefused _ => 4
  | StoreCorrupted _ | IoError _ | CryptoError _ | WalletError _ | CustodyError _
  | NotImplemented _ _ => 1
  end.

(** Machine-readable codes. *)
Definition error_code (e : Error) : string :=
  match e with
  | OrderAlreadyExists _ => "ORDER_ALREADY_EXISTS"
  | OrderNotFound _ => "ORDER_NOT_FOUND"
  | EventNotFound _ => "EVENT_NOT_FOUND"
  | StoreCorrupted _ => "STORE_CORRUPTED"
  | AlreadyInitialized _ => "ALREADY_INITIALIZED"
  | InvalidTransition _ _ => "INVALID_TRANSITION"
  | IdentityNotFound => "IDENTITY_NOT_FOUND"
  | SignatureFailed _ => "SIGNATURE_FAILED"
  | Unsigned _ => "UNSIGNED"
  | WalletError _ => "WALLET_ERROR"
  | TwofaNotConfigured => "TWOFACTOR_NOT_CONFIGURED"
  | TwofaInvalid => "TWOFACTOR_INVALID"
  | TwofaRequired => "TWOFACTOR_REQUIRED"
  | CustodyError _ => "CUSTODY_ERROR"
  | InvalidAmount _ => "INVALID_AMOUNT"
  | JournalNotBalanced _ => "JOURNAL_NOT_BALANCED"
  | RailUnavailable _ _ => "RAIL_UNAVAILABLE"
  | RailNotConfigured _ _ => "RAIL_NOT_CONFIGURED"
  | PolicyRefused _ => "POLICY_REFUSED"
  | ReceiptVerificationFailed _ => "RECEIPT_VERIFICATION_FAILED"
  | SettlementFileInvalid _ _ => "SETTLEMENT_FILE_INVALID"
  | SettlementStampMismatch _ => "SETTLEMENT_STAMP_MISMATCH"
  | IoError _ => "IO_ERROR"
  | CryptoError _ => "CRYPTO_ERROR"
  | NotImplemented _ _ => "NOT_IMPLEMENTED"
  end.
