(* ===== verification/Envelope.v ===== *)
(** * ORGN envelopes (origin-common/src/envelope.rs, tier_ext.rs)

    The unified binary format: a 48-byte header (magic, version, payload type,
    flags, tier, salt, nonce) followed by the payload.  XChaCha20-Poly1305 and
    LZ4 are the SDK's: parameters of the model, with the laws the round trip
    needs.  The two random draws of [encrypt] are arguments. *)

From Stdlib Require Import Ascii String.
From S2P Require Import Prelude RustStr Bytes.

Inductive MemoryTier := Nano | Standard | Sovereign.

Inductive PayloadType := Vault | File | Signed | Seed | Shard | Proof_.

Record EnvelopeHeader := {
  version : Z;
  payload_type : PayloadType;
  flags : Z;
  tier : MemoryTier;
  salt : bytes;
  nonce : bytes
}.

Record Envelope := { header : EnvelopeHeader; payload : bytes }.

Definition MAGIC : bytes := chars "ORGN".
Definition VERSION : Z := 1.
Definition HEADER_LEN : nat := 48.
Definition MAX_PAYLOAD_LEN : Z := 1024 * 1024 * 1024.
Definition FLAG_COMPRESSED : Z := 1.
Definition SUPPORTED_FLAGS : Z := FLAG_COMPRESSED.

(** ** Tags *)

Definition tier_to_byte (t : MemoryTier) : Z :=
  match t with Nano => 0 | Standard => 1 | Sovereign => 2 end.

Definition tier_from_byte (b : Z) : result string MemoryTier :=
  if b =? 0 then Ok Nano else if b =? 1 then Ok Standard else if b =? 2 then Ok Sovereign
  else Err ("unknown tier byte " +:+ show_Z b).

Definition payload_type_from_byte (b : Z) : result string PayloadType :=
  if b =? 1 then Ok Vault else if b =? 2 then Ok File else if b =? 3 then Ok Signed
  else if b =? 4 then Ok Seed else if b =? 5 then Ok Shard else if b =? 6 then Ok Proof_
  else Err ("unknown payload type: " +:+ show_Z b).

Definition payload_type_to_byte (p : PayloadType) : Z :=
  match p with Vault => 1 | File => 2 | Signed => 3 | Seed => 4 | Shard => 5 | Proof_ => 6 end.

(** [{:02x}] of a byte. *)
Definition show_hex2 (n : Z) : string :=
  let d k := if k <? 10 then byte_of (48 + k) else byte_of (87 + k) in
  of_chars [d (n / 16); d (n mod 16)].

(** ** Serialisation *)

Definition compute_aad (version : Z) (pt : PayloadType) (flags : Z) (tier : MemoryTier)
    (salt nonce : bytes) : bytes :=
  MAGIC ++ [byte_of version] ++ [byte_of (payload_type_to_byte pt)] ++ [byte_of flags]
  ++ [byte_of (tier_to_byte tier)] ++ salt ++ nonce.

Definition to_bytes (e : Envelope) : bytes :=
  MAGIC ++ [byte_of (version (header e))] ++ [byte_of (payload_type_to_byte (payload_type (header e)))]
  ++ [byte_of (flags (header e))] ++ [byte_of (tier_to_byte (tier (header e)))]
  ++ salt (header e) ++ nonce (header e) ++ payload e.

(** [bytes[i]], after the length check. *)
Definition nth_code (b : bytes) (i : nat) : Z := default 0 (code <$> b !! i).

Definition from_bytes (b : bytes) : result string Envelope :=
  if (length b <? HEADER_LEN)%nat
  then Err ("envelope too short (" +:+ show_Z (Z.of_nat (length b)) +:+ " bytes, need at least "
            +:+ show_Z (Z.of_nat HEADER_LEN) +:+ ")")
  else if negb (bool_decide (take 4 b = MAGIC)) then Err "not an ORGN envelope (wrong magic)"
  else
    let v := nth_code b 4 in
    if negb (v =? VERSION) then Err ("unsupported envelope version: " +:+ show_Z v)
    else
      pt ← payload_type_from_byte (nth_code b 5);
      let fl := nth_code b 6 in
      if negb (Z.land fl (255 - SUPPORTED_FLAGS) =? 0)
      then Err ("unsupported envelope flags: 0x" +:+ show_hex2 fl)
      else
        t ← tier_from_byte (nth_code b 7);
        let s := take 16 (drop 8 b) in
        let n := take 24 (drop 24 b) in
        let p := drop 48 b in
        if MAX_PAYLOAD_LEN <? Z.of_nat (length p)
        then Err ("envelope payload too large (" +:+ show_Z (Z.of_nat (length p)) +:+ " bytes, max "
                  +:+ show_Z MAX_PAYLOAD_LEN +:+ ")")
        else Ok {| header := {| version := v; payload_type := pt; flags := fl; tier := t;
                                salt := s; nonce := n |};
                   payload := p |}.

(** ** Encryption *)

Class Aead := {
  encrypt_aad : bytes -> bytes -> bytes -> bytes -> result string bytes;
  decrypt_aad : bytes -> bytes -> bytes -> bytes -> result string bytes;
  compress : bytes -> result string bytes;
  decompress : bytes -> result string bytes
}.

Class AeadOk `{Aead} : Prop := {
  decrypt_encrypt : forall k n p a c, encrypt_aad k n p a = Ok c -> decrypt_aad k n c a = Ok p;
  decompress_compress : forall p c, compress p = Ok c -> decompress c = Ok p
}.

Definition encrypt `{Aead} (plaintext key : bytes) (t : MemoryTier) (pt : PayloadType)
    (use_compression : bool) (salt_draw nonce_draw : result string bytes) : result string Envelope :=
  s ← salt_draw;
  n ← nonce_draw;
  data ← (if use_compression
          then map_err (fun e => "compression failed: " +:+ e) (compress plaintext)
          else Ok plaintext);
  let fl := if use_compression then FLAG_COMPRESSED else 0 in
  let aad := compute_aad VERSION pt fl t s n in
  ciphertext ← map_err (fun e => "encryption failed: " +:+ e) (encrypt_aad key n data aad);
  Ok {| header := {| version := VERSION; payload_type := pt; flags := fl; tier := t;
                     salt := s; nonce := n |};
        payload := ciphertext |}.

Definition decrypt `{Aead} (e : Envelope) (key : bytes) : result string bytes :=
  let h := header e in
  let aad := compute_aad (version h) (payload_type h) (flags h) (tier h) (salt h) (nonce h) in
  plaintext ← map_err (fun _ => "decryption failed (wrong key or corrupt data)")
                (decrypt_aad key (nonce h) (payload e) aad);
  if negb (Z.land (flags h) FLAG_COMPRESSED =? 0)
  then map_err (fun e => "decompression failed: " +:+ e) (decompress plaintext)
  else Ok plaintext.

(** ** Well-formed envelopes: what the struct's types and [encrypt] guarantee *)

Definition header_ok (h : EnvelopeHeader) : Prop :=
  version h = VERSION /\ (flags h = 0 \/ flags h = FLAG_COMPRESSED)
  /\ length (salt h) = 16%nat /\ length (nonce h) = 24%nat.
Definition envelope_ok (e : Envelope) : Prop :=
  header_ok (header e) /\ Z.of_nat (length (payload e)) <= MAX_PAYLOAD_LEN.

Lemma payload_type_roundtrip (p : PayloadType) :
  payload_type_from_byte (payload_type_to_byte p) = Ok p.
Proof. by destruct p. Qed.

Lemma tier_roundtrip (t : MemoryTier) : tier_from_byte (tier_to_byte t) = Ok t.
Proof. by destruct t. Qed.

Lemma payload_type_from_byte_Ok (b : Z) (p : PayloadType) :
  payload_type_from_byte b = Ok p -> payload_type_to_byte p = b.
Proof. unfold payload_type_from_byte. repeat case_match; intros; simplify_eq/=; lia. Qed.

Lemma tier_from_byte_Ok (b : Z) (t : MemoryTier) : tier_from_byte b = Ok t -> tier_to_byte t = b.
Proof. unfold tier_from_byte. repeat case_match; intros; simplify_eq/=; lia. Qed.

Lemma supported_flags (f : Z) :
  0 <= f < 256 -> Z.land f (255 - SUPPORTED_FLAGS) = 0 -> f = 0 \/ f = FLAG_COMPRESSED.
Proof.
  intros Hf E. change (255 - SUPPORTED_FLAGS) with 254 in E. unfold FLAG_COMPRESSED.
  assert (f = Z.land f 255) as Ef by (change 255 with (Z.ones 8); rewrite Z.land_ones, Z.mod_small; lia).
  change 255 with (Z.lor 254 1) in Ef. rewrite Z.land_lor_distr_r, E, Z.lor_0_l in Ef.
  change 1 with (Z.ones 1) in Ef. rewrite Z.land_ones in Ef by lia.
  pose proof (Z.mod_pos_bound f (2 ^ 1) ltac:(lia)). lia.
Qed.

Lemma from_to_bytes (e : Envelope) (He : envelope_ok e) : from_bytes (to_bytes e) = Ok e.
Proof.
  destruct e as [[v pt fl t s n] p]. destruct He as [(Hv & Hf & Hs & Hn) Hp]. simpl in *.
  unfold from_bytes, to_bytes. cbn [header payload Envelope.version payload_type flags tier salt nonce].
  subst v. set (b := MAGIC ++ _).
  assert (length b = (48 + length p)%nat) as Hl by (unfold b; rewrite !length_app, Hs, Hn; cbn; lia).
  rewrite Hl. destruct (Nat.ltb_spec (48 + length p) HEADER_LEN) as [Hlt|_]; [unfold HEADER_LEN in Hlt; lia|].
  assert (drop 8 b = s ++ n ++ p) as D8 by done.
  assert (nth_code b 5 = payload_type_to_byte pt) as -> by by destruct pt.
  assert (nth_code b 7 = tier_to_byte t) as -> by by destruct t.
  assert (nth_code b 6 = fl) as -> by by destruct Hf as [->| ->].
  rewrite payload_type_roundtrip. cbn [mbind result_mbind].
  rewrite tier_roundtrip. cbn [mbind result_mbind].
  assert (Z.land fl (255 - SUPPORTED_FLAGS) = 0) as -> by by destruct Hf as [->| ->].
  assert (drop 24 b = n ++ p) as D24.
  { change (drop 24 b) with (drop (16 + 0)%nat (s ++ n ++ p)). rewrite <- Hs. apply drop_app_add. }
  assert (drop 48 b = p) as ->.
  { transitivity (drop 24 (drop 24 b)); [by rewrite drop_drop|]. rewrite D24, <- Hn. apply drop_app_length. }
  rewrite D8, D24.
  assert (take 16 (s ++ n ++ p) = s) as -> by (rewrite <- Hs; apply take_app_length).
  assert (take 24 (n ++ p) = n) as -> by (rewrite <- Hn; apply take_app_length).
  destruct (Z.ltb_spec MAX_PAYLOAD_LEN (Z.of_nat (length p))); [lia|]. done.
Qed.

(** C9: an envelope survives serialisation: parsing the bytes of a well-formed
    envelope gives the envelope back. *)
Theorem envelope_roundtrip (e : Envelope) (He : envelope_ok e) : from_bytes (to_bytes e) = Ok e.
Proof. by apply from_to_bytes. Qed.

Definition sample_envelope : Envelope :=
  {| header := {| version := 1; payload_type := Signed; flags := 1; tier := Nano;
                  salt := replicate 16 (byte_of 7); nonce := replicate 24 (byte_of 9) |};
     payload := chars "payload" |}.

Lemma envelope_roundtrip_witness :
  envelope_ok sample_envelope /\ from_bytes (to_bytes sample_envelope) = Ok sample_envelope.
Proof.
  assert (envelope_ok sample_envelope) as E
    by (repeat split; (reflexivity || (by right) || (vm_compute; discriminate))).
  split; [exact E|]. exact (envelope_roundtrip sample_envelope E).
Defined.

Lemma from_bytes_inv (b : bytes) (e : Envelope) :
  from_bytes b = Ok e -> envelope_ok e /\ to_bytes e = b.
Proof.
  unfold from_bytes. destruct (Nat.ltb_spec (length b) HEADER_LEN) as [|Hl]; [done|].
  case_bool_decide as Hm; [|done]. cbn [negb].
  destruct (Z.eqb_spec (nth_code b 4) VERSION) as [Hv|]; [|done]. cbn [negb]. intros E.
  apply result_bind_Ok in E as (pt & Hpt & E).
  destruct (Z.eqb_spec (Z.land (nth_code b 6) (255 - SUPPORTED_FLAGS)) 0) as [Hf|]; [|done]. cbn [negb] in E.
  apply result_bind_Ok in E as (t & Ht & E).
  destruct (Z.ltb_spec MAX_PAYLOAD_LEN (Z.of_nat (length (drop 48 b)))) as [|Hp]; [done|]. simplify_eq.
  apply payload_type_from_byte_Ok in Hpt. apply tier_from_byte_Ok in Ht. unfold HEADER_LEN in Hl.
  do 8 (destruct b as [|? b]; [simpl in Hl; lia|]). cbn in Hm. injection Hm as -> -> -> ->.
  unfold nth_code in *. cbn in Hv, Hf, Hpt, Ht. cbn [drop length] in *.
  split.
  - split; [|done]. split; [done|]. cbn. split; [by apply supported_flags; [apply code_range|]|].
    rewrite !length_take, !length_drop. lia.
  - unfold to_bytes. cbn [header payload Envelope.version payload_type flags tier salt nonce nth_code].
    cbn [drop]. rewrite Hpt, Ht. unfold nth_code. cbn. rewrite !byte_of_code.
    do 8 f_equal. change (drop 40 b) with (drop (16 + 24)%nat b). rewrite <- drop_drop.
    by rewrite !take_drop.
Qed.

(** the format is canonical: bytes that parse are exactly the bytes of the
    parsed envelope, which is well formed. *)
Theorem envelope_canonical (b : bytes) (e : Envelope) (Hb : from_bytes b = Ok e) :
  envelope_ok e /\ to_bytes e = b.
Proof. by apply from_bytes_inv. Qed.

Lemma envelope_canonical_witness :
  envelope_ok sample_envelope /\ to_bytes sample_envelope = to_bytes sample_envelope.
Proof. apply (envelope_canonical (to_bytes sample_envelope) sample_envelope). by vm_compute. Defined.

(** decryption undoes encryption, with or without compression: an envelope
    produced by [encrypt] is serialised, parsed back and decrypted to the plaintext. *)
Theorem envelope_encrypt_decrypt `{Aead, !AeadOk} (plaintext key : bytes) (t : MemoryTier)
    (pt : PayloadType) (c : bool) (s n : bytes) (e : Envelope)
    (Hs : length s = 16%nat) (Hn : length n = 24%nat)
    (He : encrypt plaintext key t pt c (Ok s) (Ok n) = Ok e)
    (Hsize : Z.of_nat (length (payload e)) <= MAX_PAYLOAD_LEN) :
  (e' ← from_bytes (to_bytes e); decrypt e' key) = Ok plaintext.
Proof.
  unfold encrypt in He. cbn [mbind result_mbind] in He.
  apply result_bind_Ok in He as (data & Hd & He). apply result_bind_Ok in He as (ct & Hct & He).
  simplify_eq. rewrite from_to_bytes.
  2: { split; [|done]. repeat split; [by destruct c; [right|left]|done|done]. }
  cbn [mbind result_mbind]. unfold decrypt. cbn [header payload version payload_type flags tier salt nonce].
  destruct (encrypt_aad key n data _) as [ct'|] eqn:E; simplify_eq/=.
  rewrite (decrypt_encrypt _ _ _ _ _ E). cbn [map_err].
  destruct c; cbn.
  - destruct (compress plaintext) as [z|] eqn:Ec; simplify_eq/=. by rewrite (decompress_compress _ _ Ec).
  - by simplify_eq/=.
Qed.

(** A cipher that appends the associated data, and no compression. *)
Definition toy_aead : Aead := {|
  encrypt_aad k n p a := Ok (p ++ a);
  decrypt_aad k n c a :=
    if bool_decide (drop (length c - length a) c = a) then Ok (take (length c - length a) c)
    else Err "bad tag";
  compress p := Ok p;
  decompress p := Ok p
|}.

#[global] Instance toy_aead_ok : @AeadOk toy_aead.
Proof.
  constructor; cbn; intros; simplify_eq; [|done]. rewrite length_app.
  replace (length p + length a - length a)%nat with (length p) by lia.
  by rewrite drop_app_length, take_app_length, bool_decide_eq_true_2.
Qed.

Lemma envelope_encrypt_decrypt_witness :
  exists e, encrypt (H := toy_aead) (chars "hello") [] Nano Signed true
              (Ok (replicate 16 (byte_of 1))) (Ok (replicate 24 (byte_of 2))) = Ok e /\
    (e' ← from_bytes (to_bytes e); decrypt (H := toy_aead) e' []) = Ok (chars "hello").
Proof.
  eexists. split; [reflexivity|].
  apply (envelope_encrypt_decrypt (H := toy_aead) (chars "hello") [] Nano Signed true
           (replicate 16 (byte_of 1)) (replicate 24 (byte_of 2))); vm_compute; congruence.
Defined.

(** every header byte is authenticated: the associated data given to the
    cipher is the serialised header, and it determines every header field of a
    well-formed header. *)
Theorem aad_binds_header (e : Envelope) (h : EnvelopeHeader) (He : header_ok (header e)) (Hh : header_ok h) :
  let aad x := compute_aad (version x) (payload_type x) (flags x) (tier x) (salt x) (nonce x) in
  to_bytes e = aad (header e) ++ payload e /\ (aad (header e) = aad h -> header e = h).
Proof.
  intros aad. split.
  - unfold aad, compute_aad, to_bytes. by rewrite <- !app_assoc.
  - destruct (header e) as [v pt f t s n], h as [v' pt' f' t' s' n']. unfold aad, compute_aad.
    destruct He as (Hv & Hf & Hs & Hn), Hh as (Hv' & Hf' & Hs' & Hn'). cbn in *. intros E.
    injection E as _ Ep Ef Et E.
    apply app_inj_len in E as [-> ->]; [|congruence]. subst v v'.
    apply (f_equal code) in Ep, Ef, Et. rewrite !code_byte_of in Ep, Ef, Et.
    f_equal; [by destruct pt, pt'|by destruct Hf as [->| ->], Hf' as [->| ->]|by destruct t, t'].
Qed.

Lemma aad_binds_header_witness :
  let aad x := compute_aad (version x) (payload_type x) (flags x) (tier x) (salt x) (nonce x) in
  to_bytes sample_envelope = aad (header sample_envelope) ++ payload sample_envelope /\
  (aad (header sample_envelope) = aad (header sample_envelope)
   -> header sample_envelope = header sample_envelope).
Proof.
  assert (header_ok (header sample_envelope)) as E by (repeat split; (reflexivity || by right)).
  exact (aad_binds_header sample_envelope (header sample_envelope) E E).
Defined.
