(* ===== verification/Amount.v ===== *)
(** * Decimal amounts (origin-payments/src/journal.rs, lines 18-22 and 108-172)

    Amounts travel as decimal strings and are only ever parsed to integer
    minor units, an [i128].  [parse_decimal] wraps on overflow, as the release
    profile does. *)

From Stdlib Require Import Ascii String.
From S2P Require Import Prelude RustStr PayError.

Definition AMOUNT_SCALE : Z := 2.
Definition RATE_SCALE : Z := 6.

Definition minus_char : ascii := "-"%char.
Definition dot_char : ascii := "."%char.

(** [10i128.pow(n)]. *)
Definition pow10 (n : Z) : Z := wrap_i128 (10 ^ n).

(** Parse a decimal string into integer units at [scale] decimals. *)
Definition parse_decimal (s : string) (scale : Z) : result Error Z :=
  let s := trim s in
  if String.eqb s EmptyString then Err (InvalidAmount s) else
  let '(neg, digits) :=
    match strip_prefix [minus_char] (chars s) with
    | Some rest => (true, rest)
    | None => (false, chars s)
    end in
  let parts := split_on dot_char digits in
  let whole := default [] (parts !! 0%nat) in
  let frac := parts !! 1%nat in
  if bool_decide (is_Some (parts !! 2%nat)) || bool_decide (whole = [])
     || negb (forallb is_digit whole)
  then Err (InvalidAmount s)
  else
    frac ← match frac with
           | None => Ok []
           | Some f =>
               if bool_decide (f = []) || (scale <? Z.of_nat (length f))
                  || negb (forallb is_digit f)
               then Err (InvalidAmount s) else Ok f
           end;
    whole_val ← match parse_digits i128_max whole with
                | Some v => Ok v
                | None => Err (InvalidAmount s)
                end;
    frac_val ← match frac with
               | [] => Ok 0
               | _ => match parse_digits i128_max frac with
                      | Some v => Ok v
                      | None => Err (InvalidAmount s)
                      end
               end;
    let padded := wrap_i128 (frac_val * pow10 (scale - Z.of_nat (length frac))) in
    let minor := wrap_i128 (wrap_i128 (whole_val * pow10 scale) + padded) in
    Ok (if neg then wrap_i128 (- minor) else minor).

Definition parse_amount (s : string) : result Error Z := parse_decimal s AMOUNT_SCALE.
Definition parse_rate (s : string) : result Error Z := parse_decimal s RATE_SCALE.

(** Format integer minor units back to a decimal string. *)
Definition fmt_amount (minor : Z) : string :=
  let neg := minor <? 0 in
  let abs := Z.abs minor in
  of_chars ((if neg then [minus_char] else []) ++ show_chars (abs / 100)
            ++ [dot_char] ++ show2_chars (abs mod 100)).

(** ** What the parser accepts *)

(** The text of a decimal literal. *)
Definition literal (neg : bool) (whole frac : list ascii) : list ascii :=
  (if neg then [minus_char] else []) ++ whole
  ++ match frac with [] => [] | _ => dot_char :: frac end.

(** A literal the parser accepts at a scale. *)
Definition literal_ok (scale : Z) (whole frac : list ascii) : Prop :=
  whole <> [] /\ forallb is_digit whole = true /\ forallb is_digit frac = true
  /\ Z.of_nat (length frac) <= scale /\ digits_val whole <= i128_max.

(** The exact value of a literal in units of [10^-scale]. *)
Definition literal_value (scale : Z) (neg : bool) (whole frac : list ascii) : Z :=
  let m := digits_val whole * 10 ^ scale
           + digits_val frac * 10 ^ (scale - Z.of_nat (length frac)) in
  if neg then - m else m.

Lemma digit_dot (l : list ascii) : forallb is_digit l = true -> Forall (fun a => a <> dot_char) l.
Proof. intros H. by apply digit_not_char. Qed.

Lemma wrap_pow10_mul (x n : Z) : wrap_i128 (x * pow10 n) = wrap_i128 (x * 10 ^ n).
Proof.
  apply wrap_s_eqm; [lia|]. unfold pow10, wrap_i128.
  rewrite <- (Zmult_mod_idemp_r (wrap_s 128 _)), wrap_s_mod, Zmult_mod_idemp_r by lia. done.
Qed.

Lemma wrap_add (x y : Z) : wrap_i128 (wrap_i128 x + wrap_i128 y) = wrap_i128 (x + y).
Proof.
  apply wrap_s_eqm; [lia|]. unfold wrap_i128.
  rewrite Zplus_mod, !wrap_s_mod, <- Zplus_mod by lia. done.
Qed.

Lemma wrap_opp (x : Z) : wrap_i128 (- wrap_i128 x) = wrap_i128 (- x).
Proof.
  apply wrap_s_eqm; [lia|]. unfold wrap_i128.
  rewrite <- Z.sub_0_l, Zminus_mod, wrap_s_mod, <- Zminus_mod, Z.sub_0_l by lia. done.
Qed.

Lemma chars_nil (s : string) : chars s = [] -> s = EmptyString.
Proof. by destruct s. Qed.

Lemma literal_ne (neg : bool) (whole frac : list ascii) : whole <> [] -> literal neg whole frac <> [].
Proof. unfold literal. by destruct neg, whole. Qed.

Lemma strip_minus_digits (l k : list ascii) :
  l <> [] -> forallb is_digit l = true -> strip_prefix [minus_char] (l ++ k) = None.
Proof.
  destruct l as [|a l]; intros Hne H; [done|]. cbn [strip_prefix app forallb] in *.
  apply andb_true_iff in H as [Ha _].
  destruct (Ascii.eqb_spec minus_char a) as [<-|]; [by vm_compute in Ha|done].
Qed.

Lemma split_literal (whole frac : list ascii) :
  forallb is_digit whole = true -> forallb is_digit frac = true ->
  split_on dot_char (whole ++ match frac with [] => [] | _ => dot_char :: frac end)
  = whole :: match frac with [] => [] | _ => [frac] end.
Proof.
  intros Hw Hf. destruct frac as [|a f].
  - rewrite app_nil_r. by apply split_on_nil, digit_dot.
  - rewrite split_on_sep by by apply digit_dot. by rewrite (split_on_nil _ (a :: f)) by by apply digit_dot.
Qed.

Lemma parse_digits_frac (scale : Z) (frac : list ascii) :
  0 <= scale <= 38 -> forallb is_digit frac = true -> Z.of_nat (length frac) <= scale ->
  parse_digits i128_max frac = Some (digits_val frac).
Proof.
  intros Hs Hf Hl. unfold parse_digits.
  pose proof (digits_val_bound frac 0 Hf ltac:(lia)) as Hb.
  assert (10 ^ Z.of_nat (length frac) <= 10 ^ 38) by (apply Z.pow_le_mono_r; lia).
  assert (10 ^ 38 <= i128_max) by (vm_compute; done).
  unfold digits_val. destruct (Z.leb_spec (digits_val_go 0 frac) i128_max); [done|lia].
Qed.

Lemma parse_decimal_complete (s : string) (scale : Z) (neg : bool) (whole frac : list ascii) :
  0 <= scale <= 38 -> trim_chars (chars s) = literal neg whole frac -> literal_ok scale whole frac ->
  parse_decimal s scale = Ok (wrap_i128 (literal_value scale neg whole frac)).
Proof.
  intros Hs Ht (Hne & Hw & Hf & Hl & Hmax). unfold parse_decimal, trim. rewrite Ht.
  destruct (String.eqb_spec (of_chars (literal neg whole frac)) EmptyString) as [E|_].
  { apply (f_equal chars) in E. rewrite chars_of_chars in E. by apply literal_ne in E. }
  rewrite chars_of_chars.
  assert ((match strip_prefix [minus_char] (literal neg whole frac) with
           | Some rest => (true, rest)
           | None => (false, literal neg whole frac)
           end) = (neg, whole ++ match frac with [] => [] | _ => dot_char :: frac end)) as ->.
  { unfold literal. destruct neg; [done|]. simpl app. by rewrite strip_minus_digits. }
  rewrite split_literal by done.
  assert (parse_digits i128_max whole = Some (digits_val whole)) as Ew.
  { unfold parse_digits. by destruct (Z.leb_spec (digits_val whole) i128_max); [|lia]. }
  rewrite (bool_decide_eq_false_2 (is_Some _)).
  2: { destruct frac; simpl; by intros [? ?]. }
  simpl. rewrite (bool_decide_eq_false_2 (whole = [])) by done. rewrite Hw. simpl.
  pose proof (parse_digits_frac scale frac Hs Hf Hl) as Ef.
  assert (wrap_i128 (wrap_i128 (digits_val whole * pow10 scale)
            + wrap_i128 (digits_val frac * pow10 (scale - Z.of_nat (length frac))))
          = wrap_i128 (literal_value scale false whole frac)) as Ev.
  { rewrite !wrap_pow10_mul, wrap_add. done. }
  destruct frac as [|a f].
  - cbn [lookup list_lookup mbind result_mbind]. rewrite Ew. cbn [mbind result_mbind].
    change (digits_val []) with 0 in Ev. rewrite Ev.
    destruct neg; [rewrite wrap_opp|]; done.
  - cbn [lookup list_lookup]. rewrite (bool_decide_eq_false_2 (a :: f = [])) by done.
    rewrite Hf. destruct (Z.ltb_spec scale (Z.of_nat (length (a :: f)))); [lia|]. cbn [negb orb mbind result_mbind].
    rewrite Ew. cbn [mbind result_mbind]. rewrite Ef. cbn [mbind result_mbind]. rewrite Ev.
    destruct neg; [rewrite wrap_opp|]; done.
Qed.

Lemma split_on_join (c : ascii) (l p : list ascii) (ps : list (list ascii)) :
  split_on c l = p :: ps ->
  match ps with
  | [] => l = p
  | q :: ps' => exists k, l = p ++ c :: k /\ split_on c k = q :: ps'
  end.
Proof.
  revert p ps. induction l as [|a l IH]; intros p ps E; simpl in E; [by simplify_eq|].
  destruct (Ascii.eqb_spec a c) as [->|].
  - simplify_eq. destruct (split_on c l) eqn:El; [by apply split_on_ne in El|]. by exists l.
  - destruct (split_on c l) as [|p' ps'] eqn:El; [by apply split_on_ne in El|]. simplify_eq.
    specialize (IH p' ps eq_refl). destruct ps as [|q ps]; [by subst|].
    destruct IH as (k & -> & ?). by exists k.
Qed.

Lemma parse_decimal_sound (s : string) (scale v : Z) :
  0 <= scale <= 38 -> parse_decimal s scale = Ok v ->
  exists neg whole frac, trim_chars (chars s) = literal neg whole frac /\
    literal_ok scale whole frac /\ v = wrap_i128 (literal_value scale neg whole frac).
Proof.
  intros Hs Hp.
  assert (exists neg whole frac, trim_chars (chars s) = literal neg whole frac
            /\ literal_ok scale whole frac) as (neg & whole & frac & Ht & Hok).
  { revert Hp. unfold parse_decimal, trim. destruct (String.eqb _ _); [done|].
    rewrite chars_of_chars. set (t := trim_chars (chars s)).
    destruct (match strip_prefix [minus_char] t with
              | Some rest => (true, rest) | None => (false, t) end) as [neg digits] eqn:En.
    assert (t = (if neg then [minus_char] else []) ++ digits) as Et.
    { destruct (strip_prefix [minus_char] t) eqn:E; simplify_eq; [|done].
      by apply strip_prefix_Some in E. }
    destruct (split_on dot_char digits) as [|whole ps] eqn:Ed; [by apply split_on_ne in Ed|].
    apply split_on_join in Ed. simpl.
    destruct (bool_decide (is_Some _)) eqn:E2; [done|].
    destruct (bool_decide (whole = [])) eqn:Ew; [done|]. simpl.
    destruct (forallb is_digit whole) eqn:Hw; [|done]. simpl.
    apply bool_decide_eq_false in E2, Ew.
    destruct (parse_digits i128_max whole) as [wv|] eqn:Ewv.
    2: { intros Hp. inv_ok Hp. }
    unfold parse_digits in Ewv. destruct (Z.leb_spec (digits_val whole) i128_max); [|done].
    destruct ps as [|f [|]]; simpl.
    - intros _. exists neg, whole, []. unfold literal, literal_ok. rewrite app_nil_r. subst.
      repeat split; auto; simpl; lia.
    - destruct Ed as (k & -> & Ek). apply split_on_join in Ek as ->.
      destruct (bool_decide (f = [])) eqn:Ef; [done|]. simpl.
      destruct (Z.ltb_spec scale (Z.of_nat (length f))); [done|]. simpl.
      destruct (forallb is_digit f) eqn:Hf; [|done]. intros _.
      apply bool_decide_eq_false in Ef. exists neg, whole, f. subst t.
      unfold literal, literal_ok. by destruct f.
    - exfalso. apply E2. simpl. eauto. }
  exists neg, whole, frac. split; [done|]. split; [done|].
  rewrite (parse_decimal_complete s scale neg whole frac) in Hp by done. by simplify_eq.
Qed.

(** ** Properties *)

(** C10: [parse_decimal] accepts exactly the strings that are, once trimmed, an
    optional minus, a non-empty digit string whose value fits an [i128] and
    optionally a dot with one to [scale] digits; the result is the literal's exact value in units of
    [10^-scale], reduced to the [i128] range. *)
Theorem parse_decimal_correct (s : string) (scale v : Z) (Hs : 0 <= scale <= 38) :
  parse_decimal s scale = Ok v <->
  exists neg whole frac, trim_chars (chars s) = literal neg whole frac /\
    literal_ok scale whole frac /\ v = wrap_i128 (literal_value scale neg whole frac).
Proof.
  split; [by apply parse_decimal_sound|].
  intros (neg & whole & frac & Ht & Hok & ->). by apply parse_decimal_complete.
Qed.

Lemma parse_decimal_correct_witness :
  parse_decimal "-3.1" 2 = Ok (-310) /\
  exists neg whole frac, trim_chars (chars "-3.1") = literal neg whole frac /\
    literal_ok 2 whole frac /\ -310 = wrap_i128 (literal_value 2 neg whole frac).
Proof.
  split; [by vm_compute|].
  apply (parse_decimal_correct "-3.1" 2 (-310) ltac:(lia)). by vm_compute.
Defined.

Lemma fmt_amount_literal (m : Z) :
  chars (fmt_amount m)
  = literal (m <? 0) (show_chars (Z.abs m / 100)) (show2_chars (Z.abs m mod 100)).
Proof. unfold fmt_amount. by rewrite chars_of_chars. Qed.

Lemma digit_small (l : list ascii) : forallb is_digit l = true -> Forall (fun c => code c < 128) l.
Proof.
  intros H. apply Forall_forall. intros a Ha.
  rewrite forallb_forall in H. apply list_elem_of_In, H in Ha. unfold is_digit in Ha. lia.
Qed.

Lemma literal_trim (neg : bool) (whole : list ascii) (d e : ascii) :
  whole <> [] -> forallb is_digit whole = true -> is_digit d = true -> is_digit e = true ->
  trim_chars (literal neg whole [d; e]) = literal neg whole [d; e].
Proof.
  intros Hne Hw Hd He.
  assert (Forall (fun c => code c < 128) (literal neg whole [d; e])) as Hall.
  { unfold literal. repeat apply Forall_app_2; [by destruct neg; repeat constructor|by apply digit_small|].
    constructor; [done|]. apply digit_small. simpl. by rewrite Hd, He. }
  assert (last (literal neg whole [d; e]) = Some e) as Hlast.
  { unfold literal. by rewrite app_assoc, last_app_cons. }
  destruct (literal neg whole [d; e]) as [|a m] eqn:E; [done|].
  apply (trim_plain _ a e m eq_refl); try done; [|by apply digit_not_ws].
  unfold literal in E. destruct neg; simplify_eq/=; [done|].
  destruct whole as [|w whole]; [done|]. simplify_eq/=.
  apply andb_true_iff in Hw as [Hw _]. by apply digit_not_ws.
Qed.

Lemma fmt_amount_parses (m : Z) (Hm : in_i128 m) : parse_amount (fmt_amount m) = Ok m.
Proof.
  pose proof (Z.abs_nonneg m) as Ha.
  assert (0 <= Z.abs m / 100) as Hq by (apply Z.div_pos; lia).
  destruct (show_chars_spec (Z.abs m / 100) Hq) as (Hne & Hw & Hv).
  pose proof (Z.mod_pos_bound (Z.abs m) 100 ltac:(lia)) as Hr.
  destruct (show2_chars_spec _ Hr) as [Hf Hfv].
  unfold parse_amount.
  rewrite (parse_decimal_complete _ _ (m <? 0) (show_chars (Z.abs m / 100))
             (show2_chars (Z.abs m mod 100))).
  - f_equal. unfold literal_value. rewrite Hv, Hfv. unfold AMOUNT_SCALE.
    change (10 ^ 2) with 100. cbn [length show2_chars]. change (10 ^ (2 - Z.of_nat 2)) with 1.
    pose proof (Z.div_mod (Z.abs m) 100 ltac:(lia)).
    destruct (Z.ltb_spec m 0).
    + replace (- _) with m by lia. by apply wrap_i128_id.
    + replace (_ + _) with m by lia. by apply wrap_i128_id.
  - vm_compute; split; done.
  - rewrite fmt_amount_literal. cbn [show2_chars forallb] in Hf.
    apply andb_true_iff in Hf as [H1 H2]. apply andb_true_iff in H2 as [H2 _].
    by apply literal_trim.
  - repeat split; [done..|vm_compute; done|].
    rewrite Hv. apply Z.div_le_upper_bound; [lia|].
    unfold in_i128, i128_min, i128_max in *. lia.
Qed.

(** printing an amount and parsing it back gives the same number of minor
    units, for every [i128]. *)
Theorem parse_fmt_amount (m : Z) (Hm : in_i128 m) : parse_amount (fmt_amount m) = Ok m.
Proof. by apply fmt_amount_parses. Qed.

Lemma parse_fmt_amount_witness : in_i128 (-1999) /\ parse_amount (fmt_amount (-1999)) = Ok (-1999).
Proof. split; [vm_compute; split; discriminate|]. apply parse_fmt_amount. vm_compute; split; discriminate. Defined.

(** The multiplication by [10^scale] is not checked: the largest [i128] as
    a whole amount is accepted and comes out as minus one unit. *)
Theorem parse_amount_overflow_accepted :
  parse_amount "170141183460469231731687303715884105727" = Ok (-100).
Proof. by vm_compute. Qed.
