(* ===== verification/Event.v ===== *)
(** * Payment events, orders and rails
    (origin-payments/src/event.rs, rails.rs, and the data of identity.rs and journal.rs they hold)

    One checkout is an event with many orders; an order moves through the
    status machine of [can_transition].  Timestamps are RFC 3339 strings, as
    the code stores and compares them. *)

From stdpp Require Import relations.
From Stdlib Require Import Ascii String.
From S2P Require Import Prelude RustStr Bytes Sdk PayError.

(** ** Data *)

Inductive EventStatus := Received | Split_ | AllSettled | Partial.

Inductive OrderDirection := Payment | Payout.

Inductive OrderStatus := NotStarted | Executing | Success | Failed | RequiresAction.

#[global] Instance OrderStatus_eq_dec : EqDecision OrderStatus.
Proof. solve_decision. Defined.
#[global] Instance EventStatus_eq_dec : EqDecision EventStatus.
Proof. solve_decision. Defined.
#[global] Instance OrderDirection_eq_dec : EqDecision OrderDirection.
Proof. solve_decision. Defined.

Inductive RailHint := Native | Http402 | Card | Ach.

Inductive RailReceipt :=
| ReceiptNative (ledger_entry : bytes)
| ReceiptHttp402 (receipt : bytes)
| ReceiptCardAcp (network last4 : string) (auth : bytes)
| ReceiptAch (settlement_ref : string) (auth : bytes).

(** A declared FX rate: 1 [fx_from] is [fx_rate] units of [fx_to]; the markup is a [u32]. *)
Record FxRate := { fx_from : string; fx_to : string; fx_rate : string; markup_bps : Z }.

Record OrderSigner := { ed_pk : bytes; falcon_pk : bytes; domain : string }.

Record PaymentOrder := {
  order_version : Z;
  payment_order_id : string;
  checkout_id : string;
  to : string;
  amount : string;
  currency : string;
  fx : option FxRate;
  card_token : option string;
  card_network : option string;
  card_last4 : option string;
  rail : option RailHint;
  direction : OrderDirection;
  status : OrderStatus;
  ledger_updated : bool;
  wallet_updated : bool;
  attempts : Z;
  next_retry_at : option string;
  executing_since : option string;
  receipt : option RailReceipt;
  created_at : string;
  updated_at : string;
  signature : option bytes;
  signer : option OrderSigner
}.

Record PaymentEvent := {
  event_version : Z;
  event_id : string;
  event_checkout_id : string;
  buyer : string;
  seller : string;
  payment_orders : list PaymentOrder;
  event_status : EventStatus;
  event_created_at : string;
  envelope : option bytes;
  event_signature : option bytes;
  event_signer : option OrderSigner
}.

#[global] Instance RailHint_eq_dec : EqDecision RailHint.
Proof. solve_decision. Defined.
#[global] Instance RailReceipt_eq_dec : EqDecision RailReceipt.
Proof. solve_decision. Defined.
#[global] Instance FxRate_eq_dec : EqDecision FxRate.
Proof. solve_decision. Defined.
#[global] Instance OrderSigner_eq_dec : EqDecision OrderSigner.
Proof. solve_decision. Defined.

(** The mutable part of an order, replaced as a whole; the setters below
    are assignments to one field. *)
Definition order_with (o : PaymentOrder) (st : OrderStatus) (lu wu : bool) (att : Z)
    (nr es : option string) (rc : option RailReceipt) (upd : string) : PaymentOrder :=
  {| order_version := order_version o; payment_order_id := payment_order_id o;
     checkout_id := checkout_id o; to := to o; amount := amount o; currency := currency o;
     fx := fx o; card_token := card_token o; card_network := card_network o;
     card_last4 := card_last4 o; rail := rail o; direction := direction o;
     status := st; ledger_updated := lu; wallet_updated := wu; attempts := att;
     next_retry_at := nr; executing_since := es; receipt := rc;
     created_at := created_at o; updated_at := upd;
     signature := signature o; signer := signer o |}.

Definition set_attempts (o : PaymentOrder) (n : Z) : PaymentOrder :=
  order_with o (status o) (ledger_updated o) (wallet_updated o) n (next_retry_at o)
    (executing_since o) (receipt o) (updated_at o).
Definition set_next_retry_at (o : PaymentOrder) (d : option string) : PaymentOrder :=
  order_with o (status o) (ledger_updated o) (wallet_updated o) (attempts o) d
    (executing_since o) (receipt o) (updated_at o).
Definition set_executing_since (o : PaymentOrder) (d : option string) : PaymentOrder :=
  order_with o (status o) (ledger_updated o) (wallet_updated o) (attempts o) (next_retry_at o)
    d (receipt o) (updated_at o).
Definition set_receipt (o : PaymentOrder) (r : option RailReceipt) : PaymentOrder :=
  order_with o (status o) (ledger_updated o) (wallet_updated o) (attempts o) (next_retry_at o)
    (executing_since o) r (updated_at o).
Definition set_updated_flags (o : PaymentOrder) (ledger wallet : bool) : PaymentOrder :=
  order_with o (status o) ledger wallet (attempts o) (next_retry_at o)
    (executing_since o) (receipt o) (updated_at o).

(** ** Display *)

Definition direction_to_string (d : OrderDirection) : string :=
  match d with Payment => "payment" | Payout => "payout" end.

Definition status_to_string (s : OrderStatus) : string :=
  match s with
  | NotStarted => "NOT_STARTED"
  | Executing => "EXECUTING"
  | Success => "SUCCESS"
  | Failed => "FAILED"
  | RequiresAction => "REQUIRES_ACTION"
  end.

Definition rail_as_str (r : RailHint) : string :=
  match r with Native => "native" | Http402 => "http402" | Card => "card" | Ach => "ach" end.

Definition rail_from_str (s : string) : result string RailHint :=
  if String.eqb s "native" then Ok Native
  else if String.eqb s "http402" then Ok Http402
  else if String.eqb s "card" then Ok Card
  else if String.eqb s "ach" then Ok Ach
  else Err ("unknown rail hint: " +:+ s +:+ " (expected native|http402|card|ach)").

Definition receipt_summary (r : RailReceipt) : string :=
  match r with
  | ReceiptNative e => "native (ledger entry, " +:+ show_Z (Z.of_nat (length e)) +:+ " bytes)"
  | ReceiptHttp402 b => "http402 (receipt, " +:+ show_Z (Z.of_nat (length b)) +:+ " bytes)"
  | ReceiptCardAcp n l _ => "card " +:+ n +:+ " •••• " +:+ l
  | ReceiptAch s _ => "ach (ref: " +:+ s +:+ ")"
  end.

(** ** The status machine *)

Definition can_transition (from to : OrderStatus) : bool :=
  match from, to with
  | NotStarted, (Executing | Failed | RequiresAction) => true
  | Executing, (Success | Failed | RequiresAction | NotStarted) => true
  | RequiresAction, (Executing | Failed | NotStarted) => true
  | Failed, (Executing | NotStarted) => true
  | _, _ => false
  end.

Definition is_terminal (s : OrderStatus) : bool := bool_decide (s = Success).

(** [transition] at clock reading [now]. *)
Definition transition (o : PaymentOrder) (st : OrderStatus) (now : string)
    : result Error PaymentOrder :=
  if negb (can_transition (status o) st)
  then Err (InvalidTransition (status_to_string (status o)) (status_to_string st))
  else Ok (order_with o st (ledger_updated o) (wallet_updated o) (attempts o) (next_retry_at o)
             (executing_since o) (receipt o) now).

Definition rollup (orders : list PaymentOrder) : EventStatus :=
  match orders with
  | [] => Received
  | _ =>
      if forallb (fun o => bool_decide (status o = Success)) orders then AllSettled
      else if existsb (fun o => bool_decide (status o = Failed) || bool_decide (status o = RequiresAction)) orders
      then Partial
      else if existsb (fun o => negb (bool_decide (status o = NotStarted))) orders then Split_
      else Received
  end.

(** ** Constructors; the fresh id and the clock reading are arguments *)

Definition order_new (uuid now checkout to_ amount_ currency_ : string) : PaymentOrder :=
  {| order_version := 1; payment_order_id := uuid; checkout_id := checkout; to := to_;
     amount := amount_; currency := currency_; fx := None; card_token := None;
     card_network := None; card_last4 := None; rail := None; direction := Payment;
     status := NotStarted; ledger_updated := false; wallet_updated := false; attempts := 0;
     next_retry_at := None; executing_since := None; receipt := None;
     created_at := now; updated_at := now; signature := None; signer := None |}.

Definition set_direction (o : PaymentOrder) (d : OrderDirection) : PaymentOrder :=
  {| order_version := order_version o; payment_order_id := payment_order_id o;
     checkout_id := checkout_id o; to := to o; amount := amount o; currency := currency o;
     fx := fx o; card_token := card_token o; card_network := card_network o;
     card_last4 := card_last4 o; rail := rail o; direction := d;
     status := status o; ledger_updated := ledger_updated o; wallet_updated := wallet_updated o;
     attempts := attempts o; next_retry_at := next_retry_at o; executing_since := executing_since o;
     receipt := receipt o; created_at := created_at o; updated_at := updated_at o;
     signature := signature o; signer := signer o |}.

Definition event_new (uuid now checkout buyer_ seller_ : string) (orders : list PaymentOrder)
    : PaymentEvent :=
  {| event_version := 1; event_id := uuid; event_checkout_id := checkout; buyer := buyer_;
     seller := seller_; payment_orders := orders; event_status := Received;
     event_created_at := now; envelope := None; event_signature := None; event_signer := None |}.

(** The bytes an order signature covers. *)
Definition signed_body (o : PaymentOrder) : bytes :=
  [byte_of (order_version o)] ++ as_bytes (payment_order_id o) ++ as_bytes (checkout_id o)
  ++ as_bytes (to o) ++ as_bytes (amount o) ++ as_bytes (currency o)
  ++ match fx o with
     | Some f => [byte_of 1] ++ as_bytes (fx_from f) ++ as_bytes (fx_to f) ++ as_bytes (fx_rate f)
                 ++ le_bytes 4 (markup_bps f)
     | None => [byte_of 0]
     end
  ++ match rail o with
     | Some r => [byte_of 1] ++ as_bytes (rail_as_str r)
     | None => [byte_of 0]
     end.

(** ** Properties of the order status machine and of order signatures
    (origin-payments/src/event.rs, identity.rs) *)

(** ** Signing (identity.rs) *)

Definition PAYMENTS_DOMAIN : string := "payments".

Section Identity.
Context `{Sdk}.

Record OperatorKeys := { bundle : HybridSigningKeyBundle; envelope_key : bytes }.

Definition order_set_signature (o : PaymentOrder) (sg : option bytes) (sr : option OrderSigner)
    : PaymentOrder :=
  {| order_version := order_version o; payment_order_id := payment_order_id o;
     checkout_id := checkout_id o; to := to o; amount := amount o; currency := currency o;
     fx := fx o; card_token := card_token o; card_network := card_network o;
     card_last4 := card_last4 o; rail := rail o; direction := direction o;
     status := status o; ledger_updated := ledger_updated o; wallet_updated := wallet_updated o;
     attempts := attempts o; next_retry_at := next_retry_at o; executing_since := executing_since o;
     receipt := receipt o; created_at := created_at o; updated_at := updated_at o;
     signature := sg; signer := sr |}.

(** The signer record embedded next to a signature. *)
Definition signer_of (keys : OperatorKeys) : OrderSigner :=
  {| ed_pk := ed25519_pk (bundle keys); falcon_pk := falcon1024_pk (bundle keys);
     domain := PAYMENTS_DOMAIN |}.

(** Sign bytes and encode the signature in its wire format. *)
Definition sign_bytes (keys : OperatorKeys) (body : bytes) : result Error bytes :=
  sig ← map_err CryptoError (try_sign_hybrid (bundle keys) body);
  map_err CryptoError (hybrid_encode sig).

Definition sign_order (o : PaymentOrder) (keys : OperatorKeys) : result Error PaymentOrder :=
  encoded ← sign_bytes keys (signed_body o);
  Ok (order_set_signature o (Some encoded) (Some (signer_of keys))).

Definition verify_order (o : PaymentOrder) : result Error bool :=
  match signer o, signature o with
  | None, _ => Err (Unsigned (payment_order_id o))
  | Some _, None => Err (Unsigned (payment_order_id o))
  | Some sr, Some sg =>
      s ← map_err (fun e => CryptoError ("decoding signature: " +:+ e)) (hybrid_decode sg);
      Ok (hybrid_verify s (ed_pk sr) (falcon_pk sr) (signed_body o))
  end.
End Identity.

(** What the signature scheme promises: an encoded signature decodes to
    itself and verifies under the bundle's public keys on the signed bytes. *)
Class SigOk `{Sdk} : Prop := {
  decode_encode_sig : forall s b, hybrid_encode s = Ok b -> hybrid_decode b = Ok s;
  verify_sign : forall k m s, try_sign_hybrid k m = Ok s ->
    hybrid_verify s (ed25519_pk k) (falcon1024_pk k) m = true
}.

#[global] Instance toy_sig_ok : @SigOk Toy.sdk.
Proof. constructor; cbn; intros; simplify_eq; [done|]. by rewrite bool_decide_eq_true_2. Qed.

(** ** The status machine *)

(** One legal step, and reachability. *)
Definition status_step (a b : OrderStatus) : Prop := can_transition a b = true.
Abbreviation reachable := (rtc status_step).

Lemma step_into_success (s : OrderStatus) : status_step s Success <-> s = Executing.
Proof. unfold status_step. by destruct s. Qed.

Lemma no_step_from_success (s : OrderStatus) : ~ status_step Success s.
Proof. by destruct s. Qed.

(** the status machine: [is_terminal] holds exactly of the statuses with no
    legal transition out; from every other status settlement is reachable; and
    a path that ends in [Success] either starts there or takes its last step
    from [Executing]. *)
Theorem status_machine (s : OrderStatus) :
  (is_terminal s = true <-> forall t, can_transition s t = false) /\
  (is_terminal s = false -> reachable s Success) /\
  (reachable s Success -> s = Success \/ (reachable s Executing /\ status_step Executing Success)).
Proof.
  assert (status_step Executing Success) as Hx by done. split; [|split].
  - split.
    + intros E. apply bool_decide_eq_true in E as ->. by intros [].
    + destruct s; intros E; try done.
      * by specialize (E Executing).
      * by specialize (E Success).
      * by specialize (E Executing).
      * by specialize (E Executing).
  - intros _. assert (forall a, status_step a Executing -> reachable a Success) as Hv.
    { intros a Ha. eapply rtc_l; [exact Ha|by apply rtc_once]. }
    destruct s; first [by apply rtc_once|by apply Hv|apply rtc_refl].
  - intros Hr. apply rtc_inv_r in Hr as [->|(m & Hm & Hs)]; [by left|].
    apply step_into_success in Hs as ->. by right.
Qed.

(** [transition] changes the status and the update time and nothing else:
    it succeeds exactly on legal steps, and the signed bytes, the amounts, the
    attempts and the retry deadline of the order are kept. *)
Theorem transition_spec (o : PaymentOrder) (st : OrderStatus) (now : string) :
  match transition o st now with
  | Ok o' => can_transition (status o) st = true /\ status o' = st /\ updated_at o' = now /\
             signed_body o' = signed_body o /\ attempts o' = attempts o /\
             next_retry_at o' = next_retry_at o /\ payment_order_id o' = payment_order_id o /\
             signature o' = signature o
  | Err e => can_transition (status o) st = false /\
             e = InvalidTransition (status_to_string (status o)) (status_to_string st)
  end.
Proof. unfold transition. by destruct (can_transition (status o) st). Qed.

(** the event status is the rollup of the order statuses: all settled,
    else partial when an order failed or awaits action, else split when an
    order left the initial status, else received; the empty checkout is received. *)
Theorem rollup_spec (os : list PaymentOrder) :
  (rollup os = AllSettled <-> os <> [] /\ Forall (fun o => status o = Success) os) /\
  (rollup os = Partial <-> Exists (fun o => status o = Failed \/ status o = RequiresAction) os) /\
  (rollup os = Received <-> Forall (fun o => status o = NotStarted) os).
Proof.
  unfold rollup. destruct os as [|o0 os0] eqn:Eo.
  { rewrite Exists_nil. repeat split; try done; try constructor. by intros [? _]. }
  rewrite <- Eo. assert (os <> []) as Hne by by rewrite Eo. clear Eo o0 os0.
  set (f1 := fun o => bool_decide (status o = Success)).
  set (f2 := fun o => bool_decide (status o = Failed) || bool_decide (status o = RequiresAction)).
  set (f3 := fun o => negb (bool_decide (status o = NotStarted))).
  assert (forallb f1 os = true <-> Forall (fun o => status o = Success) os) as H1.
  { rewrite forallb_forall, List.Forall_forall. unfold f1. setoid_rewrite bool_decide_eq_true. done. }
  assert (existsb f2 os = true <-> Exists (fun o => status o = Failed \/ status o = RequiresAction) os) as H2.
  { rewrite existsb_exists, List.Exists_exists. unfold f2.
    setoid_rewrite orb_true_iff. setoid_rewrite bool_decide_eq_true. done. }
  assert (existsb f3 os = false <-> Forall (fun o => status o = NotStarted) os) as H3.
  { rewrite <- not_true_iff_false, existsb_exists, List.Forall_forall. unfold f3.
    setoid_rewrite negb_true_iff. setoid_rewrite bool_decide_eq_false. split.
    - intros Hn x Hx. destruct (decide (status x = NotStarted)); [done|]. destruct Hn. eauto.
    - intros Ha (x & Hx & Hs). by apply Hs, Ha. }
  set (A := Forall (fun o => status o = Success) os) in *.
  set (B := Exists (fun o => status o = Failed \/ status o = RequiresAction) os) in *.
  set (C := Forall (fun o => status o = NotStarted) os) in *.
  assert (A -> ~ B) as AB.
  { intros HA HB. apply Exists_exists in HB as (x & Hx & Hs). unfold A in HA.
    rewrite Forall_forall in HA. specialize (HA x Hx). destruct Hs; congruence. }
  assert (C -> ~ B) as CB.
  { intros HC HB. apply Exists_exists in HB as (x & Hx & Hs). unfold C in HC.
    rewrite Forall_forall in HC. specialize (HC x Hx). destruct Hs; congruence. }
  assert (A -> ~ C) as AC.
  { intros HA HC. unfold A, C in *. destruct os as [|w os']; [done|].
    inversion HA; inversion HC; congruence. }
  clearbody A B C. destruct (forallb f1 os), (existsb f2 os), (existsb f3 os).
  all: repeat split; try discriminate; try tauto.
  all: intuition congruence.
Qed.

(** ** Signatures over orders *)

(** signing then verifying an order succeeds, for every signature scheme
    whose signatures decode and verify. *)
Theorem sign_verify_order `{Sdk, !SigOk} (o o' : PaymentOrder) (keys : OperatorKeys)
    (Hs : sign_order o keys = Ok o') : verify_order o' = Ok true.
Proof.
  unfold sign_order, sign_bytes in Hs. apply result_bind_Ok in Hs as (enc & Henc & Hs).
  apply result_bind_Ok in Henc as (sg & Hsg & Henc). simplify_eq. unfold verify_order. cbn.
  destruct (hybrid_encode sg) as [b|] eqn:Eb; simplify_eq/=.
  rewrite (decode_encode_sig _ _ Eb). cbn.
  destruct (try_sign_hybrid (bundle keys) (signed_body o)) as [s|] eqn:Es; simplify_eq/=.
  f_equal. exact (verify_sign _ _ _ Es).
Qed.

Definition sample_order : PaymentOrder := order_new "order-1" "t0" "checkout-1" "acct1" "1.00" "USD".
Definition toy_keys : OperatorKeys (H := Toy.sdk) :=
  {| bundle := (chars "key" : HybridSigningKeyBundle (Sdk := Toy.sdk)); envelope_key := [] |}.

Lemma sign_verify_order_witness :
  exists o', sign_order (H := Toy.sdk) sample_order toy_keys = Ok o' /\
             verify_order (H := Toy.sdk) o' = Ok true.
Proof.
  eexists. split; [reflexivity|].
  apply (sign_verify_order (H := Toy.sdk) sample_order _ toy_keys). reflexivity.
Defined.

(** the signed bytes do not delimit their fields: an order for 1.00 to
    [acct1] and an order for 11.00 to [acct] have the same signed bytes, so
    whatever the scheme answers on a signature of one it answers on the other. *)
Theorem signed_body_ambiguous `{Sdk} :
  exists o o', amount o = "1.00" /\ amount o' = "11.00" /\ to o <> to o' /\
    signed_body o = signed_body o' /\
    forall sg sr, verify_order (order_set_signature o sg sr)
                  = verify_order (order_set_signature o' sg sr).
Proof.
  exists (order_new "order-1" "t0" "checkout-1" "acct1" "1.00" "USD"),
         (order_new "order-1" "t0" "checkout-1" "acct" "11.00" "USD").
  by repeat split.
Qed.
