(* ===== verification/Mmr.v ===== *)
(** * Merkle mountain range (origin-proof/src/mmr.rs, commands.rs; origin-payments/src/proof.rs)

    The state is a list of mountains, tallest first; a mountain stores the
    hex-encoded hashes of a perfect binary tree level by level, leaves first.
    A panic of the code (a failed assertion, an index out of range, a node
    that is not 32 hex-encoded bytes) is [None].  Heights, indices and the
    leaf counter are natural numbers: the counter is a [u64] that only grows
    by one per append. *)

From Stdlib Require Import Ascii String.
From S2P Require Import Prelude RustStr Bytes Sdk.

#[local] Open Scope nat_scope.

Record Mountain := { height : nat; nodes : list string }.

Record MmrState := { version : Z; mountains : list Mountain; leaf_count : nat }.

Record AuthStep := { step_hash : string; is_left : bool }.

Record MembershipProof := {
  leaf_index : nat;
  proof_leaf_count : nat;
  leaf_hash : string;
  proof_auth_path : list AuthStep;
  peak_index : nat;
  proof_peaks : list string;
  proof_version : Z
}.

Definition NODE_DOMAIN : bytes := chars "ORGN-MMR-NODE".
Definition ZERO_HASH : bytes := replicate 32 (byte_of 0).

(** [&v[a..b]]: panics when [b] is past the end. *)
Definition slice {A : Type} (l : list A) (a b : nat) : option (list A) :=
  if (a <=? b) && (b <=? length l) then Some (take (b - a) (drop a l)) else None.

Section Mmr.
Context `{Sdk}.

(** Decodes hex and copies into a 32-byte array; panics otherwise. *)
Definition decode_hash (s : string) : option bytes :=
  b ← ok (hex_decode s); if decide (length b = 32) then Some b else None.

Definition parent_hash (a b : bytes) : bytes := blake3 (a ++ b).
Definition parent_hash_v3 (a b : bytes) : bytes := blake3 (NODE_DOMAIN ++ a ++ b).
Definition node_hash_for (v : Z) (a b : bytes) : bytes :=
  if (3 <=? v)%Z then parent_hash_v3 a b else parent_hash a b.

(** ** Mountains *)

Definition mountain_leaf (hash : bytes) : Mountain := {| height := 0; nodes := [hex_encode hash] |}.

Definition peak (m : Mountain) : option bytes := n ← last (nodes m); decode_hash n.

Definition node_count (m : Mountain) : nat := 2 ^ (height m + 1) - 1.

Definition level_offset (m : Mountain) (l : nat) : nat := 2 ^ (height m + 1) - 2 ^ (height m - l + 1).

Definition level_count (m : Mountain) (l : nat) : nat := 2 ^ (height m - l).

Definition get_node (m : Mountain) (level index : nat) : option bytes :=
  n ← nodes m !! (level_offset m level + index); decode_hash n.

(** The levels [ls] of both mountains, left then right, one level after the other. *)
Fixpoint merge_levels (left right : Mountain) (ls : list nat) (acc : list string)
    : option (list string) :=
  match ls with
  | [] => Some acc
  | l :: ls' =>
      a ← slice (nodes left) (level_offset left l) (level_offset left l + level_count left l);
      b ← slice (nodes right) (level_offset right l) (level_offset right l + level_count right l);
      merge_levels left right ls' (acc ++ a ++ b)
  end.

Definition merge_with (left right : Mountain) (v : Z) : option Mountain :=
  if negb (height left =? height right) then None else
  let h := height left + 1 in
  a ← slice (nodes left) 0 (level_count left 0);
  b ← slice (nodes right) 0 (level_count right 0);
  inner ← merge_levels left right (seq 1 (h - 1)) (a ++ b);
  lp ← peak left;
  rp ← peak right;
  Some {| height := h; nodes := inner ++ [hex_encode (node_hash_for v lp rp)] |}.

Definition merge (left right : Mountain) : option Mountain := merge_with left right 2.

Fixpoint auth_path_go (m : Mountain) (levels : list nat) (idx : nat)
    : option (list (bytes * bool)) :=
  match levels with
  | [] => Some []
  | l :: levels' =>
      sibling ← get_node m l (Nat.lxor idx 1);
      rest ← auth_path_go m levels' (Nat.shiftr idx 1);
      Some ((sibling, Nat.land idx 1 =? 0) :: rest)
  end.

Definition auth_path (m : Mountain) (leaf_index : nat) : option (bytes * list (bytes * bool)) :=
  leaf ← get_node m 0 leaf_index;
  path ← auth_path_go m (seq 0 (height m)) leaf_index;
  Some (leaf, path).

(** ** The range *)

Definition mmr_new : MmrState := {| version := 3; mountains := []; leaf_count := 0 |}.

(** The [while let Some(last)] loop: [ms] is the mountain list, last first. *)
Fixpoint carry (v : Z) (ms : list Mountain) (m : Mountain) : option (list Mountain) :=
  match ms with
  | l :: ms' =>
      if height l =? height m then m' ← merge_with l m v; carry v ms' m'
      else Some (m :: ms)
  | [] => Some [m]
  end.

Definition append_hash (s : MmrState) (leaf : bytes) : option MmrState :=
  ms ← carry (version s) (rev (mountains s)) (mountain_leaf leaf);
  Some {| version := version s; mountains := rev ms; leaf_count := leaf_count s + 1 |}.

Definition peaks (s : MmrState) : option (list bytes) := mapM peak (mountains s).

Definition fold_peaks (v : Z) (ps : list bytes) : bytes :=
  match ps with [] => ZERO_HASH | p :: ps' => foldl (node_hash_for v) p ps' end.

Definition root (s : MmrState) : option bytes := ps ← peaks s; Some (fold_peaks (version s) ps).

Fixpoint locate_go (ms : list Mountain) (mi remaining : nat) : option (nat * nat) :=
  match ms with
  | [] => None
  | m :: ms' =>
      if remaining <? 2 ^ height m then Some (mi, remaining)
      else locate_go ms' (mi + 1) (remaining - 2 ^ height m)
  end.

Definition locate_leaf (s : MmrState) (i : nat) : result string (nat * nat) :=
  if leaf_count s <=? i
  then Err ("index " +:+ show_Z (Z.of_nat i) +:+ " out of range ("
            +:+ show_Z (Z.of_nat (leaf_count s)) +:+ " leaves)")
  else match locate_go (mountains s) 0 i with
       | Some r => Ok r
       | None => Err "internal error: leaf not found in any mountain"
       end.

Definition prove (s : MmrState) (i : nat) : option (result string MembershipProof) :=
  match locate_leaf s i with
  | Err e => Some (Err e)
  | Ok (mi, li) =>
      m ← mountains s !! mi;
      '(leaf, path) ← auth_path m li;
      ps ← peaks s;
      Some (Ok {| leaf_index := i; proof_leaf_count := leaf_count s;
                  leaf_hash := hex_encode leaf;
                  proof_auth_path :=
                    map (fun '(h, l) => {| step_hash := hex_encode h; is_left := l |}) path;
                  peak_index := mi; proof_peaks := map hex_encode ps;
                  proof_version := version s |})
  end.

(** Walks the authentication path from the leaf to the peak. *)
Fixpoint walk (v : Z) (current : bytes) (steps : list AuthStep) : option bytes :=
  match steps with
  | [] => Some current
  | st :: steps' =>
      sibling ← decode_hash (step_hash st);
      walk v (if is_left st then node_hash_for v current sibling
              else node_hash_for v sibling current) steps'
  end.

(** [self] is not used by the code. *)
Definition verify_proof (p : MembershipProof) (expected_root : bytes) : option bool :=
  leaf ← decode_hash (leaf_hash p);
  current ← walk (proof_version p) leaf (proof_auth_path p);
  if length (proof_peaks p) <=? peak_index p then Some false else
  ps ← mapM decode_hash (proof_peaks p);
  let computed := fold_peaks (proof_version p) (<[peak_index p := current]> ps) in
  Some (bool_decide (computed = expected_root)).

(** The [verify] command after its files are read: the same walk, with the
    failures reported as errors. *)
Definition cmd_verify (p : MembershipProof) (root_hex : string) : option (result string unit) :=
  match hex_decode (trim root_hex) with
  | Err e => Some (Err ("invalid root hex: " +:+ e))
  | Ok expected_root =>
      if negb (length expected_root =? 32)
      then Some (Err ("root must be 32 bytes, got " +:+ show_Z (Z.of_nat (length expected_root))))
      else
        leaf ← decode_hash (leaf_hash p);
        current ← walk (proof_version p) leaf (proof_auth_path p);
        if length (proof_peaks p) <=? peak_index p
        then Some (Err ("peak_index " +:+ show_Z (Z.of_nat (peak_index p)) +:+ " out of range ("
                        +:+ show_Z (Z.of_nat (length (proof_peaks p))) +:+ " peaks)"))
        else
          ps ← mapM decode_hash (proof_peaks p);
          let computed_root := fold_peaks (proof_version p) (<[peak_index p := current]> ps) in
          if bool_decide (computed_root = expected_root) then Some (Ok tt)
          else Some (Err ("computed root " +:+ hex_encode computed_root +:+ " != expected "
                          +:+ hex_encode expected_root))
  end.

(** The version check of [load_state], on a parsed state. *)
Definition load_state (s : MmrState) : result string MmrState :=
  if (negb (version s =? 2) && negb (version s =? 3))%Z
  then Err ("unsupported state version " +:+ show_Z (version s) +:+ " (expected 2 or 3)")
  else Ok s.

(** The leaf hash of the [append] command: the bare hash of the data. *)
Definition leaf_of_data (data : bytes) : bytes := blake3 data.

(** The [append] command on a loaded state. *)
Definition cmd_append (s : MmrState) (data_hex : string) : option (result string MmrState) :=
  match hex_decode (trim data_hex) with
  | Err e => Some (Err ("invalid data hex: " +:+ e))
  | Ok [] => Some (Err "data must not be empty")
  | Ok data => s' ← append_hash s (leaf_of_data data); Some (Ok s')
  end.

(** origin-payments' checkpoint log: append and return the new root. *)
Definition checkpoint_append (s : MmrState) (leaf : bytes) : option (MmrState * bytes) :=
  s' ← append_hash s leaf; r ← root s'; Some (s', r).

End Mmr.
