(* ===== verification/MmrTheory.v ===== *)
(** * Merkle mountain range: theory

    Abstractly a range is a list of perfect binary hash trees of strictly
    decreasing heights whose leaves, in order, are the appended hashes.
    [append_hash] refines insertion into that list, [prove] and
    [verify_proof] are complete on it, and a root binds the leaf of every
    position up to a collision of the hash function. *)

From Stdlib Require Import Ascii String.
From S2P Require Import Prelude RustStr Bytes Sdk Mmr.

#[local] Open Scope nat_scope.

(** ** Perfect hash trees *)

Inductive tree := TLeaf (hash : bytes) | TNode (l r : tree).

Fixpoint theight (t : tree) : nat :=
  match t with TLeaf _ => 0 | TNode l _ => S (theight l) end.

Fixpoint perfect (t : tree) : Prop :=
  match t with
  | TLeaf h => length h = 32
  | TNode l r => perfect l /\ perfect r /\ theight l = theight r
  end.

Fixpoint leaves (t : tree) : list bytes :=
  match t with TLeaf h => [h] | TNode l r => leaves l ++ leaves r end.

Section Trees.
Context `{Sdk}.
Variable v : Z.

Fixpoint thash (t : tree) : bytes :=
  match t with TLeaf h => h | TNode l r => node_hash_for v (thash l) (thash r) end.

(** The hashes at a level, leaves being level 0. *)
Fixpoint level (t : tree) (l : nat) : list bytes :=
  match t with
  | TLeaf h => if l =? 0 then [h] else []
  | TNode a b => if l =? S (theight a) then [thash t] else level a l ++ level b l
  end.

Definition tree_nodes (t : tree) : list bytes := concat (map (level t) (seq 0 (S (theight t)))).

(** The mountain that stores a tree. *)
Definition enc (t : tree) : Mountain :=
  {| height := theight t; nodes := map hex_encode (tree_nodes t) |}.

Lemma level_length (t : tree) (l : nat) :
  perfect t -> l <= theight t -> length (level t l) = 2 ^ (theight t - l).
Proof.
  revert l. induction t as [h|a IHa b IHb]; intros l Hp Hl; cbn [level theight perfect] in *.
  - by replace l with 0 by lia.
  - destruct Hp as (Ha & Hb & E). destruct (Nat.eqb_spec l (S (theight a))) as [->|].
    + by rewrite Nat.sub_diag.
    + rewrite length_app, IHa, IHb by (done || lia). rewrite <- E, Nat.sub_succ_l by lia.
      simpl. lia.
Qed.

Lemma level_top (t : tree) : perfect t -> level t (theight t) = [thash t].
Proof. destruct t; simpl; [done|]. by rewrite Nat.eqb_refl. Qed.

Lemma level_zero (t : tree) : perfect t -> level t 0 = leaves t.
Proof. induction t as [h|a IHa b IHb]; simpl; [done|]. intros (Ha & Hb & _). by rewrite IHa, IHb. Qed.

(** A node is the hash of its two children, level by level. *)
Lemma level_parent (t : tree) (j k : nat) (x y : bytes) :
  perfect t -> j < theight t ->
  level t j !! (2 * k) = Some x -> level t j !! (2 * k + 1) = Some y ->
  level t (S j) !! k = Some (node_hash_for v x y).
Proof.
  revert j k. induction t as [h|a IHa b IHb]; intros j k Hp Hj Hx Hy; simpl in Hj; [lia|].
  destruct Hp as (Ha & Hb & E). cbn [level] in *.
  destruct (Nat.eqb_spec j (S (theight a))) as [->|_]; [lia|].
  destruct (Nat.eqb_spec (S j) (S (theight a))) as [Ej|Hne].
  - assert (j = theight a) as -> by lia. rewrite level_top in Hx, Hy by done.
    rewrite E, level_top in Hx, Hy by done.
    destruct k as [|k]; [by simplify_eq/=|].
    replace (2 * S k) with (S (S (2 * k))) in Hx by lia. simpl in Hx. by destruct k.
  - pose proof (level_length a j Ha ltac:(lia)) as La.
    pose proof (level_length a (S j) Ha ltac:(lia)) as La'.
    assert (length (level a j) = 2 * length (level a (S j))) as L2.
    { rewrite La, La'. replace (theight a - j) with (S (theight a - S j)) by lia. simpl. lia. }
    destruct (decide (k < length (level a (S j)))) as [Hk|Hk].
    + rewrite lookup_app_l in Hx, Hy by lia. rewrite lookup_app_l by done.
      apply (IHa j k Ha ltac:(lia) Hx Hy).
    + rewrite lookup_app_r in Hx, Hy by lia. rewrite lookup_app_r by lia.
      apply (IHb j (k - length (level a (S j))) Hb ltac:(lia)).
      * by replace (2 * (k - length (level a (S j)))) with (2 * k - length (level a j)) by lia.
      * by replace (2 * (k - length (level a (S j))) + 1) with (2 * k + 1 - length (level a j)) by lia.
Qed.

Lemma level_Forall_32 `{!HashOk} (t : tree) (l : nat) :
  perfect t -> Forall (fun h => length h = 32) (level t l).
Proof.
  assert (forall t, perfect t -> length (thash t) = 32) as Hh.
  { induction t0 as [h|a IHa b IHb]; simpl; [done|]. intros _.
    unfold node_hash_for, parent_hash_v3, parent_hash. case_match; apply blake3_len. }
  revert l. induction t as [h|a IHa b IHb]; intros l Hp; simpl in *.
  - case_match; by repeat constructor.
  - destruct Hp as (Ha & Hb & E). case_match.
    + constructor; [|done]. apply (Hh (TNode a b)). by split.
    + by apply Forall_app_2; auto.
Qed.

(** ** Positions of a level in the flattened mountain *)

(** Number of nodes below a level. *)
Fixpoint below (h l : nat) : nat := match l with O => 0 | S l' => below h l' + 2 ^ (h - l') end.

Lemma below_offset (h l : nat) : l <= S h -> below h l = 2 ^ (h + 1) - 2 ^ (h + 1 - l).
Proof.
  induction l as [|l IH]; intros Hl; simpl; [by rewrite Nat.sub_0_r, Nat.sub_diag|].
  rewrite IH by lia. replace (h + 1 - l) with (S (h - l)) by lia.
  replace (h + 1 - S l) with (h - l) by lia.
  assert (2 ^ S (h - l) <= 2 ^ (h + 1)) by (apply Nat.pow_le_mono_r; lia).
  simpl in *. lia.
Qed.

Lemma level_offset_below (t : tree) (l : nat) :
  l <= theight t -> level_offset (enc t) l = below (theight t) l.
Proof.
  intros Hl. unfold level_offset. cbn [height enc]. rewrite below_offset by lia.
  by replace (theight t - l + 1) with (theight t + 1 - l) by lia.
Qed.

Lemma levels_prefix_length (t : tree) (l : nat) :
  perfect t -> l <= S (theight t) -> length (concat (map (level t) (seq 0 l))) = below (theight t) l.
Proof.
  intros Hp. induction l as [|l IH]; intros Hl; [done|].
  rewrite seq_S, map_app, concat_app, length_app, IH by lia. simpl.
  rewrite app_nil_r, level_length by (done || lia). done.
Qed.

Lemma tree_nodes_split (t : tree) (l : nat) :
  l <= theight t ->
  tree_nodes t = concat (map (level t) (seq 0 l)) ++ level t l
                 ++ concat (map (level t) (seq (S l) (theight t - l))).
Proof.
  intros Hl. unfold tree_nodes. replace (S (theight t)) with (l + S (theight t - l)) by lia.
  rewrite seq_app, map_app, concat_app. done.
Qed.

Lemma tree_nodes_lookup (t : tree) (l i : nat) (x : bytes) :
  perfect t -> l <= theight t -> level t l !! i = Some x ->
  tree_nodes t !! (below (theight t) l + i) = Some x.
Proof.
  intros Hp Hl Hi. rewrite (tree_nodes_split t l) by done.
  rewrite lookup_app_r; rewrite levels_prefix_length by (done || lia); [|lia].
  replace (below (theight t) l + i - below (theight t) l) with i by lia.
  rewrite lookup_app_l; [done|]. by eapply lookup_lt_Some.
Qed.

Lemma slice_mid {A : Type} (p m q : list A) :
  slice (p ++ m ++ q) (length p) (length p + length m) = Some m.
Proof.
  unfold slice. rewrite !length_app.
  destruct (Nat.leb_spec (length p) (length p + length m)); [|lia].
  destruct (Nat.leb_spec (length p + length m) (length p + (length m + length q))); [|lia].
  simpl. rewrite drop_app_length.
  replace (length p + length m - length p) with (length m) by lia. by rewrite take_app_length.
Qed.

Lemma slice_level (t : tree) (l : nat) :
  perfect t -> l <= theight t ->
  slice (nodes (enc t)) (level_offset (enc t) l) (level_offset (enc t) l + level_count (enc t) l)
  = Some (map hex_encode (level t l)).
Proof.
  intros Hp Hl. cbn [nodes enc]. rewrite level_offset_below by done.
  unfold level_count. cbn [height enc]. rewrite <- (level_length t l) by done.
  rewrite (tree_nodes_split t l), !map_app by done.
  rewrite <- (levels_prefix_length t l) by (done || lia).
  rewrite <- (length_map hex_encode (concat _)), <- (length_map hex_encode (level t l)).
  apply slice_mid.
Qed.

End Trees.

(** ** Reading a stored tree *)

Section Stored.
Context `{Sdk, !HexOk, !HashOk}.
Variable v : Z.

Lemma decode_encode (h : bytes) : length h = 32 -> decode_hash (hex_encode h) = Some h.
Proof. intros Hl. unfold decode_hash. rewrite hex_roundtrip. simpl. by rewrite decide_True. Qed.

Lemma mapM_decode (hs : list bytes) :
  Forall (fun h => length h = 32) hs -> mapM decode_hash (map hex_encode hs) = Some hs.
Proof. induction 1 as [|h hs Hh _ IH]; [done|]. simpl. by rewrite decode_encode, IH. Qed.

Lemma thash_length (t : tree) : perfect t -> length (thash v t) = 32.
Proof.
  intros Hp. pose proof (level_Forall_32 v t (theight t) Hp) as Hf.
  rewrite level_top in Hf by done. by inversion Hf.
Qed.

Lemma get_node_enc (t : tree) (l i : nat) (x : bytes) :
  perfect t -> l <= theight t -> level v t l !! i = Some x -> get_node (enc v t) l i = Some x.
Proof.
  intros Hp Hl Hi. unfold get_node. rewrite level_offset_below by done. cbn [nodes enc].
  rewrite list_lookup_fmap, (tree_nodes_lookup v t l i x) by done. simpl.
  apply decode_encode. pose proof (level_Forall_32 v t l Hp) as Hf.
  rewrite Forall_lookup in Hf. by apply (Hf i).
Qed.

Lemma peak_enc (t : tree) : perfect t -> peak (enc v t) = Some (thash v t).
Proof.
  intros Hp. unfold peak. cbn [nodes enc].
  rewrite (tree_nodes_split v t (theight t)), level_top, Nat.sub_diag by done. simpl.
  rewrite map_app. simpl. rewrite last_app_cons. simpl.
  apply decode_encode, thash_length, Hp.
Qed.

Lemma merge_levels_enc (a b : tree) (n k : nat) (acc : list string) :
  perfect a -> perfect b -> theight a = theight b -> k + n <= S (theight a) ->
  merge_levels (enc v a) (enc v b) (seq k n) acc
  = Some (acc ++ map hex_encode (concat (map (level v (TNode a b)) (seq k n)))).
Proof.
  intros Ha Hb E. revert k acc. induction n as [|n IH]; intros k acc Hk; cbn [seq merge_levels map concat].
  - by rewrite app_nil_r.
  - rewrite !slice_level by (done || lia). cbn [mbind option_bind]. rewrite IH by lia. cbn [level].
    destruct (Nat.eqb_spec k (S (theight a))); [lia|].
    rewrite !map_app, <- !app_assoc. done.
Qed.

(** Merging stored trees stores the tree of both. *)
Lemma merge_with_enc (a b : tree) :
  perfect a -> perfect b -> theight a = theight b ->
  merge_with (enc v a) (enc v b) v = Some (enc v (TNode a b)).
Proof.
  intros Ha Hb E. unfold merge_with.
  assert ((height (enc v a) =? height (enc v b)) = true) as ->
    by (cbn [height enc]; rewrite E; apply Nat.eqb_refl). cbn [negb].
  pose proof (slice_level v a 0 Ha ltac:(lia)) as Sa.
  pose proof (slice_level v b 0 Hb ltac:(lia)) as Sb.
  rewrite level_offset_below in Sa, Sb by lia. cbn [below Nat.add] in Sa, Sb.
  rewrite Sa, Sb. cbn [mbind option_bind].
  cbn [height enc]. replace (theight a + 1 - 1) with (theight a) by lia.
  rewrite merge_levels_enc by (done || lia). cbn [mbind option_bind].
  rewrite !peak_enc by done. cbn [mbind option_bind]. f_equal.
  unfold enc. f_equal; [simpl; lia|].
  rewrite (tree_nodes_split v (TNode a b) (S (theight a))) by done. cbn [theight].
  rewrite level_top, Nat.sub_diag by done. cbn [seq map concat app].
  change (level v (TNode a b) 0) with (level v a 0 ++ level v b 0).
  by rewrite !map_app.
Qed.

(** ** Authentication paths *)

Lemma lxor_even (k : nat) : Nat.lxor (2 * k) 1 = 2 * k + 1.
Proof.
  apply Nat.bits_inj. intros [|n]; rewrite Nat.lxor_spec.
  - by rewrite Nat.testbit_even_0, Nat.testbit_odd_0.
  - change 1 with (2 * 0 + 1) at 1. rewrite Nat.testbit_even_succ, !Nat.testbit_odd_succ by lia.
    cbn [Nat.testbit Nat.div2]. by rewrite ?Nat.bits_0, xorb_false_r.
Qed.

Lemma lxor_odd (k : nat) : Nat.lxor (2 * k + 1) 1 = 2 * k.
Proof. rewrite <- lxor_even, Nat.lxor_assoc, Nat.lxor_nilpotent. apply Nat.lxor_0_r. Qed.

Lemma land1_mod (n : nat) : Nat.land n 1 = n mod 2.
Proof. apply (Nat.land_ones n 1). Qed.

Lemma shiftr1_half (n : nat) : Nat.shiftr n 1 = n / 2.
Proof. apply (Nat.shiftr_div_pow2 n 1). Qed.

(** From the node at a level, the path of the remaining levels leads to the peak. *)
Lemma auth_path_go_walk (t : tree) (n j idx : nat) (x : bytes) :
  perfect t -> j + n = theight t -> level v t j !! idx = Some x ->
  exists path, auth_path_go (enc v t) (seq j n) idx = Some path /\
    walk v x (map (fun '(h, l) => {| step_hash := hex_encode h; is_left := l |}) path)
    = Some (thash v t).
Proof.
  intros Hp. revert j idx x. induction n as [|n IH]; intros j idx x Hj Hx.
  - exists []. split; [done|]. simpl.
    replace j with (theight t) in Hx by lia. rewrite level_top in Hx by done.
    destruct idx; by simplify_eq/=.
  - cbn [seq auth_path_go].
    pose proof (level_length v t j Hp ltac:(lia)) as Hlen.
    assert (length (level v t j) = 2 * 2 ^ (theight t - S j)) as Hlen2.
    { rewrite Hlen. replace (theight t - j) with (S (theight t - S j)) by lia. done. }
    pose proof (lookup_lt_Some _ _ _ Hx) as Hlt.
    pose proof (Nat.div_mod_eq idx 2) as Hdm.
    pose proof (Nat.mod_upper_bound idx 2 ltac:(lia)) as Hmb.
    rewrite shiftr1_half, land1_mod.
    assert (exists y, level v t j !! Nat.lxor idx 1 = Some y /\
              level v t (S j) !! (idx / 2)
              = Some (if idx mod 2 =? 0 then node_hash_for v x y else node_hash_for v y x))
      as (y & Hy & Hup).
    { destruct (idx mod 2) as [|[|]] eqn:Em; [| |lia].
      - assert (idx = 2 * (idx / 2)) as Ei by lia.
        destruct (lookup_lt_is_Some_2 (level v t j) (2 * (idx / 2) + 1)) as [y Hy]; [lia|].
        exists y. rewrite Ei at 1. rewrite lxor_even. split; [done|]. simpl.
        apply (level_parent v t j (idx / 2) x y); [done|lia|by rewrite <- Ei|done].
      - assert (idx = 2 * (idx / 2) + 1) as Ei by lia.
        destruct (lookup_lt_is_Some_2 (level v t j) (2 * (idx / 2))) as [y Hy]; [lia|].
        exists y. rewrite Ei at 1. rewrite lxor_odd. split; [done|]. simpl.
        apply (level_parent v t j (idx / 2) y x); [done|lia|done|by rewrite <- Ei]. }
    destruct (IH (S j) (idx / 2) _ ltac:(lia) Hup) as (path & Epath & Ewalk).
    exists ((y, idx mod 2 =? 0) :: path).
    rewrite (get_node_enc t j _ y) by (done || lia). cbn [mbind option_bind]. rewrite Epath. split; [done|].
    cbn [map walk step_hash is_left]. rewrite decode_encode.
    + cbn [mbind option_bind]. done.
    + pose proof (level_Forall_32 v t j Hp) as Hf. rewrite Forall_lookup in Hf. by apply (Hf _ _ Hy).
Qed.

Lemma auth_path_walk (t : tree) (i : nat) (x : bytes) :
  perfect t -> leaves t !! i = Some x ->
  exists path, auth_path (enc v t) i = Some (x, path) /\
    walk v x (map (fun '(h, l) => {| step_hash := hex_encode h; is_left := l |}) path)
    = Some (thash v t).
Proof.
  intros Hp Hx. rewrite <- (level_zero v) in Hx by done.
  destruct (auth_path_go_walk t (theight t) 0 i x Hp ltac:(lia) Hx) as (path & E & Hw).
  exists path. split; [|done]. unfold auth_path.
  rewrite (get_node_enc t 0 i x) by (done || lia). simpl. by rewrite E.
Qed.

End Stored.

(** ** The range as a forest *)

(** Strictly decreasing heights, every tree perfect. *)
Fixpoint forest_ok (ts : list tree) : Prop :=
  match ts with
  | [] => True
  | t :: ts' => perfect t /\ Forall (fun u => theight u < theight t) ts' /\ forest_ok ts'
  end.

Definition forest_leaves (ts : list tree) : list bytes := concat (map leaves ts).

(** Abstract insertion: the carry of a binary counter, on the forest last tree first. *)
Fixpoint insert_rev (ts : list tree) (t : tree) : list tree :=
  match ts with
  | u :: ts' => if theight u =? theight t then insert_rev ts' (TNode u t) else t :: ts
  | [] => [t]
  end.
Definition forest_insert (ts : list tree) (leaf : bytes) : list tree :=
  rev (insert_rev (rev ts) (TLeaf leaf)).

Section Forest.
Context `{Sdk, !HexOk, !HashOk}.

(** The stored form of a forest. *)
Definition repr (v : Z) (ts : list tree) : MmrState :=
  {| version := v; mountains := map (enc v) ts; leaf_count := length (forest_leaves ts) |}.

(** Increasing heights, last tree first. *)
Fixpoint rev_ok (ts : list tree) : Prop :=
  match ts with
  | [] => True
  | t :: ts' => perfect t /\ Forall (fun u => theight t < theight u) ts' /\ rev_ok ts'
  end.

Lemma rev_ok_snoc (ts : list tree) (t : tree) :
  rev_ok (ts ++ [t]) <-> rev_ok ts /\ perfect t /\ Forall (fun u => theight u < theight t) ts.
Proof.
  induction ts as [|u ts IH]; simpl; [by rewrite Forall_nil; intuition auto using Forall_nil_2|].
  rewrite IH, Forall_app, Forall_cons, (Forall_cons _ u ts), Forall_nil. tauto.
Qed.

Lemma Forall_rev_iff {A : Type} (P : A -> Prop) (l : list A) : Forall P l <-> Forall P (rev l).
Proof. split; [apply Forall_rev|]. intros Hr. rewrite <- (rev_involutive l). by apply Forall_rev. Qed.

Lemma forest_ok_rev (ts : list tree) : forest_ok ts <-> rev_ok (rev ts).
Proof.
  induction ts as [|t ts IH]; simpl; [done|]. rewrite rev_ok_snoc, IH.
  rewrite <- Forall_rev_iff. tauto.
Qed.

Lemma insert_rev_ok (ts : list tree) (t : tree) :
  rev_ok ts -> perfect t -> Forall (fun u => theight t <= theight u) ts -> rev_ok (insert_rev ts t).
Proof.
  revert t. induction ts as [|u ts IH]; intros t Hok Hp Hle; simpl; [by repeat constructor|].
  destruct Hok as (Hu & Hlt & Hok). inversion Hle as [|? ? Htu Hle']; subst.
  destruct (Nat.eqb_spec (theight u) (theight t)) as [E|Hne].
  - apply IH; [done|by split|]. eapply Forall_impl; [exact Hlt|]. simpl. lia.
  - simpl. split; [done|]. split; [|done]. constructor; [lia|].
    eapply Forall_impl; [exact Hlt|]. simpl. lia.
Qed.

Lemma forest_insert_ok (ts : list tree) (leaf : bytes) :
  length leaf = 32 -> forest_ok ts -> forest_ok (forest_insert ts leaf).
Proof.
  intros Hl Hok. unfold forest_insert. rewrite forest_ok_rev, rev_involutive.
  apply insert_rev_ok; [by apply forest_ok_rev|done|]. apply Forall_true. simpl. lia.
Qed.

Lemma forest_leaves_app (ts us : list tree) :
  forest_leaves (ts ++ us) = forest_leaves ts ++ forest_leaves us.
Proof. unfold forest_leaves. by rewrite map_app, concat_app. Qed.

Lemma insert_rev_leaves (ts : list tree) (t : tree) :
  forest_leaves (rev (insert_rev ts t)) = forest_leaves (rev ts) ++ leaves t.
Proof.
  revert t. induction ts as [|u ts IH]; intros t; simpl; [unfold forest_leaves; simpl; by rewrite app_nil_r|].
  case_match.
  - rewrite IH, forest_leaves_app. unfold forest_leaves. simpl. by rewrite app_nil_r, app_assoc.
  - simpl. rewrite forest_leaves_app. unfold forest_leaves at 2. simpl. by rewrite app_nil_r.
Qed.

Lemma forest_insert_leaves (ts : list tree) (leaf : bytes) :
  forest_leaves (forest_insert ts leaf) = forest_leaves ts ++ [leaf].
Proof. unfold forest_insert. by rewrite insert_rev_leaves, rev_involutive. Qed.

(** The loop of [append_hash] on stored trees is the abstract carry. *)
Lemma carry_enc (v : Z) (ts : list tree) (t : tree) :
  rev_ok ts -> perfect t -> carry v (map (enc v) ts) (enc v t) = Some (map (enc v) (insert_rev ts t)).
Proof.
  revert t. induction ts as [|u ts IH]; intros t Hok Hp; [done|].
  destruct Hok as (Hu & _ & Hok). cbn [map carry insert_rev]. cbn [height enc].
  destruct (Nat.eqb_spec (theight u) (theight t)) as [E|Hne]; [|done].
  rewrite merge_with_enc by done. simpl. by apply IH.
Qed.

Lemma append_hash_repr (v : Z) (ts : list tree) (leaf : bytes) :
  forest_ok ts -> length leaf = 32 ->
  append_hash (repr v ts) leaf = Some (repr v (forest_insert ts leaf)).
Proof.
  intros Hok Hl. unfold append_hash. cbn [mountains version repr].
  rewrite <- map_rev. change (mountain_leaf leaf) with (enc v (TLeaf leaf)).
  rewrite carry_enc by (done || by apply forest_ok_rev). simpl. f_equal. unfold repr. f_equal.
  - unfold forest_insert. by rewrite <- map_rev.
  - rewrite forest_insert_leaves, length_app. done.
Qed.

Lemma peaks_repr (v : Z) (ts : list tree) : forest_ok ts -> peaks (repr v ts) = Some (map (thash v) ts).
Proof.
  unfold peaks. cbn [mountains repr]. induction ts as [|t ts IH]; [done|].
  intros (Hp & _ & Hok). cbn [map mapM]. rewrite peak_enc, IH by done. done.
Qed.

Lemma peaks_length (v : Z) (ts : list tree) :
  forest_ok ts -> Forall (fun h => length h = 32) (map (thash v) ts).
Proof.
  induction ts as [|t ts IH]; simpl; [constructor|]. intros (Hp & _ & Hok).
  constructor; [by apply thash_length|auto].
Qed.

Lemma root_repr (v : Z) (ts : list tree) :
  forest_ok ts -> root (repr v ts) = Some (fold_peaks v (map (thash v) ts)).
Proof. intros Hok. unfold root. by rewrite peaks_repr by done. Qed.

Lemma leaves_length (t : tree) : perfect t -> length (leaves t) = 2 ^ theight t.
Proof.
  intros Hp. rewrite <- (level_zero 3) by done. rewrite level_length by (done || lia).
  by rewrite Nat.sub_0_r.
Qed.

(** Locating a leaf finds its tree and its position there. *)
Lemma locate_go_repr (v : Z) (ts : list tree) (k i : nat) (x : bytes) :
  forest_ok ts -> forest_leaves ts !! i = Some x ->
  exists j li t, locate_go (map (enc v) ts) k i = Some (k + j, li) /\
    ts !! j = Some t /\ perfect t /\ leaves t !! li = Some x.
Proof.
  revert k i. induction ts as [|t ts IH]; intros k i Hok Hx; [done|].
  destruct Hok as (Hp & _ & Hok). unfold forest_leaves in Hx. cbn [map concat] in Hx.
  cbn [map locate_go]. cbn [height enc]. rewrite <- (leaves_length t) by done.
  destruct (Nat.ltb_spec i (length (leaves t))) as [Hi|Hi].
  - exists 0, i, t. rewrite lookup_app_l in Hx by done. rewrite Nat.add_0_r. done.
  - rewrite lookup_app_r in Hx by done.
    destruct (IH (k + 1) _ Hok Hx) as (j & li & u & E & Hj & Hu & Hl).
    exists (S j), li, u. rewrite E. split; [do 2 f_equal; lia|done].
Qed.

(** The proof [prove] returns for a leaf verifies against the root and names the leaf. *)
Lemma prove_verify_repr (v : Z) (ts : list tree) (i : nat) (x : bytes) :
  forest_ok ts -> forest_leaves ts !! i = Some x -> length x = 32 ->
  exists p r, prove (repr v ts) i = Some (Ok p) /\ root (repr v ts) = Some r /\
    leaf_hash p = hex_encode x /\ leaf_index p = i /\ verify_proof p r = Some true.
Proof.
  intros Hok Hx Hlen. pose proof (lookup_lt_Some _ _ _ Hx) as Hi.
  destruct (locate_go_repr v ts 0 i x Hok Hx) as (j & li & t & El & Hj & Hp & Hli).
  destruct (auth_path_walk v t li x Hp Hli) as (path & Ea & Ew).
  unfold prove, locate_leaf. cbn [leaf_count mountains version repr].
  destruct (Nat.leb_spec (length (forest_leaves ts)) i); [lia|].
  rewrite El, Nat.add_0_l, list_lookup_fmap, Hj. cbn [fmap option_fmap option_map mbind option_bind].
  rewrite Ea. cbn [mbind option_bind]. rewrite (peaks_repr v ts Hok). cbn [mbind option_bind].
  eexists _, _. split; [done|]. split; [by apply root_repr|]. do 2 (split; [done|]).
  unfold verify_proof. cbn [leaf_hash proof_auth_path proof_version proof_peaks peak_index].
  rewrite decode_encode by done. cbn [mbind option_bind]. rewrite Ew. cbn [mbind option_bind].
  pose proof (lookup_lt_Some _ _ _ Hj) as Hlt. rewrite !length_map.
  destruct (Nat.leb_spec (length ts) j); [lia|].
  rewrite mapM_decode by by apply peaks_length. cbn [mbind option_bind].
  rewrite list_insert_id by (rewrite list_lookup_fmap, Hj; done).
  by rewrite bool_decide_eq_true_2.
Qed.

End Forest.

(** ** Binding up to collisions *)

Section Binding.
Context `{Sdk, !HashOk}.

Lemma node_hash_length (v : Z) (a b : bytes) : length (node_hash_for v a b) = 32.
Proof. unfold node_hash_for, parent_hash_v3, parent_hash. case_match; apply blake3_len. Qed.

Lemma node_hash_inj (v : Z) (a b c d : bytes) :
  length a = length c -> node_hash_for v a b = node_hash_for v c d -> (a = c /\ b = d) \/ collision blake3.
Proof.
  intros Hl E. unfold node_hash_for, parent_hash_v3, parent_hash in E.
  case_match; apply hash_eq_or_collision in E as [E|]; [|by right| |by right]; left.
  - apply app_inv_head in E. by apply app_inj_len.
  - by apply app_inj_len.
Qed.

Lemma decode_hash_length (s : string) (b : bytes) : decode_hash s = Some b -> length b = 32.
Proof. unfold decode_hash. intros E. apply bind_Some in E as (c & _ & E). by case_decide; simplify_eq. Qed.

Lemma mapM_decode_length (l : list string) (ls : list bytes) :
  mapM decode_hash l = Some ls -> Forall (fun h => length h = 32) ls.
Proof.
  revert ls. induction l as [|s l IH]; intros ls E; simpl in E.
  - injection E as <-. constructor.
  - apply bind_Some in E as (d & Ed & E). apply bind_Some in E as (ds & Eds & E).
    injection E as <-. constructor; [by eapply decode_hash_length|auto].
Qed.

Lemma walk_length (v : Z) (steps : list AuthStep) (x r : bytes) :
  length x = 32 -> walk v x steps = Some r -> length r = 32.
Proof.
  revert x. induction steps as [|st steps IH]; intros x Hx Hw; simpl in *; [by simplify_eq|].
  apply bind_Some in Hw as (s & _ & Hw). eapply IH; [|exact Hw]. case_match; apply node_hash_length.
Qed.

Lemma walk_binding (v : Z) (s1 s2 : list AuthStep) (x y r : bytes) :
  map is_left s1 = map is_left s2 -> length x = 32 -> length y = 32 ->
  walk v x s1 = Some r -> walk v y s2 = Some r -> x = y \/ collision blake3.
Proof.
  revert s2 x y. induction s1 as [|a s1 IH]; intros [|b s2] x y Hm Hx Hy W1 W2; simplify_eq/=; [by left|].
  apply bind_Some in W1 as (sa & Ea & W1). apply bind_Some in W2 as (sb & Eb & W2).
  apply decode_hash_length in Ea, Eb.
  match goal with E : is_left a = is_left b |- _ => rewrite E in W1 end.
  destruct (is_left b);
    (destruct (IH s2 _ _ ltac:(done) (node_hash_length _ _ _) (node_hash_length _ _ _) W1 W2)
       as [E|]; [|by right]; apply node_hash_inj in E as [[??]|]; [by left|by right|congruence]).
Qed.

Lemma foldl_binding (v : Z) (p q : bytes) (ps qs : list bytes) :
  length ps = length qs -> Forall (fun h => length h = 32) (p :: ps) ->
  Forall (fun h => length h = 32) (q :: qs) ->
  foldl (node_hash_for v) p ps = foldl (node_hash_for v) q qs ->
  p :: ps = q :: qs \/ collision blake3.
Proof.
  revert qs. induction ps as [|a ps IH] using rev_ind; intros qs Hl Hp Hq E.
  - destruct qs; [|done]. simpl in E. left. by rewrite E.
  - destruct qs as [|b qs _] using rev_ind; [rewrite length_app in Hl; simpl in Hl; lia|].
    rewrite !foldl_snoc in E. rewrite !length_app in Hl. simpl in Hl.
    rewrite app_comm_cons, Forall_app in Hp, Hq. destruct Hp as [Hp _], Hq as [Hq _].
    assert (forall r rs, Forall (fun h => length h = 32) (r :: rs) ->
              length (foldl (node_hash_for v) r rs) = 32) as Hfl.
    { intros r rs Hr. destruct rs as [|c rs _] using rev_ind; [by inversion Hr|].
      rewrite foldl_snoc. apply node_hash_length. }
    apply node_hash_inj in E as [[E ->]|]; [|by right|by rewrite !Hfl].
    destruct (IH qs ltac:(lia) Hp Hq E) as [E'|]; [|by right]. left. by simplify_eq.
Qed.

(** Two verified proofs that agree on positions agree on the leaf, or give a collision. *)
Lemma verify_binding (p q : MembershipProof) (r : bytes) :
  proof_version p = proof_version q -> peak_index p = peak_index q ->
  length (proof_peaks p) = length (proof_peaks q) ->
  map is_left (proof_auth_path p) = map is_left (proof_auth_path q) ->
  verify_proof p r = Some true -> verify_proof q r = Some true ->
  decode_hash (leaf_hash p) = decode_hash (leaf_hash q) \/ collision blake3.
Proof.
  intros Ev Ei El Em Vp Vq. unfold verify_proof in *.
  apply bind_Some in Vp as (x & Ex & Vp). apply bind_Some in Vp as (cp & Ecp & Vp).
  apply bind_Some in Vq as (y & Ey & Vq). apply bind_Some in Vq as (cq & Ecq & Vq).
  destruct (Nat.leb_spec (length (proof_peaks p)) (peak_index p)) as [|Hlt]; [done|].
  destruct (Nat.leb_spec (length (proof_peaks q)) (peak_index q)) as [|_]; [done|].
  apply bind_Some in Vp as (ps & Eps & Vp). apply bind_Some in Vq as (qs & Eqs & Vq).
  injection Vp as Vp. injection Vq as Vq.
  apply bool_decide_eq_true in Vp, Vq. rewrite Ex, Ey.
  pose proof (decode_hash_length _ _ Ex) as Hx. pose proof (decode_hash_length _ _ Ey) as Hy.
  pose proof (walk_length _ _ _ _ Hx Ecp) as Hcp. pose proof (walk_length _ _ _ _ Hy Ecq) as Hcq.
  pose proof (Forall_insert _ ps (peak_index p) cp (mapM_decode_length _ _ Eps) Hcp) as Fp.
  pose proof (Forall_insert _ qs (peak_index q) cq (mapM_decode_length _ _ Eqs) Hcq) as Fq.
  apply length_mapM in Eps, Eqs.
  assert (<[peak_index p := cp]> ps = <[peak_index q := cq]> qs \/ collision blake3) as [E|]; [| |by right].
  { assert (fold_peaks (proof_version q) (<[peak_index p := cp]> ps)
            = fold_peaks (proof_version q) (<[peak_index q := cq]> qs)) as V by congruence.
    clear Vp Vq.
    pose proof (length_insert ps (peak_index p) cp). pose proof (length_insert qs (peak_index q) cq).
    destruct (<[peak_index p := cp]> ps), (<[peak_index q := cq]> qs); simplify_eq/=; try lia.
    apply foldl_binding with (v := proof_version q); [lia|done..]. }
  assert (cp = cq) as ->.
  { apply (f_equal (fun l : list bytes => l !! peak_index q)) in E. rewrite Ei in E.
    rewrite !list_lookup_insert_eq in E by lia. by injection E. }
  rewrite Ev in Ecp. destruct (walk_binding _ _ _ _ _ _ Em Hx Hy Ecp Ecq) as [->|]; [by left|by right].
Qed.

End Binding.

(** ** Merkle mountain range: properties *)

#[local] Open Scope nat_scope.

(** The state of a version with no leaves; version 3 is [mmr_new]. *)
Definition empty_state (v : Z) : MmrState := {| version := v; mountains := []; leaf_count := 0 |}.

Definition len32 (h : bytes) : Prop := length h = 32.

Section Runs.
Context `{Sdk}.

Fixpoint append_all (s : MmrState) (ls : list bytes) : option MmrState :=
  match ls with [] => Some s | l :: ls' => s' ← append_hash s l; append_all s' ls' end.

Lemma append_all_repr `{!HexOk, !HashOk} (v : Z) (ts : list tree) (ls : list bytes) :
  forest_ok ts -> Forall len32 ls ->
  exists us, append_all (repr v ts) ls = Some (repr v us) /\ forest_ok us /\
    forest_leaves us = forest_leaves ts ++ ls.
Proof.
  intros Hok Hls. revert ts Hok. induction Hls as [|l ls Hl _ IH]; intros ts Hok; simpl.
  - exists ts. by rewrite app_nil_r.
  - rewrite append_hash_repr by done. simpl.
    destruct (IH (forest_insert ts l)) as (us & E & Hus & Eu); [by apply forest_insert_ok|].
    exists us. rewrite E, Eu, forest_insert_leaves, <- app_assoc. done.
Qed.

Lemma auth_path_length (m : Mountain) (i : nat) (x : bytes) (path : list (bytes * bool)) :
  auth_path m i = Some (x, path) -> length path = height m.
Proof.
  unfold auth_path. intros E. apply bind_Some in E as (? & _ & E).
  apply bind_Some in E as (q & Eq & E). injection E as _ <-.
  rewrite <- (length_seq (height m) 0). generalize (seq 0 (height m)) as ls, i as j, Eq. clear.
  revert q. intros q ls. revert q. induction ls as [|l ls IH]; intros q j E; simpl in E; [by simplify_eq|].
  apply bind_Some in E as (? & _ & E). apply bind_Some in E as (r & Er & E). simplify_eq. simpl.
  f_equal. by eapply IH.
Qed.
End Runs.

Lemma leaves_length_le (ts : list tree) (t : tree) :
  t ∈ ts -> length (leaves t) <= length (forest_leaves ts).
Proof.
  intros Ht. apply list_elem_of_split in Ht as (l & k & ->). unfold forest_leaves.
  rewrite map_app, concat_app, length_app. simpl. rewrite length_app. lia.
Qed.

(** C7: appending any sequence of 32-byte hashes to an empty range of any
    format version never panics, and the stored state is exactly the layout of
    a forest of perfect trees of strictly decreasing heights whose leaves are
    the appended hashes in order. *)
Theorem mmr_append_refines `{Sdk, !HexOk, !HashOk} (v : Z) (ls : list bytes) (Hls : Forall len32 ls) :
  exists ts, append_all (empty_state v) ls = Some (repr v ts) /\ forest_ok ts /\
    forest_leaves ts = ls.
Proof. by destruct (append_all_repr v [] ls I Hls) as (ts & ?); exists ts. Qed.

Definition sample (n : nat) : bytes := replicate 32 (byte_of (Z.of_nat n)).

Lemma mmr_append_refines_witness :
  Forall len32 (map sample [1; 2; 3]) /\
  exists ts, append_all (H := Toy.sdk) (empty_state 3) (map sample [1; 2; 3])
             = Some (repr (H := Toy.sdk) 3 ts)
    /\ forest_ok ts /\ forest_leaves ts = map sample [1; 2; 3].
Proof.
  assert (Forall len32 (map sample [1; 2; 3])) as F by (repeat constructor).
  split; [exact F|]. exact (mmr_append_refines (H := Toy.sdk) 3 (map sample [1; 2; 3]) F).
Defined.

(** completeness of membership proofs: after any appends, every appended
    leaf has a proof, [prove] does not panic, the proof names the leaf appended
    at that index, its path has at most log2 of the leaf count steps and
    [verify_proof] accepts it against the current root. *)
Theorem mmr_prove_verify `{Sdk, !HexOk, !HashOk} (v : Z) (ls : list bytes) (i : nat) (x : bytes)
    (Hls : Forall len32 ls) (Hi : ls !! i = Some x) :
  exists s p r, append_all (empty_state v) ls = Some s /\ root s = Some r /\
    prove s i = Some (Ok p) /\ leaf_hash p = hex_encode x /\
    length (proof_auth_path p) <= Nat.log2 (leaf_count s) /\ verify_proof p r = Some true.
Proof.
  destruct (append_all_repr v [] ls I Hls) as (ts & E & Hok & El). simpl in El. subst ls.
  assert (len32 x) as Hx by (rewrite Forall_lookup in Hls; by eapply Hls).
  destruct (prove_verify_repr v ts i x Hok Hi Hx) as (p & r & Ep & Er & Hl & _ & Hv).
  exists (repr v ts), p, r. do 4 (split; [done|]). split; [|done].
  clear E Hv Hl. unfold prove in Ep.
  destruct (locate_leaf _ _) as [[mi li]|]; [|done]. cbn [mountains repr] in Ep.
  apply bind_Some in Ep as (m & Em & Ep). apply bind_Some in Ep as ([lf path] & Ea & Ep).
  apply bind_Some in Ep as (ps & _ & Ep). simplify_eq. cbn [proof_auth_path leaf_count repr].
  rewrite length_map, (auth_path_length _ _ _ _ Ea).
  apply list_lookup_fmap_Some in Em as (t & -> & Ht). cbn [height enc].
  assert (perfect t) as Hp.
  { clear -Hok Ht. revert mi Ht. induction ts as [|u ts IH]; intros [|mi] Ht; simplify_eq/=;
      destruct Hok as (?&?&?); eauto. }
  apply Nat.log2_le_pow2.
  - apply lookup_lt_Some in Hi. lia.
  - rewrite <- leaves_length by done. apply leaves_length_le. by eapply list_elem_of_lookup_2.
Qed.

Lemma mmr_prove_verify_witness :
  exists s p r, append_all (H := Toy.sdk) (empty_state 3) (map sample [1; 2; 3]) = Some s /\
    root (H := Toy.sdk) s = Some r /\
    prove (H := Toy.sdk) s 1 = Some (Ok p) /\ leaf_hash p = hex_encode (Sdk := Toy.sdk) (sample 2) /\
    length (proof_auth_path p) <= Nat.log2 (leaf_count s) /\
    verify_proof (H := Toy.sdk) p r = Some true.
Proof.
  apply (mmr_prove_verify (H := Toy.sdk) 3 (map sample [1; 2; 3]) 1 (sample 2)); [repeat constructor|reflexivity].
Defined.

(** binding: two proofs of the same version that claim the same peak among
    the same number of peaks and turn the same way at every step, and that both
    verify against one root, carry the same leaf hash, or the hash function has
    a collision. *)
Theorem mmr_root_binds_leaf `{Sdk, !HashOk} (p q : MembershipProof) (r : bytes)
    (Hver : proof_version p = proof_version q) (Hpk : peak_index p = peak_index q)
    (Hn : length (proof_peaks p) = length (proof_peaks q))
    (Hdir : map is_left (proof_auth_path p) = map is_left (proof_auth_path q))
    (Vp : verify_proof p r = Some true) (Vq : verify_proof q r = Some true) :
  decode_hash (leaf_hash p) = decode_hash (leaf_hash q) \/ collision blake3.
Proof. by apply (verify_binding p q r). Qed.

Definition sample_proof : MembershipProof :=
  {| leaf_index := 0; proof_leaf_count := 1; leaf_hash := hex_encode (Sdk := Toy.sdk) (sample 7);
     proof_auth_path := []; peak_index := 0; proof_peaks := [hex_encode (Sdk := Toy.sdk) (sample 7)];
     proof_version := 3 |}.

Lemma mmr_root_binds_leaf_witness :
  decode_hash (H := Toy.sdk) (leaf_hash sample_proof) = decode_hash (H := Toy.sdk) (leaf_hash sample_proof)
  \/ collision (blake3 (Sdk := Toy.sdk)).
Proof.
  apply (mmr_root_binds_leaf (H := Toy.sdk) sample_proof sample_proof (sample 7));
    try reflexivity; by vm_compute.
Defined.

(** An index at or past the leaf count is refused with an error by
    [prove], on every state, before any node is read. *)
Theorem mmr_prove_out_of_range `{Sdk} (s : MmrState) (i : nat) (Hi : leaf_count s <= i) :
  exists e, prove s i = Some (Err e).
Proof.
  unfold prove, locate_leaf. destruct (Nat.leb_spec (leaf_count s) i); [|lia]. eauto.
Qed.

Lemma mmr_prove_out_of_range_witness :
  exists e, prove (H := Toy.sdk) mmr_new 0 = Some (Err e).
Proof. apply (mmr_prove_out_of_range (H := Toy.sdk) mmr_new 0). cbn. lia. Defined.

(** the [verify] command and [verify_proof] decide the same proofs: the
    command succeeds exactly when the root it is given decodes to 32 bytes that
    [verify_proof] accepts. *)
Theorem cmd_verify_agrees `{Sdk} (p : MembershipProof) (root_hex : string) :
  cmd_verify p root_hex = Some (Ok tt) <->
  exists r, hex_decode (trim root_hex) = Ok r /\ length r = 32 /\ verify_proof p r = Some true.
Proof.
  unfold cmd_verify, verify_proof. destruct (hex_decode (trim root_hex)) as [r|e].
  2: by split; [|intros (? & ? & _)].
  split.
  - destruct (Nat.eqb_spec (length r) 32); [|done]. cbn [negb]. intros E. exists r.
    do 2 (split; [done|]). apply bind_Some in E as (x & -> & E). cbn [mbind option_bind].
    apply bind_Some in E as (c & -> & E). cbn [mbind option_bind]. case_match; [done|].
    apply bind_Some in E as (ps & -> & E). cbn [mbind option_bind].
    case_bool_decide; [done|]. discriminate.
  - intros (r' & [= <-] & Hr & V). rewrite Hr. cbn [Nat.eqb negb].
    apply bind_Some in V as (x & -> & V). cbn [mbind option_bind].
    apply bind_Some in V as (c & -> & V). cbn [mbind option_bind]. case_match; [done|].
    apply bind_Some in V as (ps & -> & V). cbn [mbind option_bind]. injection V as ->. done.
Qed.

(** the node tag does not separate nodes from leaves: leaves hash bare
    data, so in a version 3 range of any two leaves the data
    [NODE_DOMAIN ++ h0 ++ h1], never appended, has a membership proof that
    verifies against the root. *)
Theorem mmr_leaf_node_confusion `{Sdk, !HexOk, !HashOk} (d0 d1 : bytes) :
  exists s r p, append_all mmr_new [leaf_of_data d0; leaf_of_data d1] = Some s /\ root s = Some r /\
    leaf_hash p = hex_encode (leaf_of_data (NODE_DOMAIN ++ leaf_of_data d0 ++ leaf_of_data d1)) /\
    verify_proof p r = Some true.
Proof.
  set (h0 := leaf_of_data d0). set (h1 := leaf_of_data d1).
  assert (len32 h0 /\ len32 h1) as [H0' H1'] by (split; apply blake3_len).
  set (ts := [TNode (TLeaf h0) (TLeaf h1)]).
  assert (forest_ok ts) as Hok by by repeat constructor.
  set (x := leaf_of_data (NODE_DOMAIN ++ h0 ++ h1)).
  exists (repr 3 ts), x,
    {| leaf_index := 0; proof_leaf_count := 2; leaf_hash := hex_encode x; proof_auth_path := [];
       peak_index := 0; proof_peaks := [hex_encode x]; proof_version := 3 |}.
  assert (len32 x) as Hx by apply blake3_len. split; [|split; [by rewrite root_repr|split; [done|]]].
  - change mmr_new with (repr 3 []). cbn [append_all]. rewrite append_hash_repr by done.
    cbn [mbind option_bind]. rewrite append_hash_repr by (done || by apply forest_insert_ok). done.
  - unfold verify_proof. cbn. rewrite decode_encode by done. cbn. by rewrite bool_decide_eq_true_2.
Qed.

Lemma mmr_leaf_node_confusion_witness :
  exists s r p,
    append_all (H := Toy.sdk) mmr_new
      [leaf_of_data (H := Toy.sdk) (chars "a"); leaf_of_data (H := Toy.sdk) (chars "b")] = Some s /\
    root (H := Toy.sdk) s = Some r /\
    leaf_hash p = hex_encode (Sdk := Toy.sdk) (leaf_of_data (H := Toy.sdk)
      (NODE_DOMAIN ++ leaf_of_data (H := Toy.sdk) (chars "a") ++ leaf_of_data (H := Toy.sdk) (chars "b"))) /\
    verify_proof (H := Toy.sdk) p r = Some true.
Proof. exact (mmr_leaf_node_confusion (H := Toy.sdk) (chars "a") (chars "b")). Defined.
