(* ===== verification/Store.v ===== *)
(** * The payment store (origin-payments/src/store.rs)

    Every collection of the store is an append-only JSONL file; [Jsonl.v]
    shows that such a file behaves as the list of its records, and here each
    file is that list.  The code reads clocks, draws random numbers and ids
    and can fail at every file access: those are oracles of the environment,
    read at a counter that advances with every use, so that no two
    reads are assumed equal and any schedule of I/O faults is covered. *)

From Stdlib Require Import Ascii String.
From S2P Require Import Prelude RustStr Bytes Sdk PayError Amount Event Mmr.

(** ** Records of the store *)

Inductive Account := Debit | Credit.
#[global] Instance Account_eq_dec : EqDecision Account.
Proof. solve_decision. Defined.

Record LedgerPosting := {
  posting_id : string;
  batch_id : string;
  posting_order_id : string;
  account : Account;
  posting_amount : string;
  posting_currency : string;
  ts : string;
  prev_hash : bytes;
  posting_signature : option bytes;
  posting_signer : option OrderSigner;
  posting_fx_rate : option FxRate
}.

Record RetryPolicy := { base_ms : Z; factor : Z; cap_ms : Z; max_attempts : Z }.

Definition retry_policy_default : RetryPolicy :=
  {| base_ms := 1000; factor := 2; cap_ms := 300000; max_attempts := 5 |}.

Inductive SettlementPreference := Hold | OffRamp | SplitPref.

Record PaymentsConfig := {
  config_version : Z;
  config_currency : string;
  enabled_rails : list string;
  retry : RetryPolicy;
  per_tx_cap : option string;
  executing_ttl_secs : Z;
  deferred_settlement_enabled : bool;
  settlement_preference : SettlementPreference;
  split_pct : Z
}.

Definition config_default : PaymentsConfig :=
  {| config_version := 1; config_currency := "USD"; enabled_rails := ["native"];
     retry := retry_policy_default; per_tx_cap := None; executing_ttl_secs := 300;
     deferred_settlement_enabled := false; settlement_preference := Hold; split_pct := 50 |}.

Record RetryJob := {
  job_order_id : string; job_attempt : Z; job_next_retry_at : string; backoff_ms : Z;
  last_error : string
}.

Record DlqRecord := {
  dlq_order_id : string; dlq_reason : string; dlq_evidence : json; dlq_created_at : string
}.

Record Notification := {
  notification_id : string; note_order_id : string; note_event : string; note_created_at : string
}.

Record ReceiptHash := { receipt_order_id : string; receipt_hash : string; recorded_at : string }.

Record DeferredItem := {
  item_order_id : string; item_amount : string; item_currency : string;
  signed_payload : bytes; resource_url : string
}.

Record DeferredBatch := {
  deferred_id : string; deferred_date : string; deferred_created_at : string;
  items : list DeferredItem; content_hash : bytes; total_minor : Z
}.

Record AuditRecord := {
  audit_prev_hash : bytes; seq_no : Z; entry_type : Z; payload_hash : bytes;
  audit_payload : json; timestamp : Z; audit_signature : option bytes
}.

Record SettlementRow := { row_order_id : string; row_amount : string }.

Record SettlementFile := {
  file_rail : string; file_date : string; file_currency : string;
  rows : list SettlementRow; file_content_hash : string
}.

Inductive ReconcileStatus := Clean | Mismatches | RunFailed.
Inductive MismatchClass := Match | Adjustable | Unclassifiable.

Record ReconcileMismatch := {
  mismatch_run_id : string; mismatch_order_id : string;
  psp_amount : option string; journal_amount : option string;
  class : MismatchClass; evidence : list string
}.

Record ReconcileRun := {
  run_id : string; run_date : string; psp_files : list SettlementFile; journal_root : bytes;
  matches : Z; mismatches : list ReconcileMismatch; mmr_checkpoint : bytes;
  run_status : ReconcileStatus; run_created_at : string
}.

Inductive InsertOutcome := Inserted | Replay (existing : PaymentOrder).

(** One collection per file; settlement files by file name, runs and deferred
    batches by id. *)
Record PaymentStore := {
  st_config : option PaymentsConfig;
  st_events : list PaymentEvent;
  st_orders : list PaymentOrder;
  st_journal : list LedgerPosting;
  st_retry : list RetryJob;
  st_dlq : list DlqRecord;
  st_notifications : list Notification;
  st_deferred : list DeferredItem;
  st_audit : list AuditRecord;
  st_receipts : list ReceiptHash;
  st_mmr : option MmrState;
  st_settlement : gmap string SettlementFile;
  st_runs : gmap string ReconcileRun;
  st_batches : gmap string DeferredBatch
}.

Definition empty_store : PaymentStore :=
  {| st_config := None; st_events := []; st_orders := []; st_journal := []; st_retry := [];
     st_dlq := []; st_notifications := []; st_deferred := []; st_audit := []; st_receipts := [];
     st_mmr := None; st_settlement := ∅; st_runs := ∅; st_batches := ∅ |}.

(** ** Writes, one per file *)

Definition put_config (s : PaymentStore) (c : PaymentsConfig) : PaymentStore :=
  match s with Build_PaymentStore _ ev os js rs ds ns df au rc mm se ru ba =>
    Build_PaymentStore (Some c) ev os js rs ds ns df au rc mm se ru ba end.
Definition push_event (s : PaymentStore) (x : PaymentEvent) : PaymentStore :=
  match s with Build_PaymentStore c ev os js rs ds ns df au rc mm se ru ba =>
    Build_PaymentStore c (ev ++ [x]) os js rs ds ns df au rc mm se ru ba end.
Definition push_order (s : PaymentStore) (x : PaymentOrder) : PaymentStore :=
  match s with Build_PaymentStore c ev os js rs ds ns df au rc mm se ru ba =>
    Build_PaymentStore c ev (os ++ [x]) js rs ds ns df au rc mm se ru ba end.
Definition push_posting (s : PaymentStore) (x : LedgerPosting) : PaymentStore :=
  match s with Build_PaymentStore c ev os js rs ds ns df au rc mm se ru ba =>
    Build_PaymentStore c ev os (js ++ [x]) rs ds ns df au rc mm se ru ba end.
Definition push_retry (s : PaymentStore) (x : RetryJob) : PaymentStore :=
  match s with Build_PaymentStore c ev os js rs ds ns df au rc mm se ru ba =>
    Build_PaymentStore c ev os js (rs ++ [x]) ds ns df au rc mm se ru ba end.
Definition push_dlq (s : PaymentStore) (x : DlqRecord) : PaymentStore :=
  match s with Build_PaymentStore c ev os js rs ds ns df au rc mm se ru ba =>
    Build_PaymentStore c ev os js rs (ds ++ [x]) ns df au rc mm se ru ba end.
Definition push_notification (s : PaymentStore) (x : Notification) : PaymentStore :=
  match s with Build_PaymentStore c ev os js rs ds ns df au rc mm se ru ba =>
    Build_PaymentStore c ev os js rs ds (ns ++ [x]) df au rc mm se ru ba end.
Definition put_deferred (s : PaymentStore) (l : list DeferredItem) : PaymentStore :=
  match s with Build_PaymentStore c ev os js rs ds ns df au rc mm se ru ba =>
    Build_PaymentStore c ev os js rs ds ns l au rc mm se ru ba end.
Definition push_audit (s : PaymentStore) (x : AuditRecord) : PaymentStore :=
  match s with Build_PaymentStore c ev os js rs ds ns df au rc mm se ru ba =>
    Build_PaymentStore c ev os js rs ds ns df (au ++ [x]) rc mm se ru ba end.
Definition push_receipt (s : PaymentStore) (x : ReceiptHash) : PaymentStore :=
  match s with Build_PaymentStore c ev os js rs ds ns df au rc mm se ru ba =>
    Build_PaymentStore c ev os js rs ds ns df au (rc ++ [x]) mm se ru ba end.
Definition put_mmr (s : PaymentStore) (m : MmrState) : PaymentStore :=
  match s with Build_PaymentStore c ev os js rs ds ns df au rc _ se ru ba =>
    Build_PaymentStore c ev os js rs ds ns df au rc (Some m) se ru ba end.
Definition put_settlement (s : PaymentStore) (name : string) (f : SettlementFile) : PaymentStore :=
  match s with Build_PaymentStore c ev os js rs ds ns df au rc mm se ru ba =>
    Build_PaymentStore c ev os js rs ds ns df au rc mm (<[name := f]> se) ru ba end.
Definition put_run (s : PaymentStore) (r : ReconcileRun) : PaymentStore :=
  match s with Build_PaymentStore c ev os js rs ds ns df au rc mm se ru ba =>
    Build_PaymentStore c ev os js rs ds ns df au rc mm se (<[run_id r := r]> ru) ba end.
Definition put_batch (s : PaymentStore) (b : DeferredBatch) : PaymentStore :=
  match s with Build_PaymentStore c ev os js rs ds ns df au rc mm se ru ba =>
    Build_PaymentStore c ev os js rs ds ns df au rc mm se ru (<[deferred_id b := b]> ba) end.

(** ** Environment and effects *)

(** A request that leaves the process: a payment handed to the native rail, or
    the bytes of an HTTP request to an address. *)
Inductive RailCall :=
| CallNative (to : string) (amount : Z) (memo : bytes) (spend_cap : option Z)
| CallHttp (addr : string) (request : bytes).

Class Env := {
  (** Fresh UUIDs, the clock in Unix nanoseconds, eight random bytes, and the
      fault of an I/O call if it has one, each at a tick. *)
  env_uuid : nat -> string;
  env_clock : nat -> Z;
  env_random : nat -> bytes;
  env_io : nat -> option string;
  (** chrono: RFC 3339 formatting and parsing, and the calendar day. *)
  rfc3339 : Z -> string;
  parse_rfc3339 : string -> option Z;
  day : Z -> string;
  (** The order in which a [HashMap] yields its values. *)
  hash_order : nat -> list PaymentOrder -> list PaymentOrder;
  (** The order in which [read_dir] yields the files of the runs directory. *)
  dir_order : nat -> list ReconcileRun -> list ReconcileRun;
  (** Display of the payments root. *)
  root_path : string;
  (** origin-wallet's [Wallet]. *)
  Wallet : Type
}.

(** A [HashMap] yields each value once, and so does a directory its files. *)
Class EnvOk `{Env} : Prop := {
  hash_perm : forall n l, hash_order n l ≡ₚ l;
  dir_perm : forall n l, dir_order n l ≡ₚ l
}.

(** Calls without a fault. *)
Definition no_faults `{Env} : Prop := forall n, env_io n = None.

Inductive exn := Fail (e : Error) | Panic (msg : string).

Section Monad.
Context `{Env}.

(** What a program leaves behind: the files of the store, the wallet file and
    the requests that have been sent. *)
Record State := { w_store : PaymentStore; w_wallet : Wallet; w_sent : list RailCall }.

Definition M (A : Type) : Type := State -> nat -> result exn A * (State * nat).

#[global] Instance M_ret : MRet M := fun A a σ t => (Ok a, (σ, t)).
#[global] Instance M_bind : MBind M :=
  fun A B f m σ t => match m σ t with
                     | (Ok a, (σ', t')) => f a σ' t'
                     | (Err e, w) => (Err e, w)
                     end.

Definition throw {A : Type} (e : Error) : M A := fun σ t => (Err (Fail e), (σ, t)).
Definition panic {A : Type} (msg : string) : M A := fun σ t => (Err (Panic msg), (σ, t)).
Definition lift {A : Type} (r : result Error A) : M A :=
  match r with Ok a => mret a | Err e => throw e end.

(** The error of a computation as a value; a panic is not caught. *)
Definition attempt {A : Type} (m : M A) : M (result Error A) := fun σ t =>
  match m σ t with
  | (Ok a, w) => (Ok (Ok a), w)
  | (Err (Fail e), w) => (Ok (Err e), w)
  | (Err (Panic p), w) => (Err (Panic p), w)
  end.

Definition tick : M nat := fun σ t => (Ok t, (σ, S t)).
Definition get_state : M State := fun σ t => (Ok σ, (σ, t)).
Definition modify (f : State -> State) : M unit := fun σ t => (Ok tt, (f σ, t)).

Definition on_store (f : PaymentStore -> PaymentStore) (σ : State) : State :=
  {| w_store := f (w_store σ); w_wallet := w_wallet σ; w_sent := w_sent σ |}.
Definition with_wallet (x : Wallet) (σ : State) : State :=
  {| w_store := w_store σ; w_wallet := x; w_sent := w_sent σ |}.
Definition sending (c : RailCall) (σ : State) : State :=
  {| w_store := w_store σ; w_wallet := w_wallet σ; w_sent := w_sent σ ++ [c] |}.

Definition get_store : M PaymentStore := σ ← get_state; mret (w_store σ).
Definition update (f : PaymentStore -> PaymentStore) : M unit := modify (on_store f).
Definition send (c : RailCall) : M unit := modify (sending c).

Definition now_nanos : M Z := t ← tick; mret (env_clock t).
Definition now_rfc3339 : M string := n ← now_nanos; mret (rfc3339 n).
Definition new_uuid : M string := t ← tick; mret (env_uuid t).

(** A file access: fails with an [IoError] when the environment says so. *)
Definition io (what : string) : M unit :=
  t ← tick;
  match env_io t with
  | Some e => throw (IoError (what +:+ ": " +:+ e))
  | None => mret tt
  end.

(** [Wallet::open] and [Wallet::save] on the wallet file. *)
Definition wallet_open (p : string) : M Wallet :=
  t ← tick;
  match env_io t with
  | Some e => throw (WalletError ("opening " +:+ p +:+ ": " +:+ e))
  | None => σ ← get_state; mret (w_wallet σ)
  end.
Definition wallet_save (x : Wallet) : M unit :=
  t ← tick;
  match env_io t with
  | Some e => throw (WalletError ("saving wallet after pass: " +:+ e))
  | None => modify (with_wallet x)
  end.

(** [for x in l { f(x)? }]. *)
Fixpoint for_each {A : Type} (l : list A) (f : A -> M unit) : M unit :=
  match l with [] => mret tt | x :: l' => _ ← f x; for_each l' f end.

(** Folding a loop's state. *)
Fixpoint fold_M {A B : Type} (f : B -> A -> M B) (b : B) (l : list A) : M B :=
  match l with [] => mret b | x :: l' => b' ← f b x; fold_M f b' l' end.

Definition path (name : string) : string := root_path +:+ "/" +:+ name.

(** [append_jsonl]: open for append, write the line, flush. *)
Definition append_jsonl (name : string) (f : PaymentStore -> PaymentStore) : M unit :=
  _ ← io ("opening " +:+ path name);
  _ ← io ("appending to " +:+ path name);
  update f.

(** [read_jsonl]: a missing file is an empty log. *)
Definition read_jsonl {A : Type} (name : string) (f : PaymentStore -> list A) : M (list A) :=
  s ← get_store;
  match f s with
  | [] => mret []
  | l => _ ← io ("reading " +:+ path name); mret l
  end.
End Monad.

(** ** A concrete environment

    Ids and readings numbered by the tick, no faults unless [bad] is the tick
    of one, and a wallet that is its balance.  Instants print with a fixed
    number of digits, so that the order of strings is the order of instants. *)
Module ToyEnv.
Definition epoch : Z := 1000000000000000000.
Definition env (bad : option nat) : Env := {|
  env_uuid n := "id-" +:+ show_Z (Z.of_nat n);
  env_clock n := Z.of_nat n * 1000000000;
  env_random _ := replicate 8 (byte_of 0);
  env_io n := if bool_decide (bad = Some n) then Some "disk full" else None;
  rfc3339 n := show_Z (epoch + n);
  parse_rfc3339 s := option_map (fun n => n - epoch) (parse_u64 (chars s));
  day _ := "2026-01-01";
  hash_order _ l := l;
  dir_order _ l := l;
  root_path := "/payments";
  Wallet := Z
|}.

#[global] Instance env_ok (bad : option nat) : @EnvOk (env bad).
Proof. by constructor. Qed.

Lemma quiet : @no_faults (env None).
Proof. done. Qed.

Definition start : @State (env None) :=
  @Build_State (env None) empty_store 1000 [].
End ToyEnv.

(** ** Postings: canonical bytes and chain hash (journal.rs) *)

Definition GENESIS_HASH : bytes := ZERO_HASH.

Section Postings.
Context `{Sdk}.

Definition account_to_string (a : Account) : string :=
  match a with Debit => "debit" | Credit => "credit" end.

Definition fx_json (f : FxRate) : json :=
  JObj [("from", JStr (fx_from f)); ("markup_bps", JNum (markup_bps f));
        ("rate", JStr (fx_rate f)); ("to", JStr (fx_to f))].

Definition posting_json (p : LedgerPosting) : json :=
  JArr [JStr (posting_id p); JStr (batch_id p); JStr (posting_order_id p);
        JStr (account_to_string (account p)); JStr (posting_amount p); JStr (posting_currency p);
        JStr (ts p); json_bytes (prev_hash p); json_opt fx_json (posting_fx_rate p)].

Definition posting_canonical (p : LedgerPosting) : bytes := default [] (json_to_vec (posting_json p)).

Definition posting_hash (p : LedgerPosting) : bytes := sha3_256 (posting_canonical p).

(** The chain head of a journal: the hash of its last posting. *)
Definition head_of (js : list LedgerPosting) : bytes :=
  match last js with Some p => posting_hash p | None => GENESIS_HASH end.
End Postings.

(** ** Operations of the store *)

Section Store.
Context `{Sdk, Env}.

Definition append_event (e : PaymentEvent) : M unit :=
  append_jsonl "payment_events.jsonl" (fun s => push_event s e).
Definition events : M (list PaymentEvent) := read_jsonl "payment_events.jsonl" st_events.
Definition update_event (e : PaymentEvent) : M unit := append_event e.

Definition latest_event (id : string) : M PaymentEvent :=
  es ← events;
  match List.find (fun e => bool_decide (event_id e = id)) (rev es) with
  | Some e => mret e
  | None => throw (EventNotFound id)
  end.

Definition append_order (o : PaymentOrder) : M unit :=
  append_jsonl "payment_orders.jsonl" (fun s => push_order s o).
Definition update_order (o : PaymentOrder) : M unit := append_order o.
Definition orders : M (list PaymentOrder) := read_jsonl "payment_orders.jsonl" st_orders.

Definition has_id (id : string) (o : PaymentOrder) : bool := bool_decide (payment_order_id o = id).

Definition insert_order (o : PaymentOrder) : M InsertOutcome :=
  os ← orders;
  match List.find (has_id (payment_order_id o)) os with
  | Some existing => mret (Replay existing)
  | None => _ ← append_order o; mret Inserted
  end.

(** The latest snapshot in a log. *)
Definition latest_in (os : list PaymentOrder) (id : string) : option PaymentOrder :=
  List.find (has_id id) (rev os).

Definition get_order (id : string) : M PaymentOrder :=
  os ← orders;
  match latest_in os id with
  | Some o => mret o
  | None => throw (OrderNotFound id)
  end.

(** The [HashMap] of [latest_orders], filled in log order. *)
Definition latest_map (os : list PaymentOrder) : gmap string PaymentOrder :=
  foldl (fun m o => <[payment_order_id o := o]> m) ∅ os.

(** [order.transition(st)?], with the clock it reads. *)
Definition transition_now (o : PaymentOrder) (st : OrderStatus) : M PaymentOrder :=
  now ← now_rfc3339; lift (transition o st now).

Definition latest_orders : M (list PaymentOrder) :=
  os ← orders;
  t ← tick;
  mret (hash_order t (map snd (map_to_list (latest_map os)))).

Definition orders_with_status (st : OrderStatus) : M (list PaymentOrder) :=
  os ← latest_orders;
  mret (List.filter (fun o => bool_decide (status o = st)) os).

Definition append_posting (p : LedgerPosting) : M unit :=
  append_jsonl "journal.jsonl" (fun s => push_posting s p).
Definition postings : M (list LedgerPosting) := read_jsonl "journal.jsonl" st_journal.
Definition journal_head : M bytes := js ← postings; mret (head_of js).

Definition append_retry_job (j : RetryJob) : M unit :=
  append_jsonl "retry_queue.jsonl" (fun s => push_retry s j).
Definition retry_jobs : M (list RetryJob) := read_jsonl "retry_queue.jsonl" st_retry.

Definition append_dlq (d : DlqRecord) : M unit :=
  append_jsonl "dlq.jsonl" (fun s => push_dlq s d).
Definition dlq_records : M (list DlqRecord) := read_jsonl "dlq.jsonl" st_dlq.
Definition dlq_record (id : string) : M DlqRecord :=
  ds ← dlq_records;
  match List.find (fun d => bool_decide (dlq_order_id d = id)) (rev ds) with
  | Some d => mret d
  | None => throw (OrderNotFound id)
  end.

Definition append_notification (n : Notification) : M unit :=
  append_jsonl "notifications.jsonl" (fun s => push_notification s n).
Definition notifications : M (list Notification) := read_jsonl "notifications.jsonl" st_notifications.

Definition append_deferred_commitment (i : DeferredItem) : M unit :=
  append_jsonl "deferred_commitments.jsonl" (fun s => put_deferred s (st_deferred s ++ [i])).
Definition deferred_commitments : M (list DeferredItem) :=
  read_jsonl "deferred_commitments.jsonl" st_deferred.
Definition clear_deferred_commitments : M unit :=
  s ← get_store;
  match st_deferred s with
  | [] => mret tt
  | _ => _ ← io ("clearing " +:+ path "deferred_commitments.jsonl");
         update (fun s => put_deferred s [])
  end.

Definition append_audit_record (r : AuditRecord) : M unit :=
  append_jsonl "audit.jsonl" (fun s => push_audit s r).
Definition audit_records : M (list AuditRecord) := read_jsonl "audit.jsonl" st_audit.

(** Receipt dedupe: hashes are compared in hex. *)
Definition record_receipt_hash (order_id : string) (h : bytes) : M unit :=
  now ← now_rfc3339;
  append_jsonl "receipt_dedupe.jsonl" (fun s =>
    push_receipt s {| receipt_order_id := order_id; receipt_hash := hex_encode h; recorded_at := now |}).
Definition is_receipt_settled (h : bytes) : M bool :=
  rs ← read_jsonl "receipt_dedupe.jsonl" st_receipts;
  mret (existsb (fun r => bool_decide (receipt_hash r = hex_encode h)) rs).

Definition write_config (c : PaymentsConfig) : M unit :=
  s ← get_store;
  match st_config s with
  | Some _ => throw (AlreadyInitialized (path "config.toml"))
  | None =>
      _ ← io ("writing " +:+ path "config.toml.tmp");
      _ ← io ("renaming " +:+ path "config.toml.tmp" +:+ " -> " +:+ path "config.toml");
      update (fun s => put_config s c)
  end.
Definition load_config : M PaymentsConfig :=
  s ← get_store;
  match st_config s with
  | None => mret config_default
  | Some c => _ ← io ("reading " +:+ path "config.toml"); mret c
  end.

Definition load_mmr : M MmrState :=
  s ← get_store;
  match st_mmr s with
  | None => mret mmr_new
  | Some m => _ ← io ("reading " +:+ path "mmr.json"); mret m
  end.
Definition save_mmr (m : MmrState) : M unit :=
  _ ← io ("writing " +:+ path "mmr.toml.tmp");
  _ ← io ("renaming " +:+ path "mmr.toml.tmp" +:+ " -> " +:+ path "mmr.json");
  update (fun s => put_mmr s m).
Definition checkpoint_mmr (leaf : bytes) : M bytes :=
  m ← load_mmr;
  match checkpoint_append m leaf with
  | None => panic "mmr"
  | Some (m', r) => _ ← save_mmr m'; mret r
  end.
End Store.
