(* ===== verification/Hoare.v ===== *)
(** * Reasoning about store programs

    Triples for the store monad.  An assertion speaks of the state a program
    leaves behind (the files, the wallet, the requests sent), never of the
    tick, so a triple holds for every clock, id, random and fault schedule.
    The postcondition ranges over results, so that what holds when a program
    fails part way is stated like what holds when it succeeds. *)

From Stdlib Require Import Ascii String.
From S2P Require Import Prelude RustStr Bytes Sdk PayError Event Mmr Store.

Section Hoare.
Context `{Env}.

Definition hoare {A : Type} (P : State -> Prop) (m : M A) (Q : result exn A -> State -> Prop)
    : Prop :=
  forall σ t, P σ -> Q (m σ t).1 (m σ t).2.1.

(** A postcondition from one for success and one for errors. *)
Definition post {A : Type} (Q : A -> State -> Prop) (E : State -> Prop)
    : result exn A -> State -> Prop :=
  fun r σ => match r with Ok a => Q a σ | Err _ => E σ end.

Lemma hoare_conseq {A : Type} (P P' : State -> Prop) (m : M A) (Q Q' : result exn A -> State -> Prop) :
  hoare P' m Q' -> (forall σ, P σ -> P' σ) -> (forall r σ, Q' r σ -> Q r σ) -> hoare P m Q.
Proof. intros Hm HP HQ σ t Hσ. apply HQ, Hm, HP, Hσ. Qed.

Lemma hoare_pre {A : Type} (P P' : State -> Prop) (m : M A) (Q : result exn A -> State -> Prop) :
  hoare P' m Q -> (forall σ, P σ -> P' σ) -> hoare P m Q.
Proof. intros Hm HP. by eapply hoare_conseq. Qed.

Lemma hoare_bind {A B : Type} (P : State -> Prop) (m : M A) (f : A -> M B)
    (Q : A -> State -> Prop) (R : result exn B -> State -> Prop) :
  hoare P m (fun r σ => match r with Ok a => Q a σ | Err e => R (Err e) σ end) ->
  (forall a, hoare (Q a) (f a) R) ->
  hoare P (m ≫= f) R.
Proof.
  intros Hm Hf σ t Hσ. specialize (Hm σ t Hσ).
  unfold mbind, M_bind. destruct (m σ t) as [[a|e] [σ' t']]; cbn in *; [|done].
  by apply Hf.
Qed.

Lemma hoare_ret {A : Type} (P : State -> Prop) (a : A) (Q : result exn A -> State -> Prop) :
  (forall σ, P σ -> Q (Ok a) σ) -> hoare P (mret a) Q.
Proof. intros HP σ t Hσ. by apply HP. Qed.

Lemma hoare_throw {A : Type} (P : State -> Prop) (e : Error) (Q : result exn A -> State -> Prop) :
  (forall σ, P σ -> Q (Err (Fail e)) σ) -> hoare P (throw e) Q.
Proof. intros HP σ t Hσ. by apply HP. Qed.

Lemma hoare_panic {A : Type} (P : State -> Prop) (e : string) (Q : result exn A -> State -> Prop) :
  (forall σ, P σ -> Q (Err (Panic e)) σ) -> hoare P (panic e) Q.
Proof. intros HP σ t Hσ. by apply HP. Qed.

Lemma hoare_lift {A : Type} (P : State -> Prop) (r : result Error A)
    (Q : result exn A -> State -> Prop) :
  (forall a σ, r = Ok a -> P σ -> Q (Ok a) σ) ->
  (forall e σ, r = Err e -> P σ -> Q (Err (Fail e)) σ) ->
  hoare P (lift r) Q.
Proof. intros Ha He. destruct r; cbn; [apply hoare_ret|apply hoare_throw]; eauto. Qed.

Lemma hoare_tick (P : State -> Prop) (Q : result exn nat -> State -> Prop) :
  (forall t σ, P σ -> Q (Ok t) σ) -> hoare P tick Q.
Proof. intros HP σ t Hσ. by apply HP. Qed.

Lemma hoare_get_state (P : State -> Prop) (Q : result exn State -> State -> Prop) :
  (forall σ, P σ -> Q (Ok σ) σ) -> hoare P get_state Q.
Proof. intros HP σ t Hσ. by apply HP. Qed.

Lemma hoare_modify (P : State -> Prop) (f : State -> State) (Q : result exn unit -> State -> Prop) :
  (forall σ, P σ -> Q (Ok tt) (f σ)) -> hoare P (modify f) Q.
Proof. intros HP σ t Hσ. by apply HP. Qed.

Lemma hoare_attempt {A : Type} (P : State -> Prop) (m : M A)
    (Q : result exn (result Error A) -> State -> Prop) :
  hoare P m (fun r σ => match r with
                        | Ok a => Q (Ok (Ok a)) σ
                        | Err (Fail e) => Q (Ok (Err e)) σ
                        | Err (Panic p) => Q (Err (Panic p)) σ
                        end) ->
  hoare P (attempt m) Q.
Proof.
  intros Hm σ t Hσ. specialize (Hm σ t Hσ). unfold attempt.
  by destruct (m σ t) as [[a|[e|p]] w].
Qed.

Lemma hoare_and {A : Type} (P : State -> Prop) (m : M A) (Q R : result exn A -> State -> Prop) :
  hoare P m Q -> hoare P m R -> hoare P m (fun r σ => Q r σ /\ R r σ).
Proof. intros HQ HR σ t Hσ. split; [by apply HQ|by apply HR]. Qed.

(** A pure fact of the precondition can be assumed. *)
Lemma hoare_pure {A : Type} (P : State -> Prop) (φ : Prop) (m : M A)
    (Q : result exn A -> State -> Prop) :
  (φ -> hoare P m Q) -> hoare (fun σ => φ /\ P σ) m Q.
Proof. intros Hm σ t [Hφ Hσ]. by apply Hm. Qed.

Lemma hoare_exists {A B : Type} (P : B -> State -> Prop) (m : M A)
    (Q : result exn A -> State -> Prop) :
  (forall b, hoare (P b) m Q) -> hoare (fun σ => exists b, P b σ) m Q.
Proof. intros Hm σ t [b Hb]. by apply (Hm b). Qed.

(** ** Derived operations *)

Lemma hoare_now (P : State -> Prop) (Q : result exn string -> State -> Prop) :
  (forall n σ, P σ -> Q (Ok n) σ) -> hoare P now_rfc3339 Q.
Proof. intros HP σ t Hσ. by apply HP. Qed.

Lemma hoare_nanos (P : State -> Prop) (Q : result exn Z -> State -> Prop) :
  (forall n σ, P σ -> Q (Ok n) σ) -> hoare P now_nanos Q.
Proof. intros HP σ t Hσ. by apply HP. Qed.

Lemma hoare_uuid (P : State -> Prop) (Q : result exn string -> State -> Prop) :
  (forall n σ, P σ -> Q (Ok n) σ) -> hoare P new_uuid Q.
Proof. intros HP σ t Hσ. by apply HP. Qed.

Lemma hoare_get_store (P : State -> Prop) (Q : result exn PaymentStore -> State -> Prop) :
  (forall σ, P σ -> Q (Ok (w_store σ)) σ) -> hoare P get_store Q.
Proof. intros HP σ t Hσ. by apply HP. Qed.

Lemma hoare_io (P : State -> Prop) (what : string) (Q : result exn unit -> State -> Prop) :
  (forall σ, P σ -> Q (Ok tt) σ) ->
  (forall e σ, ~ no_faults -> P σ -> Q (Err (Fail e)) σ) -> hoare P (io what) Q.
Proof.
  intros HP HE σ t Hσ. unfold io, mbind, M_bind, tick.
  destruct (env_io t) eqn:Et; cbn; [|by apply HP].
  apply HE; [|done]. intros Hn. by rewrite Hn in Et.
Qed.

(** An access before [f]: its failure must be an outcome. *)
Lemma hoare_io_bind {B : Type} (P : State -> Prop) (what : string) (f : unit -> M B)
    (R : result exn B -> State -> Prop) :
  (forall e σ, ~ no_faults -> P σ -> R (Err (Fail e)) σ) -> hoare P (f tt) R ->
  hoare P (io what ≫= f) R.
Proof.
  intros HE Hf. eapply hoare_bind with (Q := fun _ => P); [by apply hoare_io|]. by intros [].
Qed.

Lemma hoare_append (P : State -> Prop) (name : string) (f : PaymentStore -> PaymentStore)
    (Q : result exn unit -> State -> Prop) :
  (forall σ, P σ -> Q (Ok tt) (on_store f σ)) ->
  (forall e σ, ~ no_faults -> P σ -> Q (Err (Fail e)) σ) ->
  hoare P (append_jsonl name f) Q.
Proof.
  intros HP HE. unfold append_jsonl.
  apply hoare_io_bind; [done|]. apply hoare_io_bind; [done|]. by apply hoare_modify.
Qed.

Lemma hoare_read {A : Type} (P : State -> Prop) (name : string) (f : PaymentStore -> list A)
    (Q : result exn (list A) -> State -> Prop) :
  (forall σ, P σ -> Q (Ok (f (w_store σ))) σ) ->
  (forall e σ, ~ no_faults -> P σ -> Q (Err (Fail e)) σ) ->
  hoare P (read_jsonl name f) Q.
Proof.
  intros HP HE. unfold read_jsonl.
  eapply hoare_bind with (Q := fun s σ => s = w_store σ /\ P σ);
    [by apply hoare_get_store|].
  intros s. destruct (f s) as [|x l] eqn:Ef.
  - apply hoare_ret. intros σ [Es Hσ]. rewrite <- Ef, Es. by apply HP.
  - apply hoare_io_bind; [intros e σ Hn [_ Hσ]; by apply HE|]. apply hoare_ret. intros σ [Es Hσ]. rewrite <- Ef, Es. by apply HP.
Qed.

Lemma hoare_for_each {A : Type} (I : list A -> State -> Prop) (l : list A) (f : A -> M unit)
    (E : result exn unit -> State -> Prop) :
  (forall x k, hoare (I (x :: k)) (f x) (fun r σ => match r with Ok _ => I k σ | Err e => E (Err e) σ end)) ->
  (forall σ, I [] σ -> E (Ok tt) σ) ->
  hoare (I l) (for_each l f) E.
Proof.
  intros Hf Hn. induction l as [|x l IH]; cbn; [by apply hoare_ret|].
  eapply hoare_bind; [apply Hf|]. intros ?. apply IH.
Qed.

Lemma hoare_fold {A B : Type} (I : list A -> B -> State -> Prop) (l : list A) (b : B)
    (f : B -> A -> M B) (Q : result exn B -> State -> Prop) :
  (forall x k b, hoare (I (x :: k) b) (f b x)
     (fun r σ => match r with Ok b' => I k b' σ | Err e => Q (Err e) σ end)) ->
  (forall b σ, I [] b σ -> Q (Ok b) σ) ->
  hoare (I l b) (fold_M f b l) Q.
Proof.
  intros Hf Hn. revert b. induction l as [|x l IH]; intros b; cbn; [apply hoare_ret, Hn|].
  eapply hoare_bind; [apply Hf|]. intros b'. apply IH.
Qed.
End Hoare.

(** Bind the reading of a clock, an id or the tick to [x]. *)
Ltac oracle x :=
  eapply hoare_bind;
    [first [apply hoare_now|apply hoare_nanos|apply hoare_uuid|apply hoare_tick];
     let H := fresh in intros ? ? H; exact H
    |intros x; cbn beta].

(** Run a program on a concrete start, for witnesses. *)
Definition run `{Env} {A : Type} (m : M A) (σ : State) : result exn A * State :=
  let '(r, (σ', _)) := m σ O in (r, σ').
