(* ===== verification/Journal.v ===== *)
(** * The double-entry journal (origin-payments/src/journal.rs)

    A batch of postings sums to zero (or balances at a declared FX rate) and
    every posting carries the hash of its predecessor.  Sums are [i128] with
    the wrap-around of the release profile. *)

From Stdlib Require Import Ascii String.
From S2P Require Import Prelude RustStr Bytes Sdk PayError Amount Event Mmr Store Hoare.

Record CurrencyLeg := { leg_account : Account; leg_amount : string; leg_currency : string }.

Definition to_ascii_lowercase (s : string) : string :=
  of_chars (map (fun a => if (65 <=? code a) && (code a <=? 90) then byte_of (code a + 32) else a)
                (chars s)).

Definition account_from_str (s : string) : result string Account :=
  let l := to_ascii_lowercase s in
  if String.eqb l "debit" then Ok Debit
  else if String.eqb l "credit" then Ok Credit
  else Err ("unknown account: " +:+ s +:+ " (expected debit|credit)").

(** Debits add, credits subtract. *)
Definition signed_minor (a : Account) (minor : Z) : Z :=
  match a with Debit => minor | Credit => wrap_i128 (- minor) end.

Section Journal.
Context `{Sdk, Env}.

Definition set_posting_signature (p : LedgerPosting) (sg : option bytes) (sr : option OrderSigner)
    : LedgerPosting :=
  {| posting_id := posting_id p; batch_id := batch_id p; posting_order_id := posting_order_id p;
     account := account p; posting_amount := posting_amount p; posting_currency := posting_currency p;
     ts := ts p; prev_hash := prev_hash p; posting_signature := sg; posting_signer := sr;
     posting_fx_rate := posting_fx_rate p |}.

Definition sign_posting (p : LedgerPosting) (sgn : option OperatorKeys) : result Error LedgerPosting :=
  match sgn with
  | None => Ok p
  | Some keys =>
      encoded ← sign_bytes keys (posting_canonical p);
      Ok (set_posting_signature p (Some encoded) (Some (signer_of keys)))
  end.

Definition verify_posting_signature (p : LedgerPosting) : result Error bool :=
  match posting_signature p, posting_signer p with
  | Some sg, Some sr =>
      sig ← map_err (fun e => CryptoError ("decoding posting signature: " +:+ e)) (hybrid_decode sg);
      Ok (hybrid_verify sig (ed_pk sr) (falcon_pk sr) (posting_canonical p))
  | _, _ => Ok true
  end.

(** The posting loop both batch functions end with: sign, append, chain. *)
Definition new_posting (pid bid oid now : string) (l : CurrencyLeg) (prev : bytes)
    (rate : option FxRate) : LedgerPosting :=
  {| posting_id := pid; batch_id := bid; posting_order_id := oid; account := leg_account l;
     posting_amount := leg_amount l; posting_currency := leg_currency l; ts := now;
     prev_hash := prev; posting_signature := None; posting_signer := None;
     posting_fx_rate := rate |}.

Definition post_leg (bid oid now : string) (rate : option FxRate) (sgn : option OperatorKeys)
    (prev : bytes) (l : CurrencyLeg) : M bytes :=
  pid ← new_uuid;
  p ← lift (sign_posting (new_posting pid bid oid now l prev rate) sgn);
  _ ← append_posting p;
  mret (posting_hash p).

Definition post_legs (oid : string) (legs : list CurrencyLeg) (rate : option FxRate)
    (sgn : option OperatorKeys) : M string :=
  bid ← new_uuid;
  now ← now_rfc3339;
  prev ← journal_head;
  _ ← fold_M (post_leg bid oid now rate sgn) prev legs;
  mret bid.

(** The signed sum of a single-currency batch. *)
Fixpoint batch_sum (acc : Z) (legs : list (Account * string)) : result Error Z :=
  match legs with
  | [] => Ok acc
  | (a, amt) :: legs' =>
      minor ← parse_amount amt;
      batch_sum (wrap_i128 (acc + signed_minor a minor)) legs'
  end.

Definition append_batch (oid currency : string) (legs : list (Account * string))
    (sgn : option OperatorKeys) : M string :=
  if (length legs <? 2)%nat
  then throw (JournalNotBalanced "a batch must have at least 2 legs")
  else
    sum ← lift (batch_sum 0 legs);
    if negb (sum =? 0) then throw (JournalNotBalanced ("sum = " +:+ fmt_amount sum))
    else post_legs oid (map (fun '(a, amt) => {| leg_account := a; leg_amount := amt;
                                                 leg_currency := currency |}) legs) None sgn.

(** The per-currency nets of an FX batch: ([from], [to]). *)
Fixpoint fx_nets (rate : FxRate) (from_net to_net : Z) (legs : list CurrencyLeg)
    : result Error (Z * Z) :=
  match legs with
  | [] => Ok (from_net, to_net)
  | l :: legs' =>
      minor ← parse_amount (leg_amount l);
      let signed := signed_minor (leg_account l) minor in
      if String.eqb (leg_currency l) (fx_from rate)
      then fx_nets rate (wrap_i128 (from_net + signed)) to_net legs'
      else if String.eqb (leg_currency l) (fx_to rate)
      then fx_nets rate from_net (wrap_i128 (to_net + signed)) legs'
      else Err (JournalNotBalanced ("leg in unexpected currency " +:+ leg_currency l
                  +:+ " (batch is " +:+ fx_from rate +:+ " -> " +:+ fx_to rate +:+ ")"))
  end.

(** [x.unsigned_abs() as i128]: only [i128::MIN] comes back negative. *)
Definition unsigned_abs_i128 (x : Z) : Z := wrap_i128 (Z.abs x).

(** Converted at the rate: [x * rate / 10^6], truncated. *)
Definition convert (x rate_minor : Z) : Z := Z.quot (wrap_i128 (x * rate_minor)) (pow10 RATE_SCALE).

(** The checks of an FX batch, before anything is written. *)
Definition fx_check (legs : list CurrencyLeg) (rate : FxRate) : result Error unit :=
  if (length legs <? 2)%nat
  then Err (JournalNotBalanced "an FX batch must have at least 2 legs")
  else
    '(from_net, to_net) ← fx_nets rate 0 0 legs;
    if (from_net =? 0) || (to_net =? 0)
    then Err (JournalNotBalanced "FX batch must move money in both currencies")
    else if Bool.eqb (0 <? from_net) (0 <? to_net)
    then Err (JournalNotBalanced "FX legs must move in opposite directions (from -> to)")
    else
      rate_minor ← parse_rate (fx_rate rate);
      if rate_minor <=? 0 then Err (JournalNotBalanced "FX rate must be positive")
      else
        let converted := convert (unsigned_abs_i128 from_net) rate_minor in
        let expected := unsigned_abs_i128 to_net in
        if 1 <? Z.abs (converted - expected)
        then Err (JournalNotBalanced ("FX rate " +:+ fx_from rate +:+ "/" +:+ fx_to rate
               +:+ " does not balance the batch (converted " +:+ show_i64 converted +:+ " vs "
               +:+ show_i64 expected +:+ ")"))
        else Ok tt.

Definition append_fx_batch (oid : string) (legs : list CurrencyLeg) (rate : FxRate)
    (sgn : option OperatorKeys) : M string :=
  _ ← lift (fx_check legs rate);
  post_legs oid legs (Some rate) sgn.

(** The two legs of an FX order: the debit in the quoted currency and the
    credit converted at the rate. *)
Definition fx_legs (amt to_amount : string) (rate : FxRate) : list CurrencyLeg :=
  [ {| leg_account := Debit; leg_amount := amt; leg_currency := fx_from rate |};
    {| leg_account := Credit; leg_amount := to_amount; leg_currency := fx_to rate |} ].

Definition append_order_batch (oid amt currency : string) (rate : option FxRate)
    (sgn : option OperatorKeys) : M string :=
  match rate with
  | Some r =>
      from_minor ← lift (parse_amount amt);
      rate_minor ← lift (parse_rate (fx_rate r));
      append_fx_batch oid (fx_legs amt (fmt_amount (convert from_minor rate_minor)) r) r sgn
  | None => append_batch oid currency [(Debit, amt); (Credit, amt)] sgn
  end.

(** The [BTreeMap] of nets, and its entries in key order. *)
Definition net_step (m : gmap string Z) (p : LedgerPosting) : gmap string Z :=
  match parse_amount (posting_amount p) with
  | Err _ => m
  | Ok minor =>
      let c := posting_currency p in
      <[c := wrap_i128 (default 0 (m !! c) + signed_minor (account p) minor)]> m
  end.
Definition net_map (ps : list LedgerPosting) : gmap string Z := foldl net_step ∅ ps.

Definition key_le (x y : string * Z) : Prop := String.leb x.1 y.1 = true.
#[global] Instance key_le_dec (x y : string * Z) : Decision (key_le x y).
Proof. unfold key_le. apply _. Defined.

Definition net_by_currency (ps : list LedgerPosting) : list (string * Z) :=
  merge_sort key_le (map_to_list (net_map ps)).

Definition balance (want : option Account) : M (list (string * Z)) :=
  ps ← postings;
  mret (net_by_currency (match want with
                         | None => ps
                         | Some a => List.filter (fun p => bool_decide (account p = a)) ps
                         end)).
End Journal.

(** ** Properties of the journal

    A batch appends either all its legs, chained to the old head, or (on an
    I/O or signing failure) a prefix of them; a complete batch leaves every
    per-currency net where it was; the head of the chain determines the
    journal, up to a hash collision. *)

(** ** The hash chain *)

Section Chain.
Context `{Sdk}.

(** [ps] chains on to the journal [js]. *)
Fixpoint chained (js ps : list LedgerPosting) : Prop :=
  match ps with
  | [] => True
  | p :: ps' => prev_hash p = head_of js /\ chained (js ++ [p]) ps'
  end.

Definition chain_ok (js : list LedgerPosting) : Prop := chained [] js.

Lemma chained_app (js ps qs : list LedgerPosting) :
  chained js (ps ++ qs) <-> chained js ps /\ chained (js ++ ps) qs.
Proof.
  revert js. induction ps as [|p ps IH]; intros js; simpl; [rewrite app_nil_r; tauto|].
  rewrite IH, <- app_assoc. tauto.
Qed.

Lemma chain_ok_app (js ps : list LedgerPosting) : chain_ok (js ++ ps) <-> chain_ok js /\ chained js ps.
Proof. unfold chain_ok. by rewrite chained_app. Qed.

Lemma chain_ok_snoc (js : list LedgerPosting) (p : LedgerPosting) :
  chain_ok (js ++ [p]) <-> chain_ok js /\ prev_hash p = head_of js.
Proof. rewrite chain_ok_app. simpl. tauto. Qed.

Lemma head_of_snoc (js : list LedgerPosting) (p : LedgerPosting) :
  head_of (js ++ [p]) = posting_hash p.
Proof. unfold head_of. by rewrite last_snoc. Qed.

(** The hashed JSON fixes every field but the signature. *)
Lemma posting_hash_eq `{!JsonOk} (p q : LedgerPosting) :
  posting_hash p = posting_hash q -> posting_json p = posting_json q \/ collision sha3_256.
Proof.
  unfold posting_hash, posting_canonical. intros E.
  apply hash_eq_or_collision in E as [E|]; [left|by right].
  destruct (json_total (posting_json p)) as [b Hb], (json_total (posting_json q)) as [c Hc].
  rewrite Hb, Hc in E. cbn in E. apply json_inj. by rewrite Hb, Hc, E.
Qed.

Lemma posting_json_prev (p q : LedgerPosting) : posting_json p = posting_json q -> prev_hash p = prev_hash q.
Proof.
  intros E. apply json_bytes_inj.
  apply (f_equal (fun j => match j with JArr l => nth 7 l JNull | _ => JNull end)) in E. exact E.
Qed.

(** tamper evidence of the journal: two journals that chain correctly and have the
    same head hold the same postings, signatures aside (every hashed field of
    every posting agrees), unless SHA3-256 has a collision or a preimage of the genesis hash
    is known. *)
Theorem journal_head_binds `{!JsonOk} (js ks : list LedgerPosting)
    (Hj : chain_ok js) (Hk : chain_ok ks) (Hh : head_of js = head_of ks) :
  map posting_json js = map posting_json ks \/ collision sha3_256 \/ exists x, sha3_256 x = GENESIS_HASH.
Proof.
  revert ks Hk Hh. induction js as [|p js IH] using rev_ind; intros ks Hk Hh;
    destruct ks as [|q ks _] using rev_ind; [by left|..].
  - rewrite head_of_snoc in Hh. do 2 right. by eexists.
  - rewrite head_of_snoc in Hh. do 2 right. by eexists.
  - apply chain_ok_snoc in Hj as [Hj Hp]. apply chain_ok_snoc in Hk as [Hk Hq].
    rewrite !head_of_snoc in Hh. apply posting_hash_eq in Hh as [E|]; [|auto].
    destruct (IH Hj ks Hk) as [IH'|?]; [|left|by right].
    + rewrite <- Hp, <- Hq. by apply posting_json_prev.
    + rewrite !map_app, IH'. cbn [map]. by rewrite E.
Qed.
End Chain.

(** ** Signatures *)

Section Signing.
Context `{Sdk}.

Lemma sign_posting_eq (p p' : LedgerPosting) (sgn : option OperatorKeys) :
  sign_posting p sgn = Ok p' -> exists sg sr, p' = set_posting_signature p sg sr.
Proof.
  unfold sign_posting. destruct sgn as [k|]; intros E.
  - inv_ok E. eauto.
  - simplify_eq. exists (posting_signature p'), (posting_signer p'). by destruct p'.
Qed.

Lemma sign_posting_json (p : LedgerPosting) (sg : option bytes) (sr : option OrderSigner) :
  posting_json (set_posting_signature p sg sr) = posting_json p.
Proof. done. Qed.

(** signing a posting leaves its canonical bytes and so its chain hash unchanged,
    and the signature it stores verifies offline against the keys it embeds. *)
Theorem sign_posting_spec `{!SigOk} (p p' : LedgerPosting) (sgn : option OperatorKeys)
    (Hp : posting_signature p = None) (Hs : sign_posting p sgn = Ok p') :
  posting_hash p' = posting_hash p /\ verify_posting_signature p' = Ok true /\
  (posting_signature p' = None <-> sgn = None).
Proof.
  destruct sgn as [k|]; cbn in Hs.
  - unfold sign_bytes in Hs. apply result_bind_Ok in Hs as (enc & Henc & Hs).
    apply result_bind_Ok in Henc as (sg & Hsg & Henc).
    destruct (try_sign_hybrid (bundle k) (posting_canonical p)) as [s|] eqn:Es; [|done].
    cbn in Hsg. simplify_eq. destruct (hybrid_encode sg) as [b|] eqn:Eb; [|done].
    cbn in Henc. simplify_eq. unfold verify_posting_signature. cbn.
    rewrite (decode_encode_sig _ _ Eb). cbn. split_and!; [done| |by split].
    do 2 f_equal. exact (verify_sign _ _ _ Es).
  - simplify_eq. unfold verify_posting_signature. by rewrite Hp.
Qed.
End Signing.

(** ** What a batch writes *)

Section Batch.
Context `{Sdk, Env}.

Definition leg_of (p : LedgerPosting) : CurrencyLeg :=
  {| leg_account := account p; leg_amount := posting_amount p; leg_currency := posting_currency p |}.

Definition journal_of (σ : State) : list LedgerPosting := st_journal (w_store σ).

(** Appending postings and nothing else. *)
Definition push_all (ps : list LedgerPosting) (σ : State) : State :=
  foldl (fun σ p => on_store (fun s => push_posting s p) σ) σ ps.

Lemma push_all_journal (ps : list LedgerPosting) (σ : State) :
  journal_of (push_all ps σ) = journal_of σ ++ ps.
Proof.
  revert σ. induction ps as [|p ps IH]; intros σ; simpl; [by rewrite app_nil_r|].
  rewrite IH. unfold journal_of, on_store. simpl. destruct (w_store σ). simpl.
  by rewrite <- app_assoc.
Qed.

(** The operator can sign anything. *)
Definition signs (sgn : option OperatorKeys) : Prop :=
  match sgn with None => True | Some k => forall m, is_ok (sign_bytes k m) = true end.

(** A posting of the batch [bid] of order [oid]. *)
Definition posted (bid oid : string) (rate : option FxRate) (p : LedgerPosting) : Prop :=
  batch_id p = bid /\ posting_order_id p = oid /\ posting_fx_rate p = rate.

(** The outcome of posting [legs] from state [σ]: a chained prefix of them is
    written; all of them on success; with no fault and a signer, success. *)
Definition posts {A : Type} (σ : State) (bid oid : string) (legs : list CurrencyLeg)
    (rate : option FxRate) (sgn : option OperatorKeys) (r : result exn A) (σ' : State) : Prop :=
  exists ps, σ' = push_all ps σ /\ chained (journal_of σ) ps /\
    Forall (posted bid oid rate) ps /\ map leg_of ps `prefix_of` legs /\
    (is_ok r = true -> map leg_of ps = legs) /\ (no_faults -> signs sgn -> is_ok r = true).

Lemma post_leg_outcome (bid oid now : string) (rate : option FxRate) (sgn : option OperatorKeys)
    (l : CurrencyLeg) (σ : State) (t : nat) :
  let out := post_leg bid oid now rate sgn (head_of (journal_of σ)) l σ t in
  match out.1 with
  | Ok h => exists p, out.2.1 = push_all [p] σ /\ prev_hash p = head_of (journal_of σ) /\
              h = posting_hash p /\ leg_of p = l /\ posted bid oid rate p
  | Err _ => out.2.1 = σ /\ ~ (no_faults /\ signs sgn)
  end.
Proof.
  unfold post_leg, mbind, M_bind, new_uuid, tick, mret, M_ret. simpl.
  set (p0 := new_posting _ _ _ _ _ _ _). destruct (sign_posting p0 sgn) as [p|e] eqn:Es; simpl.
  - destruct (sign_posting_eq _ _ _ Es) as (sg & sr & ->).
    unfold append_posting, append_jsonl, io, tick, mbind, M_bind, throw, mret, M_ret.
    destruct (env_io (S t)) eqn:E1; simpl; [split; [done|intros [Hn _]; by rewrite Hn in E1]|].
    destruct (env_io (S (S t))) eqn:E2; simpl; [split; [done|intros [Hn _]; by rewrite Hn in E2]|].
    eexists. split; [reflexivity|]. by destruct l.
  - split; [done|]. intros [_ Hs]. destruct sgn as [k|]; [|done]. cbn in Es, Hs.
    specialize (Hs (posting_canonical p0)). by destruct (sign_bytes k (posting_canonical p0)).
Qed.

Lemma fold_post_outcome (bid oid now : string) (rate : option FxRate) (sgn : option OperatorKeys)
    (legs : list CurrencyLeg) (σ : State) (t : nat) :
  let out := fold_M (post_leg bid oid now rate sgn) (head_of (journal_of σ)) legs σ t in
  posts σ bid oid legs rate sgn out.1 out.2.1.
Proof.
  revert σ t. induction legs as [|l legs IH]; intros σ t.
  { exists []. simpl. split_and!; auto. }
  cbn [fold_M]. unfold mbind, M_bind.
  pose proof (post_leg_outcome bid oid now rate sgn l σ t) as Hl.
  destruct (post_leg bid oid now rate sgn _ l σ t) as [[h|e] [σ1 t1]]; cbn in Hl |- *.
  - destruct Hl as (p & -> & Hprev & -> & Hleg & Hpost).
    specialize (IH (push_all [p] σ) t1). rewrite push_all_journal, head_of_snoc in IH.
    destruct IH as (ps & E & Hch & Hall & Hpre & Hok & Hn).
    exists (p :: ps). subst l. rewrite push_all_journal in Hch. split_and!; try done.
    + by constructor.
    + simpl. by apply prefix_cons.
    + intros Ho. simpl. by rewrite (Hok Ho).
  - destruct Hl as [-> Hn]. exists []. split_and!; try done.
    + by apply prefix_nil.
    + intros Hf Hs. by destruct Hn.
Qed.

Lemma post_legs_outcome (oid : string) (legs : list CurrencyLeg) (rate : option FxRate)
    (sgn : option OperatorKeys) (σ : State) (t : nat) :
  let out := post_legs oid legs rate sgn σ t in
  exists bid, posts σ bid oid legs rate sgn out.1 out.2.1 /\
    forall b, out.1 = Ok b -> b = bid.
Proof.
  unfold post_legs, new_uuid, now_rfc3339, now_nanos, tick, mbind, M_bind, mret, M_ret. simpl.
  set (bid := env_uuid t). exists bid.
  unfold journal_head, mbind, M_bind.
  assert (Hread : forall t', let out := postings σ t' in
    match out.1 with Ok js => js = journal_of σ /\ out.2.1 = σ | Err _ => out.2.1 = σ /\ ~ no_faults end).
  { intros t'. unfold postings, read_jsonl, get_store, get_state, io, tick, throw, mbind, M_bind, mret, M_ret.
    fold (journal_of σ). destruct (journal_of σ) as [|p ps] eqn:Ej; cbn; [done|].
    destruct (env_io t') eqn:Et; cbn; [|done]. split; [done|]. intros Hn. by rewrite Hn in Et. }
  specialize (Hread (S (S t))). destruct (postings σ (S (S t))) as [[js|e] [σ1 t1]]; cbn in Hread |- *.
  - destruct Hread as [-> ->].
    pose proof (fold_post_outcome bid oid (rfc3339 (env_clock (S t))) rate sgn legs σ t1) as Hf.
    destruct (fold_M _ _ legs σ t1) as [[h|e] [σ2 t2]]; cbn in Hf |- *; split; try done; by intros b [= <-].
  - destruct Hread as [-> Hn]. split; [|done]. exists []. cbn. split_and!; try done. apply prefix_nil.
Qed.
End Batch.

(** ** Nets *)

Lemma parse_amount_range (s : string) (v : Z) : parse_amount s = Ok v -> in_i128 v.
Proof.
  intros E. apply parse_decimal_sound in E as (? & ? & ? & _ & _ & ->); [|done].
  auto with origin.
Qed.

(** The net of a currency over some postings. *)
Definition net (c : string) (ps : list LedgerPosting) : Z := default 0 (net_map ps !! c).

Lemma net_map_app (js ps : list LedgerPosting) : net_map (js ++ ps) = foldl net_step (net_map js) ps.
Proof. apply foldl_app. Qed.

Definition ranged (m : gmap string Z) : Prop := forall c, in_i128 (default 0 (m !! c)).

Lemma ranged_empty : ranged ∅.
Proof. intros c. rewrite lookup_empty. by vm_compute. Qed.

Lemma net_step_ranged (m : gmap string Z) (p : LedgerPosting) : ranged m -> ranged (net_step m p).
Proof.
  intros Hm c. unfold net_step. destruct (parse_amount _); [|apply Hm].
  destruct (decide (posting_currency p = c)) as [<-|]; [|by rewrite lookup_insert_ne].
  rewrite lookup_insert_eq. apply wrap_i128_range.
Qed.

Lemma net_map_ranged (js : list LedgerPosting) : ranged (net_map js).
Proof.
  unfold net_map. generalize ranged_empty. generalize (∅ : gmap string Z).
  induction js as [|p js IH]; intros m Hm; simpl; [done|]. by apply IH, net_step_ranged.
Qed.

Definition eqm (x y : Z) : Prop := x mod 2 ^ 128 = y mod 2 ^ 128.

Lemma eqm_range (x y : Z) : in_i128 x -> in_i128 y -> eqm x y -> x = y.
Proof.
  intros Hx Hy E. rewrite <- (wrap_i128_id x), <- (wrap_i128_id y) by done. by apply wrap_s_eqm.
Qed.

Lemma wrap_eqm (x : Z) : eqm (wrap_i128 x) x.
Proof. by apply wrap_s_mod. Qed.

Lemma wrap_shift (x y s : Z) : eqm (wrap_i128 x + (s - wrap_i128 y)) (x + (s - y)).
Proof.
  unfold eqm. replace (wrap_i128 x + (s - wrap_i128 y)) with (wrap_i128 x - wrap_i128 y + s) by lia.
  rewrite Zplus_mod, Zminus_mod, !(wrap_eqm _ : _ mod _ = _), <- Zminus_mod, <- Zplus_mod. f_equal. lia.
Qed.

(** A complete single-currency batch shifts the net of its currency by its sum. *)
Lemma batch_net (c c' : string) (legs : list (Account * string)) (ps : list LedgerPosting) :
  map leg_of ps = map (fun '(a, amt) => {| leg_account := a; leg_amount := amt; leg_currency := c |}) legs ->
  forall m acc s, batch_sum acc legs = Ok s ->
    eqm (default 0 (foldl net_step m ps !! c'))
        (default 0 (m !! c') + if String.eqb c c' then s - acc else 0).
Proof.
  revert legs. induction ps as [|p ps IH]; intros [|[a amt] legs] E m acc s Hs; try done.
  { cbn in Hs |- *. simplify_eq. destruct (String.eqb c c'); unfold eqm; f_equal; lia. }
  cbn [map] in E. injection E as Ea Eamt Ec E. subst a amt c. cbn [batch_sum] in Hs.
  apply result_bind_Ok in Hs as (minor & Hm & Hs). cbn [foldl].
  specialize (IH legs E (net_step m p) _ _ Hs).
  unfold eqm in *. rewrite IH. unfold net_step. rewrite Hm.
  destruct (String.eqb_spec (posting_currency p) c') as [<-|Hne].
  - rewrite lookup_insert_eq. cbn [default from_option].
    etransitivity; [apply wrap_shift|]. f_equal. lia.
  - by rewrite lookup_insert_ne.
Qed.

Lemma balanced_net (c c' : string) (legs : list (Account * string)) (js ps : list LedgerPosting) :
  map leg_of ps = map (fun '(a, amt) => {| leg_account := a; leg_amount := amt; leg_currency := c |}) legs ->
  batch_sum 0 legs = Ok 0 -> net c' (js ++ ps) = net c' js.
Proof.
  intros E Hs. apply eqm_range; [apply net_map_ranged..|].
  unfold net. rewrite net_map_app. unfold eqm. rewrite (batch_net _ c' _ _ E (net_map js) 0 0 Hs).
  f_equal. destruct (String.eqb c c'); lia.
Qed.

(** ** Theorems on batches *)

Section Theorems.
Context `{Sdk, Env}.

Definition in_currency (c : string) (legs : list (Account * string)) : list CurrencyLeg :=
  map (fun '(a, amt) => {| leg_account := a; leg_amount := amt; leg_currency := c |}) legs.

(** At least two legs whose signed amounts sum to zero. *)
Definition balanced (legs : list (Account * string)) : Prop :=
  (2 <= length legs)%nat /\ batch_sum 0 legs = Ok 0.

(** What a single-currency batch may leave behind. *)
Definition batch_post (oid c : string) (legs : list (Account * string)) (sgn : option OperatorKeys)
    (σ : State) (r : result exn string) (σ' : State) : Prop :=
  exists ps bid, σ' = push_all ps σ /\ chained (journal_of σ) ps /\ Forall (posted bid oid None) ps /\
    map leg_of ps `prefix_of` in_currency c legs /\
    (is_ok r = true -> r = Ok bid /\ map leg_of ps = in_currency c legs /\
       forall c', net c' (journal_of σ ++ ps) = net c' (journal_of σ)) /\
    (no_faults -> signs sgn ->
       (is_ok r = true <-> balanced legs) /\ (is_ok r = false -> ps = [])).

Lemma batch_post_refused (oid c : string) (legs : list (Account * string)) (sgn : option OperatorKeys)
    (σ : State) (e : exn) : ~ balanced legs -> batch_post oid c legs sgn σ (Err e) σ.
Proof.
  intros Hb. exists [], EmptyString. cbn. split_and!; try done; try apply prefix_nil.
Qed.

Lemma append_batch_outcome (oid c : string) (legs : list (Account * string))
    (sgn : option OperatorKeys) (σ : State) (t : nat) :
  let out := append_batch oid c legs sgn σ t in batch_post oid c legs sgn σ out.1 out.2.1.
Proof.
  cbn zeta. unfold append_batch.
  destruct (Nat.ltb_spec (length legs) 2) as [Hl|Hl].
  { apply batch_post_refused. intros [? _]. lia. }
  unfold lift, mbind, M_bind. destruct (batch_sum 0 legs) as [s|e] eqn:Es; cbn.
  2:{ apply batch_post_refused. intros [_ ?]. congruence. }
  destruct (Z.eqb_spec s 0) as [->|Hs]; cbn.
  2:{ apply batch_post_refused. intros [_ ?]. congruence. }
  destruct (post_legs_outcome oid (in_currency c legs) None sgn σ t)
    as (bid & (ps & E & Hch & Hall & Hpre & Hok & Hn) & Hb).
  exists ps, bid. fold (in_currency c legs).
  destruct (post_legs oid (in_currency c legs) None sgn σ t) as [r w]. cbn in *.
  split_and!; try done.
  - intros Ho. destruct r as [b|]; [|done]. rewrite (Hb b eq_refl). split_and!; [done|by apply Hok|].
    intros c'. by eapply balanced_net; [apply Hok|].
  - intros Hf Hsg. rewrite (Hn Hf Hsg). by split.
Qed.

(** C3: a single-currency batch, under every schedule of I/O faults and signing failures,
    appends a prefix of its legs and nothing else, in order, under one batch
    id and chained to the old head.  When it returns, it wrote all legs and no currency's net
    changed.  Without faults it succeeds exactly for balanced legs, and
    a refused batch writes nothing. *)
Theorem append_batch_spec (oid c : string) (legs : list (Account * string))
    (sgn : option OperatorKeys) (σ : State) (t : nat) :
  let out := append_batch oid c legs sgn σ t in
  let js := journal_of σ in
  exists ps bid, out.2.1 = push_all ps σ /\ chained js ps /\ Forall (posted bid oid None) ps /\
    map leg_of ps `prefix_of` in_currency c legs /\
    (is_ok out.1 = true -> out.1 = Ok bid /\ map leg_of ps = in_currency c legs /\
       forall c', net c' (js ++ ps) = net c' js) /\
    (no_faults -> signs sgn ->
       (is_ok out.1 = true <-> balanced legs) /\ (is_ok out.1 = false -> ps = [])).
Proof. apply append_batch_outcome. Qed.

(** ** FX batches *)

(** The outcome of any order batch: postings of that order only, a debit of
    the amount and a credit on success, none when it is refused without a fault. *)
Definition order_batch_post (oid amt : string) (rate : option FxRate) (sgn : option OperatorKeys)
    (σ : State) (r : result exn string) (σ' : State) : Prop :=
  exists ps bid, σ' = push_all ps σ /\ chained (journal_of σ) ps /\
    Forall (posted bid oid rate) ps /\
    (is_ok r = true -> exists d k, ps = [d; k] /\ account d = Debit /\ account k = Credit /\
       posting_amount d = amt) /\
    (no_faults -> signs sgn -> is_ok r = false -> ps = []).

Lemma order_batch_refused (oid amt : string) (rate : option FxRate) (sgn : option OperatorKeys)
    (σ : State) (e : exn) : order_batch_post oid amt rate sgn σ (Err e) σ.
Proof. by exists [], EmptyString. Qed.

Lemma two_legs (ps : list LedgerPosting) (amt amt' c c' : string) :
  map leg_of ps = [ {| leg_account := Debit; leg_amount := amt; leg_currency := c |};
                    {| leg_account := Credit; leg_amount := amt'; leg_currency := c' |} ] ->
  exists d k, ps = [d; k] /\ account d = Debit /\ account k = Credit /\ posting_amount d = amt.
Proof.
  destruct ps as [|d [|k [|? ?]]]; intros E; try done.
  unfold leg_of in E. cbn in E. injection E as ? ? _ ? _ _. eauto 6.
Qed.

Lemma append_order_batch_outcome (oid amt c : string) (rate : option FxRate)
    (sgn : option OperatorKeys) (σ : State) (t : nat) :
  let out := append_order_batch oid amt c rate sgn σ t in
  order_batch_post oid amt rate sgn σ out.1 out.2.1.
Proof.
  cbn zeta. destruct rate as [r|]; cbn [append_order_batch].
  - unfold lift, mbind, M_bind.
    destruct (parse_amount amt) as [m|e]; [|apply order_batch_refused].
    destruct (parse_rate (fx_rate r)) as [rm|e]; [|apply order_batch_refused]. cbn.
    unfold append_fx_batch, lift, mbind, M_bind.
    set (legs := fx_legs _ _ _). destruct (fx_check legs r) as [[]|e]; [|apply order_batch_refused]. cbn.
    destruct (post_legs_outcome oid legs (Some r) sgn σ t) as (bid & (ps & E & Hch & Hall & _ & Hok & Hn) & Hb).
    destruct (post_legs oid legs (Some r) sgn σ t) as [res w]. cbn in *. exists ps, bid.
    split_and!; try done; [intros Ho; eapply two_legs, Hok, Ho|].
    intros Hf Hs Ho. by rewrite Hn in Ho.
  - destruct (append_batch_outcome oid c [(Debit, amt); (Credit, amt)] sgn σ t)
      as (ps & bid & E & Hch & Hall & _ & Hok & Hn).
    exists ps, bid. split_and!; try done; [|intros Hf Hs Ho; by apply Hn].
    intros Ho. destruct (Hok Ho) as (_ & Hl & _). eapply two_legs, Hl.
Qed.

Lemma fx_check_legs (amt : string) (r : FxRate) (m rm : Z) :
  parse_amount amt = Ok m -> parse_rate (fx_rate r) = Ok rm -> 0 < m -> 0 < rm ->
  m * rm <= i128_max -> fx_from r <> fx_to r ->
  is_ok (fx_check (fx_legs amt (fmt_amount (convert m rm)) r) r) = (1000000 <=? m * rm).
Proof.
  intros Hm Hr Hm0 Hr0 Hmax Hne. assert (0 < m * rm) as Hpos by nia.
  assert (convert m rm = m * rm / 1000000) as Hq.
  { unfold convert. rewrite wrap_i128_id by (unfold in_i128, i128_min in *; lia).
    change (pow10 RATE_SCALE) with 1000000. apply Z.quot_div_nonneg; lia. }
  assert (0 <= m * rm / 1000000 <= m * rm) as Hqr.
  { split; [apply Z.div_pos; lia|]. apply Z.div_le_upper_bound; lia. }
  unfold fx_check, fx_legs. cbn [length Nat.ltb Nat.leb fx_nets leg_account leg_amount leg_currency].
  rewrite Hm. cbn [mbind result_mbind signed_minor]. rewrite String.eqb_refl, Hq.
  rewrite fmt_amount_parses by (unfold in_i128, i128_min in *; lia). cbn [mbind result_mbind].
  destruct (String.eqb_spec (fx_to r) (fx_from r)); [by exfalso|]. rewrite String.eqb_refl.
  rewrite !Z.add_0_l, (wrap_i128_id m) by (unfold in_i128, i128_min; nia).
  rewrite !(wrap_i128_id (- _)) by (unfold in_i128, i128_min, i128_max in *; lia).
  cbn [mbind result_mbind].
  destruct (Z.leb_spec 1000000 (m * rm)) as [Hle|Hlt].
  - assert (1 <= m * rm / 1000000) by (apply Z.div_le_lower_bound; lia).
    replace ((m =? 0) || (- (m * rm / 1000000) =? 0)) with false by lia.
    replace (Bool.eqb (0 <? m) (0 <? - (m * rm / 1000000))) with false
      by (destruct (Z.ltb_spec 0 m), (Z.ltb_spec 0 (- (m * rm / 1000000))); simpl; lia).
    rewrite Hr. cbn [mbind result_mbind]. destruct (Z.leb_spec rm 0); [lia|].
    unfold unsigned_abs_i128. rewrite Z.abs_opp, (Z.abs_eq m), (Z.abs_eq (_ / _)) by lia.
    rewrite !wrap_i128_id by (unfold in_i128, i128_min, i128_max in *; nia). rewrite Hq.
    by rewrite Z.sub_diag.
  - rewrite (Z.div_small (m * rm)) by lia. by rewrite orb_true_r.
Qed.

(** an order with a declared FX rate, whose converted amount is
    representable: without faults it is journaled exactly when the amount
    converts to at least one minor unit, as a debit of the amount in the
    quoted currency and a credit of the amount times the rate, rounded down,
    in the settlement currency, both carrying the rate; otherwise nothing is written. *)
Theorem append_order_batch_fx (oid amt c : string) (r : FxRate) (m rm : Z)
    (sgn : option OperatorKeys) (σ : State) (t : nat)
    (Hm : parse_amount amt = Ok m) (Hr : parse_rate (fx_rate r) = Ok rm) (Hm0 : 0 < m) (Hr0 : 0 < rm)
    (Hmax : m * rm <= i128_max) (Hne : fx_from r <> fx_to r) (Hf : no_faults) (Hs : signs sgn) :
  let out := append_order_batch oid amt c (Some r) sgn σ t in
  (m * rm < 1000000 -> is_ok out.1 = false /\ out.2.1 = σ) /\
  (1000000 <= m * rm -> exists d k bid, out.1 = Ok bid /\ out.2.1 = push_all [d; k] σ /\
     chained (journal_of σ) [d; k] /\ Forall (posted bid oid (Some r)) [d; k] /\
     map leg_of [d; k] = fx_legs amt (fmt_amount (m * rm / 1000000)) r).
Proof.
  cbn zeta. pose proof (fx_check_legs amt r m rm Hm Hr Hm0 Hr0 Hmax Hne) as Hc.
  assert (convert m rm = m * rm / 1000000) as Hq.
  { unfold convert. rewrite wrap_i128_id by (unfold in_i128, i128_min; nia).
    change (pow10 RATE_SCALE) with 1000000. apply Z.quot_div_nonneg; nia. }
  rewrite Hq in Hc. set (legs := fx_legs _ _ _) in Hc |- *.
  assert (append_order_batch oid amt c (Some r) sgn σ t
          = match fx_check legs r with
            | Ok _ => post_legs oid legs (Some r) sgn σ t
            | Err e => (Err (Fail e), (σ, t))
            end) as ->.
  { unfold append_order_batch, append_fx_batch. rewrite Hm, Hr. unfold lift, mbind, M_bind, mret, M_ret.
    rewrite Hq. fold legs. by destruct (fx_check legs r). }
  destruct (fx_check legs r) as [[]|e]; cbn [is_ok] in Hc.
  - split; [lia|]. intros _.
    destruct (post_legs_outcome oid legs (Some r) sgn σ t) as (bid & (ps & E & Hch & Hall & _ & Hok & Hn) & Hb).
    destruct (post_legs oid legs (Some r) sgn σ t) as [[b|] w]; cbn [fst] in *; [|by specialize (Hn Hf Hs)].
    specialize (Hok eq_refl). rewrite (Hb b eq_refl).
    destruct (two_legs ps _ _ _ _ Hok) as (d & k & -> & _). by exists d, k, bid.
  - split; [done|]. lia.
Qed.
End Theorems.

(** ** Nets as sums *)

Section Nets.
(** The signed value a posting contributes to the net of [c], when its amount parses. *)
Definition contribution (c : string) (p : LedgerPosting) : option Z :=
  if bool_decide (posting_currency p = c)
  then match parse_amount (posting_amount p) with
       | Ok m => Some (signed_minor (account p) m)
       | Err _ => None
       end
  else None.

Lemma net_step_lookup (m : gmap string Z) (p : LedgerPosting) (c : string) :
  net_step m p !! c
  = match contribution c p with
    | Some v => Some (wrap_i128 (default 0 (m !! c) + v))
    | None => m !! c
    end.
Proof.
  unfold net_step, contribution. case_bool_decide as Hc.
  - subst c. destruct (parse_amount _); [|done]. by rewrite lookup_insert_eq.
  - destruct (parse_amount _); [|done]. by rewrite lookup_insert_ne.
Qed.

Definition net_of (vs : list Z) : option Z :=
  match vs with [] => None | _ => Some (wrap_i128 (list_sum vs)) end.

Lemma net_of_snoc (vs : list Z) (v : Z) :
  net_of (vs ++ [v]) = Some (wrap_i128 (default 0 (net_of vs) + v)).
Proof.
  assert (net_of (vs ++ [v]) = Some (wrap_i128 (list_sum (vs ++ [v])))) as -> by (by destruct vs).
  assert (default 0 (net_of vs) = wrap_i128 (list_sum vs)) as -> by (by destruct vs).
  f_equal. apply wrap_s_eqm; [lia|]. rewrite list_sum_app.
  rewrite (Zplus_mod (wrap_i128 _)), (wrap_eqm _ : _ mod _ = _), <- Zplus_mod. f_equal. cbn. lia.
Qed.

Lemma net_map_lookup (ps : list LedgerPosting) (c : string) :
  net_map ps !! c = net_of (omap (contribution c) ps).
Proof.
  induction ps as [|p ps IH] using rev_ind; [done|].
  rewrite net_map_app. cbn [foldl]. rewrite net_step_lookup, IH, omap_app.
  cbn [omap list_omap]. destruct (contribution c p) as [v|]; [|by rewrite app_nil_r].
  by rewrite net_of_snoc.
Qed.

#[global] Instance key_le_total : Total key_le.
Proof. intros x y. unfold key_le. apply String.leb_total. Qed.

(** [net_by_currency] lists, in strictly increasing order of currency,
    exactly the currencies with a posting whose amount parses, each with the
    [i128] sum of its debits less its credits. *)
Theorem net_by_currency_spec (ps : list LedgerPosting) :
  Sorted key_le (net_by_currency ps) /\ NoDup (net_by_currency ps).*1 /\
  forall c v, (c, v) ∈ net_by_currency ps <->
    omap (contribution c) ps <> [] /\ v = wrap_i128 (list_sum (omap (contribution c) ps)).
Proof.
  unfold net_by_currency. split_and!.
  - apply (Sorted_merge_sort key_le).
  - rewrite merge_sort_Permutation. apply NoDup_fst_map_to_list.
  - intros c v. rewrite merge_sort_Permutation, elem_of_map_to_list, net_map_lookup.
    unfold net_of. destruct (omap (contribution c) ps); [by split; [|intros [? _]]|].
    split; [intros [= <-]; done|by intros [_ ->]].
Qed.
End Nets.

(** ** Witnesses *)

Module JournalWitness.
Import ToyEnv.
#[local] Existing Instance Toy.sdk.
#[local] Instance the_env : Env := env None.

Definition usd_batch := append_batch "o1" "USD" [(Debit, "3.15"); (Credit, "3.15")] None start 0%nat.
Definition after : State := usd_batch.2.1.
Definition eur : FxRate := {| fx_from := "USD"; fx_to := "EUR"; fx_rate := "0.9"; markup_bps := 0 |}.

Lemma journal_head_binds_witness :
  chain_ok (journal_of after) /\
  (map posting_json (journal_of after) = map posting_json (journal_of after) \/
   collision sha3_256 \/ exists x, sha3_256 x = GENESIS_HASH).
Proof.
  split; [vm_compute; auto|].
  apply (journal_head_binds (journal_of after) (journal_of after)); [vm_compute; auto..|reflexivity].
Defined.

Lemma sign_posting_spec_witness :
  exists p p', sign_posting p (Some toy_keys) = Ok p' /\ posting_hash p' = posting_hash p /\
    verify_posting_signature p' = Ok true /\ (posting_signature p' = None <-> Some toy_keys = None).
Proof.
  exists (new_posting "p" "b" "o" "t" {| leg_account := Debit; leg_amount := "1"; leg_currency := "USD" |} [] None).
  eexists. split; [reflexivity|]. eapply (sign_posting_spec (H := Toy.sdk)); reflexivity.
Defined.

Lemma append_order_batch_fx_witness :
  let out := append_order_batch "o1" "10.00" "USD" (Some eur) None start 0%nat in
  exists d k bid, out.1 = Ok bid /\ out.2.1 = push_all [d; k] start /\
     chained (journal_of start) [d; k] /\ Forall (posted bid "o1" (Some eur)) [d; k] /\
     map leg_of [d; k] = fx_legs "10.00" (fmt_amount (1000 * 900000 / 1000000)) eur.
Proof.
  eapply (append_order_batch_fx "o1" "10.00" "USD" eur 1000 900000 None start 0%nat);
    try reflexivity; try done; try lia; by vm_compute.
Defined.
End JournalWitness.

(** The batch is not atomic: an I/O fault after the first leg leaves a
    journal whose debits and credits do not cancel. *)
Theorem append_batch_torn `{Sdk} :
  exists bad t, let σ := @Build_State (ToyEnv.env bad) empty_store 0 [] in
    let out := @append_batch _ (ToyEnv.env bad) "o1" "USD" [(Debit, "3.15"); (Credit, "3.15")] None σ t in
    out.1 = Err (Fail (IoError "opening /payments/journal.jsonl: disk full")) /\
    net "USD" (journal_of out.2.1) = 315.
Proof. exists (Some 6%nat), 0%nat. split; vm_compute; reflexivity. Qed.
