(* ===== verification/AuditLog.v ===== *)
(** * The audit stream
    (origin-payments/src/audit.rs, with [AuditEntry] of origin-attest/src/audit.rs)

    Every money movement appends a record that carries the hash of its
    predecessor and of its own payload. *)

From Stdlib Require Import Ascii String.
From S2P Require Import Prelude RustStr Bytes Sdk PayError Amount Event Mmr Store Hoare.

Definition AT_ORDER_CREATED : Z := 1.
Definition AT_ORDER_SETTLED : Z := 2.
Definition AT_ORDER_FAILED : Z := 3.
Definition AT_RECONCILE : Z := 4.
Definition AT_CUSTODY : Z := 5.
Definition AT_ORDER_REQUEUED : Z := 6.
Definition AT_ORDER_FLAGGED : Z := 7.

Section Audit.
Context `{Sdk}.

(** [AuditEntry::entry_hash]: the signature is not covered. *)
Definition entry_bytes (r : AuditRecord) : bytes :=
  audit_prev_hash r ++ be_bytes 4 (seq_no r) ++ [byte_of (entry_type r)]
  ++ payload_hash r ++ be_bytes 8 (timestamp r).
Definition entry_hash (r : AuditRecord) : bytes := sha3_256 (entry_bytes r).

Definition audit_head (rs : list AuditRecord) : bytes :=
  match last rs with Some r => entry_hash r | None => ZERO_HASH end.
Definition next_seq (rs : list AuditRecord) : Z :=
  match last rs with Some r => wrap_u32 (seq_no r + 1) | None => 0 end.

Definition payload_bytes (j : json) : result Error bytes :=
  match json_to_vec j with
  | Some b => Ok b
  | None => Err (StoreCorrupted "serializing audit payload: error")
  end.

Definition set_audit_signature (r : AuditRecord) (sg : bytes) : AuditRecord :=
  {| audit_prev_hash := audit_prev_hash r; seq_no := seq_no r; entry_type := entry_type r;
     payload_hash := payload_hash r; audit_payload := audit_payload r; timestamp := timestamp r;
     audit_signature := Some sg |}.

Definition sign_audit (r : AuditRecord) (keys : option OperatorKeys) : result Error AuditRecord :=
  match keys with
  | None => Ok r
  | Some k => sg ← sign_bytes k (entry_hash r); Ok (set_audit_signature r sg)
  end.

(** [timestamp_nanos_opt().unwrap_or(0) as u64]: out of the [i64] range reads as zero. *)
Definition timestamp_u64 (nanos : Z) : Z :=
  if (- 2 ^ 63 <=? nanos) && (nanos <=? i64_max) then wrap_u64 nanos else 0.

Definition audit_record `{Env} (ty : Z) (payload : json) (keys : option OperatorKeys) : M unit :=
  rs ← audit_records;
  b ← lift (payload_bytes payload);
  now ← now_nanos;
  r ← lift (sign_audit {| audit_prev_hash := audit_head rs; seq_no := next_seq rs; entry_type := ty;
                          payload_hash := sha3_256 b; audit_payload := payload;
                          timestamp := timestamp_u64 now; audit_signature := None |} keys);
  append_audit_record r.

(** The loop of [verify]. *)
Fixpoint verify_records (expected_prev : bytes) (rs : list AuditRecord) : result Error bool :=
  match rs with
  | [] => Ok true
  | r :: rs' =>
      if negb (bool_decide (audit_prev_hash r = expected_prev)) then Ok false
      else
        b ← payload_bytes (audit_payload r);
        if negb (bool_decide (payload_hash r = sha3_256 b)) then Ok false
        else verify_records (entry_hash r) rs'
  end.

Definition audit_verify `{Env} : M bool :=
  rs ← audit_records; lift (verify_records ZERO_HASH rs).

(** ** Export *)

Definition hex2 (n : Z) : string :=
  of_chars (map (fun d => if d <? 10 then byte_of (48 + d) else byte_of (87 + d)) [n / 16; n mod 16]).

Definition export_line (r : AuditRecord) : string :=
  "seq=" +:+ show_Z (seq_no r) +:+ " type=0x" +:+ hex2 (entry_type r) +:+ " ts="
  +:+ show_Z (timestamp r) +:+ " payload="
  +:+ of_chars (default [] (json_to_vec (audit_payload r))).

Fixpoint join (sep : string) (l : list string) : string :=
  match l with
  | [] => EmptyString
  | [s] => s
  | s :: l' => s +:+ sep +:+ join sep l'
  end.

Definition newline : string := String (ascii_of_N 10) EmptyString.

Definition export_entry (r : AuditRecord) : json :=
  JObj [("entry_type", JNum (entry_type r)); ("payload", audit_payload r);
        ("payload_hash", JStr (hex_encode (payload_hash r))); ("seq", JNum (seq_no r));
        ("signed", JBool (match audit_signature r with Some _ => true | None => false end))].

Definition export_doc (format today : string) (rs : list AuditRecord) : result Error json :=
  if String.eqb format "plain" then Ok (JStr (join newline (map export_line rs)))
  else if String.eqb format "soc2" || String.eqb format "pcidss" || String.eqb format "hipaa"
  then Ok (JObj [("entries", JArr (map export_entry rs)); ("export_date", JStr today);
                 ("framework", JStr format); ("version", JStr "1.0")])
  else Err (StoreCorrupted ("unknown export format: " +:+ format)).
End Audit.

(** ** The chain *)

Section AuditChain.
Context `{Sdk}.

(** [r] is a valid next record after [rs]. *)
Definition audit_next (rs : list AuditRecord) (r : AuditRecord) : Prop :=
  audit_prev_hash r = audit_head rs /\
  exists b, json_to_vec (audit_payload r) = Some b /\ payload_hash r = sha3_256 b.

Lemma audit_head_snoc (rs : list AuditRecord) (r : AuditRecord) : audit_head (rs ++ [r]) = entry_hash r.
Proof. unfold audit_head. by rewrite last_snoc. Qed.

Lemma verify_records_cons (h : bytes) (r : AuditRecord) (rs : list AuditRecord) :
  verify_records h (r :: rs) = Ok true <->
  audit_prev_hash r = h /\ (exists b, json_to_vec (audit_payload r) = Some b /\ payload_hash r = sha3_256 b) /\
  verify_records (entry_hash r) rs = Ok true.
Proof.
  cbn [verify_records]. unfold payload_bytes.
  case_bool_decide as Hp; cbn; [|by split; [|intros [? _]]].
  destruct (json_to_vec (audit_payload r)) as [b|]; cbn; [|by split; [|intros (_ & (? & ? & _) & _)]].
  case_bool_decide as Hh; cbn; [by split; [eauto|intros (_ & _ & ?)]|].
  split; [done|]. intros (_ & (c & [= <-] & ?) & _). done.
Qed.

Lemma verify_records_snoc (rs : list AuditRecord) (r : AuditRecord) :
  verify_records ZERO_HASH (rs ++ [r]) = Ok true <->
  verify_records ZERO_HASH rs = Ok true /\ audit_next rs r.
Proof.
  unfold audit_next.
  assert (forall h, verify_records h (rs ++ [r]) = Ok true <->
    verify_records h rs = Ok true /\
    audit_prev_hash r = match last rs with Some r => entry_hash r | None => h end /\
    exists b, json_to_vec (audit_payload r) = Some b /\ payload_hash r = sha3_256 b) as E; [|apply E].
  induction rs as [|x rs IH]; intros h.
  - cbn [app]. rewrite verify_records_cons. cbn. tauto.
  - cbn [app]. rewrite !verify_records_cons, IH, last_cons. destruct (last rs); tauto.
Qed.

(** Records as the code writes them: fixed-width fields. *)
Definition record_wf (r : AuditRecord) : Prop :=
  length (audit_prev_hash r) = 32%nat /\ length (payload_hash r) = 32%nat /\
  in_u32 (seq_no r) /\ 0 <= entry_type r < 256 /\ in_u64 (timestamp r).

Definition record_wfb (r : AuditRecord) : bool :=
  bool_decide (length (audit_prev_hash r) = 32%nat) && bool_decide (length (payload_hash r) = 32%nat)
  && (0 <=? seq_no r) && (seq_no r <=? u32_max) && (0 <=? entry_type r) && (entry_type r <? 256)
  && (0 <=? timestamp r) && (timestamp r <=? u64_max).

Lemma record_wfb_ok (rs : list AuditRecord) : forallb record_wfb rs = true -> Forall record_wf rs.
Proof.
  intros E. apply Forall_forall. intros r Hr. rewrite forallb_forall in E.
  apply list_elem_of_In, E in Hr. unfold record_wfb in Hr. rewrite !andb_true_iff in Hr.
  destruct Hr as (((((((H1 & H2) & ?) & ?) & ?) & ?) & ?) & ?).
  apply bool_decide_eq_true in H1, H2. unfold record_wf, in_u32, in_u64. split_and!; lia.
Qed.

Definition contents (r : AuditRecord) : bytes * Z * Z * json * Z :=
  (audit_prev_hash r, seq_no r, entry_type r, audit_payload r, timestamp r).

Lemma entry_bytes_inj (r s : AuditRecord) :
  record_wf r -> record_wf s -> entry_bytes r = entry_bytes s ->
  audit_prev_hash r = audit_prev_hash s /\ seq_no r = seq_no s /\ entry_type r = entry_type s /\
  payload_hash r = payload_hash s /\ timestamp r = timestamp s.
Proof.
  intros (H1 & H2 & H3 & H4 & H5) (K1 & K2 & K3 & K4 & K5) E. unfold entry_bytes in E.
  apply app_inj_len in E as [E1 E]; [|lia].
  apply app_inj_len in E as [E2 E]; [|by autorewrite with origin].
  apply app_inj_len in E as [E3 E]; [|done].
  apply app_inj_len in E as [E4 E5]; [|lia].
  unfold in_u32, u32_max, in_u64, u64_max in *.
  apply be_bytes_inj in E2; [|cbn; lia..]. apply be_bytes_inj in E5; [|cbn; lia..].
  injection E3 as E3. apply (f_equal code) in E3. rewrite !code_byte_of, !Z.mod_small in E3 by lia. done.
Qed.

Lemma entry_hash_eq `{!JsonOk} (r s : AuditRecord) (rs ss : list AuditRecord) :
  record_wf r -> record_wf s -> audit_next rs r -> audit_next ss s ->
  entry_hash r = entry_hash s -> contents r = contents s \/ collision sha3_256.
Proof.
  intros Hr Hs (_ & b & Hb & Eb) (_ & c & Hc & Ec) E.
  apply hash_eq_or_collision in E as [E|]; [|by right].
  apply entry_bytes_inj in E as (E1 & E2 & E3 & E4 & E5); [|done..].
  rewrite Eb, Ec in E4. apply hash_eq_or_collision in E4 as [<-|]; [left|by right].
  unfold contents. rewrite E1, E2, E3, E5. do 2 f_equal. apply json_inj. congruence.
Qed.
End AuditChain.

Section AuditTheorems.
Context `{Sdk, Env}.

Lemma audit_record_outcome (ty : Z) (payload : json) (keys : option OperatorKeys) (P : State -> Prop)
    (Q : result exn unit -> State -> Prop) :
  (forall σ r, P σ -> audit_next (st_audit (w_store σ)) r -> entry_type r = ty ->
     audit_payload r = payload -> Q (Ok tt) (on_store (fun s => push_audit s r) σ)) ->
  (forall e σ, P σ -> Q (Err (Fail e)) σ) ->
  hoare P (audit_record ty payload keys) Q.
Proof.
  intros Hok Herr. unfold audit_record.
  eapply hoare_bind with (Q := fun rs σ => rs = st_audit (w_store σ) /\ P σ).
  { apply hoare_read; auto. }
  intros rs. eapply hoare_bind with
    (Q := fun b σ => json_to_vec payload = Some b /\ rs = st_audit (w_store σ) /\ P σ).
  { unfold payload_bytes. apply hoare_lift; intros x σ E [-> Hσ]; [|by apply Herr].
    destruct (json_to_vec payload); by simplify_eq. }
  intros b. oracle n. eapply hoare_bind with (Q := fun r σ => audit_next rs r /\ entry_type r = ty /\
    audit_payload r = payload /\ rs = st_audit (w_store σ) /\ P σ).
  { apply hoare_lift; [|intros e σ _ (_ & _ & Hσ); by apply Herr].
    intros r σ E (Hb & -> & Hσ). destruct keys as [k|]; cbn [sign_audit] in E; inv_ok E;
      (split; [split; [done|by exists b]|done]). }
  intros r. apply hoare_append; [|intros e σ _ (_ & _ & _ & _ & Hσ); by apply Herr].
  intros σ (Hn & Ht & Hp & -> & Hσ). by apply Hok.
Qed.

(** recording an audit entry keeps the chain verifiable: under every fault
    schedule, if the log verified before, it verifies after, it has grown by at most
    one record, and when the call succeeds that record is the new entry. *)
Theorem audit_record_verifies (ty : Z) (payload : json) (keys : option OperatorKeys)
    (σ : State) (t : nat)
    (Hv : verify_records ZERO_HASH (st_audit (w_store σ)) = Ok true) :
  let out := audit_record ty payload keys σ t in
  let log' := st_audit (w_store out.2.1) in
  verify_records ZERO_HASH log' = Ok true /\
  match out.1 with
  | Ok _ => exists r, log' = st_audit (w_store σ) ++ [r] /\ entry_type r = ty /\ audit_payload r = payload
  | Err _ => log' = st_audit (w_store σ)
  end.
Proof.
  cbn zeta. apply (audit_record_outcome ty payload keys (fun σ' => σ' = σ)
    (fun r σ' => verify_records ZERO_HASH (st_audit (w_store σ')) = Ok true /\
       match r with
       | Ok _ => exists r, st_audit (w_store σ') = st_audit (w_store σ) ++ [r] /\
                   entry_type r = ty /\ audit_payload r = payload
       | Err _ => st_audit (w_store σ') = st_audit (w_store σ)
       end)); [|by intros e ? ->|done].
  intros σ' r -> Hn Ht Hp.
  assert (st_audit (w_store (on_store (fun s => push_audit s r) σ)) = st_audit (w_store σ) ++ [r]) as ->
    by (cbn; by destruct (w_store σ)).
  split; [by apply verify_records_snoc|]. by exists r.
Qed.

(** tamper evidence of the audit stream: two logs that verify and end in the
    same entry hash record the same payloads, types, sequence numbers and timestamps in the same
    order, unless SHA3-256 has a collision or a preimage of zero is known. *)
Theorem audit_head_binds `{!JsonOk} (rs ss : list AuditRecord)
    (Hr : verify_records ZERO_HASH rs = Ok true) (Hs : verify_records ZERO_HASH ss = Ok true)
    (Wr : Forall record_wf rs) (Ws : Forall record_wf ss) (Hh : audit_head rs = audit_head ss) :
  map contents rs = map contents ss \/ collision sha3_256 \/ exists x, sha3_256 x = ZERO_HASH.
Proof.
  revert ss Hs Ws Hh. induction rs as [|r rs IH] using rev_ind; intros ss Hs Ws Hh;
    destruct ss as [|s ss _] using rev_ind; [by left|..].
  1,2: rewrite audit_head_snoc in Hh; do 2 right; by eexists.
  apply verify_records_snoc in Hr as [Hr Hrn]. apply verify_records_snoc in Hs as [Hs Hsn].
  apply Forall_app in Wr as [Wr Wr1]. apply Forall_app in Ws as [Ws Ws1].
  apply Forall_cons in Wr1 as [Wr1 _]. apply Forall_cons in Ws1 as [Ws1 _].
  rewrite !audit_head_snoc in Hh.
  destruct (entry_hash_eq r s rs ss Wr1 Ws1 Hrn Hsn Hh) as [E|]; [|auto].
  destruct (IH Hr Wr ss Hs Ws) as [IH'|?]; [|left|by right].
  - destruct Hrn as [<- _], Hsn as [<- _]. unfold contents in E. congruence.
  - rewrite !map_app, IH'. cbn [map]. by rewrite E.
Qed.
End AuditTheorems.

Module AuditWitness.
Import ToyEnv.
#[local] Existing Instance Toy.sdk.
#[local] Instance the_env : Env := env None.

Definition one : State := (audit_record AT_ORDER_CREATED (JStr "o1") None start 0%nat).2.1.

Lemma one_verifies : verify_records ZERO_HASH (st_audit (w_store one)) = Ok true.
Proof. vm_compute. reflexivity. Qed.

Lemma one_wf : Forall record_wf (st_audit (w_store one)).
Proof. apply record_wfb_ok. vm_compute. reflexivity. Qed.

Lemma audit_record_verifies_witness :
  verify_records ZERO_HASH (st_audit (w_store one)) = Ok true /\
  verify_records ZERO_HASH
    (st_audit (w_store (audit_record AT_ORDER_SETTLED (JStr "o1") None one 7%nat).2.1)) = Ok true.
Proof.
  split; [exact one_verifies|].
  exact (proj1 (audit_record_verifies AT_ORDER_SETTLED (JStr "o1") None one 7%nat one_verifies)).
Defined.

Lemma audit_head_binds_witness :
  let rs := st_audit (w_store one) in
  verify_records ZERO_HASH rs = Ok true /\
  (map contents rs = map contents rs \/ collision sha3_256 \/ exists x, sha3_256 x = ZERO_HASH).
Proof.
  split; [exact one_verifies|].
  exact (audit_head_binds _ _ one_verifies one_verifies one_wf one_wf eq_refl).
Defined.
End AuditWitness.
