(* ===== verification/Retry.v ===== *)
(** * Retries (origin-payments/src/retry.rs)

    Exponential backoff with a cap and jitter, and the schedule-or-give-up
    decision.  Delays are [u64] milliseconds; the casts to [i64] and the
    products wrap as in the release profile, and [clamp] panics when its
    bounds are crossed. *)

From Stdlib Require Import Ascii String.
From S2P Require Import Prelude RustStr Bytes Sdk PayError Amount Event Mmr Store Hoare.

(** [i64::clamp]: panics (here [None]) when [lo > hi]. *)
Definition clamp (x lo hi : Z) : option Z :=
  if hi <? lo then None else Some (if x <? lo then lo else if hi <? x then hi else x).

(** The delay before jitter. *)
Definition backoff_base (p : RetryPolicy) (attempt : Z) (retry_after_ms : option Z) : Z :=
  let exp := sat_mul_u64 (base_ms p) (sat_pow_u64 (factor p) (Z.to_nat (sat_sub_u attempt 1))) in
  Z.min (default exp retry_after_ms) (cap_ms p).

(** [next_backoff_ms] on eight random bytes. *)
Definition next_backoff_ms (p : RetryPolicy) (attempt : Z) (retry_after_ms : option Z)
    (random : bytes) : option Z :=
  let base := backoff_base p attempt retry_after_ms in
  let raw := le_val random in
  let fraction := raw mod 51 - 25 in
  let delta := Z.quot (wrap_i64 (wrap_i64 base * fraction)) 100 in
  wrap_u64 <$> clamp (wrap_i64 (wrap_i64 base + delta)) 1 (wrap_i64 (cap_ms p)).

Definition is_retryable (e : Error) : bool :=
  match e with RailUnavailable _ _ => true | _ => false end.

Section Retry.
Context `{Env}.

Definition schedule_retry (o : PaymentOrder) (reason : string) (p : RetryPolicy)
    (retry_after_ms : option Z) : M (bool * PaymentOrder) :=
  if max_attempts p <=? attempts o then mret (false, o)
  else
    t ← tick;
    match next_backoff_ms p (attempts o) retry_after_ms (env_random t) with
    | None => panic "assertion failed: min <= max"
    | Some ms =>
        now ← now_nanos;
        let deadline := rfc3339 (now + wrap_i64 ms * 1000000) in
        o ← transition_now o Failed;
        let o := set_next_retry_at o (Some deadline) in
        _ ← update_order o;
        _ ← append_retry_job {| job_order_id := payment_order_id o; job_attempt := attempts o;
                                job_next_retry_at := default EmptyString (next_retry_at o);
                                backoff_ms := ms; last_error := reason |};
        mret (true, o)
    end.
End Retry.

(** ** Bounds *)

Lemma sat_pow_nonneg (a : Z) (n : nat) : 0 <= a -> 0 <= sat_pow_u64 a n <= u64_max.
Proof.
  intros Ha. induction n as [|n IH]; cbn [sat_pow_u64]; [by vm_compute|].
  unfold sat_mul_u64. assert (0 <= sat_pow_u64 a n * a) by nia. unfold u64_max in *. lia.
Qed.

Lemma backoff_base_range (p : RetryPolicy) (attempt : Z) (hint : option Z) :
  0 <= base_ms p -> 0 <= factor p -> 0 <= cap_ms p -> (forall h, hint = Some h -> 0 <= h) ->
  0 <= backoff_base p attempt hint <= cap_ms p.
Proof.
  intros Hb Hf Hc Hh. unfold backoff_base.
  pose proof (sat_pow_nonneg (factor p) (Z.to_nat (sat_sub_u attempt 1)) Hf) as Hp.
  assert (0 <= sat_mul_u64 (base_ms p) (sat_pow_u64 (factor p) (Z.to_nat (sat_sub_u attempt 1)))).
  { unfold sat_mul_u64. assert (0 <= base_ms p * sat_pow_u64 (factor p) (Z.to_nat (sat_sub_u attempt 1))) by nia.
    unfold u64_max. lia. }
  destruct hint as [h|]; cbn; [specialize (Hh h eq_refl)|]; lia.
Qed.

Lemma clamp_spec (x lo hi : Z) : lo <= hi -> exists y, clamp x lo hi = Some y /\ y = Z.max lo (Z.min x hi).
Proof.
  intros Hl. unfold clamp. destruct (Z.ltb_spec hi lo); [lia|]. eexists. split; [done|].
  destruct (Z.ltb_spec x lo); [lia|]. destruct (Z.ltb_spec hi x); lia.
Qed.

Lemma jitter_bound (base f : Z) :
  0 <= base -> -25 <= f <= 25 -> - (base / 4) <= Z.quot (base * f) 100 <= base / 4.
Proof.
  intros Hb Hf.
  assert (Z.quot (base * 25) 100 = base / 4) as E.
  { rewrite Z.quot_div_nonneg by lia. change 100 with (4 * 25). by rewrite Z.div_mul_cancel_r. }
  split; [rewrite <- E, <- Z.quot_opp_l by lia|rewrite <- E]; apply Z.quot_le_mono; nia.
Qed.

(** for a policy with a positive cap of at most [i64::MAX] milliseconds, the
    backoff never panics and lies between 1 ms and the cap, whatever the jitter; and when
    the cap leaves room for the jitter product ([25 * cap] fits in [i64]) it
    is within a quarter of the exponential (or hinted) delay. *)
Theorem next_backoff_bounds (p : RetryPolicy) (attempt : Z) (hint : option Z) (random : bytes)
    (Hb : 0 <= base_ms p) (Hf : 0 <= factor p) (Hc : 1 <= cap_ms p <= i64_max)
    (Hh : forall h, hint = Some h -> 0 <= h) :
  exists ms, next_backoff_ms p attempt hint random = Some ms /\ 1 <= ms <= cap_ms p /\
    (25 * cap_ms p <= i64_max ->
     let base := backoff_base p attempt hint in
     base - base / 4 <= ms <= Z.max 1 (base + base / 4)).
Proof.
  pose proof (backoff_base_range p attempt hint Hb Hf ltac:(lia) Hh) as Hr.
  unfold next_backoff_ms. set (base := backoff_base p attempt hint) in *.
  set (f := le_val random mod 51 - 25).
  assert (-25 <= f <= 25) as Hfr by (pose proof (Z.mod_pos_bound (le_val random) 51 ltac:(lia)); lia).
  rewrite (wrap_i64_id base), (wrap_i64_id (cap_ms p)) by (unfold in_i64; lia).
  set (d := Z.quot (wrap_i64 (base * f)) 100).
  destruct (clamp_spec (wrap_i64 (base + d)) 1 (cap_ms p) ltac:(lia)) as (ms & -> & Ems).
  exists ms. cbn. rewrite wrap_u64_id by (unfold in_u64, u64_max, i64_max in *; lia).
  split_and!; [done|lia|lia|]. intros Hcap.
  assert (wrap_i64 (base * f) = base * f) as Ew by (apply wrap_i64_id; unfold in_i64, i64_max in *; nia).
  unfold d in Ems. rewrite Ew in Ems. destruct (jitter_bound base f ltac:(lia) Hfr) as [Hd1 Hd2].
  assert (base / 4 <= base) by (apply Z.div_le_upper_bound; lia).
  rewrite wrap_i64_id in Ems by (unfold in_i64, i64_max in *; lia). lia.
Qed.

Lemma next_backoff_bounds_witness :
  exists ms, next_backoff_ms retry_policy_default 3 None (replicate 8 (byte_of 0)) = Some ms /\
    1 <= ms <= 300000 /\ (25 * 300000 <= i64_max ->
      let base := backoff_base retry_policy_default 3 None in
      base - base / 4 <= ms <= Z.max 1 (base + base / 4)).
Proof.
  apply (next_backoff_bounds retry_policy_default 3 None (replicate 8 (byte_of 0)));
    [done|done|by vm_compute|done].
Defined.

(** A configured cap of zero makes every backoff computation panic: the
    jittered delay is clamped between 1 and the cap. *)
Theorem next_backoff_zero_cap_panics (p : RetryPolicy) (attempt : Z) (hint : option Z) (random : bytes)
    (Hc : cap_ms p = 0) : next_backoff_ms p attempt hint random = None.
Proof. unfold next_backoff_ms. rewrite Hc. done. Qed.

Lemma next_backoff_zero_cap_panics_witness :
  next_backoff_ms {| base_ms := 1000; factor := 2; cap_ms := 0; max_attempts := 5 |} 1 None [] = None.
Proof. by apply next_backoff_zero_cap_panics. Defined.
