(* ===== verification/Compliance.v ===== *)
(** * Compliance scoring (origin-payments/src/compliance.rs)

    The executor asks a scorer for a verdict before any rail call.  The trait
    is a function of the order (and of the tick, since a plug-in may consult
    anything); the two implementations of the repository are below. *)

From Stdlib Require Import Ascii String.
From S2P Require Import Prelude RustStr Bytes Sdk PayError Amount Event Journal.

Inductive ComplianceVerdict :=
| Accept
| Flag (reason : string)
| Reject (reason : string) (evidence : json).

Definition ComplianceScorer : Type := nat -> PaymentOrder -> result Error ComplianceVerdict.

Definition accept_all : ComplianceScorer := fun _ _ => Ok Accept.

Record RuleBasedScorer := {
  flag_threshold_minor : Z;
  reject_threshold_minor : Z;
  allowed_counterparties : option (list string)
}.

Definition rule_amount (o : PaymentOrder) : Z :=
  match parse_amount (amount o) with Ok m => m | Err _ => 0 end.

Definition allowed (s : RuleBasedScorer) (o : PaymentOrder) : bool :=
  match allowed_counterparties s with
  | Some l => bool_decide (to o ∈ l)
  | None => true
  end.

Definition rule_score (s : RuleBasedScorer) : ComplianceScorer := fun _ o =>
  let amt := rule_amount o in
  if negb (allowed s o)
  then Ok (Reject ("counterparty " +:+ to o +:+ " is not in the allowlist")
             (JObj [("allowed", JArr (map JStr (default [] (allowed_counterparties s))));
                    ("to", JStr (to o))]))
  else if reject_threshold_minor s <=? amt
  then Ok (Reject ("amount " +:+ amount o +:+ " exceeds reject threshold "
                   +:+ show_i64 (reject_threshold_minor s))
             (JObj [("amount", JStr (amount o));
                    ("reject_threshold_minor", JNum (reject_threshold_minor s))]))
  else if flag_threshold_minor s <=? amt
  then Ok (Flag ("amount " +:+ amount o +:+ " exceeds flag threshold "
                 +:+ show_i64 (flag_threshold_minor s)))
  else Ok Accept.
