(* ===== verification/Http.v ===== *)
(** * The HTTP client of the x402 rail (origin-payments/src/x402.rs, transport part)

    Request bytes, response framing and header parsing of the std-only
    HTTP/1.1 client.  The TCP and TLS streams are outside the repository:
    [Net] says, at each tick, whether a connection, a TLS handshake and a
    write succeed and which chunks the peer sends before it closes or the
    read times out. *)

From Stdlib Require Import Ascii String.
From S2P Require Import Prelude RustStr Bytes RustText Sdk PayError Amount Event Mmr Store Hoare.

Class Net := {
  net_connect : nat -> string -> option string;
  net_tls : nat -> string -> option string;
  net_write : nat -> option string;
  net_chunks : nat -> list bytes
}.

(** ** URLs *)

Record ParsedUrl := { host : string; port : Z; url_path : string; tls : bool }.

Definition not_configured (details : string) : Error := RailNotConfigured "http402" details.
Definition unavailable (details : string) : Error := RailUnavailable "http402" details.

Definition parse_url (url : string) : result Error ParsedUrl :=
  let pick :=
    match strip_prefix (chars "https://") (chars url) with
    | Some r => Some (r, true)
    | None => match strip_prefix (chars "http://") (chars url) with
              | Some r => Some (r, false)
              | None => None
              end
    end in
  match pick with
  | None => Err (not_configured ("unsupported scheme in " +:+ url
                 +:+ " (the x402 client speaks http:// and https://)"))
  | Some (rest, is_tls) =>
      let '(authority, p) :=
        match find_split slash rest with Some (a, p) => (a, p) | None => (rest, [slash]) end in
      '(h, n) ← match rsplit_once colon authority with
                | Some (h, pt) =>
                    match parse_unsigned 65535 pt with
                    | Some n => Ok (h, n)
                    | None => Err (not_configured ("bad port in " +:+ url))
                    end
                | None => Ok (authority, if is_tls then 443 else 80)
                end;
      match h with
      | [] => Err (not_configured ("empty host in " +:+ url))
      | _ => Ok {| host := of_chars h; port := n; url_path := of_chars p; tls := is_tls |}
      end
  end.

(** ** Responses *)

(** The position of the blank line: the head before it and the body after it. *)
Fixpoint split_head (l : bytes) : option (bytes * bytes) :=
  match strip_prefix [cr; lf; cr; lf] l with
  | Some body => Some ([], body)
  | None => match l with
            | [] => None
            | a :: l' => match split_head l' with Some (h, b) => Some (a :: h, b) | None => None end
            end
  end.

(** The first parsable [Content-Length] among the header lines. *)
Fixpoint content_length (ls : list (list ascii)) : option Z :=
  match ls with
  | [] => None
  | l :: ls' =>
      match split_once colon l with
      | Some (k, v) =>
          if bool_decide (map lower (trim_chars k) = chars "content-length")
          then match parse_unsigned u64_max (trim_chars v) with
               | Some n => Some n
               | None => content_length ls'
               end
          else content_length ls'
      | None => content_length ls'
      end
  end.

Definition response_complete (buf : bytes) : bool :=
  match split_head buf with
  | None => false
  | Some (h, _) =>
      match content_length (lines (utf8_lossy h)) with
      | Some n => wrap_u64 (Z.of_nat (length h) + 4 + n) <=? Z.of_nat (length buf)
      | None => true
      end
  end.

Definition Headers : Type := gmap string string.

(** Header names are lower-cased and trimmed; the last of a repeated name wins. *)
Definition add_header (m : Headers) (l : list ascii) : Headers :=
  match split_once colon l with
  | Some (k, v) => <[of_chars (map lower (trim_chars k)) := of_chars (trim_chars v)]> m
  | None => m
  end.

Definition parse_http_response (buf : bytes) : result Error (Z * Headers * bytes) :=
  match split_head buf with
  | None => Err (unavailable "incomplete HTTP response (no header terminator)")
  | Some (h, body) =>
      match lines (utf8_lossy h) with
      | [] => Err (unavailable "empty HTTP response")
      | status_line :: ls =>
          match nth_error (words_go [] status_line) 1 with
          | Some w =>
              match parse_unsigned 65535 w with
              | Some status => Ok (status, foldl add_header ∅ ls, body)
              | None => Err (unavailable ("malformed status line: " +:+ of_chars status_line))
              end
          | None => Err (unavailable ("malformed status line: " +:+ of_chars status_line))
          end
      end
  end.

(** ** Requests *)

Definition crlf : string := of_chars [cr; lf].

Definition host_header (u : ParsedUrl) : string := host u +:+ ":" +:+ show_Z (port u).

Definition request_bytes (method : string) (u : ParsedUrl) (body : option bytes)
    (extra : list (string * string)) : bytes :=
  as_bytes (method +:+ " " +:+ url_path u +:+ " HTTP/1.1" +:+ crlf +:+ "Host: " +:+ host_header u +:+ crlf
            +:+ "User-Agent: origin-payments/x402" +:+ crlf +:+ "Accept: */*" +:+ crlf)
  ++ match body with
     | Some b => as_bytes ("Content-Type: application/json" +:+ crlf +:+ "Content-Length: "
                           +:+ show_Z (Z.of_nat (length b)) +:+ crlf)
     | None => []
     end
  ++ concat (map (fun '(k, v) => as_bytes (k +:+ ": " +:+ v +:+ crlf)) extra)
  ++ as_bytes crlf ++ default [] body.

(** The read loop: chunks are read until the response is complete, the peer
    closes (an empty chunk) or the read fails (no more chunks). *)
Fixpoint read_response (buf : bytes) (chunks : list bytes) : bytes :=
  match chunks with
  | [] | [] :: _ => buf
  | c :: cs => let buf := buf ++ c in
               if response_complete buf then buf else read_response buf cs
  end.

Section Client.
Context `{Env, Net}.

Definition http_request (method url : string) (body : option bytes) (extra : list (string * string))
    (rail : string) : M (Z * Headers * bytes) :=
  u ← lift (parse_url url);
  let addr := host_header u in
  t ← tick;
  _ ← match net_connect t addr with
      | Some e => throw (RailUnavailable rail ("connecting " +:+ addr +:+ ": " +:+ e))
      | None => mret tt
      end;
  _ ← io "setting read timeout";
  _ ← (if tls u then
         t ← tick;
         match net_tls t (host u) with
         | Some e => throw (unavailable e)
         | None => mret tt
         end
       else mret tt);
  let req := request_bytes method u body extra in
  _ ← send (CallHttp addr req);
  t ← tick;
  match net_write t with
  | Some e => throw (unavailable ("sending request to " +:+ addr +:+ ": " +:+ e))
  | None => lift (parse_http_response (read_response [] (net_chunks t)))
  end.

Definition http_get (url : string) (extra : list (string * string)) (rail : string)
    : M (Z * Headers * bytes) := http_request "GET" url None extra rail.
Definition http_post (url : string) (body : bytes) (extra : list (string * string)) (rail : string)
    : M (Z * Headers * bytes) := http_request "POST" url (Some body) extra rail.
End Client.

(** ** Framing *)

Lemma strip_prefix_app_Some (p l k y : list ascii) :
  strip_prefix p l = Some k -> strip_prefix p (l ++ y) = Some (k ++ y).
Proof. intros E. apply strip_prefix_Some in E as ->. rewrite <- app_assoc. apply strip_prefix_app. Qed.

Lemma strip_prefix_app_None (p l y : list ascii) :
  (length p <= length l)%nat -> strip_prefix p l = None -> strip_prefix p (l ++ y) = None.
Proof.
  revert l. induction p as [|a p IH]; intros [|b l] Hl E; cbn in *; try done; [lia|].
  destruct (Ascii.eqb a b); [|done]. apply IH; [lia|done].
Qed.

Lemma split_head_eq (l h b : bytes) : split_head l = Some (h, b) -> l = h ++ [cr; lf; cr; lf] ++ b.
Proof.
  revert h b. induction l as [|a l IH]; intros h b E; [done|]. cbn [split_head] in E.
  destruct (strip_prefix [cr; lf; cr; lf] (a :: l)) as [k|] eqn:Es.
  - injection E as <- <-. by apply strip_prefix_Some in Es.
  - destruct (split_head l) as [[h' b']|]; [|done]. injection E as <- <-. cbn. by rewrite (IH h' b').
Qed.

Lemma split_head_app (l y h b : bytes) :
  split_head l = Some (h, b) -> split_head (l ++ y) = Some (h, b ++ y).
Proof.
  revert h b. induction l as [|a l IH]; intros h b E; [done|]. cbn [split_head app] in *.
  destruct (strip_prefix [cr; lf; cr; lf] (a :: l)) as [k|] eqn:Es.
  - injection E as <- <-. change (a :: l ++ y) with ((a :: l) ++ y).
    by rewrite (strip_prefix_app_Some _ _ _ _ Es).
  - destruct (split_head l) as [[h' b']|] eqn:El; [|done]. injection E as <- <-.
    change (a :: l ++ y) with ((a :: l) ++ y). rewrite strip_prefix_app_None; [| |done].
    + by rewrite (IH h' b' eq_refl).
    + apply split_head_eq in El as ->. cbn. rewrite length_app. cbn. lia.
Qed.

(** A proper prefix of a response with a declared length is not complete. *)
Lemma complete_prefix (buf rest h body : bytes) (n : Z) :
  split_head (buf ++ rest) = Some (h, body) -> content_length (lines (utf8_lossy h)) = Some n ->
  n = Z.of_nat (length body) -> in_u64 (Z.of_nat (length (buf ++ rest))) ->
  response_complete buf = true -> rest = [].
Proof.
  intros Hs Hc Hn Hr. unfold response_complete.
  destruct (split_head buf) as [[h' b']|] eqn:Eb; [|done].
  pose proof (split_head_app _ rest _ _ Eb) as Ea. rewrite Hs in Ea. injection Ea as -> ->.
  rewrite Hc. intros Hle. apply Z.leb_le in Hle.
  apply split_head_eq in Eb as ->. rewrite !length_app in *. cbn [length] in *.
  rewrite wrap_u64_id in Hle by (unfold in_u64 in *; lia).
  apply length_zero_iff_nil. lia.
Qed.

Lemma read_response_all (cs : list bytes) (buf h body : bytes) (n : Z) :
  split_head (buf ++ concat cs) = Some (h, body) -> content_length (lines (utf8_lossy h)) = Some n ->
  n = Z.of_nat (length body) -> in_u64 (Z.of_nat (length (buf ++ concat cs))) ->
  Forall (fun c => c <> []) cs -> read_response buf cs = buf ++ concat cs.
Proof.
  revert buf. induction cs as [|c cs IH]; intros buf Hs Hc Hn Hr Hne; cbn [read_response concat] in *.
  { by rewrite app_nil_r. }
  apply Forall_cons in Hne as [Hc0 Hne]. destruct c as [|x c]; [done|].
  rewrite app_assoc in *. destruct (response_complete (buf ++ x :: c)) eqn:Er; [|by apply IH].
  assert (concat cs = []) as -> by (by eapply complete_prefix). by rewrite app_nil_r.
Qed.

(** framing: a response that declares its [Content-Length] is received whole and parsed into
    its head and body, however the network cuts it into non-empty chunks. *)
Theorem read_response_chunking (cs : list bytes) (h body : bytes) (n : Z)
    (Hs : split_head (concat cs) = Some (h, body)) (Hc : content_length (lines (utf8_lossy h)) = Some n)
    (Hn : n = Z.of_nat (length body)) (Hr : in_u64 (Z.of_nat (length (concat cs))))
    (Hne : Forall (fun c => c <> []) cs) :
  read_response [] cs = concat cs /\
  forall st hd b, parse_http_response (read_response [] cs) = Ok (st, hd, b) -> b = body.
Proof.
  assert (read_response [] cs = concat cs) as -> by (by eapply (read_response_all cs [])).
  split; [done|]. intros st hd b E. unfold parse_http_response in E. rewrite Hs in E.
  destruct (lines (utf8_lossy h)); [done|]. destruct (nth_error _ 1); [|done].
  destruct (parse_unsigned 65535 _); by simplify_eq.
Qed.

Definition sample_head : bytes :=
  as_bytes ("HTTP/1.1 200 OK" +:+ crlf +:+ "Content-Length: 5" +:+ crlf +:+ crlf).

Lemma read_response_chunking_witness :
  read_response [] [sample_head; as_bytes "he"; as_bytes "llo"] = sample_head ++ as_bytes "hello" /\
  forall st hd b, parse_http_response (read_response [] [sample_head; as_bytes "he"; as_bytes "llo"])
    = Ok (st, hd, b) -> b = as_bytes "hello".
Proof.
  apply (read_response_chunking [sample_head; as_bytes "he"; as_bytes "llo"]
    (take 34 sample_head) (as_bytes "hello") 5); try (vm_compute; reflexivity).
  - vm_compute. split; discriminate.
  - repeat constructor; discriminate.
Defined.

(** A response without [Content-Length] counts as complete as soon as its
    header block is in, so a body that arrives in a later chunk is dropped
    although the server has not closed. *)
Theorem response_without_length_truncated :
  exists head body, split_head (head ++ body) = Some (take (length head - 4) head, body) /\ body <> [] /\
    exists hd, parse_http_response (read_response [] [head; body]) = Ok (200, hd, []).
Proof.
  exists (as_bytes ("HTTP/1.1 200 OK" +:+ crlf +:+ crlf)), (as_bytes "{}").
  split; [by vm_compute|]. split; [done|]. eexists. vm_compute. reflexivity.
Qed.
