(* ===== verification/Jsonl.v ===== *)
(** * JSON-lines files (origin-payments/src/store.rs, JSONL plumbing)

    A collection of the store is one file of JSON lines.  Here is the file as
    bytes: a missing file or its contents, with the append and the read of
    the code on it, and the proof that such a file behaves as the list of the
    records appended to it, which is how the other files model the store.
    The encoding of a record type ([serde_json::to_vec] and [from_str]) is a
    parameter. *)

From Stdlib Require Import Ascii String.
From S2P Require Import Prelude RustStr Bytes Sdk PayError Amount Event Mmr Store Hoare RustText Http.

(** What a read or an append on the bytes of a file gives. *)
Section Jsonl.
Context {T : Type}.
Variables (to_vec : T -> result string bytes) (from_str : bytes -> result string T).

Definition file_append (path : string) (file : option bytes) (item : T) : result Error (option bytes) :=
  line ← map_err (fun e => StoreCorrupted ("serializing record for " +:+ path +:+ ": " +:+ e)) (to_vec item);
  Ok (Some (default [] file ++ line ++ [lf])).

(** [line.trim().is_empty()]. *)
Definition blank (line : bytes) : bool := match trim_chars line with [] => true | _ => false end.

Fixpoint read_records (path : string) (i : Z) (ls : list bytes) : result Error (list T) :=
  match ls with
  | [] => Ok []
  | l :: ls' =>
      if blank l then read_records path (i + 1) ls'
      else
        item ← map_err (fun e => StoreCorrupted (path +:+ " line " +:+ show_Z (i + 1) +:+ ": " +:+ e)) (from_str l);
        items ← read_records path (i + 1) ls';
        Ok (item :: items)
  end.

Definition file_read (path : string) (file : option bytes) : result Error (list T) :=
  match file with
  | None => Ok []
  | Some raw =>
      if utf8_valid raw then read_records path 0 (lines raw)
      else Err (IoError ("reading " +:+ path +:+ ": stream did not contain valid UTF-8"))
  end.

Fixpoint append_items (path : string) (file : option bytes) (l : list T) : result Error (option bytes) :=
  match l with
  | [] => Ok file
  | x :: l' => f ← file_append path file x; append_items path f l'
  end.

(** ** Laws of the encoding

    A record is a JSON object on one line ([serde_json] escapes control
    characters in strings), in UTF-8, and reads back as itself. *)
Record JsonlOk : Prop := {
  rec_encodes : forall x, exists b, to_vec x = Ok b;
  rec_shape : forall x b, to_vec x = Ok b -> exists m, b = "{"%char :: m ++ ["}"%char];
  rec_no_lf : forall x b, to_vec x = Ok b -> Forall (fun a => a <> lf) b;
  rec_utf8 : forall x b, to_vec x = Ok b -> utf8_valid b = true;
  rec_decodes : forall x b, to_vec x = Ok b -> from_str b = Ok x
}.

(** ** UTF-8 *)

(** ** Lines *)

Lemma drop_ws_ascii (back : bool) (a : ascii) (l : bytes) : plain a -> drop_ws back (a :: l) = a :: l.
Proof.
  intros [Ha Hw]. cbn. rewrite Hw. destruct l as [|b l]; [done|].
  assert ((if back then is_ws2 b a else is_ws2 a b) = false) as ->
    by (unfold is_ws2; destruct back; lia).
  destruct l as [|c l]; [done|].
  assert ((if back then is_ws3 c b a else is_ws3 a b c) = false) as -> by (unfold is_ws3; destruct back; lia).
  done.
Qed.

Lemma object_not_blank (m : bytes) : blank ("{"%char :: m ++ ["}"%char]) = false.
Proof.
  unfold blank, trim_chars. rewrite drop_ws_ascii by done.
  rewrite app_comm_cons, rev_app_distr. cbn [rev app]. rewrite drop_ws_ascii by done.
  destruct (rev _) eqn:E; [|done]. apply (f_equal length) in E. rewrite length_rev in E. done.
Qed.

Lemma strip_cr_object (l : bytes) : strip_cr (l ++ ["}"%char]) = l ++ ["}"%char].
Proof. unfold strip_cr. by rewrite rev_app_distr. Qed.

Definition line_of (b : bytes) : bytes := b ++ [lf].

Lemma lines_concat (bs : list bytes) :
  Forall (Forall (fun a => a <> lf)) bs -> lines (concat (map line_of bs)) = map strip_cr bs.
Proof.
  intros Hbs. assert (split_on lf (concat (map line_of bs)) = bs ++ [[]]) as E.
  { induction Hbs as [|b bs Hb Hbs IH]; [done|]. cbn [map concat]. unfold line_of at 1.
    rewrite <- app_assoc. cbn [app]. rewrite split_on_sep by done. cbn [app]. by rewrite <- IH. }
  unfold lines. rewrite E, rev_app_distr. cbn [rev app]. by rewrite rev_involutive.
Qed.

(** ** The file as a list of records *)

(** [file] holds the encodings of [xs], a line each. *)
Definition holds (file : option bytes) (xs : list T) : Prop :=
  exists bs, Forall2 (fun x b => to_vec x = Ok b) xs bs /\ default [] file = concat (map line_of bs).

Context (Hok : JsonlOk).

Lemma holds_append (path : string) (file : option bytes) (xs : list T) (x : T) :
  holds file xs -> exists file', file_append path file x = Ok file' /\ holds file' (xs ++ [x]).
Proof.
  intros (bs & Hbs & E). destruct (rec_encodes Hok x) as [b Hb].
  unfold file_append. rewrite Hb. cbn. eexists. split; [done|]. exists (bs ++ [b]). split.
  - apply Forall2_app; [done|]. by constructor.
  - cbn. rewrite map_app, concat_app, E. cbn. by rewrite app_nil_r.
Qed.

Lemma holds_utf8 (xs : list T) (bs : list bytes) :
  Forall2 (fun x b => to_vec x = Ok b) xs bs -> utf8_valid (concat (map line_of bs)) = true.
Proof.
  induction 1 as [|x b xs bs Hb Hbs IH]; [done|]. cbn [map concat].
  rewrite utf8_valid_app; [done|]. unfold line_of. by rewrite utf8_valid_app by by eapply rec_utf8.
Qed.

Lemma read_records_ok (path : string) (xs : list T) (bs : list bytes) (i : Z) :
  Forall2 (fun x b => to_vec x = Ok b) xs bs -> read_records path i (map strip_cr bs) = Ok xs.
Proof.
  intros Hbs. revert i. induction Hbs as [|x b xs bs Hb Hbs IH]; intros i; [done|].
  cbn [map read_records]. destruct (rec_shape Hok x b Hb) as [m Em].
  assert (strip_cr b = b) as -> by (rewrite Em, app_comm_cons; apply strip_cr_object).
  assert (blank b = false) as -> by (rewrite Em; apply object_not_blank).
  rewrite (rec_decodes Hok x b Hb). cbn. by rewrite IH.
Qed.

Lemma holds_read (path : string) (file : option bytes) (xs : list T) :
  holds file xs -> file_read path file = Ok xs.
Proof.
  intros (bs & Hbs & E). destruct file as [raw|]; cbn in *.
  - rewrite E, (holds_utf8 _ _ Hbs), lines_concat; [by apply read_records_ok|].
    clear E. induction Hbs; constructor; [by eapply rec_no_lf|done].
  - inversion Hbs as [|x b xs' bs' Hb Hbs']; subst; [done|]. cbn in E. unfold line_of in E.
    apply (f_equal length) in E. rewrite !length_app in E. cbn in E. lia.
Qed.

Lemma holds_append_items (path : string) (l : list T) (file : option bytes) (xs : list T) :
  holds file xs -> exists file', append_items path file l = Ok file' /\ holds file' (xs ++ l).
Proof.
  revert file xs. induction l as [|x l IH]; intros file xs Hf; cbn.
  { exists file. by rewrite app_nil_r. }
  destruct (holds_append path file xs x Hf) as (f1 & -> & Hf1). cbn.
  destruct (IH f1 _ Hf1) as (f2 & E2 & Hf2). exists f2. by rewrite <- app_assoc in Hf2.
Qed.
End Jsonl.

(** a JSON-lines file is the list of its records: from a missing file, any
    sequence of appends succeeds, and reading the bytes it leaves gives back
    exactly the appended records, in order; one more append and read gives one more record. *)
Theorem jsonl_refines_list {T : Type} (to_vec : T -> result string bytes) (from_str : bytes -> result string T)
    (Hok : JsonlOk to_vec from_str) (path : string) (l : list T) :
  exists file, append_items to_vec path None l = Ok file /\ file_read from_str path file = Ok l /\
    forall x, exists file', file_append to_vec path file x = Ok file' /\
      file_read from_str path file' = Ok (l ++ [x]).
Proof.
  assert (holds to_vec None []) as H0 by (exists []; split; [constructor|done]).
  destruct (holds_append_items to_vec from_str Hok path l None [] H0) as (f & E & Hf).
  exists f. split_and!; [done|by eapply holds_read|]. intros x.
  destruct (holds_append to_vec from_str Hok path f l x Hf) as (f' & E' & Hf').
  exists f'. split; [done|by eapply holds_read].
Qed.

(** A record type with a readable encoding: a flag. *)
Module ToyJsonl.
Definition to_vec (b : bool) : result string bytes := Ok (chars (if b then "{1}" else "{0}")).
Definition from_str (l : bytes) : result string bool :=
  if bool_decide (l = chars "{1}") then Ok true
  else if bool_decide (l = chars "{0}") then Ok false else Err "expected value".

Lemma toy_jsonl_ok : JsonlOk to_vec from_str.
Proof.
  constructor.
  - by eexists.
  - intros [] b [= <-]; by eexists [_].
  - intros [] b [= <-]; by repeat constructor.
  - by intros [] b [= <-].
  - by intros [] b [= <-].
Qed.

Lemma jsonl_refines_list_witness :
  exists file, append_items to_vec "log" None [true; false] = Ok file /\
    file_read from_str "log" file = Ok [true; false] /\
    forall x, exists file', file_append to_vec "log" file x = Ok file' /\
      file_read from_str "log" file' = Ok ([true; false] ++ [x]).
Proof. exact (jsonl_refines_list to_vec from_str toy_jsonl_ok "log" [true; false]). Defined.
End ToyJsonl.
