(* ===== verification/X402.v ===== *)
(** * The x402 and card rails
    (origin-payments/src/x402.rs, card.rs, and the facilitator lookup of vault.rs)

    Signed payment authorizations, the direct handshake, the facilitator's
    verify/settle split and the tokenized card authorization.  The serde
    codecs that derive macros generate and base64 are parameters
    ([Codec]); the transport is [Http.v]. *)

From Stdlib Require Import Ascii String.
From S2P Require Import Prelude RustStr Bytes Sdk PayError Amount Event Mmr Store Hoare.
From S2P Require Import RustText Http.

(** ** Data *)

Record PaymentOption := {
  opt_scheme : string; opt_network : string; pay_to : string; opt_amount : string;
  max_timeout_secs : option Z; payment_details : json
}.

Record PaymentRequirements := { accepts : list PaymentOption }.

Record PaymentAuthorization := {
  auth_from : string; auth_to : string; auth_value : string; valid_after : string;
  valid_before : string; auth_nonce : string; auth_scheme : string
}.

Record PaymentSignerKeys := { key_ed25519 : string; key_falcon1024 : string; key_domain : string }.

Record SignedAuthorization := {
  authorization : PaymentAuthorization; auth_signature : string; auth_signer : PaymentSignerKeys
}.

Record PaymentResource := { resource_loc : string; description : string }.

Record PaymentPayload := {
  x402_version : Z; resource : PaymentResource; accepted : PaymentOption; payload : SignedAuthorization
}.

Record SettlementResponse := {
  response_status : string; response_transaction : option string; response_error : option string
}.

Inductive X402Status :=
| XSuccess
| XPending (transaction : option string)
| XFailed (error : option string).

Record X402Outcome := { outcome_status : X402Status; outcome_receipt : bytes }.

Record FacilitatorConfig := { fac_url : string; api_key : string }.

Inductive VerifyVerdict := VAccept | VReject (reason : string).

Inductive FacilitatorSettleOutcome :=
| Settled (receipt : bytes)
| Pending (transaction : option string) (retry_after : option Z)
| Rejected (error : string) (retry_after : option Z).

Record CardAuthRequest := {
  card_req_token : string; card_req_network : string; card_req_last4 : string;
  card_req_amount : string; card_req_currency : string; card_req_order_id : string;
  card_req_checkout_id : string
}.

Inductive CardAuthOutcome :=
| CardSettled (auth : bytes)
| CardPending (transaction : option string)
| CardDeclined (error : string).

(** ** Codecs *)

Class Codec := {
  payload_to_vec : PaymentPayload -> result string bytes;
  payload_from_slice : bytes -> result string PaymentPayload;
  requirements_from_slice : bytes -> result string PaymentRequirements;
  requirements_json : PaymentRequirements -> json;
  settlement_from_slice : bytes -> result string SettlementResponse;
  value_from_slice : bytes -> result string json;
  base64_encode : bytes -> string;
  base64_decode : string -> result string bytes;
  (** [fill_random] of 32 bytes, when the CSPRNG is available. *)
  env_random32 : nat -> option bytes;
  (** What the vault holds for a rail: the facilitator URL and the secret. *)
  vault_url : nat -> string -> option string;
  vault_secret : nat -> string -> option bytes
}.

(** serde reads back what it writes. *)
Class CodecOk `{Codec} : Prop := {
  payload_roundtrip : forall p b, payload_to_vec p = Ok b -> payload_from_slice b = Ok p
}.

Definition PAYMENT_REQUIRED : string := "payment-required".
Definition PAYMENT_SIGNATURE : string := "payment-signature".
Definition PAYMENT_RESPONSE : string := "payment-response".
Definition SCHEME_ORIGIN_HYBRID : string := "origin-hybrid-v1".

(** [serde_json::Value] accessors; a later entry of a key replaces an earlier one. *)
Definition json_get (k : string) (j : json) : option json :=
  match j with
  | JObj l => option_map snd (List.find (fun kv => String.eqb kv.1 k) (rev l))
  | _ => None
  end.
Definition as_str (j : json) : option string := match j with JStr s => Some s | _ => None end.
Definition as_bool (j : json) : option bool := match j with JBool b => Some b | _ => None end.
Definition get_str (k : string) (j : json) : option string := json_get k j ≫= as_str.

Section X402.
Context `{Sdk, Env, Net, Codec}.

Definition b64_decode (s : string) : result Error bytes :=
  map_err (fun e => CryptoError ("decoding base64 header: " +:+ e)) (base64_decode (trim s)).

Definition parse_requirements (raw : string) : result Error PaymentRequirements :=
  b ← b64_decode raw;
  map_err (fun e => CryptoError ("parsing base64 JSON header: " +:+ e)) (requirements_from_slice b).

(** ** Signing *)

Definition authorization_canonical (a : PaymentAuthorization) (url : string) (k : PaymentSignerKeys)
    : bytes :=
  default [] (json_to_vec (JArr
    [JStr (auth_from a); JStr (auth_to a); JStr (auth_value a); JStr (valid_after a);
     JStr (valid_before a); JStr (auth_nonce a); JStr (auth_scheme a); JStr url;
     JStr (key_ed25519 k); JStr (key_falcon1024 k); JStr (key_domain k)])).

(** The CSPRNG, or the clock when it is unavailable. *)
Definition random_32 : M bytes :=
  t ← tick;
  match env_random32 t with
  | Some b => mret b
  | None => now ← now_nanos;
            mret (le_bytes 8 (if (- 2 ^ 63 <=? now) && (now <=? i64_max) then now else 0)
                  ++ replicate 24 (byte_of 0))
  end.

Definition show_i64 (n : Z) : string := if n <? 0 then "-" +:+ show_Z (- n) else show_Z n.

Definition signer_keys_of (keys : OperatorKeys) : PaymentSignerKeys :=
  {| key_ed25519 := hex_encode (ed25519_pk (bundle keys));
     key_falcon1024 := hex_encode (falcon1024_pk (bundle keys)); key_domain := PAYMENTS_DOMAIN |}.

(** [HybridSigner::sign] from the clock and the nonce. *)
Definition sign_payload (keys : OperatorKeys) (acc : PaymentOption) (url : string) (now : Z)
    (nonce : bytes) : result Error PaymentPayload :=
  let sk := signer_keys_of keys in
  let max_timeout := wrap_i64 (Z.max (default 300 (max_timeout_secs acc)) 1) in
  let auth := {| auth_from := key_ed25519 sk; auth_to := pay_to acc; auth_value := opt_amount acc;
                 valid_after := show_i64 now; valid_before := show_i64 (wrap_i64 (now + max_timeout));
                 auth_nonce := hex_encode nonce; auth_scheme := SCHEME_ORIGIN_HYBRID |} in
  sig ← map_err (fun e => CryptoError ("x402 signing: " +:+ e))
          (try_sign_hybrid (bundle keys) (authorization_canonical auth url sk));
  encoded ← map_err (fun e => CryptoError ("x402 encoding signature: " +:+ e)) (hybrid_encode sig);
  Ok {| x402_version := 2; resource := {| resource_loc := url; description := EmptyString |};
        accepted := acc;
        payload := {| authorization := auth; auth_signature := hex_encode encoded; auth_signer := sk |} |}.

Definition hybrid_sign (keys : OperatorKeys) (req : PaymentRequirements) (url : string) : M bytes :=
  match accepts req with
  | [] => throw (CryptoError "cannot sign: no acceptable payment option")
  | acc :: _ =>
      nanos ← now_nanos;
      nonce ← random_32;
      p ← lift (sign_payload keys acc url (nanos / 1000000000) nonce);
      lift (map_err (fun e => CryptoError ("serializing payment payload: " +:+ e)) (payload_to_vec p))
  end.

Definition verify_payment_payload (b : bytes) (url : string) : result Error bool :=
  p ← map_err (fun e => CryptoError ("parsing payment payload: " +:+ e)) (payload_from_slice b);
  let auth := authorization (payload p) in
  let sk := auth_signer (payload p) in
  if negb (x402_version p =? 2) then Ok false
  else if negb (String.eqb (resource_loc (resource p)) url) then Ok false
  else if negb (String.eqb (auth_scheme auth) SCHEME_ORIGIN_HYBRID) then Ok false
  else
    match hex_decode (auth_signature (payload p)), hex_decode (key_ed25519 sk),
          hex_decode (key_falcon1024 sk) with
    | Ok sig_bytes, Ok ed, Ok falcon =>
        if negb (bool_decide (length ed = 32%nat)) then Ok false
        else match hybrid_decode sig_bytes with
             | Ok sig => Ok (hybrid_verify sig ed falcon (authorization_canonical auth url sk))
             | Err _ => Ok false
             end
    | _, _, _ => Ok false
    end.

Definition verify_signed_payload (b : bytes) (url : string) (expected_amount : option string)
    : VerifyVerdict :=
  match verify_payment_payload b url with
  | Ok true =>
      match payload_from_slice b with
      | Ok p =>
          let v := auth_value (authorization (payload p)) in
          match expected_amount with
          | Some amt => if negb (String.eqb v amt)
                        then VReject ("authorization value " +:+ v +:+ " != declared " +:+ amt)
                        else VAccept
          | None => VAccept
          end
      | Err e => VReject ("malformed payload: " +:+ e)
      end
  | Ok false => VReject "hybrid signature invalid or resource mismatch"
  | Err e => VReject (error_to_string e)
  end.

(** ** The direct handshake *)

Definition execute (url : string) (keys : OperatorKeys) : M X402Outcome :=
  '(status, headers, _) ← http_get url [] "http402";
  if negb (status =? 402)
  then throw (not_configured ("expected 402 Payment Required, got HTTP " +:+ show_Z status))
  else match (headers : Headers) !! PAYMENT_REQUIRED with
  | None => throw (not_configured "402 response missing PAYMENT-REQUIRED header")
  | Some raw =>
      req ← lift (parse_requirements raw);
      match accepts req with
      | [] => throw (not_configured "PAYMENT-REQUIRED lists no acceptable payment options")
      | _ =>
          p ← hybrid_sign keys req url;
          '(status, headers, _) ← http_get url [(PAYMENT_SIGNATURE, base64_encode p)] "http402";
          match (headers : Headers) !! PAYMENT_RESPONSE with
          | None => mret {| outcome_status := XFailed (Some ("server rejected the payment (HTTP "
                                                            +:+ show_Z status +:+ ")"));
                            outcome_receipt := [] |}
          | Some raw =>
              receipt ← lift (b64_decode raw);
              r ← lift (map_err (fun e => CryptoError ("parsing PAYMENT-RESPONSE: " +:+ e))
                          (settlement_from_slice receipt));
              mret {| outcome_status :=
                        if String.eqb (response_status r) "success" then XSuccess
                        else if String.eqb (response_status r) "settlement_pending"
                        then XPending (response_transaction r)
                        else XFailed (Some (default (response_status r) (response_error r)));
                      outcome_receipt := receipt |}
          end
      end
  end.

(** ** The facilitator *)

Definition api_key_headers (cfg : FacilitatorConfig) : list (string * string) :=
  if String.eqb (api_key cfg) EmptyString then [] else [("x-api-key", api_key cfg)].

Definition facilitator_body (b : bytes) (req : PaymentRequirements) (url : string)
    : result Error bytes :=
  v ← map_err (fun e => CryptoError ("payload not JSON: " +:+ e)) (value_from_slice b);
  match json_to_vec (JObj [("paymentPayload", v); ("paymentRequirements", requirements_json req);
                           ("resourceUrl", JStr url); ("x402Version", JNum 2)]) with
  | Some body => Ok body
  | None => Err (CryptoError "serialization error")
  end.

Definition facilitator_verify (cfg : FacilitatorConfig) (b : bytes) (req : PaymentRequirements)
    (url : string) : M bool :=
  body ← lift (facilitator_body b req url);
  '(_, _, resp) ← http_post (trim_end_matches slash (fac_url cfg) +:+ "/verify") body
                    (api_key_headers cfg) "http402";
  j ← lift (map_err (fun e => CryptoError ("facilitator /verify reply not JSON: " +:+ e))
              (value_from_slice resp));
  let v := match json_get "ok" j with Some v => Some v | None => json_get "valid" j end in
  mret (default false (v ≫= as_bool)).

Definition facilitator_settle (cfg : FacilitatorConfig) (b : bytes) (req : PaymentRequirements)
    (url : string) : M FacilitatorSettleOutcome :=
  body ← lift (facilitator_body b req url);
  '(_, headers, resp) ← http_post (trim_end_matches slash (fac_url cfg) +:+ "/settle") body
                          (api_key_headers cfg) "http402";
  receipt ← match (headers : Headers) !! PAYMENT_RESPONSE with
            | Some r => lift (b64_decode r)
            | None => mret resp
            end;
  r ← lift (map_err (fun e => CryptoError ("parsing settle receipt: " +:+ e))
              (settlement_from_slice receipt));
  let retry_after := (headers : Headers) !! "retry-after" ≫= (fun v => parse_u64 (trim_chars (chars v))) in
  mret (if String.eqb (response_status r) "success" then Settled receipt
        else if String.eqb (response_status r) "settlement_pending"
        then Pending (response_transaction r) retry_after
        else Rejected (default (response_status r) (response_error r)) retry_after).

(** [vault::load_facilitator_config]: the URL and the key, both non-blank. *)
Definition load_facilitator_config (rail : string) : M (result Error (option FacilitatorConfig)) :=
  t ← tick;
  mret (match vault_url t rail, vault_secret t rail with
        | Some u, Some k =>
            let key := trim (of_chars (utf8_lossy k)) in
            if String.eqb (trim u) EmptyString || String.eqb key EmptyString then Ok None
            else Ok (Some {| fac_url := trim u; api_key := key |})
        | _, _ => Ok None
        end).

(** ** Cards *)

Definition card_json (r : CardAuthRequest) : json :=
  JObj [("token", JStr (card_req_token r)); ("network", JStr (card_req_network r));
        ("last4", JStr (card_req_last4 r)); ("amount", JStr (card_req_amount r));
        ("currency", JStr (card_req_currency r)); ("payment_order_id", JStr (card_req_order_id r));
        ("checkout_id", JStr (card_req_checkout_id r))].

(** Base64, then hex, then the raw bytes. *)
Definition decode_auth (s : string) : bytes :=
  match b64_decode s with
  | Ok v => v
  | Err _ => match hex_decode (trim s) with Ok v => v | Err _ => as_bytes s end
  end.

Definition card_reply (j : json) : CardAuthOutcome :=
  let st := default "declined" (get_str "status" j) in
  if String.eqb st "success" then CardSettled (default [] (decode_auth <$> get_str "auth" j))
  else if String.eqb st "settlement_pending" then CardPending (get_str "transaction" j)
  else CardDeclined (default ("authorization " +:+ st) (get_str "error" j)).

Definition card_authorize (cfg : FacilitatorConfig) (r : CardAuthRequest) : M CardAuthOutcome :=
  body ← lift (match json_to_vec (card_json r) with
               | Some b => Ok b
               | None => Err (CryptoError "serializing card authorization: error")
               end);
  '(status, _, resp) ← http_post (trim_end_matches slash (fac_url cfg) +:+ "/authorize") body
                         (api_key_headers cfg) "card";
  if 500 <=? status
  then throw (RailUnavailable "card" ("ACP facilitator returned HTTP " +:+ show_Z status))
  else
    j ← lift (map_err (fun e => CryptoError ("ACP facilitator /authorize reply not JSON: " +:+ e))
                (value_from_slice resp));
    mret (card_reply j).
End X402.

(** ** Theorems *)

Section X402Theorems.
Context `{Sdk, Env, Net, Codec}.

(** a payment authorization signed for one URL verifies offline at that URL
    from its serialised bytes alone, and is refused at every other URL. *)
Theorem signed_payload_bound `{!HexOk, !SigOk, !CodecOk} (keys : OperatorKeys) (acc : PaymentOption)
    (url : string) (now : Z) (nonce b : bytes) (p : PaymentPayload)
    (Hlen : length (ed25519_pk (bundle keys)) = 32%nat)
    (Hsign : sign_payload keys acc url now nonce = Ok p) (Hser : payload_to_vec p = Ok b) :
  verify_payment_payload b url = Ok true /\
  forall url', url' <> url -> verify_payment_payload b url' = Ok false.
Proof.
  unfold sign_payload in Hsign. apply result_bind_Ok in Hsign as (sg & Hsg & Hsign).
  apply result_bind_Ok in Hsign as (enc & Henc & Hsign). injection Hsign as <-.
  set (auth := {| auth_from := _ |}) in *. set (sk := signer_keys_of keys) in *.
  destruct (try_sign_hybrid _ _) as [s|] eqn:Es; [|done]. cbn in Hsg. injection Hsg as ->.
  destruct (hybrid_encode sg) as [e|] eqn:Ee; [|done]. cbn in Henc. injection Henc as ->.
  unfold verify_payment_payload. rewrite (payload_roundtrip _ _ Hser).
  cbn [map_err mbind result_mbind x402_version resource resource_loc payload authorization
       auth_signer auth_signature key_ed25519 key_falcon1024 auth_scheme].
  split.
  - rewrite String.eqb_refl. cbn [negb Z.eqb Pos.eqb String.eqb].
    subst sk. unfold signer_keys_of. cbn [key_ed25519 key_falcon1024].
    rewrite !hex_roundtrip, bool_decide_eq_true_2 by done. cbn [negb].
    rewrite (decode_encode_sig _ _ Ee). f_equal. exact (verify_sign _ _ _ Es).
  - intros url' Hne. destruct (String.eqb_spec url url') as [->|_]; [done|]. done.
Qed.

(** The verify gate accepts only a payload that is signed for the URL and
    whose authorized value is the declared amount. *)
Lemma verify_signed_payload_accept (b : bytes) (url amt : string) :
  verify_signed_payload b url (Some amt) = VAccept <->
  verify_payment_payload b url = Ok true /\
  exists p, payload_from_slice b = Ok p /\ auth_value (authorization (payload p)) = amt.
Proof.
  unfold verify_signed_payload.
  destruct (verify_payment_payload b url) as [[]|e]; [|split; [done|by intros [? _]]..].
  destruct (payload_from_slice b) as [p|e]; [|split; [done|by intros (_ & ? & ? & _)]].
  destruct (String.eqb_spec (auth_value (authorization (payload p))) amt) as [E|E]; cbn.
  - split; eauto.
  - split; [done|]. intros (_ & q & [= <-] & ?). done.
Qed.
End X402Theorems.

(** ** A concrete instance *)

Module ToyX402.
(** A network on which nothing answers, or every exchange yields [reply]. *)
Definition net (reply : option bytes) : Net := {|
  net_connect _ _ := match reply with None => Some "connection refused" | Some _ => None end;
  net_tls _ _ := None; net_write _ := None;
  net_chunks _ := match reply with Some b => [b] | None => [] end
|}.

Definition option0 : PaymentOption :=
  {| opt_scheme := "exact"; opt_network := "eip155:8453"; pay_to := "0xMerchant";
     opt_amount := "1.00"; max_timeout_secs := None; payment_details := JNull |}.
Definition keys0 : OperatorKeys (H := Toy.sdk) :=
  {| bundle := (Toy.zero32 : HybridSigningKeyBundle (Sdk := Toy.sdk)); envelope_key := [] |}.
Definition payload0 : result Error PaymentPayload :=
  sign_payload (H := Toy.sdk) keys0 option0 "http://shop/paid" 1000 (replicate 32 (byte_of 7)).

(** Equality of payloads through their fields. *)
Definition field_json (p : PaymentPayload) : json :=
  let a := authorization (payload p) in let k := auth_signer (payload p) in let o := accepted p in
  JArr [JNum (x402_version p); JStr (resource_loc (resource p)); JStr (description (resource p));
        JStr (opt_scheme o); JStr (opt_network o); JStr (pay_to o); JStr (opt_amount o);
        json_opt JNum (max_timeout_secs o); payment_details o;
        JStr (auth_from a); JStr (auth_to a); JStr (auth_value a); JStr (valid_after a);
        JStr (valid_before a); JStr (auth_nonce a); JStr (auth_scheme a);
        JStr (auth_signature (payload p)); JStr (key_ed25519 k); JStr (key_falcon1024 k);
        JStr (key_domain k)].

Lemma field_json_inj (p q : PaymentPayload) : field_json p = field_json q -> p = q.
Proof.
  destruct p as [v [u d] [s n t a mt pd] [[f to' va af bf no sc] sg [e fa dm]]],
           q as [v' [u' d'] [s' n' t' a' mt' pd'] [[f' to'' va' af' bf' no' sc'] sg' [e' fa' dm']]].
  unfold field_json. cbn. intros E. destruct mt, mt'; cbn in E; congruence.
Qed.

(** A codec that can serialise the payload [payload0] and reads any JSON as [value]. *)
Definition codec (value : json) : Codec := {|
  payload_to_vec p := match payload0 with
    | Ok q => if bool_decide (Toy.ser (field_json p) = Toy.ser (field_json q)) then Ok [byte_of 1] else Err "io"
    | Err _ => Err "io" end;
  payload_from_slice b := match payload0 with Ok q => Ok q | Err _ => Err "eof" end;
  requirements_from_slice _ := Ok {| accepts := [option0] |};
  requirements_json _ := JNull;
  settlement_from_slice _ := Err "eof";
  value_from_slice _ := Ok value;
  base64_encode b := of_chars b; base64_decode s := Ok (chars s);
  env_random32 _ := Some (replicate 32 (byte_of 7));
  vault_url _ _ := Some "http://psp"; vault_secret _ _ := Some (chars "key")
|}.

#[global] Instance codec_ok (value : json) : @CodecOk (codec value).
Proof.
  constructor. intros p b. cbn [payload_to_vec payload_from_slice codec]. destruct payload0 as [q|]; [|done].
  case_bool_decide as E; [|done]. intros _. f_equal. symmetry.
  apply field_json_inj, (Toy.ser_inj _ _ [] []). by rewrite E.
Qed.
End ToyX402.

Lemma signed_payload_bound_witness :
  exists p b, sign_payload (H := Toy.sdk) ToyX402.keys0 ToyX402.option0 "http://shop/paid" 1000
                (replicate 32 (byte_of 7)) = Ok p /\
    payload_to_vec (Codec := ToyX402.codec JNull) p = Ok b /\
    verify_payment_payload (H := Toy.sdk) (H2 := ToyX402.codec JNull) b "http://shop/paid" = Ok true /\
    verify_payment_payload (H := Toy.sdk) (H2 := ToyX402.codec JNull) b "http://evil/paid" = Ok false.
Proof.
  eexists _, _. split; [reflexivity|]. split; [reflexivity|].
  edestruct (signed_payload_bound (H := Toy.sdk) (H2 := ToyX402.codec JNull) ToyX402.keys0
    ToyX402.option0 "http://shop/paid" 1000 (replicate 32 (byte_of 7))) as [Hok Hno];
    [reflexivity|reflexivity|reflexivity|]. split; [exact Hok|]. apply Hno. discriminate.
Defined.
