(* ===== verification/Settle.v ===== *)
(** * Deferred settlement (origin-payments/src/settle.rs)

    Verified x402 authorizations gathered in a window are rolled up into one
    batch, persisted, committed to the checkpoint MMR, and only then removed
    from the pending queue. *)

From Stdlib Require Import Ascii String.
From S2P Require Import Prelude RustStr Bytes Sdk PayError Amount Event Mmr Store Hoare.
From S2P Require Import RustText Http X402.

Definition batch_path (id : string) : string := "settlement/deferred/" +:+ id +:+ ".json".

Section Settle.
Context `{Sdk, Env, Net, Codec}.

Definition item_json (i : DeferredItem) : json :=
  JObj [("amount", JStr (item_amount i)); ("currency", JStr (item_currency i));
        ("payment_order_id", JStr (item_order_id i)); ("resource_url", JStr (resource_url i));
        ("signed_payload", json_bytes (signed_payload i))].

Definition batch_content_hash (its : list DeferredItem) (date : string) : bytes :=
  sha3_256 (default [] (json_to_vec (JObj [("date", JStr date); ("items", JArr (map item_json its))]))).

Definition deferred_new (date : string) : M DeferredBatch :=
  if String.eqb (trim date) EmptyString
  then throw (StoreCorrupted "deferred batch date is empty")
  else
    id ← new_uuid;
    now ← now_rfc3339;
    mret {| deferred_id := id; deferred_date := date; deferred_created_at := now; items := [];
            content_hash := batch_content_hash [] date; total_minor := 0 |}.

(** The check every commitment passes before it is admitted. *)
Definition check_commitment (i : DeferredItem) : result Error unit :=
  ok ← map_err (fun e => StoreCorrupted ("verifying deferred commitment: " +:+ error_to_string e))
         (verify_payment_payload (signed_payload i) (resource_url i));
  if negb ok
  then Err (ReceiptVerificationFailed ("deferred commitment for " +:+ item_order_id i
                                       +:+ " did not verify — refused"))
  else Ok tt.

Definition deferred_push (b : DeferredBatch) (i : DeferredItem) : result Error DeferredBatch :=
  _ ← check_commitment i;
  minor ← parse_amount (item_amount i);
  let its := items b ++ [i] in
  Ok {| deferred_id := deferred_id b; deferred_date := deferred_date b;
        deferred_created_at := deferred_created_at b; items := its;
        content_hash := batch_content_hash its (deferred_date b);
        total_minor := wrap_i128 (total_minor b + minor) |}.

Definition admit_item (b : DeferredBatch) (i : DeferredItem) : result Error DeferredBatch :=
  _ ← check_commitment i; deferred_push b i.

Fixpoint admit_all (b : DeferredBatch) (its : list DeferredItem) : result Error DeferredBatch :=
  match its with
  | [] => Ok b
  | i :: its' => b' ← admit_item b i; admit_all b' its'
  end.

Definition commit_deferred_batch (date : string) : M DeferredBatch :=
  b ← deferred_new date;
  its ← deferred_commitments;
  b ← lift (admit_all b its);
  _ ← io ("creating " +:+ path "settlement/deferred");
  _ ← io ("writing " +:+ path (batch_path (deferred_id b)));
  _ ← update (fun s => put_batch s b);
  _ ← checkpoint_mmr (content_hash b);
  _ ← clear_deferred_commitments;
  mret b.
End Settle.

(** ** Theorems *)

Section SettleTheorems.
Context `{Sdk, Env, Net, Codec}.

(** A commitment that verifies at its URL and whose amount parses to [m]. *)
Definition admitted (i : DeferredItem) (m : Z) : Prop :=
  verify_payment_payload (signed_payload i) (resource_url i) = Ok true /\ parse_amount (item_amount i) = Ok m.

Lemma admit_item_spec (b b' : DeferredBatch) (i : DeferredItem) :
  admit_item b i = Ok b' ->
  exists m, admitted i m /\ items b' = items b ++ [i] /\ deferred_date b' = deferred_date b /\
    deferred_id b' = deferred_id b /\ total_minor b' = wrap_i128 (total_minor b + m) /\
    content_hash b' = batch_content_hash (items b') (deferred_date b').
Proof.
  unfold admit_item, deferred_push, check_commitment, admitted. intros E.
  destruct (verify_payment_payload _ _) as [[]|]; try done. cbn in E.
  destruct (parse_amount _) as [m|]; [|done]. cbn in E. injection E as <-. by exists m.
Qed.

Lemma admit_all_spec (its : list DeferredItem) (b b' : DeferredBatch) :
  admit_all b its = Ok b' -> content_hash b = batch_content_hash (items b) (deferred_date b) ->
  in_i128 (total_minor b) ->
  exists ms, Forall2 admitted its ms /\ items b' = items b ++ its /\ deferred_date b' = deferred_date b /\
    deferred_id b' = deferred_id b /\ total_minor b' = wrap_i128 (total_minor b + list_sum ms) /\
    content_hash b' = batch_content_hash (items b') (deferred_date b').
Proof.
  revert b. induction its as [|i its IH]; intros b E Hh Hr; cbn [admit_all] in E.
  { injection E as <-. exists []. rewrite app_nil_r. cbn. rewrite Z.add_0_r, wrap_i128_id by done. done. }
  apply result_bind_Ok in E as (b1 & E1 & E).
  apply admit_item_spec in E1 as (m & Hm & Hi & Hd & Hid & Ht & Hc).
  destruct (IH b1 E Hc) as (ms & Hms & Hi' & Hd' & Hid' & Ht' & Hc').
  { rewrite Ht. auto with origin. }
  exists (m :: ms). split_and!; [by constructor|by rewrite Hi', Hi, <- app_assoc|congruence..| |done].
  rewrite Ht', Ht. apply wrap_s_eqm; [lia|]. cbn [list_sum foldr]. fold (list_sum ms).
  rewrite Zplus_mod. unfold wrap_i128. rewrite wrap_s_mod by lia. rewrite <- Zplus_mod. f_equal. lia.
Qed.

(** What a commit has done when it returns [b]. *)
Definition committed (date : string) (σ : State) (b : DeferredBatch) (σ' : State) : Prop :=
  items b = st_deferred (w_store σ) /\ deferred_date b = date /\
  content_hash b = batch_content_hash (items b) date /\
  (exists ms, Forall2 admitted (items b) ms /\ total_minor b = wrap_i128 (list_sum ms)) /\
  st_batches (w_store σ') !! deferred_id b = Some b /\
  (exists m r, checkpoint_append (default mmr_new (st_mmr (w_store σ))) (content_hash b) = Some (m, r) /\
     st_mmr (w_store σ') = Some m).

(** The queue is as in [σ0]. *)
Definition kept (σ0 σ : State) : Prop := st_deferred (w_store σ) = st_deferred (w_store σ0).

Lemma hoare_checkpoint (P : State -> Prop) (leaf : bytes) (Q : result exn bytes -> State -> Prop) :
  (forall σ m r, P σ -> checkpoint_append (default mmr_new (st_mmr (w_store σ))) leaf = Some (m, r) ->
     Q (Ok r) (on_store (fun s => put_mmr s m) σ)) ->
  (forall e σ, P σ -> Q (Err e) σ) ->
  hoare P (checkpoint_mmr leaf) Q.
Proof.
  intros Hok Herr. unfold checkpoint_mmr.
  eapply hoare_bind with (Q := fun m σ => m = default mmr_new (st_mmr (w_store σ)) /\ P σ).
  { unfold load_mmr. eapply hoare_bind with (Q := fun s σ => s = w_store σ /\ P σ).
    { by apply hoare_get_store. }
    intros s. destruct (st_mmr s) as [m|] eqn:Em.
    - apply hoare_io_bind; [intros e σ _ [_ Hσ]; by apply Herr|]. apply hoare_ret. intros σ [-> Hσ]. by rewrite Em.
    - apply hoare_ret. intros σ [-> Hσ]. by rewrite Em. }
  intros m. destruct (checkpoint_append m leaf) as [[m' r]|] eqn:Ec.
  2:{ apply hoare_panic. intros σ [_ Hσ]. by apply Herr. }
  eapply hoare_bind with (Q := fun _ σ => Q (Ok r) σ).
  2:{ intros _. by apply hoare_ret. }
  unfold save_mmr. do 2 (apply hoare_io_bind; [intros e σ _ [_ Hσ]; by apply Herr|]). apply hoare_modify. intros σ [-> Hσ]. by eapply Hok.
Qed.

Lemma clear_committed (date : string) (σ : State) (b : DeferredBatch) :
  hoare (fun σ' => committed date σ b σ' /\ kept σ σ') clear_deferred_commitments (fun r σ' =>
    match r with Ok _ => committed date σ b σ' /\ st_deferred (w_store σ') = [] | Err _ => kept σ σ' end).
Proof.
  unfold clear_deferred_commitments.
  eapply hoare_bind with (Q := fun s σ' => s = w_store σ' /\ committed date σ b σ' /\ kept σ σ').
  { by apply hoare_get_store. }
  intros s. destruct (st_deferred s) as [|i l] eqn:Ed.
  - apply hoare_ret. by intros ? (-> & ? & _).
  - apply hoare_io_bind; [by intros e ? _ (_ & _ & ?)|].
    apply hoare_modify. intros σ' (_ & Hc & _). unfold committed in *. cbn. by destruct (w_store σ').
Qed.

(** rolling pending commitments into a batch loses none of them, under
    every fault schedule: a run that fails leaves the queue as it was, and a
    run that returns a batch has persisted it with exactly the queued items,
    each verified at its URL, their [i128] total and their content hash, has appended that
    hash to the checkpoint MMR, and has emptied the queue. *)
Theorem commit_deferred_batch_spec (date : string) (σ : State) (t : nat) :
  let out := commit_deferred_batch date σ t in
  match out.1 with
  | Ok b => committed date σ b out.2.1 /\ st_deferred (w_store out.2.1) = []
  | Err _ => st_deferred (w_store out.2.1) = st_deferred (w_store σ)
  end.
Proof.
  cbn zeta. apply (fun H : hoare (fun σ' => σ' = σ) (commit_deferred_batch date) (fun r σ' =>
    match r with Ok b => committed date σ b σ' /\ st_deferred (w_store σ') = [] | Err _ => kept σ σ' end)
    => H σ t eq_refl).
  unfold commit_deferred_batch.
  eapply hoare_bind with (Q := fun b σ' => σ' = σ /\ items b = [] /\ deferred_date b = date /\
    total_minor b = 0 /\ content_hash b = batch_content_hash [] date).
  { unfold deferred_new. destruct (String.eqb (trim date) EmptyString); [apply hoare_throw; by intros ? ->|].
    oracle bid. oracle now. apply hoare_ret. intros ? ->. done. }
  intros b0. eapply hoare_bind with (Q := fun its σ' => its = st_deferred (w_store σ) /\ σ' = σ /\
    items b0 = [] /\ deferred_date b0 = date /\ total_minor b0 = 0 /\
    content_hash b0 = batch_content_hash [] date).
  { apply hoare_read; [|by intros e ? _ [-> _]]. intros ? [-> ?]. done. }
  intros its. eapply hoare_bind with (Q := fun b σ' => σ' = σ /\ items b = st_deferred (w_store σ) /\
    deferred_date b = date /\ content_hash b = batch_content_hash (items b) date /\
    exists ms, Forall2 admitted (items b) ms /\ total_minor b = wrap_i128 (list_sum ms)).
  { apply hoare_lift; [|by intros e ? _ (_ & -> & _)].
    intros b ? E (-> & -> & Hi & Hd & Ht & Hc).
    destruct (admit_all_spec _ _ _ E) as (ms & Hms & Hi' & Hd' & _ & Ht' & Hc').
    { by rewrite Hi, Hd. } { rewrite Ht. by vm_compute. }
    rewrite Hi in Hi'. cbn in Hi'. rewrite Ht, Z.add_0_l in Ht'. rewrite Hd', Hd in Hc'.
    split_and!; try congruence. exists ms. by rewrite Hi'. }
  intros b. cbn beta. set (R := fun σ' : State => σ' = σ /\ _).
  do 2 (apply hoare_io_bind; [by intros e ? _ [-> _]|]).
  eapply hoare_bind with (Q := fun _ σ' => R σ /\ σ' = on_store (fun s => put_batch s b) σ);
    [apply hoare_modify; by intros ? [-> ?]|]. intros _.
  eapply hoare_bind with (Q := fun _ σ' => committed date σ b σ' /\ kept σ σ').
  { apply hoare_checkpoint.
    2:{ intros e ? [_ ->]. unfold kept. cbn. by destruct (w_store σ). }
    intros ? m r [(_ & Hi & Hd & Hc & Hms) ->] Hck. unfold committed, kept.
    cbn in *. destruct (w_store σ) eqn:Es; cbn in *. split; [|done].
    split_and!; try done; [by rewrite lookup_insert_eq|by exists m, r]. }
  intros _. eapply hoare_bind with (Q := fun _ σ' => committed date σ b σ' /\ st_deferred (w_store σ') = []);
    [apply clear_committed|]. intros _. by apply hoare_ret.
Qed.
End SettleTheorems.
