(* ===== verification/F64.v ===== *)
(** * Double-precision detour of the split payout (origin-payments/src/executor.rs)

    [format!("{:.2}", minor as f64 / 100.0)] on positive values: the integer
    rounded to 53 bits, the quotient rounded to 53 bits, and the exact binary
    value printed with two decimals, every rounding to nearest even. *)

From Stdlib Require Import Ascii String.
From S2P Require Import Prelude RustStr PayError Amount.

(** The integer nearest to [n / d], ties to even. *)
Definition round_even (n d : Z) : Z :=
  let q := n / d in let r := n mod d in
  if 2 * r <? d then q else if d <? 2 * r then q + 1 else if Z.even q then q else q + 1.

(** A positive double [m * 2^e]. *)
Record f64 := { mant : Z; fexp : Z }.

(** The exponent that leaves 53 bits of [n / d]. *)
Definition f64_exp (n d : Z) : Z :=
  let k := Z.log2 n - Z.log2 d in
  let below := if 0 <=? k then n <? d * 2 ^ k else n * 2 ^ (- k) <? d in
  (if below then k - 1 else k) - 52.

Definition f64_ratio (n d : Z) : f64 :=
  let e := f64_exp n d in
  {| mant := if e <? 0 then round_even (n * 2 ^ (- e)) d else round_even n (d * 2 ^ e); fexp := e |}.

Definition f64_of_int (n : Z) : f64 := f64_ratio n 1.

Definition f64_div (x : f64) (d : Z) : f64 :=
  if fexp x <? 0 then f64_ratio (mant x) (d * 2 ^ (- fexp x)) else f64_ratio (mant x * 2 ^ fexp x) d.

(** [{:.2}]: hundredths of the exact value. *)
Definition f64_hundredths (x : f64) : Z :=
  if fexp x <? 0 then round_even (mant x * 100) (2 ^ (- fexp x)) else mant x * 2 ^ fexp x * 100.

Definition payout_amount (minor : Z) : string :=
  fmt_amount (f64_hundredths (f64_div (f64_of_int minor) 100)).

(** ** Exactness below 2^52 *)

Lemma round_even_near (n d x : Z) : 0 < d -> 2 * Z.abs (n - x * d) < d -> round_even n d = x.
Proof.
  intros Hd Hn. unfold round_even.
  pose proof (Z.div_mod n d ltac:(lia)) as E. pose proof (Z.mod_pos_bound n d Hd) as Hr.
  set (q := n / d) in *. set (r := n mod d) in *.
  assert (q = x \/ q = x - 1) as Hq by nia.
  destruct (Z.ltb_spec (2 * r) d); [nia|]. destruct (Z.ltb_spec d (2 * r)); [nia|].
  destruct Hq as [->| ->]; nia.
Qed.

Lemma round_even_err (n d : Z) : 0 < d -> 2 * Z.abs (round_even n d * d - n) <= d.
Proof.
  intros Hd. unfold round_even.
  pose proof (Z.div_mod n d ltac:(lia)). pose proof (Z.mod_pos_bound n d Hd).
  destruct (Z.ltb_spec (2 * (n mod d)) d); [nia|]. destruct (Z.ltb_spec d (2 * (n mod d))); [nia|].
  destruct (Z.even (n / d)); nia.
Qed.

Lemma round_even_1 (n : Z) : round_even n 1 = n.
Proof. apply round_even_near; lia. Qed.

Lemma f64_hundredths_cents (x : Z) :
  0 < x < 2 ^ 52 -> f64_hundredths (f64_div (f64_of_int x) 100) = x.
Proof.
  intros Hx.
  assert (0 <= Z.log2 x <= 51) as Hl.
  { split; [apply Z.log2_nonneg|]. assert (Z.log2 x < 52) by (apply Z.log2_lt_pow2; lia). lia. }
  assert (f64_exp x 1 = Z.log2 x - 52) as Ee.
  { unfold f64_exp. change (Z.log2 1) with 0. rewrite Z.sub_0_r.
    destruct (Z.leb_spec 0 (Z.log2 x)); [|lia].
    destruct (Z.ltb_spec x (1 * 2 ^ Z.log2 x)); [|done].
    pose proof (Z.log2_spec x ltac:(lia)). lia. }
  set (a := 52 - Z.log2 x). assert (0 < a) by lia.
  assert (f64_of_int x = {| mant := x * 2 ^ a; fexp := - a |}) as ->.
  { unfold f64_of_int, f64_ratio. rewrite Ee. replace (Z.log2 x - 52) with (- a) by lia.
    destruct (Z.ltb_spec (- a) 0); [|lia]. by rewrite round_even_1, Z.opp_involutive. }
  unfold f64_div. cbn [fexp mant]. destruct (Z.ltb_spec (- a) 0); [|lia].
  rewrite Z.opp_involutive. set (d := 100 * 2 ^ a).
  assert (0 < 2 ^ a) by (apply Z.pow_pos_nonneg; lia).
  unfold f64_ratio. set (e := f64_exp (x * 2 ^ a) d). assert (e <= -7) as He.
  { unfold e, f64_exp, d. rewrite !Z.log2_mul_pow2 by lia. change (Z.log2 100) with 6.
    match goal with |- context [if ?b then _ else _] => destruct b end; lia. }
  destruct (Z.ltb_spec e 0); [|lia]. unfold f64_hundredths. cbn [fexp mant].
  destruct (Z.ltb_spec e 0); [|lia].
  assert (2 ^ 7 <= 2 ^ (- e)) by (apply Z.pow_le_mono_r; lia).
  pose proof (round_even_err (x * 2 ^ a * 2 ^ (- e)) d ltac:(lia)) as Herr.
  set (m := round_even _ d) in *. apply round_even_near; [lia|]. unfold d in Herr.
  assert (2 * Z.abs (m * 100 - x * 2 ^ (- e)) <= 100); [|lia].
  assert (m * (100 * 2 ^ a) - x * 2 ^ a * 2 ^ (- e) = 2 ^ a * (m * 100 - x * 2 ^ (- e))) as E by ring.
  rewrite E, Z.abs_mul, (Z.abs_eq (2 ^ a)) in Herr by lia. nia.
Qed.
