(* ===== verification/Executor.v ===== *)
(** * The payment executor (origin-payments/src/executor.rs)

    One pass picks up orders that are not started or due for a retry, marks
    each one executing before any rail call, settles it on its rail, and
    records the outcome.  A rail attempt mutates the order and the open
    wallet in place and may fail part way with either mutated, so it runs in
    [SM], which threads both through errors.  The native rail is the trait
    [origin_wallet::NativeRail], a parameter. *)

From Stdlib Require Import Ascii String.
From S2P Require Import Prelude RustStr Bytes Sdk PayError Amount Event Mmr Store Hoare.
From S2P Require Import Journal AuditLog Retry Compliance RustText Http X402 Settle F64.

Inductive SettleOutcome :=
| Retryable (reason : string)
| Terminal (reason : string)
| NeedsAction (reason : string).

Record ExecutorSummary := {
  ready : Z; executed : Z; retried : Z; recovered : Z; deferred_batches : Z; note : string
}.

Class NativeRail `{Env} := {
  NativeReceipt : Type;
  native_pay : nat -> Wallet -> string -> Z -> bytes -> option Z -> option Z ->
               result string NativeReceipt * Wallet;
  receipt_to_bytes : NativeReceipt -> result string bytes
}.

(** ** Rail attempts *)

Section Attempts.
Context `{Env}.

(** What an attempt mutates: the open wallet and the order in memory. *)
Record Pass := { pass_wallet : Wallet; pass_order : PaymentOrder }.

Definition SM (A : Type) : Type := Pass -> M (result SettleOutcome A * Pass).

#[global] Instance SM_ret : MRet SM := fun A a p => mret (Ok a, p).
#[global] Instance SM_bind : MBind SM := fun A B f m p =>
  rp ← m p;
  match rp.1 with
  | Ok a => f a rp.2
  | Err e => mret (Err e, rp.2)
  end.

Definition fail {A : Type} (e : SettleOutcome) : SM A := fun p => mret (Err e, p).

Definition of_result {A : Type} (r : result SettleOutcome A) : SM A := fun p => mret (r, p).

(** A store computation whose error becomes a settle outcome. *)
Definition catch {A : Type} (f : Error -> SettleOutcome) (m : M A) : SM A := fun p =>
  r ← attempt m; mret (map_err f r, p).

Definition terminal (e : Error) : SettleOutcome := Terminal (error_to_string e).

(** [x402_err] and [card_err]: rail and network failures are retryable. *)
Definition x402_err (e : Error) : SettleOutcome :=
  match e with
  | RailUnavailable _ _ => Retryable (error_to_string e)
  | _ => Terminal (error_to_string e)
  end.
Definition card_err : Error -> SettleOutcome := x402_err.
Definition retryable (e : Error) : SettleOutcome := Retryable (error_to_string e).

Definition the_order : SM PaymentOrder := fun p => mret (Ok (pass_order p), p).
Definition set_order (o : PaymentOrder) : SM unit := fun p =>
  mret (Ok tt, {| pass_wallet := pass_wallet p; pass_order := o |}).
End Attempts.

Section Executor.
Context `{Sdk, Env, Net, Codec}.

(** ** Blocks the rails share *)

Definition notify (o : PaymentOrder) (ev : string) : M unit :=
  id ← new_uuid;
  now ← now_rfc3339;
  append_notification {| notification_id := id; note_order_id := payment_order_id o;
                         note_event := ev; note_created_at := now |}.

(** Refuse a receipt that has already settled an order. *)
Definition dedupe_check (h : bytes) (what : string) : SM unit :=
  seen ← catch terminal (is_receipt_settled h);
  if (seen : bool)
  then fail (Terminal ("duplicate settlement: " +:+ what +:+ " already settled for another order"))
  else mret tt.

Definition post_journal (sgn : option OperatorKeys) : SM unit :=
  o ← the_order;
  _ ← catch terminal (append_order_batch (payment_order_id o) (amount o) (currency o) (fx o) sgn);
  mret tt.

(** Store the receipt, move to [Success], set the flags, append the snapshot. *)
Definition mark_settled (rc : RailReceipt) (wallet_moved : bool) : SM unit :=
  o ← the_order;
  _ ← set_order (set_receipt o (Some rc));
  o ← the_order;
  o ← catch terminal (transition_now o Success);
  let o := set_updated_flags o true wallet_moved in
  _ ← set_order o;
  catch terminal (update_order o).

Definition notify_settled : SM unit :=
  o ← the_order;
  catch terminal (notify o ("order_settled (" +:+ direction_to_string (direction o) +:+ ")")).

Definition audit_settled (f : PaymentOrder -> json) : SM unit :=
  o ← the_order;
  catch terminal (audit_record AT_ORDER_SETTLED (f o) None).

Definition record_receipt (h : bytes) : SM unit :=
  o ← the_order;
  catch terminal (record_receipt_hash (payment_order_id o) h).

Definition is_url (s : string) : bool :=
  starts_with (chars "http://") (chars s) || starts_with (chars "https://") (chars s).

(** ** http402 *)

Definition settle_http402_success (sgn : option OperatorKeys) (rc : bytes) : SM unit :=
  let h := sha3_256 rc in
  _ ← dedupe_check h "receipt";
  _ ← post_journal sgn;
  _ ← mark_settled (ReceiptHttp402 rc) false;
  _ ← record_receipt h;
  _ ← notify_settled;
  audit_settled (fun o => JObj [("amount", JStr (amount o)); ("currency", JStr (currency o));
    ("order", JStr (payment_order_id o)); ("rail", JStr "http402"); ("to", JStr (to o))]).

Definition retry_after_suffix (r : option Z) : string :=
  match r with Some s => " retry-after=" +:+ show_Z s +:+ "s" | None => EmptyString end.

(** The verify gates of the facilitator split: requirements, offline check,
    [/verify]; what [/settle] is then called with. *)
Definition settle_http402_with_facilitator (sgn : option OperatorKeys) (keys : OperatorKeys)
    (cfg : FacilitatorConfig) : SM unit :=
  o ← the_order;
  '(status, headers, _) ← catch x402_err (http_get (to o) [] "http402");
  if negb (status =? 402)
  then fail (Terminal ("expected 402 Payment Required, got HTTP " +:+ show_Z status))
  else match (headers : Headers) !! PAYMENT_REQUIRED with
  | None => fail (Terminal "402 response missing PAYMENT-REQUIRED header")
  | Some raw =>
      req ← catch x402_err (lift (parse_requirements raw));
      p ← catch x402_err (hybrid_sign keys req (to o));
      match verify_signed_payload p (to o) (Some (amount o)) with
      | VReject reason => fail (Terminal ("verify rejected: " +:+ reason))
      | VAccept =>
          verified ← catch x402_err (facilitator_verify cfg p req (to o));
          if negb verified then fail (Terminal "facilitator /verify rejected the payment")
          else
            out ← catch x402_err (facilitator_settle cfg p req (to o));
            match out with
            | Settled rc => settle_http402_success sgn rc
            | Pending tx ra => fail (NeedsAction ("settlement_pending tx=" +:+ default EmptyString tx
                                                  +:+ retry_after_suffix ra))
            | Rejected e (Some secs) =>
                fail (Retryable ("facilitator /settle rejected: " +:+ e +:+ " (retry-after="
                                 +:+ show_Z secs +:+ "s)"))
            | Rejected e None => fail (Terminal ("facilitator /settle rejected: " +:+ e))
            end
      end
  end.

Definition settle_http402 (sgn : option OperatorKeys) : SM unit :=
  o ← the_order;
  if negb (is_url (to o))
  then fail (Terminal ("http402 rail: order.to must be an x402 endpoint URL, got " +:+ to o))
  else match sgn with
  | None => fail (Terminal "http402 rail requires the operator identity (run origin-identity keygen) — refusing to send an unsigned payment")
  | Some keys =>
      cfg ← catch x402_err (r ← load_facilitator_config "http402"; lift r);
      match cfg with
      | Some cfg => settle_http402_with_facilitator sgn keys cfg
      | None =>
          out ← catch x402_err (execute (to o) keys);
          match outcome_status out with
          | XSuccess => settle_http402_success sgn (outcome_receipt out)
          | XPending tx => fail (NeedsAction ("settlement_pending tx=" +:+ default EmptyString tx))
          | XFailed e => fail (Terminal (default "x402 payment rejected" e))
          end
      end
  end.

(** ** card *)

Definition settle_card_success (sgn : option OperatorKeys) (network last4 : string) (auth : bytes)
    : SM unit :=
  let h := sha3_256 auth in
  _ ← dedupe_check h "card receipt";
  _ ← post_journal sgn;
  _ ← mark_settled (ReceiptCardAcp network last4 auth) false;
  _ ← record_receipt h;
  _ ← notify_settled;
  audit_settled (fun o => JObj [("amount", JStr (amount o)); ("card_last4", JStr last4);
    ("card_network", JStr network); ("currency", JStr (currency o));
    ("order", JStr (payment_order_id o)); ("rail", JStr "card")]).

Definition settle_card (sgn : option OperatorKeys) : SM unit :=
  o ← the_order;
  match card_token o, card_network o, card_last4 o with
  | Some token, Some network, Some last4 =>
      cfg ← catch card_err (r ← load_facilitator_config "card"; lift r);
      match cfg with
      | None => fail (Terminal "card rail not configured: run `psp-configure card --secret-file <KEY> --facilitator-url <URL> --totp <code>` first")
      | Some cfg =>
          out ← catch card_err (card_authorize cfg
            {| card_req_token := token; card_req_network := network; card_req_last4 := last4;
               card_req_amount := amount o; card_req_currency := currency o;
               card_req_order_id := payment_order_id o; card_req_checkout_id := checkout_id o |});
          match out with
          | CardSettled auth => settle_card_success sgn network last4 auth
          | CardPending tx => fail (NeedsAction ("settlement_pending tx=" +:+ default EmptyString tx))
          | CardDeclined e => fail (Terminal ("card authorization declined: " +:+ e))
          end
      end
  | _, _, _ => fail (Terminal "card rail requires the order's card tokenization (order-create --card-token --card-network --card-last4); PCI out of scope — a token reference, never the PAN")
  end.

(** ** ach *)

(** The settlement reference of a receipt: [settlement_ref], else [transaction]. *)
Definition settlement_ref_of (rc : bytes) : string :=
  default EmptyString
    (v ← ok (value_from_slice rc);
     r ← match json_get "settlement_ref" v with Some x => Some x | None => json_get "transaction" v end;
     as_str r).

Definition settle_ach_success (sgn : option OperatorKeys) (rc : bytes) : SM unit :=
  let h := sha3_256 rc in
  _ ← dedupe_check h "ACH receipt";
  let ref := settlement_ref_of rc in
  _ ← post_journal sgn;
  _ ← mark_settled (ReceiptAch ref rc) false;
  _ ← record_receipt h;
  _ ← notify_settled;
  audit_settled (fun o => JObj [("amount", JStr (amount o)); ("currency", JStr (currency o));
    ("order", JStr (payment_order_id o)); ("rail", JStr "ach")]).

Definition settle_ach (sgn : option OperatorKeys) : SM unit :=
  o ← the_order;
  cfg ← catch terminal (r ← load_facilitator_config "ach"; lift r);
  match cfg with
  | None => fail (Terminal "ach rail not configured: run `psp-configure ach --secret-file <KEY> --facilitator-url <URL> --totp <code>` first")
  | Some cfg =>
      if negb (is_url (to o))
      then fail (Terminal ("ach rail: order.to must be an ACH facilitator URL, got " +:+ to o))
      else match sgn with
      | None => fail (Terminal "ach rail requires the operator identity (run origin-identity keygen) — refusing to send an unsigned payment")
      | Some keys =>
          '(status, headers, _) ← catch x402_err (http_get (to o) [] "http402");
          if negb (status =? 402)
          then fail (Terminal ("expected 402 Payment Required from ACH facilitator, got HTTP " +:+ show_Z status))
          else match (headers : Headers) !! PAYMENT_REQUIRED with
          | None => fail (Terminal "402 response missing PAYMENT-REQUIRED header")
          | Some raw =>
              req ← catch terminal (lift (parse_requirements raw));
              p ← catch terminal (hybrid_sign keys req (to o));
              match verify_signed_payload p (to o) (Some (amount o)) with
              | VReject reason => fail (Terminal ("ach verify rejected: " +:+ reason))
              | VAccept =>
                  verified ← catch retryable (facilitator_verify cfg p req (to o));
                  if negb verified then fail (Terminal "ACH facilitator /verify rejected the payment")
                  else
                    out ← catch retryable (facilitator_settle cfg p req (to o));
                    match out with
                    | Settled rc => settle_ach_success sgn rc
                    | Pending tx ra =>
                        fail (NeedsAction ("ACH settlement_pending tx=" +:+ default EmptyString tx
                                           +:+ retry_after_suffix ra))
                    | Rejected e (Some secs) =>
                        fail (Retryable ("ACH facilitator /settle rejected: " +:+ e +:+ " (retry-after="
                                         +:+ show_Z secs +:+ "s)"))
                    | Rejected e None => fail (Terminal ("ACH facilitator /settle rejected: " +:+ e))
                    end
              end
          end
      end
  end.

(** ** native *)

Context `{!NativeRail}.

(** [rail.pay(wallet, params)]: the wallet is mutated whatever the result. *)
Definition pay_native (amt : Z) : SM NativeReceipt := fun p =>
  let o := pass_order p in
  let memo := as_bytes (checkout_id o) in
  _ ← send (CallNative (to o) amt memo (Some amt));
  t ← tick;
  let '(r, w) := native_pay t (pass_wallet p) (to o) amt memo (Some amt) None in
  mret (map_err Retryable r, {| pass_wallet := w; pass_order := o |}).

Definition settle_native (amt : Z) (sgn : option OperatorKeys) : SM unit :=
  rc ← pay_native amt;
  encoded ← of_result (map_err (fun e => Terminal ("encoding native receipt: " +:+ e)) (receipt_to_bytes rc));
  _ ← post_journal sgn;
  _ ← mark_settled (ReceiptNative encoded) true;
  _ ← notify_settled;
  audit_settled (fun o => JObj [("amount", JStr (amount o)); ("currency", JStr (currency o));
    ("direction", JStr (direction_to_string (direction o))); ("order", JStr (payment_order_id o));
    ("to", JStr (to o))]).

(** ** Routing and gates *)

Definition compliance_gate (scorer : option ComplianceScorer) : SM unit :=
  match scorer with
  | None => mret tt
  | Some score =>
      o ← the_order;
      v ← catch terminal (t ← tick; lift (score t o));
      match v with
      | Accept => mret tt
      | Flag reason =>
          catch terminal (audit_record AT_ORDER_FLAGGED
            (JObj [("flag", JStr reason); ("order", JStr (payment_order_id o))]) None)
      | Reject reason _ => fail (Terminal ("compliance rejected: " +:+ reason))
      end
  end.

(** The checks before any rail call, and the amount they admit. *)
Definition policy_check (config : PaymentsConfig) (o : PaymentOrder) : result string Z :=
  let hint := rail_as_str (default Native (rail o)) in
  if negb (bool_decide (hint ∈ enabled_rails config))
  then Err ("rail " +:+ hint +:+ " is not enabled (enabled: " +:+ join ", " (enabled_rails config) +:+ ")")
  else
    minor ← map_err (fun _ => "invalid amount: " +:+ amount o) (parse_amount (amount o));
    if minor <? 0 then Err ("negative amount: " +:+ amount o)
    else match per_tx_cap config with
    | None => Ok minor
    | Some cap_str =>
        cap ← map_err (fun _ => "bad per_tx_cap in config: " +:+ cap_str) (parse_amount cap_str);
        if cap <? minor
        then Err ("amount " +:+ amount o +:+ " exceeds per-tx cap " +:+ cap_str
                  +:+ " (policy refusal — nothing sent)")
        else Ok minor
    end.

Definition settle (config : PaymentsConfig) (sgn : option OperatorKeys)
    (scorer : option ComplianceScorer) : SM unit :=
  o ← the_order;
  match policy_check config o with
  | Err reason => fail (Terminal reason)
  | Ok minor =>
      _ ← compliance_gate scorer;
      match default Native (rail o) with
      | Native => settle_native (wrap_u64 minor) sgn
      | Http402 => settle_http402 sgn
      | Card => settle_card sgn
      | Ach => settle_ach sgn
      end
  end.

(** ** Recording outcomes *)

Definition mark_failed (o : PaymentOrder) (reason : string) : M PaymentOrder :=
  o ← transition_now o Failed;
  _ ← update_order o;
  now ← now_rfc3339;
  _ ← append_dlq {| dlq_order_id := payment_order_id o; dlq_reason := reason;
                    dlq_evidence := JObj [("attempts", JNum (attempts o)); ("rail", JStr "native");
                                          ("status", JStr (status_to_string (status o)))];
                    dlq_created_at := now |};
  _ ← notify o ("order_failed: " +:+ reason);
  _ ← audit_record AT_ORDER_FAILED
        (JObj [("order", JStr (payment_order_id o)); ("reason", JStr reason)]) None;
  mret o.

Definition event_with (e : PaymentEvent) (os : list PaymentOrder) : PaymentEvent :=
  {| event_version := event_version e; event_id := event_id e; event_checkout_id := event_checkout_id e;
     buyer := buyer e; seller := seller e; payment_orders := os; event_status := rollup os;
     event_created_at := event_created_at e; envelope := None; event_signature := None;
     event_signer := None |}.

(** The last snapshot of the event that holds the order. *)
Definition event_of (id : string) (es : list PaymentEvent) : option PaymentEvent :=
  List.find (fun e => existsb (has_id id) (payment_orders e)) (rev es).

Definition refresh (latest : list PaymentOrder) (e : PaymentEvent) : PaymentEvent :=
  event_with e (omap (fun o => List.find (has_id (payment_order_id o)) latest) (payment_orders e)).

Definition rollup_event (id : string) : M unit :=
  es ← events;
  match event_of id es with
  | None => mret tt
  | Some e => latest ← latest_orders; update_event (refresh latest e)
  end.

(** A [retry-after=Xs] hint in a reason, in milliseconds. *)
Definition extract_retry_after_ms (reason : string) : option Z :=
  w ← List.find (starts_with (chars "retry-after=")) (split_whitespace reason);
  v ← strip_prefix (chars "retry-after=") w;
  d ← strip_suffix (chars "s") v;
  secs ← parse_u64 d;
  Some (wrap_u64 (secs * 1000)).

(** [insert_order] of a fresh payout for [amt], and its audit record. *)
Definition insert_payout (o : PaymentOrder) (amt : string) (fields : string -> list (string * json)) : M unit :=
  id ← new_uuid;
  now ← now_rfc3339;
  let payout := set_direction (order_new id now (checkout_id o) (to o) amt (currency o)) Payout in
  _ ← insert_order payout;
  audit_record AT_ORDER_CREATED (JObj (fields id)) None.

Definition apply_settlement_preference (config : PaymentsConfig) (o : PaymentOrder) : M unit :=
  match settlement_preference config with
  | Hold => mret tt
  | OffRamp => insert_payout o (amount o)
      (fun id => [("order", JStr id); ("reason", JStr "settlement_preference off_ramp");
                  ("source_order", JStr (payment_order_id o))])
  | SplitPref =>
      let off_ramp_pct := 100 - Z.min (split_pct config) 100 in
      if off_ramp_pct <=? 0 then mret tt
      else
        let amount_minor := default 0 (ok (parse_amount (amount o))) in
        let payout_minor := Z.quot (wrap_i128 (amount_minor * off_ramp_pct)) 100 in
        if payout_minor <=? 0 then mret tt
        else insert_payout o (payout_amount payout_minor)
          (fun id => [("off_ramp_pct", JNum off_ramp_pct); ("order", JStr id);
             ("reason", JStr "settlement_preference split");
             ("source_order", JStr (payment_order_id o)); ("split_pct", JNum (split_pct config))])
  end.

(** ** Crash recovery *)

Definition executing_expired (since : string) (ttl_secs : Z) : M bool :=
  match parse_rfc3339 since with
  | None => mret false
  | Some s => now ← now_nanos; mret (wrap_i64 ttl_secs * 1000000000 <? now - s)
  end.

Definition requeue_one (config : PaymentsConfig) (counts : Z * Z) (o : PaymentOrder) : M (Z * Z) :=
  match executing_since o with
  | None => mret counts
  | Some since =>
      expired ← executing_expired since (executing_ttl_secs config);
      if negb expired then mret counts
      else
        let o := set_attempts o (wrap_u32 (attempts o + 1)) in
        counts ← (if max_attempts (retry config) <=? attempts o then
                    _ ← mark_failed o "stuck in EXECUTING past TTL (attempts exhausted)";
                    mret (counts.1, counts.2 + 1)
                  else
                    o ← transition_now o NotStarted;
                    let o := set_next_retry_at (set_executing_since o None) None in
                    _ ← update_order o;
                    _ ← audit_record AT_ORDER_REQUEUED
                          (JObj [("order", JStr (payment_order_id o));
                                 ("reason", JStr "executing ttl exceeded")]) None;
                    mret (counts.1 + 1, counts.2));
        _ ← rollup_event (payment_order_id o);
        mret counts
  end.

Definition requeue_stuck_executing (config : PaymentsConfig) : M (Z * Z) :=
  os ← orders_with_status Executing;
  fold_M (requeue_one config) (0, 0) os.

(** ** One pass *)

(** The loop's state: the open wallet, counters and failure messages. *)
Record Progress := {
  pr_wallet : Wallet; pr_executed : Z; pr_retried : Z; pr_failures : list string
}.

Definition handle_outcome (config : PaymentsConfig) (o : PaymentOrder) (pr : Progress)
    (r : result SettleOutcome unit) : M Progress :=
  let id := payment_order_id o in
  match r with
  | Ok _ =>
      _ ← (if bool_decide (direction o = Payment) then apply_settlement_preference config o else mret tt);
      mret {| pr_wallet := pr_wallet pr; pr_executed := pr_executed pr + 1;
              pr_retried := pr_retried pr; pr_failures := pr_failures pr |}
  | Err (Retryable reason) =>
      so ← schedule_retry o reason (retry config) (extract_retry_after_ms reason);
      if (so.1 : bool)
      then mret {| pr_wallet := pr_wallet pr; pr_executed := pr_executed pr;
                   pr_retried := pr_retried pr + 1;
                   pr_failures := pr_failures pr ++ [id +:+ ": " +:+ reason +:+ " (retry scheduled)"] |}
      else
        _ ← mark_failed o reason;
        mret {| pr_wallet := pr_wallet pr; pr_executed := pr_executed pr; pr_retried := pr_retried pr;
                pr_failures := pr_failures pr ++ [id +:+ ": " +:+ reason] |}
  | Err (NeedsAction reason) =>
      o ← transition_now o RequiresAction;
      _ ← update_order o;
      _ ← notify o ("requires_action: " +:+ reason);
      _ ← audit_record AT_ORDER_FAILED
            (JObj [("order", JStr id); ("requires_action", JStr reason)]) None;
      mret {| pr_wallet := pr_wallet pr; pr_executed := pr_executed pr; pr_retried := pr_retried pr;
              pr_failures := pr_failures pr ++ [id +:+ ": " +:+ reason +:+ " (awaiting action)"] |}
  | Err (Terminal reason) =>
      _ ← mark_failed o reason;
      mret {| pr_wallet := pr_wallet pr; pr_executed := pr_executed pr; pr_retried := pr_retried pr;
              pr_failures := pr_failures pr ++ [id +:+ ": " +:+ reason] |}
  end.

Definition process_order (config : PaymentsConfig) (sgn : option OperatorKeys)
    (scorer : option ComplianceScorer) (pr : Progress) (o : PaymentOrder) : M Progress :=
  o ← transition_now o Executing;
  now ← now_rfc3339;
  let o := set_attempts (set_executing_since o (Some now)) (wrap_u32 (attempts o + 1)) in
  _ ← update_order o;
  rp ← settle config sgn scorer {| pass_wallet := pr_wallet pr; pass_order := o |};
  let pr := {| pr_wallet := pass_wallet rp.2; pr_executed := pr_executed pr;
               pr_retried := pr_retried pr; pr_failures := pr_failures pr |} in
  pr ← handle_outcome config (pass_order rp.2) pr rp.1;
  _ ← rollup_event (payment_order_id o);
  mret pr.

(** Failed orders whose retry deadline has passed: deadlines are compared as strings. *)
Definition due (now : string) (o : PaymentOrder) : bool :=
  match next_retry_at o with Some d => String.leb d now | None => false end.

Definition pass_note (n_ready : Z) (pr : Progress) (n_deferred ttl_dlq : Z) : string :=
  let base :=
    match pr_failures pr with
    | [] => if pr_executed pr =? 0 then "no orders were ready"
            else "settled " +:+ show_Z (pr_executed pr) +:+ " order(s)"
    | fs => "settled " +:+ show_Z (pr_executed pr) +:+ " of " +:+ show_Z n_ready +:+ " (retried "
            +:+ show_Z (pr_retried pr) +:+ "); " +:+ join "; " fs
    end in
  let base := if 0 <? n_deferred then base +:+ " (deferred batch committed)" else base in
  if 0 <? ttl_dlq then base +:+ " (TTL sweep DLQ'd " +:+ show_Z ttl_dlq +:+ " stuck order(s))" else base.

Definition deferred_pass (config : PaymentsConfig) : M Z :=
  if deferred_settlement_enabled config then
    its ← deferred_commitments;
    match its with
    | [] => mret 0
    | _ => n ← now_nanos; _ ← commit_deferred_batch (day n); mret 1
    end
  else mret 0.

Definition run_once (wallet_path : string) (operator : option OperatorKeys)
    (scorer : option ComplianceScorer) : M ExecutorSummary :=
  wallet ← wallet_open wallet_path;
  config ← load_config;
  now ← now_rfc3339;
  swept ← requeue_stuck_executing config;
  n_deferred ← deferred_pass config;
  fresh ← orders_with_status NotStarted;
  failed ← orders_with_status Failed;
  let ready_orders := fresh ++ List.filter (due now) failed in
  pr ← fold_M (process_order config operator scorer)
         {| pr_wallet := wallet; pr_executed := 0; pr_retried := 0; pr_failures := [] |} ready_orders;
  let n_ready := Z.of_nat (length ready_orders) in
  _ ← wallet_save (pr_wallet pr);
  mret {| ready := n_ready; executed := pr_executed pr; retried := pr_retried pr;
          recovered := swept.1; deferred_batches := n_deferred;
          note := pass_note n_ready pr n_deferred swept.2 |}.
End Executor.
