(* ===== verification/Steps.v ===== *)
(** * How the store evolves

    The elementary writes a payment pass makes, as a step relation on the
    state, with the condition each write respects; what every sequence of
    such steps preserves is proved here by induction on the sequence, once
    for all the programs that are shown to take only such steps. *)

From Stdlib Require Import Ascii String.
From S2P Require Import Prelude RustStr Bytes Sdk PayError Amount Event Mmr Store Hoare.
From S2P Require Import Journal AuditLog.

Section Steps.
Context `{Sdk, Env}.

Definition orders_of (σ : State) : list PaymentOrder := st_orders (w_store σ).
Definition audit_of (σ : State) : list AuditRecord := st_audit (w_store σ).
Definition latest (σ : State) (id : string) : option PaymentOrder := latest_in (orders_of σ) id.

(** The fields of an order that no transition touches. *)
Definition frozen (o : PaymentOrder) :=
  (order_version o, payment_order_id o, checkout_id o, to o, amount o, currency o, fx o,
   (card_token o, card_network o, card_last4 o), rail o, direction o, created_at o,
   (signature o, signer o)).

(** [o'] may follow [o] in the log. *)
Definition legal (o o' : PaymentOrder) : Prop :=
  frozen o' = frozen o /\ can_transition (status o) (status o') = true.

(** What a native payment for [o] carries; an HTTP request has no shape of its own. *)
Definition sent_for (o : PaymentOrder) (c : RailCall) : Prop :=
  match c with
  | CallNative dest amt memo cap =>
      dest = to o /\ memo = as_bytes (checkout_id o) /\ cap = Some amt /\
      exists m, parse_amount (amount o) = Ok m /\ amt = wrap_u64 m
  | CallHttp _ _ => True
  end.

(** One write while order [id] is being processed. *)
Inductive step (id : string) (σ : State) : State -> Prop :=
| step_order o o' : latest σ id = Some o -> legal o o' ->
    step id σ (on_store (fun s => push_order s o') σ)
| step_new n : latest σ (payment_order_id n) = None -> status n = NotStarted ->
    step id σ (on_store (fun s => push_order s n) σ)
| step_posting o p : latest σ id = Some o -> status o = Executing -> posting_order_id p = id ->
    prev_hash p = head_of (journal_of σ) -> step id σ (on_store (fun s => push_posting s p) σ)
| step_audit r : audit_next (audit_of σ) r -> step id σ (on_store (fun s => push_audit s r) σ)
| step_event e : step id σ (on_store (fun s => push_event s e) σ)
| step_retry j : job_order_id j = id -> step id σ (on_store (fun s => push_retry s j) σ)
| step_dlq d : dlq_order_id d = id -> step id σ (on_store (fun s => push_dlq s d) σ)
| step_note n : note_order_id n = id -> step id σ (on_store (fun s => push_notification s n) σ)
| step_receipt o r : latest σ id = Some o -> status o = Success -> receipt_order_id r = id ->
    step id σ (on_store (fun s => push_receipt s r) σ)
| step_send o c : latest σ id = Some o -> status o = Executing -> sent_for o c -> step id σ (sending c σ)
| step_wallet x : step id σ (with_wallet x σ)
| step_batch b : step id σ (on_store (fun s => put_batch s b) σ)
| step_mmr m : step id σ (on_store (fun s => put_mmr s m) σ)
| step_queue l : step id σ (on_store (fun s => put_deferred s l) σ).

(** A step that leaves the order log alone; one that leaves the journal alone too. *)
Definition quiet (id : string) (σ σ' : State) : Prop := step id σ σ' /\ orders_of σ' = orders_of σ.
Definition silent (id : string) (σ σ' : State) : Prop :=
  quiet id σ σ' /\ journal_of σ' = journal_of σ.

(** ** The log *)

Lemma latest_in_snoc (os : list PaymentOrder) (o : PaymentOrder) (id : string) :
  latest_in (os ++ [o]) id = if has_id id o then Some o else latest_in os id.
Proof. unfold latest_in. rewrite rev_app_distr. done. Qed.

Lemma has_id_true (id : string) (o : PaymentOrder) : has_id id o = true <-> payment_order_id o = id.
Proof. unfold has_id. by rewrite bool_decide_eq_true. Qed.

Lemma latest_in_id (os : list PaymentOrder) (id : string) (o : PaymentOrder) :
  latest_in os id = Some o -> payment_order_id o = id.
Proof. unfold latest_in. intros E. apply find_some in E as [_ E]. by apply has_id_true. Qed.

Lemma latest_in_elem (os : list PaymentOrder) (id : string) (o : PaymentOrder) :
  latest_in os id = Some o -> o ∈ os.
Proof.
  unfold latest_in. intros E. apply find_some in E as [E _]. apply list_elem_of_In, in_rev, E.
Qed.

Lemma orders_push (σ : State) (o : PaymentOrder) :
  orders_of (on_store (fun s => push_order s o) σ) = orders_of σ ++ [o].
Proof. unfold orders_of. cbn. by destruct (w_store σ). Qed.

Lemma latest_push (σ : State) (o : PaymentOrder) (id : string) :
  latest (on_store (fun s => push_order s o) σ) id = if has_id id o then Some o else latest σ id.
Proof. unfold latest. by rewrite orders_push, latest_in_snoc. Qed.

(** The journal and order log after each step. *)
Lemma step_orders (id : string) (σ σ' : State) :
  step id σ σ' ->
  orders_of σ' = orders_of σ \/
  exists o', orders_of σ' = orders_of σ ++ [o'] /\
    ((exists o, latest σ id = Some o /\ legal o o') \/
     (latest σ (payment_order_id o') = None /\ status o' = NotStarted)).
Proof.
  destruct 1; unfold orders_of; cbn; destruct (w_store σ) eqn:Es; cbn; eauto 10.
Qed.

Lemma step_journal (id : string) (σ σ' : State) :
  step id σ σ' ->
  journal_of σ' = journal_of σ \/
  exists p o, journal_of σ' = journal_of σ ++ [p] /\ latest σ id = Some o /\ status o = Executing /\
    posting_order_id p = id /\ prev_hash p = head_of (journal_of σ).
Proof.
  destruct 1; unfold journal_of in *; cbn; destruct (w_store σ) eqn:Es; cbn; eauto 10.
Qed.

Lemma step_audit_log (id : string) (σ σ' : State) :
  step id σ σ' ->
  audit_of σ' = audit_of σ \/ exists r, audit_of σ' = audit_of σ ++ [r] /\ audit_next (audit_of σ) r.
Proof. destruct 1; unfold audit_of in *; cbn; destruct (w_store σ) eqn:Es; cbn in *; eauto 10. Qed.

Lemma step_sent (id : string) (σ σ' : State) :
  step id σ σ' ->
  w_sent σ' = w_sent σ \/
  exists c o, w_sent σ' = w_sent σ ++ [c] /\ latest σ id = Some o /\ status o = Executing /\ sent_for o c.
Proof. destruct 1; cbn; eauto 10. Qed.

(** ** A pass: steps for whatever order is at hand *)

Definition pass_step (σ σ' : State) : Prop := exists id, step id σ σ'.
Abbreviation evolves := (rtc pass_step).

Lemma evolves_of (id : string) (σ σ' : State) : rtc (step id) σ σ' -> evolves σ σ'.
Proof. apply rtc_subrel. intros x y Hs. by exists id. Qed.

(** The order log of a store whose writers respect the status machine. *)
Inductive log_ok : list PaymentOrder -> Prop :=
| log_nil : log_ok []
| log_first os o : log_ok os -> latest_in os (payment_order_id o) = None -> status o = NotStarted ->
    log_ok (os ++ [o])
| log_next os o o' : log_ok os -> latest_in os (payment_order_id o') = Some o -> legal o o' ->
    log_ok (os ++ [o']).

Lemma legal_id (o o' : PaymentOrder) : legal o o' -> payment_order_id o' = payment_order_id o.
Proof. intros [E _]. unfold frozen in E. congruence. Qed.

Lemma step_log_ok (σ σ' : State) : pass_step σ σ' -> log_ok (orders_of σ) -> log_ok (orders_of σ').
Proof.
  intros [id Hs] Hl. apply step_orders in Hs as [->|(o' & -> & [(o & Ho & Hleg)|[Hn Hst]])]; [done|..].
  - eapply log_next; [done| |done]. rewrite (legal_id _ _ Hleg).
    rewrite (latest_in_id _ _ _ Ho). exact Ho.
  - by apply log_first.
Qed.

Lemma step_chain (σ σ' : State) : pass_step σ σ' -> chain_ok (journal_of σ) -> chain_ok (journal_of σ').
Proof.
  intros [id Hs] Hc. apply step_journal in Hs as [->|(p & o & -> & _ & _ & _ & Hp)]; [done|].
  by apply chain_ok_snoc.
Qed.

Lemma step_audit_ok (σ σ' : State) :
  pass_step σ σ' -> verify_records ZERO_HASH (audit_of σ) = Ok true ->
  verify_records ZERO_HASH (audit_of σ') = Ok true.
Proof.
  intros [id Hs] Hv. apply step_audit_log in Hs as [->|(r & -> & Hr)]; [done|].
  by apply verify_records_snoc.
Qed.

(** The logs only grow. *)
Lemma step_append_only (σ σ' : State) :
  pass_step σ σ' -> orders_of σ `prefix_of` orders_of σ' /\ journal_of σ `prefix_of` journal_of σ' /\
    audit_of σ `prefix_of` audit_of σ' /\ w_sent σ `prefix_of` w_sent σ'.
Proof.
  intros [id Hs]. split_and!.
  - apply step_orders in Hs as [->|(o' & -> & _)]; [done|by eexists].
  - apply step_journal in Hs as [->|(p & o & -> & _)]; [done|by eexists].
  - apply step_audit_log in Hs as [->|(r & -> & _)]; [done|by eexists].
  - apply step_sent in Hs as [->|(c & o & -> & _)]; [done|by eexists].
Qed.

(** A settled order stays as it is and gets no further posting. *)
Definition postings_of (id : string) (js : list LedgerPosting) : list LedgerPosting :=
  filter (fun p => posting_order_id p = id) js.

Lemma step_settled (σ σ' : State) (id : string) (o : PaymentOrder) :
  pass_step σ σ' -> latest σ id = Some o -> status o = Success ->
  latest σ' id = Some o /\ postings_of id (journal_of σ') = postings_of id (journal_of σ).
Proof.
  intros [i Hs] Ho Hst. split.
  - destruct (step_orders _ _ _ Hs) as [E|(o' & E & Hcase)]; unfold latest; rewrite E; [done|].
    rewrite latest_in_snoc. destruct (has_id id o') eqn:Eid; [|done]. exfalso.
    apply has_id_true in Eid. destruct Hcase as [(p & Hp & Hleg)|[Hn _]].
    + assert (i = id) as ->.
      { rewrite <- Eid, (legal_id _ _ Hleg). symmetry. by eapply latest_in_id. }
      rewrite Ho in Hp. injection Hp as <-. destruct Hleg as [_ Ht]. by rewrite Hst in Ht.
    + rewrite Eid in Hn. congruence.
  - destruct (step_journal _ _ _ Hs) as [->|(p & o' & -> & Hi & He & Hp & _)]; [done|].
    unfold postings_of. apply filter_app_nil. constructor; [|constructor].
    intros Hid. assert (i = id) as -> by congruence. congruence.
Qed.

Lemma evolves_ind_inv (P : State -> Prop) (σ σ' : State) :
  (forall a b, pass_step a b -> P a -> P b) -> evolves σ σ' -> P σ -> P σ'.
Proof. intros Hs. induction 1; eauto. Qed.

Lemma evolves_settled (σ σ' : State) (id : string) (o : PaymentOrder) :
  evolves σ σ' -> latest σ id = Some o -> status o = Success ->
  latest σ' id = Some o /\ postings_of id (journal_of σ') = postings_of id (journal_of σ).
Proof.
  induction 1 as [|x y z Hxy Hyz IH]; intros Ho Hst; [done|].
  destruct (step_settled _ _ _ _ Hxy Ho Hst) as [Hy Hp]. destruct (IH Hy Hst) as [Hz Hq].
  by rewrite <- Hp.
Qed.

Lemma evolves_append_only (σ σ' : State) :
  evolves σ σ' -> orders_of σ `prefix_of` orders_of σ' /\ journal_of σ `prefix_of` journal_of σ' /\
    audit_of σ `prefix_of` audit_of σ' /\ w_sent σ `prefix_of` w_sent σ'.
Proof.
  induction 1 as [|x y z Hxy Hyz (I1 & I2 & I3 & I4)]; [done|].
  destruct (step_append_only _ _ Hxy) as (H1 & H2 & H3 & H4).
  split_and!; by etransitivity.
Qed.

(** Processing one order leaves the others' latest snapshots alone; a new
    order appears as not started. *)
Lemma step_others (id id' : string) (σ σ' : State) :
  rtc (step id) σ σ' -> id' <> id ->
  latest σ' id' = latest σ id' \/
  (latest σ id' = None /\ exists n, latest σ' id' = Some n /\ status n = NotStarted).
Proof.
  intros Hs Hne. induction Hs as [|x y z Hxy Hyz IH]; [by left|].
  assert (latest y id' = latest x id' \/
    (latest x id' = None /\ exists n, latest y id' = Some n /\ status n = NotStarted)) as Hy.
  { destruct (step_orders _ _ _ Hxy) as [E|(o' & E & Hc)]; unfold latest; rewrite E; [by left|].
    rewrite latest_in_snoc. destruct (has_id id' o') eqn:Eid; [|by left].
    apply has_id_true in Eid. destruct Hc as [(o & Ho & Hl)|[Hn Hst]].
    - exfalso. apply Hne. rewrite <- Eid, (legal_id _ _ Hl). by eapply latest_in_id.
    - right. rewrite Eid in Hn. eauto. }
  destruct IH as [->|(Hyn & n & Hz & Hst)]; [done|].
  destruct Hy as [E|(_ & n' & E & _)]; [|congruence]. right. rewrite E in Hyn. eauto.
Qed.
End Steps.

Abbreviation evolves := (rtc pass_step).

(** ** Programs that only take silent steps *)

Section Quiet.
Context `{Sdk, Env}.
Variable id : string.
(** A condition on the order log. *)
Variable K : State -> Prop.
Hypothesis K_log : forall σ σ', orders_of σ' = orders_of σ -> K σ -> K σ'.

Definition quietly {A : Type} (m : M A) : Prop :=
  forall σ t, K σ -> rtc (silent id) σ (m σ t).2.1.

Lemma silent_log (σ σ' : State) :
  rtc (silent id) σ σ' -> orders_of σ' = orders_of σ /\ journal_of σ' = journal_of σ.
Proof.
  induction 1 as [|x y z [[_ E1] E2] _ [IH1 IH2]]; [done|]. by rewrite IH1, IH2.
Qed.

Lemma silent_steps (σ σ' : State) : rtc (silent id) σ σ' -> rtc (step id) σ σ'.
Proof. apply rtc_subrel. by intros x y [[? _] _]. Qed.

Lemma quietly_bind {A B : Type} (m : M A) (f : A -> M B) :
  quietly m -> (forall a, quietly (f a)) -> quietly (m ≫= f).
Proof.
  intros Hm Hf σ t Hσ. specialize (Hm σ t Hσ). unfold mbind, M_bind.
  destruct (m σ t) as [[a|e] [σ' t']]; cbn in *; [|done].
  etransitivity; [exact Hm|]. apply Hf. eapply K_log; [|exact Hσ]. by apply silent_log.
Qed.

Lemma quietly_ret {A : Type} (a : A) : quietly (mret a).
Proof. intros σ t _. reflexivity. Qed.
Lemma quietly_throw {A : Type} (e : Error) : quietly (throw (A := A) e).
Proof. intros σ t _. reflexivity. Qed.
Lemma quietly_panic {A : Type} (e : string) : quietly (panic (A := A) e).
Proof. intros σ t _. reflexivity. Qed.
Lemma quietly_tick : quietly tick.
Proof. intros σ t _. reflexivity. Qed.
Lemma quietly_get_state : quietly get_state.
Proof. intros σ t _. reflexivity. Qed.
Lemma quietly_get_store : quietly get_store.
Proof. intros σ t _. reflexivity. Qed.
Lemma quietly_now : quietly now_rfc3339.
Proof. intros σ t _. reflexivity. Qed.
Lemma quietly_nanos : quietly now_nanos.
Proof. intros σ t _. reflexivity. Qed.
Lemma quietly_uuid : quietly new_uuid.
Proof. intros σ t _. reflexivity. Qed.
Lemma quietly_lift {A : Type} (r : result Error A) : quietly (lift r).
Proof. destruct r; [apply quietly_ret|apply quietly_throw]. Qed.

Lemma quietly_attempt {A : Type} (m : M A) : quietly m -> quietly (attempt m).
Proof.
  intros Hm σ t Hσ. specialize (Hm σ t Hσ). unfold attempt.
  by destruct (m σ t) as [[a|[e|e]] w].
Qed.

Lemma quietly_modify (f : State -> State) :
  (forall σ, K σ -> silent id σ (f σ)) -> quietly (modify f).
Proof. intros Hf σ t Hσ. apply rtc_once, Hf, Hσ. Qed.

Lemma quietly_io (what : string) : quietly (io what).
Proof.
  unfold io. apply quietly_bind; [apply quietly_tick|]. intros t.
  destruct (env_io t); [apply quietly_throw|apply quietly_ret].
Qed.

Lemma quietly_append (name : string) (f : PaymentStore -> PaymentStore) :
  (forall σ, K σ -> silent id σ (on_store f σ)) -> quietly (append_jsonl name f).
Proof.
  intros Hf. unfold append_jsonl. repeat (apply quietly_bind; [apply quietly_io|intros _]).
  by apply quietly_modify.
Qed.

Lemma quietly_read {A : Type} (name : string) (f : PaymentStore -> list A) : quietly (read_jsonl name f).
Proof.
  unfold read_jsonl. apply quietly_bind; [apply quietly_get_store|]. intros s.
  destruct (f s); [apply quietly_ret|].
  apply quietly_bind; [apply quietly_io|]. intros _. apply quietly_ret.
Qed.

Lemma silent_intro (σ σ' : State) :
  step id σ σ' -> orders_of σ' = orders_of σ -> journal_of σ' = journal_of σ -> silent id σ σ'.
Proof. by split. Qed.

Lemma quietly_event (e : PaymentEvent) : quietly (update_event e).
Proof.
  apply quietly_append. intros σ _. apply silent_intro; [apply step_event|..];
    unfold orders_of, journal_of; cbn; by destruct (w_store σ).
Qed.

Lemma quietly_retry_job (j : RetryJob) : job_order_id j = id -> quietly (append_retry_job j).
Proof.
  intros E. apply quietly_append. intros σ _. apply silent_intro; [by apply step_retry|..];
    unfold orders_of, journal_of; cbn; by destruct (w_store σ).
Qed.

Lemma quietly_dlq (d : DlqRecord) : dlq_order_id d = id -> quietly (append_dlq d).
Proof.
  intros E. apply quietly_append. intros σ _. apply silent_intro; [by apply step_dlq|..];
    unfold orders_of, journal_of; cbn; by destruct (w_store σ).
Qed.

Lemma quietly_notification (n : Notification) : note_order_id n = id -> quietly (append_notification n).
Proof.
  intros E. apply quietly_append. intros σ _. apply silent_intro; [by apply step_note|..];
    unfold orders_of, journal_of; cbn; by destruct (w_store σ).
Qed.

Lemma quietly_audit (ty : Z) (payload : json) (keys : option OperatorKeys) :
  quietly (audit_record ty payload keys).
Proof.
  intros σ t Hσ. apply (audit_record_outcome ty payload keys (fun σ' => σ' = σ)
    (fun _ σ' => rtc (silent id) σ σ')); [|by intros e ? ->|done].
  intros σ' r -> Hn _ _. apply rtc_once, silent_intro; [by apply step_audit|..];
    unfold orders_of, journal_of; cbn; by destruct (w_store σ).
Qed.

Lemma quietly_receipt (h : bytes) (o : PaymentOrder) :
  payment_order_id o = id -> (forall σ, K σ -> exists o, latest σ id = Some o /\ status o = Success) ->
  quietly (record_receipt_hash (payment_order_id o) h).
Proof.
  intros E HK. unfold record_receipt_hash. apply quietly_bind; [apply quietly_now|]. intros now.
  apply quietly_append. intros σ Hσ. destruct (HK σ Hσ) as (o' & Ho & Hs).
  apply silent_intro; [by eapply step_receipt|..]; unfold orders_of, journal_of; cbn; by destruct (w_store σ).
Qed.

Lemma quietly_send (c : RailCall) :
  (forall σ, K σ -> exists o, latest σ id = Some o /\ status o = Executing /\ sent_for o c) -> quietly (send c).
Proof.
  intros HK. apply quietly_modify. intros σ Hσ. destruct (HK σ Hσ) as (o & Ho & Hs & Hc).
  apply silent_intro; [by eapply step_send|done..].
Qed.

Lemma quietly_hoare {A : Type} (m : M A) (P : State -> Prop) :
  quietly m -> (forall σ, P σ -> K σ) -> (forall σ σ', silent id σ σ' -> P σ -> P σ') ->
  hoare P m (fun _ => P).
Proof.
  intros Hm HK Hs σ t Hσ. specialize (Hm σ t (HK σ Hσ)).
  generalize (m σ t).2.1, Hm. intros σ' Hr. revert Hσ. clear -Hr Hs. induction Hr; eauto.
Qed.
End Quiet.

(** Decompose a program into its operations. *)
Ltac quiet_with tac :=
  repeat first
    [ tac | apply quietly_audit | apply quietly_event | apply quietly_read; eassumption
    | apply quietly_io; eassumption | apply quietly_now | apply quietly_nanos | apply quietly_uuid
    | apply quietly_get_store | apply quietly_attempt | apply quietly_lift
    | apply quietly_bind; [eassumption| |intros ?]
    | apply quietly_ret | apply quietly_throw | apply quietly_panic
    | apply quietly_tick | apply quietly_get_state
    | progress cbn beta iota zeta | case_match ].
