(* ===== verification/ExecutorProps.v ===== *)
(** * Properties of the executor

    First that a rail attempt, whatever fails, takes only the steps of
    [Steps.v] and ends in one of three situations: settled and logged,
    untouched, or settled in memory with a failed write.  From this the pass
    as a whole only takes such steps, so everything [Steps.v] proves of step
    sequences holds of it under every fault schedule; without faults the journal
    and the order log agree exactly. *)

From Stdlib Require Import Ascii String.
From S2P Require Import Prelude RustStr Bytes Sdk PayError Amount Event Mmr Store Hoare.
From S2P Require Import Journal AuditLog Retry Compliance RustText Http X402 Settle F64 Executor Steps.

Section Attempt.
Context `{Sdk, Env, Net, Codec, !NativeRail}.

(** The log's latest snapshot of an order is [o]. *)
Definition logged (o : PaymentOrder) (σ : State) : Prop := latest σ (payment_order_id o) = Some o.

Lemma logged_log (o : PaymentOrder) (σ σ' : State) : orders_of σ' = orders_of σ -> logged o σ -> logged o σ'.
Proof. unfold logged, latest. by intros ->. Qed.

Section Quiet_rails.
Variable o : PaymentOrder.
Hypothesis Hexec : status o = Executing.
Let id := payment_order_id o.
Let stable := logged_log o.

Lemma executing_logged (addr : string) (req : bytes) (σ : State) :
  logged o σ -> exists o', latest σ id = Some o' /\ status o' = Executing /\ sent_for o' (CallHttp addr req).
Proof. intros Hσ. by exists o. Qed.

Ltac rails := quiet_with ltac:(first [eassumption | apply quietly_send; [apply executing_logged]]).

Lemma quiet_http (method url : string) (body : option bytes) (extra : list (string * string)) (rl : string) :
  quietly id (logged o) (http_request method url body extra rl).
Proof. unfold http_request. rails. Qed.

Lemma quiet_sign (keys : OperatorKeys) (req : PaymentRequirements) (url : string) :
  quietly id (logged o) (hybrid_sign keys req url).
Proof. unfold hybrid_sign, random_32. rails. Qed.

Lemma quiet_execute (url : string) (keys : OperatorKeys) : quietly id (logged o) (execute url keys).
Proof. unfold execute, http_get. quiet_with ltac:(first [apply quiet_http | apply quiet_sign]). Qed.

Lemma quiet_fac_verify (cfg : FacilitatorConfig) (b : bytes) (req : PaymentRequirements) (url : string) :
  quietly id (logged o) (facilitator_verify cfg b req url).
Proof. unfold facilitator_verify, http_post. quiet_with ltac:(apply quiet_http). Qed.

Lemma quiet_fac_settle (cfg : FacilitatorConfig) (b : bytes) (req : PaymentRequirements) (url : string) :
  quietly id (logged o) (facilitator_settle cfg b req url).
Proof. unfold facilitator_settle, http_post. quiet_with ltac:(apply quiet_http). Qed.

Lemma quiet_card (cfg : FacilitatorConfig) (r : CardAuthRequest) :
  quietly id (logged o) (card_authorize cfg r).
Proof. unfold card_authorize, http_post. quiet_with ltac:(apply quiet_http). Qed.

Lemma quiet_config (rl : string) :
  quietly id (logged o) (r ← load_facilitator_config rl; lift r).
Proof. unfold load_facilitator_config. quiet_with ltac:(fail). Qed.
End Quiet_rails.

(** ** Programs that cannot fail without a fault *)

Definition surely {A : Type} (m : M A) : Prop := no_faults -> forall σ t, is_ok (m σ t).1 = true.

Lemma surely_bind {A B : Type} (m : M A) (f : A -> M B) :
  surely m -> (forall a, surely (f a)) -> surely (m ≫= f).
Proof.
  intros Hm Hf Hn σ t. specialize (Hm Hn σ t). unfold mbind, M_bind.
  destruct (m σ t) as [[a|e] [σ' t']]; [|done]. by apply Hf.
Qed.

Lemma surely_ret {A : Type} (a : A) : surely (mret a).
Proof. done. Qed.

Lemma surely_append (name : string) (f : PaymentStore -> PaymentStore) : surely (append_jsonl name f).
Proof.
  intros Hn σ t. unfold append_jsonl, io, mbind, M_bind, tick. rewrite Hn. cbn. by rewrite Hn.
Qed.

Lemma surely_read {A : Type} (name : string) (f : PaymentStore -> list A) : surely (read_jsonl name f).
Proof.
  intros Hn σ t. unfold read_jsonl, get_store, get_state, io, mbind, M_bind, tick. cbn.
  destruct (f (w_store σ)); [done|]. by rewrite Hn.
Qed.

Lemma surely_audit `{!JsonOk} (ty : Z) (payload : json) : surely (audit_record ty payload None).
Proof.
  unfold audit_record. apply surely_bind; [apply surely_read|]. intros rs.
  apply surely_bind.
  { unfold payload_bytes. destruct (json_total payload) as [b ->]. apply surely_ret. }
  intros b. apply surely_bind; [done|]. intros n.
  apply surely_bind; [apply surely_ret|]. intros r. apply surely_append.
Qed.

Lemma surely_notify (o : PaymentOrder) (ev : string) : surely (notify o ev).
Proof. unfold notify. do 2 (apply surely_bind; [done|intros ?]). apply surely_append. Qed.

Lemma surely_receipt (id : string) (h : bytes) : surely (record_receipt_hash id h).
Proof. unfold record_receipt_hash. apply surely_bind; [done|intros ?]. apply surely_append. Qed.

(** ** Attempts *)

(** A debit and a credit of the order's amount. *)
Definition entry (o : PaymentOrder) (d k : LedgerPosting) : Prop :=
  posting_order_id d = payment_order_id o /\ posting_order_id k = payment_order_id o /\
  account d = Debit /\ account k = Credit /\ posting_amount d = amount o.

(** How an attempt on the logged order [o] may end: [o'] is the order in memory. *)
Definition attempt_post (sgn : option OperatorKeys) (o : PaymentOrder) (σ : State)
    (r : result SettleOutcome unit) (o' : PaymentOrder) (σ' : State) : Prop :=
  rtc (step (payment_order_id o)) σ σ' /\
  match r with
  | Ok _ => logged o' σ' /\ status o' = Success /\ frozen o' = frozen o
  | Err _ => (o' = o /\ logged o σ') \/ status o' = Success
  end /\
  (no_faults -> signs sgn ->
   match r with
   | Ok _ => exists d k, journal_of σ' = journal_of σ ++ [d; k] /\ entry o d k
   | Err _ => journal_of σ' = journal_of σ /\ o' = o /\ logged o σ'
   end).

Definition attempt_ok (sgn : option OperatorKeys) (o : PaymentOrder) (m : SM unit) : Prop :=
  forall wal σ t, logged o σ ->
    let out := m {| pass_wallet := wal; pass_order := o |} σ t in
    match out.1 with
    | Ok (r, p') => attempt_post sgn o σ r (pass_order p') out.2.1
    | Err _ => rtc (step (payment_order_id o)) σ out.2.1 /\
               (no_faults -> signs sgn -> journal_of out.2.1 = journal_of σ /\ logged o out.2.1)
    end.

(** A part of an attempt that only takes silent steps and keeps the order. *)
Definition sm_quiet {A : Type} (o : PaymentOrder) (m : SM A) : Prop :=
  forall wal, quietly (payment_order_id o) (logged o) (m {| pass_wallet := wal; pass_order := o |}) /\
  forall σ t, match (m {| pass_wallet := wal; pass_order := o |} σ t).1 with
              | Ok rp => pass_order rp.2 = o
              | Err _ => True
              end.

Lemma sm_quiet_ret {A : Type} (o : PaymentOrder) (a : A) : sm_quiet o (mret a).
Proof. intros wal. split; [apply quietly_ret|done]. Qed.

Lemma sm_quiet_fail {A : Type} (o : PaymentOrder) (e : SettleOutcome) : sm_quiet o (fail (A := A) e).
Proof. intros wal. split; [apply quietly_ret|done]. Qed.

Lemma sm_quiet_of_result {A : Type} (o : PaymentOrder) (r : result SettleOutcome A) : sm_quiet o (of_result r).
Proof. intros wal. split; [apply quietly_ret|done]. Qed.

Lemma sm_quiet_order (o : PaymentOrder) : sm_quiet o the_order.
Proof. intros wal. split; [apply quietly_ret|done]. Qed.

Lemma sm_quiet_catch {A : Type} (o : PaymentOrder) (f : Error -> SettleOutcome) (m : M A) :
  quietly (payment_order_id o) (logged o) m -> sm_quiet o (catch f m).
Proof.
  intros Hm wal. split.
  - apply quietly_bind; [apply logged_log|by apply quietly_attempt|]. intros r. apply quietly_ret.
  - intros σ t. unfold catch, mbind, M_bind, attempt. destruct (m _ _) as [[a|[e|e]] [σ' t']]; done.
Qed.

Lemma sm_quiet_bind {A B : Type} (o : PaymentOrder) (m : SM A) (f : A -> SM B) :
  sm_quiet o m -> (forall a, sm_quiet o (f a)) -> sm_quiet o (m ≫= f).
Proof.
  intros Hm Hf wal. destruct (Hm wal) as [Hq Hp]. split.
  - intros σ t Hσ. specialize (Hp σ t). specialize (Hq σ t Hσ).
    unfold mbind, SM_bind, mbind, M_bind. destruct (m _ _ _) as [[[[a|e] [w p]]|e] [σ' t']]; cbn in *; [|done..].
    subst p. etransitivity; [exact Hq|]. apply (proj1 (Hf a w)).
    eapply logged_log; [|exact Hσ]. by apply silent_log in Hq as [? _].
  - intros σ t. specialize (Hp σ t). unfold mbind, SM_bind, mbind, M_bind.
    destruct (m _ _ _) as [[[[a|e] [w p]]|e] [σ' t']]; cbn in *; [|done..].
    subst p. apply (proj2 (Hf a w)).
Qed.

Lemma attempts_fail (sgn : option OperatorKeys) (o : PaymentOrder) (e : SettleOutcome) :
  attempt_ok sgn o (fail e).
Proof. intros wal σ t Hσ. cbn. split; [reflexivity|]. split; [by left|done]. Qed.

Lemma attempts_bind {A : Type} (sgn : option OperatorKeys) (o : PaymentOrder) (m : SM A) (f : A -> SM unit) :
  sm_quiet o m -> (forall a, attempt_ok sgn o (f a)) -> attempt_ok sgn o (m ≫= f).
Proof.
  intros Hm Hf wal σ t Hσ. destruct (Hm wal) as [Hq Hp]. specialize (Hp σ t). specialize (Hq σ t Hσ).
  cbn zeta. unfold mbind, SM_bind, mbind, M_bind.
  destruct (m _ _ _) as [[[[a|e] [w p]]|e] [σ1 t1]]; cbn in Hp, Hq |- *.
  all: pose proof (silent_log _ _ _ Hq) as [Eo Ej]; pose proof (silent_steps _ _ _ Hq) as Hst.
  all: assert (logged o σ1) as Hl by (by eapply logged_log).
  - subst p. specialize (Hf a w σ1 t1 Hl). cbn zeta in Hf.
    destruct (f a _ σ1 t1) as [[[r p']|e] [σ2 t2]]; cbn in Hf |- *.
    + destruct Hf as (Hs & Hr & Hn). split; [by etransitivity|]. split; [done|]. by rewrite <- Ej.
    + destruct Hf as [Hs Hn]. split; [by etransitivity|]. by rewrite <- Ej.
  - subst p. split; [done|]. split; [by left|done].
  - done.
Qed.

Lemma attempts_order (sgn : option OperatorKeys) (o : PaymentOrder) (f : PaymentOrder -> SM unit) :
  attempt_ok sgn o (f o) -> attempt_ok sgn o (the_order ≫= f).
Proof. intros Hf wal σ t Hσ. apply Hf, Hσ. Qed.

(** ** The settlement tail: journal, mark, record *)

Lemma push_all_orders (ps : list LedgerPosting) (σ : State) : orders_of (push_all ps σ) = orders_of σ.
Proof.
  revert σ. induction ps as [|p ps IH]; intros σ; [done|]. cbn [push_all foldl]. fold (push_all ps (on_store (fun s => push_posting s p) σ)). rewrite IH.
  unfold orders_of. cbn. by destruct (w_store σ).
Qed.

Lemma push_all_steps (o : PaymentOrder) (bid : string) (rate : option FxRate) (ps : list LedgerPosting)
    (σ : State) :
  logged o σ -> status o = Executing -> chained (journal_of σ) ps ->
  Forall (posted bid (payment_order_id o) rate) ps ->
  rtc (step (payment_order_id o)) σ (push_all ps σ).
Proof.
  revert σ. induction ps as [|p ps IH]; intros σ Hl He Hc Hp; [reflexivity|].
  destruct Hc as [Hh Hc]. apply Forall_cons in Hp as [(_ & Hid & _) Hp].
  eapply rtc_l; [by eapply step_posting|]. change (push_all (p :: ps) σ) with (push_all ps (push_all [p] σ)).
  apply IH; try done.
  - eapply logged_log; [|exact Hl]. apply (push_all_orders [p]).
  - change (on_store _ σ) with (push_all [p] σ). by rewrite push_all_journal.
Qed.

Lemma mark_settled_run (rc : RailReceipt) (wu : bool) (wal : Wallet) (o : PaymentOrder) (σ : State) (t : nat) :
  status o = Executing ->
  let out := mark_settled rc wu {| pass_wallet := wal; pass_order := o |} σ t in
  exists o1, status o1 = Success /\ frozen o1 = frozen o /\
    ((exists t', out = (Ok (Ok tt, {| pass_wallet := wal; pass_order := o1 |}),
                        (on_store (fun s => push_order s o1) σ, t'))) \/
     (~ no_faults /\ exists e t', out = (Ok (Err e, {| pass_wallet := wal; pass_order := o1 |}), (σ, t')))).
Proof.
  intros He. unfold mark_settled, the_order, set_order, catch, transition_now, now_rfc3339, now_nanos.
  unfold mbind, SM_bind, mbind, M_bind, mret, SM_ret, M_ret, attempt, tick. cbn.
  unfold transition. cbn. rewrite He. cbn.
  eexists. split; [|split]; [| |]; cycle 2.
  - unfold update_order, append_order, append_jsonl, io, mbind, M_bind, tick, throw, mret, M_ret.
    destruct (env_io (S t)) eqn:E1; cbn.
    { right. split; [intros Hn; by rewrite Hn in E1|]. by eexists _, _. }
    destruct (env_io (S (S t))) eqn:E2; cbn.
    { right. split; [intros Hn; by rewrite Hn in E2|]. by eexists _, _. }
    left. by eexists.
  - done.
  - done.
Qed.

(** The rest of a success path never fails without a fault. *)
Definition sm_surely (o : PaymentOrder) (m : SM unit) : Prop :=
  no_faults -> forall wal σ t, exists p' w', m {| pass_wallet := wal; pass_order := o |} σ t = (Ok (Ok tt, p'), w') /\
                                      pass_order p' = o.

Lemma sm_surely_catch (o : PaymentOrder) (f : Error -> SettleOutcome) (m : M unit) :
  surely m -> sm_surely o (catch f m).
Proof.
  intros Hm Hn wal σ t. specialize (Hm Hn σ t). unfold catch, mbind, M_bind, attempt.
  destruct (m σ t) as [[[]|] [σ' t']]; [|done]. cbn. by eexists _, _.
Qed.

Lemma sm_surely_bind (o : PaymentOrder) (m f : SM unit) :
  sm_surely o m -> sm_surely o f -> sm_surely o (_ ← m; f).
Proof.
  intros Hm Hf Hn wal σ t. destruct (Hm Hn wal σ t) as ([w o'] & [σ' t'] & E & Ho).
  unfold mbind, SM_bind, mbind, M_bind. rewrite E. cbn in *. subst o'. apply (Hf Hn).
Qed.

Lemma attempts_tail (sgn : option OperatorKeys) (o : PaymentOrder) (rc : RailReceipt) (wu : bool)
    (rest : SM unit) :
  status o = Executing ->
  (forall o', status o' = Success -> frozen o' = frozen o -> sm_quiet o' rest /\ sm_surely o' rest) ->
  attempt_ok sgn o (_ ← post_journal sgn; _ ← mark_settled rc wu; rest).
Proof.
  intros He Hrest wal σ t Hσ. cbn zeta.
  unfold post_journal, the_order, catch, attempt.
  unfold mbind, SM_bind, mbind, M_bind, mret, SM_ret, M_ret. cbn [fst snd pass_order].
  pose proof (append_order_batch_outcome (payment_order_id o) (amount o) (currency o) (fx o) sgn σ t) as Hb.
  destruct Hb as (ps & bid & Eσ & Hch & Hall & Hok & Hno).
  destruct (append_order_batch _ _ _ _ sgn σ t) as [r [σ1 t1]]. cbn in *. subst σ1.
  assert (rtc (step (payment_order_id o)) σ (push_all ps σ)) as Hst by (by eapply push_all_steps).
  assert (logged o (push_all ps σ)) as Hl by (eapply logged_log; [apply push_all_orders|done]).
  destruct r as [b|[e|e]]; cbn.
  2:{ split; [done|]. split; [by left|]. intros Hn Hs. rewrite (Hno Hn Hs eq_refl). done. }
  2:{ split; [done|]. intros Hn Hs. rewrite (Hno Hn Hs eq_refl). done. }
  destruct (Hok eq_refl) as (d & k & -> & Hd & Hk & Ha).
  assert (entry o d k) as Hentry.
  { apply Forall_cons in Hall as [(_ & H1' & _) Hall]. apply Forall_cons in Hall as [(_ & H2' & _) _].
    unfold entry. by rewrite H1', H2'. }
  destruct (mark_settled_run rc wu wal o (push_all [d; k] σ) t1 He)
    as (o1 & Hs1 & Hf1 & [(t2 & E)|(Hnf & e & t2 & E)]); rewrite E; cbn [fst snd pass_order].
  2:{ split; [done|]. split; [by right|]. intros Hn. by destruct Hnf. }
  assert (payment_order_id o1 = payment_order_id o) as Hid by (unfold frozen in Hf1; congruence).
  set (σ2 := on_store (fun s => push_order s o1) (push_all [d; k] σ)).
  assert (logged o1 σ2) as Hl2.
  { unfold logged, σ2. rewrite latest_push. by rewrite (proj2 (has_id_true _ _) eq_refl). }
  assert (rtc (step (payment_order_id o)) σ σ2) as Hst2.
  { eapply rtc_r; [exact Hst|]. eapply step_order; [exact Hl|]. split; [done|]. by rewrite He, Hs1. }
  destruct (Hrest o1 Hs1 Hf1) as [Hq Hsure]. destruct (Hq wal) as [Hq1 Hq2].
  specialize (Hq1 σ2 t2 Hl2). specialize (Hq2 σ2 t2). rewrite Hid in Hq1.
  pose proof (silent_log _ _ _ Hq1) as [Eo Ej]. apply silent_steps in Hq1.
  assert (journal_of σ2 = journal_of σ ++ [d; k]) as Ej2.
  { unfold σ2. rewrite <- (push_all_journal [d; k] σ). unfold journal_of. cbn. by destruct (w_store _). }
  destruct (rest _ σ2 t2) as [[[[[]|e] p']|e] [σ3 t3]] eqn:Er; cbn [fst snd] in *.
  - split; [by etransitivity|]. split; [|intros _ _; exists d, k; by rewrite Ej].
    rewrite Hq2. split_and!; try done. by eapply logged_log.
  - split; [by etransitivity|]. split; [right; congruence|]. intros Hn Hs.
    destruct (Hsure Hn wal σ2 t2) as (? & ? & E' & _). rewrite Er in E'. done.
  - split; [by etransitivity|]. intros Hn Hs.
    destruct (Hsure Hn wal σ2 t2) as (? & ? & E' & _). rewrite Er in E'. done.
Qed.

Lemma sm_quiet_the_order {A : Type} (o : PaymentOrder) (f : PaymentOrder -> SM A) :
  sm_quiet o (f o) -> sm_quiet o (the_order ≫= f).
Proof. intros Hf wal. exact (Hf wal). Qed.

Lemma sm_surely_order (o : PaymentOrder) (f : PaymentOrder -> SM unit) :
  sm_surely o (f o) -> sm_surely o (the_order ≫= f).
Proof. intros Hf Hn wal σ t. exact (Hf Hn wal σ t). Qed.

Section Tail.
Context `{!JsonOk}.
Variables (o : PaymentOrder) (f : PaymentOrder -> json) (h : bytes).

Lemma tail_notify : sm_quiet o notify_settled /\ sm_surely o notify_settled.
Proof.
  pose proof (logged_log o). unfold notify_settled. split.
  - apply sm_quiet_the_order, sm_quiet_catch. unfold notify.
    quiet_with ltac:(apply quietly_notification; [eassumption|reflexivity]).
  - apply sm_surely_order, sm_surely_catch, surely_notify.
Qed.

Lemma tail_audit : sm_quiet o (audit_settled f) /\ sm_surely o (audit_settled f).
Proof.
  pose proof (logged_log o). unfold audit_settled. split.
  - apply sm_quiet_the_order, sm_quiet_catch. by apply quietly_audit.
  - apply sm_surely_order, sm_surely_catch, surely_audit.
Qed.

Lemma tail_receipt : status o = Success -> sm_quiet o (record_receipt h) /\ sm_surely o (record_receipt h).
Proof.
  intros Hs. pose proof (logged_log o). unfold record_receipt. split.
  - apply sm_quiet_the_order, sm_quiet_catch. apply quietly_receipt; [done..|].
    intros σ Hσ. by exists o.
  - apply sm_surely_order, sm_surely_catch, surely_receipt.
Qed.
End Tail.

Lemma tail_bind (o : PaymentOrder) (m k : SM unit) :
  sm_quiet o m /\ sm_surely o m -> sm_quiet o k /\ sm_surely o k ->
  sm_quiet o (_ ← m; k) /\ sm_surely o (_ ← m; k).
Proof.
  intros [Hm Sm] [Hk Sk]. split; [by apply sm_quiet_bind|by apply sm_surely_bind].
Qed.

Section Rails.
Context `{!JsonOk}.
Variable o : PaymentOrder.
Hypothesis Hexec : status o = Executing.
Let stable := logged_log o.

Lemma quiet_dedupe (h : bytes) (what : string) : sm_quiet o (dedupe_check h what).
Proof.
  unfold dedupe_check. apply sm_quiet_bind.
  - apply sm_quiet_catch. unfold is_receipt_settled. quiet_with ltac:(fail).
  - intros []; [apply sm_quiet_fail|apply sm_quiet_ret].
Qed.

(** The success path of the facilitator rails. *)
Lemma attempts_success (sgn : option OperatorKeys) (h : bytes) (what : string) (rc : RailReceipt) (f : PaymentOrder -> json) :
  attempt_ok sgn o (_ ← dedupe_check h what; _ ← post_journal sgn; _ ← mark_settled rc false;
                  _ ← record_receipt h; _ ← notify_settled; audit_settled f).
Proof.
  apply attempts_bind; [apply quiet_dedupe|]. intros _. apply attempts_tail; [done|].
  intros o' Hs _. apply tail_bind; [by apply tail_receipt|].
  apply tail_bind; [apply tail_notify|apply tail_audit].
Qed.

Lemma attempts_http402_success (sgn : option OperatorKeys) (rc : bytes) : attempt_ok sgn o (settle_http402_success sgn rc).
Proof. apply attempts_success. Qed.

Lemma attempts_card_success (sgn : option OperatorKeys) (network last4 : string) (auth : bytes) :
  attempt_ok sgn o (settle_card_success sgn network last4 auth).
Proof. apply attempts_success. Qed.

Lemma attempts_ach_success (sgn : option OperatorKeys) (rc : bytes) : attempt_ok sgn o (settle_ach_success sgn rc).
Proof. apply attempts_success. Qed.

Ltac rail_quiet :=
  lazymatch goal with
  | |- quietly _ _ (http_request _ _ _ _ _) => by apply quiet_http
  | |- quietly _ _ (http_get _ _ _) => by apply quiet_http
  | |- quietly _ _ (hybrid_sign _ _ _) => by apply quiet_sign
  | |- quietly _ _ (execute _ _) => by apply quiet_execute
  | |- quietly _ _ (facilitator_verify _ _ _ _) => by apply quiet_fac_verify
  | |- quietly _ _ (facilitator_settle _ _ _ _) => by apply quiet_fac_settle
  | |- quietly _ _ (card_authorize _ _) => by apply quiet_card
  | |- quietly _ _ (lift _) => by apply quietly_lift
  | |- quietly _ _ (load_facilitator_config _ ≫= _) => by apply quiet_config
  end.
Ltac rail_step :=
  lazymatch goal with
  | |- attempt_ok _ _ (fail _) => apply attempts_fail
  | |- attempt_ok _ _ (settle_http402_success _ _) => apply attempts_http402_success
  | |- attempt_ok _ _ (settle_card_success _ _ _ _) => apply attempts_card_success
  | |- attempt_ok _ _ (settle_ach_success _ _) => apply attempts_ach_success
  | |- attempt_ok _ _ (catch _ _ ≫= _) => apply attempts_bind; [apply sm_quiet_catch; rail_quiet|intros ?]
  | |- attempt_ok _ _ (the_order ≫= _) => apply attempts_order
  | _ => first [progress cbn beta iota zeta | case_match]
  end.

Lemma attempts_facilitator (sgn : option OperatorKeys) (keys : OperatorKeys) (cfg : FacilitatorConfig) :
  attempt_ok sgn o (settle_http402_with_facilitator sgn keys cfg).
Proof. unfold settle_http402_with_facilitator, http_get. repeat rail_step. Qed.

Lemma attempts_http402 (sgn : option OperatorKeys) : attempt_ok sgn o (settle_http402 sgn).
Proof.
  unfold settle_http402.
  repeat lazymatch goal with
         | |- attempt_ok _ _ (settle_http402_with_facilitator _ _ _) => apply attempts_facilitator
         | _ => rail_step
         end.
Qed.

Lemma attempts_card (sgn : option OperatorKeys) : attempt_ok sgn o (settle_card sgn).
Proof. unfold settle_card. repeat rail_step. Qed.

Lemma attempts_ach (sgn : option OperatorKeys) : attempt_ok sgn o (settle_ach sgn).
Proof. unfold settle_ach, http_get. repeat rail_step. Qed.

Lemma quiet_pay (m : Z) : parse_amount (amount o) = Ok m -> sm_quiet o (pay_native (wrap_u64 m)).
Proof.
  intros Hm wal. unfold pay_native. split.
  - quiet_with ltac:(apply quietly_send; [intros σ Hσ; exists o; cbn; eauto 10]).
  - intros σ t. unfold mbind, M_bind, send, modify, tick. cbn. by destruct (native_pay _ _ _ _ _ _ _).
Qed.

Lemma attempts_native (sgn : option OperatorKeys) (m : Z) :
  parse_amount (amount o) = Ok m -> attempt_ok sgn o (settle_native (wrap_u64 m) sgn).
Proof.
  intros Hm. unfold settle_native. apply attempts_bind; [by apply quiet_pay|]. intros rc.
  apply attempts_bind; [apply sm_quiet_of_result|]. intros enc. apply attempts_tail; [done|].
  intros o' Hs _. apply tail_bind; [apply tail_notify|apply tail_audit].
Qed.

Lemma quiet_compliance (scorer : option ComplianceScorer) : sm_quiet o (compliance_gate scorer).
Proof.
  unfold compliance_gate. destruct scorer as [score|]; [|apply sm_quiet_ret].
  apply sm_quiet_the_order, sm_quiet_bind.
  - apply sm_quiet_catch. quiet_with ltac:(fail).
  - intros []; [apply sm_quiet_ret|apply sm_quiet_catch; by apply quietly_audit|apply sm_quiet_fail].
Qed.

Lemma policy_amount (config : PaymentsConfig) (m : Z) :
  policy_check config o = Ok m -> parse_amount (amount o) = Ok m.
Proof.
  unfold policy_check. case_bool_decide; cbn [negb]; [|done].
  destruct (parse_amount (amount o)) as [v|]; cbn [map_err mbind result_mbind]; [|done].
  intros E. branch. inv_ok E. branch.
Qed.

(** Whatever the rail, an attempt ends as [attempt_post] says. *)
Lemma attempts_settle (sgn : option OperatorKeys) (config : PaymentsConfig) (scorer : option ComplianceScorer) :
  attempt_ok sgn o (settle config sgn scorer).
Proof.
  unfold settle. apply attempts_order. destruct (policy_check config o) as [m|] eqn:Em; [|apply attempts_fail].
  apply attempts_bind; [apply quiet_compliance|]. intros _.
  destruct (default Native (rail o));
    [by eapply attempts_native, policy_amount|apply attempts_http402|apply attempts_card|apply attempts_ach].
Qed.
End Rails.
End Attempt.
