(* ===== verification/PassProps.v ===== *)
(** * Properties of a pass

    From single attempts to [run_once]: what an interrupted or completed pass
    may have done to the order log, the journal, the audit stream and the
    rails. *)

From Stdlib Require Import Ascii String.
From S2P Require Import Prelude RustStr Bytes Sdk PayError Amount Event Mmr Store Hoare.
From S2P Require Import Journal AuditLog Retry Compliance RustText Http X402 Settle F64 Executor Steps.
From S2P Require Import ExecutorProps.

(** ** Programs that move one order *)

Section Movers.
Context `{Sdk, Env}.

(** Steps for the logged order [o] that leave the journal alone and never settle it. *)
Definition moves (o : PaymentOrder) (σ σ' : State) : Prop :=
  rtc (step (payment_order_id o)) σ σ' /\ journal_of σ' = journal_of σ /\
  exists o', logged o' σ' /\ frozen o' = frozen o /\ (o' = o \/ status o' <> Success).

Definition mover {A : Type} (o : PaymentOrder) (m : M A) : Prop :=
  forall σ t, logged o σ -> moves o σ (m σ t).2.1.

Lemma frozen_id (o o' : PaymentOrder) : frozen o' = frozen o -> payment_order_id o' = payment_order_id o.
Proof. unfold frozen. congruence. Qed.

Lemma moves_refl (o : PaymentOrder) (σ : State) : logged o σ -> moves o σ σ.
Proof. intros Hl. split; [reflexivity|]. split; [done|]. exists o. auto. Qed.

Lemma moves_silent (o o' : PaymentOrder) (σ σ1 σ2 : State) :
  moves o σ σ1 -> rtc (silent (payment_order_id o)) σ1 σ2 -> moves o σ σ2.
Proof.
  intros (Hs & Hj & o1 & Hl & Hf & Ho) Hq. pose proof (silent_log _ _ _ Hq) as [Eo Ej].
  split; [etransitivity; [exact Hs|by apply silent_steps]|]. split; [congruence|].
  exists o1. split; [by eapply logged_log|done].
Qed.

Lemma mover_quiet {A : Type} (o : PaymentOrder) (m : M A) :
  quietly (payment_order_id o) (logged o) m -> mover o m.
Proof. intros Hm σ t Hl. eapply (moves_silent o o); [by apply moves_refl|by apply Hm]. Qed.

Lemma mover_bind {A B : Type} (o : PaymentOrder) (m : M A) (f : A -> M B) :
  quietly (payment_order_id o) (logged o) m -> (forall a, mover o (f a)) -> mover o (m ≫= f).
Proof.
  intros Hm Hf σ t Hl. specialize (Hm σ t Hl). unfold mbind, M_bind.
  destruct (m σ t) as [[a|e] [σ1 t1]]; cbn in *.
  - pose proof (silent_log _ _ _ Hm) as [Eo Ej].
    destruct (Hf a σ1 t1) as (Hs & Hj & Hx); [by eapply logged_log|].
    split; [etransitivity; [by apply silent_steps|exact Hs]|]. split; [congruence|done].
  - eapply (moves_silent o o); [by apply moves_refl|done].
Qed.

Lemma mover_then {A B : Type} (o : PaymentOrder) (m : M A) (f : A -> M B) :
  mover o m -> (forall a o', frozen o' = frozen o -> quietly (payment_order_id o) (logged o') (f a)) ->
  mover o (m ≫= f).
Proof.
  intros Hm Hf σ t Hl. specialize (Hm σ t Hl). unfold mbind, M_bind.
  destruct (m σ t) as [[a|e] [σ1 t1]]; cbn in *; [|done].
  destruct Hm as (Hs & Hj & o1 & Hl1 & Hf1 & Ho).
  eapply (moves_silent o o1); [|by apply (Hf a o1)]. split; [done|]. split; [done|]. by exists o1.
Qed.

Lemma transition_legal (m o1 : PaymentOrder) (st : OrderStatus) (now : string) :
  transition m st now = Ok o1 ->
  frozen o1 = frozen m /\ status o1 = st /\ can_transition (status m) st = true.
Proof.
  unfold transition. destruct (can_transition (status m) st); cbn; [|done]. by intros [= <-].
Qed.

Lemma mover_transition {A : Type} (o m : PaymentOrder) (st : OrderStatus) (k : PaymentOrder -> M A) :
  frozen m = frozen o -> status m = status o ->
  (forall o1, frozen o1 = frozen o -> status o1 = st -> legal o o1 -> mover o (k o1)) ->
  mover o (transition_now m st ≫= k).
Proof.
  intros Hf Hst Hk σ t Hl. unfold transition_now, now_rfc3339, now_nanos, tick, mbind, M_bind, mret, M_ret.
  cbn. destruct (transition m st _) as [o1|e] eqn:E; cbn; [|by apply moves_refl].
  apply transition_legal in E as (E1 & E2 & E3).
  apply (Hk o1); [congruence|done| |done]. split; [congruence|]. by rewrite E2, <- Hst.
Qed.

Lemma update_order_run (o : PaymentOrder) (σ : State) (t : nat) :
  let out := update_order o σ t in
  (out.1 = Ok tt /\ out.2.1 = on_store (fun s => push_order s o) σ) \/
  ((exists e, out.1 = Err (Fail e)) /\ out.2.1 = σ /\ ~ no_faults).
Proof.
  cbn zeta. apply (hoare_append (fun σ' => σ' = σ) _ _ (fun r σ' =>
    (r = Ok tt /\ σ' = on_store (fun s => push_order s o) σ) \/
    ((exists e, r = Err (Fail e)) /\ σ' = σ /\ ~ no_faults))); [|eauto 6|done].
  intros ? ->. by left.
Qed.

Lemma push_order_moves (o o1 : PaymentOrder) (σ : State) :
  logged o σ -> legal o o1 ->
  step (payment_order_id o) σ (on_store (fun s => push_order s o1) σ) /\
  logged o1 (on_store (fun s => push_order s o1) σ) /\
  journal_of (on_store (fun s => push_order s o1) σ) = journal_of σ.
Proof.
  intros Hl Hleg. split_and!.
  - by eapply step_order.
  - unfold logged. rewrite latest_push. by rewrite (proj2 (has_id_true _ _) eq_refl).
  - unfold journal_of. cbn. by destruct (w_store σ).
Qed.

Lemma mover_update {A : Type} (o o1 : PaymentOrder) (k : M A) :
  legal o o1 -> status o1 <> Success -> quietly (payment_order_id o) (logged o1) k ->
  mover o (_ ← update_order o1; k).
Proof.
  intros Hleg Hst Hk σ t Hl. unfold mbind, M_bind.
  destruct (update_order_run o1 σ t) as [[E1 E2]|([e E1] & E2 & _)];
    destruct (update_order o1 σ t) as [r [σ1 t1]]; cbn in *; subst; [|by apply moves_refl].
  destruct (push_order_moves o o1 σ Hl Hleg) as (Hs & Hl1 & Hj).
  eapply (moves_silent o o1); [|by apply Hk]. split; [by apply rtc_once|]. split; [done|].
  exists o1. split; [done|]. split; [by destruct Hleg|by right].
Qed.

(** A settled order cannot be moved: nothing is written. *)
Lemma settled_stuck {A : Type} (o : PaymentOrder) (st : OrderStatus) (k : PaymentOrder -> M A) (σ : State) (t : nat) :
  status o = Success ->
  let out := (transition_now o st ≫= k) σ t in (exists e, out.1 = Err (Fail e)) /\ out.2.1 = σ.
Proof.
  intros Hs. unfold transition_now, now_rfc3339, now_nanos, tick, mbind, M_bind, mret, M_ret, transition.
  cbn. rewrite Hs. destruct st; cbn; eauto.
Qed.
End Movers.

(** ** Running prefixes *)

Section Running.
Context `{Env}.

Lemma bind_run {A B : Type} (m : M A) (f : A -> M B) (σ : State) (t : nat) :
  (m ≫= f) σ t = match m σ t with (Ok a, (σ', t')) => f a σ' t' | (Err e, w) => (Err e, w) end.
Proof. done. Qed.

Lemma now_run (σ : State) (t : nat) : now_rfc3339 σ t = (Ok (rfc3339 (env_clock t)), (σ, S t)).
Proof. done. Qed.

Lemma transition_now_run (o : PaymentOrder) (st : OrderStatus) (σ : State) (t : nat) :
  transition_now o st σ t
  = (match transition o st (rfc3339 (env_clock t)) with Ok o1 => Ok o1 | Err e => Err (Fail e) end, (σ, S t)).
Proof. unfold transition_now. rewrite bind_run, now_run. by destruct (transition _ _ _). Qed.
End Running.

(** ** Outcomes *)

Section Outcomes.
Context `{Sdk, Env, Net, Codec, !NativeRail, !JsonOk}.

Lemma quiet_notify (id : string) (K : State -> Prop) (o : PaymentOrder) (ev : string) :
  (forall σ σ', orders_of σ' = orders_of σ -> K σ -> K σ') -> payment_order_id o = id ->
  quietly id K (notify o ev).
Proof. intros HK E. unfold notify. quiet_with ltac:(apply quietly_notification; eassumption). Qed.

Lemma quiet_rollup (id : string) (K : State -> Prop) (oid : string) :
  (forall σ σ', orders_of σ' = orders_of σ -> K σ -> K σ') -> quietly id K (rollup_event oid).
Proof.
  intros HK. unfold rollup_event, events, latest_orders, orders.
  quiet_with ltac:(first [apply quietly_event; eassumption]).
Qed.

Lemma mover_failed (o m : PaymentOrder) (reason : string) :
  frozen m = frozen o -> status m = status o -> mover o (mark_failed m reason).
Proof.
  intros Hf Hst. unfold mark_failed. apply mover_transition; [done..|]. intros o1 Hf1 Hs1 Hleg.
  pose proof (frozen_id _ _ Hf1) as Hid. pose proof (logged_log o1) as HK.
  apply mover_update; [done|by rewrite Hs1|].
  quiet_with ltac:(first [by apply quiet_notify | apply quietly_dlq; [eassumption|exact Hid]]).
Qed.

Lemma mover_retry (o : PaymentOrder) (reason : string) (p : RetryPolicy) (hint : option Z) :
  mover o (schedule_retry o reason p hint).
Proof.
  pose proof (logged_log o) as HK0.
  unfold schedule_retry. destruct (max_attempts p <=? attempts o); [apply mover_quiet, quietly_ret|].
  apply mover_bind; [apply quietly_tick|]. intros t.
  destruct (next_backoff_ms _ _ _ _) as [ms|]; [|apply mover_quiet, quietly_panic].
  apply mover_bind; [apply quietly_nanos|]. intros now. cbn zeta.
  apply mover_transition; [done..|]. intros o1 Hf1 Hs1 [_ Hleg]. cbn zeta.
  set (o2 := set_next_retry_at o1 _). pose proof (logged_log o2) as HK.
  assert (frozen o2 = frozen o) as Hf2 by exact Hf1. pose proof (frozen_id _ _ Hf2) as Hid.
  apply mover_update; [by split|by unfold o2; cbn; rewrite Hs1|].
  quiet_with ltac:(apply quietly_retry_job; [eassumption|exact Hid]).
Qed.

(** New orders do not disturb the order at hand. *)
Lemma insert_order_moves (o n : PaymentOrder) : status n = NotStarted -> mover o (insert_order n).
Proof.
  intros Hn σ t Hl. unfold insert_order.
  apply (fun H : hoare (fun σ' => σ' = σ) (os ← orders; match List.find (has_id (payment_order_id n)) os with
      | Some existing => mret (Replay existing) | None => _ ← append_order n; mret Inserted end)
      (fun _ σ' => moves o σ σ') => H σ t eq_refl).
  eapply hoare_bind with (Q := fun os σ' => os = orders_of σ /\ σ' = σ).
  { apply hoare_read; [by intros ? ->|]. intros e ? _ ->. by apply moves_refl. }
  intros os. destruct (List.find _ os) eqn:Ef.
  { apply hoare_ret. intros ? [_ ->]. by apply moves_refl. }
  eapply hoare_bind with (Q := fun _ σ' => moves o σ σ'); [|intros ?; by apply hoare_ret].
  apply hoare_append; [|intros e ? _ [_ ->]; by apply moves_refl]. intros ? [-> ->].
  assert (latest σ (payment_order_id n) = None) as Hnew.
  { unfold latest, latest_in. destruct (List.find _ (rev (orders_of σ))) eqn:E; [|done].
    apply find_some in E as [Hin Hh]. apply in_rev in Hin.
    eapply find_none in Ef; [|exact Hin]. congruence. }
  split; [by apply rtc_once, step_new|]. split; [unfold journal_of; cbn; by destruct (w_store σ)|].
  exists o. split; [|auto]. unfold logged. rewrite latest_push.
  destruct (has_id (payment_order_id o) n) eqn:E; [|done].
  apply has_id_true in E. unfold logged in Hl. rewrite E in Hnew. congruence.
Qed.

Lemma mover_preference (config : PaymentsConfig) (o : PaymentOrder) :
  mover o (apply_settlement_preference config o).
Proof.
  pose proof (logged_log o) as HK.
  assert (forall amt fields, mover o (insert_payout o amt fields)) as Hp.
  { intros amt fields. unfold insert_payout.
    apply mover_bind; [apply quietly_uuid|]. intros id. apply mover_bind; [apply quietly_now|]. intros now.
    cbn zeta. apply mover_then; [by apply insert_order_moves|]. intros _ o' Hf.
    apply quietly_audit. }
  unfold apply_settlement_preference.
  destruct (settlement_preference config); cbn zeta; repeat case_match; auto; apply mover_quiet, quietly_ret.
Qed.

(** A retry is scheduled exactly below the attempt limit. *)
Lemma schedule_retry_limit (o : PaymentOrder) (reason : string) (p : RetryPolicy) (hint : option Z)
    (σ : State) (t : nat) :
  let out := schedule_retry o reason p hint σ t in
  if max_attempts p <=? attempts o then out = (Ok (false, o), (σ, t))
  else match out.1 with Ok so => so.1 = true | Err _ => True end.
Proof.
  cbn zeta. unfold schedule_retry. destruct (max_attempts p <=? attempts o); [done|].
  apply (fun H : hoare (fun _ => True) _ (fun r _ => match r with Ok so => so.1 = true | Err _ => True end)
         => H σ t I).
  eapply hoare_bind; [apply hoare_tick; intros ? ? _; exact I|]. intros tk.
  destruct (next_backoff_ms _ _ _ _); [|by apply hoare_panic].
  eapply hoare_bind; [apply hoare_nanos; intros ? ? _; exact I|]. intros now. cbn zeta.
  eapply hoare_bind with (Q := fun _ _ => True); [intros ? ? _; by destruct (transition_now _ _ _ _) as [[] ?]|].
  intros o1. eapply hoare_bind with (Q := fun _ _ => True); [apply hoare_append; done|].
  intros _. eapply hoare_bind with (Q := fun _ _ => True); [apply hoare_append; done|].
  intros _. by apply hoare_ret.
Qed.

Lemma mover_handle (config : PaymentsConfig) (o : PaymentOrder) (pr : Progress) (e : SettleOutcome) :
  mover o (handle_outcome config o pr (Err e)).
Proof.
  pose proof (logged_log o) as HK. unfold handle_outcome. destruct e as [reason|reason|reason].
  - intros σ t Hl. set (hint := extract_retry_after_ms reason).
    pose proof (mover_retry o reason (retry config) hint σ t Hl) as Hm.
    pose proof (schedule_retry_limit o reason (retry config) hint σ t) as Hlim. cbn zeta in Hlim.
    unfold mbind at 1, M_bind at 1.
    destruct (max_attempts (retry config) <=? attempts o).
    + rewrite Hlim. cbn [fst snd]. revert Hl. generalize σ t. apply mover_then; [by apply mover_failed|].
      intros a o' _. apply quietly_ret.
    + destruct (schedule_retry _ _ _ _ _ _) as [[so|e] [σ1 t1]]; cbn in *; [|done]. by rewrite Hlim.
  - apply mover_then; [by apply mover_failed|]. intros a o' _. apply quietly_ret.
  - apply mover_transition; [done..|]. intros o1 Hf1 Hs1 Hleg.
    pose proof (frozen_id _ _ Hf1) as Hid. pose proof (logged_log o1) as HK1.
    apply mover_update; [done|by rewrite Hs1|]. quiet_with ltac:(by apply quiet_notify).
Qed.

Lemma handle_stuck (config : PaymentsConfig) (o : PaymentOrder) (pr : Progress) (e : SettleOutcome)
    (σ : State) (t : nat) :
  status o = Success ->
  let out := handle_outcome config o pr (Err e) σ t in is_ok out.1 = false /\ out.2.1 = σ.
Proof.
  intros Hs. cbn zeta.
  assert (forall reason σ t, let out := mark_failed o reason σ t in
            (exists e, out.1 = Err (Fail e)) /\ out.2.1 = σ) as Hmf.
  { intros. by apply settled_stuck. }
  unfold handle_outcome. destruct e as [reason|reason|reason].
  - unfold schedule_retry. destruct (max_attempts (retry config) <=? attempts o).
    + unfold mbind, M_bind, mret, M_ret. cbn [fst snd]. destruct (Hmf reason σ t) as [[e E] E2].
      destruct (mark_failed o reason σ t) as [r [σ1 t1]]. cbn in *. by subst.
    + unfold transition_now, now_rfc3339, now_nanos, tick, panic, mbind, M_bind, mret, M_ret.
      destruct (next_backoff_ms _ _ _ _); [|done]. cbn. unfold transition. rewrite Hs. done.
  - unfold mbind, M_bind. destruct (Hmf reason σ t) as [[e E] E2].
    destruct (mark_failed o reason σ t) as [r [σ1 t1]]. cbn in *. by subst.
  - match goal with |- is_ok ((transition_now o ?st ≫= ?k) σ t).1 = false /\ _ =>
      destruct (settled_stuck o st k σ t Hs) as [[e E] E2]; by rewrite E, E2 end.
Qed.

(** ** One order *)

Definition startable (o : PaymentOrder) : Prop := status o = NotStarted \/ status o = Failed.

(** What processing the logged order [o] may do, whether or not it completes. *)
Definition pass_post (sgn : option OperatorKeys) (o : PaymentOrder) (σ σ' : State) : Prop :=
  rtc (step (payment_order_id o)) σ σ' /\
  (no_faults -> signs sgn ->
   exists o', logged o' σ' /\ frozen o' = frozen o /\
     ((status o' <> Success /\ journal_of σ' = journal_of σ) \/
      (status o' = Success /\ exists d k, journal_of σ' = journal_of σ ++ [d; k] /\ entry o d k))).

Lemma pass_post_moves (sgn : option OperatorKeys) (o : PaymentOrder) (σ σ1 σ' : State) :
  rtc (step (payment_order_id o)) σ σ1 -> (no_faults -> signs sgn -> journal_of σ1 = journal_of σ) ->
  status o <> Success -> moves o σ1 σ' -> pass_post sgn o σ σ'.
Proof.
  intros Hs Hj Hst (Hs1 & Hj1 & o' & Hl & Hf & Ho). split; [by etransitivity|]. intros Hn Hsg.
  exists o'. split_and!; [done..|]. left. rewrite Hj1. split; [|by apply Hj]. by destruct Ho as [->|].
Qed.

(** From the attempt to the end of the loop body. *)
Lemma settle_stage (config : PaymentsConfig) (sgn : option OperatorKeys) (scorer : option ComplianceScorer)
    (o : PaymentOrder) (wal : Wallet) (k : Pass -> Progress) (σ : State) (t : nat) :
  logged o σ -> status o = Executing ->
  pass_post sgn o σ ((rp ← settle config sgn scorer {| pass_wallet := wal; pass_order := o |};
    pr ← handle_outcome config (pass_order rp.2) (k rp.2) rp.1;
    _ ← rollup_event (payment_order_id o); mret pr) σ t).2.1.
Proof.
  intros Hl He. pose proof (attempts_settle o He sgn config scorer wal σ t Hl) as Ha. cbn zeta in Ha.
  unfold mbind at 1, M_bind at 1.
  destruct (settle _ _ _ _ σ t) as [[[r [w o2]]|e] [σ1 t1]]; cbn [fst snd pass_order] in *.
  2:{ destruct Ha as [Hs Hn]. split; [done|]. intros Hnf Hsg. destruct (Hn Hnf Hsg) as [Hj Hl1].
      exists o. split_and!; [done..|]. left. by rewrite He. }
  destruct Ha as (Hs & Hr & Hn).
  assert (Hroll : forall o' pr, mover o' (handle_outcome config o' pr r) -> payment_order_id o' = payment_order_id o ->
    mover o' (pr ← handle_outcome config o' pr r; _ ← rollup_event (payment_order_id o); mret pr)).
  { intros o' pr Hm Hid. apply mover_then; [done|]. intros a o'' Hf. rewrite Hid.
    pose proof (logged_log o'') as HK. quiet_with ltac:(by apply quiet_rollup). }
  destruct r as [[]|e].
  - destruct Hr as (Hl2 & Hs2 & Hf2). pose proof (frozen_id _ _ Hf2) as Hid.
    assert (mover o2 (handle_outcome config o2 (k {| pass_wallet := w; pass_order := o2 |}) (Ok tt))) as Hm.
    { unfold handle_outcome. apply mover_then; [|intros; apply quietly_ret].
      case_bool_decide; [apply mover_preference|apply mover_quiet, quietly_ret]. }
    destruct (Hroll _ _ Hm Hid σ1 t1 Hl2) as (Hs3 & Hj3 & _).
    split; [rewrite Hid in Hs3; by etransitivity|]. intros Hnf Hsg.
    destruct (Hn Hnf Hsg) as (d & kk & Hj & He'). exists o2. split_and!; [|done|].
    + apply (evolves_settled _ _ (payment_order_id o2) o2 (evolves_of _ _ _ Hs3)); [exact Hl2|done].
    + right. split; [done|]. exists d, kk. by rewrite Hj3.
  - destruct Hr as [[-> Hl1]|Hs2].
    + eapply pass_post_moves; [exact Hs|by intros Hnf Hsg; apply Hn|by rewrite He|].
      apply Hroll; [apply mover_handle|done|done].
    + unfold mbind at 1, M_bind at 1.
      destruct (handle_stuck config o2 (k {| pass_wallet := w; pass_order := o2 |}) e σ1 t1 Hs2) as [E1 E2].
      destruct (handle_outcome _ _ _ _ σ1 t1) as [[pr|er] [σ2 t2]]; cbn in E1, E2 |- *; [done|]. subst σ2.
      split; [done|]. intros Hnf Hsg. destruct (Hn Hnf Hsg) as (Hj & -> & _). congruence.
Qed.

(** Processing from the snapshot [o2] just logged after [o]. *)
Lemma pass_post_from (sgn : option OperatorKeys) (o o2 : PaymentOrder) (σ σ' : State) :
  logged o σ -> legal o o2 -> pass_post sgn o2 (on_store (fun s => push_order s o2) σ) σ' ->
  pass_post sgn o σ σ'.
Proof.
  intros Hl Hleg [Hr Hn]. destruct (push_order_moves o o2 σ Hl Hleg) as (Hstep & Hl2 & Hj).
  pose proof (frozen_id _ _ (proj1 Hleg)) as Hid. rewrite Hid in Hr.
  split; [exact (rtc_l _ _ _ _ Hstep Hr)|]. intros Hnf Hsg.
  destruct (Hn Hnf Hsg) as (o' & Hl' & Hf' & Hc'). exists o'. split_and!; [done|by rewrite Hf'; destruct Hleg|].
  rewrite Hj in Hc'. destruct Hc' as [?|(? & d & k & ? & He)]; [by left|]. right. split; [done|].
  exists d, k. split; [done|]. destruct Hleg as [Hf _]. unfold entry, frozen in *. destruct He as (? & ? & ? & ? & ?).
  split_and!; congruence.
Qed.

Lemma process_order_post (config : PaymentsConfig) (sgn : option OperatorKeys)
    (scorer : option ComplianceScorer) (pr : Progress) (o : PaymentOrder) (σ : State) (t : nat) :
  logged o σ -> startable o -> pass_post sgn o σ (process_order config sgn scorer pr o σ t).2.1.
Proof.
  intros Hl Hst. assert (status o <> Success) as Hns by (destruct Hst; congruence).
  assert (pass_post sgn o σ σ) as Hid.
  { split; [reflexivity|]. intros _ _. exists o. auto 6. }
  unfold process_order. rewrite bind_run, transition_now_run.
  destruct (transition o Executing _) as [o1|e] eqn:Et; [|exact Hid]. cbn [fst snd].
  rewrite bind_run, now_run. cbn [fst snd]. cbn zeta.
  set (o2 := set_attempts _ _). apply transition_legal in Et as (Hf & Hs & Hc).
  assert (legal o o2) as Hleg by (split; [exact Hf|change (status o2) with (status o1); by rewrite Hs]).
  rewrite bind_run. destruct (update_order_run o2 σ (S (S t))) as [[E1 E2]|([e E1] & E2 & _)];
    destruct (update_order o2 σ (S (S t))) as [r [σ1 t1]]; cbn [fst snd] in *; subst; [|exact Hid].
  apply (pass_post_from sgn o o2 σ); [done..|].
  apply (settle_stage config sgn scorer o2 (pr_wallet pr)
    (fun p => {| pr_wallet := pass_wallet p; pr_executed := pr_executed pr; pr_retried := pr_retried pr;
                 pr_failures := pr_failures pr |})); [|exact Hs].
  by apply (push_order_moves o o2 σ Hl Hleg).
Qed.
End Outcomes.

(** ** The order log as a map *)

Lemma latest_map_lookup (os : list PaymentOrder) (id : string) : latest_map os !! id = latest_in os id.
Proof.
  unfold latest_map. induction os as [|o os IH] using rev_ind; [done|].
  rewrite foldl_app. cbn [foldl]. unfold latest_in. rewrite rev_app_distr. cbn [rev app List.find].
  unfold has_id at 1. case_bool_decide as Hid.
  - subst id. apply lookup_insert_eq.
  - rewrite lookup_insert_ne by done. exact IH.
Qed.

Section Latest.
Context `{Env, !EnvOk}.

(** A list of orders that are the latest snapshots of distinct ids. *)
Definition current (l : list PaymentOrder) (os : list PaymentOrder) : Prop :=
  NoDup (map payment_order_id l) /\ Forall (fun o => latest_in os (payment_order_id o) = Some o) l.

Lemma latest_values (os l : list PaymentOrder) :
  l ≡ₚ map snd (map_to_list (latest_map os)) ->
  current l os /\ forall id o, latest_in os id = Some o -> o ∈ l.
Proof.
  intros Hl.
  assert (Forall (fun kv : string * PaymentOrder => latest_in os kv.1 = Some kv.2 /\ payment_order_id kv.2 = kv.1)
            (map_to_list (latest_map os))) as Hall.
  { apply Forall_forall. intros [k o] Hin. apply elem_of_map_to_list in Hin.
    rewrite latest_map_lookup in Hin. split; [done|]. cbn.
    unfold latest_in in Hin. apply find_some in Hin as [_ Hin]. unfold has_id in Hin.
    by apply bool_decide_eq_true in Hin. }
  split; [split|].
  - rewrite Hl, map_map.
    rewrite (map_ext_in _ fst); [apply NoDup_fst_map_to_list|].
    intros kv Hin. rewrite Forall_forall in Hall. by apply Hall, list_elem_of_In.
  - rewrite Hl. apply Forall_map. eapply Forall_impl; [exact Hall|]. intros [k o] [Hk Hid]. cbn in *. by rewrite Hid.
  - intros id o Ho. rewrite Hl. apply list_elem_of_In, in_map_iff. exists (id, o). split; [done|].
    apply list_elem_of_In, elem_of_map_to_list. by rewrite latest_map_lookup.
Qed.

Lemma current_filter (f : PaymentOrder -> bool) (l os : list PaymentOrder) :
  current l os -> current (List.filter f l) os.
Proof.
  intros [Hnd Hall]. split.
  - clear Hall. induction l as [|o l IH]; cbn in *; [done|]. apply NoDup_cons in Hnd as [Ho Hnd].
    destruct (f o); cbn; [|by apply IH]. constructor; [|by apply IH]. intros Hx. apply Ho.
    apply list_elem_of_In, in_map_iff in Hx as (x & <- & Hx). apply filter_In in Hx as [Hx _].
    by apply list_elem_of_In, in_map.
  - apply Forall_forall. intros o Ho. apply list_elem_of_In, filter_In in Ho as [Ho _].
    rewrite Forall_forall in Hall. by apply Hall, list_elem_of_In.
Qed.

Lemma current_app (l k os : list PaymentOrder) :
  current l os -> current k os -> (forall x, x ∈ l -> x ∈ k -> False) -> current (l ++ k) os.
Proof.
  intros [Hl1 Hl2] [Hk1 Hk2] Hd. split; [|by apply Forall_app].
  rewrite map_app. apply NoDup_app. split_and!; [done| |done].
  intros i Hi Hi'. apply list_elem_of_In, in_map_iff in Hi as (x & <- & Hx).
  apply list_elem_of_In, in_map_iff in Hi' as (y & E & Hy). apply list_elem_of_In in Hx, Hy.
  rewrite Forall_forall in Hl2, Hk2. specialize (Hl2 x Hx). specialize (Hk2 y Hy).
  rewrite E, Hl2 in Hk2. injection Hk2 as ->. by eapply Hd.
Qed.

(** [latest_orders] and [orders_with_status] read the log as that map. *)
Lemma hoare_with_status (P : State -> Prop) (st : OrderStatus)
    (Q : result exn (list PaymentOrder) -> State -> Prop) :
  (forall l σ, P σ -> current l (st_orders (w_store σ)) ->
     (forall o, o ∈ l <-> latest_in (st_orders (w_store σ)) (payment_order_id o) = Some o /\ status o = st) ->
     Q (Ok l) σ) ->
  (forall e σ, P σ -> Q (Err e) σ) ->
  hoare P (orders_with_status st) Q.
Proof.
  intros Hok Herr. unfold orders_with_status, latest_orders.
  eapply hoare_bind with (Q := fun l σ => P σ /\ l ≡ₚ map snd (map_to_list (latest_map (st_orders (w_store σ))))).
  { eapply hoare_bind with (Q := fun os σ => os = st_orders (w_store σ) /\ P σ).
    { apply hoare_read; auto. }
    intros os. eapply hoare_bind; [apply hoare_tick; intros t σ Hσ; exact Hσ|]. intros t. cbn beta.
    apply hoare_ret. intros σ [-> Hσ]. split; [done|]. apply hash_perm. }
  intros l. apply hoare_ret. intros σ [Hσ Hl]. destruct (latest_values _ _ Hl) as [[Hnd Hall] Hin].
  apply Hok; [done|by apply current_filter|].
  - intros o. rewrite list_elem_of_In, filter_In, bool_decide_eq_true. split; intros [Ho Hs]; (split; [|done]).
    + rewrite Forall_forall in Hall. by apply Hall, list_elem_of_In.
    + apply list_elem_of_In. by eapply Hin.
Qed.
End Latest.

(** ** The journal against the order log *)

Section Accounting.
Context `{Sdk, Env}.

(** Exactly the settled orders are journaled, each by one debit and one
    credit of its amount. *)
Definition accounted (σ : State) : Prop :=
  forall id, match latest σ id with
    | Some o =>
        if decide (status o = Success)
        then exists d k, postings_of id (journal_of σ) = [d; k] /\ entry o d k
        else postings_of id (journal_of σ) = []
    | None => postings_of id (journal_of σ) = []
    end.

Lemma postings_of_entry (o : PaymentOrder) (id : string) (js : list LedgerPosting) (d k : LedgerPosting) :
  entry o d k ->
  postings_of id (js ++ [d; k])
  = postings_of id js ++ (if decide (payment_order_id o = id) then [d; k] else []).
Proof.
  intros (Hd & Hk & _). unfold postings_of. rewrite filter_app. f_equal.
  rewrite !filter_cons, filter_nil, Hd, Hk. by destruct (decide (payment_order_id o = id)).
Qed.

Lemma entry_frozen (o o' : PaymentOrder) (d k : LedgerPosting) :
  frozen o' = frozen o -> entry o d k -> entry o' d k.
Proof. unfold entry, frozen. intros E (? & ? & ? & ? & ?). split_and!; congruence. Qed.

Lemma accounted_pass (sgn : option OperatorKeys) (o : PaymentOrder) (σ σ' : State) :
  no_faults -> signs sgn -> logged o σ -> status o <> Success -> pass_post sgn o σ σ' ->
  accounted σ -> accounted σ'.
Proof.
  intros Hnf Hsg Hl Hst [Hs Hn] Hacc id. destruct (Hn Hnf Hsg) as (o' & Hl' & Hf & Hc).
  pose proof (frozen_id _ _ Hf) as Hid. unfold logged in *. rewrite Hid in Hl'.
  pose proof (Hacc (payment_order_id o)) as Ho. rewrite Hl in Ho. rewrite decide_False in Ho by done.
  specialize (Hacc id). destruct (decide (id = payment_order_id o)) as [->|Hne].
  - rewrite Hl'. destruct Hc as [[Hs' Hj]|(Hs' & d & k & Hj & He)].
    + rewrite decide_False by done. by rewrite Hj.
    + rewrite decide_True by done. exists d, k. rewrite Hj, (postings_of_entry o) by done.
      rewrite Ho, decide_True by done. split; [done|]. by eapply entry_frozen.
  - assert (postings_of id (journal_of σ') = postings_of id (journal_of σ)) as Hp.
    { destruct Hc as [[_ ->]|(_ & d & k & -> & He)]; [done|].
      rewrite (postings_of_entry o) by done. rewrite decide_False by done. by rewrite app_nil_r. }
    destruct (step_others _ id _ _ Hs Hne) as [->|(Hnone & n & Hn' & Hst')].
    + by rewrite Hp.
    + rewrite Hn', decide_False by congruence. rewrite Hp. by rewrite Hnone in Hacc.
Qed.

Lemma accounted_silent (id : string) (σ σ' : State) : rtc (silent id) σ σ' -> accounted σ -> accounted σ'.
Proof.
  intros Hq Hacc i. apply silent_log in Hq as [Eo Ej]. specialize (Hacc i).
  unfold latest in *. by rewrite Eo, Ej.
Qed.

(** What holds at every point of a pass that started in [σ0]. *)
Definition goes (sgn : option OperatorKeys) (σ0 σ : State) : Prop :=
  evolves σ0 σ /\ (no_faults -> signs sgn -> accounted σ0 -> accounted σ).

Lemma goes_refl (sgn : option OperatorKeys) (σ : State) : goes sgn σ σ.
Proof. split; [reflexivity|done]. Qed.

Lemma goes_silent (sgn : option OperatorKeys) (id : string) (σ0 σ σ' : State) :
  goes sgn σ0 σ -> rtc (silent id) σ σ' -> goes sgn σ0 σ'.
Proof.
  intros [He Ha] Hq. split; [etransitivity; [exact He|by eapply evolves_of, silent_steps]|].
  intros Hn Hs Hac. eapply accounted_silent; [exact Hq|by apply Ha].
Qed.

Lemma goes_pass (sgn : option OperatorKeys) (o : PaymentOrder) (σ0 σ σ' : State) :
  goes sgn σ0 σ -> logged o σ -> status o <> Success -> pass_post sgn o σ σ' -> goes sgn σ0 σ'.
Proof.
  intros [He Ha] Hl Hst Hp. split; [etransitivity; [exact He|by eapply evolves_of, Hp]|].
  intros Hn Hs Hac. eapply accounted_pass; [done..|by apply Ha].
Qed.

(** The orders still to be processed keep their snapshots. *)
Lemma current_next (o : PaymentOrder) (l : list PaymentOrder) (σ σ' : State) :
  rtc (step (payment_order_id o)) σ σ' -> current (o :: l) (orders_of σ) -> current l (orders_of σ').
Proof.
  intros Hs [Hnd Hall]. cbn in Hnd. apply NoDup_cons in Hnd as [Ho Hnd]. split; [done|].
  apply Forall_cons in Hall as [_ Hall]. apply Forall_forall. intros x Hx.
  rewrite Forall_forall in Hall. specialize (Hall x Hx).
  assert (payment_order_id x <> payment_order_id o) as Hne.
  { intros E. apply Ho. rewrite <- E. apply list_elem_of_In, in_map, list_elem_of_In, Hx. }
  destruct (step_others _ _ _ _ Hs Hne) as [E|[E _]]; unfold latest in E; congruence.
Qed.
End Accounting.

(** ** The pass *)

Section Pass_.
Context `{Sdk, Env, Net, Codec, !NativeRail, !JsonOk, !EnvOk}.
Variables (sgn : option OperatorKeys) (σ0 : State).

(** A loop over distinct logged orders whose body respects [pass_post]. *)
Lemma hoare_orders {B : Type} (f : B -> PaymentOrder -> M B) (ok : PaymentOrder -> Prop) (l : list PaymentOrder) (b : B) :
  (forall o, ok o -> status o <> Success) ->
  (forall b o σ t, logged o σ -> ok o -> pass_post sgn o σ (f b o σ t).2.1) ->
  hoare (fun σ => goes sgn σ0 σ /\ current l (orders_of σ) /\ Forall ok l) (fold_M f b l)
        (fun _ σ => goes sgn σ0 σ).
Proof.
  intros Hns Hf.
  apply (hoare_fold (fun l b σ => goes sgn σ0 σ /\ current l (orders_of σ) /\ Forall ok l)); [|by intros ? ? [? _]].
  intros o k b' σ t (Hg & Hc & Hall). apply Forall_cons in Hall as [Ho Hall].
  assert (logged o σ) as Hl by (destruct Hc as [_ Hc]; by apply Forall_cons in Hc as [? _]).
  pose proof (Hf b' o σ t Hl Ho) as Hp.
  assert (goes sgn σ0 (f b' o σ t).2.1) as Hg' by (by eapply goes_pass; [..|apply Hns|]).
  destruct (f b' o σ t) as [[b''|e] [σ' t']]; cbn in *; [|done].
  split_and!; [done| |done]. eapply current_next; [apply Hp|exact Hc].
Qed.

Lemma mover_requeue (config : PaymentsConfig) (counts : Z * Z) (o : PaymentOrder) :
  mover o (requeue_one config counts o).
Proof.
  pose proof (logged_log o) as HK. unfold requeue_one.
  destruct (executing_since o) as [since|]; [|apply mover_quiet, quietly_ret].
  apply mover_bind. { unfold executing_expired. quiet_with ltac:(fail). }
  intros expired. destruct expired; cbn [negb]; [|apply mover_quiet, quietly_ret]. cbn zeta.
  set (m := set_attempts o _). apply mover_then.
  2:{ intros a o' Hf. pose proof (logged_log o') as HK'. quiet_with ltac:(by apply quiet_rollup). }
  destruct (max_attempts (retry config) <=? attempts m).
  - apply mover_then; [by apply mover_failed|]. intros a o' _. apply quietly_ret.
  - apply mover_transition; [done..|]. intros o1 Hf1 Hs1 [_ Hc]. cbn zeta.
    set (o2 := set_next_retry_at _ _). pose proof (logged_log o2) as HK2.
    apply mover_update; [split; [exact Hf1|]|..].
    + change (status o2) with (status o1). by rewrite Hs1 in Hc |- *.
    + change (status o2) with (status o1). by rewrite Hs1.
    + quiet_with ltac:(fail).
Qed.

Lemma goes_requeue (config : PaymentsConfig) :
  hoare (goes sgn σ0) (requeue_stuck_executing config) (fun _ => goes sgn σ0).
Proof.
  unfold requeue_stuck_executing.
  eapply hoare_bind with (Q := fun l σ => goes sgn σ0 σ /\ current l (orders_of σ) /\
    Forall (fun o => status o = Executing) l).
  { apply hoare_with_status; [|done]. intros l σ Hg Hc Hl. split_and!; [done..|].
    apply Forall_forall. intros o Ho. by apply Hl. }
  intros l. apply hoare_orders; [congruence|]. intros b o σ t Hlo Hst.
  eapply pass_post_moves; [reflexivity|done|by rewrite Hst|by apply mover_requeue].
Qed.

Lemma quiet_deferred (config : PaymentsConfig) : quietly EmptyString (fun _ => True) (deferred_pass config).
Proof.
  assert (HK : forall σ σ' : State, orders_of σ' = orders_of σ -> True -> True) by done.
  assert (forall f : PaymentStore -> PaymentStore,
    (forall σ, step EmptyString σ (on_store f σ)) -> (forall s, st_orders (f s) = st_orders s) ->
    (forall s, st_journal (f s) = st_journal s) -> quietly EmptyString (fun _ => True) (update f)) as Hup.
  { intros f Hs Ho Hj. apply quietly_modify. intros σ _.
    apply silent_intro; [apply Hs|apply Ho|apply Hj]. }
  unfold deferred_pass, commit_deferred_batch, deferred_new, checkpoint_mmr, load_mmr, save_mmr,
    clear_deferred_commitments, deferred_commitments.
  quiet_with ltac:(apply Hup; [intros; first [apply step_batch|apply step_mmr|apply step_queue]|by intros []..]).
Qed.

(** A pass, however it ends, has only taken legal steps; without faults it
    keeps the journal and the log in agreement. *)
Lemma run_once_goes (wallet_path : string) (scorer : option ComplianceScorer) (t : nat) :
  goes sgn σ0 (run_once wallet_path sgn scorer σ0 t).2.1.
Proof.
  apply (fun H : hoare (goes sgn σ0) (run_once wallet_path sgn scorer) (fun _ => goes sgn σ0)
         => H σ0 t (goes_refl sgn σ0)).
  assert (HK : forall σ σ' : State, orders_of σ' = orders_of σ -> True -> True) by done.
  assert (forall A (m : M A), quietly EmptyString (fun _ => True) m ->
            hoare (goes sgn σ0) m (fun r σ => match r with Ok _ => goes sgn σ0 σ | Err _ => goes sgn σ0 σ end)) as Hq.
  { intros A m Hm σ t' Hg. assert (goes sgn σ0 (m σ t').2.1) by (eapply goes_silent; [exact Hg|by apply Hm]).
    by destruct (m σ t').1. }
  unfold run_once.
  eapply hoare_bind; [apply Hq; unfold wallet_open; quiet_with ltac:(fail)|]. intros wallet. cbn beta.
  eapply hoare_bind; [apply Hq; unfold load_config; quiet_with ltac:(fail)|]. intros config. cbn beta.
  eapply hoare_bind; [apply Hq; quiet_with ltac:(fail)|]. intros now. cbn beta.
  eapply hoare_bind with (Q := fun _ => goes sgn σ0).
  { eapply hoare_conseq; [apply goes_requeue|done|by intros []]. }
  intros swept. eapply hoare_bind; [apply Hq, quiet_deferred|]. intros nd. cbn beta.
  eapply hoare_bind with (Q := fun l σ => goes sgn σ0 σ /\ current l (orders_of σ) /\
    Forall (fun o => status o = NotStarted) l).
  { apply hoare_with_status; [|done]. intros l σ Hg Hc Hl. split_and!; [done..|].
    apply Forall_forall. intros o Ho. by apply Hl. }
  intros fresh. eapply hoare_bind with (Q := fun l σ => goes sgn σ0 σ /\
    current (fresh ++ List.filter (due now) l) (orders_of σ) /\
    Forall startable (fresh ++ List.filter (due now) l)).
  { apply hoare_with_status; [|by intros e σ [? _]]. intros l σ (Hg & Hc1 & Hf1) Hc2 Hl. split; [done|].
    assert (Forall (fun o => status o = Failed) l) as Hf2 by (apply Forall_forall; intros o Ho; by apply Hl).
    split.
    - apply current_app; [done|by apply current_filter|]. intros x Hx Hy.
      apply list_elem_of_In, filter_In in Hy as [Hy _]. apply list_elem_of_In in Hy.
      rewrite Forall_forall in Hf1, Hf2. specialize (Hf1 x Hx). specialize (Hf2 x Hy). congruence.
    - apply Forall_app. split; [eapply Forall_impl; [exact Hf1|by left]|].
      apply Forall_forall. intros x Hx. apply list_elem_of_In, filter_In in Hx as [Hx _].
      right. rewrite Forall_forall in Hf2. by apply Hf2, list_elem_of_In. }
  intros failed. cbn zeta. eapply hoare_bind with (Q := fun _ => goes sgn σ0).
  { eapply hoare_conseq; [eapply (hoare_orders _ startable)|done|by intros []].
    - intros o [->| ->]; done.
    - intros b o σ t' Hl Hs. by apply process_order_post. }
  intros pr. eapply hoare_bind with (Q := fun _ => goes sgn σ0); [|intros _; by apply hoare_ret].
  apply Hq. unfold wallet_save.
  quiet_with ltac:(apply quietly_modify; intros σ _; apply silent_intro; [apply step_wallet|done..]).
Qed.
End Pass_.
