(* ===== verification/RunOnce.v ===== *)
(** * Theorems about [run_once]

    Safety under every schedule of I/O faults, rail answers, clock readings
    and random draws; exact accounting when nothing fails; and runs on which
    the code departs from its documentation. *)

From Stdlib Require Import Ascii String.
From S2P Require Import Prelude RustStr Bytes Sdk PayError Amount Event Mmr Store Hoare.
From S2P Require Import Journal AuditLog Retry Compliance RustText Http X402 Settle F64 Executor Steps.
From S2P Require Import ExecutorProps PassProps.

Section RunOnce.
Context `{Sdk, Env, Net, Codec, !NativeRail, !JsonOk, !EnvOk}.
Variables (wallet_path : string) (operator : option OperatorKeys) (scorer : option ComplianceScorer).

(** The state a pass started in [σ] leaves behind, whether it returns, fails or panics. *)
Definition after_pass (σ : State) (t : nat) : State := (run_once wallet_path operator scorer σ t).2.1.

Lemma run_once_evolves (σ : State) (t : nat) : evolves σ (after_pass σ t).
Proof. apply run_once_goes. Qed.

(** under every fault schedule a pass keeps the order log lawful: it only appends, each
    appended snapshot is a new order that is not started or follows the
    latest snapshot of its id by a transition of the status machine that
    changes none of the order's terms. *)
Theorem run_once_log_ok (σ : State) (t : nat) (Hl : log_ok (orders_of σ)) :
  log_ok (orders_of (after_pass σ t)) /\ orders_of σ `prefix_of` orders_of (after_pass σ t).
Proof.
  split; [|apply (evolves_append_only _ _ (run_once_evolves σ t))].
  eapply (evolves_ind_inv (fun σ => log_ok (orders_of σ))); [apply step_log_ok|apply run_once_evolves|done].
Qed.

(** C1: a settled order is final: under every fault schedule, a pass leaves the snapshot of a
    settled order untouched and adds no posting for it. *)
Theorem run_once_settled_final (σ : State) (t : nat) (id : string) (o : PaymentOrder)
    (Ho : latest σ id = Some o) (Hs : status o = Success) :
  latest (after_pass σ t) id = Some o /\
  postings_of id (journal_of (after_pass σ t)) = postings_of id (journal_of σ).
Proof. eapply evolves_settled; [apply run_once_evolves|done..]. Qed.

(** under every fault schedule a pass keeps both hash chains intact: a journal that chained before
    chains after, an audit stream that verified before verifies after, and
    both have only been appended to. *)
Theorem run_once_chains (σ : State) (t : nat) (Hj : chain_ok (journal_of σ))
    (Ha : verify_records ZERO_HASH (audit_of σ) = Ok true) :
  chain_ok (journal_of (after_pass σ t)) /\ journal_of σ `prefix_of` journal_of (after_pass σ t) /\
  verify_records ZERO_HASH (audit_of (after_pass σ t)) = Ok true /\
  audit_of σ `prefix_of` audit_of (after_pass σ t).
Proof.
  pose proof (run_once_evolves σ t) as He. destruct (evolves_append_only _ _ He) as (_ & Pj & Pa & _).
  split_and!; [|done| |done].
  - eapply (evolves_ind_inv (fun σ => chain_ok (journal_of σ))); [apply step_chain|exact He|done].
  - eapply (evolves_ind_inv (fun σ => verify_records ZERO_HASH (audit_of σ) = Ok true)); [apply step_audit_ok|exact He|done].
Qed.

(** C2: exact accounting: without I/O faults and with a signer that signs, a pass keeps the
    journal in agreement with the order log, however the rails answer and even if it
    stops half way: every settled order has exactly one debit and one credit, the debit of its
    amount, and no other order has any posting. *)
Theorem run_once_accounted (σ : State) (t : nat) (Hn : no_faults) (Hs : signs operator)
    (Ha : accounted σ) : accounted (after_pass σ t).
Proof. by apply (run_once_goes operator σ). Qed.

Lemma sent_split (σ : State) (pre post : list RailCall) (c c' : RailCall) (y z : list RailCall) :
  z = y ++ [c'] -> w_sent σ `prefix_of` y -> z = w_sent σ ++ pre ++ c :: post ->
  (y = w_sent σ ++ pre /\ post = [] /\ c = c') \/ (exists post', post = post' ++ [c'] /\ y = w_sent σ ++ pre ++ c :: post').
Proof.
  intros -> _ E. destruct post as [|p post _] using rev_ind.
  - left. rewrite app_assoc in E. by apply app_inj_tail in E as [-> ->].
  - right. exists post. change (c :: post ++ [p]) with ((c :: post) ++ [p]) in E.
    rewrite !app_assoc in E. apply app_inj_tail in E as [-> ->]. by rewrite <- app_assoc.
Qed.

Lemma evolves_write_ahead (σ σ' : State) (pre post : list RailCall) (c : RailCall) :
  evolves σ σ' -> w_sent σ' = w_sent σ ++ pre ++ c :: post ->
  exists σ1 id o, evolves σ σ1 /\ evolves σ1 σ' /\ w_sent σ1 = w_sent σ ++ pre /\
    latest σ1 id = Some o /\ status o = Executing /\ sent_for o c.
Proof.
  intros He. revert pre post c.
  apply (rtc_ind_r (R := pass_step) (fun σ' => forall pre post c, w_sent σ' = w_sent σ ++ pre ++ c :: post ->
    exists σ1 id o, evolves σ σ1 /\ evolves σ1 σ' /\ w_sent σ1 = w_sent σ ++ pre /\
      latest σ1 id = Some o /\ status o = Executing /\ sent_for o c) σ); [| |exact He].
  { intros pre post c E. exfalso. apply (f_equal length) in E. rewrite !length_app in E. cbn in E. lia. }
  intros y z Hy Hyz IH pre post c E. pose proof Hyz as [id Hs]. apply step_sent in Hs as [Hz|(c' & o & Hz & Hl & Hx & Hc)].
  - rewrite Hz in E. destruct (IH _ _ _ E) as (σ1 & i & o & E1 & E2 & E3). exists σ1, i, o.
    split_and!; try apply E3; [done|]. by eapply rtc_r.
  - assert (w_sent σ `prefix_of` w_sent y) as Hp by (by apply evolves_append_only).
    destruct (sent_split σ pre post c c' _ _ Hz Hp E) as [(Ey & _ & ->)|(post' & _ & Ey)].
    + exists y, id, o. split_and!; [done| |done..]. by apply rtc_once.
    + destruct (IH _ _ _ Ey) as (σ1 & i & o1 & E1 & E2 & E3). exists σ1, i, o1.
      split_and!; try apply E3; [done|]. by eapply rtc_r.
Qed.

(** C5: write-ahead: whenever a pass sends a request to a rail or a facilitator,
    the log already holds the order it is sent for as [EXECUTING] at that moment, so a crash
    at any point leaves a trace the recovery sweep sees; a native payment goes to that
    order's payee, with its checkout as memo, its amount in minor units and that amount as the cap. *)
Theorem run_once_write_ahead (σ : State) (t : nat) (pre post : list RailCall) (c : RailCall)
    (Hc : w_sent (after_pass σ t) = w_sent σ ++ pre ++ c :: post) :
  exists σ1 id o, evolves σ σ1 /\ evolves σ1 (after_pass σ t) /\ w_sent σ1 = w_sent σ ++ pre /\
    latest σ1 id = Some o /\ status o = Executing /\ sent_for o c.
Proof. eapply evolves_write_ahead; [apply run_once_evolves|exact Hc]. Qed.
End RunOnce.

(** ** A concrete world *)

Module ToyPass.
Definition toy_rail (bad : option nat) : @NativeRail (ToyEnv.env bad) :=
  @Build_NativeRail (ToyEnv.env bad) Z
    (fun _ w _ amt _ _ _ => if (amt <=? (w : Z)) then (Ok amt, (w - amt : Z)) else (Err "insufficient funds", w))
    (fun r => Ok (le_bytes 8 r)).

Section World.
Variables (bad : option nat) (reply : option bytes) (value : json).

(** A pass without a scorer or operator identity from a store with these
    orders and configuration, and a wallet that holds 1000. *)
Definition world (c : PaymentsConfig) (os : list PaymentOrder) : @State (ToyEnv.env bad) :=
  @Build_State (ToyEnv.env bad)
    {| st_config := Some c; st_events := []; st_orders := os; st_journal := []; st_retry := [];
       st_dlq := []; st_notifications := []; st_deferred := []; st_audit := []; st_receipts := [];
       st_mmr := None; st_settlement := ∅; st_runs := ∅; st_batches := ∅ |} 1000 [].

Definition pass (σ : @State (ToyEnv.env bad)) (t : nat) :=
  @run_once Toy.sdk (ToyEnv.env bad) (ToyX402.net reply) (ToyX402.codec value) (toy_rail bad) "w" None None σ t.
End World.

Definition order1 : PaymentOrder := order_new "order-1" "t0" "checkout-1" "acct1" "1.00" "USD".
Definition world1 := world None config_default [order1].

Definition with_rails (rs : list string) : PaymentsConfig :=
  {| config_version := 1; config_currency := "USD"; enabled_rails := rs; retry := retry_policy_default;
     per_tx_cap := None; executing_ttl_secs := 300; deferred_settlement_enabled := false;
     settlement_preference := Hold; split_pct := 50 |}.

Lemma log1 : log_ok (orders_of world1).
Proof. change (orders_of world1) with ([] ++ [order1]). by apply log_first; [constructor|..]. Qed.

Lemma accounted1 : accounted world1.
Proof.
  intros id. change (latest world1 id) with (latest_in ([] ++ [order1]) id). rewrite latest_in_snoc.
  destruct (has_id id order1); done.
Qed.
End ToyPass.

Module RunOnceWitness.
Import ToyPass.
#[local] Existing Instance Toy.sdk.
#[local] Instance the_env : Env := ToyEnv.env None.
#[local] Instance the_net : Net := ToyX402.net None.
#[local] Instance the_codec : Codec := ToyX402.codec JNull.
#[local] Instance the_rail : NativeRail := toy_rail None.
#[local] Instance the_env_ok : EnvOk := ToyEnv.env_ok None.

(** The order is settled by the pass. *)
Definition done1 : State := after_pass "w" None None world1 0%nat.
Definition settled1 : PaymentOrder := default order1 (latest done1 "order-1").

Lemma run_once_log_ok_witness :
  log_ok (orders_of world1) /\ log_ok (orders_of done1) /\ length (orders_of done1) = 3%nat.
Proof.
  split; [exact log1|]. split; [|vm_compute; reflexivity].
  exact (proj1 (run_once_log_ok "w" None None world1 0%nat log1)).
Defined.

Lemma run_once_settled_final_witness :
  status settled1 = Success /\ latest (after_pass "w" None None done1 50%nat) "order-1" = Some settled1.
Proof.
  split; [vm_compute; reflexivity|].
  apply (run_once_settled_final "w" None None done1 50%nat "order-1" settled1); vm_compute; reflexivity.
Defined.

Lemma run_once_chains_witness :
  chain_ok (journal_of done1) /\ length (journal_of done1) = 2%nat /\
  verify_records ZERO_HASH (audit_of done1) = Ok true.
Proof.
  destruct (run_once_chains "w" None None world1 0%nat) as (Hj & _ & Ha & _); [done|done|].
  split; [exact Hj|]. split; [vm_compute; reflexivity|exact Ha].
Defined.

Lemma run_once_accounted_witness :
  accounted done1 /\ length (postings_of "order-1" (journal_of done1)) = 2%nat.
Proof.
  split; [|vm_compute; reflexivity].
  exact (run_once_accounted "w" None None world1 0%nat ToyEnv.quiet I accounted1).
Defined.

Lemma run_once_write_ahead_witness :
  exists c, w_sent done1 = w_sent world1 ++ [] ++ c :: [] /\
  exists σ1 id o, evolves world1 σ1 /\ evolves σ1 done1 /\ w_sent σ1 = w_sent world1 ++ [] /\
    latest σ1 id = Some o /\ status o = Executing /\ sent_for o c.
Proof.
  exists (CallNative "acct1" 100 (as_bytes "checkout-1") (Some 100)).
  split; [vm_compute; reflexivity|].
  apply (run_once_write_ahead "w" None None world1 0%nat [] []
           (CallNative "acct1" 100 (as_bytes "checkout-1") (Some 100))).
  vm_compute. reflexivity.
Defined.
End RunOnceWitness.

(** ** Gates before the rails, and runs that surprise

    What must hold of an order before a request leaves the process, the
    dedupe of receipts, the split payout, and concrete passes on which the
    code departs from its documentation. *)

Section Gates.
Context `{Sdk, Env, Net, Codec, !NativeRail}.

(** The payments-layer policy an order must satisfy. *)
Definition policy_ok (config : PaymentsConfig) (o : PaymentOrder) (m : Z) : Prop :=
  rail_as_str (default Native (rail o)) ∈ enabled_rails config /\
  parse_amount (amount o) = Ok m /\ 0 <= m /\
  (forall cap_str, per_tx_cap config = Some cap_str ->
     exists cap, parse_amount cap_str = Ok cap /\ m <= cap).

Lemma policy_check_ok (config : PaymentsConfig) (o : PaymentOrder) (m : Z) :
  policy_check config o = Ok m <-> policy_ok config o m.
Proof.
  unfold policy_check, policy_ok.
  case_bool_decide as Hr; cbn [negb]; [|by split; [|intros [? _]]].
  destruct (parse_amount (amount o)) as [v|] eqn:Ev; cbn [map_err mbind result_mbind];
    [|by split; [|intros (_ & ? & _)]].
  destruct (Z.ltb_spec v 0) as [Hv|Hv].
  { split; [done|]. intros (_ & [= ->] & ? & _). lia. }
  destruct (per_tx_cap config) as [cs|].
  - destruct (parse_amount cs) as [cap|] eqn:Ec; cbn [map_err mbind result_mbind].
    + destruct (Z.ltb_spec cap v) as [Hc|Hc].
      * split; [done|]. intros (_ & [= ->] & _ & Hx). destruct (Hx cs eq_refl) as (c & Hc' & ?).
        rewrite Ec in Hc'. injection Hc' as ->. lia.
      * split; [intros [= ->]|by intros (_ & [= ->] & _)].
        split_and!; try done. intros ? [= <-]. eauto.
    + split; [done|]. intros (_ & _ & _ & Hx). destruct (Hx cs eq_refl) as (c & Hc' & _). congruence.
  - split; [by intros [= ->]|by intros (_ & [= ->] & _)].
Qed.

(** The scorer's verdict when the gate lets an order through. *)
Definition not_rejected (scorer : option ComplianceScorer) (o : PaymentOrder) : Prop :=
  forall score, scorer = Some score -> exists t v, score t o = Ok v /\ forall r e, v <> Reject r e.

Lemma audit_sent (ty : Z) (payload : json) (keys : option OperatorKeys) (σ : State) (t : nat) :
  w_sent (audit_record ty payload keys σ t).2.1 = w_sent σ.
Proof.
  apply (audit_record_outcome ty payload keys (fun σ' => σ' = σ) (fun _ σ' => w_sent σ' = w_sent σ));
    [by intros ? r ->|by intros e ? ->|done].
Qed.

Lemma compliance_gate_run (scorer : option ComplianceScorer) (p : Pass) (σ : State) (t : nat) :
  let out := compliance_gate scorer p σ t in
  w_sent out.2.1 = w_sent σ /\
  forall p', out.1 = Ok (Ok tt, p') -> p' = p /\ not_rejected scorer (pass_order p).
Proof.
  unfold compliance_gate, not_rejected. destruct scorer as [score|]; [|by split; [|intros p' [= <-]]].
  unfold the_order, catch, attempt, tick, mbind, SM_bind, mbind, M_bind, mret, SM_ret, M_ret, fail.
  cbn. destruct (score t (pass_order p)) as [v|e] eqn:Ev; cbn; [|done].
  destruct v as [|reason|reason ev]; cbn.
  - split; [done|]. intros p' [= <-]. split; [done|]. intros ? [= <-]. eexists t, _. split; [exact Ev|done].
  - pose proof (audit_sent AT_ORDER_FLAGGED
      (JObj [("flag", JStr reason); ("order", JStr (payment_order_id (pass_order p)))]) None σ (S t)) as Hs.
    destruct (audit_record _ _ _ σ (S t)) as [[[]|[e|e]] [σ1 t1]]; cbn in *; [|done..].
    split; [done|]. intros p' [= <-]. split; [done|]. intros ? [= <-]. eexists t, _. split; [exact Ev|done].
  - done.
Qed.

(** C4: nothing is sent for an order the policy refuses: if an attempt puts any request on the
    wire, then the order's rail is enabled, its amount parses and is not negative and is within the
    configured cap, and the compliance scorer, if any, has not rejected it. *)
Theorem settle_gates (config : PaymentsConfig) (sgn : option OperatorKeys)
    (scorer : option ComplianceScorer) (p : Pass) (σ : State) (t : nat)
    (Hsent : w_sent (settle config sgn scorer p σ t).2.1 <> w_sent σ) :
  (exists m, policy_ok config (pass_order p) m) /\ not_rejected scorer (pass_order p).
Proof.
  revert Hsent. unfold settle, the_order. unfold mbind at 1, SM_bind at 1. rewrite bind_run.
  unfold mret at 1, M_ret at 1. cbn [fst snd].
  destruct (policy_check config (pass_order p)) as [m|reason] eqn:Ep; [|done].
  unfold mbind at 1, SM_bind at 1. rewrite bind_run.
  destruct (compliance_gate_run scorer p σ t) as [Hs Hok].
  destruct (compliance_gate scorer p σ t) as [[[[[]|e] p']|e] [σ1 t1]]; cbn [fst snd] in *; [|done..].
  destruct (Hok p' eq_refl) as [-> Hnr]. intros _. split; [|done]. exists m. by apply policy_check_ok.
Qed.

(** ** Receipts *)

(** a receipt settles at most once: when the hash of a facilitator receipt is already in the
    dedupe log, the settlement is refused and the state does not change, so
    neither the journal nor the order is touched. *)
Theorem receipt_dedupe `{!HexOk} (sgn : option OperatorKeys) (rc : bytes) (p : Pass) (σ : State)
    (t : nat) (r : ReceiptHash) (Hr : r ∈ st_receipts (w_store σ))
    (Hh : receipt_hash r = hex_encode (sha3_256 rc)) :
  let out := settle_http402_success sgn rc p σ t in
  out.2.1 = σ /\ exists reason, out.1 = Ok (Err (Terminal reason), p).
Proof.
  cbn zeta.
  enough (exists reason t', settle_http402_success sgn rc p σ t = (Ok (Err (Terminal reason), p), (σ, t')))
    as (reason & t' & ->) by eauto.
  unfold settle_http402_success. unfold mbind at 1, SM_bind at 1. rewrite bind_run.
  unfold dedupe_check. unfold mbind at 1, SM_bind at 1. rewrite bind_run.
  unfold catch, attempt. rewrite bind_run.
  assert (hoare (fun σ' => σ' = σ) (is_receipt_settled (sha3_256 rc)) (fun r σ' => σ' = σ /\
    match r with Ok b => b = true | Err (Fail _) => True | Err (Panic _) => False end)) as Hset.
  { unfold is_receipt_settled. eapply hoare_bind with (Q := fun rs σ' => rs = st_receipts (w_store σ) /\ σ' = σ).
    - apply hoare_read; by intros; subst.
    - intros rs. apply hoare_ret. intros ? [-> ->]. split; [done|].
      apply existsb_exists. exists r. split; [by apply list_elem_of_In|]. by apply bool_decide_eq_true. }
  destruct (Hset σ t eq_refl) as [Es Eb].
  destruct (is_receipt_settled (sha3_256 rc) σ t) as [[b|[e|e]] [σ1 t1]]; cbn in Es, Eb |- *; subst; [|eauto|done].
  unfold fail, mret, M_ret. cbn. eauto.
Qed.

(** ** Split payouts *)

(** a split payout is exact below 2^52 minor units: after a settled payment whose amount
    parses to [m] and a split of [pct] percent, the payout order's amount, which the code formats through a
    double, parses back to [(100 - pct) * m / 100], rounded down. *)
Theorem split_payout_exact (m pct : Z) (Hm : 0 < m) (Hp : 0 <= pct < 100)
    (Hpos : 0 < m * (100 - pct) / 100) (Hb : m * (100 - pct) / 100 < 2 ^ 52)
    (Hr : m * (100 - pct) <= i128_max) :
  let payout_minor := Z.quot (wrap_i128 (m * (100 - Z.min pct 100))) 100 in
  parse_amount (payout_amount payout_minor) = Ok (m * (100 - pct) / 100).
Proof.
  cbn zeta. rewrite Z.min_l by lia. rewrite wrap_i128_id by (unfold in_i128, i128_min; nia).
  rewrite Z.quot_div_nonneg by nia. unfold payout_amount.
  rewrite f64_hundredths_cents by lia. apply fmt_amount_parses.
  assert (2 ^ 52 < i128_max) by (vm_compute; reflexivity). unfold in_i128, i128_min. lia.
Qed.
End Gates.

Lemma split_payout_exact_witness :
  parse_amount (payout_amount (Z.quot (wrap_i128 (1999 * (100 - Z.min 30 100))) 100)) = Ok (1999 * (100 - 30) / 100).
Proof.
  apply (split_payout_exact 1999 30); first [lia | vm_compute; reflexivity | vm_compute; discriminate].
Defined.

(** Above that the detour through a double changes the payout: for 2^53 + 1
    minor units the payout order is one unit short. *)
Theorem split_payout_inexact :
  parse_amount (payout_amount (2 ^ 53 + 1)) <> Ok (2 ^ 53 + 1).
Proof. vm_compute. discriminate. Qed.

(** ** Runs *)

Module Runs.
Import ToyPass.

Definition with_retry (o : PaymentOrder) (st : OrderStatus) (att : Z) (deadline : string) : PaymentOrder :=
  order_with o st false false att (Some deadline) None None "t0".
Definition big : PaymentOrder := order_new "order-1" "t0" "checkout-1" "acct1" "20.00" "USD".

(** An order on its fifth and last attempt, with a deadline in the past and
    more to pay than the wallet holds. *)
Definition last_try := world None config_default [with_retry big Failed 4 "0"].
Definition first_pass := (pass None None JNull last_try 0%nat).2.1.
Definition second_pass := (pass None None JNull first_pass 100%nat).2.1.

(** a dead-lettered order is not out of circulation: the pass that exhausts its attempts moves it
    to the DLQ but keeps its old retry deadline, so the next pass
    sends a payment for it again, past [max_attempts], and dead-letters it once more. *)
Theorem dead_letter_revived :
  length (st_dlq (w_store first_pass)) = 1%nat /\ length (w_sent first_pass) = 1%nat /\
  option_map attempts (latest second_pass "order-1") = Some 6 /\
  max_attempts retry_policy_default = 5 /\
  length (w_sent second_pass) = 2%nat /\ length (st_dlq (w_store second_pass)) = 2%nat.
Proof. vm_compute. repeat split. Qed.

Definition half : FxRate := {| fx_from := "USD"; fx_to := "EUR"; fx_rate := "0.5"; markup_bps := 0 |}.
Definition fx_cent : PaymentOrder :=
  {| order_version := 1; payment_order_id := "order-1"; checkout_id := "checkout-1"; to := "acct1";
     amount := "0.01"; currency := "USD"; fx := Some half; card_token := None; card_network := None;
     card_last4 := None; rail := None; direction := Payment; status := NotStarted;
     ledger_updated := false; wallet_updated := false; attempts := 0; next_retry_at := None;
     executing_since := None; receipt := None; created_at := "t0"; updated_at := "t0";
     signature := None; signer := None |}.

(** The native rail pays before the journal has accepted the order: an FX order
    whose amount converts to less than one minor unit is paid from the wallet, and then
    marked failed with nothing in the journal. *)
Theorem fx_order_paid_then_failed :
  let out := (pass None None JNull (world None config_default [fx_cent]) 0%nat).2.1 in
  w_sent out = [CallNative "acct1" 1 (as_bytes "checkout-1") (Some 1)] /\
  w_wallet out = 999 /\ journal_of out = [] /\
  option_map status (latest out "order-1") = Some Failed.
Proof. vm_compute. repeat split. Qed.

(** The wallet file is saved only at the end of a pass: when a write after settlement fails,
    the pass stops with the order logged as settled, its [wallet_updated]
    flag set and its batch journaled, while the wallet file keeps the old balance. *)
Theorem settled_but_wallet_not_saved :
  exists bad, let out := pass (Some bad) None JNull (world (Some bad) config_default [order1]) 0%nat in
    is_ok out.1 = false /\ w_wallet out.2.1 = 1000 /\ length (journal_of out.2.1) = 2%nat /\
    option_map status (latest out.2.1 "order-1") = Some Success /\
    option_map wallet_updated (latest out.2.1 "order-1") = Some true.
Proof. exists 27%nat. vm_compute. repeat split. Qed.

(** The same store at a later time, without faults. *)
Definition calm {bad : option nat} (σ : @State (ToyEnv.env bad)) : @State (ToyEnv.env None) :=
  @Build_State (ToyEnv.env None) (w_store σ) (w_wallet σ : Z) (w_sent σ).


Definition card_order (id : string) : PaymentOrder :=
  {| order_version := 1; payment_order_id := id; checkout_id := "checkout-1"; to := "shop";
     amount := "1.00"; currency := "USD"; fx := None; card_token := Some "tok"; card_network := Some "VISA";
     card_last4 := Some "4242"; rail := Some Card; direction := Payment; status := NotStarted;
     ledger_updated := false; wallet_updated := false; attempts := 0; next_retry_at := None;
     executing_since := None; receipt := None; created_at := "t0"; updated_at := "t0";
     signature := None; signer := None |}.
Definition reply_ok : bytes := as_bytes ("HTTP/1.1 200 OK" +:+ crlf +:+ "Content-Length: 2" +:+ crlf +:+ crlf +:+ "{}").

(** Card authorizations without an [auth] receipt share the empty receipt: of two orders the facilitator
    both authorizes, the second is refused as a duplicate and marked failed. *)
Theorem card_without_auth_refused :
  let out := (pass None (Some reply_ok) (JObj [("status", JStr "success")])
                (world None (with_rails ["card"]) [card_order "a"; card_order "b"]) 0%nat).2.1 in
  length (w_sent out) = 2%nat /\
  option_map status (latest out "a") = Some Success /\
  option_map status (latest out "b") = Some Failed.
Proof. vm_compute. repeat split. Qed.

(** The facilitator's retry hint never reaches the backoff: the reason the executor itself builds puts
    the hint behind a parenthesis, where the extraction does not look for it. *)
Theorem retry_after_hint_lost :
  extract_retry_after_ms ("facilitator /settle rejected: busy (retry-after=" +:+ show_Z 30 +:+ "s)") = None /\
  extract_retry_after_ms "settlement_pending tx=1 retry-after=30s" = Some 30000.
Proof. vm_compute. split; reflexivity. Qed.
End Runs.

Module GatesWitness.
Import ToyPass.
#[local] Existing Instance Toy.sdk.
#[local] Instance the_env : Env := ToyEnv.env None.
#[local] Instance the_net : Net := ToyX402.net None.
#[local] Instance the_codec : Codec := ToyX402.codec JNull.
#[local] Instance the_rail : NativeRail := toy_rail None.

Definition running : PaymentOrder := order_with order1 Executing false false 1 None (Some "0") None "t0".
Definition pass1 : Pass := @Build_Pass (ToyEnv.env None) 1000 running.

Lemma settle_gates_witness :
  w_sent (settle config_default None None pass1 world1 0%nat).2.1 <> w_sent world1 /\
  exists m, policy_ok config_default (pass_order pass1) m.
Proof.
  assert (w_sent (settle config_default None None pass1 world1 0%nat).2.1 <> w_sent world1) as Hs
    by (vm_compute; discriminate).
  split; [exact Hs|]. exact (proj1 (settle_gates config_default None None pass1 world1 0%nat Hs)).
Defined.

Definition seen : ReceiptHash :=
  {| receipt_order_id := "x"; receipt_hash := hex_encode (sha3_256 [byte_of 9]); recorded_at := "t" |}.
Definition used : State := on_store (fun s => push_receipt s seen) world1.

Lemma receipt_dedupe_witness :
  (settle_http402_success None [byte_of 9] pass1 used 0%nat).2.1 = used.
Proof.
  apply (receipt_dedupe None [byte_of 9] pass1 used 0%nat seen); [|reflexivity].
  apply list_elem_of_In. left. reflexivity.
Defined.
End GatesWitness.
