(* ===== verification/Reconcile.v ===== *)
(** * Reconciliation (origin-payments/src/reconcile.rs)

    Settlement files pulled from a PSP are stamped with a content hash; a run
    compares those of a date with the settled orders, classifies every order
    id, checkpoints the comparison in the MMR and persists itself.  The settlement directory
    is a map from file names to files, the runs directory one from run ids. *)

From Stdlib Require Import Ascii String.
From S2P Require Import Prelude RustStr Bytes Sdk PayError Amount Event Mmr Store Hoare.
From S2P Require Import Journal AuditLog Retry Compliance RustText Http X402 Settle.

Definition str_le (x y : string) : Prop := String.leb x y = true.
#[global] Instance str_le_dec (x y : string) : Decision (str_le x y).
Proof. unfold str_le. apply _. Defined.
#[global] Instance str_le_total : Total str_le.
Proof. intros x y. apply String.leb_total. Qed.

(** [Vec::sort] on strings. *)
Definition sort_strings (l : list string) : list string := merge_sort str_le l.

Definition amount_eq (a b : string) : bool :=
  match parse_amount a, parse_amount b with
  | Ok x, Ok y => x =? y
  | _, _ => String.eqb a b
  end.

Section Reconcile.
Context `{Sdk, Env}.

(** ** Stamped files *)

Definition row_json (r : SettlementRow) : json :=
  JObj [("amount", JStr (row_amount r)); ("payment_order_id", JStr (row_order_id r))].

Definition file_json (f : SettlementFile) : json :=
  JObj [("currency", JStr (file_currency f)); ("date", JStr (file_date f)); ("rail", JStr (file_rail f));
        ("rows", JArr (map row_json (rows f)))].

Definition compute_hash (f : SettlementFile) : string :=
  hex_encode (sha3_256 (default [] (json_to_vec (file_json f)))).

Definition verify_stamp (f : SettlementFile) : bool := String.eqb (file_content_hash f) (compute_hash f).

Definition stamp (rail date currency : string) (rs : list SettlementRow) : SettlementFile :=
  let file := {| file_rail := rail; file_date := date; file_currency := currency; rows := rs;
                 file_content_hash := EmptyString |} in
  {| file_rail := rail; file_date := date; file_currency := currency; rows := rs;
     file_content_hash := compute_hash file |}.

Definition settlement_dir : string := path "settlement".
Definition legacy_name (date : string) : string := date +:+ ".json".
Definition file_name (date currency : string) : string :=
  if String.eqb currency EmptyString then legacy_name date
  else date +:+ "." +:+ currency +:+ ".json".

(** [write_atomic]: a temporary file, then a rename. *)
Definition write_atomic (name : string) (f : PaymentStore -> PaymentStore) : M unit :=
  _ ← io ("writing " +:+ name);
  _ ← io ("renaming " +:+ name);
  update f.

Definition pull (rail date currency : string) (rs : list SettlementRow) : M SettlementFile :=
  let stamped := stamp rail date currency rs in
  _ ← io ("creating " +:+ settlement_dir);
  _ ← write_atomic (settlement_dir +:+ "/" +:+ file_name date currency)
        (fun s => put_settlement s (file_name date currency) stamped);
  mret stamped.

(** ** Per-currency export *)

Definition settlement_currency (o : PaymentOrder) : string :=
  match fx o with Some f => fx_to f | None => currency o end.

Definition by_currency_step (m : gmap string (list SettlementRow)) (o : PaymentOrder)
    : gmap string (list SettlementRow) :=
  if bool_decide (status o = Success) then
    let c := settlement_currency o in
    <[c := default [] (m !! c) ++ [{| row_order_id := payment_order_id o; row_amount := amount o |}]]> m
  else m.

Definition by_currency (os : list PaymentOrder) : gmap string (list SettlementRow) :=
  foldl by_currency_step ∅ os.

Definition export_file (rail date : string) (m : gmap string (list SettlementRow)) (c : string) : M SettlementFile :=
  let file := stamp rail date c (default [] (m !! c)) in
  let name := date +:+ "." +:+ c +:+ ".json" in
  _ ← write_atomic (settlement_dir +:+ "/" +:+ name) (fun s => put_settlement s name file);
  mret file.

Definition export_per_currency (rail date : string) : M (list SettlementFile) :=
  os ← orders;
  let m := by_currency os in
  _ ← io ("creating " +:+ settlement_dir);
  fold_M (fun files c => f ← export_file rail date m c; mret (files ++ [f])) []
    (sort_strings (map fst (map_to_list m))).

(** ** Loading *)

Definition check_file (name : string) (f : SettlementFile) : M SettlementFile :=
  _ ← io ("reading " +:+ settlement_dir +:+ "/" +:+ name);
  if negb (verify_stamp f)
  then throw (SettlementStampMismatch (settlement_dir +:+ "/" +:+ name))
  else mret f.

Definition no_file (date : string) : Error :=
  SettlementFileInvalid (settlement_dir +:+ "/" +:+ legacy_name date)
    "no settlement file pulled for this date".

Definition load (date : string) : M SettlementFile :=
  s ← get_store;
  match st_settlement s !! legacy_name date with
  | None => throw (no_file date)
  | Some f => check_file (legacy_name date) f
  end.

(** The per-currency files of a date: [<date>.<anything>.json]. *)
Definition is_extra (date name : string) : bool :=
  starts_with (chars (date +:+ ".")) (chars name)
  && match strip_suffix (chars ".json") (chars name) with Some _ => true | None => false end
  && negb (String.eqb name (legacy_name date)).

Definition load_all (date : string) : M (list SettlementFile) :=
  s ← get_store;
  legacy ← match st_settlement s !! legacy_name date with
           | Some _ => f ← load date; mret [f]
           | None => mret []
           end;
  (* the directory exists once anything was written under it *)
  _ ← (if bool_decide (st_settlement s = ∅) && bool_decide (map_to_list (st_batches s) = [])
       then throw (IoError ("reading " +:+ settlement_dir +:+ ": No such file or directory"))
       else io ("reading " +:+ settlement_dir));
  let extra := sort_strings (List.filter (is_extra date) (map fst (map_to_list (st_settlement s)))) in
  files ← fold_M (fun files name =>
            match st_settlement s !! name with
            | Some f => f ← check_file name f; mret (files ++ [f])
            | None => mret files
            end) legacy extra;
  match files with
  | [] => throw (no_file date)
  | _ => mret files
  end.

(** ** Comparison *)

Definition internal_view (os : list PaymentOrder) : gmap string string :=
  foldl (fun m o => if bool_decide (status o = Success) then <[payment_order_id o := amount o]> m else m) ∅ os.

Definition psp_view (fs : list SettlementFile) : gmap string string :=
  foldl (fun m f => foldl (fun m r => <[row_order_id r := row_amount r]> m) m (rows f)) ∅ fs.

Definition order_ids (psp internal : gmap string string) : list string :=
  sort_strings (map fst (map_to_list psp)
                ++ List.filter (fun id => negb (bool_decide (is_Some (psp !! id)))) (map fst (map_to_list internal))).

(** The class of an id; [Match] for one that agrees. *)
Definition classify (psp internal : gmap string string) (id : string) : MismatchClass :=
  match psp !! id, internal !! id with
  | Some p, Some j => if amount_eq p j then Match else Adjustable
  | _, _ => Unclassifiable
  end.

Definition mismatch_of (rid date : string) (psp internal : gmap string string) (id : string) : ReconcileMismatch :=
  {| mismatch_run_id := rid; mismatch_order_id := id; psp_amount := psp !! id;
     journal_amount := internal !! id; class := classify psp internal id;
     evidence := ["settlement " +:+ date] |}.

Fixpoint compare_all (rid date : string) (psp internal : gmap string string) (ids : list string)
    (acc : Z * list ReconcileMismatch) : Z * list ReconcileMismatch :=
  match ids with
  | [] => acc
  | id :: ids' =>
      compare_all rid date psp internal ids'
        (match classify psp internal id with
         | Match => (wrap_u64 (acc.1 + 1), acc.2)
         | _ => (acc.1, acc.2 ++ [mismatch_of rid date psp internal id])
         end)
  end.

Definition checkpoint_leaf (fs : list SettlementFile) (head : bytes) : bytes :=
  sha3_256 (concat (map (fun f => match hex_decode (file_content_hash f) with Ok b => b | Err _ => [] end) fs)
            ++ head).

Definition reconcile (date : option string) : M ReconcileRun :=
  date ← match date with Some d => mret d | None => n ← now_nanos; mret (day n) end;
  settlements ← load_all date;
  rid ← new_uuid;
  os ← orders;
  let internal := internal_view os in
  let psp := psp_view settlements in
  let '(n, ms) := compare_all rid date psp internal (order_ids psp internal) (0, []) in
  head ← journal_head;
  cp ← checkpoint_mmr (checkpoint_leaf settlements head);
  now ← now_rfc3339;
  let r := {| run_id := rid; run_date := date; psp_files := settlements; journal_root := head;
              matches := n; mismatches := ms; mmr_checkpoint := cp;
              run_status := match ms with [] => Clean | _ => Mismatches end; run_created_at := now |} in
  _ ← io ("creating " +:+ path "runs");
  _ ← write_atomic (path "runs/" +:+ rid +:+ ".json") (fun s => put_run s r);
  mret r.

(** Newest first: by date, then by creation time. *)
Definition run_ge (a b : ReconcileRun) : Prop :=
  match String.compare (run_date b) (run_date a) with
  | Lt => True
  | Gt => False
  | Eq => str_le (run_created_at b) (run_created_at a)
  end.
#[global] Instance run_ge_dec (a b : ReconcileRun) : Decision (run_ge a b).
Proof. unfold run_ge. destruct (String.compare _ _); apply _. Defined.

Definition list_runs : M (list ReconcileRun) :=
  s ← get_store;
  match map snd (map_to_list (st_runs s)) with
  | [] => mret []
  | rs => _ ← io ("reading " +:+ path "runs");
          t ← tick;
          mret (merge_sort run_ge (dir_order t rs))
  end.
End Reconcile.

(** ** What reconciliation guarantees

    Loading returns the files of a date exactly when every one of them carries
    its own stamp; a stamp binds the contents; a run classifies every order id
    of either side once, and is [Clean] exactly when the two sides agree. *)

(** ** Ids and their classes *)

Section Compare.
Implicit Types (psp internal : gmap string string).

Lemma sort_strings_perm (l : list string) : sort_strings l ≡ₚ l.
Proof. apply merge_sort_Permutation. Qed.

Lemma elem_of_keys {A : Type} (m : gmap string A) (k : string) :
  k ∈ map fst (map_to_list m) <-> is_Some (m !! k).
Proof.
  change (k ∈ (map_to_list m).*1 <-> is_Some (m !! k)).
  rewrite list_elem_of_fmap. split.
  - intros ([k' v] & -> & Hin%elem_of_map_to_list). by exists v.
  - intros [v Hv]. exists (k, v). split; [done|]. by apply elem_of_map_to_list.
Qed.

Lemma order_ids_elem psp internal (id : string) :
  id ∈ order_ids psp internal <-> is_Some (psp !! id) \/ is_Some (internal !! id).
Proof.
  unfold order_ids. rewrite sort_strings_perm, elem_of_app, elem_of_keys.
  rewrite list_elem_of_In, filter_In, <- list_elem_of_In, elem_of_keys, negb_true_iff, bool_decide_eq_false.
  destruct (psp !! id) as [p|]; [by split; [left|left; eauto]|].
  split; [intros [?|[? _]]; auto|]. intros [?|?]; [auto|]. right. split; [done|]. by intros [? [=]].
Qed.

Lemma order_ids_nodup psp internal : NoDup (order_ids psp internal).
Proof.
  unfold order_ids. rewrite sort_strings_perm. apply NoDup_app. split_and!.
  - apply NoDup_fst_map_to_list.
  - intros id. rewrite elem_of_keys, list_elem_of_In, filter_In. intros Hid [_ Hn].
    by apply negb_true_iff, bool_decide_eq_false in Hn.
  - apply NoDup_ListNoDup, List.NoDup_filter, NoDup_ListNoDup, NoDup_fst_map_to_list.
Qed.

(** Both sides have the id, with the same amount. *)
Definition agrees psp internal (id : string) : bool :=
  match classify psp internal id with Match => true | _ => false end.

Lemma agrees_spec psp internal (id : string) :
  agrees psp internal id = true <->
  exists p j, psp !! id = Some p /\ internal !! id = Some j /\ amount_eq p j = true.
Proof.
  unfold agrees, classify. destruct (psp !! id) as [p|], (internal !! id) as [j|]; cbn.
  - destruct (amount_eq p j) eqn:E; split; [by eauto 10|done|done|]. intros (?&?&[=->]&[=->]&?). congruence.
  - by split; [|intros (?&?&?&[=]&?)].
  - by split; [|intros (?&?&[=]&?)].
  - by split; [|intros (?&?&[=]&?)].
Qed.

Definition agreeing psp internal (ids : list string) : list string := List.filter (agrees psp internal) ids.
Definition differing psp internal (ids : list string) : list string :=
  List.filter (fun id => negb (agrees psp internal id)) ids.

Lemma compare_all_eq (rid date : string) psp internal (ids : list string) (n : Z) (ms : list ReconcileMismatch) :
  in_u64 n ->
  compare_all rid date psp internal ids (n, ms) =
  (wrap_u64 (n + Z.of_nat (length (agreeing psp internal ids))),
   ms ++ map (mismatch_of rid date psp internal) (differing psp internal ids)).
Proof.
  revert n ms. induction ids as [|id ids IH]; intros n ms Hn; cbn [compare_all].
  { cbn. rewrite Z.add_0_r, app_nil_r, wrap_u64_id by done. done. }
  unfold agreeing, differing. cbn [List.filter fst snd].
  destruct (agrees psp internal id) eqn:Ea; unfold agrees in Ea;
    destruct (classify psp internal id) eqn:Ec; try done; cbn [negb].
  - rewrite IH by auto with origin. f_equal. unfold wrap_u64, wrap_u, agreeing.
    rewrite Zplus_mod_idemp_l. f_equal. cbn [length]. lia.
  - rewrite IH by done. by rewrite <- app_assoc.
  - rewrite IH by done. by rewrite <- app_assoc.
Qed.

Lemma differing_nil psp internal (ids : list string) :
  differing psp internal ids = [] <-> forall id, id ∈ ids -> agrees psp internal id = true.
Proof.
  unfold differing. induction ids as [|id ids IH]; cbn; [by split; [intros _ ? ?%elem_of_nil|]|].
  destruct (agrees psp internal id) eqn:E; cbn.
  - rewrite IH. split; [|by intros Hx y Hy; apply Hx, elem_of_cons; right].
    intros Hx y [->|Hy]%elem_of_cons; auto.
  - split; [done|]. intros Hx. rewrite Hx in E; [done|]. by apply elem_of_cons; left.
Qed.
End Compare.

(** ** Loading *)

Section Load.
Context `{Sdk, Env}.

(** The settlement files of a date, in the order [load_all] reads them. *)
Definition date_files (date : string) (s : PaymentStore) : list SettlementFile :=
  option_list (st_settlement s !! legacy_name date) ++
  omap (fun name => st_settlement s !! name)
    (sort_strings (List.filter (is_extra date) (map fst (map_to_list (st_settlement s))))).

Lemma quiet_io (what : string) (σ : State) (t : nat) :
  no_faults -> io what σ t = (Ok tt, (σ, S t)).
Proof. intros Hn. unfold io, mbind, M_bind, tick. by rewrite Hn. Qed.

Lemma hoare_check_file (P : State -> Prop) (name : string) (f : SettlementFile)
    (Q : result exn SettlementFile -> State -> Prop) :
  (forall σ, verify_stamp f = true -> P σ -> Q (Ok f) σ) ->
  (forall e σ, (no_faults -> verify_stamp f = false) -> P σ -> Q (Err (Fail e)) σ) ->
  hoare P (check_file name f) Q.
Proof.
  intros Hok Herr. unfold check_file.
  apply hoare_io_bind; [intros e σ Hn; by apply Herr|]. destruct (verify_stamp f) eqn:Ev; cbn [negb]; [apply hoare_ret|apply hoare_throw]; eauto.
Qed.

(** What a load returns: the date's files if all are stamped, and without
    faults an error only if there is none or one fails its stamp. *)
Definition load_post (date : string) (σ : State) (r : result exn (list SettlementFile)) (σ' : State) : Prop :=
  σ' = σ /\
  let fs := date_files date (w_store σ) in
  match r with
  | Ok l => l = fs /\ fs <> [] /\ Forall (fun f => verify_stamp f = true) fs
  | Err _ => no_faults -> fs = [] \/ Exists (fun f => verify_stamp f = false) fs
  end.

Lemma load_extra (date : string) (σ : State) (names : list string) (acc : list SettlementFile) :
  (forall x, x ∈ acc -> verify_stamp x = true) ->
  let s := w_store σ in
  hoare (fun σ' => σ' = σ)
    (fold_M (fun files name =>
       match st_settlement s !! name with
       | Some f => f ← check_file name f; mret (files ++ [f])
       | None => mret files
       end) acc names)
    (fun r σ' => σ' = σ /\
       let fs := acc ++ omap (fun name => st_settlement s !! name) names in
       match r with
       | Ok l => l = fs /\ Forall (fun f => verify_stamp f = true) fs
       | Err _ => no_faults -> Exists (fun f => verify_stamp f = false) fs
       end).
Proof.
  cbn zeta. revert acc. induction names as [|name names IH]; intros acc Hacc; cbn.
  { apply hoare_ret. intros ? ->. rewrite app_nil_r. split_and!; try done. by apply Forall_forall. }
  destruct (st_settlement (w_store σ) !! name) as [f|] eqn:Ef; cbn.
  - eapply hoare_bind with (Q := fun l σ' => l = acc ++ [f] /\ verify_stamp f = true /\ σ' = σ).
    { eapply hoare_bind with (Q := fun f' σ' => f' = f /\ verify_stamp f = true /\ σ' = σ).
      - apply hoare_check_file; [done|]. intros e ? Hv ->. split; [done|].
        intros Hn. apply Exists_app. right. apply Exists_cons. left. by apply Hv.
      - intros ?. apply hoare_ret. by intros ? (-> & ? & ->). }
    intros l. intros σ' t (-> & Hv & ->).
    assert (forall x, x ∈ acc ++ [f] -> verify_stamp x = true) as Hacc'
      by (intros x [?|?%list_elem_of_singleton]%elem_of_app; [auto|by subst]).
    pose proof (IH (acc ++ [f]) Hacc' σ t eq_refl) as Hl. by rewrite <- (app_assoc acc [f]) in Hl.
  - eapply hoare_bind with (Q := fun l σ' => l = acc /\ σ' = σ); [by apply hoare_ret|].
    intros l σ' t (-> & ->). by apply IH.
Qed.

Lemma load_legacy (date : string) (σ : State) :
  hoare (fun σ' => σ' = σ)
    (match st_settlement (w_store σ) !! legacy_name date with
     | Some _ => f ← load date; mret [f]
     | None => mret []
     end)
    (fun r σ' => σ' = σ /\
       let fs := option_list (st_settlement (w_store σ) !! legacy_name date) in
       match r with
       | Ok l => l = fs /\ (forall x, x ∈ fs -> verify_stamp x = true)
       | Err _ => no_faults -> Exists (fun f => verify_stamp f = false) fs
       end).
Proof.
  cbn zeta. destruct (st_settlement (w_store σ) !! legacy_name date) as [f|] eqn:Ef; cbn.
  2:{ apply hoare_ret. intros ? ->. split_and!; try done. by intros x ?%elem_of_nil. }
  eapply hoare_bind with (Q := fun f' σ' => f' = f /\ verify_stamp f = true /\ σ' = σ).
  2:{ intros ?. apply hoare_ret. intros ? (-> & Hv & ->). split_and!; try done.
      by intros x ->%list_elem_of_singleton. }
  unfold load. eapply hoare_bind with (Q := fun s σ' => s = w_store σ /\ σ' = σ).
  { apply hoare_get_store. by intros ? ->. }
  intros s σ' t (-> & ->). rewrite Ef.
  apply (hoare_check_file (fun σ' => σ' = σ)); [done| |done].
  intros e ? Hv ->. split; [done|]. intros Hn. apply Exists_cons. left. by apply Hv.
Qed.

Lemma date_files_none (date : string) (s : PaymentStore) :
  st_settlement s = ∅ -> date_files date s = [].
Proof.
  intros E. unfold date_files. rewrite E, lookup_empty, map_to_list_empty. cbn [map List.filter option_list app].
  by unfold sort_strings, merge_sort.
Qed.

Lemma load_all_post (date : string) (σ : State) :
  hoare (fun σ' => σ' = σ) (load_all date) (load_post date σ).
Proof.
  unfold load_all. eapply hoare_bind with (Q := fun s σ' => s = w_store σ /\ σ' = σ).
  { apply hoare_get_store. by intros ? ->. }
  intros s. apply hoare_pure. intros ->.
  eapply hoare_bind with (Q := fun l σ' => (l = option_list (st_settlement (w_store σ) !! legacy_name date) /\
    forall x, x ∈ l -> verify_stamp x = true) /\ σ' = σ).
  { eapply hoare_conseq; [apply load_legacy|done|]. intros [l|e] σ' [-> Hl]; [by destruct Hl as [-> ?]|].
    split; [done|]. intros Hn. right. apply Exists_app. left. by apply Hl. }
  intros l. apply hoare_pure. intros [-> Hl].
  eapply hoare_bind with (Q := fun _ σ' => σ' = σ).
  { case_bool_decide as Ee; cbn [andb]; [case_bool_decide; cbn [andb]|].
    - apply hoare_throw. intros ? ->. split; [done|]. intros fs _. left. by apply date_files_none.
    - apply hoare_io; [done|]. by intros e ? Hn ->.
    - apply hoare_io; [done|]. by intros e ? Hn ->. }
  intros _. eapply hoare_bind with (Q := fun fs σ' => (fs = date_files date (w_store σ) /\
    Forall (fun f => verify_stamp f = true) fs) /\ σ' = σ).
  { eapply hoare_conseq; [apply (load_extra date σ _ _ Hl)|done|]. intros [fs|e] σ' [-> Hfs].
    - destruct Hfs as [-> ?]. done.
    - split; [done|]. intros Hn. right. by apply Hfs. }
  intros fs. apply hoare_pure. intros [-> Hfs]. unfold load_post.
  destruct (date_files date (w_store σ)) as [|f fs]; [apply hoare_throw|apply hoare_ret]; intros ? ->; auto.
Qed.

(** a run reads every settlement file of its date and accepts only stamped
    ones: when file accesses do not fail, [load_all] returns exactly the
    date's files (the legacy one, then the per-currency ones by name) if there
    is at least one and every one of them carries the hash of its contents,
    and an error otherwise; it never changes the state. *)
Theorem load_all_spec (date : string) (σ : State) (t : nat) (Hn : no_faults) :
  let out := load_all date σ t in
  let fs := date_files date (w_store σ) in
  out.2.1 = σ /\
  (out.1 = Ok fs <-> fs <> [] /\ Forall (fun f => verify_stamp f = true) fs) /\
  (forall l, out.1 = Ok l -> l = fs).
Proof.
  cbn zeta. destruct (load_all_post date σ σ t eq_refl) as [Hσ Hr].
  destruct (load_all date σ t) as [[l|e] [σ' t']]; cbn in *.
  - destruct Hr as (-> & Hne & Hall). split_and!; [done| |by intros ? [= <-]]. by split.
  - split_and!; [done| |done]. split; [done|]. intros [Hne Hall].
    destruct (Hr Hn) as [?|Hex]; [done|]. apply Exists_exists in Hex as (f & Hf & Hv).
    rewrite Forall_forall in Hall. by rewrite Hall in Hv.
Qed.
End Load.

(** ** Runs *)

Section Runs.
Context `{Sdk, Env}.

(** The two sides of a run: the rows of its files and the settled orders. *)
Definition sides (σ : State) (r : ReconcileRun) : gmap string string * gmap string string :=
  (psp_view (psp_files r), internal_view (st_orders (w_store σ))).

(** Everything a finished run says about the two sides. *)
Definition classified (psp internal : gmap string string) (r : ReconcileRun) : Prop :=
  (forall id, (exists m, m ∈ mismatches r /\ mismatch_order_id m = id) <->
     (is_Some (psp !! id) \/ is_Some (internal !! id)) /\ agrees psp internal id = false) /\
  NoDup (map mismatch_order_id (mismatches r)) /\
  Forall (fun m => psp_amount m = psp !! mismatch_order_id m /\
     journal_amount m = internal !! mismatch_order_id m /\
     (class m = Adjustable <-> is_Some (psp_amount m) /\ is_Some (journal_amount m)) /\
     class m <> Match) (mismatches r) /\
  (exists n, matches r = wrap_u64 n /\
     n + Z.of_nat (length (mismatches r)) = Z.of_nat (size (dom psp ∪ dom internal))) /\
  (run_status r = Clean <-> forall id, is_Some (psp !! id) \/ is_Some (internal !! id) ->
     agrees psp internal id = true).

Lemma mismatch_ids (rid date : string) (psp internal : gmap string string) (ids : list string) :
  map mismatch_order_id (map (mismatch_of rid date psp internal) ids) = ids.
Proof. rewrite map_map. apply map_id. Qed.

Lemma filter_lengths {A : Type} (f : A -> bool) (l : list A) :
  (length (List.filter f l) + length (List.filter (fun x => negb (f x)) l))%nat = length l.
Proof. induction l as [|x l IH]; cbn; [done|]. destruct (f x); cbn; lia. Qed.

Lemma order_ids_length (psp internal : gmap string string) :
  length (order_ids psp internal) = size (dom psp ∪ dom internal).
Proof.
  rewrite <- (size_list_to_set (C := gset string)) by apply order_ids_nodup.
  f_equal. apply set_eq. intros id.
  by rewrite elem_of_list_to_set, order_ids_elem, elem_of_union, !elem_of_dom.
Qed.

Lemma classified_intro (rid date now : string) (fs : list SettlementFile) (head cp : bytes)
    (psp internal : gmap string string) :
  let ids := order_ids psp internal in
  let ms := map (mismatch_of rid date psp internal) (differing psp internal ids) in
  classified psp internal {| run_id := rid; run_date := date; psp_files := fs; journal_root := head;
    matches := wrap_u64 (0 + Z.of_nat (length (agreeing psp internal ids))); mismatches := ms;
    mmr_checkpoint := cp; run_status := match ms with [] => Clean | _ => Mismatches end;
    run_created_at := now |}.
Proof.
  cbn zeta. unfold classified; cbn [mismatches matches run_status].
  set (ids := order_ids psp internal).
  assert (forall id, id ∈ differing psp internal ids <-> id ∈ ids /\ agrees psp internal id = false) as Hd.
  { intros id. unfold differing. by rewrite list_elem_of_In, filter_In, <- list_elem_of_In, negb_true_iff. }
  split_and!.
  - intros id. rewrite <- order_ids_elem; fold ids; rewrite <- Hd. split.
    + intros (m & Hm & <-). apply (list_elem_of_fmap_2 mismatch_order_id) in Hm.
      change (mismatch_order_id m ∈ map mismatch_order_id (map (mismatch_of rid date psp internal)
        (differing psp internal ids))) in Hm. by rewrite mismatch_ids in Hm.
    + intros Hid. exists (mismatch_of rid date psp internal id). split; [|done].
      by apply (list_elem_of_fmap_2 (mismatch_of rid date psp internal)).
  - rewrite mismatch_ids. apply NoDup_ListNoDup, List.NoDup_filter, NoDup_ListNoDup, order_ids_nodup.
  - apply Forall_forall. intros m Hm. apply list_elem_of_In, in_map_iff in Hm as (id & <- & Hid).
    apply list_elem_of_In, Hd in Hid as [_ Hid]. cbn. unfold agrees, classify in *.
    destruct (psp !! id) as [p|], (internal !! id) as [j|]; cbn;
      [destruct (amount_eq p j); [done|]|..]; split_and!; try done; split; try done; intros [[??] [??]]; done.
  - eexists. split; [reflexivity|]. rewrite length_map, <- order_ids_length, <- (filter_lengths (agrees psp internal) (order_ids psp internal)).
    unfold agreeing, differing, ids. lia.
  - transitivity (differing psp internal ids = []); [by destruct (differing psp internal ids)|].
    rewrite differing_nil. unfold ids. split; intros Hx id; intros Hid; apply Hx; by apply order_ids_elem.
Qed.

(** What [reconcile] has done when it returns [r]. *)
Definition reconciled (date : option string) (σ : State) (r : ReconcileRun) (σ' : State) : Prop :=
  (forall d, date = Some d -> run_date r = d) /\
  psp_files r = date_files (run_date r) (w_store σ) /\ psp_files r <> [] /\
  Forall (fun f => verify_stamp f = true) (psp_files r) /\
  classified (sides σ r).1 (sides σ r).2 r /\
  journal_root r = head_of (st_journal (w_store σ)) /\
  (exists m, checkpoint_append (default mmr_new (st_mmr (w_store σ)))
     (checkpoint_leaf (psp_files r) (journal_root r)) = Some (m, mmr_checkpoint r) /\
     w_store σ' = put_run (put_mmr (w_store σ) m) r) /\
  w_wallet σ' = w_wallet σ /\ w_sent σ' = w_sent σ.

(** A run that failed wrote nothing but, at most, its checkpoint. *)
Definition unreconciled (σ σ' : State) : Prop :=
  σ' = σ \/ exists m, σ' = on_store (fun s => put_mmr s m) σ.

(** C8: a reconciliation run reports the difference of the two sides and
    nothing else: when it returns, it has compared the stamped files of its date with the
    settled orders; every order id of either side that does not agree is
    listed exactly once, with both amounts, as [Adjustable] exactly when both sides have it; the
    other ids are counted as matches (modulo 2^64); the status is [Clean] exactly when no id
    disagrees; the run is persisted and its leaf appended to the checkpoint MMR, and no other file
    changes.  A run that fails leaves at most the checkpoint behind. *)
Theorem reconcile_spec (date : option string) (σ : State) (t : nat) :
  let out := reconcile date σ t in
  match out.1 with
  | Ok r => reconciled date σ r out.2.1
  | Err _ => unreconciled σ out.2.1
  end.
Proof.
  cbn zeta. apply (fun H : hoare (fun σ' => σ' = σ) (reconcile date) (fun r σ' =>
    match r with Ok r => reconciled date σ r σ' | Err _ => unreconciled σ σ' end) => H σ t eq_refl).
  unfold reconcile.
  eapply hoare_bind with (Q := fun d σ' => (forall d', date = Some d' -> d = d') /\ σ' = σ).
  { destruct date as [d|]; [apply hoare_ret; intros ? ->; split; [congruence|done]|].
    oracle n. apply hoare_ret. by intros ? ->. }
  intros d. apply hoare_pure. intros Hd.
  eapply hoare_bind with (Q := fun fs σ' => (fs = date_files d (w_store σ) /\ fs <> [] /\
    Forall (fun f => verify_stamp f = true) fs) /\ σ' = σ).
  { eapply hoare_conseq; [apply (load_all_post d σ)|done|].
    intros [fs|e] σ' [-> Hfs]; [destruct Hfs as (Hfs & ? & ?); by subst fs|by left]. }
  intros fs. apply hoare_pure. intros (Hfs & Hne & Hst).
  oracle rid.
  eapply hoare_bind with (Q := fun os σ' => os = st_orders (w_store σ) /\ σ' = σ).
  { apply hoare_read; [by intros ? ->|]. intros e ? _ ->. by left. }
  intros os. apply hoare_pure. intros ->. rewrite compare_all_eq by done. cbn [app].
  eapply hoare_bind with (Q := fun h σ' => h = head_of (st_journal (w_store σ)) /\ σ' = σ).
  { unfold journal_head. eapply hoare_bind with (Q := fun js σ' => js = st_journal (w_store σ) /\ σ' = σ).
    - apply hoare_read; [by intros ? ->|]. intros e ? _ ->. by left.
    - intros js. apply hoare_ret. by intros ? [-> ->]. }
  intros head. apply hoare_pure. intros ->. set (head := head_of _).
  eapply hoare_bind with (Q := fun cp σ' => exists m, checkpoint_append (default mmr_new (st_mmr (w_store σ)))
    (checkpoint_leaf fs head) = Some (m, cp) /\ σ' = on_store (fun s => put_mmr s m) σ).
  { apply hoare_checkpoint; [intros ? m r -> ?; eauto|]. intros e ? ->. by left. }
  intros cp. apply hoare_exists. intros m. apply hoare_pure. intros Hm.
  oracle now.
  apply hoare_io_bind; [intros e ? _ ->; right; eauto|]. unfold write_atomic.
  eapply hoare_bind with (Q := fun _ σ' => σ' = on_store (fun s => put_run (put_mmr s m) _) σ).
  { do 2 (apply hoare_io_bind; [intros e ? _ ->; right; eauto|]). apply hoare_modify. intros ? ->. reflexivity. }
  intros _. apply hoare_ret. intros ? ->. unfold reconciled. cbn [run_date psp_files journal_root mmr_checkpoint].
  split_and!; try done; [by apply classified_intro|]. eauto.
Qed.
End Runs.

(** ** Pulled files *)

Section Pull.
Context `{Sdk, Env}.

Lemma stamp_verifies (rail date c : string) (rs : list SettlementRow) :
  verify_stamp (stamp rail date c rs) = true.
Proof. unfold verify_stamp. by apply String.eqb_eq. Qed.

Lemma extra_name (date c : string) : c <> EmptyString -> is_extra date (file_name date c) = true.
Proof.
  intros Hc. unfold is_extra, file_name, legacy_name.
  rewrite (proj2 (String.eqb_neq c EmptyString)) by done.
  rewrite !chars_app. unfold strip_suffix, starts_with.
  rewrite (app_assoc (chars date) (chars ".") (_ ++ _)), strip_prefix_app.
  rewrite (app_assoc _ (chars c)), rev_app_distr, strip_prefix_app. cbn [andb option_map].
  apply negb_true_iff, String.eqb_neq. intros E. apply (f_equal chars) in E. rewrite !chars_app in E.
  apply (f_equal (@length ascii)) in E.
  rewrite !length_app in E. destruct c as [|a c]; [done|]. cbn in E. lia.
Qed.

Lemma date_files_elem (date name : string) (s : PaymentStore) (f : SettlementFile) :
  st_settlement s !! name = Some f -> name = legacy_name date \/ is_extra date name = true ->
  f ∈ date_files date s.
Proof.
  intros Hf Hn. unfold date_files. apply elem_of_app. destruct Hn as [->|Hn].
  - left. rewrite Hf. by apply list_elem_of_singleton.
  - right. apply list_elem_of_omap. exists name. split; [|done].
    rewrite sort_strings_perm, list_elem_of_In, filter_In, <- list_elem_of_In, elem_of_keys. by eauto.
Qed.

(** A pulled settlement file is the one a later run reads: when file
    accesses do not fail, [pull] returns a file that carries its stamp, with
    the given rows, and that file is among those [load_all] reads for its
    date, whatever the currency. *)
Theorem pull_loaded (rail date c : string) (rs : list SettlementRow) (σ : State) (t : nat)
    (Hn : no_faults) :
  let out := pull rail date c rs σ t in
  exists f, out.1 = Ok f /\ rows f = rs /\ file_currency f = c /\ verify_stamp f = true /\
    f ∈ date_files date (w_store out.2.1).
Proof.
  cbn zeta. exists (stamp rail date c rs). unfold pull, write_atomic, update, modify.
  unfold mbind, M_bind. rewrite !quiet_io by done. cbn [fst snd].
  split_and!; try done; [apply stamp_verifies|]. apply (date_files_elem date (file_name date c)).
  - unfold on_store. cbn [w_store]. destruct (w_store σ). apply lookup_insert_eq.
  - destruct (decide (c = EmptyString)) as [->|Hc]; [by left|]. right. by apply extra_name.
Qed.

Lemma rows_json_inj (rs ss : list SettlementRow) : map row_json rs = map row_json ss -> rs = ss.
Proof.
  revert ss. induction rs as [|[i a] rs IH]; intros [|[j b] ss] E; try done.
  cbn in E. injection E as -> -> E. f_equal. by apply IH.
Qed.

(** a stamp binds the file: two files that carry the same stamp and both
    verify have the same rail, date, currency and rows, unless SHA3-256 has a
    collision. *)
Theorem stamp_binds `{!HexOk, !JsonOk} (f g : SettlementFile)
    (Hf : verify_stamp f = true) (Hg : verify_stamp g = true)
    (E : file_content_hash f = file_content_hash g) : f = g \/ collision sha3_256.
Proof.
  apply String.eqb_eq in Hf, Hg.
  assert (compute_hash f = compute_hash g) as Eh by congruence. unfold compute_hash in Eh.
  apply (f_equal hex_decode) in Eh. rewrite !hex_roundtrip in Eh. injection Eh as Eh.
  destruct (json_total (file_json f)) as [bf Ebf], (json_total (file_json g)) as [bg Ebg].
  rewrite Ebf, Ebg in Eh. cbn in Eh.
  destruct (decide (bf = bg)) as [->|Hne]; [left|right; by exists bf, bg].
  rewrite <- Ebg in Ebf. apply json_inj in Ebf. unfold file_json in Ebf.
  injection Ebf as Ec Ed Er Ers. apply rows_json_inj in Ers.
  destruct f, g; cbn in *. congruence.
Qed.
End Pull.

Module ReconcileWitness.
Import ToyEnv.
#[local] Existing Instance Toy.sdk.
#[local] Instance the_env : Env := env None.

Definition row1 : SettlementRow := {| row_order_id := "order-1"; row_amount := "1.00" |}.
Definition pulled : State := (pull "ach" "2026-01-01" "EUR" [row1] start 0%nat).2.1.

Lemma load_all_spec_witness :
  exists l, (load_all "2026-01-01" pulled 0%nat).1 = Ok l /\ length l = 1%nat /\
    l = date_files "2026-01-01" (w_store pulled).
Proof.
  destruct (load_all_spec "2026-01-01" pulled 0%nat quiet) as (_ & Hok & _).
  eexists. split; [apply Hok|]; vm_compute; [|done].
  split; [discriminate|]. by repeat constructor.
Defined.

Lemma pull_loaded_witness :
  exists f, (pull "ach" "2026-01-01" "EUR" [row1] start 0%nat).1 = Ok f /\ rows f = [row1] /\
    file_currency f = "EUR"%string /\ verify_stamp f = true /\ f ∈ date_files "2026-01-01" (w_store pulled).
Proof. exact (pull_loaded "ach" "2026-01-01" "EUR" [row1] start 0%nat quiet). Defined.

Lemma stamp_binds_witness :
  let f := stamp "ach" "2026-01-01" "EUR" [row1] in f = f \/ collision sha3_256.
Proof. apply stamp_binds; reflexivity. Defined.

Definition fx_dollar : PaymentOrder :=
  {| order_version := 1; payment_order_id := "order-1"; checkout_id := "checkout-1"; to := "acct1";
     amount := "1.00"; currency := "USD";
     fx := Some {| fx_from := "USD"; fx_to := "EUR"; fx_rate := "0.5"; markup_bps := 0 |};
     card_token := None; card_network := None; card_last4 := None; rail := None; direction := Payment;
     status := Success; ledger_updated := true; wallet_updated := true; attempts := 1;
     next_retry_at := None; executing_since := None; receipt := None; created_at := "t0";
     updated_at := "t1"; signature := None; signer := None |}.

Definition booked : State :=
  (append_order_batch "order-1" "1.00" "USD" (fx fx_dollar) None (on_store (fun s => push_order s fx_dollar) start)
     0%nat).2.1.

(** The per-currency export names the settlement currency but gives the
    amount in the source currency: an order of 1.00 USD converted at 0.5 is
    booked as a credit of 0.50 EUR, and exported as 1.00 EUR. *)
Theorem export_keeps_source_amount :
  map (fun p => (account p, posting_amount p, posting_currency p)) (st_journal (w_store booked)) =
    [(Debit, "1.00", "USD"); (Credit, "0.50", "EUR")]%string /\
  exists f, (export_per_currency "ach" "2026-01-01" booked 0%nat).1 = Ok [f] /\
    file_currency f = "EUR"%string /\ rows f = [row1].
Proof. vm_compute. split; [done|]. eexists. done. Qed.
End ReconcileWitness.
