(* ===== verification/StateErr.v ===== *)
(** * Methods on [&mut self] that return a [Result]

    A method [fn op(&mut self) -> Result<A, E>] is a function from the state
    to its result and the state it leaves behind; the [?] operator is the
    monadic bind, which keeps the writes made before the error. *)

From S2P Require Import Prelude.

Definition SE (S E A : Type) : Type := S -> result E A * S.

#[global] Instance SE_mret {S E} : MRet (SE S E) := fun A a s => (Ok a, s).
#[global] Instance SE_mbind {S E} : MBind (SE S E) :=
  fun A B f m s => match m s with
                   | (Ok a, s') => f a s'
                   | (Err e, s') => (Err e, s')
                   end.

(** A result that does not touch the state, and the field accesses. *)
Definition lift {S E A : Type} (r : result E A) : SE S E A := fun s => (r, s).
Definition gets {S E A : Type} (f : S -> A) : SE S E A := fun s => (Ok (f s), s).
Definition modify {S E : Type} (f : S -> S) : SE S E unit := fun s => (Ok tt, f s).
Definition throw {S E A : Type} (e : E) : SE S E A := fun s => (Err e, s).

(** A method of a field: run it on the field and write the field back. *)
Definition on_field {S T E A : Type} (get : S -> T) (set : T -> S -> S) (m : SE T E A) : SE S E A :=
  fun s => let '(r, t) := m (get s) in (r, set t s).

Lemma SE_bind_Ok {S E A B : Type} (m : SE S E A) (f : A -> SE S E B) (s : S) (b : B) (s2 : S) :
  (m ≫= f) s = (Ok b, s2) <-> exists a s1, m s = (Ok a, s1) /\ f a s1 = (Ok b, s2).
Proof.
  unfold mbind, SE_mbind. destruct (m s) as [[a|e] s1]; split.
  - intros H. by exists a, s1.
  - intros (a' & s' & [= <- <-] & H). done.
  - done.
  - by intros (a' & s' & H & _).
Qed.

(** Messages through a method one after the other: results and final state. *)
Fixpoint run_all {S E A B : Type} (m : B -> SE S E A) (bs : list B) (s : S) : list (result E A) * S :=
  match bs with
  | [] => ([], s)
  | b :: bs' => let '(r, s') := m b s in let '(rs, s'') := run_all m bs' s' in (r :: rs, s'')
  end.
