(* ===== verification/ChanError.v ===== *)
(** * Errors of origin-channel

    [error.rs] of the crate: one constructor per variant.  [Display] is the
    [thiserror] message; [std::io::Error] is kept as its text. *)

From Stdlib Require Import Ascii String.
From S2P Require Import Prelude RustStr.

Inductive ChannelError :=
| Handshake (s : string)
| InvalidMessage (s : string)
| Decryption (s : string)
| Replay (seq : Z)
| Negotiation (s : string)
| Codec (s : string)
| NoSession
| Key (s : string)
| UsageLimitExceeded (s : string)
| Io (s : string)
| Other (s : string).

Definition channel_error_display (e : ChannelError) : string :=
  match e with
  | Handshake s => "handshake failed: " +:+ s
  | InvalidMessage s => "invalid message: " +:+ s
  | Decryption s => "decryption failed: " +:+ s
  | Replay q => "replay detected: seq " +:+ show_Z q
  | Negotiation s => "negotiation failed: " +:+ s
  | Codec s => "codec error: " +:+ s
  | NoSession => "session not established"
  | Key s => "key error: " +:+ s
  | UsageLimitExceeded s => "AEAD usage limit exceeded: " +:+ s
  | Io s => "io error: " +:+ s
  | Other s => s
  end.

Definition channel_error_from_string (s : string) : ChannelError := Other s.
