(* ===== verification/ReplayWindow.v ===== *)
(** * The sliding replay window of origin-channel ([replay.rs])

    The bitmap is a vector of 64-bit words updated in place, word by word;
    the specification is the set of the sequence numbers accepted so far.
    [replay_window_refines] shows that the window answers as the set does, for
    every sequence of [u64] inputs. *)

From Stdlib Require Import Ascii String.
From S2P Require Import Prelude RustStr ChanError.

(** ** The code *)

Definition DEFAULT_WINDOW_SIZE : Z := 1024.

Record ReplayWindow := MkReplayWindow {
  rw_highest : Z;
  rw_bitmap : list Z;
  rw_window_size : Z;
  rw_initialized : bool
}.

Definition div_ceil (a b : Z) : Z := (a + b - 1) / b.

Definition replay_new (window_size : Z) : ReplayWindow :=
  {| rw_highest := 0;
     rw_bitmap := replicate (Z.to_nat (div_ceil window_size 64)) 0;
     rw_window_size := window_size;
     rw_initialized := false |}.

(** [x << s] on [u64]. *)
Definition shl_u64 (x s : Z) : Z := wrap_u64 (Z.shiftl x s).

Definition get_bit (bitmap : list Z) (offset : nat) : bool :=
  match bitmap !! (offset / 64)%nat with
  | None => false
  | Some w => Z.land (Z.shiftr w (Z.of_nat (offset mod 64))) 1 =? 1
  end.

Definition set_bit (bitmap : list Z) (offset : nat) : list Z :=
  match bitmap !! (offset / 64)%nat with
  | None => bitmap
  | Some w => <[(offset / 64)%nat := Z.lor w (shl_u64 1 (Z.of_nat (offset mod 64)))]> bitmap
  end.

(** [for i in 0..self.bitmap.len() { self.bitmap[i] = f(self.bitmap, i) }]. *)
Definition for_words (f : list Z -> nat -> Z) (bitmap : list Z) : list Z :=
  foldl (fun bm i => <[i := f bm i]> bm) bitmap (seq 0 (length bitmap)).

Definition shift_words (word_shift : nat) (bm : list Z) (i : nat) : Z :=
  match bm !! (i + word_shift)%nat with Some w => w | None => 0 end.

Definition shift_bits (bit_shift : Z) (bm : list Z) (i : nat) : Z :=
  let lo := Z.shiftr (default 0 (bm !! i)) bit_shift in
  match bm !! (i + 1)%nat with
  | Some next => Z.lor lo (shl_u64 next (64 - bit_shift))
  | None => lo
  end.

Definition advance (window_size : Z) (bitmap : list Z) (shift : nat) : list Z :=
  if window_size <=? Z.of_nat shift then (fun _ => 0) <$> bitmap
  else
    let word_shift := (shift / 64)%nat in
    let bit_shift := (shift mod 64)%nat in
    let bm := if (0 <? word_shift)%nat then for_words (shift_words word_shift) bitmap else bitmap in
    if (0 <? bit_shift)%nat then for_words (shift_bits (Z.of_nat bit_shift)) bm else bm.

(** [h.saturating_sub(self.window_size as u64 - 1)]. *)
Definition window_floor (window_size h : Z) : Z := sat_sub_u h (wrap_u64 (window_size - 1)).

Definition accept (w : ReplayWindow) (seq : Z) : result ChannelError unit * ReplayWindow :=
  let ws := rw_window_size w in
  if negb (rw_initialized w) then
    let offset := Z.to_nat (seq - window_floor ws seq) in
    (Ok tt, MkReplayWindow seq (set_bit (rw_bitmap w) offset) ws true)
  else
    let floor := window_floor ws (rw_highest w) in
    if seq <? floor then (Err (Replay seq), w)
    else
      let w :=
        if rw_highest w <? seq then
          let old_floor := window_floor ws (rw_highest w) in
          let new_floor := window_floor ws seq in
          let floor_shift := Z.to_nat (new_floor - old_floor) in
          let bm := if (0 <? floor_shift)%nat then advance ws (rw_bitmap w) floor_shift
                    else rw_bitmap w in
          MkReplayWindow seq bm ws true
        else w in
      let offset := Z.to_nat (seq - window_floor ws (rw_highest w)) in
      if ws <=? Z.of_nat offset then (Err (Replay seq), w)
      else if get_bit (rw_bitmap w) offset then (Err (Replay seq), w)
      else (Ok tt, MkReplayWindow (rw_highest w) (set_bit (rw_bitmap w) offset) ws
                                  (rw_initialized w)).

(** Messages arriving one after the other. *)
Fixpoint accept_all (w : ReplayWindow) (seqs : list Z) : list (result ChannelError unit) * ReplayWindow :=
  match seqs with
  | [] => ([], w)
  | q :: seqs' => let '(r, w') := accept w q in
                  let '(rs, w'') := accept_all w' seqs' in (r :: rs, w'')
  end.

(** ** The specification

    A receiver that remembers everything: a number is refused when it was
    accepted before, or when it is [window_size] or more behind the largest
    accepted one. *)

Definition spec_max (seen : list Z) : Z := foldr Z.max 0 seen.

Definition spec_fresh (window_size : Z) (seen : list Z) (q : Z) : bool :=
  match seen with
  | [] => true
  | _ => (spec_max seen - window_size <? q) && negb (bool_decide (q ∈ seen))
  end.

Fixpoint spec_all (window_size : Z) (seen : list Z) (seqs : list Z) : list (result ChannelError unit) :=
  match seqs with
  | [] => []
  | q :: seqs' =>
      if spec_fresh window_size seen q then Ok tt :: spec_all window_size (q :: seen) seqs'
      else Err (Replay q) :: spec_all window_size seen seqs'
  end.

(** ** Words and bits *)

Definition word_ok (w : Z) : Prop := 0 <= w < 2 ^ 64.

Lemma get_bit_testbit (bm : list Z) (o : nat) :
  get_bit bm o = match bm !! (o / 64)%nat with
                 | Some w => Z.testbit w (Z.of_nat (o mod 64)) | None => false end.
Proof.
  unfold get_bit. destruct (bm !! (o / 64)%nat) as [w|]; [|done].
  replace (Z.testbit w (Z.of_nat (o mod 64))) with (Z.testbit (Z.shiftr w (Z.of_nat (o mod 64))) 0)
    by (rewrite Z.shiftr_spec by lia; done).
  change 1 with (Z.ones 1) at 1. rewrite Z.land_ones by lia. rewrite Z.bit0_odd.
  change (2 ^ 1) with 2. rewrite Zmod_odd. by destruct Z.odd.
Qed.

Lemma testbit_high (w i : Z) : word_ok w -> 64 <= i -> Z.testbit w i = false.
Proof.
  intros [? ?] ?. destruct (decide (w = 0)) as [->|]; [apply Z.bits_0|].
  apply Z.bits_above_log2; [done|]. enough (Z.log2 w < 64) by lia. apply Z.log2_lt_pow2; lia.
Qed.

Lemma shl_u64_spec (x s i : Z) : 0 <= s -> 0 <= i ->
  Z.testbit (shl_u64 x s) i = (i <? 64) && Z.testbit x (i - s).
Proof.
  intros ? ?. unfold shl_u64, wrap_u64, wrap_u. destruct (Z.ltb_spec i 64).
  - rewrite Z.mod_pow2_bits_low by done. rewrite Z.shiftl_spec by done. done.
  - apply Z.mod_pow2_bits_high. lia.
Qed.

Lemma word_ok_bits (w : Z) : 0 <= w -> (forall i, 64 <= i -> Z.testbit w i = false) -> word_ok w.
Proof.
  intros Hw Hb. split; [done|]. destruct (decide (w = 0)) as [->|]; [done|].
  destruct (Z.lt_ge_cases w (2 ^ 64)) as [?|Hge]; [done|].
  pose proof (Z.bit_log2 w ltac:(lia)) as Hl. rewrite Hb in Hl; [done|].
  apply Z.log2_le_pow2 in Hge; lia.
Qed.

Lemma word_ok_shl (x s : Z) : word_ok (shl_u64 x s).
Proof. pose proof (wrap_u64_range (Z.shiftl x s)). unfold in_u64, u64_max, shl_u64, word_ok in *. lia. Qed.

Lemma word_ok_lor (a b : Z) : word_ok a -> word_ok b -> word_ok (Z.lor a b).
Proof.
  intros Ha Hb. apply word_ok_bits; [apply Z.lor_nonneg; split; [apply Ha|apply Hb]|].
  intros i Hi. rewrite Z.lor_spec, !testbit_high; done.
Qed.

Lemma word_ok_shr (a s : Z) : word_ok a -> 0 <= s -> word_ok (Z.shiftr a s).
Proof.
  intros Ha ?. apply word_ok_bits; [apply Z.shiftr_nonneg, Ha|].
  intros i Hi. rewrite Z.shiftr_spec by lia. apply testbit_high; [done|lia].
Qed.

#[export] Hint Resolve word_ok_shl word_ok_lor word_ok_shr : origin.

Lemma div64_eq (a : nat) : a = (64 * (a / 64) + a mod 64)%nat.
Proof. apply Nat.div_mod; lia. Qed.

Lemma mod64_lt (a : nat) : (a mod 64 < 64)%nat.
Proof. apply Nat.mod_upper_bound. lia. Qed.

Lemma set_bit_length (bm : list Z) (o : nat) : length (set_bit bm o) = length bm.
Proof. unfold set_bit. destruct (bm !! _); [apply length_insert|done]. Qed.

Lemma set_bit_ok (bm : list Z) (o : nat) : Forall word_ok bm -> Forall word_ok (set_bit bm o).
Proof.
  intros Hw. unfold set_bit. destruct (bm !! _) as [w|] eqn:E; [|done].
  apply Forall_insert; [done|]. apply word_ok_lor; [|apply word_ok_shl].
  by eapply Forall_lookup_1.
Qed.

Lemma get_set_bit (bm : list Z) (o p : nat) : (o < 64 * length bm)%nat ->
  get_bit (set_bit bm o) p = bool_decide (p = o) || get_bit bm p.
Proof.
  intros Ho. rewrite !get_bit_testbit. unfold set_bit.
  pose proof (div64_eq o); pose proof (mod64_lt o); pose proof (div64_eq p); pose proof (mod64_lt p).
  destruct (lookup_lt_is_Some_2 bm (o / 64)%nat) as [w Hw]; [lia|]. rewrite Hw.
  destruct (decide (p / 64 = o / 64)%nat) as [E|NE].
  - rewrite E, list_lookup_insert_eq by lia. rewrite Hw, Z.lor_spec, shl_u64_spec by lia.
    rewrite orb_comm. f_equal. destruct (Z.ltb_spec (Z.of_nat (p mod 64)) 64); [|lia].
    rewrite andb_true_l. change 1 with (2 ^ 0). rewrite Z.pow2_bits_eqb by lia. apply eq_true_iff_eq.
    rewrite Z.eqb_eq, bool_decide_eq_true. lia.
  - rewrite list_lookup_insert_ne by done. rewrite bool_decide_eq_false_2 by congruence. done.
Qed.

(** ** The two loops of [advance] *)

(** An ascending loop that writes word [i] from words at [i] and above sees
    the old ones. *)
Lemma for_words_lookup (f : list Z -> nat -> Z) (bm : list Z) (i : nat) :
  (forall b1 b2 j, length b1 = length b2 -> (forall k, (j <= k)%nat -> b1 !! k = b2 !! k) -> f b1 j = f b2 j) ->
  for_words f bm !! i = if decide (i < length bm)%nat then Some (f bm i) else None.
Proof.
  intros Hf. unfold for_words.
  assert (forall n k b, (k + n = length bm)%nat -> length b = length bm ->
            (forall j, (j < k)%nat -> b !! j = Some (f bm j)) -> (forall j, (k <= j)%nat -> b !! j = bm !! j) ->
            foldl (fun bm i => <[i := f bm i]> bm) b (seq k n) !! i
            = if decide (i < length bm)%nat then Some (f bm i) else None) as H.
  2:{ apply (H (length bm) 0%nat bm); [done..|lia|done]. }
  induction n as [|n IH]; intros k b Hk Hl Hlt Hge; cbn.
  - destruct (decide (i < length bm)%nat); [apply Hlt; lia|]. apply lookup_ge_None. lia.
  - apply IH; [lia|by rewrite length_insert| |].
    + intros j Hj. destruct (decide (j = k)) as [->|].
      * rewrite list_lookup_insert_eq by lia. f_equal. apply Hf; [done|]. intros; apply Hge; lia.
      * rewrite list_lookup_insert_ne by done. apply Hlt. lia.
    + intros j Hj. rewrite list_lookup_insert_ne by lia. apply Hge. lia.
Qed.

Lemma for_words_length (f : list Z -> nat -> Z) (bm : list Z) : length (for_words f bm) = length bm.
Proof.
  unfold for_words. generalize (seq 0 (length bm)) as l. intros l. revert bm.
  induction l as [|i l IH]; intros bm; [done|]. cbn. by rewrite IH, length_insert.
Qed.

Lemma shift_words_lookup (ws : nat) (bm : list Z) (i : nat) :
  for_words (shift_words ws) bm !! i
  = if decide (i < length bm)%nat then Some (default 0 (bm !! (i + ws)%nat)) else None.
Proof.
  apply for_words_lookup. intros b1 b2 j _ H. unfold shift_words. by rewrite H by lia.
Qed.

Lemma shift_bits_lookup (bs : Z) (bm : list Z) (i : nat) :
  for_words (shift_bits bs) bm !! i
  = if decide (i < length bm)%nat then Some (shift_bits bs bm i) else None.
Proof.
  apply for_words_lookup. intros b1 b2 j _ H. unfold shift_bits. by rewrite !H by lia.
Qed.

Lemma for_words_ok (f : list Z -> nat -> Z) (bm : list Z) :
  (forall i, for_words f bm !! i = if decide (i < length bm)%nat then Some (f bm i) else None) ->
  (forall i, word_ok (f bm i)) -> Forall word_ok (for_words f bm).
Proof.
  intros E Hf. apply Forall_lookup. intros i w Hw. rewrite E in Hw.
  destruct (decide _); simplify_eq. apply Hf.
Qed.

Lemma default_ok (bm : list Z) (i : nat) : Forall word_ok bm -> word_ok (default 0 (bm !! i)).
Proof.
  intros H. destruct (bm !! i) eqn:E; [by eapply Forall_lookup_1|]. by split.
Qed.

Lemma shift_bits_ok (bs : Z) (bm : list Z) (i : nat) :
  0 <= bs -> Forall word_ok bm -> word_ok (shift_bits bs bm i).
Proof.
  intros Hb Hw. unfold shift_bits. pose proof (default_ok bm i Hw).
  destruct (bm !! (i + 1)%nat); auto with origin.
Qed.

(** Reading after an advance is reading further up before it. *)
Lemma get_bit_shift_words (ws : nat) (bm : list Z) (o : nat) :
  get_bit (for_words (shift_words ws) bm) o = get_bit bm (o + 64 * ws).
Proof.
  rewrite !get_bit_testbit, shift_words_lookup.
  replace ((o + 64 * ws) / 64)%nat with (o / 64 + ws)%nat by (rewrite (Nat.mul_comm 64), Nat.div_add; lia).
  rewrite (Nat.mul_comm 64), Nat.Div0.mod_add.
  destruct (decide _) as [|Hge]; [|by rewrite lookup_ge_None_2 by lia].
  destruct (bm !! _); [done|]. apply Z.bits_0.
Qed.

Lemma get_bit_shift_bits (bs : nat) (bm : list Z) (o : nat) :
  (bs < 64)%nat -> Forall word_ok bm ->
  get_bit (for_words (shift_bits (Z.of_nat bs)) bm) o = get_bit bm (o + bs).
Proof.
  intros Hbs Hw. rewrite !get_bit_testbit, shift_bits_lookup.
  pose proof (div64_eq o); pose proof (mod64_lt o).
  pose proof (div64_eq (o + bs)); pose proof (mod64_lt (o + bs)).
  set (i := (o / 64)%nat) in *. set (k := ((o + bs) / 64)%nat) in *.
  set (m := (o mod 64)%nat) in *. set (n := ((o + bs) mod 64)%nat) in *.
  assert ((k = i /\ n = m + bs /\ m + bs < 64) \/ (k = i + 1 /\ n + 64 = m + bs))%nat as Hcase by lia.
  destruct (decide (i < length bm)%nat) as [Hi|Hge]; [|by rewrite lookup_ge_None_2 by lia].
  unfold shift_bits. destruct (lookup_lt_is_Some_2 bm i Hi) as [w Ei]. rewrite Ei. cbn [default].
  assert (word_ok w) by (by eapply Forall_lookup_1).
  destruct Hcase as [(Ek & En & ?)|(Ek & En)]; rewrite Ek, En || rewrite Ek.
  - rewrite Ei. destruct (bm !! (i + 1)%nat) as [x|].
    + rewrite Z.lor_spec, Z.shiftr_spec, shl_u64_spec by lia.
      rewrite (Z.testbit_neg_r x) by lia. rewrite andb_false_r, orb_false_r. f_equal. lia.
    + rewrite Z.shiftr_spec by lia. f_equal. lia.
  - destruct (bm !! (i + 1)%nat) as [x|].
    + rewrite Z.lor_spec, Z.shiftr_spec, shl_u64_spec by lia. rewrite (testbit_high w) by (done || lia).
      destruct (Z.ltb_spec (Z.of_nat m) 64); [|lia].
      rewrite orb_false_l, andb_true_l. f_equal. lia.
    + rewrite Z.shiftr_spec by lia. apply testbit_high; [done|lia].
Qed.

Lemma advance_length (ws : Z) (bm : list Z) (s : nat) : length (advance ws bm s) = length bm.
Proof.
  unfold advance. destruct (_ <=? _); [apply length_fmap|].
  repeat case_match; rewrite ?for_words_length; done.
Qed.

Lemma advance_ok (ws : Z) (bm : list Z) (s : nat) : Forall word_ok bm -> Forall word_ok (advance ws bm s).
Proof.
  intros Hw. unfold advance. destruct (_ <=? _).
  { apply Forall_fmap, Forall_true. intros x. cbv. split; [discriminate|reflexivity]. }
  set (bm1 := if (0 <? _)%nat then _ else bm).
  assert (Forall word_ok bm1).
  { unfold bm1. destruct (_ <? _)%nat; [|done].
    apply for_words_ok; [apply shift_words_lookup|]. intros. by apply default_ok. }
  destruct (0 <? s mod 64)%nat; [|done].
  apply for_words_ok; [apply shift_bits_lookup|]. intros. apply shift_bits_ok; [lia|done].
Qed.

Lemma get_bit_advance (ws : Z) (bm : list Z) (s o : nat) :
  Forall word_ok bm -> Z.of_nat s < ws -> get_bit (advance ws bm s) o = get_bit bm (o + s).
Proof.
  intros Hw Hs. unfold advance. destruct (Z.leb_spec ws (Z.of_nat s)); [lia|].
  pose proof (div64_eq s); pose proof (mod64_lt s).
  set (bm1 := if (0 <? _)%nat then _ else bm).
  assert (Forall word_ok bm1 /\ forall p, get_bit bm1 p = get_bit bm (p + 64 * (s / 64))%nat) as [Hw1 E1].
  { unfold bm1. destruct (Nat.ltb_spec 0 (s / 64)) as [Hlt|Hz].
    - split; [|intros; apply get_bit_shift_words].
      apply for_words_ok; [apply shift_words_lookup|]. intros. by apply default_ok.
    - split; [done|]. intros p. f_equal. lia. }
  destruct (Nat.ltb_spec 0 (s mod 64)).
  - rewrite get_bit_shift_bits by done. rewrite E1. f_equal. lia.
  - rewrite E1. f_equal. lia.
Qed.

Lemma get_bit_clear (ws : Z) (bm : list Z) (s o : nat) :
  ws <= Z.of_nat s -> get_bit (advance ws bm s) o = false.
Proof.
  intros Hs. unfold advance. destruct (Z.leb_spec ws (Z.of_nat s)); [|lia].
  rewrite get_bit_testbit, list_lookup_fmap. destruct (bm !! _); [apply Z.bits_0|done].
Qed.

(** ** The simulation *)

Record sim (ws : Z) (w : ReplayWindow) (seen : list Z) : Prop := {
  sim_size : rw_window_size w = ws;
  sim_words : Forall word_ok (rw_bitmap w);
  sim_len : ws <= 64 * Z.of_nat (length (rw_bitmap w));
  sim_seen : Forall in_u64 seen;
  sim_init : rw_initialized w = negb (bool_decide (seen = []));
  sim_high : rw_highest w = spec_max seen;
  sim_bits : forall o : nat, get_bit (rw_bitmap w) o = bool_decide (Z.of_nat o < ws /\ window_floor ws (spec_max seen) + Z.of_nat o ∈ seen)
}.

Definition size_ok (ws : Z) : Prop := 1 <= ws <= 2 ^ 63.

Lemma window_floor_eq (ws h : Z) : size_ok ws -> window_floor ws h = Z.max 0 (h - (ws - 1)).
Proof.
  intros ?. unfold window_floor, sat_sub_u, size_ok in *. rewrite wrap_u64_id; [lia|].
  unfold in_u64, u64_max. lia.
Qed.

Lemma spec_max_ge (seen : list Z) (q : Z) : q ∈ seen -> q <= spec_max seen.
Proof. induction 1; cbn; [lia|]. unfold spec_max in *. lia. Qed.

Lemma spec_max_u64 (seen : list Z) : Forall in_u64 seen -> in_u64 (spec_max seen).
Proof.
  unfold in_u64, u64_max, spec_max. induction 1; cbn in *; lia.
Qed.

Lemma replay_new_sim (ws : Z) : size_ok ws -> sim ws (replay_new ws) [].
Proof.
  intros Hs. unfold size_ok in Hs. constructor; cbn [replay_new rw_window_size rw_bitmap rw_initialized rw_highest]; [done| |..].
  - apply Forall_replicate. by split.
  - rewrite length_replicate. unfold div_ceil.
    pose proof (Z.div_mod (ws + 64 - 1) 64 ltac:(lia)). pose proof (Z.mod_pos_bound (ws + 64 - 1) 64 ltac:(lia)). lia.
  - constructor.
  - done.
  - done.
  - intros o. rewrite get_bit_testbit. rewrite bool_decide_eq_false_2 by (intros [_ H]; by apply elem_of_nil in H).
    destruct (_ !! _) as [x|] eqn:E; [|done]. apply lookup_replicate in E as [-> _]. apply Z.bits_0.
Qed.

(** The window the acceptance test and the marking see. *)
Definition moved (w : ReplayWindow) (q : Z) : list Z :=
  let ws := rw_window_size w in
  let s := Z.to_nat (window_floor ws q - window_floor ws (rw_highest w)) in
  if (0 <? s)%nat then advance ws (rw_bitmap w) s else rw_bitmap w.

Lemma moved_bits (ws : Z) (w : ReplayWindow) (seen : list Z) (q : Z) (o : nat) :
  size_ok ws -> sim ws w seen -> rw_highest w < q -> Z.of_nat o < ws ->
  get_bit (moved w q) o = bool_decide (window_floor ws q + Z.of_nat o ∈ seen).
Proof.
  intros Hs Hsim Hq Ho. destruct Hsim as [<- Hw Hl Hu Hi Hh Hb]. unfold moved.
  set (ws := rw_window_size w) in *. rewrite !window_floor_eq in * by done. rewrite Hh in *.
  assert (0 <= spec_max seen) by apply (spec_max_u64 seen Hu).
  set (s := Z.to_nat _).
  assert (Z.of_nat s = Z.max 0 (q - (ws - 1)) - Z.max 0 (spec_max seen - (ws - 1))) as Es by lia.
  assert (Hgo : get_bit (rw_bitmap w) (o + s) = bool_decide (Z.max 0 (q - (ws - 1)) + Z.of_nat o ∈ seen)).
  { rewrite Hb. apply bool_decide_ext.
    replace (Z.max 0 (spec_max seen - (ws - 1)) + Z.of_nat (o + s)) with (Z.max 0 (q - (ws - 1)) + Z.of_nat o) by lia.
    split; [by intros [_ ?]|]. intros Hin. split; [|done]. apply spec_max_ge in Hin. lia. }
  destruct (Nat.ltb_spec 0 s).
  - destruct (Z.lt_ge_cases (Z.of_nat s) ws).
    + rewrite get_bit_advance by done. done.
    + rewrite get_bit_clear by done. symmetry. apply bool_decide_eq_false. intros Hin.
      apply spec_max_ge in Hin. lia.
  - rewrite <- Hgo. f_equal. lia.
Qed.

Lemma moved_ok (w : ReplayWindow) (q : Z) :
  Forall word_ok (rw_bitmap w) -> Forall word_ok (moved w q) /\ length (moved w q) = length (rw_bitmap w).
Proof.
  intros Hw. unfold moved. destruct (_ <? _)%nat; [|done]. split; [by apply advance_ok|apply advance_length].
Qed.

(** Bits outside the window stay clear. *)
Lemma moved_outside (ws : Z) (w : ReplayWindow) (seen : list Z) (q : Z) (o : nat) :
  size_ok ws -> sim ws w seen -> ws <= Z.of_nat o -> get_bit (moved w q) o = false.
Proof.
  intros Hs [<- Hw Hl Hu Hi Hh Hb] Ho. unfold moved. set (s := Z.to_nat _).
  destruct (Nat.ltb_spec 0 s).
  - destruct (Z.lt_ge_cases (Z.of_nat s) (rw_window_size w)).
    + rewrite get_bit_advance by done. rewrite Hb. apply bool_decide_eq_false. lia.
    + by apply get_bit_clear.
  - rewrite Hb. apply bool_decide_eq_false. lia.
Qed.

(** One marked number: the relation after [set_bit]. *)
Lemma sim_mark (ws : Z) (bm : list Z) (h q : Z) (seen : list Z) :
  size_ok ws -> Forall word_ok bm -> ws <= 64 * Z.of_nat (length bm) -> Forall in_u64 seen -> in_u64 q ->
  h = spec_max (q :: seen) -> window_floor ws h <= q ->
  (forall o : nat, get_bit bm o = bool_decide (Z.of_nat o < ws /\ window_floor ws h + Z.of_nat o ∈ seen)) ->
  sim ws (MkReplayWindow h (set_bit bm (Z.to_nat (q - window_floor ws h))) ws true) (q :: seen).
Proof.
  intros Hs Hw Hl Hu Hq Hh Hge Hb.
  assert (q <= h) by (rewrite Hh; cbn; lia).
  assert (q - window_floor ws h < ws) by (rewrite window_floor_eq by done; unfold size_ok, in_u64 in *; lia).
  constructor; cbn [rw_window_size rw_bitmap rw_initialized rw_highest]; try done.
  - by apply set_bit_ok.
  - by rewrite set_bit_length.
  - by constructor.
  - intros o. rewrite get_set_bit by lia. rewrite Hb, <- Hh. apply eq_true_iff_eq.
    rewrite orb_true_iff, !bool_decide_eq_true, elem_of_cons. split.
    + intros [->|[? ?]]; [split; [lia|left; lia]|by split; [|right]].
    + intros [? [?|?]]; [left; lia|by right].
Qed.

(** The three ways a number is taken: as the first one, ahead of the window
    and inside it. *)
Lemma accept_first (ws : Z) (w : ReplayWindow) (q : Z) :
  size_ok ws -> sim ws w [] -> in_u64 q -> exists w', accept w q = (Ok tt, w') /\ sim ws w' [q].
Proof.
  intros Hs [Ews Hw Hl Hu Hi Hh Hb] Hq. unfold accept. rewrite Ews, Hi. cbn [bool_decide negb].
  rewrite bool_decide_eq_true_2 by done. cbn [negb]. eexists; split; [done|].
  apply sim_mark; try done.
  - cbn. unfold in_u64 in Hq. lia.
  - rewrite window_floor_eq by done. unfold in_u64, size_ok in *. lia.
  - intros o. rewrite Hb. apply bool_decide_ext. split; intros [_ H]; by apply elem_of_nil in H.
Qed.

Lemma accept_ahead (ws : Z) (w : ReplayWindow) (seen : list Z) (q : Z) :
  size_ok ws -> sim ws w seen -> in_u64 q -> seen <> [] -> spec_max seen < q ->
  exists w', accept w q = (Ok tt, w') /\ sim ws w' (q :: seen).
Proof.
  intros Hs Hsim Hq Hne Hnew. pose proof Hsim as [Ews Hw Hl Hu Hi Hh Hb].
  pose proof (spec_max_u64 seen Hu). unfold size_ok, in_u64 in *.
  assert (window_floor ws (spec_max seen) <= window_floor ws q) by (rewrite !window_floor_eq by done; lia).
  assert (window_floor ws q <= q < window_floor ws q + ws) by (rewrite window_floor_eq by done; lia).
  destruct (moved_ok w q Hw) as [Hmw Hml].
  assert (Hm : forall o : nat, get_bit (moved w q) o = bool_decide (Z.of_nat o < ws /\ window_floor ws q + Z.of_nat o ∈ seen)).
  { intros o. destruct (Z.lt_ge_cases (Z.of_nat o) ws).
    - rewrite (moved_bits ws w seen q o) by (done || lia). apply bool_decide_ext. tauto.
    - rewrite (moved_outside ws w seen q o) by done. symmetry. apply bool_decide_eq_false. lia. }
  exists (MkReplayWindow q (set_bit (moved w q) (Z.to_nat (q - window_floor ws q))) ws true). split.
  - pose proof (Hm (Z.to_nat (q - window_floor ws q))) as Hfree.
    rewrite bool_decide_eq_false_2 in Hfree; [|intros [_ Hin]; apply spec_max_ge in Hin; lia].
    unfold moved in *. unfold accept. rewrite Ews, Hi, Hh in *. rewrite (bool_decide_eq_false_2 (seen = [])) by done. cbn [negb].
    destruct (Z.ltb_spec q (window_floor ws (spec_max seen))); [lia|].
    destruct (Z.ltb_spec (spec_max seen) q); [|lia]. cbn [rw_highest rw_bitmap rw_initialized].
    destruct (Z.leb_spec ws (Z.of_nat (Z.to_nat (q - window_floor ws q)))); [lia|]. by rewrite Hfree.
  - apply sim_mark; try done; [by rewrite Hml|cbn; fold (spec_max seen); lia|lia].
Qed.

Lemma accept_inside (ws : Z) (w : ReplayWindow) (seen : list Z) (q : Z) :
  size_ok ws -> sim ws w seen -> in_u64 q -> seen <> [] -> spec_max seen - ws < q <= spec_max seen ->
  if bool_decide (q ∈ seen) then accept w q = (Err (Replay q), w)
  else exists w', accept w q = (Ok tt, w') /\ sim ws w' (q :: seen).
Proof.
  intros Hs [Ews Hw Hl Hu Hi Hh Hb] Hq Hne Hold. unfold accept.
  rewrite Ews, Hi, Hh, (bool_decide_eq_false_2 (seen = [])) by done. cbn [negb].
  assert (window_floor ws (spec_max seen) <= q < window_floor ws (spec_max seen) + ws) as Hin.
  { rewrite window_floor_eq by done. unfold size_ok, in_u64 in *. lia. }
  destruct (Z.ltb_spec q (window_floor ws (spec_max seen))); [lia|].
  destruct (Z.ltb_spec (spec_max seen) q); [lia|]. rewrite Hh.
  destruct (Z.leb_spec ws (Z.of_nat (Z.to_nat (q - window_floor ws (spec_max seen))))); [lia|].
  rewrite Hb, Z2Nat.id by lia.
  replace (window_floor ws (spec_max seen) + (q - window_floor ws (spec_max seen))) with q by lia.
  destruct (decide (q ∈ seen)).
  - rewrite !bool_decide_eq_true_2 by (done || (split; [lia|done])). done.
  - rewrite (bool_decide_eq_false_2 (q ∈ seen)) by done. rewrite bool_decide_eq_false_2 by (by intros [_ ?]).
    eexists; split; [done|]. rewrite Hi, (bool_decide_eq_false_2 (seen = [])) by done.
    apply sim_mark; try done. cbn; fold (spec_max seen); lia.
Qed.

Lemma accept_sim (ws : Z) (w : ReplayWindow) (seen : list Z) (q : Z) :
  size_ok ws -> sim ws w seen -> in_u64 q ->
  if spec_fresh ws seen q then exists w', accept w q = (Ok tt, w') /\ sim ws w' (q :: seen)
  else accept w q = (Err (Replay q), w).
Proof.
  intros Hs Hsim Hq. destruct (decide (seen = [])) as [->|Hne]; [by apply accept_first|].
  replace (spec_fresh ws seen q) with ((spec_max seen - ws <? q) && negb (bool_decide (q ∈ seen)))
    by (by destruct seen).
  destruct (Z.ltb_spec (spec_max seen - ws) q) as [Hge|Hlow]; cbn [andb].
  - destruct (Z.lt_ge_cases (spec_max seen) q).
    + rewrite bool_decide_eq_false_2 by (intros Hin; apply spec_max_ge in Hin; lia).
      by apply accept_ahead.
    + pose proof (accept_inside ws w seen q Hs Hsim Hq Hne ltac:(lia)). by destruct (bool_decide _).
  - destruct Hsim as [Ews Hw Hl Hu Hi Hh Hb]. unfold accept.
    rewrite Ews, Hi, Hh, (bool_decide_eq_false_2 (seen = [])) by done. cbn [negb].
    destruct (Z.ltb_spec q (window_floor ws (spec_max seen))) as [|Hbad]; [done|].
    rewrite window_floor_eq in Hbad by done. unfold in_u64, size_ok in *. lia.
Qed.

Lemma accept_all_sim (ws : Z) (seqs : list Z) (w : ReplayWindow) (seen : list Z) :
  size_ok ws -> sim ws w seen -> Forall in_u64 seqs -> (accept_all w seqs).1 = spec_all ws seen seqs.
Proof.
  intros Hs Hsim Hq. revert w seen Hsim. induction Hq as [|q seqs Hq _ IH]; intros w seen Hsim; [done|].
  cbn. pose proof (accept_sim ws w seen q Hs Hsim Hq) as Ha. destruct (spec_fresh ws seen q).
  - destruct Ha as (w' & -> & Hsim'). specialize (IH w' _ Hsim'). destruct (accept_all w' seqs). cbn in *. by rewrite IH.
  - rewrite Ha. specialize (IH w _ Hsim). destruct (accept_all w seqs). cbn in *. by rewrite IH.
Qed.

(** A number above all accepted ones is fresh. *)
Lemma spec_fresh_above (ws n : Z) (seen : list Z) :
  1 <= ws -> 0 <= n -> Forall (fun q => q < n) seen -> spec_fresh ws seen n = true.
Proof.
  intros Hws Hn Hs. destruct seen as [|q0 l]; [done|]. set (sn := q0 :: l) in *.
  change (spec_fresh ws sn n) with ((spec_max sn - ws <? n) && negb (bool_decide (n ∈ sn))).
  assert (spec_max sn <= Z.max 0 (n - 1)).
  { clear -Hs. induction Hs; cbn; [lia|]. unfold spec_max in *. lia. }
  apply andb_true_iff; split; [apply Z.ltb_lt; lia|]. apply negb_true_iff, bool_decide_eq_false. intros Hin.
  rewrite Forall_forall in Hs. specialize (Hs n Hin). lia.
Qed.

(** The sequence numbers a run lets through. *)
Definition accepted (rs : list (result ChannelError unit)) (seqs : list Z) : list Z :=
  omap (fun p => if is_ok (fst p) then Some (snd p) else None) (zip rs seqs).

Lemma spec_all_accepted (ws : Z) (seen seqs : list Z) :
  NoDup (accepted (spec_all ws seen seqs) seqs) /\
  (forall q, q ∈ accepted (spec_all ws seen seqs) seqs -> q ∉ seen).
Proof.
  revert seen. induction seqs as [|q seqs IH]; intros seen; cbn.
  { split; [constructor|]. intros q H. by apply elem_of_nil in H. }
  destruct (spec_fresh ws seen q) eqn:E; unfold accepted; cbn; [|apply IH].
  destruct (IH (q :: seen)) as [Hnd Hns]. unfold accepted in *. split.
  - constructor; [|done]. intros Hin. apply Hns in Hin. set_solver.
  - intros p [->|Hp]%elem_of_cons.
    + destruct seen; [apply not_elem_of_nil|]. cbn in E. apply andb_true_iff in E as [_ E].
      apply negb_true_iff, bool_decide_eq_false in E. done.
    + apply Hns in Hp. set_solver.
Qed.

(** ** Properties *)

(** C12: The window is the remembering receiver: over any sequence of arriving
    [u64] numbers, the bitmap window of any size up to [2^63] gives exactly
    the answers of the specification that keeps every accepted number. *)
Theorem replay_window_refines (ws : Z) (seqs : list Z) :
  size_ok ws -> Forall in_u64 seqs ->
  (accept_all (replay_new ws) seqs).1 = spec_all ws [] seqs.
Proof. intros Hs Hq. by apply accept_all_sim; [|apply replay_new_sim|]. Qed.

Lemma replay_window_refines_witness :
  (accept_all (replay_new 70) [3; 3; 72; 3; 2; 73; 2; 200; 140; 131; 131]).1
  = spec_all 70 [] [3; 3; 72; 3; 2; 73; 2; 200; 140; 131; 131].
Proof.
  apply (replay_window_refines 70).
  - unfold size_ok; lia.
  - repeat constructor; vm_compute; discriminate.
Defined.

(** No sequence number is let through twice, however messages are repeated
    and reordered. *)
Theorem replay_accepts_once (ws : Z) (seqs : list Z) :
  size_ok ws -> Forall in_u64 seqs -> NoDup (accepted (accept_all (replay_new ws) seqs).1 seqs).
Proof.
  intros Hs Hq. rewrite (accept_all_sim ws seqs _ []); [|done|by apply replay_new_sim|done].
  apply spec_all_accepted.
Qed.

Lemma replay_accepts_once_witness : NoDup (accepted (accept_all (replay_new 2) [5; 4; 5; 9; 8; 9]).1 [5; 4; 5; 9; 8; 9]).
Proof. apply (replay_accepts_once 2); [unfold size_ok; lia|repeat constructor; vm_compute; discriminate]. Defined.

Example replay_accepts_once_value : accepted (accept_all (replay_new 2) [5; 4; 5; 9; 8; 9]).1 [5; 4; 5; 9; 8; 9] = [5; 4; 9; 8].
Proof. reflexivity. Qed.
