(* ===== verification/ChanWire.v ===== *)
(** * Wire formats of origin-channel

    [codec.rs] (length-prefixed frames and typed frames), [message.rs]
    (encrypted and handshake messages), [negotiation.rs] and the cipher
    suites of [types.rs]. *)

From Stdlib Require Import Ascii String.
From S2P Require Import Prelude RustStr Bytes ChanError.

(** ** Frames ([codec.rs]) *)

Definition MAX_FRAME_SIZE : Z := 16 * 1024 * 1024.
Definition LENGTH_PREFIX_SIZE : Z := 4.

Definition encode_frame (payload : bytes) : result ChannelError bytes :=
  let len := Z.of_nat (length payload) in
  if MAX_FRAME_SIZE <? len then
    Err (Codec ("payload too large: " +:+ show_Z len +:+ " bytes (max " +:+ show_Z MAX_FRAME_SIZE +:+ ")"))
  else Ok (be_bytes 4 (wrap_u32 len) ++ payload).

Definition decode_frame (buf : bytes) : result ChannelError (option (bytes * Z)) :=
  if Z.of_nat (length buf) <? LENGTH_PREFIX_SIZE then Ok None
  else
    let len := be_val (take 4 buf) in
    if MAX_FRAME_SIZE <? len then
      Err (Codec ("frame size " +:+ show_Z len +:+ " exceeds maximum " +:+ show_Z MAX_FRAME_SIZE))
    else
      let total := LENGTH_PREFIX_SIZE + len in
      if Z.of_nat (length buf) <? total then Ok None
      else Ok (Some (slice (Z.to_nat LENGTH_PREFIX_SIZE) (Z.to_nat total) buf, total)).

Definition encode_typed (msg_type : ascii) (payload : bytes) : result ChannelError bytes :=
  encode_frame (msg_type :: payload).

Definition decode_typed (buf : bytes) : result ChannelError (option (ascii * bytes * Z)) :=
  r ← decode_frame buf;
  match r with
  | None => Ok None
  | Some ([], _) => Err (Codec "empty frame body")
  | Some (tag :: payload, consumed) => Ok (Some (tag, payload, consumed))
  end.

(** ** Cipher suites ([types.rs]) *)

Inductive CipherSuite := XChaCha20Poly1305.

#[global] Instance CipherSuite_eq_dec : EqDecision CipherSuite.
Proof. solve_decision. Defined.

Definition suite_as_u8 (s : CipherSuite) : ascii := match s with XChaCha20Poly1305 => byte_of 1 end.
Definition suite_from_u8 (v : ascii) : option CipherSuite :=
  if code v =? 1 then Some XChaCha20Poly1305 else None.
Definition nonce_len (_ : CipherSuite) : Z := 24.
Definition tag_len (_ : CipherSuite) : Z := 16.

(** ** Messages ([message.rs]) *)

Definition MSG_HANDSHAKE_1 : ascii := byte_of 1.
Definition MSG_HANDSHAKE_2 : ascii := byte_of 2.
Definition MSG_HANDSHAKE_3 : ascii := byte_of 3.
Definition MSG_DATA : ascii := byte_of 16.
Definition HEADER_SIZE : Z := 33.

Record ChannelMessage := MkChannelMessage {
  cm_msg_type : ascii;
  cm_seq : Z;
  cm_nonce : bytes;
  cm_ciphertext : bytes
}.

(** The field types [u64] and [[u8; 24]]; [from_bytes] adds the tag length. *)
Definition channel_message_ok (m : ChannelMessage) : Prop :=
  in_u64 (cm_seq m) /\ length (cm_nonce m) = 24%nat.

Definition channel_message_to_bytes (m : ChannelMessage) : bytes :=
  [cm_msg_type m] ++ be_bytes 8 (cm_seq m) ++ cm_nonce m ++ cm_ciphertext m.

Definition channel_message_from_bytes (data : bytes) : result ChannelError ChannelMessage :=
  let min := HEADER_SIZE + tag_len XChaCha20Poly1305 in
  if Z.of_nat (length data) <? min then
    Err (InvalidMessage ("message too short: " +:+ show_Z (Z.of_nat (length data))
                         +:+ " bytes (min " +:+ show_Z min +:+ ")"))
  else
    Ok {| cm_msg_type := nth 0 data zero;
          cm_seq := be_val (slice 1 9 data);
          cm_nonce := slice 9 33 data;
          cm_ciphertext := drop 33 data |}.

Definition wire_size (m : ChannelMessage) : Z := 4 + HEADER_SIZE + Z.of_nat (length (cm_ciphertext m)).

Record HandshakeMessage := MkHandshakeMessage {
  hm_msg_type : ascii;
  hm_ephemeral_pk : bytes;
  hm_payload : bytes
}.

Definition handshake_message_to_bytes (m : HandshakeMessage) : bytes :=
  [hm_msg_type m] ++ hm_ephemeral_pk m ++ hm_payload m.

Definition handshake_message_from_bytes (data : bytes) : result ChannelError HandshakeMessage :=
  if Z.of_nat (length data) <? 33 then Err (Handshake "handshake message too short (need 33+ bytes)")
  else Ok {| hm_msg_type := nth 0 data zero;
             hm_ephemeral_pk := slice 1 33 data;
             hm_payload := drop 33 data |}.

(** ** Negotiation ([negotiation.rs]) *)

Definition NEGOTIATION_VERSION : ascii := byte_of 1.

Record NegotiationMsg := MkNegotiation { neg_version : ascii; neg_suites : list CipherSuite }.

Definition offer : NegotiationMsg := MkNegotiation NEGOTIATION_VERSION [XChaCha20Poly1305].

(** [self.suites.len() as u8] truncates. *)
Definition negotiation_to_bytes (n : NegotiationMsg) : bytes :=
  [neg_version n; byte_of (Z.of_nat (length (neg_suites n)))] ++ map suite_as_u8 (neg_suites n).

Fixpoint parse_suites (bs : bytes) : result ChannelError (list CipherSuite) :=
  match bs with
  | [] => Ok []
  | b :: bs' =>
      match suite_from_u8 b with
      | None => Err (Negotiation ("unknown suite 0x" +:+ fmt_02x b))
      | Some suite => rest ← parse_suites bs'; Ok (suite :: rest)
      end
  end.

Definition negotiation_from_bytes (data : bytes) : result ChannelError NegotiationMsg :=
  if Z.of_nat (length data) <? 2 then Err (Negotiation "too short")
  else
    let version := nth 0 data zero in
    if negb (code version =? code NEGOTIATION_VERSION) then
      Err (Negotiation ("unsupported version " +:+ show_Z (code version)))
    else
      let count := Z.to_nat (code (nth 1 data zero)) in
      if (length data <? 2 + count)%nat then Err (Negotiation "truncated suite list")
      else
        suites ← parse_suites (slice 2 (2 + count) data);
        if bool_decide (suites = []) then Err (Negotiation "empty suite list")
        else Ok (MkNegotiation version suites).

Fixpoint select_from (offered supported : list CipherSuite) : result ChannelError CipherSuite :=
  match offered with
  | [] => Err (Negotiation "no mutually supported cipher suite")
  | s :: offered' => if bool_decide (s ∈ supported) then Ok s else select_from offered' supported
  end.
Definition select (n : NegotiationMsg) (supported : list CipherSuite) : result ChannelError CipherSuite :=
  select_from (neg_suites n) supported.

(** ** Lemmas *)

Lemma encode_frame_ok (p : bytes) :
  Z.of_nat (length p) <= MAX_FRAME_SIZE -> encode_frame p = Ok (be_bytes 4 (wrap_u32 (Z.of_nat (length p))) ++ p).
Proof. intros Hp. unfold encode_frame. destruct (Z.ltb_spec MAX_FRAME_SIZE (Z.of_nat (length p))); [lia|done]. Qed.

Lemma decode_frame_app (p rest : bytes) :
  Z.of_nat (length p) <= MAX_FRAME_SIZE ->
  decode_frame (be_bytes 4 (wrap_u32 (Z.of_nat (length p))) ++ p ++ rest)
  = Ok (Some (p, 4 + Z.of_nat (length p))).
Proof.
  intros Hp. unfold decode_frame, LENGTH_PREFIX_SIZE, MAX_FRAME_SIZE in *.
  assert (wrap_u32 (Z.of_nat (length p)) = Z.of_nat (length p)) as -> by (apply Z.mod_small; lia).
  set (h := be_bytes 4 _). assert (length h = 4%nat) as Hh by apply be_bytes_length.
  rewrite !length_app, (take_app_length' h) by done. rewrite Hh.
  replace (be_val h) with (Z.of_nat (length p)) by (symmetry; apply be_val_bytes; lia).
  destruct (Z.ltb_spec (Z.of_nat (4 + (length p + length rest))) 4); [lia|].
  destruct (Z.ltb_spec (16 * 1024 * 1024) (Z.of_nat (length p))); [lia|].
  destruct (Z.ltb_spec (Z.of_nat (4 + (length p + length rest))) (4 + Z.of_nat (length p))); [lia|].
  do 3 f_equal. replace (Z.to_nat (4 + Z.of_nat (length p))) with (Z.to_nat 4 + length p)%nat by lia.
  by apply slice_app.
Qed.

Lemma decode_frame_short (p : bytes) (k : nat) :
  Z.of_nat (length p) <= MAX_FRAME_SIZE -> (k < 4 + length p)%nat ->
  decode_frame (take k (be_bytes 4 (wrap_u32 (Z.of_nat (length p))) ++ p)) = Ok None.
Proof.
  intros Hp Hk. unfold decode_frame, LENGTH_PREFIX_SIZE, MAX_FRAME_SIZE in *.
  assert (wrap_u32 (Z.of_nat (length p)) = Z.of_nat (length p)) as -> by (apply Z.mod_small; lia).
  set (h := be_bytes 4 _). assert (length h = 4%nat) as Hh by apply be_bytes_length.
  rewrite length_take, length_app, Hh.
  destruct (Z.ltb_spec (Z.of_nat (Nat.min k (4 + length p))) 4); [done|].
  rewrite take_take, Nat.min_l, take_app_length' by (done || lia). replace (be_val h) with (Z.of_nat (length p)) by (symmetry; apply be_val_bytes; lia).
  destruct (Z.ltb_spec (16 * 1024 * 1024) (Z.of_nat (length p))); [lia|].
  destruct (Z.ltb_spec (Z.of_nat (Nat.min k (4 + length p))) (4 + Z.of_nat (length p))); [done|lia].
Qed.

(** A frame that decodes is the encoding of what it decodes to. *)
Lemma decode_frame_canonical (buf p : bytes) (n : Z) :
  decode_frame buf = Ok (Some (p, n)) ->
  Z.of_nat (length p) <= MAX_FRAME_SIZE /\ encode_frame p = Ok (take (Z.to_nat n) buf).
Proof.
  unfold decode_frame, encode_frame, LENGTH_PREFIX_SIZE. intros H.
  destruct (Z.ltb_spec (Z.of_nat (length buf)) 4); [done|].
  destruct (Z.ltb_spec MAX_FRAME_SIZE (be_val (take 4 buf))); [done|].
  destruct (Z.ltb_spec (Z.of_nat (length buf)) (4 + be_val (take 4 buf))); [done|].
  pose proof (be_val_range (take 4 buf)) as [Hlo _]. injection H as <- <-.
  set (v := be_val (take 4 buf)) in *.
  assert (Z.of_nat (length (slice (Z.to_nat 4) (Z.to_nat (4 + v)) buf)) = v) as -> by (rewrite slice_length; lia).
  split; [done|]. destruct (Z.ltb_spec MAX_FRAME_SIZE v); [lia|]. f_equal.
  replace (wrap_u32 v) with v by (symmetry; apply Z.mod_small; unfold MAX_FRAME_SIZE in *; lia).
  unfold v at 1. rewrite be_bytes_val by (rewrite length_take; lia).
  unfold slice. rewrite <- (take_drop 4 (take (Z.to_nat (4 + v)) buf)). f_equal.
  - rewrite take_take. f_equal. lia.
  - rewrite take_drop_commute. f_equal. f_equal. lia.
Qed.

Lemma parse_suites_map (l : list CipherSuite) : parse_suites (map suite_as_u8 l) = Ok l.
Proof. induction l as [|[] l IH]; [done|]. cbn. rewrite IH. done. Qed.

Lemma select_from_spec (offered supported : list CipherSuite) :
  match select_from offered supported with
  | Ok s => exists l r, offered = l ++ s :: r /\ s ∈ supported /\ Forall (fun x => x ∉ supported) l
  | Err e => e = Negotiation "no mutually supported cipher suite" /\ Forall (fun x => x ∉ supported) offered
  end.
Proof.
  induction offered as [|s l IH]; cbn; [done|]. case_bool_decide; [by exists [], l|].
  destruct (select_from l supported).
  - destruct IH as (l1 & r & -> & ? & ?). exists (s :: l1), r. repeat split; [done|]. by constructor.
  - destruct IH. split; [done|by constructor].
Qed.

Lemma cons_app_nth (data : bytes) (n : nat) :
  (1 <= n <= length data)%nat -> data = [nth 0 data zero] ++ slice 1 n data ++ drop n data.
Proof. intros H. rewrite slice_cat by lia. by destruct data; [cbn in *; lia|]. Qed.

Lemma encode_typed_decode (tag : ascii) (p rest f : bytes) :
  encode_typed tag p = Ok f -> decode_typed (f ++ rest) = Ok (Some (tag, p, Z.of_nat (length f))).
Proof.
  unfold encode_typed, decode_typed. set (q := tag :: p). intros Hf.
  assert (Z.of_nat (length q) <= MAX_FRAME_SIZE) as Hq.
  { unfold encode_frame in Hf. destruct (Z.ltb_spec MAX_FRAME_SIZE (Z.of_nat (length q))); [done|lia]. }
  rewrite encode_frame_ok in Hf by done.
  assert (f = be_bytes 4 (wrap_u32 (Z.of_nat (length q))) ++ q) as -> by congruence.
  rewrite <- app_assoc, decode_frame_app by done. cbn [mbind result_mbind]. rewrite length_app, be_bytes_length.
  unfold q. do 4 f_equal. lia.
Qed.

Lemma channel_message_from_to (m : ChannelMessage) :
  channel_message_ok m -> 16 <= Z.of_nat (length (cm_ciphertext m)) ->
  channel_message_from_bytes (channel_message_to_bytes m) = Ok m.
Proof.
  unfold channel_message_from_bytes, channel_message_to_bytes, channel_message_ok.
  unfold HEADER_SIZE, tag_len. change (33 + 16) with 49.
  destruct m as [t q n c]; cbn [cm_msg_type cm_seq cm_nonce cm_ciphertext].
  intros [Hq Hn] Hc. rewrite !length_app, be_bytes_length, Hn. cbn [length].
  destruct (Z.ltb_spec (Z.of_nat (1 + (8 + (24 + length c)))) 49); [lia|].
  pose proof (be_bytes_length 8 q) as Hb. do 2 f_equal.
  - pose proof (slice_app 1 [t] (be_bytes 8 q) (n ++ c) eq_refl) as E. rewrite Hb in E. cbn [Nat.add] in E.
    rewrite E. apply be_val_bytes. unfold in_u64, u64_max in Hq. lia.
  - rewrite app_assoc. replace 33%nat with (9 + length n)%nat by lia. apply slice_app. rewrite length_app, Hb. done.
  - rewrite !app_assoc. apply drop_app_length'. rewrite !length_app, Hb, Hn. done.
Qed.

Lemma handshake_message_canonical (m : HandshakeMessage) (data : bytes) :
  handshake_message_from_bytes data = Ok m ->
  handshake_message_to_bytes m = data /\ length (hm_ephemeral_pk m) = 32%nat.
Proof.
  unfold handshake_message_from_bytes, handshake_message_to_bytes.
  destruct (Z.ltb_spec (Z.of_nat (length data)) 33); [done|]. intros [= <-]. cbn [hm_msg_type hm_ephemeral_pk hm_payload]. split.
  - symmetry. apply cons_app_nth. lia.
  - by rewrite slice_length by lia.
Qed.

(** ** Properties *)

(** Frames on a stream: a payload of at most 16 MiB is framed; the frame at
    the head of a buffer decodes to the payload and its own length whatever
    follows it, every proper prefix of it asks for more input, a larger
    payload is refused, and a buffer that decodes starts with the frame of
    what it decodes to. *)
Theorem frame_stream (p rest : bytes) :
  if Z.of_nat (length p) <=? MAX_FRAME_SIZE then
    exists f, encode_frame p = Ok f
      /\ decode_frame (f ++ rest) = Ok (Some (p, Z.of_nat (length f)))
      /\ (forall k, (k < length f)%nat -> decode_frame (take k f) = Ok None)
      /\ (forall buf n, decode_frame buf = Ok (Some (p, n)) -> take (Z.to_nat n) buf = f)
  else is_ok (encode_frame p) = false /\ forall buf n, decode_frame buf <> Ok (Some (p, n)).
Proof.
  destruct (Z.leb_spec (Z.of_nat (length p)) MAX_FRAME_SIZE) as [Hp|Hp].
  - set (f := be_bytes 4 (wrap_u32 (Z.of_nat (length p))) ++ p).
    assert (Hlen : length f = (4 + length p)%nat) by (unfold f; by rewrite length_app, be_bytes_length).
    assert (He : encode_frame p = Ok f).
    { by apply encode_frame_ok. }
    exists f. split; [done|]. repeat split.
    + unfold f at 1. rewrite <- app_assoc, decode_frame_app by done. do 3 f_equal. lia.
    + intros k Hk. apply decode_frame_short; [done|lia].
    + intros buf n Hd. apply decode_frame_canonical in Hd as [_ Hd]. congruence.
  - split.
    + unfold encode_frame. destruct (Z.ltb_spec MAX_FRAME_SIZE (Z.of_nat (length p))); [done|lia].
    + intros buf n Hd. apply decode_frame_canonical in Hd as [Hd _]. lia.
Qed.

(** Typed frames: the tag and the payload come back, and an empty frame body
    is an error rather than a message. *)
Theorem typed_frame_roundtrip (tag : ascii) (p rest : bytes) :
  Z.of_nat (length p) < MAX_FRAME_SIZE ->
  (exists f, encode_typed tag p = Ok f
     /\ decode_typed (f ++ rest) = Ok (Some (tag, p, Z.of_nat (length f))))
  /\ (forall f, encode_frame [] = Ok f -> decode_typed (f ++ rest) = Err (Codec "empty frame body")).
Proof.
  intros Hp. split.
  - assert (Z.of_nat (length (tag :: p)) <= MAX_FRAME_SIZE) by (cbn [length]; lia).
    eexists. split; [by apply encode_frame_ok|]. apply encode_typed_decode. by apply encode_frame_ok.
  - intros f. rewrite (encode_frame_ok []) by done. set (h := be_bytes 4 _). intros Hf.
    assert (f = h ++ []) as -> by congruence. unfold decode_typed. rewrite <- app_assoc. unfold h. by rewrite decode_frame_app by done.
Qed.

Lemma typed_frame_roundtrip_witness :
  exists f, encode_typed (byte_of 7) [byte_of 1; byte_of 2] = Ok f
    /\ decode_typed (f ++ [byte_of 9]) = Ok (Some (byte_of 7, [byte_of 1; byte_of 2], Z.of_nat (length f))).
Proof. apply (typed_frame_roundtrip (byte_of 7) [byte_of 1; byte_of 2] [byte_of 9]). reflexivity. Defined.

(** Encrypted messages: parsing inverts serialising whenever the ciphertext
    holds a tag, every accepted input is the serialisation of its message,
    and exactly the inputs shorter than header and tag are refused. *)
Theorem channel_message_codec (m : ChannelMessage) (data : bytes) :
  (channel_message_ok m -> 16 <= Z.of_nat (length (cm_ciphertext m)) ->
     channel_message_from_bytes (channel_message_to_bytes m) = Ok m)
  /\ (channel_message_from_bytes data = Ok m -> channel_message_to_bytes m = data /\ channel_message_ok m)
  /\ (is_ok (channel_message_from_bytes data) = (49 <=? Z.of_nat (length data))).
Proof.
  split; [apply channel_message_from_to|].
  unfold channel_message_from_bytes, channel_message_to_bytes, channel_message_ok.
  unfold HEADER_SIZE, tag_len. change (33 + 16) with 49. split.
  - destruct (Z.ltb_spec (Z.of_nat (length data)) 49); [done|]. intros [= <-]. cbn [cm_msg_type cm_seq cm_nonce cm_ciphertext].
    pose proof (be_val_range (slice 1 9 data)) as Hr. rewrite slice_length in Hr by lia.
    rewrite be_bytes_val, (slice_cat 9 33) by (rewrite ?slice_length; lia). split; [|split].
    + symmetry. apply cons_app_nth. lia.
    + unfold in_u64, u64_max. change (256 ^ Z.of_nat (9 - 1)) with (2 ^ 64) in Hr. lia.
    + by rewrite slice_length by lia.
  - destruct (Z.ltb_spec (Z.of_nat (length data)) 49), (Z.leb_spec 49 (Z.of_nat (length data))); done || lia.
Qed.

Definition sample_message : ChannelMessage := MkChannelMessage MSG_DATA 42 (replicate 24 (byte_of 7)) (replicate 20 (byte_of 171)).

Lemma channel_message_codec_witness :
  channel_message_from_bytes (channel_message_to_bytes sample_message) = Ok sample_message.
Proof. apply (channel_message_codec sample_message []); [split; [split; vm_compute; discriminate|reflexivity]|vm_compute; discriminate]. Defined.

(** Handshake messages: a bijection between messages with a 32-byte key and
    inputs of at least 33 bytes. *)
Theorem handshake_message_codec (m : HandshakeMessage) (data : bytes) :
  (length (hm_ephemeral_pk m) = 32%nat ->
     handshake_message_from_bytes (handshake_message_to_bytes m) = Ok m)
  /\ (handshake_message_from_bytes data = Ok m ->
     handshake_message_to_bytes m = data /\ length (hm_ephemeral_pk m) = 32%nat).
Proof.
  unfold handshake_message_from_bytes, handshake_message_to_bytes. split.
  - destruct m as [t pk pl]; cbn [hm_msg_type hm_ephemeral_pk hm_payload]. intros Hp.
    rewrite !length_app, Hp. cbn [length].
    destruct (Z.ltb_spec (Z.of_nat (1 + (32 + length pl))) 33); [lia|]. do 2 f_equal.
    + replace 33%nat with (1 + length pk)%nat by lia. by apply slice_app.
    + rewrite app_assoc. apply drop_app_length'. rewrite length_app, Hp. done.
  - apply handshake_message_canonical.
Qed.

Definition sample_handshake : HandshakeMessage := MkHandshakeMessage MSG_HANDSHAKE_1 (replicate 32 (byte_of 17)) [byte_of 1].
Lemma handshake_message_codec_witness :
  handshake_message_from_bytes (handshake_message_to_bytes sample_handshake) = Ok sample_handshake.
Proof. apply (handshake_message_codec sample_handshake []). reflexivity. Defined.

(** Negotiation: an offer of this version with 1 to 255 suites comes back
    from the wire, and the responder selects the first offered suite it
    supports or reports that there is none. *)
Theorem negotiation_agrees (n : NegotiationMsg) (supported : list CipherSuite) :
  neg_version n = NEGOTIATION_VERSION -> 1 <= Z.of_nat (length (neg_suites n)) <= 255 ->
  exists m, negotiation_from_bytes (negotiation_to_bytes n) = Ok m /\
    match select m supported with
    | Ok s => exists l r, neg_suites n = l ++ s :: r /\ s ∈ supported /\ Forall (fun x => x ∉ supported) l
    | Err e => e = Negotiation "no mutually supported cipher suite"
               /\ Forall (fun x => x ∉ supported) (neg_suites n)
    end.
Proof.
  destruct n as [v l]; cbn [neg_version neg_suites]. intros -> Hl. eexists. split.
  - unfold negotiation_from_bytes, negotiation_to_bytes. cbn [neg_version neg_suites nth app].
    rewrite code_byte_of, Z.mod_small, Nat2Z.id by lia. cbn [length]. rewrite length_map.
    destruct (Z.ltb_spec (Z.of_nat (S (S (length l)))) 2); [lia|]. rewrite Z.eqb_refl. cbn [negb].
    destruct (Nat.ltb_spec (S (S (length l))) (2 + length l)); [lia|].
    assert (slice 2 (2 + length l) (NEGOTIATION_VERSION :: byte_of (Z.of_nat (length l)) :: map suite_as_u8 l)
            = map suite_as_u8 l) as ->.
    { unfold slice. cbn [drop]. apply take_ge. rewrite (length_map suite_as_u8 l). lia. }
    rewrite parse_suites_map. cbn [mbind result_mbind].
    rewrite bool_decide_eq_false_2; [done|]. intros ->. cbn in Hl. lia.
  - apply select_from_spec.
Qed.

Lemma negotiation_agrees_witness :
  exists m, negotiation_from_bytes (negotiation_to_bytes offer) = Ok m /\
    match select m [XChaCha20Poly1305] with
    | Ok s => exists l r, neg_suites offer = l ++ s :: r /\ s ∈ [XChaCha20Poly1305] /\ Forall (fun x => x ∉ [XChaCha20Poly1305]) l
    | Err e => e = Negotiation "no mutually supported cipher suite"
               /\ Forall (fun x => x ∉ [XChaCha20Poly1305]) (neg_suites offer)
    end.
Proof. apply (negotiation_agrees offer); [reflexivity|vm_compute; split; discriminate]. Defined.
