(* ===== verification/ChanKeys.v ===== *)
(** * Keys of origin-channel: nonces, usage limits, the ratchet

    [nonce_tracker.rs], [usage_limit.rs], [ratchet.rs], [dh.rs] and the key
    record of [types.rs].  HKDF, the AEAD and X25519 are of origin-crypto-sdk:
    the fields of [ChanCrypto]; what is assumed of them is [ChanCryptoOk]. *)

From Stdlib Require Import Ascii String.
From S2P Require Import Prelude RustStr Bytes StateErr ChanError.

(** ** The SDK *)

Class ChanCrypto := {
  (** [hkdf_sha3_256(ikm, salt, info, &mut okm)] with [okm] of the given length. *)
  hkdf_sha3_256 : bytes -> option bytes -> bytes -> nat -> result string bytes;
  (** [XChaCha20Poly1305::encrypt] and [decrypt] (key, nonce, text). *)
  xchacha_encrypt : bytes -> bytes -> bytes -> result string bytes;
  xchacha_decrypt : bytes -> bytes -> bytes -> result string bytes;
  (** [origin_crypto_sdk::x25519]. *)
  X25519KeyPair : Type;
  x25519_from_secret_key : bytes -> result string X25519KeyPair;
  x25519_public_key : X25519KeyPair -> bytes;
  x25519_secret_key_bytes : X25519KeyPair -> bytes;
  x25519_diffie_hellman : X25519KeyPair -> bytes -> result string bytes
}.

(** Output lengths up to [255] hash blocks succeed; encryption of any text
    under a 32-byte key and 24-byte nonce succeeds, adds a 16-byte tag and is
    inverted by decryption; X25519 agrees whichever side computes it. *)
Class ChanCryptoOk `{ChanCrypto} : Prop := {
  hkdf_total : forall ikm salt info n, (n <= 255 * 32)%nat ->
    exists okm, hkdf_sha3_256 ikm salt info n = Ok okm /\ length okm = n;
  xchacha_total : forall k n p, length k = 32%nat -> length n = 24%nat ->
    exists c, xchacha_encrypt k n p = Ok c /\ length c = (length p + 16)%nat /\ xchacha_decrypt k n c = Ok p;
  x25519_len : forall a, length (x25519_public_key a) = 32%nat;
  x25519_agree : forall a b,
    ok (x25519_diffie_hellman a (x25519_public_key b)) = ok (x25519_diffie_hellman b (x25519_public_key a))
}.

(** ** Nonces ([nonce_tracker.rs]) *)

Record NonceTracker := MkNonceTracker { nt_next : Z; nt_label : string }.

Definition nonce_new (label : string) : NonceTracker := MkNonceTracker 0 label.

Definition counter_to_nonce (counter : Z) : bytes := le_bytes 8 counter ++ replicate 16 (byte_of 0).

Definition next_nonce : SE NonceTracker ChannelError bytes := fun t =>
  if nt_next t =? u64_max then
    (Err (Other (nt_label t +:+ " nonce counter exhausted (2^64 messages)")), t)
  else (Ok (counter_to_nonce (nt_next t)), MkNonceTracker (wrap_u64 (nt_next t + 1)) (nt_label t)).

(** ** Usage limits ([usage_limit.rs]) *)

Record AeadLimits := MkAeadLimits { max_messages : Z; max_bytes : Z }.

Definition DEFAULT_MAX_MESSAGES : Z := 2 ^ 20.
Definition DEFAULT_MAX_BYTES : Z := 2 ^ 34.
Definition default_limits : AeadLimits := MkAeadLimits DEFAULT_MAX_MESSAGES DEFAULT_MAX_BYTES.

Record DirectionUsage := MkDirectionUsage { du_messages : Z; du_bytes : Z }.
Definition default_usage : DirectionUsage := MkDirectionUsage 0 0.

Record AeadUsageTracker := MkAeadUsageTracker {
  ut_limits : AeadLimits;
  ut_send : DirectionUsage;
  ut_recv : DirectionUsage
}.

Definition usage_new (limits : AeadLimits) : AeadUsageTracker :=
  MkAeadUsageTracker limits default_usage default_usage.

Definition check_and_record (limits : AeadLimits) (plaintext_len : Z) (direction : string)
    : SE DirectionUsage ChannelError unit := fun dir =>
  let new_messages := wrap_u64 (du_messages dir + 1) in
  let new_bytes := wrap_u64 (du_bytes dir + plaintext_len) in
  if max_messages limits <? new_messages then
    (Err (UsageLimitExceeded (direction +:+ " message limit reached (" +:+ show_Z (du_messages dir) +:+ "/"
                              +:+ show_Z (max_messages limits) +:+ ")")), dir)
  else if max_bytes limits <? new_bytes then
    (Err (UsageLimitExceeded (direction +:+ " byte limit reached (" +:+ show_Z (du_bytes dir) +:+ "/"
                              +:+ show_Z (max_bytes limits) +:+ ")")), dir)
  else (Ok tt, MkDirectionUsage new_messages new_bytes).

Definition check_send (plaintext_len : Z) : SE AeadUsageTracker ChannelError unit := fun t =>
  on_field ut_send (fun d t => MkAeadUsageTracker (ut_limits t) d (ut_recv t))
    (check_and_record (ut_limits t) plaintext_len "send") t.

Definition check_recv (ciphertext_len : Z) : SE AeadUsageTracker ChannelError unit := fun t =>
  let plaintext_len := sat_sub_u ciphertext_len 16 in
  on_field ut_recv (fun d t => MkAeadUsageTracker (ut_limits t) (ut_send t) d)
    (check_and_record (ut_limits t) plaintext_len "recv") t.

Definition direction_exhausted (t : AeadUsageTracker) (d : DirectionUsage) : bool :=
  (max_messages (ut_limits t) <=? du_messages d) || (max_bytes (ut_limits t) <=? du_bytes d).
Definition send_exhausted (t : AeadUsageTracker) : bool := direction_exhausted t (ut_send t).
Definition recv_exhausted (t : AeadUsageTracker) : bool := direction_exhausted t (ut_recv t).
Definition needs_rotation (t : AeadUsageTracker) : bool :=
  direction_exhausted t (ut_send t) || direction_exhausted t (ut_recv t).

Definition usage_reset (t : AeadUsageTracker) : AeadUsageTracker :=
  MkAeadUsageTracker (ut_limits t) default_usage default_usage.

(** ** The ratchet ([ratchet.rs]) *)

Record RatchetKeys := MkRatchetKeys { rk_root : bytes; rk_send_chain : bytes; rk_recv_chain : bytes }.

Definition RATCHET_INIT_LABEL : string := "origin-channel:ratchet:v1".
Definition MESSAGE_KEY_LABEL : string := "origin-channel:message:v1".
Definition CHAIN_ADVANCE_LABEL : string := "origin-channel:chain:v1".
Definition DH_RATCHET_LABEL : string := "origin-channel:dh-ratchet:v1".

Section Ratchet.
Context `{ChanCrypto}.

Definition init_ratchet (shared_secret : bytes) (is_initiator : bool) : result ChannelError RatchetKeys :=
  okm ← map_err (fun e => Key ("ratchet init HKDF failed: " +:+ e))
          (hkdf_sha3_256 shared_secret None (as_bytes RATCHET_INIT_LABEL) 96);
  let root := slice 0 32 okm in
  let chain_a := slice 32 64 okm in
  let chain_b := slice 64 96 okm in
  let '(send_chain, recv_chain) := if is_initiator then (chain_a, chain_b) else (chain_b, chain_a) in
  Ok (MkRatchetKeys root send_chain recv_chain).

Definition derive_message_key (chain_key : bytes) : result ChannelError (bytes * bytes) :=
  msg_key ← map_err (fun e => Key ("message key HKDF failed: " +:+ e))
              (hkdf_sha3_256 chain_key None (as_bytes MESSAGE_KEY_LABEL) 32);
  next_chain ← map_err (fun e => Key ("chain advance HKDF failed: " +:+ e))
                 (hkdf_sha3_256 chain_key None (as_bytes CHAIN_ADVANCE_LABEL) 32);
  Ok (msg_key, next_chain).

Definition dh_ratchet (root_key dh_shared_secret : bytes) : result ChannelError RatchetKeys :=
  okm ← map_err (fun e => Key ("DH ratchet HKDF failed: " +:+ e))
          (hkdf_sha3_256 root_key (Some dh_shared_secret) (as_bytes DH_RATCHET_LABEL) 96);
  Ok (MkRatchetKeys (slice 0 32 okm) (slice 32 64 okm) (slice 64 96 okm)).

(** ** Diffie-Hellman ([dh.rs]) *)

Definition diffie_hellman (self : X25519KeyPair) (peer : bytes) : result ChannelError bytes :=
  map_err Key (x25519_diffie_hellman self peer).

End Ratchet.

(** ** Lemmas *)

Lemma counter_to_nonce_length (c : Z) : length (counter_to_nonce c) = 24%nat.
Proof. unfold counter_to_nonce. by rewrite length_app, le_bytes_length, length_replicate. Qed.

Lemma counter_to_nonce_inj (c d : Z) :
  in_u64 c -> in_u64 d -> counter_to_nonce c = counter_to_nonce d -> c = d.
Proof.
  intros Hc Hd E. apply app_inj_len in E as [E _]; [|by rewrite !le_bytes_length].
  unfold in_u64, u64_max in *. by apply le_bytes_inj in E; [|change (256 ^ Z.of_nat 8) with (2 ^ 64); lia..].
Qed.

Lemma hkdf_length `{ChanCryptoOk} (ikm : bytes) (salt : option bytes) (info : bytes) (n : nat) (okm : bytes) :
  (n <= 255 * 32)%nat -> hkdf_sha3_256 ikm salt info n = Ok okm -> length okm = n.
Proof. intros Hn E. destruct (hkdf_total ikm salt info n Hn) as (? & ? & ?). congruence. Qed.

Lemma derive_message_key_ok `{ChanCryptoOk} (k : bytes) :
  exists mk nx, derive_message_key k = Ok (mk, nx) /\ length mk = 32%nat /\ length nx = 32%nat.
Proof.
  unfold derive_message_key.
  destruct (hkdf_total k None (as_bytes MESSAGE_KEY_LABEL) 32 ltac:(lia)) as (mk & -> & ?).
  destruct (hkdf_total k None (as_bytes CHAIN_ADVANCE_LABEL) 32 ltac:(lia)) as (nx & -> & ?).
  by exists mk, nx.
Qed.

(** What the budget of a direction allows: the recorded use never passes it. *)
Definition usage_ok (l : AeadLimits) (d : DirectionUsage) : Prop :=
  0 <= du_messages d <= max_messages l /\ 0 <= du_bytes d <= max_bytes l.
Definition limits_ok (l : AeadLimits) : Prop := 0 <= max_messages l < u64_max /\ in_u64 (max_bytes l).

Lemma check_and_record_spec (l : AeadLimits) (n : Z) (dir : string) (d : DirectionUsage) :
  limits_ok l -> usage_ok l d -> 0 <= n -> du_bytes d + n <= u64_max ->
  if (du_messages d <? max_messages l) && (du_bytes d + n <=? max_bytes l)
  then check_and_record l n dir d = (Ok tt, MkDirectionUsage (du_messages d + 1) (du_bytes d + n))
  else exists s, check_and_record l n dir d = (Err (UsageLimitExceeded s), d).
Proof.
  intros [Hm Hb] [Hdm Hdb] Hn Hov. unfold check_and_record, in_u64, u64_max in *.
  rewrite !wrap_u64_id by (unfold in_u64, u64_max; lia).
  destruct (Z.ltb_spec (du_messages d) (max_messages l)), (Z.ltb_spec (max_messages l) (du_messages d + 1)); try lia;
    cbn [andb]; [|by eexists].
  destruct (Z.leb_spec (du_bytes d + n) (max_bytes l)), (Z.ltb_spec (max_bytes l) (du_bytes d + n)); try lia; [done|by eexists].
Qed.

Lemma check_send_spec (n : Z) (t : AeadUsageTracker) :
  limits_ok (ut_limits t) -> usage_ok (ut_limits t) (ut_send t) -> 0 <= n -> du_bytes (ut_send t) + n <= u64_max ->
  if (du_messages (ut_send t) <? max_messages (ut_limits t)) && (du_bytes (ut_send t) + n <=? max_bytes (ut_limits t))
  then check_send n t = (Ok tt, MkAeadUsageTracker (ut_limits t)
                           (MkDirectionUsage (du_messages (ut_send t) + 1) (du_bytes (ut_send t) + n)) (ut_recv t))
  else exists s, check_send n t = (Err (UsageLimitExceeded s), t).
Proof.
  intros Hl Hu Hn Hov. pose proof (check_and_record_spec (ut_limits t) n "send" (ut_send t) Hl Hu Hn Hov) as Hc.
  unfold check_send, on_field. destruct (_ && _); [by rewrite Hc|].
  destruct Hc as [s Hc]. exists s. rewrite Hc. by destruct t.
Qed.

Lemma check_recv_spec (n : Z) (t : AeadUsageTracker) :
  limits_ok (ut_limits t) -> usage_ok (ut_limits t) (ut_recv t) -> 16 <= n -> du_bytes (ut_recv t) + (n - 16) <= u64_max ->
  if (du_messages (ut_recv t) <? max_messages (ut_limits t)) && (du_bytes (ut_recv t) + (n - 16) <=? max_bytes (ut_limits t))
  then check_recv n t = (Ok tt, MkAeadUsageTracker (ut_limits t) (ut_send t)
                           (MkDirectionUsage (du_messages (ut_recv t) + 1) (du_bytes (ut_recv t) + (n - 16))))
  else exists s, check_recv n t = (Err (UsageLimitExceeded s), t).
Proof.
  intros Hl Hu Hn Hov.
  pose proof (check_and_record_spec (ut_limits t) (n - 16) "recv" (ut_recv t) Hl Hu ltac:(lia) Hov) as Hc.
  unfold check_recv, on_field, sat_sub_u. rewrite Z.max_r by lia. destruct (_ && _); [by rewrite Hc|].
  destruct Hc as [s Hc]. exists s. rewrite Hc. by destruct t.
Qed.

(** The accepted lengths of a run. *)
Definition granted (rs : list (result ChannelError unit)) (lens : list Z) : list Z :=
  omap (fun p => if is_ok (fst p) then Some (snd p) else None) (zip rs lens).

Lemma check_send_run (lens : list Z) (t : AeadUsageTracker) :
  limits_ok (ut_limits t) -> max_bytes (ut_limits t) <= 2 ^ 63 -> usage_ok (ut_limits t) (ut_send t) ->
  Forall (fun n => 0 <= n < 2 ^ 63) lens ->
  let '(rs, t') := run_all check_send lens t in
  ut_limits t' = ut_limits t /\ ut_recv t' = ut_recv t /\ usage_ok (ut_limits t') (ut_send t')
  /\ du_messages (ut_send t') = du_messages (ut_send t) + Z.of_nat (length (granted rs lens))
  /\ du_bytes (ut_send t') = du_bytes (ut_send t) + list_sum (granted rs lens).
Proof.
  intros Hl Hb Hu Hn. revert t Hl Hb Hu. induction Hn as [|n lens Hn _ IH]; intros t Hl Hb Hu; cbn [run_all].
  { repeat split; (done || apply Hu || (cbn; lia)). }
  pose proof (check_send_spec n t Hl Hu ltac:(lia)) as Hc.
  unfold u64_max in Hc. specialize (Hc ltac:(destruct Hu; lia)). destruct ((_ <? _) && _) eqn:E.
  - rewrite Hc. apply andb_true_iff in E as [Em%Z.ltb_lt Eb%Z.leb_le].
    specialize (IH (MkAeadUsageTracker (ut_limits t)
      (MkDirectionUsage (du_messages (ut_send t) + 1) (du_bytes (ut_send t) + n)) (ut_recv t)) Hl Hb).
    cbn [ut_limits ut_send ut_recv du_messages du_bytes] in IH.
    destruct (run_all check_send lens _) as [rs t']. cbn [granted zip fst is_ok].
    destruct IH as (-> & -> & ? & Hm & Hs); [destruct Hu; split; cbn; lia|].
    unfold granted in *. cbn. fold (list_sum (omap (fun p : result ChannelError unit * Z => if is_ok p.1 then Some p.2 else None) (zip rs lens))).
    repeat split; (apply H || lia).
  - destruct Hc as [s Hc]. rewrite Hc. specialize (IH t Hl Hb Hu). destruct t as [l sd rc].
    cbn [ut_limits ut_send ut_recv] in *. destruct (run_all check_send lens _) as [rs t']. exact IH.
Qed.

Lemma next_nonce_run (k : nat) (t : NonceTracker) :
  in_u64 (nt_next t) -> nt_next t + Z.of_nat k <= u64_max ->
  run_all (fun _ => next_nonce) (replicate k tt) t
  = (map (fun i => Ok (counter_to_nonce (nt_next t + Z.of_nat i))) (seq 0 k),
     MkNonceTracker (nt_next t + Z.of_nat k) (nt_label t)).
Proof.
  revert t. induction k as [|k IH]; intros t Ht Hk.
  { cbn. rewrite Z.add_0_r. by destruct t. }
  change (replicate (S k) tt) with (tt :: replicate k tt). cbn [run_all]. unfold next_nonce at 1.
  unfold in_u64, u64_max in *. destruct (Z.eqb_spec (nt_next t) (2 ^ 64 - 1)); [lia|].
  rewrite wrap_u64_id by (unfold in_u64, u64_max; lia). rewrite IH by (cbn [nt_next]; lia).
  cbn [nt_next nt_label seq map]. rewrite Z.add_0_r. f_equal; [f_equal|f_equal; lia].
  rewrite <- seq_shift, map_map. apply map_ext. intros i. do 2 f_equal. lia.
Qed.

(** ** Properties *)

(** Usage limits: over any sequence of requested lengths, the messages and
    bytes granted in an epoch stay within the configured limits and are
    exactly what the counters record. *)
Theorem usage_budget (l : AeadLimits) (lens : list Z) :
  limits_ok l -> max_bytes l <= 2 ^ 63 -> Forall (fun n => 0 <= n < 2 ^ 63) lens ->
  let '(rs, t) := run_all check_send lens (usage_new l) in
  Z.of_nat (length (granted rs lens)) <= max_messages l
  /\ list_sum (granted rs lens) <= max_bytes l
  /\ ut_send t = MkDirectionUsage (Z.of_nat (length (granted rs lens))) (list_sum (granted rs lens))
  /\ ut_recv t = default_usage.
Proof.
  intros Hl Hb Hn. pose proof (check_send_run lens (usage_new l) Hl Hb) as H.
  destruct (run_all check_send lens (usage_new l)) as [rs t].
  destruct H as (El & Hr & [Hm Hby] & Em & Eb); [|done|].
  - unfold usage_ok, limits_ok, in_u64 in *. cbn. lia.
  - rewrite El in *. cbn in *. rewrite Em, Eb in *. repeat split; [lia..| |done].
    destruct (ut_send t); cbn in *. f_equal; lia.
Qed.

Lemma usage_budget_witness :
  let '(rs, t) := run_all check_send [60; 50; 40; 1] (usage_new (MkAeadLimits 3 100)) in
  Z.of_nat (length (granted rs [60; 50; 40; 1])) <= 3
  /\ list_sum (granted rs [60; 50; 40; 1]) <= 100
  /\ ut_send t = MkDirectionUsage (Z.of_nat (length (granted rs [60; 50; 40; 1]))) (list_sum (granted rs [60; 50; 40; 1]))
  /\ ut_recv t = default_usage.
Proof.
  apply (usage_budget (MkAeadLimits 3 100)).
  - repeat split; vm_compute; congruence.
  - vm_compute; congruence.
  - repeat constructor; vm_compute; congruence.
Defined.

(** Nonces: a tracker gives out [2^64 - 1] different nonces of 24 bytes and
    then only errors. *)
Theorem nonces_unique (label : string) (k : nat) :
  Z.of_nat k <= u64_max ->
  let '(rs, t) := run_all (fun _ => next_nonce) (replicate k tt) (nonce_new label) in
  NoDup rs /\ Forall (fun r => exists n, r = Ok n /\ length n = 24%nat) rs
  /\ (Z.of_nat k = u64_max -> exists e, next_nonce t = (Err e, t)).
Proof.
  intros Hk. rewrite next_nonce_run by (unfold in_u64, u64_max in *; cbn; lia).
  cbn [nt_next nt_label nonce_new]. repeat split.
  - rewrite NoDup_ListNoDup. apply Finite.Injective_map_NoDup_in; [|apply seq_NoDup].
    intros i j Hi Hj E. apply in_seq in Hi, Hj. assert (counter_to_nonce (0 + Z.of_nat i) = counter_to_nonce (0 + Z.of_nat j)) as E' by congruence.
    apply counter_to_nonce_inj in E'; unfold in_u64, u64_max in *; lia.
  - apply Forall_forall. intros r Hr. apply list_elem_of_In, in_map_iff in Hr as (i & <- & _).
    eexists; split; [done|]. apply counter_to_nonce_length.
  - intros E. unfold next_nonce. cbn. rewrite E. by eexists.
Qed.

Lemma nonces_unique_witness :
  let '(rs, t) := run_all (fun _ => next_nonce) (replicate 3 tt) (nonce_new "send") in
  NoDup rs /\ Forall (fun r => exists n, r = Ok n /\ length n = 24%nat) rs
  /\ (Z.of_nat 3 = u64_max -> exists e, next_nonce t = (Err e, t)).
Proof. apply (nonces_unique "send" 3). vm_compute. congruence. Defined.
