(* ===== verification/ChanSession.v ===== *)
(** * Sessions of origin-channel: handshake and ratcheted messaging

    [handshake.rs] (the three-message key agreement) and [session.rs]
    ([RatchetedSession]).  Random keys are arguments: the draw of
    [DhSecret::generate].  The main results: both sides of a handshake
    derive the same secret and session id, and two sessions made from it
    deliver every message in order under any interleaving of sends and
    receives of both sides. *)

From Stdlib Require Import Ascii String.
From S2P Require Import Prelude RustStr Bytes Sdk StateErr ChanError ReplayWindow ChanWire ChanKeys.

Section Code.
Context `{Sdk, ChanCrypto}.

(** ** The handshake *)

Definition SS_LABEL : string := "origin-channel:handshake:ss:v1".

Record HandshakeState := MkHandshakeState {
  hs_static_secret : X25519KeyPair;
  hs_ephemeral_secret : option X25519KeyPair;
  hs_peer_static_pk : option bytes;
  hs_peer_ephemeral_pk : option bytes;
  hs_transcript : bytes;
  hs_is_initiator : bool;
  hs_step : Z
}.

Definition handshake_new (static_secret : X25519KeyPair) (peer_static_pk : bytes) (is_initiator : bool)
    : HandshakeState :=
  MkHandshakeState static_secret None (Some peer_static_pk) None [] is_initiator 0.

(** [DhSecret::generate] on a draw of the SDK. *)
Definition dh_generate (draw : result string X25519KeyPair) : result ChannelError X25519KeyPair :=
  map_err (fun e => Key ("OS CSPRNG failed: " +:+ e)) draw.

Definition start (draw : result string X25519KeyPair) : SE HandshakeState ChannelError HandshakeMessage :=
  fun h =>
  if negb (hs_is_initiator h) then (Err (Handshake "only the initiator can start the handshake"), h)
  else match dh_generate draw with
       | Err e => (Err e, h)
       | Ok eph_secret =>
           let eph_public := x25519_public_key eph_secret in
           (Ok (MkHandshakeMessage MSG_HANDSHAKE_1 eph_public []),
            MkHandshakeState (hs_static_secret h) (Some eph_secret) (hs_peer_static_pk h)
              (hs_peer_ephemeral_pk h) (hs_transcript h ++ eph_public) (hs_is_initiator h) 1)
       end.

Definition process_msg1 (draw : result string X25519KeyPair) (msg : HandshakeMessage)
    : SE HandshakeState ChannelError HandshakeMessage := fun h =>
  if hs_is_initiator h then (Err (Handshake "initiator should not receive message 1"), h)
  else if negb (bool_decide (hm_msg_type msg = MSG_HANDSHAKE_1)) then
    (Err (Handshake ("expected msg1 (0x01), got 0x" +:+ fmt_02x (hm_msg_type msg))), h)
  else
    let h1 := MkHandshakeState (hs_static_secret h) (hs_ephemeral_secret h) (hs_peer_static_pk h)
                (Some (hm_ephemeral_pk msg)) (hs_transcript h ++ hm_ephemeral_pk msg)
                (hs_is_initiator h) (hs_step h) in
    match dh_generate draw with
    | Err e => (Err e, h1)
    | Ok eph_secret =>
        let eph_public := x25519_public_key eph_secret in
        (Ok (MkHandshakeMessage MSG_HANDSHAKE_2 eph_public []),
         MkHandshakeState (hs_static_secret h1) (Some eph_secret) (hs_peer_static_pk h1)
           (hs_peer_ephemeral_pk h1) (hs_transcript h1 ++ eph_public) (hs_is_initiator h1) 2)
    end.

Definition process_msg2 (msg : HandshakeMessage) : SE HandshakeState ChannelError HandshakeMessage := fun h =>
  if negb (hs_is_initiator h) then (Err (Handshake "responder should not receive message 2"), h)
  else if negb (bool_decide (hm_msg_type msg = MSG_HANDSHAKE_2)) then
    (Err (Handshake ("expected msg2 (0x02), got 0x" +:+ fmt_02x (hm_msg_type msg))), h)
  else
    (Ok (MkHandshakeMessage MSG_HANDSHAKE_3 (replicate 32 (byte_of 0)) []),
     MkHandshakeState (hs_static_secret h) (hs_ephemeral_secret h) (hs_peer_static_pk h)
       (Some (hm_ephemeral_pk msg)) (hs_transcript h ++ hm_ephemeral_pk msg) (hs_is_initiator h) 3).

Definition process_msg3 (msg : HandshakeMessage) : SE HandshakeState ChannelError unit := fun h =>
  if hs_is_initiator h then (Err (Handshake "initiator should not receive message 3"), h)
  else if negb (bool_decide (hm_msg_type msg = MSG_HANDSHAKE_3)) then
    (Err (Handshake ("expected msg3 (0x03), got 0x" +:+ fmt_02x (hm_msg_type msg))), h)
  else
    (Ok tt, MkHandshakeState (hs_static_secret h) (hs_ephemeral_secret h) (hs_peer_static_pk h)
              (hs_peer_ephemeral_pk h) (hs_transcript h) (hs_is_initiator h) 3).

Definition dh_or_handshake (op : string) (secret : X25519KeyPair) (peer : bytes) : result ChannelError bytes :=
  map_err (fun e => Handshake (op +:+ ": " +:+ channel_error_display e)) (diffie_hellman secret peer).

Definition ok_or {A : Type} (e : ChannelError) (o : option A) : result ChannelError A :=
  match o with Some a => Ok a | None => Err e end.

Definition finalize (h : HandshakeState) : result ChannelError (bytes * bytes) :=
  if hs_step h <? 3 then Err (Handshake "handshake not complete (need all 3 messages)")
  else
    eph_secret ← ok_or (Handshake "no ephemeral key") (hs_ephemeral_secret h);
    peer_eph ← ok_or (Handshake "no peer ephemeral key") (hs_peer_ephemeral_pk h);
    peer_static ← ok_or (Handshake "no peer static key") (hs_peer_static_pk h);
    dh_ee ← dh_or_handshake "dh_ee" eph_secret peer_eph;
    dh_es ← (if hs_is_initiator h then dh_or_handshake "dh_es" eph_secret peer_static
             else dh_or_handshake "dh_es" (hs_static_secret h) peer_eph);
    dh_se ← (if hs_is_initiator h then dh_or_handshake "dh_se" (hs_static_secret h) peer_eph
             else dh_or_handshake "dh_se" eph_secret peer_static);
    dh_ss ← dh_or_handshake "dh_ss" (hs_static_secret h) peer_static;
    let ikm := dh_ee ++ dh_es ++ dh_se ++ dh_ss ++ hs_transcript h in
    okm ← map_err (fun e => Handshake ("shared secret HKDF: " +:+ e))
            (hkdf_sha3_256 ikm None (as_bytes SS_LABEL) 32);
    let sid_input := hs_transcript h ++ okm in
    Ok (okm, sha3_256 sid_input).

(** ** The ratcheted session *)

Record RatchetedSession := MkRatchetedSession {
  rs_keys : RatchetKeys;
  rs_send_nonce : NonceTracker;
  rs_replay : ReplayWindow;
  rs_usage : AeadUsageTracker;
  rs_send_seq : Z
}.

Definition session_new (keys : RatchetKeys) (limits : AeadLimits) : RatchetedSession :=
  MkRatchetedSession keys (nonce_new "send") (replay_new 1024) (usage_new limits) 0.

Definition session_with_defaults (keys : RatchetKeys) : RatchetedSession := session_new keys default_limits.

Definition set_keys (k : RatchetKeys) (s : RatchetedSession) : RatchetedSession :=
  MkRatchetedSession k (rs_send_nonce s) (rs_replay s) (rs_usage s) (rs_send_seq s).
Definition set_send_nonce (n : NonceTracker) (s : RatchetedSession) : RatchetedSession :=
  MkRatchetedSession (rs_keys s) n (rs_replay s) (rs_usage s) (rs_send_seq s).
Definition set_replay (w : ReplayWindow) (s : RatchetedSession) : RatchetedSession :=
  MkRatchetedSession (rs_keys s) (rs_send_nonce s) w (rs_usage s) (rs_send_seq s).
Definition set_usage (u : AeadUsageTracker) (s : RatchetedSession) : RatchetedSession :=
  MkRatchetedSession (rs_keys s) (rs_send_nonce s) (rs_replay s) u (rs_send_seq s).
Definition set_send_seq (q : Z) (s : RatchetedSession) : RatchetedSession :=
  MkRatchetedSession (rs_keys s) (rs_send_nonce s) (rs_replay s) (rs_usage s) q.
Definition set_send_chain (c : bytes) (s : RatchetedSession) : RatchetedSession :=
  set_keys (MkRatchetKeys (rk_root (rs_keys s)) c (rk_recv_chain (rs_keys s))) s.
Definition set_recv_chain (c : bytes) (s : RatchetedSession) : RatchetedSession :=
  set_keys (MkRatchetKeys (rk_root (rs_keys s)) (rk_send_chain (rs_keys s)) c) s.

Definition encrypt (plaintext : bytes) : SE RatchetedSession ChannelError ChannelMessage :=
  _ ← on_field rs_usage set_usage (check_send (Z.of_nat (length plaintext)));
  send_chain ← gets (fun s => rk_send_chain (rs_keys s));
  '(msg_key, next_chain) ← lift (derive_message_key send_chain);
  _ ← modify (set_send_chain next_chain);
  nonce ← on_field rs_send_nonce set_send_nonce next_nonce;
  ciphertext ← lift (map_err (fun e => Key ("encrypt failed: " +:+ e)) (xchacha_encrypt msg_key nonce plaintext));
  seq ← gets rs_send_seq;
  _ ← modify (fun s => set_send_seq (wrap_u64 (rs_send_seq s + 1)) s);
  mret (MkChannelMessage MSG_DATA seq nonce ciphertext).

Definition decrypt (msg : ChannelMessage) : SE RatchetedSession ChannelError bytes :=
  _ ← on_field rs_replay set_replay (fun w => accept w (cm_seq msg));
  _ ← on_field rs_usage set_usage (check_recv (Z.of_nat (length (cm_ciphertext msg))));
  recv_chain ← gets (fun s => rk_recv_chain (rs_keys s));
  '(recv_key, next_chain) ← lift (derive_message_key recv_chain);
  _ ← modify (set_recv_chain next_chain);
  lift (map_err (fun e => Decryption ("AEAD failed: " +:+ e))
          (xchacha_decrypt recv_key (cm_nonce msg) (cm_ciphertext msg))).

Definition session_needs_rotation (s : RatchetedSession) : bool := needs_rotation (rs_usage s).

Definition rotate (new_keys : RatchetKeys) (s : RatchetedSession) : RatchetedSession :=
  MkRatchetedSession new_keys (nonce_new "send") (replay_new 1024) (usage_reset (rs_usage s)) 0.

End Code.

(** ** Putting it together ([cmd_demo] of [commands.rs]) *)

Section Demo.
Context `{Sdk, ChanCrypto}.

Definition at_stage {A : Type} (stage : string) (r : result ChannelError A) : result string A :=
  map_err (fun e => stage +:+ ": " +:+ channel_error_display e) r.

(** The three messages between the two sides, up to [finalize]. *)
Definition run_handshake (draw_a draw_b : result string X25519KeyPair) (alice bob : HandshakeState)
    : result string (HandshakeState * HandshakeState) :=
  let '(r1, alice) := start draw_a alice in
  msg1 ← at_stage "msg1" r1;
  let '(r2, bob) := process_msg1 draw_b msg1 bob in
  msg2 ← at_stage "msg2" r2;
  let '(r3, alice) := process_msg2 msg2 alice in
  msg3 ← at_stage "msg3" r3;
  let '(r4, bob) := process_msg3 msg3 bob in
  _ ← at_stage "finalize bob" r4;
  Ok (alice, bob).

(** Handshake, key schedule and the two sessions. *)
Definition connect (draw_a draw_b : result string X25519KeyPair) (alice_secret bob_secret : X25519KeyPair)
    (limits : AeadLimits) : result string (RatchetedSession * RatchetedSession) :=
  '(alice_hs, bob_hs) ← run_handshake draw_a draw_b
                          (handshake_new alice_secret (x25519_public_key bob_secret) true)
                          (handshake_new bob_secret (x25519_public_key alice_secret) false);
  '(alice_ss, alice_sid) ← at_stage "alice finalize" (finalize alice_hs);
  '(bob_ss, bob_sid) ← at_stage "bob finalize" (finalize bob_hs);
  alice_keys ← at_stage "ratchet" (init_ratchet alice_ss true);
  bob_keys ← at_stage "ratchet" (init_ratchet bob_ss false);
  Ok (session_new alice_keys limits, session_new bob_keys limits).

(** Encrypt and frame; decode, parse and decrypt. *)
Definition send_frame (plaintext : bytes) : SE RatchetedSession string bytes := fun s =>
  let '(r, s') := encrypt plaintext s in
  (msg ← at_stage "encrypt" r; at_stage "encode" (encode_typed MSG_DATA (channel_message_to_bytes msg)), s').

Definition recv_frame (frame : bytes) : SE RatchetedSession string bytes := fun s =>
  match at_stage "decode" (decode_typed frame) with
  | Err e => (Err e, s)
  | Ok None => (Err "incomplete frame", s)
  | Ok (Some (_, inner, _)) =>
      match at_stage "parse" (channel_message_from_bytes inner) with
      | Err e => (Err e, s)
      | Ok recv_msg => let '(r, s') := decrypt recv_msg s in (at_stage "decrypt" r, s')
      end
  end.

(** ** Two sessions and the frames between them

    Both sides send and receive in any order; each direction is a link that
    delivers frames in the order they were sent. *)

Inductive Act := SendA (p : bytes) | SendB (p : bytes) | RecvA | RecvB.

Record World := MkWorld {
  w_a : RatchetedSession; w_b : RatchetedSession;
  w_ab : list bytes; w_ba : list bytes;
  sent_ab : list bytes; sent_ba : list bytes;
  got_b : list (result string bytes); got_a : list (result string bytes)
}.

Definition world_new (a b : RatchetedSession) : World := MkWorld a b [] [] [] [] [] [].

Definition act (w : World) (x : Act) : World :=
  match x with
  | SendA p => match send_frame p (w_a w) with
      | (Ok f, a) => MkWorld a (w_b w) (w_ab w ++ [f]) (w_ba w) (sent_ab w ++ [p]) (sent_ba w) (got_b w) (got_a w)
      | (Err _, a) => MkWorld a (w_b w) (w_ab w) (w_ba w) (sent_ab w) (sent_ba w) (got_b w) (got_a w)
      end
  | SendB p => match send_frame p (w_b w) with
      | (Ok f, b) => MkWorld (w_a w) b (w_ab w) (w_ba w ++ [f]) (sent_ab w) (sent_ba w ++ [p]) (got_b w) (got_a w)
      | (Err _, b) => MkWorld (w_a w) b (w_ab w) (w_ba w) (sent_ab w) (sent_ba w) (got_b w) (got_a w)
      end
  | RecvB => match w_ab w with
      | [] => w
      | f :: fs => let '(r, b) := recv_frame f (w_b w) in
          MkWorld (w_a w) b fs (w_ba w) (sent_ab w) (sent_ba w) (got_b w ++ [r]) (got_a w)
      end
  | RecvA => match w_ba w with
      | [] => w
      | f :: fs => let '(r, a) := recv_frame f (w_a w) in
          MkWorld a (w_b w) (w_ab w) fs (sent_ab w) (sent_ba w) (got_b w) (got_a w ++ [r])
      end
  end.

Definition run_acts (w : World) (xs : list Act) : World := foldl act w xs.

End Demo.

(** ** Properties of origin-channel sessions

    Agreement of the handshake, delivery of the ratcheted session under any
    interleaving over in-order links, and what an unauthenticated message
    does to a receiver. *)

(** ** The handshake *)

Section Handshake.
Context `{Sdk, ChanCrypto} {OK : ChanCryptoOk}.

Lemma dh_or_handshake_agree (op : string) (a b : X25519KeyPair) :
  (exists x, dh_or_handshake op a (x25519_public_key b) = Ok x /\ dh_or_handshake op b (x25519_public_key a) = Ok x)
  \/ (exists e f, dh_or_handshake op a (x25519_public_key b) = Err e /\ dh_or_handshake op b (x25519_public_key a) = Err f).
Proof.
  unfold dh_or_handshake, diffie_hellman. pose proof (x25519_agree a b) as E.
  destruct (x25519_diffie_hellman a _), (x25519_diffie_hellman b _); cbn in *; simplify_eq; eauto.
Qed.

(** The states after an undisturbed exchange. *)
Definition done_a (sa ea : X25519KeyPair) (sb eb : bytes) : HandshakeState :=
  MkHandshakeState sa (Some ea) (Some sb) (Some eb) (x25519_public_key ea ++ eb) true 3.
Definition done_b (sb eb : X25519KeyPair) (sa ea : bytes) : HandshakeState :=
  MkHandshakeState sb (Some eb) (Some sa) (Some ea) (ea ++ x25519_public_key eb) false 3.

Lemma run_handshake_done (sa ea sb eb : X25519KeyPair) :
  run_handshake (Ok ea) (Ok eb) (handshake_new sa (x25519_public_key sb) true)
                (handshake_new sb (x25519_public_key sa) false)
  = Ok (done_a sa ea (x25519_public_key sb) (x25519_public_key eb),
        done_b sb eb (x25519_public_key sa) (x25519_public_key ea)).
Proof. reflexivity. Qed.

Lemma finalize_agree (sa ea sb eb : X25519KeyPair) (x : bytes * bytes) :
  finalize (done_a sa ea (x25519_public_key sb) (x25519_public_key eb)) = Ok x <->
  finalize (done_b sb eb (x25519_public_key sa) (x25519_public_key ea)) = Ok x.
Proof.
  unfold finalize, done_a, done_b. cbn -[dh_or_handshake].
  destruct (dh_or_handshake_agree "dh_ee" ea eb) as [(? & -> & ->)|(? & ? & -> & ->)]; [|done]; cbn -[dh_or_handshake].
  destruct (dh_or_handshake_agree "dh_es" ea sb) as [(? & -> & ->)|(? & ? & -> & ->)]; [|done]; cbn -[dh_or_handshake].
  destruct (dh_or_handshake_agree "dh_se" sa eb) as [(? & -> & ->)|(? & ? & -> & ->)]; [|done]; cbn -[dh_or_handshake].
  destruct (dh_or_handshake_agree "dh_ss" sa sb) as [(? & -> & ->)|(? & ? & -> & ->)]; done.
Qed.

Lemma finalize_id (h : HandshakeState) (ss sid : bytes) :
  finalize h = Ok (ss, sid) -> sid = sha3_256 (hs_transcript h ++ ss) /\ length ss = 32%nat.
Proof.
  intros Hf. unfold finalize in Hf. destruct (_ <? _); [done|]. inv_ok Hf. split; [done|].
  match goal with E : map_err _ (hkdf_sha3_256 _ _ _ _) = _ |- _ => apply map_err_Ok, hkdf_length in E; [done|lia] end.
Qed.

(** Completed handshakes with equal session ids had equal transcripts and
    secrets, or a collision of the hash is at hand. *)
Lemma session_id_binds (h1 h2 : HandshakeState) (s1 s2 sid : bytes) :
  finalize h1 = Ok (s1, sid) -> finalize h2 = Ok (s2, sid) ->
  (hs_transcript h1 = hs_transcript h2 /\ s1 = s2) \/ collision sha3_256.
Proof.
  intros [E1 L1]%finalize_id [E2 L2]%finalize_id.
  destruct (hash_eq_or_collision sha3_256 (hs_transcript h1 ++ s1) (hs_transcript h2 ++ s2)) as [E|]; [congruence| |by right].
  left. apply app_inj_2 in E; [done|congruence].
Qed.

(** The chains of the two sides are crossed. *)
Lemma init_ratchet_crossed (ss : bytes) :
  exists ka kb, init_ratchet ss true = Ok ka /\ init_ratchet ss false = Ok kb
    /\ rk_root ka = rk_root kb /\ rk_send_chain ka = rk_recv_chain kb /\ rk_send_chain kb = rk_recv_chain ka.
Proof.
  unfold init_ratchet. destruct (hkdf_total ss None (as_bytes RATCHET_INIT_LABEL) 96 ltac:(lia)) as (okm & -> & _).
  cbn. by do 2 eexists.
Qed.

End Handshake.

(** ** One direction of a session pair *)

Section Delivery.
Context `{Sdk, ChanCrypto} {OK : ChanCryptoOk} (limits : AeadLimits).

(** Frames in flight: the encryptions of [ps] from chain [c] and sequence
    number [n], which leave the sender at chain [c']. *)
Fixpoint in_flight (c : bytes) (n : Z) (fs : list bytes) (ps : list bytes) (c' : bytes) : Prop :=
  match fs, ps with
  | [], [] => c = c'
  | f :: fs', p :: ps' => exists mk nx ct,
      derive_message_key c = Ok (mk, nx)
      /\ xchacha_decrypt mk (counter_to_nonce n) ct = Ok p /\ length ct = (length p + 16)%nat
      /\ encode_typed MSG_DATA (channel_message_to_bytes (MkChannelMessage MSG_DATA n (counter_to_nonce n) ct)) = Ok f
      /\ in_flight nx (n + 1) fs' ps' c'
  | _, _ => False
  end.

Definition total_len (ps : list bytes) : Z := list_sum (map (fun p => Z.of_nat (length p)) ps).

(** The sending half of [s], the receiving half of [r] and the frames
    between them. *)
Record link (s r : RatchetedSession) (fs ps : list bytes) : Prop := {
  l_flight : in_flight (rk_recv_chain (rs_keys r)) (rs_send_seq s - Z.of_nat (length fs)) fs ps (rk_send_chain (rs_keys s));
  l_nonce : nt_next (rs_send_nonce s) = rs_send_seq s;
  l_limits : ut_limits (rs_usage s) = limits /\ ut_limits (rs_usage r) = limits;
  l_send : usage_ok limits (ut_send (rs_usage s)) /\ du_messages (ut_send (rs_usage s)) = rs_send_seq s;
  l_recv : 0 <= du_messages (ut_recv (rs_usage r)) /\ du_messages (ut_recv (rs_usage r)) = rs_send_seq s - Z.of_nat (length fs)
           /\ 0 <= du_bytes (ut_recv (rs_usage r))
           /\ du_bytes (ut_recv (rs_usage r)) + total_len ps = du_bytes (ut_send (rs_usage s));
  l_replay : exists seen, sim 1024 (rs_replay r) seen /\ Forall (fun q => q < rs_send_seq s - Z.of_nat (length fs)) seen
}.

Lemma in_flight_snoc (c : bytes) (n : Z) (fs ps : list bytes) (c' mk nx ct f p : bytes) :
  in_flight c n fs ps c' -> derive_message_key c' = Ok (mk, nx) ->
  xchacha_decrypt mk (counter_to_nonce (n + Z.of_nat (length fs))) ct = Ok p -> length ct = (length p + 16)%nat ->
  encode_typed MSG_DATA (channel_message_to_bytes (MkChannelMessage MSG_DATA (n + Z.of_nat (length fs))
     (counter_to_nonce (n + Z.of_nat (length fs))) ct)) = Ok f ->
  in_flight c n (fs ++ [f]) (ps ++ [p]) nx.
Proof.
  revert c n ps. induction fs as [|f0 fs IH]; intros c n [|p0 ps] Hfl Hk Hd Hl Hf; try done.
  - cbn in *. rewrite Z.add_0_r in *. subst c'. by exists mk, nx, ct.
  - cbn [in_flight app] in *. destruct Hfl as (mk0 & nx0 & ct0 & ? & ? & ? & ? & Hfl).
    exists mk0, nx0, ct0. do 4 (split; [done|]).
    replace (n + Z.of_nat (length (f0 :: fs))) with (n + 1 + Z.of_nat (length fs)) in * by (cbn [length]; lia).
    by eapply IH.
Qed.

Lemma in_flight_length (c : bytes) (n : Z) (fs ps : list bytes) (c' : bytes) :
  in_flight c n fs ps c' -> length fs = length ps.
Proof.
  revert c n ps. induction fs as [|f fs IH]; intros c n [|p ps] Hf; try done.
  cbn in Hf. destruct Hf as (? & ? & ? & _ & _ & _ & _ & Hf). cbn. f_equal. by eapply IH.
Qed.

Definition send_half (s : RatchetedSession) :=
  (rk_send_chain (rs_keys s), rs_send_nonce s, ut_send (rs_usage s), ut_limits (rs_usage s), rs_send_seq s).
Definition recv_half (s : RatchetedSession) :=
  (rk_recv_chain (rs_keys s), rs_replay s, ut_recv (rs_usage s), ut_limits (rs_usage s)).

Lemma link_halves (s s' r r' : RatchetedSession) (fs ps : list bytes) :
  send_half s' = send_half s -> recv_half r' = recv_half r -> link s r fs ps -> link s' r' fs ps.
Proof.
  unfold send_half, recv_half. intros [= E1 E2 E3 E4 E5] [= E6 E7 E8 E9] [? ? ? ? ? ?].
  constructor; rewrite ?E1, ?E2, ?E3, ?E4, ?E5, ?E6, ?E7, ?E8, ?E9; done.
Qed.

(** Whether [p] fits into the sender's budget. *)
Definition fits (s : RatchetedSession) (p : bytes) : bool :=
  (du_messages (ut_send (rs_usage s)) <? max_messages limits)
  && (du_bytes (ut_send (rs_usage s)) + Z.of_nat (length p) <=? max_bytes limits).

Hypothesis Hlim : limits_ok limits.
Hypothesis Hmax : max_bytes limits <= 2 ^ 63.

Lemma encrypt_spec (s r : RatchetedSession) (fs ps : list bytes) (p : bytes) :
  link s r fs ps -> Z.of_nat (length p) < 2 ^ 63 ->
  if fits s p then exists mk nx ct s',
    derive_message_key (rk_send_chain (rs_keys s)) = Ok (mk, nx)
    /\ xchacha_decrypt mk (counter_to_nonce (rs_send_seq s)) ct = Ok p /\ length ct = (length p + 16)%nat
    /\ encrypt p s = (Ok (MkChannelMessage MSG_DATA (rs_send_seq s) (counter_to_nonce (rs_send_seq s)) ct), s')
    /\ recv_half s' = recv_half s
    /\ send_half s' = (nx, MkNonceTracker (rs_send_seq s + 1) (nt_label (rs_send_nonce s)),
         MkDirectionUsage (du_messages (ut_send (rs_usage s)) + 1) (du_bytes (ut_send (rs_usage s)) + Z.of_nat (length p)),
         limits, rs_send_seq s + 1)
  else exists e, encrypt p s = (Err (UsageLimitExceeded e), s).
Proof.
  intros [Hf Hn [El _] [Hu Hm] Hr _] Hp. unfold encrypt, fits.
  pose proof (check_send_spec (Z.of_nat (length p)) (rs_usage s)) as Hc. rewrite El in Hc.
  unfold limits_ok, usage_ok, in_u64, u64_max in *. specialize (Hc ltac:(lia) ltac:(lia) ltac:(lia) ltac:(lia)).
  unfold mbind, SE_mbind, gets, lift, modify, mret, SE_mret, on_field.
  destruct (_ && _) eqn:Efit.
  - apply andb_true_iff in Efit as [Em%Z.ltb_lt Eb%Z.leb_le]. rewrite Hc.
    destruct (derive_message_key_ok (rk_send_chain (rs_keys s))) as (mk & nx & Ek & Hmk & Hnx).
    destruct (xchacha_total mk (counter_to_nonce (rs_send_seq s)) p Hmk (counter_to_nonce_length _)) as (ct & Ee & Hct & Ed).
    exists mk, nx, ct. eexists. split; [done|]. split; [done|]. split; [done|].
    cbn [rs_keys set_usage rk_send_chain]. rewrite Ek. cbn [set_send_chain set_keys rs_send_nonce set_usage].
    unfold next_nonce. rewrite Hn. unfold u64_max. cbn [nt_next]. destruct (Z.eqb_spec (rs_send_seq s) (2 ^ 64 - 1)); [lia|].
    rewrite Ee. cbn [map_err rs_send_seq nt_next set_send_nonce set_send_chain set_keys set_usage].
    rewrite !wrap_u64_id by (unfold in_u64, u64_max; lia). split; [done|].
    unfold recv_half, send_half. cbn. by rewrite El.
  - destruct Hc as [e Hc]. rewrite Hc. exists e. by destruct s.
Qed.

Lemma total_len_snoc (ps : list bytes) (p : bytes) : total_len (ps ++ [p]) = total_len ps + Z.of_nat (length p).
Proof. unfold total_len. rewrite map_app, list_sum_app. cbn. lia. Qed.

Lemma total_len_cons (p : bytes) (ps : list bytes) : total_len (p :: ps) = Z.of_nat (length p) + total_len ps.
Proof. done. Qed.

Lemma total_len_nonneg (ps : list bytes) : 0 <= total_len ps.
Proof. induction ps as [|p ps IH]; [done|]. rewrite total_len_cons. lia. Qed.

Lemma send_frame_spec (s r : RatchetedSession) (fs ps : list bytes) (p : bytes) :
  link s r fs ps -> Z.of_nat (length p) <= MAX_FRAME_SIZE - 50 ->
  if fits s p then exists f s', send_frame p s = (Ok f, s') /\ recv_half s' = recv_half s
                                /\ link s' r (fs ++ [f]) (ps ++ [p])
  else exists e, send_frame p s = (Err e, s).
Proof.
  intros Hl Hp. pose proof (encrypt_spec s r fs ps p Hl) as Henc. unfold MAX_FRAME_SIZE in *.
  specialize (Henc ltac:(lia)). destruct (fits s p) eqn:Efit; unfold send_frame.
  - destruct Henc as (mk & nx & ct & s' & Ek & Ed & Hct & -> & Hrh & Hsh). cbn [at_stage map_err mbind result_mbind].
    set (msg := MkChannelMessage _ _ _ _).
    assert (exists f, encode_typed MSG_DATA (channel_message_to_bytes msg) = Ok f) as [f Ef].
    { eexists. apply encode_frame_ok. unfold channel_message_to_bytes, msg. cbn [length cm_msg_type cm_seq cm_nonce cm_ciphertext].
      rewrite !length_app, be_bytes_length, counter_to_nonce_length, Hct. unfold MAX_FRAME_SIZE. cbn [length]. lia. }
    exists f, s'. rewrite Ef. split; [done|]. split; [done|].
    destruct Hl as [Hf Hn [El Elr] [Hu Hm] Hr Hrep]. unfold send_half in Hsh. injection Hsh as Ec En Eu Elim Eq.
    pose proof (in_flight_length _ _ _ _ _ Hf) as Hlen.
    apply andb_true_iff in Efit as [Em%Z.ltb_lt Eb%Z.leb_le].
    assert (rs_send_seq s' - Z.of_nat (length (fs ++ [f])) = rs_send_seq s - Z.of_nat (length fs)) as Eseq
      by (rewrite Eq, length_app; cbn [length]; lia).
    constructor; rewrite ?Eseq, ?En, ?Eu, ?Elim, ?Eq, ?Ec; try done.
    + eapply in_flight_snoc; [done|done|..]; rewrite ?Z.sub_add; done.
    + cbn. unfold usage_ok in *. cbn. lia.
    + rewrite total_len_snoc. cbn. lia.
  - destruct Henc as [e ->]. by eexists.
Qed.

Lemma recv_frame_spec (s r : RatchetedSession) (f p : bytes) (fs ps : list bytes) :
  link s r (f :: fs) (p :: ps) ->
  exists r', recv_frame f r = (Ok p, r') /\ send_half r' = send_half r /\ link s r' fs ps.
Proof.
  intros [Hf Hn [El Elr] [Hu Hm] Hr (seen & Hsim & Hseen)].
  set (n := rs_send_seq s - Z.of_nat (length (f :: fs))) in *.
  assert (rs_send_seq s - Z.of_nat (length fs) = n + 1) as En by (unfold n; cbn [length]; lia).
  cbn [in_flight] in Hf. destruct Hf as (mk & nx & ct & Ek & Ed & Hct & Ef & Hf).
  unfold limits_ok, usage_ok, in_u64, u64_max in *.
  assert (0 <= total_len ps) by apply total_len_nonneg.
  rewrite total_len_cons in Hr.
  assert (in_u64 n) as Hn64 by (unfold in_u64, u64_max; lia).
  unfold recv_frame. rewrite <- (app_nil_r f), (encode_typed_decode _ _ [] _ Ef). cbn [at_stage map_err].
  rewrite channel_message_from_to by (cbn; rewrite ?Hct, ?counter_to_nonce_length; (split; done) || lia).
  cbn [at_stage map_err]. unfold decrypt. unfold mbind, SE_mbind, gets, lift, modify, on_field. cbn [cm_seq cm_nonce cm_ciphertext].
  pose proof (accept_sim 1024 (rs_replay r) seen n ltac:(unfold size_ok; lia) Hsim Hn64) as Ha.
  rewrite (spec_fresh_above 1024 n seen) in Ha by (done || lia).
  destruct Ha as (w' & -> & Hsim'). cbn [rs_usage set_replay].
  pose proof (check_recv_spec (Z.of_nat (length ct)) (rs_usage r)) as Hc. rewrite Elr in Hc.
  unfold limits_ok, usage_ok, in_u64, u64_max in Hc. specialize (Hc ltac:(lia) ltac:(lia) ltac:(lia) ltac:(lia)).
  rewrite (proj2 (andb_true_iff _ _)) in Hc by (split; [apply Z.ltb_lt|apply Z.leb_le]; lia). rewrite Hc.
  cbn [rs_keys set_usage set_replay]. rewrite Ek, Ed. cbn [map_err]. eexists. split; [done|]. split; [unfold send_half; cbn; by rewrite Elr|].
  constructor; cbn; rewrite ?En; try done.
  - lia.
  - exists (n :: seen). split; [done|]. constructor; [lia|]. eapply Forall_impl; [done|]. cbn. intros; lia.
Qed.

(** ** Interleavings *)

(** One direction: what was sent is what was received followed by what is in
    flight. *)
Definition delivers (s r : RatchetedSession) (fs sent : list bytes) (got : list (result string bytes)) : Prop :=
  exists done pending, link s r fs pending /\ sent = done ++ pending /\ got = map Ok done.

Definition world_ok (w : World) : Prop :=
  delivers (w_a w) (w_b w) (w_ab w) (sent_ab w) (got_b w) /\ delivers (w_b w) (w_a w) (w_ba w) (sent_ba w) (got_a w).

Definition act_ok (x : Act) : Prop :=
  match x with SendA p | SendB p => Z.of_nat (length p) <= MAX_FRAME_SIZE - 50 | _ => True end.

Lemma delivers_halves (s s' r r' : RatchetedSession) (fs sent : list bytes) (got : list (result string bytes)) :
  send_half s' = send_half s -> recv_half r' = recv_half r -> delivers s r fs sent got -> delivers s' r' fs sent got.
Proof. intros Hs Hr (d & p & Hl & ?). exists d, p. split; [|done]. by eapply link_halves. Qed.

Lemma delivers_send (s r : RatchetedSession) (fs sent : list bytes) (got : list (result string bytes)) (p : bytes) :
  delivers s r fs sent got -> Z.of_nat (length p) <= MAX_FRAME_SIZE - 50 ->
  match send_frame p s with
  | (Ok f, s') => delivers s' r (fs ++ [f]) (sent ++ [p]) got /\ recv_half s' = recv_half s
  | (Err _, s') => s' = s
  end.
Proof.
  intros (d & ps & Hl & -> & ->) Hp. pose proof (send_frame_spec s r fs ps p Hl Hp) as Hs. destruct (fits s p).
  - destruct Hs as (f & s' & -> & Hr & Hl'). split; [|done]. exists d, (ps ++ [p]). by rewrite app_assoc.
  - by destruct Hs as [e ->].
Qed.

Lemma delivers_recv (s r : RatchetedSession) (f : bytes) (fs sent : list bytes) (got : list (result string bytes)) :
  delivers s r (f :: fs) sent got ->
  let '(x, r') := recv_frame f r in delivers s r' fs sent (got ++ [x]) /\ send_half r' = send_half r.
Proof.
  intros (d & [|p ps] & Hl & -> & ->); [by destruct (l_flight _ _ _ _ Hl)|].
  destruct (recv_frame_spec s r f p fs ps Hl) as (r' & -> & Hs & Hl'). split; [|done].
  exists (d ++ [p]), ps. rewrite <- app_assoc, map_app. done.
Qed.

Lemma act_preserves (w : World) (x : Act) : world_ok w -> act_ok x -> world_ok (act w x).
Proof.
  intros [Hab Hba] Hx. destruct x as [p|p| |]; cbn [act].
  - pose proof (delivers_send _ _ _ _ _ p Hab Hx) as Hs. destruct (send_frame p (w_a w)) as [[f|e] a]; cbn.
    + destruct Hs as [Hs Hr]. split; [done|]. by eapply (delivers_halves (w_b w) _ (w_a w)).
    + by subst a.
  - pose proof (delivers_send _ _ _ _ _ p Hba Hx) as Hs. destruct (send_frame p (w_b w)) as [[f|e] b]; cbn.
    + destruct Hs as [Hs Hr]. split; [|done]. by eapply (delivers_halves (w_a w) _ (w_b w)).
    + by subst b.
  - destruct (w_ba w) as [|f fs] eqn:E; [by split; rewrite ?E|]. pose proof (delivers_recv _ _ _ _ _ _ Hba) as Hr.
    destruct (recv_frame f (w_a w)) as [x a]. destruct Hr as [Hr Hs]. split; [|done].
    by eapply (delivers_halves (w_a w) _ (w_b w)).
  - destruct (w_ab w) as [|f fs] eqn:E; [by split; rewrite ?E|]. pose proof (delivers_recv _ _ _ _ _ _ Hab) as Hr.
    destruct (recv_frame f (w_b w)) as [x b]. destruct Hr as [Hr Hs]. split; [done|].
    by eapply (delivers_halves (w_b w) _ (w_a w)).
Qed.

Lemma run_acts_ok (w : World) (xs : list Act) : world_ok w -> Forall act_ok xs -> world_ok (run_acts w xs).
Proof.
  intros Hw Hx. revert w Hw. induction Hx as [|x xs Hx _ IH]; intros w Hw; [done|].
  apply IH. by apply act_preserves.
Qed.

Lemma link_new (ka kb : RatchetKeys) :
  rk_send_chain ka = rk_recv_chain kb -> link (session_new ka limits) (session_new kb limits) [] [].
Proof.
  intros E. unfold limits_ok, in_u64 in Hlim. constructor; cbn; try done.
  - unfold usage_ok. cbn. lia.
  - exists []. split; [|constructor]. apply replay_new_sim. unfold size_ok. lia.
Qed.

Lemma connect_crossed (da db : result string X25519KeyPair) (sa sb : X25519KeyPair) (a b : RatchetedSession) :
  connect da db sa sb limits = Ok (a, b) ->
  exists ka kb, a = session_new ka limits /\ b = session_new kb limits
    /\ rk_send_chain ka = rk_recv_chain kb /\ rk_send_chain kb = rk_recv_chain ka.
Proof.
  unfold connect. intros Hc. destruct da as [ea|], db as [eb|]; try done.
  rewrite run_handshake_done in Hc. cbn [mbind result_mbind] in Hc.
  pose proof (finalize_agree sa ea sb eb) as Hag.
  destruct (finalize (done_a _ _ _ _)) as [[ss sid]|]; [|done].
  rewrite (proj1 (Hag (ss, sid)) eq_refl) in Hc.
  destruct (init_ratchet_crossed ss) as (ka & kb & Ea & Eb & _ & H1 & H2). cbn in Hc. rewrite Ea, Eb in Hc. cbn in Hc.
  injection Hc as <- <-. by exists ka, kb.
Qed.

End Delivery.

(** ** A concrete instance

    Toy primitives to evaluate on: HKDF prepends a byte of its label to its
    inputs, the AEAD appends halves of key and nonce as tag, and the key
    agreement adds keys byte by byte. *)

Module ToyChan.

Definition label_byte (info : bytes) : ascii := byte_of (le_val (map (fun a => byte_of (code a)) info) + Z.of_nat (length info)).
Definition pad (n : nat) (b : bytes) : bytes := take n (b ++ replicate n (byte_of 0)).
Definition tag (k n : bytes) : bytes := take 8 k ++ take 8 n.
Definition seal (k n p : bytes) : result string bytes :=
  if (length k =? 32)%nat && (length n =? 24)%nat then Ok (p ++ tag k n) else Err "bad key or nonce".
Definition open (k n c : bytes) : result string bytes :=
  if bool_decide (drop (length c - 16) c = tag k n) then Ok (take (length c - 16) c) else Err "bad tag".

Definition crypto : ChanCrypto := {|
  hkdf_sha3_256 ikm salt info n := Ok (pad n (label_byte info :: ikm ++ default [] salt));
  xchacha_encrypt := seal; xchacha_decrypt := open;
  X25519KeyPair := bytes;
  x25519_from_secret_key := Ok;
  x25519_public_key := pad 32;
  x25519_secret_key_bytes b := b;
  x25519_diffie_hellman a pk := Ok (zip_with (fun x y => byte_of (code x + code y)) (pad 32 a) pk)
|}.

Lemma pad_length (n : nat) (b : bytes) : length (pad n b) = n.
Proof. unfold pad. rewrite length_take, length_app, length_replicate. lia. Qed.

#[global] Instance crypto_ok : @ChanCryptoOk crypto.
Proof.
  constructor; cbn.
  - intros ikm salt info n _. eexists; split; [done|]. apply pad_length.
  - intros k n p Hk Hn. unfold seal. rewrite Hk, Hn. cbn [Nat.eqb andb].
    assert (length (tag k n) = 16%nat) as Ht by (unfold tag; rewrite length_app, !length_take; lia).
    eexists; split; [done|]. rewrite length_app, Ht. split; [done|].
    unfold open. rewrite length_app, Ht, Nat.add_sub. rewrite drop_app_length, take_app_length.
    by rewrite bool_decide_eq_true_2.
  - intros a. apply pad_length.
  - intros a b. f_equal. rewrite <- zip_with_flip. apply zip_with_ext; [|done..]. intros x y. unfold flip. f_equal. lia.
Qed.

Definition alice : bytes := [byte_of 1].
Definition bob : bytes := [byte_of 2].
Definition eph_a : bytes := [byte_of 3].
Definition eph_b : bytes := [byte_of 4].

Definition pair : result string (RatchetedSession * RatchetedSession) :=
  @connect Toy.sdk crypto (Ok eph_a) (Ok eph_b) alice bob default_limits.

End ToyChan.

(** ** Properties *)

(** Key agreement: after the three messages, both sides finalize to the same
    shared secret and session id or both fail; and completed handshakes with
    the same session id agree on the transcript and the secret unless a hash
    collision is exhibited. *)
Theorem handshake_agrees `{Sdk, ChanCrypto} {OK : ChanCryptoOk} (sa ea sb eb : X25519KeyPair) :
  exists ha hb,
    run_handshake (Ok ea) (Ok eb) (handshake_new sa (x25519_public_key sb) true)
                  (handshake_new sb (x25519_public_key sa) false) = Ok (ha, hb)
    /\ (forall x, finalize ha = Ok x <-> finalize hb = Ok x)
    /\ (forall h ss ss' sid, finalize ha = Ok (ss, sid) -> finalize h = Ok (ss', sid) ->
          (hs_transcript h = x25519_public_key ea ++ x25519_public_key eb /\ ss' = ss) \/ collision sha3_256).
Proof.
  rewrite run_handshake_done. do 2 eexists. split; [done|]. split; [apply finalize_agree|].
  intros h ss ss' sid H1 H2. destruct (session_id_binds _ _ _ _ _ H2 H1) as [[E1 E2]|]; [left|by right].
  split; [exact E1|done].
Qed.

Lemma handshake_agrees_witness :
  exists ha hb,
    @run_handshake ToyChan.crypto (Ok ToyChan.eph_a) (Ok ToyChan.eph_b)
      (@handshake_new ToyChan.crypto ToyChan.alice (@x25519_public_key ToyChan.crypto ToyChan.bob) true)
      (@handshake_new ToyChan.crypto ToyChan.bob (@x25519_public_key ToyChan.crypto ToyChan.alice) false) = Ok (ha, hb)
    /\ (forall x, @finalize Toy.sdk ToyChan.crypto ha = Ok x <-> @finalize Toy.sdk ToyChan.crypto hb = Ok x).
Proof.
  destruct (@handshake_agrees Toy.sdk ToyChan.crypto ToyChan.crypto_ok ToyChan.alice ToyChan.eph_a ToyChan.bob ToyChan.eph_b)
    as (ha & hb & H1 & H2 & _). exists ha, hb. split; [exact H1|exact H2].
Defined.


Definition toy_acts : list Act := [SendA [byte_of 65]; SendB [byte_of 66; byte_of 67]; SendA []; RecvB; RecvA; SendA [byte_of 68]; RecvB].

(** Sessions of the toy handshake. *)
Definition toy_a : RatchetedSession := match ToyChan.pair with Ok (a, _) => a | Err _ => session_with_defaults (MkRatchetKeys [] [] []) end.
Definition toy_b : RatchetedSession := match ToyChan.pair with Ok (_, b) => b | Err _ => session_with_defaults (MkRatchetKeys [] [] []) end.


Example toy_run_value : got_b (@run_acts ToyChan.crypto (world_new toy_a toy_b) toy_acts) = [Ok [byte_of 65]; Ok []].
Proof. vm_compute. reflexivity. Qed.

(** An unauthenticated frame costs the receiver its position: when the AEAD
    rejects a message, the receive chain has moved on, the message counts
    against the budget and its sequence number is spent, so that the genuine
    message with that number is refused as a replay. *)
Theorem rejected_frame_advances `{ChanCrypto} {OK : ChanCryptoOk}
    (r r' : RatchetedSession) (seen : list Z) (m m' : ChannelMessage) (e : string) :
  sim 1024 (rs_replay r) seen -> in_u64 (cm_seq m) -> cm_seq m' = cm_seq m ->
  decrypt m r = (Err (Decryption e), r') ->
  (exists mk nx, derive_message_key (rk_recv_chain (rs_keys r)) = Ok (mk, nx) /\ rk_recv_chain (rs_keys r') = nx)
  /\ du_messages (ut_recv (rs_usage r')) = wrap_u64 (du_messages (ut_recv (rs_usage r)) + 1)
  /\ decrypt m' r' = (Err (Replay (cm_seq m)), r').
Proof.
  intros Hsim Hq Em Hd. unfold decrypt, mbind, SE_mbind, gets, lift, modify, on_field in *. rewrite Em.
  assert (size_ok 1024) as Hs by (unfold size_ok; lia).
  pose proof (accept_sim 1024 (rs_replay r) seen (cm_seq m) Hs Hsim Hq) as Ha.
  destruct (spec_fresh 1024 seen (cm_seq m)) eqn:Efr; [|by rewrite Ha in Hd].
  destruct Ha as (w' & Ea & Hsim'). rewrite Ea in Hd. cbn [rs_usage set_replay] in Hd.
  unfold check_recv, on_field, check_and_record in Hd.
  destruct (max_messages _ <? _); [done|]. destruct (max_bytes _ <? _); [done|].
  destruct (derive_message_key_ok (rk_recv_chain (rs_keys r))) as (mk & nx & Ek & _ & _).
  cbn [rs_keys set_usage set_replay] in Hd. rewrite Ek in Hd. injection Hd as _ <-. cbn.
  split; [by exists mk, nx|]. split; [done|].
  pose proof (accept_sim 1024 w' (cm_seq m :: seen) (cm_seq m) Hs Hsim' Hq) as Ha.
  replace (spec_fresh _ _ _) with false in Ha; [by rewrite Ha|].
  symmetry. cbn [spec_fresh]. rewrite bool_decide_eq_true_2 by set_solver. apply andb_false_r.
Qed.

(** A forged frame for sequence number 0. *)
Definition forged : ChannelMessage := MkChannelMessage MSG_DATA 0 (replicate 24 (byte_of 0)) (replicate 16 (byte_of 255)).
Definition genuine : ChannelMessage :=
  match @encrypt ToyChan.crypto [byte_of 65] toy_a with (Ok m, _) => m | (Err _, _) => forged end.

Lemma rejected_frame_advances_witness :
  @decrypt ToyChan.crypto genuine (snd (@decrypt ToyChan.crypto forged toy_b))
  = (Err (Replay 0), snd (@decrypt ToyChan.crypto forged toy_b)).
Proof.
  refine (proj2 (proj2 (@rejected_frame_advances ToyChan.crypto ToyChan.crypto_ok
    toy_b _ [] forged genuine "AEAD failed: bad tag" _ _ _ _))).
  - vm_compute. apply (replay_new_sim 1024). vm_compute. split; congruence.
  - split; vm_compute; congruence.
  - vm_compute. reflexivity.
  - vm_compute. reflexivity.
Defined.

(** Messages delivered in the other order are both lost, although the replay
    window accepts them. *)
Example reordered_messages_lost :
  let '(m1, a1) := @encrypt ToyChan.crypto [byte_of 65] toy_a in
  let '(m2, _) := @encrypt ToyChan.crypto [byte_of 66] a1 in
  match m1, m2 with
  | Ok m1, Ok m2 =>
      let '(r2, b1) := @decrypt ToyChan.crypto m2 toy_b in
      let '(r1, _) := @decrypt ToyChan.crypto m1 b1 in
      r2 = Err (Decryption "AEAD failed: bad tag") /\ r1 = Err (Decryption "AEAD failed: bad tag")
  | _, _ => False
  end.
Proof. vm_compute. done. Qed.
