(* ===== verification/NetWire.v ===== *)
(** * Errors, wire types and addresses of origin-network

    [error.rs]; the type byte and framing of [wire.rs]; [address.rs]. *)

From Stdlib Require Import Ascii String.
From S2P Require Import Prelude RustStr Bytes Sdk ChanError ChanWire.

(** ** Errors ([error.rs]) *)

Inductive NetworkError :=
| NetAddress (s : string)
| NetTransport (s : string)
| NetHandshake (s : string)
| NetAuth (s : string)
| NetRateLimited (s : string)
| NetEvicted (s : string)
| NetRelayFull (s : string)
| NetTargetOffline (s : string)
| NetTimeout (s : string)
| NetCodec (s : string)
| NetServiceDenied (s : string)
| NetChannel (s : string)
| NetCrypto (s : string).

Definition network_error_display (e : NetworkError) : string :=
  match e with
  | NetAddress s => "address: " +:+ s
  | NetTransport s => "transport: " +:+ s
  | NetHandshake s => "handshake: " +:+ s
  | NetAuth s => "auth: " +:+ s
  | NetRateLimited s => "rate limited: " +:+ s
  | NetEvicted s => "evicted: " +:+ s
  | NetRelayFull s => "relay full: " +:+ s
  | NetTargetOffline s => "target offline: " +:+ s
  | NetTimeout s => "timeout: " +:+ s
  | NetCodec s => "codec: " +:+ s
  | NetServiceDenied s => "service denied: " +:+ s
  | NetChannel s => "channel: " +:+ s
  | NetCrypto s => "crypto: " +:+ s
  end.

Definition network_error_from_channel (e : ChannelError) : NetworkError := NetChannel (channel_error_display e).

(** ** Wire types ([wire.rs]) *)

Inductive WireType :=
| WAuthClaim | WAuthOk | WAuthReject | WSessionOpen | WSessionClose | WInboxPush | WInboxPull | WProbe
| WAdvertPublish | WAdvertFetch | WMuxFrame | WPresenceSubscribe | WPresenceEvent | WRelayData
| WRelayDataAck | WSessionOpenAck | WError.

#[global] Instance WireType_eq_dec : EqDecision WireType.
Proof. solve_decision. Defined.

(** [{:?}]. *)
Definition wire_debug (t : WireType) : string :=
  match t with
  | WAuthClaim => "AuthClaim" | WAuthOk => "AuthOk" | WAuthReject => "AuthReject" | WSessionOpen => "SessionOpen"
  | WSessionClose => "SessionClose" | WInboxPush => "InboxPush" | WInboxPull => "InboxPull" | WProbe => "Probe"
  | WAdvertPublish => "AdvertPublish" | WAdvertFetch => "AdvertFetch" | WMuxFrame => "MuxFrame"
  | WPresenceSubscribe => "PresenceSubscribe" | WPresenceEvent => "PresenceEvent" | WRelayData => "RelayData"
  | WRelayDataAck => "RelayDataAck" | WSessionOpenAck => "SessionOpenAck" | WError => "Error"
  end.

Definition wire_to_u8 (t : WireType) : ascii :=
  byte_of match t with
  | WAuthClaim => 64 | WAuthOk => 65 | WAuthReject => 66 | WSessionOpen => 67 | WSessionClose => 68
  | WInboxPush => 69 | WInboxPull => 70 | WProbe => 71 | WAdvertPublish => 72 | WAdvertFetch => 73
  | WMuxFrame => 74 | WPresenceSubscribe => 75 | WPresenceEvent => 76 | WRelayData => 77
  | WRelayDataAck => 78 | WSessionOpenAck => 79 | WError => 240
  end.

Definition wire_from_u8 (v : ascii) : option WireType :=
  match code v with
  | 64 => Some WAuthClaim | 65 => Some WAuthOk | 66 => Some WAuthReject | 67 => Some WSessionOpen
  | 68 => Some WSessionClose | 69 => Some WInboxPush | 70 => Some WInboxPull | 71 => Some WProbe
  | 72 => Some WAdvertPublish | 73 => Some WAdvertFetch | 74 => Some WMuxFrame
  | 75 => Some WPresenceSubscribe | 76 => Some WPresenceEvent | 77 => Some WRelayData
  | 78 => Some WRelayDataAck | 79 => Some WSessionOpenAck | 240 => Some WError
  | _ => None
  end.

Definition is_channel_passthrough (v : ascii) : bool := (1 <=? code v) && (code v <=? 63).
Definition is_network_owned (v : ascii) : bool :=
  ((64 <=? code v) && (code v <=? 95)) || ((240 <=? code v) && (code v <=? 255)).

Definition encode_wire (t : WireType) (payload : bytes) : result NetworkError bytes :=
  map_err (fun e => NetCodec (channel_error_display e)) (encode_frame (wire_to_u8 t :: payload)).

Definition decode_wire (buf : bytes) : result NetworkError (option (ascii * bytes * Z)) :=
  map_err (fun e => NetCodec (channel_error_display e)) (decode_typed buf).

(** ** Addresses ([address.rs]) *)

Definition Fingerprint : Type := bytes.

Record OriginAddress := MkOriginAddress {
  identity : Fingerprint;
  device : option Z;
  service : option Z;
  session : option Z
}.

Section Address.
Context `{Sdk}.

Definition fp_to_hex (fp : Fingerprint) : string := hex_encode fp.

Definition from_seed_bytes (seed : bytes) : Fingerprint := sha3_256 seed.

Definition from_hex (s : string) : result NetworkError Fingerprint :=
  b ← map_err (fun e => NetAddress ("bad hex: " +:+ e)) (hex_decode s);
  if negb (length b =? 32)%nat then
    Err (NetAddress ("fingerprint is 32 bytes, got " +:+ show_Z (Z.of_nat (length b))))
  else Ok b.

Definition address_new (identity : Fingerprint) : OriginAddress := MkOriginAddress identity None None None.
Definition with_device (a : OriginAddress) (d : Z) : OriginAddress :=
  MkOriginAddress (identity a) (Some d) (service a) (session a).
Definition with_service (a : OriginAddress) (p : Z) : OriginAddress :=
  MkOriginAddress (identity a) (device a) (Some p) (session a).
Definition with_session (a : OriginAddress) (s : Z) : OriginAddress :=
  MkOriginAddress (identity a) (device a) (service a) (Some s).

(** One more component: the first one missing of device, service, session. *)
Definition parse_part (addr : OriginAddress) (part : list ascii) : result NetworkError OriginAddress :=
  match device addr, service addr, session addr with
  | None, _, _ =>
      match parse_unsigned u32_max part with
      | Some d => Ok (with_device addr d)
      | None => Err (NetAddress ("bad device id '" +:+ of_chars part +:+ "'"))
      end
  | _, None, _ =>
      match parse_unsigned u32_max part with
      | Some p => Ok (with_service addr p)
      | None => Err (NetAddress ("bad service port '" +:+ of_chars part +:+ "'"))
      end
  | _, _, None =>
      match parse_unsigned u64_max part with
      | Some s => Ok (with_session addr s)
      | None => Err (NetAddress ("bad session id '" +:+ of_chars part +:+ "'"))
      end
  | Some _, Some _, Some _ => Err (NetAddress ("too many address components: '" +:+ of_chars part +:+ "'"))
  end.

Fixpoint parse_parts (addr : OriginAddress) (parts : list (list ascii)) : result NetworkError OriginAddress :=
  match parts with
  | [] => Ok addr
  | p :: ps => addr' ← parse_part addr p; parse_parts addr' ps
  end.

Definition address_parse (s : string) : result NetworkError OriginAddress :=
  match strip_prefix (chars "origin:") (chars s) with
  | None => Err (NetAddress "missing 'origin:' scheme prefix")
  | Some [] => Err (NetAddress "empty address body")
  | Some rest =>
      match split_on "/" rest with
      | [] => Err (NetAddress "empty address body")
      | p :: ps => id ← from_hex (of_chars p); parse_parts (address_new id) ps
      end
  end.

Definition show_part (o : option Z) : list ascii := match o with Some n => "/"%char :: show_chars n | None => [] end.

Definition address_display (a : OriginAddress) : string :=
  of_chars (chars "origin:" ++ chars (fp_to_hex (identity a))
            ++ show_part (device a) ++ show_part (service a) ++ show_part (session a)).

End Address.

(** ** Lemmas *)

Lemma parse_part_slash (n : Z) : 0 <= n -> Forall (fun a => a <> "/"%char) (show_chars n).
Proof.
  intros Hn. destruct (show_chars_spec n Hn) as (_ & Hd & _). apply Forall_forall. intros a Ha ->.
  rewrite forallb_forall in Hd. apply list_elem_of_In in Ha. by apply Hd in Ha.
Qed.

(** The components an address prints, in order. *)
Definition components (a : OriginAddress) : list Z :=
  omap (fun o => o) [device a; service a; session a].

Lemma show_parts (a : OriginAddress) :
  show_part (device a) ++ show_part (service a) ++ show_part (session a)
  = concat (map (fun n => "/"%char :: show_chars n) (components a)).
Proof. destruct a as [fp [d|] [p|] [s|]]; cbn; rewrite ?app_nil_r; done. Qed.

Lemma split_components (h : list ascii) (ns : list Z) :
  Forall (fun a => a <> "/"%char) h -> Forall (fun n => 0 <= n) ns ->
  split_on "/" (h ++ concat (map (fun n => "/"%char :: show_chars n) ns)) = h :: map show_chars ns.
Proof.
  intros Hh Hn. revert h Hh. induction Hn as [|n ns Hn _ IH]; intros h Hh; cbn.
  - rewrite app_nil_r. by apply split_on_nil.
  - rewrite split_on_sep by done. f_equal. apply IH. by apply parse_part_slash.
Qed.

(** The machine ranges of the fields. *)
Definition address_ok (a : OriginAddress) : Prop :=
  length (identity a) = 32%nat
  /\ (forall d, device a = Some d -> in_u32 d) /\ (forall p, service a = Some p -> in_u32 p)
  /\ (forall s, session a = Some s -> in_u64 s).

(** Components are given from the left. *)
Definition left_filled (a : OriginAddress) : bool :=
  match device a, service a, session a with
  | None, None, None | Some _, None, None | Some _, Some _, None | Some _, Some _, Some _ => true
  | _, _, _ => false
  end.

Lemma address_parse_display `{Sdk} {HO : HexOk} {HT : HexText} (a : OriginAddress) :
  address_ok a ->
  address_parse (address_display a) = parse_parts (address_new (identity a)) (map show_chars (components a)).
Proof.
  intros (Hl & Hd & Hp & Hs). unfold address_parse, address_display.
  rewrite chars_of_chars, strip_prefix_app. rewrite show_parts. unfold fp_to_hex.
  pose proof (hex_text (identity a)) as Ht. pose proof (hex_text_len (identity a)) as Hlen. rewrite Hl in Hlen.
  destruct (chars (hex_encode (identity a))) as [|c0 h0] eqn:Eh; [done|]. rewrite <- Eh.
  assert (forall X, chars (hex_encode (identity a)) ++ X <> []) as Hne by (intros X; by rewrite Eh).
  specialize (Hne (concat (map (fun n => "/"%char :: show_chars n) (components a)))).
  rewrite split_components.
  - destruct (chars (hex_encode (identity a)) ++ _); [done|].
    rewrite of_chars_chars. unfold from_hex. rewrite hex_roundtrip. cbn. by rewrite Hl.
  - rewrite Eh. eapply Forall_impl; [done|]. cbn. by intros x Hx ->.
  - unfold components, in_u32, in_u64 in *. destruct a as [fp [d|] [p|] [s|]]; cbn in *; repeat constructor; 
      (specialize (Hd _ eq_refl); lia) || (specialize (Hp _ eq_refl); lia) || (specialize (Hs _ eq_refl); lia).
Qed.

Lemma decode_encode_wire (t : WireType) (p rest f : bytes) :
  encode_wire t p = Ok f -> decode_wire (f ++ rest) = Ok (Some (wire_to_u8 t, p, Z.of_nat (length f))).
Proof.
  unfold encode_wire, decode_wire. intros Hf. destruct (encode_frame _) as [f'|] eqn:E; [|done]. injection Hf as <-.
  by rewrite (encode_typed_decode (wire_to_u8 t) p rest f' E).
Qed.

Lemma wire_to_from (v : ascii) (t : WireType) : wire_from_u8 v = Some t -> wire_to_u8 t = v.
Proof.
  unfold wire_from_u8. intros Hv. rewrite <- (byte_of_code v).
  repeat case_match; simplify_eq; reflexivity.
Qed.

(** ** Properties *)

(** Wire types: bytes and types correspond one to one, every type lies in the
    range the network owns, which is disjoint from the range passed through
    to the channel, and a framed message comes back with its type. *)
Theorem wire_types_disjoint (t : WireType) (v : ascii) (p rest f : bytes) :
  wire_from_u8 (wire_to_u8 t) = Some t
  /\ (wire_from_u8 v = Some t <-> v = wire_to_u8 t)
  /\ is_network_owned (wire_to_u8 t) = true
  /\ (is_network_owned v && is_channel_passthrough v = false)
  /\ (encode_wire t p = Ok f -> decode_wire (f ++ rest) = Ok (Some (wire_to_u8 t, p, Z.of_nat (length f)))).
Proof.
  assert (wire_from_u8 (wire_to_u8 t) = Some t) as E by (by destruct t).
  split; [done|]. split; [|split; [by destruct t|split]].
  - split; [|by intros ->]. intros Hv. symmetry. by apply wire_to_from.
  - unfold is_network_owned, is_channel_passthrough. lia.
  - apply decode_encode_wire.
Qed.

Lemma wire_types_disjoint_witness :
  decode_wire (be_bytes 4 2 ++ [byte_of 71; byte_of 5] ++ [byte_of 0])
  = Ok (Some (wire_to_u8 WProbe, [byte_of 5], 6)).
Proof.
  apply (wire_types_disjoint WProbe (byte_of 71) [byte_of 5] [byte_of 0] (be_bytes 4 2 ++ [byte_of 71; byte_of 5])).
  vm_compute. reflexivity.
Defined.

(** Addresses whose components are given from the left print to a text that
    parses back to them. *)
Theorem address_roundtrip `{Sdk} {HO : HexOk} {HT : HexText} (a : OriginAddress) :
  address_ok a -> left_filled a = true -> address_parse (address_display a) = Ok a.
Proof.
  intros Ha Hf. rewrite address_parse_display by done. destruct Ha as (_ & Hd & Hp & Hs).
  unfold in_u32, in_u64, u32_max, u64_max in *.
  destruct a as [fp [d|] [p|] [s|]]; try done; cbn in Hd, Hp, Hs;
    try specialize (Hd _ eq_refl); try specialize (Hp _ eq_refl); try specialize (Hs _ eq_refl);
    cbn [components omap list_omap map parse_parts parse_part device service session address_new identity];
    repeat (rewrite parse_unsigned_show by (unfold u32_max, u64_max; lia); cbn -[show_chars]); done.
Qed.

Definition toy_address : OriginAddress := MkOriginAddress (replicate 32 (byte_of 171)) (Some 3) (Some 256) None.

Lemma address_roundtrip_witness :
  @address_parse Toy.sdk (@address_display Toy.sdk toy_address) = Ok toy_address.
Proof.
  apply (@address_roundtrip Toy.sdk Toy.hex_ok Toy.hex_text_ok toy_address); [|reflexivity].
  split; [reflexivity|]. split; [|split]; intros ? [= <-]; split; vm_compute; congruence.
Defined.

(** An address with a service and no device prints like the address of a
    device: it parses back as another address. *)
Theorem address_service_ambiguous `{Sdk} {HO : HexOk} {HT : HexText} (fp : Fingerprint) (p : Z) :
  length fp = 32%nat -> in_u32 p ->
  address_display (with_service (address_new fp) p) = address_display (with_device (address_new fp) p)
  /\ address_parse (address_display (with_service (address_new fp) p)) = Ok (with_device (address_new fp) p).
Proof.
  intros Hl Hp. split; [by unfold address_display; cbn; rewrite !app_nil_r|].
  rewrite address_parse_display by (split; [done|split; [done|split; [by intros ? [= <-]|done]]]).
  unfold in_u32, u32_max in *. cbn -[show_chars]. rewrite parse_unsigned_show by (unfold u32_max, u64_max; lia). done.
Qed.

Lemma address_service_ambiguous_witness :
  @address_parse Toy.sdk (@address_display Toy.sdk (with_service (address_new (replicate 32 (byte_of 1))) 256))
  = Ok (with_device (address_new (replicate 32 (byte_of 1))) 256).
Proof.
  apply (@address_service_ambiguous Toy.sdk Toy.hex_ok Toy.hex_text_ok (replicate 32 (byte_of 1)) 256);
    [reflexivity|split; vm_compute; congruence].
Defined.
