(* ===== verification/HandshakeReplay.v ===== *)
(** * Handshake replay tracker of origin-network ([replay.rs])

    A set of nonces with a recency queue; the queue bounds the set.  The
    specification is the list of all accepted nonces: a frame is fresh when
    its nonce is not among the last [cap] of them.  The persisted form is
    written in the iteration order of the hash set, which is an argument. *)

From Stdlib Require Import Ascii String.
From S2P Require Import Prelude RustStr Bytes NetWire.

(** ** The code *)

Definition REPLAY_NONCE_LEN : nat := 8.
Definition REPLAY_CAP : Z := 2 ^ 20.

Record HandshakeReplayTracker := MkTracker {
  ht_seen : gset bytes;
  ht_order : list bytes;
  ht_cap : Z
}.

Definition with_cap (cap : Z) : HandshakeReplayTracker := MkTracker ∅ [] cap.
Definition tracker_new : HandshakeReplayTracker := with_cap REPLAY_CAP.

(** [while self.order.len() > self.cap { pop_front ... }]. *)
Fixpoint evict (cap : Z) (order : list bytes) (seen : gset bytes) : list bytes * gset bytes :=
  match order with
  | [] => ([], seen)
  | old :: rest =>
      if cap <? Z.of_nat (length order) then
        if bool_decide (old ∈ rest) then evict cap rest seen else evict cap rest (seen ∖ {[old]})
      else (order, seen)
  end.

Definition check_and_track (t : HandshakeReplayTracker) (frame : bytes) : bool * HandshakeReplayTracker :=
  if (length frame <? REPLAY_NONCE_LEN)%nat then (true, t)
  else
    let nonce := take REPLAY_NONCE_LEN frame in
    if bool_decide (nonce ∈ ht_seen t) then (false, t)
    else
      let seen := {[nonce]} ∪ ht_seen t in
      let order := ht_order t ++ [nonce] in
      let '(order, seen) := evict (ht_cap t) order seen in
      (true, MkTracker seen order (ht_cap t)).

Definition MAGIC : bytes := as_bytes "ONRP".
Definition FORMAT_VERSION : ascii := byte_of 1.

(** The bytes [save] writes; [iter] is the iteration order of the set. *)
Definition save_bytes (iter : list bytes) : bytes := MAGIC ++ [FORMAT_VERSION] ++ concat iter.

(** [body.chunks_exact(n)]. *)
Fixpoint chunks_exact (fuel n : nat) (body : bytes) : list bytes :=
  match fuel with
  | O => []
  | S f => if (length body <? n)%nat then [] else take n body :: chunks_exact f n (drop n body)
  end.

Inductive FileRead := FileBytes (b : bytes) | FileNotFound | FileError (e : string).

Definition load (file : FileRead) : result NetworkError HandshakeReplayTracker :=
  match file with
  | FileNotFound => Ok tracker_new
  | FileError e => Err (NetTransport ("replay state read: " +:+ e))
  | FileBytes bytes =>
      if (length bytes <? 5)%nat then Err (NetTransport "replay state truncated")
      else if negb (bool_decide (take 4 bytes = MAGIC)) then Err (NetTransport "bad replay state magic")
      else if negb (bool_decide (nth 4 bytes zero = FORMAT_VERSION)) then
        Err (NetTransport ("unknown replay state version " +:+ show_Z (code (nth 4 bytes zero))))
      else
        let body := drop 5 bytes in
        if negb (length body mod REPLAY_NONCE_LEN =? 0)%nat then Err (NetTransport "replay state body misaligned")
        else
          let nonces := chunks_exact (length body) REPLAY_NONCE_LEN body in
          Ok (MkTracker (list_to_set nonces) nonces REPLAY_CAP)
  end.

(** Frames arriving one after the other. *)
Fixpoint track_all (t : HandshakeReplayTracker) (frames : list bytes) : list bool * HandshakeReplayTracker :=
  match frames with
  | [] => ([], t)
  | f :: fs => let '(r, t') := check_and_track t f in let '(rs, t'') := track_all t' fs in (r :: rs, t'')
  end.

(** ** The specification *)

(** [accepted] is newest first. *)
Fixpoint spec_track (cap : nat) (accepted : list bytes) (frames : list bytes) : list bool :=
  match frames with
  | [] => []
  | f :: fs =>
      if (length f <? REPLAY_NONCE_LEN)%nat then true :: spec_track cap accepted fs
      else
        let nonce := take REPLAY_NONCE_LEN f in
        if bool_decide (nonce ∈ take cap accepted) then false :: spec_track cap accepted fs
        else true :: spec_track cap (nonce :: accepted) fs
  end.

(** ** Simulation *)

Record tracks (cap : nat) (t : HandshakeReplayTracker) (accepted : list bytes) : Prop := {
  tr_cap : ht_cap t = Z.of_nat cap;
  tr_order : ht_order t = rev (take cap accepted);
  tr_seen : ht_seen t = list_to_set (ht_order t);
  tr_nodup : NoDup (ht_order t)
}.

Lemma evict_spec (cap : nat) (order : list bytes) :
  NoDup order -> (length order <= S cap)%nat ->
  evict (Z.of_nat cap) order (list_to_set order) = (drop (length order - cap) order, list_to_set (drop (length order - cap) order)).
Proof.
  intros Hnd Hlen. destruct order as [|x l]; [done|]. cbn [evict]. destruct (Z.ltb_spec (Z.of_nat cap) (Z.of_nat (length (x :: l)))) as [Hc|Hc].
  - apply NoDup_cons in Hnd as [Hx Hl]. rewrite bool_decide_eq_false_2 by done.
    replace (length (x :: l) - cap)%nat with 1%nat by (cbn [length] in *; lia). cbn [drop list_to_set].
    assert (({[x]} ∪ list_to_set l) ∖ {[x]} = (list_to_set l : gset bytes)) as E
      by (apply set_eq; intros y; rewrite elem_of_difference, elem_of_union, elem_of_singleton, elem_of_list_to_set; set_solver).
    rewrite E. destruct l as [|y l]; [done|]. cbn [evict].
    destruct (Z.ltb_spec (Z.of_nat cap) (Z.of_nat (length (y :: l)))); [cbn [length] in *; lia|done].
  - replace (length (x :: l) - cap)%nat with 0%nat by lia. done.
Qed.

Lemma check_and_track_spec (cap : nat) (t : HandshakeReplayTracker) (accepted : list bytes) (f : bytes) :
  tracks cap t accepted ->
  if (length f <? REPLAY_NONCE_LEN)%nat then check_and_track t f = (true, t)
  else if bool_decide (take REPLAY_NONCE_LEN f ∈ take cap accepted) then check_and_track t f = (false, t)
  else exists t', check_and_track t f = (true, t') /\ tracks cap t' (take REPLAY_NONCE_LEN f :: accepted).
Proof.
  intros [Ec Eo Es Hnd]. unfold check_and_track. destruct (_ <? _)%nat; [done|].
  set (n := take REPLAY_NONCE_LEN f). rewrite Es.
  assert (n ∈ (list_to_set (ht_order t) : gset bytes) <-> n ∈ take cap accepted) as Hin.
  { rewrite elem_of_list_to_set, Eo, list_elem_of_In, <- in_rev, <- list_elem_of_In. done. }
  rewrite (bool_decide_ext _ _ Hin). case_bool_decide as Hb; [done|].
  assert (({[n]} ∪ list_to_set (ht_order t) : gset bytes) = list_to_set (ht_order t ++ [n])) as ->
    by (rewrite list_to_set_app_L; cbn; set_solver).
  assert (length (ht_order t) <= cap)%nat as Hlo by (rewrite Eo, length_rev, length_take; lia).
  assert (NoDup (ht_order t ++ [n])) as Hnd'.
  { apply NoDup_app. split; [done|]. split; [|apply NoDup_singleton]. intros x Hx ->%list_elem_of_singleton.
    apply Hb, Hin. by apply elem_of_list_to_set. }
  rewrite Ec, evict_spec by (done || (rewrite length_app; cbn [length]; lia)).
  eexists. split; [done|]. constructor; cbn [ht_cap ht_order ht_seen]; [done| |done|].
  - destruct cap as [|cap]; cbn [take].
    { cbn [take rev app] in Eo |- *. rewrite Eo. done. }
    cbn [rev]. rewrite length_app, Eo. cbn [length]. rewrite length_rev, length_take.
    destruct (Nat.le_gt_cases (length accepted) cap).
    + rewrite !take_ge by lia. replace (_ - _)%nat with 0%nat by lia. done.
    + rewrite Nat.min_l by lia. replace (_ - _)%nat with 1%nat by lia.
      destruct (lookup_lt_is_Some_2 accepted cap) as [x Hx]; [lia|]. rewrite (take_S_r _ _ _ Hx).
      rewrite rev_app_distr. done.
  - apply NoDup_ListNoDup in Hnd'. rewrite <- (take_drop (length (ht_order t ++ [n]) - cap)) in Hnd'.
    apply NoDup_ListNoDup, NoDup_app in Hnd'. tauto.
Qed.

Lemma track_all_spec (cap : nat) (frames : list bytes) (t : HandshakeReplayTracker) (accepted : list bytes) :
  tracks cap t accepted -> (track_all t frames).1 = spec_track cap accepted frames.
Proof.
  revert t accepted. induction frames as [|f fs IH]; intros t acc Ht; [done|].
  cbn [track_all spec_track]. pose proof (check_and_track_spec cap t acc f Ht) as H. destruct (_ <? _)%nat; [|destruct (bool_decide _)].
  - rewrite H. specialize (IH t acc Ht). destruct (track_all t fs). cbn in *. by rewrite IH.
  - rewrite H. specialize (IH t acc Ht). destruct (track_all t fs). cbn in *. by rewrite IH.
  - destruct H as (t' & -> & Ht'). specialize (IH t' _ Ht'). destruct (track_all t' fs). cbn in *. by rewrite IH.
Qed.

(** ** Persistence *)

Lemma chunks_exact_concat (fuel n : nat) (l : list bytes) :
  (0 < n)%nat -> Forall (fun b => length b = n) l -> (length (concat l) <= fuel)%nat -> chunks_exact fuel n (concat l) = l.
Proof.
  intros Hn Hl. revert l Hl. induction fuel as [|f IH]; intros l Hl Hf.
  - destruct Hl as [|b l Hb _]; [done|]. cbn in Hf. rewrite length_app in Hf. lia.
  - destruct Hl as [|b l Hb Hl]; cbn [chunks_exact concat].
    { destruct (Nat.ltb_spec (length (@nil ascii)) n) as [|Hz]; [done|cbn in Hz; lia]. }
    cbn in Hf. rewrite length_app in *. destruct (Nat.ltb_spec (length b + length (concat l)) n); [lia|].
    rewrite <- Hb, take_app_length, drop_app_length. f_equal. rewrite Hb. apply IH; [done|lia].
Qed.

Lemma concat_length_mod (n : nat) (l : list bytes) :
  Forall (fun b => length b = n) l -> (length (concat l) mod n = 0)%nat.
Proof.
  induction 1 as [|b l Hb _ IH]; cbn [concat length]; [apply Nat.Div0.mod_0_l|].
  rewrite length_app, Hb. rewrite <- Nat.Div0.add_mod_idemp_r, IH, Nat.add_0_r. apply Nat.Div0.mod_same.
Qed.

Lemma load_save (iter : list bytes) :
  Forall (fun b => length b = REPLAY_NONCE_LEN) iter ->
  load (FileBytes (save_bytes iter)) = Ok (MkTracker (list_to_set iter) iter REPLAY_CAP).
Proof.
  intros Hl. unfold load, save_bytes.
  change (MAGIC ++ [FORMAT_VERSION] ++ concat iter) with ((MAGIC ++ [FORMAT_VERSION]) ++ concat iter).
  destruct (Nat.ltb_spec (length ((MAGIC ++ [FORMAT_VERSION]) ++ concat iter)) 5) as [Hlt|_];
    [rewrite length_app in Hlt; cbn in Hlt; lia|].
  change (take 4 ((MAGIC ++ [FORMAT_VERSION]) ++ concat iter)) with MAGIC.
  change (nth 4 ((MAGIC ++ [FORMAT_VERSION]) ++ concat iter) zero) with FORMAT_VERSION.
  rewrite !bool_decide_eq_true_2 by done. cbn [negb].
  change (drop 5 ((MAGIC ++ [FORMAT_VERSION]) ++ concat iter)) with (concat iter).
  rewrite (concat_length_mod REPLAY_NONCE_LEN) by done. cbn [Nat.eqb negb].
  rewrite chunks_exact_concat; [done|unfold REPLAY_NONCE_LEN; lia|done|lia].
Qed.

(** ** Properties *)

(** The tracker is a window over the accepted handshakes: a frame is refused
    exactly when its first 8 bytes are those of one of the last [cap]
    accepted frames; in particular a frame is not accepted again before [cap]
    other handshakes went through, and frames under 8 bytes are never
    tracked. *)
Theorem handshake_replay_window (cap : nat) (frames : list bytes) :
  (track_all (with_cap (Z.of_nat cap)) frames).1 = spec_track cap [] frames.
Proof.
  apply track_all_spec. constructor; [done|by rewrite take_nil|done|constructor].
Qed.

(** Memory stays bounded, and set and queue describe the same nonces. *)
Theorem handshake_replay_bounded (cap : nat) (frames : list bytes) :
  let t := (track_all (with_cap (Z.of_nat cap)) frames).2 in
  (size (ht_seen t) <= cap)%nat /\ ht_seen t = list_to_set (ht_order t) /\ NoDup (ht_order t).
Proof.
  cut (forall t acc, tracks cap t acc -> exists acc', tracks cap (track_all t frames).2 acc').
  { intros Hc. destruct (Hc (with_cap (Z.of_nat cap)) []) as [acc [Ec Eo Es Hnd]].
    - constructor; [done|by rewrite take_nil|done|constructor].
    - cbn zeta. split; [|done]. rewrite Es, size_list_to_set by done. rewrite Eo, length_rev, length_take. lia. }
  induction frames as [|f fs IH]; intros t acc Ht; [by exists acc|].
  cbn [track_all]. pose proof (check_and_track_spec cap t acc f Ht) as H.
  assert (exists t' acc', (check_and_track t f).2 = t' /\ tracks cap t' acc') as (t' & acc' & Et & Ht').
  { destruct (_ <? _)%nat; [by rewrite H; eauto|]. destruct (bool_decide _); [by rewrite H; eauto|].
    destruct H as (t' & -> & ?). eauto. }
  destruct (check_and_track t f) as [r t1]. cbn in Et. subst t1. destruct (IH t' acc' Ht') as [acc'' ?].
  destruct (track_all t' fs). by exists acc''.
Qed.

(** Restart: whatever order the set is written in, loading the saved file
    gives back the set, so every frame refused before is refused after; a
    file that is short, has another magic or version, or a misaligned body
    is an error and never an empty tracker. *)
Theorem handshake_replay_persist (t : HandshakeReplayTracker) (iter : list bytes) (file : FileRead) :
  iter ≡ₚ elements (ht_seen t) -> Forall (fun b => length b = REPLAY_NONCE_LEN) iter ->
  (exists t', load (FileBytes (save_bytes iter)) = Ok t' /\ ht_seen t' = ht_seen t
     /\ forall f, (check_and_track t' f).1 = (check_and_track t f).1)
  /\ (load file = Ok tracker_new -> file = FileNotFound \/ file = FileBytes (save_bytes [])).
Proof.
  intros Hp Hl. split.
  - eexists. split; [by apply load_save|]. cbn [ht_seen].
    assert (list_to_set iter = ht_seen t) as E by (rewrite Hp; apply list_to_set_elements_L).
    split; [done|]. intros f. unfold check_and_track. cbn [ht_seen ht_order ht_cap]. rewrite E.
    destruct (_ <? _)%nat; [done|]. destruct (bool_decide _); [done|].
    by destruct (evict _ _ _), (evict _ _ _).
  - destruct file as [b| |e]; unfold load; [|by left|done]. intros Hload. right.
    destruct (Nat.ltb_spec (length b) 5); [done|].
    case_bool_decide as Hm; [|done]. case_bool_decide as Hv; [|done]. cbn [negb] in Hload.
    destruct (_ =? 0)%nat eqn:Emod; [|done]. cbn [negb] in Hload. injection Hload as _ Hnil.
    assert (drop 5 b = []) as Hd.
    { destruct (drop 5 b) as [|x l] eqn:Ed; [done|]. exfalso. apply Nat.eqb_eq in Emod.
      change (length (x :: l)) with (S (length l)) in Hnil at 1. cbn [chunks_exact] in Hnil.
      destruct (Nat.ltb_spec (length (x :: l)) REPLAY_NONCE_LEN) as [Hlt|]; [|done].
      rewrite Nat.mod_small in Emod by done. done. }
    f_equal. unfold save_bytes. rewrite <- Hm, <- Hv. rewrite <- (take_drop 5 b), Hd, app_nil_r at 1.
    destruct b as [|b0 [|b1 [|b2 [|b3 [|b4 b]]]]]; cbn in *; try lia. done.
Qed.

Lemma handshake_replay_persist_witness :
  exists t', load (FileBytes (save_bytes [as_bytes "12345678"])) = Ok t'
    /\ ht_seen t' = ht_seen (check_and_track tracker_new (as_bytes "12345678x")).2
    /\ forall f, (check_and_track t' f).1 = (check_and_track (check_and_track tracker_new (as_bytes "12345678x")).2 f).1.
Proof.
  apply (handshake_replay_persist (check_and_track tracker_new (as_bytes "12345678x")).2 [as_bytes "12345678"] FileNotFound).
  - assert (ht_seen (check_and_track tracker_new (as_bytes "12345678x")).2 = {[as_bytes "12345678"]}) as ->.
    { unfold check_and_track, tracker_new, with_cap. vm_compute. reflexivity. }
    by rewrite elements_singleton.
  - repeat constructor.
Defined.
