(* ===== verification/Relay.v ===== *)
(** * Relay state of origin-network ([relay.rs])

    Registrations, tokens, forwarding pairs, bounded inboxes, adverts and the
    eviction set.  Every method takes the lock once, so it is a function of
    the state it finds; the clock readings ([Instant::now], in nanoseconds)
    and the random token bytes are arguments. *)

From Stdlib Require Import Ascii String.
From S2P Require Import Prelude RustStr Bytes Sdk StateErr NetWire HandshakeReplay.

(** ** Data *)

Definition DEFAULT_MAX_FORWARDINGS : Z := 1000.
Definition DEFAULT_MAX_INBOX_MESSAGES : Z := 256.
Definition DEFAULT_MAX_INBOX_BYTES : Z := 8 * 1024 * 1024.
Definition DEFAULT_INBOX_TTL_SECS : Z := 300.
Definition DEFAULT_MAX_FRAME_SIZE : Z := 1024 * 1024.

Record TimestampedFrame := MkFrame { tf_bytes : bytes; tf_enqueued_at : Z }.

Record ForwardPair := MkPair { fp_id : Z; fp_from : Fingerprint; fp_to : Fingerprint }.

Record Advert := MkAdvert {
  ad_protocol_version : Z;
  ad_endpoints : list string;
  ad_ttl_secs : Z;
  ad_presence : Z
}.

Record RelayConfig := MkRelayConfig {
  max_forwardings : Z;
  max_inbox_messages : Z;
  max_inbox_bytes : Z;
  inbox_ttl_secs : Z;
  max_frame_size : Z
}.

Record RelayInner := MkRelayInner {
  ri_online : gset Fingerprint;
  ri_tokens : gmap string Fingerprint;
  ri_forwarding : list ForwardPair;
  ri_next_pair_id : Z;
  ri_inboxes : gmap Fingerprint (list TimestampedFrame * Z);
  ri_adverts : gmap Fingerprint (Advert * Z)
}.

Definition EvictionSet : Type := gset Fingerprint.

Inductive ForwardOutcome := Buffered | TargetOffline.

(** ** Construction *)

Definition with_caps (max_forwardings max_inbox_messages max_inbox_bytes inbox_ttl_secs : Z) : RelayConfig :=
  MkRelayConfig max_forwardings max_inbox_messages max_inbox_bytes inbox_ttl_secs DEFAULT_MAX_FRAME_SIZE.
Definition relay_config_new (max_forwardings : Z) : RelayConfig :=
  with_caps max_forwardings DEFAULT_MAX_INBOX_MESSAGES DEFAULT_MAX_INBOX_BYTES DEFAULT_INBOX_TTL_SECS.
Definition relay_inner_new : RelayInner := MkRelayInner ∅ ∅ [] 1 ∅ ∅.

Definition set_online (o : gset Fingerprint) (s : RelayInner) : RelayInner :=
  MkRelayInner o (ri_tokens s) (ri_forwarding s) (ri_next_pair_id s) (ri_inboxes s) (ri_adverts s).
Definition set_tokens (t : gmap string Fingerprint) (s : RelayInner) : RelayInner :=
  MkRelayInner (ri_online s) t (ri_forwarding s) (ri_next_pair_id s) (ri_inboxes s) (ri_adverts s).
Definition set_forwarding (f : list ForwardPair) (s : RelayInner) : RelayInner :=
  MkRelayInner (ri_online s) (ri_tokens s) f (ri_next_pair_id s) (ri_inboxes s) (ri_adverts s).
Definition set_next_pair_id (n : Z) (s : RelayInner) : RelayInner :=
  MkRelayInner (ri_online s) (ri_tokens s) (ri_forwarding s) n (ri_inboxes s) (ri_adverts s).
Definition set_inboxes (i : gmap Fingerprint (list TimestampedFrame * Z)) (s : RelayInner) : RelayInner :=
  MkRelayInner (ri_online s) (ri_tokens s) (ri_forwarding s) (ri_next_pair_id s) i (ri_adverts s).
Definition set_adverts (a : gmap Fingerprint (Advert * Z)) (s : RelayInner) : RelayInner :=
  MkRelayInner (ri_online s) (ri_tokens s) (ri_forwarding s) (ri_next_pair_id s) (ri_inboxes s) a.

(** [now.duration_since(t)] saturates at zero; [Duration::from_secs]. *)
Definition duration_since (now t : Z) : Z := Z.max 0 (now - t).
Definition from_secs (s : Z) : Z := s * 1000000000.

(** ** Operations *)

Section Relay.
Context `{Sdk}.

Definition register (eviction : EvictionSet) (fp : Fingerprint) : SE RelayInner NetworkError unit := fun s =>
  if bool_decide (fp ∈ eviction) then (Err (NetEvicted (fp_to_hex fp)), s)
  else (Ok tt, set_online ({[fp]} ∪ ri_online s) s).

Definition deregister (fp : Fingerprint) (s : RelayInner) : RelayInner :=
  let s := set_online (ri_online s ∖ {[fp]}) s in
  let s := set_tokens (filter (fun kv => kv.2 <> fp) (ri_tokens s)) s in
  set_forwarding (filter (fun p => fp_from p <> fp /\ fp_to p <> fp) (ri_forwarding s)) s.

Definition is_online (fp : Fingerprint) (s : RelayInner) : bool := bool_decide (fp ∈ ri_online s).

(** [raw]: the 32 random bytes. *)
Definition issue_token (raw : bytes) (fp : Fingerprint) (s : RelayInner) : string * RelayInner :=
  let token := hex_encode raw in (token, set_tokens (<[token := fp]> (ri_tokens s)) s).
Definition resolve_token (token : string) (s : RelayInner) : option Fingerprint := ri_tokens s !! token.
Definition revoke_token (token : string) (s : RelayInner) : RelayInner :=
  set_tokens (delete token (ri_tokens s)) s.

Definition open_pair (cfg : RelayConfig) (eviction : EvictionSet) (from to : Fingerprint)
    : SE RelayInner NetworkError Z := fun s =>
  if bool_decide (from ∈ eviction) then (Err (NetEvicted (fp_to_hex from)), s)
  else if negb (bool_decide (from ∈ ri_online s)) then (Err (NetTargetOffline (fp_to_hex from)), s)
  else if negb (bool_decide (to ∈ ri_online s)) then (Err (NetTargetOffline (fp_to_hex to)), s)
  else if max_forwardings cfg <=? Z.of_nat (length (ri_forwarding s)) then
    (Err (NetRelayFull ("at capacity " +:+ show_Z (max_forwardings cfg))), s)
  else
    let id := ri_next_pair_id s in
    let s := set_next_pair_id (wrap_u64 (ri_next_pair_id s + 1)) s in
    (Ok id, set_forwarding (ri_forwarding s ++ [MkPair id from to]) s).

Fixpoint find_pair (pair_id : Z) (l : list ForwardPair) : option ForwardPair :=
  match l with
  | [] => None
  | p :: l' => if fp_id p =? pair_id then Some p else find_pair pair_id l'
  end.
Definition lookup_pair (pair_id : Z) (s : RelayInner) : option ForwardPair := find_pair pair_id (ri_forwarding s).

(** [position] and [remove]: the first pair with that id goes. *)
Fixpoint remove_pair (pair_id : Z) (l : list ForwardPair) : list ForwardPair :=
  match l with
  | [] => []
  | p :: l' => if fp_id p =? pair_id then l' else p :: remove_pair pair_id l'
  end.
Definition close_pair (pair_id : Z) (s : RelayInner) : option ForwardPair * RelayInner :=
  match find_pair pair_id (ri_forwarding s) with
  | None => (None, s)
  | Some p => (Some p, set_forwarding (remove_pair pair_id (ri_forwarding s)) s)
  end.

Definition frame_len (f : TimestampedFrame) : Z := Z.of_nat (length (tf_bytes f)).

(** [while byte_count + frame.len() > max && !inbox.is_empty() { remove(0) }]. *)
Fixpoint drop_until_fits (cap len : Z) (inbox : list TimestampedFrame) (byte_count : Z)
    : list TimestampedFrame * Z :=
  match inbox with
  | [] => ([], byte_count)
  | dropped :: rest =>
      if cap <? byte_count + len then drop_until_fits cap len rest (sat_sub_u byte_count (frame_len dropped))
      else (inbox, byte_count)
  end.

Definition inbox_push (cfg : RelayConfig) (now : Z) (eviction : EvictionSet) (from target : Fingerprint)
    (frame : bytes) : SE RelayInner NetworkError ForwardOutcome := fun s =>
  let len := Z.of_nat (length frame) in
  if bool_decide (from ∈ eviction) then (Err (NetEvicted (fp_to_hex from)), s)
  else if max_frame_size cfg <? len then
    (Err (NetCodec ("frame " +:+ show_Z len +:+ " exceeds relay cap " +:+ show_Z (max_frame_size cfg))), s)
  else if negb (bool_decide (target ∈ ri_online s)) then (Ok TargetOffline, s)
  else
    let '(inbox, byte_count) := default ([], 0) (ri_inboxes s !! target) in
    let '(inbox, byte_count) :=
      if max_inbox_messages cfg <=? Z.of_nat (length inbox) then
        match inbox with
        | dropped :: rest => (rest, sat_sub_u byte_count (frame_len dropped))
        | [] => (inbox, byte_count)
        end
      else (inbox, byte_count) in
    let '(inbox, byte_count) := drop_until_fits (max_inbox_bytes cfg) len inbox byte_count in
    if max_inbox_bytes cfg <? byte_count + len then
      (Err (NetRelayFull "frame exceeds inbox byte cap"),
       set_inboxes (<[target := (inbox, byte_count)]> (ri_inboxes s)) s)
    else
      (Ok Buffered,
       set_inboxes (<[target := (inbox ++ [MkFrame frame now], byte_count + len)]> (ri_inboxes s)) s).

Definition alive (cfg : RelayConfig) (now : Z) (f : TimestampedFrame) : bool :=
  duration_since now (tf_enqueued_at f) <? from_secs (inbox_ttl_secs cfg).

Definition inbox_pull (cfg : RelayConfig) (now : Z) (fp : Fingerprint) (s : RelayInner)
    : list bytes * RelayInner :=
  match ri_inboxes s !! fp with
  | Some (frames, _) =>
      (map tf_bytes (List.filter (alive cfg now) frames), set_inboxes (delete fp (ri_inboxes s)) s)
  | None => ([], s)
  end.

(** [retain] with the byte count reduced for every frame dropped. *)
Fixpoint retain_alive (cfg : RelayConfig) (now : Z) (frames : list TimestampedFrame) (byte_count : Z)
    : list TimestampedFrame * Z :=
  match frames with
  | [] => ([], byte_count)
  | f :: fs =>
      if alive cfg now f then let '(kept, c) := retain_alive cfg now fs byte_count in (f :: kept, c)
      else retain_alive cfg now fs (sat_sub_u byte_count (frame_len f))
  end.

Definition cleanup_expired (cfg : RelayConfig) (now : Z) (s : RelayInner) : Z * RelayInner :=
  let removed := list_sum (map (fun kv => Z.of_nat (length kv.2.1)
                                          - Z.of_nat (length (retain_alive cfg now kv.2.1 kv.2.2).1))
                               (map_to_list (ri_inboxes s))) in
  let inboxes := (fun fc => retain_alive cfg now fc.1 fc.2) <$> ri_inboxes s in
  (removed, set_inboxes (filter (fun kv => kv.2.1 <> []) inboxes) s).

Definition inbox_stats (fp : Fingerprint) (s : RelayInner) : Z * Z :=
  match ri_inboxes s !! fp with
  | Some (frames, bytes) => (Z.of_nat (length frames), bytes)
  | None => (0, 0)
  end.

Definition advert_publish (now : Z) (fp : Fingerprint) (advert : Advert) : SE RelayInner NetworkError unit := fun s =>
  if negb (bool_decide (fp ∈ ri_online s)) then (Err (NetTargetOffline (fp_to_hex fp)), s)
  else (Ok tt, set_adverts (<[fp := (advert, now)]> (ri_adverts s)) s).

Definition advert_fetch (now : Z) (fp : Fingerprint) (s : RelayInner) : option Advert * RelayInner :=
  match ri_adverts s !! fp with
  | Some (advert, published) =>
      if duration_since now published <? from_secs (ad_ttl_secs advert) then (Some advert, s)
      else (None, set_adverts (delete fp (ri_adverts s)) s)
  | None => (None, s)
  end.

End Relay.

(** ** The eviction set *)

Definition revoke (fp : Fingerprint) (e : EvictionSet) : bool * EvictionSet :=
  (negb (bool_decide (fp ∈ e)), {[fp]} ∪ e).
Definition pardon (fp : Fingerprint) (e : EvictionSet) : bool * EvictionSet :=
  (bool_decide (fp ∈ e), e ∖ {[fp]}).

Definition eviction_save_bytes (iter : list Fingerprint) : bytes := as_bytes "ONEV" ++ [byte_of 1] ++ concat iter.

Definition eviction_load (file : FileRead) : result NetworkError EvictionSet :=
  match file with
  | FileNotFound => Ok ∅
  | FileError e => Err (NetTransport ("eviction read: " +:+ e))
  | FileBytes bytes =>
      if (length bytes <? 5)%nat || negb (bool_decide (take 4 bytes = as_bytes "ONEV"))
         || negb (bool_decide (nth 4 bytes zero = byte_of 1))
      then Err (NetTransport "bad eviction file")
      else
        let body := drop 5 bytes in
        if negb (length body mod 32 =? 0)%nat then Err (NetTransport "eviction body misaligned")
        else Ok (list_to_set (chunks_exact (length body) 32 body))
  end.

(** ** Properties of the relay state

    The invariant of [Relay.v] over every sequence of operations; the inbox
    as a bounded drop-oldest queue; eviction persistence. *)

(** ** The inbox specification

    The longest suffix of a history that respects both caps. *)

Definition bytes_total (l : list TimestampedFrame) : Z := list_sum (map frame_len l).

Definition fits_caps (m b : Z) (l : list TimestampedFrame) : bool :=
  (Z.of_nat (length l) <=? m) && (bytes_total l <=? b).

Fixpoint fit_suffix (m b : Z) (l : list TimestampedFrame) : list TimestampedFrame :=
  match l with
  | [] => []
  | f :: l' => if fits_caps m b l then l else fit_suffix m b l'
  end.

Lemma frame_len_nonneg (f : TimestampedFrame) : 0 <= frame_len f.
Proof. unfold frame_len. lia. Qed.

Lemma bytes_total_app (l k : list TimestampedFrame) : bytes_total (l ++ k) = bytes_total l + bytes_total k.
Proof. unfold bytes_total. by rewrite map_app, list_sum_app. Qed.

Lemma bytes_total_cons (f : TimestampedFrame) (l : list TimestampedFrame) : bytes_total (f :: l) = frame_len f + bytes_total l.
Proof. done. Qed.

Lemma bytes_total_nonneg (l : list TimestampedFrame) : 0 <= bytes_total l.
Proof. induction l as [|f l IH]; [done|]. rewrite bytes_total_cons. pose proof (frame_len_nonneg f). lia. Qed.

#[export] Hint Resolve frame_len_nonneg bytes_total_nonneg : origin.

Lemma fits_caps_spec (m b : Z) (l : list TimestampedFrame) :
  fits_caps m b l = true <-> Z.of_nat (length l) <= m /\ bytes_total l <= b.
Proof. unfold fits_caps. lia. Qed.

(** A list that does not fit does not fit with one more frame either. *)
Lemma fits_caps_snoc (m b : Z) (l : list TimestampedFrame) (f : TimestampedFrame) :
  fits_caps m b l = false -> fits_caps m b (l ++ [f]) = false.
Proof.
  intros Hl. apply not_true_iff_false in Hl. apply not_true_iff_false. rewrite fits_caps_spec in *.
  rewrite length_app, bytes_total_app, bytes_total_cons. pose proof (frame_len_nonneg f). cbn. lia.
Qed.

Lemma fit_suffix_snoc (m b : Z) (l : list TimestampedFrame) (f : TimestampedFrame) :
  fit_suffix m b (l ++ [f]) = fit_suffix m b (fit_suffix m b l ++ [f]).
Proof.
  induction l as [|x l IH]; [done|]. cbn [fit_suffix app]. destruct (fits_caps m b (x :: l)) eqn:E; [done|].
  apply (fits_caps_snoc _ _ _ f) in E. cbn [app] in E. rewrite E. done.
Qed.

Lemma fit_suffix_fits (m b : Z) (l : list TimestampedFrame) :
  0 <= m -> 0 <= b -> fits_caps m b (fit_suffix m b l) = true.
Proof.
  intros ? ?. induction l as [|x l IH]; cbn [fit_suffix]; [apply fits_caps_spec; cbn; lia|].
  by destruct (fits_caps m b (x :: l)) eqn:E.
Qed.

Lemma fit_suffix_self (m b : Z) (l : list TimestampedFrame) : fits_caps m b l = true -> fit_suffix m b l = l.
Proof. destruct l; cbn; [done|]. by intros ->. Qed.

(** The byte-cap loop is the specification once the frame count fits. *)
Lemma drop_until_fits_spec (m b : Z) (l : list TimestampedFrame) (f : TimestampedFrame) :
  Z.of_nat (length l) < m -> frame_len f <= b ->
  let '(l', c) := drop_until_fits b (frame_len f) l (bytes_total l) in
  fit_suffix m b (l ++ [f]) = l' ++ [f] /\ c = bytes_total l' /\ c + frame_len f <= b
  /\ (length l' <= length l)%nat.
Proof.
  intros Hm Hf. induction l as [|x l IH]; cbn [drop_until_fits].
  - cbn [app]. split; [|cbn; lia]. apply fit_suffix_self, fits_caps_spec. cbn in *. lia.
  - destruct (Z.ltb_spec b (bytes_total (x :: l) + frame_len f)) as [Hover|Hfit].
    + rewrite bytes_total_cons in *. pose proof (bytes_total_nonneg l). pose proof (frame_len_nonneg x).
      unfold sat_sub_u. rewrite Z.max_r by lia.
      replace (frame_len x + bytes_total l - frame_len x) with (bytes_total l) by lia.
      cbn [length] in Hm. specialize (IH ltac:(lia)).
      destruct (drop_until_fits b (frame_len f) l (bytes_total l)) as [l' c]. destruct IH as (E & ? & ? & ?).
      split; [|cbn [length]; lia].
      cbn [app fit_suffix]. destruct (fits_caps m b (x :: l ++ [f])) eqn:Ef; [|done].
      apply fits_caps_spec in Ef as [_ Ef]. rewrite bytes_total_cons, bytes_total_app, bytes_total_cons in Ef. cbn in Ef. lia.
    + split; [|lia]. apply fit_suffix_self, fits_caps_spec.
      rewrite length_app, bytes_total_app, (bytes_total_cons f). cbn in *. lia.
Qed.

(** ** The invariant *)

Record config_ok (cfg : RelayConfig) : Prop := {
  cf_fwd : 0 <= max_forwardings cfg;
  cf_msgs : 1 <= max_inbox_messages cfg;
  cf_bytes : 0 <= max_inbox_bytes cfg
}.

Definition inbox_ok (cfg : RelayConfig) (fc : list TimestampedFrame * Z) : Prop :=
  snd fc = bytes_total (fst fc) /\ Z.of_nat (length (fst fc)) <= max_inbox_messages cfg /\ snd fc <= max_inbox_bytes cfg.

Record relay_ok (cfg : RelayConfig) (s : RelayInner) : Prop := {
  ro_online : Forall (fun p => fp_from p ∈ ri_online s /\ fp_to p ∈ ri_online s) (ri_forwarding s);
  ro_ids : NoDup (map fp_id (ri_forwarding s));
  ro_next : Forall (fun p => fp_id p < ri_next_pair_id s) (ri_forwarding s);
  ro_cap : Z.of_nat (length (ri_forwarding s)) <= max_forwardings cfg;
  ro_inbox : map_Forall (fun _ fc => inbox_ok cfg fc) (ri_inboxes s)
}.

Section Props.
Context `{Sdk} (cfg : RelayConfig) (Hcfg : config_ok cfg).

Lemma relay_new_ok : relay_ok cfg relay_inner_new.
Proof. destruct Hcfg. constructor; cbn; [constructor..|lia|apply map_Forall_empty]. Qed.

Lemma default_inbox_ok (s : RelayInner) (fp : Fingerprint) :
  relay_ok cfg s -> inbox_ok cfg (default ([], 0) (ri_inboxes s !! fp)).
Proof.
  intros [_ _ _ _ Hi]. destruct Hcfg. destruct (ri_inboxes s !! fp) as [fc|] eqn:E; [by apply (Hi fp)|].
  repeat split; cbn; lia.
Qed.

(** One push on an inbox within its caps. *)
Lemma push_spec (inbox : list TimestampedFrame) (f : TimestampedFrame) :
  inbox_ok cfg (inbox, bytes_total inbox) -> frame_len f <= max_inbox_bytes cfg ->
  let '(l, c) := if max_inbox_messages cfg <=? Z.of_nat (length inbox) then
                   match inbox with d :: r => (r, sat_sub_u (bytes_total inbox) (frame_len d)) | [] => (inbox, bytes_total inbox) end
                 else (inbox, bytes_total inbox) in
  let '(l', c') := drop_until_fits (max_inbox_bytes cfg) (frame_len f) l c in
  l' ++ [f] = fit_suffix (max_inbox_messages cfg) (max_inbox_bytes cfg) (inbox ++ [f])
  /\ c' + frame_len f = bytes_total (l' ++ [f]) /\ c' + frame_len f <= max_inbox_bytes cfg.
Proof.
  intros (_ & Hm & Hb) Hf. cbn in Hm, Hb. destruct Hcfg.
  destruct (Z.leb_spec (max_inbox_messages cfg) (Z.of_nat (length inbox))) as [Hfull|Hroom].
  - destruct inbox as [|d r]; [cbn in Hfull; lia|]. rewrite bytes_total_cons.
    pose proof (bytes_total_nonneg r). pose proof (frame_len_nonneg d).
    unfold sat_sub_u. rewrite Z.max_r by lia. replace (frame_len d + bytes_total r - frame_len d) with (bytes_total r) by lia.
    cbn [length] in *. pose proof (drop_until_fits_spec (max_inbox_messages cfg) (max_inbox_bytes cfg) r f ltac:(lia) Hf) as Hd.
    destruct (drop_until_fits _ _ r _) as [l' c']. destruct Hd as (E & -> & ? & _).
    rewrite bytes_total_app, bytes_total_cons. change (bytes_total []) with 0. split; [|lia].
    rewrite <- E. cbn [app fit_suffix]. destruct (fits_caps _ _ (d :: r ++ [f])) eqn:Ef; [|done].
    apply fits_caps_spec in Ef as [Ef _]. cbn [length] in Ef. rewrite length_app in Ef. cbn [length] in Ef. lia.
  - pose proof (drop_until_fits_spec (max_inbox_messages cfg) (max_inbox_bytes cfg) inbox f ltac:(lia) Hf) as Hd.
    destruct (drop_until_fits _ _ inbox _) as [l' c']. destruct Hd as (E & -> & ? & _).
    rewrite bytes_total_app, bytes_total_cons. change (bytes_total []) with 0. split; [done|lia].
Qed.

Lemma drop_until_fits_none (b len : Z) (l : list TimestampedFrame) :
  b < len -> drop_until_fits b len l (bytes_total l) = ([], 0).
Proof.
  intros Hb. induction l as [|x l IH]; [done|]. cbn [drop_until_fits]. pose proof (bytes_total_nonneg (x :: l)).
  destruct (Z.ltb_spec b (bytes_total (x :: l) + len)); [|lia]. rewrite bytes_total_cons.
  pose proof (bytes_total_nonneg l). pose proof (frame_len_nonneg x). unfold sat_sub_u. rewrite Z.max_r by lia.
  rewrite Z.add_simpl_l. done.
Qed.

(** What a push does to a well-formed relay, on every branch past the guards. *)
Lemma inbox_push_spec (s : RelayInner) (now : Z) (ev : EvictionSet) (from target : Fingerprint) (frame : bytes) :
  relay_ok cfg s -> from ∉ ev -> Z.of_nat (length frame) <= max_frame_size cfg -> target ∈ ri_online s ->
  let old := fst (default ([], 0) (ri_inboxes s !! target)) in
  let new := fit_suffix (max_inbox_messages cfg) (max_inbox_bytes cfg) (old ++ [MkFrame frame now]) in
  if Z.of_nat (length frame) <=? max_inbox_bytes cfg
  then inbox_push cfg now ev from target frame s
       = (Ok Buffered, set_inboxes (<[target := (new, bytes_total new)]> (ri_inboxes s)) s)
  else inbox_push cfg now ev from target frame s
       = (Err (NetRelayFull "frame exceeds inbox byte cap"), set_inboxes (<[target := ([], 0)]> (ri_inboxes s)) s).
Proof.
  intros Hok Hev Hlen Hon. unfold inbox_push. rewrite bool_decide_eq_false_2 by done.
  destruct (Z.ltb_spec (max_frame_size cfg) (Z.of_nat (length frame))); [lia|].
  rewrite bool_decide_eq_true_2 by done. cbn [negb].
  pose proof (default_inbox_ok s target Hok) as Hin. destruct (default ([], 0) (ri_inboxes s !! target)) as [old c].
  pose proof Hin as (Ec & Hm & Hb). cbn [fst snd] in *. subst c.
  change (Z.of_nat (length frame)) with (frame_len (MkFrame frame now)) in *. set (f := MkFrame frame now) in *.
  destruct (Z.leb_spec (frame_len f) (max_inbox_bytes cfg)) as [Hfit|Hbig].
  - pose proof (push_spec old f Hin Hfit) as Hp. destruct (if max_inbox_messages cfg <=? _ then _ else _) as [l c].
    destruct (drop_until_fits _ _ l c) as [l' c']. destruct Hp as (<- & -> & Hle).
    destruct (Z.ltb_spec (max_inbox_bytes cfg) (bytes_total (l' ++ [f]))); [|done]. unfold f in *. lia.
  - assert (exists l, (if max_inbox_messages cfg <=? Z.of_nat (length old) then
        match old with d :: r => (r, sat_sub_u (bytes_total old) (frame_len d)) | [] => (old, bytes_total old) end
        else (old, bytes_total old)) = (l, bytes_total l)) as [l ->].
    { destruct (_ <=? _); [|by eexists]. destruct old as [|d r]; [by eexists|]. exists r. f_equal.
      rewrite bytes_total_cons. pose proof (bytes_total_nonneg r). pose proof (frame_len_nonneg d).
      unfold sat_sub_u. lia. }
    rewrite drop_until_fits_none by done.
    destruct (Z.ltb_spec (max_inbox_bytes cfg) (0 + frame_len f)); [done|lia].
Qed.

Lemma set_inboxes_ok (s : RelayInner) (i : gmap Fingerprint (list TimestampedFrame * Z)) :
  relay_ok cfg s -> map_Forall (fun _ fc => inbox_ok cfg fc) i -> relay_ok cfg (set_inboxes i s).
Proof. by intros [? ? ? ? _] Hi. Qed.

Lemma fit_suffix_ok (l : list TimestampedFrame) :
  inbox_ok cfg (fit_suffix (max_inbox_messages cfg) (max_inbox_bytes cfg) l,
                bytes_total (fit_suffix (max_inbox_messages cfg) (max_inbox_bytes cfg) l)).
Proof.
  destruct Hcfg. pose proof (fit_suffix_fits (max_inbox_messages cfg) (max_inbox_bytes cfg) l ltac:(lia) ltac:(lia)) as Hf.
  apply fits_caps_spec in Hf. split; [done|]. cbn. lia.
Qed.

Lemma inbox_push_ok (s : RelayInner) (now : Z) (ev : EvictionSet) (from target : Fingerprint) (frame : bytes) :
  relay_ok cfg s -> relay_ok cfg (inbox_push cfg now ev from target frame s).2.
Proof.
  intros Hok. destruct (decide (from ∈ ev)) as [Hev|Hev];
    [by unfold inbox_push; rewrite bool_decide_eq_true_2|].
  destruct (Z.le_gt_cases (Z.of_nat (length frame)) (max_frame_size cfg)) as [Hlen|Hlen].
  2:{ unfold inbox_push. rewrite bool_decide_eq_false_2 by done.
      destruct (Z.ltb_spec (max_frame_size cfg) (Z.of_nat (length frame))); [done|lia]. }
  destruct (decide (target ∈ ri_online s)) as [Hon|Hoff].
  2:{ unfold inbox_push. rewrite (bool_decide_eq_false_2 (from ∈ ev)) by done.
      destruct (_ <? _); [done|]. by rewrite bool_decide_eq_false_2. }
  pose proof (inbox_push_spec s now ev from target frame Hok Hev Hlen Hon) as Hp. cbn zeta in Hp.
  pose proof Hok as [_ _ _ _ Hi].
  destruct (_ <=? _); rewrite Hp; cbn [snd]; (apply set_inboxes_ok; [done|]); (apply map_Forall_insert_2; [|done]).
  - apply fit_suffix_ok.
  - destruct Hcfg. repeat split; cbn; lia.
Qed.

Lemma retain_alive_spec (now : Z) (fs : list TimestampedFrame) (c : Z) :
  bytes_total fs <= c ->
  retain_alive cfg now fs c = (List.filter (alive cfg now) fs, c - (bytes_total fs - bytes_total (List.filter (alive cfg now) fs))).
Proof.
  revert c. induction fs as [|f fs IH]; intros c Hc; cbn [retain_alive List.filter].
  - f_equal. cbn. lia.
  - rewrite bytes_total_cons in Hc. pose proof (frame_len_nonneg f). pose proof (bytes_total_nonneg fs).
    destruct (alive cfg now f).
    + rewrite IH by lia. f_equal. rewrite !bytes_total_cons. lia.
    + unfold sat_sub_u. rewrite Z.max_r by lia. rewrite IH by lia. f_equal. rewrite bytes_total_cons. lia.
Qed.

Lemma filter_bytes (P : TimestampedFrame -> bool) (fs : list TimestampedFrame) :
  bytes_total (List.filter P fs) <= bytes_total fs /\ (length (List.filter P fs) <= length fs)%nat.
Proof.
  induction fs as [|f fs IH]; [done|]. cbn [List.filter]. pose proof (frame_len_nonneg f).
  destruct (P f); rewrite !bytes_total_cons; cbn [length]; lia.
Qed.

Lemma retain_alive_ok (now : Z) (fc : list TimestampedFrame * Z) :
  inbox_ok cfg fc -> inbox_ok cfg (retain_alive cfg now fc.1 fc.2).
Proof.
  destruct fc as [fs c]. intros (Ec & Hm & Hb). cbn [fst snd] in *. subst c. rewrite retain_alive_spec by lia.
  pose proof (filter_bytes (alive cfg now) fs). repeat split; cbn [fst snd]; lia.
Qed.

(** ** Sequences of operations *)

Inductive RelayOp :=
| OpRegister (ev : EvictionSet) (fp : Fingerprint)
| OpDeregister (fp : Fingerprint)
| OpIssue (raw : bytes) (fp : Fingerprint)
| OpRevokeToken (token : string)
| OpOpen (ev : EvictionSet) (from to : Fingerprint)
| OpClose (id : Z)
| OpPush (now : Z) (ev : EvictionSet) (from target : Fingerprint) (frame : bytes)
| OpPull (now : Z) (fp : Fingerprint)
| OpCleanup (now : Z)
| OpPublish (now : Z) (fp : Fingerprint) (ad : Advert)
| OpFetch (now : Z) (fp : Fingerprint).

Definition exec (s : RelayInner) (op : RelayOp) : RelayInner :=
  match op with
  | OpRegister ev fp => (register ev fp s).2
  | OpDeregister fp => deregister fp s
  | OpIssue raw fp => (issue_token raw fp s).2
  | OpRevokeToken t => revoke_token t s
  | OpOpen ev from to => (open_pair cfg ev from to s).2
  | OpClose id => (close_pair id s).2
  | OpPush now ev from target frame => (inbox_push cfg now ev from target frame s).2
  | OpPull now fp => (inbox_pull cfg now fp s).2
  | OpCleanup now => (cleanup_expired cfg now s).2
  | OpPublish now fp ad => (advert_publish now fp ad s).2
  | OpFetch now fp => (advert_fetch now fp s).2
  end.

Lemma remove_pair_sublist (id : Z) (l : list ForwardPair) : remove_pair id l `sublist_of` l.
Proof.
  induction l as [|p l IH]; cbn; [done|]. destruct (_ =? _); [by apply sublist_cons|by apply sublist_skip].
Qed.

(** Dropping pairs keeps the invariant. *)
Lemma set_forwarding_ok (s : RelayInner) (l : list ForwardPair) :
  relay_ok cfg s -> l `sublist_of` ri_forwarding s -> relay_ok cfg (set_forwarding l s).
Proof.
  intros [Hon Hid Hnx Hcap Hin] Hl. constructor; cbn; [..|done].
  - by eapply Forall_sublist.
  - eapply sublist_NoDup; [done|by apply (sublist_map fp_id)].
  - by eapply Forall_sublist.
  - apply sublist_length in Hl. lia.
Qed.

Lemma open_pair_ok (s : RelayInner) (ev : EvictionSet) (from to : Fingerprint) :
  relay_ok cfg s -> 0 <= ri_next_pair_id s < u64_max -> relay_ok cfg (open_pair cfg ev from to s).2.
Proof.
  intros Hok Hn. unfold open_pair. repeat (case_bool_decide; [|]; cbn [negb]; try done).
  destruct (Z.leb_spec (max_forwardings cfg) (Z.of_nat (length (ri_forwarding s)))); [done|].
  destruct Hok as [Hon Hid Hnx Hcap Hin]. rewrite wrap_u64_id by (unfold in_u64; lia). constructor; cbn; [..|done].
  - apply Forall_app. split; [done|]. by repeat constructor.
  - rewrite map_app. apply NoDup_app. split; [done|]. split; [|apply NoDup_singleton].
    intros x Hx ->%list_elem_of_singleton. cbn in Hx. apply list_elem_of_In, in_map_iff in Hx as (p & Ep & Hp).
    apply list_elem_of_In in Hp. rewrite Forall_forall in Hnx. apply Hnx in Hp. lia.
  - apply Forall_app. split; [|repeat constructor; cbn; lia]. eapply Forall_impl; [done|]. cbn. intros; lia.
  - rewrite length_app. cbn. lia.
Qed.

Lemma deregister_ok (s : RelayInner) (fp : Fingerprint) : relay_ok cfg s -> relay_ok cfg (deregister fp s).
Proof.
  intros [Hon Hid Hnx Hcap Hin]. unfold deregister. cbn.
  set (l := filter _ (ri_forwarding s)).
  assert (l `sublist_of` ri_forwarding s) as Hl by apply sublist_filter.
  constructor; cbn; [..|done].
  - apply Forall_forall. intros p [[? ?] Hp]%list_elem_of_filter. rewrite Forall_forall in Hon.
    apply Hon in Hp as [? ?]. split; (apply elem_of_difference; split; [done|]); by rewrite elem_of_singleton.
  - eapply sublist_NoDup; [done|by apply (sublist_map fp_id)].
  - by eapply Forall_sublist.
  - apply sublist_length in Hl. lia.
Qed.

Lemma exec_ok (s : RelayInner) (op : RelayOp) :
  relay_ok cfg s -> 0 <= ri_next_pair_id s < u64_max ->
  relay_ok cfg (exec s op) /\ ri_next_pair_id s <= ri_next_pair_id (exec s op) <= ri_next_pair_id s + 1.
Proof.
  intros Hok Hn. pose proof Hok as [Hon Hid Hnx Hcap Hin]. destruct op; cbn [exec].
  - unfold register. case_bool_decide; cbn; [split; [done|lia]|]. split; [|lia]. constructor; cbn; try done.
    eapply Forall_impl; [exact Hon|]. intros p [? ?]. cbv beta. split; apply elem_of_union_r; done.
  - split; [by apply deregister_ok|cbn; lia].
  - split; [done|cbn; lia].
  - split; [done|cbn; lia].
  - split; [by apply open_pair_ok|]. unfold open_pair.
    repeat (case_bool_decide; [|]; cbn [negb snd]; try lia). destruct (_ <=? _); cbn; [lia|].
    rewrite wrap_u64_id by (unfold in_u64; lia). lia.
  - unfold close_pair. destruct (find_pair _ _); cbn; [|split; [done|lia]]. split; [|lia].
    apply set_forwarding_ok; [done|]. apply remove_pair_sublist.
  - split; [by apply inbox_push_ok|]. unfold inbox_push.
    repeat case_match; simplify_eq/=; lia.
  - unfold inbox_pull. destruct (ri_inboxes s !! fp) as [[fs c]|]; cbn; [|split; [done|lia]].
    split; [|lia]. apply set_inboxes_ok; [done|]. by apply map_Forall_delete.
  - split; [|cbn; lia]. apply set_inboxes_ok; [done|]. apply map_Forall_lookup. intros k fc Hk.
    apply map_lookup_filter_Some in Hk as [Hk _]. rewrite lookup_fmap in Hk.
    destruct (ri_inboxes s !! k) as [fc0|] eqn:E; cbn in Hk; simplify_eq. apply retain_alive_ok. by apply (Hin k).
  - unfold advert_publish. case_bool_decide; cbn; (split; [done|lia]).
  - unfold advert_fetch. destruct (ri_adverts s !! fp) as [[a t]|]; [destruct (_ <? _)|]; cbn; (split; [done|lia]).
Qed.

Lemma exec_all_ok (ops : list RelayOp) (s : RelayInner) :
  relay_ok cfg s -> 0 <= ri_next_pair_id s -> ri_next_pair_id s + Z.of_nat (length ops) <= u64_max ->
  relay_ok cfg (foldl exec s ops).
Proof.
  revert s. induction ops as [|op ops IH]; intros s Hok Hn Hl; [done|]. cbn [foldl length] in *.
  destruct (exec_ok s op Hok ltac:(lia)) as [Hok' Hn']. apply IH; [done|lia..].
Qed.

End Props.

(** ** Properties *)

(** Relay invariant: after any sequence of operations (fewer than [2^64 - 1])
    from a fresh relay, every forwarding pair joins two registered peers, pair
    ids are distinct, pairs and inboxes are within their caps, and the byte
    count of every inbox is the exact size of its frames. *)
Theorem relay_invariant `{Sdk} (cfg : RelayConfig) (ops : list RelayOp) :
  config_ok cfg -> Z.of_nat (length ops) < u64_max -> relay_ok cfg (foldl (exec cfg) relay_inner_new ops).
Proof. intros Hc Hl. apply exec_all_ok; [done|by apply relay_new_ok|cbn; lia..]. Qed.

Definition toy_fp (n : Z) : Fingerprint := replicate 32 (byte_of n).
Definition toy_config : RelayConfig := MkRelayConfig 2 2 10 300 8.
Definition toy_ops : list RelayOp :=
  [OpRegister ∅ (toy_fp 1); OpRegister ∅ (toy_fp 2); OpOpen ∅ (toy_fp 1) (toy_fp 2);
   OpPush 5 ∅ (toy_fp 1) (toy_fp 2) (as_bytes "abcdef"); OpPush 6 ∅ (toy_fp 1) (toy_fp 2) (as_bytes "ghijk");
   OpClose 7; OpCleanup 9; OpPull 10 (toy_fp 2)].

Lemma relay_invariant_witness :
  relay_ok toy_config (foldl (@exec Toy.sdk toy_config) relay_inner_new toy_ops).
Proof.
  apply (@relay_invariant Toy.sdk toy_config toy_ops).
  - constructor; vm_compute; congruence.
  - vm_compute. reflexivity.
Defined.

(** Pushes to one target, one after the other. *)
Definition push_all `{Sdk} (cfg : RelayConfig) (ev : EvictionSet) (target : Fingerprint)
    (pushes : list (Z * Fingerprint * bytes)) (s : RelayInner) : RelayInner :=
  foldl (fun s p => (inbox_push cfg p.1.1 ev p.1.2 target p.2 s).2) s pushes.

Lemma push_all_spec `{Sdk} (cfg : RelayConfig) (ev : EvictionSet) (target : Fingerprint)
    (pushes : list (Z * Fingerprint * bytes)) (s : RelayInner) :
  config_ok cfg -> relay_ok cfg s -> target ∈ ri_online s ->
  Forall (fun p => (p.1.2 ∉ ev) /\ Z.of_nat (length p.2) <= Z.min (max_frame_size cfg) (max_inbox_bytes cfg)) pushes ->
  forall old, default ([], 0) (ri_inboxes s !! target)
    = (fit_suffix (max_inbox_messages cfg) (max_inbox_bytes cfg) old, bytes_total (fit_suffix (max_inbox_messages cfg) (max_inbox_bytes cfg) old)) ->
  let new := fit_suffix (max_inbox_messages cfg) (max_inbox_bytes cfg) (old ++ map (fun p => MkFrame p.2 p.1.1) pushes) in
  default ([], 0) (ri_inboxes (push_all cfg ev target pushes s) !! target) = (new, bytes_total new)
  /\ relay_ok cfg (push_all cfg ev target pushes s).
Proof.
  intros Hcfg Hok Hon Hp. revert s Hok Hon. induction Hp as [|[[now from] frame] ps [Hev Hlen] _ IH]; intros s Hok Hon old Hold.
  { cbn. rewrite app_nil_r. done. }
  cbn [push_all foldl map fst snd] in *.
  pose proof (inbox_push_spec cfg Hcfg s now ev from target frame Hok Hev ltac:(lia) Hon) as Hpush. cbn zeta in Hpush.
  destruct (Z.leb_spec (Z.of_nat (length frame)) (max_inbox_bytes cfg)); [|lia].
  pose proof (inbox_push_ok cfg Hcfg s now ev from target frame Hok) as Hok'.
  rewrite Hold in Hpush. cbn [fst] in Hpush. rewrite <- fit_suffix_snoc in Hpush. rewrite Hpush in Hok' |- *. cbn [snd] in *.
  replace (old ++ MkFrame frame now :: map (fun p => MkFrame p.2 p.1.1) ps)
    with ((old ++ [MkFrame frame now]) ++ map (fun p => MkFrame p.2 p.1.1) ps) by (by rewrite <- app_assoc).
  apply IH; [done|done|]. cbn. by rewrite lookup_insert_eq.
Qed.

(** Store and forward: for a registered target with an empty inbox, after any
    frames within the size cap from peers that are not evicted, a pull
    returns, in order, the unexpired ones of the longest suffix of the frames
    pushed that fits the message and byte caps, and the next pull returns
    nothing. *)
Theorem inbox_is_bounded_queue `{Sdk} (cfg : RelayConfig) (ev : EvictionSet) (target : Fingerprint)
    (pushes : list (Z * Fingerprint * bytes)) (s : RelayInner) (now : Z) :
  config_ok cfg -> relay_ok cfg s -> target ∈ ri_online s -> ri_inboxes s !! target = None ->
  Forall (fun p => (p.1.2 ∉ ev) /\ Z.of_nat (length p.2) <= Z.min (max_frame_size cfg) (max_inbox_bytes cfg)) pushes ->
  let '(frames, s') := inbox_pull cfg now target (push_all cfg ev target pushes s) in
  frames = map tf_bytes (List.filter (alive cfg now)
             (fit_suffix (max_inbox_messages cfg) (max_inbox_bytes cfg) (map (fun p => MkFrame p.2 p.1.1) pushes)))
  /\ (inbox_pull cfg now target s').1 = [] /\ inbox_stats target s' = (0, 0).
Proof.
  intros Hcfg Hok Hon Hnone Hp.
  destruct (push_all_spec cfg ev target pushes s Hcfg Hok Hon Hp []) as [E _]; [by rewrite Hnone|].
  cbn [app] in E. unfold inbox_pull. destruct (ri_inboxes (push_all cfg ev target pushes s) !! target) as [[fs c]|] eqn:El.
  - cbn in E. simplify_eq. split; [done|]. cbn. unfold inbox_stats. cbn. by rewrite lookup_delete_eq.
  - cbn in E. injection E as E _. rewrite <- E. split; [done|]. unfold inbox_stats. by rewrite El.
Qed.

Lemma inbox_is_bounded_queue_witness :
  let s := set_online {[toy_fp 2]} relay_inner_new in
  let '(frames, s') := inbox_pull toy_config 9 (toy_fp 2)
    (@push_all Toy.sdk toy_config ∅ (toy_fp 2) [((1, toy_fp 1), as_bytes "abcdef"); ((2, toy_fp 1), as_bytes "ghi"); ((3, toy_fp 3), as_bytes "jk")] s) in
  frames = map tf_bytes (List.filter (alive toy_config 9)
             (fit_suffix 2 10 (map (fun p => MkFrame p.2 p.1.1) [((1, toy_fp 1), as_bytes "abcdef"); ((2, toy_fp 1), as_bytes "ghi"); ((3, toy_fp 3), as_bytes "jk")])))
  /\ (inbox_pull toy_config 9 (toy_fp 2) s').1 = [] /\ inbox_stats (toy_fp 2) s' = (0, 0).
Proof.
  apply (@inbox_is_bounded_queue Toy.sdk toy_config ∅ (toy_fp 2)).
  - constructor; vm_compute; congruence.
  - constructor; cbn; [constructor..|vm_compute; congruence|apply map_Forall_empty].
  - cbn. by apply elem_of_singleton.
  - done.
  - repeat constructor; try apply not_elem_of_empty; vm_compute; congruence.
Defined.

(** Disconnecting: afterwards the peer is not online, no token resolves to it
    and no forwarding pair has it at an end, while tokens and pairs of other
    peers are kept. *)
Theorem deregister_clears (s : RelayInner) (fp : Fingerprint) :
  let s' := deregister fp s in
  is_online fp s' = false
  /\ (forall t f, resolve_token t s' = Some f <-> resolve_token t s = Some f /\ f <> fp)
  /\ (forall p, p ∈ ri_forwarding s' <-> p ∈ ri_forwarding s /\ fp_from p <> fp /\ fp_to p <> fp).
Proof.
  cbn. unfold is_online, resolve_token. cbn. split; [|split].
  - apply bool_decide_eq_false. rewrite elem_of_difference, elem_of_singleton. tauto.
  - intros t f. rewrite map_lookup_filter_Some. done.
  - intros p. rewrite list_elem_of_filter. tauto.
Qed.

(** Eviction survives a restart: loading what was saved gives the same set
    whatever order it was written in, and a missing file is the only input
    other than a well-formed one that gives a set at all. *)
Theorem eviction_persists (e : EvictionSet) (iter : list Fingerprint) (file : FileRead) :
  iter ≡ₚ elements e -> Forall (fun b => length b = 32%nat) iter ->
  eviction_load (FileBytes (eviction_save_bytes iter)) = Ok e
  /\ (is_ok (eviction_load file) = true ->
        file = FileNotFound \/ exists body, file = FileBytes (eviction_save_bytes [body]) /\ (length body mod 32 = 0)%nat).
Proof.
  intros Hp Hl. split.
  - unfold eviction_load, eviction_save_bytes.
    change (as_bytes "ONEV" ++ [byte_of 1] ++ concat iter) with ((as_bytes "ONEV" ++ [byte_of 1]) ++ concat iter).
    destruct (Nat.ltb_spec (length ((as_bytes "ONEV" ++ [byte_of 1]) ++ concat iter)) 5) as [Hlt|_];
      [rewrite length_app in Hlt; cbn in Hlt; lia|].
    change (take 4 ((as_bytes "ONEV" ++ [byte_of 1]) ++ concat iter)) with (as_bytes "ONEV").
    change (nth 4 ((as_bytes "ONEV" ++ [byte_of 1]) ++ concat iter) zero) with (byte_of 1).
    rewrite !bool_decide_eq_true_2 by done. cbn [negb orb].
    change (drop 5 ((as_bytes "ONEV" ++ [byte_of 1]) ++ concat iter)) with (concat iter).
    rewrite (concat_length_mod 32) by done. cbn [Nat.eqb negb].
    rewrite chunks_exact_concat; [|lia|done|lia]. f_equal. rewrite Hp. apply list_to_set_elements_L.
  - destruct file as [b| |x]; unfold eviction_load; [|by left|done]. intros Hok. right.
    destruct (Nat.ltb_spec (length b) 5); [done|].
    case_bool_decide as Hm; [|done]. case_bool_decide as Hv; [|done]. cbn [orb negb] in Hok.
    destruct (_ =? 0)%nat eqn:Emod; [|done]. apply Nat.eqb_eq in Emod. exists (drop 5 b). split; [|done].
    f_equal. unfold eviction_save_bytes. rewrite <- Hm, <- Hv. cbn [concat]. rewrite app_nil_r.
    destruct b as [|b0 [|b1 [|b2 [|b3 [|b4 b]]]]]; cbn in *; try lia. done.
Qed.

Lemma eviction_persists_witness :
  eviction_load (FileBytes (eviction_save_bytes [toy_fp 7])) = Ok ({[toy_fp 7]} : EvictionSet).
Proof.
  apply (eviction_persists {[toy_fp 7]} [toy_fp 7] FileNotFound); [by rewrite elements_singleton|repeat constructor].
Defined.
