(* ===== verification/NetAuth.v ===== *)
(** * Authentication of origin-network

    [identity.rs] (signature wire format, AUTH claims and their
    verification), and of [session.rs] the handshake transcript, the dial
    backoff and the responder's and relay's authentication, which is shared
    with [relay_server.rs].  Signature schemes, key derivation and serde are
    parameters. *)

From Stdlib Require Import Ascii String.
From S2P Require Import Prelude RustStr Bytes Sdk StateErr ChanError ChanWire ChanKeys ChanSession NetWire HandshakeReplay.

(** ** The SDK *)

Class NetCryptoOps := {
  EdSig : Type;
  FalconSig : Type;
  ed_to_bytes : EdSig -> bytes;
  ed_from_slice : bytes -> result string EdSig;
  falcon_as_bytes : FalconSig -> bytes;
  falcon_from_bytes : bytes -> result string FalconSig;
  FALCON_SIG_MAX : Z;
  (** [Ed25519VerifyingKey::from_bytes], [FalconPublicKey::from_bytes]. *)
  ed_pk_check : bytes -> result string unit;
  falcon_pk_check : bytes -> result string unit;
  (** [Ed25519Falcon1024::verify(ed_pk, falcon_pk, message, sig)]. *)
  hybrid_pair_verify : bytes -> bytes -> bytes -> EdSig -> FalconSig -> bool;
  (** [HybridSigningKeyBundle::from_seed(seed, domain)] and its methods. *)
  KeyBundle : Type;
  bundle_from_seed : bytes -> string -> result string KeyBundle;
  bundle_try_sign : KeyBundle -> bytes -> result string (EdSig * FalconSig);
  bundle_ed25519_pk : KeyBundle -> bytes;
  bundle_falcon1024_pk : KeyBundle -> bytes;
  (** [SeedHandle::derive_key(domain, label, 32)]. *)
  derive_key : bytes -> string -> string -> option bytes
}.

(** Signatures are 64 and at most [FALCON_SIG_MAX] bytes, and parsing inverts
    serialising. *)
Class NetCryptoOk `{NetCryptoOps} : Prop := {
  ed_len : forall s, length (ed_to_bytes s) = 64%nat;
  ed_parse : forall s, ed_from_slice (ed_to_bytes s) = Ok s;
  falcon_len : forall s, Z.of_nat (length (falcon_as_bytes s)) <= FALCON_SIG_MAX;
  falcon_max : FALCON_SIG_MAX < 2 ^ 32;
  falcon_parse : forall s, falcon_from_bytes (falcon_as_bytes s) = Ok s
}.

Definition TRANSPORT_KEY_DOMAIN : string := "origin-network:transport:v1".
Definition IDENTITY_KEY_DOMAIN : string := "origin-identity:v1".
Definition PROTOCOL_VERSION : Z := 1.
Definition SIG_LEN_PREFIX : nat := 4.
Definition ED_SIG_LEN : nat := 64.

Record AuthClaim := MkAuthClaim {
  ac_fingerprint : bytes;
  ac_x25519_pk : bytes;
  ac_hybrid_signature : bytes;
  ac_protocol_version : Z;
  ac_nonce : bytes
}.

Record PeerKeys := MkPeerKeys {
  pk_fingerprint : bytes;
  pk_device_index : Z;
  pk_ed25519_pk : bytes;
  pk_falcon_pk : bytes;
  pk_transport_pk : bytes
}.

(** ** [identity.rs] *)

Section Auth.
Context `{Sdk, ChanCrypto, NetCryptoOps}.

Definition derive_transport_secret (seed : bytes) (device_index : Z) : result NetworkError X25519KeyPair :=
  match derive_key seed TRANSPORT_KEY_DOMAIN (show_Z device_index) with
  | None => Err (NetCrypto "transport key derivation failed")
  | Some derived =>
      map_err (fun e => NetCrypto ("invalid transport secret: " +:+ e)) (x25519_from_secret_key (take 32 derived))
  end.

Definition transport_public_key (secret : X25519KeyPair) : bytes := x25519_public_key secret.

Definition hybrid_sig_to_wire (ed : EdSig) (falcon : FalconSig) : bytes :=
  be_bytes 4 (wrap_u32 (Z.of_nat (length (falcon_as_bytes falcon)))) ++ ed_to_bytes ed ++ falcon_as_bytes falcon.

Definition hybrid_sig_from_wire (raw : bytes) : result NetworkError (EdSig * FalconSig) :=
  let min := (SIG_LEN_PREFIX + ED_SIG_LEN)%nat in
  if (length raw <? min)%nat then
    Err (NetAuth ("signature too short: " +:+ show_Z (Z.of_nat (length raw)) +:+ " bytes (min "
                  +:+ show_Z (Z.of_nat min) +:+ ")"))
  else
    let falcon_len := be_val (take 4 raw) in
    if FALCON_SIG_MAX <? falcon_len then
      Err (NetAuth ("falcon signature length " +:+ show_Z falcon_len +:+ " exceeds max " +:+ show_Z FALCON_SIG_MAX))
    else if negb (Z.of_nat (length raw) =? Z.of_nat min + falcon_len) then
      Err (NetAuth ("signature length mismatch: header says " +:+ show_Z falcon_len +:+ " falcon bytes, total "
                    +:+ show_Z (Z.of_nat (length raw))))
    else
      ed_sig ← map_err (fun e => NetAuth ("bad ed25519 signature: " +:+ e))
                 (ed_from_slice (slice SIG_LEN_PREFIX (SIG_LEN_PREFIX + ED_SIG_LEN) raw));
      falcon_sig ← map_err (fun e => NetAuth ("bad falcon signature: " +:+ e))
                     (falcon_from_bytes (drop (SIG_LEN_PREFIX + ED_SIG_LEN) raw));
      Ok (ed_sig, falcon_sig).

Definition auth_message (fingerprint : Fingerprint) (x25519_pk nonce : bytes) (peer_fp : Fingerprint)
    (transcript : bytes) : bytes :=
  sha3_256 (as_bytes "origin-network:auth-claim:v1" ++ be_bytes 2 PROTOCOL_VERSION ++ fingerprint ++ x25519_pk
            ++ nonce ++ peer_fp ++ transcript).

(** [nonce_draw]: the random 16 bytes. *)
Definition sign_auth_claim (nonce_draw : result string bytes) (seed : bytes) (device_index : Z)
    (peer_fp : Fingerprint) (transcript : bytes) : result NetworkError AuthClaim :=
  bundle ← map_err (fun e => NetAuth ("identity bundle: " +:+ e)) (bundle_from_seed seed IDENTITY_KEY_DOMAIN);
  secret ← derive_transport_secret seed device_index;
  let x25519_pk := transport_public_key secret in
  let fingerprint := from_seed_bytes seed in
  nonce ← map_err NetCrypto nonce_draw;
  let message := auth_message fingerprint x25519_pk nonce peer_fp transcript in
  '(ed, falcon) ← map_err (fun e => NetAuth ("signing failed: " +:+ e)) (bundle_try_sign bundle message);
  Ok (MkAuthClaim fingerprint x25519_pk (hybrid_sig_to_wire ed falcon) PROTOCOL_VERSION nonce).

Definition peer_keys_from_seed (seed : bytes) (device_index : Z) : result NetworkError PeerKeys :=
  bundle ← map_err (fun e => NetAuth ("identity bundle: " +:+ e)) (bundle_from_seed seed IDENTITY_KEY_DOMAIN);
  secret ← derive_transport_secret seed device_index;
  Ok (MkPeerKeys (from_seed_bytes seed) device_index (bundle_ed25519_pk bundle) (bundle_falcon1024_pk bundle)
        (transport_public_key secret)).

Definition transport_pk_bytes (k : PeerKeys) : result NetworkError bytes :=
  if (length (pk_transport_pk k) =? 32)%nat then Ok (pk_transport_pk k)
  else Err (NetAuth "bad transport key length in peer record").

Definition verify_auth_claim (peer : PeerKeys) (claim : AuthClaim) (peer_fp : Fingerprint) (transcript : bytes)
    : result NetworkError unit :=
  if negb (bool_decide (ac_fingerprint claim = pk_fingerprint peer)) then
    Err (NetAuth "fingerprint mismatch with peer record")
  else if negb (ac_protocol_version claim =? PROTOCOL_VERSION) then
    Err (NetAuth ("unsupported protocol version " +:+ show_Z (ac_protocol_version claim)))
  else if negb (length (pk_ed25519_pk peer) =? 32)%nat then
    Err (NetAuth "bad ed25519 public key length in peer record")
  else
    _ ← map_err (fun e => NetAuth ("bad ed25519 public key: " +:+ e)) (ed_pk_check (pk_ed25519_pk peer));
    _ ← map_err (fun e => NetAuth ("bad falcon public key: " +:+ e)) (falcon_pk_check (pk_falcon_pk peer));
    '(ed, falcon) ← hybrid_sig_from_wire (ac_hybrid_signature claim);
    let message := auth_message (ac_fingerprint claim) (ac_x25519_pk claim) (ac_nonce claim) peer_fp transcript in
    if hybrid_pair_verify (pk_ed25519_pk peer) (pk_falcon_pk peer) message ed falcon then Ok tt
    else Err (NetAuth "hybrid signature verification failed").

(** ** [session.rs] *)

Definition initiator_static_from_msg1 (msg : HandshakeMessage) : result NetworkError bytes :=
  if (length (hm_payload msg) <? 32)%nat then Err (NetHandshake "msg1 payload missing initiator static key")
  else Ok (take 32 (hm_payload msg)).

Definition handshake_transcript (msg1 msg2 msg3 : bytes) : bytes :=
  sha3_256 (as_bytes "origin-network:transcript:v1" ++ msg1 ++ msg2 ++ msg3).

Definition reassemble (body : bytes) (tag : ascii) : bytes := tag :: body.

(** [backoff(attempt, base_ms, max_ms, seed)] in milliseconds. *)
Definition backoff (attempt base_ms max_ms seed : Z) : Z :=
  let exp := Z.min (sat_sub_u attempt 1) 31 in
  let ceil := Z.min (wrap_u64 (Z.shiftl base_ms exp)) max_ms in
  let jitter := Z.lxor (Z.lxor seed (Z.shiftr seed 17)) (wrap_u64 (attempt * 11400714819323198485)) mod Z.max ceil 1 in
  Z.min (ceil + jitter) u64_max.

(** [TransportAddr], with the octets of the IP address of a socket address (4
    for v4, 16 for v6) and its port. *)
Record SocketAddr := { sa_octets : bytes; sa_port : Z }.
Inductive TransportAddr := Tcp (s : SocketAddr) | Udp (s : SocketAddr) | Quic (s : SocketAddr) | Memory (name : string).

(** The FNV-1a hash [jitter_seed] computes of the address and the
    fingerprint. *)
Definition feed (h : Z) (b : ascii) : Z := wrap_u64 (Z.lxor h (code b) * 1099511628211).
Definition addr_feed (addr : TransportAddr) : bytes :=
  match addr with
  | Tcp s | Udp s | Quic s =>
      sa_octets s ++ [byte_of (Z.land (sa_port s) 255); byte_of (Z.shiftr (sa_port s) 8)]
  | Memory name => as_bytes name
  end.
Definition jitter_seed (addr : TransportAddr) (fp : Fingerprint) : Z :=
  foldl feed (foldl feed 14695981039346656037 (addr_feed addr)) fp.

End Auth.

(** ** Lemmas *)

Section AuthLemmas.
Context `{Sdk, ChanCrypto, NetCryptoOps}.

Lemma hybrid_sig_wire {OK : NetCryptoOk} (ed : EdSig) (fa : FalconSig) :
  hybrid_sig_from_wire (hybrid_sig_to_wire ed fa) = Ok (ed, fa).
Proof.
  unfold hybrid_sig_from_wire, hybrid_sig_to_wire. set (b := falcon_as_bytes fa).
  pose proof (falcon_len fa) as Hl. fold b in Hl. pose proof falcon_max. pose proof (ed_len ed) as He.
  assert (wrap_u32 (Z.of_nat (length b)) = Z.of_nat (length b)) as -> by (apply Z.mod_small; lia).
  pose proof (be_bytes_length 4 (Z.of_nat (length b))) as Hh. set (h := be_bytes 4 _) in *.
  assert (be_val h = Z.of_nat (length b)) as Ev by (apply be_val_bytes; change (256 ^ Z.of_nat 4) with (2 ^ 32); lia).
  rewrite !length_app, Hh, He. unfold SIG_LEN_PREFIX, ED_SIG_LEN.
  destruct (Nat.ltb_spec (4 + (64 + length b)) (4 + 64)); [lia|].
  rewrite take_app_length' by done. rewrite Ev. destruct (Z.ltb_spec FALCON_SIG_MAX (Z.of_nat (length b))); [lia|].
  destruct (Z.eqb_spec (Z.of_nat (4 + (64 + length b))) (Z.of_nat (4 + 64) + Z.of_nat (length b))); [|lia]. cbn [negb].
  replace (slice 4 (4 + 64) (h ++ ed_to_bytes ed ++ b)) with (ed_to_bytes ed)
    by (rewrite <- He; symmetry; by apply slice_app).
  rewrite app_assoc, drop_app_length' by (rewrite length_app, Hh, He; done).
  rewrite ed_parse. cbn. unfold b. by rewrite falcon_parse.
Qed.

(** The fields of the signed message have fixed widths. *)
Definition claim_ok (c : AuthClaim) : Prop :=
  length (ac_fingerprint c) = 32%nat /\ length (ac_x25519_pk c) = 32%nat /\ length (ac_nonce c) = 16%nat.

Lemma auth_message_inj (f1 f2 x1 x2 n1 n2 p1 p2 t1 t2 : bytes) :
  length f1 = length f2 -> length x1 = length x2 -> length n1 = length n2 -> length p1 = length p2 ->
  auth_message f1 x1 n1 p1 t1 = auth_message f2 x2 n2 p2 t2 ->
  (f1 = f2 /\ x1 = x2 /\ n1 = n2 /\ p1 = p2 /\ t1 = t2) \/ collision sha3_256.
Proof.
  intros Hf Hx Hn Hp E. unfold auth_message in E. apply hash_eq_or_collision in E as [E|]; [|by right]. left.
  do 2 (apply app_inj_len in E as [_ E]; [|done]).
  apply app_inj_len in E as [-> E]; [|done]. apply app_inj_len in E as [-> E]; [|done].
  apply app_inj_len in E as [-> E]; [|done]. apply app_inj_len in E as [-> ->]; done.
Qed.

Lemma verify_auth_claim_Ok (k : PeerKeys) (c : AuthClaim) (p : Fingerprint) (t : bytes) :
  verify_auth_claim k c p t = Ok tt ->
  ac_fingerprint c = pk_fingerprint k /\ ac_protocol_version c = PROTOCOL_VERSION
  /\ exists ed fa, hybrid_sig_from_wire (ac_hybrid_signature c) = Ok (ed, fa)
     /\ hybrid_pair_verify (pk_ed25519_pk k) (pk_falcon_pk k)
          (auth_message (ac_fingerprint c) (ac_x25519_pk c) (ac_nonce c) p t) ed fa = true.
Proof.
  unfold verify_auth_claim. case_bool_decide as Hf; [|done]. cbn [negb].
  destruct (Z.eqb_spec (ac_protocol_version c) PROTOCOL_VERSION) as [Hv|]; [|done]. cbn [negb].
  destruct (_ =? 32)%nat; [|done]. cbn [negb]. intros Hc. inv_ok Hc.
  match goal with E : hybrid_sig_from_wire _ = Ok ?x |- _ => destruct x as [ed fa] end.
  split; [done|]. split; [done|]. exists ed, fa. split; [done|]. by destruct (hybrid_pair_verify _ _ _ _ _).
Qed.

End AuthLemmas.

(** ** A concrete instance: signatures are checksums of the message. *)

Module ToyNet.

Definition csum (m : bytes) : ascii := byte_of (list_sum (map code m)).

Definition ops : NetCryptoOps := {|
  EdSig := ascii; FalconSig := ascii;
  ed_to_bytes a := replicate 64 a;
  ed_from_slice b := match b with a :: _ => Ok a | [] => Err "empty" end;
  falcon_as_bytes a := [a];
  falcon_from_bytes b := match b with a :: _ => Ok a | [] => Err "empty" end;
  FALCON_SIG_MAX := 1462;
  ed_pk_check _ := Ok tt; falcon_pk_check _ := Ok tt;
  hybrid_pair_verify _ _ m ed fa := bool_decide (ed = csum m) && bool_decide (fa = csum m);
  KeyBundle := bytes;
  bundle_from_seed seed _ := Ok seed;
  bundle_try_sign _ m := Ok (csum m, csum m);
  bundle_ed25519_pk b := b; bundle_falcon1024_pk b := b;
  derive_key seed _ _ := Some seed
|}.

#[global] Instance ops_ok : @NetCryptoOk ops.
Proof.
  constructor; done.
Qed.

End ToyNet.

(** ** Properties *)

(** Hybrid signatures survive the wire, and nothing but their encoding parses
    to them. *)
Theorem hybrid_sig_roundtrip `{NetCryptoOps} {OK : NetCryptoOk} (ed : EdSig) (fa : FalconSig) :
  hybrid_sig_from_wire (hybrid_sig_to_wire ed fa) = Ok (ed, fa)
  /\ (forall raw, hybrid_sig_from_wire raw = Ok (ed, fa) ->
        Z.of_nat (length raw) = 68 + be_val (take 4 raw) /\ be_val (take 4 raw) <= FALCON_SIG_MAX
        /\ ed_from_slice (slice 4 68 raw) = Ok ed /\ falcon_from_bytes (drop 68 raw) = Ok fa).
Proof.
  split; [apply hybrid_sig_wire|]. intros raw. unfold hybrid_sig_from_wire, SIG_LEN_PREFIX, ED_SIG_LEN.
  destruct (_ <? _)%nat; [done|]. destruct (Z.ltb_spec FALCON_SIG_MAX (be_val (take 4 raw))); [done|].
  destruct (Z.eqb_spec (Z.of_nat (length raw)) (Z.of_nat (4 + 64) + be_val (take 4 raw))) as [El|]; [|done]. cbn [negb].
  intros Hr. inv_ok Hr. repeat match goal with E : map_err _ _ = Ok _ |- _ => apply map_err_Ok in E end.
  change (Z.of_nat (4 + 64)) with 68 in El. by repeat split.
Qed.

Lemma hybrid_sig_roundtrip_witness :
  @hybrid_sig_from_wire ToyNet.ops (@hybrid_sig_to_wire ToyNet.ops (byte_of 3) (byte_of 4)) = Ok (byte_of 3, byte_of 4).
Proof. apply (@hybrid_sig_roundtrip ToyNet.ops ToyNet.ops_ok (byte_of 3) (byte_of 4)). Defined.

(** Dial backoff: the wait lies between the exponential ceiling and twice it,
    so it may exceed the maximum by almost as much again. *)
Theorem backoff_bounds (attempt base_ms max_ms seed : Z) :
  1 <= base_ms -> base_ms < 2 ^ 32 -> 1 <= max_ms < 2 ^ 62 -> 1 <= attempt < 2 ^ 32 -> in_u64 seed ->
  let ceil := Z.min (base_ms * 2 ^ Z.min (attempt - 1) 31) max_ms in
  1 <= ceil <= max_ms /\ ceil <= backoff attempt base_ms max_ms seed < 2 * ceil.
Proof.
  intros Hb Hb' Hm Ha Hs ceil. unfold backoff. assert (sat_sub_u attempt 1 = attempt - 1) as -> by (unfold sat_sub_u; lia).
  set (e := Z.min (attempt - 1) 31) in *. assert (0 <= e <= 31) by lia.
  assert (1 <= 2 ^ e <= 2 ^ 31) by (split; [apply (Z.pow_le_mono_r 2 0); lia|apply Z.pow_le_mono_r; lia]).
  rewrite Z.shiftl_mul_pow2 by lia. rewrite wrap_u64_id by (unfold in_u64, u64_max; nia). fold ceil.
  assert (1 <= ceil <= max_ms) by (unfold ceil; nia). rewrite Z.max_l by lia.
  set (j := _ mod ceil). assert (0 <= j < ceil) by (apply Z.mod_pos_bound; lia).
  unfold u64_max. lia.
Qed.

Lemma backoff_bounds_witness :
  let ceil := Z.min (100 * 2 ^ Z.min (3 - 1) 31) 5000 in
  1 <= ceil <= 5000 /\ ceil <= backoff 3 100 5000 12345 < 2 * ceil.
Proof. apply (backoff_bounds 3 100 5000 12345); try lia. split; vm_compute; congruence. Defined.
