(* ===== verification/RelayServer.v ===== *)
(** * The relay server of origin-network ([relay_server.rs])

    Connections authenticate, register and then drive the control protocol.
    Tokio channels are queues held by their channel number: a channel that is
    no longer in the map has lost its receiver, and sending to it fails.  A
    connection is the script of frames it will receive, the frames sent to
    it and whether the socket is broken; serde is the class [Payloads].  Each
    definition is one task step between two awaits on the socket; other tasks
    may run between steps. *)

From Stdlib Require Import Ascii String.
From S2P Require Import Prelude RustStr Bytes Sdk StateErr ChanError ChanWire ChanKeys ChanSession.
From S2P Require Import NetWire HandshakeReplay Relay NetAuth.

(** ** Data *)

Definition MAX_SUBSCRIPTIONS_PER_CLIENT : Z := 64.
Definition MAX_SUBSCRIBERS_PER_TARGET : Z := 256.

Record PresenceEvent := MkPresenceEvent { pe_target_fp : Fingerprint; pe_online : bool }.
Record RelayData := MkRelayData { rd_pair_id : Z; rd_seq : Z; rd_frame : bytes }.

(** Payloads the server sends, before serialisation. *)
Inductive ServerMsg :=
| SAuthOk (session_token : string)
| SAuthReject (reason : string)
| SSessionOpenAck (pair_id : Z)
| SInboxPull (frames : list bytes)
| SProbe (online : bool)
| SAdvertFetch (advert : option Advert)
| SPresence (e : PresenceEvent)
| SRelayData (d : RelayData)
| SError (code detail : string).

Inductive OutFrame := ORaw (tag : ascii) (body : bytes) | OMsg (m : ServerMsg).

(** [decode_payload] at the types the server reads. *)
Class Payloads := {
  dec_auth_claim : bytes -> result string AuthClaim;
  dec_session_open : bytes -> result string Fingerprint;
  dec_session_close : bytes -> result string Z;
  dec_inbox_push : bytes -> result string (Fingerprint * bytes);
  dec_inbox_pull : bytes -> result string unit;
  dec_probe : bytes -> result string Fingerprint;
  dec_advert_publish : bytes -> result string Advert;
  dec_advert_fetch : bytes -> result string Fingerprint;
  dec_presence_subscribe : bytes -> result string Fingerprint;
  dec_relay_data : bytes -> result string RelayData
}.

Record Conn := MkConn { cn_in : list (ascii * bytes); cn_out : list OutFrame; cn_broken : bool }.

Definition recv_frame : SE Conn NetworkError (ascii * bytes) := fun c =>
  match cn_in c with
  | [] => (Err (NetTransport "connection closed"), c)
  | x :: rest => (Ok x, MkConn rest (cn_out c) (cn_broken c))
  end.

Definition send_frame (f : OutFrame) : SE Conn NetworkError unit := fun c =>
  if cn_broken c then (Err (NetTransport "connection broken"), c)
  else (Ok tt, MkConn (cn_in c) (cn_out c ++ [f]) (cn_broken c)).

Definition send_error (code detail : string) : SE Conn NetworkError unit := send_frame (OMsg (SError code detail)).
Definition send_reject (reason : string) : SE Conn NetworkError unit := send_frame (OMsg (SAuthReject reason)).

(** ** Presence *)

Record PresenceRegistry := MkPresence {
  pr_by_target : gmap Fingerprint (gmap Fingerprint Z);
  pr_by_client : gmap Fingerprint (gset Fingerprint);
  pr_senders : gmap Fingerprint Z;
  (** The live channels and what is queued in them. *)
  pr_chans : gmap Z (list PresenceEvent)
}.

Definition presence_new : PresenceRegistry := MkPresence ∅ ∅ ∅ ∅.

(** [chan]: the fresh channel. *)
Definition register_client (chan : Z) (client : Fingerprint) (p : PresenceRegistry) : PresenceRegistry :=
  MkPresence (pr_by_target p) (pr_by_client p) (<[client := chan]> (pr_senders p)) (<[chan := []]> (pr_chans p)).

Definition subscribe (target client : Fingerprint) : SE PresenceRegistry NetworkError unit := fun p =>
  let client_targets := default ∅ (pr_by_client p !! client) in
  let p := MkPresence (pr_by_target p) (<[client := client_targets]> (pr_by_client p)) (pr_senders p) (pr_chans p) in
  if (MAX_SUBSCRIPTIONS_PER_CLIENT <=? Z.of_nat (size client_targets)) && negb (bool_decide (target ∈ client_targets))
  then (Err (NetRelayFull ("subscription cap reached (" +:+ show_Z MAX_SUBSCRIPTIONS_PER_CLIENT +:+ ")")), p)
  else
    let subs := default ∅ (pr_by_target p !! target) in
    let p := MkPresence (<[target := subs]> (pr_by_target p)) (pr_by_client p) (pr_senders p) (pr_chans p) in
    if (MAX_SUBSCRIBERS_PER_TARGET <=? Z.of_nat (size subs)) && negb (bool_decide (is_Some (subs !! client)))
    then (Err (NetRelayFull ("subscriber cap reached for target (" +:+ show_Z MAX_SUBSCRIBERS_PER_TARGET +:+ ")")), p)
    else
      match pr_senders p !! client with
      | None => (Err (NetAuth "presence subscribe before sender registration"), p)
      | Some tx =>
          (Ok tt, MkPresence (<[target := <[client := tx]> subs]> (pr_by_target p))
                    (<[client := {[target]} ∪ client_targets]> (pr_by_client p)) (pr_senders p) (pr_chans p))
      end.

(** The subscribers whose channel is closed. *)
Definition dead_subscribers (p : PresenceRegistry) (subs : gmap Fingerprint Z) : list Fingerprint :=
  omap (fun ct => match pr_chans p !! snd ct with None => Some (fst ct) | Some _ => None end) (map_to_list subs).

Definition notify (target : Fingerprint) (event : PresenceEvent) (p : PresenceRegistry) : Z * PresenceRegistry :=
  match pr_by_target p !! target with
  | None => (0, p)
  | Some subs =>
      let dead := dead_subscribers p subs in
      let chans := foldr (fun ct cs => match cs !! snd ct with
                                       | Some q => <[snd ct := q ++ [event]]> cs
                                       | None => cs
                                       end) (pr_chans p) (map_to_list subs) in
      let by_client := foldr (fun d bc => match bc !! d with
                                          | Some ts => <[d := ts ∖ {[target]}]> bc
                                          | None => bc
                                          end) (pr_by_client p) dead in
      (Z.of_nat (size subs) - Z.of_nat (length dead),
       MkPresence (<[target := foldr delete subs dead]> (pr_by_target p)) by_client (pr_senders p) chans)
  end.

Definition remove_client (client : Fingerprint) (p : PresenceRegistry) : PresenceRegistry :=
  match pr_by_client p !! client with
  | None => MkPresence (pr_by_target p) (pr_by_client p) (delete client (pr_senders p)) (pr_chans p)
  | Some targets =>
      let by_target := foldr (fun t bt => match bt !! t with
                                          | None => bt
                                          | Some subs =>
                                              let subs := delete client subs in
                                              if bool_decide (subs = ∅) then delete t bt else <[t := subs]> bt
                                          end) (pr_by_target p) (elements targets) in
      MkPresence by_target (delete client (pr_by_client p)) (delete client (pr_senders p)) (pr_chans p)
  end.

Definition total_subscriptions (p : PresenceRegistry) : Z :=
  list_sum (map (fun kv => Z.of_nat (size kv.2)) (map_to_list (pr_by_target p))).

(** ** The server *)

Record RelayServer := MkRelayServer {
  sv_state : RelayInner;
  sv_eviction : EvictionSet;
  sv_replay : HandshakeReplayTracker;
  sv_presence : PresenceRegistry;
  (** Connected client, its outbound channel; and the channels. *)
  sv_conns : gmap Fingerprint Z;
  sv_chans : gmap Z (list RelayData)
}.

Record ServerConfig `{ChanCrypto} := MkServerConfig {
  sc_relay : RelayConfig;
  sc_resolver : Fingerprint -> option PeerKeys;
  sc_relay_fp : Fingerprint;
  sc_relay_static : X25519KeyPair
}.

Definition set_state (s : RelayInner) (v : RelayServer) : RelayServer :=
  MkRelayServer s (sv_eviction v) (sv_replay v) (sv_presence v) (sv_conns v) (sv_chans v).
Definition set_replay (t : HandshakeReplayTracker) (v : RelayServer) : RelayServer :=
  MkRelayServer (sv_state v) (sv_eviction v) t (sv_presence v) (sv_conns v) (sv_chans v).
Definition set_presence (p : PresenceRegistry) (v : RelayServer) : RelayServer :=
  MkRelayServer (sv_state v) (sv_eviction v) (sv_replay v) p (sv_conns v) (sv_chans v).
Definition set_conns (c : gmap Fingerprint Z) (v : RelayServer) : RelayServer :=
  MkRelayServer (sv_state v) (sv_eviction v) (sv_replay v) (sv_presence v) c (sv_chans v).
Definition set_chans (c : gmap Z (list RelayData)) (v : RelayServer) : RelayServer :=
  MkRelayServer (sv_state v) (sv_eviction v) (sv_replay v) (sv_presence v) (sv_conns v) c.

(** A task works on the server and its own connection. *)
Definition Task : Type := RelayServer * Conn.
Definition T (A : Type) : Type := SE Task NetworkError A.
Definition on_conn {A : Type} (m : SE Conn NetworkError A) : T A := on_field snd (fun c t => (fst t, c)) m.
Definition on_state {A : Type} (m : SE RelayInner NetworkError A) : T A :=
  on_field (fun t => sv_state (fst t)) (fun s t => (set_state s (fst t), snd t)) m.
Definition on_presence {A : Type} (m : SE PresenceRegistry NetworkError A) : T A :=
  on_field (fun t => sv_presence (fst t)) (fun p t => (set_presence p (fst t), snd t)) m.
Definition update (f : RelayServer -> RelayServer) : T unit := modify (fun t => (f (fst t), snd t)).
Definition reads {A : Type} (f : RelayServer -> A) : T A := gets (fun t => f (fst t)).
(** Run a state function that cannot fail. *)
Definition total {S A : Type} (f : S -> A * S) : SE S NetworkError A := fun s => let '(a, s') := f s in (Ok a, s').
(** [match r.await { Ok(a) => .., Err(e) => .. }]. *)
Definition catch {A B : Type} (m : T A) (k : result NetworkError A -> T B) : T B :=
  fun t => let '(r, t') := m t in k r t'.

Section Server.
Context `{SK : Sdk, CC : ChanCrypto, NC : NetCryptoOps, PL : Payloads} (cfg : ServerConfig).

Definition decode_payload {A : Type} (dec : bytes -> result string A) (body : bytes) : result NetworkError A :=
  map_err NetCodec (dec body).

(** ** Authentication *)

(** [draw]: the relay's ephemeral key. *)
Definition authenticate (draw : result string X25519KeyPair) : T Fingerprint :=
  '(_, body1) ← on_conn recv_frame;
  fresh ← on_field (fun t => sv_replay (fst t)) (fun r t => (set_replay r (fst t), snd t))
            (total (fun r => check_and_track r body1));
  if negb fresh then throw (NetHandshake "handshake replay detected") else
  msg1 ← lift (map_err (fun e => NetHandshake (channel_error_display e))
                 (handshake_message_from_bytes (reassemble body1 (byte_of 1))));
  if (length (hm_payload msg1) <? 32)%nat then throw (NetHandshake "msg1 missing static key") else
  let initiator_pk := take 32 (hm_payload msg1) in
  let hs := handshake_new (sc_relay_static cfg) initiator_pk false in
  let '(r2, hs) := process_msg1 draw msg1 hs in
  msg2 ← lift (map_err (fun e => NetHandshake (channel_error_display e)) r2);
  let msg2 := MkHandshakeMessage (hm_msg_type msg2) (hm_ephemeral_pk msg2)
                (hm_payload msg2 ++ transport_public_key (sc_relay_static cfg)) in
  let m1 := handshake_message_to_bytes msg1 in
  let m2 := handshake_message_to_bytes msg2 in
  _ ← on_conn (send_frame (ORaw (hm_msg_type msg2) (drop 1 m2)));
  '(_, body3) ← on_conn recv_frame;
  msg3 ← lift (map_err (fun e => NetHandshake (channel_error_display e))
                 (handshake_message_from_bytes (reassemble body3 (byte_of 3))));
  let '(r3, hs) := process_msg3 msg3 hs in
  _ ← lift (map_err (fun e => NetHandshake (channel_error_display e)) r3);
  let m3 := handshake_message_to_bytes msg3 in
  '(tag, body) ← on_conn recv_frame;
  if negb (bool_decide (tag = wire_to_u8 WAuthClaim)) then
    (_ ← on_conn (send_reject "expected AUTH claim"); throw (NetAuth "expected AUTH claim")) else
  claim ← lift (decode_payload dec_auth_claim body);
  let claimed_fp := ac_fingerprint claim in
  match sc_resolver cfg claimed_fp with
  | None => _ ← on_conn (send_reject "unknown peer"); throw (NetAuth "unknown peer")
  | Some keys =>
      tpk ← lift (transport_pk_bytes keys);
      if negb (bool_decide (ac_x25519_pk claim = tpk)) then
        (_ ← on_conn (send_reject "claimed key != handshake key");
         throw (NetAuth "claimed key does not match handshake key")) else
      evicted ← reads (fun v => bool_decide (claimed_fp ∈ sv_eviction v));
      if (evicted : bool) then
        (_ ← on_conn (send_reject "evicted"); throw (NetEvicted (fp_to_hex claimed_fp))) else
      let transcript := handshake_transcript m1 m2 m3 in
      match verify_auth_claim keys claim (sc_relay_fp cfg) transcript with
      | Err e => _ ← on_conn (send_reject "signature verification failed"); throw e
      | Ok tt => mret claimed_fp
      end
  end.

(** ** Connecting and disconnecting *)

(** From an authenticated peer to the control loop: [chan] numbers the two
    fresh channels of the connection, [raw] is the token's randomness. *)
Definition connect_client (chan : Z) (raw : bytes) (fp : Fingerprint) : T unit :=
  eviction ← reads sv_eviction;
  _ ← on_state (register eviction fp);
  _ ← on_presence (total (fun p => (tt, register_client chan fp p)));
  _ ← on_presence (total (notify fp (MkPresenceEvent fp true)));
  _ ← update (fun v => set_chans (<[chan := []]> (sv_chans v)) (set_conns (<[fp := chan]> (sv_conns v)) v));
  token ← on_state (total (issue_token raw fp));
  on_conn (send_frame (OMsg (SAuthOk token))).

(** The receivers of a connection are gone. *)
Definition close_channels (chan : Z) (v : RelayServer) : RelayServer :=
  let p := sv_presence v in
  set_chans (delete chan (sv_chans v))
    (set_presence (MkPresence (pr_by_target p) (pr_by_client p) (pr_senders p) (delete chan (pr_chans p))) v).

Definition teardown (fp : Fingerprint) : T unit :=
  _ ← update (fun v => set_conns (delete fp (sv_conns v)) v);
  _ ← on_state (total (fun s => (tt, deregister fp s)));
  _ ← on_presence (total (notify fp (MkPresenceEvent fp false)));
  on_presence (total (fun p => (tt, remove_client fp p))).

(** ** The control loop *)

Definition handle_relay_data (fp : Fingerprint) (body : bytes) : T unit :=
  match decode_payload dec_relay_data body with
  | Err e => on_conn (send_error "relay_data" (network_error_display e))
  | Ok msg =>
      if max_frame_size (sc_relay cfg) <? Z.of_nat (length (rd_frame msg)) then
        on_conn (send_error "relay_data" ("frame exceeds " +:+ show_Z (max_frame_size (sc_relay cfg)) +:+ " bytes"))
      else
        found ← reads (fun v => lookup_pair (rd_pair_id msg) (sv_state v));
        match found with
        | None => on_conn (send_error "relay_data" "unknown pair_id")
        | Some fwd =>
            if negb (bool_decide (fp_from fwd = fp)) && negb (bool_decide (fp_to fwd = fp)) then
              on_conn (send_error "relay_data" "not a member of pair")
            else
              let peer := if bool_decide (fp_from fwd = fp) then fp_to fwd else fp_from fwd in
              conn ← reads (fun v => sv_conns v !! peer);
              match conn with
              | Some tx => update (fun v => match sv_chans v !! tx with
                                            | Some q => set_chans (<[tx := q ++ [msg]]> (sv_chans v)) v
                                            | None => v
                                            end)
              | None => on_conn (send_error "relay_data" "peer not connected")
              end
        end
  end.

(** One inbound frame; [now] is read where the operations read the clock. *)
Definition handle_frame (now : Z) (fp : Fingerprint) (tag : ascii) (body : bytes) : T unit :=
  let rc := sc_relay cfg in
  match wire_from_u8 tag with
  | None => on_conn (send_error "bad_type" "unknown wire type")
  | Some WSessionOpen =>
      target ← lift (decode_payload dec_session_open body);
      eviction ← reads sv_eviction;
      catch (on_state (open_pair rc eviction fp target)) (fun r =>
        match r with
        | Ok pair_id => on_conn (send_frame (OMsg (SSessionOpenAck pair_id)))
        | Err e => on_conn (send_error "session_open" (network_error_display e))
        end)
  | Some WSessionClose =>
      pair_id ← lift (decode_payload dec_session_close body);
      _ ← on_state (total (close_pair pair_id));
      mret tt
  | Some WInboxPush =>
      '(target, frame) ← lift (decode_payload dec_inbox_push body);
      eviction ← reads sv_eviction;
      catch (on_state (inbox_push rc now eviction fp target frame)) (fun r =>
        match r with
        | Ok Buffered => mret tt
        | Ok TargetOffline => on_conn (send_error "target_offline" (fp_to_hex target))
        | Err e => on_conn (send_error "inbox_push" (network_error_display e))
        end)
  | Some WInboxPull =>
      _ ← lift (decode_payload dec_inbox_pull body);
      frames ← on_state (total (inbox_pull rc now fp));
      on_conn (send_frame (OMsg (SInboxPull frames)))
  | Some WProbe =>
      target ← lift (decode_payload dec_probe body);
      online ← reads (fun v => is_online target (sv_state v));
      on_conn (send_frame (OMsg (SProbe online)))
  | Some WAdvertPublish =>
      advert ← lift (decode_payload dec_advert_publish body);
      catch (on_state (advert_publish now fp advert)) (fun r =>
        match r with
        | Ok _ => mret tt
        | Err e => on_conn (send_error "advert_publish" (network_error_display e))
        end)
  | Some WAdvertFetch =>
      target ← lift (decode_payload dec_advert_fetch body);
      advert ← on_state (total (advert_fetch now target));
      on_conn (send_frame (OMsg (SAdvertFetch advert)))
  | Some WPresenceSubscribe =>
      target ← lift (decode_payload dec_presence_subscribe body);
      catch (on_presence (subscribe target fp)) (fun r =>
        match r with
        | Ok _ =>
            online ← reads (fun v => is_online target (sv_state v));
            on_conn (send_frame (OMsg (SPresence (MkPresenceEvent target online))))
        | Err e => on_conn (send_error "presence_subscribe" (network_error_display e))
        end)
  | Some WRelayData => handle_relay_data fp body
  | Some other => on_conn (send_error "bad_type" ("frame " +:+ wire_debug other))
  end.

Fixpoint send_all (fs : list OutFrame) : T unit :=
  match fs with
  | [] => mret tt
  | f :: fs' => _ ← on_conn (send_frame f); send_all fs'
  end.

(** [while let Ok(..) = rx.try_recv() { send_frame }] on both channels. *)
Definition drain_presence (chan : Z) : T unit :=
  events ← reads (fun v => default [] (pr_chans (sv_presence v) !! chan));
  _ ← on_presence (total (fun p => (tt, MkPresence (pr_by_target p) (pr_by_client p) (pr_senders p)
                                         (<[chan := []]> (pr_chans p)))));
  send_all (map (fun e => OMsg (SPresence e)) events).

Definition drain_data (chan : Z) : T unit :=
  data ← reads (fun v => default [] (sv_chans v !! chan));
  _ ← update (fun v => set_chans (<[chan := []]> (sv_chans v)) v);
  send_all (map (fun d => OMsg (SRelayData d)) data).

(** What the [select!] yields: a frame, data put into the channel meanwhile,
    or the timer. *)
Inductive LoopEvent := EvInbound (now : Z) | EvOutbound | EvTimer.

(** [outbound_rx.recv()] and the forwarding of what it yields. *)
Definition forward_one (chan : Z) : T unit :=
  data ← reads (fun v => default [] (sv_chans v !! chan));
  match data with
  | [] => mret tt
  | d :: rest =>
      _ ← update (fun v => set_chans (<[chan := rest]> (sv_chans v)) v);
      on_conn (send_frame (OMsg (SRelayData d)))
  end.

Definition loop_iter (chan : Z) (fp : Fingerprint) (ev : LoopEvent) : T unit :=
  _ ← drain_presence chan;
  _ ← drain_data chan;
  match ev with
  | EvInbound now => '(tag, body) ← on_conn recv_frame; handle_frame now fp tag body
  | EvOutbound => forward_one chan
  | EvTimer => mret tt
  end.

(** The loop runs until an iteration fails. *)
Fixpoint control_loop (chan : Z) (fp : Fingerprint) (evs : list LoopEvent) : T unit :=
  match evs with
  | [] => mret tt
  | ev :: evs' => _ ← loop_iter chan fp ev; control_loop chan fp evs'
  end.

(** [admitted]: the answer of the ingress gate for [source]. *)
Definition handle_connection (admitted : bool) (source : string) (draw : result string X25519KeyPair)
    (chan : Z) (raw : bytes) (evs : list LoopEvent) : T unit :=
  if negb admitted then
    catch (on_conn (send_error "rate_limited" "too many handshakes")) (fun _ => throw (NetRateLimited source))
  else
    fp ← authenticate draw;
    catch (connect_client chan raw fp) (fun r =>
      match r with
      | Err e => _ ← update (close_channels chan); throw e
      | Ok _ =>
          catch (control_loop chan fp evs) (fun res =>
            _ ← update (close_channels chan);
            _ ← teardown fp;
            lift res)
      end).

End Server.

(** ** Properties of the relay server

    Every task step of [RelayServer.v] is made of operations of [Relay.v], so
    the relay invariant holds throughout; data only reaches the other end of
    a pair its sender belongs to; authentication implies a verified claim;
    and the behaviours of the server that depart from its documentation. *)

(** ** Task steps as relay operations *)

Section Steps.
Context `{SK : Sdk, CC : ChanCrypto, NC : NetCryptoOps, PL : Payloads} (cfg : ServerConfig).

(** [m] changes the relay state by at most [n] of its operations. *)
Definition within {A : Type} (n : nat) (m : T A) : Prop :=
  forall t, exists ops, (length ops <= n)%nat
    /\ sv_state (fst (snd (m t))) = foldl (exec (sc_relay cfg)) (sv_state (fst t)) ops.

Lemma within_silent {A : Type} (m : T A) :
  (forall t, sv_state (fst (snd (m t))) = sv_state (fst t)) -> within 0 m.
Proof. intros Hm t. exists []. split; [done|]. apply Hm. Qed.

Lemma within_op {A : Type} (m : T A) :
  (forall t, exists op, sv_state (fst (snd (m t))) = exec (sc_relay cfg) (sv_state (fst t)) op) -> within 1 m.
Proof. intros Hm t. destruct (Hm t) as [op E]. exists [op]. split; [done|]. exact E. Qed.

Lemma within_weaken {A : Type} (n k : nat) (m : T A) : (n <= k)%nat -> within n m -> within k m.
Proof. intros Hn Hm t. destruct (Hm t) as (ops & ? & ?). exists ops. split; [lia|done]. Qed.

Lemma within_catch {A B : Type} (n k : nat) (m : T A) (f : result NetworkError A -> T B) :
  within n m -> (forall r, within k (f r)) -> within (n + k) (catch m f).
Proof.
  intros Hm Hf t. unfold catch. destruct (Hm t) as (ops1 & L1 & E1). destruct (m t) as [r t1].
  destruct (Hf r t1) as (ops2 & L2 & E2). exists (ops1 ++ ops2). rewrite length_app, foldl_app. split; [lia|].
  cbn in *. by rewrite <- E1, <- E2.
Qed.

Lemma within_bind {A B : Type} (n k : nat) (m : T A) (f : A -> T B) :
  within n m -> (forall a, within k (f a)) -> within (n + k) (m ≫= f).
Proof.
  intros Hm Hf t. unfold mbind, SE_mbind. destruct (Hm t) as (ops1 & L1 & E1). destruct (m t) as [[a|e] t1].
  - destruct (Hf a t1) as (ops2 & L2 & E2). exists (ops1 ++ ops2). rewrite length_app, foldl_app. split; [lia|].
    cbn in *. by rewrite <- E1, <- E2.
  - exists ops1. split; [lia|done].
Qed.

Lemma within_ret {A : Type} (a : A) : within 0 (mret a).
Proof. by apply within_silent. Qed.
Lemma within_throw {A : Type} (e : NetworkError) : within 0 (throw (A := A) e).
Proof. by apply within_silent. Qed.
Lemma within_lift {A : Type} (r : result NetworkError A) : within 0 (lift r).
Proof. by apply within_silent. Qed.
Lemma within_reads {A : Type} (f : RelayServer -> A) : within 0 (reads f).
Proof. by apply within_silent. Qed.
Lemma within_conn {A : Type} (m : SE Conn NetworkError A) : within 0 (on_conn m).
Proof. apply within_silent. intros t. unfold on_conn, on_field. by destruct (m _). Qed.
Lemma within_presence {A : Type} (m : SE PresenceRegistry NetworkError A) : within 0 (on_presence m).
Proof. apply within_silent. intros t. unfold on_presence, on_field. by destruct (m _). Qed.
Lemma within_replay {A : Type} (m : SE HandshakeReplayTracker NetworkError A) :
  within 0 (on_field (fun t : Task => sv_replay (fst t)) (fun r t => (set_replay r (fst t), snd t)) m).
Proof. apply within_silent. intros t. unfold on_field. by destruct (m _). Qed.
Lemma within_update (f : RelayServer -> RelayServer) :
  (forall v, sv_state (f v) = sv_state v) -> within 0 (update f).
Proof. intros Hf. apply within_silent. intros t. apply Hf. Qed.

(** The operations of [Relay.v]. *)
Lemma within_state {A : Type} (m : SE RelayInner NetworkError A) (op : RelayOp) :
  (forall s, snd (m s) = exec (sc_relay cfg) s op) -> within 1 (on_state m).
Proof.
  intros Hm. apply within_op. intros t. exists op. unfold on_state, on_field. rewrite <- Hm. by destruct (m _).
Qed.

Lemma within_total {A : Type} (f : RelayInner -> A * RelayInner) (op : RelayOp) :
  (forall s, snd (f s) = exec (sc_relay cfg) s op) -> within 1 (on_state (total f)).
Proof. intros Hf. apply (within_state _ op). intros s. unfold total. rewrite <- Hf. by destruct (f s). Qed.

Hint Resolve within_ret within_throw within_lift within_reads within_conn within_presence : core.

Ltac silent := solve [eapply (within_weaken 0); [lia|]; eauto using within_update].

(** Binds that only look, send or fail first. *)
Lemma within_then {A B : Type} (k : nat) (m : T A) (f : A -> T B) :
  within 0 m -> (forall a, within k (f a)) -> within k (m ≫= f).
Proof. intros. by apply (within_bind 0 k). Qed.

Lemma within_handle_relay_data (fp : Fingerprint) (body : bytes) : within 0 (handle_relay_data cfg fp body).
Proof.
  unfold handle_relay_data. destruct (decode_payload dec_relay_data body); [|auto]. destruct (_ <? _); [auto|].
  apply within_then; [auto|]. intros [fwd|]; [|auto]. destruct (negb _ && _); [auto|].
  apply within_then; [auto|]. intros [tx|]; [|auto]. apply within_update. intros v. by destruct (sv_chans v !! tx).
Qed.

Lemma within_handle_frame (now : Z) (fp : Fingerprint) (tag : ascii) (body : bytes) :
  within 1 (handle_frame cfg now fp tag body).
Proof.
  unfold handle_frame. destruct (wire_from_u8 tag) as [wt|]; [|silent].
  destruct wt; try silent; try (apply within_then; [auto|intros x]).
  - apply within_then; [auto|]. intros ev. apply (within_catch 1 0).
    + by apply (within_state _ (OpOpen ev fp x)).
    + intros [|]; auto.
  - apply (within_bind 1 0); [|auto]. by apply (within_total _ (OpClose x)).
  - destruct x as [target frame]. apply within_then; [auto|]. intros ev. apply (within_catch 1 0).
    + by apply (within_state _ (OpPush now ev fp target frame)).
    + intros [[|]|]; auto.
  - apply (within_bind 1 0); [|auto]. by apply (within_total _ (OpPull now fp)).
  - apply within_then; [auto|]. intros. silent.
  - apply (within_catch 1 0).
    + by apply (within_state _ (OpPublish now fp x)).
    + intros [|]; auto.
  - apply (within_bind 1 0); [|auto]. by apply (within_total _ (OpFetch now x)).
  - apply (within_weaken 0); [lia|]. apply (within_catch 0 0); [auto|]. intros [|]; [apply within_then; auto|auto].
  - apply (within_weaken 0); [lia|]. apply within_handle_relay_data.
Qed.

Lemma within_send_all (fs : list OutFrame) : within 0 (send_all fs).
Proof. induction fs as [|f fs IH]; cbn; [auto|]. apply within_then; auto. Qed.

Lemma within_loop_iter (chan : Z) (fp : Fingerprint) (ev : LoopEvent) : within 1 (loop_iter cfg chan fp ev).
Proof.
  unfold loop_iter, drain_presence, drain_data.
  apply within_then; [|intros _; apply within_then; [|intros _]].
  - apply within_then; [auto|]. intros. apply within_then; [auto|]. intros. apply within_send_all.
  - apply within_then; [auto|]. intros. apply within_then; [by apply within_update|]. intros. apply within_send_all.
  - destruct ev; [|apply (within_weaken 0); [lia|]|silent].
    + apply within_then; [auto|]. intros [tag body]. apply within_handle_frame.
    + unfold forward_one. apply within_then; [auto|]. intros [|d rest]; [auto|].
      apply within_then; [by apply within_update|auto].
Qed.

Lemma within_control_loop (chan : Z) (fp : Fingerprint) (evs : list LoopEvent) :
  within (length evs) (control_loop cfg chan fp evs).
Proof.
  induction evs as [|ev evs IH]; cbn [control_loop length]; [auto|].
  apply (within_bind 1 (length evs)); [apply within_loop_iter|auto].
Qed.

Lemma within_authenticate (draw : result string X25519KeyPair) : within 0 (authenticate cfg draw).
Proof.
  unfold authenticate.
  repeat first
    [ done
    | apply within_lift | apply within_throw | apply within_ret | apply within_conn | apply within_reads | apply within_replay
    | apply within_then; [|intros]
    | match goal with |- within _ (match ?x with _ => _ end) => destruct x end ].
Qed.

Lemma within_connect (chan : Z) (raw : bytes) (fp : Fingerprint) : within 2 (connect_client chan raw fp).
Proof.
  unfold connect_client. apply within_then; [auto|]. intros ev.
  apply (within_bind 1 1); [by apply (within_state _ (OpRegister ev fp))|]. intros _.
  do 2 (apply within_then; [auto|]; intros _). apply within_then; [by apply within_update|]. intros _.
  apply (within_bind 1 0); [by apply (within_total _ (OpIssue raw fp))|auto].
Qed.

Lemma within_teardown (fp : Fingerprint) : within 1 (teardown fp).
Proof.
  unfold teardown. apply within_then; [by apply within_update|]. intros _.
  apply (within_bind 1 0); [by apply (within_total _ (OpDeregister fp))|]. intros _.
  apply within_then; auto.
Qed.

(** ** Interleavings

    The tasks of all connections run one step at a time, in any order, each
    with its own connection; operators revoke and pardon in between. *)

Inductive server_step (v : RelayServer) : RelayServer -> Prop :=
| step_authenticate draw c : server_step v (fst (snd (authenticate cfg draw (v, c))))
| step_connect chan raw fp c : server_step v (fst (snd (connect_client chan raw fp (v, c))))
| step_loop chan fp ev c : server_step v (fst (snd (loop_iter cfg chan fp ev (v, c))))
| step_close chan : server_step v (close_channels chan v)
| step_teardown fp c : server_step v (fst (snd (teardown fp (v, c))))
| step_revoke fp : server_step v (MkRelayServer (sv_state v) (snd (revoke fp (sv_eviction v))) (sv_replay v)
                                    (sv_presence v) (sv_conns v) (sv_chans v))
| step_pardon fp : server_step v (MkRelayServer (sv_state v) (snd (pardon fp (sv_eviction v))) (sv_replay v)
                                    (sv_presence v) (sv_conns v) (sv_chans v)).

Lemma server_step_ops (v v' : RelayServer) :
  server_step v v' -> exists ops, (length ops <= 2)%nat /\ sv_state v' = foldl (exec (sc_relay cfg)) (sv_state v) ops.
Proof.
  destruct 1 as [draw c|chan raw fp c|chan fp ev c|chan|fp c|fp|fp].
  - apply (within_weaken 0 2 _ ltac:(lia) (within_authenticate draw) (v, c)).
  - apply (within_connect chan raw fp (v, c)).
  - apply (within_weaken 1 2 _ ltac:(lia) (within_loop_iter chan fp ev) (v, c)).
  - exists []. split; [cbn; lia|done].
  - apply (within_weaken 1 2 _ ltac:(lia) (within_teardown fp) (v, c)).
  - exists []. split; [cbn; lia|done].
  - exists []. split; [cbn; lia|done].
Qed.

Lemma server_steps_ops (n : nat) (v v' : RelayServer) :
  nsteps server_step n v v' ->
  exists ops, (length ops <= 2 * n)%nat /\ sv_state v' = foldl (exec (sc_relay cfg)) (sv_state v) ops.
Proof.
  induction 1 as [v|n v v1 v2 Hs _ IH]; [by exists []|].
  destruct (server_step_ops _ _ Hs) as (ops1 & L1 & E1). destruct IH as (ops2 & L2 & E2).
  exists (ops1 ++ ops2). rewrite length_app, foldl_app, <- E1. split; [lia|done].
Qed.

End Steps.

Definition server_new : RelayServer := MkRelayServer relay_inner_new ∅ tracker_new presence_new ∅ ∅.

(** ** Where data goes *)

Section Data.
Context `{SK : Sdk, CC : ChanCrypto, NC : NetCryptoOps, PL : Payloads} (cfg : ServerConfig).

(** [m] leaves the outbound channels and the table of connections alone. *)
Definition quiet {A : Type} (m : T A) : Prop :=
  forall t, sv_chans (fst (snd (m t))) = sv_chans (fst t) /\ sv_conns (fst (snd (m t))) = sv_conns (fst t).

Lemma quiet_conn {A : Type} (m : SE Conn NetworkError A) : quiet (on_conn m).
Proof. intros t. unfold on_conn, on_field. by destruct (m _). Qed.
Lemma quiet_state {A : Type} (m : SE RelayInner NetworkError A) : quiet (on_state m).
Proof. intros t. unfold on_state, on_field. by destruct (m _). Qed.
Lemma quiet_presence {A : Type} (m : SE PresenceRegistry NetworkError A) : quiet (on_presence m).
Proof. intros t. unfold on_presence, on_field. by destruct (m _). Qed.
Lemma quiet_reads {A : Type} (f : RelayServer -> A) : quiet (reads f).
Proof. done. Qed.
Lemma quiet_lift {A : Type} (r : result NetworkError A) : quiet (lift r).
Proof. done. Qed.
Lemma quiet_ret {A : Type} (a : A) : quiet (mret a).
Proof. done. Qed.
Lemma quiet_bind {A B : Type} (m : T A) (f : A -> T B) : quiet m -> (forall a, quiet (f a)) -> quiet (m ≫= f).
Proof.
  intros Hm Hf t. unfold mbind, SE_mbind. destruct (Hm t) as [E1 E2]. destruct (m t) as [[a|e] t1]; [|done].
  destruct (Hf a t1) as [F1 F2]. cbn in *. by rewrite F1, F2.
Qed.
Lemma quiet_catch {A B : Type} (m : T A) (f : result NetworkError A -> T B) :
  quiet m -> (forall r, quiet (f r)) -> quiet (catch m f).
Proof.
  intros Hm Hf t. unfold catch. destruct (Hm t) as [E1 E2]. destruct (m t) as [r t1].
  destruct (Hf r t1) as [F1 F2]. cbn in *. by rewrite F1, F2.
Qed.

Lemma quiet_done {A : Type} (m : T A) (v : RelayServer) (c : Conn) (P : Prop) :
  quiet m -> sv_conns (fst (snd (m (v, c)))) = sv_conns v /\ (sv_chans (fst (snd (m (v, c)))) = sv_chans v \/ P).
Proof. intros Hm. destruct (Hm (v, c)) as [? ?]. split; [done|by left]. Qed.

Hint Resolve quiet_conn quiet_state quiet_presence quiet_reads quiet_lift quiet_ret : core.

Lemma handle_frame_quiet (now : Z) (fp : Fingerprint) (tag : ascii) (body : bytes) :
  tag <> wire_to_u8 WRelayData -> quiet (handle_frame cfg now fp tag body).
Proof.
  intros Htag. unfold handle_frame. destruct (wire_from_u8 tag) as [wt|] eqn:Ew; [|auto].
  apply wire_to_from in Ew. destruct wt; try done; auto;
    repeat match goal with
    | |- quiet (catch _ _) => apply quiet_catch; [auto|intros [?|?]]
    | |- quiet (_ ≫= _) => apply quiet_bind; [auto|intros ?]
    | |- quiet (match ?x with _ => _ end) => destruct x
    | |- _ => solve [auto]
    end.
Qed.

End Data.

(** ** Authentication *)

Section Auth.
Context `{SK : Sdk, CC : ChanCrypto, NC : NetCryptoOps, PL : Payloads} (cfg : ServerConfig).

(** What a successful authentication has checked. *)
Record authenticated (v : RelayServer) (c : Conn) (fp : Fingerprint) : Prop := {
  au_run : exists t1 body1 t3 body3 body rest claim keys m2,
    cn_in c = (t1, body1) :: (t3, body3) :: (wire_to_u8 WAuthClaim, body) :: rest
    /\ (check_and_track (sv_replay v) body1).1 = true
    /\ dec_auth_claim body = Ok claim /\ ac_fingerprint claim = fp
    /\ sc_resolver cfg fp = Some keys /\ ac_x25519_pk claim = pk_transport_pk keys
    /\ verify_auth_claim keys claim (sc_relay_fp cfg)
         (handshake_transcript (byte_of 1 :: body1) m2 (byte_of 3 :: body3)) = Ok tt;
  au_evicted : fp ∉ sv_eviction v
}.

Lemma handshake_from_to (data : bytes) (m : HandshakeMessage) :
  handshake_message_from_bytes data = Ok m -> handshake_message_to_bytes m = data.
Proof. intros Hm. by apply handshake_message_canonical. Qed.

Lemma recv_frame_Ok (t t' : Task) (x : ascii * bytes) :
  on_conn recv_frame t = (Ok x, t') ->
  fst t' = fst t /\ exists rest, cn_in (snd t) = x :: rest /\ cn_in (snd t') = rest /\ cn_out (snd t') = cn_out (snd t).
Proof.
  unfold on_conn, on_field, recv_frame. destruct (cn_in (snd t)) as [|y rest]; [done|].
  intros [= -> <-]. split; [done|]. by exists rest.
Qed.

Lemma send_frame_Ok (t t' : Task) (f : OutFrame) (u : unit) :
  on_conn (send_frame f) t = (Ok u, t') -> fst t' = fst t /\ cn_in (snd t') = cn_in (snd t).
Proof.
  unfold on_conn, on_field, send_frame. destruct (cn_broken (snd t)); [done|]. by intros [= <- <-].
Qed.

(** Inversion of a successful run, one bind at a time. *)
Ltac step H :=
  apply SE_bind_Ok in H as (? & ? & ? & H).

Lemma reject_fails {A : Type} (r : string) (e : NetworkError) (t : Task) (a : A) (t' : Task) :
  (on_conn (send_reject r) ≫= fun _ => throw e) t <> (Ok a, t').
Proof. intros Hr. step Hr. done. Qed.

Lemma authenticate_checks (draw : result string X25519KeyPair) (v v' : RelayServer) (c c' : Conn) (fp : Fingerprint) :
  authenticate cfg draw (v, c) = (Ok fp, (v', c')) -> authenticated v c fp.
Proof.
  unfold authenticate. intros Hr.
  apply SE_bind_Ok in Hr as ([t1 body1] & ta & H1 & Hr).
  apply recv_frame_Ok in H1 as (Ev1 & rest1 & Ein1 & Eta & _).
  apply SE_bind_Ok in Hr as (fresh & tb & H2 & Hr).
  unfold on_field, total in H2. destruct (check_and_track (sv_replay (fst ta)) body1) as [fr tr] eqn:Ect.
  injection H2 as -> <-. destruct fresh; [|done]. cbn [negb] in Hr.
  apply SE_bind_Ok in Hr as (msg1 & tc & H3 & Hr). injection H3 as H3 <-.
  apply map_err_Ok in H3. destruct (_ <? 32)%nat; [done|].
  destruct (process_msg1 _ _ _) as [r2 hs]. apply SE_bind_Ok in Hr as (msg2 & tc & H4 & Hr). injection H4 as H4 <-.
  set (m2 := handshake_message_to_bytes (MkHandshakeMessage _ _ _)) in Hr.
  apply SE_bind_Ok in Hr as (u & td & H5 & Hr). apply send_frame_Ok in H5 as (Ev5 & Ein5).
  apply SE_bind_Ok in Hr as ([t3 body3] & te & H6 & Hr). apply recv_frame_Ok in H6 as (Ev6 & rest3 & Ein6 & Ete & _).
  apply SE_bind_Ok in Hr as (msg3 & tf & H7 & Hr). injection H7 as H7 <-. apply map_err_Ok in H7.
  destruct (process_msg3 _ _) as [r3 hs3]. apply SE_bind_Ok in Hr as (u3 & tf & H8 & Hr). injection H8 as H8 <-.
  apply SE_bind_Ok in Hr as ([tag body] & tg & H9 & Hr). apply recv_frame_Ok in H9 as (Ev9 & rest4 & Ein9 & _ & _).
  case_bool_decide as Htag; [|by apply reject_fails in Hr]. cbn [negb] in Hr.
  apply SE_bind_Ok in Hr as (claim & th & H10 & Hr). injection H10 as H10 <-. apply map_err_Ok in H10.
  destruct (sc_resolver cfg (ac_fingerprint claim)) as [keys|] eqn:Eres; [|by apply reject_fails in Hr].
  apply SE_bind_Ok in Hr as (tpk & th & H11 & Hr). injection H11 as H11 <-.
  case_bool_decide as Hx; [|by apply reject_fails in Hr]. cbn [negb] in Hr.
  apply SE_bind_Ok in Hr as (ev & th & H12 & Hr). injection H12 as H12 <-.
  destruct ev; [by apply reject_fails in Hr|].
  rewrite (handshake_from_to _ _ H3), (handshake_from_to _ _ H7) in Hr.
  destruct (verify_auth_claim _ _ _ _) as [[]|] eqn:Ever; [|by apply reject_fails in Hr]. injection Hr as <- _.
  unfold transport_pk_bytes in H11. destruct (_ =? 32)%nat; [|done]. injection H11 as <-.
  cbn [fst snd] in *. rewrite Ev1 in Ect. cbn [sv_replay] in Ect.
  constructor.
  - exists t1, body1, t3, body3, body, rest4, claim, keys, m2. rewrite Ein1, <- Eta. cbn [snd] in *.
    rewrite Ein5 in Ein6. rewrite Ein6, <- Ete, Ein9, Htag. repeat split; try done. by rewrite Ect.
  - apply bool_decide_eq_false in H12. rewrite Ev9, Ev6, Ev5 in H12. cbn [fst] in H12. by rewrite Ev1 in H12.
Qed.

End Auth.

(** ** A concrete server *)

Module ToyRelay.

Definition payloads : Payloads := {|
  dec_auth_claim b := Ok (MkAuthClaim (take 32 b) (slice 32 64 b) (drop 80 b) 1 (slice 64 80 b));
  dec_session_open := Ok; dec_session_close b := Ok (be_val b);
  dec_inbox_push b := Ok (take 32 b, drop 32 b); dec_inbox_pull _ := Ok tt;
  dec_probe := Ok; dec_advert_publish _ := Ok (MkAdvert 1 [] 60 0);
  dec_advert_fetch := Ok; dec_presence_subscribe := Ok;
  dec_relay_data b := Ok (MkRelayData (be_val (take 1 b)) 0 (drop 1 b))
|}.

(** The peer [a] of the directory, with its transport key, and the relay. *)
Definition key_of (n : Z) : bytes := replicate 32 (byte_of n).
Definition keys_a : PeerKeys := MkPeerKeys (toy_fp 1) 0 (key_of 11) (key_of 12) (key_of 13).

Definition cfg : @ServerConfig ToyChan.crypto :=
  @MkServerConfig ToyChan.crypto toy_config
    (fun fp => if bool_decide (fp = toy_fp 1) then Some keys_a else None) (toy_fp 99) (key_of 50).

Definition authenticate := @authenticate Toy.sdk ToyChan.crypto ToyNet.ops payloads cfg.
Definition handle_frame := @handle_frame Toy.sdk ToyChan.crypto payloads cfg.

(** The frames of an initiator with handshake key [static], whose claim is
    signed for the transcript the relay will compute. *)
Definition body1 (static : bytes) : bytes := key_of 20 ++ static.
Definition body3 : bytes := key_of 0.
Definition m2 : bytes := byte_of 2 :: key_of 21 ++ key_of 50.
Definition claim (static : bytes) : bytes :=
  let t := @handshake_transcript Toy.sdk (byte_of 1 :: body1 static) m2 (byte_of 3 :: body3) in
  let sig := ToyNet.csum (@auth_message Toy.sdk (toy_fp 1) (key_of 13) (replicate 16 (byte_of 7)) (toy_fp 99) t) in
  toy_fp 1 ++ key_of 13 ++ replicate 16 (byte_of 7) ++ @hybrid_sig_to_wire ToyNet.ops sig sig.
Definition conn (static : bytes) : Conn :=
  MkConn [(byte_of 1, body1 static); (byte_of 3, body3); (wire_to_u8 WAuthClaim, claim static)] [] false.

(** Two registered peers joined by pair 1, and a third one. *)
Definition server : RelayServer :=
  MkRelayServer (MkRelayInner {[toy_fp 1; toy_fp 2; toy_fp 3]} ∅ [MkPair 1 (toy_fp 1) (toy_fp 2)] 2 ∅ ∅)
    ∅ tracker_new presence_new {[toy_fp 1 := 1; toy_fp 2 := 2; toy_fp 3 := 3]} {[1 := []; 2 := []; 3 := []]}.
Definition idle : Conn := MkConn [] [] false.

End ToyRelay.

(** ** Properties *)


Definition toy_after : RelayServer :=
  fst (snd (@connect_client Toy.sdk 1 [byte_of 9] (toy_fp 1) (server_new, ToyRelay.idle))).


(** Forwarding: handling a frame from [fp] changes at most one outbound
    channel, by appending the decoded message unchanged, and only if [fp] is
    an end of the pair the message names and the channel is that of the other
    end; no frame changes who is connected. *)
Theorem relay_data_isolated `{SK : Sdk, CC : ChanCrypto, PL : Payloads} (cfg : ServerConfig)
    (now : Z) (fp : Fingerprint) (tag : ascii) (body : bytes) (v : RelayServer) (c : Conn) :
  let v' := fst (snd (handle_frame cfg now fp tag body (v, c))) in
  sv_conns v' = sv_conns v
  /\ (sv_chans v' = sv_chans v
      \/ exists msg fwd peer chan q,
           tag = wire_to_u8 WRelayData /\ dec_relay_data body = Ok msg
           /\ Z.of_nat (length (rd_frame msg)) <= max_frame_size (sc_relay cfg)
           /\ lookup_pair (rd_pair_id msg) (sv_state v) = Some fwd
           /\ ((fp_from fwd = fp /\ peer = fp_to fwd) \/ (fp_to fwd = fp /\ peer = fp_from fwd))
           /\ sv_conns v !! peer = Some chan /\ sv_chans v !! chan = Some q
           /\ sv_chans v' = <[chan := q ++ [msg]]> (sv_chans v)).
Proof.
  cbn zeta. destruct (decide (tag = wire_to_u8 WRelayData)) as [->|Htag].
  2:{ by apply quiet_done, handle_frame_quiet. }
  change (handle_frame cfg now fp (wire_to_u8 WRelayData) body) with (handle_relay_data cfg fp body).
  unfold handle_relay_data, decode_payload. destruct (dec_relay_data body) as [msg|e] eqn:Edec; cbn [map_err].
  2:{ apply quiet_done, quiet_conn. }
  destruct (Z.ltb_spec (max_frame_size (sc_relay cfg)) (Z.of_nat (length (rd_frame msg)))) as [|Hsz].
  { apply quiet_done, quiet_conn. }
  unfold mbind, SE_mbind, reads, gets. cbn [fst].
  destruct (lookup_pair (rd_pair_id msg) (sv_state v)) as [fwd|] eqn:Epair.
  2:{ apply quiet_done, quiet_conn. }
  destruct (negb _ && _) eqn:Emem.
  { apply quiet_done, quiet_conn. }
  set (peer := if bool_decide (fp_from fwd = fp) then fp_to fwd else fp_from fwd).
  cbn [fst]. destruct (sv_conns v !! peer) as [chan|] eqn:Econ.
  2:{ apply quiet_done, quiet_conn. }
  unfold update, modify. cbn [fst snd]. destruct (sv_chans v !! chan) as [q|] eqn:Ech; [|by split; [|left]].
  split; [done|right]. exists msg, fwd, peer, chan, q. repeat split; try done. unfold peer.
  apply andb_false_iff in Emem. rewrite !negb_false_iff, !bool_decide_eq_true in Emem.
  case_bool_decide; [by left|right]. destruct Emem; [done|by split].
Qed.

(** Authentication: a peer is let in only if its first frame is not a recent
    replay, it is in the directory and not evicted, and its claim carries the
    registered transport key and a signature that verifies over this relay,
    these keys and the transcript of the very frames exchanged. *)
Theorem authenticate_sound `{SK : Sdk, CC : ChanCrypto, NC : NetCryptoOps, PL : Payloads} (cfg : ServerConfig)
    (draw : result string X25519KeyPair) (v : RelayServer) (c : Conn) (fp : Fingerprint) (t : Task) :
  authenticate cfg draw (v, c) = (Ok fp, t) ->
  authenticated cfg v c fp
  /\ exists claim keys transcript ed fa, sc_resolver cfg fp = Some keys /\ ac_fingerprint claim = fp /\ pk_fingerprint keys = fp
     /\ hybrid_sig_from_wire (ac_hybrid_signature claim) = Ok (ed, fa)
     /\ hybrid_pair_verify (pk_ed25519_pk keys) (pk_falcon_pk keys)
          (auth_message fp (pk_transport_pk keys) (ac_nonce claim) (sc_relay_fp cfg) transcript) ed fa = true.
Proof.
  destruct t as [v' c']. intros Ha. apply authenticate_checks in Ha. split; [done|].
  destruct Ha as [(t1 & b1 & t3 & b3 & b & rest & claim & keys & m2 & _ & _ & _ & Ef & Er & Ex & Hv) _].
  apply verify_auth_claim_Ok in Hv as (Ek & _ & ed & fa & Es & Hok). rewrite Ef, Ex in Hok.
  do 5 eexists. split; [done|]. split; [done|]. split; [congruence|]. split; [done|]. exact Hok.
Qed.

Lemma authenticate_sound_witness :
  @authenticated Toy.sdk ToyChan.crypto ToyNet.ops ToyRelay.payloads ToyRelay.cfg server_new (ToyRelay.conn (ToyRelay.key_of 13)) (toy_fp 1).
Proof.
  apply (@authenticate_sound Toy.sdk ToyChan.crypto ToyNet.ops ToyRelay.payloads ToyRelay.cfg (Ok (ToyRelay.key_of 21))
    server_new (ToyRelay.conn (ToyRelay.key_of 13)) (toy_fp 1)
    (snd (ToyRelay.authenticate (Ok (ToyRelay.key_of 21)) (server_new, ToyRelay.conn (ToyRelay.key_of 13))))).
  apply injective_projections; [vm_compute|]; reflexivity.
Defined.

(** The key of the handshake is not compared with the claimed one: a run with
    another static key in its first message is let in. *)
Example static_key_not_compared :
  (ToyRelay.authenticate (Ok (ToyRelay.key_of 21)) (server_new, ToyRelay.conn (ToyRelay.key_of 66))).1 = Ok (toy_fp 1)
  /\ pk_transport_pk ToyRelay.keys_a <> ToyRelay.key_of 66.
Proof. split; [vm_compute; reflexivity|discriminate]. Qed.

(** Closing is not restricted to the ends of a pair: a close frame from any
    authenticated peer removes the pair it names, without any answer. *)
Theorem session_close_unchecked `{SK : Sdk, CC : ChanCrypto, PL : Payloads} (cfg : ServerConfig)
    (now : Z) (fp : Fingerprint) (body : bytes) (id : Z) (fwd : ForwardPair) (v : RelayServer) (c : Conn) :
  relay_ok (sc_relay cfg) (sv_state v) -> dec_session_close body = Ok id -> lookup_pair id (sv_state v) = Some fwd ->
  exists v', handle_frame cfg now fp (wire_to_u8 WSessionClose) body (v, c) = (Ok tt, (v', c))
    /\ lookup_pair id (sv_state v') = None
    /\ (forall j, j <> id -> lookup_pair j (sv_state v') = lookup_pair j (sv_state v)).
Proof.
  intros [_ Hids _ _ _] Hdec Hl. eexists. split.
  - change (handle_frame cfg now fp (wire_to_u8 WSessionClose) body) with
      (pair_id ← lift (decode_payload dec_session_close body); _ ← on_state (total (close_pair pair_id)); (mret tt : T unit)).
    unfold decode_payload. rewrite Hdec. unfold mbind, SE_mbind, lift, on_state, on_field, total, close_pair.
    unfold lookup_pair in Hl. cbn. rewrite Hl. reflexivity.
  - cbn. unfold lookup_pair. cbn. clear -Hids. split.
    + induction (ri_forwarding (sv_state v)) as [|p l IH]; [done|]. cbn in *. apply NoDup_cons in Hids as [Hp Hl].
      destruct (Z.eqb_spec (fp_id p) id) as [<-|Hne].
      * clear IH. induction l as [|p2 l IH]; [done|]. cbn in *.
        destruct (Z.eqb_spec (fp_id p2) (fp_id p)) as [E|]; [exfalso; apply Hp; rewrite E; left|].
        apply IH; [by intros Hin; apply Hp; right|]. by apply NoDup_cons in Hl as [_ ?].
      * cbn. destruct (Z.eqb_spec (fp_id p) id); [done|]. by apply IH.
    + intros j Hj. induction (ri_forwarding (sv_state v)) as [|p l IH]; [done|]. cbn in *.
      apply NoDup_cons in Hids as [_ Hl]. destruct (Z.eqb_spec (fp_id p) id) as [E|]; cbn.
      * destruct (Z.eqb_spec (fp_id p) j); [congruence|done].
      * destruct (Z.eqb_spec (fp_id p) j); [done|]. by apply IH.
Qed.

(** Peer 3 closes the pair of peers 1 and 2. *)
Lemma session_close_unchecked_witness :
  exists v', ToyRelay.handle_frame 0 (toy_fp 3) (wire_to_u8 WSessionClose) [byte_of 1] (ToyRelay.server, ToyRelay.idle)
             = (Ok tt, (v', ToyRelay.idle))
    /\ lookup_pair 1 (sv_state v') = None
    /\ (forall j, j <> 1 -> lookup_pair j (sv_state v') = lookup_pair j (sv_state ToyRelay.server)).
Proof.
  apply (@session_close_unchecked Toy.sdk ToyChan.crypto ToyRelay.payloads ToyRelay.cfg 0 (toy_fp 3) [byte_of 1] 1
    (MkPair 1 (toy_fp 1) (toy_fp 2)) ToyRelay.server ToyRelay.idle).
  - constructor.
    + repeat constructor; set_solver.
    + repeat constructor. by apply not_elem_of_nil.
    + repeat constructor.
    + vm_compute. congruence.
    + apply map_Forall_empty.
  - reflexivity.
  - reflexivity.
Defined.

(** A second connection of a peer is cut off when the first one ends: the
    peer is then offline and unreachable although its channel is live. *)
Theorem reconnect_cut_off `{SK : Sdk} (v : RelayServer) (fp : Fingerprint) (c1 c2 : Conn) (k1 k2 : Z) (raw1 raw2 : bytes) :
  fp ∉ sv_eviction v -> cn_broken c1 = false -> cn_broken c2 = false -> k1 <> k2 ->
  let v1 := fst (snd (connect_client k1 raw1 fp (v, c1))) in
  let '(r2, t2) := connect_client k2 raw2 fp (v1, c2) in
  let v3 := fst (snd (teardown fp (close_channels k1 (fst t2), c1))) in
  r2 = Ok tt /\ is_online fp (sv_state v3) = false /\ sv_conns v3 !! fp = None /\ is_Some (sv_chans v3 !! k2).
Proof.
  intros Hev Hb1 Hb2 Hk. cbn zeta.
  assert (Hconn : forall k raw v c, fp ∉ sv_eviction v -> cn_broken c = false ->
    exists w, connect_client k raw fp (v, c) = (Ok tt, (w, MkConn (cn_in c) (cn_out c ++ [OMsg (SAuthOk (hex_encode raw))]) false))
      /\ sv_eviction w = sv_eviction v /\ sv_chans w = <[k := []]> (sv_chans v)).
  { clear. intros k raw v c Hev Hb. unfold connect_client, mbind, SE_mbind, reads, gets, on_state, on_presence, on_conn, on_field, total, register, update, modify, send_frame.
    cbn. rewrite bool_decide_eq_false_2 by done. cbn.
    destruct (notify fp _ _) as [nn pp]. cbn. rewrite Hb. by eexists. }
  destruct (Hconn k1 raw1 v c1 Hev Hb1) as (w1 & -> & Ew & _). cbn [fst snd].
  destruct (Hconn k2 raw2 w1 c2) as (w2 & -> & _ & Ech); [by rewrite Ew|done|]. cbn [fst snd].
  unfold teardown, mbind, SE_mbind, update, modify, on_state, on_presence, on_field, total, close_channels. cbn.
  destruct (notify fp _ _) as [nn pp]. cbn. split; [done|]. split; [|split].
  - unfold is_online. cbn. apply bool_decide_eq_false. rewrite elem_of_difference, elem_of_singleton. tauto.
  - apply lookup_delete_eq.
  - rewrite lookup_delete_ne by done. rewrite Ech, lookup_insert_eq. by eexists.
Qed.
