(* ===== verification/HashChain.v ===== *)
(** * Hash chains of origin-attest

    The endorsement chain ([types.rs]), the revocation journal
    ([revocation.rs]) and the session log ([audit.rs]) are the same
    structure: every record carries the hash of the one before it, zeros for
    the first.  [Chained] is what they provide; the operations and their
    theorems are stated once against it. *)

From Stdlib Require Import Ascii String.
From S2P Require Import Prelude RustStr Bytes Sdk.

Class Chained (R : Type) := {
  ch_prev : R -> bytes;
  ch_set_prev : bytes -> R -> R;
  (** The bytes a record is hashed over. *)
  ch_bytes : R -> bytes
}.

(** Setting the link sets it, and the hashed bytes determine the link. *)
Class ChainedLink (R : Type) `{Chained R} : Prop := {
  ch_prev_set : forall p r, ch_prev (ch_set_prev p r) = p
}.
Class ChainedBind (R : Type) `{Chained R} := {
  ch_ok : R -> Prop;
  ch_bytes_prev : forall r s, ch_ok r -> ch_ok s -> ch_bytes r = ch_bytes s -> ch_prev r = ch_prev s
}.

Definition zeros32 : bytes := replicate 32 (byte_of 0).

Section Chain.
Context `{Sdk} {R : Type} `{Chained R}.

Definition ch_hash (r : R) : bytes := sha3_256 (ch_bytes r).

Definition ch_tip (l : list R) : bytes :=
  match last l with Some r => ch_hash r | None => zeros32 end.

Definition ch_append (l : list R) (r : R) : list R := l ++ [ch_set_prev (ch_tip l) r].

(** The index of the first record whose link is wrong. *)
Fixpoint ch_broken_from (i : nat) (expected_prev : bytes) (l : list R) : option nat :=
  match l with
  | [] => None
  | r :: l' => if bool_decide (ch_prev r = expected_prev) then ch_broken_from (S i) (ch_hash r) l' else Some i
  end.
Definition ch_broken (l : list R) : option nat := ch_broken_from 0 zeros32 l.

(** ** Theory *)

Definition ch_end (p : bytes) (l : list R) : bytes := match last l with Some r => ch_hash r | None => p end.

Lemma ch_end_cons (p : bytes) (r : R) (l : list R) : ch_end p (r :: l) = ch_end (ch_hash r) l.
Proof. unfold ch_end. rewrite last_cons. by destruct (last l). Qed.

Lemma ch_broken_app (i : nat) (p : bytes) (l k : list R) :
  ch_broken_from i p (l ++ k) =
  match ch_broken_from i p l with Some j => Some j | None => ch_broken_from (i + length l) (ch_end p l) k end.
Proof.
  revert i p. induction l as [|r l IH]; intros i p; cbn [app ch_broken_from].
  - cbn [length]. rewrite Nat.add_0_r. done.
  - case_bool_decide; [|done]. rewrite IH, ch_end_cons. cbn [length]. rewrite Nat.add_succ_r. done.
Qed.

Lemma ch_broken_snoc (l : list R) (r : R) : ch_broken (l ++ [r]) = None -> ch_broken l = None /\ ch_prev r = ch_tip l.
Proof.
  unfold ch_broken. rewrite ch_broken_app. destruct (ch_broken_from 0 zeros32 l); [done|]. cbn [ch_broken_from].
  by case_bool_decide.
Qed.

Lemma ch_append_intact {CL : ChainedLink R} (l : list R) (r : R) : ch_broken (ch_append l r) = ch_broken l.
Proof.
  unfold ch_broken, ch_append. rewrite ch_broken_app. destruct (ch_broken_from 0 zeros32 l); [done|].
  cbn. rewrite ch_prev_set, bool_decide_eq_true_2; done.
Qed.

Lemma ch_append_tip {CL : ChainedLink R} (l : list R) (r : R) :
  ch_tip (ch_append l r) = ch_hash (ch_set_prev (ch_tip l) r).
Proof. unfold ch_tip at 1, ch_append. by rewrite last_snoc. Qed.

(** Intact chains of equal length with equal tips hash the same bytes, record
    by record, or a collision is at hand. *)
Lemma ch_tip_binds {CB : ChainedBind R} (l k : list R) :
  ch_broken l = None -> ch_broken k = None -> Forall ch_ok l -> Forall ch_ok k ->
  length l = length k -> ch_tip l = ch_tip k ->
  map ch_bytes l = map ch_bytes k \/ collision sha3_256.
Proof.
  revert k. induction l as [|r l IH] using rev_ind; intros k Hl Hk Ol Ok Hlen Ht.
  { destruct k; [by left|done]. }
  destruct k as [|s k _] using rev_ind; [rewrite length_app in Hlen; cbn in Hlen; lia|].
  rewrite !length_app in Hlen. cbn [length] in Hlen.
  apply ch_broken_snoc in Hl as [El Pl], Hk as [Ek Pk].
  unfold ch_tip in Ht. rewrite !last_snoc in Ht. unfold ch_hash in Ht.
  rewrite Forall_app, Forall_singleton in Ol, Ok. destruct Ol as [Ol Or], Ok as [Ok Os].
  destruct (hash_eq_or_collision _ _ _ Ht) as [E|]; [|by right].
  destruct (IH k El Ek Ol Ok ltac:(lia)) as [IHe|]; [|left|by right].
  - rewrite <- Pl, <- Pk. by apply ch_bytes_prev.
  - rewrite !map_app, IHe. cbn. by rewrite E.
Qed.

End Chain.
