(* ===== verification/Attest.v ===== *)
(** * Claims, endorsements, revocations, registry and cookies of origin-attest

    [types.rs], [revocation.rs], [registry.rs], [audit.rs], [cookie.rs] and
    [error.rs].  A confidence is the bit pattern of its [f64]; clock readings
    and random bytes are arguments; Falcon signatures and HMAC are
    parameters. *)

From Stdlib Require Import Ascii String.
From S2P Require Import Prelude RustStr Bytes Sdk StateErr HashChain.

Class AttestCrypto := {
  falcon_verify : bytes -> bytes -> bytes -> bool;
  Falcon1024Signer : Type;
  falcon_public_key : Falcon1024Signer -> bytes;
  falcon_sign : Falcon1024Signer -> bytes -> result string bytes;
  hmac_sha3_256 : bytes -> bytes -> result string bytes
}.

(** Signatures of a signer verify under its key and are not empty; keys are
    not empty. *)
Class AttestCryptoOk `{AttestCrypto} : Prop := {
  falcon_sign_verify : forall s m sig, falcon_sign s m = Ok sig -> falcon_verify (falcon_public_key s) m sig = true;
  falcon_sig_ne : forall s m sig, falcon_sign s m = Ok sig -> sig <> [];
  falcon_pk_ne : forall s, falcon_public_key s <> []
}.

(** ** Errors ([error.rs]) *)

Inductive AttestError :=
| AttestCryptoError (s : string)
| InvalidEndorsement (s : string)
| ChainBroken (i : nat)
| Expired (s : string)
| Revoked (s : string)
| Serialization (s : string)
| Discovery (s : string)
| Threshold (s : string)
| InvalidParameter (s : string)
| NotFound (s : string)
| AuditBroken (i : nat).

(** ** Claims and endorsements ([types.rs]) *)

Inductive EndorsementTier := Tier1 | Tier2.

#[global] Instance EndorsementTier_eq_dec : EqDecision EndorsementTier.
Proof. solve_decision. Defined.

Definition tier_from_u8 (v : Z) : option EndorsementTier :=
  match v with 1 => Some Tier1 | 2 => Some Tier2 | _ => None end.
Definition tier_as_u8 (t : EndorsementTier) : Z := match t with Tier1 => 1 | Tier2 => 2 end.

Record CapabilityClaim := MkClaim {
  cc_fingerprint : string;
  cc_falcon_pk : string;
  cc_epoch : Z;
  cc_capabilities : list string;
  cc_metadata : json;
  cc_timestamp : Z;
  cc_expires : Z;
  cc_falcon_signature : bytes
}.

Definition claim_signable_bytes (c : CapabilityClaim) : bytes :=
  as_bytes (cc_fingerprint c) ++ as_bytes (cc_falcon_pk c) ++ be_bytes 4 (cc_epoch c)
  ++ concat (map (fun cap => as_bytes cap ++ [byte_of 0]) (cc_capabilities c))
  ++ be_bytes 8 (cc_timestamp c) ++ be_bytes 8 (cc_expires c).

Definition claim_is_expired (c : CapabilityClaim) (now : Z) : bool :=
  negb (cc_expires c =? 0) && (cc_expires c <? now).

Record Endorsement := MkEndorsement {
  en_tier : EndorsementTier;
  en_endorser_fp : string;
  en_endorsee_fp : string;
  en_capability_domain : string;
  en_confidence : Z;
  en_context : string;
  en_timestamp : Z;
  en_valid_until : Z;
  en_prev_hash : bytes;
  en_nonce : Z;
  en_falcon_signature : bytes;
  en_revocation : bool;
  en_supersedes : option bytes
}.

Definition endorsement_signable_bytes (e : Endorsement) : bytes :=
  [byte_of (tier_as_u8 (en_tier e))] ++ as_bytes (en_endorser_fp e) ++ as_bytes (en_endorsee_fp e)
  ++ as_bytes (en_capability_domain e) ++ be_bytes 8 (en_confidence e) ++ as_bytes (en_context e)
  ++ be_bytes 8 (en_timestamp e) ++ be_bytes 8 (en_valid_until e) ++ en_prev_hash e ++ be_bytes 8 (en_nonce e)
  ++ [byte_of (if en_revocation e then 1 else 0)] ++ default [] (en_supersedes e).

Definition endorsement_is_expired (e : Endorsement) (now : Z) : bool :=
  negb (en_valid_until e =? 0) && (en_valid_until e <? now).
Definition endorsement_is_valid (e : Endorsement) (now : Z) : bool :=
  negb (en_revocation e) && negb (endorsement_is_expired e now).

#[global] Instance endorsement_chained : Chained Endorsement := {|
  ch_prev := en_prev_hash;
  ch_set_prev p e := MkEndorsement (en_tier e) (en_endorser_fp e) (en_endorsee_fp e) (en_capability_domain e)
    (en_confidence e) (en_context e) (en_timestamp e) (en_valid_until e) p (en_nonce e) (en_falcon_signature e)
    (en_revocation e) (en_supersedes e);
  ch_bytes := endorsement_signable_bytes
|}.
#[global] Instance endorsement_link : ChainedLink Endorsement.
Proof. done. Qed.

Section Code.
Context `{SK : Sdk, AC : AttestCrypto}.

Definition claim_hash (c : CapabilityClaim) : bytes := sha3_256 (claim_signable_bytes c).

Definition claim_verify_signature (c : CapabilityClaim) : bool :=
  match hex_decode (cc_falcon_pk c) with
  | Err _ => false
  | Ok pk => falcon_verify pk (claim_signable_bytes c) (cc_falcon_signature c)
  end.

Definition endorsement_verify_signature (e : Endorsement) (endorser_falcon_pk_hex : string) : bool :=
  match hex_decode endorser_falcon_pk_hex with
  | Err _ => false
  | Ok pk => falcon_verify pk (endorsement_signable_bytes e) (en_falcon_signature e)
  end.

(** [EndorsementChain]: [append], [tip_hash], [root_hash], [verify_integrity]. *)
Definition chain_append (l : list Endorsement) (e : Endorsement) : list Endorsement := ch_append l e.
Definition chain_tip_hash (l : list Endorsement) : bytes := ch_tip l.
Definition chain_root_hash (l : list Endorsement) : bytes :=
  match l with e :: _ => ch_hash e | [] => zeros32 end.
Definition chain_verify_integrity (l : list Endorsement) : result AttestError unit :=
  match ch_broken l with None => Ok tt | Some i => Err (ChainBroken i) end.

(** ** Revocations ([revocation.rs]) *)

Record RevocationRecord := MkRevocation {
  rv_target_hash : bytes;
  rv_revoked_by : string;
  rv_reason : string;
  rv_timestamp : Z;
  rv_prev_hash : bytes;
  rv_signature : bytes;
  rv_revoker_falcon_pk : bytes
}.

Definition revoker_fingerprint_hex (falcon_pk : bytes) : string := hex_encode (sha3_256 falcon_pk).

Inductive SignatureStatus := Valid | Unsigned | Invalid.

#[global] Instance SignatureStatus_eq_dec : EqDecision SignatureStatus.
Proof. solve_decision. Defined.

Definition revocation_signable_bytes (r : RevocationRecord) : bytes :=
  rv_target_hash r ++ as_bytes (rv_revoked_by r) ++ as_bytes (rv_reason r)
  ++ be_bytes 8 (rv_timestamp r) ++ rv_prev_hash r.

#[global] Instance revocation_chained : Chained RevocationRecord := {|
  ch_prev := rv_prev_hash;
  ch_set_prev p r := MkRevocation (rv_target_hash r) (rv_revoked_by r) (rv_reason r) (rv_timestamp r) p
    (rv_signature r) (rv_revoker_falcon_pk r);
  ch_bytes := revocation_signable_bytes
|}.
#[global] Instance revocation_link : ChainedLink RevocationRecord.
Proof. done. Qed.

Definition revocation_verify_signature (r : RevocationRecord) : SignatureStatus :=
  if bool_decide (rv_signature r = []) then Unsigned
  else if bool_decide (rv_revoker_falcon_pk r = []) then Invalid
  else if negb (bool_decide (rv_revoked_by r = revoker_fingerprint_hex (rv_revoker_falcon_pk r))) then Invalid
  else if negb (falcon_verify (rv_revoker_falcon_pk r) (revocation_signable_bytes r) (rv_signature r)) then Invalid
  else Valid.

Definition revocation_append (records : list RevocationRecord) (r : RevocationRecord) : list RevocationRecord :=
  ch_append records r.

Definition revocation_append_signed (signer : Falcon1024Signer) (record : RevocationRecord)
    : SE (list RevocationRecord) AttestError unit := fun records =>
  let record := ch_set_prev (ch_tip records) record in
  let pk := falcon_public_key signer in
  let record := MkRevocation (rv_target_hash record) (revoker_fingerprint_hex pk) (rv_reason record)
                  (rv_timestamp record) (rv_prev_hash record) (rv_signature record) pk in
  match falcon_sign signer (revocation_signable_bytes record) with
  | Err e => (Err (AttestCryptoError e), records)
  | Ok sig =>
      (Ok tt, records ++ [MkRevocation (rv_target_hash record) (rv_revoked_by record) (rv_reason record)
                            (rv_timestamp record) (rv_prev_hash record) sig (rv_revoker_falcon_pk record)])
  end.

Definition verify_signatures (records : list RevocationRecord) : list nat :=
  map fst (List.filter (fun ir => bool_decide (revocation_verify_signature (snd ir) = Invalid))
             (zip (seq 0 (length records)) records)).

Definition is_revoked (records : list RevocationRecord) (target_hash : bytes) : bool :=
  existsb (fun r => bool_decide (rv_target_hash r = target_hash)) records.
Definition get_revocation (records : list RevocationRecord) (target_hash : bytes) : option RevocationRecord :=
  List.find (fun r => bool_decide (rv_target_hash r = target_hash)) records.
Definition revocation_verify_integrity (records : list RevocationRecord) : result AttestError unit :=
  match ch_broken records with None => Ok tt | Some i => Err (ChainBroken i) end.

(** ** The session log ([audit.rs]) *)

Record AuditEntry := MkAuditEntry {
  ae_prev_hash : bytes;
  ae_seq : Z;
  ae_entry_type : Z;
  ae_payload_hash : bytes;
  ae_timestamp : Z;
  ae_signature : option bytes
}.

#[global] Instance audit_chained : Chained AuditEntry := {|
  ch_prev := ae_prev_hash;
  ch_set_prev p e := MkAuditEntry p (ae_seq e) (ae_entry_type e) (ae_payload_hash e) (ae_timestamp e) (ae_signature e);
  ch_bytes e := ae_prev_hash e ++ be_bytes 4 (ae_seq e) ++ [byte_of (ae_entry_type e)] ++ ae_payload_hash e
                ++ be_bytes 8 (ae_timestamp e)
|}.
#[global] Instance audit_link : ChainedLink AuditEntry.
Proof. done. Qed.

Record SessionLog := MkSessionLog { sl_entries : list AuditEntry; sl_root_hash : bytes }.
Definition session_log_new : SessionLog := MkSessionLog [] zeros32.
Definition session_log_append (l : SessionLog) (entry : AuditEntry) : SessionLog :=
  let entry := ch_set_prev (sl_root_hash l) entry in
  MkSessionLog (sl_entries l ++ [entry]) (ch_hash entry).

Definition verify_chain (l : SessionLog) : result AttestError bool :=
  if bool_decide (sl_entries l = []) then Ok true
  else match ch_broken (sl_entries l) with
       | Some i => Err (AuditBroken i)
       | None => if negb (bool_decide (sl_root_hash l = ch_tip (sl_entries l)))
                 then Err (AuditBroken (length (sl_entries l))) else Ok true
       end.

(** ** The registry ([registry.rs]) *)

Record AgentRecord := MkAgent {
  ag_fingerprint : string;
  ag_falcon_pk : string;
  ag_epoch : Z;
  ag_endpoint : option string;
  ag_claims : list CapabilityClaim;
  ag_endorsements_received : list Endorsement;
  ag_endorsements_given : list Endorsement;
  ag_chain : list Endorsement;
  ag_discovered_at : Z;
  ag_last_seen : Z
}.

Definition agent_new (now : Z) (fingerprint falcon_pk : string) (epoch : Z) : AgentRecord :=
  MkAgent fingerprint falcon_pk epoch None [] [] [] [] now now.

Definition AgentRegistry : Type := gmap string AgentRecord.

Definition registry_register (record : AgentRecord) (r : AgentRegistry) : AgentRegistry :=
  <[ag_fingerprint record := record]> r.

Definition registry_add_claim (now : Z) (fp : string) (claim : CapabilityClaim) : SE AgentRegistry AttestError unit :=
  fun r => match r !! fp with
  | None => (Err (NotFound fp), r)
  | Some a => (Ok tt, <[fp := MkAgent (ag_fingerprint a) (ag_falcon_pk a) (ag_epoch a) (ag_endpoint a)
                                (ag_claims a ++ [claim]) (ag_endorsements_received a) (ag_endorsements_given a)
                                (ag_chain a) (ag_discovered_at a) now]> r)
  end.

(** The endorser's half, then the endorsee's. *)
Definition give (now : Z) (e : Endorsement) (a : AgentRecord) : AgentRecord :=
  MkAgent (ag_fingerprint a) (ag_falcon_pk a) (ag_epoch a) (ag_endpoint a) (ag_claims a)
    (ag_endorsements_received a) (ag_endorsements_given a ++ [e]) (chain_append (ag_chain a) e)
    (ag_discovered_at a) now.
Definition receive (now : Z) (e : Endorsement) (a : AgentRecord) : AgentRecord :=
  MkAgent (ag_fingerprint a) (ag_falcon_pk a) (ag_epoch a) (ag_endpoint a) (ag_claims a)
    (ag_endorsements_received a ++ [e]) (ag_endorsements_given a) (ag_chain a)
    (ag_discovered_at a) now.

Definition registry_add_endorsement (now : Z) (e : Endorsement) : SE AgentRegistry AttestError unit := fun r =>
  match r !! en_endorser_fp e with
  | None => (Err (NotFound (en_endorser_fp e)), r)
  | Some endorser =>
      let r := <[en_endorser_fp e := give now e endorser]> r in
      match r !! en_endorsee_fp e with
      | None => (Err (NotFound (en_endorsee_fp e)), r)
      | Some endorsee => (Ok tt, <[en_endorsee_fp e := receive now e endorsee]> r)
      end
  end.

Definition search_by_capability (r : AgentRegistry) (domain : string) : list AgentRecord :=
  List.filter (fun a => existsb (fun c => existsb (fun cap => bool_decide (cap = domain)) (cc_capabilities c)) (ag_claims a))
    (map snd (map_to_list r)).

Definition registry_remove (fp : string) (r : AgentRegistry) : option AgentRecord * AgentRegistry :=
  (r !! fp, delete fp r).

(** ** Cookies ([cookie.rs]) *)

Definition DEFAULT_COOKIE_ROTATION_SECS : Z := 120.

Record CookieSecret := MkCookieSecret {
  ck_current : bytes;
  ck_previous : option bytes;
  ck_last_rotation : Z;
  ck_rotation_interval : Z
}.

(** [instant]: the monotonic clock; [random]: the draw of 32 bytes. *)
Definition cookie_new (instant : Z) (random : result string bytes) : result string CookieSecret :=
  match random with
  | Err _ => Err "OS CSPRNG unavailable"
  | Ok current => Ok (MkCookieSecret current None instant DEFAULT_COOKIE_ROTATION_SECS)
  end.

(** [fallback[i % 32] ^= b] over a list. *)
Definition xor_into (acc : list Z) (l : bytes) : list Z :=
  foldl (fun acc ib => alter (fun x => Z.lxor x (code (snd ib))) (fst ib mod 32)%nat acc) acc (zip (seq 0 (length l)) l).

Definition generate_at (s : CookieSecret) (source_ip : string) (now : Z) : bytes :=
  let input := as_bytes source_ip ++ be_bytes 8 now in
  let full := match hmac_sha3_256 (ck_current s) input with
              | Ok mac => mac
              | Err _ => map byte_of (xor_into (xor_into (replicate 32 0) input) (ck_current s))
              end in
  take 16 full.

Definition verify_at (s : CookieSecret) (source_ip : string) (cookie : bytes) (now : Z) : bool :=
  let expected := generate_at s source_ip now in
  if bool_decide (expected = cookie) then true
  else match ck_previous s with
       | Some prev_secret =>
           match hmac_sha3_256 prev_secret (as_bytes source_ip ++ be_bytes 8 now) with
           | Ok full => bool_decide (take 16 full = cookie)
           | Err _ => false
           end
       | None => false
       end.

Definition force_rotate (instant : Z) (random : result string bytes) : SE CookieSecret string unit := fun s =>
  let s := MkCookieSecret (ck_current s) (Some (ck_current s)) (ck_last_rotation s) (ck_rotation_interval s) in
  match random with
  | Err _ => (Err "OS CSPRNG unavailable", s)
  | Ok new_secret => (Ok tt, MkCookieSecret new_secret (ck_previous s) instant (ck_rotation_interval s))
  end.

Definition maybe_rotate (instant : Z) (random : result string bytes) : SE CookieSecret string bool := fun s =>
  if ck_rotation_interval s <=? instant - ck_last_rotation s then
    let '(r, s') := force_rotate instant random s in (map_err id r ≫= fun _ => Ok true, s')
  else (Ok false, s).

End Code.

(** ** What origin-attest promises: journals, logs, registry, cookies *)

(** ** Widths of the link fields: [[u8; 32]] *)

Definition last32_ok (r : RevocationRecord) : Prop := length (rv_prev_hash r) = 32%nat.
Definition entry_ok (e : AuditEntry) : Prop :=
  length (ae_prev_hash e) = 32%nat /\ length (ae_payload_hash e) = 32%nat /\ 0 <= ae_seq e < 256 ^ 4 /\
  0 <= ae_entry_type e < 256 /\ 0 <= ae_timestamp e < 256 ^ 8.

#[global] Instance revocation_bind : ChainedBind RevocationRecord.
Proof.
  refine {| ch_ok := last32_ok |}. unfold last32_ok. cbn. unfold revocation_signable_bytes.
  intros r s Hr Hs E. rewrite !app_assoc in E.
  apply app_inj_2 in E as [_ E]; [done|congruence].
Defined.

#[global] Instance audit_bind : ChainedBind AuditEntry.
Proof.
  refine {| ch_ok := entry_ok |}. cbn. intros r s (Hr & _) (Hs & _) E.
  apply app_inj_len in E as [E _]; [done|congruence].
Defined.

(** The fields an entry's hash covers. *)
Definition unsigned (e : AuditEntry) : bytes * Z * Z * bytes * Z :=
  (ae_prev_hash e, ae_seq e, ae_entry_type e, ae_payload_hash e, ae_timestamp e).

Lemma log_entry_bytes_inj (r s : AuditEntry) : entry_ok r -> entry_ok s -> ch_bytes r = ch_bytes s -> unsigned r = unsigned s.
Proof.
  intros (Hr & Pr & Sr & Tr & Wr) (Hs & Ps & Ss & Ts & Ws) E. cbn -[be_bytes] in E.
  apply app_inj_len in E as [E1 E]; [|congruence]. apply app_inj_len in E as [E2 E]; [|by rewrite !be_bytes_length].
  injection E as E3 E. apply app_inj_len in E as [E4 E5]; [|congruence]. unfold unsigned.
  apply be_bytes_inj in E2; [|done..]. apply be_bytes_inj in E5; [|done..].
  apply (f_equal code) in E3. rewrite !code_byte_of, !Z.mod_small in E3 by done. congruence.
Qed.

Lemma map_inj_on {A B C : Type} (P : A -> Prop) (f : A -> B) (g : A -> C) (l k : list A) :
  (forall x y, P x -> P y -> f x = f y -> g x = g y) ->
  Forall P l -> Forall P k -> map f l = map f k -> map g l = map g k.
Proof.
  intros Hf Hl. revert k. induction Hl as [|x l Hx Hl IH]; intros [|y k] Hk E; try done.
  apply Forall_cons in Hk as [Hy Hk]. cbn in *. injection E as E E'. f_equal; [by apply Hf|by apply IH].
Qed.

Section Props.
Context `{SK : Sdk, AC : AttestCrypto}.

(** ** The revocation journal *)

(** The journal a sequence of signed appends leaves, and the records that
    were accepted. *)
Definition signed_ops (ops : list (Falcon1024Signer * RevocationRecord)) (records : list RevocationRecord)
    : list (result AttestError unit) * list RevocationRecord :=
  run_all (fun '(signer, r) => revocation_append_signed signer r) ops records.

Definition journal_ok (records : list RevocationRecord) : Prop :=
  ch_broken records = None /\ Forall (fun r => revocation_verify_signature r = Valid) records.

Lemma ch_snoc_intact {R : Type} `{Chained R} (l : list R) (r : R) :
  ch_broken l = None -> ch_prev r = ch_tip l -> ch_broken (l ++ [r]) = None.
Proof.
  intros Hl Hp. unfold ch_broken in *. rewrite ch_broken_app, Hl. cbn [ch_broken_from].
  by rewrite bool_decide_eq_true_2.
Qed.

Lemma append_signed_ok {AO : AttestCryptoOk} signer record records records' (u : unit) :
  revocation_append_signed signer record records = (Ok u, records') ->
  exists r, records' = records ++ [r] /\ rv_target_hash r = rv_target_hash record /\
    rv_reason r = rv_reason record /\ rv_timestamp r = rv_timestamp record /\
    rv_revoked_by r = revoker_fingerprint_hex (falcon_public_key signer) /\
    ch_prev r = ch_tip records /\ revocation_verify_signature r = Valid.
Proof.
  unfold revocation_append_signed. destruct (falcon_sign _ _) as [sig|] eqn:Es; [|done].
  intros [= _ <-]. eexists. repeat (split; [done|]). unfold revocation_verify_signature. cbn.
  rewrite (bool_decide_eq_false_2 (sig = [])) by by eapply falcon_sig_ne.
  rewrite (bool_decide_eq_false_2 (falcon_public_key signer = [])) by apply falcon_pk_ne.
  rewrite bool_decide_eq_true_2 by done. cbn.
  apply falcon_sign_verify in Es. unfold revocation_signable_bytes in *. cbn in *. by rewrite Es.
Qed.

Lemma append_signed_keeps {AO : AttestCryptoOk} signer record records r records' :
  revocation_append_signed signer record records = (r, records') -> journal_ok records -> journal_ok records'.
Proof.
  intros E [Hi Hv]. destruct r as [u|e].
  - apply append_signed_ok in E as (r & -> & _ & _ & _ & _ & Hp & Hr).
    split; [by apply ch_snoc_intact|]. apply Forall_app. by split; [|constructor].
  - unfold revocation_append_signed in E. destruct (falcon_sign _ _); [done|]. by injection E as _ <-.
Qed.

Lemma enumerate_lookup {A : Type} (l : list A) (k i : nat) (x : A) :
  In (i, x) (zip (seq k (length l)) l) <-> (k <= i)%nat /\ l !! (i - k)%nat = Some x.
Proof.
  revert k. induction l as [|y l IH]; intros k; cbn [length seq zip zip_with In].
  { rewrite lookup_nil. by split; [|intros []]. }
  rewrite IH. split.
  - intros [[= <- <-]|[? <-]]; [by rewrite Nat.sub_diag|]. split; [lia|].
    replace (i - k)%nat with (S (i - S k)) by lia. done.
  - intros [Hk E]. destruct (decide (i = k)) as [->|]; [rewrite Nat.sub_diag in E; left; by simplify_eq/=|].
    right. split; [lia|]. replace (i - k)%nat with (S (i - S k)) in E by lia. done.
Qed.

Lemma verify_signatures_spec (records : list RevocationRecord) (i : nat) :
  In i (verify_signatures records) <->
  exists r, records !! i = Some r /\ revocation_verify_signature r = Invalid.
Proof.
  unfold verify_signatures. rewrite in_map_iff. split.
  - intros ([j r] & <- & E). apply filter_In in E as [E Ev]. apply bool_decide_eq_true in Ev.
    apply enumerate_lookup in E as [_ E]. rewrite Nat.sub_0_r in E. eauto.
  - intros (r & E & Ev). exists (i, r). split; [done|]. apply filter_In. split.
    + apply enumerate_lookup. rewrite Nat.sub_0_r. split; [lia|done].
    + by apply bool_decide_eq_true.
Qed.

Lemma signed_ops_keeps {AO : AttestCryptoOk} ops records : journal_ok records -> journal_ok (snd (signed_ops ops records)).
Proof.
  unfold signed_ops. revert records. induction ops as [|[signer r] ops IH]; intros records Hj; cbn; [done|].
  destruct (revocation_append_signed signer r records) as [o records'] eqn:E.
  pose proof (IH records' (append_signed_keeps _ _ _ _ _ E Hj)) as Hk.
  by destruct (run_all _ ops records').
Qed.

Lemma signed_ops_revokes {AO : AttestCryptoOk} ops records signer r i :
  ops !! i = Some (signer, r) -> fst (signed_ops ops records) !! i = Some (Ok tt) ->
  is_revoked (snd (signed_ops ops records)) (rv_target_hash r) = true.
Proof.
  assert (forall ops records t, is_revoked records t = true -> is_revoked (snd (signed_ops ops records)) t = true) as Hmono.
  { clear. unfold signed_ops. induction ops as [|[signer r] ops IH]; intros records t Ht; cbn; [done|].
    destruct (revocation_append_signed signer r records) as [o records'] eqn:E.
    assert (is_revoked records' t = true) as Ht'.
    { unfold revocation_append_signed in E. destruct (falcon_sign _ _); simplify_eq; [|done].
      unfold is_revoked. rewrite existsb_app. apply orb_true_intro. by left. }
    specialize (IH records' t Ht'). by destruct (run_all _ ops records'). }
  revert records i. induction ops as [|[signer' r'] ops IH]; intros records i E; [done|].
  unfold signed_ops. cbn. destruct (revocation_append_signed signer' r' records) as [o records'] eqn:Ea.
  destruct (run_all _ ops records') as [os records''] eqn:Er. cbn.
  destruct i as [|i]; cbn in E |- *; intros [= Eo]; simplify_eq.
  - apply append_signed_ok in Ea as (r'' & -> & Ht & _).
    specialize (Hmono ops (records ++ [r'']) (rv_target_hash r)). unfold signed_ops in Hmono. rewrite Er in Hmono.
    apply Hmono. unfold is_revoked. rewrite existsb_app. apply orb_true_intro. right. cbn.
    by rewrite Ht, bool_decide_eq_true_2.
  - specialize (IH records' i E). unfold signed_ops in IH. rewrite Er in IH. by apply IH.
Qed.

(** Signed appends from the empty journal, in any number and with any
    signing failures in between: the hash chain verifies, no
    record's signature is reported, and every record whose append returned
    [Ok] has its target revoked. *)
Theorem revocation_journal_sound {AO : AttestCryptoOk} (ops : list (Falcon1024Signer * RevocationRecord)) :
  let '(rs, records) := signed_ops ops [] in
  revocation_verify_integrity records = Ok tt /\ verify_signatures records = [] /\
  (forall i signer r, ops !! i = Some (signer, r) -> rs !! i = Some (Ok tt) -> is_revoked records (rv_target_hash r) = true).
Proof.
  pose proof (signed_ops_keeps ops [] ltac:(done)) as [Hi Hv].
  pose proof (fun signer r i => signed_ops_revokes ops [] signer r i) as Hr.
  destruct (signed_ops ops []) as [rs records]. cbn [fst snd] in *. split; [|split].
  - unfold revocation_verify_integrity. by rewrite Hi.
  - destruct (verify_signatures records) as [|i l] eqn:E; [done|]. exfalso.
    assert (In i (verify_signatures records)) as Hin by (rewrite E; by left).
    apply verify_signatures_spec in Hin as (r & Hl & Hn).
    rewrite Forall_lookup in Hv. rewrite (Hv i r Hl) in Hn. done.
  - intros i signer r. apply Hr.
Qed.

(** ** Tips bind histories *)

(** Two journals that both pass [verify_integrity], of the same length and
    tip, hold records with the same signed bytes, unless SHA3-256 collides. *)
Theorem revocation_tip_binds (l k : list RevocationRecord) :
  revocation_verify_integrity l = Ok tt -> revocation_verify_integrity k = Ok tt ->
  Forall last32_ok l -> Forall last32_ok k -> length l = length k -> ch_tip l = ch_tip k ->
  map revocation_signable_bytes l = map revocation_signable_bytes k \/ collision sha3_256.
Proof.
  unfold revocation_verify_integrity. destruct (ch_broken l) eqn:El; [done|]. destruct (ch_broken k) eqn:Ek; [done|].
  intros _ _. by apply (ch_tip_binds (CB := revocation_bind)).
Qed.

Definition log_append_all (l : SessionLog) (es : list AuditEntry) : SessionLog := foldl session_log_append l es.

Definition log_inv (l : SessionLog) : Prop := ch_broken (sl_entries l) = None /\ sl_root_hash l = ch_tip (sl_entries l).

Lemma log_append_inv (l : SessionLog) (e : AuditEntry) : log_inv l -> log_inv (session_log_append l e).
Proof.
  intros [Hi Hr]. unfold session_log_append. split; cbn.
  - apply ch_snoc_intact; [done|]. done.
  - unfold ch_tip. by rewrite last_snoc.
Qed.

Lemma verify_chain_inv (l : SessionLog) : log_inv l -> verify_chain l = Ok true.
Proof.
  intros [Hi Hr]. unfold verify_chain. case_bool_decide; [done|]. by rewrite Hi, Hr, bool_decide_eq_true_2.
Qed.

Lemma verify_chain_Ok (l : SessionLog) (b : bool) : verify_chain l = Ok b -> sl_entries l = [] \/ log_inv l.
Proof.
  unfold verify_chain, log_inv. case_bool_decide; [by left|]. destruct (ch_broken _); [done|].
  case_bool_decide; cbn; [|done]. intros _. by right.
Qed.

(** A log built by [append] from [new] verifies; and two logs that verify,
    non-empty, of equal length and root, agree on every hashed field of
    every entry unless SHA3-256 collides: neither side of a session can
    alter, reorder or replace entries under an agreed root. *)
Theorem session_log_binds (es : list AuditEntry) (l : SessionLog) :
  let mine := log_append_all session_log_new es in
  verify_chain mine = Ok true /\
  (verify_chain l = Ok true -> sl_root_hash l = sl_root_hash mine -> length (sl_entries l) = length (sl_entries mine) ->
   Forall entry_ok (sl_entries l) -> Forall entry_ok (sl_entries mine) ->
   map unsigned (sl_entries l) = map unsigned (sl_entries mine) \/ collision sha3_256).
Proof.
  cbn zeta. assert (log_inv (log_append_all session_log_new es)) as Hm.
  { unfold log_append_all. assert (log_inv session_log_new) as H0 by done. revert H0. generalize session_log_new.
    induction es as [|e es IH]; intros l0 H0; cbn; [done|]. apply IH. by apply log_append_inv. }
  split; [by apply verify_chain_inv|]. intros Hv Hr Hlen Ol Om.
  destruct (verify_chain_Ok _ _ Hv) as [E|Hl].
  { left. rewrite E in *. destruct (sl_entries (log_append_all session_log_new es)); done. }
  destruct Hl as [Il Rl], Hm as [Im Rm].
  destruct (ch_tip_binds (CB := audit_bind) _ _ Il Im Ol Om Hlen ltac:(congruence)) as [E|]; [left|by right].
  by apply (map_inj_on entry_ok ch_bytes unsigned _ _ log_entry_bytes_inj).
Qed.

(** ** The registry *)

Definition registry_ok (r : AgentRegistry) : Prop :=
  map_Forall (fun fp a => ag_fingerprint a = fp /\ chain_verify_integrity (ag_chain a) = Ok tt) r.

Inductive RegOp :=
| RRegister (record : AgentRecord)
| RAddClaim (now : Z) (fp : string) (claim : CapabilityClaim)
| RAddEndorsement (now : Z) (e : Endorsement)
| RRemove (fp : string).

Definition reg_step (op : RegOp) (r : AgentRegistry) : AgentRegistry :=
  match op with
  | RRegister record => registry_register record r
  | RAddClaim now fp claim => snd (registry_add_claim now fp claim r)
  | RAddEndorsement now e => snd (registry_add_endorsement now e r)
  | RRemove fp => snd (registry_remove fp r)
  end.

Definition reg_op_ok (op : RegOp) : Prop :=
  match op with RRegister a => chain_verify_integrity (ag_chain a) = Ok tt | _ => True end.

Lemma chain_append_ok (l : list Endorsement) (e : Endorsement) :
  chain_verify_integrity (chain_append l e) = chain_verify_integrity l.
Proof. unfold chain_verify_integrity, chain_append. by rewrite ch_append_intact. Qed.

Lemma registry_ok_insert (r : AgentRegistry) (fp : string) (a : AgentRecord) :
  registry_ok r -> ag_fingerprint a = fp -> chain_verify_integrity (ag_chain a) = Ok tt -> registry_ok (<[fp := a]> r).
Proof. intros Hr Hf Hc. by apply map_Forall_insert_2. Qed.

Lemma reg_step_ok (op : RegOp) (r : AgentRegistry) : reg_op_ok op -> registry_ok r -> registry_ok (reg_step op r).
Proof.
  intros Ho Hr. destruct op as [a|now fp claim|now e|fp]; cbn.
  - by apply registry_ok_insert.
  - unfold registry_add_claim. destruct (r !! fp) as [a|] eqn:E; [|done]. destruct (Hr _ _ E).
    by apply registry_ok_insert.
  - unfold registry_add_endorsement. destruct (r !! en_endorser_fp e) as [a|] eqn:E; [|done].
    destruct (Hr _ _ E) as [Hf Hc].
    assert (registry_ok (<[en_endorser_fp e := give now e a]> r)) as Hr'.
    { apply registry_ok_insert; [done|done|]. cbn. by rewrite chain_append_ok. }
    destruct (_ !! en_endorsee_fp e) as [b|] eqn:E'; [|done]. destruct (Hr' _ _ E').
    by apply registry_ok_insert.
  - by apply map_Forall_delete.
Qed.

(** Any sequence of registry operations, failed ones included, keeps every
    record under its own fingerprint with an endorsement chain that verifies. *)
Theorem registry_invariant (ops : list RegOp) :
  Forall reg_op_ok ops -> registry_ok (foldl (fun r op => reg_step op r) ∅ ops).
Proof.
  intros Ho. assert (registry_ok ∅) as H0 by apply map_Forall_empty. revert H0. generalize (∅ : AgentRegistry).
  induction Ho as [|op ops Hop Ho IH]; intros r Hr; cbn; [done|]. apply IH. by apply reg_step_ok.
Qed.

(** What [add_endorsement] does on every branch: an unknown endorser changes
    nothing; an unknown endorsee is reported after the endorser's record
    has been extended; otherwise both records carry the endorsement. *)
Theorem registry_add_endorsement_spec (now : Z) (e : Endorsement) (r r' : AgentRegistry) (o : result AttestError unit) :
  registry_add_endorsement now e r = (o, r') ->
  match r !! en_endorser_fp e, r !! en_endorsee_fp e with
  | None, _ => o = Err (NotFound (en_endorser_fp e)) /\ r' = r
  | Some a, None => o = Err (NotFound (en_endorsee_fp e)) /\
                    r' = <[en_endorser_fp e := give now e a]> r /\ r' <> r
  | Some a, Some b => o = Ok tt /\
      (exists a', r' !! en_endorser_fp e = Some a' /\ ag_endorsements_given a' = ag_endorsements_given a ++ [e]
                  /\ ag_chain a' = chain_append (ag_chain a) e) /\
      (exists b', r' !! en_endorsee_fp e = Some b' /\ ag_endorsements_received b' = ag_endorsements_received b ++ [e]) /\
      (forall fp, fp <> en_endorser_fp e -> fp <> en_endorsee_fp e -> r' !! fp = r !! fp)
  end.
Proof.
  unfold registry_add_endorsement, AgentRegistry in *. intros E. destruct (r !! en_endorser_fp e) as [a|] eqn:Ea; [|by simplify_eq].
  destruct (decide (en_endorsee_fp e = en_endorser_fp e)) as [Ed|Ed].
  - rewrite Ed in E |- *. rewrite lookup_insert_eq in E. rewrite Ea. simplify_eq. split; [done|].
    split; [|split]; [eexists; split; [apply lookup_insert_eq|done]..|].
    intros fp H1 _. by rewrite !lookup_insert_ne.
  - rewrite lookup_insert_ne in E by done. destruct (r !! en_endorsee_fp e) as [b|] eqn:Eb; simplify_eq.
    + split; [done|]. split; [|split].
      * eexists. rewrite lookup_insert_ne by done. split; [apply lookup_insert_eq|done].
      * eexists. split; [apply lookup_insert_eq|done].
      * intros fp H1 H2. by rewrite !lookup_insert_ne.
    + split; [done|]. split; [done|]. intros Eq. apply (f_equal (lookup (en_endorser_fp e))) in Eq.
      rewrite lookup_insert_eq, Ea in Eq. apply (f_equal (fun o => from_option (fun a => length (ag_endorsements_given a)) O o)) in Eq.
      cbn in Eq. rewrite length_app in Eq. cbn in Eq. lia.
Qed.

(** ** Cookies *)

Lemma verify_at_iff (s : CookieSecret) (ip : string) (cookie : bytes) (now : Z) :
  verify_at s ip cookie now = true <->
  cookie = generate_at s ip now \/
  exists prev full, ck_previous s = Some prev /\ hmac_sha3_256 prev (as_bytes ip ++ be_bytes 8 now) = Ok full /\
                    cookie = take 16 full.
Proof.
  unfold verify_at. case_bool_decide as E; [split; auto|].
  destruct (ck_previous s) as [prev|]; [|by split; [|intros [->|(? & ? & ? & _)]]].
  destruct (hmac_sha3_256 prev _) as [full|] eqn:Ef.
  - rewrite bool_decide_eq_true. split; [intros <-; right; by exists prev, full|].
    intros [->|(? & ? & [= <-] & E' & ->)]; [done|]. rewrite Ef in E'. by injection E' as ->.
  - split; [done|]. intros [->|(? & ? & [= <-] & E' & _)]; [done|]. by rewrite Ef in E'.
Qed.

(** A cookie survives one rotation of the secret and no more than the
    second it was issued in: while the MAC works, it verifies at its
    own second under the issuing secret and under the next one, and at any
    other second only if the truncated MACs of two different inputs agree. *)
Theorem cookie_lifetime (s s' : CookieSecret) (ip : string) (t t' inst : Z) (fresh : bytes) :
  in_u64 t -> in_u64 t' -> t <> t' ->
  (forall k m, exists c, hmac_sha3_256 k m = Ok c) ->
  force_rotate inst (Ok fresh) s = (Ok tt, s') ->
  let cookie := generate_at s ip t in
  verify_at s ip cookie t = true /\ verify_at s' ip cookie t = true /\
  (verify_at s ip cookie t' = true ->
   exists k m full full', m <> as_bytes ip ++ be_bytes 8 t /\ hmac_sha3_256 (ck_current s) (as_bytes ip ++ be_bytes 8 t) = Ok full
     /\ hmac_sha3_256 k m = Ok full' /\ take 16 full = take 16 full').
Proof.
  intros Ht Ht' Hne Hmac Hrot cookie. unfold force_rotate in Hrot. simplify_eq.
  destruct (Hmac (ck_current s) (as_bytes ip ++ be_bytes 8 t)) as [mac Emac].
  assert (cookie = take 16 mac) as Ec by (unfold cookie, generate_at; by rewrite Emac).
  split; [|split].
  - apply verify_at_iff. by left.
  - apply verify_at_iff. right. by exists (ck_current s), mac.
  - assert (as_bytes ip ++ be_bytes 8 t' <> as_bytes ip ++ be_bytes 8 t) as Hm.
    { intros E. apply app_inv_head in E. apply be_bytes_inj in E; [congruence|unfold in_u64, u64_max in *; cbn; lia..]. }
    intros Hv. apply verify_at_iff in Hv as [E|(prev & full' & _ & Ef & E)].
    + destruct (Hmac (ck_current s) (as_bytes ip ++ be_bytes 8 t')) as [mac' Emac'].
      assert (generate_at s ip t' = take 16 mac') as Eg by (unfold generate_at; by rewrite Emac').
      exists (ck_current s), (as_bytes ip ++ be_bytes 8 t'), mac, mac'. rewrite <- Ec, <- Eg. done.
    + exists prev, (as_bytes ip ++ be_bytes 8 t'), mac, full'. rewrite <- Ec. done.
Qed.

End Props.

(** ** A concrete instance *)

Module ToyAttest.

Definition tag : ascii := byte_of 1.
Definition crypto : AttestCrypto := {|
  falcon_verify pk m sig := bool_decide (sig = tag :: pk ++ m);
  Falcon1024Signer := bytes;
  falcon_public_key s := tag :: s;
  falcon_sign s m := Ok (tag :: (tag :: s) ++ m);
  hmac_sha3_256 k m := Ok (take 8 k ++ rev m)
|}.

#[global] Instance crypto_ok : @AttestCryptoOk crypto.
Proof.
  constructor; cbn.
  - intros s m sig [= <-]. by apply bool_decide_eq_true.
  - by intros s m sig [= <-].
  - done.
Qed.

Definition signer : @Falcon1024Signer crypto := [byte_of 7].
Definition record (n : Z) : RevocationRecord := MkRevocation (be_bytes 32 n) "" "compromised" (1000 + n) zeros32 [] [].
Definition journal : list RevocationRecord :=
  snd (@signed_ops Toy.sdk crypto [(signer, record 1); (signer, record 2)] []).

(** An endorsement signed as it is created, then appended to a chain that
    is not empty. *)
Definition unsigned_endorsement : Endorsement :=
  MkEndorsement Tier2 "aa" "bb" "code" 0 "" 5 0 zeros32 1 [] false None.
Definition signed_endorsement : Endorsement :=
  match @falcon_sign crypto signer (endorsement_signable_bytes unsigned_endorsement) with
  | Ok sig => MkEndorsement Tier2 "aa" "bb" "code" 0 "" 5 0 zeros32 1 sig false None
  | Err _ => unsigned_endorsement
  end.

(** [EndorsementChain::append] rewrites the signed [prev_hash], so the copy
    in a non-empty chain no longer verifies under the endorser's key. *)
Example appended_signature_invalid :
  let pk := @hex_encode Toy.sdk (@falcon_public_key crypto signer) in
  let chain := @chain_append Toy.sdk [unsigned_endorsement] signed_endorsement in
  @endorsement_verify_signature Toy.sdk crypto signed_endorsement pk = true /\
  @chain_verify_integrity Toy.sdk chain = Ok tt /\
  map (fun e => @endorsement_verify_signature Toy.sdk crypto e pk) chain = [false; false].
Proof. by vm_compute. Qed.

(** The metadata of a claim is not among the signed bytes. *)
Example claim_metadata_unsigned :
  let c m := MkClaim "aa" "01" 0 ["code"]%string m 1 2 [] in
  claim_signable_bytes (c JNull) = claim_signable_bytes (c (JStr "admin")).
Proof. by vm_compute. Qed.

End ToyAttest.

Lemma revocation_journal_sound_witness :
  let '(rs, records) := @signed_ops Toy.sdk ToyAttest.crypto
      [(ToyAttest.signer, ToyAttest.record 1); (ToyAttest.signer, ToyAttest.record 2)] [] in
  length records = 2%nat /\ @revocation_verify_integrity Toy.sdk records = Ok tt.
Proof.
  pose proof (@revocation_journal_sound Toy.sdk ToyAttest.crypto ToyAttest.crypto_ok
    [(ToyAttest.signer, ToyAttest.record 1); (ToyAttest.signer, ToyAttest.record 2)]) as H.
  assert (length (snd (@signed_ops Toy.sdk ToyAttest.crypto
      [(ToyAttest.signer, ToyAttest.record 1); (ToyAttest.signer, ToyAttest.record 2)] [])) = 2%nat) as Hn by by vm_compute.
  destruct (signed_ops _ _) as [rs records]. destruct H as [H _]. split; [exact Hn|exact H].
Defined.

Lemma revocation_tip_binds_witness :
  map revocation_signable_bytes ToyAttest.journal = map revocation_signable_bytes ToyAttest.journal
  \/ collision (@sha3_256 Toy.sdk).
Proof.
  apply (@revocation_tip_binds Toy.sdk ToyAttest.journal ToyAttest.journal);
    [by vm_compute|by vm_compute|repeat constructor|repeat constructor|done|done].
Defined.

Lemma registry_invariant_witness :
  @registry_ok Toy.sdk (foldl (fun r op => @reg_step Toy.sdk op r) ∅
    [RRegister (agent_new 0 "aa" "01" 0); RRegister (agent_new 0 "bb" "02" 0);
     RAddEndorsement 9 ToyAttest.signed_endorsement; RAddEndorsement 9 ToyAttest.signed_endorsement]).
Proof. apply (@registry_invariant Toy.sdk). repeat constructor. Defined.

Lemma registry_add_endorsement_spec_witness :
  let r := registry_register (agent_new 0 "aa" "01" 0) ∅ in
  let r' := snd (@registry_add_endorsement Toy.sdk 9 ToyAttest.signed_endorsement r) in
  fst (@registry_add_endorsement Toy.sdk 9 ToyAttest.signed_endorsement r) = Err (NotFound "bb") /\ r' <> r.
Proof.
  cbv zeta. set (r := registry_register (agent_new 0 "aa" "01" 0) ∅).
  pose proof (@registry_add_endorsement_spec Toy.sdk 9 ToyAttest.signed_endorsement r _ _
    (surjective_pairing (@registry_add_endorsement Toy.sdk 9 ToyAttest.signed_endorsement r))) as H.
  change (r !! en_endorser_fp ToyAttest.signed_endorsement) with (Some (agent_new 0 "aa" "01" 0)) in H.
  change (r !! en_endorsee_fp ToyAttest.signed_endorsement) with (@None AgentRecord) in H.
  destruct H as (-> & _ & Hn). by split.
Defined.

Lemma cookie_lifetime_witness :
  let s := MkCookieSecret (replicate 32 (byte_of 9)) None 0 120 in
  let s' := snd (force_rotate 5 (Ok (replicate 32 (byte_of 8))) s) in
  @verify_at ToyAttest.crypto s' "10.0.0.1" (@generate_at ToyAttest.crypto s "10.0.0.1" 100) 100 = true.
Proof.
  cbv zeta. set (s := MkCookieSecret _ _ _ _).
  destruct (@cookie_lifetime ToyAttest.crypto s (snd (force_rotate 5 (Ok (replicate 32 (byte_of 8))) s))
    "10.0.0.1" 100 101 5 (replicate 32 (byte_of 8))) as (_ & H & _);
    [done|done|done|by eexists|done|exact H].
Defined.

Lemma session_log_binds_witness :
  let es := [MkAuditEntry zeros32 0 1 zeros32 10 None; MkAuditEntry zeros32 1 1 zeros32 11 None] in
  let mine := @log_append_all Toy.sdk session_log_new es in
  @verify_chain Toy.sdk mine = Ok true /\ (map unsigned (sl_entries mine) = map unsigned (sl_entries mine) \/ collision (@sha3_256 Toy.sdk)).
Proof.
  cbv zeta. set (es := [MkAuditEntry zeros32 0 1 zeros32 10 None; MkAuditEntry zeros32 1 1 zeros32 11 None]).
  destruct (@session_log_binds Toy.sdk es (@log_append_all Toy.sdk session_log_new es)) as [H H'].
  split; [exact H|]. apply H'; [exact H|done|done|repeat constructor; done..].
Defined.
