(* ===== verification/Trust.v ===== *)
(** * The trust graph of origin-attest ([trust.rs])

    The endorsement graph, the thresholds for issuing Tier-2 endorsements,
    the degrees, and the breadth-first search for the shortest trust path.
    The numeric scores ([trust_score] and the balancing factors) are sums of
    doubles in hash-map order and are not modelled.  The [while] loops take
    fuel; the second half proves the fuel they are given is never used up. *)

From Stdlib Require Import Ascii String.
From S2P Require Import Prelude RustStr Bytes Sdk Attest.

(** The fields of [TrustGraphConfig] the modelled methods read. *)
Record TrustGraphConfig := MkTrustConfig { tg_max_hops : nat; tg_threshold : nat }.
Definition default_trust_config : TrustGraphConfig := MkTrustConfig 6 3.

Record TrustNode := MkNode {
  nd_fingerprint : string;
  nd_endorsements_received : list Endorsement;
  nd_endorsements_given : list Endorsement;
  nd_claims : list CapabilityClaim
}.
Definition node_new (fingerprint : string) : TrustNode := MkNode fingerprint [] [] [].

Record TrustGraph := MkTrustGraph {
  tg_nodes : gmap string TrustNode;
  tg_seed_fps : gset string;
  tg_config : TrustGraphConfig
}.

Definition trust_with_config (seed_fps : list string) (config : TrustGraphConfig) : TrustGraph :=
  MkTrustGraph ∅ (list_to_set seed_fps) config.
Definition trust_new (seed_fps : list string) : TrustGraph := trust_with_config seed_fps default_trust_config.

(** ** Building the graph *)

Definition ensure_node (fingerprint : string) (nodes : gmap string TrustNode) : gmap string TrustNode :=
  match nodes !! fingerprint with
  | Some _ => nodes
  | None => <[fingerprint := node_new fingerprint]> nodes
  end.

Definition push_given (e : Endorsement) (n : TrustNode) : TrustNode :=
  MkNode (nd_fingerprint n) (nd_endorsements_received n) (nd_endorsements_given n ++ [e]) (nd_claims n).
Definition push_received (e : Endorsement) (n : TrustNode) : TrustNode :=
  MkNode (nd_fingerprint n) (nd_endorsements_received n ++ [e]) (nd_endorsements_given n) (nd_claims n).
Definition push_claim (c : CapabilityClaim) (n : TrustNode) : TrustNode :=
  MkNode (nd_fingerprint n) (nd_endorsements_received n) (nd_endorsements_given n) (nd_claims n ++ [c]).

Definition with_nodes (g : TrustGraph) (nodes : gmap string TrustNode) : TrustGraph :=
  MkTrustGraph nodes (tg_seed_fps g) (tg_config g).

Definition trust_add_endorsement (g : TrustGraph) (e : Endorsement) : TrustGraph :=
  let nodes := ensure_node (en_endorser_fp e) (tg_nodes g) in
  let nodes := ensure_node (en_endorsee_fp e) nodes in
  let nodes := alter (push_given e) (en_endorser_fp e) nodes in
  let nodes := alter (push_received e) (en_endorsee_fp e) nodes in
  with_nodes g nodes.

Definition trust_add_claim (g : TrustGraph) (c : CapabilityClaim) : TrustGraph :=
  let nodes := ensure_node (cc_fingerprint c) (tg_nodes g) in
  with_nodes g (alter (push_claim c) (cc_fingerprint c) nodes).

(** ** Thresholds and degrees *)

Definition is_tier2 (e : Endorsement) : bool := bool_decide (en_tier e = Tier2).

Definition can_issue_tier2 (now : Z) (g : TrustGraph) (fingerprint : string) : bool :=
  match tg_nodes g !! fingerprint with
  | Some n => (tg_threshold (tg_config g) <=?
      length (List.filter (fun e => is_tier2 e && endorsement_is_valid e now) (nd_endorsements_received n)))%nat
  | None => false
  end.

Definition can_issue_tier2_in_domain (now : Z) (g : TrustGraph) (fingerprint domain : string) : bool :=
  match tg_nodes g !! fingerprint with
  | Some n => (tg_threshold (tg_config g) <=?
      length (List.filter (fun e => is_tier2 e && bool_decide (en_capability_domain e = domain) && endorsement_is_valid e now)
                (nd_endorsements_received n)))%nat
  | None => false
  end.

Definition out_degree (g : TrustGraph) (fingerprint : string) : nat :=
  match tg_nodes g !! fingerprint with Some n => length (nd_endorsements_given n) | None => 0 end.
Definition in_degree (g : TrustGraph) (fingerprint : string) : nat :=
  match tg_nodes g !! fingerprint with Some n => length (nd_endorsements_received n) | None => 0 end.
Definition total_degree (g : TrustGraph) (fingerprint : string) : nat :=
  (in_degree g fingerprint + out_degree g fingerprint)%nat.
Definition edge_count (g : TrustGraph) : nat :=
  foldr plus 0%nat (map (fun fn => length (nd_endorsements_given (snd fn))) (map_to_list (tg_nodes g))).

(** ** The shortest trust path *)

Definition trust_edge (domain : string) (now : Z) (e : Endorsement) : bool :=
  is_tier2 e && bool_decide (en_capability_domain e = domain) && endorsement_is_valid e now.

(** [adjacency.get(fp)]: an absent entry has no neighbours. *)
Definition adjacency (g : TrustGraph) (domain : string) (now : Z) (fp : string) : list string :=
  match tg_nodes g !! fp with
  | Some n => map en_endorsee_fp (List.filter (trust_edge domain now) (nd_endorsements_given n))
  | None => []
  end.

Record Bfs := MkBfs { visited : gset string; parent : gmap string string; queue : list string }.

(** [while let Some(&p) = parent.get(step)]. *)
Fixpoint trace (fuel : nat) (parent : gmap string string) (step : string) : option (list string) :=
  match fuel with
  | O => None
  | S fuel' =>
      match parent !! step with
      | None => Some [step]
      | Some p => cons step <$> trace fuel' parent p
      end
  end.

Inductive Visit := Continue (st : Bfs) | Reached (path : option (list string)).

(** [for &neighbor in neighbors], with the early return on [to]. *)
Fixpoint visit_neighbors (to current : string) (neighbors : list string) (st : Bfs) : Visit :=
  match neighbors with
  | [] => Continue st
  | neighbor :: rest =>
      if bool_decide (neighbor ∈ visited st) then visit_neighbors to current rest st
      else
        let visited' := {[neighbor]} ∪ visited st in
        let parent' := <[neighbor := current]> (parent st) in
        if bool_decide (neighbor = to) then
          Reached (@reverse string <$> trace (S (size parent')) parent' to)
        else visit_neighbors to current rest (MkBfs visited' parent' (queue st ++ [neighbor]))
  end.

(** The search loop; [None] is fuel used up. *)
Fixpoint search (fuel : nat) (adj : string -> list string) (to : string) (st : Bfs) : option (option (list string)) :=
  match fuel with
  | O => None
  | S fuel' =>
      match queue st with
      | [] => Some None
      | current :: rest =>
          match visit_neighbors to current (adj current) (MkBfs (visited st) (parent st) rest) with
          | Continue st' => search fuel' adj to st'
          | Reached (Some path) => Some (Some path)
          | Reached None => None
          end
      end
  end.

(** Every node is queued at most once: [from] and the endorsees. *)
Definition search_fuel (g : TrustGraph) : nat := (3 + edge_count g)%nat.

Definition shortest_trust_path (now : Z) (g : TrustGraph) (from to domain : string) : option (option (list string)) :=
  if bool_decide (from = to) then Some (Some [from])
  else search (search_fuel g) (adjacency g domain now) to (MkBfs {[from]} ∅ [from]).

(** ** The trust graph: the shortest path is shortest, the degrees count edges *)

(** ** Paths *)

Section Paths.
Context (adj : string -> list string).

(** Every agent endorses the next one. *)
Fixpoint linked (l : list string) : Prop :=
  match l with
  | x :: (y :: _) as t => y ∈ adj x /\ linked t
  | _ => True
  end.

Definition trust_path (from to : string) (l : list string) : Prop :=
  head l = Some from /\ last l = Some to /\ linked l.

Lemma linked_snoc (l : list string) (p x : string) :
  linked l -> last l = Some p -> x ∈ adj p -> linked (l ++ [x]).
Proof.
  induction l as [|a [|b l] IH]; intros Hl Hp Hx; [done| |].
  - cbn in *. by simplify_eq.
  - destruct Hl as [Hab Hl]. split; [done|]. by apply IH.
Qed.

Inductive walk (from : string) : nat -> string -> Prop :=
| walk_0 : walk from 0 from
| walk_S n x y : walk from n x -> y ∈ adj x -> walk from (S n) y.

Lemma linked_walk (from : string) (l : list string) (n : nat) (x : string) :
  linked (x :: l) -> walk from n x -> exists y, last (x :: l) = Some y /\ walk from (n + length l) y.
Proof.
  revert n x. induction l as [|y l IH]; intros n x Hl Hw.
  - exists x. cbn. by rewrite Nat.add_0_r.
  - destruct Hl as [Hxy Hl]. destruct (IH (S n) y Hl) as (z & Hz & Hw'); [by econstructor|].
    exists z. split; [done|]. cbn. by rewrite Nat.add_succ_r.
Qed.

Lemma trust_path_walk (from to : string) (l : list string) :
  trust_path from to l -> exists n, length l = S n /\ walk from n to.
Proof.
  destruct l as [|x l]; intros (Hh & Hl & Hk); [done|]. cbn in Hh. simplify_eq.
  destruct (linked_walk from l 0 from Hk (walk_0 _)) as (y & Hy & Hw). exists (length l). split; [done|].
  by simplify_eq.
Qed.

(** ** The invariant of the search

    [D] gives every visited agent its distance, [cur] is the agent being
    expanded, if any. *)
Context (from to : string).

Record inv (D : gmap string nat) (k : nat) (cur : list string) (st : Bfs) : Prop := {
  inv_dom : dom D = visited st;
  inv_from : D !! from = Some 0%nat;
  inv_root : parent st !! from = None;
  inv_parent x p : parent st !! x = Some p -> exists d, D !! p = Some d /\ D !! x = Some (S d) /\ x ∈ adj p;
  inv_has_parent x : x ∈ visited st -> x = from \/ is_Some (parent st !! x);
  inv_depth x d : D !! x = Some d -> (d <= size (parent st))%nat /\ (d <= S k)%nat;
  inv_queue : exists Q1 Q2, queue st = Q1 ++ Q2 /\ Forall (fun x => D !! x = Some k) (cur ++ Q1) /\
                            Forall (fun x => D !! x = Some (S k)) Q2;
  inv_done x d : D !! x = Some d -> x ∉ cur -> x ∉ queue st ->
                 forall y, y ∈ adj x -> exists d', D !! y = Some d' /\ (d' <= S d)%nat;
  inv_to : to ∉ visited st
}.

Lemma inv_init : from <> to -> inv {[from := 0%nat]} 0 [] (MkBfs {[from]} ∅ [from]).
Proof.
  intros Hne. split; cbn.
  - by rewrite dom_singleton_L.
  - apply lookup_singleton_eq.
  - done.
  - by intros x p ?.
  - intros x ->%elem_of_singleton. by left.
  - intros x d [<- <-]%lookup_singleton_Some. lia.
  - exists [from], []. split; [done|]. split; [|done]. constructor; [apply lookup_singleton_eq|done].
  - intros x d [<- <-]%lookup_singleton_Some _ Hq. exfalso. apply Hq. by constructor.
  - by intros ?%elem_of_singleton.
Qed.

(** What is left behind of a level: everything below it has been expanded. *)
Lemma inv_low (D : gmap string nat) (k : nat) (cur : list string) (st : Bfs) (x : string) (d : nat) :
  inv D k cur st -> D !! x = Some d -> (d < k)%nat -> (x ∉ cur) /\ (x ∉ queue st).
Proof.
  intros HI Hx Hd. destruct (inv_queue _ _ _ _ HI) as (Q1 & Q2 & -> & H1 & H2).
  apply Forall_app in H1 as [H0 H1]. rewrite Forall_forall in H0, H1, H2.
  split; [|rewrite elem_of_app; intros [Hq|Hq]; [apply H1 in Hq|apply H2 in Hq]; rewrite Hx in Hq; simplify_eq; lia].
  intros Hq%H0. rewrite Hx in Hq. simplify_eq. lia.
Qed.

Lemma inv_walk (D : gmap string nat) (k : nat) (cur : list string) (st : Bfs) (n : nat) (y : string) :
  inv D k cur st -> walk from n y -> (n <= k)%nat -> exists d, D !! y = Some d /\ (d <= n)%nat.
Proof.
  intros HI Hw. induction Hw as [|n x y Hw IH Hxy]; intros Hn.
  - exists 0%nat. split; [apply (inv_from _ _ _ _ HI)|lia].
  - destruct IH as (d & Hd & Hle); [lia|].
    destruct (inv_low _ _ _ _ _ _ HI Hd ltac:(lia)) as [Hc Hq].
    destruct (inv_done _ _ _ _ HI x d Hd Hc Hq y Hxy) as (d' & Hd' & Hle'). exists d'. split; [done|lia].
Qed.

(** Taking the front of the queue, with a new level when it was the first
    of the next one. *)
Lemma inv_pop (D : gmap string nat) (k : nat) (st : Bfs) (c : string) (rest : list string) :
  inv D k [] st -> queue st = c :: rest -> exists k', inv D k' [c] (MkBfs (visited st) (parent st) rest).
Proof.
  intros HI Hq. destruct (inv_queue _ _ _ _ HI) as (Q1 & Q2 & E & H1 & H2). rewrite Hq in E.
  assert (forall k' Q1' Q2', (k <= k')%nat -> rest = Q1' ++ Q2' -> Forall (fun x => D !! x = Some k') ([c] ++ Q1') ->
    Forall (fun x => D !! x = Some (S k')) Q2' -> inv D k' [c] (MkBfs (visited st) (parent st) rest)) as Hmk.
  { intros k' Q1' Q2' Hk -> HQ1 HQ2. destruct HI as [A B C E' F G _ K L]. split; cbn; try done.
    - intros x d Hd. apply G in Hd. lia.
    - eauto.
    - intros x d Hd Hc Hr. apply (K x d Hd); [apply not_elem_of_nil|]. rewrite Hq. rewrite not_elem_of_cons.
      split; [|done]. intros ->. apply Hc. by constructor. }
  destruct Q1 as [|c1 Q1]; cbn in E; simplify_eq.
  - exists (S k). apply Forall_cons in H2 as [Hc H2].
    apply (Hmk (S k) rest []); [lia|by rewrite app_nil_r|by constructor|done].
  - exists k. by apply (Hmk k Q1 Q2).
Qed.

(** ** Walking the parents back *)

Lemma trace_path (D : gmap string nat) (P : gmap string string) (fuel : nat) (x : string) (d : nat) :
  (forall x p, P !! x = Some p -> exists d, D !! p = Some d /\ D !! x = Some (S d) /\ x ∈ adj p) ->
  (forall x d, D !! x = Some d -> x = from \/ is_Some (P !! x)) -> P !! from = None -> D !! from = Some 0%nat ->
  D !! x = Some d -> (d < fuel)%nat ->
  exists l, trace fuel P x = Some l /\ length l = S d /\ trust_path from x (reverse l).
Proof.
  intros HP Hhas Hroot H0. revert x d. induction fuel as [|fuel IH]; intros x d Hx Hd; [lia|]. cbn [trace].
  destruct (P !! x) as [p|] eqn:Ep.
  - destruct (HP x p Ep) as (d' & Hp & Hx' & Hadj). rewrite Hx in Hx'. simplify_eq.
    destruct (IH p d' Hp ltac:(lia)) as (l & -> & Hlen & Hh & Hl & Hk). exists (x :: l). split; [done|].
    split; [cbn; lia|]. rewrite reverse_cons. split; [|split].
    + destruct (reverse l) eqn:E; [done|]. done.
    + apply last_snoc.
    + by apply (linked_snoc _ p).
  - destruct (Hhas x d Hx) as [->|Hs]; [|by rewrite Ep in Hs; destruct Hs]. rewrite H0 in Hx. simplify_eq.
    by exists [from].
Qed.

(** ** One expansion *)

Lemma inv_visit (D : gmap string nat) (k : nat) (c : string) (st : Bfs) (y : string) :
  inv D k [c] st -> y ∉ visited st -> y ∈ adj c ->
  let P' := <[y := c]> (parent st) in
  (y <> to -> inv (<[y := S k]> D) k [c] (MkBfs ({[y]} ∪ visited st) P' (queue st ++ [y]))) /\
  (y = to -> exists l, trace (S (size P')) P' to = Some l /\ length l = S (S k) /\ trust_path from to (reverse l)).
Proof.
  intros HI Hy Hc P'. pose proof HI as [A B C E F G H K L]. destruct H as (Q1 & Q2 & HQ & H1 & H2).
  assert (D !! y = None) as HyD by (apply not_elem_of_dom; by rewrite A).
  assert (D !! c = Some k) as HcD by (by apply Forall_cons in H1 as [? _]).
  assert (parent st !! y = None) as HyP.
  { destruct (parent st !! y) as [p|] eqn:Ep; [|done]. destruct (E y p Ep) as (d & _ & Hd & _). by rewrite HyD in Hd. }
  assert (y <> from) as Hyf by congruence. assert (y <> c) as Hyc by congruence.
  assert (forall x d, D !! x = Some d -> <[y := S k]> D !! x = Some d) as Hext.
  { intros x d Hx. rewrite lookup_insert_ne by congruence. done. }
  assert (forall x p, P' !! x = Some p ->
    exists d, <[y := S k]> D !! p = Some d /\ <[y := S k]> D !! x = Some (S d) /\ x ∈ adj p) as E'.
  { intros x p [[<- <-]|[Hne Hp]]%lookup_insert_Some.
    - exists k. split; [by apply Hext|]. split; [by rewrite lookup_insert_eq|done].
    - destruct (E x p Hp) as (d & Hd & Hx & Ha). exists d. split_and!; [by apply Hext..|done]. }
  assert (forall x d, <[y := S k]> D !! x = Some d -> (d <= size P')%nat /\ (d <= S k)%nat) as G'.
  { unfold P'. rewrite map_size_insert_None by done. intros x d [[<- <-]|[Hne Hx]]%lookup_insert_Some.
    - apply G in HcD. lia.
    - apply G in Hx. lia. }
  assert (P' !! from = None) as C' by (unfold P'; by rewrite lookup_insert_ne).
  assert (<[y := S k]> D !! from = Some 0%nat) as B' by (by apply Hext).
  assert (forall x, x ∈ {[y]} ∪ visited st -> x = from \/ is_Some (P' !! x)) as F'.
  { intros x [->%elem_of_singleton|Hx]%elem_of_union; unfold P'; [right; rewrite lookup_insert_eq; by eexists|].
    destruct (F x Hx) as [|[p Hp]]; [by left|right]. exists p. rewrite lookup_insert_ne by congruence. done. }
  split.
  - intros Hto. split; cbn; try done.
    + rewrite dom_insert_L. by rewrite A.
    + exists Q1, (Q2 ++ [y]). rewrite HQ, app_assoc. split; [done|]. split.
      * eapply Forall_impl; [exact H1|]. intros x. apply Hext.
      * apply Forall_app. split; [eapply Forall_impl; [exact H2|]; intros x; apply Hext|].
        constructor; [by rewrite lookup_insert_eq|done].
    + intros x d [[<- <-]|[Hne Hx]]%lookup_insert_Some Hcur Hq.
      * exfalso. apply Hq. apply elem_of_app. right. by constructor.
      * intros z Hz. destruct (K x d Hx Hcur) with (y := z) as (d' & Hd' & Hle); [|done|].
        { intros Hin. apply Hq. apply elem_of_app. by left. }
        exists d'. split; [by apply Hext|done].
    + intros [?%elem_of_singleton|?]%elem_of_union; [congruence|done].
  - intros <-. apply (trace_path (<[y := S k]> D)); try done.
    + intros x d Hx. apply F'. assert (x ∈ dom (<[y := S k]> D)) as Hd by (by eapply elem_of_dom_2).
      by rewrite dom_insert_L, A in Hd.
    + by rewrite lookup_insert_eq.
    + apply Nat.lt_succ_r. apply (G' y). by rewrite lookup_insert_eq.
Qed.

(** Room left: the queue, and the agents that may still enter it. *)
Context (U : gset string) (HU : forall x y, y ∈ adj x -> y ∈ U).
Definition room (st : Bfs) : nat := (length (queue st) + size (U ∖ visited st))%nat.

Lemma room_visit (st : Bfs) (P' : gmap string string) (x y : string) :
  y ∉ visited st -> y ∈ adj x -> room (MkBfs ({[y]} ∪ visited st) P' (queue st ++ [y])) = room st.
Proof.
  intros Hy Hx. unfold room. cbn. rewrite length_app. cbn.
  assert (U ∖ visited st = {[y]} ∪ (U ∖ ({[y]} ∪ visited st))) as E.
  { apply set_eq. intros z. pose proof (HU x y Hx) as Hin. rewrite elem_of_union, !elem_of_difference, elem_of_union, elem_of_singleton.
    destruct (decide (z = y)) as [->|]; [by split; [left|]|]. split; [intros [? ?]; right; split; [done|]; by intros [?|?]|].
    intros [?|[? Hn]]; [done|]. split; [done|]. intros ?. apply Hn. by right. }
  assert (size (U ∖ visited st) = S (size (U ∖ ({[y]} ∪ visited st)))) as E'.
  { rewrite E at 1. rewrite size_union by (intros z ->%elem_of_singleton [_ Hn]%elem_of_difference; apply Hn; apply elem_of_union; left; by apply elem_of_singleton). by rewrite size_singleton. }
  lia.
Qed.

Lemma visit_neighbors_spec (ns : list string) (D : gmap string nat) (k : nat) (c : string) (st : Bfs) :
  inv D k [c] st -> (forall y, y ∈ ns -> y ∈ adj c) ->
  match visit_neighbors to c ns st with
  | Continue st' => exists D', inv D' k [c] st' /\ D ⊆ D' /\ room st' = room st /\
      (forall y, y ∈ ns -> exists d, D' !! y = Some d /\ (d <= S k)%nat)
  | Reached o => exists p, o = Some p /\ trust_path from to p /\ length p = S (S k)
  end.
Proof.
  revert D st. induction ns as [|y ns IH]; intros D st HI Hns; cbn [visit_neighbors].
  { exists D. split_and!; [done|done|done|]. by intros y ?%elem_of_nil. }
  case_bool_decide as Hv.
  - specialize (IH D st HI ltac:(intros z Hz; apply Hns; by constructor)).
    destruct (visit_neighbors to c ns st); [|done]. destruct IH as (D' & HI' & Hsub & Hr & Hn).
    exists D'. split_and!; [done|done|done|]. intros z [->|Hz]%elem_of_cons; [|by apply Hn].
    rewrite <- (inv_dom _ _ _ _ HI) in Hv. apply elem_of_dom in Hv as [d Hd]. exists d.
    pose proof (lookup_weaken _ _ _ _ Hd Hsub) as Hd'. split; [done|].
    apply (inv_depth _ _ _ _ HI) in Hd. lia.
  - destruct (inv_visit D k c st y HI Hv ltac:(apply Hns; by constructor)) as [Hgo Hfound].
    case_bool_decide as Et.
    + destruct (Hfound Et) as (l & -> & Hlen & Hp). exists (reverse l). split; [done|]. split; [done|].
      by rewrite length_reverse.
    + specialize (IH _ _ (Hgo Et) ltac:(intros z Hz; apply Hns; by constructor)).
      destruct (visit_neighbors to c ns _); [|done]. destruct IH as (D' & HI' & Hsub & Hr & Hn).
      exists D'. split_and!; [done| | |].
      * etrans; [|exact Hsub]. apply insert_subseteq. apply not_elem_of_dom. by rewrite (inv_dom _ _ _ _ HI).
      * rewrite Hr. apply (room_visit _ _ c); [done|]. apply Hns. by constructor.
      * intros z [->|Hz]%elem_of_cons; [|by apply Hn]. exists (S k). split; [|lia].
        eapply lookup_weaken; [|exact Hsub]. by rewrite lookup_insert_eq.
Qed.

(** Every neighbour seen: the expanded agent needs no mark any more. *)
Lemma inv_finish (D : gmap string nat) (k : nat) (c : string) (st : Bfs) :
  inv D k [c] st -> (forall y, y ∈ adj c -> exists d, D !! y = Some d /\ (d <= S k)%nat) -> inv D k [] st.
Proof.
  intros [A B C E F G H K L] Hn. destruct H as (Q1 & Q2 & HQ & H1 & H2). cbn in H1.
  apply Forall_cons in H1 as [Hc H1]. split; try done; [by exists Q1, Q2|].
  intros x d Hx _ Hq y Hy. destruct (decide (x = c)) as [->|Hxc].
  - rewrite Hc in Hx. simplify_eq. by apply Hn.
  - apply (K x d Hx); [|done|done]. by intros ?%list_elem_of_singleton.
Qed.

(** ** The search loop *)

Definition search_ok (r : option (list string)) : Prop :=
  match r with
  | Some p => trust_path from to p /\ forall q, trust_path from to q -> (length p <= length q)%nat
  | None => forall q, ~ trust_path from to q
  end.

Lemma search_correct (fuel : nat) (D : gmap string nat) (k : nat) (st : Bfs) :
  inv D k [] st -> (room st < fuel)%nat -> exists r, search fuel adj to st = Some r /\ search_ok r.
Proof.
  revert D k st. induction fuel as [|fuel IH]; intros D k st HI Hf; [lia|]. cbn [search].
  destruct (queue st) as [|c rest] eqn:Eq.
  - exists None. split; [done|]. intros q Hq. apply trust_path_walk in Hq as (n & _ & Hw).
    assert (forall m y, walk from m y -> exists d, D !! y = Some d) as Hall.
    { induction 1 as [|m x y Hw' [d Hd] Hxy]; [eexists; apply (inv_from _ _ _ _ HI)|].
      destruct (inv_done _ _ _ _ HI x d Hd (not_elem_of_nil _)) with (y := y) as (d' & Hd' & _); [|done|eauto].
      rewrite Eq. apply not_elem_of_nil. }
    destruct (Hall n to Hw) as [d Hd].
    apply (inv_to _ _ _ _ HI). rewrite <- (inv_dom _ _ _ _ HI). by eapply elem_of_dom_2.
  - destruct (inv_pop D k st c rest HI Eq) as [k' HI'].
    pose proof (visit_neighbors_spec (adj c) D k' c _ HI' ltac:(done)) as Hv.
    destruct (visit_neighbors to c (adj c) _) as [st'|o].
    + destruct Hv as (D' & HI'' & _ & Hr & Hn). apply (IH D' k').
      * by apply (inv_finish _ _ c).
      * rewrite Hr. unfold room in *. rewrite Eq in Hf. cbn in *. lia.
    + destruct Hv as (p & -> & Hp & Hlen). exists (Some p). split; [done|]. split; [done|].
      intros q Hq. apply trust_path_walk in Hq as (n & -> & Hw). rewrite Hlen.
      destruct (decide (n <= k')%nat) as [Hn|]; [|lia]. exfalso.
      destruct (inv_walk _ _ _ _ _ _ HI' Hw Hn) as (d & Hd & _).
      apply (inv_to _ _ _ _ HI'). rewrite <- (inv_dom _ _ _ _ HI'). by eapply elem_of_dom_2.
Qed.

End Paths.

(** ** The shortest trust path *)

Definition all_endorsees (g : TrustGraph) : list string :=
  map_to_list (tg_nodes g) ≫= fun fn => map en_endorsee_fp (nd_endorsements_given (snd fn)).

Lemma adjacency_endorsees (g : TrustGraph) (domain : string) (now : Z) (x y : string) :
  y ∈ adjacency g domain now x -> y ∈ (list_to_set (all_endorsees g) : gset string).
Proof.
  unfold adjacency. destruct (tg_nodes g !! x) as [n|] eqn:En; [|by intros ?%elem_of_nil].
  intros (e & -> & He%list_elem_of_In)%list_elem_of_fmap. apply filter_In in He as [He _].
  apply elem_of_list_to_set, list_elem_of_bind. exists (x, n). split; [|by apply elem_of_map_to_list].
  apply list_elem_of_fmap. exists e. split; [done|]. by apply list_elem_of_In.
Qed.

Lemma list_to_set_size (l : list string) : (size (list_to_set l : gset string) <= length l)%nat.
Proof.
  induction l as [|x l IH]; [done|]. cbn. destruct (decide (x ∈ (list_to_set l : gset string))) as [Hx|Hx].
  - rewrite subseteq_union_1_L by (by intros ? ->%elem_of_singleton). lia.
  - rewrite size_union by (by intros ? ->%elem_of_singleton). rewrite size_singleton. lia.
Qed.

Lemma all_endorsees_count (g : TrustGraph) : length (all_endorsees g) = edge_count g.
Proof.
  unfold all_endorsees, edge_count. generalize (map_to_list (tg_nodes g)).
  induction l as [|[fp n] l IH]; [done|]. cbn. rewrite length_app, length_map. by rewrite <- IH.
Qed.

(** C17: The search always ends within its fuel, and its answer is right: a
    path it returns runs along valid Tier-2 endorsements of the domain from
    [from] to [to] and no other such path is shorter; when it returns none
    there is no such path. *)
Theorem shortest_trust_path_correct (now : Z) (g : TrustGraph) (from to domain : string) :
  exists r, shortest_trust_path now g from to domain = Some r /\
            search_ok (adjacency g domain now) from to r.
Proof.
  unfold shortest_trust_path. case_bool_decide as E.
  - subst to. exists (Some [from]). split; [done|]. split; [done|]. intros q Hq.
    apply trust_path_walk in Hq as (n & -> & _). cbn. lia.
  - apply (search_correct _ _ _ (list_to_set (all_endorsees g)) (adjacency_endorsees g domain now) _ {[from := 0%nat]} 0).
    + by apply inv_init.
    + unfold room, search_fuel. cbn. rewrite <- all_endorsees_count.
      pose proof (subseteq_size (list_to_set (all_endorsees g) ∖ {[from]} : gset string) (list_to_set (all_endorsees g))
        ltac:(by intros ? [? _]%elem_of_difference)).
      pose proof (list_to_set_size (all_endorsees g)). lia.
Qed.

(** ** Degrees *)

(** The endorsements of a graph, as they were added. *)
Definition trust_build (seeds : list string) (es : list Endorsement) : TrustGraph :=
  foldl trust_add_endorsement (trust_new seeds) es.

Definition given_by (fp : string) (es : list Endorsement) : list Endorsement :=
  List.filter (fun e => bool_decide (en_endorser_fp e = fp)) es.
Definition received_by (fp : string) (es : list Endorsement) : list Endorsement :=
  List.filter (fun e => bool_decide (en_endorsee_fp e = fp)) es.

Definition node_lists (o : option TrustNode) : list Endorsement * list Endorsement :=
  match o with Some n => (nd_endorsements_given n, nd_endorsements_received n) | None => ([], []) end.

Lemma ensure_node_lists (fp x : string) (nodes : gmap string TrustNode) :
  node_lists (ensure_node fp nodes !! x) = node_lists (nodes !! x).
Proof.
  unfold ensure_node. destruct (nodes !! fp) eqn:E; [done|]. destruct (decide (x = fp)) as [->|].
  - by rewrite lookup_insert_eq, E.
  - by rewrite lookup_insert_ne.
Qed.

Lemma ensure_node_some (fp x : string) (nodes : gmap string TrustNode) :
  x = fp \/ is_Some (nodes !! x) -> is_Some (ensure_node fp nodes !! x).
Proof.
  unfold ensure_node. destruct (nodes !! fp) eqn:E.
  - intros [->|H]; [by eexists|done].
  - intros [->|H]; [rewrite lookup_insert_eq; by eexists|].
    destruct (decide (x = fp)) as [->|]; [rewrite lookup_insert_eq; by eexists|by rewrite lookup_insert_ne].
Qed.

Lemma alter_lists (f : TrustNode -> TrustNode) (a b : list Endorsement) (fp x : string) (nodes : gmap string TrustNode) :
  is_Some (nodes !! fp) ->
  (forall n, nd_endorsements_given (f n) = nd_endorsements_given n ++ a /\
             nd_endorsements_received (f n) = nd_endorsements_received n ++ b) ->
  node_lists (alter f fp nodes !! x) =
  ((node_lists (nodes !! x)).1 ++ (if bool_decide (fp = x) then a else []),
   (node_lists (nodes !! x)).2 ++ (if bool_decide (fp = x) then b else [])).
Proof.
  intros [n Hn] Hf. case_bool_decide as E.
  - subst x. rewrite lookup_alter_eq, Hn. cbn. by destruct (Hf n) as [-> ->].
  - rewrite lookup_alter_ne by done. rewrite !app_nil_r. by destruct (node_lists _).
Qed.

Lemma add_endorsement_lists (g : TrustGraph) (e : Endorsement) (x : string) :
  node_lists (tg_nodes (trust_add_endorsement g e) !! x) =
  ((node_lists (tg_nodes g !! x)).1 ++ given_by x [e], (node_lists (tg_nodes g !! x)).2 ++ received_by x [e]).
Proof.
  unfold trust_add_endorsement. cbn [tg_nodes with_nodes].
  set (nodes := ensure_node (en_endorsee_fp e) (ensure_node (en_endorser_fp e) (tg_nodes g))).
  assert (is_Some (nodes !! en_endorser_fp e)) as H1 by (apply ensure_node_some; right; apply ensure_node_some; by left).
  assert (is_Some (nodes !! en_endorsee_fp e)) as H2 by (apply ensure_node_some; by left).
  rewrite (alter_lists (push_received e) [] [e]); [|by apply lookup_alter_is_Some|intros n; cbn; by rewrite app_nil_r].
  rewrite (alter_lists (push_given e) [e] []); [|done|intros n; cbn; by rewrite app_nil_r]. cbn [fst snd].
  unfold nodes. rewrite !ensure_node_lists. unfold given_by, received_by. cbn [List.filter].
  repeat case_bool_decide; by rewrite ?app_nil_r.
Qed.

(** After any endorsements, in any order, every agent's node lists exactly
    the endorsements it gave and received, so the degrees count them, and an
    agent may issue Tier-2 endorsements exactly when it has received the
    threshold of valid Tier-2 ones. *)
Theorem trust_graph_counts (seeds : list string) (es : list Endorsement) (fp domain : string) (now : Z) :
  let g := trust_build seeds es in
  out_degree g fp = length (given_by fp es) /\ in_degree g fp = length (received_by fp es) /\
  can_issue_tier2_in_domain now g fp domain =
    (3 <=? length (List.filter (trust_edge domain now) (received_by fp es)))%nat /\
  can_issue_tier2 now g fp =
    (3 <=? length (List.filter (fun e => is_tier2 e && endorsement_is_valid e now) (received_by fp es)))%nat.
Proof.
  cbn zeta. assert (node_lists (tg_nodes (trust_build seeds es) !! fp) = (given_by fp es, received_by fp es) /\
    tg_config (trust_build seeds es) = default_trust_config) as [E Ec].
  { unfold trust_build. induction es as [|e es IH] using rev_ind; [done|]. destruct IH as [IH IHc].
    rewrite foldl_app. cbn [foldl]. split; [|done]. rewrite add_endorsement_lists, IH. cbn [fst snd].
    unfold given_by, received_by. by rewrite !List.filter_app. }
  unfold out_degree, in_degree, can_issue_tier2, can_issue_tier2_in_domain. rewrite Ec.
  destruct (tg_nodes _ !! fp) as [n|]; cbn in E; injection E as <- <-; done.
Qed.

(** A vouches for B, who vouches for C; C's endorsement of D has expired. *)
Definition toy_vouch (a b : string) (until : Z) : Endorsement :=
  MkEndorsement Tier2 a b "code" 0 "" 5 until [] 1 [] false None.
Definition toy_graph : TrustGraph :=
  trust_build [] [toy_vouch "A" "C" 20; toy_vouch "A" "B" 0; toy_vouch "B" "C" 0; toy_vouch "C" "A" 0; toy_vouch "C" "D" 9].

Example toy_paths :
  shortest_trust_path 10 toy_graph "A" "C" "code" = Some (Some ["A"; "C"]%string) /\
  shortest_trust_path 30 toy_graph "A" "C" "code" = Some (Some ["A"; "B"; "C"]%string) /\
  shortest_trust_path 10 toy_graph "A" "D" "code" = Some None.
Proof. by vm_compute. Qed.
