(* ===== verification/VcsMerge.v ===== *)
(** * Textual three-way merge (origin-vcs/src/textmerge.rs)

    Line counts and table entries are natural numbers: a [u32] entry is at
    most the number of lines of a file in memory.  The backtrace loop takes
    fuel; [backtrace_total] shows [n + m] steps are enough. *)

From Stdlib Require Import Ascii String.
From S2P Require Import Prelude RustStr Bytes.

Definition line : Type := bytes.
Definition newline : ascii := byte_of 10.

Inductive Edit := Keep | Replace (lines : list line).

#[global] Instance Edit_eq_dec : EqDecision Edit.
Proof. solve_decision. Defined.

(** ** Lines *)

(** The loop of [split_lines]: [cur] is [bytes[start..i]]. *)
Fixpoint split_from (cur : bytes) (l : bytes) : list line :=
  match l with
  | [] => if bool_decide (cur = []) then [] else [cur]
  | c :: l' => if bool_decide (c = newline) then (cur ++ [c]) :: split_from [] l' else split_from (cur ++ [c]) l'
  end.

Definition split_lines (b : bytes) : list line :=
  if bool_decide (b = []) then [[]] else split_from [] b.

(** ** The edit script *)

(** A row of the table from the row below it, last column first. *)
Fixpoint dp_row (b : line) (target : list line) (below : list nat) : list nat :=
  match target, below with
  | t :: ts, d :: below' =>
      let row := dp_row b ts below' in
      (if bool_decide (b = t) then S (hd 0%nat below') else Nat.max d (hd 0%nat row)) :: row
  | _, _ => [0%nat]
  end.

Fixpoint dp_table (base target : list line) : list (list nat) :=
  match base with
  | [] => [replicate (S (length target)) 0%nat]
  | b :: bs => let t := dp_table bs target in dp_row b target (hd [] t) :: t
  end.

Definition dp_get (dp : list (list nat)) (i j : nat) : nat := nth j (nth i dp []) 0%nat.

(** [while i < n]; the result is the edits and the insertions still held. *)
Fixpoint backtrace (fuel : nat) (base target : list line) (dp : list (list nat)) (i j : nat)
    (held : list line) (edits : list Edit) : option (list Edit * list line) :=
  let n := length base in let m := length target in
  match fuel with
  | O => None
  | S fuel' =>
      if (i <? n)%nat then
        if (j <? m)%nat && bool_decide (base !! i = target !! j)
           && (dp_get dp i j =? dp_get dp (i + 1) (j + 1) + 1)%nat then
          backtrace fuel' base target dp (i + 1) (j + 1) []
            (edits ++ [if bool_decide (held = []) then Keep else Replace held])
        else if (j <? m)%nat && ((i =? n)%nat || (dp_get dp (i + 1) j <=? dp_get dp i (j + 1))%nat) then
          backtrace fuel' base target dp i (j + 1) (held ++ [nth j target []]) edits
        else backtrace fuel' base target dp (i + 1) j [] (edits ++ [Replace held])
      else Some (edits, held)
  end.

(** [edits.last_mut()]: the held insertions go to a last [Replace], or
    become one. *)
Definition flush_held (edits : list Edit) (held : list line) : list Edit :=
  if bool_decide (held = []) then edits
  else match last edits with
       | Some (Replace lines) => removelast edits ++ [Replace (lines ++ held)]
       | _ => edits ++ [Replace held]
       end.

Definition myers (base target : list line) : option (list Edit) :=
  let n := length base in let m := length target in
  if (n =? 0)%nat then Some []
  else '(edits, held) ← backtrace (S (n + m)) base target (dp_table base target) 0 0 [] [];
       Some (flush_held edits held).

(** ** The fold *)

Definition ours_marker : bytes := as_bytes "<<<<<<< ours" ++ [newline].
Definition sep_marker : bytes := as_bytes "=======" ++ [newline].
Definition theirs_marker : bytes := as_bytes ">>>>>>> theirs" ++ [newline].

(** One base line: the bytes it contributes and whether it conflicts. *)
Definition fold_line (base_line : line) (oe te : Edit) : bytes * bool :=
  match oe, te with
  | Keep, Keep => (base_line, false)
  | Replace ov, Keep => (concat ov, false)
  | Keep, Replace tv => (concat tv, false)
  | Replace ov, Replace tv =>
      if bool_decide (ov = tv) then (concat ov, false)
      else (ours_marker ++ concat ov ++ sep_marker ++ concat tv ++ theirs_marker, true)
  end.

(** [ours.get(bi).cloned().unwrap_or(Edit::Keep)]. *)
Definition next_edit (es : list Edit) : Edit := match es with e :: _ => e | [] => Keep end.

Fixpoint fold_edits (base : list line) (ours theirs : list Edit) : bytes * bool :=
  match base with
  | [] => ([], false)
  | b :: bs =>
      let '(out, c) := fold_line b (next_edit ours) (next_edit theirs) in
      let '(out', c') := fold_edits bs (tail ours) (tail theirs) in
      (out ++ out', c || c')
  end.

Definition merge_lines (base ours theirs : bytes) : option (bytes * bool) :=
  if bool_decide (base = ours) then Some (theirs, false)
  else if bool_decide (base = theirs) then Some (ours, false)
  else if bool_decide (ours = theirs) then Some (ours, false)
  else
    let b := split_lines base in
    ours_edit ← myers b (split_lines ours);
    theirs_edit ← myers b (split_lines theirs);
    Some (fold_edits b ours_edit theirs_edit).

(** ** Tried on inputs *)

Example merge_disjoint :
  merge_lines (as_bytes "a" ++ [newline] ++ as_bytes "b" ++ [newline] ++ as_bytes "c")
              (as_bytes "x" ++ [newline] ++ as_bytes "b" ++ [newline] ++ as_bytes "c")
              (as_bytes "a" ++ [newline] ++ as_bytes "b" ++ [newline] ++ as_bytes "z")
  = Some (as_bytes "x" ++ [newline] ++ as_bytes "b" ++ [newline] ++ as_bytes "z", false).
Proof. by vm_compute. Qed.

(** ** What the three-way merge does, and what it loses *)

(** ** Lines *)

Lemma split_from_concat (cur l : bytes) : concat (split_from cur l) = cur ++ l.
Proof.
  revert cur. induction l as [|c l IH]; intros cur; cbn [split_from].
  - case_bool_decide; [by subst|]. cbn. done.
  - case_bool_decide; cbn; rewrite IH; by rewrite <- app_assoc.
Qed.

(** A line is not empty and its only newline is its last byte. *)
Definition whole_line (l : line) : Prop :=
  l <> [] /\ exists body, (newline ∉ body) /\ (l = body \/ l = body ++ [newline]).

Lemma split_from_whole (cur l : bytes) : newline ∉ cur -> Forall whole_line (split_from cur l).
Proof.
  revert cur. induction l as [|c l IH]; intros cur Hc; cbn [split_from].
  - case_bool_decide; [done|]. constructor; [|done]. split; [done|]. exists cur. auto.
  - case_bool_decide as E.
    + subst c. constructor; [|apply IH, not_elem_of_nil].
      split; [by destruct cur|]. exists cur. auto.
    + apply IH. rewrite not_elem_of_app, list_elem_of_singleton. split; [done|]. congruence.
Qed.

(** Splitting loses nothing and cuts only behind newlines. *)
Theorem split_lines_roundtrip (b : bytes) :
  concat (split_lines b) = b /\ (b <> [] -> Forall whole_line (split_lines b)).
Proof.
  unfold split_lines. case_bool_decide as E; [by subst|]. split; [apply split_from_concat|].
  intros _. apply split_from_whole, not_elem_of_nil.
Qed.

Lemma split_from_line (cur l : bytes) (rest : bytes) :
  newline ∉ l -> split_from cur (l ++ newline :: rest) = (cur ++ l ++ [newline]) :: split_from [] rest.
Proof.
  revert cur. induction l as [|c l IH]; intros cur Hl; cbn [app split_from].
  - by rewrite bool_decide_eq_true_2.
  - apply not_elem_of_cons in Hl as [Hc Hl]. rewrite bool_decide_eq_false_2 by congruence.
    rewrite IH by done. by rewrite <- app_assoc.
Qed.

Lemma split_from_concat_lines (ls : list line) :
  Forall (fun l => exists body, (newline ∉ body) /\ l = body ++ [newline]) ls -> split_from [] (concat ls) = ls.
Proof.
  induction 1 as [|l ls (body & Hb & ->) Hls IH]; [done|]. cbn [concat].
  rewrite <- app_assoc. cbn [app]. rewrite split_from_line by done. by rewrite IH.
Qed.

(** ** The table is the length of a longest common subsequence *)

Fixpoint lcs (a b : list line) : nat :=
  match a with
  | [] => 0
  | x :: a' => (fix go (b : list line) : nat :=
      match b with
      | [] => 0
      | y :: b' => if bool_decide (x = y) then S (lcs a' b') else Nat.max (lcs a' b) (go b')
      end) b
  end%nat.

Lemma lcs_nil_r (a : list line) : lcs a [] = 0%nat.
Proof. by destruct a. Qed.

Lemma dp_row_spec (x : line) (a ts : list line) (below : list nat) :
  below = map (fun j => lcs a (drop j ts)) (seq 0 (S (length ts))) ->
  dp_row x ts below = map (fun j => lcs (x :: a) (drop j ts)) (seq 0 (S (length ts))).
Proof.
  revert below. induction ts as [|t ts IH]; intros below ->; [done|].
  cbn [length]. rewrite <- !(cons_seq (S (length ts))). cbn [map]. rewrite <- !seq_shift, !map_map. cbn [drop].
  cbn [dp_row]. rewrite (IH _ eq_refl). done.
Qed.

Lemma map_seq_const {A : Type} (x : A) (k n : nat) : map (fun _ => x) (seq k n) = replicate n x.
Proof. revert k. induction n as [|n IH]; intros k; cbn; [done|]. by rewrite IH. Qed.

Lemma dp_table_spec (a ts : list line) :
  dp_table a ts = map (fun i => map (fun j => lcs (drop i a) (drop j ts)) (seq 0 (S (length ts)))) (seq 0 (S (length a))).
Proof.
  induction a as [|x a IH].
  - cbn [dp_table length seq map drop]. f_equal. symmetry. apply (map_seq_const 0%nat 0 (S (length ts))).
  - cbn [dp_table length]. rewrite <- (cons_seq (S (length a))). cbn [map]. rewrite <- seq_shift, map_map. cbn [drop].
    rewrite <- IH. f_equal. apply dp_row_spec. rewrite IH. cbn [seq map hd]. by rewrite drop_0.
Qed.

Lemma dp_get_lcs (a ts : list line) (i j : nat) :
  (i <= length a)%nat -> (j <= length ts)%nat -> dp_get (dp_table a ts) i j = lcs (drop i a) (drop j ts).
Proof.
  intros Hi Hj. unfold dp_get. rewrite dp_table_spec.
  rewrite (nth_indep _ [] (map (fun j => lcs (drop 0 a) (drop j ts)) (seq 0 (S (length ts)))))
    by (rewrite length_map, length_seq; lia).
  rewrite (map_nth (fun i => map (fun j => lcs (drop i a) (drop j ts)) (seq 0 (S (length ts))))).
  rewrite seq_nth by lia. cbn [Nat.add].
  rewrite (nth_indep _ 0%nat (lcs (drop i a) (drop 0 ts))) by (rewrite length_map, length_seq; lia).
  rewrite (map_nth (fun j => lcs (drop i a) (drop j ts))). by rewrite seq_nth by lia.
Qed.

Lemma lcs_cons (x y : line) (a b : list line) :
  lcs (x :: a) (y :: b) = if bool_decide (x = y) then S (lcs a b) else Nat.max (lcs a (y :: b)) (lcs (x :: a) b).
Proof. done. Qed.

Lemma lcs_attained (a b : list line) : exists c, c `sublist_of` a /\ c `sublist_of` b /\ length c = lcs a b.
Proof.
  revert b. induction a as [|x a IHa]; intros b; [exists []; auto using sublist_nil_l|].
  induction b as [|y b IHb]; [exists []; auto using sublist_nil_l|]. rewrite lcs_cons.
  case_bool_decide as E.
  - subst y. destruct (IHa b) as (c & H1 & H2 & H3). exists (x :: c). cbn. split_and!; [by constructor..|lia].
  - destruct (IHa (y :: b)) as (c & H1 & H2 & H3), IHb as (d & H4 & H5 & H6).
    destruct (Nat.max_spec (lcs a (y :: b)) (lcs (x :: a) b)) as [[_ ->]|[_ ->]].
    + exists d. split_and!; [done|by constructor|done].
    + exists c. split_and!; [by constructor|done|done].
Qed.

Lemma sublist_tail {A : Type} (z x : A) (c a : list A) : z :: c `sublist_of` x :: a -> c `sublist_of` a.
Proof.
  inversion 1; subst; [done|]. etrans; [|eassumption]. by constructor.
Qed.

Lemma sublist_cons_ne {A : Type} (z x : A) (c a : list A) : z <> x -> z :: c `sublist_of` x :: a -> z :: c `sublist_of` a.
Proof. intros Hne. inversion 1; by subst. Qed.

Lemma lcs_bound (a b c : list line) : c `sublist_of` a -> c `sublist_of` b -> (length c <= lcs a b)%nat.
Proof.
  revert b c. induction a as [|x a IHa]; intros b c Ha Hb; [by apply sublist_nil_r in Ha as ->|].
  revert c Ha Hb. induction b as [|y b IHb]; intros c Ha Hb; [by apply sublist_nil_r in Hb as ->|].
  destruct c as [|z c]; [cbn; lia|]. rewrite lcs_cons. case_bool_decide as E.
  - apply le_n_S. apply IHa; by eapply sublist_tail.
  - destruct (decide (z = x)) as [->|Hz].
    + transitivity (lcs (x :: a) b); [|lia]. apply IHb; [done|]. by apply (sublist_cons_ne x y).
    + transitivity (lcs a (y :: b)); [|lia]. apply IHa; [|done]. by apply (sublist_cons_ne z x).
Qed.

(** The table of [myers]: entry [(i, j)] is the length of a longest common
    subsequence of the lines from [i] and from [j] on. *)
Theorem dp_table_is_lcs (base target : list line) (i j : nat) :
  (i <= length base)%nat -> (j <= length target)%nat ->
  let v := dp_get (dp_table base target) i j in
  (exists c, c `sublist_of` drop i base /\ c `sublist_of` drop j target /\ length c = v) /\
  (forall c, c `sublist_of` drop i base -> c `sublist_of` drop j target -> (length c <= v)%nat).
Proof.
  intros Hi Hj. cbn zeta. rewrite dp_get_lcs by done. split; [apply lcs_attained|]. intros c. apply lcs_bound.
Qed.

(** ** The backtrace *)

Lemma backtrace_total (base target : list line) (dp : list (list nat)) (fuel i j : nat) (held : list line) (edits : list Edit) :
  (i <= length base)%nat -> (j <= length target)%nat -> (length base - i + (length target - j) < fuel)%nat ->
  length edits = i -> (i = length base -> held = []) ->
  exists edits', backtrace fuel base target dp i j held edits = Some (edits', []) /\ length edits' = length base.
Proof.
  revert i j held edits. induction fuel as [|fuel IH]; intros i j held edits Hi Hj Hf Hl Hh; [lia|]. cbn [backtrace].
  destruct (Nat.ltb_spec i (length base)) as [Hi'|Hi']; [|exists edits; rewrite Hh by lia; split; [done|lia]].
  destruct (Nat.ltb_spec j (length target)) as [Hj'|Hj']; cbn [andb].
  - destruct (_ && _).
    + apply IH; [lia|lia|lia|rewrite length_app; cbn; lia|done].
    + destruct (_ || _); apply IH; [lia..| |lia|lia|lia| |done]; [lia|rewrite length_app; cbn; lia].
  - apply IH; [lia|lia|lia|rewrite length_app; cbn; lia|done].
Qed.

Lemma myers_total (base target : list line) :
  exists es, myers base target = Some es /\ length es = length base /\
  (base <> [] -> backtrace (S (length base + length target)) base target (dp_table base target) 0 0 [] [] = Some (es, [])).
Proof.
  unfold myers. destruct (Nat.eqb_spec (length base) 0) as [E|E].
  - exists []. rewrite E. split; [done|]. split; [done|]. by destruct base.
  - destruct (backtrace_total base target (dp_table base target) (S (length base + length target)) 0 0 [] [])
      as (es & -> & Hl); [lia..|done|lia|]. exists es. split; [done|]. by split.
Qed.

(** ** Line substitutions

    [target] replaces some lines of [base] by lines that do not occur in it. *)

Definition subst_of (base bs ts : list line) : Prop := Forall2 (fun b t => t = b \/ t ∉ base) bs ts.

Fixpoint run (bs ts : list line) : list line :=
  match bs, ts with
  | b :: bs', t :: ts' => if bool_decide (b = t) then [] else t :: run bs' ts'
  | _, _ => []
  end.

(** The script of a substitution: the lines of a run of replaced lines are
    all attached to the first of them. *)
Fixpoint script (in_run : bool) (bs ts : list line) : list Edit :=
  match bs, ts with
  | b :: bs', t :: ts' =>
      if bool_decide (b = t) then Keep :: script false bs' ts'
      else Replace (if in_run then [] else t :: run bs' ts') :: script true bs' ts'
  | _, _ => []
  end.

Fixpoint common (bs ts : list line) : list line :=
  match bs, ts with
  | b :: bs', t :: ts' => if bool_decide (b = t) then t :: common bs' ts' else common bs' ts'
  | _, _ => []
  end.

Lemma common_sublist (bs ts : list line) : common bs ts `sublist_of` bs /\ common bs ts `sublist_of` ts.
Proof.
  revert ts. induction bs as [|b bs IH]; intros [|t ts]; cbn; try (split; apply sublist_nil_l).
  destruct (IH ts). case_bool_decide; [subst|]; by split; constructor.
Qed.

Lemma sublist_filter {A : Type} (P : A -> Prop) `{forall x, Decision (P x)} (c l : list A) :
  c `sublist_of` l -> Forall P c -> c `sublist_of` filter P l.
Proof.
  induction 1 as [|x c l Hs IH|x c l Hs IH]; intros Hc; [apply sublist_nil_l| |].
  - apply Forall_cons in Hc as [Hx Hc]. rewrite filter_cons_True by done. constructor. by apply IH.
  - rewrite filter_cons. case_decide; [constructor|]; by apply IH.
Qed.

Lemma common_filter (base bs ts : list line) :
  (forall b, b ∈ bs -> b ∈ base) -> subst_of base bs ts -> filter (fun t => t ∈ base) ts = common bs ts.
Proof.
  intros Hb Hs. induction Hs as [|b t bs ts [->|Ht] Hs IH]; [done| |]; cbn [common].
  - rewrite filter_cons_True by (apply Hb; by constructor). rewrite bool_decide_eq_true_2 by done.
    f_equal. apply IH. intros. apply Hb. by constructor.
  - rewrite filter_cons_False by done. rewrite bool_decide_eq_false_2; [|intros ->; apply Ht, Hb; by constructor].
    apply IH. intros. apply Hb. by constructor.
Qed.

Section Substitution.
Context (base target : list line) (ND : NoDup base) (SU : subst_of base base target).

Lemma subst_len : length target = length base.
Proof. symmetry. by eapply Forall2_length. Qed.

Definition tail_common (j : nat) : nat := length (common (drop j base) (drop j target)).

Lemma lcs_upper (i j : nat) : (lcs (drop i base) (drop j target) <= tail_common j)%nat.
Proof.
  destruct (lcs_attained (drop i base) (drop j target)) as (c & H1 & H2 & <-). unfold tail_common.
  rewrite <- (common_filter base (drop j base) (drop j target)).
  - apply sublist_length. apply sublist_filter; [done|]. apply Forall_forall. intros x Hx.
    assert (c `sublist_of` base) as Hs by (etrans; [exact H1|apply sublist_drop]).
    by eapply elem_of_sublist.
  - intros b Hb. eapply elem_of_sublist; [exact Hb|apply sublist_drop].
  - by apply Forall2_drop.
Qed.

Lemma lcs_tail (i j : nat) : (i <= j)%nat -> lcs (drop i base) (drop j target) = tail_common j.
Proof.
  intros Hij. apply Nat.le_antisymm; [apply lcs_upper|]. unfold tail_common.
  destruct (common_sublist (drop j base) (drop j target)) as [H1 H2].
  apply lcs_bound; [|done]. etrans; [exact H1|].
  replace j with (i + (j - i))%nat by lia. rewrite <- drop_drop. apply sublist_drop.
Qed.

Lemma drop_pair (j : nat) : (j < length base)%nat ->
  exists b t, base !! j = Some b /\ target !! j = Some t /\ (t = b \/ t ∉ base) /\ b ∈ base /\
  drop j base = b :: drop (j + 1) base /\ drop j target = t :: drop (j + 1) target /\
  tail_common j = (if bool_decide (b = t) then S (tail_common (j + 1)) else tail_common (j + 1)).
Proof.
  intros Hj. destruct (lookup_lt_is_Some_2 base j Hj) as [b Hb].
  destruct (lookup_lt_is_Some_2 target j ltac:(rewrite subst_len; done)) as [t Ht]. exists b, t.
  assert (drop j base = b :: drop (j + 1) base) as Eb by (rewrite Nat.add_1_r; by apply drop_S).
  assert (drop j target = t :: drop (j + 1) target) as Et by (rewrite Nat.add_1_r; by apply drop_S).
  split_and!; try done; [by eapply (Forall2_lookup_lr _ _ _ _ _ _ SU)|by eapply list_elem_of_lookup_2|].
  unfold tail_common. rewrite Eb, Et. cbn [common]. by case_bool_decide.
Qed.

Lemma backtrace_subst (fuel i j : nat) (held : list line) (edits : list Edit) :
  (i <= j <= length base)%nat -> (length base - i + (length base - j) < fuel)%nat ->
  (i = j -> held = []) ->
  (forall k, (i <= k < j)%nat -> base !! k <> target !! k) ->
  backtrace fuel base target (dp_table base target) i j held edits =
  Some (edits ++ (if (i =? j)%nat then script false (drop i base) (drop i target)
                  else Replace (held ++ run (drop j base) (drop j target))
                       :: script true (drop (i + 1) base) (drop (i + 1) target)), []).
Proof.
  revert i j held edits. induction fuel as [|fuel IH]; intros i j held edits Hij Hf Hh Hrun; [lia|].
  cbn [backtrace]. rewrite subst_len.
  destruct (Nat.ltb_spec i (length base)) as [Hi|Hi].
  2:{ assert (i = j) as <- by lia. rewrite Nat.eqb_refl, Hh by done.
      rewrite drop_ge by lia. cbn. by rewrite app_nil_r. }
  destruct (Nat.ltb_spec j (length base)) as [Hj|Hj]; cbn [andb].
  - destruct (drop_pair j Hj) as (b & t & Hb & Ht & Hbt & Hbb & Eb & Et & Ec).
    rewrite !dp_get_lcs by (rewrite ?subst_len; lia). rewrite (lcs_tail i j), (lcs_tail (i + 1) (j + 1)) by lia.
    destruct (decide (b = t)) as [<-|Hne].
    + rewrite bool_decide_eq_true_2 in Ec by done. destruct (Nat.eqb_spec i j) as [<-|Hne].
      * rewrite bool_decide_eq_true_2 by congruence. rewrite Ec. cbn [andb].
        replace (S (tail_common (i + 1)) =? tail_common (i + 1) + 1)%nat with true by (symmetry; apply Nat.eqb_eq; lia).
        rewrite Hh, bool_decide_eq_true_2 by done. rewrite IH by (try done; lia).
        rewrite Nat.eqb_refl, Eb, Et. cbn [script]. rewrite bool_decide_eq_true_2 by done. by rewrite <- app_assoc.
      * rewrite bool_decide_eq_false_2; [|intros E; apply Hne; eapply NoDup_lookup; [exact ND|rewrite E; exact Ht|exact Hb]].
        cbn [andb]. rewrite (lcs_tail i (j + 1)), (lcs_tail (i + 1) j) by lia. rewrite Ec.
        replace (i =? length base)%nat with false by (symmetry; apply Nat.eqb_neq; lia).
        destruct (Nat.leb_spec (S (tail_common (j + 1))) (tail_common (j + 1))); [lia|]. cbn [orb].
        rewrite IH; [|lia|lia|done|intros k Hk; apply Hrun; lia].
        rewrite Eb, Et. cbn [run]. rewrite (bool_decide_eq_true_2 (b = b)) by done. rewrite !app_nil_r, <- app_assoc. cbn [app].
        do 4 f_equal. destruct (Nat.eqb_spec (i + 1) j) as [<-|Hne'].
        -- rewrite Eb, Et. cbn [script]. by rewrite bool_decide_eq_true_2.
        -- destruct (drop_pair (i + 1) ltac:(lia)) as (b' & t' & Hb' & Ht' & _ & _ & -> & -> & _). cbn [script].
           rewrite bool_decide_eq_false_2; [done|]. intros ->. apply (Hrun (i + 1)%nat); [lia|congruence].
    + rewrite bool_decide_eq_false_2 in Ec by done. destruct Hbt as [|Hfresh]; [congruence|].
      rewrite bool_decide_eq_false_2.
      2:{ intros E. apply Hfresh. rewrite Ht in E. by eapply list_elem_of_lookup_2. }
      cbn [andb]. rewrite (lcs_tail i (j + 1)) by lia. pose proof (lcs_upper (i + 1) j) as Hu. rewrite Ec in Hu.
      destruct (Nat.leb_spec (lcs (drop (i + 1) base) (drop j target)) (tail_common (j + 1))); [|lia].
      rewrite orb_true_r. rewrite (nth_lookup_Some _ _ _ _ Ht).
      rewrite IH; [|lia|lia|lia|].
      * replace (i =? j + 1)%nat with false by (symmetry; apply Nat.eqb_neq; lia).
        destruct (Nat.eqb_spec i j) as [<-|Hne'].
        -- rewrite Hh by done. rewrite Eb, Et. cbn [script app]. by rewrite bool_decide_eq_false_2.
        -- rewrite Eb, Et. cbn [run]. rewrite (bool_decide_eq_false_2 (b = t)) by done. by rewrite <- app_assoc.
      * intros k Hk. destruct (decide (k = j)) as [->|]; [congruence|]. apply Hrun. lia.
  - assert (j = length base) as -> by lia. rewrite (drop_ge base (length base)), (drop_ge target (length base)) by (rewrite ?subst_len; lia).
    rewrite IH; [|lia|lia|done|intros k Hk; apply Hrun; lia].
    replace (i =? length base)%nat with false by (symmetry; apply Nat.eqb_neq; lia). cbn [run]. rewrite !app_nil_r, <- app_assoc. cbn [app].
    do 4 f_equal. destruct (Nat.eqb_spec (i + 1) (length base)) as [E|Hne'].
    + rewrite E, drop_ge by lia. done.
    + rewrite (drop_ge base (length base)), (drop_ge target (length base)) by (rewrite ?subst_len; lia). cbn [run].
      destruct (drop_pair (i + 1) ltac:(lia)) as (b' & t' & Hb' & Ht' & _ & _ & -> & -> & _). cbn [script].
      rewrite bool_decide_eq_false_2; [done|]. intros ->. apply (Hrun (i + 1)%nat); [lia|congruence].
Qed.

Lemma myers_subst : myers base target = Some (script false base target).
Proof.
  unfold myers. destruct (Nat.eqb_spec (length base) 0) as [E|E]; [by destruct base|].
  rewrite subst_len, backtrace_subst; [|lia..|done|lia]. cbn. done.
Qed.

End Substitution.

(** ** Folding two scripts *)

(** The line a reader expects: theirs where ours left the line alone. *)
Fixpoint merge3 (bs os ts : list line) : list line :=
  match bs, os, ts with
  | b :: bs', o :: os', t :: ts' => (if bool_decide (o = b) then t else o) :: merge3 bs' os' ts'
  | _, _, _ => []
  end.

(** At every line at most one side differs from the base. *)
Fixpoint disjoint_edits (bs os ts : list line) : Prop :=
  match bs, os, ts with
  | b :: bs', o :: os', t :: ts' => (o = b \/ t = b) /\ disjoint_edits bs' os' ts'
  | [], [], [] => True
  | _, _, _ => False
  end.

Definition pend (in_run : bool) (bs ts : list line) : bytes := if in_run then concat (run bs ts) else [].

Lemma fold_script (bs os ts : list line) (fo ft : bool) :
  disjoint_edits bs os ts ->
  let '(out, c) := fold_edits bs (script fo bs os) (script ft bs ts) in
  pend fo bs os ++ pend ft bs ts ++ out = concat (merge3 bs os ts) /\ c = false.
Proof.
  revert os ts fo ft. induction bs as [|b bs IH]; intros [|o os] [|t ts] fo ft Hd; try done.
  { by destruct fo, ft. }
  destruct Hd as [Hd Hds]. cbn [fold_edits]. unfold pend in *. cbn [script run merge3].
  destruct (decide (b = o)) as [<-|Ho]; [|destruct Hd as [->| ->]; [done|]].
  - destruct (decide (b = t)) as [<-|Ht].
    + rewrite !(bool_decide_eq_true_2 (b = b)) by done. cbn [next_edit tail fold_line concat].
      specialize (IH os ts false false Hds). cbn [app] in IH. destruct (fold_edits bs _ _) as [out c]. destruct IH as [<- ->].
      by destruct fo, ft.
    + rewrite !(bool_decide_eq_true_2 (b = b)), !(bool_decide_eq_false_2 (b = t)) by done.
      cbn [next_edit tail fold_line concat]. specialize (IH os ts false true Hds).
      destruct (fold_edits bs _ _) as [out c]. destruct IH as [<- ->]. cbn [app].
      destruct fo, ft; cbn [concat app]; by rewrite <- ?app_assoc.
  - rewrite !(bool_decide_eq_true_2 (b = b)), !(bool_decide_eq_false_2 (b = o)), (bool_decide_eq_false_2 (o = b)) by congruence.
    cbn [next_edit tail fold_line concat]. specialize (IH os ts true false Hds).
    destruct (fold_edits bs _ _) as [out c]. destruct IH as [<- ->]. cbn [app].
    destruct fo, ft; cbn [concat app]; by rewrite <- ?app_assoc.
Qed.

Definition full_line (l : line) : Prop := exists body, (newline ∉ body) /\ l = body ++ [newline].

Lemma split_lines_concat (ls : list line) : Forall full_line ls -> ls <> [] -> split_lines (concat ls) = ls.
Proof.
  intros Hl Hne. unfold split_lines. rewrite bool_decide_eq_false_2; [by apply split_from_concat_lines|].
  destruct Hl as [|l ls (body & _ & ->) Hls]; [done|]. cbn. by destruct body.
Qed.

Lemma concat_lines_inj (ls ks : list line) :
  Forall full_line ls -> Forall full_line ks -> length ls = length ks -> concat ls = concat ks -> ls = ks.
Proof.
  intros Hl Hk Hlen E. destruct ls as [|l ls], ks as [|k ks]; try done.
  rewrite <- (split_lines_concat (l :: ls)), <- (split_lines_concat (k :: ks)) by done. by rewrite E.
Qed.

Lemma merge3_base_l (bs ts : list line) : length ts = length bs -> merge3 bs bs ts = ts.
Proof. revert ts. induction bs as [|b bs IH]; intros [|t ts] E; cbn in *; try done. rewrite bool_decide_eq_true_2 by done. rewrite IH; [done|lia]. Qed.
Lemma merge3_base_r (bs os : list line) : length os = length bs -> merge3 bs os bs = os.
Proof. revert os. induction bs as [|b bs IH]; intros [|o os] E; cbn in *; try done. rewrite IH by lia. by case_bool_decide; subst. Qed.
Lemma disjoint_same (bs os : list line) : disjoint_edits bs os os -> os = bs.
Proof. revert os. induction bs as [|b bs IH]; intros [|o os] Hd; try done. destruct Hd as [[<-|<-] Hd]; f_equal; by apply IH. Qed.

(** C20: Two sides that replace different lines of a base whose lines are all
    different, by lines that do not occur in the base, merge without a conflict
    into the base with both replacements made. *)
Theorem merge_disjoint_substitutions (base ours theirs : list line) :
  NoDup base -> Forall full_line base -> Forall full_line ours -> Forall full_line theirs ->
  subst_of base base ours -> subst_of base base theirs -> disjoint_edits base ours theirs ->
  merge_lines (concat base) (concat ours) (concat theirs) = Some (concat (merge3 base ours theirs), false).
Proof.
  intros ND Fb Fo Ft So St Hd. pose proof (subst_len _ _ So) as Lo. pose proof (subst_len _ _ St) as Lt.
  unfold merge_lines. case_bool_decide as E1; [|case_bool_decide as E2; [|case_bool_decide as E3]].
  - apply concat_lines_inj in E1 as <-; [|done..]. by rewrite merge3_base_l.
  - apply concat_lines_inj in E2 as <-; [|done..]. by rewrite merge3_base_r.
  - apply concat_lines_inj in E3 as <-; [|done..|congruence]. apply disjoint_same in Hd as ->. done.
  - assert (base <> []) as Hne by (intros ->; destruct ours; done).
    rewrite !split_lines_concat by (try done; intros ->; by destruct base).
    rewrite (myers_subst _ _ ND So), (myers_subst _ _ ND St). cbn [mbind option_bind].
    pose proof (fold_script base ours theirs false false Hd) as Hf. cbn [pend app] in Hf.
    destruct (fold_edits _ _ _). by destruct Hf as [-> ->].
Qed.

(** ** Conflicts *)

Lemma fold_line_sym (b : line) (oe te : Edit) :
  (fold_line b oe te).2 = (fold_line b te oe).2 /\
  ((fold_line b oe te).2 = false -> fold_line b oe te = fold_line b te oe).
Proof.
  destruct oe as [|ov], te as [|tv]; cbn; try done.
  repeat case_bool_decide; cbn; by subst.
Qed.

Lemma fold_edits_sym (bs : list line) (oe te : list Edit) :
  (fold_edits bs oe te).2 = (fold_edits bs te oe).2 /\
  ((fold_edits bs oe te).2 = false -> fold_edits bs oe te = fold_edits bs te oe).
Proof.
  revert oe te. induction bs as [|b bs IH]; intros oe te; [done|]. cbn [fold_edits].
  destruct (fold_line_sym b (next_edit oe) (next_edit te)) as [H1 H2].
  destruct (IH (tail oe) (tail te)) as [H3 H4].
  destruct (fold_line b (next_edit oe) (next_edit te)) as [u c], (fold_line b (next_edit te) (next_edit oe)) as [u' c'].
  destruct (fold_edits bs (tail oe) (tail te)) as [v d], (fold_edits bs (tail te) (tail oe)) as [v' d'].
  cbn in *. subst c' d'. split; [done|]. intros [-> ->]%orb_false_elim.
  specialize (H2 eq_refl). specialize (H4 eq_refl). by simplify_eq.
Qed.

(** The merge always returns; whether it conflicts does not depend on which
    side is called ours, and a merge without a conflict gives the same bytes
    either way. *)
Theorem merge_symmetric (base ours theirs : bytes) :
  exists r r', merge_lines base ours theirs = Some r /\ merge_lines base theirs ours = Some r' /\
  r.2 = r'.2 /\ (r.2 = false -> r.1 = r'.1).
Proof.
  unfold merge_lines.
  destruct (myers_total (split_lines base) (split_lines ours)) as (oe & -> & _).
  destruct (myers_total (split_lines base) (split_lines theirs)) as (te & -> & _). cbn [mbind option_bind].
  destruct (fold_edits_sym (split_lines base) oe te) as [H1 H2].
  repeat case_bool_decide; subst; try done; try (by eexists _, _);
    eexists _, _; split_and!; try done. intros E. by rewrite (H2 E).
Qed.

(** ** Lost lines *)

Definition text (ls : list string) : bytes := concat (map (fun s => as_bytes s ++ [newline]) ls).

(** A line that the base and both sides agree on can be missing from a merge
    that reports no conflict: an insertion takes the place of the line that
    follows it. *)
Theorem merge_drops_common_line :
  exists base ours theirs l out,
    merge_lines base ours theirs = Some (out, false) /\
    l ∈ split_lines base /\ l ∈ split_lines ours /\ l ∈ split_lines theirs /\ ~ l ∈ split_lines out.
Proof.
  exists (text ["a"; "b"]), (text ["a"; "x"; "b"]), (text ["A"; "b"]), (text ["b"]), (text ["A"; "x"]).
  split; [by vm_compute|]. change (split_lines (text ["a"; "b"])) with [text ["a"]; text ["b"]].
  change (split_lines (text ["a"; "x"; "b"])) with [text ["a"]; text ["x"]; text ["b"]].
  change (split_lines (text ["A"; "b"])) with [text ["A"]; text ["b"]].
  change (split_lines (text ["A"; "x"])) with [text ["A"]; text ["x"]].
  split_and!; [by repeat constructor..|]. intros [E|[E|E%elem_of_nil]%elem_of_cons]%elem_of_cons; by vm_compute in E.
Qed.

(** Lines appended at the end of the file are lost the same way. *)
Example merge_drops_appended_line :
  merge_lines (text ["a"; "b"]) (text ["a"; "b"; "c"]) (text ["A"; "b"]) = Some (text ["A"; "b"], false).
Proof. by vm_compute. Qed.

Lemma merge_disjoint_substitutions_witness :
  merge_lines (text ["a"; "b"; "c"; "d"]) (text ["x"; "y"; "c"; "d"]) (text ["a"; "b"; "c"; "z"])
  = Some (text ["x"; "y"; "c"; "z"], false).
Proof.
  assert (forall s, newline ∉ as_bytes s -> full_line (text [s])) as Hf.
  { intros s Hs. exists (as_bytes s). split; [done|]. cbn. by rewrite app_nil_r. }
  apply (merge_disjoint_substitutions (map (fun s => text [s]) ["a"; "b"; "c"; "d"]) (map (fun s => text [s]) ["x"; "y"; "c"; "d"])
    (map (fun s => text [s]) ["a"; "b"; "c"; "z"])).
  - apply (bool_decide_unpack _). by vm_compute.
  - repeat constructor; apply Hf; apply (bool_decide_unpack _); by vm_compute.
  - repeat constructor; apply Hf; apply (bool_decide_unpack _); by vm_compute.
  - repeat constructor; apply Hf; apply (bool_decide_unpack _); by vm_compute.
  - repeat (apply Forall2_cons; split; [first [by left|right; apply (bool_decide_unpack _); by vm_compute]|]). done.
  - repeat (apply Forall2_cons; split; [first [by left|right; apply (bool_decide_unpack _); by vm_compute]|]). done.
  - cbn [map disjoint_edits]. split_and!; first [by left|by right|done].
Defined.

Lemma dp_table_is_lcs_witness :
  let v := dp_get (dp_table (map as_bytes ["a"; "b"; "c"]) (map as_bytes ["x"; "b"; "c"; "a"])) 0 0 in
  v = 2%nat /\ (forall c, c `sublist_of` map as_bytes ["a"; "b"; "c"] -> c `sublist_of` map as_bytes ["x"; "b"; "c"; "a"] ->
                (length c <= v)%nat).
Proof.
  split; [by vm_compute|].
  exact (proj2 (dp_table_is_lcs (map as_bytes ["a"; "b"; "c"]) (map as_bytes ["x"; "b"; "c"; "a"]) 0 0 ltac:(cbn; lia) ltac:(cbn; lia))).
Defined.
