(* ===== verification/VcsIgnore.v ===== *)
(** * Ignore rules (origin-vcs/src/ignore.rs)

    Glob matching of [.gitignore] patterns against paths, equal to a
    declarative semantics of the patterns, and the rule that decides.  Text is
    ASCII: a [char] is one [ascii]. *)

From Stdlib Require Import Ascii String.
From S2P Require Import Prelude RustStr Bytes.

Definition star : ascii := "*".
Definition quest : ascii := "?".
Definition backslash : ascii := "\".
Definition slash : ascii := "/".

Definition comp : Type := list ascii.

Record IgnorePattern := MkPattern { ip_text : list ascii; ip_negate : bool; ip_anchored : bool; ip_dir_only : bool }.

(** ** Matching *)

Fixpoint smatch (s c : list ascii) : bool :=
  match s with
  | [] => bool_decide (c = [])
  | x :: s1 =>
      if bool_decide (x = star) then existsb (fun take => smatch s1 (drop take c)) (seq 0 (S (length c)))
      else if bool_decide (x = quest) then match c with [] => false | _ :: c' => smatch s1 c' end
      else if bool_decide (x = backslash) then
        match s1 with
        | y :: s2 => match c with [] => false | z :: c' => bool_decide (y = z) && smatch s2 c' end
        | [] => false
        end
      else match c with [] => false | z :: c' => bool_decide (x = z) && smatch s1 c' end
  end.

Definition segment_match (seg comp : list ascii) : bool := smatch seg comp.

Fixpoint dmatch (p t : list comp) : bool :=
  match p with
  | [] => bool_decide (t = [])
  | seg :: p' =>
      if bool_decide (seg = [star; star]) then existsb (fun skip => dmatch p' (drop skip t)) (seq 0 (S (length t)))
      else match t with [] => false | c :: t' => if segment_match seg c then dmatch p' t' else false end
  end.

(** [split('/').filter(|s| !s.is_empty())]. *)
Definition components (path : list ascii) : list comp :=
  List.filter (fun s => negb (bool_decide (s = []))) (split_on slash path).

Definition match_components (pat path : list ascii) : bool := dmatch (components pat) (components path).
Definition glob_match (pat path : list ascii) : bool := match_components pat path.

(** [join("/")]. *)
Fixpoint join (cs : list comp) : list ascii :=
  match cs with [] => [] | [c] => c | c :: cs' => c ++ slash :: join cs' end.

Definition pattern_matches (p : IgnorePattern) (rel_path : list comp) (is_dir : bool) : bool :=
  if ip_dir_only p && negb is_dir then false
  else
    let joined := join rel_path in
    if ip_anchored p then glob_match (ip_text p) joined
    else if glob_match (ip_text p) joined then true
    else existsb (fun i => glob_match (ip_text p) (join (drop i rel_path))) (seq 0 (length rel_path)).

(** ** Parsing *)

Definition newline_char : ascii := byte_of 10.

(** [trim_end_matches('/')]. *)
Definition trim_slashes (l : list ascii) : list ascii :=
  let fix go (l : list ascii) := match l with x :: l' => if bool_decide (x = slash) then go l' else l | [] => [] end in
  rev (go (rev l)).

Definition parse_line (l : list ascii) : option IgnorePattern :=
  let raw := trim_end l in
  if bool_decide (raw = []) || starts_with ["#"%char] raw then None
  else
    let '(negate, rest) := match strip_prefix ["!"%char] raw with Some r => (true, r) | None => (false, raw) end in
    let dir_only := match last rest with Some x => bool_decide (x = slash) | None => false end in
    let '(anchored, text) := match strip_prefix [slash] rest with Some r => (true, r) | None => (false, rest) end in
    Some (MkPattern (trim_slashes text) negate anchored dir_only).

Definition parse (text : list ascii) : list IgnorePattern := omap parse_line (split_on newline_char text).

(** ** The accumulated rules *)

Definition IgnoreState : Type := list (list comp * list IgnorePattern).

Definition push_scope (st : IgnoreState) (scope_dir : list comp) (text : list ascii) : IgnoreState :=
  let pats := parse text in
  if bool_decide (length pats = 0%nat) then st else st ++ [(scope_dir, pats)].

Definition within (scope_dir full : list comp) : bool :=
  forallb (fun i => bool_decide (full !! i = scope_dir !! i)) (seq 0 (length scope_dir)).

Fixpoint first_match (patterns : list IgnorePattern) (rel : list comp) (is_dir : bool) : option bool :=
  match patterns with
  | [] => None
  | p :: ps => if pattern_matches p rel is_dir then Some (negb (ip_negate p)) else first_match ps rel is_dir
  end.

Fixpoint scan_scopes (scopes : IgnoreState) (full : list comp) (is_dir : bool) : bool :=
  match scopes with
  | [] => false
  | (scope_dir, patterns) :: rest =>
      if (length full <? length scope_dir)%nat then scan_scopes rest full is_dir
      else if negb (within scope_dir full) then scan_scopes rest full is_dir
      else match first_match patterns (drop (length scope_dir) full) is_dir with
           | Some ignored => ignored
           | None => scan_scopes rest full is_dir
           end
  end.

Definition is_ignored (st : IgnoreState) (rel_path : list comp) (name : comp) (is_dir : bool) : bool :=
  scan_scopes (rev st) (rel_path ++ [name]) is_dir.

(** ** Declarative patterns *)

Inductive glob : list ascii -> list ascii -> Prop :=
| glob_nil : glob [] []
| glob_star s u c : glob s c -> glob (star :: s) (u ++ c)
| glob_quest s x c : glob s c -> glob (quest :: s) (x :: c)
| glob_escape s x c : glob s c -> glob (backslash :: x :: s) (x :: c)
| glob_char s x c : x <> star -> x <> quest -> x <> backslash -> glob s c -> glob (x :: s) (x :: c).

Inductive path_glob : list comp -> list comp -> Prop :=
| path_nil : path_glob [] []
| path_deep p u t : path_glob p t -> path_glob ([star; star] :: p) (u ++ t)
| path_seg p s c t : s <> [star; star] -> glob s c -> path_glob p t -> path_glob (s :: p) (c :: t).

Lemma existsb_drop {A : Type} (f : list A -> bool) (c : list A) :
  existsb (fun k => f (drop k c)) (seq 0 (S (length c))) = true <-> exists u v, c = u ++ v /\ f v = true.
Proof.
  rewrite existsb_exists. split.
  - intros (k & _ & Hf). exists (take k c), (drop k c). by rewrite take_drop.
  - intros (u & v & -> & Hf). exists (length u). rewrite drop_app_length. split; [|done].
    apply in_seq. rewrite length_app. lia.
Qed.

Lemma smatch_glob (s c : list ascii) : smatch s c = true <-> glob s c.
Proof.
  revert c. induction s as [s IH] using (induction_ltof1 _ (@length ascii)). unfold ltof in IH.
  destruct s as [|x s]; intros c; cbn [smatch].
  { rewrite bool_decide_eq_true. split; [by intros ->; constructor|by inversion 1]. }
  case_bool_decide as Es; [subst x|case_bool_decide as Eq; [subst x|case_bool_decide as Eb; [subst x|]]].
  - rewrite existsb_drop. split.
    + intros (u & v & -> & H). constructor. apply IH; [cbn; lia|done].
    + inversion 1; subst; try done. eexists _, _. split; [done|]. apply IH; [cbn; lia|done].
  - destruct c as [|z c]; [split; [done|by inversion 1]|]. rewrite IH by (cbn; lia). split; [by constructor|].
    by inversion 1.
  - destruct s as [|y s]; [split; [done|by inversion 1]|]. destruct c as [|z c]; [split; [done|by inversion 1]|].
    rewrite andb_true_iff, bool_decide_eq_true, IH by (cbn; lia). split; [intros [-> H]; by constructor|].
    by inversion 1.
  - destruct c as [|z c]; [split; [done|by inversion 1]|].
    rewrite andb_true_iff, bool_decide_eq_true, IH by (cbn; lia). split; [intros [-> H]; by constructor|].
    by inversion 1.
Qed.

Lemma dmatch_glob (p t : list comp) : dmatch p t = true <-> path_glob p t.
Proof.
  revert t. induction p as [|seg p IH]; intros t; cbn [dmatch].
  { rewrite bool_decide_eq_true. split; [by intros ->; constructor|by inversion 1]. }
  case_bool_decide as Es; [subst seg|].
  - rewrite existsb_drop. split.
    + intros (u & v & -> & H). constructor. by apply IH.
    + inversion 1; subst; try done. eexists _, _. split; [done|]. by apply IH.
  - destruct t as [|c t]; [split; [done|by inversion 1]|]. unfold segment_match.
    destruct (smatch seg c) eqn:Em.
    + rewrite IH. split; [constructor; [done|by apply smatch_glob|done]|by inversion 1].
    + split; [done|]. inversion 1; subst; [done|]. apply smatch_glob in H5. congruence.
Qed.

(** ** Paths *)

Definition plain_comp (c : comp) : Prop := c <> [] /\ Forall (fun a => a <> slash) c.

Lemma components_join (cs : list comp) : Forall plain_comp cs -> components (join cs) = cs.
Proof.
  intros Hc. unfold components. induction Hc as [|c cs [Hn Hs] Hcs IH]; [done|].
  destruct cs as [|d cs].
  - cbn [join]. rewrite split_on_nil by done. cbn. by rewrite bool_decide_eq_false_2.
  - change (join (c :: d :: cs)) with (c ++ slash :: join (d :: cs)). rewrite split_on_sep by done.
    cbn [List.filter]. rewrite bool_decide_eq_false_2 by done. cbn [negb]. by rewrite IH.
Qed.

(** C21: A pattern matches a path exactly when the path is one of its glob: the
    whole path for an anchored pattern, some suffix of its components
    otherwise; a directory pattern matches directories only. *)
Theorem pattern_matches_spec (p : IgnorePattern) (path : list comp) (is_dir : bool) :
  Forall plain_comp path -> path <> [] ->
  pattern_matches p path is_dir = true <->
  (ip_dir_only p = true -> is_dir = true) /\
  (if ip_anchored p then path_glob (components (ip_text p)) path
   else exists u v, path = u ++ v /\ v <> [] /\ path_glob (components (ip_text p)) v).
Proof.
  intros Hp Hne. unfold pattern_matches, glob_match, match_components.
  assert (forall i, components (join (drop i path)) = drop i path) as Hd.
  { intros i. apply components_join. by apply Forall_drop. }
  destruct (ip_dir_only p), is_dir; cbn [andb negb]; try (split; [done|intros [Hx _]; by specialize (Hx eq_refl)]);
  (destruct (ip_anchored p); [rewrite components_join, dmatch_glob by done; tauto|]);
  (rewrite components_join by done;
   match goal with |- context [if ?b then true else ?e] => replace (if b then true else e) with (b || e) by (by destruct b) end;
   rewrite orb_true_iff, dmatch_glob, existsb_exists; split;
   [ intros H; split; [done|]; destruct H as [H|(i & Hi & H)];
     [ exists [], path; by split_and!
     | rewrite Hd, dmatch_glob in H; apply in_seq in Hi; exists (take i path), (drop i path); rewrite take_drop; split_and!; [done| |done];
       intros E; apply (f_equal length) in E; rewrite length_drop in E; cbn in E; lia ]
   | intros [_ (u & v & -> & Hv & H)]; right; exists (length u); rewrite Hd, dmatch_glob, drop_app_length; split; [|done];
     apply in_seq; rewrite length_app; destruct v; [done|cbn; lia] ]).
Qed.

(** ** The deciding rule *)

(** The first pattern that matches in the innermost scope decides, and
    nothing after it in that file nor any outer file is looked at. *)
Theorem ignore_first_match (outer inner : IgnoreState) (scope : list comp) (ps qs : list IgnorePattern) (p : IgnorePattern)
    (rel : list comp) (name : comp) (is_dir : bool) :
  let full := rel ++ [name] in
  Forall (fun sc => within (fst sc) full = false) inner ->
  (length scope <= length full)%nat -> within scope full = true ->
  Forall (fun q => pattern_matches q (drop (length scope) full) is_dir = false) ps ->
  pattern_matches p (drop (length scope) full) is_dir = true ->
  is_ignored (outer ++ (scope, ps ++ p :: qs) :: inner) rel name is_dir = negb (ip_negate p).
Proof.
  intros full Hin Hlen Hw Hps Hp. unfold is_ignored. fold full. rewrite rev_app_distr. cbn [rev]. rewrite <- app_assoc. cbn [app].
  apply Forall_rev in Hin. induction Hin as [|[s qs'] l Hs Hl IH]; cbn [app scan_scopes].
  - destruct (Nat.ltb_spec (length full) (length scope)); [lia|]. rewrite Hw. cbn [negb].
    assert (first_match (ps ++ p :: qs) (drop (length scope) full) is_dir = Some (negb (ip_negate p))) as ->; [|done].
    induction Hps as [|q ps Hq Hps IHp]; cbn; [by rewrite Hp|]. by rewrite Hq.
  - cbn [fst] in Hs. rewrite Hs. cbn [negb]. by destruct (length full <? length s)%nat.
Qed.

(** So a [!] line below a line that matches has no effect. *)
Example negation_below_is_dead :
  let st := push_scope [] [] (chars "*.log" ++ newline_char :: chars "!keep.log") in
  map (fun n => is_ignored st [] (chars n) false) ["a.log"; "keep.log"; "a.txt"]%string = [true; true; false].
Proof. by vm_compute. Qed.

Lemma pattern_matches_spec_witness :
  let p := MkPattern (chars "src/**/*.o") false false false in
  pattern_matches p (map chars ["x"; "src"; "a"; "b.o"]) false = true /\
  exists u v, map chars ["x"; "src"; "a"; "b.o"] = u ++ v /\ v <> [] /\ path_glob (components (chars "src/**/*.o")) v.
Proof.
  cbv zeta. split; [by vm_compute|].
  refine (proj2 (proj1 (pattern_matches_spec (MkPattern (chars "src/**/*.o") false false false)
    (map chars ["x"; "src"; "a"; "b.o"]) false _ _) _)); [|done|by vm_compute].
  repeat constructor; try done; apply (bool_decide_unpack _); by vm_compute.
Defined.

Lemma ignore_first_match_witness :
  is_ignored ([] ++ ([], [] ++ MkPattern (chars "*.log") false false false :: [MkPattern (chars "keep.log") true false false]) :: [])
    [] (chars "keep.log") false = true.
Proof.
  apply (ignore_first_match [] [] [] [] [MkPattern (chars "keep.log") true false false] (MkPattern (chars "*.log") false false false)
    [] (chars "keep.log") false); [constructor|cbn; lia|done|constructor|by vm_compute].
Defined.
