(* ===== verification/VcsMmr.v ===== *)
(** * The commit log's Merkle mountain range (origin-vcs/src/mmr.rs)

    [peaks] is a [BTreeMap<u32, [u8; 32]>]: an association list in
    ascending order of height.  The range refines the forest of [MmrTheory],
    and its root binds every commit of a log of the same length. *)

From Stdlib Require Import Ascii String.
From S2P Require Import Prelude RustStr Bytes Sdk Mmr MmrTheory.

#[local] Open Scope nat_scope.

(** ** [BTreeMap] operations on an ascending association list *)

Fixpoint bt_remove {V : Type} (k : nat) (m : list (nat * V)) : option V * list (nat * V) :=
  match m with
  | [] => (None, [])
  | (j, v) :: m' => if j =? k then (Some v, m') else let '(o, r) := bt_remove k m' in (o, (j, v) :: r)
  end.

Fixpoint bt_insert {V : Type} (k : nat) (x : V) (m : list (nat * V)) : list (nat * V) :=
  match m with
  | [] => [(k, x)]
  | (j, v) :: m' => if k <? j then (k, x) :: m else if j =? k then (k, x) :: m' else (j, v) :: bt_insert k x m'
  end.

Record VcsMmrState := MkVcsMmr { vm_peaks : list (nat * bytes); vm_leaf_count : nat; vm_version : Z }.

Definition vcs_mmr_new : VcsMmrState := MkVcsMmr [] 0 1.

Section Mmr.
Context `{SK : Sdk}.

Definition vcs_parent_hash (left right : bytes) : bytes := sha3_256 (left ++ right).
Definition vcs_leaf_hash (data : bytes) (pos : nat) : bytes := sha3_256 (be_bytes 8 (Z.of_nat pos) ++ data).

(** The carry loop; the peaks are finite, so it stops within one step more
    than their number. *)
Fixpoint vcs_carry (fuel : nat) (peaks : list (nat * bytes)) (height : nat) (hash : bytes) : option (list (nat * bytes)) :=
  match fuel with
  | O => None
  | S fuel' =>
      match bt_remove height peaks with
      | (Some peak, peaks') => vcs_carry fuel' peaks' (height + 1) (vcs_parent_hash peak hash)
      | (None, peaks') => Some (bt_insert height hash peaks')
      end
  end.

Definition vcs_append (s : VcsMmrState) (data : bytes) : option (VcsMmrState * nat) :=
  let pos := vm_leaf_count s in
  peaks ← vcs_carry (S (length (vm_peaks s))) (vm_peaks s) 0 (vcs_leaf_hash data pos);
  Some (MkVcsMmr peaks (vm_leaf_count s + 1) (vm_version s), pos).

Definition vcs_root (s : VcsMmrState) : bytes :=
  match map snd (vm_peaks s) with
  | [] => replicate 32 (byte_of 0)
  | first :: rest => foldl vcs_parent_hash first rest
  end.

(** ** Refinement of the forest *)

Fixpoint vhash (t : tree) : bytes :=
  match t with TLeaf h => h | TNode l r => vcs_parent_hash (vhash l) (vhash r) end.

Definition vrepr (ts : list tree) : list (nat * bytes) := map (fun t => (theight t, vhash t)) ts.

Lemma bt_remove_low (k : nat) (m : list (nat * bytes)) :
  Forall (fun jv => k < fst jv) m -> bt_remove k m = (None, m).
Proof.
  induction 1 as [|[j v] m Hj Hm IH]; cbn in *; [done|]. destruct (Nat.eqb_spec j k); [lia|]. by rewrite IH.
Qed.
Lemma bt_insert_low (k : nat) (x : bytes) (m : list (nat * bytes)) :
  Forall (fun jv => k < fst jv) m -> bt_insert k x m = (k, x) :: m.
Proof. intros [|[j v] m' Hj Hm]; cbn [bt_insert fst] in *; [done|]. by rewrite (proj2 (Nat.ltb_lt k j)). Qed.

Lemma vrepr_low (k : nat) (ts : list tree) :
  Forall (fun u => k < theight u) ts -> Forall (fun jv => k < fst jv) (vrepr ts).
Proof. induction 1; cbn; by constructor. Qed.

Lemma vcs_carry_repr (ts : list tree) (t : tree) (fuel : nat) :
  rev_ok ts -> Forall (fun u => theight t <= theight u) ts -> length ts < fuel ->
  vcs_carry fuel (vrepr ts) (theight t) (vhash t) = Some (vrepr (insert_rev ts t)).
Proof.
  revert t fuel. induction ts as [|u ts IH]; intros t [|fuel] Hok Hle Hf; cbn [length] in Hf; try lia; [done|].
  destruct Hok as (Hu & Hlt & Hok). apply Forall_cons in Hle as [Htu Hle].
  cbn [vcs_carry vrepr map bt_remove insert_rev]. destruct (Nat.eqb_spec (theight u) (theight t)) as [E|Hne].
  - change (vcs_parent_hash (vhash u) (vhash t)) with (vhash (TNode u t)).
    replace (theight t + 1) with (theight (TNode u t)) by (cbn; lia). apply IH; [done| |lia].
    eapply Forall_impl; [exact Hlt|]. cbn. lia.
  - fold (vrepr ts). rewrite bt_remove_low.
    + rewrite bt_insert_low; [done|]. constructor; [cbn; lia|]. apply vrepr_low. eapply Forall_impl; [exact Hlt|]. cbn. lia.
    + apply vrepr_low. eapply Forall_impl; [exact Hlt|]. cbn. lia.
Qed.

(** The range of a log: positions count from [k]. *)
Fixpoint log_leaves (k : nat) (log : list bytes) : list bytes :=
  match log with [] => [] | d :: log' => vcs_leaf_hash d k :: log_leaves (S k) log' end.

Definition log_mmr (log : list bytes) : option VcsMmrState :=
  foldl (fun s d => s ≫= fun s => fst <$> vcs_append s d) (Some vcs_mmr_new) log.

Definition log_forest (log : list bytes) : list tree :=
  foldl (fun ts h => insert_rev ts (TLeaf h)) [] (log_leaves 0 log).

Lemma log_leaves_snoc (k : nat) (log : list bytes) (d : bytes) :
  log_leaves k (log ++ [d]) = log_leaves k log ++ [vcs_leaf_hash d (k + length log)].
Proof.
  revert k. induction log as [|e log IH]; intros k; cbn; [by rewrite Nat.add_0_r|]. by rewrite IH, Nat.add_succ_r.
Qed.

Lemma log_forest_ok {HO : HashOk} (log : list bytes) : rev_ok (log_forest log) /\
  forest_leaves (rev (log_forest log)) = log_leaves 0 log.
Proof.
  induction log as [|d log [Hok Hl]] using rev_ind; [done|]. unfold log_forest. rewrite log_leaves_snoc, foldl_app. cbn [foldl].
  fold (log_forest log). split.
  - apply insert_rev_ok; [done|apply sha3_len|]. apply Forall_true. cbn. lia.
  - by rewrite insert_rev_leaves, Hl.
Qed.

Lemma log_mmr_repr {HO : HashOk} (log : list bytes) :
  log_mmr log = Some (MkVcsMmr (vrepr (log_forest log)) (length log) 1).
Proof.
  induction log as [|d log IH] using rev_ind; [done|]. unfold log_mmr, log_forest in *.
  rewrite log_leaves_snoc, !foldl_app. cbn [foldl]. rewrite IH. cbn [mbind option_bind]. unfold vcs_append. cbn [vm_leaf_count vm_peaks].
  change (foldl (fun ts h => insert_rev ts (TLeaf h)) [] (log_leaves 0 log)) with (log_forest log).
  destruct (log_forest_ok log) as [Hok _].
  rewrite (vcs_carry_repr (log_forest log) (TLeaf (vcs_leaf_hash d (length log)))).
  - cbn. by rewrite length_app.
  - done.
  - apply Forall_true. cbn. lia.
  - unfold vrepr. rewrite length_map. lia.
Qed.

(** ** Binding *)

Fixpoint shape (t : tree) : tree := match t with TLeaf _ => TLeaf [] | TNode l r => TNode (shape l) (shape r) end.

Lemma shape_height (t : tree) : theight (shape t) = theight t.
Proof. induction t; cbn; [done|]. by rewrite IHt1. Qed.

Lemma insert_rev_shape (ts : list tree) (t : tree) : map shape (insert_rev ts t) = insert_rev (map shape ts) (shape t).
Proof.
  revert t. induction ts as [|u ts IH]; intros t; cbn; [done|]. rewrite !shape_height.
  destruct (theight u =? theight t); [|done]. by rewrite IH.
Qed.

Lemma log_forest_shape (l k : list bytes) : length l = length k -> map shape (log_forest l) = map shape (log_forest k).
Proof.
  assert (forall l, map shape (log_forest l) = foldl (fun ts _ => insert_rev ts (TLeaf [])) [] (seq 0 (length l))) as E.
  { clear. intros l. induction l as [|d l IH] using rev_ind; [done|]. unfold log_forest in *.
    rewrite log_leaves_snoc, length_app, seq_app, !foldl_app. cbn [foldl length seq]. rewrite insert_rev_shape, IH. done. }
  intros Hl. by rewrite !E, Hl.
Qed.

Lemma vhash_len {HO : HashOk} (t : tree) : perfect t -> length (vhash t) = 32.
Proof. destruct t; cbn; [done|]. intros _. apply sha3_len. Qed.

Lemma parent_inj (a b c d : bytes) :
  length a = length c -> vcs_parent_hash a b = vcs_parent_hash c d -> (a = c /\ b = d) \/ collision sha3_256.
Proof.
  intros Hl E. unfold vcs_parent_hash in E. apply hash_eq_or_collision in E as [E|]; [left|by right]. by apply app_inj_len.
Qed.

Lemma vhash_inj {HO : HashOk} (t u : tree) :
  shape t = shape u -> perfect t -> perfect u -> vhash t = vhash u -> leaves t = leaves u \/ collision sha3_256.
Proof.
  revert u. induction t as [h|t1 IH1 t2 IH2]; intros [k|u1 u2] Hs Ht Hu E; try done; cbn in *.
  - left. congruence.
  - injection Hs as Hs1 Hs2. destruct Ht as (Ht1 & Ht2 & _), Hu as (Hu1 & Hu2 & _).
    apply parent_inj in E as [[E1 E2]|]; [|by right|by rewrite !vhash_len].
    destruct (IH1 u1 Hs1 Ht1 Hu1 E1) as [->|]; [|by right]. destruct (IH2 u2 Hs2 Ht2 Hu2 E2) as [->|]; [by left|by right].
Qed.

Lemma fold_peaks_inj {HO : HashOk} (p q : bytes) (ps qs : list bytes) :
  length ps = length qs -> Forall (fun h => length h = 32) (p :: ps) -> Forall (fun h => length h = 32) (q :: qs) ->
  foldl vcs_parent_hash p ps = foldl vcs_parent_hash q qs -> p :: ps = q :: qs \/ collision sha3_256.
Proof.
  revert p q qs. induction ps as [|a ps IH]; intros p q [|b qs] Hl Hp Hq E; try done; [left; cbn in E; by rewrite E|].
  cbn [foldl] in E. apply Forall_cons in Hp as [Hp Hps], Hq as [Hq Hqs].
  apply Forall_cons in Hps as [Ha Hps], Hqs as [Hb Hqs].
  destruct (IH _ _ qs ltac:(by injection Hl) ltac:(constructor; [apply sha3_len|done]) ltac:(constructor; [apply sha3_len|done]) E)
    as [E'|]; [|by right]. injection E' as E1 <-.
  apply parent_inj in E1 as [[-> ->]|]; [by left|by right|congruence].
Qed.

Lemma rev_ok_perfect (ts : list tree) : rev_ok ts -> Forall perfect ts.
Proof. induction ts as [|t ts IH]; [constructor|]. intros (Ht & _ & Hts). constructor; [done|]. by apply IH. Qed.

Lemma forest_inj {HO : HashOk} (ts us : list tree) :
  map shape ts = map shape us -> Forall perfect ts -> Forall perfect us -> map vhash ts = map vhash us ->
  map leaves ts = map leaves us \/ collision sha3_256.
Proof.
  revert us. induction ts as [|t ts IH]; intros [|u us] Hs Ht Hu E; try done; [by left|]. cbn in *.
  injection Hs as Hs Hss. injection E as E Es. apply Forall_cons in Ht as [Ht Hts], Hu as [Hu Hus].
  destruct (vhash_inj t u Hs Ht Hu E) as [->|]; [|by right]. destruct (IH us Hss Hts Hus Es) as [->|]; [by left|by right].
Qed.

Lemma log_leaves_inj (k : nat) (l m : list bytes) :
  length l = length m -> log_leaves k l = log_leaves k m -> l = m \/ collision sha3_256.
Proof.
  revert k m. induction l as [|d l IH]; intros k [|e m] Hl E; try done; [by left|].
  injection E as E Es. injection Hl as Hl. destruct (IH (S k) m Hl Es) as [->|]; [|by right].
  unfold vcs_leaf_hash in E. apply hash_eq_or_collision in E as [E|]; [|by right]. left. apply app_inv_head in E. congruence.
Qed.

(** Every append succeeds and returns the position of its leaf; and two commit
    logs of the same length with the same root are the same log, unless
    SHA3-256 collides: the root fixes every commit id and the order. *)
Theorem vcs_root_binds_log {HO : HashOk} (l m : list bytes) :
  exists s u, log_mmr l = Some s /\ log_mmr m = Some u /\ vm_leaf_count s = length l /\
  (length l = length m -> vcs_root s = vcs_root u -> l = m \/ collision sha3_256).
Proof.
  exists (MkVcsMmr (vrepr (log_forest l)) (length l) 1), (MkVcsMmr (vrepr (log_forest m)) (length m) 1).
  split; [apply log_mmr_repr|]. split; [apply log_mmr_repr|]. split; [done|]. intros Hlen E.
  pose proof (log_forest_shape l m Hlen) as Hs.
  destruct (log_forest_ok l) as [Ol Ll], (log_forest_ok m) as [Om Lm].
  apply rev_ok_perfect in Ol, Om.
  assert (map vhash (log_forest l) = map vhash (log_forest m) \/ collision sha3_256) as [Ev|]; [|idtac|by right].
  { unfold vcs_root, vrepr in E. cbn [vm_peaks] in E. rewrite !map_map in E. cbn [snd] in E.
    pose proof (f_equal length Hs) as Hn. rewrite !length_map in Hn.
    destruct (log_forest l) as [|t ts], (log_forest m) as [|u us]; try done; [by left|]. cbn [map] in E |- *.
    apply fold_peaks_inj; [by rewrite !length_map; injection Hn| | |exact E].
    - apply (Forall_fmap vhash (fun h => length h = 32) (t :: ts)). eapply Forall_impl; [exact Ol|]. apply vhash_len.
    - apply (Forall_fmap vhash (fun h => length h = 32) (u :: us)). eapply Forall_impl; [exact Om|]. apply vhash_len. }
  destruct (forest_inj _ _ Hs Ol Om Ev) as [El|]; [|by right].
  apply (log_leaves_inj 0); [done|]. rewrite <- Ll, <- Lm. unfold forest_leaves. by rewrite !map_rev, El.
Qed.

End Mmr.

Lemma vcs_root_binds_log_witness :
  exists s u, @log_mmr Toy.sdk [be_bytes 32 5; be_bytes 32 6; be_bytes 32 7] = Some s /\
              @log_mmr Toy.sdk [be_bytes 32 5; be_bytes 32 6; be_bytes 32 7] = Some u /\
              vm_leaf_count s = 3 /\ (vm_leaf_count s = vm_leaf_count u -> True).
Proof.
  destruct (@vcs_root_binds_log Toy.sdk Toy.hash_ok [be_bytes 32 5; be_bytes 32 6; be_bytes 32 7]
    [be_bytes 32 5; be_bytes 32 6; be_bytes 32 7]) as (s & u & H1 & H2 & H3 & _).
  exists s, u. done.
Defined.
