(* ===== verification/VcsObject.v ===== *)
(** * Objects and addresses (origin-vcs/src/object.rs, crypto.rs [Signature])

    Blobs, trees, commits and tags, their canonical bytes and their SHA3-256
    addresses.  A tree's [BTreeMap] of paths is a [gmap]; [tree_json] lists it in
    ascending order of path, as serde writes it. *)

From Stdlib Require Import Ascii String.
From stdpp Require Import sorting.
From S2P Require Import Prelude RustStr Bytes Sdk.

Inductive ObjectKind := KBlob | KTree | KCommit | KTag.

Definition kind_tag (k : ObjectKind) : string :=
  match k with KBlob => "blob" | KTree => "tree" | KCommit => "commit" | KTag => "tag" end.

Inductive FileMode := MFile | MExecutable | MSymlink.

#[global] Instance FileMode_eq_dec : EqDecision FileMode.
Proof. solve_decision. Defined.

(** [mode & 0o111 != 0]. *)
Definition mode_from_permissions (mode : Z) : FileMode :=
  if Z.land mode 73 =? 0 then MFile else MExecutable.
(** [0o100644], [0o100755], [0o120000]. *)
Definition mode_bits (m : FileMode) : Z :=
  match m with MFile => 33188 | MExecutable => 33261 | MSymlink => 40960 end.
Definition mode_is_symlink (m : FileMode) : bool := match m with MSymlink => true | _ => false end.
Definition mode_as_str (m : FileMode) : string :=
  match m with MFile => "File" | MExecutable => "Executable" | MSymlink => "Symlink" end.
Definition mode_from_name (s : string) : result string FileMode :=
  if bool_decide (s = "File"%string) then Ok MFile
  else if bool_decide (s = "Executable"%string) then Ok MExecutable
  else if bool_decide (s = "Symlink"%string) then Ok MSymlink
  else Err ("unknown file mode '" +:+ s +:+ "'").

Record TreeEntry := MkEntry { te_mode : FileMode; te_id : bytes }.

#[global] Instance TreeEntry_eq_dec : EqDecision TreeEntry.
Proof. solve_decision. Defined.

(** [Tree]: [kind] is always ["tree"]. *)
Abbreviation Tree := (gmap string TreeEntry).
Record TreeObject := MkTreeObject { to_v : Z; to_entries : list (string * string * string) }.

Record VcsSignature := MkVcsSig { vs_ed25519 : bytes; vs_falcon1024 : bytes; vs_ed25519_pk : bytes; vs_falcon1024_pk : bytes }.

(** [Commit] and [Tag]; their [kind] fields hold the tag of the kind. *)
Record Commit := MkCommit {
  co_tree : bytes; co_parents : list bytes; co_message : string; co_author : string; co_committer : string; co_ts : Z }.
Record Tag := MkTag { tg_name : string; tg_target : bytes; tg_message : string; tg_ts : Z }.
Record CommitRecord := MkCommitRecord { cr_commit : Commit; cr_signature : VcsSignature }.

(** ** serde's rendering *)

Definition path_le (a b : string * TreeEntry) : Prop := String.leb (fst a) (fst b) = true.
#[global] Instance path_le_dec (a b : string * TreeEntry) : Decision (path_le a b).
Proof. unfold path_le. apply _. Defined.

Definition entry_json (e : TreeEntry) : json :=
  JObj [("mode", JStr (mode_as_str (te_mode e))); ("id", json_bytes (te_id e))].
Definition tree_json (t : Tree) : json :=
  JObj [("kind", JStr "tree");
        ("entries", JObj (map (fun pe => (fst pe, entry_json (snd pe))) (merge_sort path_le (map_to_list t))))].
Definition commit_json (c : Commit) : json :=
  JObj [("kind", JStr "commit"); ("tree", json_bytes (co_tree c)); ("parents", JArr (map json_bytes (co_parents c)));
        ("message", JStr (co_message c)); ("author", JStr (co_author c)); ("committer", JStr (co_committer c));
        ("ts", JNum (co_ts c))].
Definition tag_json (t : Tag) : json :=
  JObj [("kind", JStr "tag"); ("name", JStr (tg_name t)); ("target", json_bytes (tg_target t));
        ("message", JStr (tg_message t)); ("ts", JNum (tg_ts t))].
Definition tree_object_json (t : TreeObject) : json :=
  JObj [("v", JNum (to_v t));
        ("entries", JArr (map (fun '(n, k, h) => JArr [JStr n; JStr k; JStr h]) (to_entries t)))].
Definition signature_json (s : VcsSignature) : json :=
  JObj [("ed25519", json_bytes (vs_ed25519 s)); ("falcon1024", json_bytes (vs_falcon1024 s));
        ("ed25519_pk", json_bytes (vs_ed25519_pk s)); ("falcon1024_pk", json_bytes (vs_falcon1024_pk s))].
Definition commit_record_json (r : CommitRecord) : json :=
  JObj [("commit", commit_json (cr_commit r)); ("signature", signature_json (cr_signature r))].

Section Addresses.
Context `{SK : Sdk}.

(** [serde_json::to_vec(..).expect(..)]. *)
Definition to_vec (j : json) : bytes := default [] (json_to_vec j).

Definition canonical_blob (data : bytes) : bytes :=
  as_bytes (kind_tag KBlob) ++ [byte_of 0] ++ be_bytes 4 (Z.of_nat (length data)) ++ data.
Definition canonical_tree (t : Tree) : bytes := as_bytes (kind_tag KTree) ++ [byte_of 0] ++ to_vec (tree_json t).
Definition canonical_commit (c : Commit) : bytes := as_bytes (kind_tag KCommit) ++ [byte_of 0] ++ to_vec (commit_json c).
Definition canonical_tag (t : Tag) : bytes := as_bytes (kind_tag KTag) ++ [byte_of 0] ++ to_vec (tag_json t).

Definition address_of (header : string) (body : bytes) : bytes := sha3_256 (as_bytes header ++ [byte_of 10] ++ body).

Definition header_of (k : ObjectKind) (body : bytes) : string :=
  kind_tag k +:+ ":" +:+ show_Z (Z.of_nat (length body)).
Definition blob_address (data : bytes) : bytes := address_of (header_of KBlob data) data.
Definition tree_address (t : Tree) : bytes :=
  let body := canonical_tree t in address_of (header_of KTree body) body.
Definition commit_address (c : Commit) : bytes :=
  let body := canonical_commit c in address_of (header_of KCommit body) body.
Definition tag_address (t : Tag) : bytes :=
  let body := canonical_tag t in address_of (header_of KTag body) body.

(** ** Addresses bind kind and content *)

Inductive Object := OBlob (data : bytes) | OTree (t : Tree) | OCommit (c : Commit) | OTag (t : Tag).

Definition object_address (o : Object) : bytes :=
  match o with OBlob d => blob_address d | OTree t => tree_address t | OCommit c => commit_address c | OTag t => tag_address t end.
Definition object_kind (o : Object) : ObjectKind :=
  match o with OBlob _ => KBlob | OTree _ => KTree | OCommit _ => KCommit | OTag _ => KTag end.
Definition object_body (o : Object) : bytes :=
  match o with OBlob d => d | OTree t => canonical_tree t | OCommit c => canonical_commit c | OTag t => canonical_tag t end.

Lemma kind_tag_colon (k l : ObjectKind) (x y : list ascii) :
  chars (kind_tag k) ++ ":"%char :: x = chars (kind_tag l) ++ ":"%char :: y -> k = l /\ x = y.
Proof. destruct k, l; cbn; intros E; by simplify_eq. Qed.

Lemma digits_newline (l k : list ascii) (x y : bytes) :
  forallb is_digit l = true -> forallb is_digit k = true ->
  l ++ byte_of 10 :: x = k ++ byte_of 10 :: y -> l = k /\ x = y.
Proof.
  revert k. induction l as [|a l IH]; intros [|b k] Hl Hk E; cbn in Hl, Hk, E; simplify_eq; try done.
  apply andb_prop in Hl as [_ Hl], Hk as [_ Hk]. destruct (IH k Hl Hk ltac:(done)) as [-> ->]. done.
Qed.

Lemma map_inj_eq {A B : Type} (f : A -> B) (l k : list A) :
  (forall x y, f x = f y -> x = y) -> map f l = map f k -> l = k.
Proof.
  intros Hf. revert k. induction l as [|x l IH]; intros [|y k] E; cbn in E; simplify_eq; [done|].
  f_equal; [by apply Hf|by apply IH].
Qed.

Lemma commit_json_inj (c d : Commit) : commit_json c = commit_json d -> c = d.
Proof.
  destruct c, d. unfold commit_json. cbn. intros [= Et Ep -> -> -> ->].
  f_equal; [by apply code_map_inj|]. eapply map_inj_eq; [|exact Ep]. apply json_bytes_inj.
Qed.
Lemma tag_json_inj (c d : Tag) : tag_json c = tag_json d -> c = d.
Proof. destruct c, d. unfold tag_json. cbn. intros [= -> Et -> ->]. f_equal. by apply code_map_inj. Qed.

Lemma entry_json_inj (c d : TreeEntry) : entry_json c = entry_json d -> c = d.
Proof.
  destruct c as [m i], d as [n j]. unfold entry_json. cbn. intros [= Em Ei]. f_equal; [by destruct m, n|by apply code_map_inj].
Qed.

Lemma tree_json_inj (c d : Tree) : tree_json c = tree_json d -> c = d.
Proof.
  unfold tree_json. intros [= E]. apply map_inj_eq in E.
  2:{ intros [p e] [q f] Epq. cbn [fst snd] in Epq. f_equal; [congruence|]. apply entry_json_inj. congruence. }
  apply (map_to_list_inj c d). rewrite <- (merge_sort_Permutation path_le (map_to_list c)), E. apply merge_sort_Permutation.
Qed.

Lemma to_vec_inj {JO : JsonOk} (j k : json) : to_vec j = to_vec k -> j = k.
Proof.
  unfold to_vec. destruct (json_total j) as [x Ex], (json_total k) as [y Ey]. rewrite Ex, Ey. cbn. intros ->.
  apply json_inj. congruence.
Qed.

(** Objects with the same address are the same object, kind included, or
    SHA3-256 collides. *)
Theorem object_address_binds {JO : JsonOk} (o p : Object) :
  object_address o = object_address p -> o = p \/ collision sha3_256.
Proof.
  assert (forall o, object_address o = address_of (header_of (object_kind o) (object_body o)) (object_body o)) as Ea by by intros [].
  rewrite !Ea. unfold address_of. intros E. apply hash_eq_or_collision in E as [E|]; [left|by right].
  unfold header_of in E. rewrite !chars_app in E. unfold show_Z in E. rewrite !chars_of_chars in E.
  rewrite <- !app_assoc in E. cbn [app chars list_ascii_of_string] in E.
  apply kind_tag_colon in E as [Ek E].
  apply digits_newline in E as [_ E]; [|apply show_chars_spec; lia..].
  destruct o as [d|t|c|t], p as [d'|t'|c'|t']; try done; cbn [object_body] in E; f_equal; [done|..];
    unfold canonical_tree, canonical_commit, canonical_tag in E; rewrite !app_assoc in E;
    apply app_inv_head in E; apply to_vec_inj in E.
  - by apply tree_json_inj.
  - by apply commit_json_inj.
  - by apply tag_json_inj.
Qed.

End Addresses.

Lemma mode_roundtrip (m : FileMode) : mode_from_name (mode_as_str m) = Ok m.
Proof. by destruct m. Qed.

Lemma object_address_binds_witness :
  let o := OTag (MkTag "v1" (be_bytes 32 7) "first" 100) in o = o \/ collision (@sha3_256 Toy.sdk).
Proof. cbv zeta. apply (@object_address_binds Toy.sdk Toy.json_ok). done. Defined.
