(* ===== verification/VcsTree.v ===== *)
(** * Tree-level three-way merge (origin-vcs/src/commands.rs [three_way],
    [has_conflict_markers], [sparse_in_scope])

    What the merge decides for every path, the paths it reports, and how the
    commit guard recognises the markers of [VcsMerge]. *)

From Stdlib Require Import Ascii String.
From stdpp Require Import sorting.
From S2P Require Import Prelude RustStr Bytes Sdk VcsObject VcsMerge.

Definition string_le (a b : string) : Prop := String.leb a b = true.
#[global] Instance string_le_dec (a b : string) : Decision (string_le a b).
Proof. unfold string_le. apply _. Defined.

(** The paths of the three trees, in ascending order. *)
Definition merge_paths (base ours theirs : Tree) : list string :=
  merge_sort string_le (elements (dom base ∪ dom ours ∪ dom theirs)).

(** [oo.as_ref().is_some_and(|e| e.id == base_id)]. *)
Definition unchanged (o : option TreeEntry) (base_id : bytes) : bool :=
  match o with Some e => bool_decide (te_id e = base_id) | None => false end.

(** [o.or(b)]. *)
Definition opt_or {A : Type} (o b : option A) : option A := match o with Some _ => o | None => b end.

(** The entry chosen for a path, and whether the path conflicts. *)
Definition choose (b o t : option TreeEntry) : option TreeEntry * bool :=
  match b with
  | Some be =>
      let base_id := te_id be in
      match unchanged o base_id, unchanged t base_id with
      | true, true => (b, false)
      | false, true => (opt_or o b, false)
      | true, false => (opt_or t b, false)
      | false, false =>
          match o, t with
          | None, None => (None, false)
          | Some oe, Some te => if bool_decide (te_id oe = te_id te) then (Some oe, false) else (Some oe, true)
          | None, Some te => (Some te, true)
          | Some oe, None => (Some oe, true)
          end
      end
  | None =>
      match o, t with
      | None, None => (None, false)
      | Some oe, Some te => if bool_decide (te_id oe = te_id te) then (Some oe, false) else (Some oe, true)
      | Some oe, None => (Some oe, false)
      | None, Some te => (Some te, false)
      end
  end.

Definition three_way_step (base ours theirs : Tree) (acc : Tree * list string) (p : string) : Tree * list string :=
  let '(merged, conflicts) := acc in
  let '(chosen, conflict) := choose (base !! p) (ours !! p) (theirs !! p) in
  (match chosen with Some e => <[p := e]> merged | None => merged end,
   if conflict then conflicts ++ [p] else conflicts).

Definition three_way (base ours theirs : Tree) : Tree * list string :=
  foldl (three_way_step base ours theirs) (∅, []) (merge_paths base ours theirs).

(** [line.starts_with(b"<<<<<<< ")] or [b">>>>>>> "], on the pieces between newlines. *)
Definition has_conflict_markers (data : bytes) : bool :=
  existsb (fun l => starts_with (chars "<<<<<<< ") l || starts_with (chars ">>>>>>> ") l) (split_on newline data).

Definition sparse_in_scope (sparse : list string) (rel : string) : bool :=
  bool_decide (sparse = []) ||
  existsb (fun p => bool_decide (rel = p) ||
                    match strip_prefix (chars p) (chars rel) with Some r => starts_with ["/"%char] r | None => false end) sparse.

(** ** Every path *)

Lemma three_way_foldl (base ours theirs : Tree) (ps : list string) (m : Tree) (cs : list string) :
  NoDup ps -> (forall p, p ∈ ps -> m !! p = None) ->
  let '(m', cs') := foldl (three_way_step base ours theirs) (m, cs) ps in
  (forall p, p ∈ ps -> m' !! p = (choose (base !! p) (ours !! p) (theirs !! p)).1) /\
  (forall p, p ∉ ps -> m' !! p = m !! p) /\
  cs' = cs ++ filter (fun p => (choose (base !! p) (ours !! p) (theirs !! p)).2 = true) ps.
Proof.
  intros ND. revert m cs. induction ND as [|p ps Hp ND IH]; intros m cs Hm; cbn [foldl].
  { split; [by intros p ?%elem_of_nil|]. split; [done|]. by rewrite app_nil_r. }
  cbn [three_way_step]. destruct (choose (base !! p) (ours !! p) (theirs !! p)) as [ch cf] eqn:Ec.
  set (m1 := match ch with Some e => <[p := e]> m | None => m end).
  assert (forall q, q <> p -> m1 !! q = m !! q) as Hm1.
  { intros q Hq. unfold m1. destruct ch; [by rewrite lookup_insert_ne|done]. }
  assert (m1 !! p = ch) as Hmp.
  { unfold m1. destruct ch; [by rewrite lookup_insert_eq|]. apply Hm. by constructor. }
  specialize (IH m1 (if cf then cs ++ [p] else cs)).
  destruct (foldl _ _ ps) as [m' cs']. destruct IH as (H1 & H2 & H3).
  { intros q Hq. rewrite Hm1 by (intros ->; done). apply Hm. by constructor. }
  split; [|split].
  - intros q [->|Hq]%elem_of_cons; [|by apply H1]. by rewrite H2, Hmp, Ec.
  - intros q [Hq Hq']%not_elem_of_cons. by rewrite H2, Hm1.
  - rewrite H3, filter_cons, Ec. cbn. destruct cf; [rewrite decide_True by done|rewrite decide_False by done]; [|done].
    by rewrite <- app_assoc.
Qed.

Lemma merge_paths_elem (base ours theirs : Tree) (p : string) :
  p ∈ merge_paths base ours theirs <-> p ∈ dom base ∪ dom ours ∪ dom theirs.
Proof. unfold merge_paths. rewrite merge_sort_Permutation. apply elem_of_elements. Qed.

Lemma merge_paths_NoDup (base ours theirs : Tree) : NoDup (merge_paths base ours theirs).
Proof. unfold merge_paths. rewrite merge_sort_Permutation. apply NoDup_elements. Qed.

(** Every path of the merged tree is decided by the entries of that path
    alone, no other path appears, and the conflicts are exactly the paths
    whose decision conflicts. *)
Theorem three_way_spec (base ours theirs : Tree) :
  let '(merged, conflicts) := three_way base ours theirs in
  (forall p, merged !! p = (choose (base !! p) (ours !! p) (theirs !! p)).1) /\
  (forall p, p ∈ conflicts <-> (choose (base !! p) (ours !! p) (theirs !! p)).2 = true).
Proof.
  unfold three_way.
  pose proof (three_way_foldl base ours theirs (merge_paths base ours theirs) ∅ [] (merge_paths_NoDup _ _ _)
    (fun p _ => lookup_empty p)) as H.
  assert (forall p, p ∉ merge_paths base ours theirs -> base !! p = None /\ ours !! p = None /\ theirs !! p = None) as Hout.
  { intros p. rewrite merge_paths_elem, !not_elem_of_union, !not_elem_of_dom. tauto. }
  destruct (foldl _ _ _) as [merged conflicts]. destruct H as (H1 & H2 & ->). split.
  - intros p. destruct (decide (p ∈ merge_paths base ours theirs)) as [Hp|Hp]; [by apply H1|].
    rewrite H2 by done. destruct (Hout p Hp) as (-> & -> & ->). done.
  - intros p. cbn. rewrite list_elem_of_filter. split; [by intros [? _]|]. intros Hc. split; [done|].
    destruct (decide (p ∈ merge_paths base ours theirs)) as [Hp|Hp]; [done|].
    destruct (Hout p Hp) as (E1 & E2 & E3). by rewrite E1, E2, E3 in Hc.
Qed.

(** The change of one side over an untouched other side is taken, except
    that a deletion is undone: the deleted file comes back from the base,
    without a conflict. *)
Theorem three_way_one_sided (base ours : Tree) (p : string) :
  let '(merged, conflicts) := three_way base ours base in
  (p ∉ conflicts) /\
  merged !! p = match base !! p, ours !! p with
                | Some be, Some oe => if bool_decide (te_id oe = te_id be) then Some be else Some oe
                | Some be, None => Some be
                | None, o => o
                end.
Proof.
  pose proof (three_way_spec base ours base) as H. destruct (three_way base ours base) as [merged conflicts].
  destruct H as [Hm Hc]. rewrite Hm, Hc. unfold choose. destruct (base !! p) as [be|], (ours !! p) as [oe|]; cbn;
    try (by split); rewrite ?(bool_decide_eq_true_2 (te_id be = te_id be)) by done;
    try (by split). by case_bool_decide.
Qed.

(** ** Markers *)

Definition terminated (b : bytes) : Prop := b = [] \/ exists c, b = c ++ [newline].

Lemma split_on_cat (c b : bytes) :
  split_on newline (c ++ newline :: b) = split_on newline c ++ split_on newline b.
Proof.
  induction c as [|x c IH]; cbn [app split_on]; [by rewrite Ascii.eqb_refl|].
  rewrite IH. destruct (Ascii.eqb x newline); [done|].
  pose proof (split_on_ne newline c). by destruct (split_on newline c).
Qed.

Lemma markers_after (a b : bytes) : terminated a -> has_conflict_markers b = true -> has_conflict_markers (a ++ b) = true.
Proof.
  intros [->|[c ->]] Hb; [done|]. unfold has_conflict_markers in *. rewrite <- app_assoc. cbn [app].
  rewrite split_on_cat, existsb_app, Hb. apply orb_true_r.
Qed.

Lemma markers_here (b : bytes) : has_conflict_markers (ours_marker ++ b) = true.
Proof.
  unfold has_conflict_markers, ours_marker. rewrite <- app_assoc. cbn [app]. rewrite split_on_cat. done.
Qed.

Lemma markers_before (a b : bytes) : terminated a -> has_conflict_markers a = true -> has_conflict_markers (a ++ b) = true.
Proof.
  intros [->|[c ->]]; [done|]. unfold has_conflict_markers. set (f := fun l => _ || _). rewrite <- app_assoc. cbn [app].
  rewrite !split_on_cat, !existsb_app. change (existsb f (split_on newline [])) with false.
  rewrite orb_false_r. by intros ->.
Qed.

Lemma terminated_app (a b : bytes) : terminated a -> terminated b -> terminated (a ++ b).
Proof.
  intros Ha [->|[c ->]]; [by rewrite app_nil_r|]. right. exists (a ++ c). by rewrite app_assoc.
Qed.
Lemma terminated_concat (ls : list bytes) : Forall terminated ls -> terminated (concat ls).
Proof. induction 1; cbn; [by left|]. by apply terminated_app. Qed.

Lemma split_from_terminated (cur b : bytes) : terminated (cur ++ b) -> (b = [] -> cur = []) -> Forall terminated (split_from cur b).
Proof.
  revert cur. induction b as [|x b IH]; intros cur Ht Hc; cbn [split_from].
  - rewrite Hc by done. done.
  - case_bool_decide as E.
    + subst x. constructor; [right; by exists cur|]. apply IH; [|done]. cbn.
      destruct Ht as [Ht|[c Ht]]; [by destruct cur|].
      destruct b as [|y b _] using rev_ind; [by left|]. right. exists b.
      rewrite app_comm_cons, app_assoc in Ht. by apply app_inj_tail in Ht as [_ ->].
    + apply IH; [by rewrite <- app_assoc|]. intros ->.
      destruct Ht as [Ht|[c Ht]]; [by destruct cur|]. apply app_inj_tail in Ht as [_ ->]. done.
Qed.

Lemma split_lines_terminated (b : bytes) : terminated b -> Forall terminated (split_lines b).
Proof.
  intros Hb. unfold split_lines. case_bool_decide; [constructor; [by left|done]|]. by apply split_from_terminated.
Qed.

Definition edit_terminated (e : Edit) : Prop := match e with Keep => True | Replace ls => Forall terminated ls end.

Lemma backtrace_terminated (base target : list line) dp (fuel i j : nat) (held : list line) (edits es : list Edit) (h : list line) :
  Forall terminated target -> Forall terminated held -> Forall edit_terminated edits ->
  backtrace fuel base target dp i j held edits = Some (es, h) -> Forall edit_terminated es /\ Forall terminated h.
Proof.
  intros Ht. revert i j held edits. induction fuel as [|fuel IH]; intros i j held edits Hh He; [done|]. cbn [backtrace].
  destruct (i <? length base)%nat; [|by intros [= <- <-]].
  destruct (_ && _ && _); [|destruct (_ && _)]; apply IH; try done; try (apply Forall_app; split; [done|]; apply Forall_singleton).
  - by case_bool_decide.
  - destruct (nth_in_or_default j target []) as [Hin| ->]; [|by left]. rewrite Forall_forall in Ht. apply Ht. by apply list_elem_of_In.
  - done.
Qed.

Lemma myers_terminated (base target : list line) (es : list Edit) :
  Forall terminated target -> myers base target = Some es -> Forall edit_terminated es.
Proof.
  intros Ht E. destruct (myers_total base target) as (es' & E' & _ & Hb). rewrite E in E'. injection E' as <-.
  destruct base as [|b base]; [by injection E as <-|].
  by destruct (backtrace_terminated _ _ _ _ _ _ _ _ _ _ Ht (Forall_nil_2 _) (Forall_nil_2 _) (Hb ltac:(done))).
Qed.

Lemma fold_line_markers (b : line) (oe te : Edit) :
  terminated b -> edit_terminated oe -> edit_terminated te ->
  let '(out, c) := fold_line b oe te in terminated out /\ (c = true -> has_conflict_markers out = true).
Proof.
  intros Hb Ho Ht. destruct oe as [|ov], te as [|tv]; cbn [fold_line];
    try (split; [first [done|by apply terminated_concat]|done]).
  case_bool_decide; [split; [by apply terminated_concat|done]|]. split; [|intros _; apply markers_here].
  right. exists (ours_marker ++ concat ov ++ sep_marker ++ concat tv ++ as_bytes ">>>>>>> theirs").
  unfold theirs_marker. by rewrite <- !app_assoc.
Qed.

Lemma fold_edits_markers (base : list line) (oe te : list Edit) :
  Forall terminated base -> Forall edit_terminated oe -> Forall edit_terminated te ->
  let '(out, c) := fold_edits base oe te in c = true -> has_conflict_markers out = true.
Proof.
  intros Hb. revert oe te. induction Hb as [|b base Hl Hb IH]; intros oe te Ho Ht; cbn [fold_edits]; [done|].
  assert (forall es, Forall edit_terminated es -> edit_terminated (next_edit es) /\ Forall edit_terminated (tail es)) as Hn.
  { intros es [|e es' He Hes]; cbn; done. }
  pose proof (fold_line_markers b (next_edit oe) (next_edit te) Hl (proj1 (Hn _ Ho)) (proj1 (Hn _ Ht))) as H1.
  pose proof (IH (tail oe) (tail te) (proj2 (Hn _ Ho)) (proj2 (Hn _ Ht))) as H2.
  destruct (fold_line b _ _) as [out c], (fold_edits base _ _) as [out' c']. destruct H1 as [Hout Hc].
  intros [->| ->]%orb_prop; [apply markers_before|apply markers_after]; auto.
Qed.

(** When the three files end in a newline, a merge that conflicts is
    recognised by the guard of [commit]. *)
Theorem conflict_has_markers (base ours theirs out : bytes) :
  terminated base -> terminated ours -> terminated theirs ->
  merge_lines base ours theirs = Some (out, true) -> has_conflict_markers out = true.
Proof.
  intros Hb Ho Ht. unfold merge_lines. repeat case_bool_decide; try done.
  destruct (myers _ (split_lines ours)) as [oe|] eqn:Eo; [|done]. destruct (myers _ (split_lines theirs)) as [te|] eqn:Et; [|done].
  cbn. intros [= E].
  pose proof (fold_edits_markers (split_lines base) oe te (split_lines_terminated _ Hb)
    (myers_terminated _ _ _ (split_lines_terminated _ Ho) Eo) (myers_terminated _ _ _ (split_lines_terminated _ Ht) Et)) as H'.
  rewrite E in H'. by apply H'.
Qed.

(** Without the final newlines a conflict can go unnoticed. *)
Example conflict_without_markers :
  let nl := [newline] in
  let base := as_bytes "a" ++ nl ++ as_bytes "b" ++ nl in
  let out := as_bytes "X<<<<<<< ours" ++ nl ++ as_bytes "=======" ++ nl ++ as_bytes "Y>>>>>>> theirs" ++ nl in
  merge_lines base (as_bytes "X") (as_bytes "a" ++ nl ++ as_bytes "Y") = Some (out, true) /\ has_conflict_markers out = false.
Proof. by vm_compute. Qed.

Lemma conflict_has_markers_witness :
  match merge_lines (text ["a"; "b"]) (text ["x"; "b"]) (text ["y"; "b"]) with
  | Some (out, true) => has_conflict_markers out = true
  | _ => False
  end.
Proof.
  destruct (merge_lines (text ["a"; "b"]) (text ["x"; "b"]) (text ["y"; "b"])) as [[out c]|] eqn:E; [|by vm_compute in E].
  assert (c = true) as -> by (vm_compute in E; congruence).
  apply (conflict_has_markers (text ["a"; "b"]) (text ["x"; "b"]) (text ["y"; "b"]) out); [right|right|right|exact E].
  - by exists (as_bytes "a" ++ [newline] ++ as_bytes "b").
  - by exists (as_bytes "x" ++ [newline] ++ as_bytes "b").
  - by exists (as_bytes "y" ++ [newline] ++ as_bytes "b").
Defined.

(** A file deleted on one side and untouched on the other is back after the
    merge. *)
Example deletion_undone :
  let base : Tree := {["f" := MkEntry MFile (be_bytes 32 1)]} in
  three_way base ∅ base = (base, []) /\ three_way base base ∅ = (base, []).
Proof. by vm_compute. Qed.
