(* ===== verification/VcsStream.v ===== *)
(** * Streamed blobs (origin-vcs/src/stream.rs)

    The chunked [OVCS] envelope: encryption of a file's bytes, decryption with
    its truncation checks, and the nonces of the chunks.  The AEAD is a
    parameter; the random base nonce is an argument; file reads and writes succeed. *)

From Stdlib Require Import Ascii String.
From S2P Require Import Prelude RustStr Bytes.

Class XChaCha := {
  xc_encrypt : bytes -> bytes -> bytes -> result string bytes;
  xc_decrypt : bytes -> bytes -> bytes -> result string bytes
}.

(** Decryption inverts encryption; a ciphertext is the plaintext and a
    16-byte tag. *)
Class XChaChaOk `{XChaCha} : Prop := {
  xc_roundtrip : forall k n p c, xc_encrypt k n p = Ok c -> xc_decrypt k n c = Ok p;
  xc_length : forall k n p c, xc_encrypt k n p = Ok c -> length c = (length p + 16)%nat
}.

Definition STREAM_MAGIC : bytes := as_bytes "OVCS".
Definition STREAM_VERSION : Z := 1.
Definition STREAM_HEADER_LEN : nat := 31.
Definition DEFAULT_CHUNK_SIZE : nat := Z.to_nat (64 * 1024).

Definition is_streamed (b : bytes) : bool := (4 <=? length b)%nat && bool_decide (take 4 b = STREAM_MAGIC).

Definition xor_byte (a b : ascii) : ascii := byte_of (Z.lxor (code a) (code b)).

(** [n[16 + i] ^= cb[i]]. *)
Definition chunk_nonce (base : bytes) (counter : Z) : bytes :=
  take 16 base ++ zip_with xor_byte (drop 16 base) (be_bytes 8 counter).

(** [read_full] into a buffer of [n] bytes, until the file is used up. *)
Fixpoint file_chunks (fuel : nat) (n : nat) (data : bytes) : list bytes :=
  match fuel with
  | O => []
  | S fuel' => match data with [] => [] | _ => take n data :: file_chunks fuel' n (drop n data) end
  end.

Section Stream.
Context `{XC : XChaCha}.

Fixpoint encrypt_chunks (key base_nonce : bytes) (counter : Z) (chunks : list bytes) : result string bytes :=
  match chunks with
  | [] => Ok []
  | c :: cs =>
      ct ← map_err (fun e => "chunk " +:+ show_Z counter +:+ " encrypt: " +:+ e) (xc_encrypt key (chunk_nonce base_nonce counter) c);
      rest ← encrypt_chunks key base_nonce (counter + 1) cs;
      Ok (be_bytes 4 (Z.of_nat (length ct)) ++ ct ++ rest)
  end.

Definition stream_header (base_nonce : bytes) : bytes :=
  STREAM_MAGIC ++ [byte_of STREAM_VERSION; byte_of 0; byte_of 0] ++ base_nonce.

Definition stream_encrypt (key data : bytes) (chunk_size : Z) (nonce_draw : result string bytes) : result string bytes :=
  if negb ((1024 <=? chunk_size) && (chunk_size <=? 2 ^ 30))
  then Err ("chunk size " +:+ show_Z chunk_size +:+ " out of range (1024..=1073741824)")
  else
    base_nonce ← map_err (fun e => "nonce generation failed: " +:+ e) nonce_draw;
    body ← encrypt_chunks key base_nonce 0 (file_chunks (length data) (Z.to_nat chunk_size) data);
    Ok (stream_header base_nonce ++ body ++ be_bytes 4 0).

(** The messages in which [stream_decrypt_to_file] and
    [stream_decrypt_to_vec] differ. *)
Record StreamMsgs := MkMsgs {
  msg_no_sentinel : nat -> string; msg_short_chunk : Z -> nat -> nat -> string; msg_bad_chunk : Z -> string }.
Definition file_msgs : StreamMsgs := MkMsgs
  (fun got => "truncated stream: expected 4-byte chunk length, got " +:+ show_Z (Z.of_nat got) +:+ " bytes (no sentinel)")
  (fun counter len got => "truncated stream: chunk " +:+ show_Z counter +:+ " expected " +:+ show_Z (Z.of_nat len) +:+ " bytes, got "
                          +:+ show_Z (Z.of_nat got))
  (fun counter => "chunk " +:+ show_Z counter +:+ " decryption failed (corrupt or wrong key)").
Definition vec_msgs : StreamMsgs := MkMsgs
  (fun _ => "truncated stream (no sentinel)") (fun _ _ _ => "truncated stream (short chunk)")
  (fun counter => "chunk " +:+ show_Z counter +:+ " decryption failed").

(** The decode loop; a chunk consumes at least its length field. *)
Fixpoint decrypt_chunks (msgs : StreamMsgs) (fuel : nat) (key base_nonce : bytes) (counter : Z) (cursor out : bytes) : option (result string bytes) :=
  match fuel with
  | O => None
  | S fuel' =>
      if (length cursor <? 4)%nat
      then Some (Err (msg_no_sentinel msgs (length cursor)))
      else
        let chunk_len := Z.to_nat (be_val (take 4 cursor)) in
        let cursor := drop 4 cursor in
        if (chunk_len =? 0)%nat then Some (Ok out)
        else if (length cursor <? chunk_len)%nat
        then Some (Err (msg_short_chunk msgs counter chunk_len (length cursor)))
        else match xc_decrypt key (chunk_nonce base_nonce counter) (take chunk_len cursor) with
             | Err _ => Some (Err (msg_bad_chunk msgs counter))
             | Ok pt => decrypt_chunks msgs fuel' key base_nonce (counter + 1) (drop chunk_len cursor) (out ++ pt)
             end
  end.

Definition stream_decrypt (key b : bytes) : option (result string bytes) :=
  if (length b <? STREAM_HEADER_LEN + 4)%nat then Some (Err "streamed blob too short")
  else if negb (bool_decide (take 4 b = STREAM_MAGIC)) then Some (Err "not a streamed (OVCS) blob")
  else if negb (default 0 (code <$> b !! 4%nat) =? STREAM_VERSION)
  then Some (Err ("unsupported streamed blob version " +:+ show_Z (default 0 (code <$> b !! 4%nat))))
  else decrypt_chunks file_msgs (S (length b)) key (slice 7 31 b) 0 (drop STREAM_HEADER_LEN b) [].

Definition stream_decrypt_to_vec (key b : bytes) : option (result string bytes) :=
  if (length b <? STREAM_HEADER_LEN + 4)%nat || negb (bool_decide (take 4 b = STREAM_MAGIC))
  then Some (Err "not a streamed (OVCS) blob")
  else decrypt_chunks vec_msgs (S (length b)) key (slice 7 31 b) 0 (drop STREAM_HEADER_LEN b) [].

(** ** Theory *)

Lemma file_chunks_concat (fuel n : nat) (data : bytes) :
  (0 < n)%nat -> (length data <= fuel)%nat -> concat (file_chunks fuel n data) = data.
Proof.
  intros Hn. revert data. induction fuel as [|fuel IH]; intros data Hd; cbn; [destruct data; [done|cbn in Hd; lia]|].
  destruct data as [|x data]; [done|]. cbn [concat]. rewrite IH; [by rewrite take_drop|].
  rewrite length_drop. cbn in *. lia.
Qed.

Lemma file_chunks_size (fuel n : nat) (data : bytes) : Forall (fun c => (length c <= n)%nat) (file_chunks fuel n data).
Proof.
  revert data. induction fuel as [|fuel IH]; intros data; cbn; [constructor|].
  destruct data as [|x data]; [constructor|]. constructor; [|apply IH]. rewrite length_take. lia.
Qed.

Lemma decrypt_total (msgs : StreamMsgs) (fuel : nat) (key base : bytes) (counter : Z) (cursor out : bytes) :
  (length cursor < fuel)%nat -> exists r, decrypt_chunks msgs fuel key base counter cursor out = Some r.
Proof.
  revert counter cursor out. induction fuel as [|fuel IH]; intros counter cursor out Hf; [lia|]. cbn [decrypt_chunks].
  destruct (Nat.ltb_spec (length cursor) 4); [by eexists|].
  destruct (Nat.eqb_spec (Z.to_nat (be_val (take 4 cursor))) 0); [by eexists|].
  destruct (length (drop 4 cursor) <? _)%nat; [by eexists|]. destruct (xc_decrypt _ _ _); [|by eexists].
  apply IH. rewrite !length_drop. lia.
Qed.

Lemma chunk_field (ct rest : bytes) : Z.of_nat (length ct) < 256 ^ 4 ->
  take 4 (be_bytes 4 (Z.of_nat (length ct)) ++ ct ++ rest) = be_bytes 4 (Z.of_nat (length ct)) /\
  drop 4 (be_bytes 4 (Z.of_nat (length ct)) ++ ct ++ rest) = ct ++ rest /\
  Z.to_nat (be_val (be_bytes 4 (Z.of_nat (length ct)))) = length ct.
Proof.
  intros Hl. split; [|split].
  - rewrite take_app_length'; [done|by rewrite be_bytes_length].
  - rewrite drop_app_length'; [done|by rewrite be_bytes_length].
  - rewrite be_val_bytes by (split; [lia|exact Hl]). lia.
Qed.

Lemma decrypt_encrypt_chunks {XO : XChaChaOk} (msgs : StreamMsgs) (chunks : list bytes) (key base : bytes) (counter : Z) (body out : bytes) (fuel : nat) :
  Forall (fun c => (length c <= Z.to_nat (2 ^ 30))%nat) chunks ->
  encrypt_chunks key base counter chunks = Ok body -> (length (body ++ be_bytes 4 0) < fuel)%nat ->
  decrypt_chunks msgs fuel key base counter (body ++ be_bytes 4 0) out = Some (Ok (out ++ concat chunks)).
Proof.
  intros Hc. revert counter body out fuel. induction Hc as [|c cs Hl Hc IH]; intros counter body out fuel E Hf; cbn [encrypt_chunks] in E.
  - injection E as <-. destruct fuel as [|fuel]; [lia|]. cbn. by rewrite app_nil_r.
  - apply result_bind_Ok in E as (ct & Ect & E). apply result_bind_Ok in E as (rest & Er & E).
    assert (body = be_bytes 4 (Z.of_nat (length ct)) ++ ct ++ rest) as -> by congruence. clear E.
    destruct (xc_encrypt key (chunk_nonce base counter) c) as [ct'|] eqn:Ex; [|done]. injection Ect as <-.
    pose proof (xc_length _ _ _ _ Ex) as Hlen. apply xc_roundtrip in Ex.
    destruct fuel as [|fuel]; [lia|]. cbn [decrypt_chunks]. rewrite <- !app_assoc.
    destruct (chunk_field ct' (rest ++ be_bytes 4 0)) as (-> & -> & ->); [lia|].
    rewrite !length_app, be_bytes_length in Hf |- *.
    destruct (Nat.ltb_spec (4 + (length ct' + (length rest + length (be_bytes 4 0)))) 4); [lia|].
    destruct (Nat.eqb_spec (length ct') 0); [lia|].
    destruct (Nat.ltb_spec (length ct' + (length rest + length (be_bytes 4 0))) (length ct')); [lia|].
    rewrite take_app_length, drop_app_length, Ex. rewrite (IH (counter + 1) rest); [by rewrite <- app_assoc|done|].
    rewrite length_app. rewrite be_bytes_length in *. lia.
Qed.

Lemma decrypt_prefix {XO : XChaChaOk} (msgs : StreamMsgs) (chunks : list bytes) (key base : bytes) (counter : Z) (body out p q : bytes) (fuel : nat) :
  Forall (fun c => (length c <= Z.to_nat (2 ^ 30))%nat) chunks ->
  encrypt_chunks key base counter chunks = Ok body -> body ++ be_bytes 4 0 = p ++ q -> q <> [] -> (length p < fuel)%nat ->
  exists e, decrypt_chunks msgs fuel key base counter p out = Some (Err e).
Proof.
  intros Hc. revert counter body out p fuel. induction Hc as [|c cs Hl Hc IH]; intros counter body out p fuel E Epq Hq Hf; cbn [encrypt_chunks] in E;
    (destruct fuel as [|fuel]; [lia|]); cbn [decrypt_chunks].
  - injection E as <-. apply (f_equal length) in Epq. rewrite !length_app in Epq. cbn in Epq.
    destruct (Nat.ltb_spec (length p) 4); [by eexists|]. destruct q; [done|]. cbn in Epq. lia.
  - apply result_bind_Ok in E as (ct & Ect & E). apply result_bind_Ok in E as (rest & Er & E).
    assert (body = be_bytes 4 (Z.of_nat (length ct)) ++ ct ++ rest) as -> by congruence. clear E.
    destruct (xc_encrypt key (chunk_nonce base counter) c) as [ct'|] eqn:Ex; [|done]. injection Ect as <-.
    pose proof (xc_length _ _ _ _ Ex) as Hlen. apply xc_roundtrip in Ex.
    destruct (Nat.ltb_spec (length p) 4) as [|Hp]; [by eexists|].
    rewrite <- !app_assoc in Epq.
    destruct (chunk_field ct' (rest ++ be_bytes 4 0)) as (T4 & D4 & V4); [lia|].
    assert (take 4 p = be_bytes 4 (Z.of_nat (length ct'))) as Et.
    { rewrite <- T4, Epq. by rewrite take_app_le. }
    assert (drop 4 p ++ q = ct' ++ rest ++ be_bytes 4 0) as Ed by (rewrite <- D4, Epq, drop_app_le; done).
    rewrite Et, V4. destruct (Nat.eqb_spec (length ct') 0); [lia|].
    destruct (Nat.ltb_spec (length (drop 4 p)) (length ct')) as [|Hct]; [by eexists|].
    assert (take (length ct') (drop 4 p) = ct') as Etc.
    { apply (f_equal (take (length ct'))) in Ed. by rewrite take_app_length, take_app_le in Ed. }
    rewrite Etc, Ex. apply (IH _ rest); [done| |done|rewrite !length_drop; lia].
    apply (f_equal (drop (length ct'))) in Ed. by rewrite drop_app_length, drop_app_le in Ed.
Qed.

Lemma stream_parse (base tail : bytes) : length base = 24%nat ->
  let b := stream_header base ++ tail in
  length b = (31 + length tail)%nat /\ take 4 b = STREAM_MAGIC /\ b !! 4%nat = Some (byte_of STREAM_VERSION) /\
  slice 7 31 b = base /\ drop STREAM_HEADER_LEN b = tail.
Proof.
  intros Hb. cbn zeta. assert (length (stream_header base) = 31%nat) as Hh by (cbn; lia). split_and!; try done.
  - rewrite length_app. lia.
  - unfold stream_header. rewrite <- !app_assoc. rewrite app_assoc.
    replace 31%nat with (7 + length base)%nat by lia. by apply slice_app.
  - change STREAM_HEADER_LEN with 31%nat. rewrite <- Hh. apply drop_app_length.
Qed.

Lemma stream_decrypt_header (key base tail : bytes) : length base = 24%nat -> (4 <= length tail)%nat ->
  stream_decrypt key (stream_header base ++ tail) = decrypt_chunks file_msgs (S (31 + length tail)) key base 0 tail [].
Proof.
  intros Hb Ht. destruct (stream_parse base tail Hb) as (Hl & Hm & Hv & Hs & Hd). unfold stream_decrypt.
  rewrite Hl, Hm, Hv, Hs, Hd. unfold STREAM_HEADER_LEN.
  destruct (Nat.ltb_spec (31 + length tail) (31 + 4)); [lia|]. by rewrite bool_decide_eq_true_2.
Qed.

Lemma stream_vec_header (key base tail : bytes) : length base = 24%nat -> (4 <= length tail)%nat ->
  stream_decrypt_to_vec key (stream_header base ++ tail) = decrypt_chunks vec_msgs (S (31 + length tail)) key base 0 tail [].
Proof.
  intros Hb Ht. destruct (stream_parse base tail Hb) as (Hl & Hm & _ & Hs & Hd). unfold stream_decrypt_to_vec.
  rewrite Hl, Hm, Hs, Hd. unfold STREAM_HEADER_LEN.
  destruct (Nat.ltb_spec (31 + length tail) (31 + 4)); [lia|]. by rewrite bool_decide_eq_true_2.
Qed.

Lemma stream_encrypt_inv (key data : bytes) (chunk_size : Z) (draw : result string bytes) (b : bytes) :
  stream_encrypt key data chunk_size draw = Ok b ->
  exists base chunks body, draw = Ok base /\ 1024 <= chunk_size <= 2 ^ 30 /\
    chunks = file_chunks (length data) (Z.to_nat chunk_size) data /\
    encrypt_chunks key base 0 chunks = Ok body /\ b = stream_header base ++ body ++ be_bytes 4 0 /\
    concat chunks = data /\ Forall (fun c => (length c <= Z.to_nat (2 ^ 30))%nat) chunks.
Proof.
  unfold stream_encrypt. destruct (Z.leb_spec 1024 chunk_size); [|done]. destruct (Z.leb_spec chunk_size (2 ^ 30)); [|done].
  cbn [andb negb]. destruct draw as [base|]; [|done]. cbn [map_err mbind result_mbind].
  destruct (encrypt_chunks _ _ _ _) as [body|] eqn:E; [|done]. intros [= <-].
  eexists base, _, body. split_and!; try done.
  - apply file_chunks_concat; lia.
  - eapply Forall_impl; [apply file_chunks_size|]. cbn. lia.
Qed.

(** Decrypting a streamed blob, to a file or in memory, gives the
    bytes back, and every proper prefix of the stream is rejected. *)
Theorem stream_roundtrip {XO : XChaChaOk} (key data base : bytes) (chunk_size : Z) (b : bytes) :
  length base = 24%nat -> stream_encrypt key data chunk_size (Ok base) = Ok b ->
  stream_decrypt key b = Some (Ok data) /\ stream_decrypt_to_vec key b = Some (Ok data) /\
  (forall p q, b = p ++ q -> q <> [] -> exists e, stream_decrypt key p = Some (Err e)).
Proof.
  intros Hb E. apply stream_encrypt_inv in E as (base' & chunks & body & [= <-] & _ & _ & Ee & -> & Hd & Hc).
  assert (4 <= length (body ++ be_bytes 4 0))%nat as H4 by (rewrite length_app, be_bytes_length; lia).
  split; [|split].
  - rewrite stream_decrypt_header by done. rewrite (decrypt_encrypt_chunks file_msgs chunks key base 0 body []); [by rewrite Hd|done|done|lia].
  - rewrite stream_vec_header by done. rewrite (decrypt_encrypt_chunks vec_msgs chunks key base 0 body []); [by rewrite Hd|done|done|lia].
  - intros p q Epq Hq. destruct (Nat.ltb_spec (length p) 35) as [Hp|Hp].
    { exists "streamed blob too short"%string. unfold stream_decrypt, STREAM_HEADER_LEN.
      destruct (Nat.ltb_spec (length p) (31 + 4)); [done|lia]. }
    assert (length (stream_header base) = 31%nat) as Hh by (cbn; lia).
    assert (exists p', p = stream_header base ++ p') as [p' ->].
    { exists (drop 31 p). rewrite <- (take_drop 31 p) at 1. f_equal.
      apply (f_equal (take 31)) in Epq. rewrite <- Hh in Epq at 1. rewrite take_app_length, take_app_le in Epq by lia. done. }
    rewrite <- app_assoc in Epq. apply app_inv_head in Epq. rewrite length_app in Hp.
    rewrite stream_decrypt_header by (done || lia).
    apply (decrypt_prefix file_msgs chunks key base 0 body [] p' q); [done|done|done|done|lia].
Qed.

Lemma encrypt_chunks_app (key base : bytes) (cs ds : list bytes) (counter : Z) (body : bytes) :
  encrypt_chunks key base counter (cs ++ ds) = Ok body ->
  exists body1 rest, encrypt_chunks key base counter cs = Ok body1 /\ body = body1 ++ rest.
Proof.
  revert counter body. induction cs as [|c cs IH]; intros counter body E; cbn [encrypt_chunks app] in *; [by exists [], body|].
  apply result_bind_Ok in E as (ct & Ect & E). apply result_bind_Ok in E as (r & Er & E).
  assert (body = be_bytes 4 (Z.of_nat (length ct)) ++ ct ++ r) as -> by congruence. clear E.
  apply IH in Er as (b1 & rest & E1 & ->). rewrite Ect. cbn [mbind result_mbind]. rewrite E1. cbn [mbind result_mbind].
  eexists _, rest. split; [done|]. by rewrite <- !app_assoc.
Qed.

(** The end mark is not authenticated: cutting a stream behind any chunk and
    writing the mark again gives a stream that decrypts to a prefix of the file. *)
Theorem stream_cut_undetected {XO : XChaChaOk} (key data base : bytes) (chunk_size : Z) (b : bytes) (n : nat) :
  length base = 24%nat -> stream_encrypt key data chunk_size (Ok base) = Ok b ->
  exists cut rest, b = cut ++ rest /\
    stream_decrypt key (cut ++ be_bytes 4 0)
    = Some (Ok (concat (take n (file_chunks (length data) (Z.to_nat chunk_size) data)))).
Proof.
  intros Hb E. apply stream_encrypt_inv in E as (base' & chunks & body & [= <-] & _ & -> & Ee & -> & _ & Hc).
  set (chunks := file_chunks _ _ _) in *. rewrite <- (take_drop n chunks) in Ee.
  apply encrypt_chunks_app in Ee as (b1 & rest & E1 & ->).
  exists (stream_header base ++ b1), (rest ++ be_bytes 4 0). rewrite <- !app_assoc. split; [done|].
  rewrite stream_decrypt_header by (rewrite ?length_app, ?be_bytes_length; lia || done).
  rewrite (decrypt_encrypt_chunks file_msgs (take n chunks) key base 0 b1 []); [done|by apply Forall_take|done|lia].
Qed.

End Stream.

(** ** Nonces *)

Lemma lxor_byte_inj (a b c : ascii) : xor_byte a b = xor_byte a c -> b = c.
Proof.
  unfold xor_byte. intros E. apply (f_equal code) in E. rewrite !code_byte_of in E.
  assert (forall x y, 0 <= Z.lxor (code x) (code y) < 256) as Hr.
  { intros x y. pose proof (code_range x). pose proof (code_range y). split; [apply Z.lxor_nonneg; lia|].
    destruct (Z.eq_dec (Z.lxor (code x) (code y)) 0) as [->|Hn]; [lia|].
    assert (0 <= Z.lxor (code x) (code y)) by (apply Z.lxor_nonneg; lia).
    change 256 with (2 ^ 8). apply Z.log2_lt_pow2; [lia|].
    pose proof (Z.log2_lxor (code x) (code y) ltac:(lia) ltac:(lia)).
    assert (forall z, 0 <= z < 256 -> Z.log2 z < 8) as Hz.
    { intros z Hz. destruct (Z.eq_dec z 0) as [->|]; [cbn; lia|]. apply Z.log2_lt_pow2; [lia|]. change (2 ^ 8) with 256. lia. }
    pose proof (Hz (code x)). pose proof (Hz (code y)). lia. }
  rewrite !Z.mod_small in E by apply Hr.
  apply (f_equal (Z.lxor (code a))) in E. rewrite <- !Z.lxor_assoc, Z.lxor_nilpotent, !Z.lxor_0_l in E.
  rewrite <- (byte_of_code b), <- (byte_of_code c). congruence.
Qed.

(** No two chunks of a stream are encrypted under the same nonce. *)
Theorem chunk_nonces_unique (base : bytes) (i j : Z) :
  length base = 24%nat -> in_u64 i -> in_u64 j -> chunk_nonce base i = chunk_nonce base j -> i = j.
Proof.
  intros Hb Hi Hj E. unfold chunk_nonce in E. apply app_inv_head in E.
  assert (be_bytes 8 i = be_bytes 8 j) as E'.
  { assert (length (drop 16 base) = 8%nat) as Hl by (rewrite length_drop; lia).
    assert (length (be_bytes 8 i) = length (drop 16 base)) as Li by (by rewrite be_bytes_length).
    assert (length (be_bytes 8 j) = length (drop 16 base)) as Lj by (by rewrite be_bytes_length). revert E Li Lj. generalize (be_bytes 8 i), (be_bytes 8 j). clear.
    induction (drop 16 base) as [|x l IH]; intros u v E Li Lj.
    { apply nil_length_inv in Li, Lj. congruence. }
    destruct u as [|y u]; [done|]. destruct v as [|z v]; [done|].
    pose proof (f_equal (hd x) E) as E1. pose proof (f_equal (@tail ascii) E) as E2. cbn [hd tail zip_with] in E1, E2.
    apply lxor_byte_inj in E1. cbn [length] in Li, Lj. f_equal; [done|]. apply IH; [done|lia|lia]. }
  apply be_bytes_inj in E'; [done|unfold in_u64, u64_max in *; cbn; lia..].
Qed.

(** ** A concrete instance *)

Module ToyStream.
Definition crypto : XChaCha := {|
  xc_encrypt k n p := Ok (p ++ replicate 16 (byte_of 0));
  xc_decrypt k n c := Ok (take (length c - 16) c)
|}.
#[global] Instance crypto_ok : @XChaChaOk crypto.
Proof.
  split; intros k n p c E;
    change (@Ok string bytes (p ++ replicate 16 (byte_of 0)) = Ok c) in E; assert (c = p ++ replicate 16 (byte_of 0)) as -> by congruence.
  all: cbn [xc_decrypt crypto].
  - rewrite length_app, length_replicate. replace (length p + 16 - 16)%nat with (length p) by lia. by rewrite take_app_length.
  - by rewrite length_app, length_replicate.
Qed.
Definition data : bytes := replicate 3 (byte_of 65).
Definition stream : bytes := stream_header (replicate 24 (byte_of 1)) ++ be_bytes 4 19 ++ data ++ replicate 16 (byte_of 0) ++ be_bytes 4 0.
End ToyStream.

Lemma stream_roundtrip_witness :
  @stream_decrypt ToyStream.crypto [] ToyStream.stream = Some (Ok ToyStream.data) /\
  exists e, @stream_decrypt ToyStream.crypto [] (take 50 ToyStream.stream) = Some (Err e).
Proof.
  destruct (@stream_roundtrip ToyStream.crypto ToyStream.crypto_ok [] ToyStream.data (replicate 24 (byte_of 1)) 1024 ToyStream.stream
    ltac:(done) ltac:(by vm_compute)) as (H1 & _ & H2).
  split; [exact H1|]. apply (H2 _ (drop 50 ToyStream.stream)); [by rewrite take_drop|by vm_compute].
Defined.

Lemma stream_cut_undetected_witness :
  exists cut rest, ToyStream.stream = cut ++ rest /\
    @stream_decrypt ToyStream.crypto [] (cut ++ be_bytes 4 0) = Some (Ok []).
Proof.
  exact (@stream_cut_undetected ToyStream.crypto ToyStream.crypto_ok [] ToyStream.data (replicate 24 (byte_of 1)) 1024 ToyStream.stream 0
    ltac:(done) ltac:(by vm_compute)).
Defined.

Lemma chunk_nonces_unique_witness :
  let base := replicate 24 (byte_of 1) in chunk_nonce base 5 = chunk_nonce base 5 -> 5 = 5.
Proof. cbv zeta. apply (chunk_nonces_unique (replicate 24 (byte_of 1)) 5 5); done. Defined.
