(* ===== verification/VcsStore.v ===== *)
(** * The object store (origin-vcs/src/store.rs) and the walks over it
    (commands.rs [cmd_gc])

    Encrypted content-addressed objects, signed refs, the commit log and its
    range, and the reachability walks that garbage collection and push
    rely on.  A directory of files is a map; writing a file succeeds and
    reading a missing one fails.  serde's typed decoding is a parameter, and
    the random draws of an encryption are numbered by a counter of the
    store.  The loops take fuel; the second half of this file shows it is enough. *)

From Stdlib Require Import Ascii String.
From S2P Require Import Prelude RustStr Bytes Sdk StateErr Envelope MmrTheory VcsMmr VcsObject VcsStream.

Class VcsSerde := {
  de_commit_record : bytes -> result string CommitRecord;
  de_tag : bytes -> result string Tag;
  de_value : bytes -> result string json;
  value_tree_object : json -> result string TreeObject;
  value_tree : json -> result string Tree;
  de_signed_ref : bytes -> result string (bytes * VcsSignature);
  de_index : bytes -> result string Tree
}.

Class Draws := { draw_salt : nat -> result string bytes; draw_nonce : nat -> result string bytes }.

Record VStore := MkStore {
  st_objects : gmap bytes bytes;
  st_refs : gmap (string * string) bytes;
  st_head : option string;
  st_stashes : list bytes;
  st_index : option bytes;
  st_commit_log : list bytes;
  st_branches : gmap string bytes;
  st_tags : gmap string bytes;
  st_mmr : VcsMmrState;
  st_mmr_file : option VcsMmrState;
  st_draws : nat
}.

Definition with_objects (o : gmap bytes bytes) (s : VStore) : VStore :=
  MkStore o (st_refs s) (st_head s) (st_stashes s) (st_index s) (st_commit_log s) (st_branches s) (st_tags s) (st_mmr s) (st_mmr_file s) (st_draws s).
Definition with_refs (r : gmap (string * string) bytes) (s : VStore) : VStore :=
  MkStore (st_objects s) r (st_head s) (st_stashes s) (st_index s) (st_commit_log s) (st_branches s) (st_tags s) (st_mmr s) (st_mmr_file s) (st_draws s).
Definition with_index (i : option bytes) (s : VStore) : VStore :=
  MkStore (st_objects s) (st_refs s) (st_head s) (st_stashes s) i (st_commit_log s) (st_branches s) (st_tags s) (st_mmr s) (st_mmr_file s) (st_draws s).
Definition with_log (m : VcsMmrState) (f : option VcsMmrState) (l : list bytes) (s : VStore) : VStore :=
  MkStore (st_objects s) (st_refs s) (st_head s) (st_stashes s) (st_index s) l (st_branches s) (st_tags s) m f (st_draws s).
Definition with_draws (n : nat) (s : VStore) : VStore :=
  MkStore (st_objects s) (st_refs s) (st_head s) (st_stashes s) (st_index s) (st_commit_log s) (st_branches s) (st_tags s) (st_mmr s) (st_mmr_file s) n.
Definition with_mem (h : option string) (b t : gmap string bytes) (s : VStore) : VStore :=
  MkStore (st_objects s) (st_refs s) h (st_stashes s) (st_index s) (st_commit_log s) b t (st_mmr s) (st_mmr_file s) (st_draws s).

Section Store.
Context `{SK : Sdk, AE : Aead, XC : XChaCha, SD : VcsSerde, DR : Draws}.
Variable key : bytes.

(** ** Envelopes *)

Definition store_encrypt (plaintext : bytes) : SE VStore string bytes := fun s =>
  let n := st_draws s in
  match encrypt plaintext key Nano File false (draw_salt n) (draw_nonce n) with
  | Ok env => (Ok (to_bytes env), with_draws (S n) s)
  | Err e => (Err ("env encrypt: " +:+ e), with_draws (S n) s)
  end.

Definition store_decrypt (b : bytes) : result string bytes :=
  env ← map_err (fun e => "env parse: " +:+ e) (from_bytes b);
  map_err (fun e => "env auth/decrypt failed: " +:+ e) (decrypt env key).

(** ** Objects *)

Definition put_raw (id plaintext : bytes) : SE VStore string unit :=
  b ← store_encrypt plaintext;
  modify (fun s => with_objects (<[id := b]> (st_objects s)) s).

Definition envelope_bytes (s : VStore) (id : bytes) : result string bytes :=
  match st_objects s !! id with Some b => Ok b | None => Err ("read " +:+ hex_encode id +:+ ": not found") end.
Definition store_read (s : VStore) (id : bytes) : result string bytes := b ← envelope_bytes s id; store_decrypt b.

Definition write_blob (data : bytes) : SE VStore string bytes :=
  let id := blob_address data in _ ← put_raw id data; mret id.
Definition read_blob (s : VStore) (id : bytes) : option (result string bytes) :=
  match envelope_bytes s id with
  | Err e => Some (Err e)
  | Ok b => if is_streamed b then stream_decrypt_to_vec key b else Some (store_decrypt b)
  end.
Definition write_commit (c : Commit) (sig : VcsSignature) : SE VStore string bytes :=
  let id := commit_address c in _ ← put_raw id (to_vec (commit_record_json (MkCommitRecord c sig))); mret id.
Definition read_commit_record (s : VStore) (id : bytes) : result string CommitRecord :=
  b ← store_read s id; map_err (fun e => "decoded commit: " +:+ e) (de_commit_record b).
Definition read_commit (s : VStore) (id : bytes) : result string Commit := r ← read_commit_record s id; Ok (cr_commit r).
Definition write_tag (t : Tag) : SE VStore string bytes :=
  let id := tag_address t in _ ← put_raw id (to_vec (tag_json t)); mret id.
Definition read_tag (s : VStore) (id : bytes) : result string Tag :=
  b ← store_read s id; map_err (fun e => "decoded tag: " +:+ e) (de_tag b).

Definition object_exists (s : VStore) (id : bytes) : bool := bool_decide (is_Some (st_objects s !! id)).
Definition delete_object (id : bytes) (s : VStore) : bool * VStore :=
  if object_exists s id then (true, with_objects (delete id (st_objects s)) s) else (false, s).
Definition put_envelope_bytes (id b : bytes) (s : VStore) : bool * VStore :=
  if object_exists s id then (false, s) else (true, with_objects (<[id := b]> (st_objects s)) s).
Definition all_object_ids (s : VStore) : list bytes := elements (dom (st_objects s)).

Definition id_from_hex_str (h : string) : result string bytes :=
  b ← map_err (fun e => "bad id hex: " +:+ e) (hex_decode h);
  if (length b =? 32)%nat then Ok b else Err ("id must be 32 bytes, got " +:+ show_Z (Z.of_nat (length b))).

Fixpoint ids_of_rows (rows : list (string * string * string)) : result string (list bytes) :=
  match rows with
  | [] => Ok []
  | (_, _, hexid) :: rows' => id ← id_from_hex_str hexid; ids ← ids_of_rows rows'; Ok (id :: ids)
  end.

(** [v.get("v").and_then(|x| x.as_u64()) == Some(2)]. *)
Definition is_v2 (v : json) : bool :=
  match v with
  | JObj fields => match List.find (fun kv => bool_decide (fst kv = "v"%string)) fields with Some (_, JNum 2) => true | _ => false end
  | _ => false
  end.

Definition tree_object_children (s : VStore) (id : bytes) : result string (list bytes) :=
  b ← store_read s id;
  v ← map_err (fun e => "tree: " +:+ e) (de_value b);
  if is_v2 v then
    obj ← map_err (fun e => "tree: " +:+ e) (value_tree_object v);
    ids_of_rows (to_entries obj)
  else
    t ← map_err (fun e => "tree: " +:+ e) (value_tree v);
    Ok (map (fun pe => te_id (snd pe)) (map_to_list t)).

(** ** Refs *)

Definition signed_ref_json (target : bytes) (sig : VcsSignature) : json :=
  JObj [("target", json_bytes target); ("signature", signature_json sig)].

Definition write_ref (category name : string) (target : bytes) (sig : VcsSignature) : SE VStore string unit :=
  b ← store_encrypt (to_vec (signed_ref_json target sig));
  modify (fun s => with_refs (<[(category, name) := b]> (st_refs s)) s).

Definition read_ref_signed (s : VStore) (category name : string) : result string (bytes * VcsSignature) :=
  match st_refs s !! (category, name) with
  | None => Err ("read ref " +:+ name +:+ ": not found")
  | Some b => p ← store_decrypt b; map_err (fun e => "ref parse: " +:+ e) (de_signed_ref p)
  end.
Definition read_ref (s : VStore) (category name : string) : result string bytes := r ← read_ref_signed s category name; Ok (fst r).

Definition update_mem_ref (category name : string) (id : bytes) (s : VStore) : VStore :=
  if bool_decide (category = "heads"%string) then with_mem (st_head s) (<[name := id]> (st_branches s)) (st_tags s) s
  else if bool_decide (category = "tags"%string) then with_mem (st_head s) (st_branches s) (<[name := id]> (st_tags s)) s
  else s.

Definition delete_ref (category name : string) (s : VStore) : VStore := with_refs (delete (category, name) (st_refs s)) s.
Definition ref_exists (s : VStore) (category name : string) : bool := bool_decide (is_Some (st_refs s !! (category, name))).

(** ** The index *)

Definition save_index (t : Tree) : SE VStore string unit :=
  b ← store_encrypt (to_vec (tree_json t)); modify (with_index (Some b)).
Definition load_index (s : VStore) : result string Tree :=
  match st_index s with
  | None => Ok ∅
  | Some b => p ← store_decrypt b; map_err (fun e => "index parse: " +:+ e) (de_index p)
  end.

(** ** The commit log and its range *)

(** [append], save the range, then the log; [None] cannot happen. *)
Definition append_commit_leaf (id : bytes) (s : VStore) : option (nat * VStore) :=
  '(m, idx) ← vcs_append (st_mmr s) id;
  Some (idx, with_log m (Some m) (st_commit_log s ++ [id]) s).

Definition recompute_mmr_root_from_log (s : VStore) : option bytes :=
  m ← log_mmr (st_commit_log s); Some (vcs_root m).
Definition mmr_root (s : VStore) : bytes := vcs_root (st_mmr s).

(** ** Reachability *)

(** What an object leads to: a commit's tree and, when they are followed,
    its parents; a tag's target; a tree's children; nothing for a blob. *)
Definition children (s : VStore) (follow_parents : bool) (id : bytes) : list bytes :=
  match read_commit_record s id with
  | Ok r => co_tree (cr_commit r) :: (if follow_parents then co_parents (cr_commit r) else [])
  | Err _ =>
      match read_tag s id with
      | Ok t => [tg_target t]
      | Err _ => match tree_object_children s id with Ok cs => cs | Err _ => [] end
      end
  end.

(** The stack of a walk, top first: [push]ing a list in order leaves its last
    element on top. *)
Fixpoint walk_loop (fuel : nat) (next : bytes -> list bytes) (seen : gset bytes) (queue : list bytes) : option (gset bytes) :=
  match fuel with
  | O => None
  | S fuel' =>
      match queue with
      | [] => Some seen
      | id :: rest =>
          if bool_decide (id ∈ seen) then walk_loop fuel' next seen rest
          else walk_loop fuel' next ({[id]} ∪ seen) (rev (next id) ++ rest)
      end
  end.

Definition walk_roots (s : VStore) (branches tags : gmap string bytes) (extra : list bytes) : list bytes :=
  map snd (map_to_list branches) ++ map snd (map_to_list tags) ++ extra ++ st_stashes s.

(** Every object is expanded at most once, and only stored objects have
    children. *)
Definition walk_fuel (s : VStore) (follow : bool) (roots : list bytes) : nat :=
  S (length roots + sum_list_with (fun id => length (children s follow id)) (elements (dom (st_objects s)))).

Definition walk_reachable (s : VStore) (branches tags : gmap string bytes) (extra : list bytes) (follow : bool) : option (gset bytes) :=
  let roots := walk_roots s branches tags extra in
  walk_loop (walk_fuel s follow roots) (children s follow) ∅ (rev roots).

Definition reachable_from_refs (s : VStore) (branches tags : gmap string bytes) (extra : list bytes) : option (gset bytes) :=
  walk_reachable s branches tags extra true.
Definition shallow_reachable (s : VStore) (branches tags : gmap string bytes) (extra : list bytes) : option (gset bytes) :=
  walk_reachable s branches tags extra false.

(** The depth-limited walk: objects and the commits whose parents were not
    followed. *)
Definition depth_step (s : VStore) (depth : nat) (id : bytes) (level : nat) (objects : gset bytes) (boundary : list bytes)
    : gset bytes * list bytes * list (bytes * nat) :=
  match read_commit_record s id with
  | Ok r =>
      let c := cr_commit r in
      let objects := {[co_tree c]} ∪ objects in
      if (depth <=? level)%nat then (objects, boundary ++ [id], [(co_tree c, level)])
      else (objects, boundary, (co_tree c, level) :: map (fun p => (p, S level)) (co_parents c))
  | Err _ =>
      match read_tag s id with
      | Ok t => (objects, boundary, [(tg_target t, S level)])
      | Err _ =>
          match tree_object_children s id with
          | Ok cs => (objects, boundary, map (fun c => (c, level)) cs)
          | Err _ => (objects, boundary, [])
          end
      end
  end.

Fixpoint depth_loop (fuel : nat) (s : VStore) (depth : nat) (seen objects : gset bytes) (boundary : list bytes)
    (queue : list (bytes * nat)) : option (gset bytes * list bytes) :=
  match fuel with
  | O => None
  | S fuel' =>
      match queue with
      | [] => Some (objects, boundary)
      | (id, level) :: rest =>
          if bool_decide (id ∈ seen) then depth_loop fuel' s depth seen objects boundary rest
          else let '(objects', boundary', pushed) := depth_step s depth id level ({[id]} ∪ objects) boundary in
               depth_loop fuel' s depth ({[id]} ∪ seen) objects' boundary' (rev pushed ++ rest)
      end
  end.

Definition depth_reachable (s : VStore) (branches tags : gmap string bytes) (extra : list bytes) (depth : nat)
    : option (gset bytes * list bytes) :=
  let roots := walk_roots s branches tags extra in
  depth_loop (walk_fuel s true roots) s (Nat.max depth 1) ∅ ∅ [] (rev (map (fun id => (id, 1%nat)) roots)).

(** ** Garbage collection *)

Definition prune_step (reachable : gset bytes) (acc : nat * VStore) (id : bytes) : nat * VStore :=
  let '(pruned, s) := acc in
  if negb (bool_decide (id ∈ reachable)) then
    let '(deleted, s') := delete_object id s in ((if deleted then S pruned else pruned), s')
  else (pruned, s).
Definition prune_unreachable (reachable : gset bytes) (s : VStore) : nat * VStore :=
  foldl (prune_step reachable) (0%nat, s) (all_object_ids s).

(** [cmd_gc] up to the tracking refs: HEAD's branch is an extra root. *)
Definition gc (s : VStore) : option (nat * VStore) :=
  let extra := match st_head s with
               | Some b => match read_ref s "heads" b with Ok id => [id] | Err _ => [] end
               | None => []
               end in
  reachable ← reachable_from_refs s (st_branches s) (st_tags s) extra;
  Some (prune_unreachable reachable s).

End Store.

(** ** What the object store and its walks guarantee *)

(** ** The walk visits exactly what is reachable *)

Inductive reach (next : bytes -> list bytes) (roots : list bytes) : bytes -> Prop :=
| reach_root x : x ∈ roots -> reach next roots x
| reach_step x y : reach next roots x -> y ∈ next x -> reach next roots y.

Lemma elem_of_rev (x : bytes) (l : list bytes) : x ∈ rev l <-> x ∈ l.
Proof. by rewrite !list_elem_of_In, <- in_rev. Qed.

Section Walk.
Context (next : bytes -> list bytes) (D : gset bytes) (HD : forall id, next id <> [] -> id ∈ D).

Definition cost (X : gset bytes) : nat := sum_list_with (fun id => length (next id)) (elements X).

Lemma cost_remove (X : gset bytes) (id : bytes) : id ∈ X -> cost X = (length (next id) + cost (X ∖ {[id]}))%nat.
Proof.
  intros Hid. unfold cost.
  assert (elements X ≡ₚ id :: elements (X ∖ {[id]})) as E.
  { rewrite (union_difference_singleton_L id X Hid) at 1. rewrite elements_union_singleton by set_solver. done. }
  by rewrite E.
Qed.

Lemma difference_seen (seen : gset bytes) (id : bytes) : D ∖ ({[id]} ∪ seen) = (D ∖ seen) ∖ {[id]}.
Proof. set_solver. Qed.

Lemma walk_loop_correct (roots : list bytes) (fuel : nat) (seen : gset bytes) (queue : list bytes) :
  (length queue + cost (D ∖ seen) < fuel)%nat ->
  (forall x, x ∈ seen -> reach next roots x) -> (forall x, x ∈ queue -> reach next roots x) ->
  (forall x, x ∈ roots -> x ∈ seen \/ x ∈ queue) ->
  (forall x y, x ∈ seen -> y ∈ next x -> y ∈ seen \/ y ∈ queue) ->
  exists r, walk_loop fuel next seen queue = Some r /\ forall x, x ∈ r <-> reach next roots x.
Proof.
  revert seen queue. induction fuel as [|fuel IH]; intros seen queue Hf Hs Hq Hr Hn; [lia|]. cbn [walk_loop].
  destruct queue as [|id rest].
  { exists seen. split; [done|]. intros x. split; [apply Hs|]. induction 1 as [x Hx|x y _ Hx Hy].
    - destruct (Hr x Hx) as [|Hx']; [done|by apply elem_of_nil in Hx'].
    - destruct (Hn x y Hx Hy) as [|Hx']; [done|by apply elem_of_nil in Hx']. }
  cbn [length] in Hf. case_bool_decide as Hid.
  - apply IH; [lia|done|intros x Hx; apply Hq; by constructor| |].
    + intros x Hx. destruct (Hr x Hx) as [|[->|]%elem_of_cons]; auto.
    + intros x y Hx Hy. destruct (Hn x y Hx Hy) as [|[->|]%elem_of_cons]; auto.
  - assert (reach next roots id) as Hreach by (apply Hq; by constructor). apply IH.
    + rewrite length_app, length_rev, difference_seen. destruct (decide (next id = [])) as [E|E].
      * rewrite E. cbn. destruct (decide (id ∈ D)) as [Hin|Hin].
        -- rewrite (cost_remove (D ∖ seen) id) in Hf by set_solver. lia.
        -- replace ((D ∖ seen) ∖ {[id]}) with (D ∖ seen) by set_solver. lia.
      * rewrite (cost_remove (D ∖ seen) id) in Hf by (apply HD in E; set_solver). lia.
    + intros x [->%elem_of_singleton|Hx]%elem_of_union; [done|by apply Hs].
    + intros x [Hx|Hx]%elem_of_app; [|apply Hq; by constructor].
      eapply reach_step; [exact Hreach|]. by apply elem_of_rev.
    + intros x Hx. destruct (Hr x Hx) as [|[->|]%elem_of_cons].
      * left. set_solver.
      * left. set_solver.
      * right. apply elem_of_app. by right.
    + intros x y [->%elem_of_singleton|Hx]%elem_of_union Hy.
      * right. apply elem_of_app. left. by apply elem_of_rev.
      * destruct (Hn x y Hx Hy) as [|[->|]%elem_of_cons]; [left; set_solver|left; set_solver|right; apply elem_of_app; by right].
Qed.

End Walk.

Section Props.
Context `{SK : Sdk, AE : Aead, XC : XChaCha, SD : VcsSerde, DR : Draws}.
Variable key : bytes.

Lemma store_read_local (s s' : VStore) (id : bytes) :
  st_objects s !! id = st_objects s' !! id -> store_read key s id = store_read key s' id.
Proof. intros E. unfold store_read, envelope_bytes. by rewrite E. Qed.

Lemma children_local (s s' : VStore) (follow : bool) (id : bytes) :
  st_objects s !! id = st_objects s' !! id -> children key s follow id = children key s' follow id.
Proof.
  intros E. unfold children, read_commit_record, read_tag, tree_object_children. by rewrite (store_read_local s s' id E).
Qed.

Lemma children_stored (s : VStore) (follow : bool) (id : bytes) : children key s follow id <> [] -> id ∈ dom (st_objects s).
Proof.
  intros Hc. apply elem_of_dom. destruct (st_objects s !! id) as [b|] eqn:E; [by eexists|]. exfalso. apply Hc.
  unfold children, read_commit_record, read_tag, tree_object_children, store_read, envelope_bytes. by rewrite E.
Qed.

(** The reachability walk always ends, and its result is exactly the set
    of ids reachable from the branches, the tags, the extra ids and the
    stashes by following commits, tags and trees. *)
Theorem walk_reachable_spec (s : VStore) (branches tags : gmap string bytes) (extra : list bytes) (follow : bool) :
  exists r, walk_reachable key s branches tags extra follow = Some r /\
  forall x, x ∈ r <-> reach (children key s follow) (walk_roots s branches tags extra) x.
Proof.
  unfold walk_reachable. apply (walk_loop_correct _ (dom (st_objects s)) (children_stored s follow)).
  - unfold walk_fuel, cost. rewrite length_rev, difference_empty_L. lia.
  - by intros x ?%elem_of_empty.
  - intros x Hx. apply reach_root. by apply elem_of_rev.
  - intros x Hx. right. by apply elem_of_rev.
  - by intros x y ?%elem_of_empty.
Qed.

(** ** Garbage collection *)

Lemma prune_foldl (reachable : gset bytes) (ids : list bytes) (n : nat) (s : VStore) :
  NoDup ids -> (forall id, id ∈ ids -> is_Some (st_objects s !! id)) ->
  let '(n', s') := foldl (prune_step reachable) (n, s) ids in
  s' = with_objects (st_objects s') s /\
  (forall id, st_objects s' !! id = if bool_decide (id ∈ ids) && negb (bool_decide (id ∈ reachable)) then None else st_objects s !! id) /\
  n' = (n + length (filter (fun id => id ∉ reachable) ids))%nat.
Proof.
  intros ND. revert n s. induction ND as [|id ids Hid ND IH]; intros n s Hs; cbn [foldl].
  { destruct s. cbn. split_and!; [done|done|lia]. }
  cbn [prune_step]. destruct (decide (id ∈ reachable)) as [Hr|Hr].
  - rewrite (bool_decide_eq_true_2 (id ∈ reachable)) by done. cbn [negb].
    specialize (IH n s ltac:(intros; apply Hs; by constructor)). destruct (foldl _ _ ids) as [n' s'].
    destruct IH as (H1 & H2 & H3). split; [done|]. split; [|rewrite filter_cons_False; [done|tauto]].
    intros x. rewrite H2. destruct (decide (x = id)) as [->|Hx].
    + by rewrite (bool_decide_eq_true_2 (id ∈ reachable)), !andb_false_r by done.
    + rewrite (bool_decide_ext (x ∈ id :: ids) (x ∈ ids)); [done|]. rewrite elem_of_cons. tauto.
  - rewrite (bool_decide_eq_false_2 (id ∈ reachable)) by done. cbn [negb]. unfold delete_object, object_exists.
    rewrite bool_decide_eq_true_2 by (apply Hs; by constructor).
    specialize (IH (S n) (with_objects (delete id (st_objects s)) s)).
    destruct (foldl _ _ ids) as [n' s']. destruct IH as (H1 & H2 & H3).
    { intros x Hx. cbn. rewrite lookup_delete_ne by (intros ->; done). apply Hs. by constructor. }
    split; [by rewrite H1|]. split; [|rewrite filter_cons_True by done; cbn; lia].
    intros x. rewrite H2. cbn [with_objects st_objects]. destruct (decide (x = id)) as [->|Hx].
    + rewrite lookup_delete_eq, (bool_decide_eq_true_2 (id ∈ id :: ids)), (bool_decide_eq_false_2 (id ∈ reachable)) by (by constructor || done).
      by case_match.
    + rewrite lookup_delete_ne by done. rewrite (bool_decide_ext (x ∈ id :: ids) (x ∈ ids)); [done|]. rewrite elem_of_cons. tauto.
Qed.

Lemma prune_spec (reachable : gset bytes) (s : VStore) :
  let '(n, s') := prune_unreachable reachable s in
  s' = with_objects (st_objects s') s /\
  (forall id, st_objects s' !! id = if bool_decide (id ∈ reachable) then st_objects s !! id else None) /\
  (n = 0%nat <-> forall id, id ∈ dom (st_objects s) -> id ∈ reachable).
Proof.
  unfold prune_unreachable, all_object_ids.
  pose proof (prune_foldl reachable (elements (dom (st_objects s))) 0 s (NoDup_elements _)) as H.
  destruct (foldl _ _ _) as [n s']. destruct H as (H1 & H2 & ->).
  { intros id Hid%elem_of_elements. by apply elem_of_dom. }
  split; [done|]. split.
  - intros id. rewrite H2. destruct (decide (id ∈ reachable)) as [Hr|Hr].
    + by rewrite (bool_decide_eq_true_2 (id ∈ reachable)), andb_false_r by done.
    + rewrite (bool_decide_eq_false_2 (id ∈ reachable)) by done. rewrite andb_true_r. case_bool_decide as Hin; [done|].
      rewrite elem_of_elements in Hin. by apply not_elem_of_dom.
  - cbn. rewrite length_zero_iff_nil. split.
    + intros E id Hid. destruct (decide (id ∈ reachable)) as [|Hn]; [done|]. exfalso.
      assert (id ∈ filter (fun id => id ∉ reachable) (elements (dom (st_objects s)))) as Hf.
      { apply list_elem_of_filter. split; [done|by apply elem_of_elements]. }
      rewrite E in Hf. by apply elem_of_nil in Hf.
    + intros Hall. destruct (filter _ _) as [|id l] eqn:E; [done|]. exfalso.
      assert (id ∈ filter (fun id => id ∉ reachable) (elements (dom (st_objects s)))) as Hf by (rewrite E; by constructor).
      apply list_elem_of_filter in Hf as [Hn Hf%elem_of_elements]. by apply Hn, Hall.
Qed.

(** The roots of [gc]: refs, HEAD's branch and the stashes. *)
Definition gc_roots (s : VStore) : list bytes :=
  walk_roots s (st_branches s) (st_tags s)
    (match st_head s with Some b => match read_ref key s "heads" b with Ok id => [id] | Err _ => [] end | None => [] end).

Lemma reach_local (s s' : VStore) (roots : list bytes) :
  (forall id, reach (children key s true) roots id -> st_objects s' !! id = st_objects s !! id) ->
  forall id, reach (children key s' true) roots id <-> reach (children key s true) roots id.
Proof.
  intros Hl id. split.
  - induction 1 as [x Hx|x y _ IH Hy]; [by apply reach_root|]. eapply reach_step; [exact IH|].
    by rewrite (children_local s s' true x (eq_sym (Hl x IH))).
  - induction 1 as [x Hx|x y H IH Hy]; [by apply reach_root|]. eapply reach_step; [exact IH|].
    by rewrite <- (children_local s s' true x (eq_sym (Hl x H))).
Qed.

(** C19: Garbage collection keeps every object that is reachable from a ref, HEAD
    or a stash byte for byte, deletes every other one, touches nothing
    else, and has nothing left to do when run again. *)
Theorem gc_spec (s : VStore) :
  exists n s', gc key s = Some (n, s') /\
  s' = with_objects (st_objects s') s /\
  (forall id, reach (children key s true) (gc_roots s) id -> st_objects s' !! id = st_objects s !! id) /\
  (forall id, ~ reach (children key s true) (gc_roots s) id -> st_objects s' !! id = None) /\
  gc key s' = Some (0%nat, s').
Proof.
  destruct (walk_reachable_spec s (st_branches s) (st_tags s)
    (match st_head s with Some b => match read_ref key s "heads" b with Ok id => [id] | Err _ => [] end | None => [] end) true)
    as (r & Er & Hr). fold (gc_roots s) in Hr.
  pose proof (prune_spec r s) as Hp. destruct (prune_unreachable r s) as [n s'] eqn:Ep. destruct Hp as (H1 & H2 & _).
  assert (forall id, reach (children key s true) (gc_roots s) id -> st_objects s' !! id = st_objects s !! id) as Hkeep.
  { intros id Hid. rewrite H2, bool_decide_eq_true_2; [done|by apply Hr]. }
  exists n, s'. split; [unfold gc, reachable_from_refs; by rewrite Er, <- Ep|]. split; [done|]. split; [done|]. split.
  { intros id Hid. rewrite H2, bool_decide_eq_false_2; [done|]. by intros Hx%Hr. }
  destruct (walk_reachable_spec s' (st_branches s') (st_tags s')
    (match st_head s' with Some b => match read_ref key s' "heads" b with Ok id => [id] | Err _ => [] end | None => [] end) true)
    as (r' & Er' & Hr'). fold (gc_roots s') in Hr'.
  assert (gc_roots s' = gc_roots s) as Eroots by (rewrite H1; done).
  pose proof (prune_spec r' s') as Hp. destruct (prune_unreachable r' s') as [n' s''] eqn:Ep'. destruct Hp as (H1' & H2' & Hn).
  assert (forall id, id ∈ r' <-> id ∈ r) as Hrr.
  { intros id. rewrite Hr', Hr, Eroots. by apply reach_local. }
  unfold gc, reachable_from_refs. rewrite Er'. cbn [mbind option_bind]. rewrite Ep'. f_equal. f_equal.
  - apply Hn. intros id [b Hb]%elem_of_dom. apply Hrr. rewrite H2 in Hb. by case_bool_decide.
  - rewrite H1'. assert (st_objects s'' = st_objects s') as ->; [|by destruct s'].
    apply map_eq. intros id. rewrite H2'. case_bool_decide as Hin; [done|]. rewrite H2, bool_decide_eq_false_2; [done|].
    by rewrite <- Hrr.
Qed.

(** ** The commit log *)

Definition log_ok (s : VStore) : Prop :=
  log_mmr (st_commit_log s) = Some (st_mmr s) /\ (st_mmr_file s = Some (st_mmr s) \/ st_commit_log s = []).

Fixpoint append_all (ids : list bytes) (s : VStore) : option (list nat * VStore) :=
  match ids with
  | [] => Some ([], s)
  | id :: ids' => '(i, s1) ← append_commit_leaf id s; '(js, s2) ← append_all ids' s1; Some (i :: js, s2)
  end.

(** Commits appended one after the other get consecutive positions, the saved
    range is the one in memory, and the root recomputed from the log is its root. *)
Theorem commit_log_consistent {HO : HashOk} (ids : list bytes) (s : VStore) :
  log_ok s ->
  exists s', append_all ids s = Some (seq (length (st_commit_log s)) (length ids), s') /\
  st_commit_log s' = st_commit_log s ++ ids /\ log_ok s' /\
  recompute_mmr_root_from_log s' = Some (mmr_root s') /\ st_objects s' = st_objects s.
Proof.
  revert s. induction ids as [|id ids IH]; intros s [Hm Hf]; cbn [append_all].
  { exists s. rewrite app_nil_r. split_and!; [done|done|done|unfold recompute_mmr_root_from_log; by rewrite Hm|done]. }
  pose proof (log_mmr_repr (st_commit_log s ++ [id])) as Hrep. pose proof (log_mmr_repr (st_commit_log s)) as Hrep0.
  rewrite Hm in Hrep0. injection Hrep0 as Em.
  unfold log_mmr in Hrep, Hm. rewrite foldl_app in Hrep. cbn [foldl] in Hrep. rewrite Hm in Hrep. cbn [mbind option_bind] in Hrep.
  destruct (vcs_append (st_mmr s) id) as [[m idx]|] eqn:Ea; [|done]. cbn in Hrep. injection Hrep as Hm'.
  assert (idx = length (st_commit_log s)) as ->.
  { unfold vcs_append in Ea. apply bind_Some in Ea as (peaks & _ & Ea). rewrite Em in Ea. cbn [vm_leaf_count] in Ea. congruence. }
  unfold append_commit_leaf. rewrite Ea. cbn [mbind option_bind].
  destruct (IH (with_log m (Some m) (st_commit_log s ++ [id]) s)) as (s' & Es & El & Hok & Hroot & Ho).
  { split; [|by left]. cbn [with_log st_commit_log st_mmr]. rewrite log_mmr_repr. by rewrite <- Hm'. }
  exists s'. cbn [with_log st_commit_log st_objects] in Es, El, Ho. rewrite Es. cbn [mbind option_bind].
  rewrite length_app in *. cbn [length seq] in *. rewrite Nat.add_1_r. split; [done|]. rewrite El, <- app_assoc. done.
Qed.

(** ** Objects come back *)

(** What the draws and the cipher are: 16 and 24 random bytes, a 16-byte tag. *)
Class StoreCryptoOk : Prop := {
  sc_aead : AeadOk;
  sc_salt : forall n b, draw_salt n = Ok b -> length b = 16%nat;
  sc_nonce : forall n b, draw_nonce n = Ok b -> length b = 24%nat;
  sc_len : forall k n p a c, encrypt_aad k n p a = Ok c -> length c = (length p + 16)%nat
}.

Lemma store_encrypt_decrypt {SC : StoreCryptoOk} (p b : bytes) (s s' : VStore) :
  Z.of_nat (length p) + 16 <= MAX_PAYLOAD_LEN ->
  store_encrypt key p s = (Ok b, s') -> store_decrypt key b = Ok p /\ s' = with_draws (S (st_draws s)) s.
Proof.
  intros Hp. unfold store_encrypt. destruct (encrypt _ _ _ _ _ _ _) as [env|] eqn:E; [|done]. intros Eb.
  assert (b = to_bytes env) as -> by congruence. split; [|congruence]. clear Eb.
  unfold encrypt in E. apply result_bind_Ok in E as (sa & Esa & E). apply result_bind_Ok in E as (no & Eno & E).
  cbn [mbind result_mbind] in E. apply result_bind_Ok in E as (c & Ec & E).
  destruct (encrypt_aad key no p _) as [c'|] eqn:Ea; [|done]. cbn [map_err] in Ec. assert (c' = c) as -> by congruence. clear Ec.
  pose proof (sc_len _ _ _ _ _ Ea) as Hc. pose proof (sc_salt _ _ Esa). pose proof (sc_nonce _ _ Eno).
  pose proof sc_aead as SA.
  assert (decrypt env key = Ok p) as Hd.
  { assert (env = {| header := {| version := VERSION; payload_type := File; flags := 0; tier := Nano; salt := sa; nonce := no |};
                     payload := c |}) as -> by congruence.
    unfold decrypt. cbn [header payload version payload_type flags tier salt nonce].
    by rewrite (decrypt_encrypt _ _ _ _ _ Ea). }
  unfold store_decrypt. rewrite from_to_bytes; [cbn [map_err mbind result_mbind]; by rewrite Hd|].
  assert (env = {| header := {| version := VERSION; payload_type := File; flags := 0; tier := Nano; salt := sa; nonce := no |};
                   payload := c |}) as -> by congruence.
  split; [|cbn; lia]. split_and!; cbn; [done|by left|done|done].
Qed.

(** A stored object reads back as it was written and storing it disturbs
    no other object, ref or the index. *)
Theorem put_read {SC : StoreCryptoOk} (id p : bytes) (s s' : VStore) (u : unit) :
  Z.of_nat (length p) + 16 <= MAX_PAYLOAD_LEN -> put_raw key id p s = (Ok u, s') ->
  store_read key s' id = Ok p /\ (forall id', id' <> id -> store_read key s' id' = store_read key s id') /\
  st_refs s' = st_refs s /\ st_index s' = st_index s /\ st_commit_log s' = st_commit_log s.
Proof.
  intros Hp E. apply SE_bind_Ok in E as (b & s1 & Eb & E).
  apply (store_encrypt_decrypt p b s s1 Hp) in Eb as [Hd ->]. apply (f_equal snd) in E. cbn [snd modify] in E. subst s'.
  split_and!; try done.
  - unfold store_read, envelope_bytes. cbn [with_objects with_draws st_objects]. by rewrite lookup_insert_eq.
  - intros id' Hne. apply store_read_local. cbn. by rewrite lookup_insert_ne.
Qed.

(** A ref reads back the target it was signed for. *)
Theorem ref_roundtrip {SC : StoreCryptoOk} (category name : string) (target : bytes) (sig : VcsSignature) (s s' : VStore) (u : unit) :
  (forall p, p = to_vec (signed_ref_json target sig) -> de_signed_ref p = Ok (target, sig) /\ Z.of_nat (length p) + 16 <= MAX_PAYLOAD_LEN) ->
  write_ref key category name target sig s = (Ok u, s') ->
  read_ref_signed key s' category name = Ok (target, sig) /\
  (forall c n, (c, n) <> (category, name) -> read_ref_signed key s' c n = read_ref_signed key s c n).
Proof.
  intros Hser E. destruct (Hser _ eq_refl) as [Hde Hlen]. apply SE_bind_Ok in E as (b & s1 & Eb & E).
  apply (store_encrypt_decrypt _ b s s1 Hlen) in Eb as [Hd ->]. apply (f_equal snd) in E. cbn [snd modify] in E. subst s'. split.
  - unfold read_ref_signed. cbn [with_refs with_draws st_refs]. rewrite lookup_insert_eq, Hd. cbn [mbind result_mbind]. by rewrite Hde.
  - intros c n Hne. unfold read_ref_signed. cbn [with_refs with_draws st_refs]. by rewrite lookup_insert_ne by congruence.
Qed.

(** The id under which an envelope is stored is not part of what is
    authenticated: the envelope of [b] stored under [a] reads as [b]. *)
Lemma swapped_envelope_reads (s : VStore) (a b eb p : bytes) :
  st_objects s !! b = Some eb -> store_read key s b = Ok p ->
  store_read key (with_objects (<[a := eb]> (st_objects s)) s) a = Ok p.
Proof. unfold store_read, envelope_bytes. cbn [with_objects st_objects]. intros ->. by rewrite lookup_insert_eq. Qed.

End Props.

(** ** Concrete stores *)

Module ToyStore.

Definition aead : Aead := {|
  encrypt_aad k n p a := Ok (p ++ replicate 16 (byte_of 0));
  decrypt_aad k n c a := Ok (take (length c - 16) c);
  compress p := Ok p; decompress p := Ok p |}.
Definition draws : Draws := {|
  draw_salt n := Ok (replicate 16 (byte_of 1)); draw_nonce n := Ok (replicate 24 (byte_of 2)) |}.

(** One-letter ids; an object's bytes are its id. *)
Definition id_of (c : string) : bytes := as_bytes c.
Definition sig0 : VcsSignature := MkVcsSig [] [] [] [].
Definition commit (parents : list string) : CommitRecord :=
  MkCommitRecord (MkCommit (id_of "t") (map id_of parents) "" "" "" 0) sig0.

(** [T] merges [B] into [A]; [B] continues [A]; [A] continues [C]. *)
Definition serde : VcsSerde := {|
  de_commit_record b :=
    if bool_decide (b = id_of "T") then Ok (commit ["A"; "B"])
    else if bool_decide (b = id_of "B") then Ok (commit ["A"])
    else if bool_decide (b = id_of "A") then Ok (commit ["C"])
    else if bool_decide (b = id_of "C") then Ok (commit [])
    else Err "missing field";
  de_tag _ := Err "missing field"; de_value _ := Err "not json";
  value_tree_object _ := Err ""; value_tree _ := Err ""; de_signed_ref _ := Ok (id_of "T", sig0);
  de_index _ := Ok {["f" := MkEntry MFile (id_of "x")]}
|}.

Definition env_of (p : bytes) : bytes :=
  match @encrypt aead p [] Nano File false (@draw_salt draws 0) (@draw_nonce draws 0) with Ok e => to_bytes e | Err _ => [] end.

Definition history : VStore :=
  MkStore (list_to_map (map (fun c => (id_of c, env_of (id_of c))) ["T"; "A"; "B"; "C"; "t"]))
    ∅ None [] None [] {["main" := id_of "T"]} ∅ vcs_mmr_new None 0.

(** A staged file whose blob no commit mentions yet. *)
Definition staged : VStore :=
  MkStore {[id_of "x" := env_of (as_bytes "content")]} ∅ None [] (Some (env_of (as_bytes "index"))) [] ∅ ∅ vcs_mmr_new None 0.

#[global] Instance crypto_ok : @StoreCryptoOk aead draws.
Proof.
  assert (forall c p : bytes, @Ok string bytes (p ++ replicate 16 (byte_of 0)) = Ok c -> c = p ++ replicate 16 (byte_of 0)) as Hc by (intros; congruence).
  assert (forall x y : bytes, @Ok string bytes x = Ok y -> x = y) as Hi by (intros; congruence).
  split.
  - split; [|by intros p c [= ->]]. intros k n p a c E. apply Hc in E as ->. cbn [decrypt_aad aead].
    rewrite length_app, length_replicate. replace (length p + 16 - 16)%nat with (length p) by lia. by rewrite take_app_length.
  - intros n b E. by rewrite <- (Hi (replicate 16 (byte_of 1)) b E).
  - intros n b E. by rewrite <- (Hi (replicate 24 (byte_of 2)) b E).
  - intros k n p a c E. apply Hc in E as ->. by rewrite length_app, length_replicate.
Qed.

End ToyStore.

(** The depth-limited walk takes commits off a stack and never revisits one,
    so a commit first met on a long path is cut there: with depth 3 the walk from [T]
    treats [A], a parent of [T], as its boundary and does not serve [C], a parent
    of [A]. *)
Theorem depth_walk_misses :
  match @depth_reachable Toy.sdk ToyStore.aead ToyStore.serde [] ToyStore.history (st_branches ToyStore.history) ∅ [] 3 with
  | Some (objects, boundary) =>
      boundary = [ToyStore.id_of "A"] /\ bool_decide (ToyStore.id_of "C" ∈ objects) = false
  | None => False
  end.
Proof. by vm_compute. Qed.

(** The index is not a root: [gc] deletes a staged blob, and the index
    still lists it. *)
Theorem gc_drops_staged :
  exists s', @gc Toy.sdk ToyStore.aead ToyStore.serde [] ToyStore.staged = Some (1%nat, s') /\
  st_objects s' !! ToyStore.id_of "x" = None /\
  @load_index ToyStore.aead ToyStore.serde [] s' = Ok {["f" := MkEntry MFile (ToyStore.id_of "x")]}.
Proof.
  destruct (@gc Toy.sdk ToyStore.aead ToyStore.serde [] ToyStore.staged) as [[n s']|] eqn:E; [|by vm_compute in E].
  exists s'. vm_compute in E. simplify_eq. split_and!; by vm_compute.
Qed.

Lemma commit_log_consistent_witness :
  exists s', @append_all Toy.sdk [ToyStore.id_of "T"; ToyStore.id_of "A"] ToyStore.history = Some ([0; 1]%nat, s') /\
             @recompute_mmr_root_from_log Toy.sdk s' = Some (@mmr_root Toy.sdk s').
Proof.
  destruct (@commit_log_consistent Toy.sdk Toy.hash_ok [ToyStore.id_of "T"; ToyStore.id_of "A"] ToyStore.history) as (s' & H1 & _ & _ & H2 & _).
  { split; [done|by right]. }
  exists s'. by split.
Defined.

Lemma put_read_witness :
  let s' := snd (@put_raw ToyStore.aead ToyStore.draws [] (ToyStore.id_of "x") (as_bytes "hello") ToyStore.staged) in
  @store_read Toy.sdk ToyStore.aead [] s' (ToyStore.id_of "x") = Ok (as_bytes "hello").
Proof.
  cbv zeta. refine (proj1 (@put_read Toy.sdk ToyStore.aead ToyStore.draws [] ToyStore.crypto_ok (ToyStore.id_of "x") (as_bytes "hello")
    ToyStore.staged _ tt _ _)); by vm_compute.
Defined.

Lemma ref_roundtrip_witness :
  let s' := snd (@write_ref Toy.sdk ToyStore.aead ToyStore.draws [] "heads" "main" (ToyStore.id_of "T") ToyStore.sig0 ToyStore.history) in
  @read_ref_signed ToyStore.aead ToyStore.serde [] s' "heads" "main" = Ok (ToyStore.id_of "T", ToyStore.sig0).
Proof.
  cbv zeta. refine (proj1 (@ref_roundtrip Toy.sdk ToyStore.aead ToyStore.serde ToyStore.draws [] ToyStore.crypto_ok "heads" "main"
    (ToyStore.id_of "T") ToyStore.sig0 ToyStore.history _ tt _ _)); [|by vm_compute].
  intros p ->. split; [done|by vm_compute].
Defined.
