(* ===== verification/WalletCore.v ===== *)
(** * Addresses, accounts and transactions of origin-wallet

    [error.rs], [address.rs], [account.rs] and [transaction.rs].  Hashes,
    bech32, base58, the signature schemes, stealth derivation and bincode
    are parameters. *)

From Stdlib Require Import Ascii String QArith.
From S2P Require Import Prelude RustStr Bytes Sdk Envelope.

#[local] Open Scope Z_scope.

(** ** Errors ([error.rs]) *)

Inductive WalletError :=
| WCrypto (msg : string)
| WInsufficientEntropy (required actual : Q)
| WSeedExpired
| WInvalidPassphrase
| WEncryption (msg : string)
| WDecryption (msg : string)
| WInvalidAddress (msg : string)
| WTransaction (msg : string)
| WAccountNotFound (msg : string)
| WIo (msg : string)
| WSerialization (msg : string)
| WKeyDerivation (msg : string)
| WNetwork (msg : string)
| WBackup (msg : string)
| WRecovery (msg : string).

(** [{:.2}] of a non-negative number: hundredths, ties to even. *)
Definition fmt2 (q : Q) : string :=
  let d := Zpos (Qden q) in
  let n := 100 * Qnum q in
  let lo := n / d in
  let twice := 2 * (n mod d) in
  let h := if twice <? d then lo else if d <? twice then lo + 1 else if Z.even lo then lo else lo + 1 in
  show_Z (h / 100) +:+ "." +:+ of_chars (show2_chars (h mod 100)).

Definition wallet_error_display (e : WalletError) : string :=
  match e with
  | WCrypto m => "Cryptographic error: " +:+ m
  | WInsufficientEntropy r a => "Insufficient entropy: required " +:+ fmt2 r +:+ ", got " +:+ fmt2 a
  | WSeedExpired => "Seed handle expired"
  | WInvalidPassphrase => "Invalid passphrase"
  | WEncryption m => "Encryption failed: " +:+ m
  | WDecryption m => "Decryption failed: " +:+ m
  | WInvalidAddress m => "Invalid address: " +:+ m
  | WTransaction m => "Transaction error: " +:+ m
  | WAccountNotFound m => "Account not found: " +:+ m
  | WIo m => "IO error: " +:+ m
  | WSerialization m => "Serialization error: " +:+ m
  | WKeyDerivation m => "Key derivation failed: " +:+ m
  | WNetwork m => "Stoa network error: " +:+ m
  | WBackup m => "Backup error: " +:+ m
  | WRecovery m => "Recovery error: " +:+ m
  end.

(** ** Addresses ([address.rs]) *)

Inductive Network := Mainnet | Testnet.
Inductive AddressType := Bech32 | Bech32m | Base58Check.
Record Address := MkAddress { pubkey_hash : bytes; address_type : AddressType; addr_network : Network }.

#[global] Instance Network_eq : EqDecision Network.
Proof. solve_decision. Defined.
#[global] Instance AddressType_eq : EqDecision AddressType.
Proof. solve_decision. Defined.
#[global] Instance Address_eq : EqDecision Address.
Proof. solve_decision. Defined.

Class AddrOps := {
  sha256 : bytes -> bytes;
  ripemd160 : bytes -> bytes;
  (** [bech32::encode::<Bech32m>(Hrp::parse(hrp)?, data)] and [bech32::decode]. *)
  bech32m_encode : string -> bytes -> result string string;
  bech32_decode : string -> result string (string * bytes);
  to_base58 : bytes -> string;
  from_base58 : string -> option bytes
}.

(** The hashes have 32 and 20 bytes; decoding inverts encoding, which accepts
    20 bytes under the two prefixes of the wallet. *)
Class AddrOk `{AddrOps} : Prop := {
  sha256_len : forall b, length (sha256 b) = 32%nat;
  ripemd160_len : forall b, length (ripemd160 b) = 20%nat;
  bech32_ok : forall hrp b, hrp ∈ ["origin"; "torigin"] -> length b = 20%nat ->
    exists s, bech32m_encode hrp b = Ok s /\ bech32_decode s = Ok (hrp, b);
  base58_ok : forall b, from_base58 (to_base58 b) = Some b
}.

Section Address.
Context `{AddrOps}.

Definition from_ed25519 (pk : bytes) (t : AddressType) (n : Network) : Address :=
  MkAddress (ripemd160 (sha256 pk)) t n.

Definition from_hash (hash : bytes) (t : AddressType) (n : Network) : Address := MkAddress hash t n.

Definition hrp (a : Address) : string := match addr_network a with Mainnet => "origin" | Testnet => "torigin" end.

Definition to_bech32 (a : Address) : result WalletError string :=
  map_err WInvalidAddress (bech32m_encode (hrp a) (pubkey_hash a)).

Definition from_bech32 (s : string) : result WalletError Address :=
  '(h, data) ← map_err WInvalidAddress (bech32_decode s);
  if negb (length data =? 20)%nat then Err (WInvalidAddress "Invalid data length") else
  n ← (if String.eqb h "origin" then Ok Mainnet
       else if String.eqb h "torigin" then Ok Testnet
       else Err (WInvalidAddress ("Unknown HRP: " +:+ h)));
  Ok (MkAddress data Bech32m n).

Definition base58_version (n : Network) : ascii := byte_of match n with Mainnet => 0 | Testnet => 111 end.

Definition to_base58check (a : Address) : string :=
  let payload := base58_version (addr_network a) :: pubkey_hash a in
  to_base58 (payload ++ take 4 (sha256 (sha256 payload))).

Definition from_base58check (s : string) : result WalletError Address :=
  match from_base58 s with
  | None => Err (WInvalidAddress "Invalid Base58")
  | Some decoded =>
      if negb (length decoded =? 25)%nat then Err (WInvalidAddress "Invalid decoded length")
      else if negb (bool_decide (slice 21 25 decoded = take 4 (sha256 (sha256 (take 21 decoded)))))
      then Err (WInvalidAddress "Invalid checksum")
      else match decoded with
           | [] => Err (WInvalidAddress "Invalid decoded length")
           | version :: _ =>
               n ← (if code version =? 0 then Ok Mainnet
                    else if code version =? 111 then Ok Testnet
                    else Err (WInvalidAddress ("Unknown version: " +:+ show_Z (code version))));
               Ok (MkAddress (slice 1 21 decoded) Base58Check n)
           end
  end.

Definition address_show (a : Address) : string :=
  match address_type a with
  | Bech32 | Bech32m => match to_bech32 a with Ok s => s | Err _ => "invalid" end
  | Base58Check => to_base58check a
  end.

End Address.

(** ** Accounts ([account.rs]) *)

Class SignOps := {
  StealthMaster : Type;
  (** [derive_stealth_at_index]: viewing, spending and ephemeral secrets. *)
  stealth_at_index : StealthMaster -> Z -> result string (bytes * bytes * bytes);
  (** [Ed25519SigningKey::from_bytes(sk).verifying_key()]. *)
  ed_verifying_key : bytes -> bytes;
  ed_vk_check : bytes -> result string unit;
  falcon_sk_check : bytes -> result string unit;
  falcon_vk_check : bytes -> result string unit;
  falcon_sig_check : bytes -> result string unit;
  (** [Ed25519Falcon1024::sign] (both secret keys, message) and [verify]
      (both public keys, message, both signatures), signatures as their bytes. *)
  pair_sign : bytes -> bytes -> bytes -> bytes * bytes;
  pair_verify : bytes -> bytes -> bytes -> bytes * bytes -> result string unit
}.

Section Accounts.
Context `{AddrOps, SignOps}.

Record WAccount := MkAccount {
  acc_name : string;
  acc_index : Z;
  acc_ed25519_sk : bytes;
  acc_falcon_sk : bytes;
  acc_address : Address;
  acc_balance : Z;
  acc_nonce : Z;
  acc_stealth : option StealthMaster
}.

Definition account_new (name : string) (index : Z) (ed falcon : bytes) (a : Address) : WAccount :=
  MkAccount name index ed falcon a 0 0 None.
Definition with_stealth (name : string) (index : Z) (ed falcon : bytes) (a : Address) (m : StealthMaster) : WAccount :=
  MkAccount name index ed falcon a 0 0 (Some m).

Definition set_balance (b : Z) (a : WAccount) : WAccount :=
  MkAccount (acc_name a) (acc_index a) (acc_ed25519_sk a) (acc_falcon_sk a) (acc_address a) b (acc_nonce a) (acc_stealth a).
Definition set_nonce (n : Z) (a : WAccount) : WAccount :=
  MkAccount (acc_name a) (acc_index a) (acc_ed25519_sk a) (acc_falcon_sk a) (acc_address a) (acc_balance a) n (acc_stealth a).
Definition increment_nonce (a : WAccount) : WAccount := set_nonce (wrap_u64 (acc_nonce a + 1)) a.

Definition ed_key (a : WAccount) : result WalletError bytes :=
  if (length (acc_ed25519_sk a) =? 32)%nat then Ok (acc_ed25519_sk a)
  else Err (WKeyDerivation "Invalid Ed25519 key length").

Definition account_sign (a : WAccount) (data : bytes) : result WalletError (bytes * bytes) :=
  ed ← ed_key a;
  _ ← map_err WKeyDerivation (falcon_sk_check (acc_falcon_sk a));
  Ok (pair_sign ed (acc_falcon_sk a) data).

Definition account_ed25519_pk (a : WAccount) : result WalletError bytes :=
  ed ← ed_key a; Ok (ed_verifying_key ed).

Record StealthAddress := MkStealth {
  viewing_secret : bytes; spending_secret : bytes; ephemeral_secret : bytes;
  stealth_address : Address; stealth_index : Z
}.

Definition generate_stealth_address (a : WAccount) (index : Z) : result WalletError StealthAddress :=
  match acc_stealth a with
  | None => Err (WKeyDerivation "Stealth master keys not initialized")
  | Some master =>
      '(v, s, e) ← map_err WKeyDerivation (stealth_at_index master index);
      Ok (MkStealth v s e (from_ed25519 (ed_verifying_key s) Bech32 Mainnet) index)
  end.

Definition has_stealth_support (a : WAccount) : bool := match acc_stealth a with Some _ => true | None => false end.

(** ** Transactions ([transaction.rs]) *)

Record Transaction := MkTransaction {
  tx_hash : bytes;
  tx_from : Address;
  tx_to : Address;
  tx_amount : Z;
  tx_fee : Z;
  tx_nonce : Z;
  tx_signature : bytes;
  tx_timestamp : Z;
  tx_memo : option bytes
}.

(** [to_bech32().unwrap_or_default()]. *)
Definition bech32_or_empty (a : Address) : string := match to_bech32 a with Ok s => s | Err _ => "" end.

Definition id_bytes (from to : Address) (amount fee nonce : Z) : bytes :=
  as_bytes (bech32_or_empty from) ++ as_bytes (bech32_or_empty to)
  ++ le_bytes 8 amount ++ le_bytes 8 fee ++ le_bytes 8 nonce.

Definition transaction_new (now : Z) (from to : Address) (amount fee nonce : Z) : Transaction :=
  MkTransaction (sha256 (id_bytes from to amount fee nonce)) from to amount fee nonce [] now None.

Definition to_sign_bytes (t : Transaction) : bytes :=
  as_bytes (bech32_or_empty (tx_from t)) ++ as_bytes (bech32_or_empty (tx_to t))
  ++ le_bytes 8 (tx_amount t) ++ le_bytes 8 (tx_fee t) ++ le_bytes 8 (tx_nonce t) ++ le_bytes 8 (tx_timestamp t)
  ++ default [] (tx_memo t).

Definition with_signature (s : bytes) (t : Transaction) : Transaction :=
  MkTransaction (tx_hash t) (tx_from t) (tx_to t) (tx_amount t) (tx_fee t) (tx_nonce t) s (tx_timestamp t) (tx_memo t).

Definition tx_sign (signer : WAccount) (t : Transaction) : result WalletError Transaction :=
  '(ed, falcon) ← account_sign signer (to_sign_bytes t);
  Ok (with_signature (ed ++ le_bytes 4 (wrap_u32 (Z.of_nat (length falcon))) ++ falcon) t).

(** [verify]; [None] is the panic of [self.signature[64..68]]. *)
Definition tx_verify (t : Transaction) (signer_pk falcon_pk : bytes) : option (result WalletError unit) :=
  let s := tx_signature t in
  match s with
  | [] => Some (Err (WTransaction "No signature to verify"))
  | _ =>
      match ed_vk_check signer_pk, falcon_vk_check falcon_pk with
      | Err e, _ => Some (Err (WTransaction e))
      | Ok _, Err e => Some (Err (WTransaction e))
      | Ok _, Ok _ =>
          if (length s <? 64)%nat then Some (Err (WTransaction "Invalid signature length"))
          else if (length s <? 68)%nat then None
          else
            let falcon_len := le_val (slice 64 68 s) in
            if Z.of_nat (length s) <? 68 + falcon_len then Some (Err (WTransaction "Truncated Falcon signature"))
            else
              let falcon := slice 68 (68 + Z.to_nat falcon_len) s in
              Some (_ ← map_err WTransaction (falcon_sig_check falcon);
                    map_err WTransaction (pair_verify signer_pk falcon_pk (to_sign_bytes t) (take 64 s, falcon)))
      end
  end.

Definition recompute_id (t : Transaction) : Transaction :=
  MkTransaction (sha256 (id_bytes (tx_from t) (tx_to t) (tx_amount t) (tx_fee t) (tx_nonce t)))
    (tx_from t) (tx_to t) (tx_amount t) (tx_fee t) (tx_nonce t) (tx_signature t) (tx_timestamp t) (tx_memo t).

End Accounts.

(** Memos: [XChaCha20Poly1305::encrypt_aad(key, nonce, memo, id)] with the
    nonce in front. *)
Section Memo.
Context `{Aead}.

Definition encrypt_memo (key memo : bytes) (nonce_draw : result string bytes) (t : Transaction)
    : result WalletError Transaction :=
  nonce ← map_err WCrypto nonce_draw;
  enc ← map_err WCrypto (encrypt_aad key nonce memo (tx_hash t));
  Ok (MkTransaction (tx_hash t) (tx_from t) (tx_to t) (tx_amount t) (tx_fee t) (tx_nonce t) (tx_signature t)
        (tx_timestamp t) (Some (nonce ++ enc))).

Definition decrypt_memo (key : bytes) (t : Transaction) : result WalletError bytes :=
  match tx_memo t with
  | None => Err (WTransaction "No memo to decrypt")
  | Some data =>
      if (length data <? 24)%nat then Err (WTransaction "Invalid memo data")
      else map_err WTransaction (decrypt_aad key (take 24 data) (drop 24 data) (tx_hash t))
  end.

End Memo.
