(* ===== verification/Wallet.v ===== *)
(** * The wallet and its offline rail (origin-wallet)

    [wallet.rs] and [native_rail.rs].  A clock reading is an argument, in
    nanoseconds since the epoch; the calendar of chrono, the seed handle of the
    SDK, key derivation, Reed-Solomon coding, the recovery-phrase codec and
    bincode are parameters.  The transaction history is the Merkle mountain
    range of [Mmr.v], whose panics are [WPanic] here. *)

From Stdlib Require Import Ascii String QArith.
From S2P Require Import Prelude RustStr Bytes Sdk StateErr Mmr Envelope VcsStream WalletCore.

#[local] Open Scope Z_scope.

(** ** Data *)

Record WalletMetadata := MkMetadata { wm_name : string; wm_created_at : Z; wm_modified_at : Z; wm_version : Z }.

Definition WALLET_FORMAT_VERSION : Z := 2.

Record WalletState := MkWalletState { ws_version : Z; ws_argon2_salt : bytes; ws_nonce : bytes; ws_ciphertext : bytes }.

Record AccountData := MkAccountData {
  ad_name : string; ad_index : Z; ad_ed25519_sk : bytes; ad_falcon_sk : bytes;
  ad_address_bech32 : string; ad_balance : Z; ad_nonce : Z
}.

Record WShard := MkShard { sh_index : Z; sh_data : bytes; sh_total : Z; sh_threshold : Z }.

Record SpendPolicy := MkPolicy { per_tx : option Z; per_day : option Z; per_month : option Z }.
Definition default_policy : SpendPolicy := MkPolicy None None None.

Record SpendBuckets := MkBuckets { day_key : Z; day_spent : Z; month_key : Z; month_spent : Z }.
Definition default_buckets : SpendBuckets := MkBuckets u64_max 0 u64_max 0.

Record WalletPayload := MkPayload {
  wp_seed : bytes; wp_accounts : list AccountData; wp_history : MmrState; wp_metadata : WalletMetadata;
  wp_spend_policy : SpendPolicy; wp_spend_buckets : SpendBuckets
}.

(** ** Outside code *)

Class WalletOps := {
  (** [SeedHandle::with_tier(seed, 1 hour, Sovereign)] made at an instant,
      [as_bytes] and [derive_key(domain, label, 32)] at another. *)
  SeedHandle : Type;
  seed_with_tier : Z -> bytes -> SeedHandle;
  seed_as_bytes : Z -> SeedHandle -> option bytes;
  seed_derive_key : Z -> SeedHandle -> string -> string -> option bytes;
  (** [seed::gen::try_generate] is an argument of [create]; [entropy::analyze]. *)
  shannon_entropy : bytes -> Q;
  (** [Argon2id::derive_key(passphrase, salt, false)]. *)
  argon2id : bytes -> bytes -> result string bytes;
  (** [falcon1024::generate_keypair_from_seed(..).1], and
      [derive_stealth_master(SeedHandle::new(seed, None))]. *)
  falcon_sk_from_seed : bytes -> result string bytes;
  wallet_sign :: SignOps;
  stealth_master_of : bytes -> result string StealthMaster;
  (** [ReedSolomonCodec::new(k, m)]: [encode_shards] and [decode_shards(_, len)]. *)
  rs_encode : Z -> Z -> bytes -> result string (list bytes);
  rs_decode : Z -> Z -> list (option bytes) -> nat -> result string bytes;
  (** Recovery phrases: encoding to text and decoding, under an alphabet. *)
  RecoveryFormat : Type;
  phrase_encode : option RecoveryFormat -> bytes -> result string string;
  phrase_decode : option RecoveryFormat -> string -> result string bytes;
  (** bincode. *)
  ser_transaction : Transaction -> result string bytes;
  ser_payload : WalletPayload -> result string bytes;
  de_payload : bytes -> result string WalletPayload;
  ser_state : WalletState -> result string bytes;
  de_state : bytes -> result string WalletState;
  (** chrono: the year and the month (from 0) of an instant, and RFC 3339. *)
  cal_year : Z -> Z;
  cal_month0 : Z -> Z;
  cal_rfc3339 : Z -> string
}.

(** [chrono::Utc::now().timestamp() as u64]. *)
Definition unix_secs (now : Z) : Z := wrap_u64 (now / 1000000000).

Definition metadata_new (now : Z) : WalletMetadata :=
  MkMetadata "Origin Wallet" (unix_secs now) (unix_secs now) 1.

Section Wallet.
Context `{Sdk, AddrOps, XChaCha, WalletOps}.

Record OriginWallet := MkWallet {
  w_seed : SeedHandle;
  w_accounts : list WAccount;
  w_history : MmrState;
  w_metadata : WalletMetadata;
  w_spend_policy : SpendPolicy;
  w_spend_buckets : SpendBuckets
}.

Inductive wexn := WFail (e : WalletError) | WPanic.

(** Methods on [&mut Wallet]. *)
Definition WM : Type -> Type := SE OriginWallet wexn.
#[global] Instance WM_ret : MRet WM := fun A a w => (Ok a, w).
#[global] Instance WM_bind : MBind WM := @SE_mbind OriginWallet wexn.

Definition set_accounts (l : list WAccount) (w : OriginWallet) : OriginWallet :=
  MkWallet (w_seed w) l (w_history w) (w_metadata w) (w_spend_policy w) (w_spend_buckets w).
Definition set_history (h : MmrState) (w : OriginWallet) : OriginWallet :=
  MkWallet (w_seed w) (w_accounts w) h (w_metadata w) (w_spend_policy w) (w_spend_buckets w).
Definition set_buckets (b : SpendBuckets) (w : OriginWallet) : OriginWallet :=
  MkWallet (w_seed w) (w_accounts w) (w_history w) (w_metadata w) (w_spend_policy w) b.
Definition touch (now : Z) (w : OriginWallet) : OriginWallet :=
  let m := w_metadata w in
  MkWallet (w_seed w) (w_accounts w) (w_history w)
    (MkMetadata (wm_name m) (wm_created_at m) (unix_secs now) (wm_version m)) (w_spend_policy w) (w_spend_buckets w).

(** ** Creation *)

Definition min_entropy : Q := 9 # 2.

Definition from_seed (t1 t2 : Z) (seed : bytes) : OriginWallet :=
  MkWallet (seed_with_tier t1 seed) [] mmr_new (metadata_new t2) default_policy default_buckets.

(** [create]: the generated seed is the argument. *)
Definition create (t1 t2 : Z) (generated : result string bytes) : result WalletError OriginWallet :=
  seed ← map_err WCrypto generated;
  if negb (Qle_bool min_entropy (shannon_entropy seed))
  then Err (WInsufficientEntropy min_entropy (shannon_entropy seed))
  else Ok (from_seed t1 t2 seed).

(** ** Persistence *)

Definition derive_key_from_passphrase (passphrase : string) (salt : bytes) : result WalletError bytes :=
  map_err WCrypto (argon2id (as_bytes passphrase) salt).

Definition account_data (a : WAccount) : AccountData :=
  MkAccountData (acc_name a) (acc_index a) (acc_ed25519_sk a) (acc_falcon_sk a)
    (bech32_or_empty (acc_address a)) (acc_balance a) (acc_nonce a).

Definition account_of_data (d : AccountData) : result WalletError WAccount :=
  address ← from_bech32 (ad_address_bech32 d);
  Ok (set_nonce (ad_nonce d)
        (set_balance (ad_balance d) (account_new (ad_name d) (ad_index d) (ad_ed25519_sk d) (ad_falcon_sk d) address))).

Definition payload_of (seed : bytes) (w : OriginWallet) : WalletPayload :=
  MkPayload seed (map account_data (w_accounts w)) (w_history w) (w_metadata w) (w_spend_policy w) (w_spend_buckets w).

(** [save]: the bytes written; the draws are 32 and 24 random bytes. *)
Definition wallet_save_bytes (now : Z) (passphrase : string) (salt_draw nonce_draw : result string bytes)
    (w : OriginWallet) : result WalletError bytes :=
  salt_bytes ← map_err WCrypto salt_draw;
  let salt := take 16 salt_bytes in
  key ← derive_key_from_passphrase passphrase salt;
  match seed_as_bytes now (w_seed w) with
  | None => Err WSeedExpired
  | Some seed =>
      plaintext ← map_err WSerialization (ser_payload (payload_of seed w));
      nonce ← map_err WCrypto nonce_draw;
      ciphertext ← map_err WCrypto (xc_encrypt key nonce plaintext);
      map_err WSerialization (ser_state (MkWalletState WALLET_FORMAT_VERSION salt nonce ciphertext))
  end.

(** [open] of a file with the bytes [data]. *)
Definition wallet_open_bytes (now : Z) (passphrase : string) (data : bytes) : result WalletError OriginWallet :=
  state ← map_err WSerialization (de_state data);
  if negb (ws_version state =? WALLET_FORMAT_VERSION)
  then Err (WDecryption ("Unsupported wallet format version " +:+ show_Z (ws_version state)))
  else
    key ← derive_key_from_passphrase passphrase (ws_argon2_salt state);
    plaintext ← map_err WCrypto (xc_decrypt key (ws_nonce state) (ws_ciphertext state));
    payload ← map_err WSerialization (de_payload plaintext);
    accounts ← mapM account_of_data (wp_accounts payload);
    Ok (MkWallet (seed_with_tier now (wp_seed payload)) accounts (wp_history payload) (wp_metadata payload)
          (wp_spend_policy payload) (wp_spend_buckets payload)).

(** ** Accounts *)

Definition find_account (index : Z) (l : list WAccount) : option WAccount :=
  List.find (fun a => acc_index a =? index) l.

(** [iter_mut().find(..)] and a write through it. *)
Fixpoint update_account (index : Z) (f : WAccount -> WAccount) (l : list WAccount) : list WAccount :=
  match l with
  | [] => []
  | a :: l' => if acc_index a =? index then f a :: l' else a :: update_account index f l'
  end.

Definition derive_keys (now index : Z) (seed : SeedHandle) : result WalletError WAccount :=
  let domain := "wallet:account:" +:+ show_Z index in
  match seed_derive_key now seed domain "ed25519" with
  | None => Err (WKeyDerivation "Ed25519 derivation failed")
  | Some ed =>
      match seed_derive_key now seed domain "falcon-seed" with
      | None => Err (WKeyDerivation "Falcon seed derivation failed")
      | Some falcon_seed =>
          falcon_sk ← map_err WKeyDerivation (falcon_sk_from_seed falcon_seed);
          if negb (length ed =? 32)%nat then Err (WKeyDerivation "Invalid Ed25519 key") else
          let address := from_ed25519 (ed_verifying_key ed) Bech32 Mainnet in
          match seed_derive_key now seed (domain +:+ ":stealth") "stealth-master" with
          | None => Err (WKeyDerivation "Stealth seed derivation failed")
          | Some stealth_seed =>
              master ← map_err WKeyDerivation (stealth_master_of stealth_seed);
              Ok (with_stealth ("Account " +:+ show_Z index) index ed falcon_sk address master)
          end
      end
  end.

Definition derive_account (now t : Z) (index : Z) : WM WAccount := fun w =>
  match find_account index (w_accounts w) with
  | Some a => (Ok a, w)
  | None =>
      match derive_keys now index (w_seed w) with
      | Err e => (Err (WFail e), w)
      | Ok a => (Ok a, touch t (set_accounts (w_accounts w ++ [a]) w))
      end
  end.

Definition account_missing (index : Z) : wexn := WFail (WAccountNotFound ("Account " +:+ show_Z index)).

Definition get_balance (index : Z) : WM Z := fun w =>
  match find_account index (w_accounts w) with
  | Some a => (Ok (acc_balance a), w)
  | None => (Err (account_missing index), w)
  end.

Definition update_balance (now : Z) (index new_balance : Z) : WM unit := fun w =>
  match find_account index (w_accounts w) with
  | Some _ => (Ok tt, touch now (set_accounts (update_account index (set_balance new_balance) (w_accounts w)) w))
  | None => (Err (account_missing index), w)
  end.

Definition total_balance (w : OriginWallet) : Z := wrap_u64 (list_sum (map acc_balance (w_accounts w))).

Definition set_name (now : Z) (name : string) (w : OriginWallet) : OriginWallet :=
  let m := w_metadata w in
  touch now (MkWallet (w_seed w) (w_accounts w) (w_history w)
    (MkMetadata name (wm_created_at m) (wm_modified_at m) (wm_version m)) (w_spend_policy w) (w_spend_buckets w)).

(** ** History *)

Definition add_transaction (t : Transaction) : WM unit := fun w =>
  match ser_transaction t with
  | Err e => (Err (WFail (WSerialization e)), w)
  | Ok b =>
      match append_hash (w_history w) (sha256 b) with
      | None => (Err WPanic, w)
      | Some h => (Ok tt, set_history h w)
      end
  end.

Definition transaction_count (w : OriginWallet) : Z := Z.of_nat (leaf_count (w_history w)).

(** [None] is a panic of the range. *)
Definition prove_transaction (leaf : nat) (w : OriginWallet) : option (result WalletError MembershipProof) :=
  if (leaf_count (w_history w) <=? leaf)%nat
  then Some (Err (WTransaction ("Leaf index " +:+ show_Z (Z.of_nat leaf) +:+ " out of range ("
                                 +:+ show_Z (Z.of_nat (leaf_count (w_history w))) +:+ " leaves)")))
  else r ← prove (w_history w) leaf; Some (map_err WTransaction r).

Definition verify_transaction_proof (p : MembershipProof) (w : OriginWallet) : option bool :=
  r ← root (w_history w); verify_proof p r.

(** ** Spend policy *)

Definition set_spend_policy (now : Z) (p : SpendPolicy) (w : OriginWallet) : OriginWallet :=
  touch now (MkWallet (w_seed w) (w_accounts w) (w_history w) (w_metadata w) p (w_spend_buckets w)).

Definition day_of (now : Z) : Z := unix_secs now / 86400.
Definition month_of (now : Z) : Z := wrap_u64 (wrap_u64 (cal_year now) * 12 + cal_month0 now).

Definition roll_buckets (now : Z) (b : SpendBuckets) : SpendBuckets :=
  let b := if day_of now =? day_key b then b else MkBuckets (day_of now) 0 (month_key b) (month_spent b) in
  if month_of now =? month_key b then b else MkBuckets (day_key b) (day_spent b) (month_of now) 0.

Definition roll_spend_windows (now : Z) (w : OriginWallet) : OriginWallet :=
  set_buckets (roll_buckets now (w_spend_buckets w)) w.

Definition sat_add_u64 (a b : Z) : Z := Z.min (a + b) u64_max.

Definition over_cap (cap : option Z) (x : Z) : option Z :=
  match cap with Some c => if c <? x then Some c else None | None => None end.

(** The refusal of an amount by the caps, if any. *)
Definition spend_refusal (p : SpendPolicy) (b : SpendBuckets) (amount : Z) : option string :=
  match over_cap (per_tx p) amount with
  | Some cap => Some ("amount " +:+ show_Z amount +:+ " exceeds the per-transaction spend cap " +:+ show_Z cap
                       +:+ " (SPEC §10.2)")
  | None =>
      let day := sat_add_u64 (day_spent b) amount in
      match over_cap (per_day p) day with
      | Some cap => Some ("day spend would reach " +:+ show_Z day +:+ ", exceeding the per-day cap " +:+ show_Z cap
                           +:+ " (SPEC §10.2)")
      | None =>
          let month := sat_add_u64 (month_spent b) amount in
          match over_cap (per_month p) month with
          | Some cap => Some ("month spend would reach " +:+ show_Z month +:+ ", exceeding the per-month cap "
                               +:+ show_Z cap +:+ " (SPEC §10.2)")
          | None => None
          end
      end
  end.

Definition check_spend (now amount : Z) : WM unit := fun w =>
  let w := roll_spend_windows now w in
  match spend_refusal (w_spend_policy w) (w_spend_buckets w) amount with
  | Some msg => (Err (WFail (WTransaction msg)), w)
  | None => (Ok tt, w)
  end.

Definition record_spend (now t amount : Z) (w : OriginWallet) : OriginWallet :=
  let w := roll_spend_windows now w in
  let b := w_spend_buckets w in
  touch t (set_buckets (MkBuckets (day_key b) (sat_add_u64 (day_spent b) amount)
                          (month_key b) (sat_add_u64 (month_spent b) amount)) w).

Definition spend_usage (now : Z) (w : OriginWallet) : (SpendBuckets * Z * Z) * OriginWallet :=
  let w := roll_spend_windows now w in
  let b := w_spend_buckets w in ((b, day_spent b, month_spent b), w).

(** ** Backup and recovery *)

Definition rs_parity (total threshold : Z) : Z := wrap_u32 (total - threshold).

Definition backup (now : Z) (shards threshold : Z) (w : OriginWallet) : result WalletError (list WShard) :=
  if (threshold =? 0) || (shards <? threshold) then Err (WBackup "Threshold must be between 1 and shards") else
  match seed_as_bytes now (w_seed w) with
  | None => Err WSeedExpired
  | Some seed =>
      encoded ← map_err WCrypto (rs_encode threshold (rs_parity shards threshold) seed);
      Ok (imap (fun i d => MkShard (wrap_u32 (Z.of_nat i)) d shards threshold) encoded)
  end.

(** The slots given to the decoder: a shard with an index out of range is
    dropped, a repeated index overwrites. *)
Definition place_shards (total : Z) (shards : list WShard) : list (option bytes) :=
  foldl (fun slots s => <[Z.to_nat (sh_index s) := Some (sh_data s)]> slots) (replicate (Z.to_nat total) None) shards.

Definition recover_from_shards (shards : list WShard) : result WalletError bytes :=
  match shards with
  | [] => Err (WRecovery "No shards provided")
  | first :: _ =>
      let threshold := sh_threshold first in
      let total := sh_total first in
      if Z.of_nat (length shards) <? threshold
      then Err (WRecovery ("Need " +:+ show_Z threshold +:+ " shards, got " +:+ show_Z (Z.of_nat (length shards))))
      else map_err WCrypto (rs_decode threshold (rs_parity total threshold) (place_shards total shards) 32)
  end.

(** [None] is the panic of [&seed_bytes[..32]]. *)
Definition export_phrase (now : Z) (format : option RecoveryFormat) (w : OriginWallet)
    : option (result WalletError string) :=
  match seed_as_bytes now (w_seed w) with
  | None => Some (Err WSeedExpired)
  | Some seed =>
      if (length seed <? 32)%nat then None
      else Some (map_err WRecovery (phrase_encode format (take 32 seed)))
  end.

Definition from_phrase (t1 t2 : Z) (phrase : string) (format : option RecoveryFormat) : result WalletError OriginWallet :=
  seed ← map_err WRecovery (phrase_decode format phrase); Ok (from_seed t1 t2 seed).

(** ** The offline rail ([native_rail.rs]) *)

Record NativePayParams := MkPayParams {
  pp_to : string; pp_amount : Z; pp_memo : bytes; pp_spend_cap : option Z; pp_credit : option Z
}.

Record NativeReceipt := MkReceipt {
  nr_to : string; nr_amount : Z; nr_memo_hex : string; nr_tx_id : string; nr_timestamp : string
}.

Definition recipient_address (payee : string) : Address :=
  from_hash (take 20 (sha256 (as_bytes payee))) Bech32 Mainnet.

(** [LocalNativeRail::pay_sync]; [clk] gives its clock readings in order. *)
Definition pay_sync (clk : nat -> Z) (params : NativePayParams) : WM NativeReceipt :=
  let amount := pp_amount params in
  _ ← lift match over_cap (pp_spend_cap params) amount with
           | Some cap => Err (WFail (WTransaction ("amount " +:+ show_Z amount +:+ " exceeds spend cap " +:+ show_Z cap
                                                    +:+ " (policy refusal)")))
           | None => Ok tt
           end;
  _ ← check_spend (clk 0%nat) amount;
  bal ← get_balance 0;
  _ ← lift (if bal <? amount
            then Err (WFail (WTransaction ("insufficient funds: account 0 has " +:+ show_Z bal +:+ ", need " +:+ show_Z amount)))
            else Ok tt);
  _ ← update_balance (clk 1%nat) 0 (bal - amount);
  first ← gets (fun w => head (w_accounts w));
  from ← lift (match first with
               | Some a => Ok (acc_address a)
               | None => Err (WFail (WAccountNotFound "account 0 for native rail"))
               end);
  count ← gets transaction_count;
  let tx := transaction_new (unix_secs (clk 2%nat)) from (recipient_address (pp_to params)) amount 0 count in
  _ ← add_transaction tx;
  _ ← modify (record_spend (clk 3%nat) (clk 4%nat) amount);
  b ← lift (map_err (fun e => WFail (WTransaction e)) (ser_transaction tx));
  mret (MkReceipt (pp_to params) amount (hex_encode (pp_memo params)) (hex_encode (sha256 b))
          (cal_rfc3339 (clk 5%nat))).

End Wallet.
