(* ===== verification/WalletProps.v ===== *)
(** * The wallet: properties *)

From Stdlib Require Import Ascii String QArith.
From S2P Require Import Prelude RustStr Bytes Sdk StateErr Mmr MmrTheory Envelope VcsStream WalletCore Wallet.

#[local] Open Scope Z_scope.

(** ** A spending window

    The day and the month bucket are the same machine: a key and an amount,
    reset when the key of the clock differs. *)

Definition wroll (key : Z -> Z) (now : Z) (b : Z * Z) : Z * Z := if key now =? b.1 then b else (key now, 0).
Definition wbump (key : Z -> Z) (now amount : Z) (b : Z * Z) : Z * Z :=
  let b := wroll key now b in (b.1, sat_add_u64 b.2 amount).

(** What a trace of payments (instant, amount) adds up to in a window. *)
Definition spent_on (key : Z -> Z) (k : Z) (trace : list (Z * Z)) : Z :=
  list_sum (map snd (List.filter (fun p => key p.1 =? k) trace)).

Lemma spent_on_snoc (key : Z -> Z) (k now amount : Z) (trace : list (Z * Z)) :
  spent_on key k (trace ++ [(now, amount)]) = spent_on key k trace + (if key now =? k then amount else 0).
Proof.
  unfold spent_on. rewrite List.filter_app, map_app, list_sum_app. cbn.
  destruct (key now =? k); cbn; lia.
Qed.

Section Window.
Variable key : Z -> Z.
Variable valid : Z -> Prop.
Hypothesis key_mono : forall s t, valid s -> valid t -> s <= t -> key s <= key t.

(** After the payments [trace], all up to the instant [T], a bucket accounts
    for its window, and no window is over the cap. *)
Record window_ok (cap : option Z) (T : Z) (trace : list (Z * Z)) (b : Z * Z) : Prop := {
  win_time : valid T;
  win_pos : 0 <= b.2 <= u64_max;
  win_cap : forall c k, cap = Some c -> 0 <= c -> spent_on key k trace <= c;
  win_future : forall k, key T < k -> spent_on key k trace = 0;
  win_turned : key T <> b.1 -> spent_on key (key T) trace = 0;
  win_counted : forall c, cap = Some c -> spent_on key b.1 trace <= b.2
}.

Lemma window_start (cap : option Z) (T : Z) (b : Z * Z) :
  valid T -> 0 <= b.2 <= u64_max -> window_ok cap T [] b.
Proof. intros HT Hb. split; try done; intros; unfold spent_on; cbn; lia. Qed.

Lemma window_roll (cap : option Z) (T now : Z) (trace : list (Z * Z)) (b : Z * Z) :
  window_ok cap T trace b -> valid now -> T <= now -> window_ok cap now trace (wroll key now b).
Proof.
  intros [HT Hp Hc Hf Ht Hn] Hv Hle. pose proof (key_mono T now HT Hv Hle) as Hk.
  assert (key now <> b.1 -> spent_on key (key now) trace = 0) as H0.
  { intros Hne. destruct (Z.eq_dec (key T) (key now)) as [E|]; [|apply Hf; lia]. rewrite <- E in *. by apply Ht. }
  unfold wroll. destruct (Z.eqb_spec (key now) b.1); split; cbn; try done; try lia;
    try (intros k Hlt; apply Hf; lia).
Qed.

(** A payment that the cap admitted when it was checked at [T] and that is
    recorded at [now]. *)
Lemma window_bump (cap : option Z) (T now amount : Z) (trace : list (Z * Z)) (b : Z * Z) :
  window_ok cap T trace b -> valid now -> T <= now -> 0 <= amount <= u64_max ->
  (forall c, cap = Some c -> c < u64_max) -> over_cap cap (sat_add_u64 b.2 amount) = None ->
  window_ok cap now (trace ++ [(now, amount)]) (wbump key now amount b).
Proof.
  intros Hw Hv Hle Ha Hcap Hover. pose proof (win_pos _ _ _ _ Hw) as Hpos.
  assert (forall c, cap = Some c -> b.2 + amount <= c) as Hsum.
  { intros c ->. specialize (Hcap c eq_refl). cbn in Hover. unfold sat_add_u64 in Hover.
    destruct (Z.ltb_spec c (Z.min (b.2 + amount) u64_max)); [done|]. lia. }
  destruct (window_roll _ _ _ _ _ Hw Hv Hle) as [_ Hp Hc Hf Ht Hn].
  unfold wbump. set (b' := wroll key now b) in *.
  assert (b'.1 = key now) as Ek by (unfold b', wroll; destruct (Z.eqb_spec (key now) b.1); done).
  assert (b'.2 <= b.2) as Hle2 by (unfold b', wroll; destruct (key now =? b.1); cbn; lia).
  split; cbn; rewrite ?Ek in *.
  - done.
  - unfold sat_add_u64, u64_max in *. lia.
  - intros c k E Hc0. rewrite spent_on_snoc. specialize (Hc c k E Hc0). specialize (Hsum c E). specialize (Hn c E).
    destruct (Z.eqb_spec (key now) k) as [<-|]; lia.
  - intros k Hk. rewrite spent_on_snoc, Hf by done. destruct (Z.eqb_spec (key now) k); lia.
  - done.
  - intros c E. specialize (Hsum c E). specialize (Hn c E). specialize (Hcap c E).
    rewrite spent_on_snoc, Z.eqb_refl. unfold sat_add_u64. lia.
Qed.
End Window.

(** ** One payment *)

(** bincode serialises every transaction, and decoding inverts encoding; a
    seed handle holds its seed for an hour; the calendar is one. *)
Class WalletOk `{WalletOps} : Prop := {
  ser_tx_total : forall t, exists b, ser_transaction t = Ok b;
  payload_codec : forall p b, ser_payload p = Ok b -> de_payload b = Ok p;
  state_codec : forall p b, ser_state p = Ok b -> de_state b = Ok p;
  seed_held : forall t u s, t <= u < t + 3600 * 1000000000 -> seed_as_bytes u (seed_with_tier t s) = Some s;
  cal_range : forall t, 0 <= t < 2 ^ 62 -> 1970 <= cal_year t < 3000 /\ 0 <= cal_month0 t <= 11;
  cal_mono : forall s t, 0 <= s <= t -> t < 2 ^ 62 -> 12 * cal_year s + cal_month0 s <= 12 * cal_year t + cal_month0 t
}.

(** Instants from the epoch to 2116. *)
Definition instant (t : Z) : Prop := 0 <= t < 2 ^ 62.

Section Pay.
Context `{Sdk, AddrOps, XChaCha, WalletOps, !HexOk, !HashOk, !AddrOk, !WalletOk}.

Lemma day_mono (s t : Z) : instant s -> instant t -> s <= t -> day_of s <= day_of t.
Proof.
  unfold instant, day_of, unix_secs. intros Hs Ht Hle.
  rewrite !wrap_u64_id by (unfold in_u64, u64_max; split; [apply Z.div_pos; lia|]; apply Z.div_le_upper_bound; lia).
  do 2 (apply Z.div_le_mono; [lia|]). done.
Qed.

Lemma month_mono (s t : Z) : instant s -> instant t -> s <= t -> month_of s <= month_of t.
Proof.
  intros Hs Ht Hle. destruct (cal_range s Hs), (cal_range t Ht).
  pose proof (cal_mono s t ltac:(unfold instant in *; lia) ltac:(unfold instant in *; lia)).
  unfold month_of. rewrite !(wrap_u64_id (cal_year _)) by (unfold in_u64, u64_max; lia).
  rewrite !wrap_u64_id by (unfold in_u64, u64_max; lia). lia.
Qed.

Definition history_ok (h : MmrState) : Prop := exists v ts, forest_ok ts /\ h = repr v ts.

Definition bucket_ok (b : SpendBuckets) : Prop := 0 <= day_spent b <= u64_max /\ 0 <= month_spent b <= u64_max.

(** The invariant of a wallet. *)
Record wallet_ok (w : OriginWallet) : Prop := {
  ok_history : history_ok (w_history w);
  ok_buckets : bucket_ok (w_spend_buckets w);
  ok_indices : NoDup (map acc_index (w_accounts w));
  ok_balances : Forall (fun a => in_u64 (acc_balance a)) (w_accounts w)
}.

Definition balance_of (index : Z) (w : OriginWallet) : option Z := acc_balance <$> find_account index (w_accounts w).

(** What a successful payment does to the wallet. *)
Record paid (clk : nat -> Z) (p : NativePayParams) (w : OriginWallet) (rc : NativeReceipt) (w' : OriginWallet) : Prop := {
  paid_cap : over_cap (pp_spend_cap p) (pp_amount p) = None;
  paid_policy : spend_refusal (w_spend_policy w) (roll_buckets (clk 0%nat) (w_spend_buckets w)) (pp_amount p) = None;
  paid_funds : exists bal, balance_of 0 w = Some bal /\ pp_amount p <= bal /\
    w_accounts w' = update_account 0 (set_balance (bal - pp_amount p)) (w_accounts w);
  paid_leaf : exists leaf, length leaf = 32%nat /\ nr_tx_id rc = hex_encode leaf /\
    append_hash (w_history w) leaf = Some (w_history w');
  paid_rest : w_seed w' = w_seed w /\ w_spend_policy w' = w_spend_policy w /\ nr_to rc = pp_to p /\
    nr_amount rc = pp_amount p /\ nr_memo_hex rc = hex_encode (pp_memo p);
  paid_buckets : w_spend_buckets w' =
    let b := roll_buckets (clk 3%nat) (roll_buckets (clk 0%nat) (w_spend_buckets w)) in
    MkBuckets (day_key b) (sat_add_u64 (day_spent b) (pp_amount p)) (month_key b) (sat_add_u64 (month_spent b) (pp_amount p))
}.

Lemma append_hash_ok (h : MmrState) (leaf : bytes) :
  history_ok h -> length leaf = 32%nat ->
  exists h', append_hash h leaf = Some h' /\ history_ok h' /\ leaf_count h' = S (leaf_count h).
Proof.
  intros (v & ts & Hok & ->) Hl. exists (repr v (forest_insert ts leaf)). rewrite append_hash_repr by done.
  split; [done|]. split; [exists v, (forest_insert ts leaf); by split; [apply forest_insert_ok|]|].
  cbn. rewrite forest_insert_leaves, length_app. cbn. lia.
Qed.

Lemma pay_sync_cases (clk : nat -> Z) (p : NativePayParams) (w : OriginWallet) :
  wallet_ok w ->
  let '(r, w') := pay_sync clk p w in
  match r with
  | Err e => e <> WPanic /\ (w' = w \/ w' = roll_spend_windows (clk 0%nat) w)
  | Ok rc => paid clk p w rc w'
  end.
Proof.
  intros Hw. unfold pay_sync, mbind, WM_bind, SE_mbind, lift. destruct (over_cap (pp_spend_cap p) (pp_amount p)) eqn:Ecap; [by split; [|left]|].
  unfold check_spend at 1. cbn [w_spend_policy w_spend_buckets roll_spend_windows set_buckets].
  destruct (spend_refusal _ _ _) eqn:Epol; [by split; [|right]|].
  set (w1 := roll_spend_windows (clk 0%nat) w). unfold get_balance at 1. change (w_accounts w1) with (w_accounts w).
  destruct (find_account 0 (w_accounts w)) as [a0|] eqn:Ef; [|by split; [|right]].
  destruct (Z.ltb_spec (acc_balance a0) (pp_amount p)) as [|Hbal]; [by split; [|right]|].
  unfold update_balance at 1. change (w_accounts w1) with (w_accounts w). rewrite Ef. unfold gets at 1.
  destruct (head _) as [a1|] eqn:Eh.
  2: { cbn in Eh. destruct (w_accounts w); [done|]. cbn in Eh. by destruct (acc_index _ =? 0). }
  unfold gets at 1. cbv beta iota. set (tx := transaction_new _ _ _ _ _ _). destruct (ser_tx_total tx) as [b Eb].
  unfold add_transaction at 1. cbv zeta. rewrite Eb. cbn [w_history touch set_accounts w1 roll_spend_windows set_buckets].
  destruct (append_hash_ok (w_history w) (sha256 b) (ok_history _ Hw) (sha256_len b)) as (h' & Eh' & _ & _).
  rewrite Eh'. cbn [modify map_err]. rewrite ?Eb. cbn [map_err].
  split; try done.
  - exists (acc_balance a0). unfold balance_of. rewrite Ef. done.
  - exists (sha256 b). split; [apply sha256_len|done].
Qed.

Lemma update_account_spec (index : Z) (f : WAccount -> WAccount) (l : list WAccount) :
  (forall a, acc_index (f a) = acc_index a) ->
  map acc_index (update_account index f l) = map acc_index l /\
  (forall j, find_account j (update_account index f l) =
             if j =? index then f <$> find_account j l else find_account j l).
Proof.
  intros Hf. unfold find_account. induction l as [|a l [IH1 IH2]]; cbn.
  - split; [done|]. intros j. by destruct (j =? index).
  - destruct (Z.eqb_spec (acc_index a) index) as [E|Hne]; cbn.
    + split; [by rewrite Hf|]. intros j. rewrite Hf, E, (Z.eqb_sym index j).
      destruct (Z.eqb_spec j index); done.
    + split; [by rewrite IH1|]. intros j. rewrite IH2.
      destruct (Z.eqb_spec (acc_index a) j), (Z.eqb_spec j index); congruence.
Qed.

Lemma find_account_elem (index : Z) (l : list WAccount) (a : WAccount) :
  find_account index l = Some a -> a ∈ l /\ acc_index a = index.
Proof. intros E. apply List.find_some in E as [Hin Hi]. apply list_elem_of_In in Hin. split; [done|lia]. Qed.

Lemma update_account_Forall (P : WAccount -> Prop) (index : Z) (f : WAccount -> WAccount) (l : list WAccount) :
  (forall a, P a -> P (f a)) -> Forall P l -> Forall P (update_account index f l).
Proof. intros Hf. induction 1; cbn; [constructor|]. case_match; constructor; auto. Qed.

Lemma roll_bucket_ok (now : Z) (b : SpendBuckets) : bucket_ok b -> bucket_ok (roll_buckets now b).
Proof. unfold bucket_ok, roll_buckets, u64_max. repeat case_match; cbn; lia. Qed.

Lemma sat_add_range (a b : Z) : 0 <= a <= u64_max -> 0 <= b -> 0 <= sat_add_u64 a b <= u64_max.
Proof. unfold sat_add_u64, u64_max. lia. Qed.

Lemma pay_sync_ok (clk : nat -> Z) (p : NativePayParams) (w : OriginWallet) :
  wallet_ok w -> 0 <= pp_amount p -> wallet_ok (pay_sync clk p w).2.
Proof.
  intros Hw Hp. pose proof (pay_sync_cases clk p w Hw) as Hc.
  destruct (pay_sync clk p w) as [[rc|e] w']; cbn.
  - destruct Hc as [_ _ (bal & Eb & Hle & Ea) (leaf & Hl & _ & Eh) _ Ebk].
    destruct (update_account_spec 0 (set_balance (bal - pp_amount p)) (w_accounts w)) as [E1 E2]; [done|].
    destruct (append_hash_ok _ leaf (ok_history _ Hw) Hl) as (h' & Eh' & Hh & _). rewrite Eh in Eh'. injection Eh' as <-.
    assert (in_u64 bal) as Hbal.
    { unfold balance_of in Eb. destruct (find_account 0 _) as [a|] eqn:Ef; [|done]. cbn in Eb. injection Eb as <-.
      apply find_account_elem in Ef as [Hin _]. pose proof (ok_balances _ Hw) as Hb. rewrite Forall_forall in Hb. by apply Hb. }
    split; [done|..].
    + rewrite Ebk. pose proof (roll_bucket_ok (clk 3%nat) _ (roll_bucket_ok (clk 0%nat) _ (ok_buckets _ Hw))) as [? ?].
      split; cbn; by apply sat_add_range.
    + rewrite Ea, E1. apply Hw.
    + rewrite Ea. apply update_account_Forall; [|apply Hw]. intros a _. cbn. unfold in_u64 in *. lia.
  - destruct Hc as [_ [-> | ->]]; [done|]. destruct Hw as [Hh Hb Hi Hf]. split; try done. cbn. by apply roll_bucket_ok.
Qed.

(** ** Many payments *)

(** Calls one after the other: the payments made, with the instant at which they
    were recorded, and the wallet they leave. *)
Fixpoint pay_all (calls : list ((nat -> Z) * NativePayParams)) (w : OriginWallet) : list (Z * Z) * OriginWallet :=
  match calls with
  | [] => ([], w)
  | (clk, p) :: calls' =>
      let '(r, w') := pay_sync clk p w in
      let '(trace, w'') := pay_all calls' w' in
      ((if is_ok r then [(clk 3%nat, pp_amount p)] else []) ++ trace, w'')
  end.

(** The clock does not run backwards. *)
Fixpoint clocks_ok (T : Z) (calls : list ((nat -> Z) * NativePayParams)) : Prop :=
  match calls with
  | [] => True
  | (clk, p) :: calls' =>
      0 <= pp_amount p <= u64_max /\ instant (clk 0%nat) /\ instant (clk 3%nat) /\
      T <= clk 0%nat <= clk 3%nat /\ clocks_ok (clk 3%nat) calls'
  end.

Definition day_bucket (b : SpendBuckets) : Z * Z := (day_key b, day_spent b).
Definition month_bucket (b : SpendBuckets) : Z * Z := (month_key b, month_spent b).

Lemma day_roll (now : Z) (b : SpendBuckets) : day_bucket (roll_buckets now b) = wroll day_of now (day_bucket b).
Proof. unfold roll_buckets, wroll, day_bucket. cbn. by destruct (day_of now =? day_key b); cbn; destruct (month_of now =? month_key b). Qed.

Lemma month_roll (now : Z) (b : SpendBuckets) : month_bucket (roll_buckets now b) = wroll month_of now (month_bucket b).
Proof.
  unfold roll_buckets, wroll, month_bucket. cbn. by destruct (day_of now =? day_key b); cbn; destruct (month_of now =? month_key b).
Qed.

Lemma spend_refusal_None (p : SpendPolicy) (b : SpendBuckets) (amount : Z) :
  spend_refusal p b amount = None ->
  over_cap (per_tx p) amount = None /\ over_cap (per_day p) (sat_add_u64 (day_spent b) amount) = None /\
  over_cap (per_month p) (sat_add_u64 (month_spent b) amount) = None.
Proof. unfold spend_refusal. repeat case_match; done. Qed.

(** Caps below the saturation value; [u64::MAX] is no cap. *)
Definition policy_ok (p : SpendPolicy) : Prop :=
  forall c, (per_day p = Some c \/ per_month p = Some c) -> c < u64_max.

Definition both_windows (p : SpendPolicy) (T : Z) (trace : list (Z * Z)) (b : SpendBuckets) : Prop :=
  window_ok day_of instant (per_day p) T trace (day_bucket b) /\
  window_ok month_of instant (per_month p) T trace (month_bucket b).

Lemma both_roll (p : SpendPolicy) (T now : Z) (trace : list (Z * Z)) (b : SpendBuckets) :
  both_windows p T trace b -> instant now -> T <= now -> both_windows p now trace (roll_buckets now b).
Proof.
  intros [Hd Hm] Hi Hle. split; [rewrite day_roll|rewrite month_roll].
  - by eapply window_roll; [apply day_mono|..].
  - by eapply window_roll; [apply month_mono|..].
Qed.

Lemma both_paid (clk : nat -> Z) (p : NativePayParams) (w w' : OriginWallet) (rc : NativeReceipt) (T : Z)
    (trace : list (Z * Z)) :
  paid clk p w rc w' -> policy_ok (w_spend_policy w) -> both_windows (w_spend_policy w) T trace (w_spend_buckets w) ->
  0 <= pp_amount p <= u64_max -> instant (clk 0%nat) -> instant (clk 3%nat) -> T <= clk 0%nat <= clk 3%nat ->
  both_windows (w_spend_policy w) (clk 3%nat) (trace ++ [(clk 3%nat, pp_amount p)]) (w_spend_buckets w').
Proof.
  intros [_ Hpol _ _ _ Eb] Hp Hw Ha I0 I3 Ht. apply spend_refusal_None in Hpol as (_ & Hd & Hm).
  destruct (both_roll _ _ (clk 0%nat) _ _ Hw I0 ltac:(lia)) as [Wd Wm].
  set (b0 := roll_buckets (clk 0%nat) (w_spend_buckets w)) in *. split.
  - replace (day_bucket (w_spend_buckets w')) with (wbump day_of (clk 3%nat) (pp_amount p) (day_bucket b0)).
    + eapply window_bump; [apply day_mono|..]; eauto; lia.
    + unfold wbump. rewrite <- day_roll, Eb. done.
  - replace (month_bucket (w_spend_buckets w')) with (wbump month_of (clk 3%nat) (pp_amount p) (month_bucket b0)).
    + eapply window_bump; [apply month_mono|..]; eauto; lia.
    + unfold wbump. rewrite <- month_roll, Eb. done.
Qed.

Lemma paid_balances (clk : nat -> Z) (p : NativePayParams) (w w' : OriginWallet) (rc : NativeReceipt) (j : Z) :
  paid clk p w rc w' ->
  balance_of j w' = if j =? 0 then (fun b => b - pp_amount p) <$> balance_of 0 w else balance_of j w.
Proof.
  intros [_ _ (bal & Eb & _ & Ea) _ _ _]. unfold balance_of in *. rewrite Ea.
  destruct (update_account_spec 0 (set_balance (bal - pp_amount p)) (w_accounts w)) as [_ ->]; [done|].
  destruct (Z.eqb_spec j 0) as [->|]; [|done]. destruct (find_account 0 (w_accounts w)); [|done]. cbn in *. congruence.
Qed.

Lemma clocks_ok_mono (S T : Z) (calls : list ((nat -> Z) * NativePayParams)) :
  S <= T -> clocks_ok T calls -> clocks_ok S calls.
Proof. destruct calls as [|[clk p] calls]; [done|]. cbn. intros Hle (A & B & C & D & E). refine (conj A (conj B (conj C (conj _ E)))). lia. Qed.

(** Everything a run of payments keeps. *)
Record run_post (w : OriginWallet) (before trace : list (Z * Z)) (w' : OriginWallet) : Prop := {
  run_ok : wallet_ok w';
  run_policy : w_spend_policy w' = w_spend_policy w;
  run_windows : exists T', both_windows (w_spend_policy w) T' (before ++ trace) (w_spend_buckets w');
  run_per_tx : Forall (fun q => over_cap (per_tx (w_spend_policy w)) q.2 = None) trace;
  run_balances : forall j, balance_of j w' =
    if j =? 0 then (fun b => b - list_sum (map snd trace)) <$> balance_of 0 w else balance_of j w;
  run_history : leaf_count (w_history w') = (leaf_count (w_history w) + length trace)%nat
}.

Lemma pay_all_inv (calls : list ((nat -> Z) * NativePayParams)) (w : OriginWallet) (T : Z) (before : list (Z * Z)) :
  wallet_ok w -> policy_ok (w_spend_policy w) -> clocks_ok T calls ->
  both_windows (w_spend_policy w) T before (w_spend_buckets w) ->
  run_post w before (pay_all calls w).1 (pay_all calls w).2.
Proof.
  revert w T before. induction calls as [|[clk p] calls IH]; intros w T before Hw Hp Hc Hb.
  - cbn. split; try done.
    + exists T. by rewrite app_nil_r.
    + intros j. cbn. destruct (Z.eqb_spec j 0) as [->|]; [|done]. destruct (balance_of 0 w); cbn; [|done]. f_equal. lia.
  - destruct Hc as (Ha & C0 & C3 & Ht & Hc). cbn [pay_all].
    pose proof (pay_sync_ok clk p w Hw ltac:(lia)) as Hw'. pose proof (pay_sync_cases clk p w Hw) as Hs.
    destruct (pay_sync clk p w) as [[rc|e] w1]; cbn [snd is_ok] in *.
    + pose proof (both_paid _ _ _ _ _ _ _ Hs Hp Hb Ha C0 C3 Ht) as Hb'. pose proof (fun j => paid_balances _ _ _ _ _ j Hs) as Hbal.
      destruct Hs as [_ Hpol _ (leaf & Hl & _ & Eh) (_ & Epol & _) _].
      destruct (append_hash_ok _ leaf (ok_history _ Hw) Hl) as (h' & Eh' & _ & Ec). rewrite Eh in Eh'. injection Eh' as <-.
      rewrite <- Epol in Hb', Hp. specialize (IH w1 _ _ Hw' Hp Hc Hb').
      destruct (pay_all calls w1) as [trace w2]. cbn [fst snd app] in *.
      destruct IH as [I1 I2 (T' & I3) I4 I5 I6]. rewrite Epol, <- ?app_assoc in *. split; try done.
      * by exists T'.
      * constructor; [|done]. by apply spend_refusal_None in Hpol as (? & _).
      * intros j. rewrite I5, !Hbal. cbn. destruct (Z.eqb_spec j 0) as [->|]; [|done].
        destruct (balance_of 0 w); cbn; [|done]. f_equal. unfold list_sum. cbn. lia.
      * rewrite I6, Ec. cbn. lia.
    + destruct Hs as [_ Hs]. assert (exists T1, T1 <= clk 3%nat /\ both_windows (w_spend_policy w) T1 before (w_spend_buckets w1) /\
        w_spend_policy w1 = w_spend_policy w /\ w_accounts w1 = w_accounts w /\ w_history w1 = w_history w) as (T1 & Hle & Hb1 & E1 & E2 & E3).
      { destruct Hs as [-> | ->]; [exists T; split; [lia|done]|]. exists (clk 0%nat).
        split; [lia|]. split; [|done]. eapply both_roll; eauto; lia. }
      rewrite <- E1 in Hb1, Hp. specialize (IH w1 T1 before Hw' Hp (clocks_ok_mono _ _ _ Hle Hc) Hb1).
      destruct (pay_all calls w1) as [trace w2]. cbn [fst snd app] in *.
      destruct IH as [I1 I2 I3 I4 I5 I6]. unfold balance_of in *. rewrite E1, ?E2, ?E3 in *. by split.
Qed.
(** The payments of a trace respect the caps of a policy. *)
Definition within_caps (p : SpendPolicy) (trace : list (Z * Z)) : Prop :=
  (forall c k, per_day p = Some c -> 0 <= c -> spent_on day_of k trace <= c) /\
  (forall c k, per_month p = Some c -> 0 <= c -> spent_on month_of k trace <= c) /\
  (forall c, per_tx p = Some c -> Forall (fun q => q.2 <= c) trace).

Lemma pay_all_post (calls : list ((nat -> Z) * NativePayParams)) (w : OriginWallet) (T : Z) :
  wallet_ok w -> policy_ok (w_spend_policy w) -> instant T -> clocks_ok T calls ->
  run_post w [] (pay_all calls w).1 (pay_all calls w).2 /\ within_caps (w_spend_policy w) (pay_all calls w).1.
Proof.
  intros Hw Hp HT Hc. assert (both_windows (w_spend_policy w) T [] (w_spend_buckets w)) as Hb.
  { destruct (ok_buckets _ Hw). by split; apply window_start. }
  pose proof (pay_all_inv calls w T [] Hw Hp Hc Hb) as Hi. split; [done|].
  destruct Hi as [_ _ (T' & [Wd Wm]) I4 _ _]. split; [intros c k; apply (win_cap _ _ _ _ _ _ Wd)|].
  split; [intros c k; apply (win_cap _ _ _ _ _ _ Wm)|].
  intros c Ec. rewrite Ec in I4. eapply Forall_impl; [exact I4|]. intros q Hq. cbn in Hq. case_match; [done|lia].
Qed.
End Pay.

(** ** Files, shards and signatures *)

(** Any subset of a backup in any order, as the decoder gets it. *)
Lemma place_shards_spec (total : nat) (enc : list bytes) (l : list WShard) :
  length enc = total ->
  Forall (fun s => exists i d, enc !! i = Some d /\ sh_index s = Z.of_nat i /\ sh_data s = d) l ->
  forall slots, length slots = total ->
  let out := foldl (fun slots s => <[Z.to_nat (sh_index s) := Some (sh_data s)]> slots) slots l in
  length out = total /\
  (forall i, out !! i = if bool_decide (Z.of_nat i ∈ map sh_index l) then Some <$> enc !! i else slots !! i).
Proof.
  intros He. induction 1 as [|s l (i0 & d & Hi & Ei & Ed) _ IH]; intros slots Hs; cbn [foldl map].
  - split; [done|]. intros i. by rewrite bool_decide_eq_false_2 by (apply not_elem_of_nil).
  - destruct (IH (<[Z.to_nat (sh_index s) := Some (sh_data s)]> slots)) as [I1 I2]; [by rewrite length_insert|].
    split; [done|]. intros i. rewrite I2, Ei, Ed, Nat2Z.id.
    pose proof (lookup_lt_Some _ _ _ Hi). destruct (decide (i = i0)) as [->|Hne].
    + rewrite list_lookup_insert_eq by lia. rewrite (bool_decide_eq_true_2 (_ ∈ _ :: _)) by set_solver.
      rewrite Hi. by case_bool_decide.
    + rewrite list_lookup_insert_ne by done.
      assert (bool_decide (Z.of_nat i ∈ Z.of_nat i0 :: map sh_index l) = bool_decide (Z.of_nat i ∈ map sh_index l)) as ->; [|done].
      apply bool_decide_ext. rewrite elem_of_cons. split; [intros [|]; [lia|done]|by right].
Qed.

(** What a wallet is after it was written and read back: a fresh handle on the
    same seed, addresses marked as Bech32m and no stealth keys. *)
Section Reopen.
Context `{Sdk, AddrOps, XChaCha, WalletOps}.

Definition reopened_account (a : WAccount) : WAccount :=
  MkAccount (acc_name a) (acc_index a) (acc_ed25519_sk a) (acc_falcon_sk a)
    (MkAddress (pubkey_hash (acc_address a)) Bech32m (addr_network (acc_address a))) (acc_balance a) (acc_nonce a) None.

Definition reopened (now : Z) (seed : bytes) (w : OriginWallet) : OriginWallet :=
  MkWallet (seed_with_tier now seed) (map reopened_account (w_accounts w)) (w_history w) (w_metadata w)
    (w_spend_policy w) (w_spend_buckets w).

Context {AO : AddrOk} {XO : XChaChaOk} {WO : WalletOk}.

Lemma address_bech32 (a : Address) :
  length (pubkey_hash a) = 20%nat ->
  from_bech32 (bech32_or_empty a) = Ok (MkAddress (pubkey_hash a) Bech32m (addr_network a)).
Proof.
  intros Hl. destruct (bech32_ok (hrp a) (pubkey_hash a)) as (s & E & D); [destruct a as [? ? []]; cbn; set_solver|done|].
  unfold bech32_or_empty, to_bech32, from_bech32. rewrite E. cbn. rewrite D. cbn. rewrite Hl. cbn.
  by destruct a as [? ? []].
Qed.

Lemma accounts_reopen (l : list WAccount) :
  Forall (fun a => length (pubkey_hash (acc_address a)) = 20%nat) l ->
  mapM account_of_data (map account_data l) = Ok (map reopened_account l).
Proof.
  induction 1 as [|a l Ha _ IH]; [done|]. cbn [map mapM].
  assert (account_of_data (account_data a) = Ok (reopened_account a)) as ->.
  { unfold account_of_data, account_data. cbn [ad_address_bech32]. by rewrite address_bech32. }
  cbn. by rewrite IH.
Qed.

End Reopen.

(** ** Statements *)

(** C22: The standing spend policy holds over any sequence of payment attempts, the
    refused ones included, as long as the clock does not run backwards: the
    payments recorded in a calendar day and in a calendar month stay within
    their caps, each payment within the per-transaction cap; account 0 is
    debited by exactly the payments made, no other account changes, and
    the history has one leaf more for each. *)
Theorem spend_policy_enforced `{Sdk, AddrOps, XChaCha, WalletOps, !HexOk, !HashOk, !AddrOk, !WalletOk}
    (calls : list ((nat -> Z) * NativePayParams)) (w : OriginWallet) (T : Z) :
  wallet_ok w -> policy_ok (w_spend_policy w) -> instant T -> clocks_ok T calls ->
  let '(trace, w') := pay_all calls w in
  wallet_ok w' /\ within_caps (w_spend_policy w) trace /\
  (forall j, balance_of j w' =
     if j =? 0 then (fun b => b - list_sum (map snd trace)) <$> balance_of 0 w else balance_of j w) /\
  leaf_count (w_history w') = (leaf_count (w_history w) + length trace)%nat.
Proof.
  intros Hw Hp HT Hc. destruct (pay_all_post calls w T Hw Hp HT Hc) as [[I1 I2 _ _ I5 I6] Hcaps].
  by destruct (pay_all calls w) as [trace w'].
Qed.

(** A receipt is provable: after a successful payment the history has a
    membership proof, at the position the wallet's counter had before, for the
    transaction id on the receipt, and the wallet verifies it. *)
Theorem receipt_is_in_history `{Sdk, AddrOps, XChaCha, WalletOps, !HexOk, !HashOk, !AddrOk, !WalletOk}
    (clk : nat -> Z) (p : NativePayParams) (w w' : OriginWallet) (rc : NativeReceipt) :
  wallet_ok w -> pay_sync clk p w = (Ok rc, w') ->
  exists proof, prove_transaction (leaf_count (w_history w)) w' = Some (Ok proof) /\
    leaf_hash proof = nr_tx_id rc /\ verify_transaction_proof proof w' = Some true.
Proof.
  intros Hw E. pose proof (pay_sync_cases clk p w Hw) as Hs. rewrite E in Hs.
  destruct Hs as [_ _ _ (leaf & Hl & Eid & Eh) _ _]. destruct (ok_history _ Hw) as (v & ts & Hok & Ew).
  rewrite Ew, append_hash_repr in Eh by done. injection Eh as Eh.
  destruct (prove_verify_repr v (forest_insert ts leaf) (leaf_count (w_history w)) leaf) as (q & r & Ep & Er & El & _ & Ev);
    [by apply forest_insert_ok| |done|].
  - rewrite forest_insert_leaves, Ew. cbn. by rewrite lookup_app_r, Nat.sub_diag.
  - exists q. unfold prove_transaction, verify_transaction_proof. rewrite <- Eh, Ep, Er, Eid.
    rewrite Ew. cbn [leaf_count repr]. rewrite forest_insert_leaves, length_app. cbn [length].
    destruct (Nat.leb_spec (length (forest_leaves ts) + 1) (length (forest_leaves ts))); [lia|]. done.
Qed.

(** A saved wallet opens again with its passphrase: balances, nonces,
    keys, history, policy and spend buckets come back; addresses
    come back as Bech32m and the stealth keys are gone. *)
Theorem wallet_file_roundtrip `{Sdk, AddrOps, XChaCha, WalletOps, !AddrOk, !XChaChaOk, !WalletOk}
    (now later : Z) (passphrase : string) (salt nonce seed data : bytes) (w : OriginWallet) :
  Forall (fun a => length (pubkey_hash (acc_address a)) = 20%nat) (w_accounts w) ->
  seed_as_bytes now (w_seed w) = Some seed ->
  wallet_save_bytes now passphrase (Ok salt) (Ok nonce) w = Ok data ->
  wallet_open_bytes later passphrase data = Ok (reopened later seed w).
Proof.
  intros Ha Es E. unfold wallet_save_bytes in E. cbn in E.
  apply result_bind_Ok in E as (key & Ek & E). rewrite Es in E.
  apply result_bind_Ok in E as (plain & Epl & E). cbn in E. apply result_bind_Ok in E as (ct & Ec & E).
  unfold wallet_open_bytes. destruct (ser_payload _) as [b|] eqn:E1; [|done]. injection Epl as ->.
  destruct (xc_encrypt _ _ _) as [c|] eqn:E2; [|done]. injection Ec as ->.
  destruct (ser_state _) as [d|] eqn:E3; [|done]. injection E as ->.
  rewrite (state_codec _ _ E3). cbn. rewrite Ek. cbn. rewrite (xc_roundtrip _ _ _ _ E2). cbn.
  rewrite (payload_codec _ _ E1). cbn. by rewrite accounts_reopen.
Qed.

(** Reed-Solomon coding: [k + m] shards, any [k] of which give the data back. *)
Class RsOk `{WalletOps} : Prop := {
  rs_count : forall k m d l, rs_encode k m d = Ok l -> Z.of_nat (length l) = k + m;
  rs_any : forall k m d l slots, rs_encode k m d = Ok l -> length slots = length l ->
    (forall i x, slots !! i = Some (Some x) -> l !! i = Some x) ->
    k <= Z.of_nat (length (omap id slots)) -> rs_decode k m slots (length d) = Ok d
}.

Lemma omap_id_count {A : Type} (slots : list (option A)) (ks : list nat) :
  NoDup ks -> Forall (fun i => exists x, slots !! i = Some (Some x)) ks -> (length ks <= length (omap id slots))%nat.
Proof.
  revert ks. induction slots as [|o slots IH]; intros ks Hn Hf.
  - destruct Hf as [|i ks [x Hx] _]; [cbn; lia|]. done.
  - set (js := map pred (List.filter (fun i => negb (i =? 0)%nat) ks)).
    assert (length ks <= (if bool_decide (0%nat ∈ ks) then 1 else 0) + length js)%nat as Hlen.
    { unfold js. rewrite length_map. clear js IH Hf. induction Hn as [|i ks Hi Hn IH]; [cbn; lia|]. cbn [List.filter length].
      destruct i as [|i]; cbn [negb Nat.eqb length].
      - rewrite bool_decide_eq_true_2 by set_solver. rewrite bool_decide_eq_false_2 in IH by done. lia.
      - rewrite (bool_decide_ext (0%nat ∈ S i :: ks) (0%nat ∈ ks)) by set_solver. lia. }
    assert (length js <= length (omap id slots))%nat as Hjs.
    { apply IH.
      - unfold js. clear -Hn. induction Hn as [|i ks Hi Hn IHn]; [constructor|]. cbn [List.filter].
        destruct i as [|i]; cbn [negb Nat.eqb]; [done|]. cbn [map pred]. constructor; [|done].
        intros Hin. apply list_elem_of_fmap in Hin as (j & -> & Hj). apply list_elem_of_In, filter_In in Hj as [Hj Hz].
        apply list_elem_of_In in Hj. destruct j; [done|]. done.
      - unfold js. apply Forall_forall. intros j Hj. apply list_elem_of_fmap in Hj as (i & -> & Hj).
        apply list_elem_of_In, filter_In in Hj as [Hj Hz]. apply list_elem_of_In in Hj.
        rewrite Forall_forall in Hf. destruct (Hf i Hj) as [x Hx]. destruct i; [done|]. by exists x. }
    destruct o as [x|]; cbn [omap list_omap id length]; case_bool_decide as H0; try lia.
    rewrite Forall_forall in Hf. destruct (Hf 0%nat H0) as [x Hx]. done.
Qed.

(** Any [threshold] different shards of a backup, in any order, give the seed
    back. *)
Theorem shard_recovery `{Sdk, AddrOps, XChaCha, WalletOps, !RsOk} (now shards threshold : Z) (w : OriginWallet)
    (seed : bytes) (all l : list WShard) :
  seed_as_bytes now (w_seed w) = Some seed -> length seed = 32%nat -> 0 <= threshold -> shards <= u32_max ->
  backup now shards threshold w = Ok all ->
  Forall (fun s => s ∈ all) l -> NoDup (map sh_index l) -> threshold <= Z.of_nat (length l) ->
  recover_from_shards l = Ok seed.
Proof.
  intros Es Hlen Hth Hsh Eb Hl Hn Hcount. unfold backup in Eb.
  destruct (Z.eqb_spec threshold 0); [done|]. destruct (Z.ltb_spec shards threshold); [done|]. cbn [orb] in Eb.
  rewrite Es in Eb. apply result_bind_Ok in Eb as (enc & Ee & Eb). injection Eb as <-.
  assert (rs_parity shards threshold = shards - threshold) as Ep by (apply Z.mod_small; unfold u32_max in *; lia).
  rewrite Ep in Ee. destruct (rs_encode _ _ _) as [enc'|] eqn:Ere; [|done]. injection Ee as ->.
  pose proof (rs_count _ _ _ _ Ere) as Hc.
  assert (Forall (fun s => (exists i d, enc !! i = Some d /\ sh_index s = Z.of_nat i /\ sh_data s = d) /\
                           sh_total s = shards /\ sh_threshold s = threshold) l) as Hall.
  { eapply Forall_impl; [exact Hl|]. intros s Hs. apply list_elem_of_lookup in Hs as [i Hi].
    rewrite list_lookup_imap in Hi. destruct (enc !! i) as [d|] eqn:Ed; [|done]. injection Hi as <-.
    split; [|done]. exists i, d. split; [done|]. cbn. split; [|done].
    apply Z.mod_small. apply lookup_lt_Some in Ed. unfold u32_max in *. lia. }
  destruct l as [|s l']; [cbn in Hcount; lia|]. set (l := s :: l') in *.
  assert (sh_total s = shards /\ sh_threshold s = threshold) as [Et Eh] by by apply Forall_inv in Hall as [_ ?].
  unfold recover_from_shards. change (match l with [] => _ | first :: _ => _ end) with
    (if Z.of_nat (length l) <? sh_threshold s
     then Err (WRecovery ("Need " +:+ show_Z (sh_threshold s) +:+ " shards, got " +:+ show_Z (Z.of_nat (length l))))
     else map_err WCrypto (rs_decode (sh_threshold s) (rs_parity (sh_total s) (sh_threshold s)) (place_shards (sh_total s) l) 32)).
  rewrite Et, Eh, Ep. destruct (Z.ltb_spec (Z.of_nat (length l)) threshold); [lia|].
  unfold place_shards. destruct (place_shards_spec (Z.to_nat shards) enc l ltac:(lia)) with (slots := replicate (Z.to_nat shards) (@None bytes))
    as [L1 L2]; [eapply Forall_impl; [exact Hall|]; by intros ? [? _]|apply length_replicate|].
  rewrite <- Hlen, (rs_any _ _ _ _ _ Ere); [done|lia|..].
  - intros i x Hx. rewrite L2 in Hx. case_bool_decide.
    + destruct (enc !! i); cbn in Hx; congruence.
    + apply lookup_replicate in Hx as [? _]. done.
  - etrans; [exact Hcount|]. apply Nat2Z.inj_le.
    rewrite <- (length_map (fun s => Z.to_nat (sh_index s)) l). apply omap_id_count.
    + rewrite <- (map_map sh_index Z.to_nat). apply NoDup_fmap_2_strong; [|done].
      intros x y Hx Hy E. apply list_elem_of_fmap in Hx as (sx & -> & Hx), Hy as (sy & -> & Hy).
      rewrite Forall_forall in Hall. destruct (Hall _ Hx) as [(? & ? & _ & Ex & _) _], (Hall _ Hy) as [(? & ? & _ & Ey & _) _]. lia.
    + apply Forall_fmap, Forall_forall. intros s0 Hs0.
      rewrite Forall_forall in Hall. destruct (Hall _ Hs0) as [(i & d & Hd & Ei & _) _]. exists d. cbn.
      rewrite L2, Ei, Nat2Z.id, bool_decide_eq_true_2, Hd; [done|]. rewrite <- Ei. by apply list_elem_of_fmap_2.
Qed.

(** The signature schemes: what [sign] returns verifies under the public keys;
    an Ed25519 signature has 64 bytes. *)
Class SignOk `{SignOps} (falcon_vk_of : bytes -> bytes) : Prop := {
  sign_lengths : forall ed fa m, length (pair_sign ed fa m).1 = 64%nat /\ Z.of_nat (length (pair_sign ed fa m).2) <= u32_max;
  sign_parses : forall ed fa m, falcon_sig_check (pair_sign ed fa m).2 = Ok tt;
  sign_keys : forall ed fa, length ed = 32%nat -> falcon_sk_check fa = Ok tt ->
    ed_vk_check (ed_verifying_key ed) = Ok tt /\ falcon_vk_check (falcon_vk_of fa) = Ok tt;
  sign_verifies : forall ed fa m, length ed = 32%nat -> falcon_sk_check fa = Ok tt ->
    pair_verify (ed_verifying_key ed) (falcon_vk_of fa) m (pair_sign ed fa m) = Ok tt
}.

(** A transaction signed by an account verifies under the keys of the account;
    a signature of 64 to 67 bytes makes the verifier panic instead of
    returning an error. *)
Theorem transaction_signature `{AddrOps, SignOps} (vk : bytes -> bytes) {SO : SignOk vk} (a : WAccount) (t t' : Transaction)
    (short : bytes) :
  tx_sign a t = Ok t' -> (64 <= length short < 68)%nat ->
  tx_verify t' (ed_verifying_key (acc_ed25519_sk a)) (vk (acc_falcon_sk a)) = Some (Ok tt) /\
  tx_verify (with_signature short t) (ed_verifying_key (acc_ed25519_sk a)) (vk (acc_falcon_sk a)) = None.
Proof.
  intros E Hs. unfold tx_sign, account_sign, ed_key in E.
  destruct (Nat.eqb_spec (length (acc_ed25519_sk a)) 32) as [Hed|]; [|done]. cbn [mbind result_mbind] in E.
  destruct (falcon_sk_check (acc_falcon_sk a)) as [[]|] eqn:Ef; [|done]. cbn [mbind result_mbind map_err] in E.
  destruct (sign_keys _ _ Hed Ef) as [K1 K2]. pose proof (sign_verifies _ _ (to_sign_bytes t) Hed Ef) as Hv.
  destruct (sign_lengths (acc_ed25519_sk a) (acc_falcon_sk a) (to_sign_bytes t)) as [L1 L2].
  pose proof (sign_parses (acc_ed25519_sk a) (acc_falcon_sk a) (to_sign_bytes t)) as Hp.
  destruct (pair_sign _ _ _) as [ed fa]. cbn [fst snd] in *.
  assert (t' = with_signature (ed ++ le_bytes 4 (wrap_u32 (Z.of_nat (length fa))) ++ fa) t) as -> by congruence.
  set (n := Z.of_nat (length fa)) in *. assert (wrap_u32 n = n) as Ew by (apply Z.mod_small; unfold u32_max in *; lia).
  rewrite Ew. pose proof (le_bytes_length 4 n) as Hn. assert (le_val (le_bytes 4 n) = n) as Ev.
  { rewrite le_val_bytes. exact Ew. }
  set (h := le_bytes 4 n) in *. unfold tx_verify. cbn [tx_signature with_signature].
  change (to_sign_bytes (with_signature ?s t)) with (to_sign_bytes t). rewrite K1, K2. split.
  - destruct ed as [|x ed']; [done|]. set (ed := x :: ed') in *. change (x :: ed' ++ h ++ fa) with (ed ++ h ++ fa).
    change ((x :: ed') ++ h ++ fa) with (ed ++ h ++ fa).
    rewrite !length_app, L1, Hn.
    destruct (Nat.ltb_spec (64 + (4 + length fa)) 64); [lia|]. destruct (Nat.ltb_spec (64 + (4 + length fa)) 68); [lia|].
    assert (Bytes.slice 64 68 (ed ++ h ++ fa) = h) as ->.
    { replace 68%nat with (64 + length h)%nat by lia. by apply slice_app. }
    rewrite Ev. destruct (Z.ltb_spec (Z.of_nat (64 + (4 + length fa))) (68 + n)); [lia|].
    replace (Z.to_nat n) with (length fa) by lia.
    assert (Bytes.slice 68 (68 + length fa) (ed ++ h ++ fa) = fa) as ->.
    { unfold Bytes.slice. rewrite app_assoc, drop_app_length' by (rewrite length_app; lia). rewrite firstn_all2; [done|lia]. }
    rewrite take_app_length' by done. rewrite Hp. cbn. by rewrite Hv.
  - destruct short as [|x s]; [cbn in Hs; lia|].
    destruct (Nat.ltb_spec (length (x :: s)) 64); [lia|]. destruct (Nat.ltb_spec (length (x :: s)) 68); [done|lia].
Qed.

(** ** A concrete instance *)

#[local] Instance Mountain_eq : EqDecision Mountain.
Proof. solve_decision. Defined.
#[local] Instance MmrState_eq : EqDecision MmrState.
Proof. solve_decision. Defined.
#[local] Instance AccountData_eq : EqDecision AccountData.
Proof. solve_decision. Defined.
#[local] Instance Metadata_eq : EqDecision WalletMetadata.
Proof. solve_decision. Defined.
#[local] Instance Policy_eq : EqDecision SpendPolicy.
Proof. solve_decision. Defined.
#[local] Instance Buckets_eq : EqDecision SpendBuckets.
Proof. solve_decision. Defined.
#[local] Instance Payload_eq : EqDecision WalletPayload.
Proof. solve_decision. Defined.
#[local] Instance WState_eq : EqDecision WalletState.
Proof. solve_decision. Defined.

Module ToyWallet.
Definition pad (n : nat) (b : bytes) : bytes := take n (b ++ replicate n (byte_of 0)).
Lemma padded_length (n : nat) (b : bytes) : length (pad n b) = n.
Proof. unfold pad. rewrite length_take, length_app, length_replicate. lia. Qed.

Definition addr : AddrOps := {|
  sha256 := pad 32; ripemd160 := pad 20;
  bech32m_encode h b := Ok (of_chars (chars h ++ b));
  bech32_decode s := match strip_prefix (chars "torigin") (chars s) with
                     | Some b => Ok ("torigin", b)
                     | None => match strip_prefix (chars "origin") (chars s) with
                               | Some b => Ok ("origin", b)
                               | None => Err "bad prefix"
                               end
                     end;
  to_base58 := of_chars; from_base58 s := Some (chars s)
|}.

Definition sign : SignOps := {|
  StealthMaster := unit;
  stealth_at_index _ _ := Ok ([], [], []);
  ed_verifying_key k := k;
  ed_vk_check _ := Ok tt; falcon_sk_check _ := Ok tt; falcon_vk_check _ := Ok tt; falcon_sig_check _ := Ok tt;
  pair_sign ed _ _ := (pad 64 ed, []);
  pair_verify pk _ _ s := if bool_decide (take 32 s.1 = pk) then Ok tt else Err "bad signature"
|}.

Definition seed : bytes := replicate 32 (byte_of 7).
Definition address : Address := @from_ed25519 addr seed Bech32 Mainnet.
Definition metadata : WalletMetadata := metadata_new 0.
Definition policy : SpendPolicy := MkPolicy None (Some 50) None.
Definition payload : WalletPayload :=
  MkPayload seed [MkAccountData "Account 0" 0 seed [] (@bech32_or_empty addr address) 100 0] mmr_new metadata policy default_buckets.
Definition state : WalletState := MkWalletState 2 (replicate 16 (byte_of 1)) (replicate 24 (byte_of 2)) (replicate 16 (byte_of 0)).

Definition year_ns : Z := 365 * 86400 * 1000000000.
Definition month_ns : Z := 31 * 86400 * 1000000000.

Definition ops : WalletOps := {|
  SeedHandle := bytes;
  seed_with_tier _ s := s; seed_as_bytes _ s := Some s; seed_derive_key _ s _ _ := Some (pad 32 s);
  shannon_entropy _ := 5 # 1;
  argon2id _ _ := Ok (pad 32 []);
  falcon_sk_from_seed s := Ok s;
  wallet_sign := sign;
  stealth_master_of _ := Ok tt;
  rs_encode k m d := if (1 <=? k) && (0 <=? m) then Ok (replicate (Z.to_nat (k + m)) d) else Err "bad shape";
  rs_decode _ _ slots _ := match head (omap id slots) with Some d => Ok d | None => Err "too few" end;
  RecoveryFormat := unit;
  phrase_encode _ b := Ok (of_chars b); phrase_decode _ s := Ok (chars s);
  ser_transaction _ := Ok [];
  ser_payload p := if bool_decide (p = payload) then Ok [] else Err "not in the table";
  de_payload _ := Ok payload;
  ser_state s := if bool_decide (s = state) then Ok [] else Err "not in the table";
  de_state _ := Ok state;
  cal_year t := 1970 + t / year_ns; cal_month0 t := t mod year_ns / month_ns;
  cal_rfc3339 _ := "now"
|}.

#[global] Instance addr_ok : @AddrOk addr.
Proof.
  split.
  - apply (padded_length 32).
  - apply (padded_length 20).
  - intros h b Hh _. eexists. split; [done|]. cbn [bech32_decode addr]. rewrite chars_of_chars.
    apply list_elem_of_In in Hh. destruct Hh as [<-|[<-|[]]]; cbn; by rewrite ?strip_prefix_app.
  - intros b. cbn. by rewrite chars_of_chars.
Qed.

Lemma cal_split (t : Z) : 0 <= t -> 0 <= t mod year_ns / month_ns <= 11.
Proof.
  intros Ht. pose proof (Z.mod_pos_bound t year_ns eq_refl). unfold year_ns, month_ns in *.
  split; [apply Z.div_pos; lia|]. apply Z.lt_succ_r, Z.div_lt_upper_bound; lia.
Qed.

#[global] Instance ops_ok : @WalletOk ops.
Proof.
  split.
  - by eexists.
  - intros p b. cbn. by case_bool_decide as E; subst.
  - intros p b. cbn. by case_bool_decide as E; subst.
  - done.
  - intros t Ht. split; [|apply cal_split; lia]. cbn. split; [pose proof (Z.div_pos t year_ns ltac:(lia) eq_refl); lia|].
    assert (t / year_ns < 1000); [|lia]. apply Z.div_lt_upper_bound; [done|]. unfold year_ns. lia.
  - intros s t Hs Ht. cbn. pose proof (cal_split s ltac:(lia)). pose proof (cal_split t ltac:(lia)).
    pose proof (Z.div_le_mono s t year_ns eq_refl ltac:(lia)) as Hy.
    destruct (Z.eq_dec (s / year_ns) (t / year_ns)) as [E|]; [|lia]. rewrite E.
    pose proof (Z.div_mod s year_ns ltac:(done)). pose proof (Z.div_mod t year_ns ltac:(done)). rewrite E in *.
    pose proof (Z.div_le_mono (s mod year_ns) (t mod year_ns) month_ns eq_refl ltac:(lia)). lia.
Qed.

#[global] Instance rs_ok : @RsOk ops.
Proof.
  split.
  - intros k m d l. cbn. destruct (Z.leb_spec 1 k), (Z.leb_spec 0 m); cbn; try done. intros [= <-]. rewrite length_replicate. lia.
  - intros k m d l slots. cbn. destruct (Z.leb_spec 1 k), (Z.leb_spec 0 m); cbn; try done. intros [= <-] _ Hm Hk.
    assert (forall x, x ∈ omap id slots -> x = d) as Hall.
    { intros x Hx. apply list_elem_of_omap in Hx as (o & Ho & E). unfold id in E. subst o. apply list_elem_of_lookup in Ho as [i Hi].
      apply Hm, lookup_replicate in Hi as [? _]. done. }
    destruct (omap id slots) as [|x xs]; [cbn in Hk; lia|]. cbn. rewrite (Hall x) by set_solver. done.
Qed.

#[global] Instance sign_ok : @SignOk sign id.
Proof.
  split; try done.
  - intros ed fa m. cbn [pair_sign sign fst snd length]. rewrite padded_length. by unfold u32_max.
  - intros ed fa m Hed _. cbn [pair_verify pair_sign sign fst]. rewrite bool_decide_eq_true_2; [done|].
    unfold pad. rewrite take_take. change (32 `min` 64)%nat with 32%nat. by apply take_app_length'.
Qed.

Definition account : @WAccount sign := MkAccount "Account 0" 0 seed [] address 100 0 (Some (tt : @StealthMaster sign)).
Definition wallet : @OriginWallet ops :=
  @MkWallet ops (seed : @SeedHandle ops) [account] mmr_new metadata policy default_buckets.

Lemma wallet_is_ok : @wallet_ok Toy.sdk ops wallet.
Proof.
  split; cbn.
  - exists 3, []. done.
  - unfold bucket_ok, default_buckets, u64_max. cbn. lia.
  - apply NoDup_singleton.
  - constructor; [|constructor]. unfold in_u64, u64_max. cbn. lia.
Qed.

Definition clock (s : Z) : nat -> Z := fun n => (s + Z.of_nat n) * 1000000000.
Definition pay_to (n : Z) : NativePayParams := MkPayParams "bob" n [] None None.
End ToyWallet.

#[local] Existing Instances Toy.sdk ToyWallet.addr ToyWallet.ops ToyWallet.sign ToyStream.crypto.

(** Three payments of 30 on two days under a day cap of 50: the second is
    refused, the third falls on the next day. *)
Definition three_payments : list ((nat -> Z) * NativePayParams) :=
  [(ToyWallet.clock 1000, ToyWallet.pay_to 30); (ToyWallet.clock 2000, ToyWallet.pay_to 30);
   (ToyWallet.clock 90000, ToyWallet.pay_to 30)].

Lemma spend_policy_enforced_witness :
  map snd (pay_all three_payments ToyWallet.wallet).1 = [30; 30] /\
  forall k, spent_on day_of k (pay_all three_payments ToyWallet.wallet).1 <= 50.
Proof.
  split; [by vm_compute|]. intros k.
  pose proof (spend_policy_enforced three_payments ToyWallet.wallet 0 ToyWallet.wallet_is_ok) as Hp.
  destruct (pay_all three_payments ToyWallet.wallet) as [trace w']. cbn [fst].
  destruct Hp as (_ & (Hd & _) & _).
  - intros c [E|E]; [|done]. injection E as <-. by vm_compute.
  - by vm_compute.
  - cbn. unfold instant, ToyWallet.clock, u64_max. lia.
  - apply (Hd 50 k); [done|lia].
Defined.

Lemma receipt_is_in_history_witness :
  exists rc w' proof, pay_sync (ToyWallet.clock 1000) (ToyWallet.pay_to 30) ToyWallet.wallet = (Ok rc, w') /\
    prove_transaction 0 w' = Some (Ok proof) /\ leaf_hash proof = nr_tx_id rc /\ verify_transaction_proof proof w' = Some true.
Proof.
  assert (is_ok (pay_sync (ToyWallet.clock 1000) (ToyWallet.pay_to 30) ToyWallet.wallet).1 = true) as Hok by by vm_compute.
  destruct (pay_sync (ToyWallet.clock 1000) (ToyWallet.pay_to 30) ToyWallet.wallet) as [[rc|e] w'] eqn:E; [|discriminate Hok].
  destruct (receipt_is_in_history _ _ _ _ _ ToyWallet.wallet_is_ok E) as (q & Hq). by exists rc, w', q.
Defined.

Lemma wallet_file_roundtrip_witness :
  wallet_open_bytes 5 "p" [] = Ok (reopened 5 ToyWallet.seed ToyWallet.wallet) /\
  map has_stealth_support (w_accounts ToyWallet.wallet) = [true] /\
  map has_stealth_support (w_accounts (reopened 5 ToyWallet.seed ToyWallet.wallet)) = [false].
Proof.
  split; [|done].
  apply (wallet_file_roundtrip 0 5 "p" (replicate 32 (byte_of 1)) (replicate 24 (byte_of 2)) ToyWallet.seed [] ToyWallet.wallet).
  - by repeat constructor.
  - done.
  - by vm_compute.
Defined.

Lemma shard_recovery_witness :
  recover_from_shards [MkShard 2 ToyWallet.seed 3 2; MkShard 0 ToyWallet.seed 3 2] = Ok ToyWallet.seed.
Proof.
  apply (shard_recovery 0 3 2 ToyWallet.wallet ToyWallet.seed
           [MkShard 0 ToyWallet.seed 3 2; MkShard 1 ToyWallet.seed 3 2; MkShard 2 ToyWallet.seed 3 2]).
  - done.
  - done.
  - lia.
  - by vm_compute.
  - by vm_compute.
  - repeat constructor; set_solver.
  - apply (NoDup_cons_2 2 [0]); [set_solver|apply NoDup_singleton].
  - cbn. lia.
Defined.

Lemma transaction_signature_witness :
  let t := transaction_new 0 ToyWallet.address ToyWallet.address 5 0 0 in
  tx_verify (with_signature (ToyWallet.pad 64 ToyWallet.seed ++ le_bytes 4 0) t) ToyWallet.seed [] = Some (Ok tt) /\
  tx_verify (with_signature (replicate 64 (byte_of 0)) t) ToyWallet.seed [] = None.
Proof.
  cbv zeta. set (t := transaction_new _ _ _ _ _ _).
  exact (transaction_signature id ToyWallet.account t
    (with_signature (ToyWallet.pad 64 ToyWallet.seed ++ le_bytes 4 0) t) (replicate 64 (byte_of 0))
    ltac:(by vm_compute) ltac:(cbn; lia)).
Defined.
