(* ===== verification/RunWallet.v ===== *)
(** * A pass and the wallet

    The executor touches the wallet only through the rail: the wallet it saves
    is the one it opened with the native calls of the pass replayed on it, in
    the order in which they were sent.  With the offline rail of origin-wallet as
    the rail, the standing spend policy therefore holds over a pass. *)

From Stdlib Require Import Ascii String.
From S2P Require Import Prelude RustStr Bytes Sdk PayError Amount Event Mmr Store Hoare Journal AuditLog Retry Compliance.
From S2P Require Import RustText Http X402 Settle F64 Executor.

Section Replay.
Context `{Sdk, Env, Net, Codec, !NativeRail}.

Definition is_native (c : RailCall) : bool := match c with CallNative _ _ _ _ => true | CallHttp _ _ => false end.
Definition natives (σ : State) : list RailCall := List.filter is_native (w_sent σ).

(** The wallet after the calls, each at its tick. *)
Definition replay_call (w : Wallet) (tc : nat * RailCall) : Wallet :=
  match tc.2 with
  | CallNative payee amt memo cap => (native_pay tc.1 w payee amt memo cap None).2
  | CallHttp _ _ => w
  end.
Definition replay (w : Wallet) (l : list (nat * RailCall)) : Wallet := foldl replay_call w l.

(** Ticks in increasing order between [t] and [t']. *)
Fixpoint ticks_in {A : Type} (t t' : nat) (l : list (nat * A)) : Prop :=
  match l with
  | [] => (t <= t')%nat
  | (x, _) :: l' => (t <= x)%nat /\ ticks_in (S x) t' l'
  end.

Lemma ticks_in_app {A : Type} (t u v : nat) (l k : list (nat * A)) :
  ticks_in t u l -> ticks_in u v k -> ticks_in t v (l ++ k).
Proof.
  revert t. induction l as [|[x a] l IH]; intros t Hl Hk; cbn in *.
  - destruct k as [|[y b] k]; cbn in *; [lia|]. destruct Hk. split; [lia|done].
  - destruct Hl. split; [done|]. by apply IH.
Qed.

(** A native call pays the order's amount, which is also its cap. *)
Definition native_ok (c : RailCall) : Prop :=
  match c with CallNative _ amt _ cap => in_u64 amt /\ cap = Some amt | CallHttp _ _ => False end.

(** What happened between two points: the file is as it was, the calls [l] were
    sent, and the wallet in memory went through them. *)
Definition ran (σ : State) (t : nat) (w : Wallet) (σ' : State) (t' : nat) (w' : Wallet) : Prop :=
  w_wallet σ' = w_wallet σ /\
  exists l, natives σ' = natives σ ++ map snd l /\ ticks_in t t' l /\ Forall native_ok (map snd l) /\ w' = replay w l.

Lemma ran_refl (σ : State) (t : nat) (w : Wallet) : ran σ t w σ t w.
Proof. split; [done|]. exists []. rewrite app_nil_r. repeat split; constructor. Qed.

Lemma ran_trans (σ σ1 σ2 : State) (t t1 t2 : nat) (w w1 w2 : Wallet) :
  ran σ t w σ1 t1 w1 -> ran σ1 t1 w1 σ2 t2 w2 -> ran σ t w σ2 t2 w2.
Proof.
  intros [E1 (l & N1 & T1 & O1 & ->)] [E2 (k & N2 & T2 & O2 & ->)]. split; [congruence|]. exists (l ++ k).
  rewrite N2, N1, map_app, app_assoc, Forall_app. unfold replay. rewrite foldl_app.
  repeat split; try done. by eapply ticks_in_app.
Qed.

(** ** Store programs leave the wallet alone *)

Definition keeps {A : Type} (m : M A) : Prop := forall σ t w, ran σ t w (m σ t).2.1 (m σ t).2.2 w.

Lemma keeps_bind {A B : Type} (m : M A) (f : A -> M B) : keeps m -> (forall a, keeps (f a)) -> keeps (m ≫= f).
Proof.
  intros Hm Hf σ t w. specialize (Hm σ t w). unfold mbind, M_bind.
  destruct (m σ t) as [[a|e] [σ1 t1]]; cbn in *; [|done]. eapply ran_trans; [exact Hm|apply Hf].
Qed.

Lemma keeps_ret {A : Type} (a : A) : keeps (mret a : M A).
Proof. intros σ t w. apply ran_refl. Qed.
Lemma keeps_throw {A : Type} (e : Error) : keeps (throw (A := A) e).
Proof. intros σ t w. apply ran_refl. Qed.
Lemma keeps_panic {A : Type} (e : string) : keeps (panic (A := A) e).
Proof. intros σ t w. apply ran_refl. Qed.
Lemma keeps_get_state : keeps get_state.
Proof. intros σ t w. apply ran_refl. Qed.

Lemma keeps_tick : keeps tick.
Proof. intros σ t w. split; [done|]. exists []. cbn. rewrite app_nil_r. repeat split; [lia|constructor]. Qed.

Lemma keeps_update (f : PaymentStore -> PaymentStore) : keeps (modify (on_store f)).
Proof. intros σ t w. split; [done|]. exists []. cbn. rewrite app_nil_r. repeat split; [lia|constructor]. Qed.

Lemma keeps_send (addr : string) (req : bytes) : keeps (send (CallHttp addr req)).
Proof.
  intros σ t w. split; [done|]. exists []. cbn. unfold natives, sending. cbn [w_sent].
  rewrite List.filter_app, app_nil_r. cbn. repeat split; [by rewrite app_nil_r|lia|constructor].
Qed.

Lemma keeps_attempt {A : Type} (m : M A) : keeps m -> keeps (attempt m).
Proof. intros Hm σ t w. specialize (Hm σ t w). unfold attempt. by destruct (m σ t) as [[a|[e|e]] [σ1 t1]]. Qed.

Lemma keeps_fold {A B : Type} (f : B -> A -> M B) (b : B) (l : list A) : (forall b a, keeps (f b a)) -> keeps (fold_M f b l).
Proof. intros Hf. revert b. induction l as [|a l IH]; intros b; cbn; [apply keeps_ret|]. by apply keeps_bind. Qed.

Lemma keeps_for {A : Type} (f : A -> M unit) (l : list A) : (forall a, keeps (f a)) -> keeps (for_each l f).
Proof. intros Hf. induction l as [|a l IH]; cbn; [apply keeps_ret|]. by apply keeps_bind. Qed.

End Replay.

(** Decompose a store program down to its primitive operations. *)
Ltac head_of_term m := lazymatch m with ?f _ => head_of_term f | _ => m end.
Ltac keep_step :=
  lazymatch goal with
  | |- keeps (mret _) => apply keeps_ret
  | |- keeps (_ ≫= _) => apply keeps_bind; [|intros ?]
  | |- keeps (throw _) => apply keeps_throw
  | |- keeps (panic _) => apply keeps_panic
  | |- keeps get_state => apply keeps_get_state
  | |- keeps tick => apply keeps_tick
  | |- keeps (modify (on_store _)) => apply keeps_update
  | |- keeps (send (CallHttp _ _)) => apply keeps_send
  | |- keeps (attempt _) => apply keeps_attempt
  | |- keeps (fold_M _ _ _) => apply keeps_fold; intros ? ?
  | |- keeps (for_each _ _) => apply keeps_for; intros ?
  | |- keeps (match _ with _ => _ end) => case_match
  | |- keeps (let _ := _ in _) => cbv zeta
  | |- keeps ((fun _ => _) _) => cbv beta
  | |- keeps ?m => let h := head_of_term m in unfold h
  end.

Section Keeps.
Context `{Sdk, Env, Net, Codec, !NativeRail}.

Lemma keeps_requeue (config : PaymentsConfig) : keeps (requeue_stuck_executing config).
Proof. repeat keep_step. Qed.
Lemma keeps_deferred (config : PaymentsConfig) : keeps (deferred_pass config).
Proof. repeat keep_step. Qed.
Lemma keeps_rollup (id : string) : keeps (rollup_event id).
Proof. repeat keep_step. Qed.
Lemma keeps_outcome (config : PaymentsConfig) (o : PaymentOrder) (pr : Progress) (r : result SettleOutcome unit) :
  keeps (handle_outcome config o pr r).
Proof. repeat keep_step. Qed.
End Keeps.

(** ** Attempts *)

Section Tracks.
Context `{Sdk, Env, Net, Codec, !NativeRail}.

(** How a program that holds the wallet ends: the wallet it hands on, or, when
    it is cut off, some wallet that is lost. *)
Definition tracks_to {A : Type} (get : A -> Wallet) (w : Wallet) (m : M A) : Prop :=
  forall σ t, match m σ t with
              | (Ok a, (σ', t')) => ran σ t w σ' t' (get a)
              | (Err _, (σ', t')) => exists w', ran σ t w σ' t' w'
              end.

Definition tracks {A : Type} (m : SM A) : Prop := forall p, tracks_to (fun rp => pass_wallet rp.2) (pass_wallet p) (m p).

Lemma tracks_to_bind {A B : Type} (get : A -> Wallet) (get' : B -> Wallet) (w : Wallet) (m : M A) (f : A -> M B) :
  tracks_to get w m -> (forall a, tracks_to get' (get a) (f a)) -> tracks_to get' w (m ≫= f).
Proof.
  intros Hm Hf σ t. specialize (Hm σ t). unfold mbind, M_bind. destruct (m σ t) as [[a|e] [σ1 t1]]; [|done].
  specialize (Hf a σ1 t1). destruct (f a σ1 t1) as [[b|e] [σ2 t2]]; [by eapply ran_trans|].
  destruct Hf as [w' Hf]. exists w'. by eapply ran_trans.
Qed.

Lemma tracks_to_keeps {A : Type} (w : Wallet) (m : M A) : keeps m -> tracks_to (fun _ => w) w m.
Proof. intros Hm σ t. specialize (Hm σ t w). destruct (m σ t) as [[a|e] [σ1 t1]]; [done|]. by exists w. Qed.

Lemma tracks_to_ret {A : Type} (get : A -> Wallet) (w : Wallet) (a : A) : get a = w -> tracks_to get w (mret a).
Proof. intros <- σ t. apply ran_refl. Qed.

Lemma tracks_bind {A B : Type} (m : SM A) (f : A -> SM B) : tracks m -> (forall a, tracks (f a)) -> tracks (m ≫= f).
Proof.
  intros Hm Hf p. eapply (tracks_to_bind (fun rp => pass_wallet rp.2)); [apply Hm|]. intros [[a|e] q]; cbn.
  - apply Hf.
  - by apply tracks_to_ret.
Qed.

Lemma tracks_ret {A : Type} (a : A) : tracks (mret a : SM A).
Proof. intros p. by apply tracks_to_ret. Qed.
Lemma tracks_fail {A : Type} (e : SettleOutcome) : tracks (fail (A := A) e).
Proof. intros p. by apply tracks_to_ret. Qed.
Lemma tracks_of_result {A : Type} (r : result SettleOutcome A) : tracks (of_result r).
Proof. intros p. by apply tracks_to_ret. Qed.
Lemma tracks_order : tracks the_order.
Proof. intros p. by apply tracks_to_ret. Qed.
Lemma tracks_set_order (o : PaymentOrder) : tracks (set_order o).
Proof. intros p. by apply tracks_to_ret. Qed.

Lemma tracks_catch {A : Type} (f : Error -> SettleOutcome) (m : M A) : keeps m -> tracks (catch f m).
Proof.
  intros Hm p. eapply (tracks_to_bind (fun _ => pass_wallet p)); [by apply tracks_to_keeps, keeps_attempt|].
  intros r. by apply tracks_to_ret.
Qed.

Lemma tracks_pay (amt : Z) : in_u64 amt -> tracks (pay_native amt).
Proof.
  intros Ha p σ t. unfold pay_native, mbind, M_bind, send, modify, tick.
  destruct (native_pay t (pass_wallet p) _ _ _ _ _) as [r w'] eqn:E. cbn [mret M_ret pass_wallet snd].
  split; [done|]. exists [(t, CallNative (to (pass_order p)) amt (as_bytes (checkout_id (pass_order p))) (Some amt))].
  unfold natives, sending. cbn [w_sent map snd]. rewrite List.filter_app. cbn. repeat split; try lia; try apply Ha.
  - constructor; [done|constructor].
  - unfold replay_call. cbn. by rewrite E.
Qed.

End Tracks.

Ltac track_step :=
  lazymatch goal with
  | |- tracks (mret _) => apply tracks_ret
  | |- tracks (_ ≫= _) => apply tracks_bind; [|intros ?]
  | |- tracks (fail _) => apply tracks_fail
  | |- tracks (of_result _) => apply tracks_of_result
  | |- tracks the_order => apply tracks_order
  | |- tracks (set_order _) => apply tracks_set_order
  | |- tracks (catch _ _) => apply tracks_catch; repeat keep_step
  | |- tracks (pay_native _) => apply tracks_pay; apply wrap_u64_range
  | |- tracks (match _ with _ => _ end) => case_match
  | |- tracks (let _ := _ in _) => cbv zeta
  | |- tracks ((fun _ => _) _) => cbv beta
  | |- tracks ?m => let h := head_of_term m in unfold h
  end.

Section Pass.
Context `{Sdk, Env, Net, Codec, !NativeRail}.

Lemma tracks_settle (config : PaymentsConfig) (sgn : option OperatorKeys) (scorer : option ComplianceScorer) :
  tracks (settle config sgn scorer).
Proof. repeat track_step. Qed.

(** After a program that keeps the wallet, the rest. *)
Lemma tracks_after {A B : Type} (get : B -> Wallet) (w : Wallet) (m : M A) (f : A -> M B) :
  keeps m -> (forall a, tracks_to get w (f a)) -> tracks_to get w (m ≫= f).
Proof. intros Hm Hf. eapply (tracks_to_bind (fun _ => w)); [by apply tracks_to_keeps|done]. Qed.

Lemma tracks_outcome (config : PaymentsConfig) (o : PaymentOrder) (pr : Progress) (r : result SettleOutcome unit) :
  tracks_to pr_wallet (pr_wallet pr) (handle_outcome config o pr r).
Proof.
  unfold handle_outcome. cbv zeta.
  repeat lazymatch goal with
  | |- tracks_to _ _ (mret _) => by apply tracks_to_ret
  | |- tracks_to _ _ (_ ≫= _) => apply tracks_after; [repeat keep_step|intros ?]
  | |- tracks_to _ _ (match _ with _ => _ end) => case_match
  end.
Qed.

Lemma tracks_process (config : PaymentsConfig) (sgn : option OperatorKeys) (scorer : option ComplianceScorer)
    (pr : Progress) (o : PaymentOrder) :
  tracks_to pr_wallet (pr_wallet pr) (process_order config sgn scorer pr o).
Proof.
  unfold process_order. do 2 (apply tracks_after; [repeat keep_step|intros ?]). cbv zeta.
  apply tracks_after; [repeat keep_step|intros ?].
  eapply (tracks_to_bind (fun rp => pass_wallet rp.2)).
  - exact (tracks_settle config sgn scorer {| pass_wallet := pr_wallet pr; pass_order := _ |}).
  - intros rp. eapply tracks_to_bind; [exact (tracks_outcome config (pass_order rp.2) {| pr_wallet := pass_wallet rp.2 |} rp.1)|].
    intros pr'. apply tracks_after; [repeat keep_step|intros ?]. by apply tracks_to_ret.
Qed.

Lemma tracks_fold (config : PaymentsConfig) (sgn : option OperatorKeys) (scorer : option ComplianceScorer)
    (pr : Progress) (os : list PaymentOrder) :
  tracks_to pr_wallet (pr_wallet pr) (fold_M (process_order config sgn scorer) pr os).
Proof.
  revert pr. induction os as [|o os IH]; intros pr; cbn [fold_M]; [by apply tracks_to_ret|].
  eapply tracks_to_bind; [apply tracks_process|done].
Qed.

(** The part of a pass before the wallet is saved. *)
Definition pass_body (operator : option OperatorKeys) (scorer : option ComplianceScorer) (wallet : Wallet)
    : M (Progress * (PaymentsConfig * (Z * Z) * Z * list PaymentOrder)) :=
  config ← load_config;
  now ← now_rfc3339;
  swept ← requeue_stuck_executing config;
  n_deferred ← deferred_pass config;
  fresh ← orders_with_status NotStarted;
  failed ← orders_with_status Failed;
  let ready_orders := fresh ++ List.filter (due now) failed in
  pr ← fold_M (process_order config operator scorer)
         {| pr_wallet := wallet; pr_executed := 0; pr_retried := 0; pr_failures := [] |} ready_orders;
  mret (pr, (config, swept, n_deferred, ready_orders)).

Lemma run_once_body (path : string) (operator : option OperatorKeys) (scorer : option ComplianceScorer) (σ : State) (t : nat) :
  run_once path operator scorer σ t =
  (wallet ← wallet_open path;
   x ← pass_body operator scorer wallet;
   let '(pr, (config, swept, n_deferred, ready_orders)) := x in
   let n_ready := Z.of_nat (length ready_orders) in
   _ ← wallet_save (pr_wallet pr);
   mret {| ready := n_ready; executed := pr_executed pr; retried := pr_retried pr;
           recovered := swept.1; deferred_batches := n_deferred;
           note := pass_note n_ready pr n_deferred swept.2 |}) σ t.
Proof.
  unfold run_once, pass_body, mbind, M_bind. repeat (case_match; simplify_eq; try done).
Qed.

Lemma tracks_body (operator : option OperatorKeys) (scorer : option ComplianceScorer) (wallet : Wallet) :
  tracks_to (fun x => pr_wallet x.1) wallet (pass_body operator scorer wallet).
Proof.
  unfold pass_body. do 6 (apply tracks_after; [repeat keep_step|intros ?]). cbv zeta.
  eapply tracks_to_bind; [exact (tracks_fold _ _ _ {| pr_wallet := wallet |} _)|]. intros pr. by apply tracks_to_ret.
Qed.

(** Under every fault schedule: the native calls of a pass pay amounts in
    range, at increasing ticks; the wallet file ends as the wallet opened at the
    start with exactly these calls replayed on it, in the order they were
    sent, if the pass returns, and is untouched if it fails. *)
Theorem run_once_wallet (path : string) (operator : option OperatorKeys) (scorer : option ComplianceScorer)
    (σ : State) (t : nat) :
  let '(r, (σ', t')) := run_once path operator scorer σ t in
  exists l, natives σ' = natives σ ++ map snd l /\ ticks_in t t' l /\ Forall native_ok (map snd l) /\
            w_wallet σ' = if is_ok r then replay (w_wallet σ) l else w_wallet σ.
Proof.
  rewrite run_once_body.
  assert (exists r, wallet_open path σ t = (r, (σ, S t)) /\ forall w, r = Ok w -> w = w_wallet σ) as (r & Eo & Hr).
  { unfold wallet_open, mbind, M_bind, tick. destruct (env_io t); eexists; (split; [reflexivity|]); intros w [= <-]; done. }
  unfold mbind at 1, M_bind at 1. rewrite Eo. destruct r as [wallet|e].
  2: { exists []. cbn. rewrite app_nil_r. repeat split; [lia|constructor]. }
  rewrite (Hr wallet eq_refl). clear Hr Eo.
  pose proof (tracks_body operator scorer (w_wallet σ) σ (S t)) as Hb.
  unfold mbind at 1, M_bind at 1. destruct (pass_body operator scorer (w_wallet σ) σ (S t)) as [[[pr [[[config swept] n] os]]|e] [σ1 t1]].
  - destruct Hb as [E (l & N & T & O & W)]. unfold wallet_save, mbind, M_bind, tick. cbn [fst] in W.
    assert (ticks_in t (S t1) l) as HT by (replace l with ([] ++ l ++ []) by (by rewrite app_nil_r);
      eapply (ticks_in_app t (S t)); [cbn; lia|]; eapply ticks_in_app; [exact T|cbn; lia]).
    destruct (env_io t1); cbn; exists l; rewrite ?N, ?E, ?W; done.
  - destruct Hb as [w' [E (l & N & T & O & W)]]. exists l. cbn. rewrite N, E. repeat split; try done.
    apply (ticks_in_app t (S t) _ [] l); [cbn; lia|done].
Qed.
End Pass.
