(* ===== verification/LocalRail.v ===== *)
(** * The executor on the offline rail

    [LocalNativeRail] of origin-wallet discharges the rail interface the executor is
    written against ([Class NativeRail] of [Executor.v]), and the theorems of
    the two sides compose. *)

From Stdlib Require Import Ascii String.
From S2P Require Import Prelude RustStr Bytes Sdk StateErr Mmr MmrTheory Envelope VcsStream WalletCore Wallet WalletProps.
From S2P Require Import PayError Amount Event Store Compliance RustText Http X402 Executor RunWallet RunOnce.

Section Local.
Context `{SK : Sdk, AD : AddrOps, XC : XChaCha, WO : WalletOps}.
Variable base : Env.
(** The clock readings of the payment made at a tick. *)
Variable clk : nat -> nat -> Z.
(** [NativeReceipt::to_bytes]: bincode. *)
Variable receipt_bytes : Wallet.NativeReceipt -> result string bytes.

(** The environment of the store with origin-wallet's wallet. *)
Definition local_env : Env := {|
  env_uuid := @env_uuid base; env_clock := @env_clock base; env_random := @env_random base; env_io := @env_io base;
  rfc3339 := @rfc3339 base; parse_rfc3339 := @parse_rfc3339 base; day := @day base;
  hash_order := @hash_order base; dir_order := @dir_order base; root_path := @root_path base;
  Store.Wallet := OriginWallet
|}.

Definition wexn_show (e : wexn) : string := match e with WFail e => wallet_error_display e | WPanic => "panic" end.

(** [LocalNativeRail::pay]; a panic of the history ends the process and is
    ruled out by [pay_sync_cases] for the wallets the theorems speak of. *)
Definition local_pay (t : nat) (w : OriginWallet) (payee : string) (amt : Z) (memo : bytes) (cap credit : option Z)
    : result string Wallet.NativeReceipt * OriginWallet :=
  let '(r, w') := pay_sync (clk t) (MkPayParams payee amt memo cap credit) w in (map_err wexn_show r, w').

Definition local_rail : @NativeRail local_env :=
  @Build_NativeRail local_env Wallet.NativeReceipt local_pay receipt_bytes.

Definition call_of (tc : nat * RailCall) : (nat -> Z) * NativePayParams :=
  match tc.2 with
  | CallNative payee amt memo cap => (clk tc.1, MkPayParams payee amt memo cap None)
  | CallHttp _ _ => (clk tc.1, MkPayParams "" 0 [] None None)
  end.

(** Readings within a payment and from one payment to the next do not go back. *)
Record clock_ok : Prop := {
  clk_instant : forall t i, instant (clk t i);
  clk_within : forall t i j, (i <= j)%nat -> clk t i <= clk t j;
  clk_next : forall t u i j, (t < u)%nat -> clk t i <= clk u j
}.

Lemma replay_pays (w : OriginWallet) (l : list (nat * RailCall)) :
  Forall native_ok (map snd l) ->
  @replay local_env local_rail w l = (pay_all (map call_of l) w).2.
Proof.
  revert w. induction l as [|[t c] l IH]; intros w Hn; [done|]. apply Forall_cons in Hn as [Hc Hn].
  destruct c as [payee amt memo cap|]; [|done].
  change (@replay local_env local_rail w ((t, CallNative payee amt memo cap) :: l))
    with (@replay local_env local_rail (local_pay t w payee amt memo cap None).2 l).
  cbn [map pay_all call_of snd fst]. unfold local_pay. destruct (pay_sync _ _ _) as [r w']. cbn [snd].
  rewrite IH by done. by destruct (pay_all (map call_of l) w').
Qed.

Lemma calls_clocks (t t' : nat) (T : Z) (l : list (nat * RailCall)) :
  clock_ok -> ticks_in t t' l -> Forall native_ok (map snd l) -> (forall u, (t <= u)%nat -> T <= clk u 0%nat) ->
  clocks_ok T (map call_of l).
Proof.
  intros Hc. revert t T. induction l as [|[x c] l IH]; intros t T Ht Hn HT; [done|].
  apply Forall_cons in Hn as [Hx Hn]. destruct Ht as [Htx Ht]. destruct c as [payee amt memo cap|]; [|done].
  cbn [map call_of snd fst clocks_ok]. split; [exact (proj1 Hx)|]. split; [apply Hc|]. split; [apply Hc|]. split.
  - split; [by apply HT|]. by apply (clk_within Hc); lia.
  - apply (IH (S x)); [done..|]. intros u Hu. apply (clk_next Hc). lia.
Qed.

Lemma pay_all_sublist (calls : list ((nat -> Z) * NativePayParams)) (w : OriginWallet) :
  map snd (pay_all calls w).1 `sublist_of` map (fun c => pp_amount c.2) calls.
Proof.
  revert w. induction calls as [|[c p] calls IH]; intros w; [done|]. cbn [pay_all].
  destruct (pay_sync c p w) as [r w1]. specialize (IH w1). destruct (pay_all calls w1) as [trace w2]. cbn [fst] in *.
  destruct r; cbn; by constructor.
Qed.

End Local.

Definition call_amount (c : RailCall) : Z := match c with CallNative _ amt _ _ => amt | CallHttp _ _ => 0 end.


(** ** A concrete pass *)

Module LocalWitness.
Definition base : Env := ToyEnv.env None.
Definition env : Env := @local_env ToyWallet.ops base.
Definition toy_clk : nat -> nat -> Z := fun _ _ => 1000000000.
Definition ser (r : Wallet.NativeReceipt) : result string bytes := Ok (as_bytes (nr_tx_id r)).

(** One order of 0.30 and a wallet with 100 minor units and a day cap of 50. *)
Definition order : PaymentOrder := order_new "order-1" "t0" "checkout-1" "acct1" "0.30" "USD".
Definition world : @State env :=
  @Build_State env (w_store (ToyPass.world None config_default [order])) (ToyWallet.wallet : @Store.Wallet env) [].
Definition out := @run_once Toy.sdk env (ToyX402.net None) (ToyX402.codec JNull)
  (@local_rail Toy.sdk ToyWallet.addr ToyWallet.ops base toy_clk ser) "w" None None world 0%nat.

Lemma toy_clock_ok : clock_ok toy_clk.
Proof. split; unfold toy_clk, instant; intros; lia. Qed.

#[local] Existing Instances Toy.sdk ToyWallet.addr ToyWallet.ops ToyStream.crypto.

End LocalWitness.
