(* ===== verification/Delegation.v ===== *)
(** * Capabilities and delegation chains (origin-identity)

    [capabilities.rs] and [delegation.rs].  Signatures, keys and JSON are
    parameters; a [CapabilitySet] is a 64-bit number. *)

From Stdlib Require Import Ascii String.
From S2P Require Import Prelude RustStr Bytes Sdk NetAuth.

(** ** Capability sets ([capabilities.rs]) *)

Abbreviation CapabilitySet := Z.

Definition CAP_NONE : CapabilitySet := 0.
Definition CAP_SIGN : CapabilitySet := Z.shiftl 1 0.
Definition CAP_DELEGATE : CapabilitySet := Z.shiftl 1 1.
Definition CAP_REVOKE : CapabilitySet := Z.shiftl 1 2.
Definition CAP_STAMP : CapabilitySet := Z.shiftl 1 3.
Definition CAP_CHANNEL_ENCRYPT : CapabilitySet := Z.shiftl 1 4.
Definition CAP_HANDSHAKE_INITIATE : CapabilitySet := Z.shiftl 1 5.
Definition CAP_HANDSHAKE_RESPOND : CapabilitySet := Z.shiftl 1 6.
Definition CAP_AGENT_COMMUNICATION : CapabilitySet := Z.shiftl 1 7.
Definition CAP_TASK_DELEGATION : CapabilitySet := Z.shiftl 1 8.
Definition CAP_ATTESTATION : CapabilitySet := Z.shiftl 1 9.
Definition CAP_KEY_ROTATION : CapabilitySet := Z.shiftl 1 10.
Definition CAP_ADMIN : CapabilitySet := Z.shiftl 1 11.
Definition CAP_IDENTITY_PROOF : CapabilitySet := Z.shiftl 1 12.
Definition CAP_ACT_ON_BEHALF : CapabilitySet := Z.shiftl 1 13.
Definition CAP_HUMAN_APPROVAL_REQUIRED : CapabilitySet := Z.shiftl 1 14.

Definition cap_union (a b : CapabilitySet) : CapabilitySet := Z.lor a b.
Definition cap_intersect (a b : CapabilitySet) : CapabilitySet := Z.land a b.

Definition cap_human : CapabilitySet :=
  cap_union (cap_union (cap_union CAP_IDENTITY_PROOF CAP_ATTESTATION) CAP_DELEGATE) CAP_SIGN.
Definition cap_agent : CapabilitySet := cap_union CAP_AGENT_COMMUNICATION CAP_TASK_DELEGATION.
Definition cap_service : CapabilitySet := cap_union CAP_AGENT_COMMUNICATION CAP_CHANNEL_ENCRYPT.
Definition cap_all : CapabilitySet := Z.shiftl 1 15 - 1.

Definition cap_has (s c : CapabilitySet) : bool := Z.land s c =? c.

(** [!x] on [u64]. *)
Definition not_u64 (x : Z) : Z := Z.lxor x u64_max.
Definition is_subset_of (s other : CapabilitySet) : bool := Z.land s (not_u64 other) =? 0.

Definition from_bits_truncate (bits : Z) : CapabilitySet := Z.land bits cap_all.

Definition cap_names : list (CapabilitySet * string) :=
  [(CAP_SIGN, "sign"); (CAP_DELEGATE, "delegate"); (CAP_REVOKE, "revoke"); (CAP_STAMP, "stamp");
   (CAP_CHANNEL_ENCRYPT, "channel_encrypt"); (CAP_HANDSHAKE_INITIATE, "handshake_initiate");
   (CAP_HANDSHAKE_RESPOND, "handshake_respond"); (CAP_AGENT_COMMUNICATION, "agent_communication");
   (CAP_TASK_DELEGATION, "task_delegation"); (CAP_ATTESTATION, "attestation"); (CAP_KEY_ROTATION, "key_rotation");
   (CAP_ADMIN, "admin"); (CAP_IDENTITY_PROOF, "identity_proof"); (CAP_ACT_ON_BEHALF, "act_on_behalf");
   (CAP_HUMAN_APPROVAL_REQUIRED, "human_approval")].

Fixpoint join_comma (l : list string) : string :=
  match l with [] => "" | [x] => x | x :: l' => x +:+ "," +:+ join_comma l' end.

Definition cap_display (s : CapabilitySet) : string :=
  match List.filter (fun cn => cap_has s cn.1) cap_names with
  | [] => "none"
  | ns => join_comma (map snd ns)
  end.

(** ** Attestations ([delegation.rs]) *)

Definition MAX_DELEGATION_DEPTH : nat := 3.

Record DelegationAttestation := MkAttestation {
  da_kind : string;
  da_version : Z;
  da_parent : string;
  da_child : string;
  da_label : string;
  da_capabilities : Z;
  da_issued_at : Z;
  da_expires_at : Z;
  da_audience : option string;
  da_resource_scope : option string;
  da_nonce : string
}.

Definition capability_set (a : DelegationAttestation) : CapabilitySet := from_bits_truncate (da_capabilities a).

Definition attestation_json (a : DelegationAttestation) : json :=
  JObj [("kind", JStr (da_kind a)); ("version", JNum (da_version a)); ("parent_fingerprint", JStr (da_parent a));
        ("child_fingerprint", JStr (da_child a)); ("label", JStr (da_label a)); ("capabilities", JNum (da_capabilities a));
        ("issued_at", JNum (da_issued_at a)); ("expires_at", JNum (da_expires_at a));
        ("audience", json_opt JStr (da_audience a)); ("resource_scope", json_opt JStr (da_resource_scope a));
        ("nonce", JStr (da_nonce a))].

Definition delegation_expired (a : DelegationAttestation) (now : Z) : bool := da_expires_at a <=? now.

(** A constraint holds when it is unset or met. *)
Definition met (constraint given : option string) : bool :=
  match constraint with
  | None => true
  | Some c => match given with Some g => String.eqb g c | None => false end
  end.
Definition is_scoped_to (a : DelegationAttestation) (verifier_fp resource : option string) : bool :=
  met (da_audience a) verifier_fp && met (da_resource_scope a) resource.

Record SignedDelegation := MkDelegation {
  sd_attestation : DelegationAttestation;
  sd_falcon_pk : string;
  sd_ed25519_pk : string;
  sd_signature : string
}.

Record DelegationRevocation := MkRevocation {
  dr_kind : string;
  dr_version : Z;
  dr_parent : string;
  dr_revoked_nonce : string;
  dr_issued_at : Z;
  dr_falcon_pk : string;
  dr_ed25519_pk : string;
  dr_signature : string
}.

(** [HybridSigningKeyBundle::sign_hybrid]. *)
Class DelegSign `{NetCryptoOps} := { sign_hybrid : KeyBundle -> bytes -> EdSig * FalconSig }.

Section Delegation.
Context `{Sdk, NetCryptoOps, !DelegSign}.

Definition to_vec (what : string) (j : json) : result string bytes :=
  match json_to_vec j with Some b => Ok b | None => Err what end.

Definition delegation_canonical (a : DelegationAttestation) : result string bytes :=
  to_vec "canonical serialize" (attestation_json a).

Definition concat_sig (s : EdSig * FalconSig) : string := hex_encode (ed_to_bytes s.1 ++ falcon_as_bytes s.2).

(** [issue_scoped]; the nonce draw is 16 random bytes. *)
Definition issue_scoped (bundle : KeyBundle) (parent child label : string) (caps : CapabilitySet) (issued_at ttl_secs : Z)
    (audience resource_scope : option string) (nonce_draw : result string bytes) : result string SignedDelegation :=
  if ttl_secs =? 0 then Err "ttl_secs must be > 0"
  else if u64_max <? issued_at + ttl_secs then Err "delegation expiry overflow"
  else
    nonce ← nonce_draw;
    let a := MkAttestation "origin-delegation-v1" 1 parent child label caps issued_at (issued_at + ttl_secs)
               audience resource_scope (hex_encode nonce) in
    canonical ← delegation_canonical a;
    Ok (MkDelegation a (hex_encode (bundle_falcon1024_pk bundle)) (hex_encode (bundle_ed25519_pk bundle))
          (concat_sig (sign_hybrid bundle canonical))).

Definition issue (bundle : KeyBundle) (parent child label : string) (caps : CapabilitySet) (issued_at ttl_secs : Z)
    (nonce_draw : result string bytes) : result string SignedDelegation :=
  issue_scoped bundle parent child label caps issued_at ttl_secs None None nonce_draw.

(** The body of both [verify_signature]s, over the canonical bytes. *)
Definition verify_hex (ed_hex falcon_hex sig_hex : string) (canonical : result string bytes) : result string bool :=
  ed_bytes ← map_err (fun e => "invalid parent_ed25519_pk hex: " +:+ e) (hex_decode ed_hex);
  falcon_bytes ← map_err (fun e => "invalid parent_falcon_pk hex: " +:+ e) (hex_decode falcon_hex);
  sig ← map_err (fun e => "invalid signature hex: " +:+ e) (hex_decode sig_hex);
  if (length sig <? 64)%nat then Err "signature too short" else
  ed ← map_err (fun e => "invalid ed25519 signature: " +:+ e) (ed_from_slice (take 64 sig));
  falcon ← map_err (fun e => "invalid falcon signature: " +:+ e) (falcon_from_bytes (drop 64 sig));
  if negb (length ed_bytes =? 32)%nat then Err "invalid ed25519 pk length" else
  _ ← map_err (fun e => "invalid ed25519 pk: " +:+ e) (ed_pk_check ed_bytes);
  _ ← map_err (fun e => "invalid falcon pk: " +:+ e) (falcon_pk_check falcon_bytes);
  m ← canonical;
  Ok (hybrid_pair_verify ed_bytes falcon_bytes m ed falcon).

Definition delegation_verify_signature (d : SignedDelegation) : result string bool :=
  verify_hex (sd_ed25519_pk d) (sd_falcon_pk d) (sd_signature d) (delegation_canonical (sd_attestation d)).

(** ** Chains *)

Definition leaf_fingerprint (links : list SignedDelegation) : option string :=
  (fun l => da_child (sd_attestation l)) <$> last links.

(** The loop of [verify] from link [i] on. *)
Fixpoint verify_links (now : Z) (i : nat) (effective : CapabilitySet) (expected_parent : option string)
    (links : list SignedDelegation) : result string CapabilitySet :=
  match links with
  | [] => Ok effective
  | link :: links' =>
      let att := sd_attestation link in
      if match expected_parent with Some p => negb (String.eqb (da_parent att) p) | None => false end
      then Err ("chain break at link " +:+ show_Z (Z.of_nat i) +:+ ": parent does not match previous child")
      else if delegation_expired att now then Err ("delegation link " +:+ show_Z (Z.of_nat i) +:+ " expired")
      else
        ok ← delegation_verify_signature link;
        if negb ok then Err ("delegation link " +:+ show_Z (Z.of_nat i) +:+ " signature invalid")
        else verify_links now (S i) (cap_intersect effective (capability_set att)) (Some (da_child att)) links'
  end.

Definition chain_verify (trusted_roots : gmap string bytes) (now : Z) (links : list SignedDelegation)
    : result string CapabilitySet :=
  match links with
  | [] => Err "delegation chain is empty"
  | root :: _ =>
      if (MAX_DELEGATION_DEPTH <? length links)%nat
      then Err ("delegation chain depth " +:+ show_Z (Z.of_nat (length links)) +:+ " exceeds maximum "
                +:+ show_Z (Z.of_nat MAX_DELEGATION_DEPTH))
      else
        let root_fp := da_parent (sd_attestation root) in
        match trusted_roots !! root_fp with
        | None => Err ("root parent " +:+ root_fp +:+ " is not a trusted root")
        | Some authoritative =>
            embedded ← map_err (fun e => "invalid root pk hex: " +:+ e) (hex_decode (sd_falcon_pk root));
            if negb (bool_decide (embedded = authoritative)) then Err "root link public key does not match trusted root"
            else verify_links now 0 cap_all None links
        end
  end.

Fixpoint scope_check (verifier_fp resource : option string) (seen : gset string) (links : list SignedDelegation)
    : result string unit :=
  match links with
  | [] => Ok tt
  | link :: links' =>
      if negb (is_scoped_to (sd_attestation link) verifier_fp resource)
      then Err "delegation link audience or resource scope mismatch"
      else if bool_decide (da_nonce (sd_attestation link) ∈ seen) then Err "delegation link nonce replay detected"
      else scope_check verifier_fp resource seen links'
  end.

Definition verify_scoped (trusted_roots : gmap string bytes) (now : Z) (verifier_fp resource : option string)
    (seen : gset string) (links : list SignedDelegation) : result string CapabilitySet :=
  _ ← scope_check verifier_fp resource seen links;
  chain_verify trusted_roots now links.

(** ** Revocations *)

Definition revocation_json (r : DelegationRevocation) : json :=
  JObj [("kind", JStr (dr_kind r)); ("version", JNum (dr_version r)); ("parent_fingerprint", JStr (dr_parent r));
        ("revoked_nonce", JStr (dr_revoked_nonce r)); ("issued_at", JNum (dr_issued_at r));
        ("parent_falcon_pk", JStr (dr_falcon_pk r)); ("parent_ed25519_pk", JStr (dr_ed25519_pk r));
        ("signature", JStr (dr_signature r))].

Definition with_sig (s : string) (r : DelegationRevocation) : DelegationRevocation :=
  MkRevocation (dr_kind r) (dr_version r) (dr_parent r) (dr_revoked_nonce r) (dr_issued_at r) (dr_falcon_pk r)
    (dr_ed25519_pk r) s.

Definition delegation_revocation_canonical (r : DelegationRevocation) : result string bytes :=
  to_vec "canonical serialize" (revocation_json (with_sig "" r)).

Definition issue_revocation (bundle : KeyBundle) (parent : string) (revoked : SignedDelegation) (issued_at : Z)
    : result string DelegationRevocation :=
  let r := MkRevocation "origin-revocation-v1" 1 parent (da_nonce (sd_attestation revoked)) issued_at
             (hex_encode (bundle_falcon1024_pk bundle)) (hex_encode (bundle_ed25519_pk bundle)) "" in
  canonical ← delegation_revocation_canonical r;
  Ok (with_sig (concat_sig (sign_hybrid bundle canonical)) r).

Definition delegation_revocation_verify (r : DelegationRevocation) : result string bool :=
  verify_hex (dr_ed25519_pk r) (dr_falcon_pk r) (dr_signature r) (delegation_revocation_canonical r).

End Delegation.

(** ** Delegation chains: properties *)

(** ** Capability sets are finite sets of bits *)

Lemma is_subset_of_spec (a b : CapabilitySet) :
  0 <= a <= u64_max ->
  is_subset_of a b = true <-> forall i, Z.testbit a i = true -> Z.testbit b i = true.
Proof.
  intros Ha. unfold is_subset_of, not_u64. rewrite Z.eqb_eq. split.
  - intros E i Hi. assert (0 <= i < 64) as Hr.
    { destruct (Z.neg_nonneg_cases i) as [Hn|Hn]; [by rewrite Z.testbit_neg_r in Hi|]. split; [done|].
      destruct (Z.lt_ge_cases i 64) as [|Hge]; [done|]. rewrite Z.bits_above_log2 in Hi; [done|lia|].
      destruct (Z.eq_dec a 0) as [->|]; [cbn; lia|]. apply Z.log2_lt_pow2; [lia|].
      pose proof (Z.pow_le_mono_r 2 64 i ltac:(lia) Hge). unfold u64_max in Ha. lia. }
    assert (Z.testbit (Z.land a (Z.lxor b u64_max)) i = false) as Hb by (rewrite E; apply Z.bits_0).
    rewrite Z.land_spec, Hi, Z.lxor_spec in Hb.
    replace (Z.testbit u64_max i) with true in Hb by (change u64_max with (Z.ones 64); symmetry; apply Z.ones_spec_low; lia).
    by destruct (Z.testbit b i).
  - intros Hab. apply Z.bits_inj_0. intros i. rewrite Z.land_spec, Z.lxor_spec.
    destruct (Z.testbit a i) eqn:Ei; [|done]. rewrite (Hab i Ei). cbn.
    destruct (Z.lt_ge_cases i 64); destruct (Z.neg_nonneg_cases i).
    + by rewrite Z.testbit_neg_r in Ei.
    + replace (Z.testbit u64_max i) with true by (change u64_max with (Z.ones 64); symmetry; apply Z.ones_spec_low; lia). done.
    + by rewrite Z.testbit_neg_r in Ei.
    + exfalso. rewrite Z.bits_above_log2 in Ei; [done|lia|].
      destruct (Z.eq_dec a 0) as [->|]; [cbn; lia|]. apply Z.log2_lt_pow2; [lia|].
      pose proof (Z.pow_le_mono_r 2 64 i ltac:(lia) ltac:(lia)). unfold u64_max in Ha. lia.
Qed.

Lemma cap_all_range (c : CapabilitySet) : 0 <= Z.land c cap_all <= u64_max.
Proof.
  change cap_all with (Z.ones 15). rewrite Z.land_ones by lia.
  pose proof (Z.mod_pos_bound c (2 ^ 15) eq_refl). unfold u64_max. lia.
Qed.

(** The effective set of a list of grants. *)
Definition granted (atts : list DelegationAttestation) : CapabilitySet :=
  foldl (fun e a => cap_intersect e (capability_set a)) cap_all atts.

Lemma granted_snoc (atts : list DelegationAttestation) (a : DelegationAttestation) :
  granted (atts ++ [a]) = cap_intersect (granted atts) (capability_set a).
Proof. unfold granted. by rewrite foldl_app. Qed.

Lemma granted_bits (atts : list DelegationAttestation) (i : Z) :
  Z.testbit (granted atts) i = Z.testbit cap_all i && forallb (fun a => Z.testbit (capability_set a) i) atts.
Proof.
  unfold granted. generalize cap_all as e. induction atts as [|a atts IH]; intros e; cbn; [by rewrite andb_true_r|].
  rewrite IH. unfold cap_intersect. by rewrite Z.land_spec, andb_assoc.
Qed.

Lemma granted_range (atts : list DelegationAttestation) : 0 <= granted atts <= u64_max.
Proof.
  induction atts as [|a atts IH] using rev_ind; [by vm_compute|]. rewrite granted_snoc.
  unfold capability_set, from_bits_truncate, cap_intersect. rewrite Z.land_assoc. apply cap_all_range.
Qed.

(** ** Chains *)

(** Each link's parent is the child of the link before it. *)
Fixpoint connected (expected : option string) (links : list SignedDelegation) : Prop :=
  match links with
  | [] => True
  | l :: links' =>
      (forall p, expected = Some p -> da_parent (sd_attestation l) = p) /\
      connected (Some (da_child (sd_attestation l))) links'
  end.

Lemma connected_snoc (e : option string) (links : list SignedDelegation) (l : SignedDelegation) :
  connected e (links ++ [l]) <->
  connected e links /\ (forall p, match leaf_fingerprint links with Some f => Some f | None => e end = Some p ->
                                  da_parent (sd_attestation l) = p).
Proof.
  revert e. induction links as [|k links IH]; intros e; cbn; [tauto|]. rewrite IH. unfold leaf_fingerprint. cbn.
  destruct links as [|k0 links].
  { cbn. tauto. }
  change (last (k :: k0 :: links)) with (last (k0 :: links)). destruct (last (k0 :: links)) eqn:El; [cbn; tauto|by apply last_None in El].
Qed.

Section Chains.
Context `{SK : Sdk, NC : NetCryptoOps, DS : !DelegSign}.

Definition link_ok (now : Z) (l : SignedDelegation) : Prop :=
  now < da_expires_at (sd_attestation l) /\ delegation_verify_signature l = Ok true.

(** The root link names a trusted root and carries its Falcon key. *)
Definition root_ok (roots : gmap string bytes) (links : list SignedDelegation) : Prop :=
  exists root k, head links = Some root /\ hex_decode (sd_falcon_pk root) = Ok k /\
                 roots !! da_parent (sd_attestation root) = Some k.

Lemma verify_links_spec (now : Z) (links : list SignedDelegation) (i : nat) (e : CapabilitySet) (p : option string)
    (caps : CapabilitySet) :
  verify_links now i e p links = Ok caps <->
  Forall (link_ok now) links /\ connected p links /\
  caps = foldl (fun e a => cap_intersect e (capability_set a)) e (map sd_attestation links).
Proof.
  revert i e p. induction links as [|l links IH]; intros i e p; cbn [verify_links].
  - split; [intros [= <-]; done|intros (_ & _ & ->); done].
  - rewrite Forall_cons. cbn [connected map foldl]. unfold link_ok at 1.
    assert ((if match p with Some q => negb (String.eqb (da_parent (sd_attestation l)) q) | None => false end then False else True)
            <-> (forall q, p = Some q -> da_parent (sd_attestation l) = q)) as Hp.
    { destruct p as [q|]; [|split; [by intros _ q|done]]. destruct (String.eqb_spec (da_parent (sd_attestation l)) q); cbn.
      - split; [by intros _ ? [= <-]|done].
      - split; [done|]. intros E. by destruct (n (E q eq_refl)). }
    destruct (match p with Some q => _ | None => _ end); [split; [done|]; intros ((_ & _) & (Hc & _) & _); tauto|].
    unfold delegation_expired. destruct (Z.leb_spec (da_expires_at (sd_attestation l)) now) as [Hx|Hx];
      [split; [done|]; intros (((? & _) & _) & _); lia|].
    destruct (delegation_verify_signature l) as [[]|] eqn:Es; cbn [mbind result_mbind negb].
    + rewrite IH. cbn. tauto.
    + split; [done|]. by intros (((_ & ?) & _) & _).
    + split; [done|]. by intros (((_ & ?) & _) & _).
Qed.

Lemma chain_verify_iff (roots : gmap string bytes) (now : Z) (links : list SignedDelegation) (caps : CapabilitySet) :
  chain_verify roots now links = Ok caps <->
  (length links <= MAX_DELEGATION_DEPTH)%nat /\ root_ok roots links /\ Forall (link_ok now) links /\
  connected None links /\ caps = granted (map sd_attestation links).
Proof.
  unfold chain_verify, root_ok. destruct links as [|root links]; [split; [done|]; by intros (_ & (? & ? & ? & _) & _)|].
  set (all := root :: links). destruct (Nat.ltb_spec MAX_DELEGATION_DEPTH (length all)); [split; [done|]; intros (? & _); lia|].
  cbn [head all]. destruct (roots !! _) as [auth|] eqn:Er.
  2: { split; [done|]. intros (_ & (r & k & [= <-] & _ & Ek) & _). congruence. }
  destruct (hex_decode (sd_falcon_pk root)) as [emb|] eqn:Eh; cbn [map_err mbind result_mbind].
  2: { split; [done|]. intros (_ & (r & k & [= <-] & ? & _) & _). congruence. }
  case_bool_decide as Ek; cbn [negb].
  - subst emb. rewrite verify_links_spec. fold (granted (map sd_attestation all)). split.
    + intros Hv. split; [done|]. split; [by exists root, auth|exact Hv].
    + by intros (_ & _ & ? & ? & ?).
  - split; [done|]. intros (_ & (r & k & [= <-] & ? & ?) & _). congruence.
Qed.

Context {HX : HexOk} {JO : JsonOk}.

(** The signatures of the SDK verify under the keys of their bundle. *)
Class DelegOk : Prop := {
  deleg_net :: NetCryptoOk;
  deleg_verifies : forall b m, hybrid_pair_verify (bundle_ed25519_pk b) (bundle_falcon1024_pk b) m
                                 (sign_hybrid b m).1 (sign_hybrid b m).2 = true;
  deleg_ed_len : forall b, length (bundle_ed25519_pk b) = 32%nat;
  deleg_keys : forall b, ed_pk_check (bundle_ed25519_pk b) = Ok tt /\ falcon_pk_check (bundle_falcon1024_pk b) = Ok tt
}.
Context {DO : DelegOk}.

Lemma verify_hex_signed (b : KeyBundle) (m : bytes) :
  verify_hex (hex_encode (bundle_ed25519_pk b)) (hex_encode (bundle_falcon1024_pk b)) (concat_sig (sign_hybrid b m)) (Ok m) = Ok true.
Proof.
  unfold verify_hex, concat_sig. rewrite !hex_roundtrip. cbn [map_err mbind result_mbind].
  pose proof (ed_len (sign_hybrid b m).1) as Hl. rewrite length_app, Hl.
  destruct (Nat.ltb_spec (64 + length (falcon_as_bytes (sign_hybrid b m).2)) 64); [lia|].
  rewrite take_app_length', drop_app_length' by done. rewrite ed_parse, falcon_parse. cbn [map_err mbind result_mbind].
  rewrite deleg_ed_len. cbn [Nat.eqb negb]. destruct (deleg_keys b) as [-> ->]. cbn. by rewrite deleg_verifies.
Qed.

Lemma to_vec_ok (what : string) (j : json) : exists b, to_vec what j = Ok b.
Proof. unfold to_vec. destruct (json_total j) as [b ->]. by exists b. Qed.

(** An issued link verifies, whoever the bundle belongs to. *)
Lemma issued_link (b : KeyBundle) (parent child label : string) (caps : CapabilitySet) (at_ ttl : Z)
    (aud scope : option string) (nonce : bytes) :
  0 < ttl -> at_ + ttl <= u64_max ->
  exists l, issue_scoped b parent child label caps at_ ttl aud scope (Ok nonce) = Ok l /\
    sd_attestation l = MkAttestation "origin-delegation-v1" 1 parent child label caps at_ (at_ + ttl) aud scope (hex_encode nonce) /\
    sd_falcon_pk l = hex_encode (bundle_falcon1024_pk b) /\ forall now, now < at_ + ttl -> link_ok now l.
Proof.
  intros Ht Hx. unfold issue_scoped. destruct (Z.eqb_spec ttl 0); [lia|]. destruct (Z.ltb_spec u64_max (at_ + ttl)); [lia|].
  cbn [mbind result_mbind]. set (a := MkAttestation _ _ _ _ _ _ _ _ _ _ _). unfold delegation_canonical at 1.
  destruct (to_vec_ok "canonical serialize" (attestation_json a)) as [m Em]. rewrite Em. cbn [mbind result_mbind].
  eexists. split; [reflexivity|]. split; [done|]. split; [done|]. intros now Hn. split; [done|].
  unfold delegation_verify_signature, delegation_canonical. cbn [sd_ed25519_pk sd_falcon_pk sd_signature sd_attestation].
  rewrite Em. apply verify_hex_signed.
Qed.

End Chains.

(** ** Statements *)

(** C23: A chain is accepted exactly when it has one to three links, its root link
    names a trusted root and carries that root's Falcon key, every link is
    unexpired and signed under the keys it carries, and each link's parent is
    the child of the one before; the capabilities granted are then those in
    every link, so they are within each grant and shrink as links are added. *)
Theorem delegation_chain_spec `{SK : Sdk, NC : NetCryptoOps, DS : !DelegSign} (roots : gmap string bytes) (now : Z)
    (links : list SignedDelegation) (caps : CapabilitySet) :
  (chain_verify roots now links = Ok caps <->
   (length links <= MAX_DELEGATION_DEPTH)%nat /\ root_ok roots links /\ Forall (link_ok now) links /\
   connected None links /\ caps = granted (map sd_attestation links)) /\
  (chain_verify roots now links = Ok caps ->
   Forall (fun l => is_subset_of caps (capability_set (sd_attestation l)) = true) links /\
   forall l caps', chain_verify roots now (links ++ [l]) = Ok caps' -> is_subset_of caps' caps = true).
Proof.
  split; [apply chain_verify_iff|]. intros E. apply chain_verify_iff in E as (_ & _ & _ & _ & ->). split.
  - apply Forall_forall. intros l Hl. apply is_subset_of_spec; [apply granted_range|]. intros i Hi.
    rewrite granted_bits in Hi. apply andb_prop in Hi as [_ Hi]. rewrite forallb_forall in Hi.
    apply Hi, list_elem_of_In. by apply list_elem_of_fmap_2.
  - intros l caps' E. apply chain_verify_iff in E as (_ & _ & _ & _ & ->).
    apply is_subset_of_spec; [apply granted_range|]. intros i Hi. rewrite map_app in Hi. cbn in Hi.
    rewrite granted_snoc in Hi. unfold cap_intersect in Hi. rewrite Z.land_spec in Hi. by apply andb_prop in Hi as [? _].
Qed.

(** Scoped verification accepts exactly the chains that verify, whose every
    link is meant for this verifier and resource or for any, and whose
    nonces have not been seen. *)
Theorem delegation_scope_spec `{SK : Sdk, NC : NetCryptoOps, DS : !DelegSign} (roots : gmap string bytes) (now : Z)
    (fp resource : option string) (seen : gset string) (links : list SignedDelegation) (caps : CapabilitySet) :
  verify_scoped roots now fp resource seen links = Ok caps <->
  chain_verify roots now links = Ok caps /\
  Forall (fun l => let a := sd_attestation l in
    (forall x, da_audience a = Some x -> fp = Some x) /\ (forall x, da_resource_scope a = Some x -> resource = Some x) /\
    (da_nonce a ∉ seen)) links.
Proof.
  assert (forall c g, met c g = true <-> forall x, c = Some x -> g = Some x) as Hm.
  { intros [c|] [g|]; cbn; (split; [|]); try done.
    - intros E x [= <-]. by apply String.eqb_eq in E as ->.
    - intros E. apply String.eqb_eq. by injection (E c eq_refl).
    - intros E. by specialize (E c eq_refl). }
  unfold verify_scoped. rewrite result_bind_Ok.
  assert (forall u, scope_check fp resource seen links = Ok u <-> Forall (fun l => let a := sd_attestation l in
    (forall x, da_audience a = Some x -> fp = Some x) /\ (forall x, da_resource_scope a = Some x -> resource = Some x) /\
    (da_nonce a ∉ seen)) links) as Hs.
  { intros []. induction links as [|l links IH]; cbn; [split; [constructor|done]|]. rewrite Forall_cons, <- IH.
    unfold is_scoped_to. rewrite <- !Hm. destruct (met (da_audience _) _), (met (da_resource_scope _) _); cbn;
      try (split; [done|]; intros ((? & ? & _) & _); done).
    case_bool_decide; split; try done; try tauto. }
  split; [intros (u & E & ?); split; [done|by apply (Hs u)]|intros [? E]; exists tt; split; [by apply Hs|done]].
Qed.

(** The keys in a link are not bound to the fingerprint it claims: from
    any accepted chain of fewer than three links, the holder of any key bundle
    forges a link from the leaf to an identity of its choice, and the
    extended chain is accepted with all the capabilities of the chain. *)
Theorem forged_link_accepted `{SK : Sdk, NC : NetCryptoOps, DS : !DelegSign, HX : !HexOk, JO : !JsonOk, DO : !DelegOk}
    (roots : gmap string bytes) (now : Z) (links : list SignedDelegation) (caps : CapabilitySet) (leaf : string)
    (attacker : KeyBundle) (child : string) (nonce : bytes) :
  chain_verify roots now links = Ok caps -> (length links < MAX_DELEGATION_DEPTH)%nat ->
  leaf_fingerprint links = Some leaf -> 0 <= now < u64_max ->
  exists forged, issue attacker leaf child "forged" cap_all now 1 (Ok nonce) = Ok forged /\
    chain_verify roots now (links ++ [forged]) = Ok caps.
Proof.
  intros E Hl Hleaf Hn. apply chain_verify_iff in E as (_ & Hr & Hf & Hc & ->).
  destruct (issued_link attacker leaf child "forged" cap_all now 1 None None nonce) as (f & Ef & Ea & _ & Hok); [lia..|].
  exists f. split; [done|]. apply chain_verify_iff. rewrite length_app. cbn. split; [lia|].
  destruct Hr as (root & k & Eh & Hr). destruct links as [|root' links]; [done|]. injection Eh as ->.
  split; [by exists root, k|]. rewrite Forall_app. split; [split; [done|]; constructor; [apply Hok; lia|constructor]|].
  split.
  - apply connected_snoc. split; [done|]. intros p Hp. rewrite Hleaf in Hp. injection Hp as <-. by rewrite Ea.
  - change ((root :: links) ++ [f]) with (root :: links ++ [f]). change (root :: links ++ [f]) with ((root :: links) ++ [f]).
    rewrite map_app. cbn [map]. rewrite granted_snoc, Ea. apply Z.bits_inj'. intros i _.
    unfold cap_intersect, capability_set, from_bits_truncate. cbn [da_capabilities]. rewrite !Z.land_spec, granted_bits.
    by destruct (Z.testbit cap_all i), (forallb _ _).
Qed.

(** A revocation issued by a bundle verifies and names the nonce of the
    delegation; so does one issued by anybody in the parent's name. *)
Theorem revocation_issue_verifies `{SK : Sdk, NC : NetCryptoOps, DS : !DelegSign, HX : !HexOk, JO : !JsonOk, DO : !DelegOk}
    (bundle : KeyBundle) (parent : string) (revoked : SignedDelegation) (at_ : Z) :
  exists r, issue_revocation bundle parent revoked at_ = Ok r /\ delegation_revocation_verify r = Ok true /\
    dr_revoked_nonce r = da_nonce (sd_attestation revoked) /\ dr_parent r = parent.
Proof.
  unfold issue_revocation. set (r := MkRevocation _ _ _ _ _ _ _ _). unfold delegation_revocation_canonical at 1.
  destruct (to_vec_ok "canonical serialize" (revocation_json (with_sig "" r))) as [m Em]. rewrite Em. cbn [mbind result_mbind].
  eexists. split; [reflexivity|]. split; [|done]. unfold delegation_revocation_verify, delegation_revocation_canonical.
  cbn [dr_ed25519_pk dr_falcon_pk dr_signature with_sig]. change (with_sig "" (with_sig ?s r)) with (with_sig "" r).
  rewrite Em. apply verify_hex_signed.
Qed.

(** ** A concrete instance *)

Module ToyDeleg.
Definition ops : NetCryptoOps := {|
  EdSig := ascii; FalconSig := ascii;
  ed_to_bytes a := replicate 64 a;
  ed_from_slice b := match b with a :: _ => Ok a | [] => Err "empty" end;
  falcon_as_bytes a := [a];
  falcon_from_bytes b := match b with a :: _ => Ok a | [] => Err "empty" end;
  FALCON_SIG_MAX := 1462;
  ed_pk_check _ := Ok tt; falcon_pk_check _ := Ok tt;
  hybrid_pair_verify _ _ m ed fa := bool_decide (ed = ToyNet.csum m) && bool_decide (fa = ToyNet.csum m);
  KeyBundle := ascii;
  bundle_from_seed seed _ := Ok (byte_of 1);
  bundle_try_sign _ m := Ok (ToyNet.csum m, ToyNet.csum m);
  bundle_ed25519_pk b := replicate 32 b; bundle_falcon1024_pk b := replicate 32 b;
  derive_key seed _ _ := Some seed
|}.
Definition sign : @DelegSign ops := @Build_DelegSign ops (fun _ m => (ToyNet.csum m, ToyNet.csum m)).
#[global] Instance ok : @DelegOk ops sign.
Proof.
  constructor; [constructor; done| |done|done]. intros b m. cbn. by rewrite bool_decide_eq_true_2.
Qed.
#[local] Existing Instances Toy.sdk ops sign.
Definition owner : @KeyBundle ops := byte_of 65.
Definition mallory : @KeyBundle ops := byte_of 77.
Definition chain : list SignedDelegation :=
  match issue owner "owner" "agent" "agent" (cap_union CAP_SIGN CAP_DELEGATE) 0 100 (Ok []) with Ok l => [l] | Err _ => [] end.
Definition roots : gmap string bytes := {["owner" := replicate 32 (byte_of 65)]}.
End ToyDeleg.

#[local] Existing Instances Toy.sdk ToyDeleg.ops ToyDeleg.sign.

Lemma forged_link_accepted_witness :
  exists forged, issue ToyDeleg.mallory "agent" "mallory" "forged" cap_all 10 1 (Ok []) = Ok forged /\
    chain_verify ToyDeleg.roots 10 (ToyDeleg.chain ++ [forged]) = Ok 3.
Proof.
  apply (forged_link_accepted ToyDeleg.roots 10 ToyDeleg.chain 3 "agent" ToyDeleg.mallory "mallory" []).
  - by vm_compute.
  - vm_compute. lia.
  - by vm_compute.
  - unfold u64_max. lia.
Defined.

Lemma revocation_issue_verifies_witness :
  exists r, issue_revocation ToyDeleg.owner "owner" (MkDelegation (MkAttestation "k" 1 "owner" "a" "l" 1 0 9 None None "n") "" "" "") 5 = Ok r /\
    delegation_revocation_verify r = Ok true /\ dr_revoked_nonce r = "n" /\ dr_parent r = "owner".
Proof.
  exact (revocation_issue_verifies ToyDeleg.owner "owner"
    (MkDelegation (MkAttestation "k" 1 "owner" "a" "l" 1 0 9 None None "n") "" "" "") 5).
Defined.
