(* ===== verification/C2pa.v ===== *)
(** * The C2PA reader of origin-provenance ([c2pa.rs])

    Container detection (JPEG, PNG, sidecar), the JUMBF walk and the minimal
    CBOR scan that give the annotation of a file.  Indices are natural
    numbers; the lengths read from the file are 64-bit where the code adds them
    in [usize].  A panic is [None] of the outer option.  The loops over a file
    take fuel, its length, which is proved never to be used up; the CBOR
    loops run [n] times for a 64-bit [n] and are binary iterations that
    stop at the first failure. *)

From Stdlib Require Import Ascii String.
From S2P Require Import Prelude RustStr Bytes RustText.

#[local] Open Scope nat_scope.

Inductive C2paStore :=
| Detected (b : bytes) (container : string)
| Unsupported (container : string)
| Absent.

Record C2paAnnotation := MkAnnotation {
  an_container : option string;
  an_present : bool;
  an_claim_generator : option string;
  an_action_count : option Z;
  an_signature_parses : option bool;
  an_note : option string
}.

Definition join_with (sep : string) (l : list string) : string :=
  match l with [] => "" | s :: l' => foldl (fun acc x => acc +:+ sep +:+ x) s l' end.

Definition render (a : C2paAnnotation) : list string :=
  match an_present a, an_note a with
  | false, Some note => [note]
  | false, None => []
  | true, note =>
      let facts := match an_claim_generator a with Some g => ["claim generator: " +:+ g] | None => [] end
        ++ match an_action_count a with Some n => [show_Z n +:+ " action(s)"] | None => [] end
        ++ match an_signature_parses a with
           | Some p => ["signature structure " +:+ (if p then "parses" else "does NOT parse")]
           | None => []
           end in
      let detail := if bool_decide (facts = []) then "" else " (" +:+ join_with "; " facts +:+ ")" in
      ("c2pa: " +:+ default "unknown" (an_container a) +:+ " manifest" +:+ detail
         +:+ " — C2PA claim present — not Origin-verified.")
      :: match note with Some n => ["c2pa note: " +:+ n] | None => [] end
  end.

(** The byte at an index the code has checked. *)
Definition at_ (l : bytes) (i : nat) : Z := match l !! i with Some a => code a | None => 0%Z end.
Definition be_at (l : bytes) (i n : nat) : Z := be_val (Bytes.slice i (i + n) l).

(** ** Containers *)

(** The fill bytes [0xFF] at the front. *)
Fixpoint fill (l : bytes) : nat :=
  match l with a :: l' => if (code a =? 255)%Z then S (fill l') else 0 | [] => 0 end.

Definition standalone (marker : Z) : bool :=
  ((marker =? 216) || ((208 <=? marker) && (marker <=? 215)) || (marker =? 1))%Z.

(** The walk of [jpeg_app11_store]: [None] is the fuel used up. *)
Fixpoint jpeg_walk (fuel : nat) (data : bytes) (i : nat) (out : bytes) : option (option bytes) :=
  match fuel with
  | O => None
  | S fuel' =>
      if negb (i + 1 <? length data) then Some (Some out)
      else if negb (at_ data i =? 255)%Z then Some None
      else
        let i := i + fill (drop i data) in
        if length data <=? i then Some (Some out)
        else
          let marker := at_ data i in
          let i := i + 1 in
          if standalone marker || (marker =? 217)%Z then jpeg_walk fuel' data i out
          else if length data <? i + 2 then Some (Some out)
          else
            let seg_len := Z.to_nat (be_at data i 2) in
            if (seg_len <? 2) || (length data <? i + seg_len) then Some None
            else
              let payload := Bytes.slice (i + 2) (i + seg_len) data in
              let out := if (marker =? 235)%Z && (2 <? length payload) && starts_with (chars "JP") payload
                         then out ++ drop 2 payload else out in
              if (marker =? 218)%Z then Some (Some out)
              else jpeg_walk fuel' data (i + seg_len) out
  end.
Definition jpeg_app11_store (data : bytes) : option (option bytes) := jpeg_walk (length data) data 2 [].

Definition is_zero (a : ascii) : bool := (code a =? 0)%Z.

(** [body[pos..].iter().position(|&b| b == 0)? + 1]: slicing past the end panics. *)
Definition after_zero (body : bytes) (pos : nat) : option (option nat) :=
  if length body <? pos then None
  else Some ((fun k => pos + k + 1) <$> position is_zero (drop pos body)).

(** The text of an [iTXt] body. *)
Definition itxt_text (body : bytes) : option (option bytes) :=
  match position is_zero body with
  | None => Some None
  | Some k =>
      let pos := k + 1 in
      if length body <=? pos then Some None
      else
        let compressed := (at_ body pos =? 1)%Z in
        let pos := pos + 2 in
        match after_zero body pos with
        | None => None
        | Some None => Some None
        | Some (Some pos) =>
            match after_zero body pos with
            | None => None
            | Some None => Some None
            | Some (Some pos) => Some (if compressed then None else Some (drop pos body))
            end
        end
  end.

(** The outer option is the fuel, the middle one a panic. *)
Fixpoint png_walk (fuel : nat) (data : bytes) (i : nat) : option (option (option bytes)) :=
  match fuel with
  | O => None
  | S fuel' =>
      if length data <? i + 8 then Some (Some None)
      else
        let len := Z.to_nat (be_at data i 4) in
        let ctype := Bytes.slice (i + 4) (i + 8) data in
        if length data <? i + 8 + len + 4 then Some (Some None)
        else if bool_decide (ctype = chars "iTXt")
        then Some (itxt_text (Bytes.slice (i + 8) (i + 8 + len) data))
        else png_walk fuel' data (i + 8 + len + 4)
  end.
Definition png_itxt_store (data : bytes) : option (option (option bytes)) := png_walk (length data) data 8.

Definition PNG_MAGIC : bytes := map byte_of [137; 80; 78; 71; 13; 10; 26; 10]%Z.

Definition detected (store : option bytes) (found : string) (kind : string) : C2paStore :=
  match store with
  | Some b => if bool_decide (b = []) then Unsupported kind else Detected b found
  | None => Unsupported kind
  end.

(** [None]: a panic (or, vacuously, the fuel). *)
Definition extract_store (data : bytes) (path_hint : option string) : option C2paStore :=
  if (3 <? length data) && (at_ data 0 =? 255)%Z && (at_ data 1 =? 216)%Z
  then s ← jpeg_app11_store data; Some (detected s "jpeg-app11" "jpeg")
  else if (8 <? length data) && bool_decide (take 8 data = PNG_MAGIC)
  then p ← png_itxt_store data; s ← p; Some (detected s "png-itxt" "png")
  else match path_hint with
       | Some p => Some (if bool_decide (extension p = Some (chars "jumbf")) then Detected data "jumbf-sidecar" else Absent)
       | None => Some Absent
       end.

(** ** CBOR *)

Definition usize (z : Z) : Z := wrap_u64 z.

(** [cbor_header(bytes, pos)]: major type, value, header length. *)
Definition cbor_header (b : bytes) (pos : Z) : option (Z * Z * Z) :=
  if (Z.of_nat (length b) <=? pos)%Z then None
  else
    let p := Z.to_nat pos in
    let ib := at_ b p in
    let major := Z.shiftr ib 5 in
    let info := Z.land ib 31 in
    let hdr := (if info <=? 23 then Some 1 else if info =? 24 then Some 2 else if info =? 25 then Some 3
                else if info =? 26 then Some 5 else if info =? 27 then Some 9 else None)%Z in
    match hdr with
    | None => None
    | Some hdr =>
        if (Z.of_nat (length b) <? pos + hdr)%Z then None
        else Some (major, if (info <=? 23)%Z then info else be_at b (p + 1) (Z.to_nat hdr - 1), hdr)
    end.

Definition CBOR_MAX_DEPTH : nat := 64.

(** [for _ in 0..n { next = f(next)?; }], [n] in binary. *)
Fixpoint iter_pos {A : Type} (n : positive) (f : A -> option A) (x : A) : option A :=
  match n with
  | xH => f x
  | xO n' => y ← iter_pos n' f x; iter_pos n' f y
  | xI n' => y ← f x; z ← iter_pos n' f y; iter_pos n' f z
  end.
Definition iter_Z {A : Type} (n : Z) (f : A -> option A) (x : A) : option A :=
  match n with Zpos p => iter_pos p f x | _ => Some x end.

(** [cbor_skip_capped]; [room] is what is left of the depth cap, plus one. *)
Fixpoint cbor_skip_room (room : nat) (b : bytes) (pos : Z) : option Z :=
  match room with
  | O => None
  | S room' =>
      '(major, n, hdr) ← cbor_header b pos;
      let next := (pos + hdr)%Z in
      if ((major =? 0) || (major =? 1) || (major =? 7))%Z then Some next
      else if ((major =? 2) || (major =? 3))%Z then
        let next := usize (next + n) in
        if (next <=? Z.of_nat (length b))%Z then Some next else None
      else if (major =? 4)%Z then iter_Z n (cbor_skip_room room' b) next
      else if (major =? 5)%Z then
        iter_Z n (fun p => q ← cbor_skip_room room' b p; cbor_skip_room room' b q) next
      else None
  end.
Definition cbor_skip (b : bytes) (pos : Z) : option Z := cbor_skip_room (S CBOR_MAX_DEPTH) b pos.

(** [payload.get(a..b)]: [None] when out of order or out of range. *)
Definition get_range (b : bytes) (i j : Z) : option bytes :=
  if ((i <=? j) && (j <=? Z.of_nat (length b)))%Z then Some (Bytes.slice (Z.to_nat i) (Z.to_nat j) b) else None.

(** One pair of the loops over a map: go on at a position, or answer. *)
Inductive scan (A : Type) := Next (pos : Z) | Answer (r : option A).
Arguments Next {A} pos.
Arguments Answer {A} r.

(** [for _ in 0..pairs { body }] and then [None]. *)
Definition scan_map {A : Type} (payload : bytes) (body : Z -> option (scan A)) : option A :=
  '(major, pairs, hdr) ← cbor_header payload 0;
  if negb (major =? 5)%Z then None
  else
    match iter_Z pairs (fun s => match s with Next pos => body pos | Answer r => Some (Answer r) end) (Next hdr) with
    | Some (Answer r) => r
    | _ => None
    end.

Definition claim_pair (payload : bytes) (pos : Z) : option (scan string) :=
  '(kmaj, klen, khdr) ← cbor_header payload pos;
  if negb (kmaj =? 3)%Z then
    after_key ← cbor_skip payload pos;
    Next <$> cbor_skip payload after_key
  else
    key ← get_range payload (pos + khdr) (usize (pos + khdr + klen));
    key ← from_utf8 key;
    let val_pos := usize (pos + khdr + klen) in
    '(vmaj, vlen, vhdr) ← cbor_header payload val_pos;
    if bool_decide (key = "claim_generator") && (vmaj =? 3)%Z then
      v ← get_range payload (val_pos + vhdr) (usize (val_pos + vhdr + vlen));
      Some (Answer (from_utf8 v))
    else Next <$> cbor_skip payload val_pos.
Definition cbor_get_text_claim_generator (payload : bytes) : option string := scan_map payload (claim_pair payload).

Definition actions_pair (payload : bytes) (pos : Z) : option (scan Z) :=
  '(kmaj, klen, khdr) ← cbor_header payload pos;
  if negb (kmaj =? 3)%Z then Some (Answer None)
  else
    key ← get_range payload (pos + khdr) (usize (pos + khdr + klen));
    key ← from_utf8 key;
    let val_pos := usize (pos + khdr + klen) in
    if bool_decide (key = "actions") then
      '(vmaj, count, _) ← cbor_header payload val_pos;
      Some (Answer (if (vmaj =? 4)%Z then Some count else None))
    else Next <$> cbor_skip payload val_pos.
Definition cbor_count_actions (payload : bytes) : option Z := scan_map payload (actions_pair payload).

Definition cbor_signature_parses (payload : bytes) : bool :=
  match cbor_header payload 0 with Some (major, n, _) => ((major =? 4) && (4 <=? n))%Z | None => false end.

(** ** JUMBF *)

Definition jumb_label (content : bytes) : option string :=
  if (length content <? 8 + 16 + 1) || negb (bool_decide (Bytes.slice 4 8 content = chars "jumd")) then None
  else if negb (Z.odd (at_ content 24)) then None
  else
    let rest := drop 25 content in
    from_utf8 (take (default (length rest) (position is_zero rest)) rest).

Definition jumb_header_len (content : bytes) : nat :=
  if 8 <=? length content then
    let dlen := Z.to_nat (be_at content 0 4) in
    if bool_decide (Bytes.slice 4 8 content = chars "jumd") && (8 <=? dlen) && (dlen <=? length content) then dlen else 0
  else 0.

Record C2paFacts := MkFacts { fa_claim : option bytes; fa_actions : option bytes; fa_signature : option bytes }.

Definition note_box (content : bytes) (f : C2paFacts) : C2paFacts :=
  match jumb_label content with
  | None => f
  | Some label =>
      let payload := drop (jumb_header_len content) content in
      if bool_decide (label = "c2pa.claim.v2") || bool_decide (label = "c2pa.claim.v1") || bool_decide (label = "c2pa.claim")
      then MkFacts (Some payload) (fa_actions f) (fa_signature f)
      else if starts_with (chars "c2pa.actions") (chars label) then MkFacts (fa_claim f) (Some payload) (fa_signature f)
      else if starts_with (chars "c2pa.signature") (chars label) then MkFacts (fa_claim f) (fa_actions f) (Some payload)
      else f
  end.

Fixpoint jumbf_walk (fuel : nat) (b : bytes) (i : nat) (f : C2paFacts) : option C2paFacts :=
  match fuel with
  | O => None
  | S fuel' =>
      if length b <? i + 8 then Some f
      else
        let len := Z.to_nat (be_at b i 4) in
        if (len <? 8) || (length b <? i + len) then Some f
        else
          let f := if bool_decide (Bytes.slice (i + 4) (i + 8) b = chars "jumb")
                   then note_box (Bytes.slice (i + 8) (i + len) b) f else f in
          jumbf_walk fuel' b (i + len) f
  end.

Definition no_annotation : C2paAnnotation := MkAnnotation None false None None None None.

Definition annotate (store : C2paStore) : option C2paAnnotation :=
  match store with
  | Unsupported c =>
      Some (MkAnnotation None false None None None
              (Some ("C2PA parse not attempted (no reader for this container: " +:+ c +:+ ")")))
  | Absent => Some no_annotation
  | Detected b container =>
      f ← jumbf_walk (S (length b)) b 0 (MkFacts None None None);
      let present := bool_decide (is_Some (fa_claim f)) || bool_decide (is_Some (fa_actions f))
                     || bool_decide (is_Some (fa_signature f)) in
      Some (MkAnnotation (Some container) present (fa_claim f ≫= cbor_get_text_claim_generator)
              (fa_actions f ≫= cbor_count_actions) (cbor_signature_parses <$> fa_signature f)
              (if present then None else Some "JUMBF store found but no c2pa.* labels recognized"))
  end.

(** ** Theory *)

Lemma fill_le (l : bytes) : fill l <= length l.
Proof. induction l as [|a l IH]; cbn; [lia|]. case_match; lia. Qed.

Lemma fill_head (data : bytes) (i : nat) :
  i < length data -> (at_ data i =? 255)%Z = true -> 0 < fill (drop i data).
Proof.
  intros Hi E. unfold at_ in E. destruct (data !! i) as [a|] eqn:Ea; [|done].
  rewrite (drop_S data a i Ea). cbn. rewrite E. lia.
Qed.

(** The fuel of the three walks is enough. *)
Lemma jpeg_walk_total (fuel : nat) (data : bytes) (i : nat) (out : bytes) :
  0 < fuel -> length data < i + fuel -> is_Some (jpeg_walk fuel data i out).
Proof.
  revert i out. induction fuel as [|fuel IH]; intros i out Hf Hl; [lia|]. cbn [jpeg_walk].
  destruct (Nat.ltb_spec (i + 1) (length data)) as [Hi|]; cbn [negb]; [|by eexists].
  destruct (at_ data i =? 255)%Z eqn:Ef; cbn [negb]; [|by eexists].
  pose proof (fill_head data i ltac:(lia) Ef) as Hp.
  destruct (Nat.leb_spec (length data) (i + fill (drop i data))); [by eexists|].
  case_match; [apply IH; lia|]. destruct (Nat.ltb_spec (length data) (i + fill (drop i data) + 1 + 2)); [by eexists|].
  case_match; [by eexists|]. case_match; [by eexists|]. apply IH; lia.
Qed.

Lemma png_walk_total (fuel : nat) (data : bytes) (i : nat) :
  0 < fuel -> length data < i + fuel -> is_Some (png_walk fuel data i).
Proof.
  revert i. induction fuel as [|fuel IH]; intros i Hf Hl; [lia|]. cbn [png_walk].
  destruct (Nat.ltb_spec (length data) (i + 8)); [by eexists|]. case_match; [by eexists|].
  case_bool_decide; [by eexists|]. apply IH; lia.
Qed.

Lemma jumbf_walk_total (fuel : nat) (b : bytes) (i : nat) (f : C2paFacts) :
  0 < fuel -> length b < i + fuel -> is_Some (jumbf_walk fuel b i f).
Proof.
  revert i f. induction fuel as [|fuel IH]; intros i f Hf Hl; [lia|]. cbn [jumbf_walk].
  destruct (Nat.ltb_spec (length b) (i + 8)); [by eexists|].
  destruct (Nat.ltb_spec (Z.to_nat (be_at b i 4)) 8); [by eexists|]. cbn [orb].
  case_match; [by eexists|]. apply IH; lia.
Qed.

Lemma annotate_total (s : C2paStore) : is_Some (annotate s).
Proof.
  destruct s as [b c|c|]; [|by eexists..]. unfold annotate.
  destruct (jumbf_walk_total (S (length b)) b 0 (MkFacts None None None) ltac:(lia) ltac:(lia)) as [f ->]. by eexists.
Qed.

(** Only a text chunk that ends one byte after its keyword makes the parser
    slice past the end. *)
Lemma itxt_text_panic (body : bytes) :
  itxt_text body = None <-> exists k, position is_zero body = Some k /\ length body = k + 2.
Proof.
  unfold itxt_text. destruct (position is_zero body) as [k|] eqn:Ek; [|split; [done|by intros (k & ? & _)]].
  pose proof (position_lt _ _ _ Ek) as Hk. split.
  - destruct (Nat.leb_spec (length body) (k + 1)); [done|]. unfold after_zero at 1.
    destruct (Nat.ltb_spec (length body) (k + 1 + 2)); [intros _; exists k; split; [done|lia]|].
    destruct (position is_zero (drop (k + 1 + 2) body)) as [j|] eqn:Ej; cbn [fmap option_fmap option_map]; [|done].
    apply position_lt in Ej. rewrite length_drop in Ej. unfold after_zero.
    destruct (Nat.ltb_spec (length body) (k + 1 + 2 + j + 1)); [lia|]. by destruct (position is_zero (drop _ body)).
  - intros (j & [= ->] & E). destruct (Nat.leb_spec (length body) (j + 1)); [lia|]. unfold after_zero.
    destruct (Nat.ltb_spec (length body) (j + 1 + 2)); [done|lia].
Qed.

(** The bodies of the text chunks the walk from [i] reaches first. *)
Inductive first_itxt (data : bytes) : nat -> bytes -> Prop :=
| itxt_here i len :
    i + 8 <= length data -> len = Z.to_nat (be_at data i 4) -> i + 8 + len + 4 <= length data ->
    Bytes.slice (i + 4) (i + 8) data = chars "iTXt" -> first_itxt data i (Bytes.slice (i + 8) (i + 8 + len) data)
| itxt_later i len body :
    i + 8 <= length data -> len = Z.to_nat (be_at data i 4) -> i + 8 + len + 4 <= length data ->
    Bytes.slice (i + 4) (i + 8) data <> chars "iTXt" -> first_itxt data (i + 8 + len + 4) body -> first_itxt data i body.

Lemma png_walk_panic (fuel : nat) (data : bytes) (i : nat) :
  0 < fuel -> length data < i + fuel ->
  (png_walk fuel data i = Some None <-> exists body, first_itxt data i body /\ itxt_text body = None).
Proof.
  revert i. induction fuel as [|fuel IH]; intros i Hf Hl; [lia|]. cbn [png_walk].
  destruct (Nat.ltb_spec (length data) (i + 8)) as [Hs|Hs].
  { split; [done|]. intros (body & Hb & _). inversion Hb; lia. }
  set (len := Z.to_nat (be_at data i 4)). destruct (Nat.ltb_spec (length data) (i + 8 + len + 4)) as [Hd|Hd].
  { split; [done|]. intros (body & Hb & _). inversion Hb; subst len; lia. }
  case_bool_decide as Hc.
  - split; [intros [= E]; eexists; split; [by apply (itxt_here data i len)|done]|].
    intros (body & Hb & Ht). inversion Hb; subst; [f_equal; exact Ht|done].
  - rewrite IH by lia. split; intros (body & Hb & Ht); exists body; (split; [|done]).
    + by apply (itxt_later data i len).
    + by inversion Hb; subst.
Qed.

(** The annotation of a file is computed without a crash, except on a PNG
    whose first text chunk ends one byte after its keyword. *)
Lemma annotation_panic_spec (data : bytes) (hint : option string) :
  extract_store data hint ≫= annotate = None <->
  8 < length data /\ take 8 data = PNG_MAGIC /\
  exists body k, first_itxt data 8 body /\ position is_zero body = Some k /\ length body = k + 2.
Proof.
  assert (forall o : option C2paStore, o ≫= annotate = None <-> o = None) as ->.
  { intros [s|]; cbn; [|done]. by destruct (annotate_total s) as [a ->]. }
  unfold extract_store. destruct ((3 <? length data) && (at_ data 0 =? 255)%Z && (at_ data 1 =? 216)%Z) eqn:Ej.
  - apply andb_prop in Ej as [Ej _]. apply andb_prop in Ej as [Hl E0]. apply Nat.ltb_lt in Hl.
    destruct (jpeg_walk_total (length data) data 2 [] ltac:(lia) ltac:(lia)) as [s Es].
    unfold jpeg_app11_store. rewrite Es. cbn. split; [done|]. intros (_ & Hm & _). exfalso.
    destruct data as [|a data]; [done|]. cbn in Hm. injection Hm as -> _. by vm_compute in E0.
  - destruct (Nat.ltb_spec 8 (length data)) as [Hl|Hl]; cbn [andb].
    2: { split; [by destruct hint as [p|]; [|done]|]. intros (? & _). lia. }
    case_bool_decide as Hm.
    2: { split; [by destruct hint as [p|]; [|done]|]. by intros (_ & ? & _). }
    pose proof (png_walk_panic (length data) data 8 ltac:(lia) ltac:(lia)) as Hp.
    destruct (png_walk_total (length data) data 8 ltac:(lia) ltac:(lia)) as [p Ep].
    unfold png_itxt_store. rewrite Ep in *. cbn. split.
    + intros E. split; [done|]. split; [done|]. destruct p; [done|].
      destruct (proj1 Hp eq_refl) as (body & Hb & Ht). apply itxt_text_panic in Ht as (k & ? & ?). eauto.
    + intros (_ & _ & body & k & Hb & Hk & Hlen). assert (Some p = Some None) as [= ->]; [|done].
      apply Hp. exists body. split; [done|]. apply itxt_text_panic. eauto.
Qed.

(** The crafted file: signature and one text chunk with the body [x\0\0]. *)
Definition bad_png : bytes :=
  PNG_MAGIC ++ be_bytes 4 3 ++ chars "iTXt" ++ [byte_of 120; byte_of 0; byte_of 0] ++ be_bytes 4 0.

Lemma bad_png_panics (hint : option string) : extract_store bad_png hint ≫= annotate = None.
Proof. by vm_compute. Qed.

(** The length of a string is added in 64 bits: a string that claims
    2^64 - 14 bytes is skipped backwards, to the start of the payload. *)
Example cbor_skip_wraps :
  cbor_skip (chars "aaaaa" ++ byte_of 123 :: be_bytes 8 (2 ^ 64 - 14)) 5 = Some 0%Z.
Proof. by vm_compute. Qed.
