(* ===== verification/Provenance.v ===== *)
(** * Provenance manifests (origin-provenance)

    [error.rs], the byte recipes of [encoding.rs], the signer of
    [identity.rs] and the manifest of [opm.rs]: creation, edits,
    checkpoints, attestations, the manifest id and head anchors.  Signatures
    and hashes are those of [Sdk]; base64, key derivation from a seed and
    serde are [ProvOps].  A clock reading and a file's bytes are arguments.
    A panic of the mountain range, which never happens, is [PvPanic]. *)

From Stdlib Require Import Ascii String.
From S2P Require Import Prelude RustStr Bytes RustText Sdk Mmr MmrTheory VcsStream.

(** ** Errors *)

Inductive ProvenanceError :=
| PvIo (e : string)
| PvHashMismatch (path expected actual : string)
| PvInvalidStamp (e : string)
| PvInvalidManifest (e : string)
| PvAnchorExists (path : string)
| PvManifestExists (path : string)
| PvInvalidLicense (e : string)
| PvSignature (e : string)
| PvNotFound (e : string)
| PvOther (e : string)
| PvCrypto (e : string)
| PvPanic.

Definition mmr_result {A : Type} (o : option A) : result ProvenanceError A :=
  match o with Some a => Ok a | None => Err PvPanic end.

(** ** Byte recipes ([encoding.rs]) *)

Definition DEFAULT_CHUNK_SIZE : Z := 1048576.
Definition SIGNER_DOMAIN : string := "origin-provenance:signer:v1".
Definition TAG_ASSET : bytes := chars "origin-provenance:asset:v1".
Definition TAG_EDIT : bytes := chars "origin-provenance:edit:v1".
Definition TAG_CHECKPOINT : bytes := chars "origin-provenance:checkpoint:v1".
Definition TAG_ATTESTATION : bytes := chars "origin-provenance:attestation:v1".
Definition TAG_MANIFEST : bytes := chars "origin-provenance:manifest:v1".
Definition TAG_SIGNER_FP : bytes := chars "origin-provenance:signer-fp:v1".
Definition TAG_ANCHOR : bytes := chars "origin-provenance:anchor:v1".
Definition TAG_LICENSE : bytes := chars "origin-provenance:license:v1".

Inductive Action := ActCapture | ActEdit | ActPublish | ActAnnotate.

#[global] Instance Action_eq_dec : EqDecision Action.
Proof. solve_decision. Defined.

Definition action_try_from (v : Z) : result Z Action :=
  match v with 0 => Ok ActCapture | 1 => Ok ActEdit | 2 => Ok ActPublish | 3 => Ok ActAnnotate | other => Err other end.
Definition action_u8 (a : Action) : Z :=
  match a with ActCapture => 0 | ActEdit => 1 | ActPublish => 2 | ActAnnotate => 3 end.

Definition edit_leaf_input (index action : Z) (chunk_tree_root whole_file_hash asset_id : bytes) : bytes :=
  TAG_EDIT ++ asset_id ++ be_bytes 8 index ++ [byte_of action] ++ chunk_tree_root ++ whole_file_hash.

Definition checkpoint_payload_input (leaf_count : Z) (mmr_root : bytes) (timestamp : Z) (signer_fingerprint_raw : bytes) : bytes :=
  TAG_CHECKPOINT ++ be_bytes 8 leaf_count ++ mmr_root ++ be_bytes 8 timestamp ++ signer_fingerprint_raw.

Definition attestation_payload_input (manifest_id : bytes) (leaf_count : Z) (mmr_root : bytes) : bytes :=
  TAG_ATTESTATION ++ manifest_id ++ be_bytes 8 leaf_count ++ mmr_root.

Definition anchor_payload_input (edit_count : Z) (manifest_id asset_id : bytes) : bytes :=
  TAG_ANCHOR ++ be_bytes 8 edit_count ++ manifest_id ++ asset_id.

Definition license_payload_input (version : Z) (license_id : string) (tier : Z) (subject : string) (issued_at : Z)
    (expires_at : option Z) : bytes :=
  TAG_LICENSE ++ [byte_of version] ++ be_bytes 4 (Z.of_nat (length (chars license_id))) ++ chars license_id
  ++ [byte_of tier] ++ be_bytes 4 (Z.of_nat (length (chars subject))) ++ chars subject ++ be_bytes 8 issued_at
  ++ match expires_at with None => [byte_of 0] | Some ts => byte_of 1 :: be_bytes 8 ts end.

Record CheckpointBasis := MkBasis {
  cb_leaf_count : Z;
  cb_mmr_root : bytes;
  cb_timestamp : Z;
  cb_signer_fingerprint_raw : bytes
}.

Definition basis_bytes (cp : CheckpointBasis) : bytes :=
  be_bytes 8 (cb_leaf_count cp) ++ cb_mmr_root cp ++ be_bytes 8 (cb_timestamp cp) ++ cb_signer_fingerprint_raw cp.

Definition manifest_signable_bytes (version : Z) (asset_id : bytes) (chunk_size : Z) (leaf_hashes : list bytes)
    (checkpoints : list CheckpointBasis) (threshold : option Z) : bytes :=
  TAG_MANIFEST ++ [byte_of version] ++ asset_id ++ be_bytes 4 chunk_size
  ++ be_bytes 8 (Z.of_nat (length leaf_hashes)) ++ concat leaf_hashes
  ++ be_bytes 8 (Z.of_nat (length checkpoints)) ++ concat (map basis_bytes checkpoints)
  ++ match threshold with Some k => be_bytes 4 k | None => [] end.

(** ** Data ([opm.rs], [identity.rs]) *)

Definition OPM_VERSION : Z := 1.

Record SignerKeys := MkKeys { sk_ed25519_pk : string; sk_falcon_pk : string }.

Record ContentBinding := MkContent { co_whole_file_hash : string; co_chunk_tree_root : string }.

Record Edit := MkEdit {
  ed_index : Z;
  ed_action : Action;
  ed_note : option string;
  ed_content : ContentBinding;
  ed_leaf_hash : string;
  ed_chunk_hashes : option (list string)
}.

Record Checkpoint := MkCheckpoint {
  cp_leaf_count : Z;
  cp_mmr_root : string;
  cp_timestamp : Z;
  cp_signer_fingerprint : string;
  cp_keys : option SignerKeys;
  cp_signature : string
}.

Record Attestation := MkAttest { at_fingerprint : string; at_keys : option SignerKeys; at_signature : string }.

Record WatermarkHint := MkHint { wh_present : bool; wh_label : option string }.

(** [Threshold] is its field [k]. *)
Record Opm := MkOpm {
  opm_version : Z;
  opm_asset_id : string;
  opm_chunk_size : Z;
  opm_edits : list Edit;
  opm_checkpoints : list Checkpoint;
  opm_attestations : list Attestation;
  opm_threshold : option Z;
  opm_watermark_hint : option WatermarkHint;
  opm_metadata : option json
}.

Record Anchor := MkAnchor {
  an_manifest_id : string;
  an_edit_count : Z;
  an_signer_fingerprint : string;
  an_keys : option SignerKeys;
  an_signature : string
}.

(** [prev + 1] is [i64] arithmetic. *)
Definition next_timestamp (now : Z) (prev : option Z) : Z :=
  match prev with Some prev => if now <=? prev then wrap_i64 (prev + 1) else now | None => now end.

(** [trim_end_matches(['\n', '\r'])], from the end. *)
Fixpoint drop_crlf (l : list ascii) : list ascii :=
  match l with a :: l' => if (code a =? 10) || (code a =? 13) then drop_crlf l' else l | [] => [] end.

Class ProvOps `{Sdk} := {
  (** [HybridSigningKeyBundle::from_seed(seed, domain)]. *)
  prov_bundle_from_seed : bytes -> string -> result string HybridSigningKeyBundle;
  (** base64's [STANDARD] engine. *)
  b64_encode : bytes -> string;
  b64_decode : string -> result string bytes
}.

Section Provenance.
Context `{PV : ProvOps}.

(** ** Hashes *)

Definition asset_id_of (whole_file_hash : bytes) : bytes := sha3_256 (TAG_ASSET ++ whole_file_hash).

Definition edit_leaf (index action : Z) (chunk_tree_root whole_file_hash asset_id : bytes) : bytes :=
  blake3 (edit_leaf_input index action chunk_tree_root whole_file_hash asset_id).

Definition manifest_id_of (version : Z) (asset_id : bytes) (chunk_size : Z) (leaf_hashes : list bytes)
    (checkpoints : list CheckpointBasis) (threshold : option Z) : bytes :=
  sha3_256 (manifest_signable_bytes version asset_id chunk_size leaf_hashes checkpoints threshold).

Definition signer_fingerprint (ed25519_pk falcon_pk : bytes) : result string bytes :=
  if u32_max <? Z.of_nat (length falcon_pk) then Err "falcon pk length overflow"
  else Ok (sha3_256 (TAG_SIGNER_FP ++ ed25519_pk ++ be_bytes 4 (Z.of_nat (length falcon_pk)) ++ falcon_pk)).

(** [data.chunks(chunk_size.max(1))]. *)
Definition data_chunks (data : bytes) (chunk_size : Z) : list bytes :=
  file_chunks (length data) (Z.to_nat (Z.max chunk_size 1)) data.

(** One round of the tree: pairs hashed, an odd last node carried up. *)
Fixpoint pair_level (level : list bytes) : list bytes :=
  match level with
  | a :: b :: level' => blake3 (a ++ b) :: pair_level level'
  | _ => level
  end.
Fixpoint merkle_loop (fuel : nat) (level : list bytes) : list bytes :=
  match fuel with
  | O => level
  | S fuel' => if (1 <? length level)%nat then merkle_loop fuel' (pair_level level) else level
  end.
Definition merkle_root_from_leaf_hashes (leaves : list bytes) : bytes :=
  match merkle_loop (length leaves) leaves with x :: _ => x | [] => blake3 [] end.
Definition chunk_tree_root (data : bytes) (chunk_size : Z) : bytes :=
  merkle_root_from_leaf_hashes (map blake3 (data_chunks data chunk_size)).

(** ** Signers *)

Record Signer := MkSigner { sg_bundle : HybridSigningKeyBundle; sg_fingerprint : bytes }.

Definition signer_from_seed (seed : bytes) : result string Signer :=
  bundle ← prov_bundle_from_seed seed SIGNER_DOMAIN;
  fp ← signer_fingerprint (ed25519_pk bundle) (falcon1024_pk bundle);
  Ok (MkSigner bundle fp).

Definition fingerprint_hex (s : Signer) : string := hex_encode (sg_fingerprint s).
Definition public_keys (s : Signer) : SignerKeys :=
  MkKeys (hex_encode (ed25519_pk (sg_bundle s))) (hex_encode (falcon1024_pk (sg_bundle s))).
Definition signer_sign (s : Signer) (msg : bytes) : result string HybridSig := try_sign_hybrid (sg_bundle s) msg.

Definition hybrid_sig_to_base64 (sig : HybridSig) : result ProvenanceError string :=
  b ← map_err PvSignature (hybrid_encode sig); Ok (b64_encode b).
Definition hybrid_sig_from_base64 (s : string) : result ProvenanceError HybridSig :=
  raw ← map_err (fun e => PvSignature ("bad base64 hybrid signature: " +:+ e)) (b64_decode s);
  map_err PvSignature (hybrid_decode raw).

(** [load_signer_seed] on the bytes of the file. *)
Definition load_signer_seed (path : string) (read : result string bytes) : result string bytes :=
  raw ← map_err (fun e => "read seed file " +:+ path +:+ ": " +:+ e) read;
  let raw_len := length raw in
  let fail := Err ("seed file " +:+ path +:+ ": expected 32 raw bytes or 64-char hex, got "
                   +:+ show_Z (Z.of_nat raw_len) +:+ " bytes") in
  if (raw_len =? 32)%nat then Ok raw
  else if ((raw_len =? 64) || (raw_len =? 65))%nat then
    text ← match from_utf8 raw with Some t => Ok t | None => Err "seed hex is not UTF-8" end;
    b ← map_err (fun e => "bad seed hex: " +:+ e)
          (hex_decode (of_chars (rev (drop_crlf (rev (chars text))))));
    if (length b =? 32)%nat then Ok b else fail
  else fail.

(** ** Manifests ([opm.rs]) *)

Definition decode32 (hex_str : string) : result ProvenanceError bytes :=
  b ← map_err (fun e => PvInvalidManifest ("bad hex: " +:+ e)) (hex_decode hex_str);
  if (length b =? 32)%nat then Ok b else Err (PvInvalidManifest "expected 32-byte hex").
Definition self_leaf_hash (e : Edit) : result ProvenanceError bytes := decode32 (ed_leaf_hash e).
Definition asset_id_bytes (o : Opm) : result ProvenanceError bytes := decode32 (opm_asset_id o).

Definition whole_file_hash (data : bytes) : bytes := blake3 data.
Definition from_hashes (data : bytes) (chunk_size : Z) : ContentBinding :=
  MkContent (hex_encode (whole_file_hash data)) (hex_encode (chunk_tree_root data chunk_size)).
Definition chunk_hashes (data : bytes) (chunk_size : Z) : list string :=
  map (fun c => hex_encode (blake3 c)) (data_chunks data chunk_size).

Definition sign_checkpoint_at (signer : Signer) (mmr : MmrState) (ts : Z) : result ProvenanceError Checkpoint :=
  root ← mmr_result (root mmr);
  let payload := checkpoint_payload_input (Z.of_nat (leaf_count mmr)) root ts (sg_fingerprint signer) in
  sig ← map_err PvCrypto (signer_sign signer payload);
  b64 ← hybrid_sig_to_base64 sig;
  Ok (MkCheckpoint (Z.of_nat (leaf_count mmr)) (hex_encode root) ts (fingerprint_hex signer)
        (Some (public_keys signer)) b64).

(** [checkpoint]; the clock fails before the epoch. *)
Definition checkpoint (signer : Signer) (mmr : MmrState) (now : result ProvenanceError Z) : result ProvenanceError Checkpoint :=
  ts ← now; sign_checkpoint_at signer mmr ts.

Definition create_from_bytes (data : bytes) (signer : Signer) (action : Action) (chunk_size : Z)
    (now : result ProvenanceError Z) : result ProvenanceError Opm :=
  let wfh := whole_file_hash data in
  let asset_id := asset_id_of wfh in
  let leaf := edit_leaf 0 (action_u8 action) (chunk_tree_root data chunk_size) wfh asset_id in
  mmr ← mmr_result (append_hash mmr_new leaf);
  cp ← checkpoint signer mmr now;
  Ok (MkOpm OPM_VERSION (hex_encode asset_id) (if chunk_size =? 0 then DEFAULT_CHUNK_SIZE else chunk_size)
        [MkEdit 0 action None (from_hashes data chunk_size) (hex_encode leaf) (Some (chunk_hashes data chunk_size))]
        [cp] [] None None None).

Definition sidecar_path (asset : string) : string := asset +:+ ".opm".

(** [create]: whether the sidecar exists and the bytes of the asset are
    what the file system says. *)
Definition create_opm (asset : string) (sidecar_exists : bool) (read : result string bytes) (signer : Signer)
    (action : Action) (chunk_size : Z) (now : result ProvenanceError Z) : result ProvenanceError Opm :=
  if sidecar_exists then Err (PvManifestExists (sidecar_path asset))
  else data ← map_err PvIo read; create_from_bytes data signer action chunk_size now.

Definition push_edit (e : Edit) (o : Opm) : Opm :=
  MkOpm (opm_version o) (opm_asset_id o) (opm_chunk_size o) (opm_edits o ++ [e]) (opm_checkpoints o)
    (opm_attestations o) (opm_threshold o) (opm_watermark_hint o) (opm_metadata o).
Definition push_checkpoint (cp : Checkpoint) (o : Opm) : Opm :=
  MkOpm (opm_version o) (opm_asset_id o) (opm_chunk_size o) (opm_edits o) (opm_checkpoints o ++ [cp])
    [] (opm_threshold o) (opm_watermark_hint o) (opm_metadata o).

(** The range over the stored leaf hashes. *)
Definition stored_mmr (edits : list Edit) : result ProvenanceError MmrState :=
  leaves ← mapM self_leaf_hash edits; mmr_result (append_all mmr_new leaves).

(** [append_edit] on [&mut self]: an error after the edit was pushed
    leaves it without its checkpoint. *)
Definition append_edit (read : result string bytes) (signer : Signer) (action : Action) (note : option string)
    (now : result ProvenanceError Z) (o : Opm) : result ProvenanceError unit * Opm :=
  let index := match last (opm_edits o) with Some e => wrap_u64 (ed_index e + 1) | None => 0 end in
  match map_err PvIo read with
  | Err e => (Err e, o)
  | Ok data =>
      match asset_id_bytes o with
      | Err e => (Err e, o)
      | Ok asset_id =>
          let leaf := edit_leaf index (action_u8 action) (chunk_tree_root data (opm_chunk_size o))
                        (whole_file_hash data) asset_id in
          let o1 := push_edit (MkEdit index action note (from_hashes data (opm_chunk_size o)) (hex_encode leaf)
                                 (Some (chunk_hashes data (opm_chunk_size o)))) o in
          match
            (mmr ← stored_mmr (opm_edits o1);
             now ← now;
             sign_checkpoint_at signer mmr (next_timestamp now (cp_timestamp <$> last (opm_checkpoints o1))))
          with
          | Err e => (Err e, o1)
          | Ok cp => (Ok tt, push_checkpoint cp o1)
          end
      end
  end.

Definition basis_of (cp : Checkpoint) : result ProvenanceError CheckpointBasis :=
  root ← decode32 (cp_mmr_root cp);
  fp ← decode32 (cp_signer_fingerprint cp);
  Ok (MkBasis (cp_leaf_count cp) root (cp_timestamp cp) fp).

Definition manifest_id (o : Opm) : result ProvenanceError bytes :=
  leaves ← mapM self_leaf_hash (opm_edits o);
  cps ← mapM basis_of (opm_checkpoints o);
  asset_id ← asset_id_bytes o;
  Ok (manifest_id_of (opm_version o) asset_id (opm_chunk_size o) leaves cps (opm_threshold o)).

Definition current_mmr_root (o : Opm) : result ProvenanceError bytes :=
  mmr ← stored_mmr (opm_edits o); mmr_result (root mmr).

Definition attest (attestor : Signer) (o : Opm) : result ProvenanceError Opm :=
  id ← manifest_id o;
  root ← current_mmr_root o;
  sig ← map_err PvCrypto (signer_sign attestor (attestation_payload_input id (Z.of_nat (length (opm_edits o))) root));
  b64 ← hybrid_sig_to_base64 sig;
  Ok (MkOpm (opm_version o) (opm_asset_id o) (opm_chunk_size o) (opm_edits o) (opm_checkpoints o)
        (opm_attestations o ++ [MkAttest (fingerprint_hex attestor) (Some (public_keys attestor)) b64])
        (opm_threshold o) (opm_watermark_hint o) (opm_metadata o)).

(** ** Head anchors *)

Definition anchor (signer : Signer) (o : Opm) : result ProvenanceError Anchor :=
  id ← manifest_id o;
  asset_id ← asset_id_bytes o;
  sig ← map_err PvCrypto (signer_sign signer (anchor_payload_input (Z.of_nat (length (opm_edits o))) id asset_id));
  b64 ← hybrid_sig_to_base64 sig;
  Ok (MkAnchor (hex_encode id) (Z.of_nat (length (opm_edits o))) (fingerprint_hex signer) (Some (public_keys signer)) b64).

Definition manifest_id_at (n : Z) (o : Opm) : result ProvenanceError bytes :=
  if Z.of_nat (length (opm_edits o)) <? n then Err (PvInvalidManifest "anchor count exceeds present edits")
  else
    leaves ← mapM self_leaf_hash (take (Z.to_nat n) (opm_edits o));
    cps ← mapM basis_of (List.filter (fun cp => cp_leaf_count cp <=? n) (opm_checkpoints o));
    asset_id ← asset_id_bytes o;
    Ok (manifest_id_of (opm_version o) asset_id (opm_chunk_size o) leaves cps (opm_threshold o)).

Definition verify_anchor (a : Anchor) (o : Opm) : result ProvenanceError bool :=
  let presented := Z.of_nat (length (opm_edits o)) in
  head_ok ← (if presented =? an_edit_count a then
               id ← manifest_id o; Ok (bool_decide (hex_encode id = an_manifest_id a))
             else if an_edit_count a <? presented then
               id ← manifest_id_at (an_edit_count a) o; Ok (bool_decide (hex_encode id = an_manifest_id a))
             else Ok false);
  if negb head_ok then Ok false
  else
    id ← manifest_id_at (an_edit_count a) o;
    asset_id ← asset_id_bytes o;
    let payload := anchor_payload_input (an_edit_count a) id asset_id in
    keys ← match an_keys a with Some k => Ok k | None => Err (PvInvalidManifest "anchor missing keys") end;
    ed ← map_err (fun e => PvInvalidManifest ("anchor ed pk: " +:+ e)) (hex_decode (sk_ed25519_pk keys));
    if negb (length ed =? 32)%nat then Err (PvInvalidManifest "anchor ed pk: expected 32 bytes")
    else
      falcon ← map_err (fun e => PvInvalidManifest ("anchor falcon pk: " +:+ e)) (hex_decode (sk_falcon_pk keys));
      recomputed ← map_err (fun e => PvInvalidManifest ("anchor fp: " +:+ e)) (signer_fingerprint ed falcon);
      if negb (bool_decide (hex_encode recomputed = an_signer_fingerprint a)) then Ok false
      else
        manifest_signer ← match last (opm_checkpoints o) with
                          | Some c => Ok (cp_signer_fingerprint c)
                          | None => Err (PvInvalidManifest "manifest has no checkpoints")
                          end;
        if negb (bool_decide (an_signer_fingerprint a = manifest_signer)) then Ok false
        else
          sig ← hybrid_sig_from_base64 (an_signature a);
          Ok (hybrid_verify sig ed falcon payload).

End Provenance.
