(* ===== verification/Stamp.v ===== *)
(** * Stamps, watermarks and directory manifests (origin-provenance)

    [stamp.rs], [watermark.rs] and [manifest.rs].  Clock readings are
    arguments, serde is a parameter.  A directory is the tree of names
    that [read_dir] lists; what a path reads as is a function, so an
    entry of a manifest may name any path.  [BTreeMap]s are [gmap]s, whose
    order only decides which I/O error is met first; the position in the
    text of a UTF-8 error is left out. *)

From Stdlib Require Import Ascii String.
From S2P Require Import Prelude RustStr Bytes RustText Sdk Provenance.

(** ** Stamps ([stamp.rs]) *)

Definition STAMP_VERSION : Z := 1.

Record Stamp := MkStamp {
  st_version : Z;
  st_content_hash : string;
  st_size : Z;
  st_timestamp : Z;
  st_signature : option string;
  st_signer : option string
}.

Definition signing_payload (s : Stamp) : bytes :=
  [byte_of (st_version s)] ++ as_bytes (st_content_hash s) ++ le_bytes 8 (st_size s) ++ le_bytes 8 (st_timestamp s).

(** ** Watermarks ([watermark.rs]) *)

Definition newline : ascii := byte_of 10.
Definition MARKER_START : bytes := newline :: chars "---ORIGIN-PROVENANCE-v1---" ++ [newline].
Definition MARKER_END : bytes := chars "---END-ORIGIN-PROVENANCE---" ++ [newline].

Record Watermark := MkWatermark { wm_content_hash : string; wm_size : Z; wm_timestamp : Z; wm_label : option string }.

Class WatermarkSerde := {
  watermark_to_string : Watermark -> result string string;
  watermark_from_str : string -> result string Watermark
}.

(** ** Directory manifests ([manifest.rs]) *)

Definition MANIFEST_VERSION : Z := 1.

Inductive FileStatus := FileOk | FileModified | FileMissing | FileAdded.

#[global] Instance FileStatus_eq_dec : EqDecision FileStatus.
Proof. solve_decision. Defined.

Record Manifest := MkManifest { mf_version : Z; mf_root : string; mf_created : Z; mf_entries : gmap string Stamp }.

(** What [read_dir] lists below a directory: files, directories, others. *)
#[warnings="-register-all"]
Inductive node := NFile | NDir (entries : list (string * node)) | NOther.

Definition hidden (name : string) : bool := starts_with (chars ".") (chars name).
Definition join_rel (pre name : string) : string := if bool_decide (pre = "") then name else pre +:+ "/" +:+ name.

(** The recursion both scans share: the relative paths of the files, hidden
    names skipped, in the order they are met. *)
Fixpoint walk_node (pre : string) (name : string) (n : node) : list string :=
  if hidden name then []
  else match n with
       | NFile => [join_rel pre name]
       | NDir entries =>
           (fix go (es : list (string * node)) : list string :=
              match es with [] => [] | (x, m) :: es' => walk_node (join_rel pre name) x m ++ go es' end) entries
       | NOther => []
       end.
Definition walk_dir (entries : list (string * node)) : list string :=
  concat (map (fun xm => walk_node "" (fst xm) (snd xm)) entries).

Section Stamps.
Context `{Sdk}.

Definition stamp_new (content : bytes) (timestamp : Z) : Stamp :=
  MkStamp STAMP_VERSION (hex_encode (sha3_256 content)) (Z.of_nat (length content)) timestamp None None.

Definition verify_content (s : Stamp) (content : bytes) : bool :=
  bool_decide (hex_encode (sha3_256 content) = st_content_hash s) && (Z.of_nat (length content) =? st_size s).

Definition watermark_new (content : bytes) (label : option string) (now : Z) : Watermark :=
  MkWatermark (hex_encode (sha3_256 content)) (Z.of_nat (length content)) now label.

Definition watermark_verify (w : Watermark) (original : bytes) : bool :=
  bool_decide (hex_encode (sha3_256 original) = wm_content_hash w) && (Z.of_nat (length original) =? wm_size w).

Context `{WS : WatermarkSerde}.

Definition embed (w : Watermark) (content : bytes) : result ProvenanceError bytes :=
  json ← map_err PvInvalidStamp (watermark_to_string w);
  Ok (content ++ MARKER_START ++ chars json ++ [newline] ++ MARKER_END).

Definition extract (data : bytes) : result ProvenanceError (Watermark * bytes) :=
  match find_window MARKER_START data with
  | None => Err (PvInvalidStamp "no watermark marker found")
  | Some start_pos =>
      let json_start := (start_pos + length MARKER_START)%nat in
      match find_window MARKER_END (drop json_start data) with
      | None => Err (PvInvalidStamp "no watermark end marker")
      | Some k =>
          match from_utf8 (take k (drop json_start data)) with
          | None => Err (PvInvalidStamp "watermark not valid UTF-8: ")
          | Some s =>
              w ← map_err (fun e => PvInvalidStamp ("bad watermark JSON: " +:+ e)) (watermark_from_str (trim s));
              Ok (w, take start_pos data)
          end
      end
  end.

(** [from_utf8_lossy(data).contains(MARKER_START)]. *)
Definition has_watermark (data : bytes) : bool :=
  match find_window MARKER_START (utf8_lossy data) with Some _ => true | None => false end.

(** ** Scanning and checking a directory

    [read rel] and [exists_ rel] are what [dir.join(rel)] reads as. *)

Fixpoint stamp_files (read : string -> result string bytes) (clock : string -> Z) (files : list string)
    (acc : gmap string Stamp) : result ProvenanceError (gmap string Stamp) :=
  match files with
  | [] => Ok acc
  | f :: files' =>
      content ← map_err PvIo (read f);
      stamp_files read clock files' (<[f := stamp_new content (clock f)]> acc)
  end.

Definition scan_dir (dir : string) (created : Z) (read : string -> result string bytes) (clock : string -> Z)
    (entries : list (string * node)) : result ProvenanceError Manifest :=
  es ← stamp_files read clock (walk_dir entries) ∅;
  Ok (MkManifest MANIFEST_VERSION dir created es).

Definition entry_status (read : string -> result string bytes) (exists_ : string -> bool) (rel : string) (s : Stamp)
    : result ProvenanceError FileStatus :=
  if negb (exists_ rel) then Ok FileMissing
  else content ← map_err PvIo (read rel); Ok (if verify_content s content then FileOk else FileModified).

Fixpoint check_entries (read : string -> result string bytes) (exists_ : string -> bool) (es : list (string * Stamp))
    (results : gmap string FileStatus) : result ProvenanceError (gmap string FileStatus) :=
  match es with
  | [] => Ok results
  | (rel, s) :: es' =>
      st ← entry_status read exists_ rel s;
      check_entries read exists_ es' (<[rel := st]> results)
  end.

Definition add_extra (m : Manifest) (files : list string) (results : gmap string FileStatus) : gmap string FileStatus :=
  foldl (fun r f => if bool_decide (mf_entries m !! f = None) && bool_decide (r !! f = None) then <[f := FileAdded]> r else r)
    results files.

Definition verify_dir (m : Manifest) (read : string -> result string bytes) (exists_ : string -> bool)
    (entries : list (string * node)) : result ProvenanceError (gmap string FileStatus) :=
  results ← check_entries read exists_ (map_to_list (mf_entries m)) ∅;
  Ok (add_extra m (walk_dir entries) results).

Definition count_status (st : FileStatus) (results : gmap string FileStatus) : nat :=
  length (List.filter (fun kv => bool_decide (snd kv = st)) (map_to_list results)).
Definition summarize_dir (results : gmap string FileStatus) : nat * nat * nat * nat :=
  (count_status FileOk results, count_status FileModified results, count_status FileMissing results, count_status FileAdded results).

End Stamps.
