(* ===== verification/ProvVerify.v ===== *)
(** * The manifest verifier (origin-provenance/src/verify.rs)

    The check order, the reasons and the outcome.  The file system is a
    record of readings: the bytes of a file or an error, whether a path
    exists, the entries of a directory in the order they are listed.  serde is
    [ProvSerde].  [None] is a panic: of the C2PA reader, or of the
    mountain range, which never happens. *)

From Stdlib Require Import Ascii String.
From S2P Require Import Prelude RustStr Bytes RustText Sdk HashChain Attest Mmr MmrTheory VcsStream C2pa Provenance Stamp.

Record Fs := MkFs {
  fs_read : string -> result string bytes;
  fs_exists : string -> bool;
  fs_dir : string -> result string (list string)
}.

(** [read_to_string]. *)
Definition fs_read_to_string (fs : Fs) (path : string) : result string string :=
  b ← fs_read fs path;
  match from_utf8 b with Some s => Ok s | None => Err "stream did not contain valid UTF-8" end.

Class ProvSerde := {
  opm_from_str : string -> result string Opm;
  anchor_from_str : string -> result string Anchor;
  journal_from_str : string -> result string (list RevocationRecord)
}.

(** ** Outcomes *)

Inductive RevocationStatus :=
| NoJournal
| Clean (records : nat)
| Unreliable (detail : string).

Definition enforceable (s : RevocationStatus) : bool := match s with Clean _ => true | _ => false end.

Record ChunkReport := MkReport { cr_total : nat; cr_matched : nat; cr_first_mismatch : option nat }.

Definition show_nat (n : nat) : string := show_Z (Z.of_nat n).

Definition summarize (r : ChunkReport) : string :=
  match cr_first_mismatch r with
  | None => match cr_total r with
            | O => "chunks: 0 (empty file)"
            | _ => "chunks: " +:+ show_nat (cr_matched r) +:+ "/" +:+ show_nat (cr_total r) +:+ " matched"
            end
  | Some i => "chunks: " +:+ show_nat (cr_matched r) +:+ "/" +:+ show_nat (cr_total r)
              +:+ " matched; first mismatch at chunk " +:+ show_nat i
  end.

Inductive InvalidReason :=
| Unparseable
| NonCanonical
| ContentHash (chunk : option nat)
| History
| HistoryRewind
| MultiSigner
| KeyBinding
| SignerSignature
| Timestamp
| SignerRevoked (journal_tip : Z)
| AttestationBinding
| HeadAnchor.

(** A signed decimal. *)

Definition label (r : InvalidReason) : string :=
  match r with
  | Unparseable => "manifest-invalid (unparseable)"
  | NonCanonical => "manifest-invalid (non-canonical)"
  | ContentHash (Some i) => "manifest-invalid (content-hash: chunk " +:+ show_nat i +:+ ")"
  | ContentHash None => "manifest-invalid (content-hash)"
  | History => "manifest-invalid (history)"
  | HistoryRewind => "manifest-invalid (history-rewind)"
  | MultiSigner => "manifest-invalid (multi-signer)"
  | KeyBinding => "manifest-invalid (key-binding)"
  | SignerSignature => "manifest-invalid (signer-signature)"
  | Timestamp => "manifest-invalid (timestamp)"
  | SignerRevoked tip => "manifest-invalid (signer-revoked, as of journal tip " +:+ show_i64 tip +:+ ")"
  | AttestationBinding => "manifest-invalid (attestation-binding)"
  | HeadAnchor => "manifest-invalid (head-anchor)"
  end.

Record IntactReport := MkIntact {
  in_as_of : Z;
  in_chunk_report : ChunkReport;
  in_self_attestation_flag : bool;
  in_unattested : option (nat * Z);
  in_k_discrepancy : option (Z * Z);
  in_c2pa : C2paAnnotation;
  in_revocation : RevocationStatus;
  in_signer : string;
  in_manifest_id : string
}.

Inductive VerifyOutcome :=
| Intact (r : IntactReport)
| InvalidManifest (reason : InvalidReason) (c2pa : C2paAnnotation)
| NoManifest (sidecar_path : string) (attempts : list string) (c2pa : C2paAnnotation).

Definition outcome_c2pa (v : VerifyOutcome) : C2paAnnotation :=
  match v with Intact r => in_c2pa r | InvalidManifest _ c => c | NoManifest _ _ c => c end.

Definition nl : string := String (ascii_of_nat 10) EmptyString.

Definition headline (v : VerifyOutcome) : string :=
  match v with
  | Intact r => "manifest-intact as of " +:+ show_i64 (in_as_of r)
  | InvalidManifest r _ => label r
  | NoManifest path attempts _ =>
      foldl (fun s a => s +:+ nl +:+ "  " +:+ a) ("no-manifest (no sidecar at " +:+ path +:+ ")") attempts
  end.

(** The footer every verdict carries: what was checked and what was not. *)
Definition footer (v : VerifyOutcome) : string :=
  let base := "checked: canonical edit order, content binding (whole file + chunks), MMR replay at every checkpoint, checkpoint signatures (Ed25519+Falcon), timestamp sanity, attestation binding." in
  let rev := match v with
             | Intact r =>
                 match in_revocation r with
                 | Clean records => " revocation (journal consulted, chain intact: " +:+ show_nat records +:+ " records)."
                 | NoJournal => " revocation NOT checked: no journal found (absence of a journal is not evidence of absence of revocation)."
                 | Unreliable _ => " revocation NOT enforced: journal integrity check failed — revocation status unreliable."
                 end
             | InvalidManifest _ _ => " revocation (not enforced on this failure path)."
             | NoManifest _ _ _ => " revocation (not reached — no manifest found)."
             end in
  let rest := "not checked: metadata (ignored), watermark (hint only), timestamps are signer-asserted not TSA-attested." in
  let body := base +:+ rev +:+ " " +:+ rest in
  match v with
  | Intact r =>
      match in_revocation r with
      | Unreliable detail =>
          "WARNING: journal integrity check failed — revocation status unreliable. (" +:+ detail +:+ ")" +:+ nl +:+ body
      | _ => body
      end
  | _ => body
  end.

Record VerifyPolicy := MkPolicy {
  vp_now : option Z;
  vp_max_future_skew_secs : Z;
  vp_required_k : option Z;
  vp_allow_roster : option (list string);
  vp_journal_path : option string;
  vp_expected_manifest_id : option bytes;
  vp_expected_leaf_count : option Z;
  vp_anchor : option Anchor
}.
Definition default_verify_policy : VerifyPolicy := MkPolicy None 2 None None None None None None.

Record ThresholdResult := MkThreshold {
  th_self_attestation : bool;
  th_unattested : option (nat * Z);
  th_k_discrepancy : option (Z * Z)
}.

(** [{:?}] of a vector of indices. *)
Definition show_indices (l : list nat) : string := "[" +:+ join_with ", " (map show_nat l) +:+ "]".

(** [lines], trimmed, without blanks and comments. *)
Definition roster_lines (text : string) : list string :=
  List.filter (fun l => negb (bool_decide (l = "")) && negb (starts_with (chars "#") (chars l)))
    (map (fun l => trim (of_chars l)) (lines (chars text))).
Definition load_roster (path : string) (read : result string string) : result string (list string) :=
  text ← map_err (fun e => "read roster " +:+ path +:+ ": " +:+ e) read;
  let fps := roster_lines text in
  if bool_decide (fps = []) then Err ("roster file " +:+ path +:+ " is empty (one fingerprint hex per line)") else Ok fps.

Section Verify.
Context `{PV : ProvOps, AC : AttestCrypto, SE : ProvSerde, WS : WatermarkSerde}.

Definition load_sibling_anchor (fs : Fs) (asset : string) : result string (option Anchor) :=
  let sibling := asset +:+ ".anchor" in
  match fs_read_to_string fs sibling with
  | Ok text => map_err (fun e => "parse anchor " +:+ sibling +:+ ": " +:+ e) (a ← anchor_from_str text; Ok (Some a))
  | Err _ => Ok None
  end.

Definition opm_load (fs : Fs) (path : string) : result ProvenanceError Opm :=
  text ← map_err PvIo (fs_read_to_string fs path);
  map_err (fun e => PvInvalidManifest ("unparseable manifest: " +:+ e)) (opm_from_str text).

(** ** Revocation journal *)

Definition revocation_target (fingerprint_hex : string) : bytes := sha3_256 (as_bytes fingerprint_hex).

Definition attest_error_display (e : AttestError) : string :=
  match e with ChainBroken i => "chain broken at index " +:+ show_nat i | _ => "" end.

Definition load_journal (fs : Fs) (path : string) : list RevocationRecord * RevocationStatus :=
  match fs_read_to_string fs path with
  | Err _ => ([], NoJournal)
  | Ok text =>
      match journal_from_str text with
      | Err e => ([], Unreliable ("journal unparseable: " +:+ e))
      | Ok journal =>
          match revocation_verify_integrity journal with
          | Err e => (journal, Unreliable ("journal chain broken: " +:+ attest_error_display e))
          | Ok _ =>
              let bad := verify_signatures journal in
              if negb (bool_decide (bad = []))
              then (journal, Unreliable ("journal record signature(s) invalid at index(es) " +:+ show_indices bad))
              else (journal, Clean (length journal))
          end
      end
  end.

Definition default_journal_path (asset : string) : string := sibling asset "revocations.json".
Definition journal_tip_time (journal : list RevocationRecord) : option Z := rv_timestamp <$> last journal.

(** ** The checks *)

Definition keys_for (expected_fp : string) (embedded : option SignerKeys) (roster : option (list string))
    : result InvalidReason SignerKeys :=
  if match roster with Some l => negb (bool_decide (expected_fp ∈ l)) | None => false end then Err KeyBinding
  else
    match embedded with
    | None => Err KeyBinding
    | Some keys =>
        ed ← map_err (fun _ => KeyBinding) (decode32 (sk_ed25519_pk keys));
        falcon ← map_err (fun _ => KeyBinding) (hex_decode (sk_falcon_pk keys));
        recomputed ← map_err (fun _ => KeyBinding) (signer_fingerprint ed falcon);
        if bool_decide (hex_encode recomputed = expected_fp) then Ok keys else Err KeyBinding
    end.

Definition check_structure (o : Opm) : result InvalidReason unit :=
  if forallb (fun ie => ed_index (snd ie) =? Z.of_nat (fst ie)) (zip (seq 0 (length (opm_edits o))) (opm_edits o))
  then Ok tt else Err NonCanonical.

(** The report against a stored list of chunk hashes. *)
Definition chunk_report (data : bytes) (chunk_size : Z) (stored : list string) : ChunkReport :=
  let computed := chunk_hashes data chunk_size in
  MkReport (length computed)
    (length (List.filter (fun ab => bool_decide (fst ab = snd ab)) (zip computed stored)))
    (position (fun ab => negb (bool_decide (fst ab = snd ab))) (zip computed stored)).

Definition content_matches (o : Opm) (edit : Edit) (data : bytes) : bool :=
  bool_decide (hex_encode (chunk_tree_root data (opm_chunk_size o)) = co_chunk_tree_root (ed_content edit))
  && bool_decide (hex_encode (whole_file_hash data) = co_whole_file_hash (ed_content edit)).

(** [check_content]: a report on success, a reason on failure; [data] is the
    override, or what was read. *)
Definition check_content (o : Opm) (data : result string bytes) : result InvalidReason ChunkReport :=
  data ← map_err (fun _ => ContentHash None) data;
  match last (opm_edits o) with
  | None => Err History
  | Some edit =>
      match ed_chunk_hashes edit with
      | Some stored =>
          let rep := chunk_report data (opm_chunk_size o) stored in
          if content_matches o edit data then Ok rep else Err (ContentHash (cr_first_mismatch rep))
      | None => if content_matches o edit data then Ok (MkReport 0 0 None) else Err (ContentHash None)
      end
  end.

Definition hist {A E : Type} (r : result E A) : result InvalidReason A := map_err (fun _ => History) r.

(** The scan of amendment H. *)
Fixpoint scan_checkpoints (last_leaf_count last_ts : option Z) (cps : list Checkpoint) : result InvalidReason unit :=
  match cps with
  | [] => Ok tt
  | cp :: cps' =>
      if match last_leaf_count with Some prev => cp_leaf_count cp <=? prev | None => false end then Err HistoryRewind
      else if match last_ts with Some prev => cp_timestamp cp <=? prev | None => false end then Err History
      else scan_checkpoints (Some (cp_leaf_count cp)) (Some (cp_timestamp cp)) cps'
  end.

Definition replayed_leaf (asset_id : bytes) (e : Edit) : result InvalidReason bytes :=
  ctr ← hist (decode32 (co_chunk_tree_root (ed_content e)));
  wfh ← hist (decode32 (co_whole_file_hash (ed_content e)));
  Ok (edit_leaf (ed_index e) (action_u8 (ed_action e)) ctr wfh asset_id).

(** The replay; the number of edits replayed, or a reason. *)
Fixpoint replay_edits (cps : list Checkpoint) (asset_id : bytes) (mmr : MmrState) (replayed : Z) (edits : list Edit)
    : option (result InvalidReason Z) :=
  match edits with
  | [] => Some (Ok replayed)
  | e :: edits' =>
      match replayed_leaf asset_id e with
      | Err r => Some (Err r)
      | Ok leaf =>
          mmr ← append_hash mmr leaf;
          let replayed := replayed + 1 in
          rt ← root mmr;
          if existsb (fun cp => (cp_leaf_count cp =? replayed) && negb (bool_decide (hex_encode rt = cp_mmr_root cp))) cps
          then Some (Err History)
          else replay_edits cps asset_id mmr replayed edits'
      end
  end.

Definition check_mmr_history (o : Opm) : option (result InvalidReason unit) :=
  match opm_checkpoints o with
  | [] => Some (Err History)
  | first :: _ =>
      if existsb (fun cp => negb (bool_decide (cp_signer_fingerprint cp = cp_signer_fingerprint first))) (opm_checkpoints o)
      then Some (Err MultiSigner)
      else
        match scan_checkpoints None None (opm_checkpoints o) with
        | Err r => Some (Err r)
        | Ok _ =>
            match opm_edits o with
            | [] => Some (Err History)
            | e0 :: _ =>
                match hist (decode32 (co_whole_file_hash (ed_content e0))) with
                | Err r => Some (Err r)
                | Ok first_wfh =>
                    let asset_id := asset_id_of first_wfh in
                    res ← replay_edits (opm_checkpoints o) asset_id mmr_new 0 (opm_edits o);
                    Some (replayed ← res;
                          if existsb (fun cp => replayed <? cp_leaf_count cp) (opm_checkpoints o) then Err History
                          else if match last (opm_checkpoints o) with Some l => negb (cp_leaf_count l =? replayed) | None => true end
                          then Err History
                          else if negb (bool_decide (hex_encode asset_id = opm_asset_id o)) then Err History
                          else Ok tt)
                end
            end
        end
  end.

(** Both halves of a signature over [payload], with the keys that recompute to
    the fingerprint. *)
Definition check_signature (bad : InvalidReason) (keys : SignerKeys) (key_bad : InvalidReason)
    (payload : result InvalidReason bytes) (signature : string) : result InvalidReason unit :=
  ed ← map_err (fun _ => key_bad) (decode32 (sk_ed25519_pk keys));
  falcon ← map_err (fun _ => key_bad) (hex_decode (sk_falcon_pk keys));
  payload ← payload;
  sig ← map_err (fun _ => bad) (hybrid_sig_from_base64 signature);
  if hybrid_verify sig ed falcon payload then Ok tt else Err bad.

Definition check_checkpoint (roster : option (list string)) (cp : Checkpoint) : result InvalidReason unit :=
  keys ← keys_for (cp_signer_fingerprint cp) (cp_keys cp) roster;
  check_signature SignerSignature keys KeyBinding
    (root ← hist (decode32 (cp_mmr_root cp));
     fp ← hist (decode32 (cp_signer_fingerprint cp));
     Ok (checkpoint_payload_input (cp_leaf_count cp) root (cp_timestamp cp) fp))
    (cp_signature cp).

Fixpoint check_checkpoint_signatures (roster : option (list string)) (cps : list Checkpoint) : result InvalidReason unit :=
  match cps with
  | [] => Ok tt
  | cp :: cps' => _ ← check_checkpoint roster cp; check_checkpoint_signatures roster cps'
  end.

Definition check_attestation (o : Opm) (id : bytes) (roster : option (list string)) (att : Attestation)
    : result InvalidReason unit :=
  keys ← keys_for (at_fingerprint att) (at_keys att) roster;
  check_signature AttestationBinding keys AttestationBinding
    (match last (opm_checkpoints o) with
     | None => Err History
     | Some cp => root ← hist (decode32 (cp_mmr_root cp)); Ok (attestation_payload_input id (cp_leaf_count cp) root)
     end)
    (at_signature att).

(** The loop of [check_attestations]: the distinct attestors. *)
Fixpoint attest_loop (o : Opm) (id : bytes) (revoked : list string) (roster : option (list string)) (distinct : list string)
    (atts : list Attestation) : result InvalidReason (list string) :=
  match atts with
  | [] => Ok distinct
  | att :: atts' =>
      _ ← check_attestation o id roster att;
      let fp := at_fingerprint att in
      let distinct := if bool_decide (fp ∈ distinct) || bool_decide (fp ∈ revoked) then distinct else distinct ++ [fp] in
      attest_loop o id revoked roster distinct atts'
  end.

Definition check_attestations (o : Opm) (required_k : option Z) (revoked : list string) (roster : option (list string))
    : result InvalidReason ThresholdResult :=
  match opm_attestations o with
  | [] => Ok (MkThreshold false ((fun k => (O, k)) <$> required_k) None)
  | atts =>
      id ← map_err (fun _ => AttestationBinding) (manifest_id o);
      distinct ← attest_loop o id revoked roster [] atts;
      Ok (MkThreshold
            (match opm_checkpoints o with c :: _ => bool_decide (cp_signer_fingerprint c ∈ distinct) | [] => false end)
            (match required_k with
             | Some k => if (Z.of_nat (length distinct) <? k) then Some (length distinct, k) else None
             | None => None
             end)
            (match opm_threshold o, required_k with
             | Some issuer, Some auth => if issuer =? auth then None else Some (issuer, auth)
             | _, _ => None
             end))
  end.

(** ** Verification *)

Definition annotate_asset (fs : Fs) (asset : string) : option C2paAnnotation :=
  match fs_read fs asset with
  | Ok data => store ← extract_store data (Some asset); annotate store
  | Err _ => Some no_annotation
  end.

Definition is_err {E A : Type} (r : result E A) : option E := match r with Err e => Some e | Ok _ => None end.

(** The annotation and the journal apart: steps 3 to 8 over a manifest. *)
Definition verify_steps (o : Opm) (policy : VerifyPolicy) (content : result string bytes) (system_now : Z)
    (journal : list RevocationRecord) (status : RevocationStatus) (ann : C2paAnnotation)
    : option (result InvalidReason IntactReport) :=
  match check_content o content with
  | Err r => Some (Err r)
  | Ok report =>
      history ← check_mmr_history o;
      Some (
        _ ← history;
        id ← hist (manifest_id o);
        if match vp_expected_manifest_id policy with Some x => negb (bool_decide (id = x)) | None => false end then Err History
        else if match vp_expected_leaf_count policy with Some n => Z.of_nat (length (opm_edits o)) <? n | None => false end
        then Err History
        else
          _ ← check_checkpoint_signatures (vp_allow_roster policy) (opm_checkpoints o);
          let now := default system_now (vp_now policy) in
          if existsb (fun c => wrap_i64 (now + vp_max_future_skew_secs policy) <? cp_timestamp c) (opm_checkpoints o)
          then Err Timestamp
          else if enforceable status
               && existsb (fun c => is_revoked journal (revocation_target (cp_signer_fingerprint c))) (opm_checkpoints o)
          then Err (SignerRevoked (default 0 (journal_tip_time journal)))
          else if match vp_anchor policy with
                  | Some a => negb (match verify_anchor a o with Ok b => b | Err _ => false end)
                  | None => false
                  end
          then Err HeadAnchor
          else
            let revoked := if enforceable status
                           then List.filter (fun fp => is_revoked journal (revocation_target fp)) (map at_fingerprint (opm_attestations o))
                           else [] in
            th ← check_attestations o (vp_required_k policy) revoked (vp_allow_roster policy);
            let latest := cp_timestamp <$> last (opm_checkpoints o) in
            let as_of := match journal_tip_time journal, status with
                         | Some _, NoJournal | None, _ => default 0 latest
                         | Some tip, _ => match latest with Some t => Z.min t tip | None => tip end
                         end in
            Ok (MkIntact as_of report (th_self_attestation th) (th_unattested th) (th_k_discrepancy th) ann status
                  (match last (opm_checkpoints o) with Some c => cp_signer_fingerprint c | None => "" end)
                  (hex_encode id)))
  end.

Definition verify_loaded (fs : Fs) (system_now : Z) (asset : string) (o : Opm) (policy : VerifyPolicy)
    (content_bytes : option bytes) : option VerifyOutcome :=
  ann ← annotate_asset fs asset;
  let '(journal, status) := load_journal fs (default (default_journal_path asset) (vp_journal_path policy)) in
  r ← verify_steps o policy (match content_bytes with Some b => Ok b | None => fs_read fs asset end)
        system_now journal status ann;
  Some (match r with Ok report => Intact report | Err reason => InvalidManifest reason ann end).

Definition verify_parsed (fs : Fs) (system_now : Z) (asset : string) (o : Opm) (policy : VerifyPolicy)
    (content_bytes : option bytes) : option VerifyOutcome :=
  if negb (opm_version o =? OPM_VERSION) then InvalidManifest Unparseable <$> annotate_asset fs asset
  else match check_structure o with
       | Err reason => InvalidManifest reason <$> annotate_asset fs asset
       | Ok _ => verify_loaded fs system_now asset o policy content_bytes
       end.

Definition verify_opm (fs : Fs) (system_now : Z) (asset : string) (sidecar : option string) (policy : VerifyPolicy)
    : option VerifyOutcome :=
  let path := default (sidecar_path asset) sidecar in
  if negb (fs_exists fs path) then NoManifest path [] <$> annotate_asset fs asset
  else match opm_load fs path with
       | Err _ => InvalidManifest Unparseable <$> annotate_asset fs asset
       | Ok o => verify_parsed fs system_now asset o policy None
       end.

(** ** Discovery *)

(** [asset.parent()] as a path. *)
Definition parent_dir (asset : string) : string :=
  match rsplit_once slash (chars asset) with
  | Some ([], _) => "/"
  | Some (d, _) => of_chars d
  | None => ""
  end.

(** One entry of the directory: a candidate or not, with what is logged. *)
Definition candidate (fs : Fs) (asset : string) (asset_hash original_hash : string) (p : string) : bool * list string :=
  if negb (bool_decide (extension p = Some (chars "opm"))) || bool_decide (p = sidecar_path asset) then (false, [])
  else match opm_load fs p with
       | Err _ => (false, ["discovery: sibling " +:+ p +:+ " unreadable — skipped"])
       | Ok o =>
           match opm_edits o with
           | [] => (false, [])
           | first :: _ =>
               let fh := co_whole_file_hash (ed_content first) in
               (bool_decide (fh = asset_hash) || bool_decide (fh = original_hash), [])
           end
       end.

(** [watermark_candidates]: the candidates, the embedded original, and
    what is appended to the attempts. *)
Definition watermark_candidates (fs : Fs) (asset : string) (data : bytes) : list string * option bytes * list string :=
  match extract data with
  | Err _ => ([], None, ["discovery: no watermark marker found"])
  | Ok (wm, original) =>
      let log0 := if watermark_verify wm original then []
                  else ["discovery: watermark found but its hash does not match the embedded original (stripped or re-saved after watermarking) — no candidate from it"] in
      match fs_dir fs (parent_dir asset) with
      | Err _ => ([], Some original, log0)
      | Ok entries =>
          let verdicts := map (fun p => (p, candidate fs asset (hex_encode (blake3 data)) (hex_encode (blake3 original)) p)) entries in
          let candidates := map fst (List.filter (fun v => fst (snd v)) verdicts) in
          let log1 := log0 ++ concat (map (fun v => snd (snd v)) verdicts) in
          let log2 := if bool_decide (candidates = [])
                      then ["discovery: watermark found but no sibling manifest matches its content"] else [] in
          (candidates, Some original, log1 ++ log2)
      end
  end.

(** Whether the manifest binds the embedded original. *)
Definition matched_via_original (original : option bytes) (o : Opm) : bool :=
  match original, opm_edits o with
  | Some orig, e :: _ => bool_decide (co_whole_file_hash (ed_content e) = hex_encode (blake3 orig))
  | _, _ => false
  end.

Definition verify_discover (fs : Fs) (system_now : Z) (asset : string) (policy : VerifyPolicy) : option VerifyOutcome :=
  let default_path := sidecar_path asset in
  if fs_exists fs default_path then verify_opm fs system_now asset (Some default_path) policy
  else
    let attempts := ["discovery: no sidecar at " +:+ default_path] in
    match fs_read fs asset with
    | Err _ => NoManifest default_path (attempts ++ ["discovery: asset unreadable"]) <$> annotate_asset fs asset
    | Ok data =>
        annotation ← annotate_asset fs asset;
        let '(candidates, original, log) := watermark_candidates fs asset data in
        let attempts := attempts ++ log in
        match candidates with
        | [] => Some (NoManifest default_path attempts annotation)
        | [p] =>
            let attempts := attempts ++ ["discovery: watermark hint matched " +:+ p +:+ " (candidate, not trust)"] in
            match opm_load fs p with
            | Err _ => Some (NoManifest p (attempts ++ ["discovery: candidate manifest unreadable"]) annotation)
            | Ok o =>
                let via := matched_via_original original o in
                let attempts := if via
                  then attempts ++ ["discovery: content verified against watermark-embedded original (hint-qualified; watermark is not a trust signal)"]
                  else attempts in
                out ← verify_parsed fs system_now asset o policy (if via then original else None);
                Some (match out with
                      | NoManifest _ all c2pa => NoManifest p (attempts ++ all) c2pa
                      | other => other
                      end)
            end
        | _ => Some (NoManifest default_path
                 (attempts ++ ["discovery: multiple watermark candidates — refusing to guess (use --sidecar)"]) annotation)
        end
    end.

End Verify.
