(* ===== verification/ProvProps.v ===== *)
(** * What provenance manifests guarantee

    The mountain range binds its leaves; a manifest authored by one signer
    verifies; an accepted head determines the history and the bytes; head
    anchors; what the verifier does not look at. *)

From Stdlib Require Import Ascii String.
From S2P Require Import Prelude RustStr Bytes RustText Sdk Event HashChain Attest Mmr MmrTheory VcsMmr VcsStream.
From S2P Require Import C2pa Provenance Stamp ProvVerify.

(** ** Roots of equally long ranges *)

Section Range.
Context `{SK : Sdk, HX : !HexOk, HO : !HashOk}.

Definition grow (ls : list bytes) : list tree := foldl forest_insert [] ls.
Definition range_root (ls : list bytes) : bytes := fold_peaks 3 (map (thash 3) (grow ls)).
Definition range (ls : list bytes) : MmrState := repr 3 (grow ls).

Lemma grow_ok (ls : list bytes) : Forall len32 ls -> forest_ok (grow ls) /\ forest_leaves (grow ls) = ls.
Proof.
  induction ls as [|l ls IH] using rev_ind; [done|]. rewrite Forall_app, Forall_cons. intros (Hls & Hl & _).
  destruct (IH Hls) as [Hok El]. unfold grow in *. rewrite foldl_snoc. split; [by apply forest_insert_ok|].
  by rewrite forest_insert_leaves, El.
Qed.

Lemma range_new : range [] = mmr_new.
Proof. done. Qed.

Lemma range_snoc (ls : list bytes) (l : bytes) :
  Forall len32 ls -> len32 l -> append_hash (range ls) l = Some (range (ls ++ [l])).
Proof.
  intros Hls Hl. unfold range. rewrite append_hash_repr; [|by apply grow_ok|done]. unfold grow. by rewrite foldl_snoc.
Qed.

Lemma append_all_range (ks ls : list bytes) :
  Forall len32 ks -> Forall len32 ls -> append_all (range ks) ls = Some (range (ks ++ ls)).
Proof.
  revert ks. induction ls as [|l ls IH]; intros ks Hks Hls; [by rewrite app_nil_r|].
  apply Forall_cons in Hls as [Hl Hls]. cbn [append_all]. rewrite range_snoc by done. cbn [mbind option_bind].
  rewrite IH, <- app_assoc; [done| |done]. by rewrite Forall_app, Forall_cons.
Qed.

Lemma root_range (ls : list bytes) : Forall len32 ls -> root (range ls) = Some (range_root ls).
Proof. intros Hls. apply root_repr. by apply grow_ok. Qed.

Lemma range_count (ls : list bytes) : Forall len32 ls -> leaf_count (range ls) = length ls.
Proof. intros Hls. cbn. by rewrite (proj2 (grow_ok ls Hls)). Qed.

Lemma range_root_len (ls : list bytes) : Forall len32 ls -> length (range_root ls) = 32%nat.
Proof.
  intros Hls. destruct (grow_ok ls Hls) as [Hok _]. pose proof (peaks_length 3 _ Hok) as Hp. unfold range_root.
  destruct (map (thash 3) (grow ls)) as [|p ps]; [done|]. cbn [fold_peaks].
  destruct ps as [|q ps _] using rev_ind; [by apply Forall_inv in Hp|]. rewrite foldl_snoc. apply node_hash_length.
Qed.

Lemma forest_insert_shape (ts : list tree) (l : bytes) :
  map shape (forest_insert ts l) = forest_insert (map shape ts) [].
Proof. unfold forest_insert. by rewrite map_rev, insert_rev_shape, map_rev. Qed.

Lemma grow_shape (ls ks : list bytes) : length ls = length ks -> map shape (grow ls) = map shape (grow ks).
Proof.
  revert ks. induction ls as [|l ls IH] using rev_ind; intros ks E.
  - by destruct ks.
  - destruct ks as [|k ks _] using rev_ind; rewrite !length_app in E; cbn in E; [lia|]. unfold grow in *.
    rewrite !foldl_snoc, !forest_insert_shape. by rewrite (IH ks ltac:(lia)).
Qed.

Lemma thash_inj (t u : tree) :
  shape t = shape u -> perfect t -> perfect u -> thash 3 t = thash 3 u -> leaves t = leaves u \/ collision blake3.
Proof.
  revert u. induction t as [h|t1 IH1 t2 IH2]; intros [k|u1 u2] Hs Ht Hu E; try done; cbn [thash shape leaves perfect] in *.
  - left. by rewrite E.
  - injection Hs as Hs1 Hs2. destruct Ht as (Ht1 & Ht2 & _), Hu as (Hu1 & Hu2 & _).
    apply node_hash_inj in E as [[E1 E2]|]; [|by right|by rewrite !thash_length].
    destruct (IH1 u1 Hs1 Ht1 Hu1 E1) as [->|]; [|by right]. destruct (IH2 u2 Hs2 Ht2 Hu2 E2) as [->|]; [by left|by right].
Qed.

Lemma trees_inj (ts us : list tree) :
  map shape ts = map shape us -> forest_ok ts -> forest_ok us -> map (thash 3) ts = map (thash 3) us ->
  forest_leaves ts = forest_leaves us \/ collision blake3.
Proof.
  revert us. induction ts as [|t ts IH]; intros [|u us] Hs Ht Hu E; try done; [by left|].
  cbn [map forest_ok] in *. injection Hs as Hs Hss. injection E as E Es. destruct Ht as (Ht & _ & Hts), Hu as (Hu & _ & Hus).
  destruct (thash_inj t u Hs Ht Hu E) as [Et|]; [|by right]. destruct (IH us Hss Hts Hus Es) as [Er|]; [left|by right].
  unfold forest_leaves in *. cbn. by rewrite Et, Er.
Qed.

(** Equal roots of equally long ranges: equal leaves, or a collision. *)
Lemma range_root_binds (ls ks : list bytes) :
  length ls = length ks -> Forall len32 ls -> Forall len32 ks -> range_root ls = range_root ks -> ls = ks \/ collision blake3.
Proof.
  intros Hn Hl Hk E. destruct (grow_ok ls Hl) as [Ol Ll], (grow_ok ks Hk) as [Ok Lk].
  pose proof (grow_shape ls ks Hn) as Hs. pose proof (f_equal length Hs) as Hsn. rewrite !length_map in Hsn.
  assert (map (thash 3) (grow ls) = map (thash 3) (grow ks) \/ collision blake3) as [Et|]; [|idtac|by right].
  { unfold range_root in E. pose proof (peaks_length 3 _ Ol) as Pl. pose proof (peaks_length 3 _ Ok) as Pk.
    destruct (grow ls) as [|t ts], (grow ks) as [|u us]; try done; [by left|]. cbn [map fold_peaks] in *.
    injection Hsn as Hsn. by apply (foldl_binding 3); [rewrite !length_map|..]. }
  destruct (trees_inj _ _ Hs Ol Ok Et) as [El|]; [left|by right]. by rewrite <- Ll, <- Lk.
Qed.

End Range.

(** ** The history check *)

Section History.
Context `{SK : Sdk, PV : !ProvOps, HX : !HexOk, HO : !HashOk}.

Lemma decode32_encode (b : bytes) : length b = 32%nat -> decode32 (hex_encode b) = Ok b.
Proof. intros E. unfold decode32. rewrite hex_roundtrip. cbn [map_err mbind result_mbind]. by rewrite E. Qed.

Lemma decode32_len (s : string) (b : bytes) : decode32 s = Ok b -> length b = 32%nat.
Proof.
  unfold decode32. destruct (hex_decode s) as [c|e]; cbn; [|done].
  destruct (Nat.eqb_spec (length c) 32); [|done]. congruence.
Qed.

Definition replays (aid : bytes) : Edit -> bytes -> Prop := fun e l => replayed_leaf aid e = Ok l.

Lemma replays_len (aid : bytes) (e : Edit) (l : bytes) : replays aid e l -> len32 l.
Proof.
  unfold replays, replayed_leaf, hist. intros E. apply result_bind_Ok in E as (ctr & _ & E).
  apply result_bind_Ok in E as (w & _ & E). injection E as <-. apply blake3_len.
Qed.

Lemma replays_len32 (aid : bytes) (es : list Edit) (ls : list bytes) : Forall2 (replays aid) es ls -> Forall len32 ls.
Proof. induction 1; constructor; [by eapply replays_len|done]. Qed.

(** Every checkpoint at a length reached by [ls] after [pre] has the root there. *)
Definition roots_match (cps : list Checkpoint) (pre ls : list bytes) : Prop :=
  forall cp k, cp ∈ cps -> (0 < k <= length ls)%nat -> cp_leaf_count cp = Z.of_nat (length pre + k) ->
    cp_mmr_root cp = hex_encode (range_root (pre ++ take k ls)).

Lemma roots_match_cons (cps : list Checkpoint) (pre ls : list bytes) (l : bytes) :
  roots_match cps pre (l :: ls) <->
  (forall cp, cp ∈ cps -> cp_leaf_count cp = Z.of_nat (length pre) + 1 -> cp_mmr_root cp = hex_encode (range_root (pre ++ [l]))) /\
  roots_match cps (pre ++ [l]) ls.
Proof.
  split.
  - intros Hr. split.
    + intros cp Hcp E. apply (Hr cp 1%nat Hcp); [cbn; lia|lia].
    + intros cp k Hcp Hk E. rewrite <- app_assoc. apply (Hr cp (S k) Hcp); [cbn; lia|].
      rewrite length_app in E. cbn in E. lia.
  - intros [H1 H2] cp k Hcp Hk E. destruct k as [|[|k]]; [lia|by apply H1; [done|lia]|].
    change (take (S (S k)) (l :: ls)) with ([l] ++ take (S k) ls). rewrite (app_assoc pre [l]). apply (H2 cp (S k) Hcp); [cbn in *; lia|].
    rewrite length_app. cbn. lia.
Qed.

Lemma existsb_false {A : Type} (f : A -> bool) (l : list A) : existsb f l = false <-> forall x, x ∈ l -> f x = false.
Proof.
  induction l as [|a l IH]; cbn; [split; [intros _ x Hx; by apply elem_of_nil in Hx|done]|].
  rewrite orb_false_iff, IH. split.
  - intros [Ha Hl] x [->|Hx]%elem_of_cons; [done|by apply Hl].
  - intros Hl. split; [by apply Hl, elem_of_cons; left|]. intros x Hx. apply Hl, elem_of_cons. by right.
Qed.

Lemma replay_spec (cps : list Checkpoint) (aid : bytes) (edits : list Edit) (pre : list bytes) (m : Z) :
  Forall len32 pre ->
  replay_edits cps aid (range pre) (Z.of_nat (length pre)) edits = Some (Ok m) <->
  exists ls, Forall2 (replays aid) edits ls /\ m = Z.of_nat (length pre + length ls) /\ roots_match cps pre ls.
Proof.
  revert pre m. induction edits as [|e edits IH]; intros pre m Hpre; cbn [replay_edits].
  - split.
    + intros [= <-]. exists []. split; [constructor|]. split; [cbn; f_equal; lia|]. intros cp k _ Hk. cbn in Hk. lia.
    + intros (ls & Hf & -> & _). apply Forall2_nil_inv_l in Hf as ->. cbn. do 3 f_equal. lia.
  - destruct (replayed_leaf aid e) as [l|r] eqn:El.
    2: { split; [done|]. intros (ls & Hf & _). apply Forall2_cons_inv_l in Hf as (l & ls' & Hl & _). unfold replays in Hl. congruence. }
    assert (len32 l) as Hl by (by apply (replays_len aid e)).
    rewrite range_snoc by done. cbn [mbind option_bind]. rewrite root_range by (by rewrite Forall_app, Forall_cons).
    cbn [mbind option_bind].
    replace (Z.of_nat (length pre) + 1) with (Z.of_nat (length (pre ++ [l]))) by (rewrite length_app; cbn; lia).
    assert (forall cp, (cp_leaf_count cp =? Z.of_nat (length (pre ++ [l]))) &&
              negb (bool_decide (hex_encode (range_root (pre ++ [l])) = cp_mmr_root cp)) = false <->
            (cp_leaf_count cp = Z.of_nat (length pre) + 1 -> cp_mmr_root cp = hex_encode (range_root (pre ++ [l])))) as Hcp.
    { intros cp. rewrite length_app. cbn [length]. destruct (Z.eqb_spec (cp_leaf_count cp) (Z.of_nat (length pre + 1))); cbn [andb].
      - case_bool_decide as Hd; cbn [negb]; (split; [|]).
        + intros _ _. done.
        + done.
        + done.
        + intros Hi. exfalso. apply Hd. symmetry. apply Hi. lia.
      - split; [|done]. intros _ ?. lia. }
    destruct (existsb _ cps) eqn:Ex.
    + split; [done|]. intros (ls & Hf & _ & Hr). apply Forall2_cons_inv_l in Hf as (l' & ls' & Hl' & _ & ->).
      unfold replays in Hl'. assert (l' = l) as -> by congruence. apply roots_match_cons in Hr as [H1 _].
      apply not_false_iff_true in Ex. exfalso. apply Ex. apply existsb_false. intros cp Hc. apply Hcp. intros E. by apply H1.
    + rewrite existsb_false in Ex. rewrite IH by (by rewrite Forall_app, Forall_cons). split.
      * intros (ls & Hf & -> & Hr). exists (l :: ls). split; [by constructor|]. split; [rewrite length_app; cbn; lia|].
        apply roots_match_cons. split; [|done]. intros cp Hc. by apply Hcp, Ex.
      * intros (ls & Hf & -> & Hr). apply Forall2_cons_inv_l in Hf as (l' & ls' & Hl' & Hf & ->).
        unfold replays in Hl'. assert (l' = l) as -> by congruence. apply roots_match_cons in Hr as [_ Hr].
        exists ls'. split; [done|]. split; [rewrite length_app; cbn; lia|done].
Qed.

(** What an accepted history is. *)
Record history_ok (o : Opm) (aid : bytes) (ls : list bytes) : Prop := {
  hi_first : exists e0 w, head (opm_edits o) = Some e0 /\ decode32 (co_whole_file_hash (ed_content e0)) = Ok w /\ aid = asset_id_of w;
  hi_asset : hex_encode aid = opm_asset_id o;
  hi_leaves : Forall2 (replays aid) (opm_edits o) ls;
  hi_signer : exists cp, head (opm_checkpoints o) = Some cp /\
                Forall (fun c => cp_signer_fingerprint c = cp_signer_fingerprint cp) (opm_checkpoints o);
  hi_scan : scan_checkpoints None None (opm_checkpoints o) = Ok tt;
  hi_roots : roots_match (opm_checkpoints o) [] ls;
  hi_bound : Forall (fun c => cp_leaf_count c <= Z.of_nat (length ls)) (opm_checkpoints o);
  hi_head : exists c, last (opm_checkpoints o) = Some c /\ cp_leaf_count c = Z.of_nat (length ls)
}.

Lemma check_mmr_history_iff (o : Opm) :
  check_mmr_history o = Some (Ok tt) <-> exists aid ls, history_ok o aid ls.
Proof.
  unfold check_mmr_history. destruct (opm_checkpoints o) as [|first cps] eqn:Ec.
  { split; [done|]. intros (aid & ls & H). destruct (hi_signer _ _ _ H) as (cp & E & _). by rewrite Ec in E. }
  rewrite <- Ec. destruct (existsb _ (opm_checkpoints o)) eqn:Es.
  { split; [done|]. intros (aid & ls & H). destruct (hi_signer _ _ _ H) as (cp & E & Hf). rewrite Ec in E. injection E as <-.
    apply not_false_iff_true in Es. exfalso. apply Es. apply existsb_false. intros c Hc. rewrite Forall_forall in Hf.
    rewrite bool_decide_eq_true_2; [done|by apply Hf]. }
  rewrite existsb_false in Es. destruct (scan_checkpoints None None (opm_checkpoints o)) as [[]|r] eqn:Esc.
  2: { split; [done|]. intros (aid & ls & H). pose proof (hi_scan _ _ _ H). congruence. }
  destruct (opm_edits o) as [|e0 edits] eqn:Ee.
  { split; [done|]. intros (aid & ls & H). destruct (hi_first _ _ _ H) as (e & w & E & _). by rewrite Ee in E. }
  rewrite <- Ee. destruct (decode32 (co_whole_file_hash (ed_content e0))) as [w|r] eqn:Ew; cbn [hist map_err].
  2: { split; [done|]. intros (aid & ls & H). destruct (hi_first _ _ _ H) as (e & w & E & Ew' & _). rewrite Ee in E.
       injection E as <-. congruence. }
  set (aid := asset_id_of w). change mmr_new with (range []). change 0 with (Z.of_nat (length (@nil bytes))).
  pose proof (replay_spec (opm_checkpoints o) aid (opm_edits o) []) as Hrep. split.
  - destruct (replay_edits _ _ _ _ _) as [[m|r]|] eqn:Er; cbn [mbind option_bind result_mbind]; [|done..].
    destruct (proj1 (Hrep m ltac:(constructor)) eq_refl) as (ls & Hls & -> & Hroots). cbn [length Nat.add] in *.
    destruct (existsb _ (opm_checkpoints o)) eqn:Eb; [done|]. rewrite existsb_false in Eb.
    destruct (last (opm_checkpoints o)) as [c|] eqn:El; [|done]. destruct (Z.eqb_spec (cp_leaf_count c) (Z.of_nat (length ls))) as [Hc|]; cbn [negb]; [|done].
    case_bool_decide as Ha; cbn [negb]; [|done]. intros _. exists aid, ls. split; try done.
    + exists e0, w. by rewrite Ee.
    + exists first. rewrite Ec. split; [done|]. rewrite <- Ec. apply Forall_forall. intros c' Hc'. specialize (Es c' Hc').
      by case_bool_decide.
    + apply Forall_forall. intros c' Hc'. specialize (Eb c' Hc'). lia.
    + by exists c.
  - intros (aid' & ls & H). destruct (hi_first _ _ _ H) as (e & w' & E & Ew' & ->). rewrite Ee in E. injection E as <-.
    assert (w' = w) as -> by congruence. fold aid in H.
    rewrite (proj2 (Hrep (Z.of_nat (length ls)) ltac:(constructor))).
    2: { exists ls. repeat split; [apply (hi_leaves _ _ _ H)|apply (hi_roots _ _ _ H)]. }
    cbn [mbind option_bind result_mbind]. destruct (hi_head _ _ _ H) as (c & El & Hc). rewrite El.
    rewrite (proj2 (existsb_false _ _)).
    2: { intros c' Hc'. pose proof (hi_bound _ _ _ H) as Hb. rewrite Forall_forall in Hb. specialize (Hb c' Hc'). lia. }
    rewrite Hc, Z.eqb_refl. cbn [negb]. by rewrite bool_decide_eq_true_2 by apply (hi_asset _ _ _ H).
Qed.

End History.

(** ** What an accepted manifest satisfies *)

Section Accepted.
Context `{SK : Sdk, PV : !ProvOps, AC : AttestCrypto, SE : ProvSerde, HX : !HexOk, HO : !HashOk}.

(** The payload the signer of the last checkpoint signed. *)
Definition checkpoint_payload (c : Checkpoint) : option bytes :=
  root ← ok (decode32 (cp_mmr_root c));
  fp ← ok (decode32 (cp_signer_fingerprint c));
  Some (checkpoint_payload_input (cp_leaf_count c) root (cp_timestamp c) fp).
Definition head_payload (o : Opm) : option bytes := last (opm_checkpoints o) ≫= checkpoint_payload.

(** A signature over [payload] by keys that hash to [fp]. *)
Definition signed_by (fp : string) (payload : bytes) : Prop :=
  exists ed falcon raw sig, signer_fingerprint ed falcon = Ok raw /\ hex_encode raw = fp /\
    hybrid_verify sig ed falcon payload = true.

(** What an edit binds. *)
Definition edit_facts (e : Edit) : Z * Action * option bytes * option bytes :=
  (ed_index e, ed_action e, ok (decode32 (co_chunk_tree_root (ed_content e))), ok (decode32 (co_whole_file_hash (ed_content e)))).

Lemma keys_for_Ok (fp : string) (embedded : option SignerKeys) (roster : option (list string)) (keys : SignerKeys) :
  keys_for fp embedded roster = Ok keys ->
  match roster with Some l => fp ∈ l | None => True end /\
  exists ed falcon raw, decode32 (sk_ed25519_pk keys) = Ok ed /\ hex_decode (sk_falcon_pk keys) = Ok falcon /\
    signer_fingerprint ed falcon = Ok raw /\ hex_encode raw = fp.
Proof.
  unfold keys_for. intros E.
  destruct (match roster with Some l => negb (bool_decide (fp ∈ l)) | None => false end) eqn:Hr; [done|].
  split; [destruct roster; [by case_bool_decide|done]|].
  destruct embedded as [k|]; [|done]. apply result_bind_Ok in E as (ed & E1 & E). apply result_bind_Ok in E as (fa & E2 & E).
  apply result_bind_Ok in E as (raw & E3 & E). case_bool_decide as Hf; [|done]. injection E as ->.
  exists ed, fa, raw. destruct (decode32 (sk_ed25519_pk keys)), (hex_decode (sk_falcon_pk keys)); cbn in *; simplify_eq.
  by destruct (signer_fingerprint ed fa); cbn in *; simplify_eq.
Qed.

Lemma check_signature_Ok (bad key_bad : InvalidReason) (keys : SignerKeys) (payload : result InvalidReason bytes) (sg : string) :
  check_signature bad keys key_bad payload sg = Ok tt ->
  exists ed falcon p sig, decode32 (sk_ed25519_pk keys) = Ok ed /\ hex_decode (sk_falcon_pk keys) = Ok falcon /\
    payload = Ok p /\ hybrid_verify sig ed falcon p = true.
Proof.
  unfold check_signature. intros E. apply result_bind_Ok in E as (ed & E1 & E). apply result_bind_Ok in E as (fa & E2 & E).
  apply result_bind_Ok in E as (p & -> & E). apply result_bind_Ok in E as (s & _ & E).
  destruct (hybrid_verify s ed fa p) eqn:Ev; [|done]. exists ed, fa, p, s.
  destruct (decode32 (sk_ed25519_pk keys)), (hex_decode (sk_falcon_pk keys)); cbn in *; by simplify_eq.
Qed.

Lemma check_checkpoint_Ok (roster : option (list string)) (c : Checkpoint) :
  check_checkpoint roster c = Ok tt ->
  exists p, checkpoint_payload c = Some p /\ signed_by (cp_signer_fingerprint c) p /\
    match roster with Some l => cp_signer_fingerprint c ∈ l | None => True end.
Proof.
  unfold check_checkpoint. intros E. apply result_bind_Ok in E as (keys & Ek & E).
  apply keys_for_Ok in Ek as (Hr & ed & fa & raw & E1 & E2 & E3 & E4).
  apply check_signature_Ok in E as (ed' & fa' & p & s & E1' & E2' & Ep & Ev). rewrite E1 in E1'. rewrite E2 in E2'. simplify_eq.
  exists p. split; [|split; [by exists ed', fa', raw, s|done]]. unfold hist in Ep.
  apply result_bind_Ok in Ep as (rt & Er & Ep). apply result_bind_Ok in Ep as (fp & Ef & Ep). unfold checkpoint_payload.
  destruct (decode32 (cp_mmr_root c)), (decode32 (cp_signer_fingerprint c)); cbn in *; by simplify_eq.
Qed.

Lemma check_checkpoints_Ok (roster : option (list string)) (cps : list Checkpoint) :
  check_checkpoint_signatures roster cps = Ok tt <-> Forall (fun c => check_checkpoint roster c = Ok tt) cps.
Proof.
  induction cps as [|c cps IH]; cbn; [split; [constructor|done]|]. rewrite Forall_cons, <- IH.
  destruct (check_checkpoint roster c) as [[]|e]; cbn; [tauto|]. split; [done|]. by intros [? _].
Qed.

Record accepted (o : Opm) (policy : VerifyPolicy) (data : bytes) (r : IntactReport) : Prop := {
  ac_version : opm_version o = OPM_VERSION;
  ac_index : forall i e, opm_edits o !! i = Some e -> ed_index e = Z.of_nat i;
  ac_content : exists e, last (opm_edits o) = Some e /\ content_matches o e data = true;
  ac_history : exists aid ls, history_ok o aid ls;
  ac_id : exists id, manifest_id o = Ok id /\ in_manifest_id r = hex_encode id /\
            forall x, vp_expected_manifest_id policy = Some x -> id = x;
  ac_count : forall n, vp_expected_leaf_count policy = Some n -> n <= Z.of_nat (length (opm_edits o));
  ac_signed : Forall (fun c => check_checkpoint (vp_allow_roster policy) c = Ok tt) (opm_checkpoints o);
  ac_anchor : forall a, vp_anchor policy = Some a -> verify_anchor a o = Ok true;
  ac_signer : exists c, last (opm_checkpoints o) = Some c /\ in_signer r = cp_signer_fingerprint c
}.

Lemma check_structure_Ok (o : Opm) :
  check_structure o = Ok tt <-> forall i e, opm_edits o !! i = Some e -> ed_index e = Z.of_nat i.
Proof.
  unfold check_structure. destruct (forallb _ _) eqn:E.
  - split; [intros _|done]. intros i e Hi. rewrite forallb_forall in E.
    assert (In (i, e) (zip (seq 0 (length (opm_edits o))) (opm_edits o))) as Hin.
    { apply list_elem_of_In, list_elem_of_lookup. exists i. apply lookup_zip_Some.
      split; [|done]. apply lookup_lt_Some in Hi as Hlt. rewrite lookup_seq_lt by done. done. }
    specialize (E _ Hin). cbn in E. lia.
  - split; [done|]. intros Hi. apply not_true_iff_false in E. exfalso. apply E. apply forallb_forall. intros [i e] Hin.
    apply list_elem_of_In, list_elem_of_lookup in Hin as (j & Hj). apply lookup_zip_Some in Hj as [Hj He].
    apply lookup_seq in Hj as [-> _]. cbn. specialize (Hi _ _ He). lia.
Qed.

Lemma verify_steps_Ok (o : Opm) (policy : VerifyPolicy) (content : result string bytes) (now : Z) j st ann (r : IntactReport) :
  opm_version o = OPM_VERSION -> check_structure o = Ok tt ->
  verify_steps o policy content now j st ann = Some (Ok r) -> exists data, content = Ok data /\ accepted o policy data r.
Proof.
  intros Hv Hst E. unfold verify_steps in E. destruct (check_content o content) as [rep|reason] eqn:Ec; [|done].
  apply bind_Some in E as (history & Eh & E). injection E as E.
  apply result_bind_Ok in E as ([] & -> & E). apply result_bind_Ok in E as (id & Eid & E).
  destruct (match vp_expected_manifest_id policy with Some x => _ | None => false end) eqn:Ex1; [done|].
  destruct (match vp_expected_leaf_count policy with Some x => _ | None => false end) eqn:Ex2; [done|].
  apply result_bind_Ok in E as ([] & Ecp & E). case_match; [done|]. case_match; [done|].
  destruct (match vp_anchor policy with Some x => _ | None => false end) eqn:Ex3; [done|].
  apply result_bind_Ok in E as (th & Eth & E). injection E as <-.
  unfold check_content in Ec. apply result_bind_Ok in Ec as (data & Ed & Ec). destruct content as [d|e]; [|done].
  cbn in Ed. injection Ed as ->. exists data. split; [done|].
  apply check_mmr_history_iff in Eh. destruct Eh as (aid & ls & Hh).
  split; try done.
  - by apply check_structure_Ok.
  - destruct (last (opm_edits o)) as [e|]; [|done]. exists e. split; [done|].
    destruct (ed_chunk_hashes e); destruct (content_matches o e data); done.
  - by exists aid, ls.
  - destruct (manifest_id o) as [id'|] eqn:Em; [|done]. cbn in Eid. injection Eid as ->. exists id. do 2 (split; [done|]).
    intros x Ex. rewrite Ex in Ex1. by case_bool_decide.
  - intros n En. rewrite En in Ex2. lia.
  - by apply check_checkpoints_Ok.
  - intros a Ea. rewrite Ea in Ex3. destruct (verify_anchor a o) as [[]|]; done.
  - destruct (hi_head _ _ _ Hh) as (c & El & _). exists c. rewrite El. done.
Qed.

Lemma verify_opm_Intact (fs : Fs) (now : Z) (asset : string) (sidecar : option string) (policy : VerifyPolicy) (r : IntactReport) :
  verify_opm fs now asset sidecar policy = Some (Intact r) ->
  exists o data, opm_load fs (default (sidecar_path asset) sidecar) = Ok o /\ fs_read fs asset = Ok data /\ accepted o policy data r.
Proof.
  unfold verify_opm. destruct (fs_exists fs _); cbn [negb]; [|by destruct (annotate_asset fs asset)].
  destruct (opm_load fs _) as [o|e]; [|by destruct (annotate_asset fs asset)]. unfold verify_parsed.
  destruct (Z.eqb_spec (opm_version o) OPM_VERSION) as [Hv|]; cbn [negb]; [|by destruct (annotate_asset fs asset)].
  destruct (check_structure o) as [[]|] eqn:Hst; [|by destruct (annotate_asset fs asset)]. unfold verify_loaded. intros E.
  apply bind_Some in E as (ann & _ & E). destruct (load_journal fs _) as [j st].
  apply bind_Some in E as (res & Er & E). destruct res as [rep|]; [|done]. injection E as ->.
  destruct (verify_steps_Ok _ _ _ _ _ _ _ _ Hv Hst Er) as (data & Ed & Ha). by exists o, data.
Qed.

(** ** Binding *)

Lemma edit_leaf_binds (e f : Edit) (aid bid l : bytes) :
  length aid = 32%nat -> length bid = 32%nat -> ed_index e = ed_index f -> replays aid e l -> replays bid f l ->
  edit_facts e = edit_facts f \/ collision blake3.
Proof.
  unfold replays, replayed_leaf, hist, edit_facts. intros Ha Hb Hi E F.
  apply result_bind_Ok in E as (c1 & E1 & E). apply result_bind_Ok in E as (w1 & E2 & E).
  apply result_bind_Ok in F as (c2 & F1 & F). apply result_bind_Ok in F as (w2 & F2 & F).
  destruct (decode32 (co_chunk_tree_root (ed_content e))) eqn:D1, (decode32 (co_whole_file_hash (ed_content e))) eqn:D2,
    (decode32 (co_chunk_tree_root (ed_content f))) eqn:D3, (decode32 (co_whole_file_hash (ed_content f))) eqn:D4;
    cbn [map_err] in *; try done. cbn [ok]. injection E as <-. injection F as F. simplify_eq.
  apply decode32_len in D1, D2, D3, D4. unfold edit_leaf in F. apply hash_eq_or_collision in F as [F|]; [left|by right].
  unfold edit_leaf_input in F. apply app_inv_head in F. apply app_inj_len in F as [_ F]; [|congruence].
  apply app_inj_len in F as [_ F]; [|by rewrite !be_bytes_length]. apply app_inj_len in F as [Fa F]; [|done].
  apply app_inj_len in F as [-> ->]; [|congruence]. rewrite Hi.
  assert (ed_action e = ed_action f) as ->; [|done].
  clear -Fa. destruct (ed_action e), (ed_action f); first [done | vm_compute in Fa; discriminate Fa].
Qed.

Lemma leaves_bind (es fs : list Edit) (aid bid : bytes) (ls : list bytes) :
  length aid = 32%nat -> length bid = 32%nat -> map ed_index es = map ed_index fs ->
  Forall2 (replays aid) es ls -> Forall2 (replays bid) fs ls -> map edit_facts es = map edit_facts fs \/ collision blake3.
Proof.
  intros Ha Hb. revert fs ls. induction es as [|e es IH]; intros fs ls Hi He Hf.
  - apply Forall2_nil_inv_l in He as ->. apply Forall2_nil_inv_r in Hf as ->. by left.
  - apply Forall2_cons_inv_l in He as (l & ls' & Hl & He & ->). apply Forall2_cons_inv_r in Hf as (f & fs' & Hl' & Hf & ->).
    cbn [map] in *. injection Hi as Hi Hii. destruct (edit_leaf_binds e f aid bid l Ha Hb Hi Hl Hl') as [E|]; [|by right].
    destruct (IH _ _ Hii He Hf) as [E'|]; [left|by right]. by rewrite E, E'.
Qed.

Lemma indices_eq (es fs : list Edit) :
  length es = length fs -> (forall i e, es !! i = Some e -> ed_index e = Z.of_nat i) ->
  (forall i e, fs !! i = Some e -> ed_index e = Z.of_nat i) -> map ed_index es = map ed_index fs.
Proof.
  intros Hl He Hf. apply list_eq. intros i. rewrite !list_lookup_fmap.
  destruct (es !! i) as [e|] eqn:E1, (fs !! i) as [f|] eqn:E2; cbn; [by rewrite (He _ _ E1), (Hf _ _ E2)| | |done].
  - apply lookup_lt_Some in E1. apply lookup_ge_None in E2. lia.
  - apply lookup_lt_Some in E2. apply lookup_ge_None in E1. lia.
Qed.

Lemma history_aid (o : Opm) (aid : bytes) (ls : list bytes) : history_ok o aid ls -> length aid = 32%nat.
Proof. intros H. destruct (hi_first _ _ _ H) as (? & ? & _ & _ & ->). apply sha3_len. Qed.

(** The head of an accepted history holds its number of leaves and root. *)
Lemma accepted_head (o : Opm) (aid : bytes) (ls : list bytes) (p : bytes) :
  history_ok o aid ls -> head_payload o = Some p -> exists ts fp,
    p = checkpoint_payload_input (Z.of_nat (length ls)) (range_root ls) ts fp /\ length fp = 32%nat.
Proof.
  intros H E. destruct (hi_head _ _ _ H) as (c & El & Hc). unfold head_payload in E. rewrite El in E. cbn in E.
  unfold checkpoint_payload in E. apply bind_Some in E as (rt & Er & E). apply bind_Some in E as (fp & Ef & E).
  injection E as <-. exists (cp_timestamp c), fp. pose proof (Forall2_length _ _ _ (hi_leaves _ _ _ H)) as Hn.
  destruct (hi_first _ _ _ H) as (e0 & w & He & _).
  assert (0 < length ls)%nat as Hpos by (destruct (opm_edits o); [done|cbn in Hn; lia]).
  pose proof (hi_roots _ _ _ H c (length ls) ltac:(rewrite list_elem_of_lookup; rewrite last_lookup in El; eauto) ltac:(lia)) as Hr.
  cbn [length Nat.add app] in Hr. rewrite firstn_all in Hr. specialize (Hr Hc).
  rewrite Hr, decode32_encode in Er; [|apply range_root_len; by eapply replays_len32, hi_leaves]. cbn in Er. injection Er as <-.
  rewrite Hc. split; [done|]. destruct (decode32 (cp_signer_fingerprint c)) eqn:Ed; [|done]. cbn in Ef. injection Ef as ->.
  by apply decode32_len in Ed.
Qed.

End Accepted.


(** ** Authoring *)

(** base64 decodes what it encoded. *)
Class ProvOk `{ProvOps} : Prop := { b64_roundtrip : forall b, b64_decode (b64_encode b) = Ok b }.

Section Author.
Context `{SK : Sdk, PV : !ProvOps, AC : AttestCrypto, SE : ProvSerde, HX : !HexOk, HO : !HashOk, SO : !SigOk, PO : !ProvOk}.

(** A signer as [from_seed] builds it: a 32-byte key and the hash of both keys. *)
Definition signer_ok (s : Signer) : Prop :=
  length (ed25519_pk (sg_bundle s)) = 32%nat /\
  signer_fingerprint (ed25519_pk (sg_bundle s)) (falcon1024_pk (sg_bundle s)) = Ok (sg_fingerprint s).

Definition in_roster (roster : option (list string)) (fp : string) : Prop :=
  match roster with Some l => fp ∈ l | None => True end.

Lemma fingerprint_len (s : Signer) : signer_ok s -> length (sg_fingerprint s) = 32%nat.
Proof. intros [_ E]. unfold signer_fingerprint in E. case_match; [done|]. injection E as <-. apply sha3_len. Qed.

Lemma keys_for_signer (s : Signer) (roster : option (list string)) :
  signer_ok s -> in_roster roster (fingerprint_hex s) ->
  keys_for (fingerprint_hex s) (Some (public_keys s)) roster = Ok (public_keys s).
Proof.
  intros [Hl Hf] Hr. unfold keys_for.
  destruct (match roster with Some l => negb (bool_decide (fingerprint_hex s ∈ l)) | None => false end) eqn:E.
  { destruct roster; [|done]. by case_bool_decide. }
  cbn [public_keys sk_ed25519_pk sk_falcon_pk]. rewrite decode32_encode, hex_roundtrip by done.
  cbn [map_err mbind result_mbind]. rewrite Hf. cbn [map_err mbind result_mbind]. by rewrite bool_decide_eq_true_2.
Qed.

Lemma check_signature_signed (s : Signer) (bad key_bad : InvalidReason) (m : bytes) (sig : HybridSig) (b64 : string) :
  signer_ok s -> signer_sign s m = Ok sig -> hybrid_sig_to_base64 sig = Ok b64 ->
  check_signature bad (public_keys s) key_bad (Ok m) b64 = Ok tt.
Proof.
  intros [Hl _] Es Eb. unfold check_signature. cbn [public_keys sk_ed25519_pk sk_falcon_pk].
  rewrite decode32_encode, hex_roundtrip by done. cbn [map_err mbind result_mbind].
  unfold hybrid_sig_to_base64 in Eb. apply result_bind_Ok in Eb as (raw & Er & Eb). injection Eb as <-.
  destruct (hybrid_encode sig) as [c|] eqn:Ee; [|done]. cbn in Er. injection Er as ->.
  unfold hybrid_sig_from_base64. rewrite b64_roundtrip. cbn [map_err mbind result_mbind].
  rewrite (decode_encode_sig _ _ Ee). cbn [map_err mbind result_mbind]. by rewrite (verify_sign _ _ _ Es).
Qed.

Record signed_checkpoint (sg : Signer) (ls : list bytes) (ts : Z) (c : Checkpoint) : Prop := {
  sc_count : cp_leaf_count c = Z.of_nat (length ls);
  sc_root : cp_mmr_root c = hex_encode (range_root ls);
  sc_ts : cp_timestamp c = ts;
  sc_fp : cp_signer_fingerprint c = fingerprint_hex sg;
  sc_checks : forall roster, in_roster roster (fingerprint_hex sg) -> check_checkpoint roster c = Ok tt
}.

Lemma sign_checkpoint_spec (sg : Signer) (ls : list bytes) (ts : Z) (c : Checkpoint) :
  signer_ok sg -> Forall len32 ls -> sign_checkpoint_at sg (range ls) ts = Ok c -> signed_checkpoint sg ls ts c.
Proof.
  intros Hs Hl E. unfold sign_checkpoint_at in E. rewrite root_range, range_count in E by done. cbn [mmr_result mbind result_mbind] in E.
  apply result_bind_Ok in E as (sig & Es & E). apply result_bind_Ok in E as (b64 & Eb & E). injection E as <-.
  split; [done..|]. intros roster Hr. unfold check_checkpoint. cbn [cp_signer_fingerprint cp_keys cp_mmr_root cp_leaf_count cp_timestamp cp_signature].
  rewrite keys_for_signer by done. cbn [mbind result_mbind]. unfold fingerprint_hex.
  rewrite !decode32_encode by (by apply range_root_len || by apply fingerprint_len). cbn [hist map_err mbind result_mbind].
  apply map_err_Ok in Es. by eapply check_signature_signed.
Qed.

(** Manifests one signer authored; the bytes are those of the last edit. *)
Inductive authoring (sg : Signer) : bytes -> Opm -> Prop :=
| auth_create data action cs now o :
    1 <= cs -> create_from_bytes data sg action cs (Ok now) = Ok o -> authoring sg data o
| auth_edit data o data' action note now o' :
    authoring sg data o -> Z.of_nat (length (opm_edits o)) <= u64_max ->
    (forall c, last (opm_checkpoints o) = Some c -> in_i64 (cp_timestamp c + 1)) ->
    append_edit (Ok data') sg action note (Ok now) o = (Ok tt, o') -> authoring sg data' o'
| auth_attest data o attestor o' :
    authoring sg data o -> signer_ok attestor -> attest attestor o = Ok o' -> authoring sg data o'.

(** The invariant of authoring. *)
Record authored (sg : Signer) (data : bytes) (ls : list bytes) (o : Opm) : Prop := {
  au_version : opm_version o = OPM_VERSION;
  au_index : forall i e, opm_edits o !! i = Some e -> ed_index e = Z.of_nat i;
  au_history : exists aid, history_ok o aid ls;
  au_stored : Forall2 (fun e l => ed_leaf_hash e = hex_encode l) (opm_edits o) ls;
  au_content : exists e, last (opm_edits o) = Some e /\ ed_content e = from_hashes data (opm_chunk_size o) /\
                 ed_chunk_hashes e = Some (chunk_hashes data (opm_chunk_size o));
  au_cps : Forall (fun c => cp_signer_fingerprint c = fingerprint_hex sg /\
             forall roster, in_roster roster (fingerprint_hex sg) -> check_checkpoint roster c = Ok tt) (opm_checkpoints o);
  au_atts : forall id, manifest_id o = Ok id ->
              Forall (fun a => forall roster, in_roster roster (at_fingerprint a) -> check_attestation o id roster a = Ok tt)
                (opm_attestations o)
}.

Lemma stored_leaves (es : list Edit) (ls : list bytes) :
  Forall len32 ls -> Forall2 (fun e l => ed_leaf_hash e = hex_encode l) es ls -> mapM self_leaf_hash es = Ok ls.
Proof.
  intros Hl Hf. induction Hf as [|e l es ls He Hf IH]; [done|]. apply Forall_cons in Hl as [Hl Hls].
  assert (self_leaf_hash e = Ok l) as E by (unfold self_leaf_hash; by rewrite He, decode32_encode).
  simpl. rewrite E. simpl. by rewrite IH.
Qed.

Lemma replayed_from_hashes (aid : bytes) (index : Z) (action : Action) (note : option string) (data : bytes) (cs : Z) lh ch :
  length (chunk_tree_root data cs) = 32%nat ->
  replayed_leaf aid (MkEdit index action note (from_hashes data cs) lh ch)
  = Ok (edit_leaf index (action_u8 action) (chunk_tree_root data cs) (whole_file_hash data) aid).
Proof.
  intros Hc. unfold replayed_leaf. cbn [ed_content ed_index ed_action from_hashes co_chunk_tree_root co_whole_file_hash].
  rewrite !decode32_encode by (done || apply blake3_len). done.
Qed.

Lemma pair_level_len (l : list bytes) : Forall len32 l -> Forall len32 (pair_level l).
Proof.
  induction l as [l IH] using (induction_ltof1 _ length). unfold ltof in IH. intros Hl.
  destruct l as [|a [|b l]]; [done..|]. cbn [pair_level]. apply Forall_cons in Hl as [_ Hl]. apply Forall_cons in Hl as [_ Hl].
  constructor; [apply blake3_len|]. apply IH; [cbn; lia|done].
Qed.

Lemma merkle_loop_len (fuel : nat) (l : list bytes) : Forall len32 l -> Forall len32 (merkle_loop fuel l).
Proof.
  revert l. induction fuel as [|fuel IH]; intros l Hl; cbn; [done|]. case_match; [|done]. by apply IH, pair_level_len.
Qed.

Lemma chunk_tree_root_len (data : bytes) (cs : Z) : length (chunk_tree_root data cs) = 32%nat.
Proof.
  unfold chunk_tree_root, merkle_root_from_leaf_hashes.
  assert (Forall len32 (map blake3 (data_chunks data cs))) as Hf.
  { apply Forall_forall. intros x Hx. apply list_elem_of_In, in_map_iff in Hx as (c & <- & _). apply blake3_len. }
  apply (merkle_loop_len (length (map blake3 (data_chunks data cs)))) in Hf.
  destruct (merkle_loop _ _) as [|x l]; [apply blake3_len|]. by apply Forall_inv in Hf.
Qed.

Lemma scan_snoc (cps : list Checkpoint) (c : Checkpoint) (l t : option Z) :
  scan_checkpoints l t cps = Ok tt ->
  match last cps with
  | Some p => cp_leaf_count p < cp_leaf_count c /\ cp_timestamp p < cp_timestamp c
  | None => (forall x, l = Some x -> x < cp_leaf_count c) /\ (forall x, t = Some x -> x < cp_timestamp c)
  end -> scan_checkpoints l t (cps ++ [c]) = Ok tt.
Proof.
  revert l t. induction cps as [|p cps IH]; intros l t E H.
  - cbn in *. destruct H as [H1 H2]. destruct l as [x|], t as [y|]; cbn.
    + destruct (Z.leb_spec (cp_leaf_count c) x); [specialize (H1 x eq_refl); lia|].
      destruct (Z.leb_spec (cp_timestamp c) y); [specialize (H2 y eq_refl); lia|done].
    + destruct (Z.leb_spec (cp_leaf_count c) x); [specialize (H1 x eq_refl); lia|done].
    + destruct (Z.leb_spec (cp_timestamp c) y); [specialize (H2 y eq_refl); lia|done].
    + done.
  - cbn [app scan_checkpoints] in *.
    do 2 (match goal with |- (if ?b then _ else _) = _ => destruct b; [done|] end). apply IH; [done|].
    rewrite last_cons in H. destruct (last cps); [done|]. cbn in H. split; intros x [= <-]; lia.
Qed.

Lemma authored_create (sg : Signer) (data : bytes) (action : Action) (cs now : Z) (o : Opm) :
  signer_ok sg -> 1 <= cs -> create_from_bytes data sg action cs (Ok now) = Ok o ->
  exists ls, authored sg data ls o.
Proof.
  intros Hs Hcs E. unfold create_from_bytes in E. set (aid := asset_id_of (whole_file_hash data)) in E.
  set (leaf := edit_leaf 0 _ _ _ aid) in E. change mmr_new with (range []) in E.
  assert (len32 leaf) as Hl by apply blake3_len. rewrite range_snoc in E by (done || constructor). cbn [app mmr_result mbind result_mbind checkpoint] in E.
  apply result_bind_Ok in E as (c & Ec & E). injection E as <-. apply sign_checkpoint_spec in Ec as [E1 E2 E3 E4 E5]; [|done|by repeat constructor].
  destruct (Z.eqb_spec cs 0); [lia|]. exists [leaf]. split; cbn [opm_version opm_edits opm_checkpoints opm_attestations opm_chunk_size].
  - done.
  - intros [|i] e He; [|done]. by injection He as <-.
  - exists aid. split; cbn [opm_version opm_edits opm_checkpoints opm_attestations opm_chunk_size opm_asset_id].
    + eexists _, (whole_file_hash data). split; [done|]. split; [|done]. cbn. apply decode32_encode, blake3_len.
    + done.
    + constructor; [|constructor]. unfold replays. by rewrite replayed_from_hashes by apply chunk_tree_root_len.
    + exists c. split; [done|]. by repeat constructor.
    + done.
    + intros cp k [->|Hcp]%elem_of_cons Hk Ek; [|by apply elem_of_nil in Hcp]. cbn in Hk. assert (k = 1%nat) as -> by lia. exact E2.
    + repeat constructor. rewrite E1. done.
    + by exists c.
  - by repeat constructor.
  - by eexists.
  - repeat constructor; done.
  - constructor.
Qed.

(** One more leaf with its checkpoint extends an accepted history. *)
Lemma history_extends (o o' : Opm) (aid : bytes) (ls : list bytes) (sg : Signer) (e : Edit) (leaf : bytes) (c : Checkpoint) (ts : Z) :
  history_ok o aid ls -> Forall (fun c => cp_signer_fingerprint c = fingerprint_hex sg) (opm_checkpoints o) ->
  replays aid e leaf -> signed_checkpoint sg (ls ++ [leaf]) ts c ->
  (forall p, last (opm_checkpoints o) = Some p -> cp_timestamp p < ts) ->
  opm_asset_id o' = opm_asset_id o -> opm_edits o' = opm_edits o ++ [e] -> opm_checkpoints o' = opm_checkpoints o ++ [c] ->
  history_ok o' aid (ls ++ [leaf]).
Proof.
  intros H Hfp He [C1 C2 C3 C4 _] Ht Ea Ee Ec. destruct (hi_head _ _ _ H) as (p & El & Hp). split.
  - destruct (hi_first _ _ _ H) as (e0 & w & Hh & Hw). exists e0, w. rewrite Ee. by destruct (opm_edits o).
  - rewrite Ea. apply (hi_asset _ _ _ H).
  - rewrite Ee. apply Forall2_app; [apply (hi_leaves _ _ _ H)|]. by repeat constructor.
  - destruct (hi_signer _ _ _ H) as (h & Hh & Hall). exists h. rewrite Ec. split; [by destruct (opm_checkpoints o)|].
    rewrite Forall_app. split; [done|]. repeat constructor. rewrite C4. symmetry. rewrite Forall_forall in Hfp. apply Hfp.
    destruct (opm_checkpoints o); [done|]. injection Hh as ->. apply elem_of_cons. by left.
  - rewrite Ec. apply scan_snoc; [apply (hi_scan _ _ _ H)|]. rewrite El, C1, C3, length_app. cbn. split; [lia|by apply Ht].
  - intros cp k Hcp Hk Hn. rewrite Ec in Hcp. cbn [app length Nat.add] in *. rewrite length_app in Hk. cbn in Hk.
    apply elem_of_app in Hcp as [Hcp|Hcp].
    + pose proof (hi_bound _ _ _ H) as Hb. rewrite Forall_forall in Hb. specialize (Hb cp Hcp).
      rewrite take_app_le by lia. apply (hi_roots _ _ _ H cp k Hcp); [lia|done].
    + apply elem_of_cons in Hcp as [->|Hcp]; [|by apply elem_of_nil in Hcp]. rewrite C1, length_app in Hn. cbn in Hn.
      rewrite take_ge by (rewrite length_app; cbn; lia). done.
  - rewrite Ec, Forall_app. split.
    + eapply Forall_impl; [apply (hi_bound _ _ _ H)|]. intros x Hx. cbn in Hx. rewrite length_app. cbn. lia.
    + repeat constructor. rewrite C1. done.
  - exists c. rewrite Ec, last_snoc. split; [done|]. by rewrite C1.
Qed.

Lemma next_timestamp_above (now t : Z) : in_i64 (t + 1) -> t < next_timestamp now (Some t).
Proof. intros H. unfold next_timestamp. destruct (Z.leb_spec now t); [rewrite wrap_i64_id by done|]; lia. Qed.

Lemma authored_edit (sg : Signer) (data data' : bytes) (ls : list bytes) (o o' : Opm) (action : Action) (note : option string) (now : Z) :
  signer_ok sg -> authored sg data ls o -> Z.of_nat (length (opm_edits o)) <= u64_max ->
  (forall c, last (opm_checkpoints o) = Some c -> in_i64 (cp_timestamp c + 1)) ->
  append_edit (Ok data') sg action note (Ok now) o = (Ok tt, o') -> exists ls', authored sg data' ls' o'.
Proof.
  intros Hs A Hn Hts E. destruct (au_history _ _ _ _ A) as (aid & H).
  pose proof (replays_len32 _ _ _ (hi_leaves _ _ _ H)) as H32. pose proof (Forall2_length _ _ _ (hi_leaves _ _ _ H)) as Hlen.
  unfold append_edit in E. cbn [map_err] in E. unfold asset_id_bytes in E.
  rewrite <- (hi_asset _ _ _ H), decode32_encode in E by by eapply history_aid.
  destruct (au_content _ _ _ _ A) as (e & El & _ & _). rewrite El in E.
  assert (wrap_u64 (ed_index e + 1) = Z.of_nat (length (opm_edits o))) as Ei.
  { rewrite last_lookup in El. rewrite (au_index _ _ _ _ A _ _ El). apply lookup_lt_Some in El.
    rewrite wrap_u64_id by (split; lia). lia. }
  rewrite Ei in E. clear Ei. set (index := Z.of_nat (length (opm_edits o))) in E.
  set (leaf := edit_leaf index _ _ _ aid) in E. set (ne := MkEdit index _ _ _ _ _) in E.
  assert (len32 leaf) as Hl by apply blake3_len.
  destruct (hi_head _ _ _ H) as (p & Ep & _). cbn [push_edit opm_edits opm_checkpoints] in E.
  rewrite Ep in E. cbn [fmap option_fmap option_map] in E.
  unfold stored_mmr in E. rewrite (stored_leaves _ (ls ++ [leaf])) in E.
  2: { rewrite Forall_app. by repeat constructor. }
  2: { apply Forall2_app; [apply (au_stored _ _ _ _ A)|]. by repeat constructor. }
  cbn [mbind result_mbind] in E. change mmr_new with (range []) in E.
  rewrite append_all_range in E by (constructor || rewrite Forall_app; by repeat constructor). cbn [app mmr_result mbind result_mbind] in E.
  destruct (sign_checkpoint_at _ _ _) as [c|] eqn:Ec; [|done]. injection E as <-.
  apply sign_checkpoint_spec in Ec; [|done|rewrite Forall_app; by repeat constructor].
  exists (ls ++ [leaf]). split; cbn [push_checkpoint push_edit opm_version opm_edits opm_checkpoints opm_attestations opm_chunk_size].
  - apply (au_version _ _ _ _ A).
  - intros i f Hf. apply lookup_snoc_Some in Hf as [[_ Hf]|[-> <-]]; [by apply (au_index _ _ _ _ A)|done].
  - exists aid. eapply (history_extends o _ aid ls sg ne leaf c); try done.
    + eapply Forall_impl; [apply (au_cps _ _ _ _ A)|]. by intros x [? _].
    + unfold replays, ne. by rewrite replayed_from_hashes by apply chunk_tree_root_len.
    + intros q Eq. rewrite Ep in Eq. injection Eq as <-. by apply next_timestamp_above, Hts.
  - apply Forall2_app; [apply (au_stored _ _ _ _ A)|]. by repeat constructor.
  - exists ne. by rewrite last_snoc.
  - rewrite Forall_app. split; [apply (au_cps _ _ _ _ A)|]. repeat constructor; apply Ec.
  - constructor.
Qed.

Lemma manifest_id_total (sg : Signer) (data : bytes) (ls : list bytes) (o : Opm) :
  authored sg data ls o -> exists id, manifest_id o = Ok id.
Proof.
  intros A. destruct (au_history _ _ _ _ A) as (aid & H). pose proof (replays_len32 _ _ _ (hi_leaves _ _ _ H)) as H32.
  unfold manifest_id. rewrite (stored_leaves _ ls) by (done || apply (au_stored _ _ _ _ A)).
  assert (exists bs, mapM basis_of (opm_checkpoints o) = Ok bs) as (bs & ->).
  { pose proof (au_cps _ _ _ _ A) as Hc. induction Hc as [|c cps [_ Hc] _ (bs & IH)]; [by eexists|].
    destruct (check_checkpoint_Ok _ _ (Hc None I)) as (p & Ep & _). unfold checkpoint_payload in Ep.
    assert (exists b, basis_of c = Ok b) as (b & Eb).
    { unfold basis_of. destruct (decode32 (cp_mmr_root c)); [|done]. destruct (decode32 (cp_signer_fingerprint c)); [by eexists|done]. }
    exists (b :: bs). simpl. rewrite Eb. simpl. by rewrite IH. }
  unfold asset_id_bytes. rewrite <- (hi_asset _ _ _ H), decode32_encode by by eapply history_aid. by eexists.
Qed.

Lemma current_root (sg : Signer) (data : bytes) (ls : list bytes) (o : Opm) :
  authored sg data ls o -> current_mmr_root o = Ok (range_root ls).
Proof.
  intros A. destruct (au_history _ _ _ _ A) as (aid & H). pose proof (replays_len32 _ _ _ (hi_leaves _ _ _ H)) as H32.
  unfold current_mmr_root, stored_mmr. rewrite (stored_leaves _ ls) by (done || apply (au_stored _ _ _ _ A)).
  cbn [mbind result_mbind]. change mmr_new with (range []). rewrite append_all_range by (done || constructor).
  cbn [app mmr_result mbind result_mbind]. by rewrite root_range.
Qed.

Lemma authored_head (sg : Signer) (data : bytes) (ls : list bytes) (o : Opm) :
  authored sg data ls o -> exists c, last (opm_checkpoints o) = Some c /\ cp_leaf_count c = Z.of_nat (length ls) /\
    decode32 (cp_mmr_root c) = Ok (range_root ls).
Proof.
  intros A. destruct (au_history _ _ _ _ A) as (aid & H). destruct (hi_head _ _ _ H) as (c & El & Hc).
  pose proof (replays_len32 _ _ _ (hi_leaves _ _ _ H)) as H32. pose proof (Forall2_length _ _ _ (hi_leaves _ _ _ H)) as Hlen.
  exists c. do 2 (split; [done|]). destruct (hi_first _ _ _ H) as (e0 & w & He & _).
  assert (0 < length ls)%nat as Hpos by (destruct (opm_edits o); [done|cbn in Hlen; lia]).
  pose proof (hi_roots _ _ _ H c (length ls) ltac:(rewrite list_elem_of_lookup; rewrite last_lookup in El; eauto) ltac:(lia) Hc) as Hr.
  cbn [app] in Hr. rewrite firstn_all in Hr. rewrite Hr. by apply decode32_encode, range_root_len.
Qed.

Lemma authored_attest (sg attestor : Signer) (data : bytes) (ls : list bytes) (o o' : Opm) :
  signer_ok attestor -> authored sg data ls o -> attest attestor o = Ok o' -> authored sg data ls o'.
Proof.
  intros Hs A E. unfold attest in E. apply result_bind_Ok in E as (id & Eid & E). rewrite (current_root _ _ _ _ A) in E.
  cbn [mbind result_mbind] in E. apply result_bind_Ok in E as (sig & Es & E). apply result_bind_Ok in E as (b64 & Eb & E).
  injection E as <-. apply map_err_Ok in Es. destruct (authored_head _ _ _ _ A) as (c & El & Hc & Hr).
  destruct (au_history _ _ _ _ A) as (aid & H). pose proof (Forall2_length _ _ _ (hi_leaves _ _ _ H)) as Hlen.
  destruct A as [A1 A2 _ A4 A5 A6 A7]. split; try done.
  - exists aid. by destruct H.
  - intros id' Eid'. assert (id' = id) as -> by (change (manifest_id o = Ok id') in Eid'; congruence).
    cbn [opm_attestations]. rewrite Forall_app. split; [exact (A7 id Eid)|]. repeat constructor. intros roster Hroster.
    unfold check_attestation. cbn [at_fingerprint at_keys at_signature opm_checkpoints]. rewrite keys_for_signer by done.
    cbn [mbind result_mbind]. rewrite El, Hr. cbn [hist map_err mbind result_mbind]. rewrite Hc, <- Hlen.
    by eapply check_signature_signed.
Qed.

Lemma authoring_authored (sg : Signer) (data : bytes) (o : Opm) :
  signer_ok sg -> authoring sg data o -> exists ls, authored sg data ls o.
Proof.
  intros Hs. induction 1 as [data action cs now o Hcs E|data o data' action note now o' _ [ls IH] Hn Ht E|data o at_ o' _ [ls IH] Ha E].
  - by eapply authored_create.
  - by eapply authored_edit.
  - exists ls. by eapply authored_attest.
Qed.

(** ** Verification of authored manifests *)

Lemma attest_loop_spec (o : Opm) (id : bytes) (revoked : list string) (roster : option (list string)) (atts : list Attestation)
    (d : list string) :
  Forall (fun a => check_attestation o id roster a = Ok tt) atts -> NoDup d ->
  exists d', attest_loop o id revoked roster d atts = Ok d' /\ NoDup d' /\
    forall fp, fp ∈ d' <-> fp ∈ d \/ (fp ∈ map at_fingerprint atts /\ fp ∉ revoked).
Proof.
  intros Ha. revert d. induction Ha as [|a atts Ha _ IH]; intros d Hd; cbn [attest_loop].
  { exists d. do 2 (split; [done|]). intros fp. cbn. rewrite elem_of_nil. tauto. }
  rewrite Ha. cbn [mbind result_mbind].
  set (d1 := if bool_decide (at_fingerprint a ∈ d) || bool_decide (at_fingerprint a ∈ revoked) then d else d ++ [at_fingerprint a]).
  assert (NoDup d1 /\ forall fp, fp ∈ d1 <-> fp ∈ d \/ (fp = at_fingerprint a /\ fp ∉ revoked)) as [H1 H2].
  { unfold d1. case_bool_decide as Hin; cbn [orb]; [split; [done|]; intros fp; split; [tauto|]; intros [?|[-> ?]]; done|].
    case_bool_decide as Hrev; [split; [done|]; intros fp; split; [tauto|]; intros [?|[-> ?]]; done|].
    split; [apply NoDup_app; repeat split; [done| |apply NoDup_singleton]; intros x Hx ->%list_elem_of_singleton; done|].
    intros fp. rewrite elem_of_app, list_elem_of_singleton. split; [intros [?| ->]; tauto|intros [?|[-> ?]]; tauto]. }
  destruct (IH d1 H1) as (d' & E & Hn & He). exists d'. do 2 (split; [done|]). intros fp. rewrite He, H2. cbn [map].
  rewrite elem_of_cons. tauto.
Qed.

(** The attestors that count: distinct and not revoked. *)
Definition attestor_count (o : Opm) (revoked : list string) : nat :=
  size (list_to_set (map at_fingerprint (opm_attestations o)) ∖ list_to_set revoked : gset string).
Definition shortfall (required : option Z) (n : nat) : option (nat * Z) :=
  match required with Some k => if Z.of_nat n <? k then Some (n, k) else None | None => None end.
Definition revoked_attestors (o : Opm) (j : list RevocationRecord) (st : RevocationStatus) : list string :=
  if enforceable st then List.filter (fun fp => is_revoked j (revocation_target fp)) (map at_fingerprint (opm_attestations o)) else [].

Lemma check_attestations_spec (sg : Signer) (data : bytes) (ls : list bytes) (o : Opm) (required : option Z) (revoked : list string)
    (roster : option (list string)) :
  authored sg data ls o -> (forall a, a ∈ opm_attestations o -> in_roster roster (at_fingerprint a)) ->
  (forall k, required = Some k -> 0 < k) ->
  exists th, check_attestations o required revoked roster = Ok th /\
    th_unattested th = shortfall required (attestor_count o revoked).
Proof.
  intros A Hr Hk. unfold check_attestations, attestor_count. destruct (manifest_id_total _ _ _ _ A) as (id & Eid).
  destruct (opm_attestations o) as [|a atts] eqn:Ea.
  { eexists. split; [done|]. cbn [map list_to_set th_unattested]. replace (size (∅ ∖ list_to_set revoked : gset string)) with 0%nat.
    - destruct required as [k|]; cbn; [|done]. specialize (Hk k eq_refl). by destruct k.
    - symmetry. apply size_empty_iff. set_solver. }
  rewrite <- Ea, Eid. cbn [map_err mbind result_mbind].
  destruct (attest_loop_spec o id revoked roster (opm_attestations o) []) as (d & Ed & Hnd & Hd).
  { pose proof (au_atts _ _ _ _ A id Eid) as Hat. rewrite Forall_forall in *. intros x Hx. apply Hat; [done|]. by apply Hr; rewrite <- Ea. }
  { constructor. }
  rewrite Ed. cbn [mbind result_mbind]. eexists. split; [done|]. cbn [th_unattested]. unfold shortfall.
  replace (size (list_to_set (map at_fingerprint (opm_attestations o)) ∖ list_to_set revoked : gset string)) with (length d); [done|].
  rewrite <- (size_list_to_set (C := gset string) d Hnd). apply f_equal, set_eq. intros fp.
  rewrite elem_of_list_to_set, Hd, elem_of_difference, !elem_of_list_to_set, elem_of_nil. tauto.
Qed.

Lemma chunk_report_same (data : bytes) (cs : Z) :
  let r := chunk_report data cs (chunk_hashes data cs) in cr_first_mismatch r = None /\ cr_matched r = cr_total r.
Proof.
  cbn. generalize (chunk_hashes data cs). intros l. induction l as [|a l [IH1 IH2]]; [done|]. cbn [zip zip_with position List.filter fst snd].
  rewrite bool_decide_eq_true_2 by done. cbn [negb]. split; [by rewrite IH1|]. cbn [length]. by rewrite IH2.
Qed.

(** A policy that has nothing against the manifest. *)
Record admits (policy : VerifyPolicy) (sg : Signer) (o : Opm) (now : Z) (j : list RevocationRecord) (st : RevocationStatus) : Prop := {
  ad_signer : in_roster (vp_allow_roster policy) (fingerprint_hex sg);
  ad_attestors : forall a, a ∈ opm_attestations o -> in_roster (vp_allow_roster policy) (at_fingerprint a);
  ad_id : forall x, vp_expected_manifest_id policy = Some x -> manifest_id o = Ok x;
  ad_count : forall n, vp_expected_leaf_count policy = Some n -> n <= Z.of_nat (length (opm_edits o));
  ad_time : forall c, c ∈ opm_checkpoints o -> cp_timestamp c <= wrap_i64 (default now (vp_now policy) + vp_max_future_skew_secs policy);
  ad_revoked : enforceable st = true -> is_revoked j (revocation_target (fingerprint_hex sg)) = false;
  ad_anchor : forall a, vp_anchor policy = Some a -> verify_anchor a o = Ok true;
  ad_k : forall k, vp_required_k policy = Some k -> 0 < k
}.

Lemma verify_steps_authored (sg : Signer) (data : bytes) (ls : list bytes) (o : Opm) (policy : VerifyPolicy) (now : Z) j st ann :
  authored sg data ls o -> admits policy sg o now j st ->
  exists r, verify_steps o policy (Ok data) now j st ann = Some (Ok r) /\ in_signer r = fingerprint_hex sg /\
    cr_first_mismatch (in_chunk_report r) = None /\ cr_matched (in_chunk_report r) = cr_total (in_chunk_report r) /\
    in_unattested r = shortfall (vp_required_k policy) (attestor_count o (revoked_attestors o j st)).
Proof.
  intros A P. unfold verify_steps, check_content. cbn [map_err mbind result_mbind].
  destruct (au_content _ _ _ _ A) as (e & El & Ec & Eh). rewrite El, Eh.
  assert (content_matches o e data = true) as -> by (unfold content_matches; rewrite Ec; cbn; by rewrite !bool_decide_eq_true_2).
  rewrite (proj2 (check_mmr_history_iff o)) by (destruct (au_history _ _ _ _ A) as (aid & H); by exists aid, ls).
  cbn [mbind option_bind result_mbind]. destruct (manifest_id_total _ _ _ _ A) as (id & Eid). rewrite Eid. cbn [hist map_err mbind result_mbind].
  destruct (match vp_expected_manifest_id policy with Some x => _ | None => false end) eqn:E1.
  { destruct (vp_expected_manifest_id policy) as [x|] eqn:Ex; [|done]. pose proof (ad_id _ _ _ _ _ _ P x Ex). case_bool_decide; [done|congruence]. }
  destruct (match vp_expected_leaf_count policy with Some n => _ | None => false end) eqn:E2.
  { destruct (vp_expected_leaf_count policy) as [n|] eqn:Ex; [|done]. pose proof (ad_count _ _ _ _ _ _ P n Ex). lia. }
  rewrite (proj2 (check_checkpoints_Ok (vp_allow_roster policy) (opm_checkpoints o))).
  2: { eapply Forall_impl; [apply (au_cps _ _ _ _ A)|]. intros c [_ Hc]. apply Hc, (ad_signer _ _ _ _ _ _ P). }
  cbn [mbind result_mbind]. rewrite (proj2 (existsb_false _ _)).
  2: { intros c Hc. pose proof (ad_time _ _ _ _ _ _ P c Hc). lia. }
  destruct (enforceable st && existsb _ _) eqn:E3.
  { apply andb_prop in E3 as [Hst Hex]. apply existsb_exists in Hex as (c & Hc & Hrev). apply list_elem_of_In in Hc.
    pose proof (au_cps _ _ _ _ A) as Hcps. rewrite Forall_forall in Hcps. destruct (Hcps c Hc) as [Hfp _].
    rewrite Hfp, (ad_revoked _ _ _ _ _ _ P Hst) in Hrev. done. }
  destruct (match vp_anchor policy with Some a => _ | None => false end) eqn:E4.
  { destruct (vp_anchor policy) as [a|] eqn:Ex; [|done]. by rewrite (ad_anchor _ _ _ _ _ _ P a Ex) in E4. }
  fold (revoked_attestors o j st).
  destruct (check_attestations_spec sg data ls o (vp_required_k policy) (revoked_attestors o j st) (vp_allow_roster policy) A
              (ad_attestors _ _ _ _ _ _ P) (ad_k _ _ _ _ _ _ P)) as (th & Eth & Hth).
  rewrite Eth. cbn [mbind result_mbind]. eexists. split; [done|]. cbn [in_signer in_chunk_report in_unattested].
  destruct (chunk_report_same data (opm_chunk_size o)) as [R1 R2]. repeat split; [|done..].
  destruct (authored_head _ _ _ _ A) as (c & Elc & _). rewrite Elc.
  pose proof (au_cps _ _ _ _ A) as Hcps. rewrite Forall_forall in Hcps. apply Hcps.
  rewrite list_elem_of_lookup. rewrite last_lookup in Elc. eauto.
Qed.

End Author.

