(* ===== verification/ProvAnchor.v ===== *)
(** * Head anchors, and what the verifier does not check

    A published anchor against later, truncated and other histories; manifests
    created with chunk size zero; the stored list of chunk hashes; files
    on which verification crashes.  At the end, a concrete signer, file
    system and policy. *)

From Stdlib Require Import Ascii String.
From S2P Require Import Prelude RustStr Bytes RustText Sdk Event HashChain Attest Mmr MmrTheory VcsMmr VcsStream.
From S2P Require Import C2pa Provenance Stamp ProvVerify ProvProps.

Section Anchors.
Context `{SK : Sdk, PV : !ProvOps, AC : AttestCrypto, SE : ProvSerde, HX : !HexOk, HO : !HashOk, SO : !SigOk, PO : !ProvOk}.

(** The same manifest with more edits and checkpoints. *)
Record extends (o o' : Opm) : Prop := {
  ex_version : opm_version o' = opm_version o;
  ex_asset : opm_asset_id o' = opm_asset_id o;
  ex_size : opm_chunk_size o' = opm_chunk_size o;
  ex_threshold : opm_threshold o' = opm_threshold o;
  ex_edits : exists es, opm_edits o' = opm_edits o ++ es;
  ex_cps : exists cs, opm_checkpoints o' = opm_checkpoints o ++ cs /\
             Forall (fun c => Z.of_nat (length (opm_edits o)) < cp_leaf_count c) cs
}.

(** Continuing a manifest: edits by the signer, attestations by anyone. *)
Inductive continues (sg : Signer) (o : Opm) : bytes -> Opm -> Prop :=
| cont_here data : authoring sg data o -> continues sg o data o
| cont_edit data o1 data' action note now o2 :
    continues sg o data o1 -> Z.of_nat (length (opm_edits o1)) <= u64_max ->
    (forall c, last (opm_checkpoints o1) = Some c -> in_i64 (cp_timestamp c + 1)) ->
    append_edit (Ok data') sg action note (Ok now) o1 = (Ok tt, o2) -> continues sg o data' o2
| cont_attest data o1 attestor o2 :
    continues sg o data o1 -> signer_ok attestor -> attest attestor o1 = Ok o2 -> continues sg o data o2.

Lemma continues_authoring (sg : Signer) (o : Opm) (data : bytes) (o' : Opm) : continues sg o data o' -> authoring sg data o'.
Proof. induction 1; [done|by eapply auth_edit|by eapply auth_attest]. Qed.

Lemma append_edit_shape (data : bytes) (sg : Signer) (action : Action) (note : option string) (now : Z) (o o' : Opm) :
  append_edit (Ok data) sg action note (Ok now) o = (Ok tt, o') ->
  exists e c, opm_edits o' = opm_edits o ++ [e] /\ opm_checkpoints o' = opm_checkpoints o ++ [c] /\
    opm_version o' = opm_version o /\ opm_asset_id o' = opm_asset_id o /\ opm_chunk_size o' = opm_chunk_size o /\
    opm_threshold o' = opm_threshold o.
Proof.
  unfold append_edit. cbn [map_err]. destruct (asset_id_bytes o); [|done].
  destruct (stored_mmr _ ≫= _) as [c|]; [|done]. intros [= <-]. eexists _, c. done.
Qed.

Lemma attest_shape (s : Signer) (o o' : Opm) :
  attest s o = Ok o' -> opm_edits o' = opm_edits o /\ opm_checkpoints o' = opm_checkpoints o /\
    opm_version o' = opm_version o /\ opm_asset_id o' = opm_asset_id o /\ opm_chunk_size o' = opm_chunk_size o /\
    opm_threshold o' = opm_threshold o.
Proof.
  unfold attest. intros E. apply result_bind_Ok in E as (? & _ & E). apply result_bind_Ok in E as (? & _ & E).
  apply result_bind_Ok in E as (? & _ & E). apply result_bind_Ok in E as (? & _ & E). by injection E as <-.
Qed.

Lemma continues_extends (sg : Signer) (o : Opm) (data : bytes) (o' : Opm) :
  signer_ok sg -> continues sg o data o' -> extends o o'.
Proof.
  intros Hs. induction 1 as [data _|data o1 data' action note now o2 C IH Hn Ht E|data o1 at_ o2 C IH Ha E].
  - split; try done; exists []; by rewrite app_nil_r.
  - pose proof (append_edit_shape _ _ _ _ _ _ _ E) as (e & c & Ee & Ec & Ev & Ea & Es & Et).
    assert (authoring sg data' o2) as A2 by (eapply continues_authoring; by eapply cont_edit).
    destruct (authoring_authored _ _ _ Hs A2) as (ls & A). destruct (authored_head _ _ _ _ A) as (c' & El & Hc & _).
    destruct (au_history _ _ _ _ A) as (aid & H). pose proof (Forall2_length _ _ _ (hi_leaves _ _ _ H)) as Hlen.
    destruct IH as [I1 I2 I3 I4 (es & I5) (cs & I6 & I7)]. split; try congruence.
    + exists (es ++ [e]). by rewrite Ee, I5, app_assoc.
    + exists (cs ++ [c]). split; [by rewrite Ec, I6, app_assoc|]. rewrite Forall_app. split; [done|]. repeat constructor.
      rewrite Ec, last_snoc in El. injection El as <-. rewrite Hc, <- Hlen, Ee, I5, !length_app. cbn. lia.
  - destruct (attest_shape _ _ _ E) as (Ee & Ec & Ev & Ea & Es & Et). destruct IH as [I1 I2 I3 I4 (es & I5) (cs & I6 & I7)].
    split; try congruence; [by exists es; rewrite Ee|]. exists cs. by rewrite Ec.
Qed.

Lemma filter_all {A : Type} (f : A -> bool) (l : list A) : Forall (fun x => f x = true) l -> List.filter f l = l.
Proof. induction 1 as [|x l Hx _ IH]; cbn; [done|]. by rewrite Hx, IH. Qed.
Lemma filter_none {A : Type} (f : A -> bool) (l : list A) : Forall (fun x => f x = false) l -> List.filter f l = [].
Proof. induction 1 as [|x l Hx _ IH]; cbn; [done|]. by rewrite Hx, IH. Qed.

(** The id of a history is the prefix id of every continuation. *)
Lemma manifest_id_at_extends (sg : Signer) (data : bytes) (ls : list bytes) (o o' : Opm) :
  authored sg data ls o -> extends o o' -> manifest_id_at (Z.of_nat (length (opm_edits o))) o' = manifest_id o.
Proof.
  intros A [E1 E2 E3 E4 (es & E5) (cs & E6 & E7)]. destruct (au_history _ _ _ _ A) as (aid & H).
  pose proof (Forall2_length _ _ _ (hi_leaves _ _ _ H)) as Hlen. unfold manifest_id_at, manifest_id.
  rewrite E5, E6, length_app. destruct (Z.ltb_spec (Z.of_nat (length (opm_edits o) + length es)) (Z.of_nat (length (opm_edits o)))); [lia|].
  rewrite Nat2Z.id, take_app_length, List.filter_app, filter_all, filter_none, app_nil_r.
  - unfold asset_id_bytes. by rewrite E1, E2, E3, E4.
  - eapply Forall_impl; [exact E7|]. intros c Hc. cbn in *. lia.
  - eapply Forall_impl; [apply (hi_bound _ _ _ H)|]. intros c Hc. cbn in *. lia.
Qed.

Lemma hex_inj (a b : bytes) : hex_encode a = hex_encode b -> a = b.
Proof. intros E. pose proof (hex_roundtrip a) as Ha. rewrite E, hex_roundtrip in Ha. congruence. Qed.

Lemma concat_32_inj (l k : list bytes) (r s : bytes) :
  length l = length k -> Forall len32 l -> Forall len32 k -> concat l ++ r = concat k ++ s -> l = k.
Proof.
  revert k. induction l as [|a l IH]; intros [|b k] Hn Hl Hk E; try done. cbn in *.
  apply Forall_cons in Hl as [Ha Hl], Hk as [Hb Hk]. rewrite <- !app_assoc in E. apply app_inj_len in E as [-> E]; [|congruence].
  f_equal. apply IH; [lia|done..].
Qed.

(** Equal ids: equal leaf hashes, or a collision. *)
Lemma manifest_id_binds (v v' cs cs' : Z) (a a' : bytes) (l l' : list bytes) (c c' : list CheckpointBasis) (t t' : option Z) :
  length a = 32%nat -> length a' = 32%nat -> Forall len32 l -> Forall len32 l' ->
  Z.of_nat (length l) <= u64_max -> Z.of_nat (length l') <= u64_max ->
  manifest_id_of v a cs l c t = manifest_id_of v' a' cs' l' c' t' -> l = l' \/ collision sha3_256.
Proof.
  intros Ha Ha' Hl Hl' Hn Hn' E. unfold manifest_id_of in E. apply hash_eq_or_collision in E as [E|]; [left|by right].
  unfold manifest_signable_bytes in E. apply app_inv_head in E. apply app_inj_len in E as [_ E]; [|done].
  apply app_inj_len in E as [_ E]; [|congruence]. apply app_inj_len in E as [_ E]; [|by rewrite !be_bytes_length].
  apply app_inj_len in E as [En E]; [|by rewrite !be_bytes_length].
  apply be_bytes_inj in En; [|change (256 ^ Z.of_nat 8) with (u64_max + 1); lia..].
  apply concat_32_inj in E; [done|lia|done..].
Qed.

Lemma stored_len32 (es : list Edit) (ls : list bytes) : mapM self_leaf_hash es = Ok ls -> Forall len32 ls /\ length ls = length es.
Proof.
  revert ls. induction es as [|e es IH]; intros ls E; simpl in E; [by injection E as <-|].
  destruct (self_leaf_hash e) as [l|] eqn:El; [|done]. cbn [mbind result_mbind] in E.
  destruct (mapM self_leaf_hash es) as [ks|] eqn:Ek; [|done]. cbn in E. injection E as <-.
  destruct (IH ks eq_refl) as [H1 H2]. split; [constructor; [by eapply decode32_len|done]|]. cbn. by rewrite H2.
Qed.

(** What an accepted anchor says of the manifest it was checked against. *)
Lemma verify_anchor_true (a : Anchor) (o : Opm) :
  0 <= an_edit_count a -> verify_anchor a o = Ok true ->
  an_edit_count a <= Z.of_nat (length (opm_edits o)) /\
  exists leaves cps aid, mapM self_leaf_hash (take (Z.to_nat (an_edit_count a)) (opm_edits o)) = Ok leaves /\ length aid = 32%nat /\
    an_manifest_id a = hex_encode (manifest_id_of (opm_version o) aid (opm_chunk_size o) leaves cps (opm_threshold o)).
Proof.
  intros H0 E. unfold verify_anchor in E. apply result_bind_Ok in E as (h & Eh & E). destruct h; [|done].
  destruct (Z.eqb_spec (Z.of_nat (length (opm_edits o))) (an_edit_count a)) as [Hn|Hn].
  - split; [lia|]. rewrite <- Hn, Nat2Z.id, firstn_all. apply result_bind_Ok in Eh as (id & Eid & Eh). injection Eh as Eh.
    apply bool_decide_eq_true in Eh. unfold manifest_id in Eid. apply result_bind_Ok in Eid as (ls & El & Eid).
    apply result_bind_Ok in Eid as (cps & Ec & Eid). apply result_bind_Ok in Eid as (aid & Ea & Eid). injection Eid as <-.
    exists ls, cps, aid. split; [done|]. split; [by eapply decode32_len|done].
  - destruct (Z.ltb_spec (an_edit_count a) (Z.of_nat (length (opm_edits o)))); [|done]. split; [lia|].
    apply result_bind_Ok in Eh as (id & Eid & Eh). injection Eh as Eh. apply bool_decide_eq_true in Eh.
    unfold manifest_id_at in Eid.
    destruct (Z.ltb_spec (Z.of_nat (length (opm_edits o))) (an_edit_count a)); [lia|]. apply result_bind_Ok in Eid as (ls & El & Eid).
    apply result_bind_Ok in Eid as (cps & Ec & Eid). apply result_bind_Ok in Eid as (aid & Ea & Eid). injection Eid as <-.
    exists ls, cps, aid. split; [done|]. split; [by eapply decode32_len|done].
Qed.

Lemma anchor_Ok (sg : Signer) (o : Opm) (a : Anchor) :
  signer_ok sg -> anchor sg o = Ok a -> exists id aid sig, manifest_id o = Ok id /\ asset_id_bytes o = Ok aid /\
    signer_sign sg (anchor_payload_input (Z.of_nat (length (opm_edits o))) id aid) = Ok sig /\
    hybrid_sig_to_base64 sig = Ok (an_signature a) /\ an_manifest_id a = hex_encode id /\
    an_edit_count a = Z.of_nat (length (opm_edits o)) /\ an_signer_fingerprint a = fingerprint_hex sg /\
    an_keys a = Some (public_keys sg).
Proof.
  intros Hs E. unfold anchor in E. apply result_bind_Ok in E as (id & E1 & E). apply result_bind_Ok in E as (aid & E2 & E).
  apply result_bind_Ok in E as (sig & E3 & E). apply result_bind_Ok in E as (b & E4 & E). injection E as <-.
  apply map_err_Ok in E3. by exists id, aid, sig.
Qed.

Lemma sig_from_base64 (sig : HybridSig) (b : string) : hybrid_sig_to_base64 sig = Ok b -> hybrid_sig_from_base64 b = Ok sig.
Proof.
  unfold hybrid_sig_to_base64. intros E. apply result_bind_Ok in E as (raw & Er & E). injection E as <-. apply map_err_Ok in Er.
  unfold hybrid_sig_from_base64. rewrite b64_roundtrip. cbn [map_err mbind result_mbind]. by rewrite (decode_encode_sig _ _ Er).
Qed.

Lemma anchor_accepts (sg : Signer) (data data' : bytes) (ls ls' : list bytes) (o o' : Opm) (a : Anchor) :
  signer_ok sg -> authored sg data ls o -> authored sg data' ls' o' -> extends o o' -> anchor sg o = Ok a ->
  verify_anchor a o' = Ok true.
Proof.
  intros Hs A A' X Ea. destruct (anchor_Ok _ _ _ Hs Ea) as (id & aid & sig & E1 & E2 & E3 & E4 & E5 & E6 & E7 & E8).
  pose proof (manifest_id_at_extends _ _ _ _ _ A X) as Hid. pose proof (ex_edits _ _ X) as (es & Ees).
  unfold verify_anchor. rewrite E6, E5, E7, E8, Hid, E1.
  assert ((if Z.of_nat (length (opm_edits o')) =? Z.of_nat (length (opm_edits o)) then
             id' ← manifest_id o'; Ok (bool_decide (hex_encode id' = hex_encode id))
           else if Z.of_nat (length (opm_edits o)) <? Z.of_nat (length (opm_edits o')) then
             id' ← Ok id; Ok (bool_decide (hex_encode id' = hex_encode id)) else Ok false) = @Ok ProvenanceError bool true) as ->.
  { destruct (Z.eqb_spec (Z.of_nat (length (opm_edits o'))) (Z.of_nat (length (opm_edits o)))) as [En|].
    - assert (extends o' o') as X' by (split; try done; exists []; by rewrite app_nil_r).
      pose proof (manifest_id_at_extends _ _ _ _ _ A' X') as Hid'. rewrite En, Hid, E1 in Hid'.
      rewrite <- Hid'. cbn [mbind result_mbind]. by rewrite bool_decide_eq_true_2.
    - rewrite Ees, length_app in *. destruct (Z.ltb_spec (Z.of_nat (length (opm_edits o))) (Z.of_nat (length (opm_edits o) + length es))); [|lia].
      cbn [mbind result_mbind]. by rewrite bool_decide_eq_true_2. }
  cbn [mbind result_mbind negb]. unfold asset_id_bytes in *. rewrite (ex_asset _ _ X), E2. cbn [mbind result_mbind].
  destruct Hs as [Hl Hf]. cbn [public_keys sk_ed25519_pk sk_falcon_pk]. rewrite !hex_roundtrip. cbn [map_err mbind result_mbind].
  rewrite Hl. cbn [Nat.eqb negb]. rewrite Hf. cbn [map_err mbind result_mbind]. unfold fingerprint_hex.
  rewrite bool_decide_eq_true_2 by done. cbn [negb]. destruct (authored_head _ _ _ _ A') as (c & El & _). rewrite El.
  cbn [mbind result_mbind]. pose proof (au_cps _ _ _ _ A') as Hc. rewrite Forall_forall in Hc.
  destruct (Hc c ltac:(rewrite list_elem_of_lookup; rewrite last_lookup in El; eauto)) as [Hfp _]. rewrite Hfp.
  rewrite bool_decide_eq_true_2 by done. cbn [negb]. rewrite (sig_from_base64 _ _ E4). cbn [mbind result_mbind].
  by rewrite (verify_sign _ _ _ E3).
Qed.

End Anchors.

(** The signed announcement of a head: it is accepted for every continuation
    of the history by its signer, refused for every manifest with fewer edits,
    and any manifest it is accepted for starts with the same leaf hashes,
    unless SHA3-256 collides. *)
Theorem anchor_detects_truncation
    `{SK : Sdk, PV : !ProvOps, AC : AttestCrypto, SE : ProvSerde, HX : !HexOk, HO : !HashOk, SO : !SigOk, PO : !ProvOk}
    (sg : Signer) (data : bytes) (o : Opm) (a : Anchor) :
  signer_ok sg -> authoring sg data o -> anchor sg o = Ok a -> Z.of_nat (length (opm_edits o)) <= u64_max ->
  (forall data' o', continues sg o data' o' -> verify_anchor a o' = Ok true) /\
  (forall o', (length (opm_edits o') < length (opm_edits o))%nat -> verify_anchor a o' <> Ok true) /\
  (forall o', verify_anchor a o' = Ok true ->
     (exists ls, mapM self_leaf_hash (opm_edits o) = Ok ls /\
        mapM self_leaf_hash (take (length (opm_edits o)) (opm_edits o')) = Ok ls) \/ collision sha3_256).
Proof.
  intros Hs Ha Ea Hn. destruct (authoring_authored _ _ _ Hs Ha) as (ls & A).
  destruct (anchor_Ok _ _ _ Hs Ea) as (id & aid & sig & E1 & _ & _ & _ & E5 & E6 & _). repeat split.
  - intros data' o' C. destruct (authoring_authored _ _ _ Hs (continues_authoring _ _ _ _ C)) as (ls' & A').
    eapply anchor_accepts; [done|exact A|exact A'|by eapply continues_extends|done].
  - intros o' Hlt E. apply verify_anchor_true in E as [Hle _]; lia.
  - intros o' E. apply verify_anchor_true in E as (Hle & ls' & cps' & aid' & El' & Hl' & Eid'); [|lia].
    rewrite E6, Nat2Z.id in El'. unfold manifest_id in E1. apply result_bind_Ok in E1 as (ls0 & El & E1).
    apply result_bind_Ok in E1 as (cps & Ec & E1). apply result_bind_Ok in E1 as (aid0 & Eaid & E1). injection E1 as <-.
    rewrite E5 in Eid'. apply hex_inj in Eid'. destruct (stored_len32 _ _ El) as [F1 L1], (stored_len32 _ _ El') as [F2 L2].
    rewrite length_take in L2. apply decode32_len in Eaid.
    apply manifest_id_binds in Eid' as [->|]; [left; by exists ls'|by right|done..|lia|lia].
Qed.

(** ** The chunk tree *)

Section Tree.
Context `{SK : Sdk, PV : !ProvOps, HX : !HexOk, HO : !HashOk}.

Lemma pair_level_length (l : list bytes) : length (pair_level l) = ((length l + 1) / 2)%nat.
Proof.
  induction l as [l IH] using (induction_ltof1 _ length). unfold ltof in IH.
  destruct l as [|a [|b l]]; [done..|]. cbn [pair_level length]. rewrite IH by (cbn; lia).
  replace (S (S (length l)) + 1)%nat with (length l + 1 + 1 * 2)%nat by lia. rewrite Nat.div_add by lia. lia.
Qed.

(** The rounds end in one node; with two leaves or more, the hash of a pair. *)
Lemma merkle_loop_node (fuel : nat) (l : list bytes) :
  Forall len32 l -> (2 <= length l <= fuel)%nat ->
  exists x y, merkle_loop fuel l = [blake3 (x ++ y)] /\ len32 x /\ len32 y.
Proof.
  revert l. induction fuel as [|fuel IH]; intros l Hl Hf; [lia|]. cbn [merkle_loop].
  destruct (Nat.ltb_spec 1 (length l)) as [_|]; [|lia].
  destruct (decide (length l = 2%nat)) as [E|E].
  - destruct l as [|a [|b [|c l]]]; try (cbn in E; lia). cbn [pair_level].
    apply Forall_cons in Hl as [Ha Hl]. apply Forall_cons in Hl as [Hb _]. exists a, b. split; [|done]. by destruct fuel.
  - apply IH; [by apply pair_level_len|]. rewrite pair_level_length.
    split; [apply Nat.div_le_lower_bound; lia|]. apply Nat.lt_succ_r, Nat.Div0.div_lt_upper_bound; lia.
Qed.

Lemma merkle_loop_one (fuel : nat) (x : bytes) : merkle_loop fuel [x] = [x].
Proof. by destruct fuel. Qed.

(** Data that fits into one chunk. *)
Lemma data_chunks_one (data : bytes) (cs : Z) :
  data <> [] -> Z.of_nat (length data) <= Z.max cs 1 -> data_chunks data cs = [data].
Proof.
  intros Hd Hl. unfold data_chunks. destruct data as [|a data]; [done|]. cbn [length] in *. cbn [file_chunks].
  rewrite take_ge, drop_ge by (cbn [length]; lia). f_equal. by destruct (length data).
Qed.

Lemma data_chunks_bytes (data : bytes) (cs : Z) : cs <= 1 -> length (data_chunks data cs) = length data.
Proof.
  intros Hc. unfold data_chunks. replace (Z.to_nat (Z.max cs 1)) with 1%nat by lia.
  induction data as [|a data IH]; [done|]. cbn. f_equal. exact IH.
Qed.
End Tree.

(** A manifest created with chunk size zero records the tree over single bytes
    and the default chunk size: for a file of two to sixty-three bytes
    its own verification can only succeed by a collision of BLAKE3. *)
Theorem zero_chunk_size_unverifiable
    `{SK : Sdk, PV : !ProvOps, AC : AttestCrypto, SE : ProvSerde, HX : !HexOk, HO : !HashOk}
    (data : bytes) (sg : Signer) (action : Action) (now : result ProvenanceError Z) (o : Opm)
    (fs : Fs) (system_now : Z) (asset : string) (policy : VerifyPolicy) (r : IntactReport) :
  (2 <= length data < 64)%nat -> create_from_bytes data sg action 0 now = Ok o ->
  opm_load fs (sidecar_path asset) = Ok o -> fs_read fs asset = Ok data ->
  verify_opm fs system_now asset None policy = Some (Intact r) -> collision blake3.
Proof.
  intros Hd E Hl Hr V. apply verify_opm_Intact in V as (o1 & d1 & L1 & R1 & A). cbn [default] in L1.
  assert (o1 = o) as -> by congruence. assert (d1 = data) as -> by congruence.
  unfold create_from_bytes in E. apply result_bind_Ok in E as (mmr & _ & E). apply result_bind_Ok in E as (c & _ & E).
  injection E as <-. destruct (ac_content _ _ _ _ A) as (e & El & M). cbn in El. injection El as <-.
  apply andb_prop in M as [M _]. apply bool_decide_eq_true in M. cbn [ed_content from_hashes co_chunk_tree_root opm_chunk_size Z.eqb] in M.
  apply hex_inj in M. unfold chunk_tree_root, merkle_root_from_leaf_hashes in M.
  rewrite (data_chunks_one data DEFAULT_CHUNK_SIZE) in M; [|by destruct data; [cbn in Hd; lia|]|unfold DEFAULT_CHUNK_SIZE; lia].
  cbn [map length merkle_loop Nat.ltb Nat.leb] in M.
  destruct (merkle_loop_node (length (map blake3 (data_chunks data 0))) (map blake3 (data_chunks data 0))) as (x & y & Ex & Hx & Hy).
  { apply Forall_forall. intros z Hz. apply list_elem_of_In, in_map_iff in Hz as (b & <- & _). apply blake3_len. }
  { rewrite length_map, data_chunks_bytes by done. lia. }
  rewrite Ex in M. apply hash_eq_or_collision in M as [M|]; [|done]. exfalso. apply (f_equal length) in M.
  rewrite length_app, Hx, Hy in M. lia.
Qed.

(** ** The stored chunk hashes *)

Section Relist.
Context `{SK : Sdk, PV : !ProvOps, AC : AttestCrypto, SE : ProvSerde}.

(** The same manifest with other lists of chunk hashes. *)
Definition relist_edit (f : Edit -> list string) (e : Edit) : Edit :=
  MkEdit (ed_index e) (ed_action e) (ed_note e) (ed_content e) (ed_leaf_hash e) (Some (f e)).
Definition relist (f : Edit -> list string) (o : Opm) : Opm :=
  MkOpm (opm_version o) (opm_asset_id o) (opm_chunk_size o) (map (relist_edit f) (opm_edits o)) (opm_checkpoints o)
    (opm_attestations o) (opm_threshold o) (opm_watermark_hint o) (opm_metadata o).
Definition with_report (rep : ChunkReport) (r : IntactReport) : IntactReport :=
  MkIntact (in_as_of r) rep (in_self_attestation_flag r) (in_unattested r) (in_k_discrepancy r) (in_c2pa r) (in_revocation r)
    (in_signer r) (in_manifest_id r).

Lemma mapM_relist (f : Edit -> list string) (es : list Edit) :
  mapM self_leaf_hash (map (relist_edit f) es) = mapM self_leaf_hash es.
Proof. induction es as [|e es IH]; [done|]. simpl. change (self_leaf_hash (relist_edit f e)) with (self_leaf_hash e). by rewrite IH. Qed.

Lemma replay_relist (f : Edit -> list string) (cps : list Checkpoint) (aid : bytes) (es : list Edit) (mmr : MmrState) (n : Z) :
  replay_edits cps aid mmr n (map (relist_edit f) es) = replay_edits cps aid mmr n es.
Proof.
  revert mmr n. induction es as [|e es IH]; intros mmr n; [done|]. cbn [map replay_edits].
  change (replayed_leaf aid (relist_edit f e)) with (replayed_leaf aid e). destruct (replayed_leaf aid e); [|done].
  destruct (append_hash mmr _); [|done]. cbn [mbind option_bind]. destruct (root _); [|done]. cbn [mbind option_bind].
  destruct (existsb _ cps); [done|]. apply IH.
Qed.

Lemma history_relist (f : Edit -> list string) (o : Opm) : check_mmr_history (relist f o) = check_mmr_history o.
Proof.
  unfold check_mmr_history. cbn [relist opm_checkpoints opm_edits opm_asset_id].
  destruct (opm_checkpoints o) as [|c cps]; [done|]. destruct (existsb _ (c :: cps)); [done|].
  destruct (scan_checkpoints None None (c :: cps)); [|done]. destruct (opm_edits o) as [|e es]; [done|]. cbn [map].
  change (ed_content (relist_edit f e)) with (ed_content e). destruct (hist _) as [w|]; [|done].
  change (relist_edit f e :: map (relist_edit f) es) with (map (relist_edit f) (e :: es)). by rewrite replay_relist.
Qed.

Lemma id_relist (f : Edit -> list string) (o : Opm) : manifest_id (relist f o) = manifest_id o.
Proof. unfold manifest_id. cbn [relist opm_edits]. rewrite mapM_relist. done. Qed.

Lemma id_at_relist (f : Edit -> list string) (o : Opm) (n : Z) : manifest_id_at n (relist f o) = manifest_id_at n o.
Proof.
  unfold manifest_id_at. cbn [relist opm_edits]. rewrite length_map, <- fmap_take. rewrite mapM_relist. done.
Qed.

Lemma anchor_relist (f : Edit -> list string) (o : Opm) (a : Anchor) : verify_anchor a (relist f o) = verify_anchor a o.
Proof. unfold verify_anchor. rewrite id_relist, id_at_relist. cbn [relist opm_edits]. by rewrite length_map. Qed.

Lemma loop_relist (f : Edit -> list string) (o : Opm) (id : bytes) (rv : list string) (ro : option (list string)) (atts : list Attestation) (d : list string) :
  attest_loop (relist f o) id rv ro d atts = attest_loop o id rv ro d atts.
Proof.
  revert d. induction atts as [|a atts IH]; intros d; [done|]. cbn [attest_loop].
  change (check_attestation (relist f o) id ro a) with (check_attestation o id ro a). destruct (check_attestation o id ro a); [|done].
  cbn [mbind result_mbind]. apply IH.
Qed.

Lemma attestations_relist (f : Edit -> list string) (o : Opm) (k : option Z) (rv : list string) (ro : option (list string)) :
  check_attestations (relist f o) k rv ro = check_attestations o k rv ro.
Proof.
  unfold check_attestations. rewrite id_relist. cbn [relist opm_attestations]. destruct (opm_attestations o) as [|a atts] eqn:E; [done|].
  destruct (manifest_id o); [|done]. cbn [map_err mbind result_mbind]. by rewrite loop_relist.
Qed.

End Relist.

(** The list of chunk hashes stored in an edit is bound by nothing: replacing
    it by any other list changes the chunk report and nothing else of an
    intact verdict. *)
Theorem chunk_list_unbound `{SK : Sdk, PV : !ProvOps, AC : AttestCrypto, SE : ProvSerde}
    (f : Edit -> list string) (o : Opm) (policy : VerifyPolicy) (data : bytes) (now : Z) (j : list RevocationRecord)
    (st : RevocationStatus) (ann : C2paAnnotation) (r : IntactReport) :
  verify_steps o policy (Ok data) now j st ann = Some (Ok r) ->
  exists e, last (opm_edits o) = Some e /\
    verify_steps (relist f o) policy (Ok data) now j st ann
    = Some (Ok (with_report (chunk_report data (opm_chunk_size o) (f e)) r)).
Proof.
  intros E. unfold verify_steps in *. destruct (check_content o (Ok data)) as [rep|] eqn:Ec; [|done].
  unfold check_content in Ec. cbn [map_err mbind result_mbind] in Ec. destruct (last (opm_edits o)) as [e|] eqn:El; [|done].
  exists e. split; [done|].
  assert (content_matches o e data = true) as Hm by (destruct (ed_chunk_hashes e), (content_matches o e data); done).
  assert (check_content (relist f o) (Ok data) = Ok (chunk_report data (opm_chunk_size o) (f e))) as ->.
  { unfold check_content. cbn [map_err mbind result_mbind relist opm_edits]. rewrite fmap_last, El. cbn.
    unfold content_matches in *. cbn [relist opm_chunk_size ed_content relist_edit]. by rewrite Hm. }
  rewrite history_relist, id_relist. destruct (check_mmr_history o) as [h|]; [|done]. cbn [mbind option_bind] in *.
  injection E as E. f_equal. apply result_bind_Ok in E as ([] & -> & E). cbn [mbind result_mbind].
  apply result_bind_Ok in E as (id & -> & E). cbn [mbind result_mbind].
  cbn [relist opm_edits opm_checkpoints opm_attestations]. rewrite length_map.
  case_match; [done|]. case_match; [done|]. apply result_bind_Ok in E as ([] & -> & E). cbn [mbind result_mbind].
  case_match; [done|]. case_match; [done|].
  assert (match vp_anchor policy with Some a => negb (match verify_anchor a (relist f o) with Ok b => b | Err _ => false end) | None => false end
          = match vp_anchor policy with Some a => negb (match verify_anchor a o with Ok b => b | Err _ => false end) | None => false end) as ->
    by (destruct (vp_anchor policy); [by rewrite anchor_relist|done]).
  case_match; [done|]. rewrite attestations_relist. apply result_bind_Ok in E as (th & -> & E). cbn [mbind result_mbind].
  by injection E as <-.
Qed.

(** ** Crashes *)

Section Total.
Context `{SK : Sdk, PV : !ProvOps, AC : AttestCrypto, SE : ProvSerde, HX : !HexOk, HO : !HashOk}.

Lemma replay_total (cps : list Checkpoint) (aid : bytes) (es : list Edit) (pre : list bytes) (n : Z) :
  Forall len32 pre -> is_Some (replay_edits cps aid (range pre) n es).
Proof.
  revert pre n. induction es as [|e es IH]; intros pre n Hp; cbn [replay_edits]; [by eexists|].
  destruct (replayed_leaf aid e) as [l|] eqn:El; [|by eexists]. assert (len32 l) as Hl by by eapply (replays_len aid e).
  rewrite range_snoc by done. cbn [mbind option_bind]. assert (Forall len32 (pre ++ [l])) as Hp' by by rewrite Forall_app, Forall_cons.
  rewrite root_range by done. cbn [mbind option_bind]. case_match; [by eexists|]. by apply IH.
Qed.

Lemma history_total (o : Opm) : is_Some (check_mmr_history o).
Proof.
  unfold check_mmr_history. destruct (opm_checkpoints o) as [|c cps]; [by eexists|]. case_match; [by eexists|].
  destruct (scan_checkpoints None None (c :: cps)); [|by eexists]. destruct (opm_edits o) as [|e es]; [by eexists|].
  destruct (hist _) as [w|]; [|by eexists].
  destruct (replay_total (c :: cps) (asset_id_of w) (e :: es) [] 0 ltac:(constructor)) as [res E].
  change mmr_new with (range []). rewrite E. by eexists.
Qed.

Lemma verify_steps_total (o : Opm) policy content now j st ann : is_Some (verify_steps o policy content now j st ann).
Proof.
  unfold verify_steps. destruct (check_content o content); [|by eexists]. destruct (history_total o) as [h ->]. by eexists.
Qed.

Lemma fmap_None_iff {A B : Type} (f : A -> B) (x : option A) : f <$> x = None <-> x = None.
Proof. by destruct x. Qed.

Lemma verify_None (fs : Fs) (now : Z) (asset : string) (side : option string) (policy : VerifyPolicy) :
  verify_opm fs now asset side policy = None <-> annotate_asset fs asset = None.
Proof.
  unfold verify_opm. case_match; [apply fmap_None_iff|]. destruct (opm_load fs _) as [o|]; [|apply fmap_None_iff].
  unfold verify_parsed. case_match; [apply fmap_None_iff|]. destruct (check_structure o); [|apply fmap_None_iff].
  unfold verify_loaded. destruct (annotate_asset fs asset) as [ann|]; cbn [mbind option_bind]; [|done].
  destruct (load_journal fs _) as [j st]. destruct (verify_steps_total o policy (fs_read fs asset) now j st ann) as [res ->]. done.
Qed.

End Total.

(** C24: Verification of a file with any manifest and policy returns a verdict, except
    that it crashes on exactly the PNG files whose first text chunk ends
    one byte after its keyword. *)
Theorem verify_crash_iff `{SK : Sdk, PV : !ProvOps, AC : AttestCrypto, SE : ProvSerde, HX : !HexOk, HO : !HashOk}
    (fs : Fs) (now : Z) (asset : string) (side : option string) (policy : VerifyPolicy) :
  verify_opm fs now asset side policy = None <->
  exists data body k, fs_read fs asset = Ok data /\ (8 < length data)%nat /\ take 8 data = PNG_MAGIC /\
    first_itxt data 8 body /\ position is_zero body = Some k /\ length body = (k + 2)%nat.
Proof.
  rewrite verify_None. unfold annotate_asset. destruct (fs_read fs asset) as [data|e].
  - rewrite annotation_panic_spec. split.
    + intros (Hl & Hm & body & k & H). by exists data, body, k.
    + intros (d & body & k & [= <-] & Hl & Hm & H). by split; [|split; [|exists body, k]].
  - split; [done|]. by intros (d & body & k & ? & _).
Qed.

(** ** A concrete instance *)

Module ToyProv.

Definition ops : @ProvOps Toy.sdk :=
  @Build_ProvOps Toy.sdk (fun seed _ => Ok seed) of_chars (fun s => Ok (chars s)).
#[global] Instance prov_ok : @ProvOk Toy.sdk ops.
Proof. constructor. intros b. cbn. by rewrite chars_of_chars. Qed.
Definition crypto : AttestCrypto := {|
  falcon_verify _ _ _ := true; Falcon1024Signer := unit; falcon_public_key _ := [byte_of 1]; falcon_sign _ m := Ok m;
  hmac_sha3_256 _ m := Ok m |}.
#[local] Existing Instances Toy.sdk ops crypto.

Definition key (n : Z) : bytes := replicate 32 (byte_of n).
Definition signer (n : Z) : Signer :=
  match signer_from_seed (key n) with Ok s => s | Err _ => MkSigner (key n) [] end.
Definition no_opm : Opm := MkOpm 0 "" 0 [] [] [] None None None.
Definition ok_opm (r : result ProvenanceError Opm) : Opm := match r with Ok o => o | Err _ => no_opm end.

(** Created on one file, edited once, attested by another signer. *)
Definition created : Opm := ok_opm (create_from_bytes (chars "hello") (signer 1) ActCapture 4 (Ok 100)).
Definition edited : Opm := snd (append_edit (Ok (chars "hello world")) (signer 1) ActEdit None (Ok 100) created).
Definition attested : Opm := ok_opm (attest (signer 2) edited).
Definition head : Anchor :=
  match anchor (signer 1) created with Ok a => a | Err _ => MkAnchor "" 0 "" None "" end.

Definition fs (file : bytes) : Fs := MkFs
  (fun p => if String.eqb p "a.txt" then Ok file else if String.eqb p "a.txt.opm" then Ok [] else Err "not found")
  (fun p => String.eqb p "a.txt" || String.eqb p "a.txt.opm") (fun _ => Ok []).
Definition serde (o : Opm) : ProvSerde := {|
  opm_from_str _ := Ok o; anchor_from_str _ := Err "none"; journal_from_str _ := Err "none" |}.
Definition policy : VerifyPolicy := MkPolicy (Some 100) 2 (Some 2) None None None (Some 2) (Some head).

Lemma signer_fine (n : Z) : n = 1 \/ n = 2 -> signer_ok (signer n).
Proof. intros [-> | ->]; split; by vm_compute. Qed.

Lemma created_authoring : authoring (signer 1) (chars "hello") created.
Proof. apply (auth_create _ _ ActCapture 4 100); [done|by vm_compute]. Qed.

Lemma edited_authoring : authoring (signer 1) (chars "hello world") edited.
Proof.
  apply (auth_edit _ (chars "hello") created _ ActEdit None 100); [apply created_authoring|by vm_compute| |by vm_compute].
  assert (Forall (fun c => in_i64 (cp_timestamp c + 1)) (opm_checkpoints created)) as Hf
    by (apply (bool_decide_unpack _); by vm_compute).
  intros c Hc. rewrite Forall_forall in Hf. apply Hf. rewrite list_elem_of_lookup. rewrite last_lookup in Hc. eauto.
Qed.

Lemma attested_authoring : authoring (signer 1) (chars "hello world") attested.
Proof.
  apply (auth_attest _ _ edited (signer 2)); [apply edited_authoring|apply signer_fine; by right|by vm_compute].
Qed.

End ToyProv.

Section ToyWitnesses.
#[local] Existing Instances Toy.sdk ToyProv.ops ToyProv.crypto.
#[local] Instance toy_serde : ProvSerde := ToyProv.serde ToyProv.attested.

Lemma toy_admits : admits ToyProv.policy (ToyProv.signer 1) ToyProv.attested 0 [] NoJournal.
Proof.
  split; try done.
  - intros n [= <-]. by vm_compute.
  - apply (proj1 (Forall_forall (fun c => cp_timestamp c <= wrap_i64 (100 + 2)) _)). apply (bool_decide_unpack _). by vm_compute.
  - intros a [= <-]. by vm_compute.
  - intros k [= <-]. done.
Qed.



Lemma anchor_detects_truncation_witness :
  verify_anchor ToyProv.head ToyProv.created = Ok true /\ verify_anchor ToyProv.head ToyProv.no_opm <> Ok true.
Proof.
  destruct (anchor_detects_truncation (ToyProv.signer 1) (chars "hello") ToyProv.created ToyProv.head) as (H1 & H2 & _).
  - apply ToyProv.signer_fine. by left.
  - apply ToyProv.created_authoring.
  - by vm_compute.
  - by vm_compute.
  - split; [eapply H1, cont_here, ToyProv.created_authoring|]. apply H2. apply Nat.ltb_lt. by vm_compute.
Defined.

Definition tiny : bytes := [byte_of 97; byte_of 0].
Definition zero_sized : Opm := ToyProv.ok_opm (create_from_bytes tiny (ToyProv.signer 1) ActCapture 0 (Ok 100)).

Lemma zero_chunk_size_unverifiable_witness : collision (blake3 (Sdk := Toy.sdk)).
Proof.
  destruct (@verify_opm Toy.sdk ToyProv.ops ToyProv.crypto (ToyProv.serde zero_sized) (ToyProv.fs tiny) 100 "a.txt" None default_verify_policy)
    as [[r| |]|] eqn:E; [|exfalso; revert E; by vm_compute..].
  apply (@zero_chunk_size_unverifiable Toy.sdk ToyProv.ops ToyProv.crypto (ToyProv.serde zero_sized) _ _ tiny (ToyProv.signer 1) ActCapture
           (Ok 100) zero_sized (ToyProv.fs tiny) 100 "a.txt" default_verify_policy r).
  - cbn. lia.
  - by vm_compute.
  - by vm_compute.
  - done.
  - exact E.
Defined.

Lemma chunk_list_unbound_witness :
  exists r, verify_steps (relist (fun _ => ["junk"]) ToyProv.attested) ToyProv.policy (Ok (chars "hello world")) 0 [] NoJournal no_annotation
            = Some (Ok r) /\ cr_matched (in_chunk_report r) = 0%nat.
Proof.
  destruct (verify_steps ToyProv.attested ToyProv.policy (Ok (chars "hello world")) 0 [] NoJournal no_annotation) as [[r|]|] eqn:E;
    [|exfalso; revert E; by vm_compute..].
  destruct (chunk_list_unbound (fun _ => ["junk"]) ToyProv.attested ToyProv.policy (chars "hello world") 0 [] NoJournal no_annotation r E)
    as (e & _ & E'). eexists. split; [exact E'|]. by vm_compute.
Defined.

Lemma verify_crash_iff_witness :
  exists data body k, fs_read (ToyProv.fs bad_png) "a.txt" = Ok data /\ (8 < length data)%nat /\ take 8 data = PNG_MAGIC /\
    first_itxt data 8 body /\ position is_zero body = Some k /\ length body = (k + 2)%nat.
Proof. apply (verify_crash_iff (ToyProv.fs bad_png) 0 "a.txt" None ToyProv.policy). by vm_compute. Defined.

End ToyWitnesses.
