(* ===== verification/License.v ===== *)
(** * License tokens (origin-provenance/src/license.rs)

    The signed payload, verification against the issuer pinned at build time,
    and the calendar of [format_unix].  serde is a parameter; the pin is the
    value of an environment variable at build time, an argument here. *)

From Stdlib Require Import Ascii String.
From S2P Require Import Prelude RustStr Bytes RustText Sdk Event Mmr Provenance HashChain Attest ProvVerify ProvProps ProvAnchor.

Definition LICENSE_VERSION : Z := 1.
Definition MAX_TIER : Z := 16.
Definition MAX_LICENSE_BYTES : Z := 16 * 1024.

Record License := MkLicense {
  li_v : Z;
  li_id : string;
  li_tier : Z;
  li_subject : string;
  li_issued_at : Z;
  li_expires_at : option Z;
  li_issuer_keys : SignerKeys;
  li_sig : string
}.

Class LicenseSerde := {
  license_from_str : string -> result string License;
  license_to_string_pretty : License -> result string string
}.

Definition license_payload (l : License) : bytes :=
  license_payload_input (li_v l) (li_id l) (li_tier l) (li_subject l) (li_issued_at l) (li_expires_at l).

Definition field_err (field : string) : ProvenanceError := PvInvalidLicense ("invalid license " +:+ field).

Definition has_control_chars (s : string) : bool := existsb (fun b => (code b <? 32) || (code b =? 127)) (chars s).

(** The length of a string in bytes. *)
Definition str_len (s : string) : Z := Z.of_nat (length (chars s)).

(** ** The calendar *)

(** Year, month and day of a day number since the epoch. *)
Definition civil_from_days (days : Z) : Z * Z * Z :=
  let z := days + 719468 in
  let era := z / 146097 in
  let doe := z mod 146097 in
  let yoe := (doe - doe / 1460 + doe / 36524 - doe / 146096) / 365 in
  let y := yoe + era * 400 in
  let doy := doe - (365 * yoe + yoe / 4 - yoe / 100) in
  let mp := (5 * doy + 2) / 153 in
  let d := doy - (153 * mp + 2) / 5 + 1 in
  let mth := if mp <? 10 then mp + 3 else mp - 9 in
  (if mth <=? 2 then y + 1 else y, mth, d).

(** [{:0w}]: zeros up to the width, the sign first. *)
Definition pad0 (w : nat) (z : Z) : string :=
  let digits := show_chars (Z.abs z) in
  let sign := if z <? 0 then ["-"%char] else [] in
  of_chars (sign ++ replicate (w - length sign - length digits) "0"%char ++ digits).

Definition format_unix (ts : Z) : string :=
  let days := ts / 86400 in
  let secs := ts mod 86400 in
  let '(y, mth, d) := civil_from_days days in
  pad0 4 y +:+ "-" +:+ pad0 2 mth +:+ "-" +:+ pad0 2 d +:+ "T" +:+ pad0 2 (secs / 3600) +:+ ":"
  +:+ pad0 2 (secs mod 3600 / 60) +:+ ":" +:+ pad0 2 (secs mod 60) +:+ "Z".

(** [i64] subtraction. *)
Definition seconds_remaining (l : License) (now : Z) : option Z := (fun e => wrap_i64 (e - now)) <$> li_expires_at l.
Definition format_expires (l : License) : string :=
  match li_expires_at l with None => "perpetual" | Some ts => format_unix ts end.

(** The pin: 64 hexadecimal digits. *)
Definition is_hexdigit (b : ascii) : bool :=
  is_digit b || ((97 <=? code b) && (code b <=? 102)) || ((65 <=? code b) && (code b <=? 70)).
Definition is_valid_pin (s : string) : bool := (str_len s =? 64) && forallb is_hexdigit (chars s).
Definition issuer_fingerprint (build_env : option string) : option string :=
  match build_env with Some s => if is_valid_pin s then Some s else None | None => None end.

Section Tokens.
Context `{PV : ProvOps, LS : LicenseSerde}.

Definition issuer_keys_bytes (l : License) : result ProvenanceError (bytes * bytes) :=
  ed ← map_err (fun e => PvInvalidLicense ("bad issuer ed25519_pk hex: " +:+ e)) (hex_decode (sk_ed25519_pk (li_issuer_keys l)));
  if negb (length ed =? 32)%nat then Err (PvInvalidLicense "issuer ed25519_pk must be 32 bytes")
  else
    falcon ← map_err (fun e => PvInvalidLicense ("bad issuer falcon_pk hex: " +:+ e)) (hex_decode (sk_falcon_pk (li_issuer_keys l)));
    Ok (ed, falcon).

Definition issuer_fingerprint_raw (l : License) : result ProvenanceError bytes :=
  '(ed, falcon) ← issuer_keys_bytes l; map_err PvCrypto (signer_fingerprint ed falcon).

(** The checks on the fields, before the keys are looked at. *)
Definition check_fields (l : License) : result ProvenanceError unit :=
  if negb (li_v l =? LICENSE_VERSION)
  then Err (PvInvalidLicense ("unsupported license version " +:+ show_Z (li_v l) +:+ " (expected " +:+ show_Z LICENSE_VERSION +:+ ")"))
  else if bool_decide (li_id l = "") || (128 <? str_len (li_id l)) then Err (field_err "id")
  else if (li_tier l =? 0) || (MAX_TIER <? li_tier l) then Err (field_err "tier")
  else if bool_decide (li_subject l = "") || (256 <? str_len (li_subject l)) then Err (field_err "subject")
  else if has_control_chars (li_id l) then Err (field_err "id (control character)")
  else if has_control_chars (li_subject l) then Err (field_err "subject (control character)")
  else if li_issued_at l <? 0 then Err (field_err "issued_at (negative)")
  else match li_expires_at l with
       | Some exp => if (exp <? 0) || (exp <? li_issued_at l) then Err (field_err "expires_at") else Ok tt
       | None => Ok tt
       end.

Definition license_verify (l : License) (expected_issuer_fp : bytes) : result ProvenanceError unit :=
  _ ← check_fields l;
  '(ed, falcon) ← issuer_keys_bytes l;
  fp ← issuer_fingerprint_raw l;
  if negb (bool_decide (fp = expected_issuer_fp))
  then Err (PvInvalidLicense "license issuer fingerprint does not match this build's pin — the license was not issued by this publisher")
  else
    sig ← hybrid_sig_from_base64 (li_sig l);
    if hybrid_verify sig ed falcon (license_payload l) then Ok tt else Err (PvInvalidLicense "license signature invalid: ").

Definition license_parse (text : string) : result ProvenanceError License :=
  if MAX_LICENSE_BYTES <? str_len text
  then Err (PvInvalidLicense ("license file too large (" +:+ show_Z (str_len text) +:+ " bytes > " +:+ show_Z MAX_LICENSE_BYTES +:+ ")"))
  else map_err (fun e => PvInvalidLicense ("bad license JSON: " +:+ e)) (license_from_str text).

Definition license_write (l : License) : result ProvenanceError string :=
  map_err (fun e => PvInvalidLicense ("serialize: " +:+ e)) (license_to_string_pretty l).

End Tokens.

(** ** The Gregorian calendar *)

Definition leap (y : Z) : bool := (y mod 4 =? 0) && (negb (y mod 100 =? 0) || (y mod 400 =? 0)).
Definition month_len (y m : Z) : Z :=
  if m =? 2 then (if leap y then 29 else 28) else if (m =? 4) || (m =? 6) || (m =? 9) || (m =? 11) then 30 else 31.
(** Days of the year before a month. *)
Definition days_before_month (y m : Z) : Z :=
  list_sum (map (fun i => month_len y (Z.of_nat i)) (seq 1 (Z.to_nat (m - 1)))).
(** Days before the first of January of a year. *)
Definition days_before_year (y : Z) : Z := 365 * (y - 1) + (y - 1) / 4 - (y - 1) / 100 + (y - 1) / 400.
(** The day number of a date, counted from the first of January 1970. *)
Definition day_number (y m d : Z) : Z :=
  days_before_year y + days_before_month y m + (d - 1) - 719162.
Definition valid_date (y m d : Z) : bool := (1 <=? m) && (m <=? 12) && (1 <=? d) && (d <=? month_len y m).

(** The year of the era and the day of its year, counted from March. *)
Lemma era_year (doe : Z) :
  0 <= doe < 146097 ->
  let yoe := (doe - doe / 1460 + doe / 36524 - doe / 146096) / 365 in
  let doy := doe - (365 * yoe + yoe / 4 - yoe / 100) in
  0 <= yoe < 400 /\ 0 <= doy <= 365 /\ (doy = 365 -> leap (yoe + 1) = true).
Proof.
  intros H. cbv zeta. split; [Z.div_mod_to_equations; lia|]. split; [Z.div_mod_to_equations; lia|].
  intros E. unfold leap. set (yoe := _ / 365) in *.
  assert ((yoe + 1) mod 4 = 0) as -> by (unfold yoe in *; Z.div_mod_to_equations; lia).
  assert ((yoe + 1) mod 100 <> 0 \/ (yoe + 1) mod 400 = 0) as Hc by (unfold yoe in *; Z.div_mod_to_equations; lia).
  destruct (Z.eqb_spec ((yoe + 1) mod 100) 0), (Z.eqb_spec ((yoe + 1) mod 400) 0); cbn; lia.
Qed.


Lemma days_before_year_next (y : Z) : days_before_year (y + 1) = days_before_year y + (if leap y then 366 else 365).
Proof.
  unfold days_before_year, leap. replace (y + 1 - 1) with y by lia.
  destruct (Z.eqb_spec (y mod 4) 0), (Z.eqb_spec (y mod 100) 0), (Z.eqb_spec (y mod 400) 0); cbn [andb orb negb];
    Z.div_mod_to_equations; lia.
Qed.

Lemma era_days_before (yoe : Z) : 0 <= yoe < 400 -> days_before_year (yoe + 1) = 365 * yoe + yoe / 4 - yoe / 100.
Proof. intros H. unfold days_before_year. replace (yoe + 1 - 1) with yoe by lia. rewrite (Z.div_small yoe 400) by lia. lia. Qed.

Lemma days_before_month_table (y : Z) :
  map (days_before_month y) [1; 2; 3; 4; 5; 6; 7; 8; 9; 10; 11; 12] =
  0 :: 31 :: map (fun n => (if leap y then 1 else 0) + n) [59; 90; 120; 151; 181; 212; 243; 273; 304; 334].
Proof. unfold days_before_month, month_len. by destruct (leap y). Qed.

Lemma era_day (doe : Z) :
  0 <= doe < 146097 ->
  let '(y, m, d) := civil_from_days (doe - 719468) in valid_date y m d = true /\ day_number y m d = doe - 719468.
Proof.
  intros H. unfold civil_from_days. replace (doe - 719468 + 719468) with doe by lia.
  rewrite (Z.div_small doe), (Z.mod_small doe) by lia. pose proof (era_year doe H) as (Hy & Hd & Hl). cbv zeta in *.
  set (yoe := (doe - doe / 1460 + doe / 36524 - doe / 146096) / 365) in *.
  pose proof (era_days_before yoe Hy) as Hb. pose proof (days_before_year_next yoe) as Hn.
  set (doy := doe - (365 * yoe + yoe / 4 - yoe / 100)) in *.
  assert (doe = doy + days_before_year (yoe + 1)) as Hdoe by (unfold doy; lia). clearbody yoe doy.
  set (mp := (5 * doy + 2) / 153). assert (0 <= mp <= 11 /\ 153 * mp <= 5 * doy + 2 < 153 * mp + 153) as [Hm Hmp]
    by (unfold mp; Z.div_mod_to_equations; lia). clearbody mp.
  pose proof (days_before_month_table yoe) as T. pose proof (days_before_month_table (yoe + 1)) as T'.
  cbn [map] in T, T'. injection T as ? ? ? ? ? ? ? ? ? ?. injection T' as ? ? ? ? ? ? ? ? ? ?.
  rewrite Z.mul_0_l, Z.add_0_r. set (q := (153 * mp + 2) / 5).
  assert (5 * q <= 153 * mp + 2 < 5 * q + 5) as Hq by (unfold q; Z.div_mod_to_equations; lia). clearbody q.
  set (mth := if mp <? 10 then mp + 3 else mp - 9).
  assert (mp < 10 /\ mth = mp + 3 \/ 10 <= mp /\ mth = mp - 9) as Hmth by (unfold mth; destruct (Z.ltb_spec mp 10); lia).
  clearbody mth. assert (In mth [1; 2; 3; 4; 5; 6; 7; 8; 9; 10; 11; 12]) as Hc by (cbn; lia). cbn [In] in Hc.
  unfold valid_date, day_number, month_len.
  assert (days_before_month (yoe + 1) 1 = 0) by done. assert (days_before_month (yoe + 1) 2 = 31) by done.
  assert (leap (yoe + 1) = true \/ doy < 365) as Hl' by (destruct (decide (doy = 365)); [left; auto|right; lia]). clear Hl H Hb.
  repeat (destruct Hc as [<- |Hc]; [cbn [Z.leb Z.eqb Z.compare Pos.compare Pos.compare_cont Pos.eqb andb orb];
    destruct (leap yoe), (leap (yoe + 1)); destruct Hl'; try done; lia|]). done.
Qed.

Lemma leap_era (y k : Z) : leap (y + k * 400) = leap y.
Proof.
  unfold leap. rewrite Z.mod_add by lia.
  replace ((y + k * 400) mod 4) with ((y + k * 100 * 4) mod 4) by (f_equal; lia).
  replace ((y + k * 400) mod 100) with ((y + k * 4 * 100) mod 100) by (f_equal; lia). by rewrite !Z.mod_add by lia.
Qed.

Lemma month_len_era (y k m : Z) : month_len (y + k * 400) m = month_len y m.
Proof. unfold month_len. by rewrite leap_era. Qed.

Lemma day_number_era (y k m d : Z) : day_number (y + k * 400) m d = day_number y m d + k * 146097.
Proof.
  unfold day_number. assert (days_before_month (y + k * 400) m = days_before_month y m) as ->.
  { unfold days_before_month. f_equal. apply map_ext. intros i. apply month_len_era. }
  unfold days_before_year. Z.div_mod_to_equations. lia.
Qed.

Lemma civil_era (days : Z) :
  let k := (days + 719468) / 146097 in
  civil_from_days days = (let '(y, m, d) := civil_from_days ((days + 719468) mod 146097 - 719468) in (y + k * 400, m, d)).
Proof.
  unfold civil_from_days. set (z := days + 719468). replace (z mod 146097 - 719468 + 719468) with (z mod 146097) by lia.
  pose proof (Z.mod_pos_bound z 146097 ltac:(lia)) as Hz.
  rewrite !(Z.mod_small (z mod 146097) 146097), !(Z.div_small (z mod 146097) 146097) by exact Hz.
  cbv zeta. set (mth := if _ <? 10 then _ else _). set (yoe := _ / 365). clearbody mth yoe.
  destruct (mth <=? 2); f_equal; f_equal; lia.
Qed.

(** The date that [format_unix] prints is the Gregorian date: month and day
    are in range, the day number is the one of the instant, for every
    instant; and the time of day adds up. *)
Theorem format_unix_calendar (ts : Z) :
  let '(y, m, d) := civil_from_days (ts / 86400) in
  valid_date y m d = true /\ day_number y m d = ts / 86400 /\
  ts = day_number y m d * 86400 + (ts mod 86400) / 3600 * 3600 + (ts mod 86400) mod 3600 / 60 * 60 + (ts mod 86400) mod 60 /\
  (ts mod 86400) / 3600 < 24.
Proof.
  set (days := ts / 86400). pose proof (civil_era days) as E. cbv zeta in E.
  set (doe := (days + 719468) mod 146097) in *. set (k := (days + 719468) / 146097) in *.
  pose proof (Z.mod_pos_bound (days + 719468) 146097 ltac:(lia)) as Hd. fold doe in Hd.
  pose proof (era_day doe ltac:(lia)) as Hok. destruct (civil_from_days (doe - 719468)) as [[y m] d].
  rewrite E. destruct Hok as [Hv Hn].
  assert (day_number (y + k * 400) m d = days) as Hday.
  { rewrite day_number_era, Hn. pose proof (Z.div_mod (days + 719468) 146097 ltac:(lia)) as Hz. fold doe k in Hz. lia. }
  split; [unfold valid_date in *; by rewrite month_len_era|]. split; [done|]. rewrite Hday. unfold days.
  pose proof (Z.div_mod ts 86400 ltac:(lia)). pose proof (Z.mod_pos_bound ts 86400 ltac:(lia)).
  set (s := ts mod 86400) in *. split; [|apply Z.div_lt_upper_bound; lia].
  pose proof (Z.div_mod s 3600 ltac:(lia)). pose proof (Z.div_mod (s mod 3600) 60 ltac:(lia)).
  assert (s mod 60 = (s mod 3600) mod 60) as ->; [|lia].
  rewrite (Z.div_mod s 3600) at 1 by lia. replace (3600 * (s / 3600)) with (s / 3600 * 60 * 60) by lia.
  rewrite Z.add_comm, Z.mod_add by lia. done.
Qed.

(** ** What an accepted token says *)

Section Accepted.
Context `{PV : ProvOps, LS : LicenseSerde}.

(** The fields the signature covers. *)
Definition license_facts (l : License) : Z * string * Z * string * Z * option Z :=
  (li_v l, li_id l, li_tier l, li_subject l, li_issued_at l, li_expires_at l).

(** The timestamps are [i64]s. *)
Definition license_i64 (l : License) : Prop :=
  li_issued_at l <= i64_max /\ match li_expires_at l with Some e => e <= i64_max | None => True end.

Lemma check_fields_Ok (l : License) :
  check_fields l = Ok tt ->
  li_v l = LICENSE_VERSION /\ 1 <= str_len (li_id l) <= 128 /\ (li_tier l <> 0 /\ li_tier l <= MAX_TIER) /\ 1 <= str_len (li_subject l) <= 256 /\
  has_control_chars (li_id l) = false /\ has_control_chars (li_subject l) = false /\ 0 <= li_issued_at l /\
  match li_expires_at l with Some e => li_issued_at l <= e | None => True end.
Proof.
  unfold check_fields. intros E.
  assert (forall s, s <> "" -> 1 <= str_len s) as Hs by (intros [|a s] ?; unfold str_len; cbn; [done|lia]).
  destruct (Z.eqb_spec (li_v l) LICENSE_VERSION); cbn [negb] in E; [|done].
  destruct (bool_decide_reflect (li_id l = "")); cbn [orb] in E; [done|]. destruct (Z.ltb_spec 128 (str_len (li_id l))); [done|].
  destruct (Z.eqb_spec (li_tier l) 0); cbn [orb] in E; [done|]. destruct (Z.ltb_spec MAX_TIER (li_tier l)); [done|].
  destruct (bool_decide_reflect (li_subject l = "")); cbn [orb] in E; [done|]. destruct (Z.ltb_spec 256 (str_len (li_subject l))); [done|].
  destruct (has_control_chars (li_id l)); [done|]. destruct (has_control_chars (li_subject l)); [done|].
  destruct (Z.ltb_spec (li_issued_at l) 0); [done|].
  assert (match li_expires_at l with Some e => li_issued_at l <= e | None => True end).
  { destruct (li_expires_at l) as [x|]; [|done]. destruct (Z.ltb_spec x 0); [done|]. cbn [orb] in E.
    destruct (Z.ltb_spec x (li_issued_at l)); [done|lia]. }
  auto 12.
Qed.

Lemma cons_inj {A : Type} (a b : A) (l k : list A) : a :: l = b :: k -> a = b /\ l = k.
Proof. by intros [= -> ->]. Qed.

Lemma length_prefixed_inj (s t : string) (r u : bytes) :
  str_len s <= 256 -> str_len t <= 256 ->
  be_bytes 4 (str_len s) ++ chars s ++ r = be_bytes 4 (str_len t) ++ chars t ++ u -> s = t /\ r = u.
Proof.
  intros Hs Ht E. apply app_inj_len in E as [En E]; [|by rewrite !be_bytes_length].
  apply be_bytes_inj in En; [|unfold str_len in *; change (256 ^ Z.of_nat 4) with 4294967296; lia..].
  apply app_inj_len in E as [Es E]; [|unfold str_len in En; lia]. split; [|done].
  by rewrite <- (of_chars_chars s), Es, of_chars_chars.
Qed.

Lemma license_payload_inj (l k : License) :
  check_fields l = Ok tt -> check_fields k = Ok tt -> 0 <= li_tier l -> 0 <= li_tier k -> license_i64 l -> license_i64 k ->
  license_payload l = license_payload k -> license_facts l = license_facts k.
Proof.
  intros Cl Ck Tl Tk (Il & Xl) (Ik & Xk) E.
  apply check_fields_Ok in Cl as (Vl & (_ & Ll) & (_ & Ml) & (_ & Sl) & _ & _ & Pl & El).
  apply check_fields_Ok in Ck as (Vk & (_ & Lk) & (_ & Mk) & (_ & Sk) & _ & _ & Pk & Ek).
  unfold license_payload, license_payload_input in E. apply app_inv_head in E. cbn [app] in E.
  apply (f_equal (drop 1)) in E. cbn [drop] in E.
  apply length_prefixed_inj in E as [Ei E]; [|lia..]. cbn [app] in E. apply cons_inj in E as [Et E].
  apply length_prefixed_inj in E as [Es E]; [|lia..].
  apply app_inj_len in E as [Ea E]; [|by rewrite !be_bytes_length].
  unfold i64_max in *. apply be_bytes_inj in Ea; [|change (256 ^ Z.of_nat 8) with 18446744073709551616; lia..].
  assert (li_tier l = li_tier k) as Ett.
  { apply (f_equal code) in Et. rewrite !code_byte_of in Et. unfold MAX_TIER in *. rewrite !Z.mod_small in Et by lia. done. }
  unfold license_facts. rewrite Vl, Vk, Ei, Ett, Es, Ea. f_equal.
  destruct (li_expires_at l) as [x|], (li_expires_at k) as [y|]; try done.
  apply cons_inj in E as [_ E]. apply be_bytes_inj in E; [by subst|change (256 ^ Z.of_nat 8) with 18446744073709551616; lia..].
Qed.

(** What acceptance means: the token's keys hash to the pinned fingerprint, its
    fields are in range, the payload carries a signature under those keys,
    and the payload determines every field: a token accepted under any
    pin whose payload is the same says the same. *)
Theorem license_accepted_binds (l : License) (fp : bytes) :
  license_verify l fp = Ok tt -> 0 <= li_tier l -> license_i64 l ->
  (1 <= li_tier l <= MAX_TIER /\ has_control_chars (li_subject l) = false /\
   match li_expires_at l with Some e => li_issued_at l <= e | None => True end) /\
  (exists ed falcon sig, signer_fingerprint ed falcon = Ok fp /\ hybrid_verify sig ed falcon (license_payload l) = true) /\
  (forall k fp', license_verify k fp' = Ok tt -> 0 <= li_tier k -> license_i64 k ->
     license_payload k = license_payload l -> license_facts k = license_facts l).
Proof.
  intros V Ht Hi. pose proof V as V0. unfold license_verify in V. apply result_bind_Ok in V as ([] & Cf & V).
  apply result_bind_Ok in V as ([ed falcon] & Ek & V). apply result_bind_Ok in V as (fp0 & Ef & V).
  destruct (bool_decide_reflect (fp0 = fp)) as [->|]; cbn [negb] in V; [|done].
  apply result_bind_Ok in V as (sig & _ & V). destruct (hybrid_verify sig ed falcon (license_payload l)) eqn:Hv; [|done].
  unfold issuer_fingerprint_raw in Ef. rewrite Ek in Ef. cbn [mbind result_mbind] in Ef.
  destruct (signer_fingerprint ed falcon) as [x|] eqn:Ex; [|done]. injection Ef as ->.
  split; [pose proof (check_fields_Ok _ Cf) as (_ & _ & ? & _ & _ & ? & _ & ?); repeat split; [lia|lia|done..]|].
  split; [by exists ed, falcon, sig|]. intros k fp' Vk Hk Hik E. unfold license_verify in Vk.
  apply result_bind_Ok in Vk as ([] & Ck & _). by apply license_payload_inj.
Qed.

End Accepted.

(** ** A concrete token *)

Module ToyLicense.
#[local] Existing Instances Toy.sdk ToyProv.ops.

Definition unsigned_license : License :=
  MkLicense 1 "lic-123" 1 "user@example.com" 1700000000 (Some 1800000000) (public_keys (ToyProv.signer 1)) "".
Definition token : License :=
  match (sig ← map_err PvCrypto (signer_sign (ToyProv.signer 1) (license_payload unsigned_license)); hybrid_sig_to_base64 sig) : result ProvenanceError string with
  | Ok sig => MkLicense 1 "lic-123" 1 "user@example.com" 1700000000 (Some 1800000000) (public_keys (ToyProv.signer 1)) sig
  | Err _ => unsigned_license
  end.
Definition pin : bytes := match issuer_fingerprint_raw token with Ok fp => fp | Err _ => [] end.

End ToyLicense.

Lemma license_accepted_binds_witness :
  @license_verify Toy.sdk ToyProv.ops ToyLicense.token ToyLicense.pin = Ok tt /\
  exists ed falcon sig, @signer_fingerprint Toy.sdk ed falcon = Ok ToyLicense.pin /\
    @hybrid_verify Toy.sdk sig ed falcon (license_payload ToyLicense.token) = true.
Proof.
  split; [by vm_compute|].
  apply (@license_accepted_binds Toy.sdk ToyProv.ops ToyLicense.token ToyLicense.pin); [by vm_compute|done|by split].
Defined.

(** The instants of the test suite. *)
Lemma format_unix_examples :
  format_unix 0 = "1970-01-01T00:00:00Z" /\ format_unix 1700000000 = "2023-11-14T22:13:20Z" /\
  format_unix (-1) = "1969-12-31T23:59:59Z" /\ format_unix 951782400 = "2000-02-29T00:00:00Z".
Proof. by vm_compute. Qed.
