(* ===== verification/StampProps.v ===== *)
(** * Stamps, watermarks and directory manifests: what they promise

    A watermark extracts to itself and the content it was embedded in; a
    directory checked against its own scan is classified file by file. *)

From Stdlib Require Import Ascii String.
From S2P Require Import Prelude RustStr Bytes RustText Sdk Event Provenance Stamp.

(** ** Text *)

Lemma drop_ws_stop (back : bool) (a : ascii) (l : list ascii) : plain a -> drop_ws back (a :: l) = a :: l.
Proof.
  intros [Ha Hw]. cbn. rewrite Hw. destruct l as [|b l]; [done|].
  assert ((if back then is_ws2 b a else is_ws2 a b) = false) as -> by (unfold is_ws2; destruct back; lia).
  destruct l as [|c l]; [done|].
  by assert ((if back then is_ws3 c b a else is_ws3 a b c) = false) as -> by (unfold is_ws3; destruct back; lia).
Qed.

(** A line ending after a text with plain ends is all that [trim] takes. *)
Lemma trim_line (a b : ascii) (m : list ascii) :
  plain a -> plain b -> trim_chars ((a :: m ++ [b]) ++ [newline]) = a :: m ++ [b].
Proof.
  intros Ha Hb. unfold trim_chars. cbn [app]. rewrite drop_ws_stop by done.
  replace (rev (a :: (m ++ [b]) ++ [newline])) with (newline :: b :: rev (a :: m)) by (cbn; by rewrite !rev_app_distr).
  change (drop_ws true (newline :: b :: rev (a :: m))) with (drop_ws true (b :: rev (a :: m))).
  rewrite drop_ws_stop by done. cbn [rev]. rewrite rev_app_distr. cbn. by rewrite rev_involutive.
Qed.

Lemma find_window_None (pat l : bytes) (i : nat) : find_window pat l = None -> starts_with pat (drop i l) = false.
Proof.
  revert i. induction l as [|a l IH]; intros i E; cbn [find_window] in E; destruct (starts_with pat _) eqn:Es; try done.
  - by destruct i.
  - destruct i as [|i]; [done|]. cbn. apply IH. by destruct (find_window pat l).
Qed.

Lemma starts_with_take (pat l : bytes) : starts_with pat l = true <-> take (length pat) l = pat.
Proof.
  unfold starts_with. revert l. induction pat as [|a pat IH]; intros l; [by destruct l|].
  destruct l as [|b l]; [done|]. cbn [strip_prefix length take]. destruct (Ascii.eqb_spec a b) as [->|Hn].
  - rewrite IH. split; [by intros ->|by intros [=]].
  - split; [done|]. by intros [=].
Qed.

(** ** Watermarks *)

(** The start marker overlaps itself in its last byte only. *)
Definition no_border (p : bytes) (m : nat) : bool := negb (bool_decide (drop m p = take (length p - m) p)).

Lemma marker_borders : forallb (no_border MARKER_START) (seq 1 26) = true.
Proof. by vm_compute. Qed.

Lemma marker_overlap (m : nat) (l : bytes) :
  (1 <= m <= 26)%nat -> starts_with MARKER_START (take m MARKER_START ++ MARKER_START ++ l) = false.
Proof.
  intros Hm. destruct (starts_with MARKER_START _) eqn:E; [exfalso|done]. apply starts_with_take in E.
  assert (length MARKER_START = 28)%nat as Hl by done.
  pose proof (proj1 (forallb_forall _ _) marker_borders m ltac:(apply in_seq; lia)) as B.
  apply negb_true_iff, bool_decide_eq_false in B. apply B. apply (f_equal (drop m)) in E. rewrite <- E at 1.
  assert (length (take m MARKER_START) = m) as Hk by (rewrite length_take; lia).
  rewrite skipn_firstn_comm, drop_app_length' by done. rewrite take_app_le by lia. done.
Qed.

Lemma marker_found (content l : bytes) :
  find_window MARKER_START (content ++ [newline]) = None ->
  find_window MARKER_START (content ++ MARKER_START ++ l) = Some (length content).
Proof.
  intros Hn. apply find_window_app. intros i Hi. destruct (starts_with MARKER_START _) eqn:E; [exfalso|done].
  assert (length MARKER_START = 28)%nat as Hl by done.
  pose proof (find_window_None _ _ i Hn) as Hf. rewrite drop_app_le in E, Hf by lia.
  set (c := drop i content) in *. assert (length c = length content - i)%nat as Hc by apply length_drop.
  destruct (decide (28 <= length c + 1)%nat) as [Hd|Hd].
  - apply not_true_iff_false in Hf. apply Hf. apply starts_with_take. apply starts_with_take in E. rewrite Hl in *.
    change MARKER_START with ([newline] ++ drop 1 MARKER_START) in E at 1. rewrite <- app_assoc, app_assoc in E.
    rewrite take_app_le in E; [done|]. rewrite length_app. cbn. lia.
  - assert (c = take (length c) MARKER_START) as Ec.
    { apply starts_with_take in E. rewrite <- E, take_take, Hl, Nat.min_l by lia. by rewrite take_app_length. }
    rewrite Ec, marker_overlap in E; [done|lia].
Qed.

Lemma end_found (a : ascii) (m : list ascii) (k : bytes) :
  (forall x, In x (a :: m ++ ["}"%char]) -> x <> newline) ->
  find_window MARKER_END (((a :: m ++ ["}"%char]) ++ [newline]) ++ MARKER_END ++ k) = Some (S (length (a :: m ++ ["}"%char]))).
Proof.
  intros Hj. set (j := a :: m ++ ["}"%char]) in *.
  rewrite find_window_app; [rewrite length_app; f_equal; cbn; lia|]. intros i Hi. rewrite length_app in Hi. cbn [length] in Hi.
  destruct (starts_with MARKER_END _) eqn:E; [exfalso|done]. apply starts_with_take in E.
  assert (length MARKER_END = 28)%nat as Hl by done. rewrite Hl in E.
  assert (forall q x, MARKER_END !! q = Some x -> (j ++ [newline] ++ MARKER_END ++ k) !! (i + q)%nat = Some x) as HE.
  { intros q x Hq. rewrite <- app_assoc in E. rewrite <- E in Hq. pose proof (lookup_lt_Some _ _ _ Hq) as Hlt. rewrite length_take in Hlt.
    rewrite lookup_take_lt in Hq by lia. by rewrite lookup_drop in Hq. }
  pose proof (HE 27%nat newline eq_refl) as H27. pose proof (HE 26%nat "-"%char eq_refl) as H26.
  destruct (Nat.lt_trichotomy (i + 27) (length j)) as [Hlt|[Heq|Hgt]].
  - rewrite lookup_app_l in H27 by done. apply (Hj newline); [|done]. by apply list_elem_of_In, (list_elem_of_lookup_2 _ (i + 27)).
  - rewrite lookup_app_l in H26 by lia. replace (i + 26)%nat with (length (a :: m)) in H26
      by (subst j; cbn [length] in *; rewrite length_app in Heq; cbn in Heq; lia).
    change j with ((a :: m) ++ ["}"%char]) in H26. rewrite lookup_app_r in H26 by lia. rewrite Nat.sub_diag in H26. done.
  - rewrite lookup_app_r in H27 by lia. destruct (i + 27 - length j)%nat as [|q] eqn:Eq; [lia|]. cbn [app] in H27.
    change ((newline :: MARKER_END ++ k) !! S q) with ((MARKER_END ++ k) !! q) in H27.
    assert (q <= 26)%nat as Hq by lia. rewrite lookup_app_l in H27 by (rewrite Hl; lia).
    do 27 (destruct q as [|q]; [done|]). lia.
Qed.

(** serde_json: compact text of an object, newlines escaped, read back as written. *)
Class WatermarkOk `{WatermarkSerde} : Prop := {
  watermark_text w j : watermark_to_string w = Ok j ->
    watermark_from_str j = Ok w /\ utf8_valid (chars j) = true /\ ~ In newline (chars j) /\
    exists m, chars j = "{"%char :: m ++ ["}"%char]
}.

(** Embedding and extracting: the watermark and the content come back, and the
    watermark of the content verifies, whenever the content, followed by a
    line ending, does not hold the start marker itself. *)
Theorem watermark_roundtrip `{SK : Sdk, WS : WatermarkSerde, WO : !WatermarkOk} (content : bytes) (label : option string) (now : Z)
    (out : bytes) :
  embed (watermark_new content label now) content = Ok out -> find_window MARKER_START (content ++ [newline]) = None ->
  extract out = Ok (watermark_new content label now, content) /\ watermark_verify (watermark_new content label now) content = true.
Proof.
  intros E Hn. set (w := watermark_new content label now) in *. unfold embed in E.
  destruct (watermark_to_string w) as [j|] eqn:Ej; [|done]. assert (out = content ++ MARKER_START ++ chars j ++ [newline] ++ MARKER_END) as -> by (by injection E).
  destruct (watermark_text w j Ej) as (Hr & Hu & Hnl & m & Hm). split.
  - unfold extract. rewrite marker_found by done. cbn zeta.
    rewrite take_app_length.
    assert (drop (length content + length MARKER_START) (content ++ MARKER_START ++ chars j ++ [newline] ++ MARKER_END)
            = (chars j ++ [newline]) ++ MARKER_END ++ []) as ->.
    { rewrite <- length_app, app_assoc, drop_app_length, app_nil_r. apply app_assoc. }
    assert (find_window MARKER_END ((chars j ++ [newline]) ++ MARKER_END ++ []) = Some (length (chars j ++ [newline]))) as ->.
    { rewrite Hm in Hnl |- *. rewrite end_found by (intros x Hx ->; done). by rewrite (length_app _ [newline]), Nat.add_comm. }
    rewrite take_app_length. unfold from_utf8. rewrite utf8_valid_app by done. change (utf8_valid [newline]) with true. cbn iota.
    unfold trim. rewrite chars_of_chars. rewrite Hm, trim_line by (split; vm_compute; done). rewrite <- Hm, of_chars_chars, Hr. done.
  - unfold watermark_verify. cbn. by rewrite bool_decide_true, Z.eqb_refl.
Qed.

(** ** Directories *)

Section Directories.
Context `{SK : Sdk, HX : !HexOk}.

Lemma stamp_files_Ok (read : string -> result string bytes) (clock : string -> Z) (files : list string) (acc es : gmap string Stamp) :
  stamp_files read clock files acc = Ok es ->
  forall f, (f ∈ files -> exists c, read f = Ok c /\ es !! f = Some (stamp_new c (clock f))) /\ (f ∉ files -> es !! f = acc !! f).
Proof.
  revert acc. induction files as [|g files IH]; intros acc E f; cbn [stamp_files] in E.
  { injection E as ->. split; [by intros ?%elem_of_nil|done]. }
  destruct (read g) as [c|] eqn:Er; [|done]. cbn [map_err mbind result_mbind] in E. destruct (IH _ E f) as [H1 H2].
  destruct (decide (f ∈ files)) as [Hf|Hf]; [split; [auto|by intros []%not_elem_of_cons]|]. rewrite H2 by done.
  split; intros Hg.
  - apply elem_of_cons in Hg as [->|]; [|done]. exists c. split; [done|apply lookup_insert_eq].
  - apply not_elem_of_cons in Hg as [Hg _]. by apply lookup_insert_ne.
Qed.

Lemma check_entries_Ok (read : string -> result string bytes) (exists_ : string -> bool) (es : list (string * Stamp))
    (acc r : gmap string FileStatus) :
  NoDup es.*1 -> check_entries read exists_ es acc = Ok r ->
  (forall f s, (f, s) ∈ es -> exists st, entry_status read exists_ f s = Ok st /\ r !! f = Some st) /\
  (forall f, f ∉ es.*1 -> r !! f = acc !! f).
Proof.
  revert acc. induction es as [|[g t] es IH]; intros acc Hd E; cbn [check_entries] in E.
  { injection E as ->. split; [by intros f s ?%elem_of_nil|done]. }
  destruct (entry_status read exists_ g t) as [st|] eqn:Es; [|done]. cbn [mbind result_mbind] in E.
  cbn in Hd. apply NoDup_cons in Hd as [Hg Hd]. destruct (IH _ Hd E) as [H1 H2]. split.
  - intros f s [[= -> ->]|Hin]%elem_of_cons; [|by apply H1]. exists st. split; [done|]. rewrite H2 by done. apply lookup_insert_eq.
  - intros f Hf. cbn in Hf. apply not_elem_of_cons in Hf as [Hn Hf]. rewrite H2 by done. by apply lookup_insert_ne.
Qed.

Lemma add_extra_lookup (m : Manifest) (files : list string) (r : gmap string FileStatus) (f : string) :
  add_extra m files r !! f = if decide (f ∈ files /\ mf_entries m !! f = None /\ r !! f = None) then Some FileAdded else r !! f.
Proof.
  unfold add_extra. revert r. induction files as [|g files IH]; intros r; cbn [foldl].
  { case_decide as Hd; [|done]. destruct Hd as [[]%elem_of_nil _]. }
  rewrite IH. clear IH. destruct (decide (f = g)) as [->|Hn].
  - case_bool_decide as H1; case_bool_decide as H2; cbn [andb];
      [rewrite !lookup_insert_eq; rewrite decide_False by naive_solver; rewrite decide_True by set_solver; done|..];
      repeat case_decide; set_solver.
  - assert ((if bool_decide (mf_entries m !! g = None) && bool_decide (r !! g = None) then <[g:=FileAdded]> r else r) !! f = r !! f) as ->
      by (case_match; [by apply lookup_insert_ne|done]).
    apply decide_ext. set_solver.
Qed.

Lemma verify_content_stamp (c c' : bytes) (ts : Z) :
  if verify_content (stamp_new c ts) c' then c = c' \/ collision sha3_256 else c <> c'.
Proof.
  unfold verify_content. cbn [st_content_hash st_size stamp_new]. case_bool_decide as Hh; cbn [andb].
  - destruct (Z.eqb_spec (Z.of_nat (length c')) (Z.of_nat (length c))) as [Hl|Hl]; [|by intros ->].
    apply (f_equal hex_decode) in Hh. rewrite !hex_roundtrip in Hh. injection Hh as Hh.
    apply hash_eq_or_collision in Hh as [->|]; auto.
  - intros ->. done.
Qed.

End Directories.

(** Checking a directory against an earlier scan of it classifies every path:
    unchanged files are fine and a fine file is unchanged unless the hash
    collides, a changed file is modified, a file gone is missing, a new one
    is added, and nothing else is reported. *)
Theorem verify_dir_classifies `{SK : Sdk, HX : !HexOk} (dir : string) (created : Z) (read read' : string -> result string bytes)
    (clock : string -> Z) (exists' : string -> bool) (tree tree' : list (string * node)) (m : Manifest) (r : gmap string FileStatus) :
  scan_dir dir created read clock tree = Ok m -> verify_dir m read' exists' tree' = Ok r ->
  forall f,
    match r !! f with
    | Some FileOk => f ∈ walk_dir tree /\ exists' f = true /\
        exists c c', read f = Ok c /\ read' f = Ok c' /\ (c = c' \/ collision sha3_256)
    | Some FileModified => f ∈ walk_dir tree /\ exists' f = true /\ exists c c', read f = Ok c /\ read' f = Ok c' /\ c <> c'
    | Some FileMissing => f ∈ walk_dir tree /\ exists' f = false
    | Some FileAdded => (f ∉ walk_dir tree) /\ f ∈ walk_dir tree'
    | None => (f ∉ walk_dir tree) /\ f ∉ walk_dir tree'
    end.
Proof.
  intros S V f. unfold scan_dir in S. apply result_bind_Ok in S as (es & S & Em). injection Em as <-.
  destruct (stamp_files_Ok _ _ _ _ _ S f) as [S1 S2]. unfold verify_dir in V. apply result_bind_Ok in V as (r0 & V & Er).
  injection Er as <-. cbn [mf_entries] in V. apply check_entries_Ok in V as [V1 V2]; [|apply NoDup_fst_map_to_list].
  rewrite add_extra_lookup. cbn [mf_entries]. destruct (decide (f ∈ walk_dir tree)) as [Hf|Hf].
  - destruct (S1 Hf) as (c & Ec & El). rewrite decide_False by (intros (_ & E & _); congruence).
    destruct (V1 f _ ltac:(by apply elem_of_map_to_list)) as (st & Es & ->). unfold entry_status in Es.
    destruct (exists' f); cbn [negb] in Es; [|by injection Es as <-].
    destruct (read' f) as [c'|] eqn:Ec'; [|done]. cbn [map_err mbind result_mbind] in Es. injection Es as <-.
    pose proof (verify_content_stamp c c' (clock f)) as Hv. destruct (verify_content _ c'); naive_solver.
  - specialize (S2 Hf). rewrite lookup_empty in S2.
    rewrite (V2 f), lookup_empty by (intros ([g s] & -> & Hin%elem_of_map_to_list)%list_elem_of_fmap; cbn in *; congruence).
    case_decide as Hd; [by destruct Hd|]. split; [done|]. intros Ht. by apply Hd.
Qed.

(** ** Concrete runs *)

#[global] Instance Watermark_eq_dec : EqDecision Watermark.
Proof. solve_decision. Defined.

Module ToyStamp.
#[local] Existing Instance Toy.sdk.

(** A serialiser of one watermark. *)
Definition hello : bytes := chars "hello".
Definition mark : Watermark := watermark_new hello None 9.
Definition serde : WatermarkSerde := {|
  watermark_to_string w := if decide (w = mark) then Ok "{hello}" else Err "other";
  watermark_from_str s := if decide (s = "{hello}") then Ok mark else Err "other" |}.

#[global] Instance serde_ok : @WatermarkOk serde.
Proof.
  constructor. intros w j E. cbn in E. destruct (decide (w = mark)) as [->|]; [|done]. injection E as <-.
  split; [done|]. split; [done|]. split; [|by exists (chars "hello")]. apply (bool_decide_unpack _). by vm_compute.
Qed.

(** A directory with a file, a hidden file and a subdirectory. *)
Definition tree : list (string * node) := [("a", NFile); (".git", NDir [("x", NFile)]); ("d", NDir [("b", NFile); ("c", NFile)])].
Definition tree' : list (string * node) := [("a", NFile); ("n", NFile); ("d", NDir [("b", NFile)])].
Definition read (f : string) : result string bytes := Ok (chars f).
Definition read' (f : string) : result string bytes := Ok (if String.eqb f "d/b" then chars "changed" else chars f).
Definition exists' (f : string) : bool := negb (String.eqb f "d/c").
Definition scanned : Manifest :=
  match scan_dir "/r" 5 read (fun _ => 7) tree with Ok m => m | Err _ => MkManifest 0 "" 0 ∅ end.
Definition checked : gmap string FileStatus := match verify_dir scanned read' exists' tree' with Ok r => r | Err _ => ∅ end.
End ToyStamp.

Lemma watermark_roundtrip_witness :
  exists out, @embed ToyStamp.serde ToyStamp.mark ToyStamp.hello = Ok out /\
    @extract ToyStamp.serde out = Ok (ToyStamp.mark, ToyStamp.hello).
Proof.
  eexists. split; [by vm_compute|].
  apply (@watermark_roundtrip Toy.sdk ToyStamp.serde ToyStamp.serde_ok ToyStamp.hello None 9); [by vm_compute|by vm_compute].
Defined.

(** The condition is needed: a content that ends in the marker's text without
    its line ending comes back cut. *)
Example watermark_overlap :
  (out ← @embed ToyStamp.serde ToyStamp.mark (chars "x" ++ take 27 MARKER_START); '(_, c) ← @extract ToyStamp.serde out; Ok c)
  <> Ok (chars "x" ++ take 27 MARKER_START).
Proof. vm_compute. congruence. Qed.

Lemma verify_dir_classifies_witness :
  map (fun f => ToyStamp.checked !! f) ["a"; "d/b"; "d/c"; "n"; ".git/x"]
    = [Some FileOk; Some FileModified; Some FileMissing; Some FileAdded; None] /\
  (".git/x" ∉ walk_dir ToyStamp.tree).
Proof.
  split; [by vm_compute|].
  pose proof (@verify_dir_classifies Toy.sdk _ "/r" 5 ToyStamp.read ToyStamp.read' (fun _ => 7) ToyStamp.exists' ToyStamp.tree ToyStamp.tree'
                ToyStamp.scanned ToyStamp.checked ltac:(by vm_compute) ltac:(by vm_compute) ".git/x") as C.
  assert (ToyStamp.checked !! ".git/x" = None) as E by (by vm_compute). rewrite E in C. apply C.
Defined.
