(* ===== verification/PassOcra.v ===== *)
(** * OCRA suites and the replay ledger (origin-pass)

    [ocra_suite.rs]: the parser of suite strings, the checks and the
    encoding of a challenge; [ledger.rs]: the bounded list of used
    challenges per entry.  A parse error is its message; where a message
    prints a byte in debug form, that byte is left out. *)

From Stdlib Require Import Ascii String.
From S2P Require Import Prelude RustStr Bytes RustText Sdk.

(** ** Suites *)

(** [drbg::otp::HashAlgorithm] of the SDK: the constructors the code names. *)
Inductive HashAlgorithm := Sha1 | Sha256 | Sha512.
Inductive ChallengeKind := KNone | KNumeric | KHex | KAlphanumeric.

#[global] Instance HashAlgorithm_eq_dec : EqDecision HashAlgorithm.
Proof. solve_decision. Defined.
#[global] Instance ChallengeKind_eq_dec : EqDecision ChallengeKind.
Proof. solve_decision. Defined.

Record OcraChallenge := MkOcraChallenge { oc_kind : ChallengeKind; oc_len : Z }.

Record OcraSuite := MkOcraSuite {
  os_algo : HashAlgorithm;
  os_digits : Z;
  os_has_counter : bool;
  os_challenge : OcraChallenge;
  os_pin_algo : option HashAlgorithm;
  os_session_len : option Z;
  os_timestamp_step_secs : option Z
}.

Definition hash_of_name (s : list ascii) : option HashAlgorithm :=
  if bool_decide (s = chars "SHA1") then Some Sha1
  else if bool_decide (s = chars "SHA256") then Some Sha256
  else if bool_decide (s = chars "SHA512") then Some Sha512 else None.

Definition quoted (s : list ascii) : string := "`" +:+ of_chars s +:+ "`".

Definition hyphen : ascii := "-"%char.

Definition parse_crypto_function (crypto : list ascii) : result string (HashAlgorithm * Z) :=
  match strip_prefix (chars "HOTP-") crypto with
  | None => Err ("unsupported crypto function " +:+ quoted crypto +:+ ": only HOTP-<hash>-<digits> is defined by RFC 6287")
  | Some rest =>
      match rsplit_once hyphen rest with
      | None => Err ("malformed crypto function " +:+ quoted crypto +:+ ": expected HOTP-<hash>-<digits>")
      | Some (hash, digits_str) =>
          match hash_of_name hash with
          | None => Err ("unsupported hash function " +:+ quoted hash +:+ " (must be SHA1, SHA256, or SHA512)")
          | Some algo =>
              match parse_unsigned u32_max digits_str with
              | None => Err ("crypto function digits " +:+ quoted digits_str +:+ " is not an integer")
              | Some digits =>
                  if negb ((4 <=? digits) && (digits <=? 10))
                  then Err ("crypto function digits " +:+ quoted digits_str +:+ " out of range 4..=10")
                  else Ok (algo, digits)
              end
          end
      end
  end.

Definition parse_challenge (comp : list ascii) : result string OcraChallenge :=
  let kind := match comp !! 1%nat with
              | Some a => if Ascii.eqb a "A" then Some KAlphanumeric
                          else if Ascii.eqb a "N" then Some KNumeric
                          else if Ascii.eqb a "H" then Some KHex else None
              | None => None
              end in
  match kind with
  | None => Err ("malformed challenge " +:+ quoted comp +:+ ": expected Q<A|N|H><len>")
  | Some kind =>
      let len_str := drop 2 comp in
      if bool_decide (len_str = []) || (2 <? length len_str)%nat
      then Err ("malformed challenge " +:+ quoted comp +:+ ": length must be 1 or 2 digits (e.g. QN08, QH8)")
      else match parse_unsigned u64_max len_str with
           | None => Err ("challenge " +:+ quoted comp +:+ " length " +:+ quoted len_str +:+ " is not an integer")
           | Some len =>
               if negb ((4 <=? len) && (len <=? 64))
               then Err ("challenge " +:+ quoted comp +:+ " length " +:+ show_Z len +:+ " out of range 04..=64 (RFC §6.3)")
               else Ok (MkOcraChallenge kind len)
           end
  end.

Definition parse_pin_hash (comp : list ascii) : result string HashAlgorithm :=
  match hash_of_name (drop 1 comp) with
  | Some a => Ok a
  | None => Err ("malformed PIN component " +:+ quoted comp +:+ ": expected P<SHA1|SHA256|SHA512> (got " +:+ quoted (drop 1 comp) +:+ ")")
  end.

Definition parse_session_len (comp : list ascii) : result string Z :=
  if negb (length comp =? 4)%nat
  then Err ("malformed session component " +:+ quoted comp +:+ ": expected S<064|128|256|512> (3-digit length)")
  else match parse_unsigned u64_max (drop 1 comp) with
       | None => Err ("malformed session component " +:+ quoted comp +:+ ": expected S<064|128|256|512>")
       | Some n =>
           if (n =? 64) || (n =? 128) || (n =? 256) || (n =? 512) then Ok n
           else Err ("session length " +:+ show_Z n +:+ " not one of 064/128/256/512 (RFC §6.3)")
       end.

(** Multiplier, largest number and name of a unit. *)
Definition step_unit (last : ascii) : option (Z * Z * string) :=
  if Ascii.eqb last "S" then Some (1, 59, "seconds")
  else if Ascii.eqb last "M" then Some (60, 59, "minutes")
  else if Ascii.eqb last "H" then Some (3600, 48, "hours") else None.

Definition parse_timestamp_step (comp : list ascii) : result string Z :=
  match last comp with
  | None => Err ("malformed timestamp component " +:+ quoted comp)
  | Some l =>
      match step_unit l with
      | None => Err ("malformed timestamp component " +:+ quoted comp +:+ ": expected T<num><S|M|H> (e.g. T1M, T20S, T24H)")
      | Some (mult, max, unit) =>
          let num_str := take (length comp - 2) (drop 1 comp) in
          if bool_decide (num_str = []) || negb (forallb is_digit num_str)
          then Err ("malformed timestamp component " +:+ quoted comp +:+ ": step " +:+ quoted num_str +:+ " is not an integer")
          else match parse_unsigned u64_max num_str with
               | None => Err ("timestamp component " +:+ quoted comp +:+ " step " +:+ quoted num_str +:+ " is not an integer")
               | Some num =>
                   if (num =? 0) || (max <? num)
                   then Err ("timestamp component " +:+ quoted comp +:+ " step " +:+ show_Z num +:+ " out of range (1..=" +:+ show_Z max +:+ " for " +:+ unit +:+ ")")
                   else Ok (num * mult)
               end
      end
  end.

(** The tuple [DataInput]. *)
Record DataInput := MkDataInput {
  di_has_counter : bool;
  di_challenge : OcraChallenge;
  di_pin_algo : option HashAlgorithm;
  di_session_len : option Z;
  di_timestamp_step : option Z
}.
Definition no_data : DataInput := MkDataInput false (MkOcraChallenge KNone 0) None None None.

Definition duplicate (what : string) (data : list ascii) : string := "duplicate " +:+ what +:+ " component in " +:+ quoted data.

(** One round of the loop over the components. *)
Definition component (data comp : list ascii) (d : DataInput) : result string DataInput :=
  match comp with
  | [] => Err ("empty DataInput component in " +:+ quoted data +:+ " (double hyphen?)")
  | a :: rest =>
      if Ascii.eqb a "C" && bool_decide (rest = [])
      then if di_has_counter d then Err (duplicate "counter" data)
           else Ok (MkDataInput true (di_challenge d) (di_pin_algo d) (di_session_len d) (di_timestamp_step d))
      else if Ascii.eqb a "Q"
      then if negb (bool_decide (oc_kind (di_challenge d) = KNone)) then Err (duplicate "challenge" data)
           else c ← parse_challenge comp; Ok (MkDataInput (di_has_counter d) c (di_pin_algo d) (di_session_len d) (di_timestamp_step d))
      else if Ascii.eqb a "P"
      then match di_pin_algo d with
           | Some _ => Err (duplicate "PIN" data)
           | None => h ← parse_pin_hash comp; Ok (MkDataInput (di_has_counter d) (di_challenge d) (Some h) (di_session_len d) (di_timestamp_step d))
           end
      else if Ascii.eqb a "S"
      then match di_session_len d with
           | Some _ => Err (duplicate "session" data)
           | None => n ← parse_session_len comp; Ok (MkDataInput (di_has_counter d) (di_challenge d) (di_pin_algo d) (Some n) (di_timestamp_step d))
           end
      else if Ascii.eqb a "T"
      then match di_timestamp_step d with
           | Some _ => Err (duplicate "timestamp" data)
           | None => t ← parse_timestamp_step comp; Ok (MkDataInput (di_has_counter d) (di_challenge d) (di_pin_algo d) (di_session_len d) (Some t))
           end
      else Err ("unknown DataInput component " +:+ quoted comp +:+ " (component must start with C, Q, P, S, or T)")
  end.

Fixpoint components (data : list ascii) (comps : list (list ascii)) (d : DataInput) : result string DataInput :=
  match comps with
  | [] => Ok d
  | c :: comps' => d' ← component data c d; components data comps' d'
  end.

Definition parse_data_input (data : list ascii) : result string DataInput :=
  if bool_decide (data = []) then Err "empty DataInput (suite must have at least one component)"
  else components data (split_on hyphen data) no_data.

Definition parse_suite (suite : string) : result string OcraSuite :=
  match split_on ":"%char (chars suite) with
  | [p0; p1; p2] =>
      if negb (bool_decide (p0 = chars "OCRA-1"))
      then Err ("unsupported OCRA algorithm " +:+ quoted p0 +:+ " (only OCRA-1 is defined by RFC 6287)")
      else
        '(algo, digits) ← parse_crypto_function p1;
        d ← parse_data_input p2;
        Ok (MkOcraSuite algo digits (di_has_counter d) (di_challenge d) (di_pin_algo d) (di_session_len d) (di_timestamp_step d))
  | parts =>
      Err ("malformed OCRA suite `" +:+ suite +:+ "`: expected `OCRA-1:<CryptoFunction>:<DataInput>` (got "
           +:+ show_Z (Z.of_nat (length parts)) +:+ " colon-separated parts)")
  end.

(** ** Challenges *)

Definition kind_name (k : ChallengeKind) : string :=
  match k with KNone => "none" | KNumeric => "numeric" | KHex => "hex" | KAlphanumeric => "alphanumeric" end.

Definition is_ascii_hexdigit (b : ascii) : bool :=
  is_digit b || ((97 <=? code b) && (code b <=? 102)) || ((65 <=? code b) && (code b <=? 70)).
Definition is_ascii_alphanumeric (b : ascii) : bool :=
  is_digit b || ((97 <=? code b) && (code b <=? 122)) || ((65 <=? code b) && (code b <=? 90)).

(** The character test of a kind, and its description. *)
Definition kind_chars (k : ChallengeKind) : ascii -> bool :=
  match k with KNumeric => is_digit | KHex => is_ascii_hexdigit | _ => is_ascii_alphanumeric end.
Definition kind_must (k : ChallengeKind) : string :=
  match k with
  | KNumeric => "digits 0-9"
  | KHex => "hex characters 0-9 a-f A-F"
  | _ => "alphanumeric characters A-Z a-z 0-9"
  end.

(** [{:?}] of an algorithm and of a challenge. *)
Definition algo_debug (a : HashAlgorithm) : string := match a with Sha1 => "Sha1" | Sha256 => "Sha256" | Sha512 => "Sha512" end.
Definition kind_debug (k : ChallengeKind) : string :=
  match k with KNone => "None" | KNumeric => "Numeric" | KHex => "Hex" | KAlphanumeric => "Alphanumeric" end.
Definition suite_display (s : OcraSuite) : string :=
  algo_debug (os_algo s) +:+ ":OcraChallenge { kind: " +:+ kind_debug (oc_kind (os_challenge s)) +:+ ", len: "
  +:+ show_Z (oc_len (os_challenge s)) +:+ " }".

Definition validate_challenge (s : OcraSuite) (challenge : option string) : result string unit :=
  let kind := oc_kind (os_challenge s) in
  match kind with
  | KNone =>
      match challenge with
      | Some _ => Err ("suite `" +:+ suite_display s +:+ "` has no challenge component — omit --challenge")
      | None => Ok tt
      end
  | _ =>
      match challenge with
      | None => Err ("suite `" +:+ suite_display s +:+ "` requires --challenge <" +:+ kind_name kind +:+ "> (up to "
                     +:+ show_Z (oc_len (os_challenge s)) +:+ " chars)")
      | Some ch =>
          let n := Z.of_nat (length (chars ch)) in
          if bool_decide (ch = "") || (oc_len (os_challenge s) <? n)
          then Err ("challenge `" +:+ ch +:+ "` is " +:+ show_Z n +:+ " chars; suite accepts 1..="
                    +:+ show_Z (oc_len (os_challenge s)) +:+ " (" +:+ kind_name kind +:+ ")")
          else if negb (forallb (kind_chars kind) (chars ch))
          then Err ("challenge `" +:+ ch +:+ "` is not a valid " +:+ kind_name kind +:+ " challenge (must contain only " +:+ kind_must kind +:+ ")")
          else Ok tt
      end
  end.

Definition encode_challenge `{Sdk} (s : OcraSuite) (challenge : option string) : result string bytes :=
  match oc_kind (os_challenge s) with
  | KNone => Ok []
  | KNumeric | KAlphanumeric => Ok (chars (default "" challenge))
  | KHex =>
      let ch := default "" challenge in
      map_err (fun e => "challenge `" +:+ ch +:+ "` is not valid hex: " +:+ e) (hex_decode ch)
  end.

(** ** The ledger *)

Definition MAX_USES_PER_ENTRY : nat := 64.
Definition LEDGER_VERSION : Z := 1.

Record ChallengeUse := MkUse { cu_fp : string; cu_used_at : Z }.
Record OcraLedger := MkLedger { ol_version : Z; ol_entries : gmap string (list ChallengeUse) }.
Definition default_ledger : OcraLedger := MkLedger LEDGER_VERSION ∅.

Class LedgerSerde := {
  ledger_from_slice : bytes -> result string OcraLedger;
  ledger_to_vec_pretty : OcraLedger -> result string bytes
}.

Definition ledger_path (vault_path : string) : string := vault_path +:+ ".ocra-ledger.json".

Definition challenge_fingerprint `{Sdk} (challenge : bytes) (counter : Z) : string :=
  hex_encode (sha3_256 (challenge ++ be_bytes 8 counter)).

(** [while uses.len() > MAX { uses.remove(0) }]. *)
Fixpoint trim_uses (uses : list ChallengeUse) : list ChallengeUse :=
  match uses with
  | [] => []
  | _ :: uses' => if (MAX_USES_PER_ENTRY <? length uses)%nat then trim_uses uses' else uses
  end.

Section Ledger.
Context `{LedgerSerde}.

(** The ledger file: missing, unreadable, or its bytes. *)
Definition load_ledger (vault_path : string) (file : option (result string bytes)) : result string OcraLedger :=
  let path := ledger_path vault_path in
  match file with
  | None => Ok default_ledger
  | Some raw =>
      raw ← map_err (fun e => "cannot read OCRA ledger " +:+ path +:+ ": " +:+ e) raw;
      ledger ← map_err (fun e => "OCRA ledger " +:+ path +:+ " is corrupt: " +:+ e) (ledger_from_slice raw);
      if negb (ol_version ledger =? LEDGER_VERSION)
      then Err ("OCRA ledger " +:+ path +:+ " has unknown version " +:+ show_Z (ol_version ledger) +:+ " (expected " +:+ show_Z LEDGER_VERSION +:+ ")")
      else Ok ledger
  end.

(** What a use adds to the ledger. *)
Definition with_use (ledger : OcraLedger) (entry fp : string) (used_at : Z) : OcraLedger :=
  MkLedger (ol_version ledger)
    (<[entry := trim_uses (default [] (ol_entries ledger !! entry) ++ [MkUse fp used_at])]> (ol_entries ledger)).

Definition is_replay (ledger : OcraLedger) (entry fp : string) : bool :=
  existsb (fun u => bool_decide (cu_fp u = fp)) (default [] (ol_entries ledger !! entry)).

(** The result and the file afterwards; [write] is what the atomic write does. *)
Definition record_use (vault_path entry fp : string) (used_at : Z) (force : bool) (write : result string unit)
    (file : option (result string bytes)) : result string bool * option (result string bytes) :=
  match load_ledger vault_path file with
  | Err e => (Err e, file)
  | Ok ledger =>
      let replay := is_replay ledger entry fp in
      if replay && negb force then (Ok true, file)
      else
        match ledger_to_vec_pretty (with_use ledger entry fp used_at) with
        | Err e => (Err ("OCRA ledger serialize failed: " +:+ e), file)
        | Ok json => match write with Err e => (Err e, file) | Ok _ => (Ok replay, Some (Ok json)) end
        end
  end.

End Ledger.

(** ** OCRA suites and the ledger: correctness

    The parser accepts exactly the well-formed suites, in any order of
    components, and reads back a canonical text; the ledger is a window over
    the history of uses. *)

(** ** Well-formed suites *)

Definition step_ok (t : Z) : Prop :=
  exists num mult max, (mult, max) ∈ [(1, 59); (60, 59); (3600, 48)] /\ 1 <= num <= max /\ t = num * mult.

Record suite_wf (s : OcraSuite) : Prop := {
  wf_digits : 4 <= os_digits s <= 10;
  wf_challenge : os_challenge s = MkOcraChallenge KNone 0 \/ (oc_kind (os_challenge s) <> KNone /\ 4 <= oc_len (os_challenge s) <= 64);
  wf_session : forall n, os_session_len s = Some n -> n ∈ [64; 128; 256; 512];
  wf_step : forall t, os_timestamp_step_secs s = Some t -> step_ok t;
  wf_some : os_has_counter s || negb (bool_decide (oc_kind (os_challenge s) = KNone)) || bool_decide (is_Some (os_pin_algo s))
            || bool_decide (is_Some (os_session_len s)) || bool_decide (is_Some (os_timestamp_step_secs s)) = true
}.

(** ** A canonical text *)

Definition hash_name (a : HashAlgorithm) : list ascii :=
  chars match a with Sha1 => "SHA1" | Sha256 => "SHA256" | Sha512 => "SHA512" end.
Definition kind_letter (k : ChallengeKind) : list ascii :=
  chars match k with KNone => "" | KNumeric => "N" | KHex => "H" | KAlphanumeric => "A" end.
(** Three digits. *)
Definition session_text (n : Z) : list ascii := (if n =? 64 then ["0"%char] else []) ++ show_chars n.
(** Seconds, minutes or hours, the first that fits. *)
Definition step_text (t : Z) : list ascii :=
  if t <=? 59 then show_chars t ++ ["S"%char]
  else if (t mod 60 =? 0) && (t / 60 <=? 59) then show_chars (t / 60) ++ ["M"%char]
  else show_chars (t / 3600) ++ ["H"%char].

Definition text_opt {A : Type} (f : A -> list ascii) (o : option A) : list (list ascii) :=
  match o with Some a => [f a] | None => [] end.
Definition data_texts (s : OcraSuite) : list (list ascii) :=
  (if os_has_counter s then [["C"%char]] else [])
  ++ (if decide (oc_kind (os_challenge s) = KNone) then []
      else ["Q"%char :: kind_letter (oc_kind (os_challenge s)) ++ show_chars (oc_len (os_challenge s))])
  ++ text_opt (fun h => "P"%char :: hash_name h) (os_pin_algo s)
  ++ text_opt (fun n => "S"%char :: session_text n) (os_session_len s)
  ++ text_opt (fun t => "T"%char :: step_text t) (os_timestamp_step_secs s).

Fixpoint join_hyphen (l : list (list ascii)) : list ascii :=
  match l with [] => [] | [p] => p | p :: l' => p ++ hyphen :: join_hyphen l' end.

Definition print_suite (s : OcraSuite) : string :=
  of_chars (chars "OCRA-1:HOTP-" ++ hash_name (os_algo s) ++ hyphen :: show_chars (os_digits s) ++ ":"%char :: join_hyphen (data_texts s)).

(** ** What the parser returns is well formed *)

Definition chall_ok (c : OcraChallenge) : Prop := c = MkOcraChallenge KNone 0 \/ (oc_kind c <> KNone /\ 4 <= oc_len c <= 64).

Record data_wf (d : DataInput) : Prop := {
  dw_challenge : chall_ok (di_challenge d);
  dw_session : forall n, di_session_len d = Some n -> n ∈ [64; 128; 256; 512];
  dw_step : forall t, di_timestamp_step d = Some t -> step_ok t
}.
Definition data_some (d : DataInput) : bool :=
  di_has_counter d || negb (bool_decide (oc_kind (di_challenge d) = KNone)) || bool_decide (is_Some (di_pin_algo d))
  || bool_decide (is_Some (di_session_len d)) || bool_decide (is_Some (di_timestamp_step d)).

Lemma parse_unsigned_nonneg (hi n : Z) (l : list ascii) : parse_unsigned hi l = Some n -> 0 <= n.
Proof.
  unfold parse_unsigned, parse_u64. intros E. set (ds := match l with [] => [] | a :: l' => _ end) in E.
  destruct ds as [|a ds]; [done|]. destruct (forallb is_digit (a :: ds)) eqn:Ed; [|done]. unfold parse_digits in E.
  pose proof (digits_val_nonneg _ 0 Ed ltac:(lia)). unfold digits_val in E. repeat case_match; simplify_eq; lia.
Qed.

Lemma parse_challenge_Ok (comp : list ascii) (c : OcraChallenge) :
  parse_challenge comp = Ok c -> oc_kind c <> KNone /\ 4 <= oc_len c <= 64.
Proof.
  unfold parse_challenge. intros E.
  destruct (comp !! 1%nat) as [a|]; [|done]. repeat case_match; simplify_eq; cbn; split; try done; lia.
Qed.

Lemma parse_session_Ok (comp : list ascii) (n : Z) : parse_session_len comp = Ok n -> n ∈ [64; 128; 256; 512].
Proof. unfold parse_session_len. intros E. repeat case_match; simplify_eq. rewrite !elem_of_cons. lia. Qed.

Lemma step_unit_Some (a : ascii) (mult max : Z) (u : string) :
  step_unit a = Some (mult, max, u) -> (mult, max) ∈ [(1, 59); (60, 59); (3600, 48)].
Proof. unfold step_unit. intros E. repeat case_match; simplify_eq; rewrite !elem_of_cons; auto. Qed.

Lemma parse_step_Ok (comp : list ascii) (t : Z) : parse_timestamp_step comp = Ok t -> step_ok t.
Proof.
  unfold parse_timestamp_step. intros E. destruct (last comp) as [l|]; [|done].
  destruct (step_unit l) as [[[mult max] u]|] eqn:Eu; [|done]. apply step_unit_Some in Eu.
  case_match; [done|]. destruct (parse_unsigned u64_max _) as [num|] eqn:En; [|done].
  destruct (Z.eqb_spec num 0), (Z.ltb_spec max num); cbn in E; try done. injection E as <-.
  exists num, mult, max. split; [done|]. split; [|done]. split; [|done].
  pose proof (parse_unsigned_nonneg _ _ _ En). lia.
Qed.

Lemma component_wf (data comp : list ascii) (d d' : DataInput) :
  component data comp d = Ok d' -> data_wf d -> data_wf d' /\ data_some d' = true.
Proof.
  intros E [H1 H2 H3]. unfold component in E. destruct comp as [|a rest]; [done|].
  destruct (_ && _); [destruct (di_has_counter d); [done|]; injection E as <-; split; [by split|done]|].
  destruct (Ascii.eqb a "Q").
  { destruct (bool_decide _); cbn [negb] in E; [|done]. apply result_bind_Ok in E as (c & Ec & [= <-]).
    apply parse_challenge_Ok in Ec. split; [split; [by right|done..]|].
    unfold data_some. cbn. rewrite bool_decide_false by apply Ec. by rewrite orb_true_r. }
  destruct (Ascii.eqb a "P").
  { destruct (di_pin_algo d); [done|]. apply result_bind_Ok in E as (c & Ec & [= <-]). split; [by split|].
    unfold data_some. cbn. by rewrite orb_true_r. }
  destruct (Ascii.eqb a "S").
  { destruct (di_session_len d); [done|]. apply result_bind_Ok in E as (c & Ec & [= <-]). apply parse_session_Ok in Ec.
    split; [split; [done|by intros n [= <-]|done]|]. unfold data_some. cbn. by rewrite orb_true_r. }
  destruct (Ascii.eqb a "T"); [|done].
  destruct (di_timestamp_step d); [done|]. apply result_bind_Ok in E as (c & Ec & [= <-]). apply parse_step_Ok in Ec.
  split; [split; [done|done|by intros n [= <-]]|]. unfold data_some. cbn. by rewrite orb_true_r.
Qed.

Lemma components_wf (data : list ascii) (comps : list (list ascii)) (d d' : DataInput) :
  components data comps d = Ok d' -> data_wf d -> (comps <> [] \/ data_some d = true) -> data_wf d' /\ data_some d' = true.
Proof.
  revert d. induction comps as [|c comps IH]; intros d E Hd Hs; cbn [components] in E.
  - injection E as <-. by destruct Hs.
  - apply result_bind_Ok in E as (d1 & E1 & E). destruct (component_wf _ _ _ _ E1 Hd) as [H1 H2]. eapply IH; [done|done|by right].
Qed.

Lemma parse_suite_wf (t : string) (s : OcraSuite) : parse_suite t = Ok s -> suite_wf s.
Proof.
  unfold parse_suite. intros E. destruct (split_on ":" (chars t)) as [|p0 [|p1 [|p2 [|]]]]; try done.
  case_match; [done|]. apply result_bind_Ok in E as ([algo digits] & Ec & E). apply result_bind_Ok in E as (d & Ed & [= <-]).
  assert (4 <= digits <= 10) by (unfold parse_crypto_function in Ec; repeat case_match; simplify_eq; lia).
  unfold parse_data_input in Ed. case_match; [done|].
  apply components_wf in Ed as [[? ? ?] ?]; [by split|split; [by left|done..]|left; apply split_on_ne].
Qed.

(** ** The canonical text is read back *)

Lemma show_no_char (c : ascii) (n : Z) : is_digit c = false -> 0 <= n -> Forall (fun a => a <> c) (show_chars n).
Proof.
  intros Hc Hn. destruct (show_chars_spec n Hn) as (_ & Hd & _). rewrite forallb_forall in Hd.
  apply Forall_forall. intros a Ha ->. apply list_elem_of_In, Hd in Ha. congruence.
Qed.

Lemma split_join (ps : list (list ascii)) :
  ps <> [] -> Forall (Forall (fun a => a <> hyphen)) ps -> split_on hyphen (join_hyphen ps) = ps.
Proof.
  induction ps as [|p ps IH]; [done|]. intros _ H. apply Forall_cons in H as [Hp H]. destruct ps as [|q ps].
  - by apply split_on_nil.
  - change (join_hyphen (p :: q :: ps)) with (p ++ hyphen :: join_hyphen (q :: ps)). rewrite split_on_sep by done. by rewrite IH.
Qed.

Lemma hash_name_ok (h : HashAlgorithm) : hash_of_name (hash_name h) = Some h.
Proof. by destruct h. Qed.

(** Numbers below one hundred, by enumeration. *)
Lemma small_cases (P : Z -> Prop) (lo hi : Z) :
  Forall P (map (fun i => lo + Z.of_nat i) (seq 0 (Z.to_nat (hi - lo + 1)))) -> forall n, lo <= n <= hi -> P n.
Proof.
  intros H n Hn. rewrite Forall_forall in H. apply H. rewrite list_elem_of_fmap. exists (Z.to_nat (n - lo)).
  split; [lia|]. rewrite elem_of_seq. lia.
Qed.

Lemma challenge_text_ok (k : ChallengeKind) (n : Z) :
  k <> KNone -> 4 <= n <= 64 -> parse_challenge ("Q"%char :: kind_letter k ++ show_chars n) = Ok (MkOcraChallenge k n).
Proof.
  intros Hk Hn. assert (length (show_chars n) = 1 \/ length (show_chars n) = 2)%nat as Hl.
  { revert n Hn. apply small_cases. apply (bool_decide_unpack _). by vm_compute. }
  assert (show_chars n <> []) as He by (destruct (show_chars n); cbn in Hl; [lia|done]).
  pose proof (parse_unsigned_show u64_max n ltac:(unfold u64_max; lia) ltac:(lia)) as Hp.
  unfold parse_challenge. destruct k; [done|..];
    (match goal with |- context [drop 2 (?x :: ?y ++ ?l)] => change (drop 2 (x :: y ++ l)) with (show_chars n) end);
    cbn [kind_letter chars list_ascii_of_string app lookup list_lookup Ascii.eqb Bool.eqb];
    rewrite bool_decide_false by done; cbn [orb]; (destruct (Nat.ltb_spec 2 (length (show_chars n))); [lia|]);
    rewrite Hp; (destruct (Z.leb_spec 4 n); [|lia]); (destruct (Z.leb_spec n 64); [|lia]); done.
Qed.

Lemma session_text_ok (n : Z) : n ∈ [64; 128; 256; 512] -> parse_session_len ("S"%char :: session_text n) = Ok n.
Proof. rewrite !elem_of_cons, elem_of_nil. intros [-> |[-> |[-> |[-> |[]]]]]; by vm_compute. Qed.

Lemma step_text_ok (t : Z) : step_ok t -> parse_timestamp_step ("T"%char :: step_text t) = Ok t.
Proof.
  intros (num & mult & max & Hm & Hn & ->). rewrite !elem_of_cons, elem_of_nil in Hm.
  destruct Hm as [[= -> ->]|[[= -> ->]|[[= -> ->]|[]]]]; revert num Hn; apply small_cases;
    apply (bool_decide_unpack _); by vm_compute.
Qed.

(** No separator inside a component. *)
Definition clean (l : list ascii) : bool := forallb (fun a => negb (Ascii.eqb a hyphen || Ascii.eqb a ":")) l.

Lemma clean_app (l k : list ascii) : clean (l ++ k) = clean l && clean k.
Proof. apply forallb_app. Qed.

Lemma clean_not (c : ascii) (l : list ascii) : c = hyphen \/ c = ":"%char -> clean l = true -> Forall (fun a => a <> c) l.
Proof.
  intros Hc Hl. apply Forall_forall. intros a Ha ->. unfold clean in Hl. rewrite forallb_forall in Hl.
  apply list_elem_of_In, Hl in Ha. by destruct Hc as [-> | ->].
Qed.

Lemma clean_show (n : Z) : 0 <= n -> clean (show_chars n) = true.
Proof.
  intros Hn. destruct (show_chars_spec n Hn) as (_ & Hd & _). unfold clean. rewrite forallb_forall in Hd |- *.
  intros a Ha. apply Hd in Ha. destruct (Ascii.eqb_spec a hyphen) as [->|]; [done|].
  by destruct (Ascii.eqb_spec a ":") as [->|].
Qed.

Lemma clean_step (t : Z) : step_ok t -> clean (step_text t) = true.
Proof.
  intros (num & mult & max & Hm & Hn & ->). assert (0 <= num * mult) by (rewrite !elem_of_cons, elem_of_nil in Hm; destruct Hm as [[= -> ->]|[[= -> ->]|[[= -> ->]|[]]]]; lia).
  unfold step_text. repeat case_match; rewrite clean_app, clean_show; try done; [apply Z.div_pos; lia..].
Qed.

Lemma data_texts_clean (s : OcraSuite) : suite_wf s -> Forall (fun l => clean l = true) (data_texts s).
Proof.
  intros [H1 H2 H3 H4 _]. unfold data_texts. rewrite !Forall_app. repeat split.
  - by destruct (os_has_counter s); repeat constructor.
  - destruct (decide _) as [|Hk]; [constructor|]. apply Forall_cons. split; [|constructor]. cbn [clean forallb]. cbn [negb andb orb Ascii.eqb Bool.eqb hyphen].
    change (clean (kind_letter (oc_kind (os_challenge s)) ++ show_chars (oc_len (os_challenge s))) = true). rewrite clean_app.
    destruct H2 as [E|[_ ?]]; [by rewrite E in Hk|]. rewrite clean_show by lia. by destruct (oc_kind (os_challenge s)).
  - destruct (os_pin_algo s) as [h|]; cbn; repeat constructor. by destruct h.
  - destruct (os_session_len s) as [n|]; cbn [text_opt]; [|constructor]. specialize (H3 n eq_refl). rewrite !elem_of_cons, elem_of_nil in H3.
    apply Forall_cons. split; [|constructor]. by destruct H3 as [-> |[-> |[-> |[-> |[]]]]].
  - destruct (os_timestamp_step_secs s) as [t|]; cbn [text_opt]; [|constructor]. apply Forall_cons. split; [|constructor].
    change (clean (step_text t) = true). apply clean_step. by apply H4.
Qed.

Lemma components_app (data : list ascii) (l k : list (list ascii)) (d d' : DataInput) :
  components data l d = Ok d' -> components data (l ++ k) d = components data k d'.
Proof.
  revert d. induction l as [|c l IH]; intros d E; cbn [components app] in *; [by injection E as ->|].
  apply result_bind_Ok in E as (d1 & -> & E). cbn [mbind result_mbind]. by apply IH.
Qed.

Lemma components_one (data comp : list ascii) (d d' : DataInput) : component data comp d = Ok d' -> components data [comp] d = Ok d'.
Proof. intros E. cbn [components]. by rewrite E. Qed.

(** What the components of the canonical text build. *)
Lemma components_texts (data : list ascii) (s : OcraSuite) :
  suite_wf s -> components data (data_texts s) no_data =
    Ok (MkDataInput (os_has_counter s) (os_challenge s) (os_pin_algo s) (os_session_len s) (os_timestamp_step_secs s)).
Proof.
  intros [H1 H2 H3 H4 _]. destruct s as [algo digits hc [k n] pin ses step]. unfold data_texts. cbn [os_has_counter os_challenge os_pin_algo os_session_len os_timestamp_step_secs oc_kind oc_len] in *.
  rewrite (components_app _ _ _ _ (MkDataInput hc (MkOcraChallenge KNone 0) None None None)) by by destruct hc.
  rewrite (components_app _ _ _ _ (MkDataInput hc (MkOcraChallenge k n) None None None)).
  2:{ destruct (decide (k = KNone)) as [->|Hk]; [by destruct H2 as [[= ->]|[]]|]. apply components_one.
      unfold component. cbn [Ascii.eqb Bool.eqb andb]. rewrite challenge_text_ok by (try done; destruct H2 as [[= -> ->]|[_ ?]]; done). done. }
  rewrite (components_app _ _ _ _ (MkDataInput hc (MkOcraChallenge k n) pin None None))
    by (destruct pin as [[]|]; [by apply components_one..|done]).
  rewrite (components_app _ _ _ _ (MkDataInput hc (MkOcraChallenge k n) pin ses None)).
  2:{ destruct ses as [m|]; [|done]. apply components_one. unfold component. cbn [Ascii.eqb Bool.eqb andb].
      cbn [di_session_len]. by rewrite session_text_ok by by apply H3. }
  destruct step as [t|]; [|done]. apply components_one. unfold component. cbn [Ascii.eqb Bool.eqb andb].
  cbn [di_timestamp_step]. by rewrite step_text_ok by by apply H4.
Qed.

Lemma data_texts_ne (s : OcraSuite) : suite_wf s -> data_texts s <> [].
Proof.
  intros [_ _ _ _ H]. unfold data_texts. destruct (os_has_counter s); [done|]. cbn [app orb] in *.
  destruct (decide _); [rewrite bool_decide_true in H by done|done]. cbn [app orb negb] in *.
  destruct (os_pin_algo s); [done|]. destruct (os_session_len s); [done|]. by destruct (os_timestamp_step_secs s).
Qed.

Lemma join_clean (l : list (list ascii)) :
  Forall (fun p => clean p = true) l -> Forall (fun a => a <> ":"%char) (join_hyphen l).
Proof.
  induction 1 as [|p l Hp _ IH]; [constructor|]. destruct l as [|q l]; [apply clean_not; auto|].
  change (join_hyphen (p :: q :: l)) with (p ++ hyphen :: join_hyphen (q :: l)). rewrite Forall_app, Forall_cons.
  split; [apply clean_not; auto|]. by split.
Qed.

Lemma join_nil (l : list (list ascii)) : join_hyphen l = [] -> l = [] \/ l = [[]].
Proof. destruct l as [|[|a p] [|q l]]; cbn; auto; done. Qed.

Lemma crypto_text_ok (h : HashAlgorithm) (n : Z) :
  4 <= n <= 10 -> parse_crypto_function (chars "HOTP-" ++ hash_name h ++ hyphen :: show_chars n) = Ok (h, n).
Proof. revert n. destruct h; apply small_cases; apply (bool_decide_unpack _); by vm_compute. Qed.

Lemma parse_print_suite (s : OcraSuite) : suite_wf s -> parse_suite (print_suite s) = Ok s.
Proof.
  intros Hs. pose proof (data_texts_clean s Hs) as Hc. pose proof (data_texts_ne s Hs) as Hne. unfold parse_suite, print_suite.
  rewrite chars_of_chars.
  change (chars "OCRA-1:HOTP-") with (chars "OCRA-1" ++ ":"%char :: chars "HOTP-"). rewrite <- app_assoc. cbn [app].
  replace (chars "HOTP-" ++ hash_name (os_algo s) ++ hyphen :: show_chars (os_digits s) ++ ":"%char :: join_hyphen (data_texts s))
    with ((chars "HOTP-" ++ hash_name (os_algo s) ++ hyphen :: show_chars (os_digits s)) ++ ":"%char :: join_hyphen (data_texts s))
    by (rewrite <- !app_assoc; done).
  pose proof (wf_digits s Hs) as Hd.
  rewrite (split_on_sep ":" (chars "OCRA-1")) by (by repeat constructor).
  rewrite split_on_sep.
  2:{ rewrite !Forall_app, Forall_cons. repeat split; [by repeat constructor|by destruct (os_algo s); repeat constructor|done|].
      apply show_no_char; [done|lia]. }
  rewrite split_on_nil by by apply join_clean. rewrite bool_decide_true by done. cbn [negb].
  rewrite crypto_text_ok by done. cbn [mbind result_mbind]. unfold parse_data_input. rewrite bool_decide_false.
  2:{ intros E. apply join_nil in E as [E|E]; [done|]. unfold data_texts in E. destruct (os_has_counter s); [done|].
      destruct (decide _); [|done]. by destruct (os_pin_algo s), (os_session_len s), (os_timestamp_step_secs s). }
  rewrite split_join by (first [done|eapply Forall_impl; [exact Hc|]; intros p Hp; apply clean_not; auto]).
  rewrite components_texts by done. cbn [mbind result_mbind]. by destruct s.
Qed.


(** The suites of the RFC's examples, and a sign that is not in the grammar. *)
Example suite_examples :
  (parse_suite "OCRA-1:HOTP-SHA512-8:C-QN08-PSHA1" = Ok (MkOcraSuite Sha512 8 true (MkOcraChallenge KNumeric 8) (Some Sha1) None None)) /\
  (parse_suite "OCRA-1:HOTP-SHA256-6:QA10-T1M" = Ok (MkOcraSuite Sha256 6 false (MkOcraChallenge KAlphanumeric 10) None None (Some 60))) /\
  (parse_suite "OCRA-1:HOTP-SHA1-+6:QN+8-S+64" = Ok (MkOcraSuite Sha1 6 false (MkOcraChallenge KNumeric 8) None (Some 64) None)).
Proof. by vm_compute. Qed.

(** ** The ledger *)

(** A request to use a challenge. *)
Record Use := MkRequest { rq_entry : string; rq_fp : string; rq_at : Z; rq_force : bool }.

(** The specification: remember every recorded fingerprint of an entry, oldest
    first; a use is a replay when it is among the last 64, and is recorded
    unless it is a replay that was not forced. *)
Definition recent (h : list string) : list string := drop (length h - MAX_USES_PER_ENTRY) h.
Abbreviation history := (gmap string (list string)).
Definition of_entry (h : history) (e : string) : list string := default [] (h !! e).
Definition replayed (h : history) (r : Use) : bool := bool_decide (rq_fp r ∈ recent (of_entry h (rq_entry r))).
Definition remember (h : history) (r : Use) : history :=
  if replayed h r && negb (rq_force r) then h else <[rq_entry r := of_entry h (rq_entry r) ++ [rq_fp r]]> h.
Fixpoint verdicts (h : history) (rs : list Use) : list bool :=
  match rs with [] => [] | r :: rs' => replayed h r :: verdicts (remember h r) rs' end.

Lemma trim_uses_drop (l : list ChallengeUse) : trim_uses l = drop (length l - MAX_USES_PER_ENTRY) l.
Proof.
  induction l as [|u l IH]; [done|]. cbn [trim_uses]. destruct (Nat.ltb_spec MAX_USES_PER_ENTRY (length (u :: l))) as [Hl|Hl].
  - rewrite IH. cbn [length] in *. replace (S (length l) - MAX_USES_PER_ENTRY)%nat with (S (length l - MAX_USES_PER_ENTRY)) by lia. done.
  - by replace (length (u :: l) - MAX_USES_PER_ENTRY)%nat with 0%nat by lia.
Qed.

Lemma recent_snoc (h : list string) (x : string) :
  drop (length (recent h ++ [x]) - MAX_USES_PER_ENTRY) (recent h ++ [x]) = recent (h ++ [x]).
Proof.
  unfold recent. rewrite !length_app, length_drop. cbn [length]. unfold MAX_USES_PER_ENTRY.
  destruct (decide (length h <= 64)%nat) as [Hl|Hl].
  - replace (length h - 64)%nat with 0%nat by lia. rewrite drop_0. f_equal. lia.
  - rewrite !drop_app_le by (rewrite ?length_drop; lia). rewrite drop_drop. do 2 f_equal. lia.
Qed.

Section LedgerProps.
Context `{LS : LedgerSerde}.

(** The file of a ledger that stands for a history. *)
Definition stands_for (h : history) (file : option (result string bytes)) : Prop :=
  exists l, (file = None /\ l = default_ledger \/ exists b, file = Some (Ok b) /\ ledger_from_slice b = Ok l) /\
    ol_version l = LEDGER_VERSION /\ forall e, map cu_fp (default [] (ol_entries l !! e)) = recent (of_entry h e).

(** The uses one after the other; all writes succeed. *)
Fixpoint run_uses (vault : string) (rs : list Use) (file : option (result string bytes)) : list (result string bool) :=
  match rs with
  | [] => []
  | r :: rs' => let '(x, file') := record_use vault (rq_entry r) (rq_fp r) (rq_at r) (rq_force r) (Ok tt) file in
                x :: run_uses vault rs' file'
  end.

Lemma replay_recent (l : OcraLedger) (h : list string) (e fp : string) :
  map cu_fp (default [] (ol_entries l !! e)) = recent h -> is_replay l e fp = bool_decide (fp ∈ recent h).
Proof.
  intros E. unfold is_replay. rewrite <- E. generalize (default [] (ol_entries l !! e)). intros us. clear.
  induction us as [|u us IH]; cbn [existsb map]; [by rewrite bool_decide_false by apply not_elem_of_nil|].
  rewrite IH. rewrite <- bool_decide_or. apply bool_decide_ext. rewrite elem_of_cons. split; intros [?|?]; auto.
Qed.

End LedgerProps.

(** serde_json reads back the ledgers it writes. *)
Class LedgerOk `{LedgerSerde} : Prop := {
  ledger_total l : is_Some (ok (ledger_to_vec_pretty l));
  ledger_roundtrip l b : ledger_to_vec_pretty l = Ok b -> ledger_from_slice b = Ok l
}.

Section Refinement.
Context `{LS : LedgerSerde, LO : !LedgerOk}.

(** One use: what is answered and remembered. *)
Definition recorded (h : history) (r : Use) (write : result string unit) : result string bool * history :=
  if replayed h r && negb (rq_force r) then (Ok true, h)
  else match write with Ok _ => (Ok (replayed h r), remember h r) | Err e => (Err e, h) end.

Lemma record_use_step (vault : string) (r : Use) (write : result string unit) (h : history) (file : option (result string bytes)) :
  stands_for h file ->
  exists file', record_use vault (rq_entry r) (rq_fp r) (rq_at r) (rq_force r) write file = (fst (recorded h r write), file') /\
    stands_for (snd (recorded h r write)) file'.
Proof.
  intros (l & Hf & Hv & Hl). assert (load_ledger vault file = Ok l) as El.
  { destruct Hf as [[-> ->]|(b & -> & Eb)]; [done|]. cbn. rewrite Eb. cbn. by rewrite Hv. }
  unfold record_use, recorded. rewrite El. rewrite (replay_recent l (of_entry h (rq_entry r))) by apply Hl.
  fold (replayed h r). unfold remember. destruct (replayed h r && negb (rq_force r)) eqn:Er.
  { exists file. split; [done|]. by exists l. }
  set (l' := with_use l (rq_entry r) (rq_fp r) (rq_at r)). destruct (ledger_total l') as [b Eb].
  destruct (ledger_to_vec_pretty l') as [b'|] eqn:Eb'; [|done]. injection Eb as ->.
  destruct write as [[]|e]; [|exists file; split; [done|by exists l]]. eexists. split; [done|].
  exists l'. split; [right; exists b; split; [done|by apply ledger_roundtrip]|]. split; [done|]. intros e. unfold l', with_use, of_entry. cbn.
  destruct (decide (e = rq_entry r)) as [->|Hn].
  - rewrite lookup_insert_eq, lookup_insert_eq. cbn [default from_option id]. rewrite trim_uses_drop. specialize (Hl (rq_entry r)). unfold of_entry in Hl.
    rewrite <- recent_snoc, <- Hl. rewrite <- (skipn_map cu_fp), map_app, !length_app, length_map. done.
  - rewrite lookup_insert_ne, lookup_insert_ne by done. apply Hl.
Qed.

End Refinement.

(** The ledger is a window over the history: over any sequence of uses from a
    missing file, a use is reported as a replay exactly when its fingerprint
    is among the last 64 recorded ones of its entry. *)
Theorem ledger_refines_history `{LS : LedgerSerde, LO : !LedgerOk} (vault : string) (rs : list Use) :
  run_uses vault rs None = map Ok (verdicts ∅ rs).
Proof.
  assert (stands_for ∅ None) as Hs by (exists default_ledger; split; [by left|done]).
  revert Hs. generalize (None : option (result string bytes)) as file. generalize (∅ : history) as h. induction rs as [|r rs IH]; intros h file Hs; [done|].
  destruct (record_use_step vault r (Ok tt) h file Hs) as (file' & E & Hs'). cbn [run_uses verdicts map]. rewrite E.
  assert (recorded h r (Ok tt) = (Ok (replayed h r), remember h r)) as Er.
  { unfold recorded, remember. by destruct (replayed h r) eqn:Ep, (rq_force r). }
  rewrite Er in *. cbn. f_equal. by apply IH.
Qed.

(** ** A concrete ledger file *)

#[global] Instance ChallengeUse_eq_dec : EqDecision ChallengeUse.
Proof. solve_decision. Defined.
#[global] Instance ChallengeUse_countable : Countable ChallengeUse.
Proof. by refine (inj_countable' (fun u => (cu_fp u, cu_used_at u)) (fun p => MkUse p.1 p.2) _); intros []. Defined.

Module ToyLedger.
Fixpoint pos_bytes (p : positive) : bytes :=
  match p with xH => [] | xO q => byte_of 0 :: pos_bytes q | xI q => byte_of 1 :: pos_bytes q end.
Fixpoint bytes_pos (b : bytes) : positive :=
  match b with [] => xH | a :: b' => if code a =? 0 then xO (bytes_pos b') else xI (bytes_pos b') end.
Lemma bytes_pos_bytes (p : positive) : bytes_pos (pos_bytes p) = p.
Proof. induction p as [p IH|p IH|]; cbn [pos_bytes bytes_pos]; [|by rewrite IH|done]. change (code (byte_of 1) =? 0) with false. by rewrite IH. Qed.

Definition serde : LedgerSerde := {|
  ledger_to_vec_pretty l := Ok (pos_bytes (encode (ol_version l, ol_entries l)));
  ledger_from_slice b := match decode (bytes_pos b) with Some (v, es) => Ok (MkLedger v es) | None => Err "bad" end |}.

#[global] Instance serde_ok : @LedgerOk serde.
Proof.
  split; [by intros l; eexists|]. intros [v es] b E. cbn in E. injection E as <-. cbn. by rewrite bytes_pos_bytes, decode_encode.
Qed.

Definition uses : list Use :=
  [MkRequest "bank" "a" 1 false; MkRequest "bank" "a" 2 false; MkRequest "shop" "a" 3 false; MkRequest "bank" "a" 4 true; MkRequest "bank" "b" 5 false].
End ToyLedger.

Lemma ledger_refines_history_witness :
  @run_uses ToyLedger.serde "v" ToyLedger.uses None = [Ok false; Ok true; Ok false; Ok true; Ok false].
Proof. rewrite (@ledger_refines_history ToyLedger.serde ToyLedger.serde_ok). by vm_compute. Defined.

(** A hexadecimal challenge with an odd number of digits passes the check and
    cannot be encoded. *)
Example odd_hex_challenge :
  let s := MkOcraSuite Sha1 6 false (MkOcraChallenge KHex 8) None None None in
  (validate_challenge s (Some "abc") = Ok tt) /\ is_ok (@encode_challenge Toy.sdk s (Some "abc")) = false.
Proof. by vm_compute. Qed.
