(* ===== verification/PassGen.v ===== *)
(** * Password and passphrase generation (origin-pass/src/generate.rs)

    The random bytes are a sequence: draw [i] is a byte or an error.  The
    rejection loop has no bound in the code; here it takes fuel, and [Running]
    is a loop that has not ended yet.  The second half shows what it needs. *)

From Stdlib Require Import Ascii String.
From S2P Require Import Prelude RustStr Bytes.

Definition CHARSET_LOWER : bytes := chars "abcdefghijklmnopqrstuvwxyz".
Definition CHARSET_UPPER : bytes := chars "ABCDEFGHIJKLMNOPQRSTUVWXYZ".
Definition CHARSET_DIGITS : bytes := chars "0123456789".
Definition CHARSET_SYMBOLS : bytes := chars "!@#$%^&*()-_=+[]{};:,.?/~".

Definition WORDLIST : list string :=
  [ "after"; "apple"; "apricot"; "arrow"; "autumn"; "badge"; "banner"; "barrel";
    "beach"; "berry"; "bicycle"; "blade"; "blaze"; "bloom"; "bolt"; "bonus";
    "bottle"; "brave"; "bread"; "breeze"; "brick"; "bridge"; "bright"; "bronze";
    "bucket"; "butter"; "cabin"; "cactus"; "camera"; "candle"; "canyon"; "carbon";
    "carpet"; "carrot"; "castle"; "cedar"; "celery"; "chain"; "chalk"; "cherry";
    "chest"; "circle"; "circus"; "clover"; "coast"; "cobra"; "coffee"; "coin";
    "comet"; "compass"; "copper"; "coral"; "cotton"; "couch"; "crane"; "crater";
    "crayon"; "creek"; "crimson"; "crown"; "crystal"; "daisy"; "dawn"; "desert";
    "diamond"; "dolphin"; "donkey"; "dragon"; "drift"; "drum"; "dusk"; "eagle";
    "earth"; "echo"; "eclipse"; "ember"; "engine"; "falcon"; "feather"; "fern";
    "field"; "finch"; "flame"; "flash"; "flock"; "flour"; "fog"; "forest";
    "fossil"; "fountain"; "fox"; "frost"; "galaxy"; "garden"; "garnet"; "geyser";
    "ginger"; "glacier"; "glade"; "glass"; "globe"; "glove"; "glow"; "gold";
    "goose"; "grape"; "grass"; "gravel"; "green"; "grove"; "guitar"; "gulf";
    "gust"; "hammer"; "harbor"; "hawk"; "hazel"; "heart"; "hedge"; "hill";
    "honey"; "horizon"; "hornet"; "horse"; "hurricane"; "icicle"; "igloo"; "iron";
    "island"; "ivy"; "jacket"; "jade"; "jungle"; "juniper"; "kettle"; "kindle";
    "koi"; "lagoon"; "lake"; "lantern"; "laurel"; "leaf"; "lemon"; "lily";
    "linen"; "lion"; "lizard"; "lobster"; "lodge"; "lotus"; "lumber"; "maple";
    "marble"; "meadow"; "melon"; "mercury"; "mesa"; "meteor"; "mint"; "mist";
    "moon"; "moss"; "moth"; "mountain"; "mouse"; "mushroom"; "nectar"; "nest";
    "nickel"; "night"; "north"; "nugget"; "oak"; "oasis"; "ocean"; "olive";
    "onion"; "opal"; "orange"; "orbit"; "orchid"; "otter"; "owl"; "oyster";
    "palm"; "panther"; "paper"; "parrot"; "pass"; "pearl"; "pebble"; "pepper";
    "petal"; "pine"; "pinto"; "planet"; "plaza"; "plum"; "pond"; "poppy";
    "prairie"; "prism"; "puppy"; "quartz"; "quill"; "quilt"; "rabbit"; "raven";
    "reef"; "ridge"; "river"; "robin"; "rock"; "rose"; "ruby"; "rust";
    "saddle"; "salmon"; "sand"; "sapphire"; "scarf"; "school"; "scrub"; "sea";
    "seal"; "shark"; "shelf"; "shell"; "shore"; "silver"; "skate"; "slate";
    "slope"; "smoke"; "snail"; "snake"; "snow"; "soap"; "sparrow"; "spear";
    "spider"; "spore"; "spring"; "spruce"; "squid"; "star"; "stone"; "storm";
    "stream"; "summit"; "sunset"; "swan"; "swift"; "sword"; "tiger"; "toast" ].

Definition build_charset (exclude_symbols exclude_digits exclude_upper : bool) : result string bytes :=
  let out := CHARSET_LOWER in
  let out := if negb exclude_upper then out ++ CHARSET_UPPER else out in
  let out := if negb exclude_digits then out ++ CHARSET_DIGITS else out in
  let out := if negb exclude_symbols then out ++ CHARSET_SYMBOLS else out in
  if bool_decide (out = [])
  then Err "all character classes excluded — nothing to generate from (lowercase is always on)"
  else Ok out.

(** A code point below 256 in UTF-8. *)
Definition utf8_char (c : Z) : bytes := if c <? 128 then [byte_of c] else [byte_of (192 + c / 64); byte_of (128 + c mod 64)].

(** The largest multiple of [range] up to 256. *)
Definition sample_limit (range : Z) : Z := 256 - 256 mod range.

(** How a generator ends: with a value, an error of the random source, a
    failed assertion, or not yet. *)
Inductive run (A : Type) :=
| Done (a : A)
| Failed (e : string)
| Panicked
| Running.
Arguments Done {A} a.
Arguments Failed {A} e.
Arguments Panicked {A}.
Arguments Running {A}.

#[global] Instance run_mbind : MBind run := fun A B f r =>
  match r with Done a => f a | Failed e => Failed e | Panicked => Panicked | Running => Running end.

Section Sampling.
(** [random_bytes] on one byte, the [i]-th time. *)
Variable draw : nat -> result string ascii.

(** The loop: the index and the number of the next draw. *)
Fixpoint sample (fuel : nat) (range : Z) (i : nat) : run (Z * nat) :=
  match fuel with
  | O => Running
  | S fuel' =>
      match draw i with
      | Err e => Failed e
      | Ok a => if code a <? sample_limit range then Done (code a mod range, S i) else sample fuel' range (S i)
      end
  end.

Definition uniform_index (fuel : nat) (range : Z) (i : nat) : run (Z * nat) :=
  if (range <=? 0) || (256 <? range) then Panicked else sample fuel range i.

Fixpoint pick_indices (fuel : nat) (range : Z) (n : nat) (i : nat) : run (list Z) :=
  match n with
  | O => Done []
  | S n' => '(k, j) ← uniform_index fuel range i; ks ← pick_indices fuel range n' j; Done (k :: ks)
  end.

(** [out.push(charset[idx] as char)]: a byte is the character of its code point. *)
Definition generate_password (fuel : nat) (len : nat) (charset : bytes) : run string :=
  if (len =? 0)%nat then Failed "password length must be ≥ 1"
  else
    ks ← pick_indices fuel (Z.of_nat (length charset)) len 0;
    Done (of_chars (concat (map (fun k => utf8_char (code (nth (Z.to_nat k) charset (byte_of 0)))) ks))).

Fixpoint join_words (ws : list string) : string :=
  match ws with [] => "" | [w] => w | w :: ws' => w +:+ "-" +:+ join_words ws' end.

Definition generate_passphrase (fuel : nat) (words : nat) : run string :=
  if (words =? 0)%nat then Failed "passphrase word count must be ≥ 1"
  else
    ks ← pick_indices fuel (Z.of_nat (length WORDLIST)) words 0;
    Done (join_words (map (fun k => nth (Z.to_nat k) WORDLIST "") ks)).

End Sampling.

(** ** Generation of passwords: uniform, terminating, injective

    Rejection sampling is uniform, the loop ends with the first accepted
    byte, and no two index sequences give the same passphrase. *)

(** ** Uniformity *)

(** What a byte stands for. *)
Definition accepted_value (range b : Z) : option Z := if b <? sample_limit range then Some (b mod range) else None.

Definition hits (range k : Z) (n : nat) : nat :=
  length (List.filter (fun b => bool_decide (accepted_value range (Z.of_nat b) = Some k)) (seq 0 n)).

Lemma hits_app (range k : Z) (n m : nat) :
  hits range k (n + m) = (hits range k n + length (List.filter (fun b => bool_decide (accepted_value range (Z.of_nat b) = Some k)) (seq n m)))%nat.
Proof. unfold hits. by rewrite seq_app, List.filter_app, length_app. Qed.

Lemma filter_none_in {A : Type} (f : A -> bool) (l : list A) : (forall x, In x l -> f x = false) -> length (List.filter f l) = 0%nat.
Proof. induction l as [|x l IH]; intros H; cbn; [done|]. rewrite (H x) by by left. apply IH. intros y Hy. apply H. by right. Qed.

Lemma sample_limit_spec (range : Z) : 1 <= range <= 256 -> sample_limit range = range * (256 / range) /\ 128 < sample_limit range <= 256.
Proof.
  intros Hr. unfold sample_limit. pose proof (Z.div_mod 256 range ltac:(lia)) as Hd. pose proof (Z.mod_pos_bound 256 range ltac:(lia)).
  assert (1 <= 256 / range) by (apply Z.div_le_lower_bound; lia). split; [lia|]. split; [|lia]. nia.
Qed.

(** One block of [range] bytes holds each index once. *)
Lemma block_hits (range k q : Z) :
  1 <= range <= 256 -> 0 <= k < range -> 0 <= q < 256 / range ->
  length (List.filter (fun b => bool_decide (accepted_value range (Z.of_nat b) = Some k)) (seq (Z.to_nat (range * q)) (Z.to_nat range))) = 1%nat.
Proof.
  intros Hr Hk Hq. destruct (sample_limit_spec range Hr) as [Hl _].
  set (o := Z.to_nat (range * q)). replace (Z.to_nat range) with (Z.to_nat k + S (Z.to_nat (range - 1 - k)))%nat by lia.
  assert (forall b, (o <= b < o + Z.to_nat range)%nat -> accepted_value range (Z.of_nat b) = Some (Z.of_nat (b - o))) as Ha.
  { intros b Hb. unfold accepted_value. destruct (Z.ltb_spec (Z.of_nat b) (sample_limit range)); [|nia]. f_equal.
    replace (Z.of_nat b) with (Z.of_nat (b - o) + q * range) by lia. rewrite Z.mod_add by lia. apply Z.mod_small. lia. }
  rewrite seq_app, List.filter_app, length_app. cbn [seq List.filter].
  assert (forall l, (forall b, In b l -> (o <= b < o + Z.to_nat range)%nat /\ b <> (o + Z.to_nat k)%nat) ->
    List.filter (fun b => bool_decide (accepted_value range (Z.of_nat b) = Some k)) l = []) as Hnil.
  { induction l as [|b l IH]; intros Hb; [done|]. cbn. destruct (Hb b ltac:(by left)) as [H1 H2]. rewrite Ha by done.
    rewrite bool_decide_false by (intros [= E]; lia). apply IH. intros b' Hb'. apply Hb. by right. }
  rewrite (Hnil (seq o _)) by (intros b [? ?]%in_seq; lia). rewrite Ha by lia.
  rewrite bool_decide_true by (f_equal; lia). cbn [length]. rewrite Hnil by (intros b [? ?]%in_seq; lia). done.
Qed.

Lemma hits_blocks (range k : Z) (q : nat) :
  1 <= range <= 256 -> 0 <= k < range -> Z.of_nat q <= 256 / range -> hits range k (Z.to_nat range * q) = q.
Proof.
  intros Hr Hk. induction q as [|q IH]; intros Hq; [by rewrite Nat.mul_0_r|].
  rewrite Nat.mul_succ_r, hits_app, IH by lia.
  pose proof (block_hits range k (Z.of_nat q) Hr Hk ltac:(lia)) as Hb.
  replace (Z.to_nat (range * Z.of_nat q)) with (Z.to_nat range * q)%nat in Hb by lia. rewrite Hb. lia.
Qed.

(** Every index in range is drawn from the same number of bytes, 256 divided by
    the range, and fewer than half of the bytes are rejected. *)
Theorem sampling_uniform (range k : Z) :
  1 <= range <= 256 -> 0 <= k < range ->
  Z.of_nat (hits range k 256) = 256 / range /\ 128 < sample_limit range <= 256 /\
  forall draw i a, draw i = Ok a -> uniform_index draw 1 range i =
    match accepted_value range (code a) with Some k => Done (k, S i) | None => Running end.
Proof.
  intros Hr Hk. destruct (sample_limit_spec range Hr) as [Hl Hb]. split; [|split; [done|]].
  - assert (0 <= 256 / range) by (apply Z.div_pos; lia).
    replace 256%nat with (Z.to_nat range * Z.to_nat (256 / range) + Z.to_nat (256 - sample_limit range))%nat by nia.
    rewrite hits_app, hits_blocks by lia. rewrite filter_none_in; [lia|].
    intros b [H1 H2]%in_seq. unfold accepted_value. destruct (Z.ltb_spec (Z.of_nat b) (sample_limit range)); [nia|done].
  - intros draw i a E. unfold uniform_index. destruct (Z.leb_spec range 0), (Z.ltb_spec 256 range); try lia. cbn. rewrite E.
    unfold accepted_value. by destruct (code a <? sample_limit range).
Qed.

(** ** Termination and result *)

Section Draws.
Variable bs : nat -> ascii.
Definition draw_bytes (i : nat) : result string ascii := Ok (bs i).

(** The indices that [m] draws from draw [i] on give. *)
Definition accepted (range : Z) (i m : nat) : list Z := omap (fun j => accepted_value range (code (bs j))) (seq i m).

Lemma accepted_app (range : Z) (i m n : nat) : accepted range i (m + n) = accepted range i m ++ accepted range (i + m) n.
Proof. unfold accepted. by rewrite seq_app, omap_app. Qed.

(** Within any [fuel] draws there is an accepted byte. *)
Definition fair (range : Z) (fuel : nat) : Prop :=
  forall i, exists j, (i <= j < i + fuel)%nat /\ code (bs j) < sample_limit range.

Lemma sample_first (range : Z) (fuel i j : nat) :
  (i <= j < i + fuel)%nat -> code (bs j) < sample_limit range ->
  exists k m, sample draw_bytes fuel range i = Done (k, (i + m)%nat) /\ accepted range i m = [k] /\ k = code (bs (i + m - 1)) mod range /\ (1 <= m <= fuel)%nat.
Proof.
  revert i. induction fuel as [|fuel IH]; intros i Hj Ha; [lia|]. cbn [sample draw_bytes].
  destruct (Z.ltb_spec (code (bs i)) (sample_limit range)) as [Hi|Hi].
  - exists (code (bs i) mod range), 1%nat. rewrite Nat.add_1_r. split; [done|]. split; [|split; [do 3 f_equal; lia|lia]].
    unfold accepted, accepted_value. cbn. by destruct (Z.ltb_spec (code (bs i)) (sample_limit range)); [|lia].
  - assert (i <> j) by (intros ->; lia). destruct (IH (S i) ltac:(lia) Ha) as (k & m & E & Hk & Hc & Hm).
    exists k, (S m). rewrite E. split; [do 2 f_equal; lia|]. split; [|split; [rewrite Hc; do 3 f_equal; lia|lia]].
    change (S m) with (1 + m)%nat. rewrite accepted_app, Nat.add_1_r, Hk. unfold accepted, accepted_value. cbn.
    by destruct (Z.ltb_spec (code (bs i)) (sample_limit range)); [lia|].
Qed.

Lemma pick_spec (range : Z) (fuel n i : nat) :
  1 <= range <= 256 -> fair range fuel ->
  exists ks m, pick_indices draw_bytes fuel range n i = Done ks /\ ks = accepted range i m /\ length ks = n /\ (m <= n * fuel)%nat.
Proof.
  intros Hr Hf. revert i. induction n as [|n IH]; intros i; cbn [pick_indices].
  { exists [], 0%nat. by repeat split. }
  destruct (Hf i) as (j & Hj & Ha). destruct (sample_first range fuel i j Hj Ha) as (k & m & E & Hk & _ & Hm).
  unfold uniform_index. destruct (Z.leb_spec range 0), (Z.ltb_spec 256 range); try lia. cbn [orb]. rewrite E. cbn [mbind run_mbind].
  destruct (IH (i + m)%nat) as (ks & m' & E' & Hks & Hlen & Hm'). rewrite E'. cbn [mbind run_mbind].
  exists (k :: ks), (m + m')%nat. split; [done|]. split; [by rewrite accepted_app, Hk, Hks|]. split; [cbn; lia|nia].
Qed.

Lemma accepted_range (range : Z) (i m : nat) : 1 <= range -> Forall (fun k => 0 <= k < range) (accepted range i m).
Proof.
  intros Hr. unfold accepted. generalize (seq i m). induction l as [|j l IH]; cbn; [constructor|].
  unfold accepted_value at 1. destruct (_ <? _); [|done]. constructor; [apply Z.mod_pos_bound; lia|done].
Qed.

End Draws.

Lemma utf8_char_ascii (a : ascii) : code a < 128 -> utf8_char (code a) = [a].
Proof. intros H. unfold utf8_char. destruct (Z.ltb_spec (code a) 128); [|lia]. by rewrite byte_of_code. Qed.


(** ** Passphrases *)

Definition no_hyphen (w : string) : bool := forallb (fun a => negb (Ascii.eqb a "-")) (chars w).

Lemma wordlist_ok : (length WORDLIST = 256)%nat /\ NoDup WORDLIST /\ forallb no_hyphen WORDLIST = true.
Proof. split; [done|]. split; [apply (bool_decide_unpack _)|]; by vm_compute. Qed.

Lemma no_hyphen_split (w v : string) (r t : list ascii) :
  no_hyphen w = true -> no_hyphen v = true -> chars w ++ "-"%char :: r = chars v ++ "-"%char :: t -> w = v /\ r = t.
Proof.
  unfold no_hyphen. revert v. induction w as [|a w IH]; intros [|b v] Hw Hv E; cbn in *.
  - by injection E as ->.
  - injection E as <- _. done.
  - injection E as -> _. done.
  - apply andb_prop in Hw as [_ Hw], Hv as [_ Hv]. injection E as -> E. destruct (IH v Hw Hv E) as [-> ->]. done.
Qed.

Lemma no_hyphen_end (w v : string) (r : list ascii) :
  no_hyphen w = true -> chars w = chars v ++ "-"%char :: r -> False.
Proof.
  unfold no_hyphen. intros Hw E. rewrite E, forallb_app in Hw. apply andb_prop in Hw as [_ Hw]. by cbn in Hw.
Qed.

Lemma chars_join (w v : string) (ws : list string) :
  chars (join_words (w :: v :: ws)) = chars w ++ "-"%char :: chars (join_words (v :: ws)).
Proof. change (join_words (w :: v :: ws)) with (w +:+ ("-" +:+ join_words (v :: ws))). by rewrite !chars_app. Qed.

Lemma join_words_inj (ws vs : list string) :
  ws <> [] -> vs <> [] -> forallb no_hyphen ws = true -> forallb no_hyphen vs = true -> chars (join_words ws) = chars (join_words vs) -> ws = vs.
Proof.
  revert vs. induction ws as [|w ws IH]; intros [|v vs] Hw Hv Nw Nv E; try done. cbn [forallb] in Nw, Nv.
  apply andb_prop in Nw as [Nw Nws], Nv as [Nv Nvs]. destruct ws as [|w' ws], vs as [|v' vs].
  - cbn in E. f_equal. by rewrite <- (of_chars_chars w), E, of_chars_chars.
  - rewrite chars_join in E. by apply no_hyphen_end in E.
  - rewrite chars_join in E. symmetry in E. by apply no_hyphen_end in E.
  - rewrite !chars_join in E. apply no_hyphen_split in E as [-> E]; [|done..]. f_equal. by apply IH.
Qed.

Lemma pick_range (draw : nat -> result string ascii) (fuel n i : nat) (range : Z) (ks : list Z) :
  pick_indices draw fuel range n i = Done ks -> Forall (fun k => 0 <= k < range) ks /\ length ks = n.
Proof.
  assert (forall fuel i k j, sample draw fuel range i = Done (k, j) -> 1 <= range -> 0 <= k < range) as Hs.
  { clear. induction fuel as [|fuel IH]; intros i k j E Hr; [done|]. cbn in E. destruct (draw i); [|done].
    destruct (_ <? _); [injection E as <- <-; apply Z.mod_pos_bound; lia|by eapply IH]. }
  revert i ks. induction n as [|n IH]; intros i ks E; cbn [pick_indices] in E; [injection E as <-; by split|].
  unfold uniform_index in E. destruct (Z.leb_spec range 0); [done|]. cbn [orb] in E. destruct (256 <? range); [done|].
  destruct (sample draw fuel range i) as [[k j]| | |] eqn:Es; try done. cbn [mbind run_mbind] in E.
  destruct (pick_indices draw fuel range n j) as [ks'| | |] eqn:Ep; try done. cbn [mbind run_mbind] in E. injection E as <-.
  destruct (IH _ _ Ep) as [H1 H2]. split; [constructor; [eapply Hs; [exact Es|lia]|done]|cbn; lia].
Qed.

Lemma words_inj (W : list string) (ks ks' : list Z) :
  NoDup W -> Forall (fun k => 0 <= k < Z.of_nat (length W)) ks -> Forall (fun k => 0 <= k < Z.of_nat (length W)) ks' ->
  map (fun k => nth (Z.to_nat k) W "") ks = map (fun k => nth (Z.to_nat k) W "") ks' -> ks = ks'.
Proof.
  intros Hd Hr. revert ks'. induction Hr as [|k ks Hk _ IH]; intros [|k' ks'] Hr' Ep; try done. cbn [map] in Ep.
  injection Ep as Ek Ep. apply Forall_cons in Hr' as [Hk' Hr']. f_equal; [|by apply IH].
  destruct (nth_lookup_or_length W (Z.to_nat k) "") as [L|]; [|lia].
  destruct (nth_lookup_or_length W (Z.to_nat k') "") as [L'|]; [|lia]. rewrite Ek in L.
  pose proof (NoDup_lookup _ _ _ _ Hd L L'). lia.
Qed.

(** The list has 256 different words and a passphrase determines the drawn
    indices, so the stated entropy of eight bits a word is exact: two runs
    that print the same passphrase drew the same sequence. *)
Theorem passphrase_injective (draw draw' : nat -> result string ascii) (fuel fuel' n n' : nat) (p : string) :
  generate_passphrase draw fuel n = Done p -> generate_passphrase draw' fuel' n' = Done p ->
  length WORDLIST = 256%nat /\ NoDup WORDLIST /\
  exists ks, pick_indices draw fuel 256 n 0 = Done ks /\ pick_indices draw' fuel' 256 n' 0 = Done ks.
Proof.
  intros E E'. destruct wordlist_ok as (Hl & Hd & Hh). split; [done|]. split; [done|].
  assert (forall draw fuel n, generate_passphrase draw fuel n = Done p ->
    exists ks, pick_indices draw fuel 256 n 0 = Done ks /\ p = join_words (map (fun k => nth (Z.to_nat k) WORDLIST "") ks) /\
      ks <> [] /\ Forall (fun k => 0 <= k < 256) ks) as Hg.
  { clear E E'. intros d f m E. unfold generate_passphrase in E. destruct m as [|m]; [done|]. cbn [Nat.eqb] in E. rewrite Hl in E.
    change (Z.of_nat 256) with 256 in E.
    destruct (pick_indices d f 256 (S m) 0) as [ks| | |] eqn:Ep; try done. injection E as <-. destruct (pick_range _ _ _ _ _ _ Ep) as [H1 H2].
    exists ks. repeat split; [|done]. by destruct ks. }
  destruct (Hg _ _ _ E) as (ks & -> & -> & Hn & Hr), (Hg _ _ _ E') as (ks' & -> & Ep & Hn' & Hr'). exists ks. split; [done|]. f_equal.
  assert (forall l, Forall (fun k => 0 <= k < 256) l -> forallb no_hyphen (map (fun k => nth (Z.to_nat k) WORDLIST "") l) = true) as Hc.
  { induction 1 as [|k l Hk _ IH]; [done|]. cbn [map forallb]. rewrite IH, andb_true_r. rewrite forallb_forall in Hh. apply Hh, nth_In. lia. }
  apply (f_equal chars) in Ep. apply join_words_inj in Ep; [|by destruct ks|by destruct ks'|by apply Hc..].
  symmetry. by apply (words_inj WORDLIST).
Qed.

(** ** Concrete runs *)

(** A source that counts through the bytes. *)
Definition counting (i : nat) : ascii := byte_of (Z.of_nat i).

Lemma sampling_uniform_witness : Z.of_nat (hits 87 3 256) = 2.
Proof. destruct (sampling_uniform 87 3 ltac:(lia) ltac:(lia)) as [-> _]. reflexivity. Defined.

Lemma counting_fair : fair (fun _ => byte_of 7) 36 1.
Proof. intros i. exists i. split; [lia|]. by vm_compute. Qed.


Lemma passphrase_injective_witness :
  exists p ks, generate_passphrase (draw_bytes counting) 1 3 = Done p /\ pick_indices (draw_bytes counting) 1 256 3 0 = Done ks.
Proof.
  destruct (passphrase_injective (draw_bytes counting) (draw_bytes counting) 1 2 3 3 "after-apple-apricot") as (_ & _ & ks & E & _);
    [by vm_compute|by vm_compute|].
  exists "after-apple-apricot", ks. split; [by vm_compute|exact E].
Defined.
