(* ===== verification/PassVault.v ===== *)
(** * The password vault file (origin-pass/src/vault.rs)

    The wire format, locking, unlocking, persisting and the change of
    passphrase.  Argon2id, HKDF, ChaCha20-BLAKE3 and the JSON of an entry
    are parameters; salts and nonces are draws, the [i]-th one of an
    operation being [draw i].  A file is missing, unreadable or its bytes.
    [None] is a panic: the header slice of a file that is too short.
    Sizes are those of a 64-bit target; an unlocked vault's wiping on drop
    has no counterpart. *)

From Stdlib Require Import Ascii String.
From stdpp Require Import countable.
From S2P Require Import Prelude RustStr Bytes RustText Sdk Envelope PassOcra.

(** ** Constants *)

Definition OVLT_MAGIC : bytes := chars "OVLT".
Definition OVLT_VERSION : Z := 1.
Definition CIPHER_CHACHA20_BLAKE3 : Z := 0.
Definition KDF_SALT_LEN : nat := 16.
Definition HEADER_NONCE_LEN : nat := 24.
Definition NAME_HASH_LEN : nat := 32.
Definition ENTRY_NONCE_LEN : nat := 24.
Definition ENTRY_METADATA_LEN : nat := 76.
Definition INDEX_HEADER_LEN : nat := 8.
Definition INDEX_VERSION : Z := 1.
Definition HEADER_BYTES_LEN : nat := 50.
Definition MAX_VAULT_LEN : Z := 256 * 1024 * 1024.

Definition TYPE_PASSWORD : Z := 0.
Definition TYPE_TOTP : Z := 1.
Definition TYPE_HOTP : Z := 2.
Definition TYPE_OCRA : Z := 3.
Definition ALGO_UNSPECIFIED : Z := 0.
Definition ALGO_SHA1 : Z := 1.
Definition ALGO_SHA256 : Z := 2.
Definition ALGO_SHA512 : Z := 3.

(** ** Data *)

Record EntryMetadata := MkMeta {
  em_name_hash : bytes;
  em_name : string;
  em_entry_nonce : bytes;
  em_entry_ct_offset : Z;
  em_entry_ct_len : Z;
  em_type_tag : Z;
  em_algo : Z;
  em_period_secs : Z;
  em_digits : Z
}.

Record EntryPayload := MkPayload {
  ep_name : string;
  ep_entry_type : string;
  ep_secret : option bytes;
  ep_url : option string;
  ep_notes : option string;
  ep_created_at : Z;
  ep_updated_at : Z;
  ep_totp : option json;
  ep_hotp : option json;
  ep_ocra : option json
}.

Record VaultHeader := MkVaultHeader {
  vh_cipher_suite : Z;
  vh_kdf_tier : MemoryTier;
  vh_kdf_salt : bytes;
  vh_header_nonce : bytes;
  vh_header_ct_len : Z
}.

Record OpenVault := MkOpenVault {
  pv_header : VaultHeader;
  pv_entries : gmap string EntryPayload;
  pv_metadata : list EntryMetadata;
  pv_master_key : bytes
}.

(** A [BTreeMap] is iterated in the order of its keys. *)
Definition name_le {A : Type} (a b : string * A) : Prop := String.leb (fst a) (fst b) = true.
#[global] Instance name_le_dec {A : Type} (a b : string * A) : Decision (name_le a b).
Proof. unfold name_le. apply _. Defined.
Definition in_order (es : gmap string EntryPayload) : list (string * EntryPayload) := merge_sort name_le (map_to_list es).

(** ** Entries

    The fields of a [serde_json::Map] are a [BTreeMap]: they are listed in the
    order of their names. *)

Definition password (name secret : string) : EntryPayload :=
  MkPayload name "password" (Some (chars secret)) None None 0 0 None None None.
Definition totp (name secret : string) (period digits : Z) (algo : string) : EntryPayload :=
  MkPayload name "otp" (Some (chars secret)) None None 0 0
    (Some (JObj [("algo", JStr algo); ("digits", JNum digits); ("kind", JStr "totp"); ("period", JNum period)])) None None.
Definition hotp (name secret : string) (counter digits : Z) (algo : string) : EntryPayload :=
  MkPayload name "otp" (Some (chars secret)) None None 0 0 None
    (Some (JObj [("algo", JStr algo); ("counter", JNum counter); ("digits", JNum digits); ("kind", JStr "hotp")])) None.
Definition ocra (name : string) (key : bytes) (suite : string) (digits : Z) (algo : string) (counter : Z) : EntryPayload :=
  MkPayload name "ocra" (Some key) None None 0 0 None None
    (Some (JObj [("algo", JStr algo); ("counter", JNum counter); ("digits", JNum digits); ("suite", JStr suite)])).

(** [Value::get], [as_str], [as_u64]. *)
Definition value_get (k : string) (v : json) : option json :=
  match v with JObj fields => snd <$> List.find (fun kv => String.eqb (fst kv) k) fields | _ => None end.
Definition value_str (k : string) (v : json) : option string := match value_get k v with Some (JStr s) => Some s | _ => None end.
Definition get_u64 (k : string) (v : json) : option Z :=
  match value_get k v with Some (JNum n) => if (0 <=? n) && (n <=? u64_max) then Some n else None | _ => None end.

Definition algo_tag (v : json) : Z :=
  match value_str "algo" v with
  | Some s => if String.eqb s "SHA1" || String.eqb s "sha1" then ALGO_SHA1
              else if String.eqb s "SHA256" || String.eqb s "sha256" then ALGO_SHA256
              else if String.eqb s "SHA512" || String.eqb s "sha512" then ALGO_SHA512 else ALGO_SHA256
  | None => ALGO_SHA256
  end.

Definition payload_to_type_tag_algo_period_digits (p : EntryPayload) : Z * Z * Z * Z :=
  let type_tag :=
    if String.eqb (ep_entry_type p) "password" then TYPE_PASSWORD
    else if String.eqb (ep_entry_type p) "otp" && bool_decide (is_Some (ep_totp p)) then TYPE_TOTP
    else if String.eqb (ep_entry_type p) "otp" && bool_decide (is_Some (ep_hotp p)) then TYPE_HOTP
    else if String.eqb (ep_entry_type p) "ocra" then TYPE_OCRA else TYPE_PASSWORD in
  let '(algo, period_secs, digits) :=
    match ep_totp p, ep_ocra p with
    | Some t, _ => (algo_tag t, default 30 (get_u64 "period" t) mod 2 ^ 16, default 6 (get_u64 "digits" t) mod 2 ^ 8)
    | None, Some o => (algo_tag o, 0, default 6 (get_u64 "digits" o) mod 2 ^ 8)
    | None, None => (ALGO_UNSPECIFIED, 0, 0)
    end in
  (type_tag, algo, period_secs, digits).

Definition entry_kind (m : EntryMetadata) : string :=
  if em_type_tag m =? TYPE_PASSWORD then "password" else if em_type_tag m =? TYPE_TOTP then "totp"
  else if em_type_tag m =? TYPE_HOTP then "hotp" else if em_type_tag m =? TYPE_OCRA then "ocra" else "unknown".

(** ** Wire formats *)

Definition meta_to_wire (m : EntryMetadata) : bytes :=
  em_name_hash m ++ em_entry_nonce m ++ be_bytes 4 (em_entry_ct_len m) ++ [byte_of (em_type_tag m); byte_of (em_algo m)]
  ++ be_bytes 2 (em_period_secs m) ++ [byte_of (em_digits m)] ++ replicate 11 (byte_of 0).

Definition byte_at (i : nat) (b : bytes) : Z := match b !! i with Some a => code a | None => 0 end.

Definition meta_from_wire (b : bytes) : result string EntryMetadata :=
  if (length b <? ENTRY_METADATA_LEN)%nat
  then Err ("entry metadata too short: " +:+ show_Z (Z.of_nat (length b)) +:+ " bytes (need " +:+ show_Z (Z.of_nat ENTRY_METADATA_LEN) +:+ ")")
  else Ok (MkMeta (Bytes.slice 0 32 b) "" (Bytes.slice 32 56 b) 0 (be_val (Bytes.slice 56 60 b)) (byte_at 60 b) (byte_at 61 b)
             (be_val (Bytes.slice 62 64 b)) (byte_at 64 b)).

(** [header_ct_len as u16]. *)
Definition header_to_wire (h : VaultHeader) : bytes :=
  OVLT_MAGIC ++ [byte_of OVLT_VERSION; byte_of (vh_cipher_suite h); byte_of (tier_to_byte (vh_kdf_tier h)); byte_of 0]
  ++ vh_kdf_salt h ++ vh_header_nonce h ++ be_bytes 2 (vh_header_ct_len h mod 2 ^ 16).

Definition bad_cipher (c : Z) : string :=
  "unsupported cipher suite 0x" +:+ show_hex2 c +:+ "; only ChaCha20-BLAKE3 (0x00) is implemented".

Definition build_index_bytes (entries : list EntryMetadata) : bytes :=
  be_bytes 4 (Z.of_nat (length entries) mod 2 ^ 32) ++ be_bytes 4 INDEX_VERSION ++ concat (map meta_to_wire entries).

Fixpoint parse_metas (n : nat) (b : bytes) : result string (list EntryMetadata) :=
  match n with
  | O => Ok []
  | S n' => m ← meta_from_wire (take ENTRY_METADATA_LEN b); ms ← parse_metas n' (drop ENTRY_METADATA_LEN b); Ok (m :: ms)
  end.

Definition parse_index_bytes (b : bytes) : result string (list EntryMetadata) :=
  if (length b <? INDEX_HEADER_LEN)%nat
  then Err ("index too short: " +:+ show_Z (Z.of_nat (length b)) +:+ " bytes (need ≥ " +:+ show_Z (Z.of_nat INDEX_HEADER_LEN) +:+ ")")
  else
    let entry_count := be_val (Bytes.slice 0 4 b) in
    let index_version := be_val (Bytes.slice 4 8 b) in
    if negb (index_version =? INDEX_VERSION)
    then Err ("index version mismatch: got " +:+ show_Z index_version +:+ ", expected " +:+ show_Z INDEX_VERSION)
    else
      let need := Z.of_nat INDEX_HEADER_LEN + entry_count * Z.of_nat ENTRY_METADATA_LEN in
      if Z.of_nat (length b) <? need
      then Err ("index truncated: " +:+ show_Z entry_count +:+ " entries need " +:+ show_Z need +:+ "B, got " +:+ show_Z (Z.of_nat (length b)))
      else parse_metas (Z.to_nat entry_count) (drop INDEX_HEADER_LEN b).

(** [checked_add] on [usize] and [u64]. *)
Definition checked_add (a b : Z) : result string Z := if u64_max <? a + b then Err "entry length overflow" else Ok (a + b).

Fixpoint read_total_entry_len (ms : list EntryMetadata) (total : Z) : result string Z :=
  match ms with [] => Ok total | m :: ms' => t ← checked_add total (em_entry_ct_len m); read_total_entry_len ms' t end.

Definition set_offset (m : EntryMetadata) (off : Z) : EntryMetadata :=
  MkMeta (em_name_hash m) (em_name m) (em_entry_nonce m) off (em_entry_ct_len m) (em_type_tag m) (em_algo m) (em_period_secs m) (em_digits m).

(** The offsets, and where the last entry ends. *)
Fixpoint place (ms : list EntryMetadata) (cursor : Z) : result string (list EntryMetadata * Z) :=
  match ms with
  | [] => Ok ([], cursor)
  | m :: ms' =>
      c ← checked_add cursor (em_entry_ct_len m);
      '(rest, fin) ← place ms' c;
      Ok (set_offset m cursor :: rest, fin)
  end.

(** ** Cryptography *)

Class VaultOps := {
  argon2id_tier : MemoryTier -> bytes -> bytes -> result string bytes;
  hkdf32 : bytes -> bytes -> bytes -> bytes;
  cb_encrypt : bytes -> bytes -> bytes -> bytes -> result string bytes;
  cb_decrypt : bytes -> bytes -> bytes -> bytes -> result string bytes;
  TAG_SIZE : nat;
  payload_to_vec : EntryPayload -> result string bytes;
  payload_from_slice : bytes -> result string EntryPayload
}.

Section Vaults.
Context `{SK : Sdk, VO : VaultOps}.

Definition header_from_wire (b : bytes) : result string VaultHeader :=
  if (length b <? HEADER_BYTES_LEN)%nat
  then Err ("vault header too short: " +:+ show_Z (Z.of_nat (length b)) +:+ " bytes (need " +:+ show_Z (Z.of_nat HEADER_BYTES_LEN) +:+ ")")
  else if negb (bool_decide (take 4 b = OVLT_MAGIC)) then Err "vault magic mismatch — not an OVLT file (or wrong version)"
  else if negb (byte_at 4 b =? OVLT_VERSION)
  then Err ("vault version mismatch: got 0x" +:+ show_hex2 (byte_at 4 b) +:+ ", expected 0x" +:+ show_hex2 OVLT_VERSION)
  else if negb (byte_at 5 b =? CIPHER_CHACHA20_BLAKE3) then Err (bad_cipher (byte_at 5 b))
  else if negb (byte_at 7 b =? 0) then Err ("unsupported reserved vault header byte: 0x" +:+ show_hex2 (byte_at 7 b))
  else
    kdf_tier ← tier_from_byte (byte_at 6 b);
    let header_ct_len := be_val (Bytes.slice 48 50 b) in
    if header_ct_len <? Z.of_nat TAG_SIZE
    then Err ("vault header ciphertext too short: " +:+ show_Z header_ct_len +:+ " bytes (need at least " +:+ show_Z (Z.of_nat TAG_SIZE) +:+ ")")
    else Ok (MkVaultHeader (byte_at 5 b) kdf_tier (Bytes.slice 8 24 b) (Bytes.slice 24 48 b) header_ct_len).

Definition argon2id_derive (passphrase salt : bytes) (tier : MemoryTier) : result string bytes :=
  key ← map_err (fun e => "Argon2id derivation failed: " +:+ e) (argon2id_tier tier passphrase salt);
  if negb (length key =? 32)%nat then Err ("Argon2id returned " +:+ show_Z (Z.of_nat (length key)) +:+ " bytes; expected 32") else Ok key.

Definition derive_header_key (master : bytes) : bytes := hkdf32 master (chars "origin-vault") (chars "header-key").
Definition derive_entry_key (master nonce : bytes) : bytes := hkdf32 master nonce (chars "entry-key").
Definition vault_hash_name (name : string) : bytes := sha3_256 (chars name).
Definition build_entry_aad (name_hash nonce : bytes) : bytes := name_hash ++ nonce.

(** ** Reading *)

Definition read_vault_file (path : string) (file : option (result string bytes)) : result string (VaultHeader * bytes) :=
  data ← match file with
         | None => Err ("cannot read vault " +:+ path +:+ ": not found")
         | Some r => map_err (fun e => "read vault: " +:+ e) r
         end;
  if (length data <? HEADER_BYTES_LEN)%nat
  then Err ("vault file too short: " +:+ show_Z (Z.of_nat (length data)) +:+ " bytes (need ≥ " +:+ show_Z (Z.of_nat HEADER_BYTES_LEN) +:+ ")")
  else if MAX_VAULT_LEN <? Z.of_nat (length data)
  then Err ("vault file too large: " +:+ show_Z (Z.of_nat (length data)) +:+ " bytes (max " +:+ show_Z MAX_VAULT_LEN +:+ ")")
  else
    header ← header_from_wire (take HEADER_BYTES_LEN data);
    if negb (vh_cipher_suite header =? CIPHER_CHACHA20_BLAKE3) then Err (bad_cipher (vh_cipher_suite header))
    else Ok (header, data).

Definition open_entry (master data : bytes) (m : EntryMetadata) : result string EntryPayload :=
  let start := Z.to_nat (em_entry_ct_offset m) in
  let end_ := (start + Z.to_nat (em_entry_ct_len m))%nat in
  if (length data <? end_)%nat then Err ("entry '" +:+ of_chars (utf8_lossy (em_name_hash m)) +:+ "' CT extends past EOF")
  else
    let aad := build_entry_aad (em_name_hash m) (em_entry_nonce m) in
    let short := hex_encode (take 4 (em_name_hash m)) in
    plaintext ← map_err (fun _ => "entry decryption failed (entry name_hash=" +:+ short +:+ ")")
                  (cb_decrypt (derive_entry_key master (em_entry_nonce m)) (em_entry_nonce m) (Bytes.slice start end_ data) aad);
    p ← map_err (fun e => "entry JSON parse failed: " +:+ e) (payload_from_slice plaintext);
    Ok (if String.eqb (ep_name p) ""
        then MkPayload ("entry-" +:+ short) (ep_entry_type p) (ep_secret p) (ep_url p) (ep_notes p) (ep_created_at p) (ep_updated_at p)
               (ep_totp p) (ep_hotp p) (ep_ocra p)
        else p).

Fixpoint open_entries (master data : bytes) (ms : list EntryMetadata) (acc : gmap string EntryPayload)
    : result string (gmap string EntryPayload) :=
  match ms with
  | [] => Ok acc
  | m :: ms' => p ← open_entry master data m; open_entries master data ms' (<[ep_name p := p]> acc)
  end.

Definition decrypt_vault (header : VaultHeader) (data master : bytes) : option (result string OpenVault) :=
  if negb (length master =? 32)%nat then Some (Err ("master key must be 32 bytes; got " +:+ show_Z (Z.of_nat (length master))))
  else
    let hl := Z.to_nat (vh_header_ct_len header) in
    if (length data <? HEADER_BYTES_LEN + hl)%nat then None
    else
      Some (
        index_bytes ← map_err (fun _ => "vault unlock failed (decryption — wrong passphrase or corrupt header)")
                        (cb_decrypt (derive_header_key master) (vh_header_nonce header) (Bytes.slice HEADER_BYTES_LEN (HEADER_BYTES_LEN + hl) data) []);
        metadata ← parse_index_bytes index_bytes;
        _ ← read_total_entry_len metadata 0;
        '(metadata, cursor) ← place metadata (Z.of_nat (HEADER_BYTES_LEN + hl));
        if negb (cursor =? Z.of_nat (length data))
        then Err ("entry payloads end at byte " +:+ show_Z cursor +:+ " but file is " +:+ show_Z (Z.of_nat (length data))
                  +:+ " bytes — vault is truncated or corrupt")
        else
          entries ← open_entries master data metadata ∅;
          Ok (MkOpenVault header entries metadata master)).

Definition unlock_vault_with_key (path : string) (master : bytes) (file : option (result string bytes)) : option (result string OpenVault) :=
  match read_vault_file path file with
  | Err e => Some (Err e)
  | Ok (header, data) => decrypt_vault header data master
  end.

Definition unlock_vault (path passphrase : string) (file : option (result string bytes)) : option (result string OpenVault) :=
  match read_vault_file path file with
  | Err e => Some (Err e)
  | Ok (header, data) =>
      match argon2id_derive (chars passphrase) (vh_kdf_salt header) (vh_kdf_tier header) with
      | Err _ => Some (Err "vault unlock failed (Argon2id)")
      | Ok master => decrypt_vault header data master
      end
  end.

(** ** Writing *)

(** Nonce [i] of an operation. *)
Definition nonce_draw (draw : nat -> result string bytes) (i : nat) : result string bytes :=
  map_err (fun e => "nonce generation failed: " +:+ e) (draw i).

Definition seal_entry (master : bytes) (nonce_draw : result string bytes) (name : string) (p : EntryPayload)
    : result string (EntryMetadata * bytes) :=
  nonce ← nonce_draw;
  let name_hash := vault_hash_name name in
  json ← map_err (fun e => "serialize entry payload: " +:+ e) (payload_to_vec p);
  ct ← map_err (fun e => "ChaCha20-BLAKE3 encrypt entry: " +:+ e)
         (cb_encrypt (derive_entry_key master nonce) nonce json (build_entry_aad name_hash nonce));
  let '(type_tag, algo, period_secs, digits) := payload_to_type_tag_algo_period_digits p in
  Ok (MkMeta name_hash name nonce 0 (Z.of_nat (length ct) mod 2 ^ 32) type_tag algo period_secs digits, ct).

Fixpoint seal_entries (draw : nat -> result string bytes) (master : bytes) (i : nat) (es : list (string * EntryPayload))
    : result string (list (EntryMetadata * bytes)) :=
  match es with
  | [] => Ok []
  | (name, p) :: es' =>
      e ← seal_entry master (nonce_draw draw i) name p;
      rest ← seal_entries draw master (S i) es';
      Ok (e :: rest)
  end.

Definition header_error (e : string) : string := "ChaCha20-BLAKE3 header encrypt: " +:+ e.

(** The bytes of the new file. *)
Definition vault_bytes (draw : nat -> result string bytes) (v : OpenVault) : result string bytes :=
  entry_data ← seal_entries draw (pv_master_key v) 0 (in_order (pv_entries v));
  let index_bytes := build_index_bytes (map fst entry_data) in
  header_nonce ← nonce_draw draw (length entry_data);
  header_ct ← map_err header_error (cb_encrypt (derive_header_key (pv_master_key v)) header_nonce index_bytes []);
  let h := pv_header v in
  let new_header := MkVaultHeader (vh_cipher_suite h) (vh_kdf_tier h) (vh_kdf_salt h) header_nonce (Z.of_nat (length header_ct)) in
  Ok (header_to_wire new_header ++ header_ct ++ concat (map snd entry_data)).

(** The file after a write; [write] is the outcome of the atomic write. *)
Definition vault_write_atomic (write : result string unit) (content : bytes) (file : option (result string bytes))
    : result string unit * option (result string bytes) :=
  match write with Ok _ => (Ok tt, Some (Ok content)) | Err e => (Err e, file) end.

Definition persist_vault (draw : nat -> result string bytes) (write : result string unit) (v : OpenVault)
    (file : option (result string bytes)) : result string unit * option (result string bytes) :=
  match vault_bytes draw v with Err e => (Err e, file) | Ok b => vault_write_atomic write b file end.

Definition salt_draw (draw : result string bytes) : result string bytes := map_err (fun e => "salt generation failed: " +:+ e) draw.

Definition init_bytes (salt : result string bytes) (draw : nat -> result string bytes) (passphrase : string) (tier : MemoryTier)
    : result string bytes :=
  kdf_salt ← salt_draw salt;
  master ← argon2id_derive (chars passphrase) kdf_salt tier;
  header_nonce ← nonce_draw draw 0;
  header_ct ← map_err header_error (cb_encrypt (derive_header_key master) header_nonce (build_index_bytes []) []);
  Ok (header_to_wire (MkVaultHeader CIPHER_CHACHA20_BLAKE3 tier kdf_salt header_nonce (Z.of_nat (length header_ct))) ++ header_ct ++ []).

(** [parent] is the outcome of creating the parent directory. *)
Definition init_vault (path passphrase : string) (tier : MemoryTier) (parent : result string unit) (salt : result string bytes)
    (draw : nat -> result string bytes) (write : result string unit) (file : option (result string bytes))
    : result string unit * option (result string bytes) :=
  match parent with
  | Err e => (Err ("cannot create vault parent " +:+ of_chars (dir_prefix path) +:+ ": " +:+ e), file)
  | Ok _ =>
      match file with
      | Some _ => (Err ("vault file already exists: " +:+ path +:+ " (refusing to overwrite)"), file)
      | None => match init_bytes salt draw passphrase tier with Err e => (Err e, file) | Ok b => vault_write_atomic write b file end
      end
  end.

Definition rekeyed (v : OpenVault) (master salt : bytes) (tier : MemoryTier) : OpenVault :=
  let h := pv_header v in
  MkOpenVault (MkVaultHeader (vh_cipher_suite h) tier salt (vh_header_nonce h) (vh_header_ct_len h)) (pv_entries v) (pv_metadata v) master.

Definition change_vault_passphrase (path old_passphrase new_passphrase : string) (tier : MemoryTier) (salt : result string bytes)
    (draw : nat -> result string bytes) (write : result string unit) (file : option (result string bytes))
    : option (result string unit * option (result string bytes)) :=
  match unlock_vault path old_passphrase file with
  | None => None
  | Some (Err e) => Some (Err e, file)
  | Some (Ok v) =>
      match (new_salt ← salt_draw salt; new_master ← argon2id_derive (chars new_passphrase) new_salt tier; Ok (new_salt, new_master))
            : result string (bytes * bytes) with
      | Err e => Some (Err e, file)
      | Ok (new_salt, new_master) => Some (persist_vault draw write (rekeyed v new_master new_salt tier) file)
      end
  end.

(** ** Lookups *)

Definition add_entry (v : OpenVault) (p : EntryPayload) : OpenVault :=
  MkOpenVault (pv_header v) (<[ep_name p := p]> (pv_entries v)) (pv_metadata v) (pv_master_key v).

Definition get_ocra_entry (v : OpenVault) (name : string) : result string EntryPayload :=
  match pv_entries v !! name with
  | None => Err ("entry not found: " +:+ name)
  | Some e => if negb (String.eqb (ep_entry_type e) "ocra")
              then Err ("entry '" +:+ name +:+ "' is type '" +:+ ep_entry_type e +:+ "'; OCRA requires type 'ocra'") else Ok e
  end.

Definition get_ocra_key (v : OpenVault) (name : string) : result string bytes :=
  e ← get_ocra_entry v name;
  match ep_secret e with
  | Some s => Ok s
  | None => Err ("entry '" +:+ name +:+ "' has no secret bytes stored (data corruption?)")
  end.

End Vaults.

(** ** The password vault: round trips and capacity

    A persisted vault unlocks to the same entries as long as its encrypted
    index fits the two-byte length field, and never does beyond that;
    changing the passphrase keeps the entries. *)

(** ** Fields of a record on the wire *)

Lemma field_at (i j : nat) (pre x post : bytes) :
  length pre = i -> (i + length x)%nat = j -> Bytes.slice i j (pre ++ x ++ post) = x.
Proof. intros <- <-. by apply slice_app. Qed.

Lemma byte_at_app (i : nat) (pre post : bytes) (a : ascii) : length pre = i -> byte_at i (pre ++ a :: post) = code a.
Proof. intros <-. unfold byte_at. by rewrite list_lookup_middle. Qed.

Definition in_byte (z : Z) : Prop := 0 <= z < 256.
Lemma code_small (z : Z) : in_byte z -> code (byte_of z) = z.
Proof. intros H. rewrite code_byte_of. by apply Z.mod_small. Qed.

(** What an index entry must satisfy to be written without loss. *)
Record meta_ok (m : EntryMetadata) : Prop := {
  mo_hash : length (em_name_hash m) = 32%nat;
  mo_nonce : length (em_entry_nonce m) = 24%nat;
  mo_len : 0 <= em_entry_ct_len m < 2 ^ 32;
  mo_tag : in_byte (em_type_tag m);
  mo_algo : in_byte (em_algo m);
  mo_period : 0 <= em_period_secs m < 2 ^ 16;
  mo_digits : in_byte (em_digits m)
}.
(** The index keeps neither the name nor the offset. *)
Definition on_wire (m : EntryMetadata) : EntryMetadata :=
  MkMeta (em_name_hash m) "" (em_entry_nonce m) 0 (em_entry_ct_len m) (em_type_tag m) (em_algo m) (em_period_secs m) (em_digits m).

Lemma meta_wire_length (m : EntryMetadata) : meta_ok m -> length (meta_to_wire m) = 76%nat.
Proof. intros [H1 H2 _ _ _ _ _]. unfold meta_to_wire. rewrite !length_app, !be_bytes_length, H1, H2. done. Qed.

Lemma meta_roundtrip (m : EntryMetadata) : meta_ok m -> meta_from_wire (meta_to_wire m) = Ok (on_wire m).
Proof.
  intros Hm. pose proof (meta_wire_length m Hm) as Hl. destruct Hm as [H1 H2 H3 H4 H5 H6 H7].
  unfold meta_from_wire. rewrite Hl. cbn [Nat.ltb Nat.leb ENTRY_METADATA_LEN].
  assert (forall pre x post i j, meta_to_wire m = pre ++ x ++ post -> length pre = i -> (i + length x)%nat = j ->
    Bytes.slice i j (meta_to_wire m) = x) as Hf by (intros pre x post i j -> ? ?; by apply field_at).
  assert (forall pre a post i, meta_to_wire m = pre ++ a :: post -> length pre = i -> byte_at i (meta_to_wire m) = code a) as Hb
    by (intros pre a post i -> ?; by apply byte_at_app).
  rewrite (Hf [] (em_name_hash m) _ 0%nat 32%nat eq_refl eq_refl) by lia.
  rewrite (Hf (em_name_hash m) (em_entry_nonce m) _ 32%nat 56%nat eq_refl) by lia.
  set (p2 := em_name_hash m ++ em_entry_nonce m). assert (length p2 = 56%nat) as L2 by (unfold p2; rewrite length_app; lia).
  rewrite (Hf p2 (be_bytes 4 (em_entry_ct_len m)) ([byte_of (em_type_tag m); byte_of (em_algo m)]
    ++ be_bytes 2 (em_period_secs m) ++ [byte_of (em_digits m)] ++ replicate 11 (byte_of 0)) 56%nat 60%nat)
    by (unfold meta_to_wire, p2; rewrite <- ?app_assoc; rewrite ?be_bytes_length; done || lia).
  set (p3 := p2 ++ be_bytes 4 (em_entry_ct_len m)).
  assert (length p3 = 60%nat) as L3 by (unfold p3; rewrite length_app, be_bytes_length; lia).
  assert (meta_to_wire m = p3 ++ byte_of (em_type_tag m) :: byte_of (em_algo m) ::
    be_bytes 2 (em_period_secs m) ++ [byte_of (em_digits m)] ++ replicate 11 (byte_of 0)) as E3
    by (unfold meta_to_wire, p3, p2; by rewrite <- !app_assoc).
  rewrite (Hb p3 (byte_of (em_type_tag m)) _ 60%nat E3 L3).
  rewrite (Hb (p3 ++ [byte_of (em_type_tag m)]) (byte_of (em_algo m)) (be_bytes 2 (em_period_secs m) ++ [byte_of (em_digits m)] ++ replicate 11 (byte_of 0)) 61%nat)
    by (rewrite ?E3, <- ?app_assoc, ?length_app; cbn [length]; done || lia).
  set (p4 := p3 ++ [byte_of (em_type_tag m); byte_of (em_algo m)]).
  assert (length p4 = 62%nat) as L4 by (unfold p4; rewrite length_app; cbn [length]; lia).
  rewrite (Hf p4 (be_bytes 2 (em_period_secs m)) ([byte_of (em_digits m)] ++ replicate 11 (byte_of 0)) 62%nat 64%nat)
    by (unfold p4; rewrite ?E3, <- ?app_assoc, ?be_bytes_length; done || lia).
  rewrite (Hb (p4 ++ be_bytes 2 (em_period_secs m)) (byte_of (em_digits m)) (replicate 11 (byte_of 0)) 64%nat)
    by (unfold p4; rewrite ?E3, <- ?app_assoc, ?length_app, ?be_bytes_length; cbn [length]; done || lia).
  rewrite !code_small, !be_val_bytes by (try done; cbn; lia). done.
Qed.

Lemma parse_metas_roundtrip (ms : list EntryMetadata) (rest : bytes) :
  Forall meta_ok ms -> parse_metas (length ms) (concat (map meta_to_wire ms) ++ rest) = Ok (map on_wire ms).
Proof.
  induction 1 as [|m ms Hm _ IH]; [done|]. cbn [length parse_metas map concat]. rewrite <- app_assoc.
  pose proof (meta_wire_length m Hm) as Hl. unfold ENTRY_METADATA_LEN. rewrite <- Hl, take_app_length, drop_app_length, meta_roundtrip by done.
  cbn [mbind result_mbind]. by rewrite IH.
Qed.

Lemma index_length (ms : list EntryMetadata) : Forall meta_ok ms -> length (build_index_bytes ms) = (8 + 76 * length ms)%nat.
Proof.
  intros H. unfold build_index_bytes. rewrite !length_app, !be_bytes_length.
  assert (length (concat (map meta_to_wire ms)) = 76 * length ms)%nat; [|lia].
  induction H as [|m ms Hm _ IH]; [done|]. cbn [map concat length]. rewrite length_app, IH, meta_wire_length by done. lia.
Qed.

Lemma index_roundtrip (ms : list EntryMetadata) :
  Forall meta_ok ms -> Z.of_nat (length ms) < 2 ^ 32 -> parse_index_bytes (build_index_bytes ms) = Ok (map on_wire ms).
Proof.
  intros Hm Hn. pose proof (index_length ms Hm) as Hl. unfold parse_index_bytes. rewrite Hl.
  destruct (Nat.ltb_spec (8 + 76 * length ms) INDEX_HEADER_LEN) as [Hlt|_]; [unfold INDEX_HEADER_LEN in Hlt; lia|].
  assert (Bytes.slice 0 4 (build_index_bytes ms) = be_bytes 4 (Z.of_nat (length ms))) as ->.
  { unfold build_index_bytes. rewrite Z.mod_small by lia. by apply (field_at 0 4 []). }
  assert (Bytes.slice 4 8 (build_index_bytes ms) = be_bytes 4 INDEX_VERSION) as ->
    by (unfold build_index_bytes; by apply field_at; rewrite ?be_bytes_length).
  rewrite !be_val_bytes by (change (256 ^ Z.of_nat 4) with (2 ^ 32); unfold INDEX_VERSION; lia). cbn [Z.eqb Pos.eqb negb INDEX_VERSION]. unfold INDEX_HEADER_LEN, ENTRY_METADATA_LEN.
  destruct (Z.ltb_spec (Z.of_nat (8 + 76 * length ms)) (Z.of_nat 8 + Z.of_nat (length ms) * Z.of_nat 76)); [lia|].
  rewrite Nat2Z.id. replace (drop 8 (build_index_bytes ms)) with (concat (map meta_to_wire ms) ++ []).
  - by apply parse_metas_roundtrip.
  - unfold build_index_bytes. rewrite app_nil_r, app_assoc. symmetry. by apply drop_app_length'.
Qed.

Lemma parse_metas_length (n : nat) (b : bytes) (ms : list EntryMetadata) : parse_metas n b = Ok ms -> length ms = n.
Proof.
  revert b ms. induction n as [|n IH]; intros b ms E; cbn [parse_metas] in E; [by injection E as <-|].
  apply result_bind_Ok in E as (m & _ & E). apply result_bind_Ok in E as (ms' & E' & [= <-]). cbn. f_equal. by eapply IH.
Qed.

(** An index of [n] bytes has at most [(n - 8) / 76] entries. *)
Lemma parse_index_short (b : bytes) (ms : list EntryMetadata) :
  parse_index_bytes b = Ok ms -> (8 + 76 * length ms <= length b)%nat.
Proof.
  unfold parse_index_bytes. intros E. destruct (length b <? INDEX_HEADER_LEN)%nat; [done|]. case_match; [done|].
  destruct (Z.ltb_spec (Z.of_nat (length b)) (Z.of_nat INDEX_HEADER_LEN + be_val (Bytes.slice 0 4 b) * Z.of_nat ENTRY_METADATA_LEN)) as [|Hn]; [done|].
  apply parse_metas_length in E. pose proof (be_val_range (Bytes.slice 0 4 b)). unfold INDEX_HEADER_LEN, ENTRY_METADATA_LEN in Hn. lia.
Qed.

Section Roundtrips.
Context `{SK : Sdk, VO : VaultOps}.

Record header_ok (h : VaultHeader) : Prop := {
  ho_cipher : vh_cipher_suite h = CIPHER_CHACHA20_BLAKE3;
  ho_salt : length (vh_kdf_salt h) = KDF_SALT_LEN;
  ho_nonce : length (vh_header_nonce h) = HEADER_NONCE_LEN
}.

(** The length field is the length modulo 65536. *)
Definition read_back (h : VaultHeader) : VaultHeader :=
  MkVaultHeader (vh_cipher_suite h) (vh_kdf_tier h) (vh_kdf_salt h) (vh_header_nonce h) (vh_header_ct_len h mod 2 ^ 16).

Lemma header_wire_length (h : VaultHeader) : header_ok h -> length (header_to_wire h) = HEADER_BYTES_LEN.
Proof. intros [_ H2 H3]. unfold header_to_wire. rewrite !length_app, be_bytes_length, H2, H3. done. Qed.

Lemma header_roundtrip (h : VaultHeader) :
  header_ok h -> header_from_wire (header_to_wire h) =
    if vh_header_ct_len h mod 2 ^ 16 <? Z.of_nat TAG_SIZE
    then Err ("vault header ciphertext too short: " +:+ show_Z (vh_header_ct_len h mod 2 ^ 16) +:+ " bytes (need at least " +:+ show_Z (Z.of_nat TAG_SIZE) +:+ ")")
    else Ok (read_back h).
Proof.
  intros Hh. pose proof (header_wire_length h Hh) as Hl. destruct Hh as [H1 H2 H3]. unfold header_from_wire. rewrite Hl.
  cbn [Nat.ltb Nat.leb HEADER_BYTES_LEN].
  pose proof (Z.mod_pos_bound (vh_header_ct_len h) (2 ^ 16) ltac:(lia)) as Hr.
  assert (take 4 (header_to_wire h) = OVLT_MAGIC) as -> by done. rewrite bool_decide_true by done. cbn [negb].
  assert (forall i a, (i < 8)%nat -> (OVLT_MAGIC ++ [byte_of OVLT_VERSION; byte_of (vh_cipher_suite h); byte_of (tier_to_byte (vh_kdf_tier h)); byte_of 0]) !! i = Some a ->
    byte_at i (header_to_wire h) = code a) as Hb.
  { intros i a Hi E. unfold byte_at, header_to_wire. rewrite app_assoc, lookup_app_l by done. by rewrite E. }
  rewrite (Hb 4%nat _ ltac:(lia) eq_refl), (Hb 5%nat _ ltac:(lia) eq_refl), (Hb 6%nat _ ltac:(lia) eq_refl), (Hb 7%nat _ ltac:(lia) eq_refl).
  rewrite H1. rewrite (code_small (tier_to_byte (vh_kdf_tier h))) by (destruct (vh_kdf_tier h); cbn; unfold in_byte; lia).
  cbn [Z.eqb negb code_byte_of]. change (code (byte_of OVLT_VERSION) =? OVLT_VERSION) with true.
  change (code (byte_of CIPHER_CHACHA20_BLAKE3) =? CIPHER_CHACHA20_BLAKE3) with true. change (code (byte_of 0) =? 0) with true. cbn [negb].
  rewrite tier_roundtrip. cbn [mbind result_mbind].
  set (pre := OVLT_MAGIC ++ [byte_of OVLT_VERSION; byte_of (vh_cipher_suite h); byte_of (tier_to_byte (vh_kdf_tier h)); byte_of 0]).
  assert (header_to_wire h = pre ++ vh_kdf_salt h ++ vh_header_nonce h ++ be_bytes 2 (vh_header_ct_len h mod 2 ^ 16)) as E
    by (unfold header_to_wire, pre; by rewrite <- app_assoc).
  assert (Bytes.slice 8 24 (header_to_wire h) = vh_kdf_salt h) as -> by (rewrite E; by apply field_at; rewrite ?H2).
  assert (Bytes.slice 24 48 (header_to_wire h) = vh_header_nonce h) as ->.
  { rewrite E, app_assoc. apply field_at; [rewrite length_app, H2; done|by rewrite H3]. }
  assert (Bytes.slice 48 50 (header_to_wire h) = be_bytes 2 (vh_header_ct_len h mod 2 ^ 16)) as ->.
  { replace (header_to_wire h) with ((pre ++ vh_kdf_salt h ++ vh_header_nonce h) ++ be_bytes 2 (vh_header_ct_len h mod 2 ^ 16) ++ [])
      by (rewrite E, app_nil_r, <- !app_assoc; done).
    apply field_at; [rewrite !length_app, H2, H3; done|by rewrite be_bytes_length]. }
  rewrite be_val_bytes by (cbn; lia). unfold read_back. rewrite H1. done.
Qed.

(** ** Sealing and opening entries *)

(** ChaCha20-BLAKE3 and JSON: decryption inverts encryption, a ciphertext is
    longer than its plaintext by the tag, JSON is read back as written. *)
(** A value as serde holds it: the names of an object are sorted and differ. *)
Fixpoint canonical (j : json) : bool :=
  match j with
  | JArr l => forallb canonical l
  | JObj fs =>
      (fix go (prev : option string) (fs : list (string * json)) : bool :=
         match fs with
         | [] => true
         | (k, v) :: fs' => match prev with Some k' => String.ltb k' k | None => true end && canonical v && go (Some k) fs'
         end) None fs
  | _ => true
  end.

(** An optional value that is [null] is not written apart from a missing one. *)
Definition value_ok (o : option json) : bool := match o with Some JNull => false | Some j => canonical j | None => true end.
Definition payload_ok (p : EntryPayload) : bool := value_ok (ep_totp p) && value_ok (ep_hotp p) && value_ok (ep_ocra p).

Class VaultOk : Prop := {
  cb_roundtrip k n p a c : cb_encrypt k n p a = Ok c -> cb_decrypt k n c a = Ok p;
  cb_encrypt_len k n p a c : cb_encrypt k n p a = Ok c -> length c = (length p + TAG_SIZE)%nat;
  cb_decrypt_len k n p a c : cb_decrypt k n c a = Ok p -> length c = (length p + TAG_SIZE)%nat;
  payload_roundtrip p b : payload_ok p = true -> payload_to_vec p = Ok b -> payload_from_slice b = Ok p;
  payload_parsed b p : payload_from_slice b = Ok p -> payload_ok p = true
}.

Context `{HO : !HashOk, VK : VaultOk}.

(** What [seal_entry] makes of an entry. *)
Definition sealed (master : bytes) (e : string * EntryPayload) (s : EntryMetadata * bytes) : Prop :=
  meta_ok (fst s) /\ em_name_hash (fst s) = vault_hash_name (fst e) /\ em_entry_ct_len (fst s) = Z.of_nat (length (snd s)) mod 2 ^ 32 /\
  exists json, payload_to_vec (snd e) = Ok json /\
    cb_encrypt (derive_entry_key master (em_entry_nonce (fst s))) (em_entry_nonce (fst s)) json
      (build_entry_aad (em_name_hash (fst s)) (em_entry_nonce (fst s))) = Ok (snd s).

Definition draws24 (draw : nat -> result string bytes) : Prop := forall i n, draw i = Ok n -> length n = 24%nat.

Lemma algo_tag_byte (v : json) : in_byte (algo_tag v).
Proof. unfold algo_tag, in_byte. repeat case_match; split; by vm_compute. Qed.

Lemma tags_ok (p : EntryPayload) (t a per d : Z) :
  payload_to_type_tag_algo_period_digits p = (t, a, per, d) -> in_byte t /\ in_byte a /\ 0 <= per < 2 ^ 16 /\ in_byte d.
Proof.
  unfold payload_to_type_tag_algo_period_digits.
  assert (in_byte (if String.eqb (ep_entry_type p) "password" then TYPE_PASSWORD
    else if String.eqb (ep_entry_type p) "otp" && bool_decide (is_Some (ep_totp p)) then TYPE_TOTP
    else if String.eqb (ep_entry_type p) "otp" && bool_decide (is_Some (ep_hotp p)) then TYPE_HOTP
    else if String.eqb (ep_entry_type p) "ocra" then TYPE_OCRA else TYPE_PASSWORD)) as Ht by (repeat case_match; split; by vm_compute).
  intros E. destruct (ep_totp p) as [v|], (ep_ocra p) as [o|]; injection E as <- <- <- <-;
    (split; [exact Ht|]); (split; [first [apply algo_tag_byte|split; by vm_compute]|]);
    unfold in_byte; (split; [try apply Z.mod_pos_bound; lia|try apply Z.mod_pos_bound; lia]).
Qed.

Lemma seal_entry_sealed (master : bytes) (nd : result string bytes) (name : string) (p : EntryPayload) (s : EntryMetadata * bytes) :
  (forall n, nd = Ok n -> length n = 24%nat) -> seal_entry master nd name p = Ok s -> sealed master (name, p) s.
Proof.
  intros Hn E. unfold seal_entry in E. apply result_bind_Ok in E as (nonce & En & E). apply result_bind_Ok in E as (js & Ej & E).
  apply result_bind_Ok in E as (ct & Ec & E). apply map_err_Ok in Ej, Ec.
  destruct (payload_to_type_tag_algo_period_digits p) as [[[t a] per] d] eqn:Et. injection E as <-. apply tags_ok in Et as (T1 & T2 & T3 & T4).
  split; [split; cbn; [apply sha3_len|by apply Hn|apply Z.mod_pos_bound; lia|done..]|]. split; [done|]. split; [done|]. by exists js.
Qed.

Lemma seal_entries_sealed (draw : nat -> result string bytes) (master : bytes) (i : nat) (es : list (string * EntryPayload)) (ed : list (EntryMetadata * bytes)) :
  draws24 draw -> seal_entries draw master i es = Ok ed -> Forall2 (sealed master) es ed.
Proof.
  intros Hd. revert i ed. induction es as [|[name p] es IH]; intros i ed E; cbn [seal_entries] in E; [injection E as <-; constructor|].
  apply result_bind_Ok in E as (s & Es & E). apply result_bind_Ok in E as (rest & Er & [= <-]). constructor; [|by eapply IH].
  eapply seal_entry_sealed; [|exact Es]. intros n Hn. unfold nonce_draw in Hn. apply map_err_Ok in Hn. by eapply Hd.
Qed.

Definition insert_all (acc : gmap string EntryPayload) (es : list (string * EntryPayload)) : gmap string EntryPayload :=
  foldl (fun m kv => <[fst kv := snd kv]> m) acc es.

(** An entry under its name, which is not empty. *)
Definition entry_ok (k : string) (p : EntryPayload) : Prop := ep_name p = k /\ k <> "" /\ payload_ok p = true.
Definition named (es : list (string * EntryPayload)) : Prop := Forall (fun kv => entry_ok (fst kv) (snd kv)) es.

Lemma open_sealed (master data pre ct post : bytes) (e : string * EntryPayload) (m : EntryMetadata) :
  sealed master e (m, ct) -> entry_ok (fst e) (snd e) -> Z.of_nat (length ct) < 2 ^ 32 ->
  data = pre ++ ct ++ post -> open_entry master data (set_offset (on_wire m) (Z.of_nat (length pre))) = Ok (snd e).
Proof.
  intros (Hm & Hh & Hl & js & Ej & Ec) (Hn & He & Hp) Hs ->. cbn in *. unfold open_entry. cbn [set_offset on_wire em_entry_ct_offset em_entry_ct_len em_name_hash em_entry_nonce].
  rewrite Hl, Z.mod_small, !Nat2Z.id by lia. rewrite !length_app.
  destruct (Nat.ltb_spec (length pre + (length ct + length post)) (length pre + length ct)); [lia|].
  rewrite slice_app by done. rewrite (cb_roundtrip _ _ _ _ _ Ec). cbn [map_err mbind result_mbind].
  rewrite (payload_roundtrip _ _ Hp Ej). cbn [map_err mbind result_mbind]. rewrite Hn. by destruct (String.eqb_spec (fst e) "").
Qed.

Lemma open_all_sealed (master : bytes) (es : list (string * EntryPayload)) (ed : list (EntryMetadata * bytes)) :
  Forall2 (sealed master) es ed -> named es ->
  forall pre acc, Z.of_nat (length pre + length (concat (map snd ed))) < 2 ^ 32 ->
  exists pl, place (map on_wire (map fst ed)) (Z.of_nat (length pre)) = Ok (pl, Z.of_nat (length pre + length (concat (map snd ed)))) /\
    open_entries master (pre ++ concat (map snd ed)) pl acc = Ok (insert_all acc es).
Proof.
  induction 1 as [|e [m ct] es ed Hs _ IH]; intros Hn pre acc Hl.
  { exists []. cbn. rewrite Nat.add_0_r. done. }
  apply Forall_cons in Hn as [Hn Hns]. cbn [map concat fst snd] in *. rewrite length_app in Hl.
  destruct (IH Hns (pre ++ ct) (<[ep_name (snd e) := snd e]> acc)) as (pl & Ep & Eo); [rewrite !length_app; lia|].
  exists (set_offset (on_wire m) (Z.of_nat (length pre)) :: pl). cbn [place]. pose proof Hs as (Hm & Hh & Hct & Hj). cbn [fst snd] in *.
  unfold checked_add. cbn [on_wire em_entry_ct_len]. rewrite Hct, Z.mod_small by lia.
  destruct (Z.ltb_spec u64_max (Z.of_nat (length pre) + Z.of_nat (length ct))) as [Hu|_]; [unfold u64_max in Hu; lia|].
  cbn [mbind result_mbind]. rewrite length_app, Nat2Z.inj_add in Ep. rewrite Ep. cbn [mbind result_mbind]. split.
  - rewrite !length_app. do 2 f_equal. lia.
  - cbn [open_entries]. rewrite (open_sealed master _ pre ct (concat (map snd ed)) e m); [|exact Hs|done|lia|done].
    cbn [mbind result_mbind]. rewrite <- app_assoc in Eo. rewrite Eo. cbn [insert_all foldl]. destruct Hn as [-> _]. done.
Qed.

Lemma total_ok (ms : list EntryMetadata) (c : Z) (pl : list EntryMetadata) (fin t : Z) :
  place ms c = Ok (pl, fin) -> t <= c -> exists u, read_total_entry_len ms t = Ok u.
Proof.
  revert c t pl fin. induction ms as [|m ms IH]; intros c t pl fin E Ht; cbn [read_total_entry_len place] in *; [by eexists|].
  apply result_bind_Ok in E as (c' & Ec & E). apply result_bind_Ok in E as ([rest f] & E & _). unfold checked_add in *.
  destruct (Z.ltb_spec u64_max (c + em_entry_ct_len m)); [done|]. injection Ec as <-.
  destruct (Z.ltb_spec u64_max (t + em_entry_ct_len m)); [lia|]. cbn [mbind result_mbind]. eapply IH; [exact E|lia].
Qed.

(** ** Vaults *)

Record vault_wf (v : OpenVault) : Prop := {
  vw_cipher : vh_cipher_suite (pv_header v) = CIPHER_CHACHA20_BLAKE3;
  vw_salt : length (vh_kdf_salt (pv_header v)) = KDF_SALT_LEN;
  vw_master : length (pv_master_key v) = 32%nat;
  vw_names : forall k p, pv_entries v !! k = Some p -> entry_ok k p
}.

Lemma in_order_perm (es : gmap string EntryPayload) : in_order es ≡ₚ map_to_list es.
Proof. apply merge_sort_Permutation. Qed.

Lemma insert_all_in_order (es : gmap string EntryPayload) : insert_all ∅ (in_order es) = es.
Proof.
  assert (forall l (acc : gmap string EntryPayload), insert_all acc l = foldr (fun kv m => <[fst kv := snd kv]> m) acc (rev l)) as Hf.
  { induction l as [|kv l IH]; intros acc; [done|]. cbn [insert_all foldl rev]. rewrite foldr_app. apply IH. }
  rewrite Hf. change (list_to_map (rev (in_order es)) = es). rewrite <- (list_to_map_to_list es) at 2.
  assert (rev (in_order es) ≡ₚ map_to_list es) as Hp by (rewrite <- Permutation_rev; apply in_order_perm).
  apply list_to_map_proper; [|done]. rewrite Hp. apply NoDup_fst_map_to_list.
Qed.

Lemma in_order_named (v : OpenVault) : vault_wf v -> named (in_order (pv_entries v)).
Proof.
  intros H. unfold named. apply Forall_forall. intros [k p] Hk. rewrite in_order_perm in Hk. apply elem_of_map_to_list in Hk.
  by apply (vw_names v H).
Qed.

Lemma in_order_length (es : gmap string EntryPayload) : length (in_order es) = size es.
Proof. rewrite in_order_perm. apply length_map_to_list. Qed.

(** The parts of a written vault. *)
Lemma vault_bytes_parts (draw : nat -> result string bytes) (v : OpenVault) (b : bytes) :
  draws24 draw -> vault_wf v -> vault_bytes draw v = Ok b ->
  exists ed hn hct, Forall2 (sealed (pv_master_key v)) (in_order (pv_entries v)) ed /\
    cb_encrypt (derive_header_key (pv_master_key v)) hn (build_index_bytes (map fst ed)) [] = Ok hct /\
    (let h := MkVaultHeader (vh_cipher_suite (pv_header v)) (vh_kdf_tier (pv_header v)) (vh_kdf_salt (pv_header v)) hn (Z.of_nat (length hct)) in
     header_ok h /\ b = header_to_wire h ++ hct ++ concat (map snd ed)) /\
    length hct = (8 + 76 * size (pv_entries v) + TAG_SIZE)%nat /\ Forall meta_ok (map fst ed) /\ length (map fst ed) = size (pv_entries v).
Proof.
  intros Hd Hv E. unfold vault_bytes in E. apply result_bind_Ok in E as (ed & Es & E). apply result_bind_Ok in E as (hn & En & E).
  apply result_bind_Ok in E as (hct & Eh & [= <-]). apply map_err_Ok in Eh, En. apply (seal_entries_sealed _ _ _ _ _ Hd) in Es.
  assert (Forall meta_ok (map fst ed)) as Hm.
  { clear -Es. induction Es as [|e s es ed Hs _ IH]; constructor; [apply Hs|done]. }
  assert (length (map fst ed) = size (pv_entries v)) as Hn by (rewrite length_map, <- (Forall2_length _ _ _ Es); apply in_order_length).
  exists ed, hn, hct. split; [done|]. split; [done|]. split; [split; [split; cbn; [apply Hv|apply Hv|by eapply Hd]|done]|].
  split; [|done]. rewrite (cb_encrypt_len _ _ _ _ _ Eh), index_length, Hn by done. lia.
Qed.

Lemma read_written (path : string) (h : VaultHeader) (rest : bytes) :
  header_ok h -> Z.of_nat (length (header_to_wire h ++ rest)) <= MAX_VAULT_LEN -> Z.of_nat TAG_SIZE <= vh_header_ct_len h mod 2 ^ 16 ->
  read_vault_file path (Some (Ok (header_to_wire h ++ rest))) = Ok (read_back h, header_to_wire h ++ rest).
Proof.
  intros Hh Hs Ht. pose proof (header_wire_length h Hh) as Hl. unfold read_vault_file. cbn [map_err mbind result_mbind].
  rewrite length_app, Hl in Hs |- *. destruct (Nat.ltb_spec (HEADER_BYTES_LEN + length rest) HEADER_BYTES_LEN); [lia|].
  destruct (Z.ltb_spec MAX_VAULT_LEN (Z.of_nat (HEADER_BYTES_LEN + length rest))); [lia|].
  rewrite <- Hl, take_app_length, header_roundtrip by done.
  destruct (Z.ltb_spec (vh_header_ct_len h mod 2 ^ 16) (Z.of_nat TAG_SIZE)); [lia|]. cbn [mbind result_mbind read_back vh_cipher_suite].
  destruct Hh as [-> _ _]. done.
Qed.

(** The vault fits: its index ciphertext has a two-byte length. *)
Definition fits (es : gmap string EntryPayload) : Prop := 8 + 76 * Z.of_nat (size es) + Z.of_nat TAG_SIZE < 65536.

Lemma persisted_unlocks (path : string) (draw : nat -> result string bytes) (v : OpenVault) (b : bytes) :
  draws24 draw -> vault_wf v -> vault_bytes draw v = Ok b -> Z.of_nat (length b) <= MAX_VAULT_LEN -> fits (pv_entries v) ->
  exists h ms, read_vault_file path (Some (Ok b)) = Ok (h, b) /\ vh_kdf_salt h = vh_kdf_salt (pv_header v) /\ vh_kdf_tier h = vh_kdf_tier (pv_header v) /\
    decrypt_vault h b (pv_master_key v) = Some (Ok (MkOpenVault h (pv_entries v) ms (pv_master_key v))).
Proof.
  intros Hd Hv E Hs Hf. destruct (vault_bytes_parts _ _ _ Hd Hv E) as (ed & hn & hct & Hed & Eh & [Hh ->] & Hl & Hm & Hn). unfold fits in Hf.
  set (h := MkVaultHeader _ _ _ hn _) in *. assert (vh_header_ct_len h mod 2 ^ 16 = Z.of_nat (length hct)) as Hc by (cbn; apply Z.mod_small; lia).
  pose proof (header_wire_length h Hh) as Hw. set (data := header_to_wire h ++ hct ++ concat (map snd ed)) in *.
  exists (read_back h). unfold decrypt_vault. rewrite (vw_master v Hv). cbn [Nat.eqb negb]. cbn [read_back vh_header_ct_len]. rewrite Hc, Nat2Z.id.
  assert (length data = HEADER_BYTES_LEN + length hct + length (concat (map snd ed)))%nat as Ld by (unfold data; rewrite !length_app, Hw; lia).
  destruct (open_all_sealed _ _ _ Hed (in_order_named v Hv) (header_to_wire h ++ hct) ∅) as (pl & Ep & Eo).
  { rewrite length_app, Hw. unfold MAX_VAULT_LEN in Hs. lia. }
  exists pl. split; [apply read_written; [done|exact Hs|rewrite Hc; lia]|]. split; [done|]. split; [done|].
  destruct (Nat.ltb_spec (length data) (HEADER_BYTES_LEN + length hct)); [lia|].
  assert (Bytes.slice HEADER_BYTES_LEN (HEADER_BYTES_LEN + length hct) data = hct) as -> by (by apply slice_app).
  change (vh_header_nonce (read_back h)) with hn. rewrite (cb_roundtrip _ _ _ _ _ Eh). cbn [map_err mbind result_mbind].
  rewrite index_roundtrip by (try done; lia). cbn [mbind result_mbind]. rewrite length_app, Hw in Ep.
  destruct (total_ok _ _ _ _ 0 Ep ltac:(lia)) as [u ->]. cbn [mbind result_mbind]. rewrite Ep. cbn [mbind result_mbind].
  rewrite <- Ld, Z.eqb_refl. cbn [negb]. rewrite <- app_assoc in Eo. fold data in Eo. rewrite Eo. cbn [mbind result_mbind].
  rewrite insert_all_in_order. done.
Qed.

Lemma open_entries_size (master data : bytes) (ms : list EntryMetadata) (acc r : gmap string EntryPayload) :
  open_entries master data ms acc = Ok r -> (size r <= size acc + length ms)%nat.
Proof.
  revert acc. induction ms as [|m ms IH]; intros acc E; cbn [open_entries] in E; [injection E as <-; lia|].
  apply result_bind_Ok in E as (p & _ & E). apply IH in E. cbn [length].
  assert (size (<[ep_name p := p]> acc) <= S (size acc))%nat; [|lia].
  destruct (acc !! ep_name p) eqn:Ea; [rewrite map_size_insert_Some by eauto; lia|rewrite map_size_insert_None by done; lia].
Qed.

Lemma place_length (ms pl : list EntryMetadata) (c fin : Z) : place ms c = Ok (pl, fin) -> length pl = length ms.
Proof.
  revert c pl fin. induction ms as [|m ms IH]; intros c pl fin E; cbn [place] in E; [by injection E as <- <-|].
  apply result_bind_Ok in E as (c' & _ & E). apply result_bind_Ok in E as ([rest f] & E & [= <- <-]). cbn. f_equal. by eapply IH.
Qed.

(** What unlocks has at most as many entries as its index ciphertext can hold. *)
Lemma unlocked_size (h : VaultHeader) (data master : bytes) (v : OpenVault) :
  decrypt_vault h data master = Some (Ok v) -> (8 + 76 * size (pv_entries v) + TAG_SIZE <= Z.to_nat (vh_header_ct_len h))%nat.
Proof.
  unfold decrypt_vault. intros E. destruct (length master =? 32)%nat; cbn [negb] in E; [|done].
  destruct (Nat.ltb_spec (length data) (HEADER_BYTES_LEN + Z.to_nat (vh_header_ct_len h))) as [|Hl]; [done|]. apply (inj Some) in E.
  apply result_bind_Ok in E as (ib & Ei & E). apply map_err_Ok in Ei. apply result_bind_Ok in E as (ms & Em & E).
  apply result_bind_Ok in E as (u & _ & E). apply result_bind_Ok in E as ([pl cur] & Ep & E). destruct (cur =? _); cbn [negb] in E; [|done].
  apply result_bind_Ok in E as (es & Ee & [= <-]). cbn [pv_entries]. apply open_entries_size in Ee. rewrite map_size_empty in Ee.
  apply place_length in Ep. apply parse_index_short in Em. apply cb_decrypt_len in Ei. rewrite slice_length in Ei by lia.
  lia.
Qed.

Lemma read_back_fields (path : string) (file : option (result string bytes)) (h : VaultHeader) (data : bytes) :
  read_vault_file path file = Ok (h, data) -> vh_cipher_suite h = CIPHER_CHACHA20_BLAKE3 /\ length (vh_kdf_salt h) = KDF_SALT_LEN /\
    file = Some (Ok data) /\ header_from_wire (take HEADER_BYTES_LEN data) = Ok h.
Proof.
  unfold read_vault_file. intros E. apply result_bind_Ok in E as (d & Ed & E). destruct (Nat.ltb_spec (length d) HEADER_BYTES_LEN) as [|Hl]; [done|].
  destruct (_ <? _); [done|]. apply result_bind_Ok in E as (h' & Eh & E). destruct (Z.eqb_spec (vh_cipher_suite h') CIPHER_CHACHA20_BLAKE3); cbn [negb] in E; [|done].
  injection E as -> ->. split; [done|]. split; [|split; [|done]].
  - unfold header_from_wire in Eh. repeat (destruct (_ : bool); [done|]). 
    apply result_bind_Ok in Eh as (t & _ & Eh). destruct (_ <? _); [done|]. apply (f_equal (fun r => match r with Ok x => vh_kdf_salt x | Err _ => [] end)) in Eh. cbn [vh_kdf_salt] in Eh. rewrite <- Eh.
    rewrite slice_length; [done|]. rewrite length_take. unfold HEADER_BYTES_LEN in *. lia.
  - destruct file as [r|]; [|done]. apply map_err_Ok in Ed. by subst.
Qed.

Lemma open_entries_named (master data : bytes) (ms : list EntryMetadata) (acc r : gmap string EntryPayload) :
  open_entries master data ms acc = Ok r -> (forall k p, acc !! k = Some p -> entry_ok k p) ->
  forall k p, r !! k = Some p -> entry_ok k p.
Proof.
  revert acc. induction ms as [|m ms IH]; intros acc E Ha; cbn [open_entries] in E; [by injection E as <-|].
  apply result_bind_Ok in E as (q & Eq & E). eapply IH; [exact E|]. intros k p Hk.
  destruct (decide (k = ep_name q)) as [->|Hn]; [|rewrite lookup_insert_ne in Hk by done; by apply Ha].
  rewrite lookup_insert_eq in Hk. injection Hk as ->. split; [done|].
  unfold open_entry in Eq. destruct (_ <? _)%nat; [done|]. apply result_bind_Ok in Eq as (pt & _ & Eq). apply result_bind_Ok in Eq as (q & Eq & [= <-]).
  apply map_err_Ok, payload_parsed in Eq. destruct (String.eqb_spec (ep_name q) ""); [|done]. cbn. done.
Qed.

(** Whatever unlocks is a vault whose keys are the names of its entries. *)
Lemma unlocked_wf (path : string) (file : option (result string bytes)) (h : VaultHeader) (data master : bytes) (v : OpenVault) :
  read_vault_file path file = Ok (h, data) -> decrypt_vault h data master = Some (Ok v) -> vault_wf v /\ pv_master_key v = master /\ pv_header v = h.
Proof.
  intros R E. destruct (read_back_fields _ _ _ _ R) as (Hc & Hs & _). unfold decrypt_vault in E.
  destruct (Nat.eqb_spec (length master) 32) as [Hm|]; cbn [negb] in E; [|done]. destruct (_ <? _)%nat; [done|]. apply (inj Some) in E.
  apply result_bind_Ok in E as (ib & _ & E). apply result_bind_Ok in E as (ms & _ & E). apply result_bind_Ok in E as (u & _ & E).
  apply result_bind_Ok in E as ([pl cur] & _ & E). destruct (cur =? _); cbn [negb] in E; [|done]. apply result_bind_Ok in E as (es & Ee & E).
  injection E as <-. split; [|done]. split; cbn [pv_header pv_master_key pv_entries]; [done..|].
  eapply open_entries_named; [exact Ee|]. intros k p Hk. by rewrite lookup_empty in Hk.
Qed.

End Roundtrips.

(** A persisted vault: with an index that fits the two-byte length field, at
    most 65535 bytes with its tag, the file unlocks under its master key to
    the same entries; with a longer one it never does, the entries are lost. *)
Theorem vault_persist_unlock `{SK : Sdk, VO : VaultOps, HO : !HashOk, VK : !VaultOk} (path : string) (draw : nat -> result string bytes)
    (v : OpenVault) (b : bytes) (file : option (result string bytes)) :
  draws24 draw -> vault_wf v -> persist_vault draw (Ok tt) v file = (Ok tt, Some (Ok b)) -> Z.of_nat (length b) <= MAX_VAULT_LEN ->
  (8 + 76 * Z.of_nat (size (pv_entries v)) + Z.of_nat TAG_SIZE < 65536 ->
   exists v', unlock_vault_with_key path (pv_master_key v) (Some (Ok b)) = Some (Ok v') /\ pv_entries v' = pv_entries v /\ vault_wf v') /\
  (65536 <= 8 + 76 * Z.of_nat (size (pv_entries v)) + Z.of_nat TAG_SIZE ->
   forall master v', unlock_vault_with_key path master (Some (Ok b)) = Some (Ok v') -> pv_entries v' <> pv_entries v).
Proof.
  intros Hd Hv P Hs. unfold persist_vault in P. destruct (vault_bytes draw v) as [b'|] eqn:E; [|done]. cbn in P. injection P as ->. split.
  - intros Hf. destruct (persisted_unlocks path draw v b Hd Hv E Hs Hf) as (h & ms & R & _ & _ & D). unfold unlock_vault_with_key. rewrite R, D.
    eexists. split; [done|]. split; [done|]. by apply (unlocked_wf path (Some (Ok b)) h b (pv_master_key v)).
  - intros Hf master v' U Ee. unfold unlock_vault_with_key in U. destruct (read_vault_file path (Some (Ok b))) as [[h data]|] eqn:R; [|done].
    destruct (read_back_fields _ _ _ _ R) as (_ & _ & [= <-] & W). apply unlocked_size in U. rewrite Ee in U.
    destruct (vault_bytes_parts _ _ _ Hd Hv E) as (ed & hn & hct & _ & _ & [Hh ->] & Hl & _).
    rewrite <- (header_wire_length _ Hh), take_app_length, header_roundtrip in W by done. destruct (_ <? _); [done|]. injection W as <-.
    cbn [read_back vh_header_ct_len] in U. rewrite Hl in U.
    pose proof (Z.mod_pos_bound (Z.of_nat (8 + 76 * size (pv_entries v) + TAG_SIZE)) (2 ^ 16) ltac:(lia)). lia.
Qed.

(** Changing the passphrase: the file then unlocks with the new passphrase, to
    the entries the old one gave. *)
Theorem passphrase_change_keeps_entries `{SK : Sdk, VO : VaultOps, HO : !HashOk, VK : !VaultOk} (path old new : string) (tier : MemoryTier)
    (salt : bytes) (draw : nat -> result string bytes) (file : option (result string bytes)) (b : bytes) :
  draws24 draw -> length salt = KDF_SALT_LEN ->
  change_vault_passphrase path old new tier (Ok salt) draw (Ok tt) file = Some (Ok tt, Some (Ok b)) -> Z.of_nat (length b) <= MAX_VAULT_LEN ->
  exists v, unlock_vault path old file = Some (Ok v) /\
    (8 + 76 * Z.of_nat (size (pv_entries v)) + Z.of_nat TAG_SIZE < 65536 ->
     exists v', unlock_vault path new (Some (Ok b)) = Some (Ok v') /\ pv_entries v' = pv_entries v).
Proof.
  intros Hd Hsalt C Hs. unfold change_vault_passphrase in C. destruct (unlock_vault path old file) as [[v|]|] eqn:U; [|done..].
  exists v. split; [done|]. intros Hf. cbn [salt_draw map_err mbind result_mbind] in C.
  destruct (argon2id_derive (chars new) salt tier) as [m|] eqn:Ea; [|done]. cbn [mbind result_mbind] in C. injection C as C.
  unfold persist_vault in C. destruct (vault_bytes draw (rekeyed v m salt tier)) as [b'|] eqn:E; [|done]. injection C as ->.
  assert (vault_wf (rekeyed v m salt tier)) as Hw.
  { unfold unlock_vault in U. destruct (read_vault_file path file) as [[h data]|] eqn:R; [|done].
    destruct (argon2id_derive (chars old) _ _) as [mo|]; [|done]. destruct (unlocked_wf _ _ _ _ _ _ R U) as [[W1 _ _ W4] _].
    split; cbn; [done|done| |done]. unfold argon2id_derive in Ea. apply result_bind_Ok in Ea as (key & _ & Ea).
    destruct (Nat.eqb_spec (length key) 32); cbn [negb] in Ea; [|done]. by injection Ea as <-. }
  destruct (persisted_unlocks path draw _ b Hd Hw E Hs Hf) as (h & ms & R & S & T & D). cbn [rekeyed pv_header vh_kdf_salt vh_kdf_tier] in S, T.
  unfold unlock_vault. rewrite R, S, T, Ea. cbn [rekeyed pv_master_key] in D. rewrite D. eexists. split; [done|]. done.
Qed.

(** A new vault is the persisted empty vault, and unlocks to it. *)
(** A new vault, read back. *)
Lemma init_fresh `{SK : Sdk, VO : VaultOps, HO : !HashOk, VK : !VaultOk} (path pass : string) (tier : MemoryTier) (salt b : bytes)
    (draw : nat -> result string bytes) :
  draws24 draw -> length salt = KDF_SALT_LEN ->
  init_vault path pass tier (Ok tt) (Ok salt) draw (Ok tt) None = (Ok tt, Some (Ok b)) -> Z.of_nat (length b) <= MAX_VAULT_LEN ->
  8 + Z.of_nat TAG_SIZE < 65536 ->
  exists m h ms, argon2id_derive (chars pass) salt tier = Ok m /\ length m = 32%nat /\ read_vault_file path (Some (Ok b)) = Ok (h, b) /\
    vh_kdf_salt h = salt /\ vh_kdf_tier h = tier /\ decrypt_vault h b m = Some (Ok (MkOpenVault h ∅ ms m)).
Proof.
  intros Hd Hsalt C Hs Ht. unfold init_vault in C. destruct (init_bytes (Ok salt) draw pass tier) as [b'|] eqn:E; [|done]. injection C as ->.
  unfold init_bytes in E. cbn [salt_draw map_err mbind result_mbind] in E. apply result_bind_Ok in E as (m & Ea & E).
  set (v := MkOpenVault (MkVaultHeader CIPHER_CHACHA20_BLAKE3 tier salt [] 0) ∅ [] m).
  assert (vault_bytes draw v = Ok b) as E'.
  { unfold vault_bytes. cbn [v pv_entries pv_master_key pv_header]. replace (in_order ∅) with ([] : list (string * EntryPayload))
      by (symmetry; apply nil_length_inv; rewrite in_order_length; apply map_size_empty). exact E. }
  assert (length m = 32%nat) as Hm.
  { unfold argon2id_derive in Ea. apply result_bind_Ok in Ea as (key & _ & Ea). destruct (Nat.eqb_spec (length key) 32); cbn [negb] in Ea; [|done]. by injection Ea as <-. }
  destruct (persisted_unlocks path draw v b Hd) as (h & ms & R & S & T & D); [split; cbn; [done|done|done|intros k p Hk; by rewrite lookup_empty in Hk]|done|done| |].
  { unfold fits. cbn [v pv_entries]. rewrite map_size_empty. lia. }
  by exists m, h, ms.
Qed.

Lemma init_unlocks `{SK : Sdk, VO : VaultOps, HO : !HashOk, VK : !VaultOk} (path pass : string) (tier : MemoryTier) (salt b : bytes)
    (draw : nat -> result string bytes) :
  draws24 draw -> length salt = KDF_SALT_LEN ->
  init_vault path pass tier (Ok tt) (Ok salt) draw (Ok tt) None = (Ok tt, Some (Ok b)) -> Z.of_nat (length b) <= MAX_VAULT_LEN ->
  8 + Z.of_nat TAG_SIZE < 65536 -> exists v, unlock_vault path pass (Some (Ok b)) = Some (Ok v) /\ pv_entries v = ∅.
Proof.
  intros Hd Hsalt C Hs Ht. destruct (init_fresh path pass tier salt b draw Hd Hsalt C Hs Ht) as (m & h & ms & Ea & _ & R & S & T & D).
  unfold unlock_vault. rewrite R, S, T, Ea, D. by eexists.
Qed.

(** ** A concrete vault *)

Fixpoint json_tree (j : json) : gen_tree (bool + Z + string) :=
  match j with
  | JNull => GenNode 0 []
  | JBool b => GenNode 1 [GenLeaf (inl (inl b))]
  | JNum n => GenNode 2 [GenLeaf (inl (inr n))]
  | JStr s => GenNode 3 [GenLeaf (inr s)]
  | JArr l => GenNode 4 (map json_tree l)
  | JObj fs => GenNode 5 (map (fun kv => GenNode 0 [GenLeaf (inr (fst kv)); json_tree (snd kv)]) fs)
  end.
Fixpoint tree_json (t : gen_tree (bool + Z + string)) : json :=
  match t with
  | GenNode 1 [GenLeaf (inl (inl b))] => JBool b
  | GenNode 2 [GenLeaf (inl (inr n))] => JNum n
  | GenNode 3 [GenLeaf (inr s)] => JStr s
  | GenNode 4 l => JArr (map tree_json l)
  | GenNode 5 fs => JObj (map (fun t => match t with GenNode _ [GenLeaf (inr k); v] => (k, tree_json v) | _ => ("", JNull) end) fs)
  | _ => JNull
  end.
Lemma tree_json_tree (j : json) : tree_json (json_tree j) = j.
Proof.
  induction j as [| | | |l IH|l IH] using json_nested_ind; [done..| |]; cbn; f_equal; rewrite map_map.
  - induction IH as [|x l Hx _ IH]; [done|]. cbn. by rewrite Hx, IH.
  - induction IH as [|[k v] l Hx _ IH]; [done|]. cbn in *. by rewrite Hx, IH.
Qed.
#[global] Instance json_eq_dec : EqDecision json.
Proof. refine (fun j k => cast_if (decide (json_tree j = json_tree k))); [by rewrite <- (tree_json_tree j), e, tree_json_tree|by intros ->]. Defined.
#[global] Instance json_countable : Countable json := inj_countable' json_tree tree_json tree_json_tree.
#[global] Instance EntryPayload_eq_dec : EqDecision EntryPayload.
Proof. solve_decision. Defined.
#[global] Instance EntryPayload_countable : Countable EntryPayload.
Proof.
  refine (inj_countable'
    (fun p => (ep_name p, ep_entry_type p, ep_secret p, ep_url p, ep_notes p, ep_created_at p, ep_updated_at p, (ep_totp p, ep_hotp p, ep_ocra p)))
    (fun '(a, b, c, d, e, f, g, (h, i, j)) => MkPayload a b c d e f g h i j) _). by intros [].
Defined.

Module ToyVault.
#[local] Existing Instance Toy.sdk.

(** The codec of a countable type. *)
Definition to_vec (p : EntryPayload) : result string bytes := if payload_ok p then Ok (ToyLedger.pos_bytes (encode p)) else Err "not a value".
Definition from_slice (b : bytes) : result string EntryPayload :=
  match decode (ToyLedger.bytes_pos b) with Some p => if payload_ok p then Ok p else Err "not a value" | None => Err "not JSON" end.
Definition pad : bytes := replicate 32 (byte_of 0).
Definition ops : VaultOps := {|
  argon2id_tier _ p _ := Ok (take 32 (p ++ pad)); hkdf32 _ _ _ := pad;
  cb_encrypt _ _ p _ := Ok (p ++ pad);
  cb_decrypt _ _ c _ := if (length c <? 32)%nat then Err "short" else Ok (take (length c - 32) c);
  TAG_SIZE := 32; payload_to_vec := to_vec; payload_from_slice := from_slice |}.

#[global] Instance ops_ok : @VaultOk ops.
Proof.
  split.
  - intros k n p a c E. assert (c = p ++ pad) as -> by (cbn [cb_encrypt ops] in E; congruence). cbn [cb_decrypt ops].
    assert (length pad = 32%nat) as Hp by done. rewrite length_app, Hp. destruct (Nat.ltb_spec (length p + 32) 32); [lia|].
    rewrite Nat.add_sub. f_equal. apply take_app_length.
  - intros k n p a c E. assert (c = p ++ pad) as -> by (cbn [cb_encrypt ops] in E; congruence). by rewrite length_app.
  - intros k n p a c E. cbn [cb_decrypt ops] in E. destruct (Nat.ltb_spec (length c) 32) as [|H]; [done|].
    assert (p = take (length c - 32) c) as -> by congruence. change (@TAG_SIZE ops) with 32%nat. rewrite length_take. lia.
  - intros p b Hp E. cbn in E |- *. unfold to_vec in E. rewrite Hp in E. assert (b = ToyLedger.pos_bytes (encode p)) as -> by congruence.
    unfold from_slice. by rewrite ToyLedger.bytes_pos_bytes, decode_encode, Hp.
  - intros b p E. cbn in E. unfold from_slice in E. destruct (decode _) as [q|]; [|done]. by destruct (payload_ok q) eqn:Hq; [injection E as <-|].
Qed.

Definition draw (i : nat) : result string bytes := Ok (replicate 24 (byte_of (Z.of_nat i))).
Lemma draw24 : draws24 draw.
Proof. intros i n [= <-]. done. Qed.

Definition key : bytes := replicate 32 (byte_of 5).
Definition vault (es : gmap string EntryPayload) : OpenVault :=
  MkOpenVault (MkVaultHeader 0 Nano (replicate 16 (byte_of 1)) [] 0) es [] key.
Definition two : gmap string EntryPayload :=
  <["mail" := password "mail" "hunter2"]> (<["bank" := password "bank" "s3cret"]> ∅).
Definition written (r : result string unit * option (result string bytes)) : bytes :=
  match r with (Ok _, Some (Ok b)) => b | _ => [] end.

(** The new vault of a passphrase, then changed to another one. *)
Definition fresh : bytes :=
  written (@init_vault ops "v" "old" Nano (Ok tt) (Ok (replicate 16 (byte_of 1))) draw (Ok tt) None).
Definition changed : option (result string unit * option (result string bytes)) :=
  @change_vault_passphrase Toy.sdk ops "v" "old" "new" Standard (Ok (replicate 16 (byte_of 2))) draw (Ok tt) (Some (Ok fresh)).
End ToyVault.

Lemma vault_persist_unlock_witness :
  exists b v', @persist_vault Toy.sdk ToyVault.ops ToyVault.draw (Ok tt) (ToyVault.vault ToyVault.two) None = (Ok tt, Some (Ok b)) /\
    @unlock_vault_with_key Toy.sdk ToyVault.ops "v" ToyVault.key (Some (Ok b)) = Some (Ok v') /\ pv_entries v' = ToyVault.two.
Proof.
  destruct (@vault_persist_unlock Toy.sdk ToyVault.ops _ ToyVault.ops_ok "v" ToyVault.draw (ToyVault.vault ToyVault.two)
    (ToyVault.written (@persist_vault Toy.sdk ToyVault.ops ToyVault.draw (Ok tt) (ToyVault.vault ToyVault.two) None)) None) as [H _].
  - apply ToyVault.draw24.
  - split; [done|done|done|]. intros k p Hk. cbn in Hk. unfold ToyVault.two in Hk.
    apply lookup_insert_Some in Hk as [[<- <-]|[_ Hk]]; [done|]. apply lookup_insert_Some in Hk as [[<- <-]|[_ Hk]]; [done|]. done.
  - by vm_compute.
  - by vm_compute.
  - destruct H as (v' & U & E & _); [by vm_compute|]. eexists _, v'. split; [|split; [exact U|exact E]]. by vm_compute.
Defined.

Lemma passphrase_change_keeps_entries_witness :
  exists b v', ToyVault.changed = Some (Ok tt, Some (Ok b)) /\ @unlock_vault Toy.sdk ToyVault.ops "v" "new" (Some (Ok b)) = Some (Ok v').
Proof.
  destruct (@passphrase_change_keeps_entries Toy.sdk ToyVault.ops _ ToyVault.ops_ok "v" "old" "new" Standard (replicate 16 (byte_of 2))
    ToyVault.draw (Some (Ok ToyVault.fresh)) (match ToyVault.changed with Some r => ToyVault.written r | None => [] end)) as (v & U & H).
  - apply ToyVault.draw24.
  - done.
  - by vm_compute.
  - by vm_compute.
  - assert (pv_entries v = ∅) as E0 by (vm_compute in U; injection U as <-; by vm_compute).
    destruct H as (v' & U' & _); [rewrite E0; by vm_compute|]. eexists _, v'. split; [|exact U']. by vm_compute.
Defined.
