(* ===== verification/PassSession.v ===== *)
(** * Session tokens of the password manager (origin-pass/src/session.rs)

    A token file is what reading its path gives, as for the vault; the store
    directory is a map from file names to what they are.  Clock readings,
    random draws and the outcome of a write are arguments. *)

From Stdlib Require Import Ascii String.
From stdpp Require Import sorting countable.
From S2P Require Import Prelude RustStr Bytes RustText Sdk StateErr PassOcra PassVault.

Definition SESSION_TOKEN_VERSION : Z := 1.
Definition SESSION_TOKEN_AAD : bytes := chars "origin-pass session token v1".
Definition TOKEN_KEY_LEN : nat := 32.
Definition TOKEN_ID_LEN : nat := 16.
Definition NONCE_LEN : nat := 24.
Definition DEFAULT_SESSION_TTL_SECS : Z := 8 * 60 * 60.
Definition DEFAULT_AUTO_ROTATE_THRESHOLD_SECS : Z := 15 * 60.

Record AutoRotateConfig := MkAutoRotate { ar_threshold : Z; ar_ttl : Z }.

Record SessionToken := MkToken {
  st_version : Z;
  st_token_id : string;
  st_created_at : Z;
  st_expires_at : Z;
  st_nonce : string;
  st_token_key : string;
  st_sealed_master_key : string;
  st_vault : option string;
  st_auto_rotate : option AutoRotateConfig
}.

(** [serde_json] on a token. *)
Class TokenSerde := {
  token_to_vec_pretty : SessionToken -> result string bytes;
  token_from_slice : bytes -> result string SessionToken
}.

(** What reading a path gives. *)
Abbreviation file := (option (result string bytes)).

(** A name in the store directory: a file and its content, or something else. *)
Inductive node := File (content : result string bytes) | OtherNode.
Abbreviation dir := (gmap string node).

(** The three draws of a new token. *)
Record TokenRand := MkTokenRand { tr_id : result string bytes; tr_key : result string bytes; tr_nonce : result string bytes }.

Section Tokens.
Context `{SK : Sdk, VO : VaultOps, TS : TokenSerde}.

(** ** Writing and reading one token *)

Definition seal_token (master : bytes) (ttl_secs : Z) (vault : option string) (auto_rotate : option AutoRotateConfig)
    (now : Z) (rand : TokenRand) : result string SessionToken :=
  if ttl_secs =? 0 then Err "token ttl must be ≥ 1 second"
  else
    token_id ← map_err (fun e => "token id generation failed: " +:+ e) (tr_id rand);
    token_key ← map_err (fun e => "token key generation failed: " +:+ e) (tr_key rand);
    nonce ← map_err (fun e => "nonce generation failed: " +:+ e) (tr_nonce rand);
    sealed ← map_err (fun e => "session token seal failed: " +:+ e) (cb_encrypt token_key nonce master SESSION_TOKEN_AAD);
    Ok (MkToken SESSION_TOKEN_VERSION (hex_encode token_id) now (wrap_i64 (now + wrap_i64 ttl_secs))
          (hex_encode nonce) (hex_encode token_key) (hex_encode sealed) vault auto_rotate).

(** Serialise and write: on an error the file is as before. *)
Definition store_token (token : SessionToken) (write : result string unit) (f : file) : result string SessionToken * file :=
  match map_err (fun e => "session token serialize failed: " +:+ e) (token_to_vec_pretty token) with
  | Err e => (Err e, f)
  | Ok json => match write with Err e => (Err e, f) | Ok _ => (Ok token, Some (Ok json)) end
  end.

Definition write_session_token (master : bytes) (ttl_secs : Z) (vault : option string) (auto_rotate : option AutoRotateConfig)
    (now : Z) (rand : TokenRand) (write : result string unit) (f : file) : result string SessionToken * file :=
  match seal_token master ttl_secs vault auto_rotate now rand with
  | Err e => (Err e, f)
  | Ok token => store_token token write f
  end.

Definition expired_message (expires_at now : Z) : string :=
  "session token expired at " +:+ show_i64 expires_at +:+ " (now " +:+ show_i64 now
  +:+ ") — run `origin-pass unlock --session-token <path>` again".

Definition parse_token_file (path : string) (now : Z) (f : file) : result string SessionToken :=
  raw ← match f with
        | None => Err ("cannot read session token " +:+ path +:+ ": not found")
        | Some r => map_err (fun e => "cannot read session token " +:+ path +:+ ": " +:+ e) r
        end;
  token ← map_err (fun e => "session token " +:+ path +:+ " is not valid JSON: " +:+ e) (token_from_slice raw);
  if negb (st_version token =? SESSION_TOKEN_VERSION)
  then Err ("session token version mismatch: got " +:+ show_Z (st_version token) +:+ ", expected " +:+ show_Z SESSION_TOKEN_VERSION)
  else if st_expires_at token <=? now then Err (expired_message (st_expires_at token) now)
  else Ok token.

(** [hex::decode_to_slice] into an array of [n] bytes. *)
Definition decode_to_slice (n : nat) (s : string) : result string bytes :=
  b ← hex_decode s; if (length b =? n)%nat then Ok b else Err "Invalid string length".

Definition unseal_master_key (token : SessionToken) : result string bytes :=
  nonce ← map_err (fun _ => "session token nonce is corrupt") (decode_to_slice NONCE_LEN (st_nonce token));
  token_key ← map_err (fun _ => "session token key is corrupt") (decode_to_slice TOKEN_KEY_LEN (st_token_key token));
  sealed ← map_err (fun _ => "session token sealed key is corrupt") (hex_decode (st_sealed_master_key token));
  plain ← map_err (fun _ => "session token unseal failed — file tampered or truncated; re-run `origin-pass unlock`")
            (cb_decrypt token_key nonce sealed SESSION_TOKEN_AAD);
  if negb (length plain =? 32)%nat
  then Err ("session token sealed key is " +:+ show_Z (Z.of_nat (length plain)) +:+ " bytes; expected 32")
  else Ok plain.

Definition read_session_token (path : string) (now : Z) (f : file) : result string bytes :=
  token ← parse_token_file path now f; unseal_master_key token.

(** The lifetime a token keeps when none is given: at least a second. *)
Definition lifetime (token : SessionToken) : Z := Z.max 1 (wrap_i64 (st_expires_at token - st_created_at token)).

(** [now]: the reading of the expiry check; [now']: that of the new token. *)
Definition rotate_session_token (path : string) (ttl_secs : option Z) (now now' : Z) (rand : TokenRand) (write : result string unit) (f : file)
  : result string SessionToken * file :=
  match (token ← parse_token_file path now f; master ← unseal_master_key token; Ok (token, master)) with
  | Err e => (Err e, f)
  | Ok (token, master) =>
      write_session_token master (default (lifetime token) ttl_secs) (st_vault token) (st_auto_rotate token) now' rand write f
  end.

Definition with_expiry (token : SessionToken) (expires_at : Z) : SessionToken :=
  MkToken (st_version token) (st_token_id token) (st_created_at token) expires_at (st_nonce token) (st_token_key token)
    (st_sealed_master_key token) (st_vault token) (st_auto_rotate token).

Definition renew_session_token (path : string) (ttl_secs : option Z) (now now' : Z) (write : result string unit) (f : file)
  : result string SessionToken * file :=
  match parse_token_file path now f with
  | Err e => (Err e, f)
  | Ok token => store_token (with_expiry token (wrap_i64 (now' + wrap_i64 (default (lifetime token) ttl_secs)))) write f
  end.

(** The clock readings of one [maybe_auto_rotate]: the two expiry checks, the
    remaining lifetime, the new token. *)
Record RotateClock := MkRotateClock { rc_parse : Z; rc_remaining : Z; rc_reparse : Z; rc_write : Z }.

Definition maybe_auto_rotate (path : string) (clock : RotateClock) (rand : TokenRand) (write : result string unit) (f : file)
  : result string bool * file :=
  match parse_token_file path (rc_parse clock) f with
  | Err _ => (Ok false, f)
  | Ok token =>
      match st_auto_rotate token with
      | None => (Ok false, f)
      | Some cfg =>
          let remaining := wrap_i64 (st_expires_at token - rc_remaining clock) in
          if wrap_i64 (ar_threshold cfg) <=? remaining then (Ok false, f)
          else match rotate_session_token path (Some (ar_ttl cfg)) (rc_reparse clock) (rc_write clock) rand write f with
               | (Ok _, f') => (Ok true, f')
               | (Err e, f') => (Err e, f')
               end
      end
  end.

Definition revoke_session_token (path : string) (remove : result string unit) (f : file) : result string unit * file :=
  match f with
  | None => (Err ("session token not found: " +:+ path +:+ " (nothing to revoke)"), f)
  | Some _ => match map_err (fun e => "cannot remove session token " +:+ path +:+ ": " +:+ e) remove with
              | Ok _ => (Ok tt, None)
              | Err e => (Err e, f)
              end
  end.

(** ** The token store *)

(** [$HOME] when a path starts with [~/]; [join] on a relative path. *)
Definition path_join (base p : string) : string :=
  match chars p with
  | a :: _ => if bool_decide (a = slash) then p
              else match last (chars base) with
                   | Some z => if bool_decide (z = slash) then base +:+ p else base +:+ "/" +:+ p
                   | None => p
                   end
  | [] => match last (chars base) with
          | Some z => if bool_decide (z = slash) then base else base +:+ "/"
          | None => base
          end
  end.

Definition expand_tilde (home : option string) (raw : string) : result string string :=
  match strip_prefix (chars "~/") (chars raw) with
  | Some rest => match home with
                 | None => Err "$HOME is unset; cannot expand ~/ paths. Pass an absolute path instead."
                 | Some h => Ok (path_join h (of_chars rest))
                 end
  | None => Ok raw
  end.
Definition resolve_store_dir : option string -> string -> result string string := expand_tilde.

Definition token_store_dir (home : option string) : result string string :=
  match home with
  | None => Err "$HOME is unset; cannot resolve ~/.origin/tokens. Pass an explicit path."
  | Some h => Ok (path_join (path_join h ".origin") "tokens")
  end.

(** [Path::components()]: the root, a leading dot, and the parts that are
    neither empty nor a dot. *)
Definition path_components (p : string) : list (list ascii) :=
  let parts := split_on slash (chars p) in
  let plain_part (q : list ascii) := negb (bool_decide (q = [])) && negb (bool_decide (q = [dot])) in
  (if starts_with [slash] (chars p) then [[slash]] else [])
  ++ (if bool_decide (head parts = Some [dot]) then [[dot]] else [])
  ++ List.filter plain_part parts.

Definition resolve_token_path_in (home : option string) (dir raw : string) : result string string :=
  expanded ← expand_tilde home raw;
  let looks_like_path :=
    starts_with (chars "/") (chars raw) || starts_with (chars ".") (chars raw) || starts_with (chars "~") (chars raw)
    || (1 <? length (path_components expanded))%nat in
  if looks_like_path then Ok expanded else Ok (path_join dir (raw +:+ ".token")).
Definition resolve_token_path (home : option string) (raw : string) : result string string :=
  dir ← token_store_dir home; resolve_token_path_in home dir raw.

Record TokenInfo := MkTokenInfo {
  ti_name : string;
  ti_path : string;
  ti_token_id : string;
  ti_created_at : Z;
  ti_expires_at : Z;
  ti_vault : option string;
  ti_unreadable : bool;
  ti_auto_rotate : bool;
  ti_auto_rotate_threshold : option Z;
  ti_auto_rotate_ttl : option Z
}.

(** [name]: the file name of [path]. *)
Definition read_token_metadata (name path : string) (f : file) : result string TokenInfo :=
  raw ← match f with
        | None => Err ("cannot read session token " +:+ path +:+ ": not found")
        | Some r => map_err (fun e => "cannot read session token " +:+ path +:+ ": " +:+ e) r
        end;
  match token_from_slice raw with
  | Err _ => Ok (MkTokenInfo name path "" 0 0 None true false None None)
  | Ok token =>
      Ok (MkTokenInfo name path (st_token_id token) (st_created_at token) (st_expires_at token) (st_vault token) false
            (bool_decide (is_Some (st_auto_rotate token))) (ar_threshold <$> st_auto_rotate token) (ar_ttl <$> st_auto_rotate token))
  end.

Definition is_token_name (name : string) : bool := bool_decide (extension name = Some (chars "token")).

(** The token files of the directory, by name. *)
Definition token_files (d : dir) : list (string * result string bytes) :=
  omap (fun kv => match snd kv with File c => if is_token_name (fst kv) then Some (fst kv, c) else None | OtherNode => None end)
    (merge_sort name_le (map_to_list d)).

(** [None]: the directory does not exist; an error: it cannot be read. *)
Definition list_tokens (path : string) (d : option (result string dir)) : result string (list TokenInfo) :=
  match d with
  | None => Ok []
  | Some r =>
      entries ← map_err (fun e => "cannot read token store " +:+ path +:+ ": " +:+ e) r;
      Ok (omap (fun kv => match read_token_metadata (fst kv) (path_join path (fst kv)) (Some (snd kv)) with Ok i => Some i | Err _ => None end)
            (token_files entries))
  end.

(** [remove name]: what removing that file gives. *)
Definition remove_token (remove : string -> result string unit) (message : string) (name : string) : SE dir string unit :=
  fun d => match map_err (fun e => message +:+ ": " +:+ e) (remove name) with
           | Ok _ => (Ok tt, delete name d)
           | Err e => (Err e, d)
           end.

Fixpoint revoke_loop (remove : string -> result string unit) (now : Z) (expired_only : bool) (infos : list TokenInfo) (revoked : nat)
  : SE dir string nat :=
  match infos with
  | [] => mret revoked
  | info :: infos' =>
      if expired_only && negb (ti_unreadable info) && (now <? ti_expires_at info)
      then revoke_loop remove now expired_only infos' revoked
      else _ ← remove_token remove ("cannot remove " +:+ ti_path info) (ti_name info);
           revoke_loop remove now expired_only infos' (S revoked)
  end.

Definition revoke_all_tokens (remove : string -> result string unit) (path : string) (now : Z) (expired_only : bool)
    (d : option (result string dir)) : result string nat * option (result string dir) :=
  match d with
  | None => (Ok 0%nat, None)
  | Some r =>
      match list_tokens path d, r with
      | Err e, _ => (Err e, d)
      | Ok infos, Ok entries =>
          let '(res, entries') := revoke_loop remove now expired_only infos 0 entries in (res, Some (Ok entries'))
      | Ok _, Err e => (Err e, d)
      end
  end.

End Tokens.

(** ** The session a token file stands for

    What its holder may rely on: the file gives the vault's key until its
    expiry, minting, rotating and renewing move the expiry, and revoking ends
    it.  Over every sequence of operations the file behaves like this record. *)

Record Session := MkSession {
  ss_master : bytes;
  ss_created : Z;
  ss_expires : Z;
  ss_vault : option string;
  ss_policy : option AutoRotateConfig
}.

(** An operation with its clock readings, draws and write outcome.  [UseToken]
    is what a command does with a token: read it, then rotate it when due. *)
Inductive token_op :=
| MintToken (master : bytes) (ttl : Z) (vault : option string) (policy : option AutoRotateConfig) (now : Z) (rand : TokenRand) (write : result string unit)
| UseToken (now : Z) (clock : RotateClock) (rand : TokenRand) (write : result string unit)
| RotateToken (ttl : option Z) (now now' : Z) (rand : TokenRand) (write : result string unit)
| RenewToken (ttl : option Z) (now now' : Z) (write : result string unit)
| RevokeToken (remove : result string unit).

Definition answer {A B S : Type} (g : A -> B) (r : result string A * S) : result string B * S :=
  (match fst r with Ok a => Ok (g a) | Err e => Err e end, snd r).

Section Lifecycle.
Context `{SK : Sdk, VO : VaultOps, TS : TokenSerde} (path : string).

Definition token_step (op : token_op) : SE file string (option bytes) := fun f =>
  match op with
  | MintToken master ttl vault policy now rand write => answer (fun _ => None) (write_session_token master ttl vault policy now rand write f)
  | UseToken now clock rand write =>
      match read_session_token path now f with
      | Err e => (Err e, f)
      | Ok master => answer (fun _ => Some master) (maybe_auto_rotate path clock rand write f)
      end
  | RotateToken ttl now now' rand write => answer (fun _ => None) (rotate_session_token path ttl now now' rand write f)
  | RenewToken ttl now now' write => answer (fun _ => None) (renew_session_token path ttl now now' write f)
  | RevokeToken remove => answer (fun _ => None) (revoke_session_token path remove f)
  end.

(** The specification. *)
Definition live (now : Z) (o : option Session) : result string Session :=
  match o with
  | None => Err ("cannot read session token " +:+ path +:+ ": not found")
  | Some s => if ss_expires s <=? now then Err (expired_message (ss_expires s) now) else Ok s
  end.
Definition grant (s : Session) (write : result string unit) (o : option Session) : result string unit * option Session :=
  match write with Ok _ => (Ok tt, Some s) | Err e => (Err e, o) end.
Definition mint (master : bytes) (ttl : Z) (vault : option string) (policy : option AutoRotateConfig) (now : Z) (write : result string unit)
    (o : option Session) : result string unit * option Session :=
  if ttl =? 0 then (Err "token ttl must be ≥ 1 second", o)
  else grant (MkSession master now (wrap_i64 (now + wrap_i64 ttl)) vault policy) write o.
Definition span (s : Session) : Z := Z.max 1 (wrap_i64 (ss_expires s - ss_created s)).
Definition rotated (ttl : option Z) (now now' : Z) (write : result string unit) (o : option Session) : result string unit * option Session :=
  match live now o with
  | Err e => (Err e, o)
  | Ok s => mint (ss_master s) (default (span s) ttl) (ss_vault s) (ss_policy s) now' write o
  end.
Definition auto_rotated (clock : RotateClock) (write : result string unit) (o : option Session) : result string unit * option Session :=
  match live (rc_parse clock) o with
  | Ok (MkSession _ _ expires _ (Some cfg)) =>
      if wrap_i64 (ar_threshold cfg) <=? wrap_i64 (expires - rc_remaining clock) then (Ok tt, o)
      else rotated (Some (ar_ttl cfg)) (rc_reparse clock) (rc_write clock) write o
  | _ => (Ok tt, o)
  end.

Definition session_step (op : token_op) : SE (option Session) string (option bytes) := fun o =>
  match op with
  | MintToken master ttl vault policy now _ write => answer (fun _ => None) (mint master ttl vault policy now write o)
  | UseToken now clock _ write =>
      match live now o with
      | Err e => (Err e, o)
      | Ok s => answer (fun _ => Some (ss_master s)) (auto_rotated clock write o)
      end
  | RotateToken ttl now now' _ write => answer (fun _ => None) (rotated ttl now now' write o)
  | RenewToken ttl now now' write =>
      match live now o with
      | Err e => (Err e, o)
      | Ok s => answer (fun _ => None)
                  (grant (MkSession (ss_master s) (ss_created s) (wrap_i64 (now' + wrap_i64 (default (span s) ttl))) (ss_vault s) (ss_policy s)) write o)
      end
  | RevokeToken remove =>
      match o with
      | None => (Err ("session token not found: " +:+ path +:+ " (nothing to revoke)"), o)
      | Some _ => match map_err (fun e => "cannot remove session token " +:+ path +:+ ": " +:+ e) remove with
                  | Ok _ => (Ok None, None)
                  | Err e => (Err e, o)
                  end
      end
  end.
End Lifecycle.

(** Serde loses nothing of a token; sealing succeeds. *)
Class TokenOk `{VO : VaultOps, TS : TokenSerde} : Prop := {
  token_total t : exists b, token_to_vec_pretty t = Ok b;
  token_roundtrip t b : token_to_vec_pretty t = Ok b -> token_from_slice b = Ok t;
  seal_total k n p : length k = TOKEN_KEY_LEN -> length n = NONCE_LEN -> exists c, cb_encrypt k n p SESSION_TOKEN_AAD = Ok c
}.

Definition rand_ok (r : TokenRand) : Prop :=
  exists i k n, r = MkTokenRand (Ok i) (Ok k) (Ok n) /\ length k = TOKEN_KEY_LEN /\ length n = NONCE_LEN.
Definition op_ok (op : token_op) : Prop :=
  match op with
  | MintToken master _ _ _ _ rand _ => length master = 32%nat /\ rand_ok rand
  | UseToken _ _ rand _ | RotateToken _ _ _ rand _ => rand_ok rand
  | _ => True
  end.

Section Refines.
Context `{SK : Sdk, VO : VaultOps, TS : TokenSerde, HX : !HexOk, VK : !VaultOk, TK : !TokenOk} (path : string).

(** A token of the session. *)
Record token_of (s : Session) (t : SessionToken) : Prop := {
  to_version : st_version t = SESSION_TOKEN_VERSION;
  to_created : st_created_at t = ss_created s;
  to_expires : st_expires_at t = ss_expires s;
  to_vault : st_vault t = ss_vault s;
  to_policy : st_auto_rotate t = ss_policy s;
  to_key : unseal_master_key t = Ok (ss_master s);
  to_len : length (ss_master s) = 32%nat
}.

Definition holds_session (o : option Session) (f : file) : Prop :=
  match o with
  | None => f = None
  | Some s => exists t b, f = Some (Ok b) /\ token_from_slice b = Ok t /\ token_of s t
  end.

Lemma seal_token_spec (master : bytes) (ttl : Z) (vault : option string) (policy : option AutoRotateConfig) (now : Z) (rand : TokenRand) :
  length master = 32%nat -> rand_ok rand ->
  if ttl =? 0 then seal_token master ttl vault policy now rand = Err "token ttl must be ≥ 1 second"
  else exists t, seal_token master ttl vault policy now rand = Ok t /\
    token_of (MkSession master now (wrap_i64 (now + wrap_i64 ttl)) vault policy) t.
Proof.
  intros Hm (i & k & n & -> & Hk & Hn). unfold seal_token. destruct (ttl =? 0); [done|]. cbn [map_err mbind result_mbind tr_id tr_key tr_nonce].
  destruct (seal_total k n master Hk Hn) as [c Ec]. rewrite Ec. cbn [map_err mbind result_mbind].
  eexists. split; [done|]. split; [done..| |done]. unfold unseal_master_key, decode_to_slice. cbn [st_nonce st_token_key st_sealed_master_key ss_master].
  rewrite !hex_roundtrip. cbn [map_err mbind result_mbind]. rewrite Hn, Hk. cbn [Nat.eqb map_err mbind result_mbind NONCE_LEN TOKEN_KEY_LEN].
  rewrite (cb_roundtrip _ _ _ _ _ Ec). cbn [map_err mbind result_mbind]. by rewrite Hm.
Qed.

(** A stored token stands for its session, or nothing has changed. *)
Lemma store_token_spec (s : Session) (t : SessionToken) (write : result string unit) (o : option Session) (f : file) :
  token_of s t -> holds_session o f ->
  let '(r, f') := store_token t write f in let '(r', o') := grant s write o in
  answer (fun _ => tt) (r, f') = (r', f') /\ holds_session o' f'.
Proof.
  intros Ht Hf. unfold store_token, grant. destruct (token_total t) as [b Eb]. rewrite Eb. cbn [map_err].
  destruct write as [[]|e]; cbn; (split; [done|]); [|done]. exists t, b. split; [done|]. split; [by apply token_roundtrip|done].
Qed.

Lemma mint_spec (master : bytes) (ttl : Z) (vault : option string) (policy : option AutoRotateConfig) (now : Z) (rand : TokenRand)
    (write : result string unit) (o : option Session) (f : file) :
  length master = 32%nat -> rand_ok rand -> holds_session o f ->
  let '(r, f') := write_session_token master ttl vault policy now rand write f in let '(r', o') := mint master ttl vault policy now write o in
  answer (fun _ => tt) (r, f') = (r', f') /\ holds_session o' f'.
Proof.
  intros Hm Hr Hf. pose proof (seal_token_spec master ttl vault policy now rand Hm Hr) as Hs. unfold write_session_token, mint.
  destruct (ttl =? 0); [by rewrite Hs|]. destruct Hs as (t & -> & Ht). by apply store_token_spec.
Qed.

Lemma parse_spec (now : Z) (o : option Session) (f : file) :
  holds_session o f ->
  match live path now o with
  | Err e => parse_token_file path now f = Err e
  | Ok s => exists t, parse_token_file path now f = Ok t /\ token_of s t
  end.
Proof.
  destruct o as [s|]; cbn [live holds_session]; [|by intros ->]. intros (t & b & -> & Et & Ht). unfold parse_token_file.
  cbn [map_err mbind result_mbind]. rewrite Et. cbn [map_err mbind result_mbind]. rewrite (to_version _ _ Ht), (to_expires _ _ Ht). cbn [Z.eqb negb].
  destruct (Z.leb_spec (ss_expires s) now); cbn; [done|]. by exists t.
Qed.

Lemma span_of (s : Session) (t : SessionToken) : token_of s t -> lifetime t = span s.
Proof. intros H. unfold lifetime, span. by rewrite (to_expires _ _ H), (to_created _ _ H). Qed.

Lemma rotate_spec (ttl : option Z) (now now' : Z) (rand : TokenRand) (write : result string unit) (o : option Session) (f : file) :
  rand_ok rand -> holds_session o f ->
  let '(r, f') := rotate_session_token path ttl now now' rand write f in let '(r', o') := rotated path ttl now now' write o in
  answer (fun _ => tt) (r, f') = (r', f') /\ holds_session o' f'.
Proof.
  intros Hr Hf. unfold rotate_session_token, rotated. pose proof (parse_spec now o f Hf) as Hp. destruct (live path now o) as [s|e]; [|by rewrite Hp].
  destruct Hp as (t & -> & Ht). cbn [mbind result_mbind]. rewrite (to_key _ _ Ht). cbn [mbind result_mbind].
  rewrite (span_of _ _ Ht), (to_vault _ _ Ht), (to_policy _ _ Ht). apply mint_spec; [apply (to_len _ _ Ht)|done|done].
Qed.

Lemma auto_rotate_spec (clock : RotateClock) (rand : TokenRand) (write : result string unit) (o : option Session) (f : file) :
  rand_ok rand -> holds_session o f ->
  let '(r, f') := maybe_auto_rotate path clock rand write f in let '(r', o') := auto_rotated path clock write o in
  answer (fun _ => tt) (r, f') = (r', f') /\ holds_session o' f'.
Proof.
  intros Hr Hf. unfold maybe_auto_rotate, auto_rotated. pose proof (parse_spec (rc_parse clock) o f Hf) as Hp.
  destruct (live path (rc_parse clock) o) as [s|e]; [|by rewrite Hp]. destruct Hp as (t & -> & Ht). rewrite (to_policy _ _ Ht), (to_expires _ _ Ht).
  destruct s as [m c x v [cfg|]]; cbn [ss_policy ss_expires]; [|done]. destruct (_ <=? _); [done|].
  pose proof (rotate_spec (Some (ar_ttl cfg)) (rc_reparse clock) (rc_write clock) rand write o f Hr Hf) as H.
  destruct (rotate_session_token _ _ _ _ _ _ _) as [[t'|e] f'], (rotated _ _ _ _ _ _) as [r' o']; exact H.
Qed.

(** One step. *)
Lemma token_step_spec (op : token_op) (o : option Session) (f : file) :
  op_ok op -> holds_session o f ->
  let '(r, f') := token_step path op f in let '(r', o') := session_step path op o in r = r' /\ holds_session o' f'.
Proof.
  assert (forall A (g : unit -> option bytes) (x : result string A * file) (y : result string unit * option Session),
    (let '(r, f') := x in let '(r', o') := y in answer (fun _ => tt) (r, f') = (r', f') /\ holds_session o' f') ->
    let '(r, f') := answer (fun _ => g tt) x in let '(r', o') := answer g y in r = r' /\ holds_session o' f') as Hans.
  { intros A g [[a|e] f'] [r' o'] [E H]; cbn in E; injection E as <-; done. }
  intros Hop Hf. destruct op as [master ttl vault policy now rand write|now clock rand write|ttl now now' rand write|ttl now now' write|remove];
    cbn [token_step session_step op_ok] in *.
  - destruct Hop. apply (Hans _ (fun _ => None)). by apply mint_spec.
  - unfold read_session_token. pose proof (parse_spec now o f Hf) as Hp. destruct (live path now o) as [s|e]; [|by rewrite Hp].
    destruct Hp as (t & -> & Ht). cbn [mbind result_mbind]. rewrite (to_key _ _ Ht). apply (Hans _ (fun _ => Some (ss_master s))). by apply auto_rotate_spec.
  - apply (Hans _ (fun _ => None)). by apply rotate_spec.
  - unfold renew_session_token. pose proof (parse_spec now o f Hf) as Hp. destruct (live path now o) as [s|e]; [|by rewrite Hp].
    destruct Hp as (t & -> & Ht). apply (Hans _ (fun _ => None)). rewrite (span_of _ _ Ht). apply store_token_spec; [|done]. by destruct Ht; split.
  - destruct o as [s|]; cbn [holds_session] in Hf; [|by subst f]. destruct Hf as (t & b & -> & Et & Ht). unfold revoke_session_token.
    destruct remove as [[]|e]; cbn; [done|]. split; [done|]. by exists t, b.
Qed.
End Refines.

(** C33: A token file is a session: over every sequence of mints, uses, rotations,
    renewals and revocations, with any clock and any write failures, the
    answers are those of the session record: a use gives the key that was
    minted, exactly before the expiry last granted, and after a revocation
    none; a failed operation leaves the session as it was. *)
Theorem token_refines_session `{SK : Sdk, VO : VaultOps, TS : TokenSerde, HX : !HexOk, VK : !VaultOk, TK : !TokenOk} (path : string) (ops : list token_op) :
  Forall op_ok ops -> fst (run_all (token_step path) ops None) = fst (run_all (session_step path) ops None).
Proof.
  intros Hops. assert (holds_session None None) as Hf by done. revert Hf. generalize (None : option Session) as o. generalize (None : file) as f.
  induction Hops as [|op ops Hop _ IH]; intros f o Hf; [done|]. cbn [run_all]. pose proof (token_step_spec path op o f Hop Hf) as H.
  destruct (token_step path op f) as [r f'], (session_step path op o) as [r' o']. destruct H as [-> Hf']. specialize (IH f' o' Hf').
  destruct (run_all (token_step path) ops f') as [rs f''], (run_all (session_step path) ops o') as [rs' o'']. cbn in *. by rewrite IH.
Qed.

(** ** Revoking the tokens of a directory *)

(** What [revoke-all] removes: the readable token files, with [expired_only]
    only those that have expired or are not tokens. *)
Definition doomed `{TS : TokenSerde} (now : Z) (expired_only : bool) (kv : string * node) : bool :=
  match snd kv with
  | File (Ok raw) =>
      is_token_name (fst kv) &&
      match token_from_slice raw with
      | Ok t => negb expired_only || (st_expires_at t <=? now)
      | Err _ => true
      end
  | _ => false
  end.

Section RevokeAll.
Context `{TS : TokenSerde}.

Lemma revoke_loop_spec (now : Z) (expired_only : bool) (infos : list TokenInfo) (n : nat) (d : dir) :
  revoke_loop (fun _ => Ok tt) now expired_only infos n d =
    let gone := map ti_name (List.filter (fun i => negb (expired_only && negb (ti_unreadable i) && (now <? ti_expires_at i))) infos) in
    (Ok (n + length gone)%nat, foldl (fun d k => delete k d) d gone).
Proof.
  revert n d. induction infos as [|i infos IH]; intros n d; cbn [revoke_loop List.filter]; [cbn; by rewrite Nat.add_0_r|].
  destruct (expired_only && negb (ti_unreadable i) && (now <? ti_expires_at i)); cbn [negb]; [apply IH|].
  unfold mbind, SE_mbind, remove_token. cbn [map_err]. rewrite IH. cbn. by rewrite Nat.add_succ_r.
Qed.

Lemma deleted_lookup (ks : list string) (d : dir) (k : string) :
  foldl (fun d k => delete k d) d ks !! k = if decide (k ∈ ks) then None else d !! k.
Proof.
  revert d. induction ks as [|k' ks IH]; intros d; cbn [foldl]; [by destruct (decide _) as [H%not_elem_of_nil|]|].
  rewrite IH. destruct (decide (k = k')) as [->|Hne].
  - rewrite lookup_delete_eq. by destruct (decide (k' ∈ k' :: ks)) as [_|H]; [destruct (decide _)|destruct H; left].
  - rewrite lookup_delete_ne by done. destruct (decide (k ∈ ks)) as [H|H], (decide (k ∈ k' :: ks)) as [H'|H']; try done.
    + destruct H'. by right.
    + apply elem_of_cons in H' as [->|H']; done.
Qed.

(** The names that the loop removes. *)
Lemma revoked_names (path : string) (now : Z) (expired_only : bool) (d : dir) (infos : list TokenInfo) (k : string) :
  list_tokens path (Some (Ok d)) = Ok infos ->
  k ∈ map ti_name (List.filter (fun i => negb (expired_only && negb (ti_unreadable i) && (now <? ti_expires_at i))) infos) <->
  exists nd, d !! k = Some nd /\ doomed now expired_only (k, nd) = true.
Proof.
  intros E. cbn [list_tokens map_err mbind result_mbind] in E. injection E as <-. rewrite list_elem_of_In, in_map_iff. split.
  - intros (i & <- & Hi). apply List.filter_In in Hi as [Hi Hk]. apply list_elem_of_In, list_elem_of_omap in Hi as ([n c] & Hn & Hi). cbn [fst snd] in Hi.
    unfold token_files in Hn. apply list_elem_of_omap in Hn as ([n' nd] & Hd & Hn). cbn [fst snd] in Hn. destruct nd as [c'|]; [|done].
    destruct (is_token_name n') eqn:Et; [|done]. injection Hn as -> ->. rewrite merge_sort_Permutation in Hd. apply elem_of_map_to_list in Hd.
    unfold read_token_metadata in Hi. destruct c as [raw|]; [|done]. cbn [map_err mbind result_mbind] in Hi.
    exists (File (Ok raw)). destruct (token_from_slice raw) as [t|e] eqn:Es; injection Hi as <-; cbn [ti_name ti_unreadable ti_expires_at negb] in *;
      (split; [done|]); cbn [doomed fst snd]; rewrite Et, Es; [|done]. destruct expired_only; [|done]. cbn in Hk |- *.
    destruct (Z.ltb_spec now (st_expires_at t)); [done|]. apply Z.leb_le. lia.
  - intros (nd & Hd & Hk). destruct nd as [[raw|]|]; cbn [doomed fst snd] in Hk; [|done..]. apply andb_prop in Hk as [Ht Hk].
    destruct (read_token_metadata k (path_join path k) (Some (Ok raw))) as [i|] eqn:Ei.
    + exists i. unfold read_token_metadata in Ei. cbn [map_err mbind result_mbind] in Ei. split; [destruct (token_from_slice raw); by injection Ei as <-|].
      apply List.filter_In. split.
      * apply list_elem_of_In, list_elem_of_omap. exists (k, Ok raw). split; [|cbn [fst snd]; unfold read_token_metadata; cbn [map_err mbind result_mbind]; by rewrite Ei].
        apply list_elem_of_omap. exists (k, File (Ok raw)). cbn [fst snd]. rewrite Ht, merge_sort_Permutation. split; [by apply elem_of_map_to_list|done].
      * destruct (token_from_slice raw) as [t|e]; injection Ei as <-; cbn; [|by rewrite andb_false_r]. destruct expired_only; [|done]. cbn in Hk |- *.
        apply Z.leb_le in Hk. destruct (Z.ltb_spec now (st_expires_at t)); [lia|done].
    + unfold read_token_metadata in Ei. cbn [map_err mbind result_mbind] in Ei. by destruct (token_from_slice raw).
Qed.

(** [revoke-all] removes exactly the doomed files and leaves all others. *)
Lemma revoke_all_spec (path : string) (now : Z) (expired_only : bool) (d : dir) :
  exists n d', revoke_all_tokens (fun _ => Ok tt) path now expired_only (Some (Ok d)) = (Ok n, Some (Ok d')) /\
    forall k, d' !! k = (nd ← d !! k; if doomed now expired_only (k, nd) then None else Some nd).
Proof.
  unfold revoke_all_tokens. destruct (list_tokens path (Some (Ok d))) as [infos|] eqn:E; [|done]. rewrite revoke_loop_spec. cbn zeta. eexists _, _. split; [done|].
  intros k. rewrite deleted_lookup. destruct (decide _) as [H|H].
  - apply (revoked_names path now expired_only d infos k E) in H as (nd & -> & Hd). cbn. by rewrite Hd.
  - destruct (d !! k) as [nd|] eqn:Ek; [|done]. cbn. destruct (doomed now expired_only (k, nd)) eqn:Hd; [|done]. exfalso. apply H.
    apply (revoked_names path now expired_only d infos k E). by exists nd.
Qed.
End RevokeAll.

(** ** A concrete token file *)

#[global] Instance AutoRotateConfig_eq_dec : EqDecision AutoRotateConfig.
Proof. solve_decision. Defined.
#[global] Instance AutoRotateConfig_countable : Countable AutoRotateConfig.
Proof. by refine (inj_countable' (fun c => (ar_threshold c, ar_ttl c)) (fun p => MkAutoRotate p.1 p.2) _); intros []. Defined.
#[global] Instance SessionToken_eq_dec : EqDecision SessionToken.
Proof. solve_decision. Defined.
#[global] Instance SessionToken_countable : Countable SessionToken.
Proof.
  refine (inj_countable'
    (fun t => (st_version t, st_token_id t, st_created_at t, st_expires_at t, st_nonce t, st_token_key t, st_sealed_master_key t, (st_vault t, st_auto_rotate t)))
    (fun '(a, b, c, d, e, f, g, (h, i)) => MkToken a b c d e f g h i) _). by intros [].
Defined.

Module ToyToken.
Definition serde : TokenSerde := {|
  token_to_vec_pretty t := Ok (ToyLedger.pos_bytes (encode t));
  token_from_slice b := match decode (ToyLedger.bytes_pos b) with Some t => Ok t | None => Err "bad" end |}.

#[global] Instance serde_ok : @TokenOk ToyVault.ops serde.
Proof.
  split; [by intros t; eexists|intros t b E|by intros k n p _ _; eexists].
  assert (b = ToyLedger.pos_bytes (encode t)) as -> by (cbn in E; congruence). cbn [token_from_slice serde]. by rewrite ToyLedger.bytes_pos_bytes, decode_encode.
Qed.

Definition rand (i : Z) : TokenRand := MkTokenRand (Ok [byte_of i]) (Ok (replicate 32 (byte_of i))) (Ok (replicate 24 (byte_of i))).
Lemma rand_fine (i : Z) : rand_ok (rand i).
Proof. by eexists _, _, _. Qed.
Definition clock (t : Z) : RotateClock := MkRotateClock t t t t.

(** A session of 100 seconds that rotates below 20, renewed, then expired. *)
Definition ops : list token_op :=
  [ MintToken ToyVault.key 100 (Some "v") (Some (MkAutoRotate 20 50)) 0 (rand 1) (Ok tt);
    UseToken 10 (clock 10) (rand 2) (Ok tt);
    UseToken 90 (clock 90) (rand 3) (Ok tt);
    UseToken 110 (clock 110) (rand 4) (Ok tt);
    RenewToken (Some 1000) 130 130 (Ok tt);
    RotateToken (Some 10) 200 200 (rand 5) (Err "disk full");
    UseToken 1000 (clock 1000) (rand 6) (Ok tt);
    UseToken 1200 (clock 1200) (rand 7) (Ok tt);
    RevokeToken (Ok tt);
    UseToken 1201 (clock 1201) (rand 8) (Ok tt) ].
End ToyToken.

Lemma token_refines_session_witness :
  fst (run_all (@token_step Toy.sdk ToyVault.ops ToyToken.serde "t") ToyToken.ops None) =
    [Ok None; Ok (Some ToyVault.key); Ok (Some ToyVault.key); Ok (Some ToyVault.key); Ok None; Err "disk full"; Ok (Some ToyVault.key);
     Err (expired_message 1130 1200); Ok None; Err "cannot read session token t: not found"].
Proof.
  rewrite (@token_refines_session Toy.sdk ToyVault.ops ToyToken.serde _ _ _ "t" ToyToken.ops); [by vm_compute|].
  repeat constructor; apply ToyToken.rand_fine.
Defined.

(** A policy with a fresh lifetime of zero, which [unlock] accepts: below the
    threshold the valid token is refused at every use. *)
Example zero_rotate_ttl :
  fst (run_all (@token_step Toy.sdk ToyVault.ops ToyToken.serde "t")
    [ MintToken ToyVault.key 100 None (Some (MkAutoRotate 20 0)) 0 (ToyToken.rand 1) (Ok tt);
      UseToken 90 (ToyToken.clock 90) (ToyToken.rand 2) (Ok tt) ] None) = [Ok None; Err "token ttl must be ≥ 1 second"].
Proof. by vm_compute. Qed.
