(* ===== verification/PassCmd.v ===== *)
(** * The commands of the password manager (origin-pass/src/commands.rs)

    A command works on three files: the vault, the session token it is given
    and the replay ledger; what else it reads (environment, clock, draws,
    prompts, other files) is in [Env].  Its result is what it prints.  The
    codes themselves (base32, HOTP, TOTP, OCRA) are the SDK's. *)

From Stdlib Require Import Ascii String.
From S2P Require Import Prelude RustStr Bytes RustText Sdk StateErr Envelope License PassOcra PassVault PassSession.

(** ** Percent-encoding *)

Definition unreserved (a : ascii) : bool :=
  between 65 90 a || between 97 122 a || is_digit a || bool_decide (a ∈ chars "-_.~").
Definition hex_upper (n : Z) : ascii := byte_of (if n <? 10 then 48 + n else 55 + n).
Definition percent : ascii := "%"%char.
Definition encode_byte (a : ascii) : list ascii :=
  if unreserved a then [a] else [percent; hex_upper (code a / 16); hex_upper (code a mod 16)].
Definition url_encode (s : string) : string := of_chars (concat (map encode_byte (chars s))).

(** [u8::from_str_radix(_, 16)] on two bytes: a sign is accepted. *)
Definition hex_digit_val (a : ascii) : option Z :=
  if is_digit a then Some (code a - 48)
  else if between 97 102 a then Some (code a - 87)
  else if between 65 70 a then Some (code a - 55) else None.
Definition radix16 (a b : ascii) : option Z :=
  if bool_decide (a = "+"%char) then hex_digit_val b
  else match hex_digit_val a, hex_digit_val b with Some x, Some y => Some (16 * x + y) | _, _ => None end.

(** The loop of [url_decode]; [i] is the offset. *)
Fixpoint url_decode_from (i : nat) (l : list ascii) : result string bytes :=
  match l with
  | [] => Ok []
  | c :: l' =>
      if bool_decide (c = "+"%char) then out ← url_decode_from (S i) l'; Ok (byte_of 32 :: out)
      else match bool_decide (c = percent), l' with
           | true, a :: b :: l'' =>
               if negb (utf8_valid [a; b]) then Err ("invalid %XX in URL at offset " +:+ show_Z (Z.of_nat i))
               else match radix16 a b with
                    | None => Err ("invalid hex after `%` at offset " +:+ show_Z (Z.of_nat i) +:+ ": " +:+ quoted [a; b])
                    | Some v => out ← url_decode_from (3 + i) l''; Ok (byte_of v :: out)
                    end
           | _, _ => out ← url_decode_from (S i) l'; Ok (c :: out)
           end
  end.
Definition url_decode (s : list ascii) : result string bytes :=
  out ← url_decode_from 0 s;
  if utf8_valid out then Ok out else Err "invalid UTF-8 after URL-decode".

(** ** JSON values in place *)

(** [BTreeMap::insert] on the fields. *)
Fixpoint obj_insert (k : string) (v : json) (fs : list (string * json)) : list (string * json) :=
  match fs with
  | [] => [(k, v)]
  | (k', v') :: fs' => if String.eqb k' k then (k, v) :: fs'
                       else if String.ltb k k' then (k, v) :: fs else (k', v') :: obj_insert k v fs'
  end.
(** [value[k] = v]: panics when the value is neither an object nor null. *)
Definition json_set (k : string) (v j : json) : option json :=
  match j with
  | JNull => Some (JObj [(k, v)])
  | JObj fs => Some (JObj (obj_insert k v fs))
  | _ => None
  end.

(** ** Effects *)

Inductive fault := Panic | Failed (message : string).
#[global] Instance fault_eq_dec : EqDecision fault.
Proof. solve_decision. Defined.

(** The files of a command. *)
Record Host := MkHost { h_vault : file; h_token : file; h_ledger : file }.
Abbreviation cmd A := (SE Host fault A).

Definition fallible {A : Type} (r : result string A) : cmd A := lift (map_err Failed r).
Definition fail {A : Type} (message : string) : cmd A := throw (Failed message).
Definition may_panic {A : Type} (r : option (result string A)) : cmd A :=
  lift (match r with None => Err Panic | Some r => map_err Failed r end).
Definition vault_io {A : Type} (m : file -> result string A * file) : cmd A :=
  fun h => let '(r, f) := m (h_vault h) in (map_err Failed r, MkHost f (h_token h) (h_ledger h)).
Definition vault_io_may_panic {A : Type} (m : file -> option (result string A * file)) : cmd A :=
  fun h => match m (h_vault h) with
           | None => (Err Panic, h)
           | Some (r, f) => (map_err Failed r, MkHost f (h_token h) (h_ledger h))
           end.
Definition token_io {A : Type} (m : file -> result string A * file) : cmd A :=
  fun h => let '(r, f) := m (h_token h) in (map_err Failed r, MkHost (h_vault h) f (h_ledger h)).
Definition ledger_io {A : Type} (m : file -> result string A * file) : cmd A :=
  fun h => let '(r, f) := m (h_ledger h) in (map_err Failed r, MkHost (h_vault h) (h_token h) f).

Record Env := MkEnv {
  en_home : option string;
  en_token_var : option string;
  en_read_text : string -> result string string;
  en_read_bytes : string -> result string bytes;
  en_stdin_text : result string string;
  en_stdin_bytes : result string bytes;
  en_prompt : string -> result string string;
  en_now : nat -> Z;
  en_token_now : Z;
  en_rotate : RotateClock;
  en_rand : TokenRand;
  en_token_write : result string unit;
  en_draw : nat -> result string bytes;
  en_vault_write : result string unit;
  en_ledger_write : result string unit
}.

(** [drbg::otp] and [ocra] of the SDK. *)
Record OcraRequest := MkOcraRequest { rq_counter : Z; rq_challenge : bytes; rq_password : option bytes; rq_session : bytes; rq_timestamp : option Z }.
Class OtpOps := {
  base32_decode : string -> result string bytes;
  hotp_value : bytes -> Z -> Z -> HashAlgorithm -> Z;
  totp_value : bytes -> Z -> Z -> Z -> HashAlgorithm -> Z;
  format_code : Z -> Z -> string;
  ocra_response : bytes -> OcraRequest -> Z -> HashAlgorithm -> result string (Z * Z)
}.

(** [str::to_uppercase] and [str::to_lowercase]: the Unicode tables. *)
Class CaseOps := { to_uppercase : string -> string; to_lowercase : string -> string }.

Section Commands.
Context `{SK : Sdk, VO : VaultOps, TS : TokenSerde, LS : LedgerSerde, OO : OtpOps, CO : CaseOps}.

(** ** Passphrases, paths, unlocking *)

Definition resolve_passphrase (env : Env) (passphrase_file : option string) : result string string :=
  match passphrase_file with
  | Some path => s ← map_err (fun e => "cannot read passphrase file '" +:+ path +:+ "': " +:+ e) (en_read_text env path);
                 Ok (trim_end_matches cr (trim_end_matches lf s))
  | None => map_err (fun e => "passphrase prompt failed: " +:+ e) (en_prompt env "Passphrase: ")
  end.

Definition session_token_env (env : Env) : option string :=
  match en_token_var env with Some s => if String.eqb s "" then None else Some s | None => None end.
Definition session_token_available (env : Env) (flag : option string) : bool :=
  bool_decide (is_Some flag) || bool_decide (is_Some (session_token_env env)).

Definition resolve_vault_path (env : Env) (raw : string) : result string string := expand_tilde (en_home env) raw.

Definition unlock_vault_with_args (env : Env) (vault_raw : string) (passphrase_file session_token : option string) : cmd OpenVault :=
  path ← fallible (resolve_vault_path env vault_raw);
  let token := match session_token with
               | Some p => Some p
               | None => if bool_decide (is_Some passphrase_file) then None else session_token_env env
               end in
  match token with
  | Some raw =>
      token_path ← fallible (resolve_token_path (en_home env) raw);
      master ← token_io (fun f => (read_session_token token_path (en_token_now env) f, f));
      _ ← token_io (maybe_auto_rotate token_path (en_rotate env) (en_rand env) (en_token_write env));
      data ← gets h_vault;
      may_panic (unlock_vault_with_key path master data)
  | None =>
      passphrase ← fallible (resolve_passphrase env passphrase_file);
      data ← gets h_vault;
      may_panic (unlock_vault path passphrase data)
  end.

Definition persist (env : Env) (v : OpenVault) : cmd unit := vault_io (persist_vault (en_draw env) (en_vault_write env) v).
Definition set_entries (v : OpenVault) (es : gmap string EntryPayload) : OpenVault :=
  MkOpenVault (pv_header v) es (pv_metadata v) (pv_master_key v).

(** [trim_end_matches(['\n', '\r'])]. *)
Fixpoint drop_newlines (l : list ascii) : list ascii :=
  match l with a :: l' => if bool_decide (a = lf) || bool_decide (a = cr) then drop_newlines l' else l | [] => [] end.
Definition trim_newlines (s : string) : string := of_chars (rev (drop_newlines (rev (chars s)))).

Definition resolve_entry_secret (env : Env) (secret_file : option string) (secret_stdin : bool) : result string string :=
  match secret_file with
  | Some path => s ← map_err (fun e => "cannot read secret file " +:+ path +:+ ": " +:+ e) (en_read_text env path); Ok (trim_newlines s)
  | None =>
      if secret_stdin
      then s ← map_err (fun e => "cannot read secret from stdin: " +:+ e) (en_stdin_text env); Ok (trim_newlines s)
      else map_err (fun e => "secret prompt failed: " +:+ e) (en_prompt env "Secret: ")
  end.

(** ** Adding and removing entries *)

Inductive EntryType := TPassword | TOtp | TOcra.

Record AddArgs := MkAddArgs {
  aa_vault : string; aa_name : string; aa_type : EntryType; aa_passphrase_file : option string; aa_session_token : option string;
  aa_suite : option string; aa_url : option string; aa_notes : option string; aa_secret_file : option string; aa_secret_stdin : bool;
  aa_force : bool; aa_period : Z; aa_digits : Z; aa_algo : HashAlgorithm; aa_counter : Z; aa_hotp : bool
}.

Definition algo_name (a : HashAlgorithm) : string := match a with Sha1 => "SHA1" | Sha256 => "SHA256" | Sha512 => "SHA512" end.

Definition already (name : string) : string := "entry already exists: " +:+ name +:+ " (use --force to overwrite)".

(** The stamps of a new or replaced entry. *)
Definition stamped (p : EntryPayload) (url notes : option string) (created now : Z) : EntryPayload :=
  MkPayload (ep_name p) (ep_entry_type p) (ep_secret p) url notes created now (ep_totp p) (ep_hotp p) (ep_ocra p).
Definition created_at (es : gmap string EntryPayload) (name : string) (now : Z) : Z :=
  match es !! name with Some prev => ep_created_at prev | None => now end.

Definition finish_add (env : Env) (v : OpenVault) (p : EntryPayload) (url notes : option string) : cmd unit :=
  let now := en_now env 0 in
  let payload := stamped p url notes (created_at (pv_entries v) (ep_name p) now) now in
  persist env (add_entry v payload).

Definition cmd_add_password (env : Env) (args : AddArgs) : cmd unit :=
  _ ← fallible (resolve_vault_path env (aa_vault args));
  v ← unlock_vault_with_args env (aa_vault args) (aa_passphrase_file args) (aa_session_token args);
  if bool_decide (is_Some (pv_entries v !! aa_name args)) && negb (aa_force args) then fail (already (aa_name args))
  else
    secret ← fallible (resolve_entry_secret env (aa_secret_file args) (aa_secret_stdin args));
    finish_add env v (password (aa_name args) secret) (aa_url args) (aa_notes args).

Definition cmd_add_otp (env : Env) (args : AddArgs) : cmd unit :=
  if negb ((4 <=? aa_digits args) && (aa_digits args <=? 10)) then fail ("digits out of range (4..=10): " +:+ show_Z (aa_digits args))
  else
    _ ← fallible (resolve_vault_path env (aa_vault args));
    v ← unlock_vault_with_args env (aa_vault args) (aa_passphrase_file args) (aa_session_token args);
    if bool_decide (is_Some (pv_entries v !! aa_name args)) && negb (aa_force args) then fail (already (aa_name args))
    else
      secret ← fallible (resolve_entry_secret env (aa_secret_file args) (aa_secret_stdin args));
      _ ← fallible (map_err (fun e => "secret is not valid base32: " +:+ e) (base32_decode secret));
      finish_add env v
        (if aa_hotp args then hotp (aa_name args) secret (aa_counter args) (aa_digits args) (algo_name (aa_algo args))
         else totp (aa_name args) secret (aa_period args) (aa_digits args) (algo_name (aa_algo args)))
        (aa_url args) (aa_notes args).

(** A trailing newline, and the carriage return before it, are not part of the
    key. *)
Definition strip_newline (key : bytes) : bytes :=
  match strip_suffix [lf] key with
  | Some k => default k (strip_suffix [cr] k)
  | None => key
  end.

Definition ocra_key (env : Env) (args : AddArgs) : result string bytes :=
  match aa_secret_file args with
  | Some f => map_err (fun e => "cannot read OCRA key file " +:+ f +:+ ": " +:+ e) (en_read_bytes env f)
  | None =>
      if aa_secret_stdin args then map_err (fun e => "cannot read OCRA key from stdin: " +:+ e) (en_stdin_bytes env)
      else Err "OCRA keys must be supplied via --secret-file <path> or --secret-stdin (raw bytes); interactive entry is not supported for binary keys"
  end.

(** The suites [add] takes: no PIN or one hashed with SHA-1, no session data. *)
Definition ocra_suite_to_add (args : AddArgs) : result string (string * OcraSuite) :=
  match aa_suite args with
  | None => Err "--type ocra requires --suite <OCRA-1:HOTP-<hash>-<digits>:<data>> (e.g. OCRA-1:HOTP-SHA1-6:QN08)"
  | Some suite_str =>
      suite ← parse_suite suite_str;
      match os_pin_algo suite with
      | Some (Sha256 as a) | Some (Sha512 as a) =>
          Err ("suite `" +:+ suite_str +:+ "` uses P-" +:+ algo_debug a +:+ ", but origin-crypto-sdk computes the OCRA P slot with SHA-1 only — use a P-SHA1 suite (or no PIN) for now")
      | _ =>
          if bool_decide (is_Some (os_session_len suite))
          then Err ("suite `" +:+ suite_str +:+ "` requires session data (S<nnn>), which the CLI does not support yet — use a suite without a session component")
          else Ok (suite_str, suite)
      end
  end.

Definition cmd_add_ocra (env : Env) (args : AddArgs) : cmd unit :=
  '(suite_str, suite) ← fallible (ocra_suite_to_add args);
  raw ← fallible (ocra_key env args);
  let key := strip_newline raw in
  if (length key <? 16)%nat then fail ("OCRA key is " +:+ show_Z (Z.of_nat (length key)) +:+ " bytes; RFC 6287 requires at least 16 bytes")
  else
    _ ← fallible (resolve_vault_path env (aa_vault args));
    v ← unlock_vault_with_args env (aa_vault args) (aa_passphrase_file args) (aa_session_token args);
    if bool_decide (is_Some (pv_entries v !! aa_name args)) && negb (aa_force args) then fail (already (aa_name args))
    else finish_add env v (ocra (aa_name args) key suite_str (os_digits suite) (algo_name (os_algo suite)) (aa_counter args)) (aa_url args) (aa_notes args).

Definition cmd_add (env : Env) (args : AddArgs) : cmd unit :=
  match aa_type args with
  | TOcra => cmd_add_ocra env args
  | TOtp => cmd_add_otp env args
  | TPassword => cmd_add_password env args
  end.

(** The options every command on an entry takes. *)
Record EntryArgs := MkEntryArgs { ea_vault : string; ea_name : string; ea_passphrase_file : option string; ea_session_token : option string }.

Definition not_found (name : string) : string := "entry not found: " +:+ name.

Definition cmd_get (env : Env) (args : EntryArgs) : cmd EntryPayload :=
  v ← unlock_vault_with_args env (ea_vault args) (ea_passphrase_file args) (ea_session_token args);
  match pv_entries v !! ea_name args with Some e => mret e | None => fail (not_found (ea_name args)) end.

Definition payload_kind (e : EntryPayload) : string :=
  if bool_decide (is_Some (ep_ocra e)) then "ocra"
  else if bool_decide (is_Some (ep_totp e)) then "totp"
  else if bool_decide (is_Some (ep_hotp e)) then "hotp" else "password".

Definition cmd_list (env : Env) (args : EntryArgs) : cmd (list (string * string)) :=
  v ← unlock_vault_with_args env (ea_vault args) (ea_passphrase_file args) (ea_session_token args);
  mret (map (fun kv => (fst kv, payload_kind (snd kv))) (in_order (pv_entries v))).

Definition cmd_rm (env : Env) (args : EntryArgs) : cmd unit :=
  _ ← fallible (resolve_vault_path env (ea_vault args));
  v ← unlock_vault_with_args env (ea_vault args) (ea_passphrase_file args) (ea_session_token args);
  match pv_entries v !! ea_name args with
  | None => fail (not_found (ea_name args))
  | Some _ => persist env (set_entries v (delete (ea_name args) (pv_entries v)))
  end.

(** ** Codes *)

Record CodeArgs := MkCodeArgs {
  ca_entry : EntryArgs; ca_algo : option HashAlgorithm; ca_digits : option Z; ca_ocra : bool; ca_challenge : option string;
  ca_counter : option Z; ca_key_file : option string; ca_pin : option string; ca_force : bool
}.

(** The parameters of a stored one-time password. *)
Definition otp_algo (args : CodeArgs) (j : json) : HashAlgorithm :=
  match ca_algo args with
  | Some a => a
  | None => let stored := default "SHA1" (value_str "algo" j) in
            if String.eqb stored "SHA256" then Sha256 else if String.eqb stored "SHA512" then Sha512 else Sha1
  end.
Definition otp_digits (args : CodeArgs) (j : json) : Z := default (default 6 (get_u64 "digits" j) mod 2 ^ 32) (ca_digits args).

(** The secret as text, and decoded. *)
Definition otp_secret (name : string) (e : EntryPayload) : result string bytes :=
  match ep_secret e with
  | None => Err ("entry '" +:+ name +:+ "' has no secret bytes stored")
  | Some b => match from_utf8 b with
              | None => Err ("entry '" +:+ name +:+ "' secret is not valid UTF-8 base32")
              | Some s => map_err (fun e => "entry '" +:+ name +:+ "' secret is not valid base32: " +:+ e) (base32_decode s)
              end
  end.

(** The entry with another value under [hotp] or [ocra], and a new stamp. *)
Definition with_hotp (e : EntryPayload) (j : json) (now : Z) : EntryPayload :=
  MkPayload (ep_name e) (ep_entry_type e) (ep_secret e) (ep_url e) (ep_notes e) (ep_created_at e) now (ep_totp e) (Some j) (ep_ocra e).
Definition with_ocra (e : EntryPayload) (j : json) (now : Z) : EntryPayload :=
  MkPayload (ep_name e) (ep_entry_type e) (ep_secret e) (ep_url e) (ep_notes e) (ep_created_at e) now (ep_totp e) (ep_hotp e) (Some j).

(** The code of an entry and, for a counter-based one, the entry afterwards. *)
Definition otp_code (args : CodeArgs) (now now' : Z) (name : string) (e : EntryPayload) : result fault (string * option EntryPayload) :=
  match ep_totp e, ep_hotp e with
  | None, None => Err (Failed ("entry '" +:+ name +:+ "' is type '" +:+ payload_kind e +:+ "'; `code` requires a TOTP or HOTP entry"))
  | Some j, _ =>
      secret ← map_err Failed (otp_secret name e);
      let digits := otp_digits args j in
      Ok (format_code (totp_value secret now (default 30 (get_u64 "period" j)) digits (otp_algo args j)) digits, None)
  | None, Some j =>
      secret ← map_err Failed (otp_secret name e);
      let digits := otp_digits args j in
      let counter := default 0 (get_u64 "counter" j) in
      match json_set "counter" (JNum (wrap_u64 (counter + 1))) j with
      | None => Err Panic
      | Some j' => Ok (format_code (hotp_value secret counter digits (otp_algo args j)) digits, Some (with_hotp e j' now'))
      end
  end.

(** Refusals before the passphrase prompt. *)
Definition no_vault_otp : string :=
  "no --vault supplied; cannot derive TOTP/HOTP code. Pass --vault <path> --passphrase-file <path> to unlock the vault.".
Definition no_key_otp : string :=
  "TOTP/HOTP code requires a passphrase or session token to unlock the vault. Pass --passphrase-file <path> or --session-token <path> (or set $ORIGIN_PASS_TOKEN), or run from a terminal for interactive unlock.".
Definition no_vault_ocra : string :=
  "no --key-file and no --vault supplied; cannot derive OCRA code. Either pass --key-file <path> to read the raw OCRA K from disk, or pass --vault <path> --passphrase-file <path> to unlock the vault first.".
Definition no_key_ocra : string :=
  "OCRA from vault requires a passphrase or session token to unlock the vault. Pass --passphrase-file <path> or --session-token <path> (or set $ORIGIN_PASS_TOKEN); for tests, prefer --key-file <path>.".

Definition cmd_code_otp (env : Env) (args : CodeArgs) : cmd string :=
  let ea := ca_entry args in
  if String.eqb (trim (ea_vault ea)) ""
  then fail no_vault_otp
  else if bool_decide (ea_passphrase_file ea = None) && negb (session_token_available env (ea_session_token ea))
  then fail no_key_otp
  else
    _ ← fallible (resolve_vault_path env (ea_vault ea));
    v ← unlock_vault_with_args env (ea_vault ea) (ea_passphrase_file ea) (ea_session_token ea);
    match pv_entries v !! ea_name ea with
    | None => fail (not_found (ea_name ea))
    | Some e =>
        '(code, e') ← lift (otp_code args (en_now env 0) (en_now env 1) (ea_name ea) e);
        match e' with
        | None => mret code
        | Some e' => _ ← persist env (set_entries v (<[ea_name ea := e']> (pv_entries v))); mret code
        end
    end.

(** What an OCRA response is computed from. *)
Record OcraPlan := MkOcraPlan {
  op_suite : OcraSuite; op_key : bytes; op_json : json; op_stored : Z; op_counter : Z; op_timestamp : option Z; op_challenge : bytes;
  op_digits : Z; op_algo : HashAlgorithm
}.

Definition ocra_plan (args : CodeArgs) (now : Z) (v : OpenVault) : result string OcraPlan :=
  let name := ea_name (ca_entry args) in
  entry ← map_err (fun e => "OCRA vault lookup failed: " +:+ e) (get_ocra_entry v name);
  match ep_ocra entry with
  | None => Err ("entry '" +:+ name +:+ "' has no OCRA metadata stored (data corruption?)")
  | Some j =>
      match value_str "suite" j with
      | None => Err ("entry '" +:+ name +:+ "' has no stored OCRA suite — re-add with `add --type ocra --suite <...>`")
      | Some suite_str =>
          suite ← parse_suite suite_str;
          match ep_secret entry with
          | None => Err ("entry '" +:+ name +:+ "' has no secret bytes stored (data corruption?)")
          | Some key =>
              let stored := default 0 (get_u64 "counter" j) in
              let counter := if os_has_counter suite then default stored (ca_counter args) else 0 in
              let timestamp := (fun step_secs => Z.max 0 now / step_secs) <$> os_timestamp_step_secs suite in
              _ ← validate_challenge suite (ca_challenge args);
              challenge ← encode_challenge suite (ca_challenge args);
              if bool_decide (is_Some (os_pin_algo suite)) && bool_decide (ca_pin args = None)
              then Err ("suite `" +:+ suite_str +:+ "` requires --pin <STRING> (P- component)")
              else if bool_decide (os_pin_algo suite = None) && bool_decide (is_Some (ca_pin args))
              then Err ("suite `" +:+ suite_str +:+ "` has no PIN component — omit --pin")
              else Ok (MkOcraPlan suite key j stored counter timestamp challenge (default (os_digits suite) (ca_digits args)) (default (os_algo suite) (ca_algo args)))
          end
      end
  end.

Definition ledger_applies (p : OcraPlan) : bool :=
  negb (bool_decide (oc_kind (os_challenge (op_suite p)) = KNone)) && bool_decide (op_timestamp p = None).

Definition replay_refused (args : CodeArgs) (counter : Z) : string :=
  "OCRA replay detected: challenge `" +:+ default "" (ca_challenge args) +:+ "` (counter " +:+ show_Z counter
  +:+ ") was already used for entry '" +:+ ea_name (ca_entry args) +:+ "' — refusing to re-issue. Pass --force to override.".

(** The replay guard of a challenge without a timestamp. *)
Definition ocra_guard (env : Env) (path : string) (args : CodeArgs) (p : OcraPlan) : cmd unit :=
  if ledger_applies p
  then
    replay ← ledger_io (record_use path (ea_name (ca_entry args)) (challenge_fingerprint (op_challenge p) (op_counter p))
                          (en_now env 1) (ca_force args) (en_ledger_write env));
    if (replay : bool) && negb (ca_force args) then fail (replay_refused args (op_counter p)) else mret tt
  else mret tt.

Definition ocra_code (args : CodeArgs) (p : OcraPlan) : result string string :=
  '(value, digits) ← ocra_response (op_key p)
     (MkOcraRequest (op_counter p) (op_challenge p) (chars <$> ca_pin args) [] (op_timestamp p)) (op_digits p) (op_algo p);
  Ok (format_code value digits).

(** The stored counter moves on when it was the one used. *)
Definition ocra_advance (env : Env) (args : CodeArgs) (p : OcraPlan) (v : OpenVault) : cmd unit :=
  if os_has_counter (op_suite p) && bool_decide (ca_counter args = None)
  then
    match pv_entries v !! ea_name (ca_entry args), json_set "counter" (JNum (wrap_u64 (op_stored p + 1))) (op_json p) with
    | Some e, Some j' => persist env (set_entries v (<[ea_name (ca_entry args) := with_ocra e j' (en_now env 2)]> (pv_entries v)))
    | Some _, None => throw Panic
    | None, _ => persist env v
    end
  else mret tt.

Definition compute_ocra_code (env : Env) (key_path challenge : string) (counter digits : Z) (algo : HashAlgorithm) : result string string :=
  key ← map_err (fun e => "failed to read OCRA key file " +:+ key_path +:+ ": " +:+ e) (en_read_bytes env key_path);
  '(value, digits) ← ocra_response key (MkOcraRequest counter (chars challenge) None [] None) digits algo;
  Ok (format_code value digits).

Definition cmd_code_ocra (env : Env) (args : CodeArgs) : cmd string :=
  let ea := ca_entry args in
  match ca_key_file args with
  | Some key_path =>
      match ca_challenge args with
      | None => fail "--ocra --key-file requires --challenge <STRING>"
      | Some challenge => fallible (compute_ocra_code env key_path challenge (default 0 (ca_counter args)) (default 6 (ca_digits args)) (default Sha1 (ca_algo args)))
      end
  | None =>
      if String.eqb (trim (ea_vault ea)) ""
      then fail no_vault_ocra
      else if bool_decide (ea_passphrase_file ea = None) && negb (session_token_available env (ea_session_token ea))
      then fail no_key_ocra
      else
        path ← fallible (resolve_vault_path env (ea_vault ea));
        v ← unlock_vault_with_args env (ea_vault ea) (ea_passphrase_file ea) (ea_session_token ea);
        p ← fallible (ocra_plan args (en_now env 0) v);
        _ ← ocra_guard env path args p;
        code ← fallible (ocra_code args p);
        _ ← ocra_advance env args p v;
        mret code
  end.

Definition cmd_code (env : Env) (args : CodeArgs) : cmd string :=
  if ca_ocra args then cmd_code_ocra env args else cmd_code_otp env args.

(** ** QR codes: the [otpauth] URI of an entry *)

(** What an exported entry carries; [oi_period] is only used for TOTP and
    [oi_counter] only for HOTP. *)
Record OtpInfo := MkOtpInfo {
  oi_totp : bool; oi_issuer : string; oi_account : string; oi_secret : string; oi_algo : string; oi_digits : Z; oi_period : Z; oi_counter : Z
}.

Definition export_info (issuer : option string) (name : string) (e : EntryPayload) : result string OtpInfo :=
  let is_totp := bool_decide (is_Some (ep_totp e)) in
  let is_hotp := bool_decide (is_Some (ep_hotp e)) in
  if negb is_totp && negb is_hotp
  then Err ("entry '" +:+ name +:+ "' is type '" +:+ payload_kind e +:+ "'; only otp entries can be exported as QR")
  else
    let v := if is_totp then ep_totp e else ep_hotp e in
    let algo := default "SHA1" (v ≫= value_str "algo") in
    let digits := default 6 (v ≫= get_u64 "digits") mod 2 ^ 32 in
    let period := if is_totp then default 30 (ep_totp e ≫= get_u64 "period") mod 2 ^ 32 else 0 in
    let counter := if is_hotp then default 0 (ep_hotp e ≫= get_u64 "counter") else 0 in
    match ep_secret e with
    | None => Err ("entry '" +:+ name +:+ "' has no secret bytes stored")
    | Some b =>
        match from_utf8 b with
        | None => Err ("entry '" +:+ name +:+ "' secret is not a UTF-8 base32 string (data corruption)")
        | Some secret =>
            let stored_issuer := n ← ep_notes e; of_chars <$> strip_prefix (chars "issuer=") (chars n) in
            let issuer := match issuer with Some i => i | None => default name stored_issuer end in
            Ok (MkOtpInfo is_totp issuer name secret algo digits period counter)
        end
    end.

Definition otpauth_uri (i : OtpInfo) : string :=
  let issuer_enc := url_encode (oi_issuer i) in
  "otpauth://" +:+ (if oi_totp i then "totp" else "hotp") +:+ "/" +:+ issuer_enc +:+ ":" +:+ url_encode (oi_account i)
  +:+ "?secret=" +:+ oi_secret i +:+ "&issuer=" +:+ issuer_enc +:+ "&algorithm=" +:+ oi_algo i +:+ "&digits=" +:+ show_Z (oi_digits i)
  +:+ (if oi_totp i then "&period=" +:+ show_Z (oi_period i) else "&counter=" +:+ show_Z (oi_counter i)).

(** The URI; the picture drawn from it is not modelled. *)
Definition cmd_export_qr (env : Env) (args : EntryArgs) (issuer : option string) : cmd string :=
  v ← unlock_vault_with_args env (ea_vault args) (ea_passphrase_file args) (ea_session_token args);
  match pv_entries v !! ea_name args with
  | None => fail (not_found (ea_name args))
  | Some e => i ← fallible (export_info issuer (ea_name args) e); mret (otpauth_uri i)
  end.

(** Query parameters into the map, later ones replacing earlier ones. *)
Fixpoint query_params (pairs : list (list ascii)) (params : gmap string string) : result string (gmap string string) :=
  match pairs with
  | [] => Ok params
  | [] :: pairs' => query_params pairs' params
  | kv :: pairs' =>
      match split_once "="%char kv with
      | None => Err ("URI query pair missing `=`: " +:+ quoted kv)
      | Some (k_enc, v_enc) =>
          k ← map_err (fun e => "invalid URI query key: " +:+ e) (url_decode k_enc);
          v ← map_err (fun e => "invalid URI query value: " +:+ e) (url_decode v_enc);
          query_params pairs' (<[of_chars k := of_chars v]> params)
      end
  end.

Definition number_param (hi : Z) (name s : string) : result string Z :=
  match parse_unsigned hi (chars s) with Some n => Ok n | None => Err (name +:+ " not a valid integer: `" +:+ s +:+ "`") end.

Definition parse_otpauth (raw_uri : string) : result string OtpInfo :=
  match strip_prefix (chars "otpauth://") (chars raw_uri) with
  | None => Err "URI must begin with `otpauth://`"
  | Some after_scheme =>
      let '(type_and_label, query) := default (after_scheme, []) (split_once "?"%char after_scheme) in
      match split_once slash type_and_label with
      | None => Err ("URI malformed: missing `/<label>` after type: " +:+ quoted type_and_label)
      | Some (kind, label_enc) =>
          label ← map_err (fun e => "invalid URI label: " +:+ e) (url_decode label_enc);
          let is_totp := bool_decide (kind = chars "totp") in
          let is_hotp := bool_decide (kind = chars "hotp") in
          if negb is_totp && negb is_hotp then Err ("URI type must be `totp` or `hotp`, got " +:+ quoted kind)
          else
            params ← query_params (split_on "&"%char query) ∅;
            match params !! "secret" with
            | None => Err "URI missing required `secret` query parameter"
            | Some secret =>
                _ ← map_err (fun e => "URI `secret` is not valid base32: " +:+ e) (base32_decode secret);
                let issuer := match params !! "issuer" with
                              | Some i => i
                              | None => match split_once colon label with Some (i, _) => of_chars i | None => "" end
                              end in
                let account := match split_once colon label with Some (_, a) => a | None => label end in
                if bool_decide (account = []) then Err "URI label resolves to empty accountname"
                else
                  let algo := match params !! "algorithm" with Some s => to_uppercase s | None => "SHA1" end in
                  if negb (bool_decide (algo ∈ ["SHA1"; "SHA256"; "SHA512"]))
                  then Err ("unsupported algorithm `" +:+ algo +:+ "` (must be SHA1, SHA256, or SHA512)")
                  else
                    digits ← match params !! "digits" with Some s => number_param u32_max "digits" s | None => Ok 6 end;
                    if negb ((4 <=? digits) && (digits <=? 10)) then Err ("digits out of range (4..=10): " +:+ show_Z digits)
                    else
                      period ← (if is_totp then match params !! "period" with Some s => number_param u32_max "period" s | None => Ok 30 end else Ok 0);
                      counter ← (if is_hotp
                                 then match params !! "counter" with
                                      | Some s => number_param u64_max "counter" s
                                      | None => Err "HOTP URI missing required `counter` query parameter"
                                      end
                                 else Ok 0);
                      Ok (MkOtpInfo is_totp issuer (of_chars account) secret algo digits period counter)
            end
      end
  end.

(** The entry an imported URI makes. *)
Definition imported (i : OtpInfo) : EntryPayload :=
  if oi_totp i then totp (oi_account i) (oi_secret i) (oi_period i) (oi_digits i) (oi_algo i)
  else hotp (oi_account i) (oi_secret i) (oi_counter i) (oi_digits i) (oi_algo i).
Definition issuer_note (i : OtpInfo) : option string := if String.eqb (oi_issuer i) "" then None else Some ("issuer=" +:+ oi_issuer i).

Record ImportArgs := MkImportArgs { ia_vault : string; ia_uri : string; ia_passphrase_file : option string; ia_session_token : option string; ia_force : bool }.

Definition raw_uri (env : Env) (uri : string) : result string string :=
  match strip_prefix ["@"%char] (chars uri) with
  | Some f => s ← map_err (fun e => "cannot read URI file " +:+ of_chars f +:+ ": " +:+ e) (en_read_text env (of_chars f)); Ok (of_chars (trim_end (chars s)))
  | None => Ok uri
  end.

Definition cmd_import_qr (env : Env) (args : ImportArgs) : cmd unit :=
  _ ← fallible (resolve_vault_path env (ia_vault args));
  uri ← fallible (raw_uri env (ia_uri args));
  v ← unlock_vault_with_args env (ia_vault args) (ia_passphrase_file args) (ia_session_token args);
  i ← fallible (parse_otpauth uri);
  if bool_decide (is_Some (pv_entries v !! oi_account i)) && negb (ia_force args) then fail (already (oi_account i))
  else finish_add env v (imported i) None (issuer_note i).

(** ** Vaults and sessions *)

Record UnlockArgs := MkUnlockArgs {
  ua_vault : string; ua_tier : string; ua_passphrase_file : option string; ua_session_token : option string; ua_session_ttl : Z;
  ua_auto_rotate : bool; ua_auto_rotate_threshold : option Z; ua_auto_rotate_ttl : option Z
}.

Definition tier_from_str (s : string) : result string MemoryTier :=
  let lowered := to_lowercase s in
  if String.eqb lowered "nano" then Ok Nano
  else if String.eqb lowered "standard" || String.eqb lowered "std" then Ok Standard
  else if String.eqb lowered "sovereign" || String.eqb lowered "sov" then Ok Sovereign
  else Err ("unknown tier '" +:+ s +:+ "' (expected: nano, standard, sovereign)").

Definition build_auto_rotate (args : UnlockArgs) : result string (option AutoRotateConfig) :=
  if negb (ua_auto_rotate args)
  then if bool_decide (is_Some (ua_auto_rotate_threshold args)) || bool_decide (is_Some (ua_auto_rotate_ttl args))
       then Err "--auto-rotate-threshold and --auto-rotate-ttl require --auto-rotate"
       else Ok None
  else Ok (Some (MkAutoRotate (default DEFAULT_AUTO_ROTATE_THRESHOLD_SECS (ua_auto_rotate_threshold args)) (default (ua_session_ttl args) (ua_auto_rotate_ttl args)))).

Definition cmd_unlock (env : Env) (args : UnlockArgs) : cmd nat :=
  _ ← fallible (tier_from_str (ua_tier args));
  path ← fallible (resolve_vault_path env (ua_vault args));
  passphrase ← fallible (resolve_passphrase env (ua_passphrase_file args));
  data ← gets h_vault;
  v ← may_panic (unlock_vault path passphrase data);
  _ ← match ua_session_token args with
      | None => mret tt
      | Some raw =>
          policy ← fallible (build_auto_rotate args);
          _ ← fallible (resolve_token_path (en_home env) raw);
          _ ← token_io (write_session_token (pv_master_key v) (ua_session_ttl args) (Some path) policy (en_now env 0) (en_rand env) (en_token_write env));
          mret tt
      end;
  mret (size (pv_entries v)).

(** [remove]: what deleting the token file gives. *)
Definition cmd_lock (env : Env) (session_token : option string) (remove : result string unit) : cmd unit :=
  match (match session_token with Some p => Some p | None => session_token_env env end) with
  | None => fail "nothing to lock: v0.5 keeps no in-process vault state. Pass --session-token <path> (or set $ORIGIN_PASS_TOKEN) to revoke a persisted session token."
  | Some raw =>
      token_path ← fallible (resolve_token_path (en_home env) raw);
      token_io (revoke_session_token token_path remove)
  end.

(** The second prompt must agree with the first. *)
Definition resolve_passphrase_confirm (env : Env) (passphrase_file : option string) : result string string :=
  match passphrase_file with
  | Some path => s ← map_err (fun e => "cannot read passphrase file '" +:+ path +:+ "': " +:+ e) (en_read_text env path);
                 Ok (trim_end_matches cr (trim_end_matches lf s))
  | None =>
      p1 ← map_err (fun e => "passphrase prompt failed: " +:+ e) (en_prompt env "Passphrase: ");
      p2 ← map_err (fun e => "passphrase confirm failed: " +:+ e) (en_prompt env "Confirm passphrase: ");
      if String.eqb p1 p2 then Ok p1 else Err "passphrases do not match"
  end.

(** [parent], [salt]: creating the parent directory and drawing the salt. *)
Definition cmd_init (env : Env) (vault tier : string) (passphrase_file : option string) (parent : result string unit) (salt : result string bytes) : cmd unit :=
  t ← fallible (tier_from_str tier);
  path ← fallible (resolve_vault_path env vault);
  data ← gets h_vault;
  if bool_decide (is_Some data) then fail ("vault file already exists: " +:+ path +:+ " (refusing to overwrite)")
  else
    passphrase ← fallible (resolve_passphrase_confirm env passphrase_file);
    vault_io (init_vault path passphrase t parent salt (en_draw env) (en_vault_write env)).

(** The new passphrase: a file, or two prompts that agree. *)
Definition new_passphrase (env : Env) (new_file : option string) : result string string :=
  match new_file with
  | Some f => s ← map_err (fun e => "cannot read new-passphrase file " +:+ f +:+ ": " +:+ e) (en_read_text env f); Ok (trim_newlines s)
  | None =>
      pw ← map_err (fun e => "new passphrase prompt failed: " +:+ e) (en_prompt env "New passphrase: ");
      pw2 ← map_err (fun e => "new passphrase confirm failed: " +:+ e) (en_prompt env "Confirm new:   ");
      if String.eqb pw pw2 then Ok pw else Err "new passphrases do not match"
  end.

(** The tier of the vault, read from its header. *)
Definition probe_tier (path : string) (f : file) : result string MemoryTier :=
  b ← match f with
      | None => Err ("cannot read vault " +:+ path +:+ ": not found")
      | Some r => map_err (fun e => "cannot read vault " +:+ path +:+ ": " +:+ e) r
      end;
  if (length b <? HEADER_BYTES_LEN)%nat then Err ("vault file too short: " +:+ show_Z (Z.of_nat (length b)) +:+ " bytes")
  else h ← header_from_wire (take HEADER_BYTES_LEN b); Ok (vh_kdf_tier h).

Definition cmd_change_passphrase (env : Env) (vault : string) (passphrase_file new_file session_token : option string) (salt : result string bytes) : cmd unit :=
  if bool_decide (is_Some session_token)
  then fail "--session-token is not supported with change-passphrase: rotating the passphrase re-encrypts the vault under a new master key, which invalidates any existing token. Use --passphrase-file."
  else
    path ← fallible (resolve_vault_path env vault);
    current ← fallible (resolve_passphrase env passphrase_file);
    data ← gets h_vault;
    tier ← fallible (probe_tier path data);
    new ← fallible (new_passphrase env new_file);
    vault_io_may_panic (change_vault_passphrase path current new tier salt (en_draw env) (en_vault_write env)).

(** ** The token store *)

(** [Path] equality compares components. *)
Definition path_eq (p q : string) : bool := bool_decide (path_components p = path_components q).

(** [revoke_session_token] on a listed file. *)
Definition revoke_listed (remove : string -> result string unit) (t : TokenInfo) : SE dir string unit := fun d =>
  match d !! ti_name t with
  | None => (Err ("session token not found: " +:+ ti_path t +:+ " (nothing to revoke)"), d)
  | Some _ => remove_token remove ("cannot remove session token " +:+ ti_path t) (ti_name t) d
  end.

Fixpoint revoke_each (remove : string -> result string unit) (ts : list TokenInfo) : SE dir string unit :=
  match ts with
  | [] => mret tt
  | t :: ts' => _ ← revoke_listed remove t; revoke_each remove ts'
  end.

(** A directory that can be read, or none. *)
Definition listed (path : string) : SE (option (result string dir)) string (list TokenInfo) := fun d => (list_tokens path d, d).
Definition in_dir {A : Type} (m : SE dir string A) (none : A) : SE (option (result string dir)) string A := fun d =>
  match d with
  | Some (Ok es) => let '(r, es') := m es in (r, Some (Ok es'))
  | _ => (Ok none, d)
  end.

Definition bound_to (target : string) (t : TokenInfo) : bool := match ti_vault t with Some v => path_eq v target | None => false end.

Definition cmd_lock_all (env : Env) (dir_raw : string) (vault : option string) (remove : string -> result string unit)
  : SE (option (result string dir)) string nat :=
  path ← lift (resolve_store_dir (en_home env) dir_raw);
  tokens ← listed path;
  filter ← match vault with None => mret None | Some v => p ← lift (resolve_vault_path env v); mret (Some p) end;
  let doomed := match filter with Some target => List.filter (bound_to target) tokens | None => tokens end in
  _ ← in_dir (revoke_each remove doomed) tt;
  match doomed, filter with
  | [], Some v => throw ("nothing to lock: no session tokens bound to " +:+ v +:+ " in " +:+ path)
  | [], None => throw ("nothing to lock: no session tokens in " +:+ path)
  | _, _ => mret (length doomed)
  end.

(** [tokens prune]: the expired and the unreadable ones. *)
Definition cmd_tokens_prune (env : Env) (dir_raw : string) (remove : string -> result string unit) : SE (option (result string dir)) string nat :=
  path ← lift (resolve_store_dir (en_home env) dir_raw);
  tokens ← listed path;
  let doomed := List.filter (fun t => ti_unreadable t || (ti_expires_at t <=? en_now env 0)) tokens in
  _ ← in_dir (revoke_each remove doomed) tt;
  mret (length doomed).

Definition cmd_tokens_revoke_all (env : Env) (dir_raw : string) (expired_only : bool) (remove : string -> result string unit)
  : SE (option (result string dir)) string nat :=
  path ← lift (resolve_store_dir (en_home env) dir_raw);
  revoke_all_tokens remove path (en_now env 0) expired_only.

(** [tokens revoke], [rotate] and [renew] on the token of that name. *)
Definition named_token (env : Env) (dir_raw name : string) : result string string :=
  d ← resolve_store_dir (en_home env) dir_raw; resolve_token_path_in (en_home env) d name.
Definition cmd_tokens_revoke (env : Env) (dir_raw name : string) (remove : result string unit) : cmd unit :=
  path ← fallible (named_token env dir_raw name); token_io (revoke_session_token path remove).
Definition cmd_tokens_rotate (env : Env) (dir_raw name : string) (ttl : option Z) : cmd SessionToken :=
  path ← fallible (named_token env dir_raw name);
  token_io (rotate_session_token path ttl (en_now env 0) (en_now env 1) (en_rand env) (en_token_write env)).
Definition cmd_tokens_renew (env : Env) (dir_raw name : string) (ttl : option Z) : cmd SessionToken :=
  path ← fallible (named_token env dir_raw name);
  token_io (renew_session_token path ttl (en_now env 0) (en_now env 1) (en_token_write env)).

(** ** Listing tokens *)

Definition token_status (now : Z) (t : TokenInfo) : string :=
  if ti_unreadable t then "unreadable" else if ti_expires_at t <=? now then "expired" else "valid".
Definition expires_within (t : TokenInfo) (now mins : Z) : bool :=
  negb (ti_unreadable t) && (wrap_i64 (ti_expires_at t - now) <? wrap_i64 (wrap_i64 mins * 60)).
Definition fmt_duration (secs : Z) : string :=
  if 86400 <=? secs then show_Z (secs / 86400) +:+ "d"
  else if 3600 <=? secs then show_Z (secs / 3600) +:+ "h"
  else if 60 <=? secs then show_Z (secs / 60) +:+ "m" else show_Z secs +:+ "s".
Definition fmt_remaining (expires_at now : Z) : string :=
  let diff := wrap_i64 (expires_at - now) in
  if diff <=? 0 then "expired"
  else
    let d := diff / 86400 in let h := diff mod 86400 / 3600 in let m := diff mod 3600 / 60 in let s := diff mod 60 in
    if 0 <? d then show_Z d +:+ "d " +:+ show_Z h +:+ "h"
    else if 0 <? h then show_Z h +:+ "h " +:+ show_Z m +:+ "m"
    else if 0 <? m then show_Z m +:+ "m " +:+ show_Z s +:+ "s" else show_Z s +:+ "s".
Definition fmt_utc (ts : Z) : string :=
  if ts =? 0 then "-"
  else
    let '(year, month, day) := civil_from_days (ts / 86400) in
    let secs := ts mod 86400 in
    pad0 4 year +:+ "-" +:+ pad0 2 month +:+ "-" +:+ pad0 2 day +:+ " " +:+ pad0 2 (secs / 3600) +:+ ":" +:+ pad0 2 (secs mod 3600 / 60) +:+ ":" +:+ pad0 2 (secs mod 60).

End Commands.
