(* ===== verification/PassCmdProps.v ===== *)
(** * The password manager is a map, a session and a history

    Over every sequence of commands the program on its three encrypted files
    answers like a machine that keeps the entries in a map, the session in a
    record and the used challenges in a list.  Also: what an exported QR code
    gives back when it is imported. *)

From Stdlib Require Import Ascii String.
From S2P Require Import Prelude RustStr Bytes RustText Sdk StateErr Envelope PassOcra PassVault PassSession PassCmd.

Abbreviation entries := (gmap string EntryPayload).

(** ** The machine *)

Record Machine := MkMachine { m_entries : entries; m_session : option Session; m_history : history }.

(** [Unspecified]: the machine makes no promise: another vault or token, a
    passphrase that is not the vault's, a vault that outgrows its format. *)
Inductive sfault := Known (f : fault) | Unspecified.
Abbreviation spec A := (SE Machine sfault A).

Inductive command :=
| CAdd (env : Env) (args : AddArgs)
| CGet (env : Env) (args : EntryArgs)
| CList (env : Env) (args : EntryArgs)
| CRm (env : Env) (args : EntryArgs)
| CCode (env : Env) (args : CodeArgs)
| CExport (env : Env) (args : EntryArgs) (issuer : option string)
| CImport (env : Env) (args : ImportArgs)
| CUnlock (env : Env) (args : UnlockArgs)
| CLock (env : Env) (session_token : option string) (remove : result string unit).

Inductive output := ODone | OText (s : string) | OEntry (e : EntryPayload) | ONames (l : list (string * string)) | OCount (n : nat).

Definition env_of (c : command) : Env :=
  match c with
  | CAdd env _ | CGet env _ | CList env _ | CRm env _ | CCode env _ | CExport env _ _ | CImport env _ | CUnlock env _ | CLock env _ _ => env
  end.

Section Machines.
Context `{SK : Sdk, VO : VaultOps, TS : TokenSerde, LS : LedgerSerde, OO : OtpOps, CO : CaseOps}.

Definition run_command (c : command) : cmd output :=
  match c with
  | CAdd env args => _ ← cmd_add env args; mret ODone
  | CGet env args => e ← cmd_get env args; mret (OEntry e)
  | CList env args => l ← cmd_list env args; mret (ONames l)
  | CRm env args => _ ← cmd_rm env args; mret ODone
  | CCode env args => s ← cmd_code env args; mret (OText s)
  | CExport env args issuer => s ← cmd_export_qr env args issuer; mret (OText s)
  | CImport env args => _ ← cmd_import_qr env args; mret ODone
  | CUnlock env args => n ← cmd_unlock env args; mret (OCount n)
  | CLock env token remove => _ ← cmd_lock env token remove; mret ODone
  end.

(** The vault's path, the token's path, the key and its derivation. *)
Context (path tpath : string) (master salt : bytes) (tier : MemoryTier).

Definition known {A : Type} (r : result string A) : spec A := lift (map_err (fun e => Known (Failed e)) r).
Definition known_fail {A : Type} (message : string) : spec A := throw (Known (Failed message)).
Definition unspecified {A : Type} : spec A := throw Unspecified.

Definition on_session {A : Type} (f : option Session -> result string A * option Session) : spec A := fun m =>
  let '(r, o) := f (m_session m) in (map_err (fun e => Known (Failed e)) r, MkMachine (m_entries m) o (m_history m)).

(** The same vault and the same token. *)
Definition this_vault (env : Env) (raw : string) : spec unit :=
  p ← known (resolve_vault_path env raw); if bool_decide (p = path) then mret tt else unspecified.
Definition this_token (env : Env) (raw : string) : spec unit :=
  p ← known (resolve_token_path (en_home env) raw); if bool_decide (p = tpath) then mret tt else unspecified.
Definition this_passphrase (env : Env) (passphrase_file : option string) : spec unit :=
  p ← known (resolve_passphrase env passphrase_file);
  if bool_decide (argon2id_derive (chars p) salt tier = Ok master) then mret tt else unspecified.

Definition m_open (env : Env) (vault_raw : string) (passphrase_file session_token : option string) : spec entries :=
  _ ← this_vault env vault_raw;
  match (match session_token with
         | Some p => Some p
         | None => if bool_decide (is_Some passphrase_file) then None else session_token_env env
         end) with
  | Some raw =>
      _ ← this_token env raw;
      _ ← on_session (fun o => (s ← live tpath (en_token_now env) o; Ok tt, o));
      _ ← on_session (auto_rotated tpath (en_rotate env) (en_token_write env));
      gets m_entries
  | None => _ ← this_passphrase env passphrase_file; gets m_entries
  end.

(** The length of the vault file, and what it can hold. *)
Definition json_len (p : EntryPayload) : nat := match payload_to_vec p with Ok b => length b | Err _ => 0 end.
Definition vault_len (es : entries) : nat :=
  (58 + 76 * size es + TAG_SIZE + sum_list (map (fun kv => (json_len (snd kv) + TAG_SIZE)%nat) (in_order es)))%nat.
Definition entry_okb (kv : string * EntryPayload) : bool :=
  String.eqb (ep_name (snd kv)) (fst kv) && negb (String.eqb (fst kv) "") && payload_ok (snd kv).
Definition storable (es : entries) : bool :=
  (8 + 76 * Z.of_nat (size es) + Z.of_nat TAG_SIZE <? 65536) && (Z.of_nat (vault_len es) <=? MAX_VAULT_LEN) && forallb entry_okb (map_to_list es).

Definition m_save (env : Env) (es : entries) : spec unit := fun m =>
  if storable es
  then match en_vault_write env with
       | Ok _ => (Ok tt, MkMachine es (m_session m) (m_history m))
       | Err e => (Err (Known (Failed e)), m)
       end
  else (Err Unspecified, m).

Definition m_put (env : Env) (es : entries) (p : EntryPayload) (url notes : option string) : spec unit :=
  let now := en_now env 0 in
  m_save env (<[ep_name p := stamped p url notes (created_at es (ep_name p) now) now]> es).

(** The entry is new, or may be replaced. *)
Definition m_free (es : entries) (name : string) (force : bool) : spec unit :=
  if bool_decide (is_Some (es !! name)) && negb force then known_fail (already name) else mret tt.
Definition m_entry (es : entries) (name : string) : spec EntryPayload :=
  match es !! name with Some e => mret e | None => known_fail (not_found name) end.

Definition m_add (env : Env) (args : AddArgs) : spec unit :=
  let open := m_open env (aa_vault args) (aa_passphrase_file args) (aa_session_token args) in
  match aa_type args with
  | TPassword =>
      es ← open; _ ← m_free es (aa_name args) (aa_force args);
      secret ← known (resolve_entry_secret env (aa_secret_file args) (aa_secret_stdin args));
      m_put env es (password (aa_name args) secret) (aa_url args) (aa_notes args)
  | TOtp =>
      if negb ((4 <=? aa_digits args) && (aa_digits args <=? 10)) then known_fail ("digits out of range (4..=10): " +:+ show_Z (aa_digits args))
      else
        es ← open; _ ← m_free es (aa_name args) (aa_force args);
        secret ← known (resolve_entry_secret env (aa_secret_file args) (aa_secret_stdin args));
        _ ← known (map_err (fun e => "secret is not valid base32: " +:+ e) (base32_decode secret));
        m_put env es (if aa_hotp args then hotp (aa_name args) secret (aa_counter args) (aa_digits args) (algo_name (aa_algo args))
                      else totp (aa_name args) secret (aa_period args) (aa_digits args) (algo_name (aa_algo args))) (aa_url args) (aa_notes args)
  | TOcra =>
      '(suite_str, suite) ← known (ocra_suite_to_add args);
      raw ← known (ocra_key env args);
      if (length (strip_newline raw) <? 16)%nat
      then known_fail ("OCRA key is " +:+ show_Z (Z.of_nat (length (strip_newline raw))) +:+ " bytes; RFC 6287 requires at least 16 bytes")
      else
        es ← open; _ ← m_free es (aa_name args) (aa_force args);
        m_put env es (ocra (aa_name args) (strip_newline raw) suite_str (os_digits suite) (algo_name (os_algo suite)) (aa_counter args)) (aa_url args) (aa_notes args)
  end.

(** A code: the answer is determined by the entry; a counter that was used
    moves on, and is saved before the code is given out. *)
Definition m_code_otp (env : Env) (args : CodeArgs) : spec string :=
  let ea := ca_entry args in
  es ← m_open env (ea_vault ea) (ea_passphrase_file ea) (ea_session_token ea);
  e ← m_entry es (ea_name ea);
  '(code, e') ← lift (map_err Known (otp_code args (en_now env 0) (en_now env 1) (ea_name ea) e));
  match e' with None => mret code | Some e' => _ ← m_save env (<[ea_name ea := e']> es); mret code end.

(** A vault with these entries: the plan of a response depends on nothing else. *)
Definition holding (es : entries) : OpenVault := MkOpenVault (MkVaultHeader 0 tier salt [] 0) es [] master.

(** Unless forced, a challenge among the last 64 of its entry gets no answer. *)
Definition m_guard (env : Env) (args : CodeArgs) (p : OcraPlan) : spec unit :=
  if ledger_applies p
  then fun m =>
    let r := MkRequest (ea_name (ca_entry args)) (challenge_fingerprint (op_challenge p) (op_counter p)) (en_now env 1) (ca_force args) in
    let '(x, h) := recorded (m_history m) r (en_ledger_write env) in
    (match x with
     | Err e => Err (Known (Failed e))
     | Ok replay => if (replay : bool) && negb (ca_force args) then Err (Known (Failed (replay_refused args (op_counter p)))) else Ok tt
     end, MkMachine (m_entries m) (m_session m) h)
  else mret tt.

Definition m_code_ocra (env : Env) (args : CodeArgs) : spec string :=
  let ea := ca_entry args in
  es ← m_open env (ea_vault ea) (ea_passphrase_file ea) (ea_session_token ea);
  p ← known (ocra_plan args (en_now env 0) (holding es));
  _ ← m_guard env args p;
  code ← known (ocra_code args p);
  if os_has_counter (op_suite p) && bool_decide (ca_counter args = None)
  then
    match es !! ea_name ea, json_set "counter" (JNum (wrap_u64 (op_stored p + 1))) (op_json p) with
    | Some e, Some j' => _ ← m_save env (<[ea_name ea := with_ocra e j' (en_now env 2)]> es); mret code
    | Some _, None => throw (Known Panic)
    | None, _ => unspecified
    end
  else mret code.

(** [code] asks for a vault and for a way to open it. *)
Definition m_ready (env : Env) (args : CodeArgs) (no_vault no_key : string) : spec unit :=
  let ea := ca_entry args in
  if String.eqb (trim (ea_vault ea)) "" then known_fail no_vault
  else if bool_decide (ea_passphrase_file ea = None) && negb (session_token_available env (ea_session_token ea)) then known_fail no_key
  else mret tt.

Definition m_code (env : Env) (args : CodeArgs) : spec string :=
  if ca_ocra args
  then match ca_key_file args, ca_challenge args with
       | Some _, None => known_fail "--ocra --key-file requires --challenge <STRING>"
       | Some key_path, Some challenge =>
           known (compute_ocra_code env key_path challenge (default 0 (ca_counter args)) (default 6 (ca_digits args)) (default Sha1 (ca_algo args)))
       | None, _ => _ ← m_ready env args no_vault_ocra no_key_ocra; m_code_ocra env args
       end
  else _ ← m_ready env args no_vault_otp no_key_otp; m_code_otp env args.

Definition m_import (env : Env) (args : ImportArgs) : spec unit :=
  _ ← this_vault env (ia_vault args);
  uri ← known (raw_uri env (ia_uri args));
  es ← m_open env (ia_vault args) (ia_passphrase_file args) (ia_session_token args);
  i ← known (parse_otpauth uri);
  _ ← m_free es (oi_account i) (ia_force args);
  m_put env es (imported i) None (issuer_note i).

Definition m_unlock (env : Env) (args : UnlockArgs) : spec nat :=
  _ ← known (tier_from_str (ua_tier args));
  _ ← this_vault env (ua_vault args);
  _ ← this_passphrase env (ua_passphrase_file args);
  es ← gets m_entries;
  _ ← match ua_session_token args with
      | None => mret tt
      | Some raw =>
          policy ← known (build_auto_rotate args);
          _ ← this_token env raw;
          _ ← on_session (mint master (ua_session_ttl args) (Some path) policy (en_now env 0) (en_token_write env));
          mret tt
      end;
  mret (size es).

Definition m_lock (env : Env) (session_token : option string) (remove : result string unit) : spec unit :=
  match (match session_token with Some p => Some p | None => session_token_env env end) with
  | None => known_fail "nothing to lock: v0.5 keeps no in-process vault state. Pass --session-token <path> (or set $ORIGIN_PASS_TOKEN) to revoke a persisted session token."
  | Some raw =>
      _ ← this_token env raw;
      on_session (fun o => match o with
                           | None => (Err ("session token not found: " +:+ tpath +:+ " (nothing to revoke)"), o)
                           | Some _ => match map_err (fun e => "cannot remove session token " +:+ tpath +:+ ": " +:+ e) remove with
                                       | Ok _ => (Ok tt, None)
                                       | Err e => (Err e, o)
                                       end
                           end)
  end.

Definition m_get (env : Env) (args : EntryArgs) : spec EntryPayload :=
  es ← m_open env (ea_vault args) (ea_passphrase_file args) (ea_session_token args); e ← m_entry es (ea_name args); mret e.
Definition m_list (env : Env) (args : EntryArgs) : spec (list (string * string)) :=
  es ← m_open env (ea_vault args) (ea_passphrase_file args) (ea_session_token args);
  mret (map (fun kv => (fst kv, payload_kind (snd kv))) (in_order es)).
Definition m_rm (env : Env) (args : EntryArgs) : spec unit :=
  es ← m_open env (ea_vault args) (ea_passphrase_file args) (ea_session_token args);
  _ ← m_entry es (ea_name args); m_save env (delete (ea_name args) es).
Definition m_export (env : Env) (args : EntryArgs) (issuer : option string) : spec string :=
  es ← m_open env (ea_vault args) (ea_passphrase_file args) (ea_session_token args);
  e ← m_entry es (ea_name args); i ← known (export_info issuer (ea_name args) e); mret (otpauth_uri i).

Definition spec_command (c : command) : spec output :=
  match c with
  | CAdd env args => _ ← m_add env args; mret ODone
  | CGet env args => e ← m_get env args; mret (OEntry e)
  | CList env args => l ← m_list env args; mret (ONames l)
  | CRm env args => _ ← m_rm env args; mret ODone
  | CCode env args => s ← m_code env args; mret (OText s)
  | CExport env args issuer => s ← m_export env args issuer; mret (OText s)
  | CImport env args => _ ← m_import env args; mret ODone
  | CUnlock env args => n ← m_unlock env args; mret (OCount n)
  | CLock env token remove => _ ← m_lock env token remove; mret ODone
  end.

End Machines.

(** ** Simulation *)

(** The SDK's operations succeed on arguments of the right lengths. *)
Class CryptoTotal `{VO : VaultOps} : Prop := {
  cb_total k n p a : length k = 32%nat -> length n = 24%nat -> exists c, cb_encrypt k n p a = Ok c;
  hkdf_len m s i : length (hkdf32 m s i) = 32%nat;
  payload_total p : payload_ok p = true -> exists b, payload_to_vec p = Ok b
}.

Definition draws_ok (draw : nat -> result string bytes) : Prop := forall i, exists n, draw i = Ok n /\ length n = 24%nat.
Definition env_ok (env : Env) : Prop := draws_ok (en_draw env) /\ rand_ok (en_rand env).

Section Saving.
Context `{SK : Sdk, VO : VaultOps, HO : !HashOk, VK : !VaultOk, CT : !CryptoTotal}.

Lemma seal_entries_total (draw : nat -> result string bytes) (master : bytes) (i : nat) (es : list (string * EntryPayload)) :
  draws_ok draw -> Forall (fun kv => payload_ok (snd kv) = true) es ->
  exists ed, seal_entries draw master i es = Ok ed /\ length (concat (map snd ed)) = sum_list (map (fun kv => (json_len (snd kv) + TAG_SIZE)%nat) es).
Proof.
  intros Hd Hp. revert i. induction Hp as [|[name p] es Hp _ IH]; intros i; [by exists []|]. cbn [seal_entries map sum_list]. cbn in Hp.
  destruct (Hd i) as (n & En & Hn), (payload_total p Hp) as [js Ej], (IH (S i)) as (ed & Ee & El).
  destruct (cb_total (derive_entry_key master n) n js (build_entry_aad (vault_hash_name name) n)) as [ct Ec]; [apply hkdf_len|done|].
  unfold seal_entry, nonce_draw. rewrite En. cbn [map_err mbind result_mbind]. rewrite Ej. cbn [map_err mbind result_mbind]. rewrite Ec.
  cbn [map_err mbind result_mbind]. destruct (payload_to_type_tag_algo_period_digits p) as [[[t a] per] d]. cbn [mbind result_mbind]. rewrite Ee.
  cbn [mbind result_mbind]. eexists. split; [done|]. cbn [map concat snd]. rewrite length_app, El, (cb_encrypt_len _ _ _ _ _ Ec). unfold json_len. cbn [snd].
  by rewrite Ej.
Qed.

Lemma storable_spec (es : entries) :
  storable es = true -> fits es /\ Z.of_nat (vault_len es) <= MAX_VAULT_LEN /\ forall k p, es !! k = Some p -> entry_ok k p.
Proof.
  unfold storable, fits. intros [[Hf%Z.ltb_lt Hl%Z.leb_le]%andb_prop Ho]%andb_prop. split; [done|]. split; [done|].
  intros k p Hk%elem_of_map_to_list. rewrite forallb_forall in Ho. specialize (Ho (k, p) ltac:(by apply list_elem_of_In)).
  unfold entry_okb in Ho. cbn [fst snd] in Ho. apply andb_prop in Ho as [Ho Hp]. apply andb_prop in Ho as [Hn%String.eqb_eq He].
  split; [done|]. split; [|done]. intros ->. done.
Qed.

(** A vault whose entries fit is written, to a file of the announced length. *)
Lemma vault_bytes_total (draw : nat -> result string bytes) (v : OpenVault) :
  draws_ok draw -> vault_wf v -> exists b, vault_bytes draw v = Ok b /\ length b = vault_len (pv_entries v).
Proof.
  intros Hd Hv. destruct (seal_entries_total draw (pv_master_key v) 0 (in_order (pv_entries v)) Hd) as (ed & Ee & El).
  { eapply Forall_impl; [apply (in_order_named v Hv)|]. by intros kv (_ & _ & H). }
  assert (draws24 draw) as Hd' by (intros i n E; destruct (Hd i) as (n' & E' & Hn); congruence).
  destruct (Hd (length ed)) as (hn & En & Hn). destruct (cb_total (derive_header_key (pv_master_key v)) hn (build_index_bytes (map fst ed)) []) as [hct Ec];
    [apply hkdf_len|done|].
  eexists. split.
  { unfold vault_bytes. rewrite Ee. cbn [mbind result_mbind]. unfold nonce_draw. rewrite En. cbn [map_err mbind result_mbind]. rewrite Ec.
    cbn [map_err mbind result_mbind]. reflexivity. }
  rewrite !length_app, El.
  rewrite header_wire_length by (split; [apply (vw_cipher v Hv)|apply (vw_salt v Hv)|done]).
  pose proof (cb_encrypt_len _ _ _ _ _ Ec) as ->. rewrite index_length.
  - pose proof (seal_entries_sealed draw (pv_master_key v) 0 _ ed Hd' Ee) as Hs%Forall2_length. rewrite length_map, <- Hs, in_order_length.
    unfold vault_len, HEADER_BYTES_LEN. lia.
  - pose proof (seal_entries_sealed draw (pv_master_key v) 0 _ ed Hd' Ee) as Hs. clear -Hs. induction Hs as [|e s es ed H _ IH]; constructor; [by apply H|done].
Qed.
End Saving.

Section Simulation.
Context `{SK : Sdk, VO : VaultOps, TS : TokenSerde, LS : LedgerSerde, OO : OtpOps, CO : CaseOps}.
Context `{HO : !HashOk, HX : !HexOk, VK : !VaultOk, CT : !CryptoTotal, TK : !TokenOk, LO : !LedgerOk}.
Context (path tpath : string) (master salt : bytes) (tier : MemoryTier).

Definition vault_holds (es : entries) (f : file) : Prop :=
  exists hd b ms, f = Some (Ok b) /\ read_vault_file path f = Ok (hd, b) /\ vh_kdf_salt hd = salt /\ vh_kdf_tier hd = tier /\
    decrypt_vault hd b master = Some (Ok (MkOpenVault hd es ms master)).

(** The files stand for the machine. *)
Record shows (h : Host) (m : Machine) : Prop := {
  sh_vault : vault_holds (m_entries m) (h_vault h);
  sh_token : holds_session (m_session m) (h_token h);
  sh_key : forall s, m_session m = Some s -> ss_master s = master;
  sh_ledger : stands_for (m_history m) (h_ledger h)
}.

Definition sim {A B : Type} (Q : A -> B -> Prop) (c : cmd A) (a : spec B) : Prop :=
  forall h m, shows h m ->
  match a m with
  | (Err Unspecified, _) => True
  | (Err (Known f), m') => exists h', c h = (Err f, h') /\ shows h' m'
  | (Ok b, m') => exists x h', c h = (Ok x, h') /\ Q x b /\ shows h' m'
  end.

Lemma sim_bind {A B C D : Type} (Q : A -> B -> Prop) (P : C -> D -> Prop) (c : cmd A) (a : spec B) (k : A -> cmd C) (l : B -> spec D) :
  sim Q c a -> (forall x b, Q x b -> sim P (k x) (l b)) -> sim P (c ≫= k) (a ≫= l).
Proof.
  intros Hc Hk h m Hm. specialize (Hc h m Hm). unfold mbind, SE_mbind. destruct (a m) as [[b|[f|]] m'].
  - destruct Hc as (x & h' & -> & Hq & Hm'). by apply Hk.
  - destruct Hc as (h' & -> & Hm'). by exists h'.
  - done.
Qed.
Lemma sim_ret {A B : Type} (Q : A -> B -> Prop) (x : A) (b : B) : Q x b -> sim Q (mret x) (mret b).
Proof. intros H h m Hm. by exists x, h. Qed.
Lemma sim_known {A : Type} (r : result string A) : sim eq (fallible r) (known r).
Proof. intros h m Hm. destruct r as [a|e]; cbn; [by exists a, h|by exists h]. Qed.
Lemma sim_fail {A B : Type} (Q : A -> B -> Prop) (s : string) : sim Q (fail s) (known_fail s).
Proof. intros h m Hm. by exists h. Qed.
Lemma sim_lift {A : Type} (r : result fault A) : sim eq (lift r) (lift (map_err Known r)).
Proof. intros h m Hm. destruct r as [a|e]; cbn; [by exists a, h|by exists h]. Qed.
Lemma sim_unspecified {A B : Type} (Q : A -> B -> Prop) (c : cmd A) : sim Q c unspecified.
Proof. intros h m Hm. done. Qed.
Lemma sim_conseq {A B : Type} (Q P : A -> B -> Prop) (c : cmd A) (a : spec B) : (forall x b, Q x b -> P x b) -> sim Q c a -> sim P c a.
Proof.
  intros Hi H h m Hm. specialize (H h m Hm). destruct (a m) as [[b|[f|]] m']; [|done..]. destruct H as (x & h' & E & Hq & Hm'). exists x, h'. auto.
Qed.
(** A check that the machine makes later: at once in [a]. *)
Lemma sim_skip {A B U : Type} (Q : A -> B -> Prop) (r : result string U) (c : cmd A) (a : spec B) :
  (forall e, r = Err e -> forall m, a m = (Err (Known (Failed e)), m)) -> sim Q c a -> sim Q (_ ← fallible r; c) a.
Proof.
  intros He H. destruct r as [u|e]; [exact H|]. intros h m Hm. rewrite (He e eq_refl m). by exists h.
Qed.

(** ** The operations *)

Lemma sim_token {A B : Type} (Q : A -> B -> Prop) (f : file -> result string A * file) (g : option Session -> result string B * option Session) :
  (forall o x, holds_session o x -> (forall s, o = Some s -> ss_master s = master) ->
     let '(r, x') := f x in let '(r', o') := g o in
     match r, r' with Ok a, Ok b => Q a b | Err e, Err e' => e = e' | _, _ => False end /\ holds_session o' x' /\ (forall s, o' = Some s -> ss_master s = master)) ->
  sim Q (token_io f) (on_session g).
Proof.
  intros H h m [Hv Ht Hk Hl]. specialize (H _ _ Ht Hk). unfold token_io, on_session. destruct (f (h_token h)) as [r x'], (g (m_session m)) as [r' o'].
  destruct H as (Hq & Ht' & Hk'). destruct r as [a|e], r' as [b|e']; cbn; try done; [|subst e'].
  - eexists _, _. split; [done|]. split; [done|]. by split.
  - eexists. split; [done|]. by split.
Qed.

(** What the session machinery of [PassSession] gives. *)
Lemma answered {A : Type} (x : result string A * file) (y : result string unit * option Session) :
  (let '(r, f') := x in let '(r', o') := y in answer (fun _ => tt) (r, f') = (r', f') /\ holds_session o' f') ->
  let '(r, f') := x in let '(r', o') := y in
  match r, r' with Ok a, Ok b => True | Err e, Err e' => e = e' | _, _ => False end /\ holds_session o' f'.
Proof. destruct x as [[a|e] f'], y as [r' o']; intros [E H]; cbn in E; injection E as <-; done. Qed.

Lemma mint_key (mk : bytes) (ttl : Z) (vault : option string) (policy : option AutoRotateConfig) (now : Z) (write : result string unit) (o : option Session) :
  mk = master -> (forall s, o = Some s -> ss_master s = master) -> forall s, snd (mint mk ttl vault policy now write o) = Some s -> ss_master s = master.
Proof. intros -> Ho s. unfold mint, grant. destruct (ttl =? 0); [apply Ho|]. destruct write; cbn; [by intros [= <-]|apply Ho]. Qed.

Lemma auto_key (clock : RotateClock) (write : result string unit) (o : option Session) :
  (forall s, o = Some s -> ss_master s = master) -> forall s, snd (auto_rotated tpath clock write o) = Some s -> ss_master s = master.
Proof.
  intros Ho. unfold auto_rotated. destruct (live tpath (rc_parse clock) o) as [[mk c x v [cfg|]]|]; [|exact Ho..]. destruct (_ <=? _); [exact Ho|].
  unfold rotated. destruct (live tpath (rc_reparse clock) o) as [s0|] eqn:El; [|exact Ho]. apply mint_key; [|exact Ho].
  destruct o as [s1|]; [|done]. cbn in El. destruct (_ <=? _); [done|]. injection El as <-. by apply Ho.
Qed.

Lemma sim_check {A : Type} (P : A -> Prop) `{!forall a, Decision (P a)} (r : result string A) :
  sim (fun a _ => P a) (fallible r) (a ← known r; if bool_decide (P a) then mret tt else unspecified).
Proof.
  intros h m Hm. unfold known, fallible, mbind, SE_mbind, lift. destruct r as [a|e]; cbn [map_err]; [|by exists h].
  destruct (bool_decide_reflect (P a)); [by exists a, h|exact I].
Qed.
Lemma sim_this_vault (env : Env) (raw : string) : sim (fun p _ => p = path) (fallible (resolve_vault_path env raw)) (this_vault path env raw).
Proof. apply (sim_check (fun p => p = path)). Qed.
Lemma sim_this_token (env : Env) (raw : string) : sim (fun p _ => p = tpath) (fallible (resolve_token_path (en_home env) raw)) (this_token tpath env raw).
Proof. apply (sim_check (fun p => p = tpath)). Qed.
Lemma sim_this_passphrase (env : Env) (pf : option string) :
  sim (fun p _ => argon2id_derive (chars p) salt tier = Ok master) (fallible (resolve_passphrase env pf)) (this_passphrase master salt tier env pf).
Proof. apply (sim_check (fun p => argon2id_derive (chars p) salt tier = Ok master)). Qed.

(** An open vault with these entries. *)
Record opened (v : OpenVault) (es : entries) : Prop := {
  od_entries : pv_entries v = es;
  od_key : pv_master_key v = master;
  od_cipher : vh_cipher_suite (pv_header v) = CIPHER_CHACHA20_BLAKE3;
  od_salt : vh_kdf_salt (pv_header v) = salt;
  od_tier : vh_kdf_tier (pv_header v) = tier;
  od_wf : vault_wf v
}.

Lemma vault_holds_opens (es : entries) (f : file) :
  vault_holds es f -> exists v, unlock_vault_with_key path master f = Some (Ok v) /\ opened v es /\
    forall p, argon2id_derive (chars p) salt tier = Ok master -> unlock_vault path p f = Some (Ok v).
Proof.
  intros (hd & b & ms & -> & R & <- & <- & D). exists (MkOpenVault hd es ms master). unfold unlock_vault_with_key, unlock_vault. rewrite R.
  split; [exact D|]. destruct (unlocked_wf _ _ _ _ _ _ R D) as (W & _). split; [split; [done|done|apply (vw_cipher _ W)|done|done|done]|].
  intros p Ep. by rewrite Ep.
Qed.

Lemma sim_unlock_key : sim opened (data ← gets h_vault; may_panic (unlock_vault_with_key path master data)) (gets m_entries).
Proof.
  intros h m Hm. destruct (vault_holds_opens _ _ (sh_vault _ _ Hm)) as (v & E & Ho & _). exists v, h. split; [|done].
  unfold mbind, SE_mbind, gets, may_panic, lift. by rewrite E.
Qed.
Lemma sim_unlock_pass (p : string) :
  argon2id_derive (chars p) salt tier = Ok master -> sim opened (data ← gets h_vault; may_panic (unlock_vault path p data)) (gets m_entries).
Proof.
  intros Hp h m Hm. destruct (vault_holds_opens _ _ (sh_vault _ _ Hm)) as (v & _ & Ho & E). exists v, h. split; [|done].
  unfold mbind, SE_mbind, gets, may_panic, lift. by rewrite (E p Hp).
Qed.

Lemma sim_read (env : Env) :
  sim (fun mk _ => mk = master) (token_io (fun f => (read_session_token tpath (en_token_now env) f, f)))
    (on_session (fun o => (s ← live tpath (en_token_now env) o; Ok tt, o))).
Proof.
  apply sim_token. intros o x Ho Hk. unfold read_session_token. pose proof (parse_spec tpath (en_token_now env) o x Ho) as Hp.
  destruct (live tpath (en_token_now env) o) as [s|e] eqn:El; cbn [mbind result_mbind]; [|by rewrite Hp]. destruct Hp as (t & -> & Ht). cbn [mbind result_mbind].
  rewrite (to_key _ _ Ht). split; [|done]. destruct o as [s'|]; [|done]. cbn in El. destruct (_ <=? _); [done|]. injection El as <-. by apply Hk.
Qed.

Lemma sim_auto_rotate (env : Env) :
  env_ok env -> sim (fun _ _ => True) (token_io (maybe_auto_rotate tpath (en_rotate env) (en_rand env) (en_token_write env)))
    (on_session (auto_rotated tpath (en_rotate env) (en_token_write env))).
Proof.
  intros [_ Hr]. apply sim_token. intros o x Ho Hk. pose proof (answered _ _ (auto_rotate_spec tpath (en_rotate env) (en_rand env) (en_token_write env) o x Hr Ho)) as H.
  pose proof (auto_key (en_rotate env) (en_token_write env) o Hk) as Hk'.
  destruct (maybe_auto_rotate _ _ _ _ _) as [r x'], (auto_rotated _ _ _ _) as [r' o']. destruct H as [Hq Ht]. by repeat split.
Qed.

Lemma sim_open (env : Env) (raw : string) (pf st : option string) :
  env_ok env -> sim opened (unlock_vault_with_args env raw pf st) (m_open path tpath master salt tier env raw pf st).
Proof.
  intros He. unfold unlock_vault_with_args, m_open. eapply sim_bind; [apply sim_this_vault|]. intros p u ->. cbn zeta.
  destruct (match st with Some p => Some p | None => _ end) as [tok|].
  - eapply sim_bind; [apply sim_this_token|]. intros tp u' ->. eapply sim_bind; [apply sim_read|]. intros mk u'' ->.
    eapply sim_bind; [by apply sim_auto_rotate|]. intros _ _ _. apply sim_unlock_key.
  - eapply sim_bind; [apply sim_this_passphrase|]. intros p u' Hp. by apply sim_unlock_pass.
Qed.

Lemma open_no_path {B : Type} (env : Env) (raw : string) (pf st : option string) (k : entries -> spec B) (e : string) (m : Machine) :
  resolve_vault_path env raw = Err e -> (m_open path tpath master salt tier env raw pf st ≫= k) m = (Err (Known (Failed e)), m).
Proof. intros E. unfold m_open, this_vault, known, mbind, SE_mbind, lift. by rewrite E. Qed.

Lemma sim_save (env : Env) (v : OpenVault) (es : entries) :
  env_ok env -> pv_entries v = es -> pv_master_key v = master -> vh_cipher_suite (pv_header v) = CIPHER_CHACHA20_BLAKE3 ->
  vh_kdf_salt (pv_header v) = salt -> vh_kdf_tier (pv_header v) = tier -> length salt = KDF_SALT_LEN -> length master = 32%nat ->
  sim eq (persist env v) (m_save env es).
Proof.
  intros [Hd _] He Hk Hc Hs Ht Hsl Hml h m Hm. unfold m_save. destruct (storable es) eqn:Est; [|done].
  apply storable_spec in Est as (Hf & Hl & Ho).
  assert (vault_wf v) as Hw by (split; [done|by rewrite Hs|by rewrite Hk|by rewrite He]).
  destruct (vault_bytes_total (en_draw env) v Hd Hw) as (b & Eb & Hb). unfold persist, vault_io, persist_vault. rewrite Eb. unfold vault_write_atomic.
  destruct (en_vault_write env) as [[]|e]; cbn [map_err].
  - eexists tt, _. split; [done|]. split; [done|]. destruct Hm as [Hv' Ht' Hk' Hl']. split; cbn [m_entries m_session m_history h_vault h_token h_ledger]; [|done..].
    assert (draws24 (en_draw env)) as Hd' by (intros i n E; destruct (Hd i) as (n' & E' & Hn); congruence).
    destruct (persisted_unlocks path (en_draw env) v b Hd' Hw Eb) as (hd & ms & R & S & T & D); [rewrite Hb, He; done|by rewrite He|].
    exists hd, b, ms. rewrite Hs in S. rewrite Ht in T. rewrite Hk, He in D. done.
  - eexists. split; [done|]. by destruct h.
Qed.

Lemma sim_put (env : Env) (v : OpenVault) (es : entries) (p : EntryPayload) (url notes : option string) :
  env_ok env -> length salt = KDF_SALT_LEN -> length master = 32%nat -> opened v es -> sim eq (finish_add env v p url notes) (m_put env es p url notes).
Proof.
  intros He Hs Hm [E1 E2 E3 E4 E5 _]. unfold finish_add, m_put. rewrite <- E1. by apply sim_save.
Qed.

Lemma sim_guard (env : Env) (args : CodeArgs) (p : OcraPlan) : sim (fun _ _ => True) (ocra_guard env path args p) (m_guard env args p).
Proof.
  unfold ocra_guard, m_guard. destruct (ledger_applies p); [|by apply sim_ret]. intros h m [Hv Ht Hk Hl].
  set (r := MkRequest _ _ _ _). destruct (record_use_step path r (en_ledger_write env) (m_history m) (h_ledger h) Hl) as (f' & E & Hl').
  unfold mbind, SE_mbind, ledger_io. cbn [r rq_entry rq_fp rq_at rq_force] in E. rewrite E. destruct (recorded (m_history m) r (en_ledger_write env)) as [[b|e] h'].
  - cbn [fst snd map_err] in *. destruct (b && negb (ca_force args)); [|eexists tt, _; split; [done|]; split; [done|]; by split]. eexists. split; [done|]. by split.
  - cbn [fst snd map_err] in *. eexists. split; [done|]. by split.
Qed.

(** ** The commands *)

Context (Hsalt : length salt = KDF_SALT_LEN) (Hmaster : length master = 32%nat).

Lemma sim_free {A B : Type} (Q : A -> B -> Prop) (v : OpenVault) (es : entries) (name : string) (force : bool) (c : cmd A) (a : spec B) :
  opened v es -> sim Q c a ->
  sim Q (if bool_decide (is_Some (pv_entries v !! name)) && negb force then fail (already name) else c) (_ ← m_free es name force; a).
Proof.
  intros [<- _ _ _ _ _] H. unfold m_free. destruct (bool_decide _ && negb force); [|exact H]. intros h m Hm. by exists h.
Qed.
Lemma sim_entry {A B : Type} (Q : A -> B -> Prop) (v : OpenVault) (es : entries) (name : string) (k : EntryPayload -> cmd A) (l : EntryPayload -> spec B) :
  opened v es -> (forall e, es !! name = Some e -> sim Q (k e) (l e)) ->
  sim Q (match pv_entries v !! name with Some e => k e | None => fail (not_found name) end) (e ← m_entry es name; l e).
Proof.
  intros [<- _ _ _ _ _] H. unfold m_entry. destruct (pv_entries v !! name) as [e|] eqn:E; [by apply H|]. intros h m Hm. by exists h.
Qed.
Lemma sim_eq {A B C : Type} (P : B -> C -> Prop) (c : cmd A) (a : spec A) (k : A -> cmd B) (l : A -> spec C) :
  sim eq c a -> (forall x, sim P (k x) (l x)) -> sim P (c ≫= k) (a ≫= l).
Proof. intros H1 H2. eapply sim_bind; [exact H1|]. by intros x _ <-. Qed.

Ltac opening := first [apply sim_skip; [intros; by apply open_no_path|] | idtac]; eapply sim_bind; [by apply sim_open|]; intros v es Hv.

Lemma sim_add (env : Env) (args : AddArgs) : env_ok env -> sim eq (cmd_add env args) (m_add path tpath master salt tier env args).
Proof.
  intros He. unfold cmd_add, m_add. destruct (aa_type args).
  - unfold cmd_add_password. opening. apply sim_free; [done|]. apply sim_eq; [apply sim_known|]. intros secret. by apply sim_put.
  - unfold cmd_add_otp. destruct (negb _); [apply sim_fail|]. opening. apply sim_free; [done|]. apply sim_eq; [apply sim_known|]. intros secret.
    apply sim_eq; [apply sim_known|]. intros _. by apply sim_put.
  - unfold cmd_add_ocra. apply sim_eq; [apply sim_known|]. intros [suite_str suite]. apply sim_eq; [apply sim_known|]. intros raw. cbn zeta.
    destruct (_ <? _)%nat; [apply sim_fail|]. opening. apply sim_free; [done|]. by apply sim_put.
Qed.

Lemma sim_code_otp (env : Env) (args : CodeArgs) :
  env_ok env -> sim eq (cmd_code_otp env args) (_ ← m_ready env args no_vault_otp no_key_otp; m_code_otp path tpath master salt tier env args).
Proof.
  intros He. unfold cmd_code_otp, m_ready, m_code_otp. cbn zeta. destruct (String.eqb _ _); [apply sim_fail|]. destruct (_ && _); [apply sim_fail|].
  change (mret tt ≫= fun _ : unit => ?x) with x. opening.
  apply (sim_entry eq v es (ea_name (ca_entry args))
    (fun e => '(code, e') ← lift (otp_code args (en_now env 0) (en_now env 1) (ea_name (ca_entry args)) e);
              match e' with None => mret code | Some e' => _ ← persist env (set_entries v (<[ea_name (ca_entry args) := e']> (pv_entries v))); mret code end)); [done|].
  intros e Ee. apply sim_eq; [apply sim_lift|]. intros [code [e'|]]; [|by apply sim_ret]. apply sim_eq; [|intros; by apply sim_ret].
  destruct Hv as [<- E2 E3 E4 E5 _]. by apply sim_save.
Qed.

Lemma plan_holding (args : CodeArgs) (now : Z) (v : OpenVault) (es : entries) :
  opened v es -> ocra_plan args now v = ocra_plan args now (holding master salt tier es).
Proof. intros [<- _ _ _ _ _]. done. Qed.

Lemma sim_code_ocra (env : Env) (args : CodeArgs) :
  env_ok env -> ca_key_file args = None ->
  sim eq (cmd_code_ocra env args) (_ ← m_ready env args no_vault_ocra no_key_ocra; m_code_ocra path tpath master salt tier env args).
Proof.
  intros He Hkf. unfold cmd_code_ocra, m_ready, m_code_ocra. rewrite Hkf. cbn zeta. destruct (String.eqb _ _); [apply sim_fail|]. destruct (_ && _); [apply sim_fail|].
  change (mret tt ≫= fun _ : unit => ?x) with x.
  destruct (resolve_vault_path env (ea_vault (ca_entry args))) as [p|e] eqn:Ep.
  2: { intros h m Hm. rewrite (open_no_path env (ea_vault (ca_entry args)) _ _ _ e m Ep). by exists h. }
  change (fallible (Ok p) ≫= ?k) with (k p). cbn beta.
  assert (p = path \/ p <> path) as [->|Hp] by (destruct (decide (p = path)); auto).
  2: { intros h m Hm. unfold m_open, this_vault, known, mbind, SE_mbind, lift. rewrite Ep. cbn [map_err]. by rewrite bool_decide_false by done. }
  opening. apply sim_bind with (Q := eq); [rewrite (plan_holding _ _ _ _ Hv); apply sim_known|]. intros pl _ <-.
  eapply sim_bind; [apply sim_guard|]. intros _ _ _. apply sim_eq; [apply sim_known|]. intros code. unfold ocra_advance. destruct (_ && _); [|by apply sim_ret].
  destruct Hv as [<- E2 E3 E4 E5 _]. destruct (pv_entries v !! ea_name (ca_entry args)) as [e|]; [|apply sim_unspecified].
  destruct (json_set _ _ _) as [j'|]; [|intros h m Hm; by exists h]. apply sim_eq; [by apply sim_save|]. intros; by apply sim_ret.
Qed.

Lemma sim_code (env : Env) (args : CodeArgs) : env_ok env -> sim eq (cmd_code env args) (m_code path tpath master salt tier env args).
Proof.
  intros He. unfold cmd_code, m_code. destruct (ca_ocra args); [|by apply sim_code_otp]. destruct (ca_key_file args) as [kf|] eqn:Ek; [|by apply sim_code_ocra].
  unfold cmd_code_ocra. rewrite Ek. destruct (ca_challenge args); [apply sim_known|apply sim_fail].
Qed.

Lemma sim_import (env : Env) (args : ImportArgs) : env_ok env -> sim eq (cmd_import_qr env args) (m_import path tpath master salt tier env args).
Proof.
  intros He. unfold cmd_import_qr, m_import. eapply sim_bind; [apply sim_this_vault|]. intros p u ->. apply sim_eq; [apply sim_known|]. intros uri.
  eapply sim_bind; [by apply sim_open|]. intros v es Hv. apply sim_eq; [apply sim_known|]. intros i. apply sim_free; [done|]. by apply sim_put.
Qed.

Lemma sim_mint (env : Env) (ttl : Z) (vault : option string) (policy : option AutoRotateConfig) :
  env_ok env -> sim (fun _ _ => True) (token_io (write_session_token master ttl vault policy (en_now env 0) (en_rand env) (en_token_write env)))
    (on_session (mint master ttl vault policy (en_now env 0) (en_token_write env))).
Proof.
  intros [_ Hr]. apply sim_token. intros o x Ho Hk. pose proof (answered _ _ (mint_spec master ttl vault policy (en_now env 0) (en_rand env) (en_token_write env) o x Hmaster Hr Ho)) as H.
  pose proof (mint_key master ttl vault policy (en_now env 0) (en_token_write env) o eq_refl Hk) as Hk'.
  destruct (write_session_token _ _ _ _ _ _ _ _) as [r x'], (mint _ _ _ _ _ _ _) as [r' o']. destruct H as [Hq Ht]. by repeat split.
Qed.

Lemma sim_unlock (env : Env) (args : UnlockArgs) : env_ok env -> sim eq (cmd_unlock env args) (m_unlock path tpath master salt tier env args).
Proof.
  intros He. unfold cmd_unlock, m_unlock. apply sim_eq; [apply sim_known|]. intros _. eapply sim_bind; [apply sim_this_vault|]. intros p u ->.
  eapply sim_bind; [apply sim_this_passphrase|]. intros p u' Hp.
  change (gets h_vault ≫= fun data => may_panic (unlock_vault path p data) ≫= ?k) with ((data ← gets h_vault; may_panic (unlock_vault path p data)) ≫= k).
  eapply sim_bind; [by apply sim_unlock_pass|]. intros v es [<- -> _ _ _ _]. apply sim_eq; [|intros; by apply sim_ret].
  destruct (ua_session_token args) as [raw|]; [|by apply sim_ret]. apply sim_eq; [apply sim_known|]. intros policy.
  eapply sim_bind; [apply sim_this_token|]. intros tp u'' _. eapply sim_bind; [by apply sim_mint|]. intros. by apply sim_ret.
Qed.

Lemma sim_lock (env : Env) (token : option string) (remove : result string unit) : sim eq (cmd_lock env token remove) (m_lock tpath env token remove).
Proof.
  unfold cmd_lock, m_lock. destruct (match token with Some p => Some p | None => _ end) as [raw|]; [|apply sim_fail].
  eapply sim_bind; [apply sim_this_token|]. intros tp u ->. apply sim_token. intros o x Ho Hk. unfold revoke_session_token.
  destruct o as [s|]; cbn [holds_session] in Ho; [|by subst x]. destruct Ho as (t & b & -> & Et & Ht).
  destruct remove as [[]|e]; cbn [map_err]; [by repeat split|]. split; [done|]. split; [by exists t, b|done].
Qed.

Lemma sim_get (env : Env) (args : EntryArgs) : env_ok env -> sim eq (cmd_get env args) (m_get path tpath master salt tier env args).
Proof.
  intros He. unfold cmd_get, m_get. opening. apply (sim_entry eq v es (ea_name args) mret); [done|]. intros. by apply sim_ret.
Qed.
Lemma sim_list (env : Env) (args : EntryArgs) : env_ok env -> sim eq (cmd_list env args) (m_list path tpath master salt tier env args).
Proof. intros He. unfold cmd_list, m_list. opening. apply sim_ret. by rewrite (od_entries _ _ Hv). Qed.
Lemma sim_rm (env : Env) (args : EntryArgs) : env_ok env -> sim eq (cmd_rm env args) (m_rm path tpath master salt tier env args).
Proof.
  intros He. unfold cmd_rm, m_rm. opening. apply (sim_entry eq v es (ea_name args) (fun _ => persist env (set_entries v (delete (ea_name args) (pv_entries v))))); [done|].
  intros. destruct Hv as [<- E2 E3 E4 E5 _]. by apply sim_save.
Qed.
Lemma sim_export (env : Env) (args : EntryArgs) (issuer : option string) :
  env_ok env -> sim eq (cmd_export_qr env args issuer) (m_export path tpath master salt tier env args issuer).
Proof.
  intros He. unfold cmd_export_qr, m_export. opening.
  apply (sim_entry eq v es (ea_name args) (fun e => i ← fallible (export_info issuer (ea_name args) e); mret (otpauth_uri i))); [done|].
  intros. apply sim_eq; [apply sim_known|]. intros. by apply sim_ret.
Qed.

Lemma sim_command (c : command) : env_ok (env_of c) -> sim eq (run_command c) (spec_command path tpath master salt tier c).
Proof.
  intros He. destruct c; cbn [run_command spec_command env_of] in *; (apply sim_eq; [|intros; by apply sim_ret]);
    [by apply sim_add|by apply sim_get|by apply sim_list|by apply sim_rm|by apply sim_code|by apply sim_export|by apply sim_import|by apply sim_unlock|by apply sim_lock].
Qed.

Lemma sim_run (cs : list command) (h : Host) (m : Machine) (rs : list (result fault output)) :
  Forall (fun c => env_ok (env_of c)) cs -> shows h m ->
  fst (run_all (spec_command path tpath master salt tier) cs m) = map (map_err Known) rs -> fst (run_all run_command cs h) = rs.
Proof.
  intros Hcs. revert h m rs. induction Hcs as [|c cs Hc _ IH]; intros h m rs Hm E; cbn [run_all] in *; [by destruct rs|].
  pose proof (sim_command c Hc h m Hm) as H. destruct (spec_command path tpath master salt tier c m) as [r m'].
  destruct (run_all (spec_command path tpath master salt tier) cs m') as [srs m''] eqn:Er. cbn in E. destruct rs as [|r' rs]; [done|]. injection E as E1 E2.
  specialize (fun h' Hm' => IH h' m' rs Hm'). rewrite Er in IH. cbn in IH.
  destruct r as [o|[f|]], r' as [o'|f']; cbn in E1; try done.
  - injection E1 as <-. destruct H as (x & h' & -> & -> & Hm'). specialize (IH h' Hm' E2). destruct (run_all run_command cs h') as [crs h'']. cbn in *. by rewrite IH.
  - injection E1 as <-. destruct H as (h' & -> & Hm'). specialize (IH h' Hm' E2). destruct (run_all run_command cs h') as [crs h'']. cbn in *. by rewrite IH.
Qed.
End Simulation.

(** From a new vault. *)
Lemma init_shows `{SK : Sdk, VO : VaultOps, TS : TokenSerde, LS : LedgerSerde, HO : !HashOk, VK : !VaultOk}
    (path pass : string) (tier : MemoryTier) (salt b : bytes) (draw : nat -> result string bytes) :
  draws24 draw -> length salt = KDF_SALT_LEN -> 8 + Z.of_nat TAG_SIZE < 65536 ->
  init_vault path pass tier (Ok tt) (Ok salt) draw (Ok tt) None = (Ok tt, Some (Ok b)) -> Z.of_nat (length b) <= MAX_VAULT_LEN ->
  exists master, argon2id_derive (chars pass) salt tier = Ok master /\ length master = 32%nat /\
    shows path master salt tier (MkHost (Some (Ok b)) None None) (MkMachine ∅ None ∅).
Proof.
  intros Hd Hsalt Ht C Hs. destruct (init_fresh path pass tier salt b draw Hd Hsalt C Hs Ht) as (m & h & ms & Ea & Hm & R & S & T & D).
  exists m. split; [done|]. split; [done|]. split; cbn; [by exists h, b, ms|done|done|]. exists default_ledger. split; [by left|done].
Qed.

(** C27: The password manager over any sequence of commands, from a new vault: what
    it answers is what the machine answers that keeps the entries in a map,
    the session in a record and the used challenges in a list, for as long as
    the machine promises an answer. *)
Theorem password_manager_refines `{SK : Sdk, VO : VaultOps, TS : TokenSerde, LS : LedgerSerde, OO : OtpOps, CO : CaseOps,
    HO : !HashOk, HX : !HexOk, VK : !VaultOk, CT : !CryptoTotal, TK : !TokenOk, LO : !LedgerOk}
    (path tpath pass : string) (tier : MemoryTier) (salt b master : bytes) (draw : nat -> result string bytes) (cs : list command) (rs : list (result fault output)) :
  draws_ok draw -> length salt = KDF_SALT_LEN -> 8 + Z.of_nat TAG_SIZE < 65536 ->
  init_vault path pass tier (Ok tt) (Ok salt) draw (Ok tt) None = (Ok tt, Some (Ok b)) -> Z.of_nat (length b) <= MAX_VAULT_LEN ->
  argon2id_derive (chars pass) salt tier = Ok master -> Forall (fun c => env_ok (env_of c)) cs ->
  fst (run_all (spec_command path tpath master salt tier) cs (MkMachine ∅ None ∅)) = map (map_err Known) rs ->
  fst (run_all run_command cs (MkHost (Some (Ok b)) None None)) = rs.
Proof.
  intros Hd Hs Ht Ei Hb Ea Hcs E. assert (draws24 draw) as Hd' by (intros i n E'; destruct (Hd i) as (n' & E'' & Hn); congruence).
  destruct (init_shows path pass tier salt b draw Hd' Hs Ht Ei Hb) as (m & Ea' & Hm & Hsh). assert (m = master) as -> by congruence.
  by apply (sim_run path tpath master salt tier Hs Hm cs _ _ rs Hcs Hsh).
Qed.

(** ** A concrete run *)

Module ToyPass.
Definition otp : OtpOps := {|
  base32_decode s := Ok (chars s);
  hotp_value _ c _ _ := c;
  totp_value _ now period _ _ := now / period;
  format_code v d := show_Z v +:+ "/" +:+ show_Z d;
  ocra_response _ r d _ := Ok (rq_counter r + Z.of_nat (length (rq_challenge r)), d) |}.
Definition case : CaseOps := {| to_uppercase s := s; to_lowercase s := s |}.

#[global] Instance total : @CryptoTotal ToyVault.ops.
Proof.
  split; [by intros; eexists|done|]. intros p Hp. cbn. unfold ToyVault.to_vec. rewrite Hp. by eexists.
Qed.

Definition env (t : Z) : Env :=
  MkEnv (Some "/home/u") None (fun f => if String.eqb f "pw" then Ok "old" else Err "no file") (fun _ => Ok (replicate 20 (byte_of 7))) (Ok "ABCD")
    (Err "closed") (fun _ => Err "no terminal") (fun i => t + Z.of_nat i) t (ToyToken.clock t) (ToyToken.rand t) (Ok tt) ToyVault.draw (Ok tt) (Ok tt).
Lemma env_fine (t : Z) : env_ok (env t).
Proof. split; [|apply ToyToken.rand_fine]. intros i. by eexists. Qed.

Definition by_token (name : string) : EntryArgs := MkEntryArgs "v" name None (Some "work").
Definition add (ty : EntryType) (name : string) (suite : option string) : AddArgs :=
  MkAddArgs "v" name ty (Some "pw") None suite None None (if bool_decide (is_Some suite) then Some "key" else None) true false 30 6 Sha1 7 true.
Definition code (name : string) (ocra : bool) (challenge : option string) : CodeArgs :=
  MkCodeArgs (by_token name) None None ocra challenge None None None false.

Definition commands : list command :=
  [ CUnlock (env 0) (MkUnlockArgs "v" "nano" (Some "pw") (Some "work") 100 false None None);
    CAdd (env 1) (add TOtp "mail" None);
    CCode (env 2) (code "mail" false None);
    CCode (env 3) (code "mail" false None);
    CAdd (env 4) (add TOcra "bank" (Some "OCRA-1:HOTP-SHA1-6:QN08"));
    CCode (env 5) (code "bank" true (Some "123"));
    CCode (env 6) (code "bank" true (Some "123"));
    CList (env 7) (by_token "");
    CRm (env 8) (by_token "bank");
    CLock (env 9) (Some "work") (Ok tt);
    CGet (env 10) (by_token "mail") ].

Definition answers : list (result fault output) :=
  [ Ok (OCount 0); Ok ODone; Ok (OText "7/6"); Ok (OText "8/6"); Ok ODone; Ok (OText "3/6");
    Err (Failed "OCRA replay detected: challenge `123` (counter 0) was already used for entry 'bank' — refusing to re-issue. Pass --force to override.");
    Ok (ONames [("bank", "ocra"); ("mail", "hotp")]); Ok ODone; Ok ODone;
    Err (Failed "cannot read session token /home/u/.origin/tokens/work.token: not found") ].
End ToyPass.

Lemma password_manager_refines_witness :
  fst (run_all (@run_command Toy.sdk ToyVault.ops ToyToken.serde ToyLedger.serde ToyPass.otp ToyPass.case) ToyPass.commands
    (MkHost (Some (Ok ToyVault.fresh)) None None)) = ToyPass.answers.
Proof.
  apply (@password_manager_refines Toy.sdk ToyVault.ops ToyToken.serde ToyLedger.serde ToyPass.otp ToyPass.case _ _ ToyVault.ops_ok ToyPass.total ToyToken.serde_ok
    ToyLedger.serde_ok "v" "/home/u/.origin/tokens/work.token" "old" Nano (replicate 16 (byte_of 1)) ToyVault.fresh
    (take 32 (chars "old" ++ ToyVault.pad)) ToyVault.draw).
  - intros i. by eexists.
  - done.
  - by vm_compute.
  - by vm_compute.
  - by vm_compute.
  - by vm_compute.
  - repeat constructor; apply ToyPass.env_fine.
  - vm_compute. done.
Defined.

(** ** QR codes *)

Lemma encode_byte_spec (a : ascii) :
  Forall (fun c => c ∉ chars ":?/&=+") (encode_byte a) /\
  ((encode_byte a = [a] /\ a <> percent) \/
   exists x y, encode_byte a = [percent; x; y] /\ utf8_valid [x; y] = true /\ radix16 x y = Some (code a)).
Proof.
  assert (forallb (fun c => negb (bool_decide (c ∈ chars ":?/&=+"))) (encode_byte a) &&
    match encode_byte a with
    | [b] => Ascii.eqb a b && negb (Ascii.eqb a percent)
    | [p; x; y] => Ascii.eqb p percent && utf8_valid [x; y] && match radix16 x y with Some v => v =? code a | None => false end
    | _ => false
    end = true) as H by (destruct a as [[] [] [] [] [] [] [] []]; by vm_compute).
  apply andb_prop in H as [H1 H2]. split.
  - apply Forall_forall. intros c Hc. rewrite forallb_forall in H1. specialize (H1 c ltac:(by apply list_elem_of_In)).
    by destruct (bool_decide_reflect (c ∈ chars ":?/&=+")).
  - destruct (encode_byte a) as [|b [|x [|y [|]]]]; try done.
    + left. apply andb_prop in H2 as [->%Ascii.eqb_eq H2]. split; [done|]. intros ->. by rewrite Ascii.eqb_refl in H2.
    + right. exists x, y. apply andb_prop in H2 as [H2 H3]. apply andb_prop in H2 as [->%Ascii.eqb_eq H2]. split; [done|]. split; [done|].
      destruct (radix16 x y); [|done]. by apply Z.eqb_eq in H3 as ->.
Qed.

Definition encoded (l : list ascii) : list ascii := concat (map encode_byte l).

Lemma encoded_clean (l : list ascii) (c : ascii) : c ∈ chars ":?/&=+" -> Forall (fun a => a <> c) (encoded l).
Proof.
  intros Hc. apply Forall_concat, Forall_map, Forall_forall. intros a _. destruct (encode_byte_spec a) as [H _].
  eapply Forall_impl; [exact H|]. by intros b Hb ->.
Qed.

Lemma decode_one (i : nat) (c : ascii) (l : list ascii) :
  c <> "+"%char -> c <> percent -> url_decode_from i (c :: l) = (out ← url_decode_from (S i) l; Ok (c :: out)).
Proof. intros Hp Hc. cbn [url_decode_from]. by rewrite !bool_decide_false by done. Qed.

(** Decoding undoes encoding, whatever follows. *)
Lemma decode_encoded (l rest : list ascii) (i : nat) :
  exists j, url_decode_from i (encoded l ++ rest) = (out ← url_decode_from j rest; Ok (l ++ out)).
Proof.
  revert i. induction l as [|a l IH]; intros i.
  { exists i. cbn [encoded map concat app]. by destruct (url_decode_from i rest). }
  unfold encoded. cbn [map concat]. rewrite <- app_assoc. destruct (encode_byte_spec a) as [Hc [[E Ha]|(x & y & E & Hu & Hr)]]; rewrite E in *.
  - cbn [app]. apply Forall_cons in Hc as [Hc _]. assert (a <> "+"%char) by (intros ->; apply Hc; by do 5 right; left).
    rewrite decode_one by done. destruct (IH (S i)) as [j Ej]. fold (encoded l). rewrite Ej. exists j. by destruct (url_decode_from j rest).
  - cbn [app url_decode_from]. rewrite (bool_decide_false (percent = "+"%char)), (bool_decide_true (percent = percent)) by done. rewrite Hu, Hr. cbn [negb].
    destruct (IH (3 + i)%nat) as [j Ej]. fold (encoded l). rewrite Ej. exists j. rewrite byte_of_code. by destruct (url_decode_from j rest).
Qed.

Lemma decode_plain (l : list ascii) (i : nat) : Forall (fun a => a <> "+"%char /\ a <> percent) l -> url_decode_from i l = Ok l.
Proof. intros H. revert i. induction H as [|a l [H1 H2] _ IH]; intros i; [done|]. rewrite decode_one by done. by rewrite IH. Qed.

(** A percent-encoded text comes back. *)
Lemma url_roundtrip (s : string) : utf8_valid (chars s) = true -> url_decode (chars (url_encode s)) = Ok (chars s).
Proof.
  intros Hs. unfold url_decode, url_encode. rewrite chars_of_chars. destruct (decode_encoded (chars s) [] 0) as [j E]. rewrite app_nil_r in E.
  fold (encoded (chars s)). rewrite E. cbn. by rewrite app_nil_r, Hs.
Qed.

Lemma split_once_here (c : ascii) (l r : list ascii) : Forall (fun a => a <> c) l -> split_once c (l ++ c :: r) = Some (l, r).
Proof.
  intros H. unfold split_once. assert (find_split c (l ++ c :: r) = Some (l, c :: r)) as ->; [|done].
  induction H as [|a l Ha _ IH]; cbn; [by rewrite Ascii.eqb_refl|]. destruct (Ascii.eqb_spec a c); [done|]. by rewrite IH.
Qed.

Lemma split_once_first (c : ascii) (l : list ascii) : c ∈ l -> exists x y, l = x ++ c :: y /\ Forall (fun a => a <> c) x.
Proof.
  induction l as [|a l IH]; intros H; [by apply not_elem_of_nil in H|]. destruct (decide (a = c)) as [->|Hn]; [by exists [], l|].
  apply elem_of_cons in H as [->|H]; [done|]. destruct (IH H) as (x & y & -> & Hx). exists (a :: x), y. by split; [|constructor].
Qed.

Section Query.
Context `{SK : Sdk, OO : OtpOps, CO : CaseOps}.

Lemma query_step (key v k v' : list ascii) (pairs : list (list ascii)) (params : gmap string string) :
  Forall (fun a => a <> "="%char) key -> url_decode key = Ok k -> url_decode v = Ok v' ->
  query_params ((key ++ "="%char :: v) :: pairs) params = query_params pairs (<[of_chars k := of_chars v']> params).
Proof.
  intros Hk Ek Ev. cbn [query_params]. destruct (key ++ "="%char :: v) as [|a l] eqn:E; [by destruct key|].
  rewrite <- E, split_once_here, Ek, Ev by done. done.
Qed.

(** An exported entry within the limits of the format: the secret is base32. *)
Definition is_base32 (a : ascii) : bool := between 65 90 a || between 50 55 a || bool_decide (a = "="%char).
Record info_ok (i : OtpInfo) : Prop := {
  io_issuer : utf8_valid (chars (oi_issuer i)) = true;
  io_account : utf8_valid (chars (oi_account i)) = true;
  io_named : oi_account i <> "";
  io_base32 : forallb is_base32 (chars (oi_secret i)) = true;
  io_secret : exists k, base32_decode (oi_secret i) = Ok k;
  io_algo : oi_algo i ∈ ["SHA1"; "SHA256"; "SHA512"];
  io_digits : 4 <= oi_digits i <= 10;
  io_period : 0 <= oi_period i <= u32_max;
  io_counter : 0 <= oi_counter i <= u64_max
}.

(** A text that needs no encoding, and has none of the separators but [=]. *)
Definition harmless (a : ascii) : bool := negb (bool_decide (a ∈ chars ":?/&+%")) && (code a <? 128).
Definition clear_text (l : list ascii) : Prop := forallb harmless l = true.

Lemma clear_if (f : ascii -> bool) (l : list ascii) : (forall a, negb (f a) || harmless a = true) -> forallb f l = true -> clear_text l.
Proof.
  intros Hf H. unfold clear_text. rewrite forallb_forall in H |- *. intros a Ha. specialize (Hf a). by rewrite (H a Ha) in Hf.
Qed.
Lemma base32_clear (l : list ascii) : forallb is_base32 l = true -> clear_text l.
Proof. apply clear_if. intros a. destruct a as [[] [] [] [] [] [] [] []]; by vm_compute. Qed.
Lemma show_clear (n : Z) : 0 <= n -> clear_text (show_chars n).
Proof. intros Hn. apply (clear_if is_digit); [|by apply show_chars_spec]. intros a. destruct a as [[] [] [] [] [] [] [] []]; by vm_compute. Qed.
Lemma algo_clear (s : string) : s ∈ ["SHA1"; "SHA256"; "SHA512"] -> clear_text (chars s).
Proof. intros H. by repeat (apply elem_of_cons in H as [->|H]; [by vm_compute|]); apply not_elem_of_nil in H. Qed.

Lemma clear_avoids (c : ascii) (l : list ascii) : c ∈ chars ":?/&+%" -> clear_text l -> Forall (fun a => a <> c) l.
Proof.
  intros Hc H. apply Forall_forall. intros a Ha ->. unfold clear_text in H. rewrite forallb_forall in H. specialize (H c ltac:(by apply list_elem_of_In)).
  unfold harmless in H. by rewrite bool_decide_true in H by done.
Qed.

Lemma ascii_utf8 (l : list ascii) : Forall (fun a => code a < 128) l -> utf8_valid l = true.
Proof.
  induction 1 as [|a l Ha _ IH]; [done|]. change (a :: l) with ([a] ++ l). rewrite utf8_valid_app; [done|].
  assert (negb (code a <? 128) || utf8_valid [a] = true) as Hb by (destruct a as [[] [] [] [] [] [] [] []]; by vm_compute).
  by destruct (Z.ltb_spec (code a) 128); [|lia].
Qed.

Lemma decode_clear (l : list ascii) : clear_text l -> url_decode l = Ok l.
Proof.
  intros H. unfold url_decode. rewrite decode_plain.
  - cbn [mbind result_mbind]. rewrite ascii_utf8; [done|]. apply Forall_forall. intros a Ha. unfold clear_text in H. rewrite forallb_forall in H.
    specialize (H a ltac:(by apply list_elem_of_In)). unfold harmless in H. apply andb_prop in H as [_ H]. by apply Z.ltb_lt.
  - apply Forall_forall. intros a Ha. split.
    + pose proof (clear_avoids "+"%char l ltac:(by do 4 right; left) H) as Hp. rewrite Forall_forall in Hp. by apply Hp.
    + pose proof (clear_avoids percent l ltac:(by do 5 right; left) H) as Hp. rewrite Forall_forall in Hp. by apply Hp.
Qed.

Definition amp : ascii := "&"%char.
Definition last_pair (i : OtpInfo) : list ascii :=
  if oi_totp i then chars "period" ++ "="%char :: show_chars (oi_period i) else chars "counter" ++ "="%char :: show_chars (oi_counter i).
Definition query_of (i : OtpInfo) : list ascii :=
  (chars "secret" ++ "="%char :: chars (oi_secret i)) ++ amp :: (chars "issuer" ++ "="%char :: encoded (chars (oi_issuer i))) ++
  amp :: (chars "algorithm" ++ "="%char :: chars (oi_algo i)) ++ amp :: (chars "digits" ++ "="%char :: show_chars (oi_digits i)) ++ amp :: last_pair i.

Lemma uri_chars (i : OtpInfo) :
  chars (otpauth_uri i) = chars "otpauth://" ++
    ((if oi_totp i then chars "totp" else chars "hotp") ++ slash :: encoded (chars (oi_issuer i)) ++ colon :: encoded (chars (oi_account i))) ++ "?"%char :: query_of i.
Proof.
  unfold otpauth_uri, query_of, last_pair, url_encode, show_Z. destruct (oi_totp i); rewrite !chars_app, !chars_of_chars; cbn [app chars];
    rewrite <- ?app_assoc; reflexivity.
Qed.

Lemma avoid_app (c : ascii) (l k : list ascii) : Forall (fun a => a <> c) l -> Forall (fun a => a <> c) k -> Forall (fun a => a <> c) (l ++ k).
Proof. intros. by apply Forall_app. Qed.
Lemma avoid_text (c : ascii) (s : string) : forallb (fun a => negb (Ascii.eqb a c)) (chars s) = true -> Forall (fun a => a <> c) (chars s).
Proof.
  intros H. apply Forall_forall. intros a Ha ->. rewrite forallb_forall in H. specialize (H c ltac:(by apply list_elem_of_In)). by rewrite Ascii.eqb_refl in H.
Qed.
Lemma label_decodes (x y : list ascii) :
  utf8_valid x = true -> utf8_valid y = true -> url_decode (encoded x ++ colon :: encoded y) = Ok (x ++ colon :: y).
Proof.
  intros Hx Hy. unfold url_decode. destruct (decode_encoded x (colon :: encoded y) 0) as [j E]. rewrite E, decode_one by done.
  destruct (decode_encoded y [] (S j)) as [j' E']. rewrite app_nil_r in E'. rewrite E'. cbn [mbind result_mbind url_decode_from]. rewrite app_nil_r.
  change (colon :: y) with ([colon] ++ y). by rewrite utf8_valid_app, utf8_valid_app, Hy.
Qed.

(** The pairs of an exported query. *)
Lemma query_params_of (i : OtpInfo) :
  info_ok i ->
  query_params (split_on amp (query_of i)) ∅ =
    Ok (<[(if oi_totp i then "period" else "counter") := show_Z (if oi_totp i then oi_period i else oi_counter i)]>
        (<["digits" := show_Z (oi_digits i)]> (<["algorithm" := oi_algo i]> (<["issuer" := oi_issuer i]> (<["secret" := oi_secret i]> ∅))))).
Proof.
  intros Hi. pose proof (base32_clear _ (io_base32 i Hi)) as Hsec. pose proof (algo_clear _ (io_algo i Hi)) as Halg.
  pose proof (show_clear (oi_digits i) ltac:(destruct (io_digits i Hi); lia)) as Hdig.
  pose proof (url_roundtrip (oi_issuer i) (io_issuer i Hi)) as Hiss. unfold url_encode in Hiss. rewrite chars_of_chars in Hiss.
  set (n := if oi_totp i then oi_period i else oi_counter i). set (k := if oi_totp i then "period" else "counter").
  assert (clear_text (show_chars n)) as Hn by (apply show_clear; unfold n; destruct (io_period i Hi), (io_counter i Hi); destruct (oi_totp i); lia).
  assert (last_pair i = chars k ++ "="%char :: show_chars n) as El by (unfold last_pair, k, n; by destruct (oi_totp i)).
  assert (clear_text (chars k) /\ Forall (fun a => a <> "="%char) (chars k)) as [Hk Hke] by (unfold k; destruct (oi_totp i); (split; [by vm_compute|by apply avoid_text])).
  assert (amp ∈ chars ":?/&+%") as Ha by (by do 3 right; left).
  unfold query_of. rewrite El.
  rewrite !split_on_sep by (apply avoid_app; [by apply avoid_text|constructor; [done|first [by apply clear_avoids|by apply encoded_clean; do 3 right; left]]]).
  rewrite split_on_nil by (apply avoid_app; [by apply clear_avoids|constructor; [done|by apply clear_avoids]]).
  rewrite (query_step (chars "secret") _ (chars "secret") (chars (oi_secret i))) by (first [by apply avoid_text|by apply decode_clear|done]).
  rewrite (query_step (chars "issuer") _ (chars "issuer") (chars (oi_issuer i))) by (first [by apply avoid_text|exact Hiss|by apply decode_clear|done]).
  rewrite (query_step (chars "algorithm") _ (chars "algorithm") (chars (oi_algo i))) by (first [by apply avoid_text|by apply decode_clear|done]).
  rewrite (query_step (chars "digits") _ (chars "digits") (show_chars (oi_digits i))) by (first [by apply avoid_text|by apply decode_clear|done]).
  rewrite (query_step (chars k) _ (chars k) (show_chars n)) by (first [done|by apply decode_clear]).
  cbn [query_params]. rewrite !of_chars_chars. done.
Qed.

(** What the importer makes of an exported URI, with the account it finds. *)
Definition carried (i : OtpInfo) (account : list ascii) : OtpInfo :=
  MkOtpInfo (oi_totp i) (oi_issuer i) (of_chars account) (oi_secret i) (oi_algo i) (oi_digits i)
    (if oi_totp i then oi_period i else 0) (if oi_totp i then 0 else oi_counter i).

Context (upper_fixed : forall s, forallb (fun a => between 65 90 a || is_digit a) (chars s) = true -> to_uppercase s = s).

Lemma parse_exported (i : OtpInfo) (before after : list ascii) :
  info_ok i -> split_once colon (chars (oi_issuer i) ++ colon :: chars (oi_account i)) = Some (before, after) -> after <> [] ->
  parse_otpauth (otpauth_uri i) = Ok (carried i after).
Proof.
  intros Hi Es Ha. unfold parse_otpauth. rewrite uri_chars, strip_prefix_app.
  assert (forall c, c ∈ chars "?/" -> Forall (fun a => a <> c) (if oi_totp i then chars "totp" else chars "hotp")) as Hk.
  { intros c Hc. destruct (oi_totp i); apply avoid_text; (apply elem_of_cons in Hc as [->|[->|?%not_elem_of_nil]%elem_of_cons]); by vm_compute. }
  rewrite split_once_here.
  2: { apply avoid_app; [by apply Hk; left|]. constructor; [done|]. apply avoid_app; [by apply encoded_clean; right; left|].
       constructor; [done|]. by apply encoded_clean; right; left. }
  cbn [default from_option id]. cbv beta iota. rewrite split_once_here by (by apply Hk; right; left). rewrite label_decodes by apply Hi. cbn [map_err mbind result_mbind].
  assert ((if oi_totp i then chars "totp" else chars "hotp") = chars (if oi_totp i then "totp" else "hotp")) as -> by (by destruct (oi_totp i)).
  assert (bool_decide (chars (if oi_totp i then "totp" else "hotp") = chars "totp") = oi_totp i) as -> by (by destruct (oi_totp i)).
  assert (bool_decide (chars (if oi_totp i then "totp" else "hotp") = chars "hotp") = negb (oi_totp i)) as -> by (by destruct (oi_totp i)).
  assert (negb (oi_totp i) && negb (negb (oi_totp i)) = false) as -> by (by destruct (oi_totp i)).
  fold amp. rewrite query_params_of by done. cbn [mbind result_mbind]. destruct (io_secret i Hi) as [key Ekey].
  set (params := <[_ := _]> _). assert (params !! "secret" = Some (oi_secret i)) as -> by (unfold params; destruct (oi_totp i); by simplify_map_eq).
  rewrite Ekey. cbn [map_err mbind result_mbind].
  assert (params !! "issuer" = Some (oi_issuer i)) as -> by (unfold params; destruct (oi_totp i); by simplify_map_eq). rewrite Es.
  rewrite (bool_decide_false (after = [])) by done.
  assert (params !! "algorithm" = Some (oi_algo i)) as -> by (unfold params; destruct (oi_totp i); by simplify_map_eq).
  assert (to_uppercase (oi_algo i) = oi_algo i) as ->.
  { apply upper_fixed. pose proof (io_algo i Hi) as H. by repeat (apply elem_of_cons in H as [->|H]; [by vm_compute|]); apply not_elem_of_nil in H. }
  rewrite (bool_decide_true (oi_algo i ∈ _)) by apply Hi. cbn [negb].
  assert (params !! "digits" = Some (show_Z (oi_digits i))) as -> by (unfold params; destruct (oi_totp i); by simplify_map_eq).
  unfold number_param, show_Z. rewrite chars_of_chars. destruct (io_digits i Hi), (io_period i Hi), (io_counter i Hi).
  rewrite parse_unsigned_show by (unfold u32_max, u64_max in *; lia). cbn [mbind result_mbind].
  destruct (Z.leb_spec 4 (oi_digits i)), (Z.leb_spec (oi_digits i) 10); try lia. cbn [andb negb].
  unfold carried, params, show_Z. destruct (oi_totp i); cbn [negb]; simplify_map_eq; rewrite chars_of_chars;
    rewrite parse_unsigned_show by (unfold u32_max, u64_max in *; lia); done.
Qed.
End Query.

(** The entry of a one-time password: [n] is its counter or its period. *)
Definition otp_entry (counting : bool) (name secret : string) (n digits : Z) (algo : string) : EntryPayload :=
  if counting then hotp name secret n digits algo else totp name secret n digits algo.

Record otp_ok `{OO : OtpOps} (counting : bool) (name secret : string) (n digits : Z) (algo : string) : Prop := {
  oo_name : utf8_valid (chars name) = true;
  oo_named : name <> "";
  oo_base32 : forallb is_base32 (chars secret) = true;
  oo_secret : exists k, base32_decode secret = Ok k;
  oo_algo : algo ∈ ["SHA1"; "SHA256"; "SHA512"];
  oo_digits : 4 <= digits <= 10;
  oo_n : 0 <= n <= (if counting then u64_max else u32_max)
}.

(** The issuer that goes into the URI. *)
Definition issuer_of (issuer notes : option string) (name : string) : string :=
  match issuer with Some i => i | None => default name (n ← notes; of_chars <$> strip_prefix (chars "issuer=") (chars n)) end.

Lemma export_info_of `{OO : OtpOps} (counting : bool) (name secret : string) (n digits : Z) (algo : string) (issuer url notes : option string) (created updated : Z) :
  otp_ok counting name secret n digits algo ->
  export_info issuer name (stamped (otp_entry counting name secret n digits algo) url notes created updated) =
    Ok (MkOtpInfo (negb counting) (issuer_of issuer notes name) name secret algo digits (if counting then 0 else n) (if counting then n else 0)).
Proof.
  intros Ho. assert (from_utf8 (chars secret) = Some secret) as Eu.
  { unfold from_utf8. rewrite ascii_utf8; [by rewrite of_chars_chars|]. pose proof (base32_clear _ (oo_base32 _ _ _ _ _ _ Ho)) as Hb.
    apply Forall_forall. intros a Ha. unfold clear_text in Hb. rewrite forallb_forall in Hb. specialize (Hb a ltac:(by apply list_elem_of_In)).
    apply andb_prop in Hb as [_ Hb]. by apply Z.ltb_lt. }
  destruct (oo_digits _ _ _ _ _ _ Ho), (oo_n _ _ _ _ _ _ Ho).
  assert (forall z hi, 0 <= z <= hi -> hi <= u64_max -> (if (0 <=? z) && (z <=? u64_max) then Some z else None) = Some z) as Hz.
  { intros z hi ? ?. destruct (Z.leb_spec 0 z), (Z.leb_spec z u64_max); try done; lia. }
  unfold export_info, otp_entry, stamped, hotp, totp, issuer_of.
  destruct counting; cbn [ep_totp ep_hotp ep_secret ep_notes negb andb bool_decide decide is_Some_dec]; rewrite Eu;
    rewrite ?(bool_decide_true (is_Some (Some _))), ?(bool_decide_false (is_Some None)) by (first [by eexists|by intros [? ?]]); cbn [negb andb];
    unfold value_str, get_u64; cbn [value_get List.find fst snd String.eqb Ascii.eqb Bool.eqb fmap option_fmap option_map mbind option_bind default from_option id];
    rewrite ?(Hz digits 10), ?(Hz n u64_max), ?(Hz n u32_max) by (unfold u32_max, u64_max in *; lia); cbn [default from_option id];
    rewrite ?Z.mod_small by (unfold u32_max in *; lia); done.
Qed.

(** Exporting an entry and importing the URI gives the entry back, with its
    secret and parameters, exactly when the issuer written into the URI has
    no colon; with a colon the imported entry has another name. *)
Theorem qr_roundtrip `{SK : Sdk, OO : OtpOps, CO : CaseOps} (counting : bool) (name secret : string) (n digits : Z) (algo : string)
    (issuer url notes : option string) (created updated : Z) :
  (forall s, forallb (fun a => between 65 90 a || is_digit a) (chars s) = true -> to_uppercase s = s) ->
  otp_ok counting name secret n digits algo -> utf8_valid (chars (issuer_of issuer notes name)) = true ->
  exists i j, export_info issuer name (stamped (otp_entry counting name secret n digits algo) url notes created updated) = Ok i /\
    parse_otpauth (otpauth_uri i) = Ok j /\ oi_issuer j = issuer_of issuer notes name /\
    imported j = otp_entry counting (oi_account j) secret n digits algo /\
    (oi_account j = name <-> colon ∉ chars (issuer_of issuer notes name)).
Proof.
  intros Hup Ho Hu. rewrite export_info_of by done. set (i := MkOtpInfo _ _ _ _ _ _ _ _). exists i. set (iss := issuer_of issuer notes name) in *.
  assert (info_ok i) as Hi.
  { destruct Ho as [H1 H2 H3 H4 H5 H6 H7]. split; cbn; try done; destruct counting; unfold u32_max, u64_max in *; lia. }
  assert (chars name <> []) as Hne by (intros E; apply (oo_named _ _ _ _ _ _ Ho); by rewrite <- (of_chars_chars name), E).
  destruct (decide (colon ∈ chars iss)) as [Hc|Hc].
  - destruct (split_once_first colon (chars iss) Hc) as (x & y & E & Hx). exists (carried i (y ++ colon :: chars name)). split; [done|]. split.
    + apply (parse_exported Hup i x (y ++ colon :: chars name)); [done| |by destruct y]. cbn [i oi_issuer oi_account]. rewrite E, <- app_assoc. by apply split_once_here.
    + split; [done|]. split; [unfold imported, carried, otp_entry; cbn; by destruct counting|]. split; [|done]. cbn. intros En. exfalso.
      apply (f_equal (fun s => length (chars s))) in En. rewrite chars_of_chars, length_app in En. cbn in En. lia.
  - exists (carried i (chars name)). split; [done|]. split.
    + apply (parse_exported Hup i (chars iss) (chars name)); [done| |done]. apply split_once_here. apply Forall_forall. intros a Ha ->. done.
    + split; [done|]. split; [unfold imported, carried, otp_entry; cbn; by destruct counting|]. split; [done|]. intros _. cbn. apply of_chars_chars.
Qed.

(** An entry named after its issuer: the name has a colon and is exported as
    its own issuer, and the import makes another entry of it. *)
Lemma qr_roundtrip_witness :
  exists i j, export_info None "GitHub:alice" (otp_entry true "GitHub:alice" "ABCD" 7 6 "SHA1") = Ok i /\
    @parse_otpauth ToyPass.otp ToyPass.case (otpauth_uri i) = Ok j /\ oi_account j = "alice:GitHub:alice".
Proof.
  destruct (@qr_roundtrip Toy.sdk ToyPass.otp ToyPass.case true "GitHub:alice" "ABCD" 7 6 "SHA1" None None None 0 0) as (i & j & Ei & Ej & _ & _ & _).
  - done.
  - split; [by vm_compute|done|by vm_compute|by eexists|by left|lia|unfold u64_max; lia].
  - by vm_compute.
  - exists i, j. split; [exact Ei|]. split; [exact Ej|]. vm_compute in Ei. injection Ei as <-. vm_compute in Ej. by injection Ej as <-.
Defined.

(** ** Pruning the token store *)

Section Prune.
Context `{SK : Sdk, TS : TokenSerde}.

Lemma revoke_each_spec (ts : list TokenInfo) (d : dir) :
  NoDup (map ti_name ts) -> Forall (fun t => is_Some (d !! ti_name t)) ts ->
  revoke_each (fun _ => Ok tt) ts d = (Ok tt, foldl (fun d k => delete k d) d (map ti_name ts)).
Proof.
  revert d. induction ts as [|t ts IH]; intros d Hn Hd; [done|]. apply NoDup_cons in Hn as [Hn Hns]. apply Forall_cons in Hd as [[nd Ht] Hd].
  cbn [revoke_each map foldl]. unfold mbind, SE_mbind, revoke_listed. rewrite Ht. unfold remove_token. cbn [map_err]. apply IH; [done|].
  apply Forall_forall. intros t' Ht'. rewrite Forall_forall in Hd. destruct (decide (ti_name t' = ti_name t)) as [E|Ne].
  - exfalso. apply Hn. rewrite <- E. by apply list_elem_of_fmap_2.
  - rewrite lookup_delete_ne by done. by apply Hd.
Qed.

Lemma listed_names (path : string) (d : dir) (infos : list TokenInfo) :
  list_tokens path (Some (Ok d)) = Ok infos -> NoDup (map ti_name infos) /\ Forall (fun t => is_Some (d !! ti_name t)) infos.
Proof.
  intros E. cbn [list_tokens map_err mbind result_mbind] in E. injection E as <-. unfold token_files.
  assert (NoDup (map fst (merge_sort name_le (map_to_list d)))) as Hn by (rewrite merge_sort_Permutation; apply NoDup_fst_map_to_list).
  assert (Forall (fun kv => is_Some (d !! fst kv)) (merge_sort name_le (map_to_list d))) as Hd.
  { rewrite merge_sort_Permutation. apply Forall_forall. intros [k nd] Hk. apply elem_of_map_to_list in Hk. by eexists. }
  revert Hn Hd. generalize (merge_sort name_le (map_to_list d)). intros l. induction l as [|[k nd] l IH]; intros Hn Hd; [by split; constructor|].
  cbn [map fst] in Hn. apply NoDup_cons in Hn as [Hk Hn]. apply Forall_cons in Hd as [Hkd Hd]. destruct (IH Hn Hd) as [I1 I2]. clear IH.
  destruct nd as [c|]; cbn [omap list_omap fst snd]; [|done]. destruct (is_token_name k); cbn [omap list_omap fst snd]; [|done].
  destruct (read_token_metadata k (path_join path k) (Some c)) as [i|] eqn:Ei; [|done].
  assert (ti_name i = k) as Ek.
  { unfold read_token_metadata in Ei. destruct c as [raw|]; [|done]. cbn [map_err mbind result_mbind] in Ei. by destruct (token_from_slice raw); injection Ei as <-. }
  split; [|constructor; [by rewrite Ek|done]]. cbn [map]. apply NoDup_cons. split; [|done]. rewrite Ek. intros Hin. apply Hk.
  apply list_elem_of_fmap in Hin as (i' & -> & Hi'). apply list_elem_of_omap in Hi' as ([k' c'] & Hk' & Ei'). apply list_elem_of_omap in Hk' as ([k'' nd''] & Hk'' & E'').
  cbn [fst snd] in *. destruct nd'' as [c''|]; [|done]. destruct (is_token_name k''); [|done]. injection E'' as -> ->.
  destruct (read_token_metadata k' _ _) as [i''|] eqn:Em; [|done]. injection Ei' as ->. unfold read_token_metadata in Em. destruct c' as [raw|]; [|done].
  cbn [map_err mbind result_mbind] in Em. assert (ti_name i' = k') as -> by (by destruct (token_from_slice raw); injection Em as <-).
  apply list_elem_of_fmap. by exists (k', File (Ok raw)).
Qed.

(** [tokens prune] removes the expired token files and those that are not
    tokens, and leaves every valid token and every other file. *)
Lemma tokens_prune_spec (env : Env) (raw path : string) (d : dir) :
  resolve_store_dir (en_home env) raw = Ok path ->
  exists n d', cmd_tokens_prune env raw (fun _ => Ok tt) (Some (Ok d)) = (Ok n, Some (Ok d')) /\
    forall k, d' !! k = (nd ← d !! k; if doomed (en_now env 0) true (k, nd) then None else Some nd).
Proof.
  intros Er. unfold cmd_tokens_prune, mbind, SE_mbind, lift, listed. rewrite Er. destruct (list_tokens path (Some (Ok d))) as [infos|] eqn:E; [|done].
  destruct (listed_names path d infos E) as [Hn Hd]. set (ts := List.filter _ infos).
  assert (ts = List.filter (fun i => negb (true && negb (ti_unreadable i) && (en_now env 0 <? ti_expires_at i))) infos) as Et.
  { unfold ts. apply List.filter_ext. intros i. destruct (ti_unreadable i); [done|]. cbn. by rewrite Z.ltb_antisym, negb_involutive. }
  unfold in_dir. rewrite revoke_each_spec.
  - eexists _, _. split; [done|]. intros k. rewrite deleted_lookup. rewrite Et. destruct (decide _) as [H|H].
    + apply (revoked_names path (en_now env 0) true d infos k E) in H as (nd & -> & Hdm). cbn. by rewrite Hdm.
    + destruct (d !! k) as [nd|] eqn:Ek; [|done]. cbn. destruct (doomed (en_now env 0) true (k, nd)) eqn:Hdm; [|done]. exfalso. apply H.
      apply (revoked_names path (en_now env 0) true d infos k E). by exists nd.
  - unfold ts. clear -Hn. induction infos as [|i infos IH]; [done|]. cbn [map] in Hn. apply NoDup_cons in Hn as [Hi Hn]. cbn [List.filter].
    destruct (_ || _); [|by apply IH]. cbn [map]. apply NoDup_cons. split; [|by apply IH]. intros H. apply Hi. apply list_elem_of_fmap in H as (i' & E & H).
    apply list_elem_of_fmap. exists i'. split; [done|]. apply list_elem_of_In in H. apply List.filter_In in H as [H _]. by apply list_elem_of_In.
  - unfold ts. apply Forall_forall. intros t Ht. apply list_elem_of_In, List.filter_In in Ht as [Ht _]. rewrite Forall_forall in Hd. apply Hd. by apply list_elem_of_In.
Qed.
End Prune.
