(* ===== verification/CanaryMerkle.v ===== *)
(** * The Merkle tree of canary commitments (origin-canary/src/merkle.rs)

    Leaves and inner nodes are hex strings.  A panic ([expect], [assert!]) is
    [None].  The levels of a built tree form a chain; inclusion proofs are
    complete, they bind the leaf at its index when every node has 32 bytes,
    and both properties' limits are exhibited. *)

From Stdlib Require Import Ascii String.
From S2P Require Import Prelude RustStr Bytes RustText Sdk.

Record MerkleTree := MkTree {
  mt_leaves : list string;
  mt_root : string;
  mt_levels : list (list string)
}.

Section Merkle.
Context `{SK : Sdk}.

(** [blake3_hash_format]: [expect] on both decodings. *)
Definition blake3_hash_format (left right : string) : option string :=
  left_bytes ← ok (hex_decode left);
  right_bytes ← ok (hex_decode right);
  Some (hex_encode (blake3 (left_bytes ++ right_bytes))).

(** One round of the inner loop of [build_merkle_tree]: an odd node at the end is paired with itself. *)
Fixpoint next_level (current_level : list string) : option (list string) :=
  match current_level with
  | a :: b :: rest => combined ← blake3_hash_format a b; k ← next_level rest; Some (combined :: k)
  | [a] => combined ← blake3_hash_format a a; Some [combined]
  | [] => Some []
  end.

(** The outer loop, with the levels pushed so far. *)
Fixpoint build_levels (fuel : nat) (current_level : list string) (levels : list (list string)) :
    option (list string * list (list string)) :=
  match fuel with
  | O => None
  | S fuel' =>
      if (1 <? length current_level)%nat then
        next ← next_level current_level; build_levels fuel' next (levels ++ [next])
      else Some (current_level, levels)
  end.

Definition build_merkle_tree (leaf_hashes : list string) : option MerkleTree :=
  match leaf_hashes with
  | [] => None
  | _ =>
      '(top, levels) ← build_levels (S (length leaf_hashes)) leaf_hashes [leaf_hashes];
      root ← head top;
      Some (MkTree leaf_hashes root levels)
  end.

(** The sibling the builder combined the node at [index] with. *)
Definition sibling_of (level : list string) (index : nat) : list string :=
  let sibling_idx := if Nat.even index then S index else (index - 1)%nat in
  match level !! sibling_idx with
  | Some s => [s]
  | None => match level !! index with Some s => [s] | None => [] end
  end.

Fixpoint proof_walk (levels : list (list string)) (index : nat) : list string :=
  match levels with
  | [] => []
  | level :: rest => sibling_of level index ++ proof_walk rest (Nat.div2 index)
  end.

Definition get_merkle_proof (tree : MerkleTree) (leaf_index : nat) : list string :=
  proof_walk (take (length (mt_levels tree) - 1) (mt_levels tree)) leaf_index.

(** One step of [verify_proof]: strings that do not decode are dropped by [filter_map]. *)
Definition verify_step (current sibling : string) (idx : nat) : string :=
  let pair := if Nat.even idx then [current; sibling] else [sibling; current] in
  hex_encode (blake3 (concat (omap (fun h => ok (hex_decode h)) pair))).

Fixpoint verify_walk (current : string) (proof : list string) (idx : nat) : string :=
  match proof with
  | [] => current
  | sibling :: rest => verify_walk (verify_step current sibling idx) rest (Nat.div2 idx)
  end.

Definition verify_proof (leaf : string) (proof : list string) (leaf_index : nat) (root : string) : bool :=
  bool_decide (verify_walk leaf proof leaf_index = root).

(** ** The shape of a built tree *)

Definition hex_node (s : string) : Prop := exists b, hex_decode s = Ok b.
Definition hex32 (s : string) : Prop := exists b, hex_decode s = Ok b /\ length b = 32%nat.

(** Levels from one up to the root. *)
Inductive chain : list (list string) -> string -> Prop :=
| chain_top (r : string) : chain [[r]] r
| chain_level (l l' : list string) (ls : list (list string)) (r : string) :
    (1 < length l)%nat -> next_level l = Some l' -> chain (l' :: ls) r -> chain (l :: l' :: ls) r.

Lemma chain_ne (l : list string) (ls : list (list string)) (r : string) : chain (l :: ls) r -> (0 < length l)%nat.
Proof. inversion 1; subst; cbn; lia. Qed.

(** Induction two by two. *)
Lemma pairs_ind {A : Type} (P : list A -> Prop) :
  P [] -> (forall a, P [a]) -> (forall a b l, P l -> P (a :: b :: l)) -> forall l, P l.
Proof.
  intros H0 H1 H2. fix go 1. intros [|a [|b l]]; [exact H0|apply H1|]. apply H2. apply go.
Qed.

Lemma next_level_length (l k : list string) : next_level l = Some k -> length k = Nat.div2 (S (length l)).
Proof.
  revert k. induction l as [|a|a b l IH] using pairs_ind; intros k E.
  - by injection E as <-.
  - cbn in E. destruct (blake3_hash_format a a); [|done]. by injection E as <-.
  - cbn in E. destruct (blake3_hash_format a b); [|done]. cbn in E. destruct (next_level l) as [k'|]; [|done].
    injection E as <-. cbn [length Nat.div2]. f_equal. by apply IH.
Qed.

Lemma next_level_app (l m : list string) :
  Nat.even (length l) = true -> next_level (l ++ m) = k ← next_level l; k' ← next_level m; Some (k ++ k').
Proof.
  induction l as [|a|a b l IH] using pairs_ind; intros He; [|done|].
  - cbn. by destruct (next_level m).
  - cbn in *. destruct (blake3_hash_format a b); [|done]. cbn. rewrite IH by done.
    destruct (next_level l); [|done]. cbn. by destruct (next_level m).
Qed.

Lemma build_levels_chain (fuel : nat) (l : list string) (acc : list (list string)) (top : list string)
    (levels : list (list string)) (r : string) :
  build_levels fuel l (acc ++ [l]) = Some (top, levels) -> head top = Some r ->
  exists ls, levels = acc ++ l :: ls /\ chain (l :: ls) r.
Proof.
  revert l acc. induction fuel as [|fuel IH]; intros l acc E Hr; [done|]. cbn [build_levels] in E.
  destruct (Nat.ltb_spec 1 (length l)) as [Hl|Hl].
  - destruct (next_level l) as [l'|] eqn:En; [|done]. cbn in E.
    destruct (IH l' (acc ++ [l]) E Hr) as (ls & -> & Hc). exists (l' :: ls). rewrite <- app_assoc. split; [done|].
    by constructor.
  - injection E as <- <-. exists []. split; [done|]. destruct l as [|x [|? ?]]; cbn in *; [done| |lia].
    injection Hr as ->. constructor.
Qed.

Lemma build_chain (leaves : list string) (t : MerkleTree) :
  build_merkle_tree leaves = Some t ->
  mt_leaves t = leaves /\ exists ls, mt_levels t = leaves :: ls /\ chain (leaves :: ls) (mt_root t).
Proof.
  unfold build_merkle_tree. destruct leaves as [|x l]; [done|]. intros E.
  destruct (build_levels _ _ _) as [[top levels]|] eqn:Eb; [|done]. cbn in E.
  destruct (head top) as [r|] eqn:Er; [|done]. cbn in E. injection E as <-. cbn. split; [done|].
  destruct (build_levels_chain _ _ [] _ _ _ Eb Er) as (ls & -> & Hc). by exists ls.
Qed.

Lemma hash_format_hex (HX : HexOk) (a b : string) :
  hex_node a -> hex_node b -> exists s, blake3_hash_format a b = Some s /\ hex_node s.
Proof.
  intros [x Hx] [y Hy]. unfold blake3_hash_format. rewrite Hx, Hy. cbn. eexists. split; [done|].
  eexists. apply hex_roundtrip.
Qed.

Lemma next_level_total (HX : HexOk) (l : list string) :
  Forall hex_node l -> exists k, next_level l = Some k /\ Forall hex_node k.
Proof.
  induction l as [|a|a b l IH] using pairs_ind; intros Hl.
  - by exists [].
  - apply Forall_cons in Hl as [Ha _]. destruct (hash_format_hex HX a a Ha Ha) as (s & E & Hs).
    exists [s]. cbn. rewrite E. cbn. split; [done|by repeat constructor].
  - apply Forall_cons in Hl as [Ha Hl]. apply Forall_cons in Hl as [Hb Hl].
    destruct (hash_format_hex HX a b Ha Hb) as (s & E & Hs), (IH Hl) as (k & Ek & Hk).
    exists (s :: k). cbn. rewrite E. cbn. rewrite Ek. cbn. split; [done|by constructor].
Qed.

Lemma div2_lt (n : nat) : (1 < n)%nat -> (0 < Nat.div2 (S n) < n)%nat.
Proof. intros Hn. pose proof (Nat.div2_odd (S n)) as E. destruct (Nat.odd (S n)); cbn [Nat.b2n] in E; lia. Qed.

(** The builder returns on every non-empty list of hex strings. *)
Lemma build_levels_total (HX : HexOk) (fuel : nat) (l : list string) (acc : list (list string)) :
  (0 < length l <= fuel)%nat -> Forall hex_node l -> exists r levels, build_levels (S fuel) l acc = Some ([r], levels).
Proof.
  revert l acc. induction fuel as [|fuel IH]; intros l acc Hl Hx; [lia|]. cbn [build_levels].
  destruct (Nat.ltb_spec 1 (length l)) as [H1|H1].
  - destruct (next_level_total HX l Hx) as (k & E & Hk). rewrite E. cbn [mbind option_bind].
    apply IH; [|done]. rewrite (next_level_length _ _ E). pose proof (div2_lt _ H1). lia.
  - destruct l as [|x [|? ?]]; cbn in *; [lia| |lia]. by eexists _, _.
Qed.

Lemma build_total (HX : HexOk) (leaves : list string) :
  leaves <> [] -> Forall hex_node leaves -> exists t, build_merkle_tree leaves = Some t.
Proof.
  intros Hne Hx. unfold build_merkle_tree. destruct leaves as [|x l] eqn:El; [done|]. rewrite <- El in *.
  destruct (build_levels_total HX (length leaves) leaves [leaves]) as (r & levels & ->); [|done|by eexists].
  rewrite El. cbn. lia.
Qed.

(** ** Completeness of proofs *)

Lemma omap_pair (a b : string) (x y : bytes) :
  hex_decode a = Ok x -> hex_decode b = Ok y ->
  concat (omap (fun h => ok (hex_decode h)) [a; b]) = x ++ y.
Proof. intros Ha Hb. cbn. rewrite Ha, Hb. cbn. by rewrite app_nil_r. Qed.

Lemma verify_step_format (a b : string) (s : string) :
  blake3_hash_format a b = Some s -> verify_step a b 0 = s /\ verify_step b a 1 = s.
Proof.
  unfold blake3_hash_format, verify_step. cbn [Nat.even]. intros E.
  destruct (hex_decode a) as [x|] eqn:Ha; [|done]. destruct (hex_decode b) as [y|] eqn:Hb; [|done]. cbn in E.
  injection E as <-. by rewrite (omap_pair _ _ _ _ Ha Hb).
Qed.

(** [verify_step] and [sibling_of] look only at the parity of the index. *)
Lemma verify_step_SS (a b : string) (i : nat) : verify_step a b (S (S i)) = verify_step a b i.
Proof. done. Qed.

Lemma sibling_of_SS (a b : string) (l : list string) (i : nat) : sibling_of (a :: b :: l) (S (S i)) = sibling_of l i.
Proof.
  unfold sibling_of. cbn [Nat.even]. destruct (Nat.even i) eqn:E; [done|].
  destruct i as [|i]; [done|]. cbn. by rewrite Nat.sub_0_r.
Qed.

(** One level up: the node and its sibling hash to the parent. *)
Lemma level_up (l k : list string) (i : nat) (x : string) :
  next_level l = Some k -> l !! i = Some x ->
  exists s, sibling_of l i = [s] /\ k !! Nat.div2 i = Some (verify_step x s i).
Proof.
  revert k i. induction l as [|a|a b l IH] using pairs_ind; intros k i E Hi; [done|..].
  - destruct i as [|i]; [|done]. cbn in Hi. injection Hi as ->. cbn in E.
    destruct (blake3_hash_format x x) as [s|] eqn:Es; [|done]. injection E as <-.
    exists x. split; [done|]. cbn. by destruct (verify_step_format _ _ _ Es) as [-> _].
  - cbn in E. destruct (blake3_hash_format a b) as [s|] eqn:Es; [|done]. cbn in E.
    destruct (next_level l) as [k'|]; [|done]. injection E as <-.
    destruct (verify_step_format _ _ _ Es) as [E1 E2]. destruct i as [|[|i]].
    + injection Hi as <-. exists b. split; [done|]. cbn [Nat.div2 lookup list_lookup]. by rewrite E1.
    + injection Hi as <-. exists a. split; [done|]. cbn [Nat.div2 lookup list_lookup]. by rewrite E2.
    + destruct (IH k' i eq_refl Hi) as (s' & Hs & Hk). exists s'. by rewrite sibling_of_SS, verify_step_SS.
Qed.

Lemma chain_complete (ls : list (list string)) (r : string) :
  chain ls r -> forall l rest i x, ls = l :: rest -> l !! i = Some x ->
  let p := proof_walk (take (length ls - 1) ls) i in
  verify_walk x p i = r /\ length p = length rest.
Proof.
  induction 1 as [r|l l' ls r Hl En Hc IH]; intros l0 rest i x Eq Hi; injection Eq as <- <-.
  - destruct i as [|i]; [|by destruct i]. cbn in *. by injection Hi as ->.
  - destruct (level_up _ _ _ _ En Hi) as (s & Hs & Hk). destruct (IH _ _ _ _ eq_refl Hk) as [IH1 IH2].
    cbn [length] in *. replace (S (S (length ls)) - 1)%nat with (S (S (length ls) - 1)) by lia.
    cbn [take proof_walk]. rewrite Hs. cbn [app verify_walk length]. split; [done|by rewrite IH2].
Qed.

(** ** Binding *)

Lemma hex32_step (HX : HexOk) (HO : HashOk) (a b : string) (i : nat) : hex32 (verify_step a b i).
Proof. eexists. split; [apply hex_roundtrip|apply blake3_len]. Qed.

Lemma next_level_hex32 (HX : HexOk) (HO : HashOk) (l k : list string) : next_level l = Some k -> Forall hex32 k.
Proof.
  assert (forall a b s, blake3_hash_format a b = Some s -> hex32 s) as Hs.
  { intros a b s E. unfold blake3_hash_format in E. destruct (hex_decode a), (hex_decode b); try done.
    injection E as <-. eexists. split; [apply hex_roundtrip|apply blake3_len]. }
  revert k. induction l as [|a|a b l IH] using pairs_ind; intros k E; cbn in E.
  - injection E as <-. constructor.
  - destruct (blake3_hash_format a a) eqn:Ea; [|done]. injection E as <-. eauto using Forall.
  - destruct (blake3_hash_format a b) eqn:Ea; [|done]. cbn in E. destruct (next_level l); [|done].
    injection E as <-. eauto using Forall.
Qed.

(** Steps with equal results have equal operands, or BLAKE3 collides. *)
Lemma verify_step_inj (HX : HexOk) (a b c d : string) (i : nat) :
  hex32 a -> hex32 b -> hex32 c -> hex32 d -> verify_step a b i = verify_step c d i ->
  (hex_decode a = hex_decode c /\ hex_decode b = hex_decode d) \/ collision blake3.
Proof.
  intros (x & Ha & La) (y & Hb & Lb) (z & Hc & Lc) (w & Hd & Ld) E.
  apply (f_equal hex_decode) in E. unfold verify_step in E. rewrite !hex_roundtrip in E. injection E as E.
  apply hash_eq_or_collision in E as [E|E]; [left|by right]. rewrite Ha, Hb, Hc, Hd.
  destruct (Nat.even i).
  - rewrite (omap_pair _ _ _ _ Ha Hb), (omap_pair _ _ _ _ Hc Hd) in E. apply app_inj_len in E as [-> ->]; [done|congruence].
  - rewrite (omap_pair _ _ _ _ Hb Ha), (omap_pair _ _ _ _ Hd Hc) in E. apply app_inj_len in E as [-> ->]; [done|congruence].
Qed.

Lemma sibling_hex32 (l : list string) (i : nat) (s : string) : Forall hex32 l -> sibling_of l i = [s] -> hex32 s.
Proof.
  intros Hl. unfold sibling_of. rewrite Forall_lookup in Hl. cbv zeta. intros E.
  destruct (l !! (if Nat.even i then S i else (i - 1)%nat)) as [t|] eqn:E1.
  { injection E as <-. by apply (Hl _ _ E1). }
  destruct (l !! i) as [t|] eqn:E2; [|done]. injection E as <-. by apply (Hl _ _ E2).
Qed.

Lemma chain_binds (HX : HexOk) (HO : HashOk) (ls : list (list string)) (r : string) :
  chain ls r -> forall l rest i x y p, ls = l :: rest -> l !! i = Some x -> Forall hex32 l -> hex32 y ->
  Forall hex32 p -> length p = length rest -> verify_walk y p i = r ->
  hex_decode y = hex_decode x \/ collision blake3.
Proof.
  induction 1 as [r|l l' ls r Hl En Hc IH]; intros l0 rest i x y p Eq Hi Hx Hy Hp Lp Ev; injection Eq as <- <-.
  - destruct p; [|done]. cbn in Ev. subst y. destruct i as [|i]; [|by destruct i]. injection Hi as ->. by left.
  - destruct p as [|s p]; [done|]. apply Forall_cons in Hp as [Hs Hp]. cbn [verify_walk] in Ev.
    destruct (level_up _ _ _ _ En Hi) as (t & Ht & Hk). cbn in Lp.
    destruct (IH l' ls (Nat.div2 i) _ (verify_step y s i) p eq_refl Hk) as [E|E];
      [by apply (next_level_hex32 HX HO l)|by apply hex32_step|done|lia|done| |by right].
    assert (verify_step y s i = verify_step x t i) as E'.
    { unfold verify_step in *. rewrite !hex_roundtrip in E. injection E as ->. done. }
    rewrite Forall_lookup in Hx.
    destruct (verify_step_inj HX y s x t i) as [[? _]|?]; auto; [by apply (Hx i)|].
    apply (sibling_hex32 l i); [by rewrite Forall_lookup|done].
Qed.

(** A tree binds its leaves: with as many 32-byte siblings as the tree has
    levels above the leaves, only the bytes of the leaf at [i] verify at [i]. *)
Lemma proof_binds (HX : HexOk) (HO : HashOk) (leaves : list string) (t : MerkleTree) (i : nat) (x y : string) (p : list string) :
  build_merkle_tree leaves = Some t -> Forall hex32 leaves -> leaves !! i = Some x ->
  hex32 y -> Forall hex32 p -> length p = length (get_merkle_proof t i) ->
  verify_proof y p i (mt_root t) = true -> hex_decode y = hex_decode x \/ collision blake3.
Proof.
  intros Hb Hl Hi Hy Hp Lp Hv. apply bool_decide_eq_true in Hv.
  destruct (build_chain _ _ Hb) as (_ & ls & El & Hc).
  destruct (chain_complete _ _ Hc _ _ _ _ eq_refl Hi) as [_ Hlen]. unfold get_merkle_proof in Lp. rewrite El in Lp.
  apply (chain_binds HX HO _ _ Hc leaves ls i x y p); [done..|by rewrite Lp, Hlen|done].
Qed.

Lemma proof_verifies (leaves : list string) (t : MerkleTree) (i : nat) (x : string) :
  build_merkle_tree leaves = Some t -> leaves !! i = Some x ->
  verify_proof x (get_merkle_proof t i) i (mt_root t) = true.
Proof.
  intros Hb Hi. destruct (build_chain _ _ Hb) as (_ & ls & El & Hc). apply bool_decide_eq_true.
  unfold get_merkle_proof. rewrite El. by apply (chain_complete _ _ Hc _ _ _ _ eq_refl Hi).
Qed.

(** ** What the tree does not bind *)

(** The levels above a list are determined by it. *)
Lemma chain_root_unique (ls : list (list string)) (r : string) :
  chain ls r -> forall l ks ks' r', ls = l :: ks -> chain (l :: ks') r' -> r = r'.
Proof.
  induction 1 as [r|l l' ls r Hl En Hc IH]; intros l0 ks ks' r' Eq H'; injection Eq as <- <-.
  - inversion H' as [|? ? ? ? Hl]; subst; [done|]. cbn in Hl. lia.
  - inversion H' as [|? l'' ? ? _ En' Hc']; subst; [cbn in Hl; lia|].
    assert (l'' = l') as -> by congruence. by eapply IH.
Qed.

(** A last leaf repeated once gives the same root. *)
Lemma odd_leaf_repeated (HX : HexOk) (l : list string) (x : string) :
  Nat.even (length l) = true -> l <> [] -> Forall hex_node (l ++ [x]) ->
  exists t t', build_merkle_tree (l ++ [x]) = Some t /\ build_merkle_tree (l ++ [x; x]) = Some t' /\ mt_root t = mt_root t'.
Proof.
  intros He Hne Hx.
  destruct (build_total HX (l ++ [x])) as [t Ht]; [by destruct l|done|].
  destruct (build_total HX (l ++ [x; x])) as [t' Ht']; [by destruct l| |].
  { apply Forall_app in Hx as [H1 H2]. apply Forall_app. split; [done|]. apply Forall_cons in H2 as [? ?]. by repeat constructor. }
  exists t, t'. split; [done|]. split; [done|].
  destruct (build_chain _ _ Ht) as (_ & ls & _ & Hc), (build_chain _ _ Ht') as (_ & ls' & _ & Hc').
  assert (next_level (l ++ [x]) = next_level (l ++ [x; x])) as En by (by rewrite !next_level_app by done).
  assert (2 <= length l)%nat as Hl by (destruct l as [|? [|? ?]]; cbn in *; [done|done|lia]).
  inversion Hc as [? E|? k1 ks1 ? _ En1 Hc1]; subst.
  { apply (f_equal length) in E. rewrite length_app in E. cbn in E. lia. }
  inversion Hc' as [? E|? k2 ks2 ? _ En2 Hc2]; subst.
  { apply (f_equal length) in E. rewrite length_app in E. cbn in E. lia. }
  assert (k2 = k1) as -> by congruence. by eapply chain_root_unique.
Qed.

(** Any string verifies against the root of a tree of two or more leaves when
    the sibling may hold both children of the root: the empty leaf does. *)
Lemma forged_leaf (HX : HexOk) (a b : bytes) (leaf : string) (i : nat) :
  hex_decode leaf = Ok [] \/ ok (hex_decode leaf) = None ->
  verify_proof leaf [hex_encode (a ++ b)] i (hex_encode (blake3 (a ++ b))) = true.
Proof.
  intros Hl. apply bool_decide_eq_true. cbn [verify_walk]. unfold verify_step. do 2 f_equal.
  assert (ok (hex_decode leaf) = Some [] \/ ok (hex_decode leaf) = None) as Hl' by (destruct Hl as [->|]; auto).
  destruct (Nat.even i); cbn [omap list_omap]; rewrite hex_roundtrip; cbn [ok];
    destruct Hl' as [->| ->]; cbn; by rewrite app_nil_r.
Qed.

Lemma next_level_node (l k : list string) :
  next_level l = Some k -> Forall (fun s => exists a b, s = hex_encode (blake3 (a ++ b))) k.
Proof.
  assert (forall a b s, blake3_hash_format a b = Some s -> exists x y, s = hex_encode (blake3 (x ++ y))) as Hs.
  { intros a b s E. unfold blake3_hash_format in E. destruct (hex_decode a) as [x|], (hex_decode b) as [y|]; try done.
    exists x, y. by injection E as <-. }
  revert k. induction l as [|a|a b l IH] using pairs_ind; intros k E; cbn in E.
  - injection E as <-. constructor.
  - destruct (blake3_hash_format a a) eqn:Ea; [|done]. injection E as <-. eauto using Forall.
  - destruct (blake3_hash_format a b) eqn:Ea; [|done]. cbn in E. destruct (next_level l); [|done].
    injection E as <-. eauto using Forall.
Qed.

Lemma chain_root_node (ls : list (list string)) (r : string) :
  chain ls r -> forall l rest, ls = l :: rest -> (1 < length l)%nat -> exists a b, r = hex_encode (blake3 (a ++ b)).
Proof.
  induction 1 as [r|l l' ls r Hl En Hc IH]; intros l0 rest Eq Hl0; injection Eq as <- <-; [cbn in Hl0; lia|].
  inversion Hc as [|? ? ? ? Hl' En' Hc']; subst.
  - apply next_level_node in En. by apply Forall_cons in En as [? _].
  - by apply (IH _ _ eq_refl).
Qed.

End Merkle.

(** ** Properties *)

(** The Merkle tree of canary leaves: for every non-empty list of 32-byte
    hashes the builder returns a tree; the proof of every leaf verifies; and
    whatever 32-byte string verifies at its place, with 32-byte siblings one
    per level, is that leaf, or BLAKE3 collides. *)
Theorem merkle_tree_correct `{SK : Sdk, HX : !HexOk, HO : !HashOk} (leaves : list string) :
  leaves <> [] -> Forall hex32 leaves ->
  exists t, build_merkle_tree leaves = Some t /\ mt_leaves t = leaves /\
    forall i x, leaves !! i = Some x ->
      verify_proof x (get_merkle_proof t i) i (mt_root t) = true /\
      forall y p, hex32 y -> Forall hex32 p -> length p = length (get_merkle_proof t i) ->
        verify_proof y p i (mt_root t) = true -> hex_decode y = hex_decode x \/ collision blake3.
Proof.
  intros Hne Hl. destruct (build_total HX leaves Hne) as [t Ht].
  { apply (Forall_impl _ _ _ Hl). intros s (b & Hb & _). by exists b. }
  exists t. split; [done|]. split; [by apply build_chain|]. intros i x Hi. split; [by apply (proof_verifies leaves)|].
  intros y p Hy Hp Lp Hv. by apply (proof_binds HX HO leaves t i x y p).
Qed.

(** The limits of [verify_proof]: it does not ask for the length of a proof
    or of a sibling, so the empty leaf verifies at every index against the
    root of every tree of two or more leaves. *)
Lemma merkle_empty_leaf_accepted `{SK : Sdk, HX : !HexOk, HT : !HexText, HO : !HashOk} (leaves : list string) (t : MerkleTree) :
  build_merkle_tree leaves = Some t -> (1 < length leaves)%nat ->
  exists sibling, forall i, verify_proof "" [sibling] i (mt_root t) = true.
Proof.
  intros Hb Hl. destruct (build_chain _ _ Hb) as (_ & ls & _ & Hc).
  destruct (chain_root_node _ _ Hc _ _ eq_refl Hl) as (a & b & ->). exists (hex_encode (a ++ b)). intros i.
  apply (forged_leaf HX). left. assert (hex_encode [] = "") as <-; [|apply hex_roundtrip].
  apply chars_inj. pose proof (hex_text_len []) as E. by destruct (chars (hex_encode [])).
Qed.

(** ** A concrete instance *)

Module ToyMerkle.
#[local] Existing Instance Toy.sdk.
Definition leaf (n : Z) : string := hex_encode (blake3 (be_bytes 8 n)).
Definition leaves : list string := map leaf [1; 2; 3; 4; 5].
End ToyMerkle.

Lemma merkle_tree_correct_witness :
  exists t, @build_merkle_tree Toy.sdk ToyMerkle.leaves = Some t /\
    @verify_proof Toy.sdk (ToyMerkle.leaf 5) (get_merkle_proof t 4) 4 (mt_root t) = true.
Proof.
  destruct (@merkle_tree_correct Toy.sdk _ _ ToyMerkle.leaves) as (t & Ht & _ & Hv).
  - done.
  - repeat constructor; eexists; (split; [apply hex_roundtrip|reflexivity]).
  - exists t. split; [exact Ht|]. exact (proj1 (Hv 4%nat (ToyMerkle.leaf 5) eq_refl)).
Defined.
