(* ===== verification/CanaryTree.v ===== *)
(** * Canary embedding: source trees, strategies and the embedding run
    (origin-canary/src/embed.rs, strategies/traits.rs, strategies/impls/mod.rs, manifest.rs)

    A source tree is a tree of named entries; a path is the list of names
    below the source directory, which is what [strip_prefix(source_dir)]
    leaves.  Files may refuse reading or writing, and a directory may refuse
    to be listed, with the error [read_dir] reports.
    Directory entries come in the order of the tree, so a theorem over all
    trees covers every order of [read_dir].  File contents and lines are
    bytes. *)

From Stdlib Require Import Ascii String.
From S2P Require Import Prelude RustStr Bytes RustText Sdk CanaryMerkle.

(** ** Source trees *)

Record Perms := MkPerms { readable : bool; writable : bool }.

Inductive node :=
| NFile (perms : Perms) (content : bytes)
| NDir (denied : option string) (entries : list (string * node)).

Abbreviation rel_path := (list string).

Fixpoint entry (name : string) (es : list (string * node)) : option node :=
  match es with
  | [] => None
  | (n, ch) :: es' => if String.eqb n name then Some ch else entry name es'
  end.

Fixpoint get_file (p : rel_path) (n : node) : option (Perms * bytes) :=
  match p, n with
  | [], NFile perms c => Some (perms, c)
  | x :: p', NDir _ es => ch ← entry x es; get_file p' ch
  | _, _ => None
  end.

Fixpoint set_entry (name : string) (f : node -> node) (es : list (string * node)) : list (string * node) :=
  match es with
  | [] => []
  | (n, ch) :: es' => if String.eqb n name then (n, f ch) :: es' else (n, ch) :: set_entry name f es'
  end.

(** The tree with the file at [p] holding [c]. *)
Fixpoint set_file (p : rel_path) (c : bytes) (n : node) : node :=
  match p, n with
  | [], NFile perms _ => NFile perms c
  | x :: p', NDir b es => NDir b (set_entry x (set_file p' c) es)
  | _, _ => n
  end.

Definition is_dir (n : node) : bool := match n with NDir _ _ => true | NFile _ _ => false end.

(** [fs::read], [fs::read_to_string] and [fs::write] on an existing file. *)
Definition fs_read (p : rel_path) (n : node) : option bytes :=
  '(perms, c) ← get_file p n; if readable perms then Some c else None.
Definition fs_read_to_string (p : rel_path) (n : node) : option bytes :=
  c ← fs_read p n; if utf8_valid c then Some c else None.
Definition fs_write (p : rel_path) (c : bytes) (n : node) : option node :=
  '(perms, _) ← get_file p n; if writable perms then Some (set_file p c n) else None.

(** [to_string_lossy]. *)
Definition lossy (s : string) : string := of_chars (utf8_lossy (chars s)).
Fixpoint join_path (p : rel_path) : string :=
  match p with [] => "" | [x] => x | x :: p' => x +:+ "/" +:+ join_path p' end.
Definition path_lossy (p : rel_path) : string := lossy (join_path p).
(** The components [source_dir.join(s)] adds. *)
Definition components (s : string) : rel_path :=
  map of_chars (filter (fun c => c <> [] /\ c <> chars ".") (split_on slash (chars s))).
Definition ext_of (name : string) : option string := of_chars <$> extension name.
(** The name of the last component. *)
Definition base_name (p : rel_path) : string := default "" (last p).

(** *** The recursion all scanners share: listable directories that are not skipped *)
Section Walk.
Context {A : Type} (skip : string -> bool) (visit : rel_path -> Perms -> bytes -> list A).

Fixpoint walk (p : rel_path) (n : node) : list A :=
  match n with
  | NFile perms c => visit p perms c
  | NDir (Some _) _ => []
  | NDir None es =>
      (fix go (es : list (string * node)) : list A :=
         match es with
         | [] => []
         | (name, ch) :: es' =>
             (if is_dir ch && skip (lossy name) then [] else walk (p ++ [name]) ch) ++ go es'
         end) es
  end.

(** [read_dir] on the source directory. *)
Definition walk_root (n : node) : list A := if is_dir n then walk [] n else [].
End Walk.

Definition mem (l : list string) (s : string) : bool := existsb (String.eqb s) l.

(** The directories skipped by [scan_for_ext], [scan_for_token] and [collect_files]. *)
Definition EXCLUSIONS : list string :=
  ["test"; "tests"; "__pycache__"; "node_modules"; ".git"; "venv"; ".venv"; "build"; "dist"; "target"; ".tox"; ".nox"; ".eggs"].
Definition SOURCE_EXTS : list string :=
  ["py"; "js"; "jsx"; "ts"; "tsx"; "rs"; "sol"; "c"; "cpp"; "h"; "hpp"; "go"; "java"; "kt"].
Definition TEXT_EXTS : list string :=
  ["txt"; "md"; "markdown"; "json"; "yaml"; "yml"; "toml"; "csv"; "cfg"; "log"; "xml"; "rst"; "adoc"].

Definition scan_for_ext (exts : list string) (n : node) : list rel_path :=
  walk_root (mem EXCLUSIONS)
    (fun p _ c =>
       if 500000 <=? Z.of_nat (length c) then []
       else match ext_of (base_name p) with
            | Some e => if utf8_valid (chars e) && mem exts e then [p] else []
            | None => []
            end) n.

Definition find_files_by_ext (exts : list string) (n : node) : option (list rel_path) :=
  match scan_for_ext exts n with [] => None | files => Some files end.

(** [scan_files] of [embed.rs]: directories below the source directory with
    the extensions to look for in each, sorted. *)
Definition SCAN_EXCLUSIONS : list string :=
  ["test"; "tests"; "__test__"; "__tests__"; "__pycache__"; "node_modules"; ".git"; "venv"; ".venv"; ".env"; "build"; "dist";
   "target"; ".tox"; ".nox"; ".eggs"; "tools"].

Fixpoint get_node (p : rel_path) (n : node) : option node :=
  match p, n with
  | [], _ => Some n
  | x :: p', NDir _ es => ch ← entry x es; get_node p' ch
  | _ :: _, NFile _ _ => None
  end.

Fixpoint path_leb (p q : rel_path) : bool :=
  match p, q with
  | [], _ => true
  | _, [] => false
  | x :: p', y :: q' => if String.eqb x y then path_leb p' q' else String.leb x y
  end.
(** The order of [PathBuf]: component by component. *)
Definition path_le (p q : rel_path) : Prop := path_leb p q = true.
#[global] Instance path_le_dec (p q : rel_path) : Decision (path_le p q).
Proof. unfold path_le. apply _. Defined.

Definition scan_dir (exts : list string) (dir : rel_path) (n : node) : list rel_path :=
  if is_dir n then
    walk (mem SCAN_EXCLUSIONS)
      (fun p _ c =>
         match ext_of (base_name p) with
         | Some e => if mem exts (lossy e) && (Z.of_nat (length c) <? 500000) then [p] else []
         | None => []
         end) dir n
  else [].

Definition scan_files (extensions : list (string * list string)) (root : node) : list rel_path :=
  merge_sort path_le (concat (map (fun de =>
    let dir := components (fst de) in
    match get_node dir root with Some n => scan_dir (snd de) dir n | None => [] end) extensions)).

(** ** The random generator *)

Definition next_u32 (state : Z) : Z * Z :=
  let s1 := Z.lxor state (wrap_u64 (Z.shiftl state 13)) in
  let s2 := Z.lxor s1 (Z.shiftr s1 7) in
  let s3 := Z.lxor s2 (wrap_u64 (Z.shiftl s2 17)) in
  (Z.shiftr s3 32, s3).

Definition choose {A : Type} (rng : Z) (slice : list A) : option A * Z :=
  match slice with
  | [] => (None, rng)
  | _ => let '(v, rng') := next_u32 rng in (slice !! Z.to_nat (v mod Z.of_nat (length slice)), rng')
  end.

(** ** Tokens and manifests *)

Record CanaryToken := MkToken {
  ct_token_id : Z;
  ct_secret : string;
  ct_embedding_type : string;
  ct_target_file : string;
  ct_line_number : Z;
  ct_merkle_leaf : option string;
  ct_merkle_proof : list string
}.

Record CanaryManifest := MkCanaryManifest {
  cm_project_id : Z;
  cm_distribution_id : string;
  cm_salt : string;
  cm_source_tree_hash : string;
  cm_token_count : Z;
  cm_canary_tokens : list CanaryToken;
  cm_merkle_root : option string
}.

(** What a strategy changes: the tree, the generator and the files used. *)
Record EmbedState := MkEmbed { es_tree : node; es_rng : Z; es_used : gset rel_path }.

Definition pick_target (files : list rel_path) (st : EmbedState) : option rel_path * EmbedState :=
  let unused := filter (fun f => f ∉ es_used st) files in
  let pool := match unused with [] => files | _ => unused end in
  let '(t, rng) := choose (es_rng st) pool in
  (t, MkEmbed (es_tree st) rng (es_used st)).

(** ** Insertion points *)

Definition starts (p : string) (l : bytes) : bool := starts_with (chars p) l.


Fixpoint python_imports (i : nat) (ls : list bytes) (insert_at : nat) (in_imports : bool) : nat :=
  match ls with
  | [] => insert_at
  | line :: ls' =>
      let s := trim_chars line in
      if starts "import " s || starts "from " s then python_imports (S i) ls' (S i) true
      else if in_imports && negb (bool_decide (s = [])) && negb (starts "#" s)
      then python_imports (S i) ls' (Nat.max insert_at i) false
      else python_imports (S i) ls' insert_at in_imports
  end.

(** The last line (from index [i]) for which [p] holds, as an insertion point. *)
Fixpoint last_after (p : bytes -> bool) (i : nat) (ls : list bytes) (insert_at : nat) : nat :=
  match ls with
  | [] => insert_at
  | line :: ls' => last_after p (S i) ls' (if p line then S i else insert_at)
  end.
Fixpoint max_after (p : bytes -> bool) (i : nat) (ls : list bytes) (insert_at : nat) : nat :=
  match ls with
  | [] => insert_at
  | line :: ls' => max_after p (S i) ls' (if p line then Nat.max insert_at (S i) else insert_at)
  end.

Definition find_python_insertion_point (ls : list bytes) : nat :=
  let at1 := python_imports 0 ls 0 false in
  let at2 := max_after (fun l => starts "#!" l || contains "Copyright" l || contains "SPDX" l) 0 (take 5 ls) at1 in
  Nat.min at2 (length ls).

Definition find_js_insertion_point (ls : list bytes) : nat :=
  let at1 := last_after (fun l => let s := trim_chars l in starts "import " s || starts "export " s || starts "require(" s) 0 ls 0 in
  let at2 := max_after (starts "#!") 0 (take 5 ls) at1 in
  Nat.min at2 (length ls).

Definition find_rust_insertion_point (ls : list bytes) : nat :=
  let at1 := last_after (fun l => let s := trim_chars l in starts "use " s || starts "extern crate" s) 0 ls 0 in
  let at2 := max_after (fun l => starts "mod " (trim_chars l)) 0 ls at1 in
  Nat.min at2 (length ls).

Fixpoint solidity_scan (i : nat) (ls : list bytes) (insert_at : nat) : nat :=
  match ls with
  | [] => insert_at
  | line :: ls' =>
      let t := trim_chars line in
      let insert_at' := if starts "pragma " t || starts "import " t then S i else insert_at in
      if starts "contract " t || starts "interface " t || starts "library " t then insert_at'
      else solidity_scan (S i) ls' insert_at'
  end.
Definition find_solidity_insertion_point (ls : list bytes) : nat := Nat.min (solidity_scan 0 ls 0) (length ls).

(** ** Strategies *)

(** [Vec::insert] at an index at most the length. *)
Definition insert_lines (i : nat) (new ls : list bytes) : list bytes := take i ls ++ new ++ drop i ls.

Definition ends_with_lf (c : bytes) : bool := match last c with Some a => Ascii.eqb a lf | None => false end.

Definition write_lines_preserving (target : rel_path) (ls : list bytes) (original : bytes) (n : node) : option node :=
  fs_write target (join_lf ls ++ (if ends_with_lf original then [lf] else [])) n.

Definition mark_used (p : rel_path) (n : node) (st : EmbedState) : EmbedState :=
  MkEmbed n (es_rng st) ({[p]} ∪ es_used st).

Definition dq : string := of_chars [byte_of 34].
Definition nl : string := of_chars [lf].

(** The body the four [variable.*] strategies share: [point] is where the
    line goes, [inject target token] the line. *)
Definition variable_inject (exts : list string) (point : list bytes -> nat) (inject : rel_path -> CanaryToken -> string)
    (token : CanaryToken) (st : EmbedState) : option string * EmbedState :=
  match find_files_by_ext exts (es_tree st) with
  | None => (None, st)
  | Some files =>
      match pick_target files st with
      | (None, st1) => (None, st1)
      | (Some target, st1) =>
          match fs_read_to_string target (es_tree st1) with
          | None => (None, st1)
          | Some content =>
              let ls := lines content in
              let ls' := insert_lines (point ls) [chars (inject target token)] ls in
              match write_lines_preserving target ls' content (es_tree st1) with
              | None => (None, st1)
              | Some n => (Some (path_lossy target), mark_used target n st1)
              end
          end
      end
  end.

Definition quoted (t : CanaryToken) : string := dq +:+ ct_secret t +:+ dq.

Definition python_line (_ : rel_path) (t : CanaryToken) : string :=
  "_canary_" +:+ show_Z (ct_token_id t) +:+ " = " +:+ quoted t +:+ "  # Internal validation marker" +:+ nl.
Definition js_line (target : rel_path) (t : CanaryToken) : string :=
  let suffix := lossy (default "" (ext_of (base_name target))) in
  "const _canary_" +:+ show_Z (ct_token_id t) +:+ " = " +:+ quoted t +:+
  (if String.eqb suffix "ts" || String.eqb suffix "tsx" then " as string; // Internal validation marker"
   else "; // Internal validation marker") +:+ nl.
Definition rust_line (_ : rel_path) (t : CanaryToken) : string :=
  "const CANARY_" +:+ show_Z (ct_token_id t) +:+ ": &str = " +:+ quoted t +:+ "; // Internal validation marker" +:+ nl.
Definition solidity_line (_ : rel_path) (t : CanaryToken) : string :=
  "string constant canary_" +:+ show_Z (ct_token_id t) +:+ " = " +:+ quoted t +:+ "; // Internal marker" +:+ nl.

Definition embed_python := variable_inject ["py"] find_python_insertion_point python_line.
Definition embed_javascript := variable_inject ["js"; "jsx"; "ts"; "tsx"] find_js_insertion_point js_line.
Definition embed_rust := variable_inject ["rs"] find_rust_insertion_point rust_line.
Definition embed_solidity := variable_inject ["sol"] find_solidity_insertion_point solidity_line.

(** *** Watermark *)

Definition long_comment (line : bytes) : bool :=
  let t := trim_chars line in
  (starts "#" t || starts "//" t || starts "/*" t || starts "*" t) && (15 <? length t)%nat.

(** The first long comment gets the watermark. *)
Fixpoint mark_comment (w : bytes) (ls : list bytes) : option (list bytes) :=
  match ls with
  | [] => None
  | line :: ls' => if long_comment line then Some ((line ++ w) :: ls') else (line ::.) <$> mark_comment w ls'
  end.

Definition module_head (line : bytes) : bool :=
  let t := trim_chars line in
  starts "#!" t || starts "package " t || starts "use " t || starts "import " t || starts "extern " t.

Definition watermark_lines (secret : string) (ls : list bytes) : list bytes * bool :=
  let w := "[ref:" +:+ secret +:+ "]" in
  match mark_comment (chars w) ls with
  | Some ls' => (ls', false)
  | None =>
      (match position module_head (take 10 ls) with
       | Some i => insert_lines (S i) [chars ("# Module reference: " +:+ w)] ls
       | None => insert_lines 0 [chars ("# Module reference: " +:+ w +:+ nl)] ls
       end, true)
  end.

(** A file whose comment is extended is not recorded as used. *)
Definition embed_watermark (token : CanaryToken) (st : EmbedState) : option string * EmbedState :=
  match find_files_by_ext (SOURCE_EXTS ++ TEXT_EXTS) (es_tree st) with
  | None => (None, st)
  | Some files =>
      match pick_target files st with
      | (None, st1) => (None, st1)
      | (Some target, st1) =>
          match fs_read_to_string target (es_tree st1) with
          | None => (None, st1)
          | Some content =>
              let '(ls', record) := watermark_lines (ct_secret token) (lines content) in
              match write_lines_preserving target ls' content (es_tree st1) with
              | None => (None, st1)
              | Some n => (Some (path_lossy target),
                           if record then mark_used target n st1 else MkEmbed n (es_rng st1) (es_used st1))
              end
          end
      end
  end.

(** *** Dead code *)

Fixpoint take_blanks (l : bytes) : bytes :=
  match l with
  | a :: l' => if Ascii.eqb a " "%char || Ascii.eqb a (byte_of 9) then a :: take_blanks l' else []
  | [] => []
  end.
Definition find_indent (line : bytes) : bytes := match take_blanks line with [] => chars "    " | i => i end.

Definition is_def (line : bytes) : bool := let s := trim_chars line in starts "def " s || starts "async def " s.
Fixpoint def_lines (i : nat) (ls : list bytes) : list nat :=
  match ls with
  | [] => []
  | l :: ls' => (if is_def l then [i] else []) ++ def_lines (S i) ls'
  end.

(** [format!("{:08x}", n)] of a [u64]: no leading zeros beyond eight digits. *)
Fixpoint hex_digits (w : nat) (n : Z) : bytes :=
  match w with O => [] | S w' => hex_digits w' (n / 16) ++ [hex_nibble (n mod 16)] end.
Definition fmt_08x (n : Z) : bytes := if n <? 2 ^ 32 then hex_digits 8 n else hex_digits (Z.to_nat (Z.log2 n / 4 + 1)) n.

Definition dead_code (indent : bytes) (magic : bytes) (secret : string) : list bytes :=
  map (app indent)
    [ chars "# Internal validation helper";
      chars "def _validate_" ++ magic ++ chars "():";
      chars ("    if isinstance(globals().get(" +:+ dq +:+ "_config" +:+ dq +:+ "), dict):");
      chars "        return True";
      chars "    _marker_" ++ magic ++ chars (" = " +:+ dq +:+ secret +:+ dq);
      chars "    return False";
      [] ].

Section Embed.
(** [DefaultHasher] over a string: the standard library leaves the algorithm open. *)
Context `{SK : Sdk} (default_hash : string -> Z).

Definition embed_deadcode (token : CanaryToken) (st : EmbedState) : option string * EmbedState :=
  match find_files_by_ext ["py"] (es_tree st) with
  | None => (None, st)
  | Some files =>
      match pick_target files st with
      | (None, st1) => (None, st1)
      | (Some target, st1) =>
          match fs_read_to_string target (es_tree st1) with
          | None => (None, st1)
          | Some content =>
              let ls := lines content in
              match choose (es_rng st1) (def_lines 0 ls) with
              | (None, _) => (None, st1)
              | (Some func_idx, rng) =>
                  let st2 := MkEmbed (es_tree st1) rng (es_used st1) in
                  let indent := find_indent (default [] (ls !! func_idx)) in
                  let magic_short := take 4 (fmt_08x (default_hash (ct_secret token))) in
                  let code := dead_code indent magic_short (ct_secret token) in
                  let insert_at := (func_idx + 2)%nat in
                  let ls' := if (insert_at <? length ls)%nat then insert_lines insert_at code ls else ls ++ code in
                  match write_lines_preserving target ls' content (es_tree st2) with
                  | None => (None, st2)
                  | Some n => (Some (path_lossy target), mark_used target n st2)
                  end
              end
          end
      end
  end.

Inductive Strategy := VariableInjectPython | VariableInjectJavaScript | VariableInjectRust | VariableInjectSolidity
  | WatermarkStrategy | DeadCodePython.

Definition strategy_embed (s : Strategy) : CanaryToken -> EmbedState -> option string * EmbedState :=
  match s with
  | VariableInjectPython => embed_python
  | VariableInjectJavaScript => embed_javascript
  | VariableInjectRust => embed_rust
  | VariableInjectSolidity => embed_solidity
  | WatermarkStrategy => embed_watermark
  | DeadCodePython => embed_deadcode
  end.

Definition build_strategies : gmap string Strategy :=
  list_to_map [("variable.python", VariableInjectPython); ("variable.javascript", VariableInjectJavaScript);
    ("variable.rust", VariableInjectRust); ("variable.solidity", VariableInjectSolidity);
    ("watermark", WatermarkStrategy); ("deadcode.python", DeadCodePython)].

(** ** The embedding run *)

Record EmbedConfig := MkConfig {
  ec_source_dir : string;
  ec_project_id : Z;
  ec_distribution_id : string;
  ec_salt : string;
  ec_num_canaries : Z;
  ec_manifest_out : option string;
  ec_strategy_names : list string
}.

Definition lower_string (s : string) : string := of_chars (map lower (chars s)).

Definition generate_canary_token (project_id : Z) (distribution_id : string) (index : Z) (salt : string) : string :=
  let data := show_Z project_id +:+ distribution_id +:+ show_Z index +:+ salt +:+ "canary-v1" in
  let hex_hash := lower_string (hex_encode (blake3 (chars data))) in
  "canary_" +:+ of_chars (take 12 (chars hex_hash)).

Definition leaf_hash (secret : string) (project_id : Z) (distribution_id : string) (i : Z) : string :=
  hex_encode (blake3 (chars (secret +:+ "|" +:+ show_Z project_id +:+ "|" +:+ distribution_id +:+ "|" +:+ show_Z i))).

(** [collect_files]: a directory that cannot be listed is an error. *)
Fixpoint collect_files (p : rel_path) (n : node) : result string (list rel_path) :=
  match n with
  | NFile _ _ => Ok (match ext_of (base_name p) with Some e => if mem SOURCE_EXTS (lossy e) then [p] else [] | None => [] end)
  | NDir (Some e) _ => Err e
  | NDir None es =>
      (fix go (es : list (string * node)) : result string (list rel_path) :=
         match es with
         | [] => Ok []
         | (name, ch) :: es' =>
             fs ← (if is_dir ch && mem EXCLUSIONS (lossy name) then Ok [] else collect_files (p ++ [name]) ch);
             rest ← go es'; Ok (fs ++ rest)
         end) es
  end.

Definition tree_file_bytes (n : node) (p : rel_path) : bytes :=
  (if utf8_valid (chars (base_name p)) then chars (base_name p) else chars "unknown") ++ default [] (fs_read p n).

(** Names and contents of the sorted files, into one hash. *)
Definition hash_source_tree (n : node) : result string string :=
  files ← (if is_dir n then collect_files [] n else Err "Not a directory (os error 20)");
  Ok (lower_string (hex_encode (blake3 (concat (map (tree_file_bytes n) (merge_sort path_le files)))))).

Definition new_token (config : EmbedConfig) (i : nat) : CanaryToken :=
  MkToken (Z.of_nat i)
    (generate_canary_token (ec_project_id config) (ec_distribution_id config) (Z.of_nat i) (ec_salt config))
    (default "" (ec_strategy_names config !! (i mod length (ec_strategy_names config))%nat)) "" 0 None [].

Definition set_target (f : string) (t : CanaryToken) : CanaryToken :=
  MkToken (ct_token_id t) (ct_secret t) (ct_embedding_type t) f (ct_line_number t) (ct_merkle_leaf t) (ct_merkle_proof t).
Definition set_line (l : Z) (t : CanaryToken) : CanaryToken :=
  MkToken (ct_token_id t) (ct_secret t) (ct_embedding_type t) (ct_target_file t) l (ct_merkle_leaf t) (ct_merkle_proof t).
Definition set_proof (leaf : string) (proof : list string) (t : CanaryToken) : CanaryToken :=
  MkToken (ct_token_id t) (ct_secret t) (ct_embedding_type t) (ct_target_file t) (ct_line_number t) (Some leaf) proof.

(** The loop over the tokens, with the files modified. *)
Fixpoint embed_tokens (ts : list CanaryToken) (st : EmbedState) : list CanaryToken * list string * EmbedState :=
  match ts with
  | [] => ([], [], st)
  | t :: ts' =>
      let '(o, st1) := match build_strategies !! ct_embedding_type t with
                       | None => (None, st)
                       | Some s => strategy_embed s t st
                       end in
      let '(us, ms, st2) := embed_tokens ts' st1 in
      match o with
      | Some f => (set_target f t :: us, f :: ms, st2)
      | None => (t :: us, ms, st2)
      end
  end.

Definition locate (n : node) (t : CanaryToken) : CanaryToken :=
  match fs_read_to_string (components (ct_target_file t)) n with
  | Some content =>
      match position (contains (ct_secret t)) (lines content) with
      | Some idx => set_line (Z.of_nat idx + 1) t
      | None => t
      end
  | None => t
  end.

Record EmbedResult := MkEmbedResult { er_manifest : CanaryManifest; er_modified_files : list string; er_merkle_root : string }.

(** What becomes of the tokens once embedded: tree hash, Merkle tree, manifest.
    [None] is a panic. *)
Definition finish_embed (save : string -> CanaryManifest -> result string unit) (config : EmbedConfig)
    (tokens : list CanaryToken) (modified_files : list string) (n : node) : option (result string EmbedResult) :=
  match hash_source_tree n with
  | Err e => Some (Err e)
  | Ok source_tree_hash =>
      let leaf_hashes := imap (fun i t => lower_string
        (leaf_hash (ct_secret t) (ec_project_id config) (ec_distribution_id config) (Z.of_nat i))) tokens in
      tree ← build_merkle_tree leaf_hashes;
      let tokens' := imap (fun i t => set_proof (default "" (mt_leaves tree !! i)) (get_merkle_proof tree i) t) tokens in
      let manifest := MkCanaryManifest (ec_project_id config) (ec_distribution_id config) (ec_salt config)
        source_tree_hash (Z.of_nat (length tokens')) tokens' (Some (mt_root tree)) in
      Some (match ec_manifest_out config with
            | Some out => _ ← save out manifest; Ok (MkEmbedResult manifest modified_files (mt_root tree))
            | None => Ok (MkEmbedResult manifest modified_files (mt_root tree))
            end)
  end.

Definition embed_seed (config : EmbedConfig) : Z :=
  wrap_u64 (wrap_u64 (wrap_u64 (ec_project_id config * 6364136223846793005)
    + Z.of_nat (length (chars (ec_distribution_id config)))) + Z.of_nat (length (chars (ec_salt config)))).

(** The whole run, with the tree it leaves behind. *)
Definition run_embed (save : string -> CanaryManifest -> result string unit) (config : EmbedConfig) (root : node) :
    option (result string EmbedResult) * node :=
  if negb (is_dir root) then (Some (Err ("source directory does not exist: " +:+ ec_source_dir config)), root)
  else if ec_num_canaries config =? 0 then (Some (Err "num_canaries must be at least 1"), root)
  else if bool_decide (ec_strategy_names config = []) then (Some (Err "at least one strategy must be specified"), root)
  else match find (fun name => bool_decide (build_strategies !! name = None)) (ec_strategy_names config) with
  | Some name => (Some (Err ("unknown strategy '" +:+ name +:+ "'")), root)
  | None =>
    let tokens := map (new_token config) (seq 0 (Z.to_nat (ec_num_canaries config))) in
    let '(tokens1, modified_files, st) := embed_tokens tokens (MkEmbed root (embed_seed config) ∅) in
    let tokens2 := filter (fun t => ct_target_file t <> "") tokens1 in
    if Z.of_nat (length tokens2) <? ec_num_canaries config
    then (Some (Err ("only embedded " +:+ show_Z (Z.of_nat (length tokens2)) +:+ " of " +:+ show_Z (ec_num_canaries config) +:+
      " requested tokens — not enough eligible source files for the selected strategies (need more files, more languages, or fewer tokens)")),
      es_tree st)
    else if bool_decide (tokens2 = []) then (Some (Err "no canary tokens were embedded — no embeddable files found for the given strategies"), es_tree st)
    else (finish_embed save config (map (locate (es_tree st)) tokens2) modified_files (es_tree st), es_tree st)
  end.

End Embed.
