(* ===== verification/Canary.v ===== *)
(** * Canary verification, commitments, fingerprints and evidence
    (origin-canary/src/verify.rs, commitment.rs, fingerprint.rs, evidence.rs)

    Payloads are rendered to canonical JSON, signed with the hybrid keys of
    the SDK ([NetCryptoOps]) and verified from their hex fields.  The serde
    derive of a fingerprint record is a parameter; the ledger is the bytes of
    its file. *)

From Stdlib Require Import Ascii String.
From S2P Require Import Prelude RustStr Bytes RustText Sdk NetAuth Jsonl CanaryMerkle CanaryTree.

(** ** Scanning ([verify.rs]) *)

Inductive IntegrityStatus := Intact | Tampered.

Record CanaryMatch := MkMatch {
  ma_token_id : Z;
  ma_secret : string;
  ma_file_path : string;
  ma_line_number : Z;
  ma_line_content : bytes
}.

Fixpoint boundary_below (line : bytes) (i : nat) : nat :=
  match i with
  | O => O
  | S i' => if is_char_boundary line i then i else boundary_below line i'
  end.

Definition truncate_line (line : bytes) (max_len : nat) : bytes :=
  if (length line <=? max_len)%nat then line
  else let limit := (max_len - 3)%nat in
       take (boundary_below line (Nat.min limit (length line))) line ++ chars "...".

(** The lines of a file that contain the secret. *)
Fixpoint line_matches (p : rel_path) (t : CanaryToken) (i : nat) (ls : list bytes) : list CanaryMatch :=
  match ls with
  | [] => []
  | line :: ls' =>
      (if contains (ct_secret t) line
       then [MkMatch (ct_token_id t) (ct_secret t) (path_lossy p) (Z.of_nat i + 1) (truncate_line line 120)] else [])
      ++ line_matches p t (S i) ls'
  end.

Definition scan_for_token (t : CanaryToken) (n : node) : list CanaryMatch :=
  walk_root (mem EXCLUSIONS)
    (fun p perms c =>
       match ext_of (base_name p) with
       | Some e =>
           if mem SOURCE_EXTS (lossy e) then
             if readable perms && utf8_valid c then line_matches p t 0 (lines c) else []
           else []
       | None => []
       end) n.

Definition verify_source (n : node) (manifest : CanaryManifest) : list CanaryMatch :=
  concat (map (fun t => scan_for_token t n) (cm_canary_tokens manifest)).

(** ** Canonical JSON ([commitment.rs]) *)

Definition key_le (a b : string * json) : Prop := String.leb (fst a) (fst b) = true.
#[global] Instance key_le_dec (a b : string * json) : Decision (key_le a b).
Proof. unfold key_le. apply _. Defined.

Fixpoint canonicalize (v : json) : json :=
  match v with
  | JObj l => JObj (merge_sort key_le (map (fun kv => (fst kv, canonicalize (snd kv))) l))
  | JArr l => JArr (map canonicalize l)
  | v => v
  end.

Definition COMMITMENT_VERSION : string := "canary-commitment-v1".

Record CommitmentPayload := MkCommitmentPayload {
  cp_version : string;
  cp_merkle_root : string;
  cp_structure : string;
  cp_project_id : Z;
  cp_distribution_id : string;
  cp_token_count : Z;
  cp_timestamp : Z
}.

(** The hex fields of a signed record. *)
Record SigFields := MkSigFields {
  sf_ed25519_sig : string;
  sf_falcon1024_sig : string;
  sf_ed25519_pk : string;
  sf_falcon1024_pk : string
}.

Record SignedCommitment := MkSignedCommitment {
  sc_payload : CommitmentPayload;
  sc_sig : SigFields;
  sc_domain : string
}.

Inductive Verification := Valid | Invalid (reason : string).

Definition commitment_json (p : CommitmentPayload) : json :=
  JObj [("version", JStr (cp_version p)); ("merkle_root", JStr (cp_merkle_root p)); ("structure", JStr (cp_structure p));
        ("project_id", JNum (cp_project_id p)); ("distribution_id", JStr (cp_distribution_id p));
        ("token_count", JNum (cp_token_count p)); ("timestamp", JNum (cp_timestamp p))].

Definition structure_json (m : CanaryManifest) : json :=
  JObj [("project_id", JNum (cm_project_id m)); ("distribution_id", JStr (cm_distribution_id m));
        ("token_count", JNum (cm_token_count m)); ("merkle_root", json_opt JStr (cm_merkle_root m));
        ("source_tree_hash", JStr (cm_source_tree_hash m))].

(** ** Fingerprints ([fingerprint.rs]) *)

Definition FINGERPRINT_VERSION : string := "canary-fingerprint-v1".

Record FingerprintPayload := MkFingerprintPayload {
  fp_version : string;
  fp_archive_hash : string;
  fp_archive_size : Z;
  fp_archive_name : string;
  fp_source_tree_hash : string;
  fp_merkle_root : string;
  fp_commitment_digest : string;
  fp_project_id : Z;
  fp_distribution_id : string;
  fp_timestamp : Z
}.

Record SignedFingerprint := MkSignedFingerprint {
  sfp_payload : FingerprintPayload;
  sfp_sig : SigFields;
  sfp_domain : string
}.

Definition fingerprint_json (p : FingerprintPayload) : json :=
  JObj [("version", JStr (fp_version p)); ("archive_hash", JStr (fp_archive_hash p)); ("archive_size", JNum (fp_archive_size p));
        ("archive_name", JStr (fp_archive_name p)); ("source_tree_hash", JStr (fp_source_tree_hash p));
        ("merkle_root", JStr (fp_merkle_root p)); ("commitment_digest", JStr (fp_commitment_digest p));
        ("project_id", JNum (fp_project_id p)); ("distribution_id", JStr (fp_distribution_id p));
        ("timestamp", JNum (fp_timestamp p))].

(** An archive on disk: its path's file name and what reading it gives. *)
Record Archive := MkArchive { ar_name : option string; ar_read : result string bytes }.

(** ** Evidence ([evidence.rs]) *)

Definition EVIDENCE_VERSION : string := "canary-evidence-v1".

Record MatchEvidence := MkMatchEvidence {
  me_match : CanaryMatch;
  me_merkle_leaf : string;
  me_merkle_proof : list string;
  me_leaf_index : nat;
  me_proof_ok : bool
}.

Record EvidencePackage := MkEvidence {
  ev_version : string;
  ev_project_id : Z;
  ev_distribution_id : string;
  ev_merkle_root : string;
  ev_matches : list MatchEvidence;
  ev_commitment : SignedCommitment;
  ev_fingerprint : option SignedFingerprint;
  ev_ledger_index : option nat;
  ev_timestamp : Z
}.

(** The serde derive of a ledger record. *)
Class FingerprintSerde := {
  fp_to_vec : SignedFingerprint -> result string bytes;
  fp_from_str : bytes -> result string SignedFingerprint
}.

Section Canary.
(** [pair_error] is the message of the SDK for a signature that does not verify. *)
Context `{SK : Sdk, NC : NetCryptoOps, FS : FingerprintSerde} (pair_error : bytes -> EdSig -> FalconSig -> string).

Definition verify_integrity (n : node) (manifest : CanaryManifest) : result string IntegrityStatus :=
  current ← hash_source_tree n;
  Ok (if String.eqb current (cm_source_tree_hash manifest) then Intact else Tampered).

(** [serde_json::to_vec] of the sorted value; [expect] panics otherwise. *)
Definition canonical_vec (j : json) : option bytes := json_to_vec (canonicalize j).
Definition canonical_bytes (p : CommitmentPayload) : option bytes := canonical_vec (commitment_json p).
Definition fp_canonical_bytes (p : FingerprintPayload) : option bytes := canonical_vec (fingerprint_json p).

Definition parse_ed25519_pk (hex_str : string) : result string bytes :=
  bytes ← map_err (fun e => "invalid ed25519_pk hex: " +:+ e) (hex_decode hex_str);
  if negb (length bytes =? 32)%nat
  then Err ("ed25519_pk must be 32 bytes, got " +:+ show_Z (Z.of_nat (length bytes)))
  else _ ← map_err (fun e => "invalid ed25519_pk bytes: " +:+ e) (ed_pk_check bytes); Ok bytes.

Definition parse_falcon_pk (hex_str : string) : result string bytes :=
  bytes ← map_err (fun e => "invalid falcon1024_pk hex: " +:+ e) (hex_decode hex_str);
  _ ← map_err (fun e => "invalid falcon1024_pk bytes: " +:+ e) (falcon_pk_check bytes); Ok bytes.

Definition parse_ed25519_sig (hex_str : string) : result string EdSig :=
  bytes ← map_err (fun e => "invalid ed25519_sig hex: " +:+ e) (hex_decode hex_str);
  map_err (fun e => "invalid ed25519_sig bytes: " +:+ e) (ed_from_slice bytes).

Definition parse_falcon_sig (hex_str : string) : result string FalconSig :=
  bytes ← map_err (fun e => "invalid falcon1024_sig hex: " +:+ e) (hex_decode hex_str);
  map_err (fun e => "invalid falcon1024_sig bytes: " +:+ e) (falcon_from_bytes bytes).

(** The body both [verify] methods share; [None] is the panic of the rendering. *)
Definition verify_fields (s : SigFields) (canonical : option bytes) : option (result string Verification) :=
  match (ed_pk ← parse_ed25519_pk (sf_ed25519_pk s);
         falcon_pk ← parse_falcon_pk (sf_falcon1024_pk s);
         ed_sig ← parse_ed25519_sig (sf_ed25519_sig s);
         falcon_sig ← parse_falcon_sig (sf_falcon1024_sig s);
         Ok (ed_pk, falcon_pk, ed_sig, falcon_sig)) with
  | Err e => Some (Err e)
  | Ok (ed_pk, falcon_pk, ed_sig, falcon_sig) =>
      m ← canonical;
      Some (Ok (if hybrid_pair_verify ed_pk falcon_pk m ed_sig falcon_sig then Valid
                else Invalid (pair_error m ed_sig falcon_sig)))
  end.

Definition commitment_verify (c : SignedCommitment) : option (result string Verification) :=
  verify_fields (sc_sig c) (canonical_bytes (sc_payload c)).
Definition fingerprint_verify (f : SignedFingerprint) : option (result string Verification) :=
  verify_fields (sfp_sig f) (fp_canonical_bytes (sfp_payload f)).

(** *** Creation *)

Definition manifest_structure_digest (m : CanaryManifest) : option string :=
  b ← canonical_vec (structure_json m); Some (hex_encode (blake3 b)).

Definition build_payload (m : CanaryManifest) (timestamp : Z) : option (result string CommitmentPayload) :=
  match cm_merkle_root m with
  | None => Some (Err "manifest has no merkle_root — embed canaries first")
  | Some root =>
      structure ← manifest_structure_digest m;
      Some (Ok (MkCommitmentPayload COMMITMENT_VERSION root structure (cm_project_id m) (cm_distribution_id m)
                  (cm_token_count m) timestamp))
  end.

Definition derive_bundle_domain (seed : bytes) (domain : string) : result string KeyBundle :=
  map_err (fun e => "key derivation failed: " +:+ e) (bundle_from_seed seed domain).

Definition commitment_domain (project_id : Z) : string := "canary-commitment-" +:+ show_Z project_id.
Definition derive_bundle (seed : bytes) (project_id : Z) : result string KeyBundle :=
  derive_bundle_domain seed (commitment_domain project_id).

Definition sig_fields (b : KeyBundle) (s : EdSig * FalconSig) : SigFields :=
  MkSigFields (hex_encode (ed_to_bytes s.1)) (hex_encode (falcon_as_bytes s.2))
    (hex_encode (bundle_ed25519_pk b)) (hex_encode (bundle_falcon1024_pk b)).

(** Deriving the bundle and signing canonical bytes. *)
Definition sign_with (bundle : result string KeyBundle) (canonical : option bytes) : option (result string SigFields) :=
  match bundle with
  | Err e => Some (Err e)
  | Ok b =>
      m ← canonical;
      Some (sig ← map_err (fun e => "signing failed: " +:+ e) (bundle_try_sign b m); Ok (sig_fields b sig))
  end.

Definition sign_commitment (m : CanaryManifest) (seed : bytes) (timestamp : Z) : option (result string SignedCommitment) :=
  r ← build_payload m timestamp;
  match r with
  | Err e => Some (Err e)
  | Ok payload =>
      r ← sign_with (derive_bundle seed (cm_project_id m)) (canonical_bytes payload);
      Some (s ← r; Ok (MkSignedCommitment payload s (commitment_domain (cm_project_id m))))
  end.

(** *** Archives *)

Definition hash_archive (a : Archive) : result string (string * Z) :=
  b ← ar_read a; Ok (hex_encode (blake3 b), Z.of_nat (length b)).

Definition matches_archive (f : SignedFingerprint) (a : Archive) : result string bool :=
  '(hash, size) ← hash_archive a;
  Ok (String.eqb hash (fp_archive_hash (sfp_payload f)) && (size =? fp_archive_size (sfp_payload f))).

Definition commitment_digest (c : SignedCommitment) : option string :=
  b ← canonical_bytes (sc_payload c); Some (hex_encode (blake3 b)).

Definition matches_commitment (f : SignedFingerprint) (c : SignedCommitment) : option (result string bool) :=
  v ← commitment_verify c;
  match v with
  | Err e => Some (Err e)
  | Ok (Invalid _) => Some (Ok false)
  | Ok Valid =>
      d ← commitment_digest c;
      Some (Ok (String.eqb (fp_commitment_digest (sfp_payload f)) d
                && String.eqb (fp_merkle_root (sfp_payload f)) (cp_merkle_root (sc_payload c))
                && (fp_project_id (sfp_payload f) =? cp_project_id (sc_payload c))
                && String.eqb (fp_distribution_id (sfp_payload f)) (cp_distribution_id (sc_payload c))))
  end.

(** The checks of [sign_fingerprint] on the manifest and the payload, in order. *)
Definition cross_bind (m : CanaryManifest) (p : CommitmentPayload) : result string string :=
  match cm_merkle_root m with
  | None => Err "manifest has no merkle_root"
  | Some root =>
      if negb (String.eqb root (cp_merkle_root p))
      then Err ("merkle_root mismatch: manifest has " +:+ root +:+ ", commitment has " +:+ cp_merkle_root p)
      else if negb (cm_project_id m =? cp_project_id p)
      then Err ("project_id mismatch: manifest " +:+ show_Z (cm_project_id m) +:+ ", commitment " +:+ show_Z (cp_project_id p))
      else if negb (String.eqb (cm_distribution_id m) (cp_distribution_id p))
      then Err ("distribution_id mismatch: manifest '" +:+ cm_distribution_id m +:+ "', commitment '" +:+ cp_distribution_id p +:+ "'")
      else Ok root
  end.

Definition sign_fingerprint (m : CanaryManifest) (c : SignedCommitment) (a : Archive) (seed : bytes) (timestamp : Z) :
    option (result string SignedFingerprint) :=
  v ← commitment_verify c;
  match v with
  | Err e => Some (Err e)
  | Ok (Invalid reason) => Some (Err ("commitment is invalid — refusing to fingerprint: " +:+ reason))
  | Ok Valid =>
      match (root ← cross_bind m (sc_payload c);
             '(hash, size) ← hash_archive a;
             match ar_name a with
             | None => Err "archive path has no file name"
             | Some name => Ok (root, hash, size, name)
             end) with
      | Err e => Some (Err e)
      | Ok (root, hash, size, name) =>
          digest ← commitment_digest c;
          let payload := MkFingerprintPayload FINGERPRINT_VERSION hash size name (cm_source_tree_hash m) root digest
                           (cm_project_id m) (cm_distribution_id m) timestamp in
          let domain := "canary-fingerprint-" +:+ show_Z (cm_project_id m) in
          r ← sign_with (derive_bundle_domain seed domain) (fp_canonical_bytes payload);
          Some (s ← r; Ok (MkSignedFingerprint payload s domain))
      end
  end.

(** *** The ledger *)

Definition non_blank (ls : list bytes) : list bytes := filter (fun l => blank l = false) ls.

(** [publish]: the index returned and the file left. *)
Definition publish (ledger : option bytes) (f : SignedFingerprint) : option (result string Z * option bytes) :=
  v ← fingerprint_verify f;
  Some (match v with
        | Err e => (Err e, ledger)
        | Ok (Invalid reason) => (Err ("refusing to publish invalid fingerprint: " +:+ reason), ledger)
        | Ok Valid =>
            match fp_to_vec f with
            | Err e => (Err ("cannot serialize fingerprint: " +:+ e), ledger)
            | Ok line =>
                let file := default [] ledger ++ line ++ [lf] in
                (if utf8_valid file then Ok (Z.of_nat (length (non_blank (lines file))) - 1)
                 else Err "cannot read back ledger: stream did not contain valid UTF-8", Some file)
            end
        end).

Fixpoint ledger_records (path : string) (i : Z) (ls : list bytes) : result string (list SignedFingerprint) :=
  match ls with
  | [] => Ok []
  | l :: ls' =>
      if blank l then ledger_records path (i + 1) ls'
      else
        r ← map_err (fun e => "ledger " +:+ path +:+ " line " +:+ show_Z (i + 1) +:+ " is malformed: " +:+ e) (fp_from_str l);
        rs ← ledger_records path (i + 1) ls';
        Ok (r :: rs)
  end.

Definition read_ledger (path : string) (ledger : option bytes) : result string (list SignedFingerprint) :=
  match ledger with
  | None => Err ("cannot read ledger " +:+ path +:+ ": No such file or directory (os error 2)")
  | Some raw =>
      if utf8_valid raw then ledger_records path 0 (lines raw)
      else Err ("cannot read ledger " +:+ path +:+ ": stream did not contain valid UTF-8")
  end.

(** ** Evidence packages *)

(** [matches!(verify(), Ok(Valid))]; [None] is a panic. *)
Definition is_valid (v : option (result string Verification)) : option bool :=
  v ← v; Some (match v with Ok Valid => true | _ => false end).

Definition proofs_ok (ms : list MatchEvidence) (root : string) : bool :=
  negb (bool_decide (ms = [])) &&
  forallb (fun m => me_proof_ok m && verify_proof (me_merkle_leaf m) (me_merkle_proof m) (me_leaf_index m) root) ms.

Definition all_checks (e : EvidencePackage) : option (list (string * bool)) :=
  c1 ← is_valid (commitment_verify (ev_commitment e));
  let c2 := String.eqb (cp_merkle_root (sc_payload (ev_commitment e))) (ev_merkle_root e)
            && (cp_project_id (sc_payload (ev_commitment e)) =? ev_project_id e) in
  let base := [("commitment signatures (Ed25519 + Falcon-1024)", c1);
               ("commitment ↔ manifest binding", c2);
               ("merkle proofs reconstruct root (" +:+ show_Z (Z.of_nat (length (ev_matches e))) +:+ " match(es))",
                proofs_ok (ev_matches e) (ev_merkle_root e))] in
  match ev_fingerprint e with
  | None => Some base
  | Some fp =>
      c4 ← is_valid (fingerprint_verify fp);
      d ← commitment_digest (ev_commitment e);
      let c5 := String.eqb (fp_commitment_digest (sfp_payload fp)) d
                && String.eqb (fp_merkle_root (sfp_payload fp)) (ev_merkle_root e) in
      Some (base ++ [("fingerprint signatures (Ed25519 + Falcon-1024)", c4); ("fingerprint ↔ commitment binding", c5)]
                 ++ match ev_ledger_index e with
                    | Some idx => [("ledger contains fingerprint at index " +:+ show_Z (Z.of_nat idx), true)]
                    | None => []
                    end)
  end.

Definition is_sound (e : EvidencePackage) : option bool := checks ← all_checks e; Some (forallb snd checks).

(** The fingerprint part of [assemble]: the record kept and its ledger index. *)
Definition check_fingerprint (c : SignedCommitment) (root : string) (f : option SignedFingerprint)
    (ledger : option (string * option bytes)) : option (result string (option SignedFingerprint * option nat)) :=
  match f with
  | None => Some (Ok (None, None))
  | Some fp =>
      v ← fingerprint_verify fp;
      match v with
      | Err e => Some (Err e)
      | Ok (Invalid reason) => Some (Err ("fingerprint is invalid: " +:+ reason))
      | Ok Valid =>
          d ← commitment_digest c;
          Some (if negb (String.eqb (fp_commitment_digest (sfp_payload fp)) d)
                then Err "fingerprint's commitment_digest does not match this commitment"
                else if negb (String.eqb (fp_merkle_root (sfp_payload fp)) root) then Err "fingerprint merkle_root mismatch"
                else match ledger with
                     | None => Ok (Some fp, None)
                     | Some (path, file) =>
                         records ← read_ledger path file;
                         match position (fun r => String.eqb (fp_archive_hash (sfp_payload r)) (fp_archive_hash (sfp_payload fp))) records with
                         | Some idx => Ok (Some fp, Some idx)
                         | None => Err ("fingerprint archive " +:+ fp_archive_name (sfp_payload fp) +:+ " not found in ledger " +:+ path)
                         end
                     end)
      end
  end.

(** One match with its token, the recomputed leaf and the walk of the proof. *)
Definition match_evidence (m : CanaryManifest) (root : string) (ma : CanaryMatch) : result string MatchEvidence :=
  match position (fun t => String.eqb (ct_secret t) (ma_secret ma)) (cm_canary_tokens m) with
  | None => Err ("found secret " +:+ ma_secret ma +:+ " has no matching token in the manifest")
  | Some i =>
      let leaf := leaf_hash (ma_secret ma) (cm_project_id m) (cm_distribution_id m) (Z.of_nat i) in
      let proof := match cm_canary_tokens m !! i with Some t => ct_merkle_proof t | None => [] end in
      Ok (MkMatchEvidence ma leaf proof i (verify_proof leaf proof i root))
  end.

Fixpoint match_evidences (m : CanaryManifest) (root : string) (ms : list CanaryMatch) : result string (list MatchEvidence) :=
  match ms with
  | [] => Ok []
  | ma :: ms' => e ← match_evidence m root ma; es ← match_evidences m root ms'; Ok (e :: es)
  end.

Definition assemble (suspect : node) (m : CanaryManifest) (c : SignedCommitment) (f : option SignedFingerprint)
    (ledger : option (string * option bytes)) (timestamp : Z) : option (result string EvidencePackage) :=
  match cm_merkle_root m with
  | None => Some (Err "manifest has no merkle_root")
  | Some root =>
      let matches := verify_source suspect m in
      v ← commitment_verify c;
      match v with
      | Err e => Some (Err e)
      | Ok (Invalid reason) => Some (Err ("commitment is invalid: " +:+ reason))
      | Ok Valid =>
          if negb (String.eqb (cp_merkle_root (sc_payload c)) root)
          then Some (Err ("commitment merkle_root " +:+ cp_merkle_root (sc_payload c) +:+ " does not match manifest " +:+ root))
          else if negb (cp_project_id (sc_payload c) =? cm_project_id m)
          then Some (Err ("commitment project_id " +:+ show_Z (cp_project_id (sc_payload c)) +:+ " does not match manifest "
                          +:+ show_Z (cm_project_id m)))
          else
            r ← check_fingerprint c root f ledger;
            Some ('(fp, idx) ← r;
                  es ← match_evidences m root matches;
                  Ok (MkEvidence EVIDENCE_VERSION (cm_project_id m) (cm_distribution_id m) root es c fp idx timestamp))
      end
  end.

End Canary.
