(* ===== verification/CanaryProps.v ===== *)
(** * Properties of canary embedding and evidence

    Embedding keeps the text of every file, every embedded token is found
    again where the manifest says, and the evidence assembled for an embedded
    tree is sound; what fingerprints and packages bind, and where the checks
    fall short of what they promise. *)

From Stdlib Require Import Ascii String.
From S2P Require Import Prelude RustStr Bytes RustText Sdk NetAuth Delegation Jsonl CanaryMerkle CanaryTree Canary.

#[local] Hint Resolve sub_refl sub_app_l sub_app_r : core.

(** ** Trees *)

Lemma node_nested_ind (P : node -> Prop) :
  (forall perms c, P (NFile perms c)) ->
  (forall d es, Forall (fun e => P (snd e)) es -> P (NDir d es)) -> forall n, P n.
Proof.
  intros HF HD. fix go 1. intros [perms c|d es]; [apply HF|]. apply HD.
  induction es as [|[name ch] es IH]; constructor; [apply go|exact IH].
Qed.

(** File names are not empty, hold no separator, are not the current directory and are UTF-8. *)
Definition name_ok (name : string) : Prop :=
  chars name <> [] /\ Forall (fun a => a <> slash) (chars name) /\ name <> "." /\ utf8_valid (chars name) = true.

(** Names are proper and distinct in every directory. *)
Fixpoint tree_ok (n : node) : Prop :=
  match n with
  | NFile _ _ => True
  | NDir _ es => NoDup (map fst es) /\
      (fix go (es : list (string * node)) : Prop :=
         match es with [] => True | (name, ch) :: es' => (name_ok name /\ tree_ok ch) /\ go es' end) es
  end.

Lemma tree_ok_dir (d : option string) (es : list (string * node)) :
  tree_ok (NDir d es) <-> NoDup (map fst es) /\ Forall (fun e => name_ok (fst e) /\ tree_ok (snd e)) es.
Proof.
  cbn [tree_ok]. apply and_iff_compat_l. induction es as [|[name ch] es IH]; [done|].
  rewrite Forall_cons. cbn [fst snd]. by rewrite IH.
Qed.

(** Entries are looked up by name. *)
Lemma entry_elem (es : list (string * node)) (name : string) (ch : node) :
  NoDup (map fst es) -> entry name es = Some ch <-> (name, ch) ∈ es.
Proof.
  induction es as [|[n x] es IH]; cbn [entry map fst]; intros Hn; [by split; [|intros ?%elem_of_nil]|].
  apply NoDup_cons in Hn as [Hnx Hn]. rewrite elem_of_cons. destruct (String.eqb_spec n name) as [->|Hne].
  - split; [intros [= ->]; by left|]. intros [[= ->]|Hin]; [done|]. destruct Hnx. by apply (list_elem_of_fmap_2 fst) in Hin.
  - rewrite IH by done. split; [by right|]. intros [[= -> ->]|]; done.
Qed.

Lemma set_entry_map (es : list (string * node)) (name : string) (f : node -> node) :
  map fst (set_entry name f es) = map fst es.
Proof. induction es as [|[n x] es IH]; [done|]. cbn. destruct (String.eqb n name); cbn; by rewrite ?IH. Qed.

Lemma set_entry_elem (es : list (string * node)) (name n : string) (f : node -> node) (ch : node) :
  NoDup (map fst es) -> (n, ch) ∈ es -> (n, if String.eqb n name then f ch else ch) ∈ set_entry name f es.
Proof.
  induction es as [|[m x] es IH]; intros Hn Hin; [by apply elem_of_nil in Hin|]. cbn [map fst] in Hn.
  apply NoDup_cons in Hn as [Hm Hn]. cbn [set_entry]. apply elem_of_cons in Hin as [[= -> ->]|Hin].
  - destruct (String.eqb m name); by left.
  - destruct (String.eqb_spec m name) as [->|_]; [|by right; apply IH].
    destruct (String.eqb_spec n name) as [->|_]; [|by right].
    destruct Hm. by apply (list_elem_of_fmap_2 fst) in Hin.
Qed.

Lemma is_dir_set (q : rel_path) (c : bytes) (n : node) : is_dir (set_file q c n) = is_dir n.
Proof. by destruct q, n. Qed.

Lemma tree_ok_set (q : rel_path) (c : bytes) (n : node) : tree_ok n -> tree_ok (set_file q c n).
Proof.
  revert q. induction n as [perms x|d es IH] using node_nested_ind; intros q Hn; [by destruct q|].
  destruct q as [|y q]; [done|]. cbn [set_file]. rewrite tree_ok_dir in Hn |- *. destruct Hn as [Hd Hn].
  rewrite set_entry_map. split; [done|].
  assert (Forall (fun e => name_ok (fst e) /\ tree_ok (snd e) /\ forall q, tree_ok (snd e) -> tree_ok (set_file q c (snd e))) es) as Ha.
  { apply Forall_forall. intros e He. rewrite Forall_forall in Hn, IH. destruct (Hn e He). split_and!; [done..|]. by apply IH. }
  clear -Ha. induction Ha as [|[n x] es (H1 & H2 & H3) Ha IH]; cbn; [done|].
  destruct (String.eqb n y); constructor; cbn in *; auto. apply (Forall_impl _ _ _ Ha). by intros ? (? & ? & _).
Qed.

(** The files a scan visits. *)
Inductive reach (skip : string -> bool) : node -> rel_path -> Perms -> bytes -> Prop :=
| reach_file (perms : Perms) (c : bytes) : reach skip (NFile perms c) [] perms c
| reach_dir (es : list (string * node)) (name : string) (ch : node) (p : rel_path) (perms : Perms) (c : bytes) :
    (name, ch) ∈ es -> is_dir ch && skip (lossy name) = false -> reach skip ch p perms c ->
    reach skip (NDir None es) (name :: p) perms c.

Lemma walk_elem {A : Type} (skip : string -> bool) (visit : rel_path -> Perms -> bytes -> list A) (n : node) (p0 : rel_path) (x : A) :
  x ∈ walk skip visit p0 n <-> exists p perms c, reach skip n p perms c /\ x ∈ visit (p0 ++ p) perms c.
Proof.
  revert p0. induction n as [perms c|d es IH] using node_nested_ind; intros p0.
  - cbn. split.
    + intros Hx. exists [], perms, c. rewrite app_nil_r. by split; [constructor|].
    + intros (p & pm & c' & Hr & Hx). inversion Hr; subst. by rewrite app_nil_r in Hx.
  - destruct d as [e|]; cbn [walk].
    { split; [by intros ?%elem_of_nil|]. intros (p & pm & c' & Hr & _). inversion Hr. }
    assert (forall es', (fix go (es : list (string * node)) : list A := match es with [] => []
      | (name, ch) :: es' => (if is_dir ch && skip (lossy name) then [] else walk skip visit (p0 ++ [name]) ch) ++ go es' end) es' =
      concat (map (fun e => if is_dir (snd e) && skip (lossy (fst e)) then [] else walk skip visit (p0 ++ [fst e]) (snd e)) es')) as Hgo.
    { intros es'. induction es' as [|[nm ch] es' IH']; [done|]. cbn [map concat fst snd]. by rewrite IH'. }
    rewrite Hgo, elem_of_concat. setoid_rewrite list_elem_of_fmap. rewrite Forall_forall in IH. split.
    + intros (k & Hx & [nm ch] & -> & Hin). cbn [fst snd] in Hx.
      destruct (is_dir ch && skip (lossy nm)) eqn:Es; [by apply elem_of_nil in Hx|].
      apply (IH _ Hin) in Hx as (p & pm & c & Hr & Hx). exists (nm :: p), pm, c. split; [by econstructor|].
      by rewrite <- app_assoc in Hx.
    + intros (p & pm & c & Hr & Hx). inversion Hr as [|? nm ch p' ? ? Hin Es Hr']; subst.
      eexists. split; [|exists (nm, ch); split; [done|done]]. cbn [fst snd]. rewrite Es. apply (IH _ Hin).
      exists p', pm, c. by rewrite <- app_assoc.
Qed.

Lemma walk_root_elem {A : Type} (skip : string -> bool) (visit : rel_path -> Perms -> bytes -> list A) (n : node) (x : A) :
  is_dir n = true -> x ∈ walk_root skip visit n <-> exists p perms c, reach skip n p perms c /\ x ∈ visit p perms c.
Proof. intros Hd. unfold walk_root. rewrite Hd. apply walk_elem. Qed.

Lemma reach_get (skip : string -> bool) (n : node) (p : rel_path) (perms : Perms) (c : bytes) :
  tree_ok n -> reach skip n p perms c -> get_file p n = Some (perms, c).
Proof.
  intros Hn Hr. induction Hr as [|es name ch p perms c Hin Hs Hr IH]; [done|]. cbn [get_file].
  apply tree_ok_dir in Hn as [Hd Hn]. rewrite (proj2 (entry_elem es name ch Hd) Hin). cbn.
  rewrite Forall_forall in Hn. by apply IH, (Hn _ Hin).
Qed.

Lemma reach_set (skip : string -> bool) (n : node) (p q : rel_path) (perms : Perms) (c c' : bytes) :
  tree_ok n -> reach skip n p perms c -> reach skip (set_file q c' n) p perms (if decide (p = q) then c' else c).
Proof.
  intros Hn Hr. revert q. induction Hr as [|es name ch p perms c Hin Hs Hr IH]; intros q.
  { destruct q as [|y q]; cbn; [rewrite decide_True by done|]; constructor. }
  apply tree_ok_dir in Hn as [Hd Hn]. rewrite Forall_forall in Hn. destruct q as [|y q]; cbn [set_file].
  { rewrite decide_False by done. by econstructor. }
  pose proof (set_entry_elem es y name (set_file q c') ch Hd Hin) as Hin'.
  destruct (String.eqb_spec name y) as [->|Hne].
  - econstructor; [exact Hin'|by rewrite is_dir_set|].
    replace (if decide (y :: p = y :: q) then c' else c) with (if decide (p = q) then c' else c)
      by (repeat case_decide; congruence).
    by apply IH, (Hn _ Hin).
  - rewrite decide_False by congruence. by econstructor.
Qed.

Lemma reach_names (skip : string -> bool) (n : node) (p : rel_path) (perms : Perms) (c : bytes) :
  tree_ok n -> reach skip n p perms c -> Forall name_ok p /\ (is_dir n = true -> p <> []).
Proof.
  intros Hn Hr. induction Hr as [|es name ch p perms c Hin Hs Hr IH]; [by split|].
  apply tree_ok_dir in Hn as [_ Hn]. rewrite Forall_forall in Hn. destruct (Hn _ Hin) as [H1 H2]. split; [|done].
  constructor; [done|]. by apply IH.
Qed.

(** *** Paths as text *)

Lemma join_path_split (p : rel_path) :
  p <> [] -> Forall name_ok p -> split_on slash (chars (join_path p)) = map chars p.
Proof.
  intros Hne Hp. induction Hp as [|x p (H1 & H2 & H3 & H4) Hp IH]; [done|]. destruct p as [|y p].
  - cbn. by rewrite split_on_nil.
  - cbn [join_path map]. rewrite !chars_app. cbn [app]. change (chars "/" ++ ?l) with (slash :: l).
    rewrite split_on_sep by done. f_equal. by apply IH.
Qed.

Lemma join_path_valid (p : rel_path) : Forall name_ok p -> utf8_valid (chars (join_path p)) = true.
Proof.
  induction 1 as [|x p (H1 & H2 & H3 & H4) Hp IH]; [done|]. destruct p as [|y p]; [done|].
  cbn [join_path]. rewrite !chars_app. rewrite utf8_valid_app by done. exact IH.
Qed.

Lemma path_lossy_join (p : rel_path) : Forall name_ok p -> path_lossy p = join_path p.
Proof. intros Hp. unfold path_lossy, lossy. by rewrite utf8_lossy_valid, of_chars_chars by by apply join_path_valid. Qed.

(** A reported path leads back to the file. *)
Lemma components_path (p : rel_path) : p <> [] -> Forall name_ok p -> components (path_lossy p) = p.
Proof.
  intros Hne Hp. unfold components. rewrite path_lossy_join, join_path_split by done.
  induction Hp as [|x p (H1 & H2 & H3 & H4) Hp IH]; [done|]. cbn [map]. rewrite filter_cons_True.
  - cbn [map]. rewrite of_chars_chars. f_equal. destruct p as [|y p]; [done|]. by apply IH.
  - split; [done|]. intros E. destruct H3. by apply chars_inj.
Qed.

Lemma path_lossy_ne (p : rel_path) : p <> [] -> Forall name_ok p -> path_lossy p <> "".
Proof. intros Hne Hp E. apply (f_equal components) in E. rewrite components_path in E by done. subst p. done. Qed.

(** ** What a strategy does to the tree *)

(** [c'] keeps the text of [c]. *)
Definition keeps (c c' : bytes) : Prop :=
  (utf8_valid c = true -> utf8_valid c' = true) /\ forall s, one_line s -> sub s c -> sub s c'.

Lemma keeps_refl (c : bytes) : keeps c c.
Proof. by split. Qed.
Lemma keeps_trans (a b c : bytes) : keeps a b -> keeps b c -> keeps a c.
Proof. intros [H1 H2] [H3 H4]. split; auto. Qed.

Definition skip_dirs : string -> bool := mem EXCLUSIONS.

(** Every file stays where it is, keeps its permissions and its text. *)
Definition evolves (n n' : node) : Prop :=
  tree_ok n' /\ is_dir n' = is_dir n /\
  forall p perms c, reach skip_dirs n p perms c -> exists c', reach skip_dirs n' p perms c' /\ keeps c c'.

Lemma evolves_refl (n : node) : tree_ok n -> evolves n n.
Proof. intros Hn. split_and!; [done..|]. intros p perms c Hr. exists c. split; [done|apply keeps_refl]. Qed.
Lemma evolves_trans (a b c : node) : evolves a b -> evolves b c -> evolves a c.
Proof.
  intros (_ & H2 & H3) (H4 & H5 & H6). split_and!; [done|congruence|]. intros p perms x Hr.
  destruct (H3 _ _ _ Hr) as (y & Hy & K1), (H6 _ _ _ Hy) as (z & Hz & K2). exists z. split; [done|by eapply keeps_trans].
Qed.

(** A file of the tree that carries the secret and can be read. *)
Definition carries (n : node) (secret : string) (p : rel_path) : Prop :=
  exists perms c, reach skip_dirs n p perms c /\ readable perms = true /\ utf8_valid c = true /\ sub (chars secret) c.

Lemma carries_evolves (n n' : node) (secret : string) (p : rel_path) :
  one_line (chars secret) -> evolves n n' -> carries n secret p -> carries n' secret p.
Proof.
  intros Hs (_ & _ & He) (perms & c & Hr & H1 & H2 & H3). destruct (He _ _ _ Hr) as (c' & Hr' & K1 & K2).
  exists perms, c'. split_and!; auto.
Qed.

(** A rewritten file: each old line is in a new line, one of which holds the secret. *)
Lemma write_lines_evolves (n n' : node) (p : rel_path) (perms : Perms) (content : bytes) (ls' : list bytes) (secret : string) :
  tree_ok n -> reach skip_dirs n p perms content -> readable perms = true -> utf8_valid content = true ->
  (forall l, l ∈ lines content -> exists l', l' ∈ ls' /\ sub l l') ->
  Forall (fun l => utf8_valid l = true) ls' -> (exists l', l' ∈ ls' /\ sub (chars secret) l') ->
  write_lines_preserving p ls' content n = Some n' -> evolves n n' /\ carries n' secret p.
Proof.
  intros Hn Hr Hrd Hv Hkeep Hv' (l0 & Hl0 & Hs0) Hw. unfold write_lines_preserving, fs_write in Hw.
  rewrite (reach_get _ _ _ _ _ Hn Hr) in Hw. cbn [mbind option_bind] in Hw. destruct (writable perms); [|done].
  apply (inj Some) in Hw as <-. set (c' := join_lf ls' ++ _).
  assert (utf8_valid c' = true) as Hc'.
  { apply utf8_valid_app2; [by apply join_lf_valid|]. by destruct (ends_with_lf content). }
  assert (forall l, l ∈ ls' -> sub l c') as Hin by (intros l Hl; by apply sub_app_l, join_lf_sub).
  split.
  - split_and!; [by apply tree_ok_set|apply is_dir_set|]. intros q pm c Hq.
    pose proof (reach_set _ _ _ p _ _ c' Hn Hq) as Hset. eexists. split; [exact Hset|].
    destruct (decide (q = p)) as [->|_]; [|apply keeps_refl].
    pose proof (reach_get _ _ _ _ _ Hn Hq) as E1. rewrite (reach_get _ _ _ _ _ Hn Hr) in E1. injection E1 as <- <-.
    split; [done|]. intros s Hs Hsub. apply lines_sub in Hsub as (l & Hl & Hsl); [|done].
    destruct (Hkeep _ Hl) as (l' & Hl' & Hll). eauto using sub_trans.
  - exists perms, c'. split_and!; [|done..|by eapply sub_trans; [|apply Hin]].
    pose proof (reach_set _ _ _ p _ _ c' Hn Hr) as Hset. by rewrite decide_True in Hset.
Qed.

(** ** The strategies *)

Definition asc (l : bytes) : Prop := Forall (fun a => code a < 128) l.

Lemma asc_lit (l : bytes) : forallb (fun a => code a <? 128) l = true -> asc l.
Proof. intros Hl. apply Forall_forall. intros a Ha. apply Z.ltb_lt. rewrite forallb_forall in Hl. by apply Hl, list_elem_of_In. Qed.

Lemma asc_app (l k : bytes) : asc l -> asc k -> asc (l ++ k).
Proof. intros ? ?. by apply Forall_app. Qed.

Lemma asc_cat (s t : string) : asc (chars s) -> asc (chars t) -> asc (chars (s +:+ t)).
Proof. rewrite chars_app. apply asc_app. Qed.

Lemma asc_show (n : Z) : 0 <= n -> asc (chars (show_Z n)).
Proof.
  intros Hn. unfold show_Z. rewrite chars_of_chars. destruct (show_chars_spec n Hn) as (_ & Hd & _).
  apply Forall_forall. intros a Ha. rewrite forallb_forall in Hd. apply list_elem_of_In, Hd in Ha. unfold is_digit in Ha. apply andb_prop in Ha as [_ Ha]. apply Z.leb_le in Ha. lia.
Qed.

Create HintDb asc.
#[local] Hint Resolve asc_app asc_cat asc_show : asc.
#[local] Hint Extern 4 (asc _) => (apply asc_lit; reflexivity) : asc.

(** What the strategies need of a token: a secret within a line, in ASCII. *)
Definition token_ok (t : CanaryToken) : Prop :=
  one_line (chars (ct_secret t)) /\ asc (chars (ct_secret t)) /\ 0 <= ct_token_id t.

Lemma quoted_asc (t : CanaryToken) : token_ok t -> asc (chars (quoted t)).
Proof. intros (_ & ? & _). unfold quoted. auto 6 with asc. Qed.

Lemma find_files_reach (exts : list string) (n : node) (files : list rel_path) (p : rel_path) :
  is_dir n = true -> find_files_by_ext exts n = Some files -> p ∈ files -> exists perms c, reach skip_dirs n p perms c.
Proof.
  intros Hd Hf Hp. unfold find_files_by_ext in Hf.
  assert (p ∈ scan_for_ext exts n) as Hs by (destruct (scan_for_ext exts n); [done|]; by apply (inj Some) in Hf as ->).
  apply walk_root_elem in Hs as (q & perms & c & Hr & Hq); [|done].
  destruct (500000 <=? _); [by apply elem_of_nil in Hq|]. destruct (ext_of _); [|by apply elem_of_nil in Hq].
  destruct (_ && _); [|by apply elem_of_nil in Hq]. apply list_elem_of_singleton in Hq as ->. by eauto.
Qed.

Lemma choose_elem {A : Type} (rng rng' : Z) (l : list A) (x : A) : choose rng l = (Some x, rng') -> x ∈ l.
Proof.
  unfold choose. destruct l as [|a l]; [done|]. destruct (next_u32 rng) as [v r]. intros E.
  apply (f_equal fst) in E. cbn [fst] in E. by eapply list_elem_of_lookup_2.
Qed.

Lemma pick_target_tree (files : list rel_path) (st st1 : EmbedState) (o : option rel_path) :
  pick_target files st = (o, st1) -> es_tree st1 = es_tree st /\ forall t, o = Some t -> t ∈ files.
Proof.
  unfold pick_target. set (unused := filter _ _). destruct (choose _ _) as [o' rng] eqn:Ec.
  intros [= <- <-]. split; [done|]. intros t ->. apply choose_elem in Ec.
  destruct unused as [|u us] eqn:Eu; [done|]. rewrite <- Eu in Ec. by apply list_elem_of_filter in Ec as [_ ?].
Qed.

(** The file a strategy works on. *)
Lemma target_reach (exts : list string) (st st1 : EmbedState) (files : list rel_path) (target : rel_path) (content : bytes) :
  tree_ok (es_tree st) -> is_dir (es_tree st) = true -> find_files_by_ext exts (es_tree st) = Some files ->
  pick_target files st = (Some target, st1) -> fs_read_to_string target (es_tree st1) = Some content ->
  es_tree st1 = es_tree st /\ utf8_valid content = true /\
  exists perms, reach skip_dirs (es_tree st) target perms content /\ readable perms = true.
Proof.
  intros Hn Hd Hf Hp Hr. destruct (pick_target_tree _ _ _ _ Hp) as [E Ht]. rewrite E in Hr. split; [done|].
  destruct (find_files_reach _ _ _ _ Hd Hf (Ht _ eq_refl)) as (perms & c & Hc).
  unfold fs_read_to_string, fs_read in Hr. rewrite (reach_get _ _ _ _ _ Hn Hc) in Hr. cbn [mbind option_bind] in Hr.
  destruct (readable perms) eqn:Er; [|done]. cbn [mbind option_bind] in Hr. destruct (utf8_valid c) eqn:Ev; [|done].
  apply (inj Some) in Hr as <-. by eauto.
Qed.

(** What every strategy guarantees. *)
Definition embeds (t : CanaryToken) (st : EmbedState) (r : option string * EmbedState) : Prop :=
  evolves (es_tree st) (es_tree (snd r)) /\
  forall f, fst r = Some f -> exists p, f = path_lossy p /\ Forall name_ok p /\ p <> [] /\ carries (es_tree (snd r)) (ct_secret t) p.

Lemma embeds_none (t : CanaryToken) (st st1 : EmbedState) :
  tree_ok (es_tree st) -> es_tree st1 = es_tree st -> embeds t st (None, st1).
Proof. intros Hn E. split; cbn; [rewrite E; by apply evolves_refl|done]. Qed.

Lemma embeds_write (t : CanaryToken) (st st2 : EmbedState) (n : node) (target : rel_path) (perms : Perms) (content : bytes) (ls' : list bytes) :
  tree_ok (es_tree st) -> is_dir (es_tree st) = true -> reach skip_dirs (es_tree st) target perms content ->
  readable perms = true -> utf8_valid content = true ->
  (forall l, l ∈ lines content -> exists l', l' ∈ ls' /\ sub l l') ->
  Forall (fun l => utf8_valid l = true) ls' -> (exists l', l' ∈ ls' /\ sub (chars (ct_secret t)) l') ->
  write_lines_preserving target ls' content (es_tree st) = Some n -> es_tree st2 = n ->
  embeds t st (Some (path_lossy target), st2).
Proof.
  intros Hn Hd Hr Hrd Hv Hk Hv' Hs Hw E. destruct (write_lines_evolves _ _ _ _ _ _ _ Hn Hr Hrd Hv Hk Hv' Hs Hw) as [He Hc].
  split; cbn; rewrite E; [done|]. intros f [= <-]. destruct (reach_names _ _ _ _ _ Hn Hr) as [H1 H2].
  exists target. split_and!; auto.
Qed.

Lemma insert_lines_elem (i : nat) (new ls : list bytes) (l : bytes) : l ∈ insert_lines i new ls <-> l ∈ new \/ l ∈ ls.
Proof.
  unfold insert_lines. rewrite !elem_of_app. rewrite <- (take_drop i ls) at 3. rewrite elem_of_app. tauto.
Qed.

Lemma insert_lines_ok (i : nat) (new ls : list bytes) (secret : string) :
  Forall asc new -> Forall (fun l => utf8_valid l = true) ls -> (exists l', l' ∈ new /\ sub (chars secret) l') ->
  (forall l, l ∈ ls -> exists l', l' ∈ insert_lines i new ls /\ sub l l') /\
  Forall (fun l => utf8_valid l = true) (insert_lines i new ls) /\
  (exists l', l' ∈ insert_lines i new ls /\ sub (chars secret) l').
Proof.
  intros Ha Hv (l0 & Hl0 & Hs0). split_and!.
  - intros l Hl. exists l. split; [|apply sub_refl]. apply insert_lines_elem. by right.
  - apply Forall_forall. intros l Hl. apply insert_lines_elem in Hl as [Hl|Hl].
    + rewrite Forall_forall in Ha. by apply utf8_ascii, Ha.
    + rewrite Forall_forall in Hv. by apply Hv.
  - exists l0. split; [|done]. apply insert_lines_elem. by left.
Qed.

Lemma variable_inject_embeds (exts : list string) (point : list bytes -> nat) (inject : rel_path -> CanaryToken -> string)
    (t : CanaryToken) (st : EmbedState) :
  tree_ok (es_tree st) -> is_dir (es_tree st) = true -> (forall p, asc (chars (inject p t)) /\ sub (chars (ct_secret t)) (chars (inject p t))) ->
  embeds t st (variable_inject exts point inject t st).
Proof.
  intros Hn Hd Hi. unfold variable_inject. destruct (find_files_by_ext _ _) as [files|] eqn:Ef; [|by apply embeds_none].
  destruct (pick_target files st) as [[target|] st1] eqn:Ep;
    [|by apply embeds_none; [|apply (pick_target_tree _ _ _ _ Ep)]].
  destruct (fs_read_to_string target (es_tree st1)) as [content|] eqn:Er;
    [|by apply embeds_none; [|apply (pick_target_tree _ _ _ _ Ep)]].
  destruct (target_reach _ _ _ _ _ _ Hn Hd Ef Ep Er) as (E1 & Hv & perms & Hr & Hrd).
  rewrite E1. cbv zeta. destruct (write_lines_preserving _ _ _ _) as [n|] eqn:Ew; [|by apply embeds_none].
  destruct (Hi target) as [Ha Hsub].
  destruct (insert_lines_ok (point (lines content)) [chars (inject target t)] (lines content) (ct_secret t)) as (K1 & K2 & K3);
    [by constructor|by apply lines_valid|by eexists; split; [left|]|].
  by eapply embeds_write.
Qed.

Lemma sub_cat_l (s : bytes) (a b : string) : sub s (chars a) -> sub s (chars (a +:+ b)).
Proof. rewrite chars_app. apply sub_app_l. Qed.
Lemma sub_cat_r (s : bytes) (a b : string) : sub s (chars b) -> sub s (chars (a +:+ b)).
Proof. rewrite chars_app. apply sub_app_r. Qed.

Lemma sub_quoted (t : CanaryToken) : sub (chars (ct_secret t)) (chars (quoted t)).
Proof. apply sub_cat_r, sub_cat_l, sub_refl. Qed.

Lemma mark_comment_ok (w : bytes) (ls ls' : list bytes) (secret : string) :
  utf8_valid w = true -> sub (chars secret) w -> Forall (fun l => utf8_valid l = true) ls -> mark_comment w ls = Some ls' ->
  (forall l, l ∈ ls -> exists l', l' ∈ ls' /\ sub l l') /\ Forall (fun l => utf8_valid l = true) ls' /\
  (exists l', l' ∈ ls' /\ sub (chars secret) l').
Proof.
  intros Hw Hs Hv. revert ls'. induction Hv as [|x ls Hx Hv IH]; intros ls' E; cbn in E; [done|].
  destruct (long_comment x).
  - apply (inj Some) in E as <-. split_and!.
    + intros l Hl. apply elem_of_cons in Hl as [->|Hl]; [exists (x ++ w); split; [left|auto]|]. exists l. split; [by right|auto].
    + constructor; [by apply utf8_valid_app2|done].
    + exists (x ++ w). split; [left|auto].
  - destruct (mark_comment w ls) as [k|]; [|done]. apply (inj Some) in E as <-. destruct (IH k eq_refl) as (K1 & K2 & l' & Hl' & Hsl').
    split_and!.
    + intros l Hl. apply elem_of_cons in Hl as [->|Hl]; [exists x; split; [left|auto]|].
      destruct (K1 l Hl) as (m & Hm & ?). exists m. split; [by right|done].
    + by constructor.
    + exists l'. split; [by right|done].
Qed.

Lemma watermark_lines_ok (secret : string) (ls : list bytes) :
  asc (chars secret) -> Forall (fun l => utf8_valid l = true) ls ->
  let ls' := fst (watermark_lines secret ls) in
  (forall l, l ∈ ls -> exists l', l' ∈ ls' /\ sub l l') /\ Forall (fun l => utf8_valid l = true) ls' /\
  (exists l', l' ∈ ls' /\ sub (chars secret) l').
Proof.
  intros Ha Hv. unfold watermark_lines. set (w := "[ref:" +:+ secret +:+ "]").
  assert (asc (chars w)) as Hw by (unfold w; auto with asc).
  assert (sub (chars secret) (chars w)) as Hs by apply sub_cat_r, sub_cat_l, sub_refl.
  destruct (mark_comment (chars w) ls) as [k|] eqn:Em; cbn [fst].
  { eapply mark_comment_ok; [|done..]. by apply utf8_ascii. }
  destruct (position module_head (take 10 ls)) as [i|].
  - apply insert_lines_ok; [|done|eexists; split; [left|by apply sub_cat_r]]. constructor; [auto with asc|constructor].
  - apply insert_lines_ok; [|done|eexists; split; [left|by apply sub_cat_r, sub_cat_l]]. constructor; [auto with asc|constructor].
Qed.

Lemma embed_watermark_embeds (t : CanaryToken) (st : EmbedState) :
  token_ok t -> tree_ok (es_tree st) -> is_dir (es_tree st) = true -> embeds t st (embed_watermark t st).
Proof.
  intros (_ & Ha & _) Hn Hd. unfold embed_watermark. destruct (find_files_by_ext _ _) as [files|] eqn:Ef; [|by apply embeds_none].
  destruct (pick_target files st) as [[target|] st1] eqn:Ep;
    [|by apply embeds_none; [|apply (pick_target_tree _ _ _ _ Ep)]].
  destruct (fs_read_to_string target (es_tree st1)) as [content|] eqn:Er;
    [|by apply embeds_none; [|apply (pick_target_tree _ _ _ _ Ep)]].
  destruct (target_reach _ _ _ _ _ _ Hn Hd Ef Ep Er) as (E1 & Hv & perms & Hr & Hrd).
  pose proof (watermark_lines_ok (ct_secret t) (lines content) Ha (lines_valid _ Hv)) as (K1 & K2 & K3).
  destruct (watermark_lines _ _) as [ls' record]. cbn [fst] in *.
  rewrite E1. destruct (write_lines_preserving _ _ _ _) as [n|] eqn:Ew; [|by apply embeds_none].
  apply (embeds_write t st _ n target perms content ls'); try done. by destruct record.
Qed.

Lemma hex_nibble_asc (n : Z) : 0 <= n < 16 -> code (hex_nibble n) < 128.
Proof. intros Hn. unfold hex_nibble. destruct (Z.ltb_spec n 10); rewrite code_byte_of, Z.mod_small; lia. Qed.

Lemma hex_digits_asc (w : nat) (n : Z) : asc (hex_digits w n).
Proof.
  revert n. induction w as [|w IH]; intros n; [constructor|]. cbn [hex_digits]. apply asc_app; [done|].
  constructor; [|constructor]. apply hex_nibble_asc. by apply Z.mod_pos_bound.
Qed.

Lemma find_indent_asc (line : bytes) : asc (find_indent line).
Proof.
  assert (forall l, asc (take_blanks l)) as H.
  { induction l as [|a l IH]; cbn; [constructor|]. destruct (Ascii.eqb_spec a " "%char) as [->|]; cbn; [by constructor|].
    destruct (Ascii.eqb_spec a (byte_of 9)) as [->|]; [by constructor|constructor]. }
  unfold find_indent. pose proof (H line). destruct (take_blanks line); auto with asc.
Qed.

Lemma dead_code_ok (indent magic : bytes) (secret : string) :
  asc indent -> asc magic -> asc (chars secret) ->
  Forall asc (dead_code indent magic secret) /\ exists l, l ∈ dead_code indent magic secret /\ sub (chars secret) l.
Proof.
  intros H1 H2 H3. unfold dead_code. split.
  - apply Forall_map. repeat apply Forall_cons_2; try apply Forall_nil_2; auto 10 with asc; constructor.
  - eexists. split; [do 4 apply list_elem_of_further; left|].
    apply sub_app_r, sub_app_r, sub_app_r. do 2 apply sub_cat_r. apply sub_cat_l, sub_refl.
Qed.

Section Embedding.
Context `{SK : Sdk} (default_hash : string -> Z).

Lemma embed_deadcode_embeds (t : CanaryToken) (st : EmbedState) :
  token_ok t -> tree_ok (es_tree st) -> is_dir (es_tree st) = true -> embeds t st (embed_deadcode default_hash t st).
Proof.
  intros (_ & Ha & _) Hn Hd. unfold embed_deadcode. destruct (find_files_by_ext _ _) as [files|] eqn:Ef; [|by apply embeds_none].
  destruct (pick_target files st) as [[target|] st1] eqn:Ep;
    [|by apply embeds_none; [|apply (pick_target_tree _ _ _ _ Ep)]].
  destruct (fs_read_to_string target (es_tree st1)) as [content|] eqn:Er;
    [|by apply embeds_none; [|apply (pick_target_tree _ _ _ _ Ep)]].
  destruct (target_reach _ _ _ _ _ _ Hn Hd Ef Ep Er) as (E1 & Hv & perms & Hr & Hrd). cbv zeta.
  destruct (choose _ _) as [[i|] rng]; [|by apply embeds_none]. cbn [es_tree]. rewrite E1.
  destruct (write_lines_preserving _ _ _ _) as [n|] eqn:Ew; [|by apply embeds_none].
  revert Ew. set (code := dead_code _ _ _). intros Ew.
  destruct (dead_code_ok (find_indent (default [] (lines content !! i))) (take 4 (fmt_08x (default_hash (ct_secret t)))) (ct_secret t))
    as [Hc Hs]; [apply find_indent_asc| |done|].
  { apply Forall_take. unfold fmt_08x. destruct (_ <? _); apply hex_digits_asc. }
  assert (forall ls', ls' = insert_lines (length (lines content)) code (lines content) -> ls' = lines content ++ code) as Happ.
  { intros ls' ->. unfold insert_lines. by rewrite firstn_all, drop_all, app_nil_r. }
  destruct (_ <? _)%nat.
  - destruct (insert_lines_ok (i + 2) code (lines content) (ct_secret t) Hc (lines_valid _ Hv) Hs) as (K1 & K2 & K3). by eapply embeds_write.
  - destruct (insert_lines_ok (length (lines content)) code (lines content) (ct_secret t) Hc (lines_valid _ Hv) Hs) as (K1 & K2 & K3).
    rewrite <- (Happ _ eq_refl) in Ew. by eapply embeds_write.
Qed.

Lemma strategy_embeds (s : Strategy) (t : CanaryToken) (st : EmbedState) :
  token_ok t -> tree_ok (es_tree st) -> is_dir (es_tree st) = true -> embeds t st (strategy_embed default_hash s t st).
Proof.
  intros Ht Hn Hd. pose proof (quoted_asc t Ht) as Hq. destruct Ht as (Hc & Ha & Hi). pose proof (sub_quoted t) as Hs.
  destruct s; cbn [strategy_embed];
    [apply variable_inject_embeds; [done..|]; intros p; split;
       [unfold python_line, js_line, rust_line, solidity_line; cbv zeta; try destruct (_ || _); auto 20 with asc
       |do 3 apply sub_cat_r; by apply sub_cat_l]..
    |by apply embed_watermark_embeds|by apply embed_deadcode_embeds].
Qed.

(** ** The run *)

(** A token that was placed is in the file the manifest names. *)
Definition placed (n : node) (u : CanaryToken) : Prop :=
  ct_target_file u <> "" ->
  exists p, ct_target_file u = path_lossy p /\ Forall name_ok p /\ p <> [] /\ carries n (ct_secret u) p.

Lemma embed_tokens_spec (ts : list CanaryToken) (st : EmbedState) :
  Forall (fun t => token_ok t /\ ct_target_file t = "") ts -> tree_ok (es_tree st) -> is_dir (es_tree st) = true ->
  let '(us, _, st') := embed_tokens default_hash ts st in
  evolves (es_tree st) (es_tree st') /\ length us = length ts /\ Forall (fun u => token_ok u /\ placed (es_tree st') u) us.
Proof.
  intros Hts. revert st. induction Hts as [|t ts [Ht Htf] Hts IH]; intros st Hn Hd; cbn [embed_tokens].
  { split_and!; [by apply evolves_refl|done|constructor]. }
  set (r := match build_strategies !! _ with Some _ => _ | None => _ end).
  assert (embeds t st r) as [He Hf] by (unfold r; destruct (build_strategies !! _); [by apply strategy_embeds|by apply embeds_none]).
  destruct r as [o st1]. cbn [fst snd] in *.
  assert (is_dir (es_tree st1) = true) as Hd1 by (destruct He as (_ & -> & _); done).
  specialize (IH st1 (proj1 He) Hd1). destruct (embed_tokens default_hash ts st1) as [[us ms] st2]. destruct IH as (He2 & Hlen & Hus).
  assert (evolves (es_tree st) (es_tree st2)) as Hev by by eapply evolves_trans.
  destruct o as [f|]; (split; [done|]; split; [cbn; by rewrite Hlen|]; constructor; [|done]); (split; [done|]).
  - destruct (Hf f eq_refl) as (p & -> & H1 & H2 & H3). intros _. exists p. split_and!; [done..|].
    apply (carries_evolves (es_tree st1)); [apply Ht|done..].
  - intros Hne. by rewrite Htf in Hne.
Qed.

(** The lines of a carried secret are reported. *)
Lemma line_matches_elem (p : rel_path) (t : CanaryToken) (i : nat) (ls : list bytes) (m : CanaryMatch) :
  m ∈ line_matches p t i ls <->
  exists j line, ls !! j = Some line /\ contains (ct_secret t) line = true /\
    m = MkMatch (ct_token_id t) (ct_secret t) (path_lossy p) (Z.of_nat (i + j) + 1) (truncate_line line 120).
Proof.
  revert i. induction ls as [|x ls IH]; intros i; cbn [line_matches].
  { split; [by intros ?%elem_of_nil|by intros (j & ? & ? & _)]. }
  rewrite elem_of_app, IH. split.
  - intros [Hm|(j & line & H1 & H2 & ->)].
    + destruct (contains (ct_secret t) x) eqn:Ec; [|by apply elem_of_nil in Hm]. apply list_elem_of_singleton in Hm as ->.
      exists O, x. by rewrite Nat.add_0_r.
    + exists (S j), line. split_and!; [done..|]. by rewrite Nat.add_succ_r.
  - intros ([|j] & line & H1 & H2 & ->).
    + injection H1 as <-. left. rewrite H2, Nat.add_0_r. apply list_elem_of_singleton. done.
    + right. exists j, line. split_and!; [done..|]. by rewrite Nat.add_succ_r.
Qed.

(** Files the verifier looks at. *)
Definition scanned (f : string) : bool :=
  match ext_of (base_name (components f)) with Some e => mem SOURCE_EXTS (lossy e) | None => false end.

Lemma placed_found (n : node) (u : CanaryToken) :
  token_ok u -> tree_ok n -> is_dir n = true -> placed n u -> ct_target_file u <> "" -> scanned (ct_target_file u) = true ->
  exists m, m ∈ scan_for_token (locate n u) n /\ ma_token_id m = ct_token_id u /\ ma_secret m = ct_secret u /\
    ma_file_path m = ct_target_file u /\ ma_line_number m = ct_line_number (locate n u).
Proof.
  intros (Hc & _) Hn Hd Hp Hne Hsc. destruct (Hp Hne) as (p & E & Hok & Hpne & perms & c & Hr & Hrd & Hv & Hsub).
  unfold locate. unfold scanned in Hsc. rewrite E, components_path in * by done. unfold fs_read_to_string, fs_read.
  rewrite (reach_get _ _ _ _ _ Hn Hr). cbn [mbind option_bind]. rewrite Hrd. cbn [mbind option_bind]. rewrite Hv.
  apply (lines_sub _ c Hc) in Hsub as (line & Hl & Hsl). apply contains_sub in Hsl.
  destruct (position_exists _ _ _ Hl Hsl) as [idx Eidx]. rewrite Eidx.
  destruct (position_Some _ _ _ Eidx) as (l0 & H0 & Hc0 & _).
  exists (MkMatch (ct_token_id u) (ct_secret u) (path_lossy p) (Z.of_nat idx + 1) (truncate_line l0 120)).
  split_and!; [|done..]. apply walk_root_elem; [done|]. exists p, perms, c. split; [exact Hr|].
  destruct (ext_of (base_name p)); [|done]. rewrite Hsc, Hrd, Hv. cbn [andb].
  apply line_matches_elem. by exists idx, l0.
Qed.

(** *** Tokens and manifests *)
Context {HX : HexOk} {HT : HexText} {HO : HashOk}.

Lemma hex_char_facts (a : ascii) : is_hex_char a = true -> lower a = a /\ code a < 128 /\ a <> lf /\ a <> cr.
Proof.
  intros Ha. assert (48 <= code a <= 57 \/ 97 <= code a <= 102) as Hr.
  { unfold is_hex_char, is_digit in Ha. apply orb_prop in Ha as [Ha|Ha]; apply andb_prop in Ha as [H1 H2];
      apply Z.leb_le in H1, H2; lia. }
  assert (code lf = 10 /\ code cr = 13) as [Hlf Hcr] by done. split_and!; [|lia|intros ->; lia..]. unfold lower.
  destruct (Z.leb_spec 65 (code a)), (Z.leb_spec (code a) 90); cbn; try done; lia.
Qed.

Lemma lower_hex (b : bytes) : lower_string (hex_encode b) = hex_encode b.
Proof.
  unfold lower_string. rewrite <- (of_chars_chars (hex_encode b)) at 2. f_equal.
  pose proof (hex_text b) as Ht. induction Ht as [|a l Ha _ IH]; [done|]. cbn. rewrite IH. f_equal. by apply hex_char_facts.
Qed.

Lemma new_token_ok (config : EmbedConfig) (i : nat) : token_ok (new_token config i) /\ ct_target_file (new_token config i) = "".
Proof.
  split; [|done]. unfold token_ok, new_token. cbn [ct_secret ct_token_id]. unfold generate_canary_token. rewrite lower_hex, chars_app, chars_of_chars.
  pose proof (Forall_take _ 12 _ (hex_text (blake3 (chars (show_Z (ec_project_id config) +:+ ec_distribution_id config +:+
    show_Z (Z.of_nat i) +:+ ec_salt config +:+ "canary-v1"))))) as Hh.
  split_and!; [split; [done|]| |lia].
  - apply Forall_app. split; [by repeat constructor|]. apply (Forall_impl _ _ _ Hh). intros a Ha. by apply hex_char_facts in Ha as (_ & _ & ?).
  - apply asc_app; [by apply asc_lit|]. apply (Forall_impl _ _ _ Hh). intros a Ha. by apply hex_char_facts in Ha as (_ & ? & _).
Qed.

Definition leaves_of (config : EmbedConfig) (ts : list CanaryToken) : list string :=
  imap (fun i t => leaf_hash (ct_secret t) (ec_project_id config) (ec_distribution_id config) (Z.of_nat i)) ts.

Lemma leaves_of_hex32 (config : EmbedConfig) (ts : list CanaryToken) : Forall hex32 (leaves_of config ts).
Proof.
  apply Forall_lookup. intros i x Hx. unfold leaves_of in Hx. rewrite list_lookup_imap in Hx.
  apply fmap_Some in Hx as (t & _ & ->). eexists. split; [apply hex_roundtrip|apply blake3_len].
Qed.

(** The manifest of a finished run. *)
Lemma finish_embed_spec (save : string -> CanaryManifest -> result string unit) (config : EmbedConfig)
    (ts : list CanaryToken) (modified : list string) (n : node) :
  ts <> [] ->
  exists r, finish_embed save config ts modified n = Some r /\
  forall res, r = Ok res -> exists tree, build_merkle_tree (leaves_of config ts) = Some tree /\
    hash_source_tree n = Ok (cm_source_tree_hash (er_manifest res)) /\
    cm_project_id (er_manifest res) = ec_project_id config /\ cm_distribution_id (er_manifest res) = ec_distribution_id config /\
    cm_merkle_root (er_manifest res) = Some (mt_root tree) /\
    cm_canary_tokens (er_manifest res) =
      imap (fun i t => set_proof (default "" (mt_leaves tree !! i)) (get_merkle_proof tree i) t) ts.
Proof.
  intros Hne. unfold finish_embed. destruct (hash_source_tree n) as [h|e]; [|by eexists].
  assert (imap (fun i t => lower_string (leaf_hash (ct_secret t) (ec_project_id config) (ec_distribution_id config) (Z.of_nat i))) ts
          = leaves_of config ts) as ->.
  { unfold leaves_of. apply imap_ext. intros i t _. unfold compose, leaf_hash. by rewrite lower_hex. }
  destruct (build_total HX (leaves_of config ts)) as [tree Ht].
  { unfold leaves_of. by destruct ts. }
  { apply (Forall_impl _ _ _ (leaves_of_hex32 config ts)). intros s (b & Hb & _). by exists b. }
  rewrite Ht. cbn [mbind option_bind]. eexists. split; [done|]. intros res Hres. exists tree. split; [done|].
  destruct (ec_manifest_out config) as [out|]; [|by injection Hres as <-].
  destruct (save out _); cbn in Hres; [|done]. by injection Hres as <-.
Qed.

Local Ltac run_err := eexists _, _; split_and!; [reflexivity|first [by apply evolves_refl|done]|done].

(** Every outcome of a run: it never panics, and what it leaves. *)
Lemma run_embed_spec (save : string -> CanaryManifest -> result string unit) (config : EmbedConfig) (root : node) :
  tree_ok root ->
  exists r n', run_embed default_hash save config root = (Some r, n') /\ evolves root n' /\
  forall res, r = Ok res -> exists us tree, is_dir n' = true /\
    Forall (fun u => token_ok u /\ placed n' u /\ ct_target_file u <> "") us /\
    Z.of_nat (length us) = ec_num_canaries config /\
    build_merkle_tree (leaves_of config us) = Some tree /\
    hash_source_tree n' = Ok (cm_source_tree_hash (er_manifest res)) /\
    cm_project_id (er_manifest res) = ec_project_id config /\ cm_distribution_id (er_manifest res) = ec_distribution_id config /\
    cm_merkle_root (er_manifest res) = Some (mt_root tree) /\
    cm_canary_tokens (er_manifest res) =
      imap (fun i t => set_proof (default "" (mt_leaves tree !! i)) (get_merkle_proof tree i) t) (map (locate n') us).
Proof.
  intros Hn. unfold run_embed.
  destruct (is_dir root) eqn:Ed; cbn [negb]; [|by run_err].
  destruct (ec_num_canaries config =? 0); [by run_err|]. destruct (bool_decide _); [by run_err|].
  destruct (find _ _); [by run_err|].
  set (ts := map (new_token config) _).
  assert (Forall (fun t => token_ok t /\ ct_target_file t = "") ts) as Hts.
  { apply Forall_map, Forall_forall. intros i _. apply new_token_ok. }
  pose proof (embed_tokens_spec ts (MkEmbed root (embed_seed config) ∅) Hts Hn Ed) as Hspec.
  destruct (embed_tokens default_hash ts _) as [[us1 ms] st]. destruct Hspec as (He & Hlen & Hus). cbn [es_tree] in He. cbv zeta.
  set (us := filter _ us1). destruct (Z.ltb_spec (Z.of_nat (length us)) (ec_num_canaries config)) as [|Hge]; [by run_err|].
  case_bool_decide as Hne; [by run_err|].
  destruct (finish_embed_spec save config (map (locate (es_tree st)) us) ms (es_tree st)) as (r & -> & Hr).
  { by destruct us. }
  exists r, (es_tree st). split_and!; [done..|]. intros res ->. destruct (Hr res eq_refl) as (tree & H1 & H2 & H3 & H4 & H5 & H6).
  assert (leaves_of config (map (locate (es_tree st)) us) = leaves_of config us) as El.
  { unfold leaves_of. rewrite imap_fmap. apply imap_ext. intros i t _. cbn. unfold locate. repeat case_match; done. }
  exists us, tree. split_and!; try done.
  - by rewrite (proj1 (proj2 He)).
  - apply Forall_forall. intros u Hu. apply list_elem_of_filter in Hu as [Hu1 Hu2]. rewrite Forall_forall in Hus.
    destruct (Hus u Hu2). done.
  - assert (length us <= length us1)%nat by apply length_filter.
    assert (length us <> 0)%nat by (by destruct us). assert (length ts = Z.to_nat (ec_num_canaries config)) as Hlt
      by (unfold ts; by rewrite length_map, length_seq). lia.
  - by rewrite <- El.
Qed.

End Embedding.

(** ** Signatures *)

(** Signatures of a bundle verify under its keys, which parse. *)
Class CanaryOk `{NetCryptoOps} : Prop := {
  canary_net :: NetCryptoOk;
  canary_verifies : forall b m s, bundle_try_sign b m = Ok s ->
    hybrid_pair_verify (bundle_ed25519_pk b) (bundle_falcon1024_pk b) m s.1 s.2 = true;
  canary_ed_len : forall b, length (bundle_ed25519_pk b) = 32%nat;
  canary_keys : forall b, ed_pk_check (bundle_ed25519_pk b) = Ok tt /\ falcon_pk_check (bundle_falcon1024_pk b) = Ok tt
}.

Section Evidence.
Context `{SK : Sdk, NC : NetCryptoOps, FS : FingerprintSerde} (pair_error : bytes -> EdSig -> FalconSig -> string).
Context {HX : HexOk} {HT : HexText} {HO : HashOk} {JO : JsonOk} {CO : CanaryOk}.

Lemma sign_with_verifies (bundle : result string KeyBundle) (canonical : option bytes) (s : SigFields) :
  sign_with bundle canonical = Some (Ok s) -> verify_fields pair_error s canonical = Some (Ok Valid).
Proof.
  unfold sign_with. destruct bundle as [b|e]; [|done]. destruct canonical as [m|]; [|done]. cbn [mbind option_bind].
  intros E. apply (inj Some) in E. destruct (bundle_try_sign b m) as [sig|e] eqn:Es; cbn [map_err mbind result_mbind] in E; [|done].
  assert (s = sig_fields b sig) as -> by congruence. unfold verify_fields, sig_fields, parse_ed25519_pk, parse_falcon_pk, parse_ed25519_sig, parse_falcon_sig.
  cbn [sf_ed25519_pk sf_falcon1024_pk sf_ed25519_sig sf_falcon1024_sig]. rewrite !hex_roundtrip. cbn [map_err mbind result_mbind].
  rewrite canary_ed_len. cbn [Nat.eqb negb]. destruct (canary_keys b) as [-> ->]. cbn [map_err mbind result_mbind].
  rewrite ed_parse, falcon_parse. cbn [map_err mbind result_mbind option_bind]. by rewrite (canary_verifies _ _ _ Es).
Qed.

Lemma sign_commitment_verifies (m : CanaryManifest) (seed : bytes) (ts : Z) (c : SignedCommitment) :
  sign_commitment m seed ts = Some (Ok c) ->
  commitment_verify pair_error c = Some (Ok Valid) /\ cm_merkle_root m = Some (cp_merkle_root (sc_payload c)) /\
  cp_project_id (sc_payload c) = cm_project_id m /\ cp_distribution_id (sc_payload c) = cm_distribution_id m.
Proof.
  unfold sign_commitment, build_payload. destruct (cm_merkle_root m) as [root|]; [|done].
  destruct (manifest_structure_digest m) as [d|]; [|done]. cbn [mbind option_bind].
  destruct (sign_with _ _) as [[s|e]|] eqn:Es; cbn [mbind option_bind result_mbind]; [|done..].
  intros E. apply (inj Some) in E. assert (c = MkSignedCommitment (MkCommitmentPayload COMMITMENT_VERSION root d (cm_project_id m)
    (cm_distribution_id m) (cm_token_count m) ts) s (commitment_domain (cm_project_id m))) as -> by congruence.
  split_and!; [|done..]. by apply sign_with_verifies in Es.
Qed.

(** ** Evidence for the tokens of a run *)

(** A manifest with proofs over the leaves of its tokens. *)
Definition proved_manifest (m : CanaryManifest) : Prop :=
  exists tree, build_merkle_tree (imap (fun i t => leaf_hash (ct_secret t) (cm_project_id m) (cm_distribution_id m) (Z.of_nat i))
                                   (cm_canary_tokens m)) = Some tree /\
    cm_merkle_root m = Some (mt_root tree) /\
    forall i t, cm_canary_tokens m !! i = Some t -> ct_merkle_proof t = get_merkle_proof tree i.

Lemma match_evidence_ok (m : CanaryManifest) (root : string) (ma : CanaryMatch) (t : CanaryToken) :
  proved_manifest m -> cm_merkle_root m = Some root -> t ∈ cm_canary_tokens m -> ma_secret ma = ct_secret t ->
  exists e, match_evidence m root ma = Ok e /\ me_match e = ma /\ me_proof_ok e = true /\
    verify_proof (me_merkle_leaf e) (me_merkle_proof e) (me_leaf_index e) root = true.
Proof.
  intros (tree & Hb & Hroot & Hp) Hr Ht Hs. assert (root = mt_root tree) as -> by congruence. unfold match_evidence.
  destruct (position_exists (fun t => String.eqb (ct_secret t) (ma_secret ma)) (cm_canary_tokens m) t) as [i Ei];
    [done|by apply String.eqb_eq|].
  rewrite Ei. destruct (position_Some _ _ _ Ei) as (u & Hu & Eu & _). apply String.eqb_eq in Eu. rewrite Hu, (Hp _ _ Hu), <- Eu.
  assert (verify_proof (leaf_hash (ct_secret u) (cm_project_id m) (cm_distribution_id m) (Z.of_nat i)) (get_merkle_proof tree i) i (mt_root tree) = true) as Hv.
  { eapply proof_verifies; [done|]. rewrite list_lookup_imap, Hu. done. }
  eexists. split; [reflexivity|]. cbn [me_match me_proof_ok me_merkle_leaf me_merkle_proof me_leaf_index]. by rewrite Hv.
Qed.

Lemma match_evidences_ok (m : CanaryManifest) (root : string) (ms : list CanaryMatch) :
  proved_manifest m -> cm_merkle_root m = Some root ->
  Forall (fun ma => exists t, t ∈ cm_canary_tokens m /\ ma_secret ma = ct_secret t) ms ->
  exists es, match_evidences m root ms = Ok es /\ map me_match es = ms /\
    forallb (fun e => me_proof_ok e && verify_proof (me_merkle_leaf e) (me_merkle_proof e) (me_leaf_index e) root) es = true.
Proof.
  intros Hp Hr Hms. induction Hms as [|ma ms (t & Ht & Hs) Hms IH]; [by exists []|]. cbn [match_evidences].
  destruct (match_evidence_ok m root ma t Hp Hr Ht Hs) as (e & -> & H1 & H2 & H3). cbn [mbind result_mbind].
  destruct IH as (es & -> & H4 & H5). cbn [mbind result_mbind]. exists (e :: es). split_and!; [done|cbn; by rewrite H1, H4|].
  cbn [forallb]. by rewrite H2, H3, H5.
Qed.

Lemma verify_source_secrets (n : node) (m : CanaryManifest) :
  Forall (fun ma => exists t, t ∈ cm_canary_tokens m /\ ma_secret ma = ct_secret t) (verify_source n m).
Proof.
  apply Forall_forall. intros ma Hma. apply elem_of_concat in Hma as (l & Hl & Hin). apply list_elem_of_fmap in Hin as (t & -> & Ht).
  exists t. split; [done|]. unfold scan_for_token, walk_root in Hl. destruct (is_dir n); [|by apply elem_of_nil in Hl].
  apply walk_elem in Hl as (p & perms & c & _ & Hl). repeat case_match; try by apply elem_of_nil in Hl.
  by apply line_matches_elem in Hl as (j & line & _ & _ & ->).
Qed.

(** The package of a proved manifest, a valid commitment and an accepted fingerprint. *)
Lemma assemble_sound (n : node) (m : CanaryManifest) (c : SignedCommitment) (f : option SignedFingerprint)
    (ledger : option (string * option bytes)) (now : Z) (root : string) (fp : option SignedFingerprint) (idx : option nat) :
  proved_manifest m -> verify_source n m <> [] -> commitment_verify pair_error c = Some (Ok Valid) ->
  cm_merkle_root m = Some root -> cp_merkle_root (sc_payload c) = root -> cp_project_id (sc_payload c) = cm_project_id m ->
  check_fingerprint pair_error c root f ledger = Some (Ok (fp, idx)) ->
  exists pkg, assemble pair_error n m c f ledger now = Some (Ok pkg) /\ is_sound pair_error pkg = Some true /\
    map me_match (ev_matches pkg) = verify_source n m /\ ev_fingerprint pkg = fp /\ ev_ledger_index pkg = idx.
Proof.
  intros Hp Hne Hv Hr Hcr Hcp Hf. unfold assemble. rewrite Hr. cbv zeta. rewrite Hv. cbn [mbind option_bind].
  rewrite Hcr, String.eqb_refl, Hcp, Z.eqb_refl. cbn [negb]. rewrite Hf. cbn [mbind option_bind result_mbind].
  destruct (match_evidences_ok m root _ Hp Hr (verify_source_secrets n m)) as (es & -> & H4 & H5). cbn [mbind result_mbind].
  eexists. split; [done|]. split_and!; [|done..].
  assert (proofs_ok es root = true) as Hpr.
  { unfold proofs_ok. rewrite H5, bool_decide_eq_false_2; [done|]. intros ->. by destruct Hne. }
  unfold is_sound, all_checks. cbn [ev_commitment ev_merkle_root ev_matches ev_fingerprint ev_ledger_index ev_project_id].
  rewrite Hv. cbn [is_valid mbind option_bind]. rewrite Hcr, String.eqb_refl, Hcp, Z.eqb_refl, Hpr.
  unfold check_fingerprint in Hf. destruct f as [fp0|]; [|by apply (inj Some) in Hf as [= <- <-]].
  destruct (fingerprint_verify pair_error fp0) as [[[|]|]|] eqn:Ef; cbn [mbind option_bind] in Hf; try done.
  destruct (commitment_digest c) as [d|] eqn:Ed; [|done]. cbn [mbind option_bind] in Hf. apply (inj Some) in Hf.
  destruct (String.eqb_spec (fp_commitment_digest (sfp_payload fp0)) d) as [Ed'|]; [|done]. cbn [negb] in Hf.
  destruct (String.eqb_spec (fp_merkle_root (sfp_payload fp0)) root) as [Er'|]; [|done]. cbn [negb] in Hf.
  assert (fp = Some fp0) as ->.
  { destruct ledger as [[path file]|]; [|congruence]. destruct (read_ledger path file); cbn [mbind result_mbind] in Hf; [|done].
    destruct (position _ _); congruence. }
  cbn [mbind option_bind is_valid]. rewrite Ef. cbn [mbind option_bind]. rewrite Ed'.
  rewrite Er', !String.eqb_refl. cbn. by destruct idx.
Qed.

(** *** Fingerprints and the ledger *)

Lemma sign_fingerprint_spec (m : CanaryManifest) (c : SignedCommitment) (a : Archive) (seed : bytes) (ts : Z) (f : SignedFingerprint) :
  sign_fingerprint pair_error m c a seed ts = Some (Ok f) ->
  fingerprint_verify pair_error f = Some (Ok Valid) /\ commitment_verify pair_error c = Some (Ok Valid) /\
  matches_archive f a = Ok true /\ matches_commitment pair_error f c = Some (Ok true) /\
  commitment_digest c = Some (fp_commitment_digest (sfp_payload f)) /\
  cm_merkle_root m = Some (fp_merkle_root (sfp_payload f)) /\ fp_source_tree_hash (sfp_payload f) = cm_source_tree_hash m.
Proof.
  unfold sign_fingerprint, cross_bind. destruct (commitment_verify pair_error c) as [[[|]|]|] eqn:Ev; try done. cbn [mbind option_bind].
  destruct (cm_merkle_root m) as [root|]; [|done].
  destruct (String.eqb_spec root (cp_merkle_root (sc_payload c))) as [Er|]; [|done].
  destruct (Z.eqb_spec (cm_project_id m) (cp_project_id (sc_payload c))) as [Ep|]; [|done].
  destruct (String.eqb_spec (cm_distribution_id m) (cp_distribution_id (sc_payload c))) as [Ei|]; [|done].
  cbn [negb mbind result_mbind]. destruct (hash_archive a) as [[hash size]|e] eqn:Ea; [|done]. cbn [mbind result_mbind].
  destruct (ar_name a) as [name|]; [|done]. destruct (commitment_digest c) as [d|] eqn:Ed; [|done]. cbn [mbind option_bind].
  destruct (sign_with _ _) as [[s|e]|] eqn:Es; cbn [mbind option_bind result_mbind]; [|done..].
  intros E. apply (inj Some) in E. assert (f = MkSignedFingerprint (MkFingerprintPayload FINGERPRINT_VERSION hash size name
    (cm_source_tree_hash m) root d (cm_project_id m) (cm_distribution_id m) ts) s ("canary-fingerprint-" +:+ show_Z (cm_project_id m)))
    as -> by congruence. clear E. split_and!; try done.
  - by apply sign_with_verifies in Es.
  - unfold matches_archive. rewrite Ea. cbn. by rewrite String.eqb_refl, Z.eqb_refl.
  - unfold matches_commitment. rewrite Ev. cbn [mbind option_bind]. rewrite Ed. cbn. by rewrite Er, Ep, Ei, !String.eqb_refl, Z.eqb_refl.
Qed.

Context (SO : JsonlOk fp_to_vec fp_from_str).

Lemma ledger_lines (xs : list SignedFingerprint) (bs : list bytes) :
  Forall2 (fun x b => fp_to_vec x = Ok b) xs bs ->
  lines (concat (map line_of bs)) = bs /\ Forall (fun b => blank b = false) bs /\
  forall path i, ledger_records path i bs = Ok xs.
Proof.
  intros Hbs. split_and!.
  - rewrite lines_concat.
    + induction Hbs as [|x b xs bs Hb Hbs IH]; [done|]. cbn [map]. rewrite IH. f_equal.
      destruct (rec_shape _ _ SO x b Hb) as [k ->]. rewrite app_comm_cons. apply strip_cr_object.
    + induction Hbs as [|x b xs bs Hb Hbs IH]; constructor; [by eapply (rec_no_lf _ _ SO)|done].
  - induction Hbs as [|x b xs bs Hb Hbs IH]; constructor; [|done].
    destruct (rec_shape _ _ SO x b Hb) as [k ->]. apply object_not_blank.
  - intros path. induction Hbs as [|x b xs bs Hb Hbs IH]; intros i; [done|]. cbn [ledger_records].
    assert (blank b = false) as -> by (destruct (rec_shape _ _ SO x b Hb) as [k ->]; apply object_not_blank).
    rewrite (rec_decodes _ _ SO x b Hb). cbn. by rewrite IH.
Qed.

Lemma non_blank_all (bs : list bytes) : Forall (fun b => blank b = false) bs -> non_blank bs = bs.
Proof. induction 1 as [|b bs Hb Hbs IH]; [done|]. unfold non_blank in *. by rewrite filter_cons_True, IH. Qed.

Lemma read_ledger_holds (path : string) (raw : bytes) (xs : list SignedFingerprint) :
  holds fp_to_vec (Some raw) xs -> read_ledger path (Some raw) = Ok xs.
Proof.
  intros (bs & Hbs & E). cbn in E. subst raw. cbn. rewrite (holds_utf8 _ _ SO _ _ Hbs).
  destruct (ledger_lines _ _ Hbs) as (-> & _ & ->). done.
Qed.

Lemma publish_holds (ledger : option bytes) (xs : list SignedFingerprint) (f : SignedFingerprint) :
  holds fp_to_vec ledger xs -> fingerprint_verify pair_error f = Some (Ok Valid) ->
  exists file, publish pair_error ledger f = Some (Ok (Z.of_nat (length xs)), Some file) /\ holds fp_to_vec (Some file) (xs ++ [f]).
Proof.
  intros (bs & Hbs & E) Hv. unfold publish. rewrite Hv. cbn [mbind option_bind]. destruct (rec_encodes _ _ SO f) as [line Hl]. rewrite Hl.
  assert (Forall2 (fun x b => fp_to_vec x = Ok b) (xs ++ [f]) (bs ++ [line])) as Hbs' by (apply Forall2_app; [done|by constructor]).
  assert (default [] ledger ++ line ++ [lf] = concat (map line_of (bs ++ [line]))) as Ef.
  { rewrite E, map_app, concat_app. cbn. by rewrite app_nil_r. }
  eexists. rewrite Ef. destruct (ledger_lines _ _ Hbs') as (El & Hb & _). split.
  - rewrite (holds_utf8 _ _ SO _ _ Hbs'), El, non_blank_all by done.
    rewrite length_app, <- (Forall2_length _ _ _ Hbs). cbn [length]. do 3 f_equal. lia.
  - exists (bs ++ [line]). by split.
Qed.

End Evidence.

(** ** Properties *)

Lemma scan_for_token_ext (t u : CanaryToken) (n : node) (m : CanaryMatch) :
  ct_secret t = ct_secret u -> ct_token_id t = ct_token_id u -> m ∈ scan_for_token t n -> m ∈ scan_for_token u n.
Proof.
  intros Es Ei. unfold scan_for_token, walk_root. destruct (is_dir n); [|done]. rewrite !walk_elem.
  intros (p & perms & c & Hr & Hm). exists p, perms, c. split; [done|]. repeat case_match; try by apply elem_of_nil in Hm.
  rewrite line_matches_elem in Hm |- *. by rewrite <- Es, <- Ei.
Qed.

(** What the manifest of a run says of its tokens. *)
Lemma run_embed_manifest `{SK : Sdk, HX : !HexOk, HT : !HexText, HO : !HashOk} (default_hash : string -> Z)
    (save : string -> CanaryManifest -> result string unit) (config : EmbedConfig) (root n' : node) (res : EmbedResult) :
  tree_ok root -> run_embed default_hash save config root = (Some (Ok res), n') ->
  Z.of_nat (length (cm_canary_tokens (er_manifest res))) = ec_num_canaries config /\
  verify_integrity n' (er_manifest res) = Ok Intact /\ proved_manifest (er_manifest res) /\
  forall t, t ∈ cm_canary_tokens (er_manifest res) -> scanned (ct_target_file t) = true ->
    exists m, m ∈ verify_source n' (er_manifest res) /\ ma_token_id m = ct_token_id t /\ ma_secret m = ct_secret t /\
      ma_file_path m = ct_target_file t /\ ma_line_number m = ct_line_number t.
Proof.
  intros Hn Hrun. destruct (run_embed_spec default_hash save config root Hn) as (r & n & Hr & He & Hres).
  rewrite Hrun in Hr. apply pair_equal_spec in Hr as [Hr <-]. apply (inj Some) in Hr. symmetry in Hr.
  destruct (Hres res Hr) as (us & tree & Hd & Hus & Hlen & Hb & Hh & Hp & Hdi & Hroot & Hts).
  set (g := fun (i : nat) (t : CanaryToken) => set_proof _ _ t) in Hts. split_and!.
  - by rewrite Hts, length_imap, length_map.
  - unfold verify_integrity. rewrite Hh. cbn. by rewrite String.eqb_refl.
  - exists tree. rewrite Hp, Hdi, Hts, Hroot. split_and!; [|done|].
    + rewrite <- Hb. f_equal. unfold leaves_of. apply list_eq. intros i. rewrite !list_lookup_imap, list_lookup_fmap.
      destruct (us !! i) as [u|]; [|done]. cbn. unfold locate. repeat case_match; done.
    + intros i t Ht. rewrite list_lookup_imap, list_lookup_fmap in Ht. destruct (us !! i) as [u|]; [|done].
      cbn in Ht. by injection Ht as <-.
  - intros t Ht Hsc. rewrite Hts in Ht. apply list_elem_of_lookup in Ht as [i Hi]. rewrite list_lookup_imap, list_lookup_fmap in Hi.
    destruct (us !! i) as [u|] eqn:Eu; [|done]. assert (t = g i (locate n' u)) as Et by (cbn in Hi; congruence).
    rewrite Forall_forall in Hus. destruct (Hus u) as (Hok & Hpl & Hne); [by apply list_elem_of_lookup_2 in Eu|].
    assert (ct_target_file t = ct_target_file u /\ ct_secret t = ct_secret u /\ ct_token_id t = ct_token_id u /\
            ct_secret (locate n' u) = ct_secret t /\ ct_token_id (locate n' u) = ct_token_id t /\
            ct_line_number t = ct_line_number (locate n' u)) as (Ef & Es & Ei & Es' & Ei' & El).
    { rewrite Et. unfold g, locate. repeat case_match; done. }
    rewrite Ef in Hsc. destruct (placed_found n' u Hok (proj1 He) Hd Hpl Hne Hsc) as (m & Hm & H1 & H2 & H3 & H4).
    exists m. rewrite Ei, Es, Ef, El. split_and!; try done. apply elem_of_concat. exists (scan_for_token t n'). split.
    + by apply (scan_for_token_ext (locate n' u)).
    + apply (list_elem_of_fmap_2 (fun t => scan_for_token t n')). rewrite Hts. apply list_elem_of_lookup. exists i. rewrite list_lookup_imap, list_lookup_fmap, Eu.
      cbn. by rewrite Et.
Qed.



(** ** Where the checks fall short *)

(** A package is checked without its secrets: whatever the matches are said
    to be, the checks give the same answer. *)
Definition relabel (g : CanaryMatch -> CanaryMatch) (e : EvidencePackage) : EvidencePackage :=
  MkEvidence (ev_version e) (ev_project_id e) (ev_distribution_id e) (ev_merkle_root e)
    (map (fun m => MkMatchEvidence (g (me_match m)) (me_merkle_leaf m) (me_merkle_proof m) (me_leaf_index m) (me_proof_ok m)) (ev_matches e))
    (ev_commitment e) (ev_fingerprint e) (ev_ledger_index e) (ev_timestamp e).

Lemma evidence_not_bound_to_secret `{SK : Sdk, NC : NetCryptoOps} (pair_error : bytes -> EdSig -> FalconSig -> string)
    (g : CanaryMatch -> CanaryMatch) (e : EvidencePackage) :
  is_sound pair_error (relabel g e) = is_sound pair_error e.
Proof.
  unfold is_sound, all_checks. cbn [relabel ev_commitment ev_merkle_root ev_matches ev_fingerprint ev_ledger_index ev_project_id].
  rewrite length_map.
  assert (proofs_ok (map (fun m => MkMatchEvidence (g (me_match m)) (me_merkle_leaf m) (me_merkle_proof m) (me_leaf_index m) (me_proof_ok m))
            (ev_matches e)) (ev_merkle_root e) = proofs_ok (ev_matches e) (ev_merkle_root e)) as ->; [|done].
  unfold proofs_ok. f_equal; [by destruct (ev_matches e)|]. induction (ev_matches e) as [|m ms IH]; [done|]. cbn. by rewrite IH.
Qed.

(** The tree hash joins names and contents without separators: two files may
    be one file whose text spells the second name. *)
Lemma tree_hash_ambiguous `{SK : Sdk} (x y : bytes) (w : bool) :
  let perms := MkPerms true w in
  hash_source_tree (NDir None [("a.py", NFile perms x); ("b.py", NFile perms y)]) =
  hash_source_tree (NDir None [("a.py", NFile perms (x ++ chars "b.py" ++ y))]).
Proof.
  intros perms. unfold hash_source_tree. cbn [is_dir].
  assert (collect_files [] (NDir None [("a.py", NFile perms x); ("b.py", NFile perms y)]) = Ok [["a.py"]; ["b.py"]]) as -> by reflexivity.
  assert (collect_files [] (NDir None [("a.py", NFile perms (x ++ chars "b.py" ++ y))]) = Ok [["a.py"]]) as -> by reflexivity.
  cbn [mbind result_mbind]. change (merge_sort path_le [["a.py"]; ["b.py"]]) with [["a.py"]; ["b.py"]].
  change (merge_sort path_le [["a.py"]]) with [["a.py"]]. do 4 f_equal. cbn [map concat].
  change (tree_file_bytes (NDir None [("a.py", NFile perms x); ("b.py", NFile perms y)]) ["a.py"]) with (chars "a.py" ++ x).
  change (tree_file_bytes (NDir None [("a.py", NFile perms x); ("b.py", NFile perms y)]) ["b.py"]) with (chars "b.py" ++ y).
  change (tree_file_bytes (NDir None [("a.py", NFile perms (x ++ chars "b.py" ++ y))]) ["a.py"]) with (chars "a.py" ++ x ++ chars "b.py" ++ y).
  by rewrite !app_nil_r, <- !app_assoc.
Qed.

(** ** A concrete instance *)

Module ToyCanary.
#[local] Existing Instances Toy.sdk ToyDeleg.ops.

#[global] Instance ok : @CanaryOk ToyDeleg.ops.
Proof. constructor; [apply ToyDeleg.ok| |done|done]. intros b m s E. cbn in *. injection E as <-. cbn. by rewrite bool_decide_eq_true_2. Qed.

Definition fields (f : SignedFingerprint) :=
  let p := sfp_payload f in let s := sfp_sig f in
  (fp_version p, fp_archive_hash p, fp_archive_size p, fp_archive_name p, fp_source_tree_hash p, fp_merkle_root p,
   fp_commitment_digest p, fp_project_id p, fp_distribution_id p, fp_timestamp p,
   (sf_ed25519_sig s, sf_falcon1024_sig s, sf_ed25519_pk s, sf_falcon1024_pk s), sfp_domain f).
Definition of_fields (x : string * string * Z * string * string * string * string * Z * string * Z * (string * string * string * string) * string) :=
  let '(a, b, c, d, e, f, g, h, i, j, (k, l, m, n), o) := x in
  MkSignedFingerprint (MkFingerprintPayload a b c d e f g h i j) (MkSigFields k l m n) o.

Fixpoint bits (p : positive) : bytes :=
  match p with xH => [] | xO p' => "0"%char :: bits p' | xI p' => "1"%char :: bits p' end.
Fixpoint of_bits (l : bytes) : positive :=
  match l with [] => xH | a :: l' => if Ascii.eqb a "0"%char then xO (of_bits l') else xI (of_bits l') end.

#[global] Instance serde : FingerprintSerde := {|
  fp_to_vec f := Ok ("{"%char :: bits (encode (fields f)) ++ ["}"%char]);
  fp_from_str b := match decode (of_bits (removelast (tail b))) with Some x => Ok (of_fields x) | None => Err "malformed" end
|}.

Lemma bits_ok (p : positive) : of_bits (bits p) = p /\ Forall (fun a => a <> lf) (bits p) /\ utf8_valid (bits p) = true.
Proof. induction p as [p (H1 & H2 & H3)|p (H1 & H2 & H3)|]; cbn; rewrite ?H1; repeat split; try done; by constructor. Qed.

Lemma serde_ok : JsonlOk fp_to_vec fp_from_str.
Proof.
  constructor; cbn [fp_to_vec serde].
  - intros f. by eexists.
  - intros f b [= <-]. by eexists.
  - intros f b [= <-]. destruct (bits_ok (encode (fields f))) as (_ & H & _). constructor; [done|]. apply Forall_app. split; [done|by repeat constructor].
  - intros f b [= <-]. destruct (bits_ok (encode (fields f))) as (_ & _ & H). cbn [utf8_valid]. change (code "{" <? 128) with true.
    by apply utf8_valid_app2.
  - intros f b [= <-]. cbn [fp_from_str serde tail]. rewrite removelast_last. destruct (bits_ok (encode (fields f))) as (-> & _).
    rewrite decode_encode. by destruct f as [[] []].
Qed.

Definition rw : Perms := MkPerms true true.
Definition text (ls : list string) : bytes := concat (map (fun l => chars l ++ [lf]) ls).
Definition root : node := NDir None
  [("main.py", NFile rw (text ["import os"; "def main():"; "    return 0"]));
   ("target", NDir None [("x.py", NFile rw (text ["import os"]))]);
   ("src", NDir None [("lib.rs", NFile rw (text ["use std::fs;"; "fn f() {}"]))])].
Definition config : EmbedConfig := MkConfig "src" 7 "d" "s" 3 None ["variable.python"; "variable.rust"; "deadcode.python"].
Definition save (_ : string) (_ : CanaryManifest) : result string unit := Ok tt.
Definition run := run_embed (fun _ => 48879) save config root.
Definition tree_after : node := snd run.
Definition result_of : EmbedResult :=
  match fst run with Some (Ok r) => r | _ => MkEmbedResult (MkCanaryManifest 0 "" "" "" 0 [] None) [] "" end.

#[local] Instance name_ok_dec (name : string) : Decision (name_ok name).
Proof. unfold name_ok. apply _. Defined.

Lemma root_ok : tree_ok root.
Proof.
  repeat first [apply tree_ok_dir; split; [apply (bool_decide_eq_true_1 _); vm_compute; reflexivity|repeat apply Forall_cons_2]
    | apply Forall_nil_2 | split; [apply (bool_decide_eq_true_1 _); vm_compute; reflexivity|cbn [snd]] | exact I].
Qed.

Definition err (m : bytes) (a : @EdSig ToyDeleg.ops) (b : @FalconSig ToyDeleg.ops) : string := "bad signature".
Definition commitment : SignedCommitment :=
  match sign_commitment (er_manifest result_of) [] 100 with Some (Ok c) => c
  | _ => MkSignedCommitment (MkCommitmentPayload "" "" "" 0 "" 0 0) (MkSigFields "" "" "" "") "" end.
Definition archive : Archive := MkArchive (Some "d.tar") (Ok (chars "archive bytes")).
Definition fingerprint : SignedFingerprint :=
  match sign_fingerprint err (er_manifest result_of) commitment archive [] 200 with Some (Ok f) => f
  | _ => MkSignedFingerprint (MkFingerprintPayload "" "" 0 "" "" "" "" 0 "" 0) (MkSigFields "" "" "" "") "" end.
End ToyCanary.

#[local] Existing Instances Toy.sdk ToyDeleg.ops.



(** A watermark placed in a text file is in the manifest, but the verifier
    never opens such a file: a complete embedding of which nothing is found. *)
Lemma watermark_in_text_not_found :
  let config := MkConfig "src" 7 "d" "s" 1 None ["watermark"] in
  let root := NDir None [("README.md", NFile ToyCanary.rw (ToyCanary.text ["Hello"]))] in
  exists res n', run_embed (fun _ => 0) ToyCanary.save config root = (Some (Ok res), n') /\
    map ct_target_file (cm_canary_tokens (er_manifest res)) = ["README.md"] /\ verify_source n' (er_manifest res) = [].
Proof. eexists _, _. split; [vm_compute; reflexivity|]. split; vm_compute; reflexivity. Qed.
