(* ===== verification/Crawler.v ===== *)
(** * The crawler: frontier, robots rules, sitemaps and page scanning
    (origin-crawler/src/frontier.rs, robots.rs, sitemap.rs, parser.rs)

    URLs are the type of the url crate, a parameter.  Instants and durations
    are integers (nanoseconds); a clock reading is an argument.  Texts are
    bytes; taking a slice of a [str] inside a character is a panic, [None]. *)

From Stdlib Require Import Ascii String.
From S2P Require Import Prelude RustStr Bytes RustText.

(** The operations of the url crate. *)
Class UrlOps := {
  Url : Type;
  #[global] url_eq_dec :: EqDecision Url;
  as_str : Url -> string;
  host_str : Url -> option string;
  url_path : Url -> string;
  scheme : Url -> string;
  authority : Url -> string;
  (** [set_fragment(None)], [base.join(text).ok()], [Url::parse]. *)
  strip_fragment : Url -> Url;
  url_join : Url -> bytes -> option Url;
  url_parse : string -> result string Url
}.

(** ** The frontier ([frontier.rs]) *)

Section Frontier.
Context `{UO : UrlOps}.

Record QueuedUrl := MkQueued { q_url : Url; q_depth : Z }.

(** [(depth, foreign, seq)]. *)
Record Entry := MkEntry { en_depth : Z; en_foreign : bool; en_seq : Z; en_item : QueuedUrl }.

Record Frontier := MkFrontier {
  fr_heap : list Entry;
  fr_seq : Z;
  fr_seen : gset string;
  fr_seed_hosts : gset string;
  fr_host_next_ok : gmap string Z;
  fr_host_pages : gmap string Z;
  fr_max_url_len : Z
}.

(** The lexicographic order of keys; [false < true]. *)
Definition key_ltb (a b : Entry) : bool :=
  (en_depth a <? en_depth b) || ((en_depth a =? en_depth b) &&
    ((negb (en_foreign a) && en_foreign b) || (Bool.eqb (en_foreign a) (en_foreign b) && (en_seq a <? en_seq b)))).

Definition frontier_new (max_url_len : Z) (seed_hosts : list string) : Frontier :=
  MkFrontier [] 0 ∅ (list_to_set seed_hosts) ∅ ∅ max_url_len.

Definition push (url0 : Url) (depth : Z) (f : Frontier) : bool * Frontier :=
  let url := strip_fragment url0 in
  if fr_max_url_len f <? Z.of_nat (length (chars (as_str url))) then (false, f)
  else if bool_decide (as_str url ∈ fr_seen f) then (false, f)
  else
    let foreign := negb (match host_str url with Some h => bool_decide (h ∈ fr_seed_hosts f) | None => false end) in
    (true, MkFrontier (fr_heap f ++ [MkEntry depth foreign (fr_seq f) (MkQueued url depth)]) (wrap_u64 (fr_seq f + 1))
             ({[as_str url]} ∪ fr_seen f) (fr_seed_hosts f) (fr_host_next_ok f) (fr_host_pages f) (fr_max_url_len f)).

(** The entry with the least key and the others. *)
Fixpoint take_min (e : Entry) (l : list Entry) : Entry * list Entry :=
  match l with
  | [] => (e, [])
  | x :: l' => if key_ltb x e then let '(m, r) := take_min x l' in (m, e :: r) else let '(m, r) := take_min e l' in (m, x :: r)
  end.

Definition set_heap (h : list Entry) (f : Frontier) : Frontier :=
  MkFrontier h (fr_seq f) (fr_seen f) (fr_seed_hosts f) (fr_host_next_ok f) (fr_host_pages f) (fr_max_url_len f).

Definition pop (f : Frontier) : option QueuedUrl * Frontier :=
  match fr_heap f with
  | [] => (None, f)
  | e :: l => let '(m, r) := take_min e l in (Some (en_item m), set_heap r f)
  end.

Definition reserve_slot (host : string) (delay now : Z) (f : Frontier) : Z * Frontier :=
  let start := default now (fr_host_next_ok f !! host) in
  let next := Z.max start now + delay in
  (start, MkFrontier (fr_heap f) (fr_seq f) (fr_seen f) (fr_seed_hosts f) (<[host := next]> (fr_host_next_ok f)) (fr_host_pages f)
            (fr_max_url_len f)).

Definition host_quota_exhausted (host : string) (max_pages_per_host : Z) (f : Frontier) : bool * Frontier :=
  let count := default 0 (fr_host_pages f !! host) in
  let pages c := MkFrontier (fr_heap f) (fr_seq f) (fr_seen f) (fr_seed_hosts f) (fr_host_next_ok f) (<[host := c]> (fr_host_pages f))
                   (fr_max_url_len f) in
  if max_pages_per_host <=? count then (true, pages count) else (false, pages (count + 1)).

End Frontier.
Arguments QueuedUrl {_}.
Arguments Entry {_}.
Arguments Frontier {_}.

(** ** Robots rules ([robots.rs]) *)

Record Robots := MkRobots { ro_allow : list bytes; ro_disallow : list bytes; ro_sitemaps : list bytes }.

Definition lowercase (l : bytes) : bytes := map lower l.
Definition has_sub (p l : bytes) : bool := bool_decide (is_Some (find_window p l)).

Definition token_applies (ua token : bytes) : bool :=
  bool_decide (token = chars "*") || (negb (bool_decide (token = [])) && has_sub token ua).

(** The state of the loop over the lines. *)
Record Parse := MkParse { ps_robots : Robots; ps_applies : bool; ps_in_block : bool }.

Definition robots_line (ua : bytes) (st : Parse) (raw : bytes) : Parse :=
  let line := trim_chars (default [] (head (split_on "#"%char raw))) in
  match line with
  | [] => MkParse (ps_robots st) false false
  | _ =>
      match split_once colon line with
      | None => st
      | Some (k, v) =>
          let key := lowercase (trim_chars k) in
          let val := trim_chars v in
          let r := ps_robots st in
          if bool_decide (key = chars "user-agent") then
            let applies := if ps_in_block st then ps_applies st else false in
            MkParse r (if token_applies ua (lowercase val) then true else applies) true
          else if bool_decide (key = chars "disallow") && ps_applies st then
            MkParse (MkRobots (ro_allow r) (ro_disallow r ++ [val]) (ro_sitemaps r)) (ps_applies st) (ps_in_block st)
          else if bool_decide (key = chars "allow") && ps_applies st then
            MkParse (MkRobots (ro_allow r ++ [val]) (ro_disallow r) (ro_sitemaps r)) (ps_applies st) (ps_in_block st)
          else if bool_decide (key = chars "sitemap") && negb (bool_decide (val = [])) then
            MkParse (MkRobots (ro_allow r) (ro_disallow r) (ro_sitemaps r ++ [val])) (ps_applies st) (ps_in_block st)
          else st
      end
  end.

Definition robots_parse (txt user_agent : bytes) : Robots :=
  ps_robots (foldl (robots_line (lowercase user_agent)) (MkParse (MkRobots [] [] []) false false) (lines txt)).

(** The longest rule that is a prefix of the path. *)
Definition best_match (rules : list bytes) (path : bytes) : nat :=
  foldl (fun best p => if starts_with p path && (best <? length p)%nat then length p else best) 0%nat rules.

Definition allows (r : Robots) (path : bytes) : bool :=
  (best_match (List.filter (fun p => negb (bool_decide (p = []))) (ro_disallow r)) path <=? best_match (ro_allow r) path)%nat.

Definition robots_is_empty (r : Robots) : bool := bool_decide (ro_allow r = []) && bool_decide (ro_disallow r = []).

(** ** String slices *)

(** [&s[i..]] and [&s[i..j]]. *)
Definition slice_from (l : bytes) (i : nat) : option bytes := if is_char_boundary l i then Some (drop i l) else None.
Definition slice_str (l : bytes) (i j : nat) : option bytes :=
  if is_char_boundary l i && is_char_boundary l j && (i <=? j)%nat then Some (slice i j l) else None.

(** ** Sitemaps ([sitemap.rs]) *)

Definition clean_loc (raw : bytes) : option bytes :=
  let inner := trim_chars raw in
  match strip_prefix (chars "<![CDATA[") inner with
  | Some rest => k ← strip_suffix (chars "]]>") rest; Some (trim_chars k)
  | None => match inner with [] => None | _ => Some inner end
  end.

(** The loop from [cursor] on; [None] is a panic. *)
Fixpoint locations_from (fuel : nat) (xml lower : bytes) (cursor : nat) : option (list bytes) :=
  match fuel with
  | O => None
  | S fuel' =>
      tail ← slice_from lower cursor;
      match find_window (chars "<loc>") tail with
      | None => Some []
      | Some rel =>
          let start := (cursor + rel + 5)%nat in
          tail2 ← slice_from lower start;
          match find_window (chars "</loc>") tail2 with
          | None => Some []
          | Some end_rel =>
              let end_ := (start + end_rel)%nat in
              raw ← slice_str xml start end_;
              rest ← locations_from fuel' xml lower (end_ + 6);
              Some (match clean_loc (trim_chars raw) with Some loc => loc :: rest | None => rest end)
          end
      end
  end.
Definition extract_locations (xml : bytes) : option (list bytes) :=
  locations_from (S (length xml)) xml (lowercase xml) 0.

(** ** Pages ([parser.rs]) *)

Record PageMeta := MkMeta { pm_title : option bytes; pm_links : list bytes }.

Definition extract_between (lower orig open close : bytes) : option (option bytes) :=
  match find_window open lower with
  | None => Some None
  | Some i =>
      let start := (i + length open)%nat in
      tail ← slice_from lower start;
      match find_window close tail with
      | None => Some None
      | Some j => t ← slice_str orig start (start + j); Some (Some t)
      end
  end.

Fixpoint join_sp (ws : list bytes) : bytes :=
  match ws with [] => [] | [w] => w | w :: ws' => w ++ " "%char :: join_sp ws' end.
Definition collapse_ws (s : bytes) : bytes := join_sp (split_whitespace (of_chars s)).

(** The first white space or [>]. *)
Fixpoint find_end (l : bytes) : option nat :=
  match l with
  | [] => None
  | a :: l' =>
      if is_ws1 a || Ascii.eqb a ">"%char || match l' with b :: l2 => is_ws2 a b || match l2 with c :: _ => is_ws3 a b c | [] => false end | [] => false end
      then Some O else S <$> find_end l'
  end.

Definition trim_start (l : bytes) : bytes := drop_ws false l.

(** [attr_value] from [search_from] on: [None] is a panic, [Some None] no value. *)
Fixpoint attr_from (fuel : nat) (tag_orig tag_lower name : bytes) (search_from : nat) : option (option bytes) :=
  match fuel with
  | O => None
  | S fuel' =>
      tail ← slice_from tag_lower search_from;
      match find_window name tail with
      | None => Some None
      | Some k =>
          let after_name := (k + search_from + length name)%nat in
          rest ← slice_from tag_lower after_name;
          match find_window [("=")%char] rest with
          | None => Some None
          | Some eq_rel =>
              gap ← slice_str rest 0 eq_rel;
              if negb (bool_decide (trim_chars gap = [])) then attr_from fuel' tag_orig tag_lower name (after_name + 1)
              else
                let val_start := (after_name + eq_rel + 1)%nat in
                val_rest ← slice_from tag_lower val_start;
                let trimmed := trim_start val_rest in
                let abs := (val_start + (length val_rest - length trimmed))%nat in
                match trimmed with
                | q :: _ =>
                    if Ascii.eqb q (byte_of 34) || Ascii.eqb q "'"%char then
                      body ← slice_from tag_lower (abs + 1);
                      match find_window [q] body with
                      | None => Some None
                      | Some close_rel => v ← slice_str tag_orig (abs + 1) (abs + 1 + close_rel); Some (Some v)
                      end
                    else
                      let end_rel := default (length trimmed) (find_end trimmed) in
                      v ← slice_str tag_orig abs (abs + end_rel); Some (Some v)
                | [] => v ← slice_str tag_orig abs abs; Some (Some v)
                end
          end
      end
  end.
Definition attr_value (tag_orig tag_lower name : bytes) : option (option bytes) :=
  attr_from (S (length tag_lower)) tag_orig tag_lower name 0.

Definition anchor_end (b : ascii) : bool :=
  existsb (Ascii.eqb b) [" "%char; byte_of 9; lf; cr; "/"%char; ">"%char].

Fixpoint hrefs_from (fuel : nat) (orig lower : bytes) (i : nat) : option (list bytes) :=
  match fuel with
  | O => None
  | S fuel' =>
      tail ← slice_from lower i;
      match find_window (chars "<a") tail with
      | None => Some []
      | Some pos =>
          let tag_start := (i + pos)%nat in
          tag_tail ← slice_from lower tag_start;
          match find_window [(">")%char] tag_tail with
          | None => Some []
          | Some rel_end =>
              let tag_end := (tag_start + rel_end)%nat in
              after ← lower !! (tag_start + 2)%nat;
              found ← (if anchor_end after then
                         tag_lower ← slice_str lower tag_start (tag_end + 1);
                         tag_orig ← slice_str orig tag_start (tag_end + 1);
                         attr_value tag_orig tag_lower (chars "href")
                       else Some None);
              rest ← hrefs_from fuel' orig lower (tag_end + 1);
              Some (match found with Some v => v :: rest | None => rest end)
          end
      end
  end.
Definition extract_hrefs (orig lower : bytes) : option (list bytes) := hrefs_from (S (length lower)) orig lower 0.

Definition page_parse (html : bytes) : option PageMeta :=
  let lower := lowercase html in
  title ← extract_between lower html (chars "<title>") (chars "</title>");
  links ← extract_hrefs html lower;
  Some (MkMeta (collapse_ws <$> title) links).

(** [replace("&amp;", "&")]. *)
Fixpoint replace_amp (skip : nat) (l : bytes) : bytes :=
  match l with
  | [] => []
  | a :: l' =>
      match skip with
      | S k => replace_amp k l'
      | O => if starts_with (chars "&amp;") l then "&"%char :: replace_amp 4 l' else a :: replace_amp 0 l'
      end
  end.

Definition resolve `{UO : UrlOps} (raw : bytes) (base : Url) : option Url :=
  let cleaned := trim_chars raw in
  if bool_decide (cleaned = []) || starts_with (chars "#") cleaned then None
  else
    let low := lowercase cleaned in
    if starts_with (chars "javascript:") low || starts_with (chars "mailto:") low || starts_with (chars "data:") low
       || starts_with (chars "tel:") low then None
    else
      url ← url_join base (replace_amp 0 cleaned);
      if bool_decide (scheme url = "http") || bool_decide (scheme url = "https") then Some (strip_fragment url) else None.

(** ** The frontier is a priority queue *)

Section FrontierProps.
Context `{UO : UrlOps}.

Lemma key_ltb_irrefl (a : Entry) : key_ltb a a = false.
Proof. unfold key_ltb. rewrite Z.ltb_irrefl, Z.eqb_refl, Z.ltb_irrefl. by destruct (en_foreign a). Qed.

(** The keys as numbers: depth, host class, arrival. *)
Lemma key_ltb_spec (a b : Entry) :
  key_ltb a b = true <->
  en_depth a < en_depth b \/ (en_depth a = en_depth b /\
    (en_foreign a = false /\ en_foreign b = true \/ en_foreign a = en_foreign b /\ en_seq a < en_seq b)).
Proof.
  unfold key_ltb. rewrite orb_true_iff, andb_true_iff, orb_true_iff, !andb_true_iff, negb_true_iff, Z.eqb_eq, !Z.ltb_lt, eqb_true_iff. tauto.
Qed.

(** [a] comes no later than [b]. *)
Definition key_le (a b : Entry) : Prop := key_ltb b a = false.

Lemma key_le_trans (a b c : Entry) : key_le a b -> key_le b c -> key_le a c.
Proof.
  unfold key_le. rewrite <- !not_true_iff_false, !key_ltb_spec.
  destruct (en_foreign a), (en_foreign b), (en_foreign c); intuition (try discriminate; lia).
Qed.

Lemma key_ltb_le (a b : Entry) : key_ltb a b = true -> key_le a b.
Proof.
  unfold key_le. rewrite <- not_true_iff_false, !key_ltb_spec.
  destruct (en_foreign a), (en_foreign b); intuition (try discriminate; lia).
Qed.

Lemma take_min_spec (e : Entry) (l : list Entry) (m : Entry) (r : list Entry) :
  take_min e l = (m, r) -> m :: r ≡ₚ e :: l /\ Forall (key_le m) (e :: l).
Proof.
  revert e m r. induction l as [|x l IH]; intros e m r E; cbn in E.
  { injection E as <- <-. split; [done|]. repeat constructor. apply key_ltb_irrefl. }
  destruct (key_ltb x e) eqn:Ex.
  - destruct (take_min x l) as [m' r'] eqn:Et. injection E as <- <-. destruct (IH _ _ _ Et) as [Hp Hm]. split.
    + by rewrite (perm_swap e m' r'), Hp.
    + constructor; [|done]. apply Forall_cons in Hm as [Hx _]. apply (key_le_trans _ x); [done|by apply key_ltb_le].
  - destruct (take_min e l) as [m' r'] eqn:Et. injection E as <- <-. destruct (IH _ _ _ Et) as [Hp Hm]. split.
    + rewrite (perm_swap x m' r'), Hp. apply perm_swap.
    + apply Forall_cons in Hm as [He Hm]. repeat constructor; [done| |done]. by apply (key_le_trans _ e).
Qed.

Lemma pop_spec (f : Frontier) :
  match pop f with
  | (None, f') => f' = f /\ fr_heap f = []
  | (Some q, f') => exists m, q = en_item m /\ fr_heap f ≡ₚ m :: fr_heap f' /\ Forall (key_le m) (fr_heap f) /\ f' = set_heap (fr_heap f') f
  end.
Proof.
  unfold pop. destruct (fr_heap f) as [|e l] eqn:Eh; [done|]. destruct (take_min e l) as [m r] eqn:Et.
  destruct (take_min_spec _ _ _ _ Et) as [Hp Hm]. exists m. cbn [set_heap fr_heap]. by split_and!.
Qed.

Lemma frontier_push_spec (url : Url) (depth : Z) (f : Frontier) :
  let u := strip_fragment url in
  (push url depth f = (false, f) /\ (fr_max_url_len f < Z.of_nat (length (chars (as_str u))) \/ as_str u ∈ fr_seen f)) \/
  exists foreign f', push url depth f = (true, f') /\ (as_str u ∉ fr_seen f) /\
    fr_heap f' = fr_heap f ++ [MkEntry depth foreign (fr_seq f) (MkQueued u depth)] /\
    fr_seen f' = {[as_str u]} ∪ fr_seen f /\ fr_host_next_ok f' = fr_host_next_ok f /\ fr_host_pages f' = fr_host_pages f.
Proof.
  intros u. unfold push. fold u. destruct (Z.ltb_spec (fr_max_url_len f) (Z.of_nat (length (chars (as_str u))))); [left; auto|].
  case_bool_decide; [left; auto|]. right. eexists _, _. split; [reflexivity|]. done.
Qed.

End FrontierProps.

(** ** Robots: the longest match decides *)

Lemma best_match_ge (rules : list bytes) (path : bytes) (n : nat) :
  let f := fun best p => if starts_with p path && (best <? length p)%nat then length p else best in
  (n <= foldl f n rules)%nat /\ (forall p, p ∈ rules -> starts_with p path = true -> (length p <= foldl f n rules)%nat) /\
  (foldl f n rules = n \/ exists p, p ∈ rules /\ starts_with p path = true /\ foldl f n rules = length p).
Proof.
  intros f. revert n. induction rules as [|p rules IH]; intros n.
  { cbn. split_and!; [lia|by intros p ?%elem_of_nil|by left]. }
  destruct (IH (f n p)) as (H1 & H2 & H3). cbn [foldl]. split_and!.
  - assert (n <= f n p)%nat; [|lia]. unfold f. destruct (starts_with p path), (Nat.ltb_spec n (length p)); cbn; lia.
  - intros q Hq Hs. apply elem_of_cons in Hq as [->|Hq]; [|by apply H2].
    assert (length p <= f n p)%nat; [|lia]. unfold f. rewrite Hs. destruct (Nat.ltb_spec n (length p)); cbn; lia.
  - destruct H3 as [->|(q & Hq & Hs & ->)]; [|right; exists q; split; [by right|done]].
    unfold f. destruct (starts_with p path) eqn:Es; [|by left]. destruct (Nat.ltb_spec n (length p)); [|by left].
    right. exists p. split; [left|done].
Qed.

Lemma allows_spec (r : Robots) (path : bytes) :
  allows r path = true <->
  forall d, d ∈ ro_disallow r -> d <> [] -> starts_with d path = true ->
  exists a, a ∈ ro_allow r /\ starts_with a path = true /\ (length d <= length a)%nat.
Proof.
  unfold allows, best_match. set (ds := List.filter _ _). rewrite Nat.leb_le.
  assert (forall d, d ∈ ds <-> d ∈ ro_disallow r /\ d <> []) as Hds.
  { intros d. unfold ds. rewrite !list_elem_of_In, filter_In. by rewrite negb_true_iff, bool_decide_eq_false. }
  destruct (best_match_ge ds path 0) as (_ & D2 & D3), (best_match_ge (ro_allow r) path 0) as (_ & A2 & A3). split.
  - intros Hle d Hd Hne Hs. assert (length d <= foldl (fun best p => if starts_with p path && (best <? length p)%nat then length p else best) 0 ds)%nat as Hl
      by (apply D2; [by apply Hds|done]).
    assert (0 < length d)%nat by (destruct d; [done|cbn; lia]).
    destruct A3 as [E|(a & Ha & Hsa & E)]; [lia|]. exists a. split_and!; [done..|lia].
  - intros H. destruct D3 as [->|(d & Hd & Hs & ->)]; [lia|]. apply Hds in Hd as [Hd Hne].
    destruct (H d Hd Hne Hs) as (a & Ha & Hsa & Hl). specialize (A2 a Ha Hsa). lia.
Qed.

(** A [User-agent] line that follows rules does not open a new group: a
    group for another agent is taken over, and its rules are applied. *)
Lemma robots_group_not_closed :
  let txt := chars "User-agent: *" ++ lf :: chars "Disallow: /a" ++ lf :: chars "User-agent: other" ++ lf :: chars "Disallow: /" in
  allows (robots_parse txt (chars "origin-crawler/0.4")) (chars "/b") = false.
Proof. vm_compute. reflexivity. Qed.

(** ** Scanning a page *)

Lemma find_window_Some (p l : bytes) (i : nat) :
  find_window p l = Some i -> (i + length p <= length l)%nat /\ starts_with p (drop i l) = true.
Proof.
  revert i. induction l as [|a l IH]; intros i E; cbn [find_window] in E.
  - destruct (starts_with p []) eqn:Es; [|done]. injection E as <-. apply starts_with_iff in Es as Hk. destruct Hk as [k Hk].
    apply (f_equal length) in Hk. rewrite length_app in Hk. cbn in *. split; [lia|done].
  - destruct (starts_with p (a :: l)) eqn:Es.
    + injection E as <-. apply starts_with_iff in Es as Hk. destruct Hk as [k Hk].
      apply (f_equal length) in Hk. rewrite length_app in Hk. split; [cbn in *; lia|done].
    + apply fmap_Some in E as (j & Ej & ->). destruct (IH _ Ej). split; [cbn; lia|done].
Qed.

(** The scanner indexes bytes: it panics on a page where a two-byte character follows [href]. *)
Lemma page_parse_panics :
  page_parse (chars "<a href" ++ [byte_of 195; byte_of 169] ++ chars "=x>link</a>") = None.
Proof. vm_compute. reflexivity. Qed.

Definition ascii_text (l : bytes) : Prop := Forall (fun a => code a < 128) l.

Lemma boundary_ascii (l : bytes) (i : nat) : ascii_text l -> (i <= length l)%nat -> is_char_boundary l i = true.
Proof.
  intros Hl Hi. unfold is_char_boundary. destruct (l !! i) as [b|] eqn:E.
  - pose proof (proj1 (Forall_lookup _ _) Hl i b E) as Hb. cbn in Hb. unfold cont, between. apply negb_true_iff, andb_false_iff. left. apply Z.leb_gt. lia.
  - apply lookup_ge_None in E. apply Nat.eqb_eq. lia.
Qed.

Lemma slice_from_ascii (l : bytes) (i : nat) : ascii_text l -> (i <= length l)%nat -> slice_from l i = Some (drop i l).
Proof. intros Hl Hi. unfold slice_from. by rewrite boundary_ascii. Qed.

Lemma slice_str_ascii (l : bytes) (i j : nat) : ascii_text l -> (i <= j <= length l)%nat -> slice_str l i j = Some (slice i j l).
Proof. intros Hl Hi. unfold slice_str. rewrite !boundary_ascii by (done || lia). cbn. destruct (Nat.leb_spec i j); [done|lia]. Qed.

Lemma drop_ws_length (back : bool) (l : bytes) : (length (drop_ws back l) <= length l)%nat.
Proof.
  remember (length l) as n eqn:En. revert l En. induction n as [n IH] using (well_founded_induction lt_wf). intros l ->.
  destruct l as [|a l]; [done|]. cbn [drop_ws length].
  assert (forall k, (length k <= length l)%nat -> (length (drop_ws back k) <= S (length l))%nat) as H.
  { intros k Hk. specialize (IH (length k) ltac:(cbn; lia) k eq_refl). lia. }
  repeat case_match; subst; cbn in *; try lia; apply H; cbn; lia.
Qed.

Lemma find_end_lt (l : bytes) (n : nat) : find_end l = Some n -> (n < length l)%nat.
Proof.
  revert n. induction l as [|a l IH]; intros n E; [done|]. cbn [find_end] in E. destruct (_ || _).
  - injection E as <-. cbn. lia.
  - apply fmap_Some in E as (k & Ek & ->). specialize (IH _ Ek). cbn. lia.
Qed.

Lemma ascii_drop (l : bytes) (i : nat) : ascii_text l -> ascii_text (drop i l).
Proof. apply Forall_drop. Qed.
Lemma ascii_slice (l : bytes) (i j : nat) : ascii_text l -> ascii_text (slice i j l).
Proof. intros Hl. by apply Forall_take, Forall_drop. Qed.
#[local] Hint Resolve ascii_drop ascii_slice : core.

Lemma attr_from_ascii (fuel : nat) (orig lower name : bytes) (from : nat) :
  ascii_text orig -> ascii_text lower -> length orig = length lower -> (from <= length lower)%nat -> (length lower - from < fuel)%nat ->
  exists o, attr_from fuel orig lower name from = Some o.
Proof.
  intros Ho Hl Hlen. revert from. induction fuel as [|fuel IH]; intros from Hf Hfuel; [lia|]. cbn [attr_from].
  rewrite slice_from_ascii by done. cbn [mbind option_bind].
  destruct (find_window name (drop from lower)) as [k|] eqn:Ek; [|by eexists].
  apply find_window_Some in Ek as [Hk _]. rewrite length_drop in Hk.
  rewrite slice_from_ascii by (done || lia). cbn [mbind option_bind].
  destruct (find_window [("=")%char] (drop (k + from + length name) lower)) as [e|] eqn:Ee; [|by eexists].
  apply find_window_Some in Ee as [He _]. rewrite length_drop in He. cbn [length] in He.
  rewrite slice_str_ascii by (auto || (rewrite length_drop; lia)). cbn [mbind option_bind].
  destruct (negb _); [apply IH; lia|].
  rewrite slice_from_ascii by (done || lia). cbn [mbind option_bind].
  set (v := drop _ lower). assert (length v = length lower - (k + from + length name + e + 1))%nat as Hv by (unfold v; by rewrite length_drop).
  pose proof (drop_ws_length false v) as Hd. unfold trim_start. destruct (drop_ws false v) as [|q t] eqn:Et; cbn [length] in Hd.
  { rewrite slice_str_ascii by (done || (cbn; lia)). by eexists. }
  destruct (_ || _).
  - rewrite slice_from_ascii by (done || (cbn [length]; lia)). cbn [mbind option_bind].
    destruct (find_window [q] (drop _ lower)) as [c|] eqn:Ec; [|by eexists]. apply find_window_Some in Ec as [Hc _].
    rewrite length_drop in Hc. cbn [length] in Hc.
    rewrite slice_str_ascii by (done || (cbn [length]; lia)). by eexists.
  - rewrite slice_str_ascii; [by eexists|done|].
    destruct (find_end (q :: t)) as [n|] eqn:En; cbn [default from_option id length]; [|lia]. apply find_end_lt in En. cbn [length] in En. lia.
Qed.

Lemma hrefs_from_ascii (fuel : nat) (orig lower : bytes) (i : nat) :
  ascii_text orig -> ascii_text lower -> length orig = length lower -> (i <= length lower)%nat -> (length lower - i < fuel)%nat ->
  exists o, hrefs_from fuel orig lower i = Some o.
Proof.
  intros Ho Hl Hlen. revert i. induction fuel as [|fuel IH]; intros i Hi Hfuel; [lia|]. cbn [hrefs_from].
  rewrite slice_from_ascii by done. cbn [mbind option_bind].
  destruct (find_window (chars "<a") (drop i lower)) as [pos|] eqn:Ep; [|by eexists].
  apply find_window_Some in Ep as [Hp Hs]. rewrite length_drop in Hp. cbn [length list_ascii_of_string] in Hp.
  rewrite drop_drop in Hs. rewrite slice_from_ascii by (done || lia). cbn [mbind option_bind].
  destruct (find_window [(">")%char] (drop (i + pos) lower)) as [r|] eqn:Er; [|by eexists].
  apply find_window_Some in Er as [Hr Hgt]. rewrite length_drop in Hr. cbn [length] in Hr.
  assert (2 <= r)%nat as H2.
  { apply starts_with_iff in Hs as [k Hk]. rewrite Hk in Hgt. destruct r as [|[|r]]; [done|done|lia]. }
  destruct (lower !! (i + pos + 2)%nat) as [after|] eqn:Ea; [|apply lookup_ge_None in Ea; lia]. cbn [mbind option_bind].
  destruct (anchor_end after).
  - rewrite !slice_str_ascii by (done || lia). cbn [mbind option_bind]. unfold attr_value.
    destruct (attr_from_ascii (S (length (slice (i + pos) (i + pos + r + 1) lower))) (slice (i + pos) (i + pos + r + 1) orig)
      (slice (i + pos) (i + pos + r + 1) lower) (chars "href") 0) as [o ->]; [by auto..|by rewrite !slice_length by lia|lia|lia|].
    cbn [mbind option_bind]. destruct (IH (i + pos + r + 1)%nat) as [rest ->]; [lia..|]. by eexists.
  - cbn [mbind option_bind]. destruct (IH (i + pos + r + 1)%nat) as [rest ->]; [lia..|]. by eexists.
Qed.

Lemma lowercase_ascii (l : bytes) : ascii_text l -> ascii_text (lowercase l).
Proof.
  intros Hl. apply Forall_map. apply (Forall_impl _ _ _ Hl). intros a Ha. unfold lower.
  destruct (_ && _) eqn:E; [|done]. apply andb_prop in E as [E1 E2]. apply Z.leb_le in E1, E2. rewrite code_byte_of, Z.mod_small; lia.
Qed.

(** On ASCII pages the scanner returns. *)
Lemma page_parse_ascii (html : bytes) : ascii_text html -> exists meta, page_parse html = Some meta.
Proof.
  intros Hh. pose proof (lowercase_ascii _ Hh) as Hl. unfold page_parse.
  assert (length (lowercase html) = length html) as Hlen by apply length_map.
  assert (exists t, extract_between (lowercase html) html (chars "<title>") (chars "</title>") = Some t) as [t ->].
  { unfold extract_between. destruct (find_window (chars "<title>") (lowercase html)) as [i|] eqn:Ei; [|by eexists].
    apply find_window_Some in Ei as [Hi _]. rewrite slice_from_ascii by (done || lia). cbn [mbind option_bind].
    destruct (find_window (chars "</title>") (drop _ (lowercase html))) as [j|] eqn:Ej; [|by eexists].
    apply find_window_Some in Ej as [Hj _]. rewrite length_drop in Hj. cbn [length list_ascii_of_string] in *.
    rewrite slice_str_ascii by (done || lia). by eexists. }
  cbn [mbind option_bind]. unfold extract_hrefs.
  destruct (hrefs_from_ascii (S (length (lowercase html))) html (lowercase html) 0) as [links ->]; [done..|lia|lia|]. by eexists.
Qed.
