(* ===== verification/CrawlRun.v ===== *)
(** * The crawl: concurrent workers over the shared state
    (origin-crawler/src/crawler.rs)

    A worker is a program counter; [process] is one of its atomic sections (a
    lock held, an atomic counter, an answer of the network or the disk).  A
    step of the system is a section of any worker with any answers, so
    theorems over reachable worlds cover every interleaving, every server and
    every clock that does not run backwards.  The world keeps the trace of
    what was done. *)

From Stdlib Require Import Ascii String.
From S2P Require Import Prelude RustStr Bytes RustText Sdk Crawler.

(** [hex_encode] of [crawler.rs]. *)
Definition crawl_hex (b : bytes) : string := String.concat "" (map fmt_02x b).

(** Distinct bytes print as distinct digits. *)
Lemma hex_nibble_inj (n m : Z) : 0 <= n < 16 -> 0 <= m < 16 -> hex_nibble n = hex_nibble m -> n = m.
Proof.
  intros Hn Hm. assert (Forall (fun n => Forall (fun m => hex_nibble n = hex_nibble m -> n = m) (seqZ 0 16)) (seqZ 0 16)) as H
    by (apply (bool_decide_eq_true_1 _); vm_compute; reflexivity).
  rewrite Forall_forall in H. specialize (H n). rewrite elem_of_seqZ, Forall_forall in H. specialize (H ltac:(lia) m).
  rewrite elem_of_seqZ in H. apply H. lia.
Qed.

Lemma crawl_hex_cons (a : ascii) (l : bytes) : crawl_hex (a :: l) = fmt_02x a +:+ crawl_hex l.
Proof. unfold crawl_hex. by destruct l. Qed.

#[global] Instance crawl_hex_inj : Inj eq eq crawl_hex.
Proof.
  intros a b. revert b. induction a as [|x a IH]; intros [|y b]; rewrite ?crawl_hex_cons; [done|intros E; by inversion E..|].
  intros E.
  assert (hex_nibble (code x / 16) = hex_nibble (code y / 16) /\ hex_nibble (code x mod 16) = hex_nibble (code y mod 16) /\ crawl_hex a = crawl_hex b)
    as (E1 & E2 & E3) by (split_and!; by inversion E).
  pose proof (code_range x). pose proof (code_range y).
  apply hex_nibble_inj in E1; [|split; [apply Z.div_pos; lia|apply Z.div_lt_upper_bound; lia]..].
  apply hex_nibble_inj in E2; [|apply Z.mod_pos_bound; lia..].
  rewrite (IH b E3). f_equal. apply code_inj. rewrite (Z.div_mod (code x) 16), (Z.div_mod (code y) 16) by lia. by rewrite E1, E2.
Qed.

Record CrawlConfig := MkCrawlConfig {
  cf_max_pages : Z;
  cf_max_depth : Z;
  cf_delay : Z;
  cf_max_pages_per_host : Z;
  cf_respect_robots : bool;
  cf_save_dir : bool;
  (** The hosts of the seeds in same-site mode. *)
  cf_allowed_hosts : option (gset string)
}.

Section Crawl.
Context `{SK : Sdk, UO : UrlOps}.

Record PageRecord := MkPage {
  pr_url : string;
  pr_status : Z;
  pr_depth : Z;
  pr_title : option bytes;
  pr_body_len : Z;
  pr_content_hash : string;
  pr_saved_path : option string
}.

(** [FetchedPage] and [SourceRef]. *)
Record FetchedPage := MkFetched { fp_status : Z; fp_body : bytes; fp_etag : option string; fp_last_modified : option string }.

Record SourceRef := MkSource {
  sr_url : string;
  sr_title : option bytes;
  sr_depth : Z;
  sr_first_seen : Z;
  sr_last_seen : Z;
  sr_etag : option string;
  sr_last_modified : option string
}.

Definition source_new (url : string) (title : option bytes) (depth now : Z) : SourceRef := MkSource url title depth now now None None.
Definition with_validators (etag last_modified : option string) (r : SourceRef) : SourceRef :=
  MkSource (sr_url r) (sr_title r) (sr_depth r) (sr_first_seen r) (sr_last_seen r) etag last_modified.
Definition seen_again (now : Z) (r : SourceRef) : SourceRef :=
  MkSource (sr_url r) (sr_title r) (sr_depth r) (sr_first_seen r) now (sr_etag r) (sr_last_modified r).

(** The first source with the URL is refreshed; else the source is appended. *)
Fixpoint add_source (source : SourceRef) (now : Z) (sources : list SourceRef) : list SourceRef :=
  match sources with
  | [] => [source]
  | r :: rest => if String.eqb (sr_url r) (sr_url source) then seen_again now r :: rest else r :: add_source source now rest
  end.

(** [record_source] when the reads and writes succeed. *)
Definition record_source (hash_hex : string) (source : SourceRef) (now : Z) (docs : gmap string (list SourceRef)) : gmap string (list SourceRef) :=
  <[hash_hex := add_source source now (default [] (docs !! hash_hex))]> docs.

(** [SharedState]: the locks and counters. *)
Record Shared := MkShared {
  sh_frontier : Frontier;
  sh_robots_cache : gmap string (option Robots);
  sh_content_seen : gset bytes;
  sh_hosts_seen : gset string;
  sh_pages : list PageRecord;
  sh_budget : Z;
  sh_inflight : Z;
  sh_failed : Z;
  sh_duplicates : Z;
  sh_blocked : Z;
  sh_quota_skipped : Z;
  sh_discovered : Z;
  sh_revalidated : Z;
  (** The sidecar documents of the save directory, by content hash. *)
  sh_sidecars : gmap string (list SourceRef)
}.

Definition MAX_URL_LEN : Z := 2048.

Definition shared_new (max_pages : Z) (seed_hosts : list string) : Shared :=
  MkShared (frontier_new MAX_URL_LEN seed_hosts) ∅ ∅ ∅ [] max_pages 0 0 0 0 0 0 0 ∅.

Definition with_frontier (f : Frontier) (s : Shared) : Shared :=
  MkShared f (sh_robots_cache s) (sh_content_seen s) (sh_hosts_seen s) (sh_pages s) (sh_budget s) (sh_inflight s) (sh_failed s)
    (sh_duplicates s) (sh_blocked s) (sh_quota_skipped s) (sh_discovered s) (sh_revalidated s) (sh_sidecars s).
Definition with_inflight (n : Z) (s : Shared) : Shared :=
  MkShared (sh_frontier s) (sh_robots_cache s) (sh_content_seen s) (sh_hosts_seen s) (sh_pages s) (sh_budget s) n (sh_failed s)
    (sh_duplicates s) (sh_blocked s) (sh_quota_skipped s) (sh_discovered s) (sh_revalidated s) (sh_sidecars s).
Definition with_robots (origin : string) (r : option Robots) (s : Shared) : Shared :=
  MkShared (sh_frontier s) (<[origin := r]> (sh_robots_cache s)) (sh_content_seen s) (sh_hosts_seen s) (sh_pages s) (sh_budget s)
    (sh_inflight s) (sh_failed s) (sh_duplicates s) (sh_blocked s) (sh_quota_skipped s) (sh_discovered s) (sh_revalidated s) (sh_sidecars s).
Definition with_content (h : bytes) (s : Shared) : Shared :=
  MkShared (sh_frontier s) (sh_robots_cache s) ({[h]} ∪ sh_content_seen s) (sh_hosts_seen s) (sh_pages s) (sh_budget s) (sh_inflight s)
    (sh_failed s) (sh_duplicates s) (sh_blocked s) (sh_quota_skipped s) (sh_discovered s) (sh_revalidated s) (sh_sidecars s).
Definition with_host (h : string) (s : Shared) : Shared :=
  MkShared (sh_frontier s) (sh_robots_cache s) (sh_content_seen s) ({[h]} ∪ sh_hosts_seen s) (sh_pages s) (sh_budget s) (sh_inflight s)
    (sh_failed s) (sh_duplicates s) (sh_blocked s) (sh_quota_skipped s) (sh_discovered s) (sh_revalidated s) (sh_sidecars s).
Definition with_page (p : PageRecord) (s : Shared) : Shared :=
  MkShared (sh_frontier s) (sh_robots_cache s) (sh_content_seen s) (sh_hosts_seen s) (sh_pages s ++ [p]) (sh_budget s) (sh_inflight s)
    (sh_failed s) (sh_duplicates s) (sh_blocked s) (sh_quota_skipped s) (sh_discovered s) (sh_revalidated s) (sh_sidecars s).
Definition with_budget (b : Z) (s : Shared) : Shared :=
  MkShared (sh_frontier s) (sh_robots_cache s) (sh_content_seen s) (sh_hosts_seen s) (sh_pages s) b (sh_inflight s)
    (sh_failed s) (sh_duplicates s) (sh_blocked s) (sh_quota_skipped s) (sh_discovered s) (sh_revalidated s) (sh_sidecars s).
Definition with_sidecars (m : gmap string (list SourceRef)) (s : Shared) : Shared :=
  MkShared (sh_frontier s) (sh_robots_cache s) (sh_content_seen s) (sh_hosts_seen s) (sh_pages s) (sh_budget s) (sh_inflight s)
    (sh_failed s) (sh_duplicates s) (sh_blocked s) (sh_quota_skipped s) (sh_discovered s) (sh_revalidated s) m.
(** The report counters, bumped by the given amounts. *)
Definition count (failed duplicates blocked quota discovered revalidated : Z) (s : Shared) : Shared :=
  MkShared (sh_frontier s) (sh_robots_cache s) (sh_content_seen s) (sh_hosts_seen s) (sh_pages s) (sh_budget s) (sh_inflight s)
    (sh_failed s + failed) (sh_duplicates s + duplicates) (sh_blocked s + blocked) (sh_quota_skipped s + quota)
    (sh_discovered s + discovered) (sh_revalidated s + revalidated) (sh_sidecars s).

Definition enqueue (url : Url) (depth : Z) (s : Shared) : Shared :=
  let '(added, f) := push url depth (sh_frontier s) in
  count 0 0 0 0 (if added then 1 else 0) 0 (with_frontier f s).

(** ** A worker *)

Inductive Pc :=
| Looping                                                  (* the top of the loop *)
| SawEmpty                                                 (* after [pop] gave nothing, before [inflight] is read *)
| Got (q : QueuedUrl)                                      (* popped, [inflight] not yet raised *)
| Start (q : QueuedUrl)                                    (* [process_item] *)
| Reserve (q : QueuedUrl) (host : string)
| Wait (q : QueuedUrl) (host : string) (until : Z)
| Quota (q : QueuedUrl) (host : string)
| RobotsLookup (q : QueuedUrl)
| RobotsFetch (q : QueuedUrl)
| Gate (q : QueuedUrl) (rules : option Robots)
| Fetch (q : QueuedUrl) (rules : option Robots)
| Dedup (q : QueuedUrl) (page : FetchedPage)
| Budget (q : QueuedUrl) (page : FetchedPage)
| ParseBody (q : QueuedUrl) (page : FetchedPage)
| Save (q : QueuedUrl) (page : FetchedPage) (meta : PageMeta)
| Record_ (q : QueuedUrl) (page : FetchedPage) (meta : PageMeta) (saved : option string)
| NoteDup (q : QueuedUrl) (page : FetchedPage)              (* the sidecar of a body already stored *)
| NoteSave (q : QueuedUrl) (page : FetchedPage) (meta : PageMeta) (path : string)
| Links (q : QueuedUrl) (links : list bytes)
| Leave                                                    (* before [inflight] is lowered *)
| Returned
| Panicked.

(** What the network, the disk and the clock answer; [io_sidecar] is the time
    written when a sidecar update succeeds. *)
Inductive FetchResult := NotModified | Page (page : FetchedPage) | FetchFailed.
Record Io := MkIo { io_now : Z; io_robots : option Robots; io_fetch : FetchResult; io_saved : option string; io_exists : bool; io_sidecar : option Z }.

Inductive Event :=
| EvPop (q : QueuedUrl)
| EvSlot (host : string) (begin : Z)                       (* a politeness slot and when it begins *)
| EvRobots (origin : string) (answer : option Robots) (now : Z)
| EvFetch (q : QueuedUrl) (rules : option Robots) (now : Z).

Definition origin_of (u : Url) : string := scheme u +:+ "://" +:+ authority u.
Definition body_hash (body : bytes) : bytes := blake3 body.

Definition page_record (q : QueuedUrl) (page : FetchedPage) (meta : PageMeta) (saved : option string) : PageRecord :=
  MkPage (as_str (q_url q)) (fp_status page) (q_depth q) (pm_title meta) (Z.of_nat (length (fp_body page))) (crawl_hex (body_hash (fp_body page))) saved.

Definition link_allowed (cfg : CrawlConfig) (u : Url) : bool :=
  match cf_allowed_hosts cfg with
  | None => true
  | Some allowed => match host_str u with Some h => bool_decide (h ∈ allowed) | None => false end
  end.

(** One atomic section; [None]: the worker cannot move. *)
Definition process (cfg : CrawlConfig) (io : Io) (s : Shared) (pc : Pc) : option (Shared * Pc * list Event) :=
  match pc with
  | Looping =>
      match pop (sh_frontier s) with
      | (None, _) => Some (s, SawEmpty, [])
      | (Some q, f) => Some (with_frontier f s, Got q, [EvPop q])
      end
  | SawEmpty => Some (s, if sh_inflight s =? 0 then Returned else Looping, [])
  | Got q => Some (with_inflight (sh_inflight s + 1) s, Start q, [])
  | Start q =>
      let host := default "" (host_str (q_url q)) in
      if String.eqb host "" then Some (s, Leave, []) else Some (with_host host s, Reserve q host, [])
  | Reserve q host =>
      let '(start, f) := reserve_slot host (cf_delay cfg) (io_now io) (sh_frontier s) in
      Some (with_frontier f s, Wait q host start, [EvSlot host (Z.max start (io_now io))])
  | Wait q host until => if until <=? io_now io then Some (s, Quota q host, []) else None
  | Quota q host =>
      let '(exhausted, f) := host_quota_exhausted host (cf_max_pages_per_host cfg) (sh_frontier s) in
      if exhausted then Some (count 0 0 0 1 0 0 (with_frontier f s), Leave, [])
      else Some (with_frontier f s, if cf_respect_robots cfg then RobotsLookup q else Fetch q None, [])
  | RobotsLookup q =>
      Some (s, match sh_robots_cache s !! origin_of (q_url q) with Some cached => Gate q cached | None => RobotsFetch q end, [])
  | RobotsFetch q =>
      Some (with_robots (origin_of (q_url q)) (io_robots io) s, Gate q (io_robots io),
            [EvRobots (origin_of (q_url q)) (io_robots io) (io_now io)])
  | Gate q rules =>
      if match rules with Some r => allows r (chars (url_path (q_url q))) | None => true end
      then Some (s, Fetch q rules, []) else Some (count 0 0 1 0 0 0 s, Leave, [])
  | Fetch q rules =>
      Some (match io_fetch io with
            | NotModified => (count 0 0 0 0 0 1 s, Leave)
            | Page page => (s, Dedup q page)
            | FetchFailed => (count 1 0 0 0 0 0 s, Leave)
            end, [EvFetch q rules (io_now io)])
  | Dedup q page =>
      if bool_decide (body_hash (fp_body page) ∈ sh_content_seen s) then
        Some (count 0 1 0 0 0 0 s, if cf_save_dir cfg && io_exists io then NoteDup q page else Leave, [])
      else Some (with_content (body_hash (fp_body page)) s, Budget q page, [])
  | NoteDup q page =>
      Some (match io_sidecar io with
            | Some t => with_sidecars (record_source (crawl_hex (body_hash (fp_body page))) (source_new (as_str (q_url q)) None (q_depth q) t) t (sh_sidecars s)) s
            | None => s
            end, Leave, [])
  | Budget q page =>
      if sh_budget s =? 0 then Some (s, Leave, [])
      else Some (with_budget (sh_budget s - 1) s, ParseBody q page, [])
  | ParseBody q page =>
      Some (s, match page_parse (fp_body page) with Some meta => Save q page meta | None => Panicked end, [])
  | Save q page meta =>
      if cf_save_dir cfg then
        match io_saved io with
        | Some path => Some (s, NoteSave q page meta path, [])
        | None => Some (count 1 0 0 0 0 0 s, Leave, [])
        end
      else Some (s, Record_ q page meta None, [])
  | NoteSave q page meta path =>
      Some (match io_sidecar io with
            | Some t => with_sidecars (record_source (crawl_hex (body_hash (fp_body page)))
                          (with_validators (fp_etag page) (fp_last_modified page) (source_new (as_str (q_url q)) (pm_title meta) (q_depth q) t)) t (sh_sidecars s)) s
            | None => s
            end, Record_ q page meta (Some path), [])
  | Record_ q page meta saved =>
      Some (with_page (page_record q page meta saved) s,
            if cf_max_depth cfg <=? q_depth q then Leave else Links q (pm_links meta), [])
  | Links q [] => Some (s, Leave, [])
  | Links q (raw :: rest) =>
      Some (match resolve raw (q_url q) with
            | Some url => if link_allowed cfg url then enqueue url (q_depth q + 1) s else s
            | None => s
            end, Links q rest, [])
  | Leave => Some (with_inflight (sh_inflight s - 1) s, Looping, [])
  | Returned | Panicked => None
  end.

(** ** The system *)

Record CrawlWorld := MkCrawlWorld { w_shared : Shared; w_workers : list Pc; w_now : Z; w_trace : list Event }.

Inductive step (cfg : CrawlConfig) (w : CrawlWorld) : CrawlWorld -> Prop :=
| step_worker (i : nat) (pc pc' : Pc) (io : Io) (s' : Shared) (ev : list Event) :
    w_workers w !! i = Some pc -> w_now w <= io_now io -> process cfg io (w_shared w) pc = Some (s', pc', ev) ->
    step cfg w (MkCrawlWorld s' (<[i := pc']> (w_workers w)) (io_now io) (w_trace w ++ ev)).

Inductive steps (cfg : CrawlConfig) : CrawlWorld -> CrawlWorld -> Prop :=
| steps_refl (w : CrawlWorld) : steps cfg w w
| steps_snoc (w w' w'' : CrawlWorld) : steps cfg w w' -> step cfg w' w'' -> steps cfg w w''.

(** The start of a run: the sidecars in the save directory and the hashes of
    a resumed corpus, then the seeds and the
    sitemap locations queued at depth 0, and the workers at their loop. *)
Record Plan := MkPlan {
  pl_seed_hosts : list string; pl_resumed : list bytes; pl_starts : list Url; pl_sidecars : gmap string (list SourceRef);
  pl_workers : nat; pl_now : Z }.

Definition prepare (cfg : CrawlConfig) (p : Plan) : Shared :=
  foldl (fun s u => enqueue u 0 s)
    (foldl (fun s h => with_content h s) (with_sidecars (pl_sidecars p) (shared_new (cf_max_pages cfg) (pl_seed_hosts p))) (pl_resumed p))
    (pl_starts p).

Definition initial (cfg : CrawlConfig) (p : Plan) : CrawlWorld := MkCrawlWorld (prepare cfg p) (replicate (pl_workers p) Looping) (pl_now p) [].

Definition reachable (cfg : CrawlConfig) (p : Plan) (w : CrawlWorld) : Prop := steps cfg (initial cfg p) w.

(** ** Counting over the workers *)

Lemma sum_insert (f : Pc -> Z) (ws : list Pc) (i : nat) (pc pc' : Pc) :
  ws !! i = Some pc -> list_sum (map f (<[i := pc']> ws)) = list_sum (map f ws) - f pc + f pc'.
Proof.
  revert i. induction ws as [|x ws IH]; intros [|i] Hi; cbn in Hi; [done..| |].
  - injection Hi as ->. change (<[O := pc']> (pc :: ws)) with (pc' :: ws). unfold list_sum. cbn [map foldr]. lia.
  - change (<[S i := pc']> (x :: ws)) with (x :: <[i := pc']> ws). specialize (IH i Hi). unfold list_sum in *. cbn [map foldr]. lia.
Qed.

Lemma concat_insert {A : Type} (f : Pc -> list A) (ws : list Pc) (i : nat) (pc pc' : Pc) :
  ws !! i = Some pc ->
  exists rest, concat (map f ws) ≡ₚ f pc ++ rest /\ concat (map f (<[i := pc']> ws)) ≡ₚ f pc' ++ rest.
Proof.
  revert i. induction ws as [|x ws IH]; intros [|i] Hi; cbn in Hi; [done..| |].
  - injection Hi as ->. by exists (concat (map f ws)).
  - destruct (IH i Hi) as (rest & H1 & H2). exists (f x ++ rest).
    change (<[S i := pc']> (x :: ws)) with (x :: <[i := pc']> ws). cbn [map concat]. rewrite H1, H2. split; apply Permutation_app_swap_app.
Qed.

Lemma sum_nonneg (f : Pc -> Z) (ws : list Pc) : (forall pc, 0 <= f pc) -> 0 <= list_sum (map f ws).
Proof. intros Hf. induction ws as [|x ws IH]; cbn; [lia|]. specialize (Hf x). unfold list_sum in IH. lia. Qed.

(** Invariants of the reachable worlds are proved by steps. *)
Lemma steps_inv (cfg : CrawlConfig) (P : CrawlWorld -> Prop) (w w' : CrawlWorld) :
  steps cfg w w' -> P w -> (forall a b, P a -> step cfg a b -> P b) -> P w'.
Proof. intros Hs Hw Hstep. induction Hs as [|w w' w'' Hs IH H1]; [done|]. by eapply Hstep; [apply IH|]. Qed.

(** *** [inflight] counts the workers between raising and lowering it *)

Definition active (pc : Pc) : Z :=
  match pc with Looping | SawEmpty | Got _ | Returned => 0 | _ => 1 end.

Definition inflight_ok (w : CrawlWorld) : Prop := sh_inflight (w_shared w) = list_sum (map active (w_workers w)).

Lemma enqueue_eq (url : Url) (depth : Z) (s : Shared) :
  enqueue url depth s =
  count 0 0 0 0 (if fst (push url depth (sh_frontier s)) then 1 else 0) 0 (with_frontier (snd (push url depth (sh_frontier s))) s).
Proof. unfold enqueue. by destruct (push url depth (sh_frontier s)). Qed.

(** The branches of one section. *)
Local Ltac section_cases Ha :=
  cbn [process] in Ha; repeat case_match; simplify_eq; rewrite ?enqueue_eq;
  cbn [count with_frontier with_inflight with_robots with_content with_host with_page with_budget with_sidecars
       sh_frontier sh_robots_cache sh_content_seen sh_pages sh_budget sh_inflight] in *.

Lemma process_inflight (cfg : CrawlConfig) (io : Io) (s s' : Shared) (pc pc' : Pc) (ev : list Event) :
  process cfg io s pc = Some (s', pc', ev) -> sh_inflight s' = sh_inflight s - active pc + active pc'.
Proof. intros Ha. destruct pc; section_cases Ha; cbn [active]; lia. Qed.

Lemma inflight_step (cfg : CrawlConfig) (w w' : CrawlWorld) : inflight_ok w -> step cfg w w' -> inflight_ok w'.
Proof.
  intros Hw [i pc pc' io s' ev Hi Hnow Ha]. unfold inflight_ok in *. cbn.
  rewrite (sum_insert _ _ _ _ _ Hi), (process_inflight _ _ _ _ _ _ _ Ha), Hw. lia.
Qed.

(** *** The page budget *)

Definition holding (pc : Pc) : Z :=
  match pc with ParseBody _ _ | Save _ _ _ | NoteSave _ _ _ _ | Record_ _ _ _ _ => 1 | _ => 0 end.

Definition budget_ok (cfg : CrawlConfig) (w : CrawlWorld) : Prop :=
  0 <= sh_budget (w_shared w) /\
  Z.of_nat (length (sh_pages (w_shared w))) + sh_budget (w_shared w) + list_sum (map holding (w_workers w)) <= cf_max_pages cfg.

Lemma process_budget (cfg : CrawlConfig) (io : Io) (s s' : Shared) (pc pc' : Pc) (ev : list Event) :
  process cfg io s pc = Some (s', pc', ev) -> 0 <= sh_budget s ->
  0 <= sh_budget s' /\ Z.of_nat (length (sh_pages s')) + sh_budget s' + holding pc' <= Z.of_nat (length (sh_pages s)) + sh_budget s + holding pc.
Proof.
  intros Ha Hb. destruct pc; section_cases Ha; rewrite ?length_app; cbn [holding length]; lia.
Qed.

Lemma budget_step (cfg : CrawlConfig) (w w' : CrawlWorld) : budget_ok cfg w -> step cfg w w' -> budget_ok cfg w'.
Proof.
  intros [H1 H2] [i pc pc' io s' ev Hi Hnow Ha]. unfold budget_ok. cbn. rewrite (sum_insert _ _ _ _ _ Hi).
  destruct (process_budget _ _ _ _ _ _ _ Ha H1). lia.
Qed.

(** *** The queue when the workers stop *)

Definition quiet (pc : Pc) : Prop := pc = SawEmpty \/ pc = Returned.

Definition drain_ok (w : CrawlWorld) : Prop := Forall quiet (w_workers w) -> w_workers w <> [] -> fr_heap (sh_frontier (w_shared w)) = [].

Lemma process_quiet (cfg : CrawlConfig) (io : Io) (s s' : Shared) (pc pc' : Pc) (ev : list Event) :
  process cfg io s pc = Some (s', pc', ev) -> quiet pc' ->
  (quiet pc /\ s' = s) \/ fr_heap (sh_frontier s') = [].
Proof.
  intros Ha Hq. unfold quiet in *.
  destruct pc; section_cases Ha; try (destruct Hq; discriminate); try (left; by auto).
  right. pose proof (pop_spec (sh_frontier s')) as Hp. match goal with H : pop _ = _ |- _ => rewrite H in Hp end. by destruct Hp.
Qed.

Lemma drain_step (cfg : CrawlConfig) (w w' : CrawlWorld) : drain_ok w -> step cfg w w' -> drain_ok w'.
Proof.
  intros Hw [i pc pc' io s' ev Hi Hnow Ha]. unfold drain_ok in *. cbn. intros Hq Hne.
  assert (i < length (w_workers w))%nat as Hlt by by apply lookup_lt_Some in Hi.
  assert (quiet pc') as Hpc' by (apply (proj1 (Forall_lookup _ _) Hq i); by apply list_lookup_insert_eq).
  destruct (process_quiet _ _ _ _ _ _ _ Ha Hpc') as [[Hpc ->]|]; [|done].
  apply Hw; [|intros E; rewrite E in Hlt; cbn in Hlt; lia]. apply Forall_lookup. intros j x Hj. destruct (decide (j = i)) as [->|Hji]; [congruence|].
  apply (proj1 (Forall_lookup _ _) Hq j). by rewrite list_lookup_insert_ne.
Qed.

(** *** Each URL is taken once *)

Definition url_of (q : QueuedUrl) : string := as_str (q_url q).
Definition heap_urls (f : Frontier) : list string := map (fun e => url_of (en_item e)) (fr_heap f).
Definition pops (tr : list Event) : list string := omap (fun e => match e with EvPop q => Some (url_of q) | _ => None end) tr.

(** The URL of an item that may still be stored. *)
Definition pending (pc : Pc) : list string :=
  match pc with
  | Got q | Start q | Reserve q _ | Wait q _ _ | Quota q _ | RobotsLookup q | RobotsFetch q | Gate q _ | Fetch q _
  | Dedup q _ | Budget q _ | ParseBody q _ | Save q _ _ | NoteSave q _ _ _ | Record_ q _ _ _ => [url_of q]
  | Looping | SawEmpty | NoteDup _ _ | Links _ _ | Leave | Returned | Panicked => []
  end.

Definition urls_ok (w : CrawlWorld) : Prop :=
  NoDup (pops (w_trace w) ++ heap_urls (sh_frontier (w_shared w))) /\
  (forall u, u ∈ fr_seen (sh_frontier (w_shared w)) <-> u ∈ pops (w_trace w) ++ heap_urls (sh_frontier (w_shared w))) /\
  map pr_url (sh_pages (w_shared w)) ++ concat (map pending (w_workers w)) ⊆+ pops (w_trace w).

Lemma pops_app (a b : list Event) : pops (a ++ b) = pops a ++ pops b.
Proof. apply omap_app. Qed.

Lemma process_queue (cfg : CrawlConfig) (io : Io) (s s' : Shared) (pc pc' : Pc) (ev : list Event) :
  process cfg io s pc = Some (s', pc', ev) ->
  (fr_seen (sh_frontier s') = fr_seen (sh_frontier s) /\ pops ev ++ heap_urls (sh_frontier s') ≡ₚ heap_urls (sh_frontier s)) \/
  (pops ev = [] /\ exists u, (u ∉ fr_seen (sh_frontier s)) /\ fr_seen (sh_frontier s') = {[u]} ∪ fr_seen (sh_frontier s) /\
     heap_urls (sh_frontier s') = heap_urls (sh_frontier s) ++ [u]).
Proof.
  intros Ha. destruct pc; section_cases Ha; try (left; by split); unfold heap_urls.
  - left. pose proof (pop_spec (sh_frontier s)) as Hp. match goal with H : pop _ = _ |- _ => rewrite H in Hp end.
    destruct Hp as (m & -> & Hperm & _ & Ef). rewrite Ef at 1. cbn. split; [done|]. by rewrite Hperm.
  - left. match goal with H : reserve_slot _ _ _ _ = _ |- _ => injection H as <- <- end. by split.
  - left. unfold host_quota_exhausted in *. case_match; simplify_eq. by split.
  - left. unfold host_quota_exhausted in *. case_match; simplify_eq. by split.
  - left. unfold host_quota_exhausted in *. case_match; simplify_eq. by split.
  - match goal with |- context [push ?u ?d ?f] => destruct (frontier_push_spec u d f) as [[-> _]|(fg & f' & -> & Hn & Hh & Hs & _)] end; cbn; [left; by split|].
    right. split; [done|]. eexists. split; [exact Hn|]. split; [exact Hs|]. by rewrite Hh, map_app.
Qed.

(** What a section stores and hands on. *)
Lemma process_pending (cfg : CrawlConfig) (io : Io) (s s' : Shared) (pc pc' : Pc) (ev : list Event) :
  process cfg io s pc = Some (s', pc', ev) ->
  exists stored, map pr_url (sh_pages s') = map pr_url (sh_pages s) ++ stored /\ stored ++ pending pc' ⊆+ pending pc ++ pops ev.
Proof.
  intros Ha. destruct pc; section_cases Ha;
    first [ exists []; split; [by rewrite ?app_nil_r|cbn [pending pops omap list_omap app]; first [done | apply submseteq_nil_l]]
          | exists [url_of q]; rewrite map_app; split; [done|cbn; done] ].
Qed.

Lemma urls_step (cfg : CrawlConfig) (w w' : CrawlWorld) : urls_ok w -> step cfg w w' -> urls_ok w'.
Proof.
  intros (Hnd & Hseen & Hsub) [i pc pc' io s' ev Hi Hnow Ha]. unfold urls_ok. cbn. rewrite pops_app.
  split; [|split].
  - destruct (process_queue _ _ _ _ _ _ _ Ha) as [[_ Hp]|(-> & u & Hu & _ & ->)].
    + rewrite <- (assoc_L (++)), Hp. done.
    + rewrite app_nil_r, (assoc_L (++)). apply NoDup_app. split; [done|]. split; [|apply NoDup_singleton].
      intros x Hx ->%list_elem_of_singleton. by apply Hu, Hseen.
  - intros u. destruct (process_queue _ _ _ _ _ _ _ Ha) as [[-> Hp]|(-> & u' & Hu & -> & ->)].
    + rewrite <- (assoc_L (++)), Hp. apply Hseen.
    + rewrite app_nil_r, (assoc_L (++)), elem_of_app, <- Hseen, list_elem_of_singleton, elem_of_union, elem_of_singleton. tauto.
  - destruct (process_pending _ _ _ _ _ _ _ Ha) as (stored & -> & Hst).
    destruct (concat_insert pending _ _ _ pc' Hi) as (rest & H1 & H2). rewrite H2. rewrite H1 in Hsub.
    trans ((map pr_url (sh_pages (w_shared w)) ++ rest) ++ (pending pc ++ pops ev)).
    + trans ((map pr_url (sh_pages (w_shared w)) ++ rest) ++ (stored ++ pending pc')); [apply Permutation_submseteq; solve_Permutation|].
      by apply submseteq_skips_l.
    + trans ((map pr_url (sh_pages (w_shared w)) ++ (pending pc ++ rest)) ++ pops ev); [apply Permutation_submseteq; solve_Permutation|].
      by apply submseteq_skips_r.
Qed.

(** *** Each body is stored once *)

(** The digest of a body that was accepted and may still be stored. *)
Definition accepted (pc : Pc) : list bytes :=
  match pc with
  | Budget _ page | ParseBody _ page | Save _ page _ | NoteSave _ page _ _ | Record_ _ page _ _ => [body_hash (fp_body page)]
  | _ => []
  end.

(** The stored digests were recorded as seen, and are distinct. *)
Definition content_ok (resumed : list bytes) (w : CrawlWorld) : Prop :=
  exists digests, map pr_content_hash (sh_pages (w_shared w)) = map crawl_hex digests /\
    NoDup (digests ++ concat (map accepted (w_workers w))) /\
    (forall h, h ∈ resumed -> h ∈ sh_content_seen (w_shared w)) /\
    Forall (fun h => h ∈ sh_content_seen (w_shared w) /\ (h ∉ resumed)) (digests ++ concat (map accepted (w_workers w))).

Lemma process_content (cfg : CrawlConfig) (io : Io) (s s' : Shared) (pc pc' : Pc) (ev : list Event) :
  process cfg io s pc = Some (s', pc', ev) ->
  (sh_content_seen s' = sh_content_seen s /\
   exists ds, map pr_content_hash (sh_pages s') = map pr_content_hash (sh_pages s) ++ map crawl_hex ds /\ ds ++ accepted pc' ⊆+ accepted pc) \/
  (sh_pages s' = sh_pages s /\ accepted pc = [] /\
   exists h, (h ∉ sh_content_seen s) /\ accepted pc' = [h] /\ sh_content_seen s' = {[h]} ∪ sh_content_seen s).
Proof.
  intros Ha. destruct pc; section_cases Ha;
    first [ left; split; [done|]; exists []; split; [by rewrite ?app_nil_r|cbn [accepted app]; first [done | apply submseteq_nil_l]]
          | left; split; [done|]; exists [body_hash (fp_body page)]; rewrite map_app; split; [done|cbn; done]
          | right; split; [done|]; split; [done|]; eexists; split; [|by split]; by match goal with H : bool_decide _ = false |- _ => apply bool_decide_eq_false in H end ].
Qed.

Lemma content_step (cfg : CrawlConfig) (resumed : list bytes) (w w' : CrawlWorld) : content_ok resumed w -> step cfg w w' -> content_ok resumed w'.
Proof.
  intros (ds & Hds & Hnd & Hres & Hall) [i pc pc' io s' ev Hi Hnow Ha]. unfold content_ok. cbn.
  destruct (concat_insert accepted _ _ _ pc' Hi) as (rest & H1 & H2). rewrite H1 in Hnd, Hall.
  destruct (process_content _ _ _ _ _ _ _ Ha) as [(-> & ds' & -> & Hsub)|(-> & E0 & h & Hh & E1 & ->)].
  - exists (ds ++ ds'). rewrite Hds, map_app, H2. split; [done|].
    assert ((ds ++ ds') ++ (accepted pc' ++ rest) ⊆+ ds ++ (accepted pc ++ rest)) as Hle.
    { trans ((ds ++ rest) ++ (ds' ++ accepted pc')); [apply Permutation_submseteq; solve_Permutation|].
      trans ((ds ++ rest) ++ accepted pc); [by apply submseteq_skips_l|apply Permutation_submseteq; solve_Permutation]. }
    apply submseteq_Permutation in Hle as [k Hk]. rewrite Hk in Hnd, Hall. apply NoDup_app in Hnd as [Hnd _].
    apply Forall_app in Hall as [Hall _]. done.
  - exists ds. rewrite E0 in Hnd, Hall. rewrite H2, E1. split; [done|]. cbn [app] in *.
    assert (ds ++ h :: rest ≡ₚ h :: (ds ++ rest)) as -> by solve_Permutation. split; [|split].
    + constructor; [|done]. intros Hin. rewrite Forall_forall in Hall. by destruct (Hall h Hin).
    + intros x Hx. set_solver.
    + constructor; [split; [set_solver|]; by intros ?%Hres|]. eapply Forall_impl; [exact Hall|]. intros x [??]. split; [set_solver|done].
Qed.

(** *** Which items are queued *)

Definition qhost (q : QueuedUrl) : string := default "" (host_str (q_url q)).

(** A start, or a link that was allowed, within the depth. *)
Definition item_ok (cfg : CrawlConfig) (starts : list Url) (q : QueuedUrl) : Prop :=
  0 <= q_depth q <= cf_max_depth cfg /\
  exists u, q_url q = strip_fragment u /\ ((u ∈ starts /\ q_depth q = 0) \/ (link_allowed cfg u = true /\ 0 < q_depth q)).

Definition pc_item (pc : Pc) : option QueuedUrl :=
  match pc with
  | Got q | Start q | Reserve q _ | Wait q _ _ | Quota q _ | RobotsLookup q | RobotsFetch q | Gate q _ | Fetch q _
  | Dedup q _ | NoteDup q _ | Budget q _ | ParseBody q _ | Save q _ _ | NoteSave q _ _ _ | Record_ q _ _ _ | Links q _ => Some q
  | Looping | SawEmpty | Leave | Returned | Panicked => None
  end.

Definition pc_ok (cfg : CrawlConfig) (starts : list Url) (pc : Pc) : Prop :=
  (forall q, pc_item pc = Some q -> item_ok cfg starts q) /\
  match pc with
  | Reserve q host | Wait q host _ | Quota q host => host = qhost q
  | Links q _ => q_depth q < cf_max_depth cfg
  | _ => True
  end.

Definition shared_items_ok (cfg : CrawlConfig) (starts : list Url) (s : Shared) : Prop :=
  Forall (fun e => item_ok cfg starts (en_item e)) (fr_heap (sh_frontier s)) /\
  Forall (fun p => exists q, item_ok cfg starts q /\ pr_url p = url_of q /\ pr_depth p = q_depth q) (sh_pages s).

Definition items_ok (cfg : CrawlConfig) (starts : list Url) (w : CrawlWorld) : Prop :=
  shared_items_ok cfg starts (w_shared w) /\ Forall (pc_ok cfg starts) (w_workers w).

Lemma enqueue_items (cfg : CrawlConfig) (starts : list Url) (u : Url) (d : Z) (s : Shared) :
  shared_items_ok cfg starts s -> item_ok cfg starts (MkQueued (strip_fragment u) d) -> shared_items_ok cfg starts (enqueue u d s).
Proof.
  intros [H1 H2] Hu. rewrite enqueue_eq. split; [|exact H2]. cbn.
  destruct (frontier_push_spec u d (sh_frontier s)) as [[-> _]|(fg & f' & -> & _ & Hh & _)]; cbn; [done|].
  rewrite Hh. apply Forall_app. split; [done|]. by constructor.
Qed.

Lemma with_page_items (cfg : CrawlConfig) (starts : list Url) (q : QueuedUrl) (page : FetchedPage) (meta : PageMeta) (saved : option string) (s : Shared) :
  shared_items_ok cfg starts s -> item_ok cfg starts q -> shared_items_ok cfg starts (with_page (page_record q page meta saved) s).
Proof. intros [H1 H2] Hq. split; [exact H1|]. apply Forall_app. split; [exact H2|]. constructor; [by exists q|done]. Qed.

Lemma process_items (cfg : CrawlConfig) (starts : list Url) (io : Io) (s s' : Shared) (pc pc' : Pc) (ev : list Event) :
  process cfg io s pc = Some (s', pc', ev) -> shared_items_ok cfg starts s -> pc_ok cfg starts pc ->
  shared_items_ok cfg starts s' /\ pc_ok cfg starts pc'.
Proof.
  intros Ha Hs [Hpc Hl]. destruct pc; cbn [process] in Ha; repeat case_match; simplify_eq;
    try (split; [exact Hs|split; [intros ? [= <-]; by apply Hpc|first [done | reflexivity]]]);
    try (split; [exact Hs|split; [intros ? [=]|done]]).
  - pose proof (pop_spec (sh_frontier s)) as Hp. match goal with H : pop _ = _ |- _ => rewrite H in Hp end.
    destruct Hp as (m & -> & Hperm & _). destruct Hs as [H1 H2]. rewrite Hperm in H1. apply Forall_cons in H1 as [Hm H1].
    split; [by split|]. split; [intros ? [= <-]; exact Hm|done].
  - match goal with H : reserve_slot _ _ _ _ = _ |- _ => injection H as <- <- end.
    split; [exact Hs|]. split; [intros ? [= <-]; by apply Hpc|done].
  - unfold host_quota_exhausted in *. case_match; simplify_eq. split; [exact Hs|]. split; [intros ? [=]|done].
  - unfold host_quota_exhausted in *. case_match; simplify_eq. split; [exact Hs|]. split; [intros ? [= <-]; by apply Hpc|done].
  - unfold host_quota_exhausted in *. case_match; simplify_eq. split; [exact Hs|]. split; [intros ? [= <-]; by apply Hpc|done].
  - split; [by apply with_page_items; [|apply Hpc]|]. split; [intros ? [=]|done].
  - split; [by apply with_page_items; [|apply Hpc]|]. split; [intros ? [= <-]; by apply Hpc|]. by apply Z.leb_gt.
  - split; [|split; [intros ? [= <-]; by apply Hpc|done]]. apply enqueue_items; [done|].
    destruct (Hpc q eq_refl) as [Hd _]. split; cbn; [lia|]. eexists. split; [done|]. right. split; [done|lia].
Qed.

Lemma items_step (cfg : CrawlConfig) (starts : list Url) (w w' : CrawlWorld) : items_ok cfg starts w -> step cfg w w' -> items_ok cfg starts w'.
Proof.
  intros [Hs Hw] [i pc pc' io s' ev Hi Hnow Ha].
  destruct (process_items _ starts _ _ _ _ _ _ Ha Hs) as [? ?]; [by apply (Forall_lookup_1 _ _ _ _ Hw Hi)|].
  split; [done|]. by apply Forall_insert.
Qed.

(** *** Politeness: slots, requests and quotas per host *)

Definition slots (h : string) (tr : list Event) : list Z :=
  omap (fun e => match e with EvSlot h' t => if String.eqb h h' then Some t else None | _ => None end) tr.
Definition fetches (h : string) (tr : list Event) : list Z :=
  omap (fun e => match e with EvFetch q _ t => if String.eqb h (qhost q) then Some t else None | _ => None end) tr.

Lemma slots_app (h : string) (a b : list Event) : slots h (a ++ b) = slots h a ++ slots h b.
Proof. apply omap_app. Qed.
Lemma fetches_app (h : string) (a b : list Event) : fetches h (a ++ b) = fetches h a ++ fetches h b.
Proof. apply omap_app. Qed.

Definition at_host (h : string) (q : QueuedUrl) : Z := if String.eqb h (qhost q) then 1 else 0.

(** A worker that has its slot and has not sent its request; and one past the quota. *)
Definition slotted (h : string) (pc : Pc) : Z :=
  match pc with Wait q _ _ | Quota q _ | RobotsLookup q | RobotsFetch q | Gate q _ | Fetch q _ => at_host h q | _ => 0 end.
Definition passed (h : string) (pc : Pc) : Z :=
  match pc with RobotsLookup q | RobotsFetch q | Gate q _ | Fetch q _ => at_host h q | _ => 0 end.

Definition spaced (delay : Z) : list Z -> Prop := StronglySorted (fun a b => a + delay <= b).
Definition host_pages (h : string) (s : Shared) : Z := default 0 (fr_host_pages (sh_frontier s) !! h).

Definition polite_ok (cfg : CrawlConfig) (w : CrawlWorld) : Prop :=
  forall h,
    spaced (cf_delay cfg) (slots h (w_trace w)) /\
    Forall (fun t => exists n, fr_host_next_ok (sh_frontier (w_shared w)) !! h = Some n /\ t + cf_delay cfg <= n) (slots h (w_trace w)) /\
    Z.of_nat (length (fetches h (w_trace w))) + list_sum (map (slotted h) (w_workers w)) <= Z.of_nat (length (slots h (w_trace w))) /\
    Z.of_nat (length (fetches h (w_trace w))) + list_sum (map (passed h) (w_workers w)) <= host_pages h (w_shared w) /\
    host_pages h (w_shared w) <= cf_max_pages_per_host cfg.

(** The slot table: unchanged, or one slot given out. *)
Lemma process_slots (cfg : CrawlConfig) (io : Io) (s s' : Shared) (pc pc' : Pc) (ev : list Event) (h : string) :
  process cfg io s pc = Some (s', pc', ev) ->
  (slots h ev = [] /\ fr_host_next_ok (sh_frontier s') !! h = fr_host_next_ok (sh_frontier s) !! h) \/
  exists t, slots h ev = [t] /\ fr_host_next_ok (sh_frontier s') !! h = Some (t + cf_delay cfg) /\
    forall n, fr_host_next_ok (sh_frontier s) !! h = Some n -> n <= t.
Proof.
  intros Ha. destruct pc; section_cases Ha; try (left; by split).
  - left. pose proof (pop_spec (sh_frontier s)) as Hp. match goal with H : pop _ = _ |- _ => rewrite H in Hp end.
    destruct Hp as (m & -> & Hperm & _ & Ef). rewrite Ef at 1. done.
  - match goal with H : reserve_slot _ _ _ _ = _ |- _ => injection H as <- <- end. cbn [fr_host_next_ok].
    unfold slots. cbn [omap list_omap]. destruct (String.eqb_spec h host) as [->|Hne].
    + right. eexists. split; [reflexivity|]. rewrite lookup_insert_eq. split; [done|]. intros n ->. cbn. lia.
    + left. split; [done|]. by rewrite lookup_insert_ne.
  - left. unfold host_quota_exhausted in *. case_match; simplify_eq. by split.
  - left. unfold host_quota_exhausted in *. case_match; simplify_eq. by split.
  - left. unfold host_quota_exhausted in *. case_match; simplify_eq. by split.
  - left. split; [done|]. match goal with |- context [push ?u ?d ?f] => destruct (frontier_push_spec u d f) as [[-> _]|(fg & f' & -> & _ & _ & _ & Hn & _)] end; cbn; [done|].
    by rewrite Hn.
Qed.

Lemma process_requests (cfg : CrawlConfig) (starts : list Url) (io : Io) (s s' : Shared) (pc pc' : Pc) (ev : list Event) (h : string) :
  process cfg io s pc = Some (s', pc', ev) -> pc_ok cfg starts pc ->
  Z.of_nat (length (fetches h ev)) + slotted h pc' <= Z.of_nat (length (slots h ev)) + slotted h pc.
Proof.
  intros Ha [_ Hl]. destruct pc; section_cases Ha; unfold slots, fetches; cbn [slotted omap list_omap length] in *;
    unfold at_host; try match goal with H : _ = qhost _ |- _ => rewrite <- H in * end; repeat case_match; simplify_eq; cbn [length]; lia.
Qed.

Lemma quota_spec (host h : string) (max : Z) (f f' : Frontier) (exhausted : bool) :
  host_quota_exhausted host max f = (exhausted, f') ->
  default 0 (fr_host_pages f' !! h) = default 0 (fr_host_pages f !! h) + (if exhausted then 0 else if String.eqb h host then 1 else 0) /\
  (default 0 (fr_host_pages f !! h) <= max -> default 0 (fr_host_pages f' !! h) <= max).
Proof.
  unfold host_quota_exhausted. destruct (Z.leb_spec max (default 0 (fr_host_pages f !! host))); intros [= <- <-]; cbn [fr_host_pages];
    destruct (String.eqb_spec h host) as [->|Hne]; rewrite ?lookup_insert_eq, ?lookup_insert_ne by done; cbn; lia.
Qed.

Lemma process_quota (cfg : CrawlConfig) (starts : list Url) (io : Io) (s s' : Shared) (pc pc' : Pc) (ev : list Event) (h : string) :
  process cfg io s pc = Some (s', pc', ev) -> pc_ok cfg starts pc ->
  Z.of_nat (length (fetches h ev)) + passed h pc' + host_pages h s <= host_pages h s' + passed h pc /\
  (host_pages h s <= cf_max_pages_per_host cfg -> host_pages h s' <= cf_max_pages_per_host cfg).
Proof.
  intros Ha [_ Hl]. unfold host_pages. destruct pc; section_cases Ha; unfold fetches; cbn [passed omap list_omap length] in *; unfold at_host;
    try (split; [repeat case_match; cbn [length]; lia|lia]).
  - pose proof (pop_spec (sh_frontier s)) as Hp. match goal with H : pop _ = _ |- _ => rewrite H in Hp end.
    destruct Hp as (m & -> & Hperm & _ & Ef). rewrite Ef. cbn. lia.
  - match goal with H : reserve_slot _ _ _ _ = _ |- _ => injection H as <- <- end. cbn [fr_host_pages]. lia.
  - match goal with H : host_quota_exhausted _ _ _ = _ |- _ => destruct (quota_spec _ h _ _ _ _ H) as [E ?] end. lia.
  - match goal with H : host_quota_exhausted _ _ _ = _ |- _ => destruct (quota_spec _ h _ _ _ _ H) as [E ?] end.
    cbn [length]. lia.
  - match goal with H : host_quota_exhausted _ _ _ = _ |- _ => destruct (quota_spec _ h _ _ _ _ H) as [E ?] end.
    cbn [length]. lia.
  - destruct (String.eqb h (qhost q)); cbn [length]; lia.
  - destruct (String.eqb h (qhost q)); cbn [length]; lia.
  - destruct (String.eqb h (qhost q)); cbn [length]; lia.
  - match goal with |- context [push ?u ?d ?f] => destruct (frontier_push_spec u d f) as [[-> _]|(fg & f' & -> & _ & _ & _ & _ & Hn)] end; cbn; [lia|].
    rewrite Hn. lia.
Qed.

Lemma polite_step (cfg : CrawlConfig) (starts : list Url) (w w' : CrawlWorld) :
  0 <= cf_delay cfg -> items_ok cfg starts w -> polite_ok cfg w -> step cfg w w' -> polite_ok cfg w'.
Proof.
  intros Hdelay [_ Hpcs] Hp [i pc pc' io s' ev Hi Hnow Ha] h. destruct (Hp h) as (H1 & H2 & H3 & H4 & H5). cbn [w_trace w_shared w_workers].
  assert (pc_ok cfg starts pc) as Hpc by apply (Forall_lookup_1 _ _ _ _ Hpcs Hi).
  pose proof (process_requests _ _ _ _ _ _ _ _ h Ha Hpc) as HR. destruct (process_quota _ _ _ _ _ _ _ _ h Ha Hpc) as [HQ1 HQ2].
  rewrite slots_app, fetches_app, !length_app, !(sum_insert _ _ _ _ _ Hi).
  assert (spaced (cf_delay cfg) (slots h (w_trace w) ++ slots h ev) /\
          Forall (fun t => exists n, fr_host_next_ok (sh_frontier s') !! h = Some n /\ t + cf_delay cfg <= n) (slots h (w_trace w) ++ slots h ev)) as [? ?].
  { destruct (process_slots _ _ _ _ _ _ _ h Ha) as [[-> ->]|(t & -> & -> & Ht)]; [by rewrite app_nil_r|]. split.
    - apply StronglySorted_app. split_and!; [|done|repeat constructor].
      intros a b Ha' ->%list_elem_of_singleton. rewrite Forall_forall in H2. destruct (H2 a Ha') as (n & Hn & ?). specialize (Ht n Hn). lia.
    - apply Forall_app. split; [|constructor; [eexists; split; [done|lia]|done]].
      eapply Forall_impl; [exact H2|]. intros a (n & Hn & ?). eexists. split; [done|]. specialize (Ht n Hn). lia. }
  split_and!; [done..|lia|lia|by apply HQ2].
Qed.

(** *** Requests wait for their slot and obey the robots rules of their origin *)

Definition slot_begun (tr : list Event) (now : Z) (q : QueuedUrl) : Prop := exists t, EvSlot (qhost q) t ∈ tr /\ t <= now.
Definition robots_known (tr : list Event) (q : QueuedUrl) (r : option Robots) : Prop := exists t, EvRobots (origin_of (q_url q)) r t ∈ tr.
Definition permits (r : option Robots) (q : QueuedUrl) : bool :=
  match r with Some rules => allows rules (chars (url_path (q_url q))) | None => true end.

Definition may_request (cfg : CrawlConfig) (tr : list Event) (now : Z) (q : QueuedUrl) (r : option Robots) : Prop :=
  slot_begun tr now q /\ (cf_respect_robots cfg = true -> robots_known tr q r /\ permits r q = true).

Definition pc_knows (cfg : CrawlConfig) (tr : list Event) (now : Z) (pc : Pc) : Prop :=
  match pc with
  | Wait q host until => slot_begun tr (Z.max until now) q
  | Quota q host => slot_begun tr now q
  | RobotsLookup q | RobotsFetch q => slot_begun tr now q
  | Gate q r => slot_begun tr now q /\ robots_known tr q r
  | Fetch q r => may_request cfg tr now q r
  | _ => True
  end.

Definition obeys (cfg : CrawlConfig) (tr : list Event) : Prop :=
  forall a q r t b, tr = a ++ EvFetch q r t :: b -> may_request cfg a t q r.

Definition cache_ok (cache : gmap string (option Robots)) (tr : list Event) : Prop :=
  forall o r, cache !! o = Some r -> exists t, EvRobots o r t ∈ tr.

Definition trace_ok (cfg : CrawlConfig) (w : CrawlWorld) : Prop :=
  obeys cfg (w_trace w) /\ Forall (pc_knows cfg (w_trace w) (w_now w)) (w_workers w) /\
  cache_ok (sh_robots_cache (w_shared w)) (w_trace w).

Lemma slot_begun_mono (tr ev : list Event) (now now' : Z) (q : QueuedUrl) :
  slot_begun tr now q -> now <= now' -> slot_begun (tr ++ ev) now' q.
Proof. intros (t & Ht & ?) ?. exists t. split; [apply elem_of_app; by left|lia]. Qed.

Lemma robots_known_mono (tr ev : list Event) (q : QueuedUrl) (r : option Robots) : robots_known tr q r -> robots_known (tr ++ ev) q r.
Proof. intros (t & Ht). exists t. apply elem_of_app. by left. Qed.

Lemma pc_knows_mono (cfg : CrawlConfig) (tr ev : list Event) (now now' : Z) (pc : Pc) :
  pc_knows cfg tr now pc -> now <= now' -> pc_knows cfg (tr ++ ev) now' pc.
Proof.
  destruct pc; cbn; intros H Hn; try done; try (by apply (slot_begun_mono _ _ _ _ _ H)).
  - apply (slot_begun_mono _ _ _ _ _ H). lia.
  - destruct H. split; [by eapply slot_begun_mono|by apply robots_known_mono].
  - destruct H as [H1 H2]. split; [by eapply slot_begun_mono|]. intros Hr. destruct (H2 Hr). split; [by apply robots_known_mono|done].
Qed.

Lemma obeys_snoc (cfg : CrawlConfig) (tr : list Event) (e : Event) :
  obeys cfg tr -> (forall q r t, e = EvFetch q r t -> may_request cfg tr t q r) -> obeys cfg (tr ++ [e]).
Proof.
  intros H He a q r t b E. destruct b as [|x b _] using rev_ind.
  - apply app_inj_tail in E as [<- ->]. by apply He.
  - rewrite app_comm_cons, (assoc_L (++)) in E. apply app_inj_tail in E as [-> ->]. by eapply H.
Qed.

Lemma cache_ok_app (cache : gmap string (option Robots)) (tr ev : list Event) : cache_ok cache tr -> cache_ok cache (tr ++ ev).
Proof. intros H o r E. destruct (H o r E) as [t Ht]. exists t. apply elem_of_app. by left. Qed.

Lemma process_knows (cfg : CrawlConfig) (starts : list Url) (io : Io) (s s' : Shared) (pc pc' : Pc) (ev tr : list Event) (now : Z) :
  process cfg io s pc = Some (s', pc', ev) -> now <= io_now io -> pc_ok cfg starts pc -> obeys cfg tr -> pc_knows cfg tr now pc ->
  cache_ok (sh_robots_cache s) tr ->
  obeys cfg (tr ++ ev) /\ pc_knows cfg (tr ++ ev) (io_now io) pc' /\ cache_ok (sh_robots_cache s') (tr ++ ev).
Proof.
  intros Ha Hnow [_ Hl] Hob Hk Hc.
  assert (pc_knows cfg tr (io_now io) pc) as Hk' by (pose proof (pc_knows_mono _ _ [] _ _ _ Hk Hnow) as H; by rewrite app_nil_r in H).
  destruct pc; section_cases Ha; cbn [pc_knows] in *; rewrite ?app_nil_r; try (split_and!; done);
    try (split_and!; [by apply obeys_snoc|done|by apply cache_ok_app]);
    try (split_and!; [apply obeys_snoc; [done|intros ??? [= <- <- <-]; exact Hk']|done|by apply cache_ok_app]).
  - split_and!; [by apply obeys_snoc| |by apply cache_ok_app]. eexists. split; [apply elem_of_app; right; by apply list_elem_of_singleton|].
    match goal with H : reserve_slot _ _ _ _ = _ |- _ => injection H as <- <- end. lia.
  - split_and!; [done| |done]. destruct Hk' as (t & Ht & ?). exists t. split; [done|]. match goal with H : (_ <=? _) = true |- _ => apply Z.leb_le in H end. lia.
  - split_and!; [done| |done]. split; [done|]. congruence.
  - split_and!; [done..| |done]. by apply Hc.
  - split_and!; [by apply obeys_snoc|by eapply slot_begun_mono| |].
    + eexists. apply elem_of_app. right. by apply list_elem_of_singleton.
    + intros o r E. destruct (decide (o = origin_of (q_url q))) as [->|Hne].
      * rewrite lookup_insert_eq in E. injection E as <-. eexists. apply elem_of_app. right. by apply list_elem_of_singleton.
      * rewrite lookup_insert_ne in E by done. by apply (cache_ok_app _ _ _ Hc).
  - split_and!; [done| |done]. destruct Hk'. split; [done|]. by intros _.
  - split_and!; [done| |done]. destruct Hk'. split; [done|]. by intros _.
Qed.

Lemma trace_step (cfg : CrawlConfig) (starts : list Url) (w w' : CrawlWorld) :
  items_ok cfg starts w -> trace_ok cfg w -> step cfg w w' -> trace_ok cfg w'.
Proof.
  intros [_ Hpcs] (Ho & Hk & Hc) [i pc pc' io s' ev Hi Hnow Ha]. unfold trace_ok. cbn [w_trace w_shared w_workers w_now].
  destruct (process_knows _ starts _ _ _ _ _ _ _ _ Ha Hnow (Forall_lookup_1 _ _ _ _ Hpcs Hi) Ho (Forall_lookup_1 _ _ _ _ Hk Hi) Hc) as (H1 & H2 & H3).
  split_and!; [done| |done]. apply Forall_insert; [|done]. eapply Forall_impl; [exact Hk|]. intros x Hx. by eapply pc_knows_mono.
Qed.

(** *** Sidecars keep the history of their body *)

(** The sources of a document are kept in order, only their last time moves; new ones follow. *)
Definition history (a b : list SourceRef) : Prop := exists kept new, b = kept ++ new /\ Forall2 (fun x y => exists t, y = seen_again t x) a kept.

Definition keeps (docs docs' : gmap string (list SourceRef)) : Prop :=
  forall h a, docs !! h = Some a -> exists b, docs' !! h = Some b /\ history a b /\ (NoDup (map sr_url a) -> NoDup (map sr_url b)).

Lemma seen_again_same (x : SourceRef) : seen_again (sr_last_seen x) x = x.
Proof. by destruct x. Qed.

Lemma same_refl (a : list SourceRef) : Forall2 (fun x y => exists t, y = seen_again t x) a a.
Proof. induction a as [|x a IH]; constructor; [|done]. exists (sr_last_seen x). by rewrite seen_again_same. Qed.

Lemma add_source_history (source : SourceRef) (now : Z) (a : list SourceRef) : history a (add_source source now a).
Proof.
  induction a as [|r a (kept & new & E & H)]; cbn [add_source]; [exists [], [source]; by split|].
  destruct (String.eqb (sr_url r) (sr_url source)).
  - exists (seen_again now r :: a), []. rewrite app_nil_r. split; [done|]. constructor; [by exists now|apply same_refl].
  - exists (r :: kept), new. rewrite E. split; [done|]. constructor; [|done]. exists (sr_last_seen r). by rewrite seen_again_same.
Qed.

Lemma add_source_urls (source : SourceRef) (now : Z) (a : list SourceRef) :
  map sr_url (add_source source now a) = map sr_url a /\ sr_url source ∈ map sr_url a \/
  map sr_url (add_source source now a) = map sr_url a ++ [sr_url source] /\ (sr_url source ∉ map sr_url a).
Proof.
  induction a as [|r a IH]; cbn [add_source map]; [right; split; [done|apply not_elem_of_nil]|].
  destruct (String.eqb_spec (sr_url r) (sr_url source)) as [E|E]; cbn [map].
  - left. split; [done|]. rewrite E. left.
  - destruct IH as [[-> H]|[-> H]]; [left; split; [done|by right]|right; split; [done|]]. apply not_elem_of_cons. by split.
Qed.

Lemma add_source_nodup (source : SourceRef) (now : Z) (a : list SourceRef) : NoDup (map sr_url a) -> NoDup (map sr_url (add_source source now a)).
Proof.
  intros Hnd. destruct (add_source_urls source now a) as [[-> _]|[-> H]]; [done|].
  apply NoDup_app. split_and!; [done| |apply NoDup_singleton]. by intros x Hx ->%list_elem_of_singleton.
Qed.

Lemma shared_keeps_refl (docs : gmap string (list SourceRef)) : keeps docs docs.
Proof. intros h a E. exists a. split_and!; [done| |done]. exists a, []. rewrite app_nil_r. split; [done|apply same_refl]. Qed.

Lemma history_trans (a b c : list SourceRef) : history a b -> history b c -> history a c.
Proof.
  intros (k1 & n1 & -> & H1) (k2 & n2 & -> & H2). apply Forall2_app_inv_l in H2 as (x & y & Hx & Hy & ->).
  exists x, (y ++ n2). split; [by rewrite (assoc_L (++))|]. clear -H1 Hx. revert x Hx.
  induction H1 as [|p q a k [t ->] _ IH]; intros x Hx; [by apply Forall2_nil_inv_l in Hx as ->|].
  apply Forall2_cons_inv_l in Hx as (z & x' & [t' ->] & Hx & ->). constructor; [by exists t'|by apply IH].
Qed.

Lemma keeps_record (docs0 docs : gmap string (list SourceRef)) (h : string) (source : SourceRef) (now : Z) :
  keeps docs0 docs -> keeps docs0 (record_source h source now docs).
Proof.
  intros H k a E. destruct (H k a E) as (b & Eb & Hb & Hnd). unfold record_source. destruct (decide (h = k)) as [->|Hne].
  - rewrite lookup_insert_eq, Eb. eexists. split; [done|]. cbn. split; [by eapply history_trans, add_source_history|]. intros ?. by apply add_source_nodup, Hnd.
  - rewrite lookup_insert_ne by done. by exists b.
Qed.

Lemma process_sidecars (cfg : CrawlConfig) (io : Io) (s s' : Shared) (pc pc' : Pc) (ev : list Event) (docs0 : gmap string (list SourceRef)) :
  process cfg io s pc = Some (s', pc', ev) -> keeps docs0 (sh_sidecars s) -> keeps docs0 (sh_sidecars s').
Proof.
  intros Ha H. destruct pc; cbn [process] in Ha; repeat case_match; simplify_eq; rewrite ?enqueue_eq; cbn; try exact H; by apply keeps_record.
Qed.

(** *** The start of a run *)

(** The limits are [usize]s and a [Duration]. *)
Definition config_ok (cfg : CrawlConfig) : Prop :=
  0 <= cf_max_pages cfg /\ 0 <= cf_max_depth cfg /\ 0 <= cf_delay cfg /\ 0 <= cf_max_pages_per_host cfg.

Definition queued (s : Shared) : Prop :=
  NoDup (heap_urls (sh_frontier s)) /\ forall u, u ∈ fr_seen (sh_frontier s) <-> u ∈ heap_urls (sh_frontier s).

Definition short (u : Url) : Prop := Z.of_nat (length (chars (as_str (strip_fragment u)))) <= MAX_URL_LEN.
Definition starts_seen (starts : list Url) (s : Shared) : Prop :=
  forall u, u ∈ starts -> short u -> as_str (strip_fragment u) ∈ fr_seen (sh_frontier s).

(** Everything but the queue is as it was made. *)
Definition fresh (cfg : CrawlConfig) (p : Plan) (s : Shared) : Prop :=
  sh_pages s = [] /\ sh_budget s = cf_max_pages cfg /\ sh_inflight s = 0 /\ sh_robots_cache s = ∅ /\
  fr_host_next_ok (sh_frontier s) = ∅ /\ fr_host_pages (sh_frontier s) = ∅ /\ fr_max_url_len (sh_frontier s) = MAX_URL_LEN /\
  sh_sidecars s = pl_sidecars p /\ (forall h, h ∈ pl_resumed p -> h ∈ sh_content_seen s).

Lemma enqueue_fresh (cfg : CrawlConfig) (p : Plan) (u : Url) (d : Z) (s : Shared) : fresh cfg p s -> fresh cfg p (enqueue u d s).
Proof.
  intros H. rewrite enqueue_eq. unfold fresh, push in *. cbn. repeat case_match; exact H.
Qed.

Lemma enqueue_queued (u : Url) (d : Z) (s : Shared) :
  queued s -> queued (enqueue u d s) /\
  (fr_max_url_len (sh_frontier s) = MAX_URL_LEN -> short u -> as_str (strip_fragment u) ∈ fr_seen (sh_frontier (enqueue u d s))) /\
  (fr_seen (sh_frontier s) ⊆ fr_seen (sh_frontier (enqueue u d s))).
Proof.
  intros [Hnd Hs]. rewrite enqueue_eq. unfold queued, short, heap_urls in *. cbn.
  destruct (frontier_push_spec u d (sh_frontier s)) as [[-> [?|?]]|(fg & f' & -> & Hn & Hh & Hsn & _)]; cbn; [split_and!; [done..|lia|done]|by split_and!|].
  rewrite Hh, Hsn, map_app. cbn [map en_item url_of q_url]. split_and!.
  - apply NoDup_app. split_and!; [done| |apply NoDup_singleton]. intros x Hx ->%list_elem_of_singleton. by apply Hn, Hs.
  - intros x. rewrite elem_of_app, list_elem_of_singleton, elem_of_union, elem_of_singleton, Hs. unfold url_of. cbn. tauto.
  - intros _ _. apply elem_of_union. left. by apply elem_of_singleton.
  - apply union_subseteq_r.
Qed.

Lemma resumed_fresh (hs : list bytes) (s : Shared) :
  let s' := foldl (fun s h => with_content h s) s hs in
  (forall h, h ∈ hs \/ h ∈ sh_content_seen s -> h ∈ sh_content_seen s') /\ sh_frontier s' = sh_frontier s /\
  sh_pages s' = sh_pages s /\ sh_budget s' = sh_budget s /\ sh_inflight s' = sh_inflight s /\ sh_robots_cache s' = sh_robots_cache s /\
  sh_sidecars s' = sh_sidecars s.
Proof.
  revert s. induction hs as [|h hs IH]; intros s s'.
  { split_and!; try done. by intros ? [?%elem_of_nil|?]. }
  destruct (IH (with_content h s)) as (H1 & H2). subst s'. cbn [foldl]. split; [|exact H2].
  intros x Hx. apply H1. cbn. rewrite elem_of_cons in Hx. rewrite elem_of_union, elem_of_singleton. tauto.
Qed.

Lemma enqueue_all (cfg : CrawlConfig) (p : Plan) (l : list Url) (s : Shared) :
  0 <= cf_max_depth cfg -> (forall u, u ∈ l -> u ∈ pl_starts p) ->
  fresh cfg p s -> queued s -> shared_items_ok cfg (pl_starts p) s ->
  let s' := foldl (fun s u => enqueue u 0 s) s l in
  fresh cfg p s' /\ queued s' /\ shared_items_ok cfg (pl_starts p) s' /\ starts_seen l s' /\
  fr_seen (sh_frontier s) ⊆ fr_seen (sh_frontier s').
Proof.
  intros Hd. revert s. induction l as [|u l IH]; intros s Hsub Hf Hq Hi; cbn [foldl].
  { split_and!; try done. by intros ? ?%elem_of_nil. }
  destruct (enqueue_queued u 0 s Hq) as (Hq' & Hu & Hseen).
  assert (item_ok cfg (pl_starts p) (MkQueued (strip_fragment u) 0)) as Hitem.
  { split; cbn; [lia|]. exists u. split; [done|]. left. split; [apply Hsub; left|done]. }
  destruct (IH (enqueue u 0 s)) as (H1 & H2 & H3 & H4 & H5); [intros x Hx; apply Hsub; by right|by apply enqueue_fresh|done|by apply enqueue_items|].
  split_and!; [done..| |by trans (fr_seen (sh_frontier (enqueue u 0 s)))].
  intros x [->|Hx]%elem_of_cons Hs; [|by apply H4]. apply H5, Hu; [apply Hf|done].
Qed.

Lemma prepare_ok (cfg : CrawlConfig) (p : Plan) :
  config_ok cfg ->
  fresh cfg p (prepare cfg p) /\ queued (prepare cfg p) /\ shared_items_ok cfg (pl_starts p) (prepare cfg p) /\
  starts_seen (pl_starts p) (prepare cfg p).
Proof.
  intros (_ & Hdepth & _). unfold prepare. set (s0 := foldl _ (with_sidecars _ _) _).
  destruct (resumed_fresh (pl_resumed p) (with_sidecars (pl_sidecars p) (shared_new (cf_max_pages cfg) (pl_seed_hosts p)))) as (H1 & H3 & H4 & H5 & H6 & H7 & H8).
  fold s0 in H1, H3, H4, H5, H6, H7, H8.
  assert (fresh cfg p s0) as Hf by (unfold fresh; rewrite H3, H4, H5, H6, H7, H8; split_and!; try done; intros h Hh; apply H1; by left).
  assert (queued s0) as Hq by (unfold queued, heap_urls; rewrite H3; cbn; split; [constructor|set_solver]).
  assert (shared_items_ok cfg (pl_starts p) s0) as Hi by (unfold shared_items_ok; rewrite H3, H4; cbn; split; constructor).
  destruct (enqueue_all cfg p (pl_starts p) s0 Hdepth (fun _ H => H) Hf Hq Hi) as (? & ? & ? & ? & _). done.
Qed.

(** *** What holds of every reachable world *)

Record good (cfg : CrawlConfig) (p : Plan) (w : CrawlWorld) : Prop := MkGood {
  good_inflight : inflight_ok w;
  good_budget : budget_ok cfg w;
  good_drain : drain_ok w;
  good_urls : urls_ok w;
  good_starts : starts_seen (pl_starts p) (w_shared w);
  good_content : content_ok (pl_resumed p) w;
  good_sidecars : keeps (pl_sidecars p) (sh_sidecars (w_shared w));
  good_items : items_ok cfg (pl_starts p) w;
  good_polite : polite_ok cfg w;
  good_trace : trace_ok cfg w
}.

Lemma starts_seen_step (cfg : CrawlConfig) (starts : list Url) (w w' : CrawlWorld) :
  starts_seen starts (w_shared w) -> step cfg w w' -> starts_seen starts (w_shared w').
Proof.
  intros H [i pc pc' io s' ev Hi Hnow Ha] u Hu Hs. cbn. specialize (H u Hu Hs).
  destruct (process_queue _ _ _ _ _ _ _ Ha) as [[-> _]|(_ & u' & _ & -> & _)]; [done|]. apply elem_of_union. by right.
Qed.

Lemma sidecars_step (cfg : CrawlConfig) (docs0 : gmap string (list SourceRef)) (w w' : CrawlWorld) :
  keeps docs0 (sh_sidecars (w_shared w)) -> step cfg w w' -> keeps docs0 (sh_sidecars (w_shared w')).
Proof. intros H [i pc pc' io s' ev Hi Hnow Ha]. cbn. by eapply process_sidecars. Qed.

Lemma sum_replicate (f : Pc -> Z) (n : nat) (pc : Pc) : f pc = 0 -> list_sum (map f (replicate n pc)) = 0.
Proof. intros H. induction n as [|n IH]; [done|]. cbn. unfold list_sum in IH. lia. Qed.

Lemma concat_replicate {A : Type} (f : Pc -> list A) (n : nat) (pc : Pc) : f pc = [] -> concat (map f (replicate n pc)) = [].
Proof. intros H. induction n as [|n IH]; [done|]. cbn. by rewrite H, IH. Qed.

Lemma good_initial (cfg : CrawlConfig) (p : Plan) : config_ok cfg -> good cfg p (initial cfg p).
Proof.
  intros Hcfg. destruct (prepare_ok cfg p Hcfg) as ((F1 & F2 & F3 & F4 & F5 & F6 & F7 & F9 & F8) & [Q1 Q2] & Hi & Hst).
  destruct Hcfg as (C1 & C2 & C3 & C4). unfold initial. split; cbn.
  - unfold inflight_ok. cbn. by rewrite F3, sum_replicate.
  - unfold budget_ok. cbn. rewrite F1, F2, sum_replicate by done. cbn. lia.
  - intros Hq Hne. cbn in *. destruct (pl_workers p); [done|]. apply Forall_cons in Hq as [[|] _]; discriminate.
  - unfold urls_ok. cbn. rewrite F1, concat_replicate by done. by split_and!.
  - done.
  - exists []. cbn. rewrite F1, concat_replicate by done. split_and!; [done|constructor|done|constructor].
  - rewrite F9. apply shared_keeps_refl.
  - split; [done|]. apply Forall_replicate. split; [by intros ? [=]|done].
  - intros h. cbn. unfold host_pages. cbn. rewrite !sum_replicate, F6, lookup_empty by done. split; [apply SSorted_nil|]. split; [apply Forall_nil_2|]. cbn. lia.
  - split_and!; cbn; [by intros [] ????|by apply Forall_replicate|rewrite F4; by intros ?? [=]].
Qed.

Lemma good_reachable (cfg : CrawlConfig) (p : Plan) (w : CrawlWorld) : config_ok cfg -> reachable cfg p w -> good cfg p w.
Proof.
  intros Hcfg Hr. apply (steps_inv cfg (good cfg p) _ _ Hr); [by apply good_initial|]. intros a b [] Hab. destruct Hcfg as (_ & _ & Hdelay & _).
  split; eauto using inflight_step, budget_step, drain_step, urls_step, starts_seen_step, content_step, sidecars_step, items_step, polite_step, trace_step.
Qed.

(** A schedule: which worker moves next, and what it is answered. *)
Fixpoint run_schedule (cfg : CrawlConfig) (sched : list (nat * Io)) (w : CrawlWorld) : option CrawlWorld :=
  match sched with
  | [] => Some w
  | (i, io) :: rest =>
      pc ← w_workers w !! i;
      if w_now w <=? io_now io then
        '(s', pc', ev) ← process cfg io (w_shared w) pc;
        run_schedule cfg rest (MkCrawlWorld s' (<[i := pc']> (w_workers w)) (io_now io) (w_trace w ++ ev))
      else None
  end.

Lemma steps_cons (cfg : CrawlConfig) (w w' w'' : CrawlWorld) : step cfg w w' -> steps cfg w' w'' -> steps cfg w w''.
Proof. intros H Hs. induction Hs as [|a b c Hs IH Hbc]; [by eapply steps_snoc; [apply steps_refl|]|]. by eapply steps_snoc; [apply IH|]. Qed.

Lemma run_schedule_steps (cfg : CrawlConfig) (sched : list (nat * Io)) (w w' : CrawlWorld) : run_schedule cfg sched w = Some w' -> steps cfg w w'.
Proof.
  revert w. induction sched as [|[i io] rest IH]; intros w; cbn [run_schedule]; [intros [= ->]; apply steps_refl|].
  destruct (w_workers w !! i) as [pc|] eqn:Hi; cbn [mbind option_bind]; [|done].
  destruct (Z.leb_spec (w_now w) (io_now io)) as [Hn|]; [|done].
  destruct (process cfg io (w_shared w) pc) as [[[s' pc'] ev]|] eqn:Ha; cbn [mbind option_bind]; [|done].
  intros E. eapply steps_cons; [|by apply IH]. by econstructor.
Qed.

(** A worker that panicked keeps [inflight] up: no worker returns any more. *)
Lemma panicked_step (cfg : CrawlConfig) (w w' : CrawlWorld) (i j : nat) :
  inflight_ok w -> w_workers w !! i = Some Panicked -> step cfg w w' ->
  w_workers w' !! i = Some Panicked /\ (w_workers w' !! j = Some Returned -> w_workers w !! j = Some Returned).
Proof.
  intros Hf Hi [k pc pc' io s' ev Hk Hnow Ha]. cbn.
  assert (i <> k) as Hik by (intros ->; rewrite Hi in Hk; injection Hk as <-; discriminate).
  split; [by rewrite list_lookup_insert_ne|]. intros Hj. destruct (decide (j = k)) as [->|]; [|by rewrite list_lookup_insert_ne in Hj].
  rewrite list_lookup_insert_eq in Hj by (by eapply lookup_lt_Some). injection Hj as ->. exfalso.
  assert (sh_inflight (w_shared w) = 0) as E0.
  { destruct pc; section_cases Ha; try discriminate. by apply Z.eqb_eq. }
  unfold inflight_ok in Hf. pose proof (sum_insert active _ _ _ Looping Hi) as Hs. cbn [active] in Hs.
  pose proof (sum_nonneg active (<[i := Looping]> (w_workers w)) ltac:(by intros [])). lia.
Qed.
End Crawl.

(** ** Runs *)

Section Runs.
Context `{SK : Sdk, UO : UrlOps}.

(** C14: However the workers interleave and whatever the servers
    answer, a run stores at most [max_pages] pages, no URL twice and no body
    twice (none of a resumed corpus either), and each of them is a start or a
    link that was allowed, at a depth within the limit.  The sidecars of the
    corpus keep every source they listed. *)
Theorem crawl_safe (cfg : CrawlConfig) (p : Plan) (w : CrawlWorld) :
  config_ok cfg -> reachable cfg p w ->
  let pages := sh_pages (w_shared w) in
  Z.of_nat (length pages) <= cf_max_pages cfg /\
  NoDup (map pr_url pages) /\ NoDup (map pr_content_hash pages) /\
  (forall pg h, pg ∈ pages -> h ∈ pl_resumed p -> pr_content_hash pg <> crawl_hex h) /\
  Forall (fun pg => exists q, item_ok cfg (pl_starts p) q /\ pr_url pg = as_str (q_url q) /\ pr_depth pg = q_depth q) pages /\
  keeps (pl_sidecars p) (sh_sidecars (w_shared w)).
Proof.
  intros Hcfg Hr pages. destruct (good_reachable _ _ _ Hcfg Hr) as [_ [B1 B2] _ (U1 & _ & U3) _ (ds & D1 & D2 & _ & D4) Sc [[_ I] _] _ _].
  pose proof (sum_nonneg holding (w_workers w) ltac:(by intros [])).
  apply submseteq_Permutation in U3 as [k Hk]. apply NoDup_app in U1 as [U1 _]. rewrite Hk in U1. apply NoDup_app in U1 as [U1 _].
  apply NoDup_app in U1 as [U1 _]. apply NoDup_app in D2 as [D2 _]. apply Forall_app in D4 as [D4 _]. unfold pages. split_and!; [lia|done| | |done|done].
  - rewrite D1. by apply (NoDup_fmap_2 crawl_hex).
  - intros pg h Hpg Hh E. assert (crawl_hex h ∈ map crawl_hex ds) as Hin by (rewrite <- D1, <- E; by apply (list_elem_of_fmap_2 pr_content_hash)).
    apply list_elem_of_fmap in Hin as (d & Ed & Hd). apply (inj crawl_hex) in Ed as ->. rewrite Forall_forall in D4. by destruct (D4 d Hd).
Qed.


(** When every worker has returned, nothing is left: the queue is
    empty, every URL that was ever queued was taken exactly once, every start
    that fits the length cap was taken, and nothing is in flight. *)
Theorem crawl_drains (cfg : CrawlConfig) (p : Plan) (w : CrawlWorld) :
  config_ok cfg -> reachable cfg p w -> w_workers w <> [] -> Forall (eq Returned) (w_workers w) ->
  fr_heap (sh_frontier (w_shared w)) = [] /\ sh_inflight (w_shared w) = 0 /\
  NoDup (pops (w_trace w)) /\ (forall u, u ∈ fr_seen (sh_frontier (w_shared w)) <-> u ∈ pops (w_trace w)) /\
  (forall u, u ∈ pl_starts p -> Z.of_nat (length (chars (as_str (strip_fragment u)))) <= MAX_URL_LEN ->
     as_str (strip_fragment u) ∈ pops (w_trace w)).
Proof.
  intros Hcfg Hr Hne Hret. destruct (good_reachable _ _ _ Hcfg Hr) as [F _ D (U1 & U2 & _) S _ _ _ _ _].
  assert (fr_heap (sh_frontier (w_shared w)) = []) as Hh.
  { apply D; [|done]. eapply Forall_impl; [exact Hret|]. intros x <-. by right. }
  unfold heap_urls in U1, U2. rewrite Hh in U1, U2. cbn [map] in U1, U2. rewrite app_nil_r in U1. setoid_rewrite app_nil_r in U2.
  split_and!; [done| |done..|].
  - unfold inflight_ok in F. rewrite F. assert (forall ws, Forall (eq Returned) ws -> list_sum (map active ws) = 0) as Hz; [|by apply Hz].
    intros ws Hw. induction Hw as [|? ? <- _ IH]; [done|]. cbn. exact IH.
  - intros u Hu Hs. apply U2. by apply S.
Qed.

(** C36: A page whose scan panics takes its worker down inside
    [process_item]: from then on, whatever the others do and however long
    they run, no worker returns any more. *)
Theorem crawl_stuck_after_panic (cfg : CrawlConfig) (p : Plan) (w w' : CrawlWorld) (i j : nat) :
  config_ok cfg -> reachable cfg p w -> w_workers w !! i = Some Panicked -> steps cfg w w' ->
  w_workers w' !! j = Some Returned -> w_workers w !! j = Some Returned.
Proof.
  intros Hcfg Hr Hi Hs.
  assert (inflight_ok w' /\ w_workers w' !! i = Some Panicked /\ (w_workers w' !! j = Some Returned -> w_workers w !! j = Some Returned)) as (_ & _ & H); [|done].
  apply (steps_inv cfg (fun x => inflight_ok x /\ w_workers x !! i = Some Panicked /\ (w_workers x !! j = Some Returned -> w_workers w !! j = Some Returned)) _ _ Hs).
  - split_and!; [apply (good_inflight _ _ _ (good_reachable _ _ _ Hcfg Hr))|done|done].
  - intros a b (H1 & H2 & H3) Hab. destruct (panicked_step _ _ _ i j H1 H2 Hab) as [? ?]. split_and!; [by eapply inflight_step|done|auto].
Qed.
End Runs.

(** ** A small web *)

Module SmallWeb.

(** URLs are their texts; everything is on one host. *)
#[local] Instance urls : UrlOps := {|
  Url := string; as_str u := u; host_str _ := Some "h"; url_path u := u; scheme _ := "http"; authority _ := "h";
  strip_fragment u := u; url_join _ t := Some (of_chars t); url_parse s := Ok s |}.
#[local] Existing Instance Toy.sdk.

Definition cfg : CrawlConfig := MkCrawlConfig 3 1 10 5 true false None.
Definition plan : Plan := MkPlan ["h"] [] ["/a"] ∅ 2 0.
Definition served (t : Z) (body : bytes) : Io := MkIo t None (Page (MkFetched 200 body None None)) None false None.
Definition at_ (t : Z) : Io := served t (chars "<a href=/b>").
Definition panics (t : Z) : Io := served t (chars "<a href" ++ [byte_of 195; byte_of 169] ++ chars "=x>").
Definition turns (i : nat) (n : nat) (io : Io) : list (nat * Io) := replicate n (i, io).

(** Worker 0 stores [/a] and queues [/b], whose body is the same; worker 1 takes [/b] meanwhile; both return. *)
Definition sched : list (nat * Io) :=
  turns 0 16 (at_ 0) ++ turns 1 4 (at_ 1) ++ turns 0 2 (at_ 2) ++ turns 1 9 (at_ 10) ++ turns 0 2 (at_ 12).
Definition final : CrawlWorld := default (initial cfg plan) (run_schedule cfg sched (initial cfg plan)).

(** Worker 0 is served the page that panics. *)
Definition crash : list (nat * Io) := turns 0 13 (panics 0).
Definition crashed : CrawlWorld := default (initial cfg plan) (run_schedule cfg crash (initial cfg plan)).

Lemma cfg_ok : config_ok cfg.
Proof. unfold config_ok. cbn. lia. Qed.
Lemma final_reachable : reachable cfg plan final.
Proof. apply (run_schedule_steps cfg sched). vm_compute. reflexivity. Qed.
Lemma crashed_reachable : reachable cfg plan crashed.
Proof. apply (run_schedule_steps cfg crash). vm_compute. reflexivity. Qed.

Lemma crawl_safe_witness : Z.of_nat (length (sh_pages (w_shared final))) <= 3 /\ length (sh_pages (w_shared final)) = 1%nat.
Proof. split; [apply (crawl_safe cfg plan final cfg_ok final_reachable)|vm_compute; reflexivity]. Defined.


Lemma crawl_drains_witness : fr_heap (sh_frontier (w_shared final)) = [] /\ pops (w_trace final) = ["/a"; "/b"].
Proof.
  split; [|vm_compute; reflexivity]. apply (crawl_drains cfg plan final cfg_ok final_reachable).
  - vm_compute. discriminate.
  - vm_compute. repeat constructor.
Defined.

Lemma crawl_stuck_after_panic_witness :
  w_workers crashed !! 0%nat = Some Panicked /\ forall w', steps cfg crashed w' -> w_workers w' !! 1%nat <> Some Returned.
Proof.
  split; [vm_compute; reflexivity|]. intros w' Hs E.
  assert (w_workers crashed !! 1%nat = Some Returned) as F by
    (apply (crawl_stuck_after_panic cfg plan crashed w' 0 1 cfg_ok crashed_reachable); [vm_compute; reflexivity|exact Hs|exact E]).
  vm_compute in F. discriminate.
Defined.
End SmallWeb.
