(* ===== verification/Secrets.v ===== *)
(** * Threshold secrets: vault file, shares, expiry
    (origin-secrets/src/crypto.rs, vault_handle.rs, share.rs, audit.rs,
    observability.rs, commands/share_io.rs)

    A path is the list of its components; the disk is a map from paths to
    contents, and a counter numbers the effects: whether the [n]-th one
    fails, what it draws and what the clock shows are parameters, so a
    theorem that quantifies over them covers every fault.  [Panic] is an
    unwinding panic.  Argon2id, XChaCha20-Poly1305, the Reed-Solomon codec,
    the hybrid signatures and the JSON of the documents are parameters.
    [Vault] stands for [EncryptedVault] too: the two have the same fields.
    Wiping of memory and file permissions have no counterpart. *)

From Stdlib Require Import Ascii String.
From S2P Require Import Prelude RustStr Bytes RustText Sdk Envelope StateErr ChanKeys NetAuth Delegation.

Abbreviation spath := (list string).

(** ** Errors ([error.rs]) *)

Inductive SecretsError :=
| VaultNotFound (p : spath)
| VaultAlreadyExists (p : spath)
| VaultCorrupted (s : string)
| VaultDecryptionFailed (s : string)
| VaultEncryptionFailed (s : string)
| KeyNotFound (key_id : string)
| KeyAlreadyExists (key_id : string)
| ShareNotFound (share_number : Z) (p : spath)
| ShareRevoked (share_number : Z)
| ShareExpired (share_number : Z) (expires_at : string)
| InsufficientShares (needed provided : Z)
| ShareVerificationFailed (share_number : Z) (details : string)
| ShareCorrupted (share_number : Z) (p : spath)
| FileAlreadyExists (p : spath)
| StdoutSecretRefused
| InvalidThreshold (threshold total_shares : Z)
| SignatureVerificationFailed (s : string)
| SignatureGenerationFailed (s : string)
| ComplianceExportFailed (framework details : string)
| AuditLogNotFound
| SecIoError (s : string)
| SecCryptoError (s : string)
| PassphraseTooWeak (min_length : Z)
| PassphraseRequired
| PassphraseMismatch
| NotImplemented (s : string).

(** Severity, exit code and the stable code of an error. *)
Inductive Severity := SevInfo | SevWarn | SevError | SevCritical.

Definition secrets_exit_code (e : SecretsError) : Z :=
  match e with
  | PassphraseRequired | PassphraseTooWeak _ | PassphraseMismatch | VaultDecryptionFailed _ => 2
  | VaultNotFound _ | VaultAlreadyExists _ | ShareNotFound _ _ | ShareRevoked _ | ShareExpired _ _ | KeyNotFound _ | KeyAlreadyExists _
  | AuditLogNotFound | InsufficientShares _ _ | InvalidThreshold _ _ | FileAlreadyExists _ => 3
  | _ => 1
  end.

Definition secrets_code (e : SecretsError) : string :=
  match e with
  | VaultNotFound _ => "VAULT_NOT_FOUND"
  | VaultAlreadyExists _ => "VAULT_ALREADY_EXISTS"
  | VaultCorrupted _ => "VAULT_CORRUPTED"
  | VaultDecryptionFailed _ => "VAULT_DECRYPTION_FAILED"
  | VaultEncryptionFailed _ => "VAULT_ENCRYPTION_FAILED"
  | KeyNotFound _ => "KEY_NOT_FOUND"
  | KeyAlreadyExists _ => "KEY_ALREADY_EXISTS"
  | ShareNotFound _ _ => "SHARE_NOT_FOUND"
  | ShareRevoked _ => "SHARE_REVOKED"
  | ShareExpired _ _ => "SHARE_EXPIRED"
  | InsufficientShares _ _ => "INSUFFICIENT_SHARES"
  | ShareVerificationFailed _ _ => "SHARE_VERIFICATION_FAILED"
  | ShareCorrupted _ _ => "SHARE_CORRUPTED"
  | FileAlreadyExists _ => "FILE_ALREADY_EXISTS"
  | StdoutSecretRefused => "STDOUT_SECRET_REFUSED"
  | InvalidThreshold _ _ => "INVALID_THRESHOLD"
  | SignatureVerificationFailed _ => "SIGNATURE_VERIFICATION_FAILED"
  | SignatureGenerationFailed _ => "SIGNATURE_GENERATION_FAILED"
  | ComplianceExportFailed _ _ => "COMPLIANCE_EXPORT_FAILED"
  | AuditLogNotFound => "AUDIT_LOG_NOT_FOUND"
  | SecIoError _ => "IO_ERROR"
  | SecCryptoError _ => "CRYPTO_ERROR"
  | PassphraseTooWeak _ => "PASSPHRASE_TOO_WEAK"
  | PassphraseRequired => "PASSPHRASE_REQUIRED"
  | PassphraseMismatch => "PASSPHRASE_MISMATCH"
  | NotImplemented _ => "NOT_IMPLEMENTED"
  end.

Definition severity (e : SecretsError) : Severity :=
  match e with
  | PassphraseRequired | PassphraseTooWeak _ | PassphraseMismatch => SevWarn
  | VaultNotFound _ | VaultAlreadyExists _ | ShareNotFound _ _ | KeyNotFound _ | KeyAlreadyExists _ | AuditLogNotFound
  | InsufficientShares _ _ | InvalidThreshold _ _ | FileAlreadyExists _ | StdoutSecretRefused => SevWarn
  | VaultCorrupted _ | ShareCorrupted _ _ | ShareVerificationFailed _ _ | ShareRevoked _ | ShareExpired _ _
  | SignatureVerificationFailed _ => SevCritical
  | VaultDecryptionFailed _ | VaultEncryptionFailed _ | SecCryptoError _ | SecIoError _ => SevError
  | ComplianceExportFailed _ _ | SignatureGenerationFailed _ | NotImplemented _ => SevError
  end.

(** A command stops with an error or a panic. *)
Inductive Stop := Raise (e : SecretsError) | Panic.

(** ** Data ([share.rs], [audit.rs], [crypto.rs]) *)

Record HybridSignature := MkHybrid { hs_ed25519 : bytes; hs_falcon1024 : bytes }.
Record ShareVerifier := MkVerifier { sv_ed25519 : bytes; sv_falcon1024 : bytes }.

Record Share := MkShare {
  sh_version : Z;
  sh_key_id : string;
  sh_share_number : Z;
  sh_threshold : Z;
  sh_total_shares : Z;
  sh_share_data : bytes;
  sh_fingerprint : string;
  sh_signature : HybridSignature;
  sh_created_at : string;
  sh_recipient : option string;
  sh_expires_at : option string;
  sh_verifier : option ShareVerifier
}.

Record EncryptedShare := MkEncShare { es_version : Z; es_nonce : bytes; es_ciphertext : bytes }.

Inductive VerifyTarget := TargetVault | TargetShare (s : string) | TargetRecoveryLog (s : string).
Inductive ComplianceFormat := SOC2 | PciDss (version : string) | Hipaa (section : string).

Inductive Operation :=
| OpInit
| OpShard (threshold total_shares : Z)
| OpExportShare (share_number : Z) (recipient : string)
| OpRecover (shares_used : list string)
| OpRotatePassphrase (from_tier to_tier : string)
| OpRevoke (share_number : Z)
| OpVerify (target : VerifyTarget)
| OpAuditExport (format : ComplianceFormat).

Inductive OperationDetails := Success (message : string) | Failure (error : string).

Record AuditEntry := MkAuditEntry {
  ae_entry_id : string;
  ae_operation : Operation;
  ae_key_id : string;
  ae_timestamp : string;
  ae_operator : string;
  ae_details : OperationDetails;
  ae_signature : HybridSignature
}.

Record VaultData := MkVaultData {
  vd_master_seed : bytes;
  vd_keys : gmap string bytes;
  vd_audit_log : list AuditEntry;
  vd_revoked_shares : gset Z
}.

Definition vault_data_new : VaultData := MkVaultData (replicate 32 (byte_of 0)) ∅ [] ∅.

(** The vault file, and [EncryptedVault]. *)
Record Vault := MkVault {
  vt_version : Z;
  vt_created_at : string;
  vt_tier : MemoryTier;
  vt_fingerprint : string;
  vt_salt : bytes;
  vt_nonce : bytes;
  vt_ciphertext : bytes
}.

#[global] Instance hybrid_signature_eq_dec : EqDecision HybridSignature.
Proof. solve_decision. Defined.
#[global] Instance share_verifier_eq_dec : EqDecision ShareVerifier.
Proof. solve_decision. Defined.
#[global] Instance share_eq_dec : EqDecision Share.
Proof. solve_decision. Defined.
#[global] Instance encrypted_share_eq_dec : EqDecision EncryptedShare.
Proof. solve_decision. Defined.
#[global] Instance verify_target_eq_dec : EqDecision VerifyTarget.
Proof. solve_decision. Defined.
#[global] Instance compliance_format_eq_dec : EqDecision ComplianceFormat.
Proof. solve_decision. Defined.
#[global] Instance operation_eq_dec : EqDecision Operation.
Proof. solve_decision. Defined.
#[global] Instance operation_details_eq_dec : EqDecision OperationDetails.
Proof. solve_decision. Defined.
#[global] Instance audit_entry_eq_dec : EqDecision AuditEntry.
Proof. solve_decision. Defined.
#[global] Instance vault_data_eq_dec : EqDecision VaultData.
Proof. solve_decision. Defined.
#[global] Instance memory_tier_eq_dec : EqDecision MemoryTier.
Proof. solve_decision. Defined.
#[global] Instance vault_eq_dec : EqDecision Vault.
Proof. solve_decision. Defined.

Definition tier_label (t : MemoryTier) : string := match t with Nano => "nano" | Standard => "standard" | Sovereign => "sovereign" end.

(** [tier_from_str] of origin-common.  Lowering changes no character outside
    ASCII into a letter of these words, so the ASCII one is enough here. *)
Definition tier_of_str (s : string) : result string MemoryTier :=
  let l := of_chars (map lower (chars s)) in
  if String.eqb l "nano" then Ok Nano
  else if String.eqb l "standard" || String.eqb l "std" then Ok Standard
  else if String.eqb l "sovereign" || String.eqb l "sov" then Ok Sovereign
  else Err ("unknown tier '" +:+ s +:+ "' (expected: nano, standard, sovereign)").

(** ** What is outside the repository *)

Class SecretsOps := {
  (** [argon2_builder(tier, 32).derive(passphrase, salt)]. *)
  argon2_derive : MemoryTier -> bytes -> bytes -> result string bytes;
  (** [ReedSolomonCodec::new(data, parity)] with [encode_shards], [decode_shards]. *)
  rs_encode_shards : nat -> nat -> bytes -> result string (list bytes);
  rs_decode_shards : nat -> nat -> list (option bytes) -> nat -> result string bytes;
  (** The hasher of the standard library. *)
  default_hasher : bytes -> string;
  (** The documents as JSON. *)
  vault_to_string : Vault -> result string bytes;
  vault_from_str : bytes -> result string Vault;
  data_to_vec : VaultData -> result string bytes;
  data_from_slice : bytes -> result string VaultData;
  share_to_string : Share -> result string bytes;
  share_from_slice : bytes -> result string Share;
  encshare_to_string : EncryptedShare -> result string bytes;
  encshare_from_str : bytes -> result string EncryptedShare
}.

(** The answers of the operating system, by effect: an I/O error, random
    bytes of a length, the seconds since the epoch. *)
Class SecretsIo := {
  s_fault : nat -> option string;
  s_draw : nat -> nat -> result string bytes;
  s_clock : nat -> Z
}.

(** ** The disk *)

Record Disk := MkDisk { dk_files : gmap spath bytes; dk_tick : nat }.

Abbreviation Cmd := (SE Disk Stop).

Definition raise {A : Type} (e : SecretsError) : Cmd A := throw (Raise e).
Definition panic {A : Type} : Cmd A := throw Panic.
Definition lift_err {E A : Type} (f : E -> SecretsError) (r : result E A) : Cmd A := lift (map_err (fun e => Raise (f e)) r).
Definition set_files (f : gmap spath bytes -> gmap spath bytes) : Cmd unit := modify (fun d => MkDisk (f (dk_files d)) (dk_tick d)).

Section Effects.
Context `{IO : SecretsIo}.

Definition next_tick : Cmd nat := fun d => (Ok (dk_tick d), MkDisk (dk_files d) (S (dk_tick d))).

Definition io (what : string) : Cmd unit :=
  t ← next_tick; match s_fault t with Some e => raise (SecIoError (what +:+ ": " +:+ e)) | None => mret tt end.

(** An I/O error without a prefix. *)
Definition io_err : Cmd unit := t ← next_tick; match s_fault t with Some e => raise (SecIoError e) | None => mret tt end.

Definition random_array (n : nat) : Cmd bytes := t ← next_tick; lift_err SecCryptoError (s_draw t n).
Definition clock_secs : Cmd Z := t ← next_tick; mret (s_clock t).
Definition path_exists (p : spath) : Cmd bool := gets (fun d => bool_decide (is_Some (dk_files d !! p))).

(** [read_to_string]: the text, or nothing when it cannot be read. *)
Definition read_to_string (p : spath) : Cmd (option bytes) :=
  t ← next_tick;
  gets (fun d => match s_fault t, dk_files d !! p with None, Some b => if utf8_valid b then Some b else None | _, _ => None end).

(** ** [atomic_write] ([vault_handle.rs]) *)

Definition parent (p : spath) : option spath := match p with [] => None | _ => Some (removelast p) end.
Definition display (p : spath) : string := String.concat "/" p.
Definition base_name (p : spath) : option string := last p.

(** The process id is a name chosen once. *)
Definition temp_name (name : string) : string := "." +:+ name +:+ ".tmp-pid".
Definition temp_path (p : spath) (name : string) : spath := removelast p ++ [temp_name name].

Definition write_through (temp path : spath) (contents : bytes) : Cmd unit :=
  io "create temporary file";;
  taken ← path_exists temp;
  if (taken : bool) then raise (SecIoError "create temporary file: file exists") else
  set_files (insert temp []);;
  io "restrict temporary file permissions";;
  io "write temporary file";;
  set_files (insert temp contents);;
  io "sync temporary file";;
  io ("replace " +:+ display path);;
  set_files (fun fs => <[path := contents]> (delete temp fs)).

(** Removing the temporary file may itself fail, silently. *)
Definition remove_file (p : spath) : Cmd unit :=
  t ← next_tick; match s_fault t with Some _ => mret tt | None => set_files (delete p) end.

Definition or_remove (temp : spath) (m : Cmd unit) : Cmd unit :=
  fun d => match m d with
           | (Ok tt, d') => (Ok tt, d')
           | (Err e, d') => (Err e, snd (remove_file temp d'))
           end.

Definition atomic_write (path : spath) (contents : bytes) : Cmd unit :=
  io "create parent directory";;
  match base_name path with
  | None => raise (SecIoError ("path has no file name: " +:+ display path))
  | Some name => or_remove (temp_path path name) (write_through (temp_path path name) path contents)
  end.
End Effects.

(** ** Expiry times ([share_io.rs]) *)

Definition MONTH_DAYS : list Z := [0; 31; 59; 90; 120; 151; 181; 212; 243; 273; 304; 334].

(** [split(['-', ':', '+'])] after [T] became [-]; [Some (Err)] is a bad field, [None] the panic on the month table. *)
Definition sep (a : ascii) : bool := Ascii.eqb a "-"%char || Ascii.eqb a colon || Ascii.eqb a "+"%char || Ascii.eqb a "T"%char.

Fixpoint split_seps (l : bytes) : list bytes :=
  match l with
  | [] => [[]]
  | a :: l' => if sep a then [] :: split_seps l' else match split_seps l' with h :: t => (a :: h) :: t | [] => [[a]] end
  end.

Definition parse_i64 (what : string) (l : bytes) : result SecretsError Z :=
  match parse_unsigned i64_max l with Some n => Ok n | None => Err (SecCryptoError ("bad " +:+ what)) end.

Definition expiry_secs (y mo d h mi s : Z) : option Z :=
  let days0 := wrap_i64 (wrap_i64 (wrap_i64 (y - 1970) * 365) + Z.quot (wrap_i64 (y - 1969)) 4) in
  before ← (if 1 <=? mo then MONTH_DAYS !! Z.to_nat (mo - 1) else None);
  let days1 := wrap_i64 (days0 + before) in
  let leap := (Z.rem y 4 =? 0) && negb (Z.rem y 100 =? 0) || (Z.rem y 400 =? 0) in
  let days2 := if (2 <? mo) && leap then wrap_i64 (days1 + 1) else days1 in
  let days := wrap_i64 (days2 + (d - 1)) in
  Some (wrap_i64 (wrap_i64 (wrap_i64 (days * 86400) + wrap_i64 (h * 3600)) + wrap_i64 (mi * 60) + s)).

Definition chrono_parse (t : string) : option (result SecretsError Z) :=
  match split_seps (chars (trim_end_matches "Z"%char t)) with
  | py :: pmo :: pd :: ph :: pmi :: ps :: _ =>
      match (y ← parse_i64 "year" py; mo ← parse_i64 "month" pmo; d ← parse_i64 "day" pd; h ← parse_i64 "hour" ph;
             mi ← parse_i64 "minute" pmi; s ← parse_i64 "second" ps; Ok (y, mo, d, h, mi, s)) with
      | Ok (y, mo, d, h, mi, s) => v ← expiry_secs y mo d h mi s; Some (Ok v)
      | Err e => Some (Err e)
      end
  | _ => Some (Err (SecCryptoError "bad expiry format"))
  end.

(** ** Timestamps ([observability.rs]) *)

Definition is_leap (y : Z) : bool := (y mod 4 =? 0) && negb (y mod 100 =? 0) || (y mod 400 =? 0).

Fixpoint year_loop (fuel : nat) (y d : Z) : Z * Z :=
  let len := if is_leap y then 366 else 365 in
  match fuel with
  | O => (y, d)
  | S fuel' => if d <? len then (y, d) else year_loop fuel' (y + 1) (d - len)
  end.

Fixpoint month_loop (leap : bool) (i : Z) (lens : list Z) (rem : Z) : Z * Z :=
  match lens with
  | [] => (1, rem)
  | md :: rest =>
      let dim := if (i =? 1) && leap then 29 else md in
      if rem <? dim then (i + 1, rem) else month_loop leap (i + 1) rest (rem - dim)
  end.

Definition epoch_to_ymd_hms (secs : Z) : Z * Z * Z * Z * Z * Z :=
  let days := secs / 86400 in
  let rem := secs mod 86400 in
  let '(y, d) := year_loop (S (Z.to_nat (days / 365))) 1970 days in
  let '(mo, rem_d) := month_loop (is_leap y) 0 [31; 28; 31; 30; 31; 30; 31; 31; 30; 31; 30; 31] d in
  (y, mo, rem_d + 1, rem / 3600, rem mod 3600 / 60, rem mod 60).

(** [{:0w$}]. *)
Definition pad_zeros (w : nat) (n : Z) : string := of_chars (replicate (w - length (show_chars n)) "0"%char ++ show_chars n).

Definition chrono_timestamp (secs : Z) : string :=
  let '(y, mo, d, h, mi, s) := epoch_to_ymd_hms secs in
  pad_zeros 4 y +:+ "-" +:+ pad_zeros 2 mo +:+ "-" +:+ pad_zeros 2 d +:+ "T" +:+ pad_zeros 2 h +:+ ":" +:+ pad_zeros 2 mi +:+ ":" +:+ pad_zeros 2 s +:+ "Z".

(** ** Keys, vaults and shares ([crypto.rs]) *)

Section Crypto.
Context `{SK : Sdk, CC : ChanCrypto, NC : NetCryptoOps} {DS : DelegSign} {SO : SecretsOps} {IO : SecretsIo}.

Definition timestamp_now : Cmd string := secs ← clock_secs; mret (chrono_timestamp secs).

Definition derive_vault_key (passphrase salt : bytes) (t : MemoryTier) : Cmd bytes :=
  derived ← lift_err (fun e => SecCryptoError ("Failed to derive key: " +:+ e)) (argon2_derive t passphrase salt);
  if bool_decide (length derived = 32%nat) then mret derived else raise (SecCryptoError "Invalid key length from Argon2").

Definition vault_fingerprint (salt nonce : bytes) : string := hex_encode (take 4 (blake3 (salt ++ nonce))).

Definition encrypt_vault_data (data : VaultData) (key salt nonce : bytes) (t : MemoryTier) : Cmd Vault :=
  plaintext ← lift_err (fun e => SecCryptoError ("Failed to serialize vault data: " +:+ e)) (data_to_vec data);
  ciphertext ← lift_err (fun e => SecCryptoError ("Failed to encrypt vault: " +:+ e)) (xchacha_encrypt key nonce plaintext);
  secs ← clock_secs;
  mret (MkVault 1 (show_Z secs) t (vault_fingerprint salt nonce) salt nonce ciphertext).

Definition decrypt_vault_data (v : Vault) (key : bytes) : Cmd VaultData :=
  plaintext ← lift_err (fun e => VaultDecryptionFailed ("Failed to decrypt vault: " +:+ e)) (xchacha_decrypt key (vt_nonce v) (vt_ciphertext v));
  lift_err (fun e => VaultCorrupted ("Failed to deserialize vault: " +:+ e)) (data_from_slice plaintext).

Definition derive_share_enc_key (seed : bytes) (share_number : Z) : bytes :=
  blake3 (seed ++ chars "origin-secrets/share-enc/v1" ++ [byte_of share_number]).

Definition encrypt_share (share : Share) (seed : bytes) : Cmd EncryptedShare :=
  let key := derive_share_enc_key seed (sh_share_number share) in
  nonce ← random_array 24;
  plaintext ← lift_err (fun e => SecCryptoError ("serialize share: " +:+ e)) (share_to_string share);
  ciphertext ← lift_err (fun e => SecCryptoError ("encrypt share: " +:+ e)) (xchacha_encrypt key nonce plaintext);
  mret (MkEncShare 1 nonce ciphertext).

Definition decrypt_share (enc : EncryptedShare) (seed : bytes) (share_number : Z) : Cmd Share :=
  let key := derive_share_enc_key seed share_number in
  plaintext ← lift_err (fun _ => ShareCorrupted share_number ["<encrypted share>"]) (xchacha_decrypt key (es_nonce enc) (es_ciphertext enc));
  lift_err (fun e => ShareCorrupted share_number ["deserialize: " +:+ e]) (share_from_slice plaintext).

(** ** Signatures ([share.rs]) *)

Definition invalid_parameter (m : string) : string :=
  "InvalidParameter(" +:+ of_chars ([byte_of 34] ++ chars m ++ [byte_of 34]) +:+ ")".

Definition from_sdk (sig : EdSig * FalconSig) : HybridSignature := MkHybrid (ed_to_bytes sig.1) (falcon_as_bytes sig.2).

Definition to_sdk (s : HybridSignature) : result string (EdSig * FalconSig) :=
  if bool_decide (length (hs_ed25519 s) = 64%nat) then
    ed ← ed_from_slice (hs_ed25519 s);
    fa ← falcon_from_bytes (hs_falcon1024 s);
    Ok (ed, fa)
  else Err (invalid_parameter "bad ed25519 sig length").

Definition verifier_ed25519_pk (v : ShareVerifier) : result string bytes :=
  if bool_decide (length (sv_ed25519 v) = 32%nat) then
    ed_pk_check (sv_ed25519 v) ≫= (fun _ => Ok (sv_ed25519 v))
  else Err (invalid_parameter "bad ed25519 pubkey length").
Definition verifier_falcon_pk (v : ShareVerifier) : result string bytes :=
  falcon_pk_check (sv_falcon1024 v) ≫= (fun _ => Ok (sv_falcon1024 v)).

(** ** The vault handle ([vault_handle.rs]) *)

Record VaultHandle := MkVaultHandle {
  hd_path : spath;
  hd_data : VaultData;
  hd_tier : MemoryTier;
  hd_salt : bytes;
  hd_key : bytes;
  hd_original_nonce : bytes;
  hd_version : Z;
  hd_created_at : string;
  hd_fingerprint : string
}.

Definition vault_open (path : spath) (passphrase : string) : Cmd VaultHandle :=
  raw ← read_to_string path;
  match raw with
  | None => raise (VaultNotFound path)
  | Some raw =>
      vault ← lift_err VaultCorrupted (vault_from_str raw);
      key ← derive_vault_key (chars passphrase) (vt_salt vault) (vt_tier vault);
      data ← decrypt_vault_data vault key;
      mret (MkVaultHandle path data (vt_tier vault) (vt_salt vault) key (vt_nonce vault) (vt_version vault) (vt_created_at vault)
              (vt_fingerprint vault))
  end.

Definition with_data (data : VaultData) (h : VaultHandle) : VaultHandle :=
  MkVaultHandle (hd_path h) data (hd_tier h) (hd_salt h) (hd_key h) (hd_original_nonce h) (hd_version h) (hd_created_at h) (hd_fingerprint h).

Definition vault_save (h : VaultHandle) : Cmd VaultHandle :=
  fresh_nonce ← random_array 24;
  vault ← encrypt_vault_data (hd_data h) (hd_key h) (hd_salt h) fresh_nonce (hd_tier h);
  json ← lift_err (fun e => SecIoError ("serialize vault: " +:+ e)) (vault_to_string vault);
  atomic_write (hd_path h) json;;
  mret (MkVaultHandle (hd_path h) (hd_data h) (hd_tier h) (hd_salt h) (hd_key h) fresh_nonce (hd_version h) (hd_created_at h) (hd_fingerprint h)).

Definition vault_rotate (new_passphrase : string) (new_tier : MemoryTier) (h : VaultHandle) : Cmd VaultHandle :=
  new_salt ← random_array 16;
  new_nonce ← random_array 24;
  new_key ← derive_vault_key (chars new_passphrase) new_salt new_tier;
  vault ← encrypt_vault_data (hd_data h) new_key new_salt new_nonce new_tier;
  json ← lift_err (fun e => SecIoError ("serialize vault: " +:+ e)) (vault_to_string vault);
  atomic_write (hd_path h) json;;
  mret (MkVaultHandle (hd_path h) (hd_data h) new_tier new_salt new_key new_nonce (hd_version h) (hd_created_at h) (vt_fingerprint vault)).

(** [audit_log.push(entry)]. *)
Definition push_audit (e : AuditEntry) (d : VaultData) : VaultData :=
  MkVaultData (vd_master_seed d) (vd_keys d) (vd_audit_log d ++ [e]) (vd_revoked_shares d).

(** ** Reading shares ([share_io.rs]) *)

(** The decimal digits of the file stem. *)
Definition enc_share_number (path : spath) : Z :=
  let name := chars (default "" (base_name path)) in
  let stem := match rsplit_once "."%char name with Some (stem, _) => if bool_decide (stem = []) then name else stem | None => name end in
  default 0 (parse_digits 255 (List.filter is_digit stem)).

Definition read_share_file (path : spath) (vault : option spath) (passphrase : string) : Cmd Share :=
  raw ← read_to_string path;
  match raw with
  | None => raise (ShareNotFound 0 path)
  | Some raw =>
      handle ← match vault with Some vp => h ← vault_open vp passphrase; mret (Some h) | None => mret None end;
      share ← match encshare_from_str raw with
              | Ok enc =>
                  match handle with
                  | Some h => decrypt_share enc (vd_master_seed (hd_data h)) (enc_share_number path)
                  | None => raise (ShareCorrupted 0 path)
                  end
              | Err _ => lift_err (fun _ => ShareCorrupted 0 path) (share_from_slice raw)
              end;
      match sh_expires_at share with
      | Some exp =>
          match chrono_parse exp with
          | None => panic
          | Some (Ok exp_t) => now ← clock_secs; if exp_t <=? now then raise (ShareExpired (sh_share_number share) exp) else mret tt
          | Some (Err _) => mret tt
          end
      | None => mret tt
      end;;
      match handle with
      | Some h => if bool_decide (sh_share_number share ∈ vd_revoked_shares (hd_data h)) then raise (ShareRevoked (sh_share_number share)) else mret tt
      | None => mret tt
      end;;
      mret share
  end.

(** What a share signs: its data, followed by the recipient if it has one. *)
Definition signed_message (share : Share) : bytes :=
  sh_share_data share ++ match sh_recipient share with Some r => chars r | None => [] end.

Definition verify_share_offline (share : Share) : result SecretsError unit :=
  match sh_verifier share with
  | None => Err (SecCryptoError "share has no embedded verifier; supply the vault for crypto verification")
  | Some verifier =>
      ed_pk ← map_err (fun e => SignatureVerificationFailed ("bad ed25519 verifier key: " +:+ e)) (verifier_ed25519_pk verifier);
      falcon_pk ← map_err (fun e => SignatureVerificationFailed ("bad falcon verifier key: " +:+ e)) (verifier_falcon_pk verifier);
      sig ← map_err SignatureVerificationFailed (to_sdk (sh_signature share));
      if hybrid_pair_verify ed_pk falcon_pk (signed_message share) sig.1 sig.2 then Ok tt
      else Err (ShareVerificationFailed (sh_share_number share) "hybrid signature invalid (offline)")
  end.

End Crypto.
