(* ===== verification/SecretsCmd.v ===== *)
(** * The commands of the threshold vault (origin-secrets/src/commands/)

    A command runs on the disk of [Secrets.v] and returns what the function
    returns, or the error or panic it stops with.  Printing is not modelled
    and passphrases are arguments; where the [--json] flag changes what is
    checked it is an argument too. *)

From Stdlib Require Import Ascii String.
From S2P Require Import Prelude RustStr Bytes RustText Sdk Envelope StateErr ChanKeys NetAuth Delegation Secrets.

Definition SHARE_SIGNING_DOMAIN : string := "origin-secrets/share/v1".
Definition AUDIT_SIGNING_DOMAIN : string := "origin-secrets/audit/v1".
Definition OPERATOR : string := "origin-secrets-cli".
Definition MIN_PASSPHRASE_LENGTH : Z := 12.

Record ShardArgs := MkShardArgs { sa_key : string; sa_threshold : Z; sa_shares : Z; sa_force : bool; sa_expires : option string }.
Record ExportArgs := MkExportArgs { xa_share : Z; xa_out : spath; xa_recipient : option string; xa_force : bool }.
Record RecoverArgs := MkRecoverArgs {
  ra_shares : list spath;
  ra_out : option spath;
  ra_vault_out : option spath;
  ra_source_vault : option spath;
  ra_tier : string;
  ra_force : bool;
  ra_preflight : bool
}.
Record VerifyArgs := MkVerifyArgs { va_vault_path : option spath; va_share : option spath; va_recovery_log : bool }.
Record AuditArgs := MkAuditArgs {
  aa_show_failures : bool;
  aa_show_recovery_log : bool;
  aa_show_all_logs : bool;
  aa_filter_key : option string;
  aa_filter_user : option string;
  aa_filter_start : option string;
  aa_filter_end : option string;
  aa_export_soc2 : option spath;
  aa_export_pcidss : option spath;
  aa_export_hipaa : option spath;
  aa_force : bool
}.
Record HandoffArgs := MkHandoffArgs { ha_share : spath; ha_out : spath; ha_recipient : option string; ha_force : bool }.

Record HandoffManifest := MkHandoff {
  hm_version : Z;
  hm_kind : string;
  hm_status : string;
  hm_share_number : Z;
  hm_threshold : Z;
  hm_total_shares : Z;
  hm_key_id : string;
  hm_fingerprint : string;
  hm_created_at : string;
  hm_recipient : option string;
  hm_expires_at : option string;
  hm_verifier_embedded : bool;
  hm_verification : string;
  hm_source_vault_fingerprint : option string
}.

(** The JSON of evidence files and manifests. *)
Class SecretsDocs := {
  evidence_to_string : ComplianceFormat -> list AuditEntry -> result string bytes;
  manifest_to_string : HandoffManifest -> result string bytes
}.

(** The order of strings. *)
Definition label_le (a b : string) : Prop := String.leb a b = true.
#[global] Instance label_le_dec (a b : string) : Decision (label_le a b).
Proof. unfold label_le. apply _. Defined.

Record ShareInfo := MkShareInfo {
  si_file : string;
  si_share_number : Z;
  si_threshold : Z;
  si_total_shares : Z;
  si_label : string;
  si_recipient : option string;
  si_expires_at : option string;
  si_revoked : bool
}.

Definition number_le (a b : ShareInfo) : Prop := si_share_number a <= si_share_number b.
#[global] Instance number_le_dec (a b : ShareInfo) : Decision (number_le a b).
Proof. unfold number_le. apply _. Defined.

(** ** Loops *)

Fixpoint for_each {A B : Type} (f : A -> Cmd B) (l : list A) : Cmd (list B) :=
  match l with [] => mret [] | a :: l' => b ← f a; bs ← for_each f l'; mret (b :: bs) end.

(** [if let Ok(x) = ...]: an error is dropped, a panic is not. *)
Definition attempt {A : Type} (m : Cmd A) : Cmd (option A) :=
  fun d => match m d with
           | (Ok a, d') => (Ok (Some a), d')
           | (Err (Raise _), d') => (Ok None, d')
           | (Err Panic, d') => (Err Panic, d')
           end.

Definition ensure (b : bool) (e : SecretsError) : Cmd unit := if b then mret tt else raise e.

Definition grandparent (p : spath) : option spath := match parent p with Some d => parent d | None => None end.

(** The files in a directory. *)
Definition in_dir (dir : spath) (p : spath) : option string :=
  match base_name p with Some name => if bool_decide (removelast p = dir) then Some name else None | None => None end.
Definition dir_names (dir : spath) (fs : gmap spath bytes) : list string := omap (in_dir dir) (map fst (map_to_list fs)).

Definition vault_dir (vault_path : spath) : spath := default ["."] (parent vault_path).
Definition shares_dir (vault_path : spath) : spath := vault_dir vault_path ++ ["shares"].
Definition share_name (n : Z) : string := "share_" +:+ pad_zeros 3 n +:+ ".json".
Definition share_path (vault_path : spath) (n : Z) : spath := shares_dir vault_path ++ [share_name n].

Section Commands.
Context `{SK : Sdk, CC : ChanCrypto, NC : NetCryptoOps} {DS : DelegSign} {SO : SecretsOps} {SD : SecretsDocs} {IO : SecretsIo}.

Definition audit_signer (seed : bytes) : Cmd KeyBundle :=
  lift_err SignatureGenerationFailed (bundle_from_seed seed AUDIT_SIGNING_DOMAIN).
Definition share_signer (seed : bytes) : Cmd KeyBundle :=
  lift_err SignatureGenerationFailed (bundle_from_seed seed SHARE_SIGNING_DOMAIN).

Definition audit_entry (id : string) (op : Operation) (key_id timestamp message : string) (sig : EdSig * FalconSig) : AuditEntry :=
  MkAuditEntry id op key_id timestamp OPERATOR (Success message) (from_sdk sig).

(** ** [init] *)

Definition validate_passphrase_confirmation (passphrase confirmation : string) : Cmd unit :=
  ensure (String.eqb passphrase confirmation) PassphraseMismatch.

Definition cmd_init_vault (tier_arg : string) (vault_path : spath) (passphrase : string) (confirmation : option string) : Cmd unit :=
  t ← lift_err (fun e => SecCryptoError ("Invalid tier: " +:+ e)) (tier_of_str tier_arg);
  taken ← path_exists vault_path;
  ensure (negb taken) (VaultAlreadyExists vault_path);;
  match confirmation with Some c => validate_passphrase_confirmation passphrase c | None => mret tt end;;
  ensure (MIN_PASSPHRASE_LENGTH <=? Z.of_nat (length (chars passphrase))) (PassphraseTooWeak MIN_PASSPHRASE_LENGTH);;
  salt ← random_array 16;
  nonce ← random_array 24;
  master_key ← derive_vault_key (chars passphrase) salt t;
  master_seed ← random_array 32;
  vault ← encrypt_vault_data (MkVaultData master_seed ∅ [] ∅) master_key salt nonce t;
  json ← lift_err (fun e => SecCryptoError ("Failed to serialize vault: " +:+ e)) (vault_to_string vault);
  atomic_write vault_path json.

(** ** [shard] *)

(** Share files of another generation are removed with [--force], and an error without. *)
Fixpoint clear_stale (force : bool) (dir : spath) (expected : list string) (names : list string) : Cmd unit :=
  match names with
  | [] => mret tt
  | name :: rest =>
      if starts_with (chars "share_") (chars name) && bool_decide (is_Some (strip_suffix (chars ".json") (chars name)))
         && negb (bool_decide (name ∈ expected)) then
        if force then remove_file (dir ++ [name]);; clear_stale force dir expected rest
        else raise (SecIoError ("stale share file " +:+ display dir +:+ "/" +:+ name +:+ " from a previous sharding remains; remove it or use --force"))
      else clear_stale force dir expected rest
  end.

Definition make_share (args : ShardArgs) (signer : KeyBundle) (timestamp : string) (i : nat) (data : bytes) : Share :=
  MkShare 1 (sa_key args) (Z.of_nat (i + 1) mod 256) (sa_threshold args) (sa_shares args) data (hex_encode (take 4 (blake3 data)))
    (from_sdk (sign_hybrid signer data)) timestamp None (sa_expires args)
    (Some (MkVerifier (bundle_ed25519_pk signer) (bundle_falcon1024_pk signer))).

Fixpoint write_shares (vault_path : spath) (seed : bytes) (mk : nat -> bytes -> Share) (i : nat) (shards : list bytes) : Cmd (list Share) :=
  match shards with
  | [] => mret []
  | data :: rest =>
      let share := mk i data in
      enc ← encrypt_share share seed;
      json ← lift_err (fun e => SecIoError ("serialize share: " +:+ e)) (encshare_to_string enc);
      atomic_write (share_path vault_path (sh_share_number share)) json;;
      written ← write_shares vault_path seed mk (S i) rest;
      mret (share :: written)
  end.

Definition cmd_shard (args : ShardArgs) (vault_path : spath) (passphrase : string) : Cmd (list Share) :=
  let threshold := sa_threshold args in
  let total := sa_shares args in
  ensure (negb (bool_decide (trim (sa_key args) = ""))) (SecCryptoError "share label must not be empty (use --label <NAME>)");;
  ensure (negb ((threshold =? 0) || (total <? threshold))) (InvalidThreshold threshold total);;
  handle ← vault_open vault_path passphrase;
  let seed := vd_master_seed (hd_data handle) in
  shards ← lift_err (fun e => SecCryptoError ("Reed-Solomon encode failed: " +:+ e))
             (rs_encode_shards (Z.to_nat threshold) (Z.to_nat (total - threshold)) seed);
  signer ← share_signer seed;
  io_err;;
  io_err;;
  names ← gets (fun d => dir_names (shares_dir vault_path) (dk_files d));
  clear_stale (sa_force args) (shares_dir vault_path) (map share_name (seqZ 1 total)) names;;
  timestamp ← timestamp_now;
  written ← write_shares vault_path seed (make_share args signer timestamp) 0 shards;
  let entry := audit_entry ("shard-" +:+ timestamp) (OpShard threshold total) (sa_key args) timestamp
                 ("Sharded master key into " +:+ show_Z total +:+ " shares (threshold " +:+ show_Z threshold +:+ ")")
                 (sign_hybrid signer (chars "audit:shard")) in
  vault_save (with_data (push_audit entry (hd_data handle)) handle);;
  mret written.

(** ** [export-share] *)

Definition re_sign_for_recipient (vault_path : spath) (passphrase : string) (share : Share) (recipient : string) : Cmd Share :=
  handle ← vault_open vault_path passphrase;
  bundle ← share_signer (vd_master_seed (hd_data handle));
  let sig := sign_hybrid bundle (sh_share_data share ++ chars recipient) in
  let share' := MkShare (sh_version share) (sh_key_id share) (sh_share_number share) (sh_threshold share) (sh_total_shares share)
                  (sh_share_data share) (sh_fingerprint share) (from_sdk sig) (sh_created_at share) (Some recipient) (sh_expires_at share)
                  (sh_verifier share) in
  timestamp ← timestamp_now;
  let entry := audit_entry ("export-" +:+ default_hasher (sh_share_data share)) (OpExportShare (sh_share_number share) recipient)
                 (sh_key_id share) timestamp ("Exported share " +:+ show_Z (sh_share_number share) +:+ " to " +:+ recipient) sig in
  vault_save (with_data (push_audit entry (hd_data handle)) handle);;
  mret share'.

Definition cmd_export_share (args : ExportArgs) (vault_path : spath) (passphrase : string) : Cmd Share :=
  ensure (negb (xa_share args =? 0)) (ShareCorrupted 0 (xa_out args));;
  let path := share_path vault_path (xa_share args) in
  there ← path_exists path;
  ensure there (ShareNotFound (xa_share args) path);;
  share0 ← read_share_file path (Some vault_path) passphrase;
  share ← match xa_recipient args with Some r => re_sign_for_recipient vault_path passphrase share0 r | None => mret share0 end;
  json ← lift_err SecIoError (share_to_string share);
  taken ← path_exists (xa_out args);
  ensure (xa_force args || negb taken) (FileAlreadyExists (xa_out args));;
  atomic_write (xa_out args) json;;
  mret share.

(** ** [revoke-share] *)

Definition cmd_revoke_share (share_number : Z) (vault_path : spath) (passphrase : string) : Cmd unit :=
  ensure (negb (share_number =? 0)) (SecCryptoError "share number must be in 1..=255");;
  handle ← vault_open vault_path passphrase;
  let data := hd_data handle in
  ensure (negb (bool_decide (share_number ∈ vd_revoked_shares data))) (SecCryptoError ("share #" +:+ show_Z share_number +:+ " is already revoked"));;
  timestamp ← timestamp_now;
  signer ← audit_signer (vd_master_seed data);
  let entry := audit_entry ("revoke-" +:+ timestamp) (OpRevoke share_number) "*" timestamp ("Revoked share #" +:+ show_Z share_number)
                 (sign_hybrid signer (chars "audit:revoke")) in
  let data' := MkVaultData (vd_master_seed data) (vd_keys data) (vd_audit_log data) ({[share_number]} ∪ vd_revoked_shares data) in
  vault_save (with_data (push_audit entry data') handle);;
  mret tt.

(** ** [rotate-passphrase] *)

Definition cmd_rotate_passphrase (tier_arg : string) (new_passphrase : string) (vault_path : spath) (current_passphrase : string) : Cmd unit :=
  ensure (12 <=? Z.of_nat (length (chars new_passphrase))) (PassphraseTooWeak 12);;
  handle ← vault_open vault_path current_passphrase;
  target_tier ← lift_err SecCryptoError (tier_of_str tier_arg);
  timestamp ← timestamp_now;
  signer ← audit_signer (vd_master_seed (hd_data handle));
  let from_tier := tier_label (hd_tier handle) in
  let to_tier := tier_label target_tier in
  let entry := audit_entry ("rotate-" +:+ timestamp) (OpRotatePassphrase from_tier to_tier) "*" timestamp
                 ("Rotated passphrase (tier " +:+ from_tier +:+ " -> " +:+ to_tier +:+ ")") (sign_hybrid signer (chars "audit:rotate")) in
  vault_rotate new_passphrase target_tier (with_data (push_audit entry (hd_data handle)) handle);;
  mret tt.

(** ** [recover] *)

Definition share_vault (args : RecoverArgs) : Cmd (option spath) :=
  match ra_source_vault args with
  | Some p => mret (Some p)
  | None =>
      match head (ra_shares args) ≫= grandparent with
      | Some dir => there ← path_exists (dir ++ ["secrets.vault"]); mret (if (there : bool) then Some (dir ++ ["secrets.vault"]) else None)
      | None => mret None
      end
  end.

Record Preflight := MkPreflight {
  pf_usable : nat;
  pf_invalid : nat;
  pf_offline_verified : nat;
  pf_threshold : option Z;
  pf_total : option Z
}.

Fixpoint preflight_loop (vault : option spath) (passphrase : string) (paths : list spath) (r : Preflight) : Cmd Preflight :=
  match paths with
  | [] => mret r
  | p :: rest =>
      got ← attempt (read_share_file p vault passphrase);
      preflight_loop vault passphrase rest
        match got with
        | Some share =>
            MkPreflight (S (pf_usable r)) (pf_invalid r)
              (if is_ok (verify_share_offline share) then S (pf_offline_verified r) else pf_offline_verified r)
              (match pf_threshold r with Some t => Some t | None => Some (sh_threshold share) end)
              (match pf_total r with Some t => Some t | None => Some (sh_total_shares share) end)
        | None => MkPreflight (pf_usable r) (S (pf_invalid r)) (pf_offline_verified r) (pf_threshold r) (pf_total r)
        end
  end.
Definition run_preflight (args : RecoverArgs) (vault : option spath) (passphrase : string) : Cmd Preflight :=
  preflight_loop vault passphrase (ra_shares args) (MkPreflight 0 0 0 None None).
Definition preflight_ready (r : Preflight) : bool :=
  match pf_threshold r with Some t => (t <=? Z.of_nat (pf_usable r)) && (pf_invalid r =? 0)%nat | None => false end.

(** Every share records the threshold and total of the first. *)
Fixpoint consistent (threshold total : Z) (shares : list Share) : Cmd unit :=
  match shares with
  | [] => mret tt
  | s :: rest =>
      if (sh_threshold s =? threshold) && (sh_total_shares s =? total) then consistent threshold total rest
      else raise (ShareCorrupted (sh_share_number s) ["<inconsistent threshold/total>"])
  end.

Fixpoint place_shares (total : Z) (shares : list Share) (opts : list (option bytes)) : Cmd (list (option bytes)) :=
  match shares with
  | [] => mret opts
  | s :: rest =>
      let idx := sat_sub_u (sh_share_number s) 1 in
      if idx <? total then place_shares total rest (<[Z.to_nat idx := Some (sh_share_data s)]> opts)
      else raise (ShareCorrupted (sh_share_number s) ["<share index out of range>"])
  end.

Fixpoint check_signatures (ed_pk falcon_pk : bytes) (shares : list Share) : Cmd unit :=
  match shares with
  | [] => mret tt
  | s :: rest =>
      sig ← lift_err SignatureVerificationFailed (to_sdk (sh_signature s));
      if hybrid_pair_verify ed_pk falcon_pk (signed_message s) sig.1 sig.2 then check_signatures ed_pk falcon_pk rest
      else raise (ShareVerificationFailed (sh_share_number s) "hybrid signature mismatch")
  end.

(** From the shares to the seed. *)
Definition reconstruct (shares : list Share) : Cmd bytes :=
  match shares with
  | [] => panic
  | s0 :: _ =>
      let threshold := sh_threshold s0 in
      let total := sh_total_shares s0 in
      consistent threshold total shares;;
      ensure (threshold <=? Z.of_nat (length shares)) (InsufficientShares threshold (Z.of_nat (length shares) mod 256));;
      opts ← place_shares total shares (replicate (Z.to_nat total) None);
      recovered ← lift_err (fun e => SecCryptoError ("Reed-Solomon decode failed: " +:+ e))
                    (rs_decode_shards (Z.to_nat threshold) (Z.to_nat (wrap_u64 (total - threshold))) opts 32);
      ensure (bool_decide (length recovered = 32%nat)) (SecCryptoError "recovered seed wrong length");;
      signer ← share_signer recovered;
      check_signatures (bundle_ed25519_pk signer) (bundle_falcon1024_pk signer) shares;;
      mret recovered
  end.

Definition load_carried_vault (src : spath) (passphrase : string) : Cmd (option VaultData) :=
  raw ← read_to_string src;
  match raw with
  | None => mret None
  | Some raw =>
      vault ← lift_err VaultCorrupted (vault_from_str raw);
      key ← derive_vault_key (chars passphrase) (vt_salt vault) (vt_tier vault);
      attempt (decrypt_vault_data vault key)
  end.

Definition write_recovered_vault (path : spath) (seed : bytes) (passphrase : string) (t : MemoryTier) (carried : option VaultData) : Cmd unit :=
  salt ← random_array 16;
  nonce ← random_array 24;
  key ← derive_vault_key (chars passphrase) salt t;
  let vd := default vault_data_new carried in
  timestamp ← timestamp_now;
  signer ← audit_signer seed;
  let entry := audit_entry ("recover-" +:+ timestamp +:+ "-" +:+ hex_encode (take 2 salt)) (OpRecover []) "*" timestamp
                 "Vault rebuilt from threshold shares" (sign_hybrid signer (chars "audit:recover")) in
  vault ← encrypt_vault_data (push_audit entry (MkVaultData seed (vd_keys vd) (vd_audit_log vd) (vd_revoked_shares vd))) key salt nonce t;
  match parent path with Some _ => io "create vault dir" | None => mret tt end;;
  json ← lift_err SecIoError (vault_to_string vault);
  atomic_write path json.

Definition cmd_recover (args : RecoverArgs) (new_passphrase : string) (json : bool) : Cmd bytes :=
  ensure (negb (bool_decide (ra_shares args = []))) (InsufficientShares 1 0);;
  vault ← share_vault args;
  if ra_preflight args then run_preflight args vault new_passphrase;; mret []
  else
    shares ← for_each (fun p => read_share_file p vault new_passphrase) (ra_shares args);
    recovered ← reconstruct shares;
    match ra_vault_out args with
    | Some vault_out =>
        taken ← path_exists vault_out;
        ensure (ra_force args || negb taken) (FileAlreadyExists vault_out);;
        ensure (12 <=? Z.of_nat (length (chars new_passphrase))) (PassphraseTooWeak 12);;
        t ← lift_err SecCryptoError (tier_of_str (ra_tier args));
        carried ← match ra_source_vault args with Some src => load_carried_vault src new_passphrase | None => mret None end;
        write_recovered_vault vault_out recovered new_passphrase t carried
    | None => mret tt
    end;;
    match ra_out args with
    | Some path =>
        taken ← path_exists path;
        ensure (ra_force args || negb taken) (FileAlreadyExists path);;
        atomic_write path (chars (hex_encode recovered))
    | None => ensure (json || bool_decide (is_Some (ra_vault_out args))) StdoutSecretRefused
    end;;
    mret recovered.

(** ** [verify] *)

Definition is_recover (e : AuditEntry) : bool := match ae_operation e with OpRecover _ => true | _ => false end.

Definition verify_vault (path : spath) (passphrase : string) (recovery_log : bool) : Cmd unit :=
  handle ← vault_open path passphrase;
  if recovery_log then ensure (existsb is_recover (vd_audit_log (hd_data handle))) AuditLogNotFound else mret tt.

Definition derive_share_signer (vault_path : spath) (passphrase : string) (share_number : Z) : Cmd KeyBundle :=
  handle ← vault_open vault_path passphrase;
  lift_err (fun e => SignatureVerificationFailed (e +:+ " (share " +:+ show_Z share_number +:+ ")"))
    (bundle_from_seed (vd_master_seed (hd_data handle)) SHARE_SIGNING_DOMAIN).

Definition verify_share (path : spath) (vault : option spath) (passphrase : string) (json : bool) : Cmd unit :=
  share ← read_share_file path vault passphrase;
  ensure (negb (bool_decide (sh_share_data share = []))) (ShareCorrupted (sh_share_number share) path);;
  ensure (negb (bool_decide (hs_ed25519 (sh_signature share) = []) || bool_decide (hs_falcon1024 (sh_signature share) = [])))
    (ShareCorrupted (sh_share_number share) path);;
  ensure (negb ((sh_threshold share =? 0) || (sh_total_shares share =? 0) || (sh_total_shares share <? sh_threshold share)))
    (InvalidThreshold (sh_threshold share) (sh_total_shares share));;
  match vault with
  | Some vault_path =>
      bundle ← derive_share_signer vault_path passphrase (sh_share_number share);
      sig ← lift_err SignatureVerificationFailed (to_sdk (sh_signature share));
      ensure (hybrid_pair_verify (bundle_ed25519_pk bundle) (bundle_falcon1024_pk bundle) (signed_message share) sig.1 sig.2)
        (ShareVerificationFailed (sh_share_number share) "hybrid signature invalid")
  | None =>
      if json then mret tt
      else match verify_share_offline share with
           | Ok tt => mret tt
           | Err (SignatureVerificationFailed _) => raise (ShareVerificationFailed (sh_share_number share) "offline hybrid signature invalid")
           | Err _ => mret tt
           end
  end.

Definition cmd_verify_secrets (args : VerifyArgs) (vault_path : spath) (passphrase : string) (json : bool) : Cmd unit :=
  default_there ← path_exists vault_path;
  match va_share args with
  | Some path =>
      let source := (fun d => d ++ ["secrets.vault"]) <$> grandparent path in
      src_there ← match source with Some src => path_exists src | None => mret false end;
      exp_there ← match va_vault_path args with Some p => path_exists p | None => mret false end;
      let vault := if (src_there : bool) then source else if (exp_there : bool) then va_vault_path args
                   else if (default_there : bool) then Some vault_path else None in
      verify_share path vault passphrase json
  | None =>
      match va_vault_path args with
      | Some path => verify_vault path passphrase (va_recovery_log args)
      | None => if (default_there : bool) then verify_vault vault_path passphrase (va_recovery_log args) else raise (VaultNotFound vault_path)
      end
  end.

(** ** [audit], [list-keys] *)

Definition str_contains (p s : string) : bool := contains p (chars s).
Definition keep_entry (args : AuditArgs) (e : AuditEntry) : bool :=
  match aa_filter_key args with Some key => str_contains key (ae_key_id e) | None => true end &&
  match aa_filter_user args with Some user => str_contains user (ae_operator e) | None => true end &&
  match aa_filter_start args with Some start => String.leb start (ae_timestamp e) | None => true end &&
  match aa_filter_end args with Some end_ => String.leb (ae_timestamp e) end_ | None => true end.
Definition filter_entries (args : AuditArgs) (entries : list AuditEntry) : list AuditEntry := List.filter (keep_entry args) entries.

Definition export_compliance (entries : list AuditEntry) (format : ComplianceFormat) (path : spath) (force : bool) : Cmd unit :=
  taken ← path_exists path;
  ensure (force || negb taken) (FileAlreadyExists path);;
  json ← lift_err SecIoError (evidence_to_string format entries);
  atomic_write path json.

Fixpoint join_plus (l : list string) : string :=
  match l with [] => "" | [x] => x | x :: l' => x +:+ "+" +:+ join_plus l' end.

(** The entries that are printed, when nothing is exported; the failure journal is another file. *)
Definition cmd_audit (args : AuditArgs) (vault_path : spath) (passphrase : string) : Cmd (list AuditEntry) :=
  if aa_show_failures args then mret [] else
  handle ← vault_open vault_path passphrase;
  let filtered := filter_entries args (vd_audit_log (hd_data handle)) in
  let requested := omap (fun x => fst x ≫= fun _ => Some (snd x))
                     [(aa_export_soc2 args, "soc2"); (aa_export_pcidss args, "pcidss"); (aa_export_hipaa args, "hipaa")] in
  ensure (Z.of_nat (length requested) <=? 1)
    (ComplianceExportFailed (join_plus requested) "only one compliance export may be requested per invocation");;
  match aa_export_soc2 args, aa_export_pcidss args, aa_export_hipaa args with
  | Some path, _, _ => export_compliance filtered SOC2 path (aa_force args);; mret []
  | None, Some path, _ => export_compliance filtered (PciDss "4.0") path (aa_force args);; mret []
  | None, None, Some path => export_compliance filtered (Hipaa "164.312") path (aa_force args);; mret []
  | None, None, None => mret (if aa_show_recovery_log args then List.filter is_recover filtered else filtered)
  end.

Definition is_shard (e : AuditEntry) : bool := match ae_operation e with OpShard _ _ => true | _ => false end.

(** The labels, in the order of a [BTreeSet]. *)
Definition cmd_list_keys (vault_path : spath) (passphrase : string) : Cmd (list string) :=
  handle ← vault_open vault_path passphrase;
  let labels : gset string := dom (vd_keys (hd_data handle)) ∪ list_to_set (map ae_key_id (List.filter is_shard (vd_audit_log (hd_data handle)))) in
  mret (merge_sort label_le (elements labels)).

(** ** [list-shares] *)

Definition has_json_extension (name : string) : bool :=
  match rsplit_once "."%char (chars name) with Some (stem, ext) => negb (bool_decide (stem = [])) && bool_decide (ext = chars "json") | None => false end.

Definition share_info (path : spath) (share : Share) : ShareInfo :=
  MkShareInfo (display path) (sh_share_number share) (sh_threshold share) (sh_total_shares share) (sh_key_id share) (sh_recipient share)
    (sh_expires_at share) false.

(** A share that cannot be read is left out. *)
Fixpoint list_loop (vault_path : spath) (passphrase : string) (names : list string) : Cmd (list ShareInfo) :=
  match names with
  | [] => mret []
  | name :: rest =>
      let path := shares_dir vault_path ++ [name] in
      if has_json_extension name then
        share ← attempt (read_share_file path (Some vault_path) passphrase);
        infos ← list_loop vault_path passphrase rest;
        mret (match share with Some s => share_info path s :: infos | None => infos end)
      else list_loop vault_path passphrase rest
  end.

Definition cmd_list_shares (vault_path : spath) (passphrase : string) : Cmd (list ShareInfo) :=
  names ← gets (fun d => dir_names (shares_dir vault_path) (dk_files d));
  (if bool_decide (names = []) then mret tt else io "read shares dir");;
  infos ← list_loop vault_path passphrase (merge_sort label_le names);
  mret (merge_sort number_le infos).

(** ** [handoff], [status]

    [status] counts as the preflight does, and does not report the offline checks. *)

Definition cmd_handoff (args : HandoffArgs) (vault_path : spath) (passphrase : option string) : Cmd HandoffManifest :=
  there ← path_exists (ha_share args);
  ensure there (ShareNotFound 0 (ha_share args));;
  taken ← path_exists (ha_out args);
  ensure (ha_force args || negb taken) (FileAlreadyExists (ha_out args));;
  vault_there ← path_exists vault_path;
  let source := if (vault_there : bool) then Some vault_path else None in
  share ← read_share_file (ha_share args) source (default "" passphrase);
  match ha_recipient args, sh_recipient share with
  | Some expected, Some actual =>
      ensure (String.eqb expected actual)
        (SecCryptoError ("recipient mismatch: share is bound to " +:+ actual +:+ ", manifest requested " +:+ expected))
  | _, _ => mret tt
  end;;
  verification ← match verify_share_offline share, sh_verifier share with
                 | Ok _, _ => mret ("offline-hybrid", true)
                 | Err _, Some _ => raise (ShareVerificationFailed (sh_share_number share) "embedded verifier rejected the share")
                 | Err _, None => mret ("structural-only", false)
                 end;
  fingerprint ← match source, passphrase with
                | Some path, Some pw => h ← attempt (vault_open path pw); mret (hd_fingerprint <$> h)
                | _, _ => mret None
                end;
  let recipient := match ha_recipient args with Some r => Some r | None => sh_recipient share end in
  let manifest := MkHandoff 1 "origin-secrets/custodian-handoff" "prepared" (sh_share_number share) (sh_threshold share) (sh_total_shares share)
                    (sh_key_id share) (sh_fingerprint share) (sh_created_at share) recipient (sh_expires_at share) (snd verification)
                    (fst verification) fingerprint in
  json ← lift_err (fun e => SecIoError ("serialize handoff manifest: " +:+ e)) (manifest_to_string manifest);
  atomic_write (ha_out args) json;;
  mret manifest.

Record Status := MkStatus {
  ss_initialized : bool;
  ss_tier : option string;
  ss_fingerprint : option string;
  ss_audit_entries : nat;
  ss_share_files : nat;
  ss_counts : Preflight;
  ss_revoked : nat;
  ss_next_action : string
}.

Definition cmd_status (vault_path : spath) (passphrase : option string) : Cmd Status :=
  there ← path_exists vault_path;
  if negb there then
    mret (MkStatus false None None 0 0 (MkPreflight 0 0 0 None None) 0 "Initialize a vault with `origin-secrets init`.")
  else
    match passphrase with
    | None => raise PassphraseRequired
    | Some pw =>
        handle ← vault_open vault_path pw;
        names ← gets (fun d => dir_names (shares_dir vault_path) (dk_files d));
        (if bool_decide (names = []) then mret tt else io "read shares directory");;
        let files := List.filter has_json_extension names in
        r ← preflight_loop (Some vault_path) pw (map (fun n => shares_dir vault_path ++ [n]) files) (MkPreflight 0 0 0 None None);
        mret (MkStatus true (Some (tier_label (hd_tier handle))) (Some (hd_fingerprint handle)) (length (vd_audit_log (hd_data handle))) (length files) r
                (size (vd_revoked_shares (hd_data handle)))
                (match pf_threshold r with
                 | None => "Create a K-of-N share set with `origin-secrets shard`."
                 | Some required => if Z.of_nat (pf_usable r) <? required then "Collect more valid custodian shares before recovery."
                                    else "Share set is ready for verification, handoff, or recovery."
                 end))
    end.

End Commands.
