(* ===== verification/SecretsProps.v ===== *)
(** * What the threshold vault guarantees

    The vault file survives every sequence of commands and faults; shares
    give the seed back; expiry and revocation are enforced on reading; what
    checking a share without its vault misses. *)

From Stdlib Require Import Ascii String.
From S2P Require Import Prelude RustStr Bytes RustText Sdk Envelope StateErr ChanKeys NetAuth Delegation ChanSession License Secrets SecretsCmd.

(** ** What the theorems rely on *)

(** Draws have the length asked for; the documents read back what was
    written, as text; a share is not an envelope; any [K] shards of an
    encoding decode to the data. *)
Class SecretsOk `{CC : ChanCrypto, SO : SecretsOps, IO : SecretsIo} : Prop := {
  draw_len : forall t n b, s_draw t n = Ok b -> length b = n;
  vault_read : forall v b, vault_to_string v = Ok b -> vault_from_str b = Ok v /\ utf8_valid b = true;
  data_read : forall v b, data_to_vec v = Ok b -> data_from_slice b = Ok v;
  share_read : forall s b, share_to_string s = Ok b -> share_from_slice b = Ok s /\ utf8_valid b = true /\ is_ok (encshare_from_str b) = false;
  encshare_read : forall s b, encshare_to_string s = Ok b -> encshare_from_str b = Ok s /\ utf8_valid b = true;
  rs_decodes : forall k m data shards opts idx, rs_encode_shards k m data = Ok shards -> length opts = (k + m)%nat ->
    (forall i b, opts !! i = Some (Some b) -> shards !! i = Some b) ->
    NoDup idx -> (k <= length idx)%nat -> (forall i, i ∈ idx -> exists b, opts !! i = Some (Some b)) ->
    rs_decode_shards k m opts (length data) = Ok data;
  rs_encodes : forall k m data shards, rs_encode_shards k m data = Ok shards -> length shards = (k + m)%nat
}.

(** ** Commands that leave a file alone *)

Definition keeps_at {A : Type} (p : spath) (m : Cmd A) : Prop := forall d, dk_files (snd (m d)) !! p = dk_files d !! p.
(** Reading changes no file at all. *)
Definition reads {A : Type} (m : Cmd A) : Prop := forall d, dk_files (snd (m d)) = dk_files d.

Create HintDb disk.

Section Frames.
Context `{IO : SecretsIo}.

Lemma reads_keeps {A : Type} (p : spath) (m : Cmd A) : reads m -> keeps_at p m.
Proof. intros H d. by rewrite H. Qed.

Lemma reads_ret {A : Type} (a : A) : reads (mret a : Cmd A).
Proof. done. Qed.
Lemma reads_lift_err {E A : Type} (f : E -> SecretsError) (r : result E A) : reads (lift_err f r).
Proof. done. Qed.
Lemma reads_raise {A : Type} (e : SecretsError) : reads (raise e : Cmd A).
Proof. done. Qed.
Lemma reads_panic {A : Type} : reads (panic : Cmd A).
Proof. done. Qed.
Lemma reads_gets {A : Type} (f : Disk -> A) : reads (gets f : Cmd A).
Proof. done. Qed.
Lemma reads_bind {A B : Type} (m : Cmd A) (f : A -> Cmd B) : reads m -> (forall a, reads (f a)) -> reads (m ≫= f).
Proof.
  intros Hm Hf d. unfold mbind, SE_mbind. specialize (Hm d). destruct (m d) as [[a|e] d1]; cbn in *; [|done]. by rewrite Hf.
Qed.
Lemma reads_tick : reads next_tick.
Proof. done. Qed.
Lemma disk_keeps_bind {A B : Type} (p : spath) (m : Cmd A) (f : A -> Cmd B) : keeps_at p m -> (forall a, keeps_at p (f a)) -> keeps_at p (m ≫= f).
Proof.
  intros Hm Hf d. unfold mbind, SE_mbind. specialize (Hm d). destruct (m d) as [[a|e] d1]; cbn in *; [|done]. by rewrite Hf.
Qed.
Lemma keeps_set_files (p : spath) (f : gmap spath bytes -> gmap spath bytes) : (forall fs, f fs !! p = fs !! p) -> keeps_at p (set_files f).
Proof. intros H d. apply H. Qed.
End Frames.
#[export] Hint Resolve reads_ret reads_lift_err reads_raise reads_panic reads_gets reads_tick : disk.

(** Goes through a command: binds, branches, then the lemmas. *)
Ltac reading :=
  repeat first [ progress eauto with disk | apply reads_bind; [|intros ?] | match goal with |- reads (match ?x with _ => _ end) => destruct x end ].
Ltac keeping :=
  repeat first [ progress eauto with disk | apply reads_keeps; solve [eauto with disk] | apply disk_keeps_bind; [|intros ?]
               | match goal with |- keeps_at _ (match ?x with _ => _ end) => destruct x end ].

Section Effects.
Context `{IO : SecretsIo}.

Lemma reads_io (what : string) : reads (io what).
Proof. unfold io. reading. Qed.
Lemma reads_io_err : reads io_err.
Proof. unfold io_err. reading. Qed.
Lemma reads_random (n : nat) : reads (random_array n).
Proof. unfold random_array. reading. Qed.
Lemma reads_clock : reads clock_secs.
Proof. unfold clock_secs. reading. Qed.
Lemma reads_exists (p : spath) : reads (path_exists p).
Proof. unfold path_exists. reading. Qed.
Lemma reads_read (p : spath) : reads (read_to_string p).
Proof. unfold read_to_string. reading. Qed.
Lemma reads_ensure (b : bool) (e : SecretsError) : reads (ensure b e).
Proof. unfold ensure. reading. Qed.
Lemma ensure_Ok (b : bool) (e : SecretsError) (d d' : Disk) (u : unit) : ensure b e d = (Ok u, d') -> b = true /\ d' = d.
Proof. unfold ensure. destruct b; [|done]. by intros [= _ <-]. Qed.
Lemma reads_attempt {A : Type} (m : Cmd A) : reads m -> reads (attempt m).
Proof. intros H d. unfold attempt. specialize (H d). by destruct (m d) as [[a|[e|]] d1]. Qed.

Lemma keeps_remove (p q : spath) : q <> p -> keeps_at p (remove_file q).
Proof.
  intros Hne. unfold remove_file. keeping. apply keeps_set_files. intros fs. by rewrite lookup_delete_ne.
Qed.
End Effects.
#[export] Hint Resolve reads_io reads_io_err reads_random reads_clock reads_exists reads_read reads_ensure reads_attempt : disk.

(** ** Writing a file replaces it or leaves it *)

Section Writes.
Context `{IO : SecretsIo}.

Definition bump (d : Disk) : Disk := MkDisk (dk_files d) (S (dk_tick d)).

Lemma io_then {A : Type} (what : string) (m : Cmd A) (d : Disk) :
  (io what;; m) d = match s_fault (dk_tick d) with
                    | Some e => (Err (Raise (SecIoError (what +:+ ": " +:+ e))), bump d)
                    | None => m (bump d)
                    end.
Proof. unfold io, mbind, SE_mbind, next_tick. cbn. by destruct (s_fault (dk_tick d)). Qed.

Lemma set_then {A : Type} (f : gmap spath bytes -> gmap spath bytes) (m : Cmd A) (d : Disk) :
  (set_files f;; m) d = m (MkDisk (f (dk_files d)) (dk_tick d)).
Proof. done. Qed.

Lemma exists_then {A : Type} (p : spath) (k : bool -> Cmd A) (d : Disk) :
  (path_exists p ≫= k) d = k (bool_decide (is_Some (dk_files d !! p))) d.
Proof. done. Qed.

Lemma write_through_spec (temp path : spath) (c : bytes) (d d' : Disk) (r : result Stop unit) :
  temp <> path -> write_through temp path c d = (r, d') ->
  (forall q, q <> temp -> q <> path -> dk_files d' !! q = dk_files d !! q) /\
  match r with Ok _ => dk_files d' !! path = Some c | Err _ => dk_files d' !! path = dk_files d !! path end.
Proof.
  intros Hne. unfold write_through. rewrite io_then.
  destruct (s_fault (dk_tick d)); [by intros [= <- <-]|]. rewrite exists_then.
  case_bool_decide; [by intros [= <- <-]|]. rewrite set_then.
  rewrite io_then. destruct (s_fault _); [intros [= <- <-]; cbn; split; intros; by rewrite lookup_insert_ne|].
  rewrite io_then. destruct (s_fault _); [intros [= <- <-]; cbn; split; intros; by rewrite lookup_insert_ne|].
  rewrite set_then.
  rewrite io_then. destruct (s_fault _); [intros [= <- <-]; cbn; split; intros; by rewrite !lookup_insert_ne|].
  rewrite io_then. destruct (s_fault _); [intros [= <- <-]; cbn; split; intros; by rewrite !lookup_insert_ne|].
  unfold set_files, modify. intros [= <- <-]. cbn. split.
  - intros q H1 H2. by rewrite lookup_insert_ne, lookup_delete_ne, !lookup_insert_ne by done.
  - by rewrite lookup_insert_eq.
Qed.

Lemma string_app_length (a b : string) : String.length (a +:+ b) = (String.length a + String.length b)%nat.
Proof. induction a as [|x a IH]; [done|]. exact (f_equal S IH). Qed.

Lemma temp_name_ne (name : string) : temp_name name <> name.
Proof.
  intros E. apply (f_equal String.length) in E. unfold temp_name in E. rewrite !string_app_length in E. cbn in E. lia.
Qed.

Lemma temp_path_ne (path : spath) (name : string) : base_name path = Some name -> temp_path path name <> path.
Proof.
  intros Hn E. apply (f_equal last) in E. unfold temp_path in E. rewrite last_snoc in E. unfold base_name in Hn. rewrite Hn in E.
  injection E as E. by apply temp_name_ne in E.
Qed.

Lemma atomic_write_spec (path : spath) (c : bytes) (name : string) (d d' : Disk) (r : result Stop unit) :
  base_name path = Some name -> atomic_write path c d = (r, d') ->
  (forall q, q <> temp_path path name -> q <> path -> dk_files d' !! q = dk_files d !! q) /\
  match r with Ok _ => dk_files d' !! path = Some c | Err _ => dk_files d' !! path = dk_files d !! path end.
Proof.
  intros Hn. pose proof (temp_path_ne _ _ Hn) as Hne. unfold atomic_write. rewrite io_then.
  destruct (s_fault (dk_tick d)); [by intros [= <- <-]|]. rewrite Hn. unfold or_remove.
  destruct (write_through _ _ _ _) as [[[]|e] d1] eqn:Ew; apply write_through_spec in Ew as [H1 H2]; [|done| |done].
  - intros [= <- <-]. by split.
  - intros [= <- <-]. split.
    + intros q Hq1 Hq2. by rewrite (keeps_remove q), H1.
    + by rewrite (keeps_remove path), H2.
Qed.

Lemma atomic_write_keeps (p path : spath) (c : bytes) :
  p <> path -> (forall name, base_name path = Some name -> p <> temp_path path name) -> keeps_at p (atomic_write path c).
Proof.
  intros Hp Ht d. destruct (base_name path) as [name|] eqn:Hn.
  - destruct (atomic_write path c d) as [r d'] eqn:E. apply (atomic_write_spec _ _ _ _ _ _ Hn) in E as [H _]. apply H; auto.
  - unfold atomic_write. rewrite Hn, io_then. by destruct (s_fault (dk_tick d)).
Qed.
End Writes.

(** ** The vault file *)

Section VaultFile.
Context `{SK : Sdk, CC : ChanCrypto, NC : NetCryptoOps} {DS : DelegSign} {SO : SecretsOps} {SD : SecretsDocs} {IO : SecretsIo}.
Context {CO : ChanCryptoOk} {OK : SecretsOk}.

(** The contents of a vault file open under a passphrase. *)
Definition opens (file : option bytes) (pw : string) (t : MemoryTier) (data : VaultData) : Prop :=
  exists raw v key pt, file = Some raw /\ utf8_valid raw = true /\ vault_from_str raw = Ok v /\ vt_tier v = t /\
    argon2_derive t (chars pw) (vt_salt v) = Ok key /\ length key = 32%nat /\
    xchacha_decrypt key (vt_nonce v) (vt_ciphertext v) = Ok pt /\ data_from_slice pt = Ok data.

Definition handle_ok (h : VaultHandle) (pw : string) : Prop :=
  argon2_derive (hd_tier h) (chars pw) (hd_salt h) = Ok (hd_key h) /\ length (hd_key h) = 32%nat.

Lemma opens_functional (file : option bytes) (pw : string) (t t' : MemoryTier) (data data' : VaultData) :
  opens file pw t data -> opens file pw t' data' -> t = t' /\ data = data'.
Proof.
  intros (raw & v & k & pt & -> & _ & Ev & Et & Ek & _ & Ep & Ed) (raw' & v' & k' & pt' & [= <-] & _ & Ev' & Et' & Ek' & _ & Ep' & Ed').
  assert (v = v') as -> by congruence. assert (t = t') as <- by congruence. split; [done|]. congruence.
Qed.

Lemma derive_vault_key_reads (p s : bytes) (t : MemoryTier) : reads (derive_vault_key p s t).
Proof. unfold derive_vault_key. reading. Qed.
Lemma encrypt_vault_data_reads (data : VaultData) (k s n : bytes) (t : MemoryTier) : reads (encrypt_vault_data data k s n t).
Proof. unfold encrypt_vault_data. reading. Qed.
Lemma decrypt_vault_data_reads (v : Vault) (k : bytes) : reads (decrypt_vault_data v k).
Proof. unfold decrypt_vault_data. reading. Qed.
Hint Resolve derive_vault_key_reads encrypt_vault_data_reads decrypt_vault_data_reads : disk.

Lemma vault_open_reads (p : spath) (pw : string) : reads (vault_open p pw).
Proof. unfold vault_open. reading. Qed.

Lemma lift_err_Ok {E A : Type} (f : E -> SecretsError) (r : result E A) (a : A) (d d' : Disk) :
  lift_err f r d = (Ok a, d') -> r = Ok a /\ d' = d.
Proof. unfold lift_err, lift. destruct r; cbn; by intros [= <- <-]. Qed.

Lemma derive_vault_key_Ok (p s k : bytes) (t : MemoryTier) (d d' : Disk) :
  derive_vault_key p s t d = (Ok k, d') -> argon2_derive t p s = Ok k /\ length k = 32%nat.
Proof.
  unfold derive_vault_key. rewrite SE_bind_Ok. intros (x & d1 & [Hx ->]%lift_err_Ok & H). case_bool_decide; [|done]. by injection H as <- <-.
Qed.

Lemma decrypt_vault_data_Ok (v : Vault) (k : bytes) (data : VaultData) (d d' : Disk) :
  decrypt_vault_data v k d = (Ok data, d') ->
  exists pt, xchacha_decrypt k (vt_nonce v) (vt_ciphertext v) = Ok pt /\ data_from_slice pt = Ok data.
Proof.
  unfold decrypt_vault_data. rewrite SE_bind_Ok. intros (x & d1 & [Hx ->]%lift_err_Ok & [H _]%lift_err_Ok). by exists x.
Qed.

Lemma read_to_string_Ok (p : spath) (raw : bytes) (d d' : Disk) :
  read_to_string p d = (Ok (Some raw), d') -> dk_files d !! p = Some raw /\ utf8_valid raw = true.
Proof.
  unfold read_to_string, next_tick, gets, mbind, SE_mbind. cbn. destruct (s_fault (dk_tick d)); [done|].
  destruct (dk_files d !! p) as [b|]; [|done]. destruct (utf8_valid b) eqn:Eu; [|done]. by intros [= -> _].
Qed.

(** A vault that opened: what it holds is what the file holds. *)
Lemma vault_open_Ok (p : spath) (pw : string) (h : VaultHandle) (d d' : Disk) :
  vault_open p pw d = (Ok h, d') ->
  opens (dk_files d !! p) pw (hd_tier h) (hd_data h) /\ handle_ok h pw /\ hd_path h = p /\ dk_files d' = dk_files d.
Proof.
  intros E. pose proof (vault_open_reads p pw d) as Hr. rewrite E in Hr. cbn in Hr. revert E. unfold vault_open. rewrite SE_bind_Ok.
  intros ([raw|] & d1 & Hraw & H); [|done]. apply read_to_string_Ok in Hraw as [Hf Hu].
  apply SE_bind_Ok in H as (v & d2 & [Hv ->]%lift_err_Ok & H). apply SE_bind_Ok in H as (k & d3 & [Hk Hl]%derive_vault_key_Ok & H).
  apply SE_bind_Ok in H as (data & d4 & (pt & Hp & Hd)%decrypt_vault_data_Ok & H). injection H as <- <-. cbn.
  split_and!; [|by split|done|done]. exists raw, v, k, pt. by split_and!.
Qed.

(** Sealing and writing: the new file opens under the passphrase of the key. *)
Lemma seal_opens (pw : string) (data : VaultData) (key salt nonce json pt ct : bytes) (t : MemoryTier) (v : Vault) :
  argon2_derive t (chars pw) salt = Ok key -> length key = 32%nat -> length nonce = 24%nat ->
  data_to_vec data = Ok pt -> xchacha_encrypt key nonce pt = Ok ct -> vt_tier v = t -> vt_salt v = salt -> vt_nonce v = nonce -> vt_ciphertext v = ct ->
  vault_to_string v = Ok json -> opens (Some json) pw t data.
Proof.
  intros Hk Hl Hn Hd Hc Ht Hs Hnv Hcv Hj. destruct (vault_read _ _ Hj) as [Hv Hu]. exists json, v, key, pt.
  destruct (xchacha_total key nonce pt Hl Hn) as (c & Hc' & _ & Hdec). rewrite Hc in Hc'. injection Hc' as <-.
  rewrite Hs, Hnv, Hcv. split_and!; try done. by apply data_read.
Qed.

Lemma random_array_Ok (n : nat) (b : bytes) (d d' : Disk) : random_array n d = (Ok b, d') -> length b = n.
Proof. unfold random_array. rewrite SE_bind_Ok. intros (t & d1 & _ & [H _]%lift_err_Ok). by eapply draw_len. Qed.

Lemma encrypt_vault_data_Ok (data : VaultData) (key salt nonce : bytes) (t : MemoryTier) (v : Vault) (d d' : Disk) :
  encrypt_vault_data data key salt nonce t d = (Ok v, d') ->
  exists pt, data_to_vec data = Ok pt /\ xchacha_encrypt key nonce pt = Ok (vt_ciphertext v) /\ vt_tier v = t /\ vt_salt v = salt /\ vt_nonce v = nonce.
Proof.
  unfold encrypt_vault_data. rewrite SE_bind_Ok. intros (pt & d1 & [Hp ->]%lift_err_Ok & H).
  apply SE_bind_Ok in H as (ct & d2 & [Hc ->]%lift_err_Ok & H). apply SE_bind_Ok in H as (s & d3 & _ & H). injection H as <- _.
  exists pt. by split_and!.
Qed.

(** A prefix that only reads: it stopped there, or the rest ran on the same files. *)
Lemma bind_reads {A B : Type} (m : Cmd A) (f : A -> Cmd B) (d d' : Disk) (r : result Stop B) :
  reads m -> (m ≫= f) d = (r, d') ->
  (exists a d1, m d = (Ok a, d1) /\ dk_files d1 = dk_files d /\ f a d1 = (r, d')) \/ (exists e, r = Err e /\ dk_files d' = dk_files d).
Proof.
  intros Hm. specialize (Hm d). unfold mbind, SE_mbind. destruct (m d) as [[a|e] d1]; cbn in Hm.
  - intros H. left. by exists a, d1.
  - intros [= <- <-]. right. by exists e.
Qed.

(** The file at [p] is replaced by one that satisfies [P], or kept on an error; other files are kept. *)
Definition replaces {A : Type} (p : spath) (name : string) (P : option bytes -> Prop) (d d' : Disk) (r : result Stop A) : Prop :=
  (forall q, q <> temp_path p name -> q <> p -> dk_files d' !! q = dk_files d !! q) /\
  match r with Ok _ => P (dk_files d' !! p) | Err _ => dk_files d' !! p = dk_files d !! p end.

Lemma replaces_same {A : Type} (p : spath) (name : string) (P : option bytes -> Prop) (d d' : Disk) (e : Stop) :
  dk_files d' = dk_files d -> replaces p name P d d' (Err e : result Stop A).
Proof. intros E. split; [intros; by rewrite E|by rewrite E]. Qed.

(** The common tail of [save] and [rotate]. *)
Lemma seal_write (h : VaultHandle) (pw name : string) (key salt nonce : bytes) (t : MemoryTier) (f : Vault -> VaultHandle) (d d' : Disk) (r : result Stop VaultHandle) :
  base_name (hd_path h) = Some name -> argon2_derive t (chars pw) salt = Ok key -> length key = 32%nat -> length nonce = 24%nat ->
  (vault ← encrypt_vault_data (hd_data h) key salt nonce t;
   json ← lift_err (fun e => SecIoError ("serialize vault: " +:+ e)) (vault_to_string vault);
   atomic_write (hd_path h) json;; mret (f vault)) d = (r, d') ->
  replaces (hd_path h) name (fun file => opens file pw t (hd_data h)) d d' r.
Proof.
  intros Hn Hk Hl Hnl H. apply bind_reads in H as [(v & d1 & Hv & Ef & H)|(e & -> & E)]; [|by apply replaces_same|apply encrypt_vault_data_reads].
  apply encrypt_vault_data_Ok in Hv as (pt & Hp & Hc & Ht & Hs & Hnv).
  apply bind_reads in H as [(json & d2 & [Hj ->]%lift_err_Ok & Ef2 & H)|(e & -> & E)]; [|apply replaces_same; congruence|apply reads_lift_err].
  unfold mbind, SE_mbind in H. destruct (atomic_write _ _ _) as [[[]|e] d3] eqn:Ew; apply (atomic_write_spec _ _ _ _ _ _ Hn) in Ew as [H1 H2].
  - injection H as <- <-. rewrite Ef in *. split; [done|]. rewrite H2. by eapply seal_opens.
  - injection H as <- <-. rewrite Ef in *. by split.
Qed.

Lemma vault_save_spec (h : VaultHandle) (pw name : string) (d d' : Disk) (r : result Stop VaultHandle) :
  base_name (hd_path h) = Some name -> handle_ok h pw -> vault_save h d = (r, d') ->
  replaces (hd_path h) name (fun file => opens file pw (hd_tier h) (hd_data h)) d d' r.
Proof.
  intros Hn [Hk Hl] H. unfold vault_save in H.
  apply bind_reads in H as [(nonce & d1 & Hr & Ef & H)|(e & -> & E)]; [|by apply replaces_same|apply reads_random].
  apply random_array_Ok in Hr. apply (seal_write _ _ _ _ _ _ _ _ _ _ _ Hn Hk Hl Hr) in H as [H1 H2]. rewrite Ef in *. by split.
Qed.

Lemma vault_rotate_spec (h : VaultHandle) (new name : string) (t : MemoryTier) (d d' : Disk) (r : result Stop VaultHandle) :
  base_name (hd_path h) = Some name -> vault_rotate new t h d = (r, d') ->
  replaces (hd_path h) name (fun file => opens file new t (hd_data h)) d d' r.
Proof.
  intros Hn H. unfold vault_rotate in H.
  apply bind_reads in H as [(salt & d1 & _ & Ef1 & H)|(e & -> & E)]; [|by apply replaces_same|apply reads_random].
  apply bind_reads in H as [(nonce & d2 & Hr & Ef2 & H)|(e & -> & E)]; [|apply replaces_same; congruence|apply reads_random].
  apply bind_reads in H as [(key & d3 & [Hk Hl]%derive_vault_key_Ok & Ef3 & H)|(e & -> & E)]; [|apply replaces_same; congruence|apply derive_vault_key_reads].
  apply random_array_Ok in Hr. apply (seal_write _ _ _ _ _ _ _ _ _ _ _ Hn Hk Hl Hr) in H as [H1 H2]. rewrite Ef3, Ef2, Ef1 in *. by split.
Qed.

(** Reading a share leaves the files alone. *)
Lemma read_share_file_reads (p : spath) (v : option spath) (pw : string) : reads (read_share_file p v pw).
Proof.
  unfold read_share_file, decrypt_share. reading; by apply vault_open_reads.
Qed.
End VaultFile.
#[export] Hint Resolve derive_vault_key_reads encrypt_vault_data_reads decrypt_vault_data_reads vault_open_reads read_share_file_reads : disk.

(** ** Sessions *)

Inductive Command :=
| CShard (args : ShardArgs)
| CExport (args : ExportArgs)
| CRevoke (share_number : Z)
| CRotate (tier_arg new_passphrase : string)
| CRecover (args : RecoverArgs) (json : bool)
| CVerify (args : VerifyArgs) (json : bool)
| CAudit (args : AuditArgs)
| CListKeys
| CListShares
| CHandoff (args : HandoffArgs)
| CStatus.

(** The files a command is told to write. *)
Definition out_paths (c : Command) : list spath :=
  match c with
  | CExport args => [xa_out args]
  | CRecover args _ => option_list (ra_out args) ++ option_list (ra_vault_out args)
  | CAudit args => option_list (aa_export_soc2 args) ++ option_list (aa_export_pcidss args) ++ option_list (aa_export_hipaa args)
  | CHandoff args => [ha_out args]
  | _ => []
  end.

(** They are not the vault, nor is a temporary file of theirs. *)
Definition safe_path (vp p : spath) : Prop := vp <> p /\ forall name, base_name p = Some name -> vp <> temp_path p name.
Definition safe (vp : spath) (c : Command) : Prop := Forall (safe_path vp) (out_paths c).

(** What a command that changes the vault records in the audit log. *)
Definition audits (c : Command) (op : Operation) : Prop :=
  match c with
  | CShard args => op = OpShard (sa_threshold args) (sa_shares args)
  | CExport args => exists n r, xa_recipient args = Some r /\ op = OpExportShare n r
  | CRevoke n => op = OpRevoke n
  | CRotate tier_arg _ => exists f t, op = OpRotatePassphrase f t
  | _ => False
  end.

Definition mutates (c : Command) : bool :=
  match c with
  | CShard _ | CRevoke _ | CRotate _ _ => true
  | CExport args => bool_decide (is_Some (xa_recipient args))
  | _ => false
  end.

Definition revokes (c : Command) (s : gset Z) : gset Z := match c with CRevoke n => {[n]} ∪ s | _ => s end.

(** The data after a command took effect. *)
Definition effect (c : Command) (data data' : VaultData) : Prop :=
  exists e, audits c (ae_operation e) /\
    data' = MkVaultData (vd_master_seed data) (vd_keys data) (vd_audit_log data ++ [e]) (revokes c (vd_revoked_shares data)).

Definition passphrase_after (c : Command) (succeeded : bool) (pw : string) : string :=
  match c with CRotate _ new => if succeeded then new else pw | _ => pw end.

Lemma vault_dir_snoc (l : spath) (a : string) : vault_dir (l ++ [a]) = l.
Proof. unfold vault_dir, parent. destruct (l ++ [a]) eqn:E; [by destruct l|]. rewrite <- E. cbn. by rewrite removelast_last. Qed.

Section Sessions.
Context `{SK : Sdk, CC : ChanCrypto, NC : NetCryptoOps} {DS : DelegSign} {SO : SecretsOps} {SD : SecretsDocs} {IO : SecretsIo}.
Context {CO : ChanCryptoOk} {OK : SecretsOk}.

Definition run (vp : spath) (pw : string) (c : Command) : Cmd unit :=
  match c with
  | CShard args => cmd_shard args vp pw;; mret tt
  | CExport args => cmd_export_share args vp pw;; mret tt
  | CRevoke n => cmd_revoke_share n vp pw
  | CRotate tier_arg new => cmd_rotate_passphrase tier_arg new vp pw
  | CRecover args json => cmd_recover args pw json;; mret tt
  | CVerify args json => cmd_verify_secrets args vp pw json
  | CAudit args => cmd_audit args vp pw;; mret tt
  | CListKeys => cmd_list_keys vp pw;; mret tt
  | CListShares => cmd_list_shares vp pw;; mret tt
  | CHandoff args => cmd_handoff args vp (Some pw);; mret tt
  | CStatus => cmd_status vp (Some pw);; mret tt
  end.

(** Commands one after the other, each with the passphrase that is current. *)
Fixpoint session (vp : spath) (pw : string) (cs : list Command) (d : Disk) : list bool * string * Disk :=
  match cs with
  | [] => ([], pw, d)
  | c :: cs' =>
      let '(r, d1) := run vp pw c d in
      let '(oks, pw', d2) := session vp (passphrase_after c (is_ok r) pw) cs' d1 in (is_ok r :: oks, pw', d2)
  end.

(** *** Commands that do not change the vault *)

Lemma audit_signer_reads (s : bytes) : reads (audit_signer s).
Proof. unfold audit_signer. reading. Qed.
Lemma share_signer_reads (s : bytes) : reads (share_signer s).
Proof. unfold share_signer. reading. Qed.
Lemma timestamp_reads : reads timestamp_now.
Proof. unfold timestamp_now. reading. Qed.
Hint Resolve audit_signer_reads share_signer_reads timestamp_reads : disk.

Lemma for_each_reads {A B : Type} (f : A -> Cmd B) (l : list A) : (forall a, reads (f a)) -> reads (for_each f l).
Proof. intros H. induction l as [|a l IH]; cbn; reading. Qed.
Lemma preflight_reads (v : option spath) (pw : string) (ps : list spath) (r : Preflight) : reads (preflight_loop v pw ps r).
Proof. revert r. induction ps as [|p ps IH]; intros r; cbn; [reading|]. apply reads_bind; [eauto with disk|]. intros a. apply IH. Qed.
Lemma consistent_reads (k n : Z) (l : list Share) : reads (consistent k n l).
Proof. induction l as [|s l IH]; cbn; reading. Qed.
Lemma place_reads (n : Z) (l : list Share) (o : list (option bytes)) : reads (place_shares n l o).
Proof. revert o. induction l as [|s l IH]; intros o; cbn; reading. Qed.
Lemma check_signatures_reads (a b : bytes) (l : list Share) : reads (check_signatures a b l).
Proof. induction l as [|s l IH]; cbn; reading. Qed.
Hint Resolve preflight_reads consistent_reads place_reads check_signatures_reads : disk.
Lemma reconstruct_reads (l : list Share) : reads (reconstruct l).
Proof. unfold reconstruct. reading. Qed.
Lemma share_vault_reads (args : RecoverArgs) : reads (share_vault args).
Proof. unfold share_vault. reading. Qed.
Lemma load_carried_reads (p : spath) (pw : string) : reads (load_carried_vault p pw).
Proof. unfold load_carried_vault. reading. Qed.
Hint Resolve reconstruct_reads share_vault_reads load_carried_reads : disk.

Lemma safe_write (vp p : spath) (c : bytes) : safe_path vp p -> keeps_at vp (atomic_write p c).
Proof. intros [H1 H2]. by apply atomic_write_keeps. Qed.
Hint Resolve safe_write : disk.

Lemma write_recovered_keeps (vp p : spath) (seed : bytes) (pw : string) (t : MemoryTier) (c : option VaultData) :
  safe_path vp p -> keeps_at vp (write_recovered_vault p seed pw t c).
Proof. intros H. unfold write_recovered_vault. keeping. Qed.
Hint Resolve write_recovered_keeps : disk.

Lemma recover_keeps (vp : spath) (args : RecoverArgs) (pw : string) (json : bool) : safe vp (CRecover args json) -> keeps_at vp (cmd_recover args pw json).
Proof.
  unfold safe, cmd_recover. cbn. intros H. apply Forall_app in H as [H1 H2].
  destruct (ra_out args) as [o|]; [apply Forall_cons in H1 as [H1 _]|]; (destruct (ra_vault_out args) as [v|]; [apply Forall_cons in H2 as [H2 _]|]);
    keeping; apply reads_keeps; unfold run_preflight; reading; apply for_each_reads; eauto with disk.
Qed.

Lemma verify_keeps (vp : spath) (args : VerifyArgs) (v : spath) (pw : string) (json : bool) : keeps_at vp (cmd_verify_secrets args v pw json).
Proof. apply reads_keeps. unfold cmd_verify_secrets, verify_share, verify_vault, derive_share_signer. reading. Qed.

Lemma audit_keeps (vp : spath) (args : AuditArgs) (v : spath) (pw : string) : safe vp (CAudit args) -> keeps_at vp (cmd_audit args v pw).
Proof.
  unfold safe, cmd_audit, export_compliance. cbn. rewrite !Forall_app. intros (H1 & H2 & H3).
  destruct (aa_export_soc2 args) as [a|]; [apply Forall_cons in H1 as [H1 _]|]; (destruct (aa_export_pcidss args) as [b|]; [apply Forall_cons in H2 as [H2 _]|]);
    (destruct (aa_export_hipaa args) as [c|]; [apply Forall_cons in H3 as [H3 _]|]); keeping.
Qed.

Lemma list_loop_reads (v : spath) (pw : string) (names : list string) : reads (list_loop v pw names).
Proof. induction names as [|n l IH]; cbn [list_loop]; [reading|]. destruct (has_json_extension n); [|done]. reading. Qed.
Lemma list_shares_keeps (vp v : spath) (pw : string) : keeps_at vp (cmd_list_shares v pw).
Proof. pose proof list_loop_reads. apply reads_keeps. unfold cmd_list_shares. reading. Qed.
Lemma list_keys_keeps (vp v : spath) (pw : string) : keeps_at vp (cmd_list_keys v pw).
Proof. apply reads_keeps. unfold cmd_list_keys. reading. Qed.

Lemma handoff_keeps (vp : spath) (args : HandoffArgs) (v : spath) (pw : option string) : safe vp (CHandoff args) -> keeps_at vp (cmd_handoff args v pw).
Proof.
  unfold safe, cmd_handoff. cbn. intros [H _]%Forall_cons. keeping; apply reads_keeps; reading.
Qed.

Lemma status_keeps (vp v : spath) (pw : option string) : keeps_at vp (cmd_status v pw).
Proof. apply reads_keeps. unfold cmd_status. reading. Qed.

(** *** Commands that do *)

Lemma bind_keeps {A B : Type} (p : spath) (m : Cmd A) (f : A -> Cmd B) (d d' : Disk) (r : result Stop B) :
  keeps_at p m -> (m ≫= f) d = (r, d') ->
  (exists a d1, m d = (Ok a, d1) /\ dk_files d1 !! p = dk_files d !! p /\ f a d1 = (r, d')) \/ (exists e, r = Err e /\ dk_files d' !! p = dk_files d !! p).
Proof.
  intros Hm. specialize (Hm d). unfold mbind, SE_mbind. destruct (m d) as [[a|e] d1]; cbn in Hm.
  - intros H. left. by exists a, d1.
  - intros [= <- <-]. right. by exists e.
Qed.

(** Takes a prefix off that keeps the vault. *)
Local Ltac skip vp H a d1 E Ha :=
  apply (bind_keeps vp) in H; [destruct H as [(a & d1 & Ha & E & H)|(? & -> & E)]|].

(** Saving the opened vault with one more entry. *)
Lemma save_pushed (vp : spath) (pw name : string) (h : VaultHandle) (data : VaultData) (d d' : Disk) (r : result Stop VaultHandle) :
  base_name vp = Some name -> hd_path h = vp -> handle_ok h pw -> vault_save (with_data data h) d = (r, d') ->
  match r with Ok _ => opens (dk_files d' !! vp) pw (hd_tier h) data | Err _ => dk_files d' !! vp = dk_files d !! vp end.
Proof.
  intros Hn Hp Hh H. apply (vault_save_spec _ pw name) in H; [|by cbn; rewrite Hp|exact Hh]. destruct H as [_ H]. cbn in H. rewrite Hp in H. exact H.
Qed.

Lemma revoke_step (vp : spath) (pw name : string) (n : Z) (t : MemoryTier) (data : VaultData) (d d' : Disk) (r : result Stop unit) :
  base_name vp = Some name -> opens (dk_files d !! vp) pw t data -> cmd_revoke_share n vp pw d = (r, d') ->
  match r with
  | Ok _ => exists data', opens (dk_files d' !! vp) pw t data' /\ effect (CRevoke n) data data'
  | Err _ => dk_files d' !! vp = dk_files d !! vp
  end.
Proof.
  intros Hn Ho H. unfold cmd_revoke_share in H.
  skip vp H u d1 E1 _H; [|exact E1|apply reads_keeps; eauto with disk].
  skip vp H h d2 E2 Hh; [|congruence|apply reads_keeps; eauto with disk].
  apply vault_open_Ok in Hh as (Ho' & Hh & Hp & _). rewrite E1 in Ho'. destruct (opens_functional _ _ _ _ _ _ Ho Ho') as [-> ->].
  skip vp H u2 d3 E3 _H2; [|congruence|apply reads_keeps; eauto with disk].
  skip vp H ts d4 E4 _H3; [|congruence|apply reads_keeps; eauto with disk].
  skip vp H sg d5 E5 _H4; [|congruence|apply reads_keeps; eauto with disk].
  unfold mbind, SE_mbind in H. destruct (vault_save _ _) as [[h'|e] d6] eqn:Es; apply (save_pushed vp pw name) in Es; try done; injection H as <- <-; [|congruence].
  eexists. split; [exact Es|]. eexists. split; [|reflexivity]. done.
Qed.

Lemma rotate_step (vp : spath) (pw name tier_arg new : string) (t : MemoryTier) (data : VaultData) (d d' : Disk) (r : result Stop unit) :
  base_name vp = Some name -> opens (dk_files d !! vp) pw t data -> cmd_rotate_passphrase tier_arg new vp pw d = (r, d') ->
  match r with
  | Ok _ => exists t' data', tier_of_str tier_arg = Ok t' /\ opens (dk_files d' !! vp) new t' data' /\ effect (CRotate tier_arg new) data data'
  | Err _ => dk_files d' !! vp = dk_files d !! vp
  end.
Proof.
  intros Hn Ho H. unfold cmd_rotate_passphrase in H.
  skip vp H u d1 E1 _H; [|exact E1|apply reads_keeps; eauto with disk].
  skip vp H h d2 E2 Hh; [|congruence|apply reads_keeps; eauto with disk].
  apply vault_open_Ok in Hh as (Ho' & Hh & Hp & _). rewrite E1 in Ho'. destruct (opens_functional _ _ _ _ _ _ Ho Ho') as [-> ->].
  skip vp H t' d3 E3 Ht; [|congruence|apply reads_keeps; eauto with disk]. apply lift_err_Ok in Ht as [Ht ->].
  skip vp H ts d4 E4 _H3; [|congruence|apply reads_keeps; eauto with disk].
  skip vp H sg d5 E5 _H4; [|congruence|apply reads_keeps; eauto with disk].
  unfold mbind, SE_mbind in H. destruct (vault_rotate _ _ _ _) as [[h'|e] d6] eqn:Es; (apply (vault_rotate_spec _ _ name) in Es as [_ Es]; [|by cbn; rewrite Hp]);
    cbn in Es; rewrite Hp in Es; injection H as <- <-; [|congruence].
  eexists _, _. split_and!; [done|exact Es|]. eexists. split; [|reflexivity]. by eexists _, _.
Qed.

(** The shares directory is below the vault's. *)
Lemma shares_ne (vp : spath) (n : string) : vp <> shares_dir vp ++ [n].
Proof.
  intros E. apply (f_equal length) in E. unfold shares_dir in E. rewrite !length_app in E. destruct vp as [|a l _] using rev_ind; [cbn in E; lia|].
  rewrite vault_dir_snoc, length_app in E. cbn in E. lia.
Qed.

Lemma share_path_safe (vp : spath) (n : Z) : safe_path vp (share_path vp n).
Proof.
  split; [apply shares_ne|]. intros name _. unfold temp_path, share_path. rewrite removelast_last. apply shares_ne.
Qed.
Hint Resolve share_path_safe : disk.

Lemma clear_stale_keeps (vp : spath) (force : bool) (expected names : list string) : keeps_at vp (clear_stale force (shares_dir vp) expected names).
Proof.
  induction names as [|x names IH]; cbn; [keeping|]. destruct (_ && _); [|done]. destruct force; [|keeping].
  apply disk_keeps_bind; [apply keeps_remove; apply not_eq_sym, shares_ne|]. intros _. exact IH.
Qed.

Lemma encrypt_share_reads (s : Share) (seed : bytes) : reads (encrypt_share s seed).
Proof. unfold encrypt_share. reading. Qed.
Hint Resolve encrypt_share_reads : disk.

Lemma write_shares_keeps (vp : spath) (seed : bytes) (mk : nat -> bytes -> Share) (i : nat) (shards : list bytes) :
  keeps_at vp (write_shares vp seed mk i shards).
Proof. revert i. induction shards as [|x l IH]; intros i; cbn; keeping. Qed.

Lemma shard_step (vp : spath) (pw name : string) (args : ShardArgs) (t : MemoryTier) (data : VaultData) (d d' : Disk) (r : result Stop (list Share)) :
  base_name vp = Some name -> opens (dk_files d !! vp) pw t data -> cmd_shard args vp pw d = (r, d') ->
  match r with
  | Ok _ => exists data', opens (dk_files d' !! vp) pw t data' /\ effect (CShard args) data data'
  | Err _ => dk_files d' !! vp = dk_files d !! vp
  end.
Proof.
  intros Hn Ho H. unfold cmd_shard in H.
  skip vp H u d1 E1 _H; [|exact E1|apply reads_keeps; eauto with disk].
  skip vp H u2 d2 E2 _H1; [|congruence|apply reads_keeps; eauto with disk].
  skip vp H h d3 E3 Hh; [|congruence|apply reads_keeps; eauto with disk].
  apply vault_open_Ok in Hh as (Ho' & Hh & Hp & _). rewrite E2, E1 in Ho'. destruct (opens_functional _ _ _ _ _ _ Ho Ho') as [-> ->].
  skip vp H shards d4 E4 _H2; [|congruence|apply reads_keeps; eauto with disk].
  skip vp H sg d5 E5 _H3; [|congruence|apply reads_keeps; eauto with disk].
  skip vp H u3 d6 E6 _H4; [|congruence|apply reads_keeps; eauto with disk].
  skip vp H u4 d7 E7 _H5; [|congruence|apply reads_keeps; eauto with disk].
  skip vp H names d8 E8 _H6; [|congruence|apply reads_keeps; eauto with disk].
  skip vp H u5 d9 E9 _H7; [|congruence|apply clear_stale_keeps].
  skip vp H ts d10 E10 _H8; [|congruence|apply reads_keeps; eauto with disk].
  skip vp H ws d11 E11 _H9; [|congruence|apply write_shares_keeps].
  unfold mbind, SE_mbind in H. destruct (vault_save _ _) as [[h'|e] d12] eqn:Es; apply (save_pushed vp pw name) in Es; try done; injection H as <- <-; [|congruence].
  eexists. split; [exact Es|]. eexists. split; [|reflexivity]. done.
Qed.

Lemma re_sign_step (vp : spath) (pw name recipient : string) (share : Share) (t : MemoryTier) (data : VaultData) (d d' : Disk) (r : result Stop Share) :
  base_name vp = Some name -> opens (dk_files d !! vp) pw t data -> re_sign_for_recipient vp pw share recipient d = (r, d') ->
  match r with
  | Ok _ => exists e, opens (dk_files d' !! vp) pw t (push_audit e data) /\ ae_operation e = OpExportShare (sh_share_number share) recipient
  | Err _ => dk_files d' !! vp = dk_files d !! vp
  end.
Proof.
  intros Hn Ho H. unfold re_sign_for_recipient in H.
  skip vp H h d3 E3 Hh; [|congruence|apply reads_keeps; eauto with disk].
  apply vault_open_Ok in Hh as (Ho' & Hh & Hp & _). destruct (opens_functional _ _ _ _ _ _ Ho Ho') as [-> ->].
  skip vp H sg d5 E5 _H3; [|congruence|apply reads_keeps; eauto with disk].
  skip vp H ts d6 E6 _H4; [|congruence|apply reads_keeps; eauto with disk].
  unfold mbind, SE_mbind in H. destruct (vault_save _ _) as [[h'|e] d12] eqn:Es; apply (save_pushed vp pw name) in Es; try done; injection H as <- <-; [|congruence].
  eexists. split; [exact Es|]. done.
Qed.

Lemma export_step (vp : spath) (pw name : string) (args : ExportArgs) (t : MemoryTier) (data : VaultData) (d d' : Disk) (r : result Stop Share) :
  base_name vp = Some name -> safe vp (CExport args) -> opens (dk_files d !! vp) pw t data -> cmd_export_share args vp pw d = (r, d') ->
  (exists data', opens (dk_files d' !! vp) pw t data' /\ effect (CExport args) data data' /\ is_Some (xa_recipient args)) \/
  ((is_ok r = false \/ xa_recipient args = None) /\ dk_files d' !! vp = dk_files d !! vp).
Proof.
  intros Hn Hs Ho H. apply Forall_cons in Hs as [Hs _]. unfold cmd_export_share in H.
  skip vp H u d1 E1 _H; [|by right; split; [left|]|apply reads_keeps; eauto with disk].
  skip vp H b d2 E2 _H1; [|right; split; [by left|congruence]|apply reads_keeps; eauto with disk].
  skip vp H u2 d3 E3 _H2; [|right; split; [by left|congruence]|apply reads_keeps; eauto with disk].
  skip vp H s0 d4 E4 _H3; [|right; split; [by left|congruence]|apply reads_keeps; eauto with disk].
  assert (forall s, keeps_at vp (json ← lift_err SecIoError (share_to_string s); taken ← path_exists (xa_out args);
                            ensure (xa_force args || negb taken) (FileAlreadyExists (xa_out args));; atomic_write (xa_out args) json;; mret s)) as Hk
    by (intros s; keeping).
  destruct (xa_recipient args) as [rec|] eqn:Er.
  - unfold mbind at 1, SE_mbind at 1 in H. destruct (re_sign_for_recipient vp pw s0 rec d4) as [[s1|e] d5] eqn:Es;
      apply (re_sign_step vp pw name _ _ t data) in Es; try done; try (by rewrite E4, E3, E2, E1).
    + destruct Es as (e & Hop & He). left. pose proof (Hk s1 d5) as Hd. rewrite H in Hd. cbn in Hd. rewrite Hd.
      eexists. split_and!; [exact Hop| |done]. exists e. split; [|done]. rewrite He. by eexists _, _.
    + injection H as <- <-. right. split; [by left|congruence].
  - right. split; [by right|]. unfold mbind at 1, SE_mbind at 1 in H. cbn [mret SE_mret] in H. pose proof (Hk s0 d4) as Hd. rewrite H in Hd. cbn in Hd. congruence.
Qed.

(** A command that returns nothing: the result and the files of the command itself. *)
Lemma discard_Ok {A : Type} (m : Cmd A) (d d' : Disk) (r : result Stop unit) :
  (m;; mret tt) d = (r, d') -> exists r0, m d = (r0, d') /\ is_ok r = is_ok r0.
Proof. unfold mbind, SE_mbind. destruct (m d) as [[a|e] d1]; intros [= <- <-]; by eexists. Qed.

Lemma run_step (vp : spath) (pw name : string) (c : Command) (t : MemoryTier) (data : VaultData) (d d' : Disk) (r : result Stop unit) :
  base_name vp = Some name -> safe vp c -> opens (dk_files d !! vp) pw t data -> run vp pw c d = (r, d') ->
  exists t' data', opens (dk_files d' !! vp) (passphrase_after c (is_ok r) pw) t' data' /\
    ((mutates c = true /\ effect c data data') \/ (data' = data /\ (mutates c = false \/ is_ok r = false))).
Proof.
  intros Hn Hs Ho H.
  assert (mutates c = false -> keeps_at vp (run vp pw c) -> passphrase_after c (is_ok r) pw = pw ->
    exists t' data', opens (dk_files d' !! vp) (passphrase_after c (is_ok r) pw) t' data' /\
    ((mutates c = true /\ effect c data data') \/ (data' = data /\ (mutates c = false \/ is_ok r = false)))) as Hquiet.
  { intros Hm Hk ->. specialize (Hk d). rewrite H in Hk. cbn in Hk. rewrite Hk. exists t, data. split; [done|]. right. split; [done|by left]. }
  destruct c as [args|args|n|ta new|args json|args json|args| | |args|]; try (apply Hquiet; [done|cbn [run]|done]);
    try (apply disk_keeps_bind; [|intros ?; by apply reads_keeps]); auto using recover_keeps, verify_keeps, audit_keeps, list_keys_keeps, list_shares_keeps, handoff_keeps, status_keeps.
  - apply discard_Ok in H as (r0 & H & Er). apply (shard_step _ _ name _ t data) in H; [|done..]. destruct r0 as [ws|e]; cbn.
    + destruct H as (data' & H1 & H2). exists t, data'. split; [done|]. by left.
    + exists t, data. split; [by rewrite H|]. right. split; [done|by right].
  - apply discard_Ok in H as (r0 & H & Er). apply (export_step _ _ name _ t data) in H as [(data' & H1 & H2 & H3)|[H1 H2]]; [| |done..]; cbn [mutates passphrase_after].
    + exists t, data'. split; [done|]. left. split; [by apply bool_decide_eq_true|done].
    + exists t, data. split; [by rewrite H2|]. right. split; [done|]. destruct H1 as [H1| ->]; [right; congruence|left; by apply bool_decide_eq_false, eq_None_not_Some].
  - apply (revoke_step _ _ name _ t data) in H; [|done..]. destruct r as [[]|e]; cbn.
    + destruct H as (data' & H1 & H2). exists t, data'. split; [done|]. by left.
    + exists t, data. split; [by rewrite H|]. right. split; [done|by right].
  - apply (rotate_step _ _ name _ _ t data) in H; [|done..]. destruct r as [[]|e]; cbn.
    + destruct H as (t' & data' & _ & H1 & H2). exists t', data'. split; [done|]. by left.
    + exists t, data. split; [by rewrite H|]. right. split; [done|by right].
Qed.

(** The entries that a run of commands added: one for each command that
    took effect, in order; those that succeeded all did. *)
Inductive logged : list Command -> list bool -> list AuditEntry -> Prop :=
| logged_nil : logged [] [] []
| logged_effect (c : Command) (cs : list Command) (b : bool) (oks : list bool) (e : AuditEntry) (es : list AuditEntry) :
    mutates c = true -> audits c (ae_operation e) -> logged cs oks es -> logged (c :: cs) (b :: oks) (e :: es)
| logged_none (c : Command) (cs : list Command) (b : bool) (oks : list bool) (es : list AuditEntry) :
    mutates c = false \/ b = false -> logged cs oks es -> logged (c :: cs) (b :: oks) es.

Definition revoked_by (es : list AuditEntry) : gset Z :=
  list_to_set (omap (fun e => match ae_operation e with OpRevoke n => Some n | _ => None end) es).

(** C13: However many commands are run, with whatever failures in
    between, the vault file opens with the current passphrase (the one of the
    last rotation that succeeded), its seed and keys are the same, its audit
    log kept everything and gained exactly the entries of the commands that
    took effect, and the revoked shares are those and the ones logged since. *)
Theorem vault_survives (vp : spath) (pw name : string) (cs : list Command) (t : MemoryTier) (data : VaultData) (d : Disk) :
  base_name vp = Some name -> Forall (safe vp) cs -> opens (dk_files d !! vp) pw t data ->
  let '(oks, pw', d') := session vp pw cs d in
  exists t' data' es, opens (dk_files d' !! vp) pw' t' data' /\
    vd_master_seed data' = vd_master_seed data /\ vd_keys data' = vd_keys data /\
    vd_audit_log data' = vd_audit_log data ++ es /\ logged cs oks es /\
    vd_revoked_shares data' = vd_revoked_shares data ∪ revoked_by es.
Proof.
  intros Hn Hs. revert pw t data d. induction cs as [|c cs IH]; intros pw t data d Ho; cbn [session].
  { exists t, data, []. rewrite app_nil_r. split_and!; try done; [constructor|]. unfold revoked_by. cbn. set_solver. }
  apply Forall_cons in Hs as [Hc Hs]. destruct (run vp pw c d) as [r d1] eqn:Er.
  destruct (run_step _ _ _ _ _ _ _ _ _ Hn Hc Ho Er) as (t1 & data1 & Ho1 & Hstep).
  specialize (IH Hs _ _ _ _ Ho1). destruct (session _ _ cs d1) as [[oks pw'] d2]. destruct IH as (t' & data' & es & H1 & H2 & H3 & H4 & H5 & H6).
  destruct Hstep as [[Hm (e & He & ->)]|[-> Hno]]; cbn in H2, H3, H4, H6.
  - exists t', data', (e :: es). split_and!; try done; [by rewrite H4, <- (assoc_L (++))|by apply logged_effect|].
    rewrite H6. unfold revoked_by. cbn [omap list_omap]. destruct c; cbn in *; try discriminate; try (rewrite He; cbn; set_solver).
    + destruct He as (n & rr & _ & ->). cbn. set_solver.
    + destruct He as (f & tt' & ->). cbn. set_solver.
  - exists t', data', es. split_and!; try done. by apply logged_none.
Qed.
End Sessions.
#[export] Hint Resolve encrypt_share_reads safe_write : disk.

(** ** Recovery *)

Lemma share_numbers : Forall (fun n => enc_share_number [share_name n] = n) (seqZ 1 255).
Proof. apply (bool_decide_eq_true_1 _). vm_compute. reflexivity. Qed.

Lemma enc_share_path (vp : spath) (n : Z) : 1 <= n <= 255 -> enc_share_number (share_path vp n) = n.
Proof.
  intros Hn. pose proof share_numbers as H. rewrite Forall_forall in H. specialize (H n). rewrite elem_of_seqZ in H.
  unfold enc_share_number, base_name, share_path in *. rewrite last_snoc. apply H. lia.
Qed.

Lemma share_path_inj (vp : spath) (n m : Z) : 1 <= n <= 255 -> 1 <= m <= 255 -> share_path vp n = share_path vp m -> n = m.
Proof. intros Hn Hm E. rewrite <- (enc_share_path vp n Hn), E. by apply enc_share_path. Qed.

Lemma share_not_temp (vp : spath) (n m : Z) (name : string) : share_path vp n <> temp_path (share_path vp m) name.
Proof.
  unfold temp_path, share_path. rewrite removelast_last. intros [_ E]%app_inj_tail. discriminate.
Qed.

Lemma share_path_length (vp p : spath) (n : Z) : vp <> [] -> length p = length vp -> share_path vp n <> p.
Proof.
  intros Hne Hl E. apply (f_equal length) in E. unfold share_path, shares_dir in E. destruct vp as [|a l _] using rev_ind; [done|].
  rewrite vault_dir_snoc in E. rewrite !length_app in *. cbn in E, Hl. lia.
Qed.

Section Recovery.
Context `{SK : Sdk, CC : ChanCrypto, NC : NetCryptoOps} {DS : DelegSign} {SO : SecretsOps} {SD : SecretsDocs} {IO : SecretsIo}.
Context {CO : ChanCryptoOk} {OK : SecretsOk} {HA : HashOk} {DO : DelegOk}.

(** A share file that holds the share, sealed under the seed. *)
Definition sealed (file : option bytes) (seed : bytes) (share : Share) : Prop :=
  exists raw enc pt, file = Some raw /\ utf8_valid raw = true /\ encshare_from_str raw = Ok enc /\
    xchacha_decrypt (derive_share_enc_key seed (sh_share_number share)) (es_nonce enc) (es_ciphertext enc) = Ok pt /\ share_from_slice pt = Ok share.

Lemma encrypt_share_Ok (share : Share) (seed json : bytes) (enc : EncryptedShare) (d d' : Disk) :
  encrypt_share share seed d = (Ok enc, d') -> encshare_to_string enc = Ok json -> sealed (Some json) seed share.
Proof.
  unfold encrypt_share. rewrite SE_bind_Ok. intros (nonce & d1 & Hn%random_array_Ok & H) Hj.
  apply SE_bind_Ok in H as (pt & d2 & [Hp ->]%lift_err_Ok & H). apply SE_bind_Ok in H as (ct & d3 & [Hc ->]%lift_err_Ok & H). injection H as <- <-.
  destruct (encshare_read _ _ Hj) as [He Hu]. destruct (share_read _ _ Hp) as [Hs _].
  destruct (xchacha_total (derive_share_enc_key seed (sh_share_number share)) nonce pt) as (c & Hc' & _ & Hd); [apply blake3_len|done|].
  rewrite Hc in Hc'. injection Hc' as <-. exists json. eexists _, pt. split_and!; try done.
Qed.

Lemma write_shares_keeps_before (vp : spath) (seed : bytes) (mk : nat -> bytes -> Share) (i : nat) (shards : list bytes) (n : Z) :
  (forall i data, sh_share_number (mk i data) = Z.of_nat (i + 1) mod 256) -> (i + length shards <= 255)%nat -> 1 <= n <= Z.of_nat i ->
  keeps_at (share_path vp n) (write_shares vp seed mk i shards).
Proof.
  intros Hmk. revert i. induction shards as [|x l IH]; intros i Hlen Hn; cbn [write_shares]; [apply reads_keeps, reads_ret|]. cbn in Hlen.
  assert (keeps_at (share_path vp n) (write_shares vp seed mk (S i) l)) as Hrest by (apply IH; lia).
  assert (safe_path (share_path vp n) (share_path vp (sh_share_number (mk i x)))) as Hsafe.
  { split; [|intros name _; apply share_not_temp]. rewrite Hmk, Z.mod_small by lia. intros E%share_path_inj; lia. }
  keeping.
Qed.

Lemma write_shares_sealed (vp : spath) (seed : bytes) (mk : nat -> bytes -> Share) (i : nat) (shards : list bytes) (ws : list Share) (d d' : Disk) :
  (forall i data, sh_share_number (mk i data) = Z.of_nat (i + 1) mod 256) -> (i + length shards <= 255)%nat ->
  write_shares vp seed mk i shards d = (Ok ws, d') ->
  forall j x, shards !! j = Some x -> sealed (dk_files d' !! share_path vp (Z.of_nat (i + j + 1))) seed (mk (i + j)%nat x).
Proof.
  intros Hmk. revert i ws d. induction shards as [|x l IH]; intros i ws d Hlen H j y Hj; [done|]. cbn in Hlen. cbn [write_shares] in H.
  apply SE_bind_Ok in H as (enc & d1 & He & H). apply SE_bind_Ok in H as (json & d2 & [Hjs ->]%lift_err_Ok & H).
  apply SE_bind_Ok in H as ([] & d3 & Hw & H). apply SE_bind_Ok in H as (ws' & d4 & Hr & H). injection H as <- <-.
  destruct j as [|j].
  - injection Hj as <-. replace (i + 0)%nat with i by lia. pose proof (write_shares_keeps_before vp seed mk (S i) l (Z.of_nat (i + 1)) Hmk ltac:(lia) ltac:(lia) d3) as Hk.
    rewrite Hr in Hk. cbn in Hk. rewrite Hk.
    assert (base_name (share_path vp (sh_share_number (mk i x))) = Some (share_name (sh_share_number (mk i x)))) as Hb by apply last_snoc.
    apply (atomic_write_spec _ _ _ _ _ _ Hb) in Hw as [_ Hw]. rewrite Hmk, Z.mod_small in Hw by lia. rewrite Hw. by eapply encrypt_share_Ok.
  - replace (i + S j + 1)%nat with (S i + j + 1)%nat by lia. replace (i + S j)%nat with (S i + j)%nat by lia. by eapply (IH (S i)); [lia| |].
Qed.

(** No I/O error happens. *)
Context (quiet : forall t, s_fault t = None).

Lemma read_to_string_run (p : spath) (raw : bytes) (d : Disk) :
  dk_files d !! p = Some raw -> utf8_valid raw = true -> read_to_string p d = (Ok (Some raw), bump d).
Proof. intros Hf Hu. unfold read_to_string, next_tick, gets, mbind, SE_mbind. cbn. by rewrite quiet, Hf, Hu. Qed.

Lemma vault_open_run (p : spath) (pw : string) (t : MemoryTier) (data : VaultData) (d : Disk) :
  opens (dk_files d !! p) pw t data -> exists h d', vault_open p pw d = (Ok h, d') /\ hd_data h = data /\ dk_files d' = dk_files d.
Proof.
  intros (raw & v & key & pt & Hf & Hu & Hv & Ht & Hk & Hl & Hp & Hd). unfold vault_open, mbind, SE_mbind.
  rewrite (read_to_string_run _ raw) by done. unfold lift_err, lift. rewrite Hv. cbn [map_err].
  unfold derive_vault_key, decrypt_vault_data, lift_err, lift, mbind, SE_mbind. rewrite Ht, Hk. cbn [map_err]. rewrite bool_decide_eq_true_2 by done.
  cbn [mret SE_mret]. rewrite Hp. cbn [map_err]. rewrite Hd. cbn. eexists _, _. split; [reflexivity|]. done.
Qed.

(** An expiry that is absent, unreadable or ahead of every reading of the clock. *)
Definition expiry_ahead (expires_at : option string) : Prop :=
  match expires_at with
  | None => True
  | Some e => match chrono_parse e with None => False | Some (Ok x) => forall t, s_clock t < x | Some (Err _) => True end
  end.

Definition not_expired (share : Share) : Prop := expiry_ahead (sh_expires_at share).

Lemma read_share_run (p vp : spath) (pw : string) (t : MemoryTier) (data : VaultData) (share : Share) (d : Disk) :
  sealed (dk_files d !! p) (vd_master_seed data) share -> opens (dk_files d !! vp) pw t data -> enc_share_number p = sh_share_number share ->
  not_expired share -> (sh_share_number share ∉ vd_revoked_shares data) ->
  exists d', read_share_file p (Some vp) pw d = (Ok share, d') /\ dk_files d' = dk_files d.
Proof.
  intros (raw & enc & pt & Hf & Hu & He & Hx & Hs) Ho Hnum Hexp Hrev. unfold read_share_file, mbind, SE_mbind. rewrite (read_to_string_run _ raw) by done.
  destruct (vault_open_run vp pw t data (bump d) Ho) as (h & d1 & Eh & Hd & Ef). rewrite Eh. cbn [mret SE_mret]. rewrite He.
  unfold decrypt_share, lift_err, lift, mbind, SE_mbind. rewrite Hnum, Hd, Hx. cbn [map_err]. rewrite Hs. cbn [map_err].
  unfold not_expired, expiry_ahead in Hexp. destruct (sh_expires_at share) as [e|].
  - destruct (chrono_parse e) as [[x|err]|]; [| |done]; unfold clock_secs, next_tick, mbind, SE_mbind; cbn.
    + destruct (Z.leb_spec x (s_clock (dk_tick d1))) as [Hle|_]; [specialize (Hexp (dk_tick d1)); lia|].
      rewrite bool_decide_eq_false_2 by done. eexists. split; [reflexivity|]. done.
    + rewrite bool_decide_eq_false_2 by done. eexists. split; [reflexivity|]. done.
  - cbn. rewrite bool_decide_eq_false_2 by done. eexists. split; [reflexivity|]. done.
Qed.

(** The share of a number in a generation. *)
Definition nth_share (mk : nat -> bytes -> Share) (shards : list bytes) (n : Z) : Share :=
  mk (Z.to_nat (n - 1)) (default [] (shards !! Z.to_nat (n - 1))).

Lemma read_all_run (vp : spath) (pw : string) (t : MemoryTier) (data : VaultData) (share_of : Z -> Share) (ns : list Z) (d : Disk) :
  (forall n, n ∈ ns -> 1 <= n <= 255 /\ sealed (dk_files d !! share_path vp n) (vd_master_seed data) (share_of n) /\ sh_share_number (share_of n) = n /\
     not_expired (share_of n) /\ (n ∉ vd_revoked_shares data)) ->
  opens (dk_files d !! vp) pw t data ->
  exists d', for_each (fun p => read_share_file p (Some vp) pw) (map (share_path vp) ns) d = (Ok (map share_of ns), d').
Proof.
  revert d. induction ns as [|n ns IH]; intros d Hall Ho; [by eexists|]. cbn [map for_each].
  destruct (Hall n ltac:(left)) as (Hr & Hs & Hn & He & Hv).
  destruct (read_share_run (share_path vp n) vp pw t data (share_of n) d) as (d1 & E1 & F1); [done..|by rewrite Hn, enc_share_path|done|by rewrite Hn|].
  destruct (IH d1) as (d2 & E2); [|by rewrite F1|].
  { intros m Hm. rewrite F1. apply Hall. by right. }
  unfold mbind, SE_mbind. rewrite E1, E2. cbn. by eexists.
Qed.

Lemma consistent_run (k n : Z) (l : list Share) (d : Disk) :
  Forall (fun s => sh_threshold s = k /\ sh_total_shares s = n) l -> consistent k n l d = (Ok tt, d).
Proof. induction 1 as [|s l [Hk Hn] _ IH]; cbn [consistent]; [done|]. by rewrite Hk, Hn, !Z.eqb_refl. Qed.

Lemma place_shares_run (total : Z) (shards : list bytes) (l : list Share) (opts : list (option bytes)) (d : Disk) :
  length opts = Z.to_nat total ->
  Forall (fun s => 1 <= sh_share_number s <= total /\ shards !! Z.to_nat (sh_share_number s - 1) = Some (sh_share_data s)) l ->
  (forall i b, opts !! i = Some (Some b) -> shards !! i = Some b) ->
  exists opts', place_shares total l opts d = (Ok opts', d) /\ length opts' = Z.to_nat total /\
    (forall i b, opts' !! i = Some (Some b) -> shards !! i = Some b) /\
    (forall i, (exists b, opts !! i = Some (Some b)) \/ i ∈ map (fun s => Z.to_nat (sh_share_number s - 1)) l -> exists b, opts' !! i = Some (Some b)).
Proof.
  intros Hlen Hall. revert opts Hlen. induction Hall as [|s l [Hr Hd] _ IH]; intros opts Hlen Hok; cbn [place_shares].
  { exists opts. split_and!; try done. by intros i [H|?%elem_of_nil]. }
  unfold sat_sub_u. rewrite Z.max_r by lia. destruct (Z.ltb_spec (sh_share_number s - 1) total); [|lia].
  set (k := Z.to_nat (sh_share_number s - 1)) in *. assert (k < length opts)%nat as Hk by lia.
  destruct (IH (<[k := Some (sh_share_data s)]> opts)) as (o & E & L & H1 & H2).
  - by rewrite length_insert.
  - intros i b. destruct (decide (i = k)) as [->|]; [rewrite list_lookup_insert_eq by done; by intros [= <-]|rewrite list_lookup_insert_ne by done; apply Hok].
  - exists o. split_and!; try done. intros i Hi. apply H2. cbn [map] in Hi. rewrite elem_of_cons in Hi.
    destruct (decide (i = k)) as [->|Hne]; [left; rewrite list_lookup_insert_eq by done; by eexists|]. rewrite list_lookup_insert_ne by done.
    destruct Hi as [?|[->|?]]; [by left|done|by right].
Qed.

Lemma to_from_sdk (s : EdSig * FalconSig) : to_sdk (from_sdk s) = Ok s.
Proof.
  unfold to_sdk, from_sdk. cbn [hs_ed25519 hs_falcon1024]. rewrite bool_decide_eq_true_2 by apply ed_len.
  rewrite ed_parse. cbn [mbind result_mbind]. rewrite falcon_parse. by destruct s.
Qed.

Lemma check_signatures_run (b : KeyBundle) (l : list Share) (d : Disk) :
  Forall (fun s => sh_signature s = from_sdk (sign_hybrid b (signed_message s))) l ->
  check_signatures (bundle_ed25519_pk b) (bundle_falcon1024_pk b) l d = (Ok tt, d).
Proof.
  induction 1 as [|s l Hs _ IH]; cbn [check_signatures]; [done|]. rewrite Hs, to_from_sdk. unfold mbind, SE_mbind, lift_err, lift. cbn [map_err].
  by rewrite deleg_verifies.
Qed.

Lemma reconstruct_run (seed : bytes) (k n : Z) (shards : list bytes) (signer : KeyBundle) (l : list Share) (d : Disk) :
  1 <= k <= n -> n <= 255 -> length seed = 32%nat -> rs_encode_shards (Z.to_nat k) (Z.to_nat (n - k)) seed = Ok shards ->
  bundle_from_seed seed SHARE_SIGNING_DOMAIN = Ok signer ->
  Forall (fun s => sh_threshold s = k /\ sh_total_shares s = n) l ->
  Forall (fun s => 1 <= sh_share_number s <= n /\ shards !! Z.to_nat (sh_share_number s - 1) = Some (sh_share_data s)) l ->
  Forall (fun s => sh_signature s = from_sdk (sign_hybrid signer (signed_message s))) l ->
  NoDup (map sh_share_number l) -> k <= Z.of_nat (length l) ->
  reconstruct l d = (Ok seed, d).
Proof.
  intros Hk Hn Hseed Henc Hsig Hc Hp Hs Hnd Hlen. destruct l as [|s0 l0]; [cbn in Hlen; lia|].
  assert (sh_threshold s0 = k /\ sh_total_shares s0 = n) as [E1 E2] by (by apply Forall_cons in Hc as [? _]).
  unfold reconstruct. rewrite E1, E2. set (l := s0 :: l0) in *. unfold mbind, SE_mbind. rewrite consistent_run by done.
  unfold ensure. destruct (Z.leb_spec k (Z.of_nat (length l))); [|lia]. cbn [mret SE_mret].
  destruct (place_shares_run n shards l (replicate (Z.to_nat n) None) d) as (opts & -> & L & H1 & H2); [apply length_replicate|done| |].
  { intros i b [Hi _]%lookup_replicate. done. }
  unfold lift_err, lift, wrap_u64, wrap_u. rewrite Z.mod_small by lia. rewrite <- Hseed.
  rewrite (rs_decodes _ _ _ _ _ (map (fun s => Z.to_nat (sh_share_number s - 1)) l) Henc); cbn [map_err].
  - rewrite bool_decide_eq_true_2 by done. cbn [mret SE_mret]. unfold share_signer, lift_err, lift. rewrite Hsig. cbn [map_err].
    by rewrite check_signatures_run.
  - lia.
  - exact H1.
  - replace (map (fun s => Z.to_nat (sh_share_number s - 1)) l) with (map (fun x => Z.to_nat (x - 1)) (map sh_share_number l)) by by rewrite map_map.
    apply NoDup_fmap_2_strong; [|done]. intros x y Hx Hy E.
    assert (forall z, z ∈ map sh_share_number l -> 1 <= z) as Hr.
    { intros z (s & -> & Hin)%list_elem_of_fmap. rewrite Forall_forall in Hp. by destruct (Hp s Hin) as [[? _] _]. }
    specialize (Hr x Hx) as Hx'. specialize (Hr y Hy) as Hy'. lia.
  - rewrite length_map. lia.
  - intros i Hi. apply H2. by right.
Qed.

Lemma shard_sealed (args : ShardArgs) (vp : spath) (pw name : string) (t : MemoryTier) (data : VaultData) (ws : list Share) (d d' : Disk) :
  base_name vp = Some name -> opens (dk_files d !! vp) pw t data -> 0 <= sa_threshold args -> sa_shares args <= 255 ->
  cmd_shard args vp pw d = (Ok ws, d') ->
  1 <= sa_threshold args <= sa_shares args /\
  exists signer ts shards, bundle_from_seed (vd_master_seed data) SHARE_SIGNING_DOMAIN = Ok signer /\
    rs_encode_shards (Z.to_nat (sa_threshold args)) (Z.to_nat (sa_shares args - sa_threshold args)) (vd_master_seed data) = Ok shards /\
    forall j x, shards !! j = Some x -> sealed (dk_files d' !! share_path vp (Z.of_nat (j + 1))) (vd_master_seed data) (make_share args signer ts j x).
Proof.
  intros Hn Ho Hk0 Hn255 H. unfold cmd_shard in H.
  apply SE_bind_Ok in H as (u1 & d1 & H1 & H). apply SE_bind_Ok in H as (u2 & d2 & H2 & H).
  apply ensure_Ok in H1 as [_ ->]. apply ensure_Ok in H2 as [Ek ->].
  apply negb_true_iff, orb_false_iff in Ek as [Ek1 Ek2]. split; [lia|].
  apply SE_bind_Ok in H as (h & d3 & Hh & H). apply vault_open_Ok in Hh as (Ho' & Hh & Hpath & Ef).
  destruct (opens_functional _ _ _ _ _ _ Ho Ho') as [-> ->].
  apply SE_bind_Ok in H as (shards & d4 & [He ->]%lift_err_Ok & H). apply SE_bind_Ok in H as (signer & d5 & [Hs ->]%lift_err_Ok & H).
  apply SE_bind_Ok in H as (u3 & d6 & _ & H). apply SE_bind_Ok in H as (u4 & d7 & _ & H). apply SE_bind_Ok in H as (names & d8 & _ & H).
  apply SE_bind_Ok in H as (u5 & d9 & _ & H). apply SE_bind_Ok in H as (ts & d10 & _ & H). apply SE_bind_Ok in H as (ws' & d11 & Hw & H).
  apply SE_bind_Ok in H as (h' & d12 & Hsave & H). injection H as <- <-.
  exists signer, ts, shards. split_and!; [done..|]. intros j x Hj.
  pose proof (rs_encodes _ _ _ _ He) as Hlen. pose proof (lookup_lt_Some _ _ _ Hj) as Hjl.
  apply (vault_save_spec _ pw name) in Hsave as [Hframe _]; [|cbn; rewrite Hpath; exact Hn|exact Hh].
  cbn [with_data hd_path] in Hframe. rewrite Hpath in Hframe. rewrite Hframe.
  - pose proof (write_shares_sealed vp _ (make_share args signer ts) 0 shards ws' d10 d11 (fun _ _ => eq_refl) ltac:(lia) Hw j x Hj) as Hz. exact Hz.
  - apply share_path_length; [by intros ->|]. unfold temp_path. rewrite length_app. destruct vp as [|a l _] using rev_ind; [done|]. by rewrite removelast_last, length_app.
  - apply share_path_length; [by intros ->|done].
Qed.

(** C28: Without I/O errors, any set of at least [threshold] share files
    that [shard] wrote, none of them revoked or expired, gives the master
    seed back to [recover], whatever was drawn and whatever the clock showed. *)
Theorem shard_recover (args : ShardArgs) (vp : spath) (pw name : string) (t : MemoryTier) (data : VaultData) (ws : list Share) (ns : list Z) (d d1 : Disk) :
  base_name vp = Some name -> opens (dk_files d !! vp) pw t data -> length (vd_master_seed data) = 32%nat ->
  0 <= sa_threshold args -> sa_shares args <= 255 -> expiry_ahead (sa_expires args) ->
  cmd_shard args vp pw d = (Ok ws, d1) ->
  NoDup ns -> Forall (fun n => 1 <= n <= sa_shares args /\ (n ∉ vd_revoked_shares data)) ns -> sa_threshold args <= Z.of_nat (length ns) ->
  exists d2, cmd_recover (MkRecoverArgs (map (share_path vp) ns) None None (Some vp) "standard" false false) pw true d1 =
             (Ok (vd_master_seed data), d2).
Proof.
  intros Hn Ho Hseed Hk0 Hn255 Hexp Hshard Hnd Hns Hlen.
  destruct (shard_sealed _ _ _ _ _ _ _ _ _ Hn Ho Hk0 Hn255 Hshard) as (Hkn & signer & ts & shards & Hsig & Henc & Hsealed).
  pose proof (shard_step _ _ _ _ _ _ _ _ _ Hn Ho Hshard) as (data' & Ho' & e & _ & ->).
  pose proof (rs_encodes _ _ _ _ Henc) as Hsl. set (share_of := nth_share (make_share args signer ts) shards).
  assert (forall n, n ∈ ns -> 1 <= n <= sa_shares args /\ (n ∉ vd_revoked_shares data) /\ exists x, shards !! Z.to_nat (n - 1) = Some x /\
     share_of n = make_share args signer ts (Z.to_nat (n - 1)) x /\ sh_share_number (share_of n) = n) as Hof.
  { intros n Hin. rewrite Forall_forall in Hns. destruct (Hns n Hin) as [Hr Hv]. split_and!; [lia|lia|done|].
    destruct (lookup_lt_is_Some_2 shards (Z.to_nat (n - 1))) as [x Hx]; [lia|]. exists x. unfold share_of, nth_share. rewrite Hx. cbn. split_and!; [done..|].
    rewrite Z.mod_small; lia. }
  destruct (read_all_run vp pw t (MkVaultData (vd_master_seed data) (vd_keys data) (vd_audit_log data ++ [e]) (vd_revoked_shares data)) share_of ns d1)
    as (d2 & Hread); [|exact Ho'|].
  { intros n Hin. destruct (Hof n Hin) as (Hr & Hv & x & Hx & Es & En). cbn. split_and!; [lia|lia| |done| |done].
    - rewrite Es. specialize (Hsealed _ _ Hx). replace (Z.of_nat (Z.to_nat (n - 1) + 1)) with n in Hsealed by lia. exact Hsealed.
    - rewrite Es. exact Hexp. }
  assert (reconstruct (map share_of ns) d2 = (Ok (vd_master_seed data), d2)) as Hrec.
  { apply (reconstruct_run _ (sa_threshold args) (sa_shares args) shards signer); try done.
    - apply Forall_map, Forall_forall. intros n Hin. by destruct (Hof n Hin) as (_ & _ & x & _ & -> & _).
    - apply Forall_map, Forall_forall. intros n Hin. destruct (Hof n Hin) as (Hr & _ & x & Hx & Es & En). split; [by rewrite En|]. by rewrite En, Hx, Es.
    - apply Forall_map, Forall_forall. intros n Hin. destruct (Hof n Hin) as (_ & _ & x & _ & -> & _). unfold signed_message. cbn. by rewrite app_nil_r.
    - rewrite map_map. erewrite map_ext_in; [by rewrite map_id|]. intros n Hin%list_elem_of_In. by destruct (Hof n Hin) as (_ & _ & x & _ & _ & ?).
    - by rewrite length_map. }
  assert (ns <> []) as Hne by (intros ->; cbn in Hlen; lia).
  unfold cmd_recover, mbind, SE_mbind. cbn [ra_shares ra_source_vault ra_preflight ra_vault_out ra_out share_vault].
  unfold ensure. rewrite bool_decide_eq_false_2 by (by destruct ns). cbn [negb mret SE_mret].
  rewrite Hread, Hrec. cbn. by eexists.
Qed.
End Recovery.

(** ** What reading and checking establish *)

Section Checks.
Context `{SK : Sdk, CC : ChanCrypto, NC : NetCryptoOps} {DS : DelegSign} {SO : SecretsOps} {SD : SecretsDocs} {IO : SecretsIo}.

(** A share that was read: not expired at the moment of reading, and not revoked in the vault. *)
Definition usable (fs : gmap spath bytes) (vault : option spath) (pw : string) (share : Share) : Prop :=
  (forall e x, sh_expires_at share = Some e -> chrono_parse e = Some (Ok x) -> exists n, s_clock n < x) /\
  (forall vp, vault = Some vp -> exists t data, opens (fs !! vp) pw t data /\ (sh_share_number share ∉ vd_revoked_shares data)).

Lemma read_share_usable (p : spath) (vault : option spath) (pw : string) (share : Share) (d d' : Disk) :
  read_share_file p vault pw d = (Ok share, d') -> usable (dk_files d) vault pw share /\ dk_files d' = dk_files d.
Proof.
  intros E. pose proof (read_share_file_reads p vault pw d) as Hr. rewrite E in Hr. cbn in Hr. split; [|done]. revert E.
  unfold read_share_file. rewrite SE_bind_Ok. intros ([raw|] & d1 & Hraw & H); [|done].
  assert (dk_files d1 = dk_files d) as E1 by (pose proof (reads_read p d) as Hx; by rewrite Hraw in Hx).
  apply SE_bind_Ok in H as (h & d2 & Hh & H). apply SE_bind_Ok in H as (s & d3 & _ & H).
  apply SE_bind_Ok in H as (u & d4 & Hexp & H). apply SE_bind_Ok in H as (u2 & d5 & Hrev & H). injection H as -> _.
  split.
  - intros e x Ee Ex. rewrite Ee, Ex in Hexp. apply SE_bind_Ok in Hexp as (now & d6 & Hc & Hexp).
    unfold clock_secs in Hc. apply SE_bind_Ok in Hc as (n & d7 & _ & Hc). injection Hc as <- _. exists n.
    destruct (Z.leb_spec x (s_clock n)); [done|lia].
  - intros vp ->. apply SE_bind_Ok in Hh as (h0 & d6 & Hh & Hret). injection Hret as <- _. apply vault_open_Ok in Hh as (Ho & _). rewrite E1 in Ho.
    eexists _, _. split; [exact Ho|]. case_bool_decide; [done|done].
Qed.

Lemma for_each_Ok {A B : Type} (f : A -> Cmd B) (l : list A) (bs : list B) (d d' : Disk) :
  (forall a, reads (f a)) -> for_each f l d = (Ok bs, d') ->
  Forall2 (fun a b => exists d1 d2, dk_files d1 = dk_files d /\ f a d1 = (Ok b, d2)) l bs /\ dk_files d' = dk_files d.
Proof.
  intros Hf. revert bs d. induction l as [|a l IH]; intros bs d H; cbn [for_each] in H; [injection H as <- <-; by split; [constructor|]|].
  apply SE_bind_Ok in H as (b & d1 & Hb & H). apply SE_bind_Ok in H as (bs' & d2 & Hbs & H). injection H as <- <-.
  assert (dk_files d1 = dk_files d) as E by (pose proof (Hf a d) as Hx; by rewrite Hb in Hx).
  apply IH in Hbs as [H1 H2]. rewrite E in *. split; [|done]. constructor; [by exists d, d1|done].
Qed.

Definition verified_under (b : KeyBundle) (share : Share) : Prop :=
  exists sig, to_sdk (sh_signature share) = Ok sig /\
    hybrid_pair_verify (bundle_ed25519_pk b) (bundle_falcon1024_pk b) (signed_message share) sig.1 sig.2 = true.

Lemma check_signatures_Ok (b : KeyBundle) (l : list Share) (d d' : Disk) (u : unit) :
  check_signatures (bundle_ed25519_pk b) (bundle_falcon1024_pk b) l d = (Ok u, d') -> Forall (verified_under b) l.
Proof.
  revert d. induction l as [|s l IH]; intros d H; cbn [check_signatures] in H; [constructor|].
  apply SE_bind_Ok in H as (sig & d1 & [Hs ->]%lift_err_Ok & H). destruct (hybrid_pair_verify _ _ _ _ _) eqn:Ev; [|done].
  constructor; [by exists sig|by eapply IH].
Qed.

Lemma consistent_Ok (k n : Z) (l : list Share) (d d' : Disk) (u : unit) :
  consistent k n l d = (Ok u, d') -> Forall (fun s => sh_threshold s = k /\ sh_total_shares s = n) l.
Proof.
  induction l as [|s l IH]; cbn [consistent]; [constructor|]. destruct (_ && _) eqn:E; [|done]. intros H. constructor; [|by apply IH]. lia.
Qed.


(** C37: Without a vault, a share whose embedded keys reject its
    signature passes [verify]: the check is reported as skipped, not as failed. *)
Theorem forged_share_passes (p : spath) (pw : string) (json : bool) (raw : bytes) (share : Share) (v : ShareVerifier) (ed_pk falcon_pk : bytes)
    (sig : EdSig * FalconSig) (d : Disk) :
  (forall n, s_fault n = None) -> dk_files d !! p = Some raw -> utf8_valid raw = true ->
  is_ok (encshare_from_str raw) = false -> share_from_slice raw = Ok share -> sh_expires_at share = None ->
  sh_share_data share <> [] -> hs_ed25519 (sh_signature share) <> [] -> hs_falcon1024 (sh_signature share) <> [] ->
  1 <= sh_threshold share <= sh_total_shares share ->
  sh_verifier share = Some v -> verifier_ed25519_pk v = Ok ed_pk -> verifier_falcon_pk v = Ok falcon_pk -> to_sdk (sh_signature share) = Ok sig ->
  hybrid_pair_verify ed_pk falcon_pk (signed_message share) sig.1 sig.2 = false ->
  is_ok (verify_share_offline share) = false /\ exists d', verify_share p None pw json d = (Ok tt, d').
Proof.
  intros Hq Hf Hu He Hs Hexp Hd H1 H2 Ht Hv Hed Hfa Hsig Hbad.
  assert (verify_share_offline share = Err (ShareVerificationFailed (sh_share_number share) "hybrid signature invalid (offline)")) as Hoff.
  { unfold verify_share_offline. rewrite Hv, Hed, Hfa, Hsig. cbn [map_err mbind result_mbind]. by rewrite Hbad. }
  split; [by rewrite Hoff|].
  assert (read_share_file p None pw d = (Ok share, bump d)) as Hread.
  { unfold read_share_file, mbind, SE_mbind. rewrite (read_to_string_run Hq _ raw) by done. cbn [mret SE_mret].
    destruct (encshare_from_str raw); [done|]. unfold lift_err, lift. rewrite Hs. cbn [map_err]. by rewrite Hexp. }
  unfold verify_share, mbind at 1, SE_mbind at 1. rewrite Hread. unfold ensure, mbind, SE_mbind.
  rewrite !bool_decide_eq_false_2 by done. cbn [negb orb mret SE_mret].
  destruct (Z.eqb_spec (sh_threshold share) 0), (Z.eqb_spec (sh_total_shares share) 0), (Z.ltb_spec (sh_total_shares share) (sh_threshold share)); try lia.
  cbn. destruct json; [by eexists|]. rewrite Hoff. by eexists.
Qed.
End Checks.

(** ** Expiry times *)

Lemma wrap_i64_small (x : Z) : - 2 ^ 63 <= x < 2 ^ 63 -> wrap_i64 x = x.
Proof. intros H. apply wrap_i64_id. unfold in_i64, i64_max. lia. Qed.

(** An expiry time of the years 1970 to 2100 is read as the seconds
    of the Gregorian calendar; from 2101 to 2199 it is read one day late, as
    2100 is counted as a leap year. *)
Lemma expiry_secs_calendar (y m d h mi s : Z) :
  1970 <= y < 2200 -> valid_date y m d = true -> 0 <= h < 24 -> 0 <= mi < 60 -> 0 <= s < 60 ->
  expiry_secs y m d h mi s = Some ((day_number y m d + (if 2100 <? y then 1 else 0)) * 86400 + h * 3600 + mi * 60 + s).
Proof.
  intros Hy Hv Hh Hmi Hs. unfold valid_date in Hv. rewrite !andb_true_iff, !Z.leb_le in Hv. destruct Hv as (((Hm1 & Hm2) & Hd1) & Hd2).
  assert (month_len y m <= 31) as Hml by (unfold month_len; repeat case_match; lia).
  pose proof (days_before_month_table y) as T. cbn [map] in T. injection T as T3 T4 T5 T6 T7 T8 T9 T10 T11 T12.
  assert (days_before_month y 1 = 0 /\ days_before_month y 2 = 31) as [T1 T2] by done.
  assert (((Z.rem y 4 =? 0) && negb (Z.rem y 100 =? 0) || (Z.rem y 400 =? 0)) = leap y) as Hleap.
  { unfold leap. rewrite !Z.rem_mod_nonneg by lia. destruct (Z.eqb_spec (y mod 4) 0), (Z.eqb_spec (y mod 100) 0), (Z.eqb_spec (y mod 400) 0); cbn; try done;
      exfalso; Z.div_mod_to_equations; lia. }
  assert ((y - 1970) * 365 + (y - 1969) / 4 = days_before_year y - 719162 + (if 2100 <? y then 1 else 0)) as Hyear.
  { unfold days_before_year. destruct (Z.ltb_spec 2100 y); Z.div_mod_to_equations; lia. }
  assert (exists before, MONTH_DAYS !! Z.to_nat (m - 1) = Some before /\ 0 <= before <= 334 /\
            before + (if (2 <? m) && leap y then 1 else 0) = days_before_month y m) as (before & Hb & Hbr & Hbm).
  { assert (m = 1 \/ m = 2 \/ m = 3 \/ m = 4 \/ m = 5 \/ m = 6 \/ m = 7 \/ m = 8 \/ m = 9 \/ m = 10 \/ m = 11 \/ m = 12) as Hm by lia.
    destruct Hm as [->|[->|[->|[->|[->|[->|[->|[->|[->|[->|[->| ->]]]]]]]]]]]; eexists; (split; [reflexivity|]); (split; [lia|]);
      rewrite ?T1, ?T2, ?T3, ?T4, ?T5, ?T6, ?T7, ?T8, ?T9, ?T10, ?T11, ?T12; destruct (leap y); cbn; lia. }
  unfold expiry_secs. rewrite Hleap. destruct (Z.leb_spec 1 m); [|lia]. rewrite Hb. cbn [mbind option_bind].
  rewrite Z.quot_div_nonneg by (rewrite ?wrap_i64_small; lia). rewrite (wrap_i64_small (y - 1970)), (wrap_i64_small (y - 1969)), (wrap_i64_small ((y - 1970) * 365)) by lia.
  rewrite Hyear. unfold day_number. rewrite <- Hbm.
  assert (-2000 <= days_before_year y - 719162 + (if 2100 <? y then 1 else 0) <= 90000) as Hyr by (rewrite <- Hyear; Z.div_mod_to_equations; lia).
  set (D := days_before_year y - 719162 + (if 2100 <? y then 1 else 0)) in *. f_equal.
  rewrite (wrap_i64_small D), (wrap_i64_small (D + before)) by lia.
  destruct ((2 <? m) && leap y); rewrite ?(wrap_i64_small (D + before + 1)) by lia.
  all: repeat match goal with |- context [wrap_i64 ?x] => lazymatch x with context [wrap_i64 _] => fail | _ => rewrite (wrap_i64_small x) by lia end end.
  all: unfold D; lia.
Qed.

(** ** Timestamps *)

Lemma is_leap_leap (y : Z) : is_leap y = leap y.
Proof.
  unfold is_leap, leap. destruct (Z.eqb_spec (y mod 4) 0), (Z.eqb_spec (y mod 100) 0), (Z.eqb_spec (y mod 400) 0); cbn; try done.
  all: exfalso; Z.div_mod_to_equations; lia.
Qed.

Lemma year_loop_spec (fuel : nat) (y d : Z) :
  0 <= d < 365 * Z.of_nat fuel ->
  let '(y', d') := year_loop fuel y d in
  y <= y' /\ 0 <= d' < (if leap y' then 366 else 365) /\ days_before_year y' + d' = days_before_year y + d.
Proof.
  revert y d. induction fuel as [|fuel IH]; intros y d Hd; [lia|]. cbn [year_loop]. rewrite is_leap_leap.
  destruct (Z.ltb_spec d (if leap y then 366 else 365)) as [Hlt|Hge]; [lia|].
  pose proof (days_before_year_next y) as Hn. specialize (IH (y + 1) (d - (if leap y then 366 else 365))).
  destruct (year_loop fuel _ _) as [y' d']. destruct (leap y); destruct IH as (? & ? & ?); lia.
Qed.

(** The calendar of a year depends only on its length. *)
Lemma same_calendar (y y' m d : Z) : leap y = leap y' -> valid_date y m d = valid_date y' m d /\ days_before_month y m = days_before_month y' m.
Proof. intros E. unfold valid_date, days_before_month, month_len. by rewrite E. Qed.

Definition month_ok (y d : Z) : bool :=
  let '(m, r) := month_loop (leap y) 0 [31; 28; 31; 30; 31; 30; 31; 31; 30; 31; 30; 31] d in
  valid_date y m (r + 1) && (days_before_month y m + r =? d).

Lemma month_table : forallb (month_ok 2000) (seqZ 0 366) && forallb (month_ok 2001) (seqZ 0 365) = true.
Proof. vm_compute. reflexivity. Qed.

Lemma month_loop_spec (y d : Z) :
  0 <= d < (if leap y then 366 else 365) ->
  let '(m, r) := month_loop (leap y) 0 [31; 28; 31; 30; 31; 30; 31; 31; 30; 31; 30; 31] d in
  valid_date y m (r + 1) = true /\ days_before_month y m + r = d.
Proof.
  intros Hd. assert (exists y', leap y = leap y' /\ month_ok y' d = true) as (y' & El & Hok).
  { destruct (andb_prop _ _ month_table) as [H1 H2]. rewrite forallb_forall in H1, H2.
    destruct (leap y) eqn:E; [exists 2000|exists 2001]; (split; [done|]); [apply H1|apply H2]; apply list_elem_of_In, elem_of_seqZ; lia. }
  unfold month_ok in Hok. rewrite <- El in Hok. destruct (month_loop _ _ _ _) as [m r]. destruct (same_calendar y y' m (r + 1) El) as [-> ->].
  apply andb_prop in Hok as [H1 H2]. by apply Z.eqb_eq in H2.
Qed.

(** The calendar of the timestamps, at any time. *)
Lemma epoch_calendar (secs : Z) :
  0 <= secs ->
  let '(y, m, d, h, mi, s) := epoch_to_ymd_hms secs in
  1970 <= y /\ valid_date y m d = true /\ day_number y m d = secs / 86400 /\ 0 <= h < 24 /\ 0 <= mi < 60 /\ 0 <= s < 60 /\
  secs = day_number y m d * 86400 + h * 3600 + mi * 60 + s.
Proof.
  intros Hs. unfold epoch_to_ymd_hms. pose proof (year_loop_spec (S (Z.to_nat (secs / 86400 / 365))) 1970 (secs / 86400)) as Hy.
  destruct (year_loop _ _ _) as [y d]. destruct Hy as (H1 & H2 & H3); [Z.div_mod_to_equations; lia|].
  pose proof (month_loop_spec y d H2) as Hm. rewrite is_leap_leap. destruct (month_loop _ _ _ _) as [m r]. destruct Hm as [Hv Hd].
  assert (day_number y m (r + 1) = secs / 86400) as Hday.
  { unfold day_number. change (days_before_year 1970) with 719162 in H3. lia. }
  rewrite Hday. split_and!; try done; Z.div_mod_to_equations; lia.
Qed.

(** ** The text of a timestamp *)

Definition no_sep (l : bytes) : bool := forallb (fun a => negb (sep a)) l.

Lemma split_seps_app (l : bytes) (a : ascii) (r : bytes) : no_sep l = true -> sep a = true -> split_seps (l ++ a :: r) = l :: split_seps r.
Proof.
  intros Hl Ha. induction l as [|b l IH]; cbn in *; [by rewrite Ha|]. apply andb_prop in Hl as [Hb Hl]. apply negb_true_iff in Hb.
  by rewrite Hb, IH.
Qed.
Lemma split_seps_end (l : bytes) : no_sep l = true -> split_seps l = [l].
Proof.
  induction l as [|b l IH]; cbn; [done|]. intros [Hb Hl]%andb_prop. apply negb_true_iff in Hb. by rewrite Hb, IH.
Qed.

Definition field_ok (w : nat) (n : Z) : bool :=
  no_sep (chars (pad_zeros w n)) && bool_decide (parse_unsigned i64_max (chars (pad_zeros w n)) = Some n) &&
  negb (bool_decide (last (chars (pad_zeros w n)) = Some "Z"%char)) && negb (bool_decide (chars (pad_zeros w n) = [])).

Lemma field_table : forallb (field_ok 2) (seqZ 0 100) && forallb (field_ok 4) (seqZ 1970 230) = true.
Proof. vm_compute. reflexivity. Qed.

Lemma field_two (n : Z) : 0 <= n < 100 -> field_ok 2 n = true.
Proof.
  intros Hn. destruct (andb_prop _ _ field_table) as [H _]. rewrite forallb_forall in H. apply H, list_elem_of_In, elem_of_seqZ. lia.
Qed.
Lemma field_four (n : Z) : 1970 <= n < 2200 -> field_ok 4 n = true.
Proof.
  intros Hn. destruct (andb_prop _ _ field_table) as [_ H]. rewrite forallb_forall in H. apply H, list_elem_of_In, elem_of_seqZ. lia.
Qed.

Lemma field_ok_spec (w : nat) (n : Z) (what : string) : field_ok w n = true ->
  no_sep (chars (pad_zeros w n)) = true /\ parse_i64 what (chars (pad_zeros w n)) = Ok n /\
  (forall l, drop_char "Z"%char (rev (chars (pad_zeros w n)) ++ l) = rev (chars (pad_zeros w n)) ++ l).
Proof.
  unfold field_ok. rewrite !andb_true_iff, !negb_true_iff, !bool_decide_eq_false, bool_decide_eq_true. intros [[[H1 H2] H3] H4].
  unfold parse_i64. rewrite H2. split_and!; [done..|]. intros l. destruct (chars (pad_zeros w n)) as [|a r _] using rev_ind; [done|].
  rewrite rev_app_distr. cbn. rewrite last_snoc in H3. destruct (Ascii.eqb_spec a "Z"); [congruence|done].
Qed.

Lemma chrono_parse_text (y m d h mi s : Z) :
  1970 <= y < 2200 -> 0 <= m < 100 -> 0 <= d < 100 -> 0 <= h < 100 -> 0 <= mi < 100 -> 0 <= s < 100 ->
  chrono_parse (pad_zeros 4 y +:+ "-" +:+ pad_zeros 2 m +:+ "-" +:+ pad_zeros 2 d +:+ "T" +:+ pad_zeros 2 h +:+ ":" +:+ pad_zeros 2 mi +:+ ":" +:+ pad_zeros 2 s +:+ "Z")
  = v ← expiry_secs y m d h mi s; Some (Ok v).
Proof.
  intros Hy Hm Hd Hh Hmi Hs.
  destruct (field_ok_spec 4 y "year" (field_four y Hy)) as (Ny & Py & _). destruct (field_ok_spec 2 m "month" (field_two m Hm)) as (Nm & Pm & _).
  destruct (field_ok_spec 2 d "day" (field_two d Hd)) as (Nd & Pd & _). destruct (field_ok_spec 2 h "hour" (field_two h Hh)) as (Nh & Ph & _).
  destruct (field_ok_spec 2 mi "minute" (field_two mi Hmi)) as (Nmi & Pmi & _). destruct (field_ok_spec 2 s "second" (field_two s Hs)) as (Ns & Ps & Dz).
  unfold chrono_parse, trim_end_matches. rewrite chars_of_chars, !chars_app, !app_assoc, rev_app_distr.
  change (rev (chars "Z")) with ["Z"%char]. cbn [app]. change (drop_char "Z" ("Z"%char :: ?l)) with (drop_char "Z" l). rewrite rev_app_distr, Dz.
  rewrite <- rev_app_distr, rev_involutive, <- !app_assoc.
  change (chars "-") with ["-"%char]. change (chars "T") with ["T"%char]. change (chars ":") with [":"%char]. cbn [app].
  rewrite !split_seps_app, split_seps_end by done. rewrite Py, Pm, Pd, Ph, Pmi, Ps. done.
Qed.

Lemma days_before_month_pos (y m : Z) : 0 <= days_before_month y m.
Proof.
  unfold days_before_month. induction (seq 1 _) as [|i l IH]; cbn [map]; [done|]. cbn [list_sum foldr]. fold (list_sum (map (fun i => month_len y (Z.of_nat i)) l)).
  assert (0 <= month_len y (Z.of_nat i)) by (unfold month_len; repeat case_match; lia). lia.
Qed.

Lemma days_before_month_max (y m d : Z) : valid_date y m d = true -> days_before_month y m + d <= if leap y then 366 else 365.
Proof.
  unfold valid_date. rewrite !andb_true_iff, !Z.leb_le. intros (((H1 & H2) & _) & H3). revert H3. unfold days_before_month, month_len.
  assert (m = 1 \/ m = 2 \/ m = 3 \/ m = 4 \/ m = 5 \/ m = 6 \/ m = 7 \/ m = 8 \/ m = 9 \/ m = 10 \/ m = 11 \/ m = 12) as Hm by lia.
  destruct (leap y); destruct Hm as [->|[->|[->|[->|[->|[->|[->|[->|[->|[->|[->| ->]]]]]]]]]]]; cbn;
    match goal with |- context [list_sum ?l] => let v := eval vm_compute in (list_sum l) in change (list_sum l) with v end; lia.
Qed.

(** A day is before the first of January of a year exactly when its year is. *)
Lemma year_before (y m d n : Z) : valid_date y m d = true -> day_number y m d < day_number n 1 1 <-> y < n.
Proof.
  intros Hv. pose proof (days_before_month_pos y m). pose proof (days_before_month_max y m d Hv). pose proof (days_before_year_next y).
  unfold valid_date in Hv. rewrite !andb_true_iff, !Z.leb_le in Hv. unfold day_number. change (days_before_month n 1) with 0.
  assert (forall a b, a <= b -> days_before_year a <= days_before_year b) as Hmono.
  { intros a b Hab. unfold days_before_year. Z.div_mod_to_equations. lia. }
  split; intros Hlt.
  - destruct (Z.lt_ge_cases y n) as [|Hge]; [done|]. specialize (Hmono n y Hge). lia.
  - specialize (Hmono (y + 1) n ltac:(lia)). destruct (leap y); lia.
Qed.

(** C38: A timestamp that the commands write, read as an expiry, gives the
    seconds back before the year 2101, and from 2101 to 2199 a time that is
    one day late, as the reader counts 2100 as a leap year. *)
Theorem timestamp_reads_back (secs : Z) :
  0 <= secs < day_number 2200 1 1 * 86400 ->
  chrono_parse (chrono_timestamp secs) = Some (Ok (if secs <? day_number 2101 1 1 * 86400 then secs else secs + 86400)).
Proof.
  intros Hs. unfold chrono_timestamp. pose proof (epoch_calendar secs ltac:(lia)) as H.
  destruct (epoch_to_ymd_hms secs) as [[[[[y m] d] h] mi] s]. destruct H as (H1 & H2 & _ & H4 & H5 & H6 & H7).
  assert (y < 2200) as Hy by (apply (year_before y m d); [done|lia]).
  pose proof (year_before y m d 2101 H2) as H2101.
  pose proof H2 as Hv. unfold valid_date in Hv. rewrite !andb_true_iff, !Z.leb_le in Hv. assert (month_len y m <= 31) by (unfold month_len; repeat case_match; lia).
  rewrite chrono_parse_text by lia. rewrite expiry_secs_calendar by (done || lia). cbn [mbind option_bind]. do 2 f_equal.
  destruct (Z.ltb_spec 2100 y), (Z.ltb_spec secs (day_number 2101 1 1 * 86400)); lia.
Qed.

(** ** A small vault

    Documents are written as their place in a list of the documents that
    occur; the erasure code repeats the data. *)

Module SmallVault.

(** A document is written as a letter and its place. *)
Section Table.
Context {A : Type} `{!EqDecision A} (kind : ascii) (docs : list A).
Definition put (a : A) : result string bytes :=
  match list_find (eq a) docs with
  | Some (i, _) => if (i <? 40)%nat then Ok [kind; byte_of (65 + Z.of_nat i)] else Err "too many"
  | None => Err "unknown"
  end.
Definition get (b : bytes) : result string A :=
  match b with
  | [k; c] => if Ascii.eqb k kind then match docs !! Z.to_nat (code c - 65) with Some a => Ok a | None => Err "unknown" end else Err "other kind"
  | _ => Err "malformed"
  end.
Lemma put_get (a : A) (b : bytes) : code kind < 128 -> put a = Ok b -> get b = Ok a /\ utf8_valid b = true.
Proof.
  intros Hk. unfold put. destruct (list_find (eq a) docs) as [[i x]|] eqn:E; [|done]. apply list_find_Some in E as (Hi & <- & _).
  destruct (Nat.ltb_spec i 40); [|done]. intros [= <-]. unfold get. rewrite Ascii.eqb_refl, code_byte_of.
  rewrite Z.mod_small by lia. replace (Z.to_nat (65 + Z.of_nat i - 65)) with i by lia. rewrite Hi. split; [done|].
  cbn [utf8_valid]. rewrite code_byte_of, Z.mod_small by lia. destruct (Z.ltb_spec (code kind) 128), (Z.ltb_spec (65 + Z.of_nat i) 128); lia || done.
Qed.
End Table.

#[local] Existing Instances Toy.sdk ToyChan.crypto ToyDeleg.ops ToyDeleg.sign.

Definition vp : spath := ["secrets.vault"].
Definition pw : string := "correct horse".
Definition salt : bytes := replicate 16 (byte_of 7).
Definition nonce : bytes := replicate 24 (byte_of 7).
Definition key (p : string) : bytes := ToyChan.pad 32 (chars p).
Definition seed : bytes := replicate 32 "k"%char.
Definition args : ShardArgs := MkShardArgs "master" 2 3 false None.
Definition signer : KeyBundle := byte_of 1.
Definition ts : string := chrono_timestamp 1000.

Definition data0 : VaultData := MkVaultData seed ∅ [] ∅.
Definition data1 : VaultData :=
  push_audit (audit_entry ("shard-" +:+ ts) (OpShard 2 3) "master" ts "Sharded master key into 3 shares (threshold 2)" (sign_hybrid signer (chars "audit:shard"))) data0.
Definition data2 : VaultData :=
  push_audit (audit_entry ("revoke-" +:+ ts) (OpRevoke 2) "*" ts "Revoked share #2" (sign_hybrid signer (chars "audit:revoke")))
    (MkVaultData seed ∅ (vd_audit_log data1) {[2]}).
Definition datas : list VaultData := [data0; data1; data2].

Definition sealed_vault (i : Z) : Vault :=
  MkVault 1 "1000" Standard (vault_fingerprint salt nonce) salt nonce (["D"%char; byte_of (65 + i)] ++ ToyChan.tag (key pw) nonce).
Definition vaults : list Vault := map sealed_vault [0; 1; 2].

(** A share that another hand signed, and the shares of the vault. *)
Definition forged : Share :=
  MkShare 1 "master" 1 2 3 (chars "forged") "" (from_sdk ("x"%char, "y"%char)) ts None None (Some (MkVerifier (replicate 32 signer) [signer])).
Definition shares : list Share := forged :: map (fun i => make_share args signer ts i seed) (seq 0 3).
Definition encshares : list EncryptedShare :=
  map (fun i => MkEncShare 1 nonce (["S"%char; byte_of (65 + i)] ++ ToyChan.tag (derive_share_enc_key seed i) nonce)) [1; 2; 3].

#[local] Instance ops : SecretsOps := {|
  argon2_derive _ p _ := Ok (ToyChan.pad 32 p);
  rs_encode_shards k m data := if (k =? 0)%nat then Err "no data" else Ok (replicate (k + m) data);
  rs_decode_shards k m opts n := match omap id opts with b :: _ => Ok b | [] => Err "too few" end;
  default_hasher _ := "0";
  vault_to_string := put "V" vaults; vault_from_str := get "V" vaults;
  data_to_vec := put "D" datas; data_from_slice := get "D" datas;
  share_to_string := put "S" shares; share_from_slice := get "S" shares;
  encshare_to_string := put "E" encshares; encshare_from_str := get "E" encshares |}.
#[local] Instance docs : SecretsDocs := {| evidence_to_string _ _ := Err ""; manifest_to_string _ := Err "" |}.
#[local] Instance calm : SecretsIo := {| s_fault _ := None; s_draw _ n := Ok (replicate n (byte_of 7)); s_clock _ := 1000 |}.

#[local] Instance small_ok : SecretsOk.
Proof.
  constructor; cbn.
  - intros _ n b [= <-]. apply length_replicate.
  - intros v b H. exact (put_get "V" vaults v b eq_refl H).
  - intros v b H. exact (proj1 (put_get "D" datas v b eq_refl H)).
  - intros v b H. destruct (put_get "S" shares v b eq_refl H) as [H1 H2]. split_and!; [done..|]. unfold put in H. repeat case_match; by simplify_eq.
  - intros v b H. exact (put_get "E" encshares v b eq_refl H).
  - intros k m data shards opts idx Henc Hl Hok Hnd Hk Hidx. destruct (Nat.eqb_spec k 0) as [|Hk0]; [done|]. injection Henc as <-.
    assert (forall b, b ∈ omap id opts -> b = data) as Hall.
    { intros b (x & Hx & E)%list_elem_of_omap. cbn in E. subst x. apply list_elem_of_lookup in Hx as [i Hi].
      by apply Hok, lookup_replicate in Hi as [-> _]. }
    destruct (omap id opts) as [|b l] eqn:E; [|by rewrite (Hall b ltac:(left))].
    destruct idx as [|i idx]; [cbn in Hk; lia|]. destruct (Hidx i ltac:(left)) as [b Hb]. exfalso.
    assert (b ∈ omap id opts) as Hin by (apply list_elem_of_omap; exists (Some b); split; [by eapply list_elem_of_lookup_2|done]).
    rewrite E in Hin. by apply elem_of_nil in Hin.
  - intros k m data shards. destruct (k =? 0)%nat; [done|]. intros [= <-]. apply length_replicate.
Qed.

Definition disk : Disk := MkDisk {[vp := ["V"%char; "A"%char]]} 0.

Lemma disk_opens : opens (dk_files disk !! vp) pw Standard data0.
Proof. exists ["V"%char; "A"%char], (sealed_vault 0), (key pw), ["D"%char; "A"%char]. split_and!; by vm_compute. Qed.

Definition after_shard : Disk := snd (cmd_shard args vp pw disk).

Lemma vault_survives_witness :
  exists oks d', session vp pw [CShard args; CRevoke 2; CListKeys; CRevoke 2] disk = (oks, pw, d') /\ oks = [true; true; true; false] /\
  exists t' data' es, opens (dk_files d' !! vp) pw t' data' /\ vd_master_seed data' = seed /\ logged [CShard args; CRevoke 2; CListKeys; CRevoke 2] oks es /\
    vd_revoked_shares data' = ∅ ∪ revoked_by es.
Proof.
  pose proof (vault_survives vp pw "secrets.vault" [CShard args; CRevoke 2; CListKeys; CRevoke 2] Standard data0 disk eq_refl
    ltac:(repeat constructor) disk_opens) as H.
  destruct (session vp pw _ disk) as [[oks pw'] d'] eqn:E.
  assert (oks = [true; true; true; false] /\ pw' = pw) as [Eo Ep].
  { apply (f_equal fst) in E. vm_compute in E. by injection E as <- <-. }
  exists oks, d'. rewrite Ep in *. split_and!; [done..|]. destruct H as (t' & data' & es & H1 & H2 & H3 & H4 & H5 & H6).
  exists t', data', es. by split_and!.
Defined.

Lemma shard_recover_witness :
  exists d2, cmd_recover (MkRecoverArgs (map (share_path vp) [1; 3]) None None (Some vp) "standard" false false) pw true after_shard = (Ok seed, d2).
Proof.
  assert (exists ws, cmd_shard args vp pw disk = (Ok ws, after_shard)) as [ws Hws].
  { unfold after_shard. destruct (cmd_shard args vp pw disk) as [[ws|e] d1] eqn:E; [by exists ws|]. apply (f_equal (fun x => is_ok (fst x))) in E.
    vm_compute in E. discriminate. }
  refine (shard_recover (IO := calm) (fun _ => eq_refl) args vp pw "secrets.vault" Standard data0 ws [1; 3] disk after_shard
    eq_refl disk_opens eq_refl ltac:(done) ltac:(done) I Hws _ _ ltac:(done)).
  - apply (bool_decide_eq_true_1 _). by vm_compute.
  - apply (bool_decide_eq_true_1 _). by vm_compute.
Defined.

Definition recover_args : RecoverArgs := MkRecoverArgs (map (share_path vp) [1; 3]) None None (Some vp) "standard" false false.


Lemma forged_share_passes_witness :
  is_ok (verify_share_offline forged) = false /\
  exists d', verify_share ["f.json"] None pw false (MkDisk {[ ["f.json"] := ["S"%char; "A"%char] ]} 0) = (Ok tt, d').
Proof.
  apply (forged_share_passes (NC := ToyDeleg.ops) ["f.json"] pw false ["S"%char; "A"%char] forged (MkVerifier (replicate 32 signer) [signer]) (replicate 32 signer) [signer]
    ("x"%char, "y"%char)); by vm_compute.
Defined.

Lemma timestamp_reads_back_witness :
  chrono_parse (chrono_timestamp 1000) = Some (Ok 1000) /\ chrono_parse (chrono_timestamp 5000000000) = Some (Ok 5000086400).
Proof. split; [apply (timestamp_reads_back 1000)|apply (timestamp_reads_back 5000000000)]; vm_compute; split; done. Defined.
End SmallVault.
