(* ===== verification/Seal.v ===== *)
(** * Sealed files and detached signatures (origin-seal/src/api.rs, commands.rs)

    The [SEAL] envelope in memory and as a stream of chunks, hybrid
    signatures and their wire format, hashing.  A command writes to one
    output, the state of the monad: what was written stays when it fails.
    An input is the sequence of answers of [read].  The answers of the
    passphrase prompt, the random draws and the seed of the suite identity
    are given by [SealEnv]; writes succeed.  Argon2id, HKDF, the AEAD, zstd
    and JSON are parameters. *)

From Stdlib Require Import Ascii String.
From S2P Require Import Prelude RustStr Bytes RustText Sdk Envelope StateErr NetAuth Delegation VcsStream Secrets.

(** ** Errors ([error.rs]) *)

Inductive SealError :=
| EnvelopeErr (s : string)
| Verification (s : string)
| Crypto (s : string)
| KeyDerivation (s : string)
| Validation (s : string)
| SealIo (s : string).

Definition seal_error_display (e : SealError) : string :=
  match e with
  | EnvelopeErr s => "envelope: " +:+ s
  | Verification s => "verification failed: " +:+ s
  | Crypto s => "crypto: " +:+ s
  | KeyDerivation s => "key derivation: " +:+ s
  | Validation s => "invalid argument: " +:+ s
  | SealIo s => "io: " +:+ s
  end.

(** A key shorter than 32 bytes makes the slice panic. *)
Inductive SealStop {E : Type} := Failed (e : E) | SealPanic | OutOfFuel.
Arguments SealStop : clear implicits.

(** ** The SDK *)

Class SealOps `{NC : NetCryptoOps} := {
  (** [argon2_builder(tier, len).derive(passphrase, salt)], with the length of the output. *)
  seal_argon2 : MemoryTier -> nat -> bytes -> bytes -> result string bytes;
  zstd_compress : bytes -> result string bytes;
  zstd_compress_level : Z -> bytes -> result string bytes;
  zstd_decompress : bytes -> result string bytes;
  hkdf_blake3_32 : bytes -> bytes -> result string bytes;
  sha3_512 : bytes -> bytes;
  hmac_sha3_256 : bytes -> bytes -> result string bytes;
  (** [Ed25519Signer::verify_with_pubkey(pk, data, sig)], [falcon1024::verify(data, sig, pk)]. *)
  ed_verify_pk : bytes -> bytes -> bytes -> bool;
  falcon_verify_pk : bytes -> FalconSig -> bytes -> bool;
  (** [recover_seed] of the SDK's blobs; [serde_json::from_str]. *)
  recover_seed : bytes -> bytes -> MemoryTier -> result string bytes;
  json_from_text : bytes -> result string json
}.

Class SealEnv := {
  (** The answer of the [n]-th prompt. *)
  prompt : nat -> result string string;
  (** The [n]-th draw, of a length. *)
  seal_draw : nat -> nat -> result string bytes;
  (** Whether the home directory is there; the seed of the identity, unlocked with a passphrase. *)
  origin_home : result string unit;
  identity_seed : string -> result string bytes
}.

(** ** Reading ([read_full], [read_input]) *)

(** [read] returns bytes (none at the end of the input), or is interrupted, or fails. *)
Inductive ReadEvent := Chunk (b : bytes) | Interrupted | ReadError (e : string).

Fixpoint read_full (r : list ReadEvent) (need : nat) : result string bytes * list ReadEvent :=
  match need with
  | O => (Ok [], r)
  | _ =>
      match r with
      | [] => (Ok [], [])
      | Interrupted :: r' => read_full r' need
      | ReadError e :: r' => (Err ("read: " +:+ e), r')
      | Chunk b :: r' =>
          if bool_decide (b = []) then (Ok [], r')
          else if (length b <=? need)%nat then
            match read_full r' (need - length b) with (Ok x, r'') => (Ok (b ++ x), r'') | (Err e, r'') => (Err e, r'') end
          else (Ok (take need b), Chunk (drop need b) :: r')
      end
  end.

Fixpoint read_to_end (r : list ReadEvent) : result string bytes :=
  match r with
  | [] => Ok []
  | Interrupted :: r' => read_to_end r'
  | ReadError e :: _ => Err e
  | Chunk b :: r' => if bool_decide (b = []) then Ok [] else x ← read_to_end r'; Ok (b ++ x)
  end.

Definition read_input (path : option string) (r : list ReadEvent) : result string bytes :=
  map_err (fun e => match path with Some p => "cannot read '" +:+ p +:+ "': " +:+ e | None => "cannot read stdin: " +:+ e end) (read_to_end r).

(** ** The envelope *)

Definition SEAL_MAGIC : bytes := chars "SEAL".
Definition SEAL_VERSION : Z := 1.
Definition SEAL_COMPRESSED : Z := 1.
Definition SEAL_STREAMED : Z := 2.
Definition SEAL_FLAGS : Z := Z.lor SEAL_COMPRESSED SEAL_STREAMED.
Definition SEAL_HEADER_LEN : nat := 48.
Definition MAX_ENVELOPE_LEN : Z := 4 * 1024 * 1024 * 1024.
Definition CHUNK_MIN : Z := 1024.
Definition CHUNK_MAX : Z := 2 ^ 30.

Definition validate_chunk_size (cs : Z) : result string Z :=
  if (CHUNK_MIN <=? cs) && (cs <=? CHUNK_MAX) then Ok cs
  else Err ("chunk size " +:+ show_Z cs +:+ " out of range (1024..=1073741824)").

Definition validate_envelope_flags (fl reserved : Z) : result string unit :=
  if negb (Z.land fl (255 - SEAL_FLAGS) =? 0) then Err ("unsupported envelope flags: 0x" +:+ show_hex2 fl)
  else if negb (Z.land fl SEAL_COMPRESSED =? 0) && negb (Z.land fl SEAL_STREAMED =? 0)
  then Err "compressed and streamed envelope flags are mutually exclusive"
  else if negb (reserved =? 0) then Err ("unsupported reserved envelope byte: 0x" +:+ show_hex2 reserved)
  else Ok tt.

Definition seal_header (fl : Z) (t : MemoryTier) (salt nonce : bytes) : bytes :=
  SEAL_MAGIC ++ [byte_of SEAL_VERSION; byte_of fl; byte_of (tier_to_byte t); byte_of 0] ++ salt ++ nonce.

Record SealHeader := MkSealHeader {
  eh_version : Z; eh_flags : Z; eh_tier : MemoryTier; eh_salt : bytes; eh_nonce : bytes
}.

Definition code_at (i : nat) (b : bytes) : Z := default 0 (code <$> b !! i).

Definition too_short (n : nat) : string := "input too short (" +:+ show_Z (Z.of_nat n) +:+ " bytes) to be a sealed envelope".
Definition too_large (n : nat) : string := "envelope too large (" +:+ show_Z (Z.of_nat n) +:+ " bytes, max 4294967296)".

Definition parse_envelope (b : bytes) : result SealError (SealHeader * bytes) :=
  if (length b <? SEAL_HEADER_LEN + 16)%nat then Err (EnvelopeErr (too_short (length b)))
  else if MAX_ENVELOPE_LEN <? Z.of_nat (length b) then Err (EnvelopeErr (too_large (length b)))
  else if negb (bool_decide (take 4 b = SEAL_MAGIC)) then Err (EnvelopeErr "not an origin-seal envelope (bad magic)")
  else if negb (code_at 4 b =? SEAL_VERSION) then Err (EnvelopeErr ("unsupported envelope version " +:+ show_Z (code_at 4 b)))
  else
    map_err EnvelopeErr (validate_envelope_flags (code_at 5 b) (code_at 7 b)) ≫= fun _ =>
    t ← map_err (fun e => EnvelopeErr ("invalid tier byte: " +:+ e)) (tier_from_byte (code_at 6 b));
    Ok (MkSealHeader (code_at 4 b) (code_at 5 b) t (slice 8 24 b) (slice 24 48 b), drop SEAL_HEADER_LEN b).

(** ** Signatures on the wire *)

Record SealSignature := MkSealSig { ss_ed25519 : bytes; ss_falcon1024 : bytes; ss_domain : string }.

Definition to_wire (s : SealSignature) : bytes := be_bytes 4 (Z.of_nat (length (ss_falcon1024 s))) ++ ss_ed25519 s ++ ss_falcon1024 s.

Definition parse_wire (raw : bytes) : result string (bytes * bytes) :=
  if (length raw <? 68)%nat then Err ("signature wire too short (" +:+ show_Z (Z.of_nat (length raw)) +:+ " bytes); need >= 68")
  else
    let falcon_len := be_val (take 4 raw) in
    if negb (Z.of_nat (length raw) =? 68 + falcon_len)
    then Err ("signature wire length mismatch: header says falcon=" +:+ show_Z falcon_len +:+ " but total=" +:+ show_Z (Z.of_nat (length raw)))
    else Ok (slice 4 68 raw, drop 68 raw).

Definition from_wire (raw : bytes) : result SealError SealSignature :=
  '(ed, falcon) ← map_err Validation (parse_wire raw);
  Ok (MkSealSig ed falcon "").

Definition seal_value_str (k : string) (v : json) : option string :=
  match v with
  | JObj fields => match List.find (fun kv => String.eqb (fst kv) k) fields with Some (_, JStr s) => Some s | _ => None end
  | _ => None
  end.

Inductive HashKind := KSha3_256 | KSha3_512 | KBlake3 | KHmacSha3_256.

Section Api.
Context `{SK : Sdk, XC : XChaCha, SO : SealOps} {DS : DelegSign}.

Definition seal_hash (kind : HashKind) (data : bytes) (key : option bytes) : result SealError bytes :=
  match kind with
  | KSha3_256 => Ok (sha3_256 data)
  | KSha3_512 => Ok (sha3_512 data)
  | KBlake3 => Ok (blake3 data)
  | KHmacSha3_256 =>
      match key with
      | None => Err (Validation "HMAC-SHA3-256 requires a key")
      | Some k => map_err (fun e => Crypto ("HMAC failed: " +:+ e)) (hmac_sha3_256 k data)
      end
  end.

Definition seal_kdf (passphrase salt : bytes) (t : MemoryTier) (len : nat) : result SealError bytes :=
  map_err (fun e => Crypto ("Argon2id failed: " +:+ e)) (seal_argon2 t len passphrase salt).

Definition seal_mac (key data : bytes) : result SealError bytes := seal_hash KHmacSha3_256 data (Some key).

(** [&key[..32]] of the derived key. *)
Definition first32 {E : Type} (f : string -> E) (r : result string bytes) : result (SealStop E) bytes :=
  match r with
  | Err e => Err (Failed (f ("Argon2id failed: " +:+ e)))
  | Ok key => if (length key <? 32)%nat then Err SealPanic else Ok (take 32 key)
  end.

Definition derive_key32 (passphrase salt : bytes) (t : MemoryTier) : result (SealStop SealError) bytes :=
  first32 Crypto (seal_argon2 t 32 passphrase salt).

(** [encrypt] and [decrypt] of the library; the two draws are arguments. *)
Definition api_encrypt (plaintext passphrase : bytes) (t : MemoryTier) (compress : bool) (salt_draw nonce_draw : result string bytes) :
    result (SealStop SealError) bytes :=
  salt ← map_err (fun e => Failed (Crypto ("salt generation failed: " +:+ e))) salt_draw;
  key ← derive_key32 passphrase salt t;
  nonce ← map_err (fun e => Failed (Crypto ("nonce generation failed: " +:+ e))) nonce_draw;
  payload ← (if compress then map_err (fun e => Failed (Crypto ("compression failed: " +:+ e))) (zstd_compress plaintext) else Ok plaintext);
  ct ← map_err (fun e => Failed (Crypto ("encryption failed: " +:+ e))) (xc_encrypt key nonce payload);
  Ok (seal_header (if compress then SEAL_COMPRESSED else 0) t salt nonce ++ ct).

Definition api_decrypt (envelope passphrase : bytes) : result (SealStop SealError) bytes :=
  '(header, payload) ← map_err Failed (parse_envelope envelope);
  if negb (Z.land (eh_flags header) SEAL_STREAMED =? 0)
  then Err (Failed (EnvelopeErr "streamed envelopes need decrypt_stream (not decrypt)"))
  else
    key ← derive_key32 passphrase (eh_salt header) (eh_tier header);
    pt ← map_err (fun _ => Failed (Verification "decryption failed (wrong passphrase or corrupt data)")) (xc_decrypt key (eh_nonce header) payload);
    if negb (Z.land (eh_flags header) SEAL_COMPRESSED =? 0)
    then map_err (fun e => Failed (Crypto ("decompression failed: " +:+ e))) (zstd_decompress pt)
    else Ok pt.

Definition seal_sign (seed : bytes) (domain : string) (data : bytes) : result SealError SealSignature :=
  bundle ← map_err (fun e => KeyDerivation ("bundle derivation failed: " +:+ e)) (bundle_from_seed seed domain);
  let sig := sign_hybrid bundle data in
  Ok (MkSealSig (ed_to_bytes sig.1) (falcon_as_bytes sig.2) domain).

Definition falcon_bytes_verify (data falcon pk : bytes) : bool :=
  match falcon_from_bytes falcon with Ok f => falcon_verify_pk data f pk | Err _ => false end.

Definition seal_verify (seed : bytes) (domain : string) (data : bytes) (sig : SealSignature) : result SealError unit :=
  bundle ← map_err (fun e => KeyDerivation ("bundle derivation failed: " +:+ e)) (bundle_from_seed seed domain);
  let ed_ok := ed_verify_pk (bundle_ed25519_pk bundle) data (ss_ed25519 sig) in
  let falcon_ok := falcon_bytes_verify data (ss_falcon1024 sig) (bundle_falcon1024_pk bundle) in
  if ed_ok && falcon_ok then Ok tt else Err (Verification "signature verification FAILED (ed25519 + falcon1024)").

(** [parse_signature]: JSON, hexadecimal wire, or the wire itself. *)
Definition parse_signature (b : bytes) : result string (bytes * bytes) :=
  if utf8_valid b then
    let trimmed := trim (of_chars b) in
    if starts_with (chars "{") (chars trimmed) then
      v ← map_err (fun e => "invalid signature JSON: " +:+ e) (json_from_text (chars trimmed));
      ed ← match seal_value_str "ed25519" v with
           | Some h => map_err (fun e => "ed25519 hex: " +:+ e) (hex_decode h)
           | None => Err "missing ed25519 field in signature JSON"
           end;
      falcon ← match seal_value_str "falcon1024" v with
               | Some h => map_err (fun e => "falcon hex: " +:+ e) (hex_decode h)
               | None => Err "missing falcon1024 field in signature JSON"
               end;
      Ok (ed, falcon)
    else raw ← map_err (fun e => "invalid signature hex: " +:+ e) (hex_decode trimmed); parse_wire raw
  else parse_wire b.
End Api.

(** ** Commands *)

Record EncryptArgs := MkEncryptArgs {
  ea_input : option string; ea_tier : string; ea_compress : bool; ea_compress_level : Z; ea_identity : bool; ea_stream : bool; ea_chunk_size : Z
}.
Record DecryptArgs := MkDecryptArgs { da_input : option string; da_tier : string; da_identity : bool }.

Definition tier_debug (t : MemoryTier) : string := match t with Nano => "Nano" | Standard => "Standard" | Sovereign => "Sovereign" end.

(** Output written, prompts answered, draws made. *)
Record SealState := MkSealState { so_out : bytes; so_prompts : nat; so_draws : nat }.
Abbreviation SealM := (SE SealState (SealStop string)).

Definition fail {A : Type} (e : string) : SealM A := throw (Failed e).
Definition try_ {A : Type} (what : string) (r : result string A) : SealM A := lift (map_err (fun e => Failed (what +:+ e)) r).
Definition emit (b : bytes) : SealM unit := modify (fun s => MkSealState (so_out s ++ b) (so_prompts s) (so_draws s)).

Section Commands.
Context `{SK : Sdk, XC : XChaCha, SO : SealOps} {DS : DelegSign} {EV : SealEnv}.

Definition seal_passphrase : SealM string :=
  fun s => (map_err Failed (prompt (so_prompts s)), MkSealState (so_out s) (S (so_prompts s)) (so_draws s)).
Definition fill_random (what : string) (n : nat) : SealM bytes :=
  fun s => (map_err (fun e => Failed (what +:+ " generation failed: " +:+ e)) (seal_draw (so_draws s) n),
            MkSealState (so_out s) (so_prompts s) (S (so_draws s))).

Definition key_from_identity (domain : string) : SealM bytes :=
  try_ "" origin_home;;
  passphrase ← seal_passphrase;
  seed ← try_ "" (identity_seed passphrase);
  try_ "HKDF key derivation failed: " (hkdf_blake3_32 seed (chars domain)).

Definition argon2_key (t : MemoryTier) (passphrase : string) (salt : bytes) : SealM bytes :=
  lift (first32 id (seal_argon2 t 32 (chars passphrase) salt)).

(** The loop of [cmd_encrypt_stream]; every chunk but the last fills the buffer. *)
Fixpoint seal_chunks (fuel : nat) (key base_nonce : bytes) (chunk_size : nat) (counter : Z) (r : list ReadEvent) : SealM unit :=
  match fuel with
  | O => throw OutOfFuel
  | S fuel' =>
      match read_full r chunk_size with
      | (Err e, _) => fail e
      | (Ok [], _) => mret tt
      | (Ok b, r') =>
          ct ← try_ ("chunk " +:+ show_Z counter +:+ " encrypt: ") (xc_encrypt key (chunk_nonce base_nonce counter) b);
          emit (be_bytes 4 (Z.of_nat (length ct)));;
          emit ct;;
          seal_chunks fuel' key base_nonce chunk_size (counter + 1) r'
      end
  end.

(** A bound on the chunks: each takes a byte at least. *)
Fixpoint reader_len (r : list ReadEvent) : nat :=
  match r with [] => 0 | Chunk b :: r' => length b + reader_len r' | _ :: r' => reader_len r' end.

Definition cmd_encrypt_stream (args : EncryptArgs) (t : MemoryTier) (passphrase : string) (r : list ReadEvent) : SealM unit :=
  if ea_compress args then fail "--stream and --compress are mutually exclusive"
  else
    chunk_size ← try_ "" (validate_chunk_size (ea_chunk_size args));
    salt ← fill_random "salt" 16;
    base_nonce ← fill_random "nonce" 24;
    key ← argon2_key t passphrase salt;
    emit (seal_header SEAL_STREAMED t salt base_nonce);;
    seal_chunks (S (reader_len r)) key base_nonce (Z.to_nat chunk_size) 0 r;;
    emit (be_bytes 4 0).

Definition cmd_encrypt (args : EncryptArgs) (r : list ReadEvent) : SealM unit :=
  t ← try_ "" (tier_of_str (ea_tier args));
  salt ← fill_random "salt" 16;
  key ← (if ea_identity args then key_from_identity "origin-seal::encrypt" else p ← seal_passphrase; argon2_key t p salt);
  if ea_stream args then
    stream_pass ← (if ea_identity args then mret (hex_encode key) else seal_passphrase);
    cmd_encrypt_stream args t stream_pass r
  else
    plaintext ← try_ "" (read_input (ea_input args) r);
    payload ← (if ea_compress args then try_ "compression failed: " (zstd_compress_level (ea_compress_level args) plaintext) else mret plaintext);
    nonce ← fill_random "nonce" 24;
    ct ← try_ "encryption failed: " (xc_encrypt key nonce payload);
    emit (seal_header (if ea_compress args then SEAL_COMPRESSED else 0) t salt nonce ++ ct).

(** The loop of [cmd_decrypt_stream]: [read_full] on a slice takes a prefix. *)
Fixpoint open_chunks (fuel : nat) (key base_nonce : bytes) (counter : Z) (cursor : bytes) : SealM unit :=
  match fuel with
  | O => throw OutOfFuel
  | S fuel' =>
      let len_buf := take 4 cursor in
      if (length len_buf <? 4)%nat then
        fail ("truncated stream: expected 4-byte chunk length, got " +:+ show_Z (Z.of_nat (length len_buf)) +:+ " bytes (no sentinel)")
      else
        let chunk_len := Z.to_nat (be_val len_buf) in
        if (chunk_len =? 0)%nat then mret tt
        else
          let ct := take chunk_len (drop 4 cursor) in
          if (length ct <? chunk_len)%nat then
            fail ("truncated stream: chunk " +:+ show_Z counter +:+ " expected " +:+ show_Z (Z.of_nat chunk_len) +:+ " bytes, got "
                  +:+ show_Z (Z.of_nat (length ct)))
          else
            pt ← lift (map_err (fun _ => Failed ("chunk " +:+ show_Z counter +:+ " decryption failed (corrupt or wrong key)"))
                         (xc_decrypt key (chunk_nonce base_nonce counter) ct));
            emit pt;;
            open_chunks fuel' key base_nonce (counter + 1) (drop chunk_len (drop 4 cursor))
  end.

Definition cmd_decrypt (args : DecryptArgs) (r : list ReadEvent) : SealM unit :=
  envelope ← try_ "" (read_input (da_input args) r);
  if (length envelope <? SEAL_HEADER_LEN + 16)%nat then fail (too_short (length envelope))
  else if MAX_ENVELOPE_LEN <? Z.of_nat (length envelope) then fail (too_large (length envelope))
  else if negb (bool_decide (take 4 envelope = SEAL_MAGIC)) then fail "not an origin-seal envelope (bad magic)"
  else if negb (code_at 4 envelope =? SEAL_VERSION) then fail ("unsupported envelope version " +:+ show_Z (code_at 4 envelope))
  else
    let fl := code_at 5 envelope in
    try_ "" (validate_envelope_flags fl (code_at 7 envelope));;
    env_tier ← try_ "" (tier_from_byte (code_at 6 envelope));
    cli_tier ← try_ "" (tier_of_str (da_tier args));
    if negb (bool_decide (env_tier = cli_tier)) then
      fail ("tier mismatch: envelope was sealed with " +:+ tier_debug env_tier +:+ " but --tier=" +:+ tier_debug cli_tier)
    else
      let salt := slice 8 24 envelope in
      let base_nonce := slice 24 48 envelope in
      key ← (if da_identity args then key_from_identity "origin-seal::encrypt" else p ← seal_passphrase; argon2_key env_tier p salt);
      let body := drop SEAL_HEADER_LEN envelope in
      if negb (Z.land fl SEAL_STREAMED =? 0) then open_chunks (S (length body)) key base_nonce 0 body
      else
        payload ← lift (map_err (fun _ => Failed "decryption failed (wrong passphrase or corrupt data)") (xc_decrypt key base_nonce body));
        plaintext ← (if negb (Z.land fl SEAL_COMPRESSED =? 0) then try_ "decompression failed: " (zstd_decompress payload) else mret payload);
        emit plaintext.

(** ** Keys, signatures, hashes *)

(** Files that are read: contents or the error. *)
Definition resolve_key (key : option string) (key_file : option (string * result string string)) : result string bytes :=
  match key, key_file with
  | Some h, None => map_err (fun e => "invalid hex key: " +:+ e) (hex_decode (trim h))
  | None, Some (p, contents) =>
      s ← map_err (fun e => "cannot read key file '" +:+ p +:+ "': " +:+ e) contents;
      map_err (fun e => "invalid hex in key file: " +:+ e) (hex_decode (trim s))
  | Some _, Some _ => Err "specify --key or --key-file, not both"
  | None, None => Err "a key is required (--key or --key-file)"
  end.

Definition resolve_seed (seed_hex : option string) (blob : option (string * result string bytes)) (t : MemoryTier) : SealM bytes :=
  match seed_hex, blob with
  | Some h, None =>
      b ← try_ "invalid hex seed: " (hex_decode (trim h));
      if (length b =? 32)%nat then mret b else fail ("seed must be 32 bytes, got " +:+ show_Z (Z.of_nat (length b)))
  | None, Some (p, contents) =>
      b ← try_ ("cannot read blob '" +:+ p +:+ "': ") contents;
      passphrase ← seal_passphrase;
      lift (map_err (fun _ => Failed "blob decryption failed (wrong passphrase or corrupt)") (recover_seed b (chars passphrase) t))
  | Some _, Some _ => fail "specify --seed or --blob, not both"
  | None, None => fail "a seed source is required (--seed or --blob)"
  end.

(** The text that is printed. *)
Definition cmd_hash (kind : HashKind) (path : option string) (r : list ReadEvent) (key : option string)
    (key_file : option (string * result string string)) (raw : bool) : SealM unit :=
  data ← try_ "" (read_input path r);
  k ← match kind with KHmacSha3_256 => k ← try_ "" (resolve_key key key_file); mret (Some k) | _ => mret None end;
  digest ← lift (map_err (fun e => Failed (seal_error_display e)) (seal_hash kind data k));
  emit (if raw then digest else chars (hex_encode digest) ++ [lf]).

Definition cmd_mac (path : option string) (r : list ReadEvent) (key : option string) (key_file : option (string * result string string)) (raw : bool) :
    SealM unit :=
  data ← try_ "" (read_input path r);
  k ← try_ "" (resolve_key key key_file);
  m ← lift (map_err (fun e => Failed (seal_error_display e)) (seal_mac k data));
  emit (if raw then m else chars (hex_encode m) ++ [lf]).

Definition cmd_kdf (tier_arg : string) (salt_arg : option string) (len : nat) (raw : bool) : SealM unit :=
  t ← try_ "" (tier_of_str tier_arg);
  passphrase ← seal_passphrase;
  salt ← match salt_arg with
         | Some h =>
             b ← try_ "invalid salt hex: " (hex_decode (trim h));
             if (length b =? 16)%nat then mret b else fail ("salt must be 16 bytes, got " +:+ show_Z (Z.of_nat (length b)))
         | None => fill_random "random" 16
         end;
  key ← try_ "Argon2id failed: " (seal_argon2 t len (chars passphrase) salt);
  emit (if raw then key else chars ("salt: " +:+ hex_encode salt) ++ [lf] ++ chars ("key:  " +:+ hex_encode key) ++ [lf]).

(** [cmd_sign] with [--format hex]. *)
Definition seed_source (identity : bool) (seed_hex : option string) (blob : option (string * result string bytes)) (t : MemoryTier) : SealM bytes :=
  if identity then try_ "" origin_home;; passphrase ← seal_passphrase; try_ "" (identity_seed passphrase) else resolve_seed seed_hex blob t.

Definition cmd_sign_hex (tier_arg domain : string) (path : option string) (r : list ReadEvent) (identity : bool) (seed_hex : option string)
    (blob : option (string * result string bytes)) : SealM unit :=
  t ← try_ "" (tier_of_str tier_arg);
  data ← try_ "" (read_input path r);
  seed ← seed_source identity seed_hex blob t;
  bundle ← try_ "key derivation failed: " (bundle_from_seed seed domain);
  let sig := sign_hybrid bundle data in
  emit (chars (hex_encode (to_wire (MkSealSig (ed_to_bytes sig.1) (falcon_as_bytes sig.2) domain))) ++ [lf]).

Definition resolve_verify_pubkeys (tier_arg domain : string) (identity : bool) (seed_hex : option string) (blob : option (string * result string bytes))
    (ed25519_pubkey : option string) (falcon_pubkey : option (string * result string bytes)) : SealM (bytes * bytes) :=
  if identity then
    seed ← seed_source true None None Standard;
    bundle ← try_ "key derivation failed: " (bundle_from_seed seed domain);
    mret (bundle_ed25519_pk bundle, bundle_falcon1024_pk bundle)
  else if bool_decide (is_Some seed_hex) || bool_decide (is_Some blob) then
    t ← try_ "" (tier_of_str tier_arg);
    seed ← resolve_seed seed_hex blob t;
    bundle ← try_ "key derivation failed: " (bundle_from_seed seed domain);
    mret (bundle_ed25519_pk bundle, bundle_falcon1024_pk bundle)
  else
    match ed25519_pubkey with
    | None => fail "verification needs --seed/--blob, or --ed25519-pubkey + --falcon-pubkey"
    | Some h =>
        ed ← try_ "invalid ed25519 pubkey hex: " (hex_decode (trim h));
        if negb (length ed =? 32)%nat then fail ("ed25519 pubkey must be 32 bytes, got " +:+ show_Z (Z.of_nat (length ed)))
        else
          match falcon_pubkey with
          | None => fail "verification with --ed25519-pubkey also needs --falcon-pubkey"
          | Some (p, contents) =>
              falcon ← try_ ("cannot read falcon pubkey '" +:+ p +:+ "': ") contents;
              try_ "invalid falcon pubkey: " (falcon_pk_check falcon);;
              mret (ed, falcon)
          end
    end.

Definition ok_or_bad (b : bool) : string := if b then "ok" else "bad".

Definition cmd_verify_seal (tier_arg domain : string) (path : option string) (r : list ReadEvent) (signature : string * result string bytes)
    (identity : bool) (seed_hex : option string) (blob : option (string * result string bytes)) (ed25519_pubkey : option string)
    (falcon_pubkey : option (string * result string bytes)) : SealM unit :=
  data ← try_ "" (read_input path r);
  sig_bytes ← try_ ("cannot read signature '" +:+ fst signature +:+ "': ") (snd signature);
  sig ← try_ "" (parse_signature sig_bytes);
  if negb (length sig.1 =? 64)%nat then fail ("ed25519 signature must be 64 bytes, got " +:+ show_Z (Z.of_nat (length sig.1)))
  else
    falcon_sig ← try_ "invalid falcon signature: " (falcon_from_bytes sig.2);
    pks ← resolve_verify_pubkeys tier_arg domain identity seed_hex blob ed25519_pubkey falcon_pubkey;
    let ed_ok := ed_verify_pk pks.1 data sig.1 in
    let falcon_ok := falcon_verify_pk data falcon_sig pks.2 in
    if ed_ok && falcon_ok then emit (chars "OK" ++ [lf])
    else fail ("signature verification FAILED (ed25519=" +:+ ok_or_bad ed_ok +:+ ", falcon1024=" +:+ ok_or_bad falcon_ok +:+ ")").
End Commands.

(** ** Fuel *)

(** Reading takes from the input what it returns. *)
Lemma read_full_len (r r' : list ReadEvent) (need : nat) (b : bytes) : read_full r need = (Ok b, r') -> (reader_len r' + length b = reader_len r)%nat.
Proof.
  revert need b. induction r as [|[c| |e] r IH]; intros [|n] b H; cbn [read_full] in H; try (injection H as <- <-; cbn; lia).
  - destruct (bool_decide_reflect (c = [])) as [->|]; [injection H as <- <-; cbn; lia|]. destruct (Nat.leb_spec (length c) (S n)).
    + destruct (read_full r (S n - length c)) as [[x|] r''] eqn:E; [|done]. injection H as <- <-. apply IH in E. cbn. rewrite length_app. lia.
    + assert (b = take (S n) c /\ r' = Chunk (drop (S n) c) :: r) as [-> ->] by (split; congruence). cbn [reader_len]. rewrite length_take, length_drop. lia.
  - by apply (IH (S n)).
  - done.
Qed.

Section Fuel.
Context `{SK : Sdk, XC : XChaCha, SO : SealOps} {DS : DelegSign} {EV : SealEnv}.

(** The loops of both streams end within their fuel, whatever the reader
    and the cipher answer. *)
Lemma seal_chunks_fuel (fuel cs : nat) (key base : bytes) (counter : Z) (r : list ReadEvent) (s : SealState) :
  (reader_len r < fuel)%nat -> (seal_chunks fuel key base cs counter r s).1 <> Err OutOfFuel.
Proof.
  revert counter r s. induction fuel as [|fuel IH]; intros counter r s Hf; [lia|]. cbn [seal_chunks].
  destruct (read_full r cs) as [[[|a b]|e] r'] eqn:E; [done| |done]. apply read_full_len in E. cbn [length] in E.
  unfold try_, lift, mbind, SE_mbind. destruct (xc_encrypt _ _ _); [|done]. apply IH. lia.
Qed.

Lemma open_chunks_fuel (fuel : nat) (key base : bytes) (counter : Z) (cursor : bytes) (s : SealState) :
  (length cursor < fuel)%nat -> (open_chunks fuel key base counter cursor s).1 <> Err OutOfFuel.
Proof.
  revert counter cursor s. induction fuel as [|fuel IH]; intros counter cursor s Hf; [lia|]. cbn [open_chunks].
  destruct (Nat.ltb_spec (length (take 4 cursor)) 4) as [|Hl]; [done|]. destruct (Nat.eqb_spec (Z.to_nat (be_val (take 4 cursor))) 0); [done|].
  destruct (Nat.ltb_spec (length (take (Z.to_nat (be_val (take 4 cursor))) (drop 4 cursor))) (Z.to_nat (be_val (take 4 cursor)))); [done|].
  unfold lift, mbind, SE_mbind. destruct (xc_decrypt _ _ _); [|done]. apply IH. rewrite length_take in Hl. rewrite !length_drop. lia.
Qed.
End Fuel.

(** ** Readers *)

(** A reader that reaches its end without an error. *)
Definition plain (r : list ReadEvent) : Prop :=
  Forall (fun e => match e with Chunk b => b <> [] | Interrupted => True | ReadError _ => False end) r.
Definition reader_data (r : list ReadEvent) : bytes := concat (map (fun e => match e with Chunk b => b | _ => [] end) r).

Lemma reader_len_data (r : list ReadEvent) : reader_len r = length (reader_data r).
Proof. unfold reader_data. induction r as [|[b| |e] r IH]; cbn; [done|by rewrite length_app, IH|done|done]. Qed.

(** However the input comes in pieces, a buffer is filled with its next bytes. *)
Lemma read_full_plain (r : list ReadEvent) (n : nat) :
  plain r -> exists r', read_full r n = (Ok (take n (reader_data r)), r') /\ plain r' /\ reader_data r' = drop n (reader_data r).
Proof.
  intros Hr. revert n. induction Hr as [|e r He Hr IH]; intros n.
  - exists []. destruct n; (split; [done|]); (split; [constructor|done]).
  - destruct n as [|n]; [exists (e :: r); by split_and!; [|constructor|]|]. destruct e as [b| |e]; [|apply (IH (S n))|done].
    cbn [read_full]. rewrite bool_decide_eq_false_2 by done. change (reader_data (Chunk b :: r)) with (b ++ reader_data r).
    destruct (Nat.leb_spec (length b) (S n)).
    + destruct (IH (S n - length b)%nat) as (r' & E & H1 & H2). exists r'. rewrite E. split_and!; [|done|].
      * by rewrite take_app_ge by lia.
      * by rewrite drop_app_ge by lia.
    + exists (Chunk (drop (S n) b) :: r). rewrite take_app_le, drop_app_le by lia. split_and!; [done| |done]. constructor; [|done].
      intros E%(f_equal length). rewrite length_drop in E. cbn in E. lia.
Qed.

Lemma read_to_end_plain (r : list ReadEvent) : plain r -> read_to_end r = Ok (reader_data r).
Proof.
  induction 1 as [|[b| |e] r He Hr IH]; cbn; [done| |done|done]. rewrite bool_decide_eq_false_2 by done. by rewrite IH.
Qed.

Section Theory.
Context `{SK : Sdk, XC : XChaCha, SO : SealOps} {DS : DelegSign} {EV : SealEnv}.

Definition wrote (b : bytes) (s : SealState) : SealState := MkSealState (so_out s ++ b) (so_prompts s) (so_draws s).

Lemma wrote_wrote (a b : bytes) (s : SealState) : wrote b (wrote a s) = wrote (a ++ b) s.
Proof. unfold wrote. cbn. by rewrite app_assoc. Qed.
Lemma wrote_nil (s : SealState) : wrote [] s = s.
Proof. destruct s. unfold wrote. cbn. by rewrite app_nil_r. Qed.

Lemma try_Ok {A : Type} (what : string) (r : result string A) (s s' : SealState) (a : A) : try_ what r s = (Ok a, s') -> r = Ok a /\ s' = s.
Proof. unfold try_, lift. destruct r; [|done]. by intros [= <- <-]. Qed.

Lemma try_bind {A B : Type} (what : string) (a : A) (f : A -> SealM B) (s : SealState) : (try_ what (Ok a) ≫= f) s = f a s.
Proof. done. Qed.

(** Streaming writes the frames of the chunks of the input. *)
Lemma seal_chunks_Ok (fuel cs : nat) (key base : bytes) (counter : Z) (r : list ReadEvent) (s s' : SealState) (u : unit) :
  plain r -> (0 < cs)%nat -> seal_chunks fuel key base cs counter r s = (Ok u, s') ->
  exists body, encrypt_chunks key base counter (file_chunks fuel cs (reader_data r)) = Ok body /\ s' = wrote body s.
Proof.
  intros Hr Hcs. revert counter r s Hr. induction fuel as [|fuel IH]; intros counter r s Hr H; [done|]. cbn [seal_chunks file_chunks] in *.
  destruct (read_full_plain r cs Hr) as (r' & E & Hr' & Hd). rewrite E in H. destruct (reader_data r) as [|a l] eqn:Ed.
  { rewrite take_nil in H. injection H as _ <-. exists []. by rewrite wrote_nil. }
  assert (take cs (a :: l) = a :: take (cs - 1) l) as Et by (destruct cs; [lia|]; cbn; by rewrite Nat.sub_0_r).
  rewrite Et in H. apply SE_bind_Ok in H as (ct & s1 & [Hct ->]%try_Ok & H).
  apply SE_bind_Ok in H as (u1 & s2 & E2 & H). apply SE_bind_Ok in H as (u2 & s3 & E3 & H). injection E2 as _ <-. injection E3 as _ <-.
  apply (IH (counter + 1) r') in H as (body & Hb & ->); [|done]. rewrite Hd in Hb.
  exists (be_bytes 4 (Z.of_nat (length ct)) ++ ct ++ body). cbn [encrypt_chunks]. rewrite Et, Hct. cbn [map_err mbind result_mbind]. rewrite Hb. split; [done|].
  change (MkSealState (so_out s ++ be_bytes 4 (Z.of_nat (length ct))) (so_prompts s) (so_draws s)) with (wrote (be_bytes 4 (Z.of_nat (length ct))) s).
  cbn [so_out so_prompts so_draws wrote]. unfold wrote. cbn. by rewrite <- !app_assoc.
Qed.

(** The streaming decoder is that of the version control system, and writes as it goes. *)
Lemma open_chunks_decrypt (fuel : nat) (key base : bytes) (counter : Z) (cursor out : bytes) (s : SealState) :
  exists x, open_chunks fuel key base counter cursor s =
    (match decrypt_chunks file_msgs fuel key base counter cursor out with
     | None => Err OutOfFuel
     | Some (Err e) => Err (Failed e)
     | Some (Ok _) => Ok tt
     end, wrote x s) /\
    forall o, decrypt_chunks file_msgs fuel key base counter cursor out = Some (Ok o) -> o = out ++ x.
Proof.
  revert counter cursor out s. induction fuel as [|fuel IH]; intros counter cursor out s; [exists []; by rewrite wrote_nil|].
  cbn [open_chunks decrypt_chunks]. rewrite length_take. destruct (Nat.ltb_spec (length cursor) 4) as [Hl|Hl].
  { exists []. rewrite wrote_nil. destruct (Nat.ltb_spec (4 `min` length cursor) 4); [|lia]. split; [|done].
    replace (4 `min` length cursor)%nat with (length cursor) by lia. done. }
  destruct (Nat.ltb_spec (4 `min` length cursor) 4); [lia|]. set (n := Z.to_nat (be_val (take 4 cursor))).
  destruct (Nat.eqb_spec n 0); [exists []; rewrite wrote_nil; split; [done|]; intros o [= <-]; by rewrite app_nil_r|].
  rewrite length_take. destruct (Nat.ltb_spec (length (drop 4 cursor)) n) as [Hn|Hn].
  { exists []. rewrite wrote_nil. destruct (Nat.ltb_spec (n `min` length (drop 4 cursor)) n); [|lia]. split; [|done].
    replace (n `min` length (drop 4 cursor))%nat with (length (drop 4 cursor)) by lia. done. }
  destruct (Nat.ltb_spec (n `min` length (drop 4 cursor)) n); [lia|].
  destruct (xc_decrypt _ _ _) as [pt|e] eqn:Ex; [|exists []; rewrite wrote_nil; done].
  unfold mbind, SE_mbind, lift. cbn [map_err emit modify].
  destruct (IH (counter + 1) (drop n (drop 4 cursor)) (out ++ pt) (wrote pt s)) as (x & E & Ho). exists (pt ++ x). split.
  - change (MkSealState (so_out s ++ pt) (so_prompts s) (so_draws s)) with (wrote pt s). by rewrite E, wrote_wrote.
  - intros o Hd. rewrite (Ho o Hd). by rewrite app_assoc.
Qed.

(** *** Headers *)

Lemma header_parse (fl : Z) (t : MemoryTier) (salt nonce body : bytes) :
  0 <= fl < 256 -> length salt = 16%nat -> length nonce = 24%nat ->
  let e := seal_header fl t salt nonce ++ body in
  length e = (48 + length body)%nat /\ take 4 e = SEAL_MAGIC /\ code_at 4 e = SEAL_VERSION /\ code_at 5 e = fl /\ code_at 6 e = tier_to_byte t /\
  code_at 7 e = 0 /\ slice 8 24 e = salt /\ slice 24 48 e = nonce /\ drop SEAL_HEADER_LEN e = body.
Proof.
  intros Hf Hs Hn e. unfold e, seal_header. rewrite <- !app_assoc. split_and!; try done.
  - rewrite !length_app, Hs, Hn. cbn. lia.
  - unfold code_at. cbn. rewrite code_byte_of. by apply Z.mod_small.
  - unfold code_at. cbn. by destruct t.
  - change (SEAL_MAGIC ++ ?a ++ ?l) with ((SEAL_MAGIC ++ a) ++ l). replace 24%nat with (8 + length salt)%nat by lia. by apply slice_app.
  - rewrite (app_assoc SEAL_MAGIC), (app_assoc (SEAL_MAGIC ++ _)). replace 48%nat with (24 + length nonce)%nat by lia. apply slice_app.
    rewrite !length_app, Hs. done.
  - unfold SEAL_HEADER_LEN. rewrite !app_assoc. rewrite drop_app_length'; [done|]. rewrite !length_app, Hs, Hn. done.
Qed.

Lemma flags_valid (fl : Z) : fl = 0 \/ fl = SEAL_COMPRESSED \/ fl = SEAL_STREAMED -> validate_envelope_flags fl 0 = Ok tt.
Proof. by intros [->|[->| ->]]. Qed.

(** The key that a command uses for a salt. *)
Definition command_key (identity : bool) (t : MemoryTier) (salt : bytes) : SealM bytes :=
  if identity then key_from_identity "origin-seal::encrypt" else p ← seal_passphrase; argon2_key t p salt.

Lemma decrypt_header (da : DecryptArgs) (r : list ReadEvent) (fl : Z) (t : MemoryTier) (salt nonce body : bytes) (s : SealState) :
  plain r -> reader_data r = seal_header fl t salt nonce ++ body -> length salt = 16%nat -> length nonce = 24%nat -> (16 <= length body)%nat ->
  Z.of_nat (48 + length body) <= MAX_ENVELOPE_LEN -> tier_of_str (da_tier da) = Ok t -> fl = 0 \/ fl = SEAL_COMPRESSED \/ fl = SEAL_STREAMED ->
  cmd_decrypt da r s =
  (key ← command_key (da_identity da) t salt;
   if negb (Z.land fl SEAL_STREAMED =? 0) then open_chunks (S (length body)) key nonce 0 body
   else
     payload ← lift (map_err (fun _ => Failed "decryption failed (wrong passphrase or corrupt data)") (xc_decrypt key nonce body));
     plaintext ← (if negb (Z.land fl SEAL_COMPRESSED =? 0) then try_ "decompression failed: " (zstd_decompress payload) else mret payload);
     emit plaintext) s.
Proof.
  intros Hr Hd Hs Hn Hb Hmax Ht Hf. assert (0 <= fl < 256) as Hfr by (destruct Hf as [->|[->| ->]]; done).
  destruct (header_parse fl t salt nonce body Hfr Hs Hn) as (L & M & V & F & T & R & S & N & D).
  unfold cmd_decrypt, read_input. rewrite read_to_end_plain, Hd by done. cbn [map_err]. rewrite try_bind.
  rewrite L, M, V, F, T, R, S, N, D. destruct (Nat.ltb_spec (48 + length body) (SEAL_HEADER_LEN + 16)); [unfold SEAL_HEADER_LEN in *; lia|].
  destruct (Z.ltb_spec MAX_ENVELOPE_LEN (Z.of_nat (48 + length body))); [lia|]. rewrite bool_decide_eq_true_2 by done. rewrite Z.eqb_refl. cbn [negb].
  rewrite (flags_valid fl Hf), tier_roundtrip, Ht, !try_bind.
  by rewrite bool_decide_eq_true_2.
Qed.

(** *** What encryption writes *)

(** Draws have their length; zstd is inverted. *)
Class SealOk : Prop := {
  seal_draw_len : forall k n b, seal_draw k n = Ok b -> length b = n;
  zstd_level_inv : forall l b c, zstd_compress_level l b = Ok c -> zstd_decompress c = Ok b
}.
Context {OK : SealOk} {XO : XChaChaOk}.

Lemma fill_random_Ok (what : string) (n : nat) (s s' : SealState) (b : bytes) :
  fill_random what n s = (Ok b, s') -> length b = n /\ so_out s' = so_out s.
Proof.
  unfold fill_random. destruct (seal_draw _ _) eqn:E; [|done]. intros [= <- <-]. split; [by eapply seal_draw_len|done].
Qed.

Definition chunks_of (cs : Z) (data : bytes) : list bytes := file_chunks (S (length data)) (Z.to_nat cs) data.

Lemma chunks_of_spec (cs : Z) (data : bytes) : CHUNK_MIN <= cs <= CHUNK_MAX ->
  concat (chunks_of cs data) = data /\ Forall (fun c => (length c <= Z.to_nat (2 ^ 30))%nat) (chunks_of cs data).
Proof.
  unfold CHUNK_MIN, CHUNK_MAX. intros H. split; [apply file_chunks_concat; lia|].
  eapply Forall_impl; [apply file_chunks_size|]. cbn. lia.
Qed.

Lemma encrypt_stream_Ok (args : EncryptArgs) (t : MemoryTier) (p : string) (r : list ReadEvent) (s s' : SealState) (u : unit) :
  plain r -> cmd_encrypt_stream args t p r s = (Ok u, s') ->
  CHUNK_MIN <= ea_chunk_size args <= CHUNK_MAX /\
  exists salt base key body, length salt = 16%nat /\ length base = 24%nat /\ first32 id (seal_argon2 t 32 (chars p) salt) = Ok key /\
    encrypt_chunks key base 0 (chunks_of (ea_chunk_size args) (reader_data r)) = Ok body /\
    so_out s' = so_out s ++ seal_header SEAL_STREAMED t salt base ++ body ++ be_bytes 4 0.
Proof.
  intros Hr H. unfold cmd_encrypt_stream in H. destruct (ea_compress args); [done|].
  apply SE_bind_Ok in H as (cs & s1 & [Hcs ->]%try_Ok & H). unfold validate_chunk_size in Hcs.
  destruct (Z.leb_spec CHUNK_MIN (ea_chunk_size args)); [|done]. destruct (Z.leb_spec (ea_chunk_size args) CHUNK_MAX); [|done]. injection Hcs as <-.
  apply SE_bind_Ok in H as (salt & s2 & [Hsalt E2]%fill_random_Ok & H). apply SE_bind_Ok in H as (base & s3 & [Hbase E3]%fill_random_Ok & H).
  apply SE_bind_Ok in H as (key & s4 & Hk & H). unfold argon2_key, lift in Hk. injection Hk as Hk <-.
  apply SE_bind_Ok in H as (u1 & s5 & E5 & H). injection E5 as _ <-. apply SE_bind_Ok in H as (u2 & s6 & H6 & H). injection H as _ <-.
  apply seal_chunks_Ok in H6 as (body & Hb & ->); [|done|unfold CHUNK_MIN in *; lia]. rewrite reader_len_data in Hb.
  split; [lia|]. exists salt, base, key, body. split_and!; [done..|]. unfold wrote. cbn [so_out]. rewrite E3, E2. by rewrite <- !app_assoc.
Qed.

Lemma encrypt_Ok (args : EncryptArgs) (r : list ReadEvent) (s s' : SealState) (u : unit) :
  plain r -> cmd_encrypt args r s = (Ok u, s') ->
  exists t salt key s1 s2, tier_of_str (ea_tier args) = Ok t /\ length salt = 16%nat /\ so_out s1 = so_out s /\
    command_key (ea_identity args) t salt s1 = (Ok key, s2) /\
    if ea_stream args then
      exists p s3, (if ea_identity args then mret (hex_encode key) else seal_passphrase) s2 = (Ok p, s3) /\ cmd_encrypt_stream args t p r s3 = (Ok u, s')
    else
      exists payload nonce ct, (if ea_compress args then zstd_compress_level (ea_compress_level args) (reader_data r) else Ok (reader_data r)) = Ok payload /\
        length nonce = 24%nat /\ xc_encrypt key nonce payload = Ok ct /\
        so_out s' = so_out s2 ++ seal_header (if ea_compress args then SEAL_COMPRESSED else 0) t salt nonce ++ ct.
Proof.
  intros Hr H. unfold cmd_encrypt in H. apply SE_bind_Ok in H as (t & s0 & [Ht ->]%try_Ok & H).
  apply SE_bind_Ok in H as (salt & s1 & [Hsalt E1]%fill_random_Ok & H). apply SE_bind_Ok in H as (key & s2 & Hk & H).
  exists t, salt, key, s1, s2. split_and!; [done..|]. destruct (ea_stream args).
  - by apply SE_bind_Ok in H.
  - unfold read_input in H. rewrite read_to_end_plain in H by done. apply SE_bind_Ok in H as (pl & s3 & [Hpl ->]%try_Ok & H). injection Hpl as <-.
    apply SE_bind_Ok in H as (payload & s4 & Hp & H). apply SE_bind_Ok in H as (nonce & s5 & [Hn E5]%fill_random_Ok & H).
    apply SE_bind_Ok in H as (ct & s6 & [Hct ->]%try_Ok & H). injection H as _ <-. exists payload, nonce, ct.
    assert ((if ea_compress args then zstd_compress_level (ea_compress_level args) (reader_data r) else Ok (reader_data r)) = Ok payload /\ s4 = s2) as [Hpay ->].
    { destruct (ea_compress args); [by apply try_Ok in Hp|]. by injection Hp as <- <-. }
    split_and!; [done..|]. cbn. by rewrite E5.
Qed.

Lemma command_key_same (p : string) (identity : bool) (t : MemoryTier) (salt key : bytes) (s1 s2 : SealState) :
  (forall k, prompt k = Ok p) -> command_key identity t salt s1 = (Ok key, s2) ->
  so_out s2 = so_out s1 /\ forall s, exists s', command_key identity t salt s = (Ok key, s') /\ so_out s' = so_out s.
Proof.
  intros Hp. unfold command_key, key_from_identity, argon2_key, seal_passphrase, try_, lift, mbind, SE_mbind. destruct identity.
  - destruct origin_home as [[]|]; [|done]. cbn. rewrite Hp. cbn. destruct (identity_seed p) as [seed|] eqn:Es; [|done]. cbn.
    destruct (hkdf_blake3_32 seed _) as [k|] eqn:Eh; [|done]. cbn. intros [= <- <-]. split; [done|]. intros s. rewrite Hp. cbn. rewrite Es. cbn. rewrite Eh.
    eexists. split; [reflexivity|done].
  - cbn. rewrite Hp. cbn. intros [= Hk <-]. split; [done|]. intros s. rewrite Hp. cbn. rewrite Hk. eexists. split; [reflexivity|done].
Qed.

Lemma encrypt_chunks_long (key base : bytes) (counter : Z) (c : bytes) (cs : list bytes) (body : bytes) :
  encrypt_chunks key base counter (c :: cs) = Ok body -> (20 <= length body)%nat.
Proof.
  cbn [encrypt_chunks]. intros E. apply result_bind_Ok in E as (ct & Ect & E). apply result_bind_Ok in E as (rest & _ & E).
  assert (body = be_bytes 4 (Z.of_nat (length ct)) ++ ct ++ rest) as -> by congruence. clear E.
  destruct (xc_encrypt _ _ _) as [ct'|] eqn:Ex; [|done]. injection Ect as <-. apply xc_length in Ex. rewrite !length_app, be_bytes_length. lia.
Qed.

(** Reading the frames of a stream up to its end mark. *)
Lemma open_stream (key base body : bytes) (chunks : list bytes) (s : SealState) :
  Forall (fun c => (length c <= Z.to_nat (2 ^ 30))%nat) chunks -> encrypt_chunks key base 0 chunks = Ok body ->
  open_chunks (S (length (body ++ be_bytes 4 0))) key base 0 (body ++ be_bytes 4 0) s = (Ok tt, wrote (concat chunks) s).
Proof.
  intros Hc He. destruct (open_chunks_decrypt (S (length (body ++ be_bytes 4 0))) key base 0 (body ++ be_bytes 4 0) [] s) as (x & E & Ho).
  rewrite (decrypt_encrypt_chunks file_msgs chunks key base 0 body []) in E, Ho by (done || lia). specialize (Ho _ eq_refl). cbn [app] in Ho. by rewrite E, Ho.
Qed.


(** A stream of no data is written without complaint, and nothing
    opens it: with its end mark it is shorter than the least envelope. *)
Theorem empty_stream_unreadable (args : EncryptArgs) (da : DecryptArgs) (r r2 : list ReadEvent) (s s' s2 : SealState) :
  plain r -> plain r2 -> reader_data r = [] -> ea_stream args = true -> so_out s = [] -> (forall k, exists p, prompt k = Ok p) ->
  cmd_encrypt args r s = (Ok tt, s') -> reader_data r2 = so_out s' ->
  length (so_out s') = 52%nat /\ cmd_decrypt da r2 s2 = (Err (Failed (too_short 52)), s2).
Proof.
  intros Hr Hr2 He Hst Hs0 Hp H Hd. apply encrypt_Ok in H as (t & salt & key & s1 & s1' & Ht & Hsalt & E1 & Hk & H); [|done]. rewrite Hst in H.
  assert (so_out s1' = []) as Eout.
  { destruct (Hp (so_prompts s1)) as [p Hp1]. revert Hk. unfold command_key, key_from_identity, argon2_key, seal_passphrase, try_, lift, mbind, SE_mbind.
    rewrite <- Hs0, <- E1. destruct (ea_identity args).
    - destruct origin_home as [[]|]; [|done]. cbn. rewrite Hp1. cbn. destruct (identity_seed p); [|done]. cbn. by intros [= _ <-].
    - cbn. rewrite Hp1. cbn. by intros [= _ <-]. }
  destruct H as (p' & s3 & Hp' & H). assert (so_out s3 = []) as E3.
  { destruct (ea_identity args); [by injection Hp' as _ <-|]. unfold seal_passphrase in Hp'. by injection Hp' as _ <-. }
  apply encrypt_stream_Ok in H as (Hcs & salt2 & base & key2 & body & Hs2 & Hb & Hk2 & Hbody & Hout); [|done]. rewrite He in Hbody. injection Hbody as <-.
  rewrite E3 in Hout. cbn [app] in Hout. assert (length (so_out s') = 52%nat) as Hl.
  { rewrite Hout. destruct (header_parse SEAL_STREAMED t salt2 base (be_bytes 4 0)) as [-> _]; done. }
  split; [done|]. unfold cmd_decrypt, read_input. rewrite read_to_end_plain, Hd by done. cbn [map_err]. rewrite try_bind, Hl. done.
Qed.

(** A stream sealed under the identity is encrypted under another key
    than [decrypt] uses: if the cipher rejects the first chunk under the key
    of the identity, as a cipher should, the stream cannot be opened. *)
Theorem identity_stream_unreadable (args : EncryptArgs) (p : string) (r r2 : list ReadEvent) (s s' s2 : SealState) (input : option string) :
  plain r -> plain r2 -> reader_data r <> [] -> ea_stream args = true -> ea_identity args = true -> so_out s = [] -> (forall k, prompt k = Ok p) ->
  cmd_encrypt args r s = (Ok tt, s') -> reader_data r2 = so_out s' -> Z.of_nat (length (so_out s')) <= MAX_ENVELOPE_LEN ->
  exists t key salt key2 nonce chunk ct, first32 id (seal_argon2 t 32 (chars (hex_encode key)) salt) = Ok key2 /\ xc_encrypt key2 nonce chunk = Ok ct /\
    forall e, xc_decrypt key nonce ct = Err e ->
      exists s3, cmd_decrypt (MkDecryptArgs input (ea_tier args) true) r2 s2 = (Err (Failed "chunk 0 decryption failed (corrupt or wrong key)"), s3) /\
                 so_out s3 = so_out s2.
Proof.
  intros Hr Hr2 Hne Hst Hid Hs0 Hp H Hd Hmax. apply encrypt_Ok in H as (t & salt & key & s1 & s1' & Ht & Hsalt & E1 & Hk & H); [|done]. rewrite Hst, Hid in *.
  destruct (command_key_same p _ _ _ _ _ _ Hp Hk) as [Eout Hsame]. destruct H as (p' & s3 & Hp' & H). injection Hp' as <- <-.
  apply encrypt_stream_Ok in H as (Hcs & salt2 & base & key2 & body & Hs2 & Hb & Hk2 & He & Hout); [|done].
  rewrite Eout, E1, Hs0 in Hout. cbn [app] in Hout. destruct (chunks_of_spec _ (reader_data r) Hcs) as [Hcat Hsmall].
  destruct (chunks_of _ _) as [|c cs] eqn:Ec; [by destruct (reader_data r)|]. pose proof (encrypt_chunks_long _ _ _ _ _ _ He) as Hlong.
  cbn [encrypt_chunks] in He. apply result_bind_Ok in He as (ct & Ect & He). apply result_bind_Ok in He as (rest & Er & He).
  assert (body = be_bytes 4 (Z.of_nat (length ct)) ++ ct ++ rest) as -> by congruence. clear He.
  destruct (xc_encrypt key2 (chunk_nonce base 0) c) as [ct'|] eqn:Ex; [|done]. injection Ect as <-. pose proof (xc_length _ _ _ _ Ex) as Hlct.
  exists t, key, salt2, key2, (chunk_nonce base 0), c, ct'. split_and!; [done..|]. intros e Hdec.
  set (body := (be_bytes 4 (Z.of_nat (length ct')) ++ ct' ++ rest) ++ be_bytes 4 0) in *.
  assert (20 <= length body)%nat as Hlb by (unfold body; rewrite length_app; lia).
  destruct (header_parse SEAL_STREAMED t salt2 base body) as [Hl _]; [done..|]. rewrite Hout in Hd, Hmax. fold body in Hd, Hmax. rewrite Hl in Hmax.
  rewrite (decrypt_header _ r2 SEAL_STREAMED t salt2 base body) by (lia || done || auto). destruct (Hsame s2) as (s3 & Hk3 & E3).
  assert (command_key true t salt2 s2 = (Ok key, s3)) as Hk4 by exact Hk3.
  unfold mbind, SE_mbind. cbn [da_identity]. rewrite Hk4. change (negb (Z.land SEAL_STREAMED SEAL_STREAMED =? 0)) with true. cbv iota.
  exists s3. split; [|done]. cbn [open_chunks]. unfold body. rewrite <- !app_assoc. inversion Hsmall as [|? ? Hc0 _]; subst.
  destruct (chunk_field ct' (rest ++ be_bytes 4 0)) as (-> & -> & ->); [lia|]. rewrite be_bytes_length. change (4 <? 4)%nat with false. cbv iota.
  destruct (Nat.eqb_spec (length ct') 0); [lia|]. rewrite take_app_length. destruct (Nat.ltb_spec (length ct') (length ct')); [lia|].
  unfold lift, mbind, SE_mbind. by rewrite Hdec.
Qed.

(** C39: The end mark is not authenticated: a stream cut behind any of its
    chunks, with the mark written again, is opened as if it were whole. *)
Theorem cut_stream_opens (args : EncryptArgs) (p : string) (r : list ReadEvent) (s s' s2 : SealState) (input : option string) (n : nat) :
  plain r -> reader_data r <> [] -> ea_stream args = true -> ea_identity args = false -> so_out s = [] -> (forall k, prompt k = Ok p) ->
  cmd_encrypt args r s = (Ok tt, s') -> Z.of_nat (length (so_out s')) <= MAX_ENVELOPE_LEN -> (0 < n)%nat ->
  exists cut rest, so_out s' = cut ++ rest /\
    forall r2, plain r2 -> reader_data r2 = cut ++ be_bytes 4 0 ->
      exists s3, cmd_decrypt (MkDecryptArgs input (ea_tier args) false) r2 s2 = (Ok tt, s3) /\
        so_out s3 = so_out s2 ++ concat (take n (chunks_of (ea_chunk_size args) (reader_data r))).
Proof.
  intros Hr Hne Hst Hid Hs0 Hp H Hmax Hn. apply encrypt_Ok in H as (t & salt & key & s1 & s1' & Ht & Hsalt & E1 & Hk & H); [|done]. rewrite Hst, Hid in *.
  destruct (command_key_same p _ _ _ _ _ _ Hp Hk) as [Eout _]. destruct H as (p' & s3 & Hp' & H).
  unfold seal_passphrase in Hp'. rewrite Hp in Hp'. injection Hp' as <- <-.
  apply encrypt_stream_Ok in H as (Hcs & salt2 & base & key2 & body & Hs2 & Hb & Hk2 & He & Hout); [|done].
  cbn [so_out] in Hout. rewrite Eout, E1, Hs0 in Hout. cbn [app] in Hout. destruct (chunks_of_spec _ (reader_data r) Hcs) as [Hcat Hsmall].
  set (chunks := chunks_of _ _) in *. assert (exists c cs, chunks = c :: cs) as (c & cs & Ec).
  { destruct chunks as [|c cs]; [by destruct (reader_data r)|by exists c, cs]. }
  rewrite <- (take_drop n chunks) in He. apply encrypt_chunks_app in He as (b1 & rest & Eb & ->).
  assert (20 <= length b1)%nat as Hlong. { rewrite Ec in Eb. destruct n; [lia|]. by apply encrypt_chunks_long in Eb. }
  exists (seal_header SEAL_STREAMED t salt2 base ++ b1), (rest ++ be_bytes 4 0). rewrite <- !app_assoc in *. split; [done|]. intros r2 Hr2 Hd.
  assert (length (b1 ++ be_bytes 4 0) = (length b1 + 4)%nat) as Hlb by (rewrite length_app, be_bytes_length; done).
  rewrite (decrypt_header _ r2 SEAL_STREAMED t salt2 base (b1 ++ be_bytes 4 0)); [|done|done|done|done|lia| |done|auto].
  - unfold command_key, argon2_key, seal_passphrase, lift, mbind, SE_mbind. cbn [da_identity]. rewrite Hp. cbn [map_err]. rewrite Hk2.
    change (negb (Z.land SEAL_STREAMED SEAL_STREAMED =? 0)) with true. cbv iota. rewrite (open_stream key2 base b1 (take n chunks)); [|by apply Forall_take|done].
    eexists. split; [reflexivity|done].
  - rewrite Hout in Hmax. destruct (header_parse SEAL_STREAMED t salt2 base (b1 ++ rest ++ be_bytes 4 0)) as [Hl _]; [done..|]. rewrite Hl, !length_app, be_bytes_length in Hmax. rewrite Hlb. lia.
Qed.

(** *** Signatures *)

Class SealSigOk `{NO : !NetCryptoOk} : Prop := {
  ed_signs : forall b m, ed_verify_pk (bundle_ed25519_pk b) m (ed_to_bytes (sign_hybrid b m).1) = true;
  falcon_signs : forall b m, falcon_verify_pk m (sign_hybrid b m).2 (bundle_falcon1024_pk b) = true
}.
Context `{SS : SealSigOk}.

(** A signature verifies with its seed and domain, also after it went over the wire. *)
Theorem seal_sign_verifies (seed data : bytes) (domain : string) (sig : SealSignature) :
  seal_sign seed domain data = Ok sig ->
  seal_verify seed domain data sig = Ok tt /\
  exists sig', from_wire (to_wire sig) = Ok sig' /\ ss_ed25519 sig' = ss_ed25519 sig /\ ss_falcon1024 sig' = ss_falcon1024 sig /\
    seal_verify seed domain data sig' = Ok tt.
Proof.
  unfold seal_sign. intros H. apply result_bind_Ok in H as (b & Hb & H). set (hs := sign_hybrid b data) in *.
  assert (sig = MkSealSig (ed_to_bytes hs.1) (falcon_as_bytes hs.2) domain) as -> by congruence. clear H.
  destruct (bundle_from_seed seed domain) as [b'|] eqn:Eb; [|done]. injection Hb as ->.
  assert (forall dom, seal_verify seed domain data (MkSealSig (ed_to_bytes hs.1) (falcon_as_bytes hs.2) dom) = Ok tt) as Hv.
  { intros dom. unfold seal_verify. rewrite Eb. cbn [map_err mbind result_mbind ss_ed25519 ss_falcon1024]. unfold falcon_bytes_verify.
    rewrite falcon_parse. unfold hs. by rewrite ed_signs, falcon_signs. }
  split; [apply Hv|]. exists (MkSealSig (ed_to_bytes hs.1) (falcon_as_bytes hs.2) ""). split_and!; [|done|done|apply Hv].
  pose proof (ed_len hs.1) as He. pose proof (falcon_len hs.2) as Hf. pose proof falcon_max as Hmax.
  unfold from_wire, to_wire, parse_wire. cbn [ss_ed25519 ss_falcon1024]. set (f := falcon_as_bytes hs.2) in *.
  assert (length (be_bytes 4 (Z.of_nat (length f)) ++ ed_to_bytes hs.1 ++ f) = (68 + length f)%nat) as Hl
    by (rewrite !length_app, be_bytes_length, He; lia).
  rewrite Hl. destruct (Nat.ltb_spec (68 + length f) 68); [lia|]. rewrite take_app_length' by (by rewrite be_bytes_length).
  rewrite be_val_bytes by (change (256 ^ Z.of_nat 4) with (2 ^ 32); lia). destruct (Z.eqb_spec (Z.of_nat (68 + length f)) (68 + Z.of_nat (length f))); [|lia].
  cbn [negb map_err mbind result_mbind]. replace 68%nat with (4 + length (ed_to_bytes hs.1))%nat at 1 by lia. rewrite slice_app by (by rewrite be_bytes_length).
  rewrite app_assoc, drop_app_length' by (by rewrite length_app, be_bytes_length, He). done.
Qed.
End Theory.

(** ** A small sealed file *)

Module SmallSeal.
#[local] Existing Instances Toy.sdk ToyDeleg.ops ToyDeleg.sign ToyDeleg.ok.
Definition pad (n : nat) (b : bytes) : bytes := take n (b ++ replicate n (byte_of 0)).
#[local] Instance cipher : XChaCha := {|
  xc_encrypt k n p := Ok (p ++ pad 16 k);
  xc_decrypt k n c := if bool_decide (drop (length c - 16) c = pad 16 k) then Ok (take (length c - 16) c) else Err "bad tag"
|}.
#[local] Instance ops : SealOps := {|
  seal_argon2 _ n p _ := Ok (pad n p);
  zstd_compress := Ok; zstd_compress_level _ := Ok; zstd_decompress := Ok;
  hkdf_blake3_32 seed _ := Ok (pad 32 seed); sha3_512 b := pad 64 b; hmac_sha3_256 k b := Ok (pad 32 (k ++ b));
  ed_verify_pk _ m sig := bool_decide (sig = replicate 64 (ToyNet.csum m));
  falcon_verify_pk m f _ := bool_decide ((f : ascii) = ToyNet.csum m);
  recover_seed _ _ _ := Err ""; json_from_text _ := Err ""
|}.
#[local] Instance env : SealEnv := {|
  prompt _ := Ok "pw"; seal_draw _ n := Ok (replicate n (byte_of 7)); origin_home := Ok tt; identity_seed _ := Ok (chars "seed")
|}.

Lemma toy_pad_length (n : nat) (b : bytes) : length (pad n b) = n.
Proof. unfold pad. rewrite length_take, length_app, length_replicate. lia. Qed.

#[local] Instance cipher_ok : XChaChaOk.
Proof.
  split; cbn [xc_encrypt xc_decrypt cipher]; intros k n p c E; assert (c = p ++ pad 16 k) as -> by congruence; rewrite length_app, toy_pad_length; [|done].
  rewrite Nat.add_sub, drop_app_length, take_app_length. by rewrite bool_decide_eq_true_2.
Qed.
#[local] Instance seal_ok : SealOk.
Proof.
  split; cbn; [|congruence]. intros _ n b E. assert (b = replicate n (byte_of 7)) as -> by congruence. apply length_replicate.
Qed.
#[local] Instance sig_ok : SealSigOk.
Proof. split; intros b m; apply bool_decide_eq_true_2; done. Qed.

Definition args (identity stream : bool) : EncryptArgs := MkEncryptArgs None "std" false 3 identity stream 1024.
Definition pieces : list ReadEvent := [Chunk (chars "he"); Interrupted; Chunk (chars "llo")].
Definition start : SealState := MkSealState [] 0 0.
Definition sealed_with (identity stream : bool) (r : list ReadEvent) : bytes := so_out (snd (cmd_encrypt (args identity stream) r start)).

Lemma plain_pieces : plain pieces.
Proof. repeat constructor; discriminate. Qed.
Lemma plain_one (b : bytes) : b <> [] -> plain [Chunk b].
Proof. by repeat constructor. Qed.


Lemma empty_stream_unreadable_witness :
  length (sealed_with false true []) = 52%nat /\
  cmd_decrypt (MkDecryptArgs None "std" false) [Chunk (sealed_with false true [])] start = (Err (Failed (too_short 52)), start).
Proof.
  apply (empty_stream_unreadable (args false true) (MkDecryptArgs None "std" false) [] [Chunk (sealed_with false true [])] start
    (snd (cmd_encrypt (args false true) [] start)) start); [constructor|by apply plain_one; vm_compute|done|done|done| |by vm_compute|by vm_compute].
  intros k. by exists "pw".
Defined.

Lemma identity_stream_unreadable_witness :
  exists t key salt key2 nonce chunk ct, first32 id (seal_argon2 t 32 (chars (hex_encode key)) salt) = Ok key2 /\ xc_encrypt key2 nonce chunk = Ok ct /\
    forall e, xc_decrypt key nonce ct = Err e ->
      exists s3, cmd_decrypt (MkDecryptArgs None "std" true) [Chunk (sealed_with true true pieces)] start
                 = (Err (Failed "chunk 0 decryption failed (corrupt or wrong key)"), s3) /\ so_out s3 = so_out start.
Proof.
  apply (identity_stream_unreadable (args true true) "pw" pieces [Chunk (sealed_with true true pieces)] start
    (snd (cmd_encrypt (args true true) pieces start)) start None);
    [exact plain_pieces|by apply plain_one; vm_compute|done|done|done|done|done|by vm_compute|by vm_compute|by vm_compute].
Defined.

(** The cipher does reject it. *)
Lemma identity_stream_rejected :
  fst (cmd_decrypt (MkDecryptArgs None "std" true) [Chunk (sealed_with true true pieces)] start) =
  Err (Failed "chunk 0 decryption failed (corrupt or wrong key)").
Proof. by vm_compute. Qed.

Lemma cut_stream_opens_witness :
  exists cut rest, sealed_with false true pieces = cut ++ rest /\
    forall r2, plain r2 -> reader_data r2 = cut ++ be_bytes 4 0 ->
      exists s3, cmd_decrypt (MkDecryptArgs None "std" false) r2 start = (Ok tt, s3) /\
        so_out s3 = [] ++ concat (take 1 (chunks_of 1024 (chars "hello"))).
Proof.
  apply (cut_stream_opens (args false true) "pw" pieces start (snd (cmd_encrypt (args false true) pieces start)) start None 1);
    [exact plain_pieces|done|done|done|done|done|by vm_compute|by vm_compute|lia].
Defined.

Definition small_sig : SealSignature := MkSealSig (replicate 64 (ToyNet.csum (chars "m"))) [ToyNet.csum (chars "m")] "d".
Lemma seal_sign_verifies_witness :
  seal_sign (chars "seed") "d" (chars "m") = Ok small_sig /\ seal_verify (chars "seed") "d" (chars "m") small_sig = Ok tt.
Proof.
  assert (seal_sign (chars "seed") "d" (chars "m") = Ok small_sig) as H by done. split; [exact H|].
  by destruct (seal_sign_verifies (chars "seed") (chars "m") "d" small_sig H) as [Hv _].
Defined.
End SmallSeal.
