(* ===== verification/ShardFiles.v ===== *)
(** * Splitting a file into shards (origin-shard/src/api.rs, commands.rs)

    A directory is a map from paths to contents.  Writing a file may fail
    before it is opened or after some bytes, reading may fail; which effect
    fails is a parameter.  The Reed-Solomon codec and the JSON text of the
    metadata are parameters. *)

From Stdlib Require Import Ascii String.
From S2P Require Import Prelude RustStr Bytes RustText Sdk Envelope StateErr PassOcra PassVault Secrets Seal.

(** ** Errors ([error.rs]) *)

Inductive ShardError := InvalidConfig (s : string) | Codec (s : string) | NotEnoughShards (s : string) | ShardSize (s : string) | ShardIoError (s : string).

Definition shard_error_display (e : ShardError) : string :=
  match e with
  | InvalidConfig s => "invalid shard configuration: " +:+ s
  | Codec s => "reed-solomon: " +:+ s
  | NotEnoughShards s => "not enough shards: " +:+ s
  | ShardSize s => "shard size mismatch: " +:+ s
  | ShardIoError s => "io: " +:+ s
  end.

(** ** Parameters *)

Class ShardOps := {
  (** [ReedSolomonCodec::new(data, parity)] with [encode_shards], [decode_shards]. *)
  rsc_encode : Z -> Z -> bytes -> result string (list bytes);
  rsc_decode : Z -> Z -> list (option bytes) -> Z -> result string bytes;
  (** [serde_json::to_string_pretty], [from_str]. *)
  json_pretty : json -> bytes;
  json_of_text : bytes -> result string json
}.

(** A failing write leaves the file alone, or leaves a prefix in it. *)
Class ShardIo := {
  write_fault : nat -> option (string * option nat);
  io_fault : nat -> option string
}.

(** ** The library *)

Definition debug_list (l : list Z) : string := "[" +:+ String.concat ", " (map show_Z l) +:+ "]".
Definition is_present (s : option bytes) : bool := bool_decide (is_Some s).
Definition missing (shards : list (option bytes)) : list Z :=
  map (fun x => Z.of_nat (fst x)) (List.filter (fun x => negb (is_present (snd x))) (imap pair shards)).

Section Api.
Context `{SO : ShardOps}.

Definition api_split (data : bytes) (data_shards parity_shards : Z) : result ShardError (list bytes) :=
  if (data_shards =? 0) || (parity_shards =? 0) then Err (InvalidConfig "data_shards and parity_shards must both be >= 1")
  else if bool_decide (data = []) then Err (InvalidConfig "input data must not be empty")
  else map_err (fun e => Codec ("encode failed: " +:+ e)) (rsc_encode data_shards parity_shards data).

Definition api_recover (shards : list (option bytes)) (data_shards parity_shards original_data_len : Z) : result ShardError bytes :=
  if (data_shards =? 0) || (parity_shards =? 0) then Err (InvalidConfig "data_shards and parity_shards must both be >= 1")
  else if original_data_len =? 0 then Err (InvalidConfig "original_data_len must be > 0")
  else
    let total := wrap_u64 (data_shards + parity_shards) in
    if negb (Z.of_nat (length shards) =? total)
    then Err (InvalidConfig ("expected " +:+ show_Z total +:+ " shards, got " +:+ show_Z (Z.of_nat (length shards))))
    else
      let present := Z.of_nat (length (List.filter is_present shards)) in
      if present <? data_shards
      then Err (NotEnoughShards ("have " +:+ show_Z present +:+ ", need at least " +:+ show_Z data_shards +:+ " (missing: " +:+ debug_list (missing shards) +:+ ")"))
      else map_err (fun e => Codec ("decode failed: " +:+ e)) (rsc_decode data_shards parity_shards shards original_data_len).
End Api.

(** ** The commands *)

Record ShardDir := MkShardDir { sd_files : gmap string bytes; sd_tick : nat }.
Abbreviation ShardM := (SE ShardDir (SealStop string)).

Definition sfail {A : Type} (e : string) : ShardM A := throw (Failed e).
Definition stry {A : Type} (r : result string A) : ShardM A := lift (map_err Failed r).

Record SplitArgs := MkSplitArgs { sp_input : option string; sp_output : string; sp_data_shards : Z; sp_parity_shards : Z }.
Record ShardRecoverArgs := MkShardRecoverArgs { sr_input : string; sr_data_shards : Z; sr_parity_shards : Z }.

Definition shard_file (dir : string) (i : Z) : string := dir +:+ "/shard_" +:+ pad_zeros 3 i +:+ ".bin".
Definition metadata_file (dir : string) : string := dir +:+ "/metadata.json".

Definition shard_metadata (len shard_size data_shards parity_shards : Z) : json :=
  JObj [("original_data_len", JNum len); ("shard_size", JNum shard_size); ("data_shards", JNum data_shards); ("parity_shards", JNum parity_shards)].

(** [meta[k].as_u64().unwrap_or(0)]. *)
Definition meta_u64 (k : string) (v : json) : Z :=
  match v with
  | JObj fields =>
      match List.find (fun kv => String.eqb (fst kv) k) fields with
      | Some (_, JNum n) => if (0 <=? n) && (n <=? u64_max) then n else 0
      | _ => 0
      end
  | _ => 0
  end.

Section Commands.
Context `{SO : ShardOps, IO : ShardIo}.

Definition shard_tick : ShardM nat := fun d => (Ok (sd_tick d), MkShardDir (sd_files d) (S (sd_tick d))).

Definition create_dir_all (dir : string) : ShardM unit :=
  t ← shard_tick; match io_fault t with Some e => sfail ("cannot create '" +:+ dir +:+ "': " +:+ e) | None => mret tt end.

Definition fs_write (what path : string) (b : bytes) : ShardM unit :=
  t ← shard_tick;
  match write_fault t with
  | None => modify (fun d => MkShardDir (<[path := b]> (sd_files d)) (sd_tick d))
  | Some (e, None) => sfail (what +:+ ": " +:+ e)
  | Some (e, Some n) => modify (fun d => MkShardDir (<[path := take n b]> (sd_files d)) (sd_tick d));; sfail (what +:+ ": " +:+ e)
  end.

Definition fs_read (what path : string) : ShardM bytes :=
  t ← shard_tick;
  f ← gets (fun d => sd_files d !! path);
  match io_fault t, f with
  | None, Some b => mret b
  | Some e, _ => sfail (what +:+ ": " +:+ e)
  | None, None => sfail (what +:+ ": not found")
  end.

Fixpoint write_shard_files (dir : string) (i : Z) (shards : list bytes) : ShardM unit :=
  match shards with
  | [] => mret tt
  | shard :: rest =>
      let path := shard_file dir i in
      fs_write ("cannot write '" +:+ path +:+ "'") path shard;;
      write_shard_files dir (i + 1) rest
  end.

Definition cmd_split (args : SplitArgs) (r : list ReadEvent) : ShardM unit :=
  if sp_data_shards args =? 0 then sfail "data_shards must be >= 1"
  else if sp_parity_shards args =? 0 then sfail "parity_shards must be >= 1"
  else
    data ← stry (read_input (sp_input args) r);
    if bool_decide (data = []) then sfail "input data must not be empty"
    else
      shards ← stry (map_err shard_error_display (api_split data (sp_data_shards args) (sp_parity_shards args)));
      create_dir_all (sp_output args);;
      match shards with
      | [] => throw SealPanic
      | first :: _ =>
          write_shard_files (sp_output args) 0 shards;;
          fs_write "cannot write metadata" (metadata_file (sp_output args))
            (json_pretty (shard_metadata (Z.of_nat (length data)) (Z.of_nat (length first)) (sp_data_shards args) (sp_parity_shards args)))
      end.

(** [for i in 0..total]: the shards that are there. *)
Fixpoint load_shards (dir : string) (shard_size : Z) (idxs : list Z) : ShardM (list (option bytes)) :=
  match idxs with
  | [] => mret []
  | i :: rest =>
      let path := shard_file dir i in
      there ← gets (fun d => bool_decide (is_Some (sd_files d !! path)));
      s ← (if there : bool then
             shard ← fs_read ("cannot read shard " +:+ show_Z i) path;
             if Z.of_nat (length shard) =? shard_size then mret (Some shard)
             else sfail ("shard " +:+ show_Z i +:+ " has wrong size: got " +:+ show_Z (Z.of_nat (length shard)) +:+ ", expected " +:+ show_Z shard_size)
           else mret None);
      ss ← load_shards dir shard_size rest;
      mret (s :: ss)
  end.

Definition cmd_recover_shards (args : ShardRecoverArgs) : ShardM bytes :=
  if sr_data_shards args =? 0 then sfail "data_shards must be >= 1"
  else if sr_parity_shards args =? 0 then sfail "parity_shards must be >= 1"
  else
    let meta_path := metadata_file (sr_input args) in
    raw ← fs_read ("cannot read metadata '" +:+ meta_path +:+ "'") meta_path;
    if negb (utf8_valid raw) then sfail ("cannot read metadata '" +:+ meta_path +:+ "': stream did not contain valid UTF-8")
    else
      meta ← stry (map_err (fun e => "cannot parse metadata: " +:+ e) (json_of_text raw));
      let original_data_len := meta_u64 "original_data_len" meta in
      let shard_size := meta_u64 "shard_size" meta in
      let total := wrap_u64 (sr_data_shards args + sr_parity_shards args) in
      if shard_size =? 0 then sfail "invalid shard_size in metadata"
      else if original_data_len =? 0 then sfail "invalid original_data_len in metadata"
      else
        shards ← load_shards (sr_input args) shard_size (seqZ 0 total);
        let present := Z.of_nat (length (List.filter is_present shards)) in
        if present <? sr_data_shards args
        then sfail ("not enough shards: have " +:+ show_Z present +:+ ", need at least " +:+ show_Z (sr_data_shards args) +:+ " (missing: "
                    +:+ debug_list (missing shards) +:+ ")")
        else stry (map_err shard_error_display (api_recover shards (sr_data_shards args) (sr_parity_shards args) original_data_len)).
End Commands.

(** ** Theory *)

Lemma digits_val_zeros (n : nat) (l : list ascii) : digits_val (replicate n "0"%char ++ l) = digits_val l.
Proof. unfold digits_val. induction n as [|n IH]; [done|exact IH]. Qed.

Lemma shard_file_inj (dir : string) (i j : Z) : 0 <= i -> 0 <= j -> shard_file dir i = shard_file dir j -> i = j.
Proof.
  intros Hi Hj E. apply (f_equal chars) in E. unfold shard_file in E. rewrite !chars_app in E. apply app_inv_head, app_inv_head in E.
  apply app_inv_tail in E. unfold pad_zeros in E. rewrite !chars_of_chars in E. apply (f_equal digits_val) in E. rewrite !digits_val_zeros in E.
  destruct (show_chars_spec i Hi) as (_ & _ & Ei). destruct (show_chars_spec j Hj) as (_ & _ & Ej). congruence.
Qed.

Lemma shard_not_metadata (dir : string) (i : Z) : shard_file dir i <> metadata_file dir.
Proof. intros E. apply (f_equal chars) in E. unfold shard_file, metadata_file in E. rewrite !chars_app in E. apply app_inv_head in E. discriminate. Qed.

(** What the commands rely on: [k] shards of an encoding give the data back,
    there are [k + m] of them and all have one size; JSON reads back. *)
Class ShardOk `{SO : ShardOps} : Prop := {
  rsc_decodes : forall k m data shards opts, rsc_encode k m data = Ok shards -> length opts = length shards ->
    (forall i b, opts !! i = Some (Some b) -> shards !! i = Some b) -> k <= Z.of_nat (length (List.filter is_present opts)) ->
    rsc_decode k m opts (Z.of_nat (length data)) = Ok data;
  rsc_count : forall k m data shards, rsc_encode k m data = Ok shards -> Z.of_nat (length shards) = k + m;
  rsc_size : forall k m data shards, rsc_encode k m data = Ok shards ->
    exists n, 0 < Z.of_nat n <= u64_max /\ Forall (fun s => length s = n) shards;
  json_pretty_reads : forall j, json_of_text (json_pretty j) = Ok j /\ utf8_valid (json_pretty j) = true
}.

Section Theory.
Context `{SO : ShardOps, IO : ShardIo}.
Context {OK : ShardOk}.

Lemma fs_write_Ok (what path : string) (b : bytes) (d d' : ShardDir) (u : unit) :
  fs_write what path b d = (Ok u, d') -> sd_files d' = <[path := b]> (sd_files d).
Proof.
  unfold fs_write, shard_tick, mbind, SE_mbind. cbn. destruct (write_fault _) as [[e [n|]]|]; [done|done|]. by intros [= _ <-].
Qed.

Lemma write_shard_files_Ok (dir : string) (shards : list bytes) (i : Z) (d d' : ShardDir) (u : unit) :
  0 <= i -> write_shard_files dir i shards d = (Ok u, d') ->
  (forall j, (j < length shards)%nat -> sd_files d' !! shard_file dir (i + Z.of_nat j) = shards !! j) /\
  (forall j, 0 <= j < i -> sd_files d' !! shard_file dir j = sd_files d !! shard_file dir j).
Proof.
  revert i d. induction shards as [|s l IH]; intros i d Hi H; cbn [write_shard_files] in H; [injection H as _ <-; split; [intros j Hj; cbn in Hj; lia|done]|].
  apply SE_bind_Ok in H as (u1 & d1 & H1%fs_write_Ok & H). apply IH in H as [Hall Hkeep]; [|lia]. split.
  - intros [|j] Hj.
    + cbn [lookup list_lookup]. rewrite Z.add_0_r. rewrite Hkeep by lia. by rewrite H1, lookup_insert_eq.
    + cbn [length] in Hj. specialize (Hall j ltac:(lia)). replace (i + Z.of_nat (S j)) with (i + 1 + Z.of_nat j) by lia. exact Hall.
  - intros j Hj. rewrite Hkeep by lia. rewrite H1, lookup_insert_ne; [done|]. intros E%shard_file_inj; lia.
Qed.

(** What a split that succeeded left behind. *)
Lemma split_Ok (args : SplitArgs) (r : list ReadEvent) (d d1 : ShardDir) (u : unit) :
  plain r -> cmd_split args r d = (Ok u, d1) ->
  exists shards first, rsc_encode (sp_data_shards args) (sp_parity_shards args) (reader_data r) = Ok shards /\ reader_data r <> [] /\
    sp_data_shards args <> 0 /\ sp_parity_shards args <> 0 /\ head shards = Some first /\
    (forall j, (j < length shards)%nat -> sd_files d1 !! shard_file (sp_output args) (Z.of_nat j) = shards !! j) /\
    sd_files d1 !! metadata_file (sp_output args) = Some (json_pretty
      (shard_metadata (Z.of_nat (length (reader_data r))) (Z.of_nat (length first)) (sp_data_shards args) (sp_parity_shards args))).
Proof.
  intros Hr H. unfold cmd_split in H. destruct (Z.eqb_spec (sp_data_shards args) 0); [done|]. destruct (Z.eqb_spec (sp_parity_shards args) 0); [done|].
  unfold read_input in H. rewrite read_to_end_plain in H by done. apply SE_bind_Ok in H as (data & d0 & Hd & H). injection Hd as <- <-.
  case_bool_decide as Hne; [done|]. apply SE_bind_Ok in H as (shards & d2 & Hs & H). unfold stry, lift in Hs.
  assert (rsc_encode (sp_data_shards args) (sp_parity_shards args) (reader_data r) = Ok shards /\ d2 = d) as [Henc ->].
  { unfold api_split in Hs. destruct (Z.eqb_spec (sp_data_shards args) 0); [done|]. destruct (Z.eqb_spec (sp_parity_shards args) 0); [done|].
    cbn [orb] in Hs. rewrite bool_decide_eq_false_2 in Hs by done. destruct (rsc_encode _ _ _); [|done]. by injection Hs as <- <-. }
  apply SE_bind_Ok in H as (u1 & d3 & _ & H). destruct shards as [|first l]; [done|]. exists (first :: l), first.
  apply SE_bind_Ok in H as (u2 & d4 & [Hall _]%write_shard_files_Ok & H); [|lia]. apply fs_write_Ok in H. split_and!; try done.
  - intros j Hj. rewrite H, lookup_insert_ne; [by apply Hall|]. intros E. symmetry in E. by apply shard_not_metadata in E.
  - by rewrite H, lookup_insert_eq.
Qed.

Context (quiet : forall t, io_fault t = None).

Lemma fs_read_run (what path : string) (b : bytes) (d : ShardDir) :
  sd_files d !! path = Some b -> fs_read what path d = (Ok b, MkShardDir (sd_files d) (S (sd_tick d))).
Proof. intros E. unfold fs_read, shard_tick, gets, mbind, SE_mbind. cbn. by rewrite quiet, E. Qed.

Lemma load_shards_run (dir : string) (size : Z) (idxs : list Z) (d : ShardDir) :
  (forall i b, i ∈ idxs -> sd_files d !! shard_file dir i = Some b -> Z.of_nat (length b) = size) ->
  exists d', load_shards dir size idxs d = (Ok (map (fun i => sd_files d !! shard_file dir i) idxs), d').
Proof.
  revert d. induction idxs as [|i idxs IH]; intros d Hs; [by eexists|]. cbn [load_shards map]. unfold mbind at 1, SE_mbind at 1, gets.
  destruct (sd_files d !! shard_file dir i) as [b|] eqn:E.
  - rewrite bool_decide_eq_true_2 by done. unfold mbind, SE_mbind. rewrite (fs_read_run _ _ b) by done.
    rewrite (Hs i b) by (done || left). rewrite Z.eqb_refl. cbn [mret SE_mret].
    destruct (IH (MkShardDir (sd_files d) (S (sd_tick d)))) as [d' ->]; [intros j b' Hj; apply Hs; by right|]. by eexists.
  - rewrite bool_decide_eq_false_2 by (by intros [? ?]). unfold mbind, SE_mbind. cbn [mret SE_mret].
    destruct (IH d) as [d' ->]; [intros j b' Hj; apply Hs; by right|]. by eexists.
Qed.

Lemma stry_bind {A B : Type} (a : A) (f : A -> ShardM B) (d : ShardDir) : (stry (Ok a) ≫= f) d = f a d.
Proof. done. Qed.

Lemma metadata_reads (len size k m : Z) : 0 <= len <= u64_max -> 0 <= size <= u64_max ->
  meta_u64 "original_data_len" (shard_metadata len size k m) = len /\ meta_u64 "shard_size" (shard_metadata len size k m) = size.
Proof.
  intros Hl Hs. cbn. destruct (Z.leb_spec 0 len), (Z.leb_spec len u64_max), (Z.leb_spec 0 size), (Z.leb_spec size u64_max); try lia. done.
Qed.

(** The library recovers from any [k] shards of a split. *)
Lemma api_recover_run (k m : Z) (data : bytes) (shards : list bytes) (opts : list (option bytes)) :
  rsc_encode k m data = Ok shards -> data <> [] -> 0 < k -> 0 < m -> k + m <= u64_max -> length opts = length shards ->
  (forall i b, opts !! i = Some (Some b) -> shards !! i = Some b) -> k <= Z.of_nat (length (List.filter is_present opts)) ->
  api_recover opts k m (Z.of_nat (length data)) = Ok data.
Proof.
  intros Henc Hne Hk Hm Hmax Hl Hin Hp. pose proof (rsc_count _ _ _ _ Henc) as Hcount. unfold api_recover.
  destruct (Z.eqb_spec k 0); [lia|]. destruct (Z.eqb_spec m 0); [lia|]. cbn [orb].
  destruct (Z.eqb_spec (Z.of_nat (length data)) 0); [destruct data; [done|cbn in *; lia]|].
  rewrite wrap_u64_id by (unfold in_u64; lia). destruct (Z.eqb_spec (Z.of_nat (length opts)) (k + m)); [|lia]. cbn [negb].
  destruct (Z.ltb_spec (Z.of_nat (length (List.filter is_present opts))) k); [lia|]. by rewrite (rsc_decodes k m data shards opts).
Qed.

(** Shards that are there and shards that are not. *)
Lemma present_absent {A : Type} (f : A -> option bytes) (l : list A) :
  (length (List.filter is_present (map f l)) + length (List.filter (fun i => negb (is_present (f i))) l) = length l)%nat.
Proof. induction l as [|i l IH]; [done|]. cbn [map List.filter]. destruct (is_present (f i)); cbn [negb length]; lia. Qed.

(** C32: Without read errors, a file that was split is recovered from its
    directory as long as no more shard files are gone than there are parity
    shards, whatever else is in the directory. *)
Theorem split_files_recover (args : SplitArgs) (r : list ReadEvent) (d d1 d2 : ShardDir) :
  plain r -> Z.of_nat (length (reader_data r)) <= u64_max -> 0 <= sp_data_shards args -> 0 <= sp_parity_shards args ->
  sp_data_shards args + sp_parity_shards args <= u64_max -> cmd_split args r d = (Ok tt, d1) ->
  let file i := shard_file (sp_output args) i in
  let all := seqZ 0 (sp_data_shards args + sp_parity_shards args) in
  sd_files d2 !! metadata_file (sp_output args) = sd_files d1 !! metadata_file (sp_output args) ->
  (forall i, i ∈ all -> sd_files d2 !! file i = None \/ sd_files d2 !! file i = sd_files d1 !! file i) ->
  Z.of_nat (length (List.filter (fun i => negb (is_present (sd_files d2 !! file i))) all)) <= sp_parity_shards args ->
  exists d3, cmd_recover_shards (MkShardRecoverArgs (sp_output args) (sp_data_shards args) (sp_parity_shards args)) d2 = (Ok (reader_data r), d3).
Proof.
  intros Hr Hlen Hk0 Hm0 Hmax Hsplit file all Hmeta Hfiles Hgone.
  destruct (split_Ok _ _ _ _ _ Hr Hsplit) as (shards & first & Henc & Hne & Hk & Hm & Hfirst & Hall & Hj).
  set (k := sp_data_shards args) in *. set (m := sp_parity_shards args) in *. set (data := reader_data r) in *.
  pose proof (rsc_count _ _ _ _ Henc) as Hcount. destruct (rsc_size _ _ _ _ Henc) as (n & Hn & Hsize).
  assert (length first = n) as Hf by (destruct shards; [done|]; injection Hfirst as ->; by inversion Hsize).
  set (opts := map (fun i => sd_files d2 !! file i) all).
  assert (length opts = length shards) as Hol by (unfold opts, all; rewrite length_map, length_seqZ; lia).
  assert (forall i b, opts !! i = Some (Some b) -> shards !! i = Some b) as Hin.
  { intros i b Hi. unfold opts, all in Hi. rewrite list_lookup_fmap, fmap_Some in Hi. destruct Hi as (z & Hz & Eb).
    pose proof Hz as Hz'. apply lookup_seqZ in Hz as [-> Hz]. rewrite Z.add_0_l in *.
    destruct (Hfiles (Z.of_nat i)) as [En|Es]; [by eapply list_elem_of_lookup_2|congruence|]. rewrite <- (Hall i) by lia. unfold file in *. congruence. }
  assert (k <= Z.of_nat (length (List.filter is_present opts))) as Hpresent.
  { pose proof (present_absent (fun i => sd_files d2 !! file i) all) as Hc. fold opts in Hc. unfold all in Hc at 2. rewrite length_seqZ in Hc. lia. }
  destruct (load_shards_run (sp_output args) (Z.of_nat n) all (MkShardDir (sd_files d2) (S (sd_tick d2)))) as [d3 Hload].
  { cbn [sd_files]. intros i b Hi Eb. destruct (Hfiles i Hi) as [En|Es]; [unfold file in *; congruence|]. unfold file in Es. rewrite Eb in Es. symmetry in Es.
    unfold all in Hi. apply elem_of_seqZ in Hi. specialize (Hall (Z.to_nat i) ltac:(lia)). rewrite Z2Nat.id in Hall by lia. rewrite Es in Hall.
    symmetry in Hall. apply (Forall_lookup_1 _ _ _ _ Hsize) in Hall. lia. }
  change (map _ all) with opts in Hload.
  unfold cmd_recover_shards. cbn [sr_data_shards sr_parity_shards sr_input]. destruct (Z.eqb_spec k 0); [done|]. destruct (Z.eqb_spec m 0); [done|].
  unfold mbind at 1, SE_mbind at 1. rewrite Hj in Hmeta. rewrite (fs_read_run _ _ _ _ Hmeta).
  destruct (json_pretty_reads (shard_metadata (Z.of_nat (length data)) (Z.of_nat (length first)) k m)) as [-> ->]. cbn [negb map_err]. rewrite stry_bind.
  destruct (metadata_reads (Z.of_nat (length data)) (Z.of_nat (length first)) k m) as [-> ->]; [lia|lia|]. rewrite Hf.
  destruct (Z.eqb_spec (Z.of_nat n) 0); [lia|]. destruct (Z.eqb_spec (Z.of_nat (length data)) 0); [destruct data; [done|cbn in *; lia]|].
  rewrite wrap_u64_id by (unfold in_u64; lia). fold all. unfold mbind, SE_mbind. rewrite Hload.
  destruct (Z.ltb_spec (Z.of_nat (length (List.filter is_present opts))) k); [lia|].
  rewrite (api_recover_run k m data shards opts) by (done || lia). by eexists.
Qed.
End Theory.

(** ** A small split *)

Module SmallShards.
#[local] Instance ops : ShardOps := {|
  rsc_encode k m data :=
    if (0 <? k) && (0 <? m) && negb (bool_decide (data = [])) && (Z.of_nat (length data) <=? u64_max) then Ok (replicate (Z.to_nat (k + m)) data)
    else Err "bad configuration";
  rsc_decode _ _ opts _ := match omap id opts with b :: _ => Ok b | [] => Err "no shard" end;
  json_pretty j := ToyLedger.pos_bytes (encode j);
  json_of_text b := match decode (ToyLedger.bytes_pos b) with Some j => Ok j | None => Err "not JSON" end |}.
#[local] Instance calm : ShardIo := {| write_fault _ := None; io_fault _ := None |}.

Lemma pos_bytes_utf8 (p : positive) : utf8_valid (ToyLedger.pos_bytes p) = true.
Proof. by induction p. Qed.

(** The condition under which the toy code encodes. *)
Lemma toy_encoded (k m : Z) (data : bytes) (shards : list bytes) :
  rsc_encode k m data = Ok shards -> 0 < k /\ 0 < m /\ data <> [] /\ Z.of_nat (length data) <= u64_max /\ shards = replicate (Z.to_nat (k + m)) data.
Proof.
  cbn [rsc_encode ops]. intros Henc. match type of Henc with (if ?c then _ else _) = _ => destruct c eqn:E; [|done] end.
  rewrite !andb_true_iff, negb_true_iff, bool_decide_eq_false, !Z.ltb_lt, Z.leb_le in E. repeat split; try tauto. congruence.
Qed.

#[local] Instance ops_ok : ShardOk.
Proof.
  constructor.
  - intros k m data shards opts Henc Hl Hin Hk. apply toy_encoded in Henc as (Hk0 & _ & _ & _ & ->). cbn [rsc_decode ops]. destruct (omap id opts) as [|b l] eqn:E.
    + assert (List.filter is_present opts = []) as Hz; [|rewrite Hz in Hk; cbn in Hk; lia].
      clear -E. induction opts as [|[b|] opts IH]; [done|done|]. cbn in *. by apply IH.
    + assert (b ∈ omap id opts) as Hb by (rewrite E; left). apply list_elem_of_omap in Hb as (x & Hx & Ex). cbn in Ex. subst x.
      apply list_elem_of_lookup in Hx as [i Hi]. by apply Hin, lookup_replicate in Hi as [-> _].
  - intros k m data shards Henc. apply toy_encoded in Henc as (? & ? & _ & _ & ->). rewrite length_replicate. lia.
  - intros k m data shards Henc. apply toy_encoded in Henc as (_ & _ & Hne & Hle & ->).
    exists (length data). split; [destruct data; [done|cbn in *; lia]|]. by apply Forall_replicate.
  - intros j. cbn. by rewrite ToyLedger.bytes_pos_bytes, decode_encode, pos_bytes_utf8.
Qed.

Definition args : SplitArgs := MkSplitArgs None "out" 2 1.
Definition pieces : list ReadEvent := [Chunk (chars "da"); Interrupted; Chunk (chars "ta")].
Definition written : ShardDir := snd (cmd_split args pieces (MkShardDir ∅ 0)).
(** The first shard is lost. *)
Definition damaged : ShardDir := MkShardDir (delete (shard_file "out" 0) (sd_files written)) 0.

Lemma split_files_recover_witness : exists d3, cmd_recover_shards (MkShardRecoverArgs "out" 2 1) damaged = (Ok (chars "data"), d3).
Proof.
  refine (split_files_recover (IO := calm) (fun _ => eq_refl) args pieces (MkShardDir ∅ 0) written damaged _ _ _ _ _ _ _ _ _).
  - repeat constructor; discriminate.
  - by vm_compute.
  - done.
  - done.
  - by vm_compute.
  - by vm_compute.
  - by vm_compute.
  - apply Forall_forall. apply (bool_decide_eq_true_1 _). by vm_compute.
  - by vm_compute.
Defined.
End SmallShards.
